(* ===== verification/_CoqProject ===== *)
-Q . S2P
Prelude.v
Addrs.v
Paging.v
Ranges.v
HeapUtils.v
Buddy.v
Slab.v
Hybrid.v
PageTable.v
PageTree.v
PageMap.v
FatTable.v
FatIface.v
FatFile.v
FatDate.v
Dirent.v
FatDir.v
Bs.v
Threads.v
RwLock.v
FairLock.v
TicketLock.v
Mcs.v
MuMcs.v
Once.v
Barrier.v
Ring.v
Mpmc.v
MpmcSeq.v
Mpsc.v
Elf.v
KernelMem.v
Pmap.v
NetUtils.v
NetIface.v
Ethernet.v
Ip.v
Arp.v
Icmp.v
Udp.v
Tcp.v
NetWire.v
NetStack.v
Vfs.v
DevFs.v
InMem.v
VfsSpec.v
Syscall.v
SyscallSpec.v
Time.v
Thread.v
Sched.v
SchedSmp.v
Keyboard.v
UserIo.v
Ps2.v
Bits.v
Xhci.v
Nvme.v
Video.v
Screen.v
Cells.v
AsciiUi.v
Tty.v
Shell.v
