(* ===== verification/Prelude.v ===== *)
(** * BeskarOS: a verification development

    BeskarOS is an operating system kernel in Rust.  Its crates are
    [beskar-core] (types shared by the boot loader, the kernel and user programs:
    addresses, pages, memory ranges, time, video), [beskar-hal] (the processor:
    page tables, ports, registers), [heaperion] (the kernel heap), [hyperdrive]
    (locks and queues), [bootloader], [kernel] with its foundry of libraries
    ([acpi], [pci], [holonet] for the network, [storage], [video]), and user space.
    The kernel takes physical frames and virtual pages from sets of address
    ranges, maps pages to frames in page tables, and builds its heap on mapped
    memory; the storage library keeps files on FAT volumes.  Drivers bring in key
    events and talk to USB and disk controllers through rings in memory; the kernel
    and user programs share the screen, on which a shell runs.

    ** The model

    Rust code is translated to functions.  An unsigned integer of [w] bits is a [Z];
    arithmetic that panics on overflow is [add_w], [sub_w], [mul_w] into the type
    [out] (a value or [Panic]), and wrapping, saturating and bit operations are
    written out.  A [Result] is [result]; code that changes a state and returns a
    [Result] is in the monad [eff], whose bind keeps the updates made before an
    error, as [?] does.  Loops are structural recursions with fuel that give
    [Panic] when the fuel is used up, and the theorems about them prove that the
    code returns: the fuel given in the definitions is always enough.  Raw memory
    is a finite map from addresses to the words that the code keeps in it.

    Concurrent code is modelled by the steps of one thread or core, each of which
    does one access to the shared state; a configuration is the shared state with
    the control state of every thread, and all interleavings are considered.  They
    are sequentially consistent: the reorderings of weaker memory models are outside
    of the model, so the choice between [Acquire], [Release] and [Relaxed] is not
    verified.

    ** The files

    Memory:
    - This file: the monads, machine integers, lemmas on bits and alignment, on
      lists, and on iterators ([collect]).
    - [Addrs] ([beskar-core/src/arch/addrs.rs]): [Alignment], [VirtAddr], [PhysAddr].
      Canonical form, indices into page tables and their inverse, alignment.
    - [Paging] ([beskar-core/src/arch/paging*]): pages, frames, inclusive ranges and
      their iterators in both directions, with the exact sequence they yield.
    - [Ranges] ([beskar-core/src/mem/ranges.rs]): sets of addresses as a bounded array
      of ranges; [insert], [allocate], [allocate_req], [intersection] against the
      set they denote.
    - [HeapUtils], [Buddy], [Slab], [Hybrid] ([heaperion/src]): the heap.  The class
      [HeapLaws] of [Hybrid] is the contract of an allocator (areas in use are
      disjoint and inside the region, nothing else is written); the allocators of
      [Buddy] and [Slab] discharge it, and [HybridAllocator] is proved against it
      and discharges it again.
    - [PageTable], [PageTree], [PageMap] ([beskar-hal/src/x86_64/paging/page_table.rs]):
      [PageTable] has the entries, flags and operations of the recursive and of the
      offset page table.  [PageTree] relates the words of physical memory to the
      tree of tables they encode.  [PageMap] proves the operations against that
      tree: the processor is the class [Mmu] with the laws [MmuLaws] (an access
      through a recursive address reaches the table that the walk finds), and the
      supply of frames is [FrameAllocator] with [FrameAllocatorLaws]; instances of
      both at the end of the file show that the laws can be met.
    - [KernelMem] ([kernel/src/mem]): the allocators of pages and frames, which meet
      these laws, and address spaces, whose [alloc_map] and [unmap_free] compose
      them with the page tables through the class [MapperLaws].
    - [Pmap]: mappings of physical memory for drivers, from creation to drop.
    - [Elf] ([kernel/src/process/binary]): the loader of programs over any mapper of
      memory: what it loads, that it stays in the region it was given, and that it
      returns for any input.

    Locks and queues ([hyperdrive/src]):
    - [Threads]: interleavings, counts and sums over threads.
    - [RwLock], [FairLock], [TicketLock], [Mcs], [MuMcs]: the locks; mutual exclusion,
      order of service, and that a lock that is released is taken.
    - [Once], [Barrier]: initialisation exactly once; rounds of a barrier.
    - [Ring], [Mpmc], [Mpsc]: the queues, which implement FIFO queues; [Mpsc] under
      the condition that its theorem states.  [MpmcSeq] has calls of
      [Mpmc] that do not overlap, and the class [BoundedQueue] for its users.

    Storage ([kernel/foundry/storage/src]):
    - [FatTable], [FatDate], [Dirent], [Bs]: the table of clusters in its three
      encodings, with allocation and release of chains; packed dates; directory
      entries; boot sectors and the choice of the parameters of a volume.
    - [FatIface], [FatFile], [FatDir]: files and directories on chains of clusters,
      over a class for the table (which [FatTable] discharges) and one for the
      device.
    - [Vfs], [DevFs], [InMem], [VfsSpec]: the virtual file system over the class
      [FileSystem], whose instances are the file system of devices and the
      in-memory one; [VfsSpec] has the theorems.

    Network ([kernel/foundry/holonet/src]):
    - [NetUtils]: slices of bytes, byte order and the Internet checksum against its
      definition.
    - [NetIface]: classes for headers that are emitted into and parsed from a buffer,
      and for headers that carry a payload, with the laws that compose them.
    - [Ethernet], [Ip], [Arp], [Icmp], [Udp], [Tcp]: the protocols, as instances.
    - [NetWire]: the formats of the standards, as bytes.
    - [NetStack]: theorems about whole frames, and that the parsers read these
      formats.

    Processes ([kernel/src]):
    - [Syscall], [SyscallSpec] ([syscall.rs]): the system calls over the virtual file
      system and the address space, from the values of registers.
    - [Time] ([beskar-core/src/time.rs], [process.rs]): instants, durations and reasons
      to sleep.
    - [Thread] ([process/scheduler/priority.rs], [sleep.rs], [thread.rs]): the queues of
      ready and of sleeping threads.
    - [Sched] ([process/scheduler.rs]): the functions of the scheduler on one core.
    - [SchedSmp]: the same functions as steps of any number of cores, with interrupts
      wherever they are enabled.

    Devices:
    - [Bits]: fields of registers and of entries in memory.
    - [Keyboard] ([beskar-core/src/drivers/keyboard.rs]): keys, key events and their
      form as a machine word, modifiers.
    - [Ps2] ([kernel/src/drivers/ps2.rs], [keyboard.rs], [beskar-lib/src/io/keyboard.rs]):
      the controller, scan code set 1, and the path of a key to a program.
    - [Xhci] ([kernel/src/drivers/usb]): the rings of the USB controller: a circular
      buffer for the driver; for the controller, until [push] overwrites the link.
    - [Nvme] ([kernel/src/drivers/storage/nvme]): the queues of the disk controller and
      the commands of its start-up.

    Screen and user programs:
    - [UserIo] ([beskar-lib/src/io.rs] and [io]): files, buffered readers and writers
      over the classes [Read] and [Write].
    - [Video] ([beskar-core/src/video.rs] and [video/writer.rs]): pixels, and text on a
      frame buffer against pages on which characters are set.  The shapes of the
      characters, from an external package, are the parameter [Font].
    - [Screen] ([kernel/foundry/video/src], [beskar-lib/src/io/screen.rs]): the device of
      the screen, the log, and the frame buffer of a program.
    - [Cells]: grids of characters over an image, the specification of what follows.
    - [AsciiUi] ([userspace/ascii-ui/src/lib.rs]): lines and boxes of characters.
    - [Tty], [Shell] ([userspace/bashkar/src]): the terminal with its line editor; the
      picture around it, the commands and the loop over key events, down to the
      pixels that the device of the kernel shows.

    ** What the theorems show

    - Invariants: the heap tiles its region ([buddy_ok], [slab_ok]); the ranges of a
      set stay disjoint and separate; the page tables stay a tree ([pt_inv]); the
      counter of a FAT is the number of its free clusters ([fat_wf]); every thread
      is at one place ([sched_inv]), and the queues of sleepers are a list of them
      in the order in which they fell asleep ([sleeps]).
    - Safety: a program is loaded only into its region, but for relocations at its
      edge and the flags of read-only ranges; a system call whose buffer does not
      wrap around changes only memory and handles of its process; locks exclude each
      other; two cores never have the same current thread, and a core always finds a
      thread to run, as long as calls on one queue do not overlap; the shell never
      panics, whatever is typed, and draws only in the cells of its terminal.
    - Refinement: the heap implements disjoint areas, a file on clusters a list of
      bytes with a position, the queues and, below their capacity, the rings FIFO
      queues, the locks queues of waiters, a frame buffer a page of text, the terminal a line,
      and the translation of addresses the walk through the tree of tables.
    - Behaviour on every branch: when an allocation succeeds, when it fails and when
      the code panics; what mapping, unmapping and changing the flags of a page do to
      the translation of every address; which packets are rejected.
    - Composition: memory for a process goes through the allocators of pages and
      frames and the page tables; reading a file through registers, handles, mount
      points and a file system; a frame through three headers; a key from its scan
      codes to a program; a command of the disk driver to its completion; a command from its keys through parser, terminal, frame
      buffer and system call to the screen.
    - Round trips: allocate and free, map and unmap, write and read an entry or a
      file, emit and parse a packet (but for the IPv4 flags), encode and decode a date.
    - Termination: iterators end, releasing a chain of clusters ends even if the
      chain is a cycle, and the loader and the in-memory file system return for any
      input.
    - Flaws that the model exposes are stated as theorems or lemmas about the
      concrete inputs that show them.

    ** What is not modelled

    Hardware (device registers, descriptor tables, interrupt controllers), inline
    assembly, firmware calls, the boot loader, ACPI tables and PCI configuration
    space (firmware tables in raw memory and port accesses), the start-up of drivers
    and their registers, the network card, the serial port, and the port of a game.
    Opening the frame buffer and the time at which the shell polls or waits are
    left out.  The shell is proved for any answers of the calls on the random device
    that leave the screens alone and read no more than was asked for.
    The caches of the processor are outside of the model of page tables, where the
    flushes that the code returns to its caller have no effect.  A page fault during
    a system call is outside of the model of system calls.  The operations of the
    virtual file system and of the queues that the scheduler uses are atomic in their
    clients.  For queues, [mpsc_calls_fifo] of [Mpsc] has that calls which do not
    overlap are those of a FIFO queue; for calls that do, [Mpsc] has a refinement under
    the condition of its theorem, and what happens without it.  Devices are what their
    manuals say of them: the keyboard sends scan code set 1, the USB controller goes
    by cycle bits and links, the disk controller answers each command once. *)

From stdpp Require Export base tactics decidable option list numbers gmap.
From Stdlib Require Export ZArith Lia Sorted.

Global Open Scope Z_scope.

Global Arguments Nat.ltb : simpl never.
Global Arguments Nat.leb : simpl never.
Global Arguments Nat.sub : simpl never.
Global Arguments Z.pow : simpl never.
Global Arguments Z.shiftl : simpl never.
Global Arguments Z.shiftr : simpl never.
Global Arguments Z.modulo : simpl never.
Global Arguments Z.testbit : simpl never.
Global Arguments Z.div : simpl never.

(** ** Panics and results

    Rust code either returns or panics.  [out A] is the value returned by a
    piece of code of type [A] in the development profile of the workspace:
    [Panic] stands for a failed [debug_assert!]/[assert!], an arithmetic
    overflow, an index out of bounds or an [unwrap] of [None].  The release
    profile drops the assertions and wraps the arithmetic; a theorem that
    a call does not panic makes both profiles agree on that call. *)

Inductive out (A : Type) : Type :=
| Ret (a : A)
| Panic.
Arguments Ret {A} a.
Arguments Panic {A}.

Global Instance out_ret : MRet out := λ A a, Ret a.
Global Instance out_bind : MBind out := λ A B f m,
  match m with Ret a => f a | Panic => Panic end.

(** Rust's [Result]. *)
Inductive result (A E : Type) : Type :=
| Ok (a : A)
| Err (e : E).
Arguments Ok {A E} a.
Arguments Err {A E} e.

(** [assert!], [debug_assert!]. *)
Definition assert_ (b : bool) : out unit := if b then Ret tt else Panic.

(** [Option::unwrap], [Option::expect], slice indexing. *)
Definition unwrap {A} (o : option A) : out A :=
  match o with Some a => Ret a | None => Panic end.

Definition is_ret {A} (m : out A) : bool :=
  match m with Ret _ => true | Panic => false end.

(** ** State, results and panics

    Code that updates a state [St] and returns a [Result]: [?] is the bind of
    this monad, which keeps the updates made before the error. *)
Definition eff (St E A : Type) : Type := St → out (St * result A E).

Global Instance eff_ret {St E} : MRet (eff St E) := λ A a s, Ret (s, Ok a).
Global Instance eff_bind {St E} : MBind (eff St E) := λ A B f m s,
  match m s with
  | Ret (s, Ok a) => f a s
  | Ret (s, Err e) => Ret (s, Err e)
  | Panic => Panic
  end.

(** [return Err(e)]. *)
Definition throw {St E A} (e : E) : eff St E A := λ s, Ret (s, Err e).

(** Code without a state that may panic. *)
Definition lift {St E A} (m : out A) : eff St E A := λ s, a ← m; Ret (s, Ok a).

(** [ok_or(e)?] *)
Definition ok_or {St E A} (o : option A) (e : E) : eff St E A :=
  match o with Some a => mret a | None => throw e end.

Lemma eff_bind_Ok {St E A B} (m : eff St E A) (f : A → eff St E B) s s' a :
  m s = Ret (s', Ok a) → (m ≫= f) s = f a s'.
Proof. intros H. unfold mbind, eff_bind. by rewrite H. Qed.

Lemma eff_bind_Err {St E A B} (m : eff St E A) (f : A → eff St E B) s s' e :
  m s = Ret (s', Err e) → (m ≫= f) s = Ret (s', Err e).
Proof. intros H. unfold mbind, eff_bind. by rewrite H. Qed.

Lemma eff_bind_inv {St E A B} (m : eff St E A) (f : A → eff St E B) s s' r :
  (m ≫= f) s = Ret (s', r) →
  (∃ e, m s = Ret (s', Err e) ∧ r = Err e) ∨ (∃ s1 a, m s = Ret (s1, Ok a) ∧ f a s1 = Ret (s', r)).
Proof.
  unfold mbind, eff_bind. destruct (m s) as [[s1 [a|e]]|]; [eauto | | done].
  intros [= -> <-]. eauto.
Qed.

Lemma eff_bind_lift {St E A B} (m : out A) (f : A → eff St E B) s a :
  m = Ret a → (lift m ≫= f) s = f a s.
Proof. intros ->. done. Qed.

Lemma bind_Ret {A B} (m : out A) (f : A → out B) b :
  (m ≫= f) = Ret b ↔ ∃ a, m = Ret a ∧ f a = Ret b.
Proof.
  split; [destruct m as [a|]; cbn; [eauto | done] |].
  by intros (a & -> & Hf).
Qed.

Lemma assert_Ret b u : assert_ b = Ret u ↔ b = true.
Proof. destruct u, b; cbn; naive_solver. Qed.

Lemma unwrap_Ret {A} (o : option A) a : unwrap o = Ret a ↔ o = Some a.
Proof. destruct o; cbn; naive_solver. Qed.

(** ** Machine integers

    A [w]-bit unsigned integer is a [Z] in [0, 2^w). *)

Definition is_uint (w x : Z) : Prop := 0 ≤ x < 2 ^ w.
Abbreviation is_u64 := (is_uint 64) (only parsing).

(** The overflow-checked operators [+], [-], [*] of width [w]. *)
Definition add_w (w a b : Z) : out Z :=
  if a + b <? 2 ^ w then Ret (a + b) else Panic.
Definition sub_w (a b : Z) : out Z :=
  if b <=? a then Ret (a - b) else Panic.
Definition mul_w (w a b : Z) : out Z :=
  if a * b <? 2 ^ w then Ret (a * b) else Panic.

(** [checked_add], [saturating_add], [saturating_sub], [wrapping_add]. *)
Definition checked_add (w a b : Z) : option Z :=
  if a + b <? 2 ^ w then Some (a + b) else None.
Definition saturating_add (w a b : Z) : Z := Z.min (a + b) (2 ^ w - 1).
Definition saturating_sub (a b : Z) : Z := Z.max 0 (a - b).
Definition wrapping_add (w a b : Z) : Z := (a + b) mod 2 ^ w.
Definition wrapping_sub (w a b : Z) : Z := (a - b) mod 2 ^ w.

(** [!x], [x << n] (bits shifted out are lost), [cast_signed],
    [cast_unsigned]. *)
Definition not_w (w x : Z) : Z := Z.lxor x (2 ^ w - 1).
Definition shl_w (w x n : Z) : Z := Z.shiftl x n mod 2 ^ w.
Definition cast_signed (w x : Z) : Z := if x <? 2 ^ (w - 1) then x else x - 2 ^ w.
Definition cast_unsigned (w x : Z) : Z := x mod 2 ^ w.

(** [next_power_of_two] (of a value for which it does not overflow). *)
Definition next_power_of_two (x : Z) : Z :=
  if x <=? 1 then 1 else 2 ^ Z.log2_up x.

Lemma add_w_Ret w a b c : add_w w a b = Ret c ↔ c = a + b ∧ a + b < 2 ^ w.
Proof. unfold add_w. destruct (Z.ltb_spec (a + b) (2 ^ w)); naive_solver lia. Qed.

Lemma sub_w_Ret a b c : sub_w a b = Ret c ↔ c = a - b ∧ b ≤ a.
Proof. unfold sub_w. destruct (Z.leb_spec b a); naive_solver lia. Qed.

Lemma mul_w_Ret w a b c : mul_w w a b = Ret c ↔ c = a * b ∧ a * b < 2 ^ w.
Proof. unfold mul_w. destruct (Z.ltb_spec (a * b) (2 ^ w)); naive_solver lia. Qed.

Lemma checked_add_Some w a b c :
  checked_add w a b = Some c ↔ c = a + b ∧ a + b < 2 ^ w.
Proof. unfold checked_add. destruct (Z.ltb_spec (a + b) (2 ^ w)); naive_solver lia. Qed.

Lemma checked_add_None w a b : checked_add w a b = None ↔ 2 ^ w ≤ a + b.
Proof. unfold checked_add. destruct (Z.ltb_spec (a + b) (2 ^ w)); naive_solver lia. Qed.

Lemma add_w_ok w a b : a + b < 2 ^ w → add_w w a b = Ret (a + b).
Proof. intros. by apply add_w_Ret. Qed.
Lemma sub_w_ok a b : b ≤ a → sub_w a b = Ret (a - b).
Proof. intros. by apply sub_w_Ret. Qed.
Lemma mul_w_ok w a b : a * b < 2 ^ w → mul_w w a b = Ret (a * b).
Proof. intros. by apply mul_w_Ret. Qed.

(** [is_power_of_two]: exactly one bit is set. *)
Definition is_power_of_two (x : Z) : bool := (0 <? x) && (Z.land x (x - 1) =? 0).

(** ** Masks and alignment *)

Lemma land_mask x k : 0 ≤ k → Z.land x (2 ^ k - 1) = x mod 2 ^ k.
Proof.
  intros Hk. replace (2 ^ k - 1) with (Z.ones k) by (rewrite Z.ones_equiv; lia).
  by apply Z.land_ones.
Qed.

Lemma pow2_pos k : 0 ≤ k → 0 < 2 ^ k.
Proof. intros. apply Z.pow_pos_nonneg; lia. Qed.

Lemma pow2_le a b : 0 ≤ a ≤ b → 2 ^ a ≤ 2 ^ b.
Proof. intros. apply Z.pow_le_mono_r; lia. Qed.

Lemma pow2_divide a b : 0 ≤ a ≤ b → (2 ^ a | 2 ^ b).
Proof.
  intros. exists (2 ^ (b - a)). rewrite <- Z.pow_add_r by lia. f_equal; lia.
Qed.

Lemma testbit_high w x i : is_uint w x → 0 ≤ w ≤ i → Z.testbit x i = false.
Proof.
  intros [Hx1 Hx2] Hi. rewrite Z.testbit_false by lia.
  rewrite Z.div_small; [done |]. pose proof (pow2_le w i). lia.
Qed.

Lemma not_w_spec w x : 0 ≤ w → is_uint w x → not_w w x = 2 ^ w - 1 - x.
Proof.
  intros Hw Hx. unfold not_w.
  assert (Z.lxor x (2 ^ w - 1) = Z.ldiff (2 ^ w - 1) x) as ->.
  { apply Z.bits_inj'. intros n Hn.
    rewrite Z.lxor_spec, Z.ldiff_spec.
    replace (2 ^ w - 1) with (Z.ones w) by (rewrite Z.ones_equiv; lia).
    destruct (decide (n < w)).
    - rewrite Z.ones_spec_low by lia. by destruct (Z.testbit x n).
    - rewrite Z.ones_spec_high by lia. by rewrite (testbit_high w x) by (done || lia). }
  symmetry. apply Z.sub_nocarry_ldiff.
  apply Z.bits_inj'. intros n Hn.
  rewrite Z.ldiff_spec, Z.bits_0.
  replace (2 ^ w - 1) with (Z.ones w) by (rewrite Z.ones_equiv; lia).
  destruct (decide (n < w)).
  - rewrite Z.ones_spec_low by lia. by rewrite andb_false_r.
  - by rewrite (testbit_high w x) by (done || lia).
Qed.

(** Clearing the low [k] bits: [x & !mask]. *)
Lemma land_not_mask w x k :
  0 ≤ k ≤ w → is_uint w x → Z.land x (not_w w (2 ^ k - 1)) = x - x mod 2 ^ k.
Proof.
  intros Hk Hx.
  assert (is_uint w (2 ^ k - 1)).
  { pose proof (pow2_le k w). pose proof (pow2_pos k). unfold is_uint. lia. }
  assert (Z.land x (not_w w (2 ^ k - 1)) = Z.ldiff x (2 ^ k - 1)) as ->.
  { unfold not_w. apply Z.bits_inj'. intros n Hn.
    rewrite Z.land_spec, Z.lxor_spec, Z.ldiff_spec.
    replace (2 ^ w - 1) with (Z.ones w) by (rewrite Z.ones_equiv; lia).
    destruct (decide (n < w)).
    - rewrite Z.ones_spec_low by lia. by rewrite xorb_true_r.
    - by rewrite (testbit_high w x) by (done || lia). }
  replace (2 ^ k - 1) with (Z.ones k) by (rewrite Z.ones_equiv; lia).
  rewrite Z.ldiff_ones_r by lia.
  rewrite Z.shiftl_mul_pow2, Z.shiftr_div_pow2 by lia.
  pose proof (pow2_pos k ltac:(lia)). pose proof (Z.div_mod x (2 ^ k) ltac:(lia)). lia.
Qed.

(** Or-ing a value into cleared low bits is an addition. *)
Lemma lor_low k x y :
  0 ≤ k → x mod 2 ^ k = 0 → 0 ≤ y < 2 ^ k → Z.lor x y = x + y.
Proof.
  intros Hk Hx Hy. pose proof (pow2_pos k Hk).
  assert (Z.land x y = 0) as Hl.
  { apply Z.bits_inj'. intros n Hn. rewrite Z.land_spec, Z.bits_0.
    destruct (decide (n < k)).
    - rewrite <- (Z.mod_pow2_bits_low x k n) by lia. rewrite Hx. by rewrite Z.bits_0.
    - rewrite (testbit_high k y); [by rewrite andb_false_r | done | lia]. }
  rewrite <- Z.lxor_lor, <- Z.add_nocarry_lxor; done.
Qed.

Lemma mul_pow2_mod_0 a j k : 0 ≤ k ≤ j → (a * 2 ^ j) mod 2 ^ k = 0.
Proof.
  intros. apply Z.mod_divide; [pose proof (pow2_pos k); lia |].
  apply Z.divide_mul_r, pow2_divide; lia.
Qed.

(** A field of [k] bits at offset [j]. *)
Lemma shiftr_land_mask x j k :
  0 ≤ j → 0 ≤ k → Z.land (Z.shiftr x j) (2 ^ k - 1) = (x / 2 ^ j) mod 2 ^ k.
Proof. intros. rewrite land_mask, Z.shiftr_div_pow2 by lia. done. Qed.

Lemma field_of_low x n j k :
  0 ≤ j → 0 ≤ k → j + k ≤ n →
  ((x mod 2 ^ n) / 2 ^ j) mod 2 ^ k = (x / 2 ^ j) mod 2 ^ k.
Proof.
  intros Hj Hk Hn.
  pose proof (pow2_pos j Hj). pose proof (pow2_pos k Hk). pose proof (pow2_pos n ltac:(lia)).
  rewrite (Z.div_mod x (2 ^ n)) at 2 by lia.
  replace (2 ^ n * (x / 2 ^ n)) with (x / 2 ^ n * 2 ^ (n - j - k) * 2 ^ k * 2 ^ j).
  - rewrite Z.add_comm, Z.div_add, Z.mod_add by lia. done.
  - rewrite <- !Z.mul_assoc, <- !Z.pow_add_r by lia.
    rewrite Z.mul_comm. do 2 f_equal. lia.
Qed.

(** Rounding up to a multiple of [2 ^ k]: [(x + mask) & !mask]. *)
Definition round_up (x m : Z) : Z := (x + (m - 1)) - (x + (m - 1)) mod m.

Lemma round_up_spec x m :
  0 < m →
  round_up x m mod m = 0 ∧ x ≤ round_up x m < x + m ∧
  ∀ y, y mod m = 0 → x ≤ y → round_up x m ≤ y.
Proof.
  intros Hm. unfold round_up.
  pose proof (Z.div_mod (x + (m - 1)) m ltac:(lia)).
  pose proof (Z.mod_pos_bound (x + (m - 1)) m Hm).
  set (q := (x + (m - 1)) / m) in *. set (r := (x + (m - 1)) mod m) in *.
  assert (x + (m - 1) - r = q * m) as Hq by lia.
  rewrite Hq. split; [by apply Z.mod_mul; lia |]. split; [lia |].
  intros y Hy Hxy. apply Z.mod_divide in Hy as [z ->]; [| lia].
  assert (q - 1 < z) by (apply (Z.mul_lt_mono_pos_r m); lia).
  apply Z.mul_le_mono_nonneg_r; lia.
Qed.

Lemma round_up_unique x m y :
  0 < m → y mod m = 0 → x ≤ y < x + m → y = round_up x m.
Proof.
  intros Hm Hy Hxy. destruct (round_up_spec x m Hm) as (Hr & Hb & Hmin).
  specialize (Hmin y Hy ltac:(lia)).
  apply Z.mod_divide in Hy as [a ->]; [| lia]. apply Z.mod_divide in Hr as [b Hr]; [| lia].
  rewrite Hr in *. assert (a - b < 1) by (apply (Z.mul_lt_mono_pos_r m); lia).
  assert (b ≤ a) by (apply (Z.mul_le_mono_pos_r _ _ m); lia). f_equal. lia.
Qed.

(** The padding [(m - (x & mask)) & mask] brings [x] to the next multiple. *)
Lemma add_padding x k :
  0 ≤ k →
  let m := 2 ^ k in
  x + Z.land (m - Z.land x (m - 1)) (m - 1) = round_up x m.
Proof.
  intros Hk m. subst m. rewrite !land_mask by lia. pose proof (pow2_pos k Hk).
  set (m := 2 ^ k) in *. apply round_up_unique; [done | |].
  - rewrite Zplus_mod_idemp_r.
    replace (x + (m - x mod m)) with (x - x mod m + 1 * m) by lia.
    rewrite Z.mod_add by lia. rewrite <- Zminus_mod_idemp_l, Z.sub_diag. done.
  - pose proof (Z.mod_pos_bound (m - x mod m) m). lia.
Qed.

(** ** Automation

    [out_inv] decomposes hypotheses saying that a computation returned. *)
Ltac out_inv_step :=
  match goal with
  | H : (_ ≫= _) = Ret _ |- _ =>
      apply bind_Ret in H; let a := fresh "r" in destruct H as (a & ? & H)
  | H : assert_ _ = Ret _ |- _ => apply assert_Ret in H
  | H : unwrap _ = Ret _ |- _ => apply unwrap_Ret in H
  | H : add_w _ _ _ = Ret _ |- _ => apply add_w_Ret in H as [? ?]
  | H : sub_w _ _ = Ret _ |- _ => apply sub_w_Ret in H as [? ?]
  | H : mul_w _ _ _ = Ret _ |- _ => apply mul_w_Ret in H as [? ?]
  | H : mret _ = Ret _ |- _ => injection H as H
  | H : Ret _ = Ret _ |- _ => injection H as H
  end.
Ltac out_inv := repeat (out_inv_step; subst); simplify_eq.

(** ** Loops

    A [for] loop over a slice: [for_each] threads the state, [for_enum] also
    passes the index ([iter().enumerate()]). *)
Fixpoint for_each {A St} (f : St → A → out St) (s : St) (l : list A) : out St :=
  match l with
  | [] => mret s
  | a :: l => s' ← f s a; for_each f s' l
  end.

Fixpoint for_enum {A St} (f : St → nat → A → out St) (i : nat) (s : St) (l : list A) : out St :=
  match l with
  | [] => mret s
  | a :: l => s' ← f s i a; for_enum f (S i) s' l
  end.

Lemma for_each_pure {A St} (f : St → A → out St) (g : St → A → St) s l :
  (∀ s a, a ∈ l → f s a = Ret (g s a)) → for_each f s l = Ret (foldl g s l).
Proof.
  revert s. induction l as [|a l IH]; intros s Hf; cbn; [done |].
  rewrite Hf by set_solver. cbn. apply IH. set_solver.
Qed.

Lemma for_enum_pure {A St} (f : St → nat → A → out St) (g : St → nat * A → St) k s l :
  (∀ s i a, a ∈ l → f s i a = Ret (g s (i, a))) →
  for_enum f k s l = Ret (foldl g s (imap (λ i a, ((k + i)%nat, a)) l)).
Proof.
  revert k s. induction l as [|a l IH]; intros k s Hf; cbn; [done |].
  rewrite Hf by set_solver. cbn. rewrite IH by set_solver. rewrite Nat.add_0_r. do 2 f_equal.
  apply imap_ext. intros. cbn. f_equal. lia.
Qed.

Lemma foldl_bind {A B St} (g : St → B → St) (h : A → list B) s l :
  foldl (λ s a, foldl g s (h a)) s l = foldl g s (l ≫= h).
Proof. revert s. induction l as [|a l IH]; intros s; cbn; [done |]. by rewrite IH, foldl_app. Qed.

Lemma foldl_fmap {A B St} (g : St → B → St) (h : A → B) s l :
  foldl g s (h <$> l) = foldl (λ s a, g s (h a)) s l.
Proof. revert s. induction l as [|a l IH]; intros s; cbn; [done |]. apply IH. Qed.

(** Draining an iterator: [None] when [fuel] calls of [next] do not exhaust it. *)
Fixpoint collect {St A} (next : St → out (option A * St)) (fuel : nat) (s : St)
    : out (option (list A)) :=
  match fuel with
  | O => mret None
  | S fuel =>
      '(o, s) ← next s;
      match o with
      | None => mret (Some [])
      | Some a => l ← collect next fuel s; mret (cons a <$> l)
      end
  end.

Lemma collect_progression {St A} (next : St → out (option A * St))
    (st : nat → St) (el : nat → A) n s' :
  (∀ k, (k < n)%nat → next (st k) = Ret (Some (el k), st (S k))) →
  next (st n) = Ret (None, s') →
  collect next (S n) (st 0%nat) = Ret (Some (el <$> seq 0 n)).
Proof.
  intros Hstep Hend.
  enough (∀ j k, (j + k = n)%nat →
            collect next (S j) (st k) = Ret (Some (el <$> seq k j))) as H
    by (apply H; lia).
  induction j as [|j IH]; intros k Hk.
  - replace k with n by lia. cbn. by rewrite Hend.
  - specialize (IH (S k) ltac:(lia)). remember (S j) as j'. cbn [collect].
    rewrite Hstep by lia. cbn. rewrite IH. by subst j'.
Qed.

(** ** Pairwise relations

    [pairwise R l]: every element is related to every later one.  For a
    symmetric [R] this does not depend on the order. *)
Abbreviation pairwise := StronglySorted (only parsing).

Lemma pairwise_perm {A} (R : A → A → Prop) `{!Symmetric R} (l1 l2 : list A) :
  l1 ≡ₚ l2 → pairwise R l1 → pairwise R l2.
Proof.
  induction 1 as [|x l1 l2 Hp IH|x y l|l1 l2 l3 _ IH1 _ IH2]; [done | | | tauto].
  - intros [Hs Hf]%StronglySorted_inv. constructor; [by apply IH | by rewrite <- Hp].
  - intros [[Hs Hx]%StronglySorted_inv Hy]%StronglySorted_inv.
    apply Forall_cons in Hy as [Hyx Hy].
    repeat constructor; [done | done | by symmetry | done].
Qed.

Lemma pairwise_app {A} (R : A → A → Prop) (l1 l2 : list A) :
  pairwise R (l1 ++ l2) ↔
  pairwise R l1 ∧ pairwise R l2 ∧ ∀ x y, x ∈ l1 → y ∈ l2 → R x y.
Proof.
  induction l1 as [|a l1 IH]; cbn.
  - split; [intros ?; split_and!; [constructor | done | set_solver] | tauto].
  - split.
    + intros [Hs Hf]%StronglySorted_inv. apply IH in Hs as (? & ? & Hc).
      apply Forall_app in Hf as [Hf1 Hf2]. rewrite Forall_forall in Hf2.
      split_and!; [by constructor | done | set_solver].
    + intros ([Hs Hf]%StronglySorted_inv & Hs2 & Hc). constructor.
      * apply IH. split_and!; [done | done | set_solver].
      * apply Forall_app. split; [done |]. apply Forall_forall. set_solver.
Qed.

Lemma pairwise_elem {A} (R : A → A → Prop) `{!Symmetric R} (l : list A) x y :
  pairwise R l → x ∈ l → y ∈ l → x ≠ y → R x y.
Proof.
  intros Hp Hx Hy Hne. apply list_elem_of_split in Hx as (l1 & l2 & ->).
  apply pairwise_app in Hp as (_ & [_ Hf]%StronglySorted_inv & Hc).
  rewrite Forall_forall in Hf.
  apply elem_of_app in Hy as [Hy|[->|Hy]%elem_of_cons]; [| done | auto].
  symmetry. apply Hc; [done | by left].
Qed.

Lemma list_pick {A} (l : list A) i x :
  l !! i = Some x →
  ∃ rest, l ≡ₚ x :: rest ∧ ∀ y, <[i:=y]> l ≡ₚ y :: rest.
Proof.
  intros Hi. apply list_elem_of_split_length in Hi as (l1 & l2 & -> & ->).
  exists (l1 ++ l2). split; [by rewrite Permutation_middle |].
  intros y. rewrite insert_app_r_alt, Nat.sub_diag by lia. cbn.
  by rewrite Permutation_middle.
Qed.
