(* ===== verification/Addrs.v ===== *)
(** * Addresses

    [beskar-core/src/arch/addrs.rs]: the [Alignment] enum, virtual addresses
    (canonical 48-bit addresses, sign-extended) and physical addresses (52
    bits).  [VirtAddr] and [PhysAddr] are transparent newtypes of [u64]; they
    are integers here. *)

From S2P Require Import Prelude.

(** The variants and their discriminants [1 << n]. *)
Inductive Alignment : Set :=
| Align1 | Align2 | Align4 | Align8 | Align16
| Align32 | Align64 | Align128 | Align256 | Align512
| Align1K | Align2K | Align4K | Align8K | Align16K
| Align32K | Align64K | Align128K | Align256K | Align512K
| Align1M | Align2M | Align4M | Align8M | Align16M
| Align32M | Align64M | Align128M | Align256M | Align512M
| Align1G | Align2G | Align4G | Align8G | Align16G
| Align32G | Align64G | Align128G | Align256G | Align512G.

Module Alignment.

Definition discriminant_shift (a : Alignment) : Z :=
  match a with
  | Align1 => 0 | Align2 => 1 | Align4 => 2 | Align8 => 3 | Align16 => 4
  | Align32 => 5 | Align64 => 6 | Align128 => 7 | Align256 => 8 | Align512 => 9
  | Align1K => 10 | Align2K => 11 | Align4K => 12 | Align8K => 13 | Align16K => 14
  | Align32K => 15 | Align64K => 16 | Align128K => 17 | Align256K => 18 | Align512K => 19
  | Align1M => 20 | Align2M => 21 | Align4M => 22 | Align8M => 23 | Align16M => 24
  | Align32M => 25 | Align64M => 26 | Align128M => 27 | Align256M => 28 | Align512M => 29
  | Align1G => 30 | Align2G => 31 | Align4G => 32 | Align8G => 33 | Align16G => 34
  | Align32G => 35 | Align64G => 36 | Align128G => 37 | Align256G => 38 | Align512G => 39
  end.

Definition as_u64 (a : Alignment) : Z := Z.shiftl 1 (discriminant_shift a).

Definition mask (a : Alignment) : Z := as_u64 a - 1.

Definition align_down (a : Alignment) (x : Z) : Z := Z.land x (not_w 64 (mask a)).

Definition align_up (a : Alignment) (x : Z) : out Z :=
  s ← add_w 64 x (mask a);
  mret (Z.land s (not_w 64 (mask a))).

Definition is_aligned (a : Alignment) (x : Z) : bool := Z.land x (mask a) =? 0.

Lemma shift_bounds a : 0 ≤ discriminant_shift a < 40.
Proof. destruct a; cbn; lia. Qed.

Lemma as_u64_pow2 a : as_u64 a = 2 ^ discriminant_shift a.
Proof. unfold as_u64. pose proof (shift_bounds a). rewrite Z.shiftl_1_l; done. Qed.

Lemma as_u64_bounds a : 1 ≤ as_u64 a ≤ 2 ^ 39.
Proof.
  rewrite as_u64_pow2. pose proof (shift_bounds a).
  pose proof (pow2_pos (discriminant_shift a)).
  pose proof (pow2_le (discriminant_shift a) 39). lia.
Qed.

Lemma align_down_eq a x : is_u64 x → align_down a x = x - x mod as_u64 a.
Proof.
  intros Hx. unfold align_down, mask. rewrite as_u64_pow2. pose proof (shift_bounds a).
  by rewrite land_not_mask by (done || lia).
Qed.

Lemma is_aligned_spec a x : is_aligned a x = true ↔ x mod as_u64 a = 0.
Proof.
  unfold is_aligned, mask. rewrite as_u64_pow2. pose proof (shift_bounds a).
  by rewrite land_mask, Z.eqb_eq by lia.
Qed.

Lemma align_up_eq a x :
  is_u64 x →
  align_up a x =
    if x + mask a <? 2 ^ 64 then Ret (round_up x (as_u64 a)) else Panic.
Proof.
  intros Hx. unfold align_up, add_w.
  destruct (Z.ltb_spec (x + mask a) (2 ^ 64)); [| done]. cbn. f_equal.
  unfold round_up, mask. pose proof (as_u64_bounds a).
  change (align_down a (x + (as_u64 a - 1)) = x + (as_u64 a - 1) - (x + (as_u64 a - 1)) mod as_u64 a).
  rewrite align_down_eq; [done |]. unfold mask, is_uint in *. lia.
Qed.

End Alignment.

(** [u16::try_from]. *)
Definition u16_try_from (x : Z) : option Z := if x <? 2 ^ 16 then Some x else None.

Module VirtAddr.

Definition MAX : Z := 2 ^ 64 - 1.
Definition MAX_LOWER_HALF : Z := 0x00007FFFFFFFFFFF.
Definition MIN_UPPER_HALF : Z := 0xFFFF800000000000.
Definition IDX_4_OFFSET : Z := 39.
Definition IDX_3_OFFSET : Z := 30.
Definition IDX_2_OFFSET : Z := 21.
Definition IDX_1_OFFSET : Z := 12.

(** [((raw << 16).cast_signed() >> 16).cast_unsigned()] *)
Definition canonicalize (raw : Z) : Z :=
  cast_unsigned 64 (Z.shiftr (cast_signed 64 (shl_w 64 raw 16)) 16).

Definition new_extend (addr : Z) : Z := canonicalize addr.

Definition try_new (addr : Z) : option Z :=
  let extended := new_extend addr in
  if negb (extended =? addr) then None else Some extended.

Definition from_pt_indices (p4_index p3_index p2_index p1_index offset : Z) : Z :=
  let addr :=
    Z.lor (Z.lor (Z.lor (Z.lor
      (shl_w 64 (Z.land p4_index 0x1FF) IDX_4_OFFSET)
      (shl_w 64 (Z.land p3_index 0x1FF) IDX_3_OFFSET))
      (shl_w 64 (Z.land p2_index 0x1FF) IDX_2_OFFSET))
      (shl_w 64 (Z.land p1_index 0x1FF) IDX_1_OFFSET))
      (Z.land offset 0xFFF) in
  new_extend addr.

Definition new_unchecked (addr : Z) : out Z :=
  assert_ (canonicalize addr =? addr);; mret addr.

Definition aligned_down (self : Z) (align : Alignment) : Z :=
  Alignment.align_down align self.

Definition aligned_up (self : Z) (align : Alignment) : out Z :=
  x ← Alignment.align_up align self; mret (new_extend x).

Definition is_aligned (self : Z) (align : Alignment) : bool :=
  Alignment.is_aligned align self.

Definition p4_index (self : Z) : out Z :=
  unwrap (u16_try_from (Z.land (Z.shiftr self IDX_4_OFFSET) 0x1FF)).
Definition p3_index (self : Z) : out Z :=
  unwrap (u16_try_from (Z.land (Z.shiftr self IDX_3_OFFSET) 0x1FF)).
Definition p2_index (self : Z) : out Z :=
  unwrap (u16_try_from (Z.land (Z.shiftr self IDX_2_OFFSET) 0x1FF)).
Definition p1_index (self : Z) : out Z :=
  unwrap (u16_try_from (Z.land (Z.shiftr self IDX_1_OFFSET) 0x1FF)).
Definition page_offset (self : Z) : out Z :=
  unwrap (u16_try_from (Z.land self 0xFFF)).

(** [VirtAddr + u64], [VirtAddr - u64], [VirtAddr - VirtAddr]. *)
Definition add (self rhs : Z) : out Z := x ← add_w 64 self rhs; mret (new_extend x).
Definition sub (self rhs : Z) : out Z := x ← sub_w self rhs; mret (new_extend x).
Definition diff (self rhs : Z) : out Z := sub_w self rhs.

(** The canonical addresses: the two halves of the 48-bit address space. *)
Definition canonical (a : Z) : Prop :=
  0 ≤ a ≤ MAX_LOWER_HALF ∨ MIN_UPPER_HALF ≤ a ≤ MAX.

Lemma canonical_u64 a : canonical a → is_u64 a.
Proof. unfold canonical, is_uint, MAX, MIN_UPPER_HALF, MAX_LOWER_HALF. lia. Qed.

Lemma canonicalize_eq raw :
  is_u64 raw →
  canonicalize raw =
    if raw mod 2 ^ 48 <? 2 ^ 47 then raw mod 2 ^ 48
    else raw mod 2 ^ 48 + (2 ^ 64 - 2 ^ 48).
Proof.
  intros Hraw. unfold canonicalize, shl_w, cast_signed, cast_unsigned.
  rewrite Z.shiftl_mul_pow2 by lia.
  change (2 ^ 64) with (2 ^ 48 * 2 ^ 16).
  rewrite Z.mul_mod_distr_r by lia.
  pose proof (Z.mod_pos_bound raw (2 ^ 48) ltac:(lia)).
  set (lo := raw mod 2 ^ 48) in *.
  change (2 ^ 48 * 2 ^ 16) with (2 ^ 64). change (2 ^ (64 - 1)) with (2 ^ 47 * 2 ^ 16).
  rewrite Z.shiftr_div_pow2 by lia.
  destruct (Z.ltb_spec lo (2 ^ 47)), (Z.ltb_spec (lo * 2 ^ 16) (2 ^ 47 * 2 ^ 16)); try lia.
  - rewrite Z.div_mul by lia. apply Z.mod_small. lia.
  - replace (lo * 2 ^ 16 - 2 ^ 64) with ((lo - 2 ^ 48) * 2 ^ 16) by lia.
    rewrite Z.div_mul by lia.
    replace (lo - 2 ^ 48) with (lo + (2 ^ 64 - 2 ^ 48) + (-1) * 2 ^ 64) by lia.
    rewrite Z.mod_add by lia. apply Z.mod_small. lia.
Qed.

Lemma canonicalize_canonical raw : is_u64 raw → canonical (canonicalize raw).
Proof.
  intros Hraw. rewrite canonicalize_eq by done.
  pose proof (Z.mod_pos_bound raw (2 ^ 48) ltac:(lia)).
  unfold canonical, MAX, MIN_UPPER_HALF, MAX_LOWER_HALF.
  destruct (Z.ltb_spec (raw mod 2 ^ 48) (2 ^ 47)); lia.
Qed.

Lemma canonicalize_id a : canonical a → canonicalize a = a.
Proof.
  intros Ha. rewrite canonicalize_eq by (by apply canonical_u64).
  unfold canonical, MAX, MIN_UPPER_HALF, MAX_LOWER_HALF in Ha.
  destruct Ha.
  - rewrite Z.mod_small by lia. destruct (Z.ltb_spec a (2 ^ 47)); lia.
  - assert (a mod 2 ^ 48 = a - (2 ^ 64 - 2 ^ 48)) as ->
      by (symmetry; apply (Z.mod_unique_pos _ _ 65535); lia).
    destruct (Z.ltb_spec (a - (2 ^ 64 - 2 ^ 48)) (2 ^ 47)); lia.
Qed.

Lemma index_ret x j k :
  0 ≤ j → 0 ≤ k ≤ 15 →
  unwrap (u16_try_from (Z.land (Z.shiftr x j) (2 ^ k - 1))) = Ret ((x / 2 ^ j) mod 2 ^ k).
Proof.
  intros. rewrite shiftr_land_mask by lia. unfold u16_try_from.
  pose proof (Z.mod_pos_bound (x / 2 ^ j) (2 ^ k) ltac:(apply pow2_pos; lia)).
  pose proof (pow2_le k 15 ltac:(lia)).
  destruct (Z.ltb_spec ((x / 2 ^ j) mod 2 ^ k) (2 ^ 16)); [done | lia].
Qed.

Lemma p4_index_eq a : p4_index a = Ret ((a / 2 ^ 39) mod 512).
Proof. exact (index_ret a 39 9 ltac:(lia) ltac:(lia)). Qed.
Lemma p3_index_eq a : p3_index a = Ret ((a / 2 ^ 30) mod 512).
Proof. exact (index_ret a 30 9 ltac:(lia) ltac:(lia)). Qed.
Lemma p2_index_eq a : p2_index a = Ret ((a / 2 ^ 21) mod 512).
Proof. exact (index_ret a 21 9 ltac:(lia) ltac:(lia)). Qed.
Lemma p1_index_eq a : p1_index a = Ret ((a / 2 ^ 12) mod 512).
Proof. exact (index_ret a 12 9 ltac:(lia) ltac:(lia)). Qed.
Lemma page_offset_eq a : page_offset a = Ret (a mod 4096).
Proof.
  unfold page_offset. rewrite <- (Z.shiftr_0_r a) at 1.
  etransitivity; [exact (index_ret a 0 12 ltac:(lia) ltac:(lia)) |].
  by rewrite Z.div_1_r.
Qed.

Lemma from_pt_indices_eq p4 p3 p2 p1 o :
  0 ≤ p4 < 512 → 0 ≤ p3 < 512 → 0 ≤ p2 < 512 → 0 ≤ p1 < 512 → 0 ≤ o < 4096 →
  from_pt_indices p4 p3 p2 p1 o =
    canonicalize (p4 * 2 ^ 39 + p3 * 2 ^ 30 + p2 * 2 ^ 21 + p1 * 2 ^ 12 + o).
Proof.
  intros. unfold from_pt_indices, new_extend, shl_w,
    IDX_4_OFFSET, IDX_3_OFFSET, IDX_2_OFFSET, IDX_1_OFFSET. f_equal.
  change 0x1FF with (2 ^ 9 - 1). change 0xFFF with (2 ^ 12 - 1).
  rewrite !land_mask by lia.
  rewrite !Z.shiftl_mul_pow2 by lia.
  rewrite (Z.mod_small p4), (Z.mod_small p3), (Z.mod_small p2), (Z.mod_small p1),
    (Z.mod_small o) by lia.
  rewrite !(Z.mod_small _ (2 ^ 64)) by lia.
  rewrite (lor_low 39 (p4 * _)) by (lia || (apply Z.mod_mul; lia)).
  rewrite (lor_low 30 (p4 * _ + _)), (lor_low 21 (p4 * _ + _ + _)), (lor_low 12); try lia.
  - replace (p4 * 2 ^ 39 + p3 * 2 ^ 30 + p2 * 2 ^ 21 + p1 * 2 ^ 12)
      with ((p4 * 2 ^ 27 + p3 * 2 ^ 18 + p2 * 2 ^ 9 + p1) * 2 ^ 12) by lia.
    apply Z.mod_mul; lia.
  - replace (p4 * 2 ^ 39 + p3 * 2 ^ 30 + p2 * 2 ^ 21)
      with ((p4 * 2 ^ 18 + p3 * 2 ^ 9 + p2) * 2 ^ 21) by lia.
    apply Z.mod_mul; lia.
  - replace (p4 * 2 ^ 39 + p3 * 2 ^ 30)
      with ((p4 * 2 ^ 9 + p3) * 2 ^ 30) by lia.
    apply Z.mod_mul; lia.
Qed.

Lemma canonicalize_low raw : is_u64 raw → canonicalize raw mod 2 ^ 48 = raw mod 2 ^ 48.
Proof.
  intros Hraw. rewrite canonicalize_eq by done.
  pose proof (Z.mod_pos_bound raw (2 ^ 48) ltac:(lia)).
  destruct (Z.ltb_spec (raw mod 2 ^ 48) (2 ^ 47)).
  - by rewrite Z.mod_mod by lia.
  - change (2 ^ 64 - 2 ^ 48) with (65535 * 2 ^ 48). rewrite Z.mod_add by lia.
    by rewrite Z.mod_mod by lia.
Qed.

Lemma canonicalize_mod raw : is_u64 raw → canonicalize (raw mod 2 ^ 48) = canonicalize raw.
Proof.
  intros Hraw. pose proof (Z.mod_pos_bound raw (2 ^ 48) ltac:(lia)).
  rewrite !canonicalize_eq by (unfold is_uint in *; lia). by rewrite Z.mod_mod by lia.
Qed.

(** The four indices and the offset are the digits of the low 48 bits. *)
Lemma low48_digits a :
  a mod 2 ^ 48 =
    (a / 2 ^ 39) mod 512 * 2 ^ 39 + (a / 2 ^ 30) mod 512 * 2 ^ 30 +
    (a / 2 ^ 21) mod 512 * 2 ^ 21 + (a / 2 ^ 12) mod 512 * 2 ^ 12 + a mod 4096.
Proof.
  assert (a / 2 ^ 39 = a / 2 ^ 30 / 512) by (by rewrite Z.div_div by lia).
  assert (a / 2 ^ 30 = a / 2 ^ 21 / 512) by (by rewrite Z.div_div by lia).
  assert (a / 2 ^ 21 = a / 2 ^ 12 / 512) by (by rewrite Z.div_div by lia).
  Z.div_mod_to_equations. lia.
Qed.

(** Canonicalisation of a raw 64-bit value gives a canonical address that
    agrees with it on the low 48 bits, and canonical addresses are exactly the
    ones it leaves unchanged; [try_new] accepts exactly those. *)
Theorem canonicalize_spec raw :
  is_u64 raw →
  canonical (new_extend raw) ∧
  new_extend raw mod 2 ^ 48 = raw mod 2 ^ 48 ∧
  (new_extend raw = raw ↔ canonical raw) ∧
  (∀ a, try_new raw = Some a ↔ a = raw ∧ canonical raw).
Proof.
  intros Hraw. unfold new_extend, try_new, new_extend.
  pose proof (canonicalize_canonical raw Hraw) as Hc.
  assert (canonicalize raw = raw ↔ canonical raw) as Hiff.
  { split; [intros H; by rewrite H in Hc | apply canonicalize_id]. }
  split_and!; [done | by apply canonicalize_low | done |].
  intros a. destruct (Z.eqb_spec (canonicalize raw) raw) as [E|E]; cbn; [| naive_solver].
  rewrite E. naive_solver.
Qed.

Lemma canonicalize_spec_witness :
  is_u64 0x0000800000000000 ∧ canonical (new_extend 0x0000800000000000).
Proof.
  assert (is_u64 0x0000800000000000) as H by (unfold is_uint; lia).
  split; [exact H | apply (canonicalize_spec _ H)].
Defined.

(** Splitting a canonical address into its four page-table indices and its
    page offset never panics, every index is below 512, and
    [from_pt_indices] rebuilds the address. *)
Theorem pt_indices_roundtrip a :
  canonical a →
  ∃ p4 p3 p2 p1 o,
    p4_index a = Ret p4 ∧ p3_index a = Ret p3 ∧ p2_index a = Ret p2 ∧
    p1_index a = Ret p1 ∧ page_offset a = Ret o ∧
    (0 ≤ p4 < 512 ∧ 0 ≤ p3 < 512 ∧ 0 ≤ p2 < 512 ∧ 0 ≤ p1 < 512 ∧ 0 ≤ o < 4096) ∧
    from_pt_indices p4 p3 p2 p1 o = a.
Proof.
  intros Ha. do 5 eexists.
  rewrite p4_index_eq, p3_index_eq, p2_index_eq, p1_index_eq, page_offset_eq.
  do 5 (split; [reflexivity |]).
  split; [split_and!; apply Z.mod_pos_bound; lia |].
  rewrite from_pt_indices_eq by (apply Z.mod_pos_bound; lia).
  rewrite <- low48_digits, canonicalize_mod by (by apply canonical_u64).
  by apply canonicalize_id.
Qed.

Lemma pt_indices_roundtrip_witness :
  canonical 0xFFFF812345678ABC ∧ p4_index 0xFFFF812345678ABC = Ret 258.
Proof.
  assert (canonical 0xFFFF812345678ABC) as H
    by (right; unfold MIN_UPPER_HALF, MAX; lia).
  split; [exact H |].
  destruct (pt_indices_roundtrip _ H) as (p4 & p3 & p2 & p1 & o & H4 & _).
  vm_compute. reflexivity.
Defined.

(** The indices of an address built by [from_pt_indices] are the indices
    it was built from. *)
Theorem from_pt_indices_indices p4 p3 p2 p1 o :
  0 ≤ p4 < 512 → 0 ≤ p3 < 512 → 0 ≤ p2 < 512 → 0 ≤ p1 < 512 → 0 ≤ o < 4096 →
  let a := from_pt_indices p4 p3 p2 p1 o in
  canonical a ∧
  p4_index a = Ret p4 ∧ p3_index a = Ret p3 ∧ p2_index a = Ret p2 ∧
  p1_index a = Ret p1 ∧ page_offset a = Ret o.
Proof.
  intros H4 H3 H2 H1 Ho a. subst a.
  rewrite from_pt_indices_eq, p4_index_eq, p3_index_eq, p2_index_eq, p1_index_eq,
    page_offset_eq by done.
  set (s := p4 * 2 ^ 39 + p3 * 2 ^ 30 + p2 * 2 ^ 21 + p1 * 2 ^ 12 + o).
  assert (is_u64 s) as Hs by (unfold is_uint; lia).
  split; [by apply canonicalize_canonical |].
  rewrite <- (field_of_low _ 48 39 9), <- (field_of_low _ 48 30 9),
    <- (field_of_low _ 48 21 9), <- (field_of_low _ 48 12 9) by lia.
  replace (canonicalize s mod 4096) with ((canonicalize s mod 2 ^ 48) mod 4096)
    by (pose proof (field_of_low (canonicalize s) 48 0 12 ltac:(lia) ltac:(lia) ltac:(lia)) as E;
        by rewrite !Z.div_1_r in E).
  rewrite canonicalize_low, (Z.mod_small s) by (done || lia).
  subst s. split_and!; f_equal; Z.div_mod_to_equations; lia.
Qed.

Lemma from_pt_indices_indices_witness :
  p3_index (from_pt_indices 256 3 2 1 0xABC) = Ret 3.
Proof.
  apply (from_pt_indices_indices 256 3 2 1 0xABC); lia.
Defined.

End VirtAddr.

Module PhysAddr.

Definition MAX : Z := 0x000FFFFFFFFFFFFF.

Definition new_truncate (addr : Z) : Z := Z.land addr MAX.

Definition try_new (addr : Z) : option Z :=
  let truncated := new_truncate addr in
  if negb (truncated =? addr) then None else Some truncated.

Definition new_unchecked (addr : Z) : out Z := assert_ (addr <=? MAX);; mret addr.

Definition aligned_down (self : Z) (align : Alignment) : Z :=
  Alignment.align_down align self.
Definition aligned_up (self : Z) (align : Alignment) : out Z :=
  Alignment.align_up align self.
Definition is_aligned (self : Z) (align : Alignment) : bool :=
  Alignment.is_aligned align self.

Definition add (self rhs : Z) : out Z := x ← add_w 64 self rhs; mret (new_truncate x).
Definition sub (self rhs : Z) : out Z := x ← sub_w self rhs; mret (new_truncate x).
Definition diff (self rhs : Z) : out Z := sub_w self rhs.

(** The valid physical addresses. *)
Definition valid (a : Z) : Prop := 0 ≤ a ≤ MAX.

Lemma new_truncate_eq a : new_truncate a = a mod 2 ^ 52.
Proof. unfold new_truncate. change MAX with (2 ^ 52 - 1). apply land_mask. lia. Qed.

Lemma new_truncate_id a : valid a → new_truncate a = a.
Proof. unfold valid, MAX. intros. rewrite new_truncate_eq. apply Z.mod_small. lia. Qed.

Lemma valid_u64 a : valid a → is_u64 a.
Proof. unfold valid, is_uint, MAX. lia. Qed.

(** The last valid address rounded up to a page leaves the valid range:
    unlike [VirtAddr::aligned_up], the result is not truncated. *)
Lemma aligned_up_not_valid :
  valid MAX ∧ ∃ a, aligned_up MAX Align4K = Ret a ∧ ¬ valid a.
Proof. split; [unfold valid, MAX; lia |]. exists (2 ^ 52). split; [reflexivity | unfold valid, MAX; lia]. Qed.

End PhysAddr.

(** [align_down] gives the greatest multiple of the alignment that is not
    above its argument; [align_up] the least multiple that is not below it, and
    panics exactly when adding the mask overflows 64 bits. *)
Theorem alignment_spec al x :
  is_u64 x →
  let m := Alignment.as_u64 al in
  let d := Alignment.align_down al x in
  (d mod m = 0 ∧ d ≤ x < d + m ∧ (∀ y, y mod m = 0 → y ≤ x → y ≤ d)) ∧
  (x + (m - 1) < 2 ^ 64 →
     ∃ u, Alignment.align_up al x = Ret u ∧ u mod m = 0 ∧ x ≤ u < x + m ∧
          (∀ y, y mod m = 0 → x ≤ y → u ≤ y)) ∧
  (2 ^ 64 ≤ x + (m - 1) → Alignment.align_up al x = Panic).
Proof.
  intros Hx m d. pose proof (Alignment.as_u64_bounds al) as Hm. fold m in Hm.
  assert (d = x - x mod m) as Hd by (by apply Alignment.align_down_eq).
  pose proof (Z.div_mod x m ltac:(lia)) as E.
  pose proof (Z.mod_pos_bound x m ltac:(lia)).
  split; [| rewrite Alignment.align_up_eq by done; unfold Alignment.mask; fold m; split].
  - assert (d = x / m * m) as Hd' by lia. split; [rewrite Hd'; apply Z.mod_mul; lia |].
    split; [lia |]. intros y Hy Hle. apply Z.mod_divide in Hy as [z ->]; [| lia].
    rewrite Hd'. apply Z.mul_le_mono_nonneg_r; [lia |].
    apply Z.div_le_lower_bound; lia.
  - intros Hlt. destruct (Z.ltb_spec (x + (m - 1)) (2 ^ 64)); [| lia].
    eexists. split; [done |]. apply round_up_spec. lia.
  - intros Hge. by destruct (Z.ltb_spec (x + (m - 1)) (2 ^ 64)); [lia |].
Qed.

Lemma alignment_spec_witness :
  Alignment.align_up Align4K 0x1001 = Ret 0x2000 ∧
  Alignment.align_down Align4K 0x1001 mod Alignment.as_u64 Align4K = 0.
Proof.
  split; [reflexivity |].
  apply (alignment_spec Align4K 0x1001). unfold is_uint. lia.
Defined.
