(* ===== verification/Paging.v ===== *)
(** * Pages and frames

    [beskar-core/src/arch/paging.rs], [paging/page.rs], [paging/frame.rs]:
    virtual pages and physical frames of the three sizes of the architecture,
    arithmetic on them, inclusive ranges and the iterators over ranges. *)

From S2P Require Import Prelude Addrs.

(** The sealed trait [MemSize] and its three implementations. *)
Inductive MemSize : Set := M4KiB | M2MiB | M1GiB.

Definition SIZE (S : MemSize) : Z :=
  match S with
  | M4KiB => 4096
  | M2MiB => 4096 * 512
  | M1GiB => 4096 * 512 * 512
  end.

Definition ALIGNMENT (S : MemSize) : Alignment :=
  match S with M4KiB => Align4K | M2MiB => Align2M | M1GiB => Align1G end.

(** [MappingError]. *)
Inductive MappingError (F : Type) : Type :=
| AlreadyMapped (frame : F)
| FrameAllocationFailed
| NotMapped
| UnexpectedLargePage
| UnexpectedNotLargePage.
Arguments AlreadyMapped {F} frame.
Arguments FrameAllocationFailed {F}.
Arguments NotMapped {F}.
Arguments UnexpectedLargePage {F}.
Arguments UnexpectedNotLargePage {F}.

(** The size is a phantom parameter, as in the source. *)
Record Page (S : MemSize) := mkPage { page_start : Z }.
Record Frame (S : MemSize) := mkFrame { frame_start : Z }.
Arguments mkPage {S} page_start.
Arguments mkFrame {S} frame_start.
Arguments page_start {S} p.
Arguments frame_start {S} f.

Global Instance Page_eq_dec S : EqDecision (Page S).
Proof. solve_decision. Defined.
Global Instance Frame_eq_dec S : EqDecision (Frame S).
Proof. solve_decision. Defined.

Record PageRangeInclusive (S : MemSize) := mkPageRange { pr_start : Page S; pr_end : Page S }.
Arguments mkPageRange {S} _ _.
Arguments pr_start {S} _.
Arguments pr_end {S} _.

Module Page.

Definition containing_address {S : MemSize} (address : Z) : Page S :=
  mkPage (VirtAddr.aligned_down address (ALIGNMENT S)).

Definition start_address {S} (self : Page S) : Z := page_start self.

Definition size {S} (self : Page S) : Z := SIZE S.

Definition p4_index {S} (self : Page S) : out Z := VirtAddr.p4_index (start_address self).
Definition p3_index {S} (self : Page S) : out Z := VirtAddr.p3_index (start_address self).
Definition p2_index {S} (self : Page S) : out Z := VirtAddr.p2_index (start_address self).
Definition p1_index {S} (self : Page S) : out Z := VirtAddr.p1_index (start_address self).

Definition range_inclusive {S} (s e : Page S) : PageRangeInclusive S := mkPageRange s e.

Definition from_p4p3 (p4 p3 : Z) : out (Page M1GiB) :=
  assert_ (p4 <? 512);; assert_ (p3 <? 512);;
  let addr := Z.lor (shl_w 64 p4 39) (shl_w 64 p3 30) in
  mret (mkPage (VirtAddr.new_extend addr)).

Definition from_p4p3p2 (p4 p3 p2 : Z) : out (Page M2MiB) :=
  assert_ (p4 <? 512);; assert_ (p3 <? 512);; assert_ (p2 <? 512);;
  let addr := Z.lor (Z.lor (shl_w 64 p4 39) (shl_w 64 p3 30)) (shl_w 64 p2 21) in
  mret (mkPage (VirtAddr.new_extend addr)).

Definition from_p4p3p2p1 (p4 p3 p2 p1 : Z) : out (Page M4KiB) :=
  assert_ (p4 <? 512);; assert_ (p3 <? 512);; assert_ (p2 <? 512);; assert_ (p1 <? 512);;
  let addr := Z.lor (Z.lor (Z.lor (shl_w 64 p4 39) (shl_w 64 p3 30)) (shl_w 64 p2 21))
                (shl_w 64 p1 12) in
  mret (mkPage (VirtAddr.new_extend addr)).

Definition add {S} (self : Page S) (rhs : Z) : out (Page S) :=
  n ← mul_w 64 rhs (SIZE S);
  a ← VirtAddr.add (start_address self) n;
  mret (containing_address a).

Definition sub {S} (self : Page S) (rhs : Z) : out (Page S) :=
  n ← mul_w 64 rhs (SIZE S);
  a ← VirtAddr.sub (start_address self) n;
  mret (containing_address a).

Definition diff {S} (self rhs : Page S) : out Z :=
  d ← VirtAddr.diff (page_start self) (page_start rhs);
  mret (d / SIZE S).

End Page.

Module PageRangeInclusive.

Definition is_empty {S} (self : PageRangeInclusive S) : bool :=
  page_start (pr_end self) <? page_start (pr_start self).

Definition len {S} (self : PageRangeInclusive S) : out Z :=
  if is_empty self then mret 0
  else d ← Page.diff (pr_end self) (pr_start self); add_w 64 d 1.

Definition size {S} (self : PageRangeInclusive S) : out Z :=
  n ← len self; mul_w 64 (SIZE S) n.

Definition contains {S} (self : PageRangeInclusive S) (page : Page S) : bool :=
  (page_start (pr_start self) <=? page_start page) &&
  (page_start page <=? page_start (pr_end self)).

Definition overlaps {S} (self other : PageRangeInclusive S) : bool :=
  negb ((page_start (pr_end self) <? page_start (pr_start other)) ||
        (page_start (pr_end other) <? page_start (pr_start self))).

(** [PageIterator] has the same fields as the range it iterates over. *)
Definition next {S} (self : PageRangeInclusive S)
    : out (option (Page S) * PageRangeInclusive S) :=
  if page_start (pr_start self) <=? page_start (pr_end self) then
    let page := pr_start self in
    s ← Page.add page 1;
    mret (Some page, mkPageRange s (pr_end self))
  else mret (None, self).

Definition next_back {S} (self : PageRangeInclusive S)
    : out (option (Page S) * PageRangeInclusive S) :=
  if page_start (pr_start self) <=? page_start (pr_end self) then
    let page := pr_end self in
    e ← Page.sub page 1;
    mret (Some page, mkPageRange (pr_start self) e)
  else mret (None, self).

End PageRangeInclusive.

Record FrameRangeInclusive (S : MemSize) := mkFrameRange { fr_start : Frame S; fr_end : Frame S }.
Arguments mkFrameRange {S} _ _.
Arguments fr_start {S} _.
Arguments fr_end {S} _.

Module Frame.

Definition containing_address {S : MemSize} (address : Z) : Frame S :=
  mkFrame (PhysAddr.aligned_down address (ALIGNMENT S)).

Definition start_address {S} (self : Frame S) : Z := frame_start self.

Definition end_address {S} (self : Frame S) : out Z :=
  PhysAddr.add (frame_start self) (SIZE S - 1).

Definition size {S} (self : Frame S) : Z := SIZE S.

Definition range_inclusive {S} (s e : Frame S) : FrameRangeInclusive S := mkFrameRange s e.

Definition add {S} (self : Frame S) (rhs : Z) : out (Frame S) :=
  n ← mul_w 64 rhs (SIZE S);
  a ← PhysAddr.add (start_address self) n;
  mret (containing_address a).

Definition sub {S} (self : Frame S) (rhs : Z) : out (Frame S) :=
  n ← mul_w 64 rhs (SIZE S);
  a ← PhysAddr.sub (start_address self) n;
  mret (containing_address a).

Definition diff {S} (self rhs : Frame S) : out Z :=
  d ← PhysAddr.diff (frame_start self) (frame_start rhs);
  mret (d / SIZE S).

End Frame.

Module FrameRangeInclusive.

Definition is_empty {S} (self : FrameRangeInclusive S) : bool :=
  frame_start (fr_end self) <? frame_start (fr_start self).

Definition len {S} (self : FrameRangeInclusive S) : out Z :=
  if is_empty self then mret 0
  else d ← Frame.diff (fr_end self) (fr_start self); add_w 64 d 1.

Definition size {S} (self : FrameRangeInclusive S) : out Z :=
  n ← len self; mul_w 64 (SIZE S) n.

Definition contains {S} (self : FrameRangeInclusive S) (frame : Frame S) : bool :=
  (frame_start (fr_start self) <=? frame_start frame) &&
  (frame_start frame <=? frame_start (fr_end self)).

Definition overlaps {S} (self other : FrameRangeInclusive S) : bool :=
  negb ((frame_start (fr_end self) <? frame_start (fr_start other)) ||
        (frame_start (fr_end other) <? frame_start (fr_start self))).

Definition next {S} (self : FrameRangeInclusive S)
    : out (option (Frame S) * FrameRangeInclusive S) :=
  if frame_start (fr_start self) <=? frame_start (fr_end self) then
    let frame := fr_start self in
    s ← Frame.add frame 1;
    mret (Some frame, mkFrameRange s (fr_end self))
  else mret (None, self).

Definition next_back {S} (self : FrameRangeInclusive S)
    : out (option (Frame S) * FrameRangeInclusive S) :=
  if frame_start (fr_start self) <=? frame_start (fr_end self) then
    let frame := fr_end self in
    if frame_start (fr_end self) =? 0 then
      s ← Frame.add frame 1;
      mret (Some frame, mkFrameRange s (fr_end self))
    else
      e ← Frame.sub frame 1;
      mret (Some frame, mkFrameRange (fr_start self) e)
  else mret (None, self).

End FrameRangeInclusive.

(** ** Sizes *)

Definition page_shift (S : MemSize) : Z :=
  match S with M4KiB => 12 | M2MiB => 21 | M1GiB => 30 end.

Lemma SIZE_pow2 S : SIZE S = 2 ^ page_shift S.
Proof. by destruct S. Qed.

Lemma ALIGNMENT_SIZE S : Alignment.as_u64 (ALIGNMENT S) = SIZE S.
Proof. by destruct S. Qed.

Lemma SIZE_bounds S : 4096 ≤ SIZE S ≤ 2 ^ 30.
Proof. destruct S; cbn; lia. Qed.

Lemma canonicalize_SIZE S x : is_u64 x → VirtAddr.canonicalize x mod SIZE S = x mod SIZE S.
Proof.
  intros Hx. rewrite SIZE_pow2.
  assert (2 ^ page_shift S | 2 ^ 48) as Hd by (apply pow2_divide; destruct S; cbn; lia).
  rewrite <- (Z.mod_mod_divide (VirtAddr.canonicalize x) _ _ Hd), <- (Z.mod_mod_divide x _ _ Hd).
  by rewrite VirtAddr.canonicalize_low.
Qed.

Lemma canonicalize_hole : VirtAddr.canonicalize (2 ^ 47) = VirtAddr.MIN_UPPER_HALF.
Proof. vm_compute. reflexivity. Qed.

(** ** Pages *)

(** A page starts at a canonical multiple of its size. *)
Definition wf_page {S} (p : Page S) : Prop :=
  VirtAddr.canonical (page_start p) ∧ page_start p mod SIZE S = 0.

Lemma containing_address_eq {S} a :
  is_u64 a → Page.containing_address (S := S) a = mkPage (a - a mod SIZE S).
Proof.
  intros Ha. unfold Page.containing_address, VirtAddr.aligned_down.
  by rewrite Alignment.align_down_eq, ALIGNMENT_SIZE.
Qed.

Lemma containing_address_wf {S} a :
  VirtAddr.canonical a → wf_page (Page.containing_address (S := S) a).
Proof.
  intros Ha. rewrite containing_address_eq by (by apply VirtAddr.canonical_u64).
  pose proof (SIZE_bounds S). unfold wf_page. cbn.
  pose proof (Z.div_mod a (SIZE S) ltac:(lia)) as E.
  pose proof (Z.mod_pos_bound a (SIZE S) ltac:(lia)).
  pose proof (VirtAddr.canonical_u64 _ Ha) as Hu. unfold is_uint in Hu.
  pose proof (Z.mod_le a (SIZE S) ltac:(lia) ltac:(lia)).
  split; [| replace (a - a mod SIZE S) with (a / SIZE S * SIZE S) by lia; apply Z.mod_mul; lia].
  unfold VirtAddr.canonical, VirtAddr.MAX, VirtAddr.MIN_UPPER_HALF, VirtAddr.MAX_LOWER_HALF in *.
  destruct Ha as [?|Ha]; [left; lia | right]. split; [| lia].
  assert (VirtAddr.MIN_UPPER_HALF = 2 ^ (47 - page_shift S) * (2 ^ 17 - 1) * SIZE S) as Hm
    by (by destruct S).
  unfold VirtAddr.MIN_UPPER_HALF in Hm. rewrite Hm in *.
  replace (a - a mod SIZE S) with (a / SIZE S * SIZE S) by lia.
  apply Z.mul_le_mono_nonneg_r; [lia |]. apply Z.div_le_lower_bound; lia.
Qed.

Lemma page_add_eq {S} (p : Page S) n :
  wf_page p → 0 ≤ n → page_start p + n * SIZE S < 2 ^ 64 →
  Page.add p n = Ret (mkPage (VirtAddr.canonicalize (page_start p + n * SIZE S))).
Proof.
  intros [Hc Hm] Hn Hlt. pose proof (SIZE_bounds S). pose proof (VirtAddr.canonical_u64 _ Hc) as Hu.
  unfold is_uint in Hu. assert (is_u64 (page_start p + n * SIZE S)) as Hu' by (unfold is_uint; lia).
  unfold Page.add, Page.start_address, VirtAddr.add.
  rewrite mul_w_ok by lia. cbn. rewrite add_w_ok by lia. cbn. f_equal.
  unfold VirtAddr.new_extend. pose proof (VirtAddr.canonicalize_canonical _ Hu').
  rewrite containing_address_eq by (by apply VirtAddr.canonical_u64).
  rewrite canonicalize_SIZE by done. rewrite Z.mod_add, Hm by lia. f_equal. lia.
Qed.

Lemma page_sub_eq {S} (p : Page S) n :
  wf_page p → 0 ≤ n → 0 ≤ page_start p - n * SIZE S →
  Page.sub p n = Ret (mkPage (VirtAddr.canonicalize (page_start p - n * SIZE S))).
Proof.
  intros [Hc Hm] Hn Hlt. pose proof (SIZE_bounds S). pose proof (VirtAddr.canonical_u64 _ Hc) as Hu.
  unfold is_uint in Hu. assert (is_u64 (page_start p - n * SIZE S)) as Hu' by (unfold is_uint; lia).
  unfold Page.sub, Page.start_address, VirtAddr.sub.
  rewrite mul_w_ok by lia. cbn. rewrite sub_w_ok by lia. cbn. f_equal.
  unfold VirtAddr.new_extend. pose proof (VirtAddr.canonicalize_canonical _ Hu').
  rewrite containing_address_eq by (by apply VirtAddr.canonical_u64).
  rewrite canonicalize_SIZE by done.
  replace (page_start p - n * SIZE S) with (page_start p + (- n) * SIZE S) by lia.
  rewrite Z.mod_add, Hm by lia. f_equal. lia.
Qed.

(** A range of [n] pages, all in one half of the address space. *)
Definition same_half (a b : Z) : Prop :=
  b ≤ VirtAddr.MAX_LOWER_HALF ∨ VirtAddr.MIN_UPPER_HALF ≤ a.

Lemma canonical_between a x b :
  VirtAddr.canonical a → VirtAddr.canonical b → same_half a b → a ≤ x ≤ b →
  VirtAddr.canonical x.
Proof.
  unfold VirtAddr.canonical, same_half, VirtAddr.MAX, VirtAddr.MIN_UPPER_HALF,
    VirtAddr.MAX_LOWER_HALF. lia.
Qed.

Lemma aligned_gap a b m : 0 < m → a mod m = 0 → b mod m = 0 → ∃ q, b - a = q * m.
Proof.
  intros Hm Ha Hb. apply Z.mod_divide in Ha as [x ->]; [| lia].
  apply Z.mod_divide in Hb as [y ->]; [| lia]. exists (y - x). lia.
Qed.

Lemma aligned_ge x m : 0 < m → 0 ≤ x → x mod m = 0 → x ≠ 0 → m ≤ x.
Proof. intros Hm H0 Hx Hne. apply Z.divide_pos_le; [lia |]. by apply Z.mod_divide; [lia |]. Qed.

Section page_iter.
Context {S : MemSize} (s e : Page S) (n : nat).
Context (Hs : wf_page s) (He : wf_page e) (Hhalf : same_half (page_start s) (page_start e)).
Context (Hn : page_start e - page_start s = (Z.of_nat n - 1) * SIZE S).

Lemma page_at k :
  (Z.of_nat k < Z.of_nat n) →
  wf_page (S := S) (mkPage (page_start s + Z.of_nat k * SIZE S)) ∧
  page_start s + Z.of_nat k * SIZE S ≤ page_start e.
Proof.
  intros Hk. pose proof (SIZE_bounds S). destruct Hs as [Hsc Hsm], He as [Hec Hem].
  assert (page_start s + Z.of_nat k * SIZE S ≤ page_start e) by nia.
  split; [| done]. split; cbn.
  - apply (canonical_between (page_start s) _ (page_start e)); [done.. |]. nia.
  - rewrite Z.mod_add by lia. done.
Qed.

Lemma page_range_len :
  (0 < n)%nat → PageRangeInclusive.len (mkPageRange s e) = Ret (Z.of_nat n).
Proof.
  intros Hpos. pose proof (SIZE_bounds S). destruct Hs as [Hsc _], He as [Hec _].
  apply VirtAddr.canonical_u64 in Hsc, Hec. unfold is_uint in *.
  unfold PageRangeInclusive.len, PageRangeInclusive.is_empty. cbn.
  destruct (Z.ltb_spec (page_start e) (page_start s)); [nia |].
  unfold Page.diff, VirtAddr.diff. rewrite sub_w_ok by lia. cbn.
  rewrite Hn, Z.div_mul by lia. rewrite add_w_ok by nia. f_equal. lia.
Qed.

Lemma page_iter_step k :
  page_start e + SIZE S < 2 ^ 64 → (k < n)%nat →
  PageRangeInclusive.next
    (mkPageRange (mkPage (VirtAddr.canonicalize (page_start s + Z.of_nat k * SIZE S))) e)
  = Ret (Some (mkPage (page_start s + Z.of_nat k * SIZE S)),
         mkPageRange
           (mkPage (VirtAddr.canonicalize (page_start s + Z.of_nat (Datatypes.S k) * SIZE S))) e).
Proof.
  intros Htop Hk. destruct (page_at k) as [Hw Hle]; [lia |].
  rewrite VirtAddr.canonicalize_id by apply Hw.
  unfold PageRangeInclusive.next. cbn. rewrite (proj2 (Z.leb_le _ _)) by done.
  rewrite page_add_eq; [| done | lia | cbn; nia]. cbn. do 5 f_equal. lia.
Qed.

Lemma page_iter_end :
  page_start e + SIZE S < 2 ^ 64 →
  page_start e < VirtAddr.canonicalize (page_start s + Z.of_nat n * SIZE S).
Proof.
  intros Htop. pose proof (SIZE_bounds S).
  replace (page_start s + Z.of_nat n * SIZE S) with (page_start e + SIZE S) by lia.
  destruct He as [[Hl|Hu] Hem].
  - assert (page_start e + SIZE S ≤ 2 ^ 47) as Hle.
    { destruct (aligned_gap (page_start e) (2 ^ 47) (SIZE S)) as [q Hq];
        [lia | done | by destruct S |].
      unfold VirtAddr.MAX_LOWER_HALF in Hl.
      assert (0 < q) by (apply (Z.mul_lt_mono_pos_r (SIZE S)); lia).
      assert (1 * SIZE S ≤ q * SIZE S) by (apply Z.mul_le_mono_nonneg_r; lia). lia. }
    destruct (decide (page_start e + SIZE S = 2 ^ 47)) as [->|Hne].
    + rewrite canonicalize_hole. unfold VirtAddr.MAX_LOWER_HALF, VirtAddr.MIN_UPPER_HALF in *. lia.
    + rewrite VirtAddr.canonicalize_id; [lia |]. left. unfold VirtAddr.MAX_LOWER_HALF. lia.
  - rewrite VirtAddr.canonicalize_id; [lia |]. right.
    unfold VirtAddr.MAX, VirtAddr.MIN_UPPER_HALF in *. lia.
Qed.

Lemma page_collect :
  page_start e + SIZE S < 2 ^ 64 →
  collect PageRangeInclusive.next (Datatypes.S n) (mkPageRange s e)
  = Ret (Some ((λ k, mkPage (page_start s + Z.of_nat k * SIZE S)) <$> seq 0 n)).
Proof.
  intros Htop.
  set (st := λ k, mkPageRange (S := S)
    (mkPage (VirtAddr.canonicalize (page_start s + Z.of_nat k * SIZE S))) e).
  assert (mkPageRange s e = st 0%nat) as ->.
  { subst st. cbn. rewrite Z.add_0_r, VirtAddr.canonicalize_id by apply Hs. by destruct s. }
  apply (collect_progression PageRangeInclusive.next st
           (λ k, mkPage (page_start s + Z.of_nat k * SIZE S)) n (st n)).
  - intros k Hk. exact (page_iter_step k Htop Hk).
  - unfold PageRangeInclusive.next. subst st. cbn [pr_start pr_end page_start].
    rewrite (proj2 (Z.leb_gt _ _)) by (exact (page_iter_end Htop)). reflexivity.
Qed.
End page_iter.

(** Iterating over an inclusive range of pages that lies in one half of
    the address space and does not reach its very last page terminates and
    yields, in order and without repetition, exactly the pages from the first
    to the last one; their number is what [len] returns. *)
Theorem page_range_iter {S} (s e : Page S) :
  wf_page s → wf_page e → page_start s ≤ page_start e →
  same_half (page_start s) (page_start e) → page_start e + SIZE S < 2 ^ 64 →
  ∃ n : nat,
    PageRangeInclusive.len (mkPageRange s e) = Ret (Z.of_nat n) ∧
    collect PageRangeInclusive.next (Datatypes.S n) (mkPageRange s e)
      = Ret (Some ((λ k, mkPage (page_start s + Z.of_nat k * SIZE S)) <$> seq 0 n)) ∧
    page_start s + (Z.of_nat n - 1) * SIZE S = page_start e.
Proof.
  intros Hs He Hle Hhalf Htop. pose proof (SIZE_bounds S).
  destruct (aligned_gap (page_start s) (page_start e) (SIZE S)) as [q Hq];
    [lia | apply Hs | apply He |].
  assert (0 ≤ q) by nia. exists (Z.to_nat (q + 1)).
  assert (page_start e - page_start s = (Z.of_nat (Z.to_nat (q + 1)) - 1) * SIZE S) as Hn
    by (rewrite Z2Nat.id by lia; lia).
  split_and!; [apply page_range_len; auto; lia | by apply page_collect | lia].
Qed.

Lemma page_range_iter_witness :
  ∃ n : nat,
    PageRangeInclusive.len (S := M4KiB) (mkPageRange (mkPage 0x1000) (mkPage 0x3000))
      = Ret (Z.of_nat n) ∧ n = 3%nat.
Proof.
  destruct (page_range_iter (S := M4KiB) (mkPage 0x1000) (mkPage 0x3000)) as (n & Hn & _).
  - split; [left; unfold VirtAddr.MAX_LOWER_HALF; cbn; lia | reflexivity].
  - split; [left; unfold VirtAddr.MAX_LOWER_HALF; cbn; lia | reflexivity].
  - cbn. lia.
  - left. unfold VirtAddr.MAX_LOWER_HALF. cbn. lia.
  - cbn. lia.
  - exists n. split; [exact Hn |].
    vm_compute (PageRangeInclusive.len _) in Hn. injection Hn as Hn. lia.
Defined.

(** ** Frames *)

Definition wf_frame {S} (f : Frame S) : Prop :=
  PhysAddr.valid (frame_start f) ∧ frame_start f mod SIZE S = 0.

Lemma frame_containing_eq {S} a :
  is_u64 a → Frame.containing_address (S := S) a = mkFrame (a - a mod SIZE S).
Proof.
  intros Ha. unfold Frame.containing_address, PhysAddr.aligned_down.
  by rewrite Alignment.align_down_eq, ALIGNMENT_SIZE.
Qed.

Lemma SIZE_divide_52 S : (SIZE S | 2 ^ 52).
Proof. rewrite SIZE_pow2. apply pow2_divide. destruct S; cbn; lia. Qed.

(** Both directions of frame arithmetic: the result is truncated to 52 bits. *)
Lemma frame_truncate {S} (f : Frame S) d :
  wf_frame f → is_u64 (frame_start f + d * SIZE S) →
  Frame.containing_address (S := S) (PhysAddr.new_truncate (frame_start f + d * SIZE S))
  = mkFrame ((frame_start f + d * SIZE S) mod 2 ^ 52) ∧
  wf_frame (S := S) (mkFrame ((frame_start f + d * SIZE S) mod 2 ^ 52)).
Proof.
  intros [Hv Hm] Hu. pose proof (SIZE_bounds S). rewrite PhysAddr.new_truncate_eq.
  set (x := frame_start f + d * SIZE S) in *.
  pose proof (Z.mod_pos_bound x (2 ^ 52) ltac:(lia)).
  assert ((x mod 2 ^ 52) mod SIZE S = 0) as Hal.
  { rewrite Z.mod_mod_divide by apply SIZE_divide_52. subst x. by rewrite Z.mod_add by lia. }
  rewrite frame_containing_eq by (unfold is_uint; lia). rewrite Hal, Z.sub_0_r.
  split; [done |]. split; [unfold PhysAddr.valid, PhysAddr.MAX; cbn; lia | done].
Qed.

Lemma frame_add_eq {S} (f : Frame S) n :
  wf_frame f → 0 ≤ n → frame_start f + n * SIZE S < 2 ^ 64 →
  Frame.add f n = Ret (mkFrame ((frame_start f + n * SIZE S) mod 2 ^ 52)).
Proof.
  intros Hf Hn Hlt. pose proof (SIZE_bounds S). pose proof (PhysAddr.valid_u64 _ (proj1 Hf)) as Hu.
  unfold is_uint in Hu. unfold Frame.add, Frame.start_address, PhysAddr.add.
  rewrite mul_w_ok by lia. cbn. rewrite add_w_ok by lia. cbn. f_equal.
  apply frame_truncate; [done |]. unfold is_uint. lia.
Qed.

Lemma frame_sub_eq {S} (f : Frame S) n :
  wf_frame f → 0 ≤ n → n * SIZE S ≤ frame_start f →
  Frame.sub f n = Ret (mkFrame (frame_start f - n * SIZE S)).
Proof.
  intros Hf Hn Hle. pose proof (SIZE_bounds S). pose proof (PhysAddr.valid_u64 _ (proj1 Hf)) as Hu.
  unfold is_uint in Hu. unfold Frame.sub, Frame.start_address, PhysAddr.sub.
  rewrite mul_w_ok by lia. cbn. rewrite sub_w_ok by lia. cbn. f_equal.
  destruct (frame_truncate f (- n) Hf) as [E _]; [unfold is_uint; lia |].
  replace (frame_start f + - n * SIZE S) with (frame_start f - n * SIZE S) in E by lia.
  rewrite E, Z.mod_small; [done |].
  destruct Hf as [Hv _]. unfold PhysAddr.valid, PhysAddr.MAX in Hv. lia.
Qed.

Section frame_iter.
Context {S : MemSize} (s e : Frame S) (n : nat).
Context (Hs : wf_frame s) (He : wf_frame e).
Context (Hn : frame_start e - frame_start s = (Z.of_nat n - 1) * SIZE S).

Lemma frame_at k :
  Z.of_nat k < Z.of_nat n →
  wf_frame (S := S) (mkFrame (frame_start s + Z.of_nat k * SIZE S)) ∧
  frame_start s + Z.of_nat k * SIZE S ≤ frame_start e.
Proof.
  intros Hk. pose proof (SIZE_bounds S). destruct Hs as [Hsc Hsm], He as [Hec Hem].
  assert (frame_start s + Z.of_nat k * SIZE S ≤ frame_start e) by nia.
  split; [| done]. unfold PhysAddr.valid in *. split; cbn; [unfold PhysAddr.valid; nia |].
  by rewrite Z.mod_add by lia.
Qed.

Lemma frame_range_len :
  (0 < n)%nat → FrameRangeInclusive.len (mkFrameRange s e) = Ret (Z.of_nat n).
Proof.
  intros Hpos. pose proof (SIZE_bounds S). destruct Hs as [Hsc _], He as [Hec _].
  unfold PhysAddr.valid, PhysAddr.MAX in *.
  unfold FrameRangeInclusive.len, FrameRangeInclusive.is_empty. cbn.
  destruct (Z.ltb_spec (frame_start e) (frame_start s)); [nia |].
  unfold Frame.diff, PhysAddr.diff. rewrite sub_w_ok by lia. cbn.
  rewrite Hn, Z.div_mul by lia. rewrite add_w_ok by nia. f_equal. lia.
Qed.

Lemma frame_collect :
  frame_start e + SIZE S < 2 ^ 52 →
  collect FrameRangeInclusive.next (Datatypes.S n) (mkFrameRange s e)
  = Ret (Some ((λ k, mkFrame (frame_start s + Z.of_nat k * SIZE S)) <$> seq 0 n)).
Proof.
  intros Htop. pose proof (SIZE_bounds S). pose proof Hs as [Hsv _].
  unfold PhysAddr.valid in Hsv.
  set (st := λ k, mkFrameRange (S := S) (mkFrame (frame_start s + Z.of_nat k * SIZE S)) e).
  assert (mkFrameRange s e = st 0%nat) as ->
    by (subst st; cbn; rewrite Z.add_0_r; by destruct s).
  apply (collect_progression FrameRangeInclusive.next st
           (λ k, mkFrame (frame_start s + Z.of_nat k * SIZE S)) n (st n)).
  - intros k Hk. destruct (frame_at k) as [Hw Hle]; [lia |].
    unfold FrameRangeInclusive.next. subst st. cbn [fr_start fr_end frame_start].
    rewrite (proj2 (Z.leb_le _ _)) by done.
    rewrite frame_add_eq; [| done | lia | cbn; lia]. cbn [mbind out_bind frame_start].
    unfold mret, out_ret. do 4 f_equal. rewrite Z.mod_small; [lia |]. nia.
  - unfold FrameRangeInclusive.next. subst st. cbn [fr_start fr_end frame_start].
    rewrite (proj2 (Z.leb_gt _ _)) by nia. reflexivity.
Qed.

(** Backwards: the iterator steps down from [e], and at frame 0 moves its start. *)
Lemma frame_collect_back :
  (0 < n)%nat →
  collect FrameRangeInclusive.next_back (Datatypes.S n) (mkFrameRange s e)
  = Ret (Some ((λ k, mkFrame (frame_start e - Z.of_nat k * SIZE S)) <$> seq 0 n)).
Proof.
  intros Hpos. pose proof (SIZE_bounds S). pose proof Hs as [Hsv _].
  unfold PhysAddr.valid in Hsv.
  set (st := λ k : nat,
    if decide (k < n)%nat
    then mkFrameRange (S := S) s (mkFrame (frame_start e - Z.of_nat k * SIZE S))
    else if decide (frame_start s = 0) then mkFrameRange (mkFrame (SIZE S)) s
    else mkFrameRange s (mkFrame (frame_start s - SIZE S))).
  assert (mkFrameRange s e = st 0%nat) as ->.
  { subst st. cbn. rewrite decide_True by done. rewrite Z.sub_0_r. by destruct e. }
  apply (collect_progression FrameRangeInclusive.next_back st
           (λ k, mkFrame (frame_start e - Z.of_nat k * SIZE S)) n (st n)).
  - intros k Hk. destruct (frame_at (n - 1 - k)) as [Hw Hle]; [lia |].
    replace (frame_start s + Z.of_nat (n - 1 - k) * SIZE S)
      with (frame_start e - Z.of_nat k * SIZE S) in * by nia.
    unfold FrameRangeInclusive.next_back, st. rewrite decide_True by done.
    cbn [fr_start fr_end frame_start].
    rewrite (proj2 (Z.leb_le _ _)) by nia.
    destruct (Z.eqb_spec (frame_start e - Z.of_nat k * SIZE S) 0) as [E0|E0].
    + assert (frame_start s = (Z.of_nat k - Z.of_nat n + 1) * SIZE S) as Hsk by lia.
      assert (Z.of_nat k - Z.of_nat n + 1 = 0) as Hk0 by nia.
      assert (frame_start s = 0) as Hs0 by (rewrite Hsk, Hk0; done).
      rewrite frame_add_eq; [| done | lia | cbn; lia]. cbn [mbind out_bind frame_start].
      rewrite E0. rewrite decide_False, decide_True by lia.
      unfold mret, out_ret. do 3 f_equal.
      * f_equal. rewrite Z.mod_small; lia.
      * destruct s; cbn in *. by rewrite Hs0.
    + assert (SIZE S ≤ frame_start e - Z.of_nat k * SIZE S)
        by (apply aligned_ge; [lia | apply Hw | apply Hw | done]).
      rewrite frame_sub_eq; [| done | lia | cbn; lia].
      cbn [mbind out_bind frame_start]. unfold mret, out_ret. do 2 f_equal.
      destruct (decide (Datatypes.S k < n)%nat).
      * do 2 f_equal. lia.
      * assert (Z.of_nat k = Z.of_nat n - 1) as Hkn by lia. rewrite Hkn in *.
        rewrite decide_False by lia. do 2 f_equal. lia.
  - unfold FrameRangeInclusive.next_back, st. rewrite decide_False by lia.
    destruct (decide (frame_start s = 0)) as [E|E]; cbn [fr_start fr_end frame_start];
      rewrite (proj2 (Z.leb_gt _ _)) by lia; reflexivity.
Qed.
End frame_iter.

Lemma frame_range_count {S} (s e : Frame S) :
  wf_frame s → wf_frame e → frame_start s ≤ frame_start e →
  ∃ n : nat, (0 < n)%nat ∧ frame_start e - frame_start s = (Z.of_nat n - 1) * SIZE S.
Proof.
  intros Hs He Hle. pose proof (SIZE_bounds S).
  destruct (aligned_gap (frame_start s) (frame_start e) (SIZE S)) as [q Hq];
    [lia | apply Hs | apply He |].
  assert (0 ≤ q) by nia. exists (Z.to_nat (q + 1)). split; [lia |].
  rewrite Z2Nat.id by lia. lia.
Qed.

(** Iterating over an inclusive range of frames that does not contain the
    last frame of the physical address space terminates and yields exactly the
    frames from the first to the last one, in order; iterating backwards (over
    any range) yields them in the opposite order, down to frame 0 included. *)
Theorem frame_range_iter {S} (s e : Frame S) :
  wf_frame s → wf_frame e → frame_start s ≤ frame_start e →
  ∃ n : nat,
    FrameRangeInclusive.len (mkFrameRange s e) = Ret (Z.of_nat n) ∧
    frame_start s + (Z.of_nat n - 1) * SIZE S = frame_start e ∧
    (frame_start e + SIZE S < 2 ^ 52 →
     collect FrameRangeInclusive.next (Datatypes.S n) (mkFrameRange s e)
       = Ret (Some ((λ k, mkFrame (frame_start s + Z.of_nat k * SIZE S)) <$> seq 0 n))) ∧
    collect FrameRangeInclusive.next_back (Datatypes.S n) (mkFrameRange s e)
      = Ret (Some ((λ k, mkFrame (frame_start e - Z.of_nat k * SIZE S)) <$> seq 0 n)).
Proof.
  intros Hs He Hle. destruct (frame_range_count s e Hs He Hle) as (n & Hpos & Hn).
  exists n. split_and!; [by apply frame_range_len | lia | by apply frame_collect |
    by apply frame_collect_back].
Qed.

Lemma frame_range_iter_witness :
  wf_frame (S := M4KiB) (mkFrame 0) ∧
  ∃ n : nat,
    FrameRangeInclusive.len (S := M4KiB) (mkFrameRange (mkFrame 0) (mkFrame 0x2000))
      = Ret (Z.of_nat n).
Proof.
  assert (wf_frame (S := M4KiB) (mkFrame 0)) as H1
    by (split; [unfold PhysAddr.valid, PhysAddr.MAX; cbn; lia | reflexivity]).
  assert (wf_frame (S := M4KiB) (mkFrame 0x2000)) as H2
    by (split; [unfold PhysAddr.valid, PhysAddr.MAX; cbn; lia | reflexivity]).
  split; [exact H1 |].
  destruct (frame_range_iter (S := M4KiB) (mkFrame 0) (mkFrame 0x2000) H1 H2) as (n & Hn & _);
    [cbn; lia |].
  exists n. exact Hn.
Defined.

(** An iteration over frames up to the last frame of the physical address
    space never ends: stepping past that frame truncates to address 0, from
    which the iterator starts again. *)
Theorem frame_iter_last_diverges {S} (s e : Frame S) fuel :
  wf_frame s → wf_frame e → frame_start e + SIZE S = 2 ^ 52 →
  collect FrameRangeInclusive.next fuel (mkFrameRange s e) = Ret None.
Proof.
  intros Hs He Htop. pose proof (SIZE_bounds S). revert s Hs.
  induction fuel as [|fuel IH]; intros s Hs; [done |].
  cbn [collect]. destruct (Hs) as [Hv Hm]. unfold PhysAddr.valid, PhysAddr.MAX in Hv.
  assert (frame_start s ≤ frame_start e) as Hle.
  { destruct (aligned_gap (frame_start s) (frame_start e) (SIZE S)) as [q Hq];
      [lia | done | apply He |].
    assert (-1 < q) by (apply (Z.mul_lt_mono_pos_r (SIZE S)); lia).
    assert (0 * SIZE S ≤ q * SIZE S) by (apply Z.mul_le_mono_nonneg_r; lia). lia. }
  assert (FrameRangeInclusive.next (mkFrameRange s e)
    = Ret (Some s, mkFrameRange (mkFrame ((frame_start s + 1 * SIZE S) mod 2 ^ 52)) e)) as ->.
  { unfold FrameRangeInclusive.next. cbn [fr_start fr_end].
    rewrite (proj2 (Z.leb_le _ _)), frame_add_eq by (done || lia). done. }
  cbn [mbind out_bind]. rewrite IH; [done |]. apply frame_truncate; [done |]. unfold is_uint. lia.
Qed.

Lemma frame_iter_last_diverges_witness :
  collect FrameRangeInclusive.next 1000
    (mkFrameRange (S := M1GiB) (mkFrame 0) (mkFrame (2 ^ 52 - 2 ^ 30))) = Ret None.
Proof.
  apply (frame_iter_last_diverges (S := M1GiB) (mkFrame 0) (mkFrame (2 ^ 52 - 2 ^ 30)) 1000).
  - split; [unfold PhysAddr.valid, PhysAddr.MAX; cbn; lia | reflexivity].
  - split; [unfold PhysAddr.valid, PhysAddr.MAX; cbn; lia | reflexivity].
  - reflexivity.
Defined.
