(* ===== verification/Ranges.v ===== *)
(** * Ranges of memory

    [beskar-core/src/mem/ranges.rs]: inclusive ranges of addresses and the
    array-backed set of disjoint ranges that the frame allocator and the page
    allocators of the kernel are built on. *)

From S2P Require Import Prelude Addrs.

Record MemoryRange := mkRange { start : Z; end_ : Z }.

Global Instance MemoryRange_eq_dec : EqDecision MemoryRange.
Proof. solve_decision. Defined.

Module MemoryRange.

Definition new (s e : Z) : out MemoryRange :=
  assert_ (s <=? e);; mret (mkRange s e).

Definition overlaps (self other : MemoryRange) : option MemoryRange :=
  if (end_ other <=? start self) || (end_ self <=? start other) then None
  else Some (mkRange
    (if start other <? start self then start self else start other)
    (if end_ self <? end_ other then end_ self else end_ other)).

Definition is_inside (self other : MemoryRange) : bool :=
  (start other <=? start self) && (end_ self <=? end_ other).

Definition contains (self other : MemoryRange) : bool :=
  (start self <=? start other) && (end_ other <=? end_ self).

Definition size (self : MemoryRange) : out Z :=
  d ← sub_w (end_ self) (start self); add_w 64 d 1.

End MemoryRange.

(** The array of [N] ranges is the list [ranges] (of length [N]); the first
    [used] of them are in use. *)
Record MemoryRanges := mkRanges { ranges : list MemoryRange; used : nat }.

Module MemoryRanges.

Definition new (N : nat) : MemoryRanges := mkRanges (replicate N (mkRange 0 0)) 0.

Definition entries (self : MemoryRanges) : list MemoryRange := take (used self) (ranges self).

Definition len (self : MemoryRanges) : nat := used self.

Definition is_empty (self : MemoryRanges) : bool := Nat.eqb (used self) 0.

Definition index (self : MemoryRanges) (i : nat) : out MemoryRange :=
  assert_ (Nat.ltb i (len self));; unwrap (ranges self !! i).

(** [slice::swap]. *)
Definition swap (l : list MemoryRange) (i j : nat) : out (list MemoryRange) :=
  a ← unwrap (l !! i); b ← unwrap (l !! j); mret (<[i:=b]> (<[j:=a]> l)).

Definition delete (self : MemoryRanges) (i : nat) : out MemoryRanges :=
  assert_ (Nat.ltb i (used self));;
  let u := (used self - 1)%nat in
  l ← swap (ranges self) i u;
  mret (mkRanges l u).

Definition create (self : MemoryRanges) (range : MemoryRange) : out MemoryRanges :=
  assert_ (Nat.ltb (used self) (length (ranges self)));;
  mret (mkRanges (<[used self := range]> (ranges self)) (used self + 1)).

(** The merge loop of [insert].  Every iteration advances [i] or removes an
    entry, so that [used - i] iterations are enough; the theorems below show
    that the loop always returns with this fuel. *)
Fixpoint insert_loop (fuel : nat) (self : MemoryRanges) (range : MemoryRange) (i : nat)
    : out (MemoryRanges * MemoryRange) :=
  if Nat.ltb i (used self) then
    match fuel with
    | O => Panic
    | S fuel =>
        current ← unwrap (ranges self !! i);
        if (start range <=? saturating_add 64 (end_ current) 1) &&
           (start current <=? saturating_add 64 (end_ range) 1)
        then
          let range := mkRange (Z.min (start range) (start current))
                               (Z.max (end_ range) (end_ current)) in
          self ← delete self i;
          insert_loop fuel self range i
        else insert_loop fuel self range (S i)
    end
  else mret (self, range).

Definition insert (self : MemoryRanges) (range : MemoryRange) : out MemoryRanges :=
  if end_ range <? start range then mret self
  else
    '(self, range) ← insert_loop (used self) self range 0;
    create self range.

Definition sum (self : MemoryRanges) : out Z :=
  for_each (λ acc range, d ← sub_w (end_ range) (start range); d ← add_w 64 d 1; add_w 64 acc d)
    0 (entries self).

Definition trim_remove (self : MemoryRanges) (i : nat) (trim_range : MemoryRange)
    : out MemoryRanges :=
  range ← unwrap (ranges self !! i);
  assert_ (MemoryRange.contains range trim_range);;
  if (start trim_range <=? start range) && (end_ range <=? end_ trim_range) then
    delete self i
  else if start trim_range <=? start range then
    s ← add_w 64 (end_ trim_range) 1;
    mret (mkRanges (<[i := mkRange s (end_ range)]> (ranges self)) (used self))
  else if end_ range <=? end_ trim_range then
    e ← sub_w (start trim_range) 1;
    mret (mkRanges (<[i := mkRange (start range) e]> (ranges self)) (used self))
  else
    let old_end := end_ range in
    e ← sub_w (start trim_range) 1;
    let self := mkRanges (<[i := mkRange (start range) e]> (ranges self)) (used self) in
    s ← add_w 64 (end_ trim_range) 1;
    r ← MemoryRange.new s old_end;
    create self r.

(** [best_fit]: index, start, end, waste. *)
Definition best := option (nat * Z * Z * Z).

Definition improves (best_fit : best) (waste : Z) : bool :=
  match best_fit with None => true | Some (_, _, _, best_waste) => waste <? best_waste end.

Definition allocate_step (size : Z) (alignment : Alignment)
    (best_fit : best) (i : nat) (range : MemoryRange) : out best :=
  let alignment_mask := Alignment.mask alignment in
  let offset := Z.land (start range) alignment_mask in
  d ← sub_w (Alignment.as_u64 alignment) offset;
  let alignment_offset := Z.land d alignment_mask in
  match checked_add 64 (start range) alignment_offset with
  | None => mret best_fit
  | Some aligned_start =>
      s ← sub_w size 1;
      match checked_add 64 aligned_start s with
      | None => mret best_fit
      | Some e =>
          if end_ range <? e then mret best_fit
          else
            t ← sub_w (end_ range) e;
            waste ← add_w 64 alignment_offset t;
            mret (if improves best_fit waste then Some (i, aligned_start, e, waste)
                  else best_fit)
      end
  end.

(** The end of [allocate] and of [allocate_req]. *)
Definition take_best (self : MemoryRanges) (best_fit : best)
    : out (MemoryRanges * option Z) :=
  match best_fit with
  | Some (i, s, e, _) =>
      r ← MemoryRange.new s e;
      self ← trim_remove self i r;
      mret (self, Some s)
  | None => mret (self, None)
  end.

Definition allocate (self : MemoryRanges) (size : Z) (alignment : Alignment)
    : out (MemoryRanges * option Z) :=
  if size =? 0 then mret (self, None)
  else
    best_fit ← for_enum (allocate_step size alignment) 0 None (entries self);
    take_best self best_fit.

(** The body of the inner loop of [allocate_req]. *)
Definition allocate_req_step (size : Z) (alignment : Alignment) (i : nat) (range : MemoryRange)
    (best_fit : best) (req_range : MemoryRange) : out best :=
  let alignment_mask := Alignment.mask alignment in
  let overlap_start := Z.max (start range) (start req_range) in
  let overlap_end := Z.min (end_ range) (end_ req_range) in
  if overlap_end <=? overlap_start then mret best_fit
  else
    let offset := Z.land overlap_start alignment_mask in
    d ← sub_w (Alignment.as_u64 alignment) offset;
    let alignment_offset := Z.land d alignment_mask in
    match checked_add 64 overlap_start alignment_offset with
    | None => mret best_fit
    | Some aligned_start =>
        if overlap_end <? aligned_start then mret best_fit
        else
          s ← sub_w size 1;
          match checked_add 64 aligned_start s with
          | None => mret best_fit
          | Some e =>
              if overlap_end <? e then mret best_fit
              else
                t ← sub_w (end_ range) e;
                waste ← add_w 64 alignment_offset t;
                mret (if improves best_fit waste then Some (i, aligned_start, e, waste)
                      else best_fit)
          end
    end.

Definition allocate_req (self : MemoryRanges) (size : Z) (alignment : Alignment)
    (req_ranges : MemoryRanges) : out (MemoryRanges * option Z) :=
  if size =? 0 then mret (self, None)
  else
    best_fit ←
      for_enum (λ b i range,
        for_each (allocate_req_step size alignment i range) b (entries req_ranges))
        0 None (entries self);
    take_best self best_fit.

Definition intersection (self other : MemoryRanges) : out MemoryRanges :=
  for_each (λ result range,
    for_each (λ result other_range,
      match MemoryRange.overlaps range other_range with
      | Some overlap => insert result overlap
      | None => mret result
      end) result (entries other))
    (new (length (ranges self))) (entries self).

End MemoryRanges.

(** ** The set of addresses a value denotes *)

Definition in_range (r : MemoryRange) (a : Z) : Prop := start r ≤ a ≤ end_ r.

Definition covers (l : list MemoryRange) (a : Z) : Prop := ∃ r, r ∈ l ∧ in_range r a.

(** The addresses of a [MemoryRanges]. *)
Definition addrs (self : MemoryRanges) (a : Z) : Prop := covers (MemoryRanges.entries self) a.

Definition wf_range (r : MemoryRange) : Prop := 0 ≤ start r ≤ end_ r ∧ end_ r < 2 ^ 64.

(** Two ranges neither overlap nor touch. *)
Definition apart (r1 r2 : MemoryRange) : Prop :=
  end_ r1 + 1 < start r2 ∨ end_ r2 + 1 < start r1.

Global Instance apart_sym : Symmetric apart.
Proof. intros r1 r2. unfold apart. tauto. Qed.

Global Instance apart_dec r1 r2 : Decision (apart r1 r2).
Proof. unfold apart. apply _. Defined.

(** The representation invariant, for an array of [N] ranges. *)
Record ranges_inv (N : nat) (self : MemoryRanges) : Prop := {
  inv_length : length (ranges self) = N;
  inv_used : (used self ≤ N)%nat;
  inv_wf : Forall wf_range (MemoryRanges.entries self);
  inv_apart : pairwise apart (MemoryRanges.entries self);
}.

Lemma covers_perm l1 l2 a : l1 ≡ₚ l2 → covers l1 a ↔ covers l2 a.
Proof. intros Hp. unfold covers. by setoid_rewrite Hp. Qed.

Global Instance covers_proper : Proper ((≡ₚ) ==> eq ==> iff) covers.
Proof. intros l1 l2 Hp a ? <-. by apply covers_perm. Qed.

Lemma covers_nil a : covers [] a ↔ False.
Proof. unfold covers. set_solver. Qed.

Lemma covers_cons r l a : covers (r :: l) a ↔ in_range r a ∨ covers l a.
Proof. unfold covers. set_solver. Qed.

Lemma covers_app l1 l2 a : covers (l1 ++ l2) a ↔ covers l1 a ∨ covers l2 a.
Proof. unfold covers. set_solver. Qed.

Create Rewrite HintDb covers.
#[export] Hint Rewrite covers_nil covers_cons covers_app : covers.

Lemma length_entries self :
  (used self ≤ length (ranges self))%nat →
  length (MemoryRanges.entries self) = used self.
Proof. intros Hu. unfold MemoryRanges.entries. rewrite length_take. lia. Qed.

Lemma entries_lookup self i r :
  (i < used self)%nat → ranges self !! i = Some r →
  MemoryRanges.entries self !! i = Some r.
Proof. intros Hi Hr. unfold MemoryRanges.entries. by rewrite lookup_take_lt. Qed.

(** ** Effect of the primitive updates on the entries *)

Lemma delete_spec self i :
  (i < used self ≤ length (ranges self))%nat →
  ∃ r self',
    ranges self !! i = Some r ∧
    MemoryRanges.delete self i = Ret self' ∧
    length (ranges self') = length (ranges self) ∧
    used self' = (used self - 1)%nat ∧
    MemoryRanges.entries self ≡ₚ r :: MemoryRanges.entries self' ∧
    take i (MemoryRanges.entries self') = take i (MemoryRanges.entries self).
Proof.
  destruct self as [l u]. cbn. intros Hi.
  destruct (lookup_lt_is_Some_2 l i) as [r Hr]; [lia |].
  destruct (lookup_lt_is_Some_2 l (u - 1)) as [z Hz]; [lia |].
  exists r, (mkRanges (<[i:=z]> (<[(u - 1)%nat:=r]> l)) (u - 1)).
  unfold MemoryRanges.delete, MemoryRanges.swap, MemoryRanges.entries. cbn.
  destruct (Nat.ltb_spec i u); [| lia]. cbn. rewrite Hr, Hz. cbn.
  split_and!; [done | done | by rewrite !length_insert | done | |].
  - assert (take u l = take (u - 1) l ++ [z]) as Hl.
    { rewrite <- take_S_r by done. f_equal. lia. }
    rewrite Hl. destruct (decide (i = (u - 1)%nat)) as [->|Hne].
    + rewrite list_insert_insert_eq. rewrite take_insert_ge by lia.
      assert (r = z) as -> by congruence. symmetry. apply Permutation_cons_append.
    + rewrite take_insert_lt by lia. rewrite take_insert_ge by lia.
      assert (take (u - 1) l !! i = Some r) as Ht by (by rewrite lookup_take_lt by lia).
      destruct (list_pick _ _ _ Ht) as (rest & Hp & Hi'). rewrite Hi', Hp.
      rewrite <- Permutation_cons_append. by constructor.
  - rewrite !take_take. rewrite take_insert_ge by lia.
    rewrite take_insert_ge by lia. f_equal. lia.
Qed.

Lemma create_spec self range :
  (used self < length (ranges self))%nat →
  ∃ self',
    MemoryRanges.create self range = Ret self' ∧
    length (ranges self') = length (ranges self) ∧
    used self' = S (used self) ∧
    MemoryRanges.entries self' ≡ₚ range :: MemoryRanges.entries self.
Proof.
  destruct self as [l u]. cbn. intros Hu. unfold MemoryRanges.create. cbn.
  destruct (Nat.ltb_spec u (length l)); [| lia]. cbn.
  eexists. split; [done |]. cbn. rewrite length_insert. split; [done |]. split; [lia |].
  unfold MemoryRanges.entries. cbn. rewrite Nat.add_1_r.
  rewrite (take_S_r _ _ range) by (rewrite list_lookup_insert_eq by lia; done).
  rewrite take_insert_ge by lia. symmetry. apply Permutation_cons_append.
Qed.

Lemma create_full self range :
  (length (ranges self) ≤ used self)%nat → MemoryRanges.create self range = Panic.
Proof.
  intros Hu. unfold MemoryRanges.create.
  by destruct (Nat.ltb_spec (used self) (length (ranges self))); [lia |].
Qed.

Lemma set_entry_spec self i r y :
  (i < used self)%nat → ranges self !! i = Some r →
  ∃ rest,
    MemoryRanges.entries self ≡ₚ r :: rest ∧
    MemoryRanges.entries (mkRanges (<[i:=y]> (ranges self)) (used self)) ≡ₚ y :: rest.
Proof.
  intros Hi Hr. unfold MemoryRanges.entries. cbn.
  destruct (list_pick (take (used self) (ranges self)) i r) as (rest & H1 & H2);
    [by rewrite lookup_take_lt |].
  exists rest. split; [done |]. by rewrite take_insert_lt.
Qed.

(** ** Insertion *)

Definition touches (range current : MemoryRange) : bool :=
  (start range <=? saturating_add 64 (end_ current) 1) &&
  (start current <=? saturating_add 64 (end_ range) 1).

Lemma touches_spec range current :
  wf_range range → wf_range current → touches range current = true ↔ ¬ apart current range.
Proof.
  unfold touches, saturating_add, wf_range, apart. intros.
  rewrite andb_true_iff, !Z.leb_le. lia.
Qed.

(** The hull of two ranges that overlap or touch is their union. *)
Lemma merge_covers range current a :
  wf_range range → wf_range current → ¬ apart current range →
  in_range (mkRange (Z.min (start range) (start current))
                    (Z.max (end_ range) (end_ current))) a ↔
  in_range range a ∨ in_range current a.
Proof. unfold wf_range, apart, in_range. cbn. lia. Qed.

Lemma merge_apart r range current :
  apart r current → apart r range → ¬ apart current range →
  wf_range range → wf_range current → wf_range r →
  apart r (mkRange (Z.min (start range) (start current))
                   (Z.max (end_ range) (end_ current))).
Proof. unfold wf_range, apart. cbn. lia. Qed.

Lemma insert_loop_spec fuel self range i :
  (used self - i ≤ fuel)%nat → (i ≤ used self ≤ length (ranges self))%nat →
  Forall wf_range (MemoryRanges.entries self) → wf_range range →
  pairwise apart (MemoryRanges.entries self) →
  Forall (λ r, apart r range) (take i (MemoryRanges.entries self)) →
  ∃ self' range',
    MemoryRanges.insert_loop fuel self range i = Ret (self', range') ∧
    length (ranges self') = length (ranges self) ∧
    ((used self' < used self)%nat ∨ self' = self ∧ range' = range) ∧
    Forall wf_range (MemoryRanges.entries self') ∧ wf_range range' ∧
    pairwise apart (MemoryRanges.entries self') ∧
    Forall (λ r, apart r range') (MemoryRanges.entries self') ∧
    ∀ a, covers (range' :: MemoryRanges.entries self') a ↔
         covers (range :: MemoryRanges.entries self) a.
Proof.
  revert self range i. induction fuel as [|fuel IH];
    intros self range i Hfuel Hi Hwf Hr Hap Hpre; cbn [MemoryRanges.insert_loop];
    destruct (Nat.ltb_spec i (used self)) as [Hlt|Hge]; try lia.
  1, 3: exists self, range; split_and!; auto; rewrite take_ge in Hpre;
    [done | rewrite length_entries; lia].
  destruct (delete_spec self i) as (cur & self1 & Hcur & Hdel & Hlen & Hused & Hperm & Htake);
    [lia |].
  rewrite Hcur. cbn. fold (touches range cur).
  assert (wf_range cur) as Hwfc by (rewrite Hperm in Hwf; by inversion Hwf).
  destruct (touches range cur) eqn:Ht.
  - apply touches_spec in Ht; [| done..]. rewrite Hdel. cbn.
    rewrite Hperm in Hwf. apply Forall_cons in Hwf as [_ Hwf1].
    apply (pairwise_perm apart) in Hperm as Hap1; [| done].
    apply StronglySorted_inv in Hap1 as [Hap1 Hcur1].
    edestruct (IH self1 (mkRange (Z.min (start range) (start cur))
                                 (Z.max (end_ range) (end_ cur))) i)
      as (self' & range' & E & Hl' & Hu' & Hw' & Hr' & Ha' & Hs' & Hcov);
      [lia | lia | done | unfold wf_range in *; cbn; lia | done | |].
    + apply Forall_forall. intros r Hin.
      rewrite Forall_forall in Hpre, Hcur1, Hwf1.
      assert (r ∈ MemoryRanges.entries self1) by (by eapply subseteq_take).
      apply merge_apart; auto; [symmetry; auto |].
      apply Hpre. by rewrite <- Htake.
    + exists self', range'. split_and!; auto; [congruence | left; destruct Hu' as [?|[-> _]]; lia |].
      intros a. rewrite Hcov. autorewrite with covers. rewrite merge_covers by done.
      rewrite (covers_perm _ _ _ Hperm). autorewrite with covers. tauto.
  - assert (apart cur range) as Hap'.
    { apply dec_stable. intros H. apply touches_spec in H; congruence. }
    apply IH; [lia | lia | done | done | done |].
    rewrite (take_S_r _ _ cur) by (by apply entries_lookup).
    apply Forall_app. split; [done |]. by apply Forall_singleton.
Qed.

Lemma insert_ret N self range :
  ranges_inv N self → wf_range range →
  (used self < N)%nat ∨ Exists (λ r, ¬ apart r range) (MemoryRanges.entries self) →
  ∃ self',
    MemoryRanges.insert self range = Ret self' ∧ ranges_inv N self' ∧
    ∀ a, addrs self' a ↔ addrs self a ∨ in_range range a.
Proof.
  intros [Hlen Hused Hwf Hap] Hr Hroom. unfold MemoryRanges.insert.
  destruct (Z.ltb_spec (end_ range) (start range)); [unfold wf_range in *; lia |].
  destruct (insert_loop_spec (used self) self range 0)
    as (self1 & range1 & -> & Hl1 & Hu1 & Hw1 & Hr1 & Ha1 & Hs1 & Hcov);
    [lia | lia | done.. | constructor |].
  cbn. destruct (create_spec self1 range1) as (self2 & -> & Hl2 & Hu2 & Hp2).
  { destruct Hu1 as [? | [-> ->]]; [lia |]. destruct Hroom as [? | Hex]; [lia |].
    by apply Exists_not_Forall in Hex. }
  exists self2. split; [done |]. split; [split |].
  - congruence.
  - destruct Hu1 as [? | [-> ->]]; [lia |]. destruct Hroom as [? | Hex]; [lia |].
    by apply Exists_not_Forall in Hex.
  - rewrite Hp2. by constructor.
  - apply (pairwise_perm apart (range1 :: MemoryRanges.entries self1)); [done |].
    constructor; [done |]. eapply Forall_impl; [done | by symmetry].
  - intros a. unfold addrs. rewrite Hp2, Hcov. autorewrite with covers. tauto.
Qed.

Lemma insert_loop_apart fuel self range i :
  (used self - i ≤ fuel)%nat → (i ≤ used self ≤ length (ranges self))%nat →
  Forall wf_range (MemoryRanges.entries self) → wf_range range →
  Forall (λ r, apart r range) (MemoryRanges.entries self) →
  MemoryRanges.insert_loop fuel self range i = Ret (self, range).
Proof.
  intros Hfuel Hi Hwf Hr Hall. revert i Hfuel Hi.
  induction fuel as [|fuel IH]; intros i Hfuel Hi; cbn [MemoryRanges.insert_loop];
    destruct (Nat.ltb_spec i (used self)) as [Hlt|Hge]; try done; try lia.
  destruct (lookup_lt_is_Some_2 (ranges self) i) as [cur Hcur]; [lia |].
  rewrite Hcur. cbn. fold (touches range cur).
  assert (cur ∈ MemoryRanges.entries self) as Hin
    by (eapply list_elem_of_lookup_2; by apply entries_lookup).
  rewrite Forall_forall in Hwf, Hall.
  destruct (touches range cur) eqn:Ht; [| by apply IH; lia].
  apply touches_spec in Ht; [| auto..]. by destruct Ht; auto.
Qed.

Lemma insert_panic_iff N self range :
  ranges_inv N self → wf_range range →
  MemoryRanges.insert self range = Panic ↔
  used self = N ∧ Forall (λ r, apart r range) (MemoryRanges.entries self).
Proof.
  intros Hinv Hr. split.
  - intros HP.
    destruct (decide (used self < N)%nat) as [Hlt|Hge].
    { destruct (insert_ret N self range) as (? & E & _); auto. congruence. }
    destruct (decide (Exists (λ r, ¬ apart r range) (MemoryRanges.entries self))) as [He|He].
    { destruct (insert_ret N self range) as (? & E & _); auto. congruence. }
    split; [destruct Hinv; lia |]. apply Forall_forall. intros r Hin. apply dec_stable.
    intros Hna. apply He, Exists_exists. eauto.
  - intros [Hfull Hall]. destruct Hinv as [Hlen Hused Hwf Hap]. unfold MemoryRanges.insert.
    destruct (Z.ltb_spec (end_ range) (start range)); [unfold wf_range in *; lia |].
    rewrite insert_loop_apart by (done || lia). cbn. apply create_full. lia.
Qed.

Lemma insert_Ret N self range self' :
  ranges_inv N self → wf_range range →
  MemoryRanges.insert self range = Ret self' →
  ranges_inv N self' ∧ ∀ a, addrs self' a ↔ addrs self a ∨ in_range range a.
Proof.
  intros Hinv Hr E.
  destruct (decide (used self < N)%nat) as [Hlt|Hge].
  { destruct (insert_ret N self range) as (? & E' & H); auto. rewrite E in E'. by simplify_eq. }
  destruct (decide (Exists (λ r, ¬ apart r range) (MemoryRanges.entries self))) as [He|He].
  { destruct (insert_ret N self range) as (? & E' & H); auto. rewrite E in E'. by simplify_eq. }
  assert (MemoryRanges.insert self range = Panic); [| congruence].
  apply (insert_panic_iff N); [done..|].
  split; [destruct Hinv; lia |]. apply Forall_forall. intros r Hin. apply dec_stable.
  intros Hna. apply He, Exists_exists. eauto.
Qed.

(** [insert] of a range into a set of ranges that satisfies the
    representation invariant (disjoint, non-adjacent entries) either returns a
    set that satisfies it again and denotes exactly the old addresses together
    with the inserted ones, or panics (in release builds: drops the range),
    which it does exactly when the array is full and the range neither overlaps
    nor touches an entry. *)
Theorem insert_spec N self range :
  ranges_inv N self → wf_range range →
  (MemoryRanges.insert self range = Panic ↔
     used self = N ∧ Forall (λ r, apart r range) (MemoryRanges.entries self)) ∧
  (∀ self', MemoryRanges.insert self range = Ret self' →
     ranges_inv N self' ∧ ∀ a, addrs self' a ↔ addrs self a ∨ in_range range a).
Proof. intros Hinv Hr. split; [by apply insert_panic_iff |]. intros. by apply insert_Ret. Qed.

(** Two separate ranges bridged by a third one. *)
Definition two_ranges : MemoryRanges :=
  mkRanges [mkRange 0x1000 0x1FFF; mkRange 0x3000 0x3FFF; mkRange 0 0] 2.

Lemma two_ranges_inv : ranges_inv 3 two_ranges.
Proof.
  split; [done | cbn; lia | |].
  - repeat constructor; cbn; lia.
  - repeat apply SSorted_cons || constructor; unfold apart; cbn; auto with lia.
Qed.

Lemma insert_spec_witness :
  ranges_inv 3 two_ranges ∧ wf_range (mkRange 0x2000 0x2FFF) ∧
  ∃ self', MemoryRanges.insert two_ranges (mkRange 0x2000 0x2FFF) = Ret self' ∧
    MemoryRanges.entries self' = [mkRange 0x1000 0x3FFF] ∧ ranges_inv 3 self'.
Proof.
  assert (wf_range (mkRange 0x2000 0x2FFF)) as Hr by (unfold wf_range; cbn; lia).
  split; [exact two_ranges_inv |]. split; [exact Hr |].
  eexists. split; [vm_compute; reflexivity |]. split; [reflexivity |].
  apply (proj2 (insert_spec 3 two_ranges (mkRange 0x2000 0x2FFF) two_ranges_inv Hr)).
  vm_compute. reflexivity.
Defined.

(** ** Removing a block from an entry *)

Definition sub_range (p r : MemoryRange) : Prop := start r ≤ start p ∧ end_ p ≤ end_ r.

Lemma apart_sub p r q : sub_range p r → wf_range p → apart r q → wf_range q → apart p q.
Proof. unfold sub_range, apart, wf_range. lia. Qed.

(** Replacing one entry by pieces of it that leave out the block [t]. *)
Lemma replace_pieces es es' r rest pieces t :
  Forall wf_range es → pairwise apart es → es ≡ₚ r :: rest → es' ≡ₚ pieces ++ rest →
  Forall (λ p, wf_range p ∧ sub_range p r) pieces → pairwise apart pieces →
  sub_range t r →
  (∀ a, covers pieces a ↔ in_range r a ∧ ¬ in_range t a) →
  Forall wf_range es' ∧ pairwise apart es' ∧
  ∀ a, covers es' a ↔ covers es a ∧ ¬ in_range t a.
Proof.
  intros Hwf Hap Hes Hes' Hp Hpp Ht Hcov.
  rewrite Hes in Hwf. apply Forall_cons in Hwf as [Hwr Hwrest].
  apply (pairwise_perm apart) in Hes as Hap'; [| done].
  apply StronglySorted_inv in Hap' as [Hrest Hrr].
  rewrite Forall_forall in Hp, Hrr, Hwrest. split_and!.
  - rewrite Hes'. apply Forall_app. split; apply Forall_forall; [| auto].
    intros p Hin. by apply Hp.
  - symmetry in Hes'. apply (pairwise_perm apart _ _ Hes'), pairwise_app.
    split_and!; [done | done |]. intros p q Hp' Hq.
    destruct (Hp p Hp'). eapply apart_sub; eauto.
  - intros a. rewrite Hes', Hes. autorewrite with covers. rewrite Hcov.
    enough (covers rest a → ¬ in_range t a) by tauto.
    intros (q & Hq & Ha) Hta. specialize (Hrr q Hq). specialize (Hwrest q Hq).
    unfold in_range, sub_range, apart, wf_range in *. lia.
Qed.

(** The trimmed block is strictly inside the entry: the entry is split. *)
Definition splits (r t : MemoryRange) : Prop := start r < start t ∧ end_ t < end_ r.

Global Instance splits_dec r t : Decision (splits r t).
Proof. unfold splits. apply _. Defined.

Section trim.
Context (N : nat) (self : MemoryRanges) (i : nat) (r t : MemoryRange).
Context (Hinv : ranges_inv N self) (Hi : (i < used self)%nat).
Context (Hr : ranges self !! i = Some r) (Ht : wf_range t) (Hsub : sub_range t r).

Lemma contains_ok : MemoryRange.contains r t = true.
Proof.
  unfold MemoryRange.contains, sub_range in *. apply andb_true_iff. rewrite !Z.leb_le. lia.
Qed.

Lemma wf_entry : wf_range r.
Proof.
  destruct Hinv as [_ _ Hwf _]. rewrite Forall_forall in Hwf. apply Hwf.
  eapply list_elem_of_lookup_2. by apply entries_lookup.
Qed.

(** One way to finish: the entries are those of the source with [r] replaced. *)
Lemma trim_finish self' rest pieces :
  MemoryRanges.entries self ≡ₚ r :: rest →
  MemoryRanges.entries self' ≡ₚ pieces ++ rest →
  length (ranges self') = length (ranges self) → (used self' ≤ N)%nat →
  Forall (λ p, wf_range p ∧ sub_range p r) pieces → pairwise apart pieces →
  (∀ a, covers pieces a ↔ in_range r a ∧ ¬ in_range t a) →
  (used self' < N)%nat ∨ Exists (λ p, ¬ apart p t) pieces →
  ranges_inv N self' ∧ (∀ a, addrs self' a ↔ addrs self a ∧ ¬ in_range t a) ∧
  ((used self' < N)%nat ∨ Exists (λ p, ¬ apart p t) (MemoryRanges.entries self')).
Proof.
  intros He He' Hlen Hu Hp Hpp Hcov Hroom. destruct Hinv as [HN HuN Hwf Hap].
  destruct (replace_pieces _ _ _ _ _ t Hwf Hap He He') as (? & ? & ?); auto.
  split; [split; auto; congruence |]. split; [done |].
  destruct Hroom as [? | Hex]; [by left | right]. rewrite He', Exists_app. by left.
Qed.

Lemma trim_remove_spec :
  (splits r t → used self < N)%nat →
  ∃ self', MemoryRanges.trim_remove self i t = Ret self' ∧ ranges_inv N self' ∧
    (∀ a, addrs self' a ↔ addrs self a ∧ ¬ in_range t a) ∧
    ((used self' < N)%nat ∨ Exists (λ p, ¬ apart p t) (MemoryRanges.entries self')).
Proof.
  intros Hroom. pose proof wf_entry as Hwr. pose proof contains_ok as Hc.
  pose proof (inv_length _ _ Hinv) as HlenN. pose proof (inv_used _ _ Hinv) as HuN.
  unfold MemoryRanges.trim_remove. rewrite Hr. cbn. rewrite Hc. cbn.
  destruct (Z.leb_spec (start t) (start r)) as [H1|H1],
    (Z.leb_spec (end_ r) (end_ t)) as [H2|H2]; cbn.
  - destruct (delete_spec self i) as (r' & self1 & Hr' & -> & Hl & Hu & Hp & _); [lia |].
    assert (r' = r) as -> by congruence.
    eexists. split; [done |]. eapply (trim_finish _ _ []); eauto; [lia | constructor | |].
    + intros a. rewrite covers_nil. unfold in_range, sub_range in *. lia.
    + left. lia.
  - rewrite add_w_ok by (unfold sub_range, wf_range in *; lia). cbn.
    destruct (set_entry_spec self i r (mkRange (end_ t + 1) (end_ r))) as (rest & E1 & E2); auto.
    eexists. split; [done |]. eapply (trim_finish _ _ [_]); eauto; cbn.
    + by rewrite length_insert.
    + apply Forall_singleton. unfold wf_range, sub_range in *. cbn. lia.
    + repeat constructor.
    + intros a. autorewrite with covers. unfold in_range, sub_range, wf_range in *. cbn. lia.
    + right. apply Exists_cons_hd. unfold apart, wf_range, sub_range in *. cbn. lia.
  - rewrite sub_w_ok by (unfold sub_range, wf_range in *; lia). cbn.
    destruct (set_entry_spec self i r (mkRange (start r) (start t - 1))) as (rest & E1 & E2); auto.
    eexists. split; [done |]. eapply (trim_finish _ _ [_]); eauto; cbn.
    + by rewrite length_insert.
    + apply Forall_singleton. unfold wf_range, sub_range in *. cbn. lia.
    + repeat constructor.
    + intros a. autorewrite with covers. unfold in_range, sub_range, wf_range in *. cbn. lia.
    + right. apply Exists_cons_hd. unfold apart, wf_range, sub_range in *. cbn. lia.
  - rewrite sub_w_ok, add_w_ok by (unfold sub_range, wf_range in *; lia). cbn.
    unfold MemoryRange.new. rewrite (proj2 (Z.leb_le _ _)) by lia. cbn.
    destruct (set_entry_spec self i r (mkRange (start r) (start t - 1))) as (rest & E1 & E2); auto.
    edestruct (create_spec (mkRanges (<[i:=mkRange (start r) (start t - 1)]> (ranges self)) (used self))
                 (mkRange (end_ t + 1) (end_ r))) as (self2 & -> & Hl & Hu & Hp).
    { cbn. rewrite length_insert, HlenN. by apply Hroom. }
    cbn in *. eexists. split; [done |].
    eapply (trim_finish _ _ [mkRange (end_ t + 1) (end_ r); mkRange (start r) (start t - 1)]);
      eauto; cbn.
    + by rewrite Hp, E2.
    + by rewrite Hl, length_insert.
    + rewrite Hu. by apply Hroom.
    + unfold wf_range, sub_range in *. cbn.
      apply Forall_cons; split; [cbn; lia |]. apply Forall_singleton. cbn; lia.
    + constructor; [repeat constructor |]. apply Forall_singleton.
      unfold apart, wf_range in *. cbn. lia.
    + intros a. autorewrite with covers. unfold in_range, sub_range, wf_range in *. cbn. lia.
    + right. apply Exists_cons_hd. unfold apart, wf_range, sub_range in *. cbn. lia.
Qed.

Lemma trim_remove_full : splits r t → used self = N → MemoryRanges.trim_remove self i t = Panic.
Proof.
  intros [Hs1 Hs2] Hfull. pose proof wf_entry as Hwr. pose proof (inv_length _ _ Hinv).
  unfold MemoryRanges.trim_remove. rewrite Hr. cbn. rewrite contains_ok. cbn.
  destruct (Z.leb_spec (start t) (start r)); [lia |]. cbn.
  destruct (Z.leb_spec (end_ r) (end_ t)); [lia |].
  rewrite sub_w_ok, add_w_ok by (unfold sub_range, wf_range in *; lia). cbn.
  unfold MemoryRange.new. rewrite (proj2 (Z.leb_le _ _)) by lia. cbn.
  apply create_full. cbn. rewrite length_insert. lia.
Qed.
End trim.

(** ** Best fit

    Each loop iteration of [allocate] and [allocate_req] considers at most one
    candidate block; the loops keep the first one of least waste. *)

Definition consider (b c : MemoryRanges.best) : MemoryRanges.best :=
  match c with
  | Some (_, _, _, w) => if MemoryRanges.improves b w then c else b
  | None => b
  end.

Definition waste_of (c : nat * Z * Z * Z) : Z := c.2.

Lemma consider_None b c : consider b c = None ↔ b = None ∧ c = None.
Proof.
  unfold consider. destruct c as [[[[i s] e] w]|]; [| naive_solver].
  destruct b as [[[[i' s'] e'] w']|]; cbn; [case_match |]; naive_solver.
Qed.

Lemma consider_Some b c x :
  consider b c = Some x →
  (b = Some x ∨ c = Some x) ∧
  (∀ y, b = Some y ∨ c = Some y → waste_of x ≤ waste_of y).
Proof.
  unfold consider, waste_of. destruct c as [[[[i s] e] w]|]; [| naive_solver].
  destruct b as [[[[i' s'] e'] w']|]; cbn.
  - destruct (Z.ltb_spec w w'); intros [= <-]; split; auto;
      intros y [[= <-]|[= <-]]; cbn; lia.
  - intros [= <-]. split; auto. intros y [?|[= <-]]; [done |]. cbn; lia.
Qed.

Lemma best_fit_spec cs b :
  match foldl consider b cs with
  | None => b = None ∧ ∀ c, c ∈ cs → c = None
  | Some x => (b = Some x ∨ Some x ∈ cs) ∧
              ∀ y, b = Some y ∨ Some y ∈ cs → waste_of x ≤ waste_of y
  end.
Proof.
  revert b. induction cs as [|c cs IH]; intros b; cbn.
  - destruct b; [| set_solver]. split; [by left |]. intros y [[= <-]|?]; [lia | set_solver].
  - specialize (IH (consider b c)). destruct (foldl consider (consider b c) cs) as [x|].
    + destruct IH as [Hx Hmin]. split.
      * destruct Hx as [[[?|?] _]%consider_Some|?]; [by left | right | right]; set_solver.
      * intros y Hy.
        assert ((b = Some y ∨ c = Some y) ∨ Some y ∈ cs) as [Hbc|?] by set_solver;
          [| by apply Hmin; right].
        destruct (consider b c) as [z|] eqn:E.
        { transitivity (waste_of z); [apply Hmin; by left |].
          apply consider_Some in E as [_ Hz]. by apply Hz. }
        apply consider_None in E as [-> ->]. naive_solver.
    + destruct IH as [[-> ->]%consider_None Hall]. set_solver.
Qed.

Section alloc.
Context (size : Z) (alignment : Alignment).
Local Abbreviation m := (Alignment.as_u64 alignment).

(** The candidate block of entry [i] within [lo, hi]. *)
Definition candidate (i : nat) (range : MemoryRange) (lo hi : Z) : MemoryRanges.best :=
  let a := round_up lo m in
  if a + size - 1 <=? hi
  then Some (i, a, a + size - 1, a - lo + (end_ range - (a + size - 1)))
  else None.

Lemma padding lo :
  lo + Z.land (m - Z.land lo (Alignment.mask alignment)) (Alignment.mask alignment)
  = round_up lo m.
Proof.
  unfold Alignment.mask. rewrite Alignment.as_u64_pow2. apply add_padding.
  apply Alignment.shift_bounds.
Qed.

Lemma offset_ok lo :
  sub_w m (Z.land lo (Alignment.mask alignment))
  = Ret (m - Z.land lo (Alignment.mask alignment)).
Proof.
  apply sub_w_ok. unfold Alignment.mask. rewrite Alignment.as_u64_pow2.
  pose proof (Alignment.shift_bounds alignment). rewrite land_mask by lia.
  pose proof (pow2_pos (Alignment.discriminant_shift alignment)).
  pose proof (Z.mod_pos_bound lo (2 ^ Alignment.discriminant_shift alignment)). lia.
Qed.

Lemma round_up_ge lo : lo ≤ round_up lo m.
Proof. apply round_up_spec. pose proof (Alignment.as_u64_bounds alignment). lia. Qed.

Lemma round_up_mod lo : round_up lo m mod m = 0.
Proof. apply round_up_spec. pose proof (Alignment.as_u64_bounds alignment). lia. Qed.

Context (Hsize : 1 ≤ size < 2 ^ 64).

Lemma allocate_step_eq b i range :
  wf_range range →
  MemoryRanges.allocate_step size alignment b i range
  = Ret (consider b (candidate i range (start range) (end_ range))).
Proof.
  intros Hr. unfold MemoryRanges.allocate_step, candidate, wf_range in *.
  rewrite offset_ok. cbn.
  pose proof (padding (start range)) as Hp. pose proof (round_up_ge (start range)) as Hge.
  set (pad := Z.land (m - _) _) in *. rewrite <- Hp in Hge |- *.
  unfold checked_add. destruct (Z.ltb_spec (start range + pad) (2 ^ 64)).
  2: { rewrite (proj2 (Z.leb_gt _ _)) by lia. done. }
  rewrite sub_w_ok by lia. cbn.
  destruct (Z.ltb_spec (start range + pad + (size - 1)) (2 ^ 64)).
  2: { rewrite (proj2 (Z.leb_gt _ _)) by lia. done. }
  destruct (Z.ltb_spec (end_ range) (start range + pad + (size - 1))).
  { rewrite (proj2 (Z.leb_gt _ _)) by lia. done. }
  rewrite (proj2 (Z.leb_le _ _)) by lia.
  rewrite sub_w_ok by lia. cbn. rewrite add_w_ok by lia. cbn.
  replace (start range + pad + (size - 1)) with (start range + pad + size - 1) by lia.
  replace (start range + pad - start range) with pad by lia. done.
Qed.

Lemma allocate_req_step_eq i range b req :
  wf_range range → wf_range req →
  MemoryRanges.allocate_req_step size alignment i range b req
  = Ret (consider b
      (let lo := Z.max (start range) (start req) in
       let hi := Z.min (end_ range) (end_ req) in
       if hi <=? lo then None else candidate i range lo hi)).
Proof.
  intros Hr Hq. unfold MemoryRanges.allocate_req_step, candidate, wf_range in *. cbn zeta.
  set (lo := Z.max (start range) (start req)). set (hi := Z.min (end_ range) (end_ req)).
  assert (0 ≤ lo ∧ hi < 2 ^ 64 ∧ hi ≤ end_ range) as Hb by lia.
  destruct (Z.leb_spec hi lo); [done |].
  rewrite offset_ok. cbn.
  pose proof (padding lo) as Hp. pose proof (round_up_ge lo) as Hge.
  set (pad := Z.land (m - _) _) in *. rewrite <- Hp in Hge |- *.
  unfold checked_add. destruct (Z.ltb_spec (lo + pad) (2 ^ 64)).
  2: { rewrite (proj2 (Z.leb_gt _ _)) by lia. done. }
  destruct (Z.ltb_spec hi (lo + pad)).
  { rewrite (proj2 (Z.leb_gt _ _)) by lia. done. }
  rewrite sub_w_ok by lia. cbn.
  destruct (Z.ltb_spec (lo + pad + (size - 1)) (2 ^ 64)).
  2: { rewrite (proj2 (Z.leb_gt _ _)) by lia. done. }
  destruct (Z.ltb_spec hi (lo + pad + (size - 1))).
  { rewrite (proj2 (Z.leb_gt _ _)) by lia. done. }
  rewrite (proj2 (Z.leb_le _ _)) by lia.
  rewrite sub_w_ok by lia. cbn. rewrite add_w_ok by lia. cbn.
  replace (lo + pad + (size - 1)) with (lo + pad + size - 1) by lia.
  replace (lo + pad - lo) with pad by lia. done.
Qed.
End alloc.

(** ** Allocation *)

(** The block of [size] addresses at [a]. *)
Definition block (a size x : Z) : Prop := a ≤ x < a + size.

(** Because entries do not even touch, a run of covered addresses lies in one
    of them. *)
Lemma covered_run l a n :
  Forall wf_range l → pairwise apart l →
  (∀ x, a ≤ x ≤ a + Z.of_nat n → covers l x) →
  ∃ r, r ∈ l ∧ start r ≤ a ∧ a + Z.of_nat n ≤ end_ r.
Proof.
  intros Hwf Hap. induction n as [|n IH]; intros Hcov.
  - destruct (Hcov a) as (r & ? & ?); [lia |]. exists r. unfold in_range in *. split; [done | lia].
  - destruct IH as (r & Hr & H1 & H2); [intros x ?; apply Hcov; lia |].
    destruct (Hcov (a + Z.of_nat (S n))) as (q & Hq & Hin); [lia |].
    destruct (decide (q = r)) as [->|Hne]; [exists r; unfold in_range in *; split; [done | lia] |].
    exfalso. assert (apart r q).
    { apply list_elem_of_split in Hr as (l1 & l2 & ->).
      apply pairwise_app in Hap as (_ & [_ Hf]%StronglySorted_inv & Hc).
      rewrite Forall_forall in Hf.
      apply elem_of_app in Hq as [Hq|[->|Hq]%elem_of_cons]; [| done | auto].
      symmetry. apply Hc; [done | by left]. }
    unfold apart, in_range in *. lia.
Qed.

Lemma covered_block l a size :
  Forall wf_range l → pairwise apart l → 1 ≤ size →
  (∀ x, block a size x → covers l x) →
  ∃ r, r ∈ l ∧ start r ≤ a ∧ a + size - 1 ≤ end_ r.
Proof.
  intros Hwf Hap Hs Hcov.
  destruct (covered_run l a (Z.to_nat (size - 1)) Hwf Hap) as (r & ? & ? & ?).
  - intros x ?. apply Hcov. unfold block. lia.
  - exists r. split_and!; [done | done | lia].
Qed.

(** What [take_best] does with a candidate inside entry [i]. *)
Lemma take_best_spec N self i r s e w :
  ranges_inv N self → MemoryRanges.entries self !! i = Some r →
  0 ≤ s ≤ e → start r ≤ s → e ≤ end_ r →
  match MemoryRanges.take_best self (Some (i, s, e, w)) with
  | Panic => used self = N ∧ start r < s ∧ e < end_ r
  | Ret (self', o) =>
      o = Some s ∧ ranges_inv N self' ∧
      (∀ x, addrs self' x ↔ addrs self x ∧ ¬ block s (e - s + 1) x) ∧
      ((used self' < N)%nat ∨
       Exists (λ p, ¬ apart p (mkRange s e)) (MemoryRanges.entries self'))
  end.
Proof.
  intros Hinv Hr Hse H1 H2. cbn.
  unfold MemoryRange.new. rewrite (proj2 (Z.leb_le s e)) by lia. cbn.
  unfold MemoryRanges.entries in Hr. apply lookup_take_Some in Hr as [Hr Hi].
  pose proof (wf_entry N self i r Hinv Hi Hr) as Hwr.
  assert (wf_range (mkRange s e)) as Ht by (unfold wf_range in *; cbn; lia).
  assert (sub_range (mkRange s e) r) as Hsub by (unfold sub_range; cbn; lia).
  destruct (decide (splits r (mkRange s e) ∧ used self = N)) as [[Hsp Hfull]|Hroom].
  - rewrite (trim_remove_full N self i r) by done. cbn. unfold splits in Hsp. cbn in *. lia.
  - destruct (trim_remove_spec N self i r (mkRange s e)) as (self' & -> & Hi' & Ha' & Hex); auto.
    { intros Hsp. pose proof (inv_used _ _ Hinv).
      destruct (decide (used self = N)); [tauto | lia]. }
    cbn. split_and!; [done | done | | done].
    intros x. rewrite Ha'.
    assert (in_range (mkRange s e) x ↔ block s (e - s + 1) x); [| tauto].
    unfold in_range, block. cbn. lia.
Qed.

Section allocate.
Context (N : nat) (self : MemoryRanges) (size : Z) (alignment : Alignment).
Context (Hinv : ranges_inv N self) (Hsize : 1 ≤ size < 2 ^ 64).
Local Abbreviation m := (Alignment.as_u64 alignment).

(** The candidates of the loop of [allocate]. *)
Definition candidates : list MemoryRanges.best :=
  imap (λ i r, candidate size alignment i r (start r) (end_ r)) (MemoryRanges.entries self).

Lemma allocate_eq :
  MemoryRanges.allocate self size alignment
  = MemoryRanges.take_best self (foldl consider None candidates).
Proof.
  unfold MemoryRanges.allocate. rewrite (proj2 (Z.eqb_neq _ _)) by lia.
  erewrite (for_enum_pure _
    (λ b p, consider b (candidate size alignment p.1 p.2 (start p.2) (end_ p.2)))).
  - cbn. f_equal. unfold candidates. rewrite <- (foldl_fmap consider), fmap_imap. done.
  - intros b i r Hr. apply allocate_step_eq; [done |].
    pose proof (inv_wf _ _ Hinv) as Hwf. rewrite Forall_forall in Hwf. auto.
Qed.

Lemma candidate_in i s e w :
  Some (i, s, e, w) ∈ candidates →
  ∃ r, MemoryRanges.entries self !! i = Some r ∧ s = round_up (start r) m ∧
       e = s + size - 1 ∧ e ≤ end_ r ∧ w = end_ r - start r + 1 - size.
Proof.
  intros (k & Hk)%list_elem_of_lookup. unfold candidates in Hk.
  rewrite list_lookup_imap in Hk. apply fmap_Some in Hk as (r & Hr & Hc).
  unfold candidate in Hc. revert Hc.
  destruct (Z.leb_spec (round_up (start r) m + size - 1) (end_ r)); intros [= -> -> -> ->].
  exists r. split_and!; [done.. | lia].
Qed.

Lemma candidate_fits r :
  r ∈ MemoryRanges.entries self → round_up (start r) m + size - 1 ≤ end_ r →
  ∃ i s e, Some (i, s, e, end_ r - start r + 1 - size) ∈ candidates.
Proof.
  intros (i & Hi)%list_elem_of_lookup Hfit.
  exists i, (round_up (start r) m), (round_up (start r) m + size - 1).
  apply list_elem_of_lookup. exists i. unfold candidates. rewrite list_lookup_imap, Hi.
  cbn. unfold candidate. rewrite (proj2 (Z.leb_le _ _)) by done. do 3 f_equal. lia.
Qed.

Lemma fits_aligned r a :
  a mod m = 0 → start r ≤ a → a + size - 1 ≤ end_ r →
  round_up (start r) m + size - 1 ≤ end_ r.
Proof.
  intros Ha H1 H2. pose proof (Alignment.as_u64_bounds alignment).
  destruct (round_up_spec (start r) m) as (_ & _ & Hmin); [lia |].
  specialize (Hmin a Ha H1). lia.
Qed.

(** [allocate], in terms of the entry it chooses. *)
Lemma allocate_choice :
  match MemoryRanges.allocate self size alignment with
  | Panic => used self = N ∧ ∃ r, r ∈ MemoryRanges.entries self ∧ start r mod m ≠ 0
  | Ret (self', None) =>
      self' = self ∧
      ∀ r, r ∈ MemoryRanges.entries self → end_ r < round_up (start r) m + size - 1
  | Ret (self', Some a) =>
      ∃ r, r ∈ MemoryRanges.entries self ∧
        a = round_up (start r) m ∧ start r ≤ a ∧ a + size - 1 ≤ end_ r ∧
        (∀ r', r' ∈ MemoryRanges.entries self →
           round_up (start r') m + size - 1 ≤ end_ r' →
           end_ r - start r ≤ end_ r' - start r') ∧
        ranges_inv N self' ∧
        (∀ x, addrs self' x ↔ addrs self x ∧ ¬ block a size x) ∧
        ((used self' < N)%nat ∨
         Exists (λ p, ¬ apart p (mkRange a (a + size - 1))) (MemoryRanges.entries self'))
  end.
Proof.
  rewrite allocate_eq. pose proof (best_fit_spec candidates None) as Hbest.
  destruct (foldl consider None candidates) as [[[[i s] e] w]|].
  - destruct Hbest as [[?|Hin] Hmin]; [done |].
    apply candidate_in in Hin as (r & Hr & -> & -> & Hfit & ->).
    assert (r ∈ MemoryRanges.entries self) as Hrin by (by eapply list_elem_of_lookup_2).
    pose proof (inv_wf _ _ Hinv) as Hwf. rewrite Forall_forall in Hwf.
    specialize (Hwf r Hrin). unfold wf_range in Hwf.
    pose proof (round_up_ge alignment (start r)) as Hge.
    pose proof (take_best_spec N self i r (round_up (start r) m)
      (round_up (start r) m + size - 1) (end_ r - start r + 1 - size)
      Hinv Hr ltac:(lia) ltac:(lia) ltac:(lia)) as Hb.
    destruct (MemoryRanges.take_best self _) as [[self' o]|].
    2: { split; [apply Hb|]. exists r. split; [done|]. intros Hm. destruct Hb as (_ & Hlt & _).
         destruct (round_up_spec (start r) m) as (_ & _ & Hle); [pose proof (Alignment.as_u64_bounds alignment); lia|].
         specialize (Hle (start r) Hm). lia. }
    destruct Hb as (-> & Hi' & Ha' & Hex).
    exists r. split_and!; [done | done | lia | lia | | done | | done].
    + intros r' Hr' Hfit'.
      destruct (candidate_fits r' Hr' Hfit') as (i' & s' & e' & Hin').
      specialize (Hmin _ (or_intror Hin')). unfold waste_of in Hmin. cbn in Hmin. lia.
    + intros x. rewrite Ha'.
      by replace (round_up (start r) m + size - 1 - round_up (start r) m + 1) with size by lia.
  - cbn. split; [done |]. intros r Hr. destruct Hbest as [_ Hall].
    destruct (decide (round_up (start r) m + size - 1 ≤ end_ r)) as [Hfit|]; [| lia].
    destruct (candidate_fits r Hr Hfit) as (i & s & e & Hin). by apply Hall in Hin.
Qed.
End allocate.

Lemma block_in_entry self r a size :
  r ∈ MemoryRanges.entries self → start r ≤ a → a + size - 1 ≤ end_ r →
  ∀ x, block a size x → addrs self x.
Proof. intros Hr H1 H2 x Hx. exists r. unfold in_range, block in *. split; [done | lia]. Qed.

(** What [allocate] does to the set of addresses. *)
Lemma ranges_allocate_ok N self size alignment :
  ranges_inv N self → 1 ≤ size < 2 ^ 64 →
  match MemoryRanges.allocate self size alignment with
  | Ret (self', Some a) =>
      a mod Alignment.as_u64 alignment = 0 ∧ 0 ≤ a ∧ a + size ≤ 2 ^ 64 ∧
      (∀ x, block a size x → addrs self x) ∧ ranges_inv N self' ∧
      ∀ x, addrs self' x ↔ addrs self x ∧ ¬ block a size x
  | Ret (self', None) =>
      self' = self ∧
      ¬ ∃ a, a mod Alignment.as_u64 alignment = 0 ∧ ∀ x, block a size x → addrs self x
  | Panic => used self = N ∧ ∃ r, r ∈ MemoryRanges.entries self ∧ start r mod Alignment.as_u64 alignment ≠ 0
  end.
Proof.
  intros Hinv Hsize. pose proof (allocate_choice N self size alignment Hinv Hsize) as H.
  pose proof (inv_wf _ _ Hinv) as Hwf.
  destruct (MemoryRanges.allocate self size alignment) as [[self' [a|]]|]; [| | apply H].
  - destruct H as (r & Hr & Ha & H1 & H2 & _ & Hi' & Hcov & _).
    rewrite Forall_forall in Hwf. specialize (Hwf r Hr). unfold wf_range in Hwf.
    split_and!; [rewrite Ha; apply round_up_mod | lia | lia | | done | done].
    by eapply block_in_entry.
  - destruct H as [-> Hnone]. split; [done |]. intros (a & Ha & Hcov).
    destruct (covered_block _ a size Hwf (inv_apart _ _ Hinv)) as (r & Hr & H1 & H2); [lia | done |].
    pose proof (fits_aligned size alignment r a Ha H1 H2). specialize (Hnone r Hr). lia.
Qed.

(** C28: [allocate] of [size] bytes with a given alignment returns the address
    of an aligned block of free addresses and removes exactly that block from
    the set, keeping the invariant; it returns [None], leaving the set alone,
    exactly when no aligned block of that size is free anywhere; it panics only
    when the array is full and some entry does not start at an aligned address (so that it
    may have to be split). *)
Theorem allocate_spec N self size alignment :
  ranges_inv N self → 1 ≤ size < 2 ^ 64 →
  match MemoryRanges.allocate self size alignment with
  | Ret (self', Some a) =>
      a mod Alignment.as_u64 alignment = 0 ∧ 0 ≤ a ∧ a + size ≤ 2 ^ 64 ∧
      (∀ x, block a size x → addrs self x) ∧ ranges_inv N self' ∧
      ∀ x, addrs self' x ↔ addrs self x ∧ ¬ block a size x
  | Ret (self', None) =>
      self' = self ∧
      ¬ ∃ a, a mod Alignment.as_u64 alignment = 0 ∧ ∀ x, block a size x → addrs self x
  | Panic => used self = N ∧ ∃ r, r ∈ MemoryRanges.entries self ∧ start r mod Alignment.as_u64 alignment ≠ 0
  end.
Proof. apply ranges_allocate_ok. Qed.

Lemma allocate_spec_witness :
  ranges_inv 3 two_ranges ∧
  ∃ self', MemoryRanges.allocate two_ranges 0x800 Align4K = Ret (self', Some 0x1000) ∧
    ranges_inv 3 self'.
Proof.
  split; [exact two_ranges_inv |].
  pose proof (allocate_spec 3 two_ranges 0x800 Align4K two_ranges_inv ltac:(lia)) as H.
  vm_compute (MemoryRanges.allocate _ _ _) in H |- *.
  eexists. split; [reflexivity |]. apply H.
Defined.

(** [allocate] is best fit: the block it returns starts at the first
    aligned address of the smallest entry that can hold the request. *)
Theorem allocate_best_fit N self size alignment self' a :
  ranges_inv N self → 1 ≤ size < 2 ^ 64 →
  MemoryRanges.allocate self size alignment = Ret (self', Some a) →
  ∃ r, r ∈ MemoryRanges.entries self ∧ start r ≤ a ∧ a + size - 1 ≤ end_ r ∧
    (∀ b, b mod Alignment.as_u64 alignment = 0 → start r ≤ b → a ≤ b) ∧
    ∀ r' b, r' ∈ MemoryRanges.entries self →
      b mod Alignment.as_u64 alignment = 0 → start r' ≤ b → b + size - 1 ≤ end_ r' →
      end_ r - start r ≤ end_ r' - start r'.
Proof.
  intros Hinv Hsize E. pose proof (allocate_choice N self size alignment Hinv Hsize) as H.
  rewrite E in H. destruct H as (r & Hr & Ha & H1 & H2 & Hbest & _).
  pose proof (Alignment.as_u64_bounds alignment).
  exists r. split_and!; [done.. | |].
  - intros b Hb Hle. rewrite Ha. by apply round_up_spec; [lia | |].
  - intros r' b Hr' Hb H1' H2'. apply Hbest; [done |]. by eapply fits_aligned.
Qed.

Lemma allocate_best_fit_witness :
  ∃ r, r ∈ MemoryRanges.entries two_ranges ∧ start r ≤ 0x1000.
Proof.
  destruct (allocate_best_fit 3 two_ranges 0x800 Align4K
    (mkRanges [mkRange 0x1800 0x1FFF; mkRange 0x3000 0x3FFF; mkRange 0 0] 2) 0x1000
    two_ranges_inv) as (r & Hr & H1 & _); [lia | vm_compute; reflexivity |].
  exists r. split; assumption.
Defined.

Lemma alloc_then_insert N self size alignment self' a :
  ranges_inv N self → 1 ≤ size < 2 ^ 64 →
  MemoryRanges.allocate self size alignment = Ret (self', Some a) →
  ∃ self'', MemoryRanges.insert self' (mkRange a (a + size - 1)) = Ret self'' ∧
    ranges_inv N self'' ∧ ∀ x, addrs self'' x ↔ addrs self x.
Proof.
  intros Hinv Hsize E. pose proof (allocate_choice N self size alignment Hinv Hsize) as H.
  rewrite E in H. destruct H as (r & Hr & Ha & H1 & H2 & _ & Hi' & Hcov & Hroom).
  pose proof (inv_wf _ _ Hinv) as Hwf. rewrite Forall_forall in Hwf.
  specialize (Hwf r Hr). unfold wf_range in Hwf.
  destruct (insert_ret N self' (mkRange a (a + size - 1))) as (self'' & Hins & Hi'' & Ha'');
    [done | unfold wf_range; cbn; lia | done |].
  exists self''. split_and!; [done | done |]. intros x. rewrite Ha'', Hcov.
  assert (in_range (mkRange a (a + size - 1)) x ↔ block a size x) as ->
    by (unfold in_range, block; cbn; lia).
  assert (block a size x → addrs self x) by (by eapply block_in_entry).
  destruct (decide (a ≤ x < a + size)); unfold block in *; tauto.
Qed.

(** Giving an allocated block back with [insert] always succeeds and
    restores the set of addresses there was before the allocation. *)
Theorem alloc_free_roundtrip N self size alignment self' a :
  ranges_inv N self → 1 ≤ size < 2 ^ 64 →
  MemoryRanges.allocate self size alignment = Ret (self', Some a) →
  ∃ self'', MemoryRanges.insert self' (mkRange a (a + size - 1)) = Ret self'' ∧
    ranges_inv N self'' ∧ ∀ x, addrs self'' x ↔ addrs self x.
Proof. apply alloc_then_insert. Qed.

Lemma alloc_free_roundtrip_witness :
  ∃ self'', MemoryRanges.insert
      (mkRanges [mkRange 0x1800 0x1FFF; mkRange 0x3000 0x3FFF; mkRange 0 0] 2)
      (mkRange 0x1000 (0x1000 + 0x800 - 1)) = Ret self'' ∧ ranges_inv 3 self''.
Proof.
  destruct (alloc_free_roundtrip 3 two_ranges 0x800 Align4K
    (mkRanges [mkRange 0x1800 0x1FFF; mkRange 0x3000 0x3FFF; mkRange 0 0] 2) 0x1000
    two_ranges_inv) as (s & H1 & H2 & _); [lia | vm_compute; reflexivity |].
  exists s. split; assumption.
Defined.

(** ** Allocation inside requested ranges *)

Section allocate_req.
Context (N M : nat) (self req : MemoryRanges) (size : Z) (alignment : Alignment).
Context (Hinv : ranges_inv N self) (Hreq : ranges_inv M req) (Hsize : 1 ≤ size < 2 ^ 64).
Local Abbreviation m := (Alignment.as_u64 alignment).

Definition req_candidate (i : nat) (r q : MemoryRange) : MemoryRanges.best :=
  let lo := Z.max (start r) (start q) in
  let hi := Z.min (end_ r) (end_ q) in
  if hi <=? lo then None else candidate size alignment i r lo hi.

Definition req_candidates : list MemoryRanges.best :=
  imap pair (MemoryRanges.entries self) ≫=
    λ p, req_candidate p.1 p.2 <$> MemoryRanges.entries req.

Lemma allocate_req_eq :
  MemoryRanges.allocate_req self size alignment req
  = MemoryRanges.take_best self (foldl consider None req_candidates).
Proof.
  pose proof (inv_wf _ _ Hinv) as Hwf. pose proof (inv_wf _ _ Hreq) as Hwq.
  rewrite Forall_forall in Hwf, Hwq.
  unfold MemoryRanges.allocate_req. rewrite (proj2 (Z.eqb_neq _ _)) by lia.
  erewrite (for_enum_pure _
    (λ b p, foldl consider b (req_candidate p.1 p.2 <$> MemoryRanges.entries req))).
  - cbn. f_equal. unfold req_candidates. by rewrite <- foldl_bind.
  - intros b i r Hr. cbn. rewrite foldl_fmap. apply for_each_pure.
    intros b' q Hq. apply allocate_req_step_eq; auto.
Qed.

Lemma req_candidate_in i s e w :
  Some (i, s, e, w) ∈ req_candidates →
  ∃ r q, MemoryRanges.entries self !! i = Some r ∧ q ∈ MemoryRanges.entries req ∧
       s mod m = 0 ∧ Z.max (start r) (start q) ≤ s ∧ e = s + size - 1 ∧
       e ≤ Z.min (end_ r) (end_ q).
Proof.
  unfold req_candidates. intros ([k r] & Hc & Hk)%list_elem_of_bind.
  apply list_elem_of_lookup in Hk as (j & Hj). rewrite list_lookup_imap in Hj.
  apply fmap_Some in Hj as (r' & Hr' & [= -> <-]).
  apply list_elem_of_fmap in Hc as (q & Hc & Hq). cbn in Hc. unfold req_candidate, candidate in Hc.
  revert Hc. repeat case_match; intros [= -> -> -> ->].
  exists r, q. split_and!; [done | done | apply round_up_mod | apply round_up_ge | lia |].
  match goal with H : (_ <=? _) = true |- _ => apply Z.leb_le in H; lia end.
Qed.

Lemma req_candidate_fits r q a :
  r ∈ MemoryRanges.entries self → q ∈ MemoryRanges.entries req → 2 ≤ size →
  a mod m = 0 → Z.max (start r) (start q) ≤ a → a + size - 1 ≤ Z.min (end_ r) (end_ q) →
  ∃ c, Some c ∈ req_candidates.
Proof.
  intros (i & Hi)%list_elem_of_lookup Hq H2 Ha H1 He. eexists.
  apply list_elem_of_bind. exists (i, r). split.
  - apply list_elem_of_fmap. exists q. split; [| done]. cbn. unfold req_candidate, candidate.
    rewrite (proj2 (Z.leb_gt _ _)) by lia. rewrite (proj2 (Z.leb_le _ _)); [done |].
    pose proof (Alignment.as_u64_bounds alignment).
    destruct (round_up_spec (Z.max (start r) (start q)) m) as (_ & _ & Hmin); [lia |].
    specialize (Hmin a Ha H1). lia.
  - apply list_elem_of_lookup. exists i. by rewrite list_lookup_imap, Hi.
Qed.
End allocate_req.

(** [allocate_req] returns an aligned block that is free and lies inside
    the requested ranges, and removes exactly that block; for a request of at
    least two bytes it returns [None] only when there is no such block. *)
Theorem allocate_req_spec N M self req size alignment :
  ranges_inv N self → ranges_inv M req → 2 ≤ size < 2 ^ 64 →
  match MemoryRanges.allocate_req self size alignment req with
  | Ret (self', Some a) =>
      a mod Alignment.as_u64 alignment = 0 ∧
      (∀ x, block a size x → addrs self x ∧ addrs req x) ∧ ranges_inv N self' ∧
      ∀ x, addrs self' x ↔ addrs self x ∧ ¬ block a size x
  | Ret (self', None) =>
      self' = self ∧
      ¬ ∃ a, a mod Alignment.as_u64 alignment = 0 ∧
             ∀ x, block a size x → addrs self x ∧ addrs req x
  | Panic => used self = N
  end.
Proof.
  intros Hinv Hreq Hsize. rewrite (allocate_req_eq N M) by (done || lia).
  pose proof (best_fit_spec (req_candidates self req size alignment) None) as Hbest.
  pose proof (inv_wf _ _ Hinv) as Hwf. pose proof (inv_wf _ _ Hreq) as Hwq.
  destruct (foldl consider None _) as [[[[i s] e] w]|].
  - destruct Hbest as [[?|Hin] _]; [done |].
    apply req_candidate_in in Hin as (r & q & Hr & Hq & Hs & H1 & -> & H2).
    assert (r ∈ MemoryRanges.entries self) as Hrin by (by eapply list_elem_of_lookup_2).
    rewrite Forall_forall in Hwf. specialize (Hwf r Hrin). unfold wf_range in Hwf.
    pose proof (take_best_spec N self i r s (s + size - 1) w Hinv Hr
                  ltac:(lia) ltac:(lia) ltac:(lia)) as Hb.
    destruct (MemoryRanges.take_best self _) as [[self' o]|]; [| tauto].
    destruct Hb as (-> & Hi' & Ha' & _).
    split_and!; [done | | done |].
    + intros x Hx. split; [eapply (block_in_entry self r) | eapply (block_in_entry req q)];
        eauto; lia.
    + intros x. rewrite Ha'. by replace (s + size - 1 - s + 1) with size by lia.
  - cbn. split; [done |]. intros (a & Ha & Hcov). destruct Hbest as [_ Hall].
    destruct (covered_block _ a size Hwf (inv_apart _ _ Hinv)) as (r & Hr & H1 & H2);
      [lia | intros x Hx; by apply Hcov |].
    destruct (covered_block _ a size Hwq (inv_apart _ _ Hreq)) as (q & Hq & H3 & H4);
      [lia | intros x Hx; by apply Hcov |].
    destruct (req_candidate_fits self req size alignment r q a) as [c Hc]; try done; try lia.
    by apply Hall in Hc.
Qed.

Definition low_megabyte : MemoryRanges := mkRanges [mkRange 0x3800 0xFFFFF] 1.

Lemma low_megabyte_inv : ranges_inv 1 low_megabyte.
Proof.
  split; [done | done | |].
  - repeat constructor; cbn; lia.
  - repeat constructor.
Qed.

Lemma allocate_req_spec_witness :
  ∃ self', MemoryRanges.allocate_req two_ranges 0x400 Align1K low_megabyte
           = Ret (self', Some 0x3800) ∧ ranges_inv 3 self'.
Proof.
  pose proof (allocate_req_spec 3 1 two_ranges low_megabyte 0x400 Align1K
                two_ranges_inv low_megabyte_inv ltac:(lia)) as H.
  vm_compute (MemoryRanges.allocate_req _ _ _ _) in H |- *.
  eexists. split; [reflexivity |]. apply H.
Defined.

(** ** Intersection *)

Lemma overlaps_spec r q o :
  wf_range r → wf_range q → MemoryRange.overlaps r q = Some o →
  wf_range o ∧ ∀ a, in_range o a ↔ in_range r a ∧ in_range q a.
Proof.
  unfold MemoryRange.overlaps, wf_range, in_range. intros Hr Hq.
  destruct (Z.leb_spec (end_ q) (start r)), (Z.leb_spec (end_ r) (start q)); cbn; try done.
  intros [= <-]. cbn.
  destruct (Z.ltb_spec (start q) (start r)), (Z.ltb_spec (end_ r) (end_ q));
    (split; [| intros a]; lia).
Qed.

Lemma overlaps_None r q :
  MemoryRange.overlaps r q = None ↔ ¬ (start r < end_ q ∧ start q < end_ r).
Proof.
  unfold MemoryRange.overlaps.
  destruct (Z.leb_spec (end_ q) (start r)), (Z.leb_spec (end_ r) (start q)); cbn;
    split; try done; lia.
Qed.

(** A loop of insertions adds up the addresses of what it inserts. *)
Lemma for_each_insert {A} N (f : MemoryRanges → A → out MemoryRanges) (g : A → Z → Prop) l self self' :
  (∀ s a s', a ∈ l → ranges_inv N s → f s a = Ret s' →
     ranges_inv N s' ∧ ∀ x, addrs s' x ↔ addrs s x ∨ g a x) →
  ranges_inv N self → for_each f self l = Ret self' →
  ranges_inv N self' ∧ ∀ x, addrs self' x ↔ addrs self x ∨ ∃ a, a ∈ l ∧ g a x.
Proof.
  revert self. induction l as [|a l IH]; intros self Hf Hinv; cbn.
  - intros [= <-]. split; [done |]. set_solver.
  - intros (s & E & E')%bind_Ret.
    destruct (Hf self a s) as [Hs Hcov]; [set_solver | done | done |].
    destruct (IH s) as [Hs' Hcov']; [intros; eapply Hf; [set_solver | done | done] | done | done |].
    split; [done |]. intros x. rewrite Hcov', Hcov. set_solver.
Qed.

Lemma new_inv N : ranges_inv N (MemoryRanges.new N).
Proof. split; [apply length_replicate | cbn; lia | constructor | constructor]. Qed.

(** When [intersection] returns, the result satisfies the invariant and an
    address is in it exactly when it is in an entry of each of the two sets,
    one not merely ending where the other one starts (such a one-address
    overlap is treated as empty). *)
Theorem intersection_spec N M self other result :
  ranges_inv N self → ranges_inv M other →
  MemoryRanges.intersection self other = Ret result →
  ranges_inv N result ∧
  ∀ x, addrs result x ↔
    ∃ r q, r ∈ MemoryRanges.entries self ∧ q ∈ MemoryRanges.entries other ∧
      in_range r x ∧ in_range q x ∧ start r < end_ q ∧ start q < end_ r.
Proof.
  intros Hinv Hoth E. unfold MemoryRanges.intersection in E.
  pose proof (inv_wf _ _ Hinv) as Hwf. pose proof (inv_wf _ _ Hoth) as Hwq.
  rewrite Forall_forall in Hwf, Hwq. rewrite (inv_length _ _ Hinv) in E.
  pose (common := λ r q x, in_range r x ∧ in_range q x ∧ start r < end_ q ∧ start q < end_ r).
  apply (for_each_insert N _ (λ r x, ∃ q, q ∈ MemoryRanges.entries other ∧ common r q x))
    in E as [Hres Hcov]; [| | apply new_inv].
  - split; [done |]. intros x. rewrite Hcov. unfold addrs at 1, common.
    cbn. rewrite covers_nil. naive_solver.
  - clear E. intros s r s' Hr Hs E.
    apply (for_each_insert N _ (common r)) in E; [done | | done].
    clear s s' Hs E. intros s q s' Hq Hs. unfold common.
    destruct (MemoryRange.overlaps r q) as [o|] eqn:Ho.
    + intros E. assert (MemoryRange.overlaps r q ≠ None) as Hne by congruence.
      apply overlaps_spec in Ho as [Hwo Ho]; [| auto..].
      apply (insert_Ret N) in E as [Hs' Hcov]; [| done..].
      split; [done |]. intros x. rewrite Hcov, Ho.
      rewrite overlaps_None in Hne. apply dec_stable in Hne. tauto.
    + intros [= <-]. split; [done |]. apply overlaps_None in Ho. intros x. tauto.
Qed.

Lemma intersection_spec_witness :
  ∃ result, MemoryRanges.intersection two_ranges low_megabyte = Ret result ∧
    ranges_inv 3 result ∧ MemoryRanges.entries result = [mkRange 0x3800 0x3FFF].
Proof.
  eexists. split; [vm_compute; reflexivity |].
  split; [| vm_compute; reflexivity].
  apply (intersection_spec 3 1 two_ranges low_megabyte _ two_ranges_inv low_megabyte_inv).
  vm_compute. reflexivity.
Defined.

(** [overlaps] and [allocate_req] treat a common part of one address as
    empty although ranges are inclusive: two ranges that share exactly the
    address 5 do not overlap, and one byte cannot be allocated from them. *)
Lemma single_address_overlap :
  MemoryRange.overlaps (mkRange 0 5) (mkRange 5 10) = None ∧
  in_range (mkRange 0 5) 5 ∧ in_range (mkRange 5 10) 5 ∧
  MemoryRanges.allocate_req (mkRanges [mkRange 0 5] 1) 1 Align1 (mkRanges [mkRange 5 10] 1)
    = Ret (mkRanges [mkRange 0 5] 1, None).
Proof. split_and!; try reflexivity; unfold in_range; cbn; lia. Qed.
