(* ===== verification/HeapUtils.v ===== *)
(** * Shared parts of the heap

    [heaperion/src/utils.rs], [heaperion/src/error.rs], the [Layout] of
    [core::alloc] and the memory the allocators thread their free lists
    through. *)

From S2P Require Import Prelude.

(** [heaperion/src/error.rs]. *)
Inductive HeapError : Set :=
| OutOfMemory
| InvalidAlignment
| InvalidSize
| InvalidLayout
| InvalidPointer
| DoubleFree.

(** [core::alloc::Layout]: a size and a power-of-two alignment; the size
    rounded up to the alignment does not exceed [isize::MAX]. *)
Record Layout := mkLayout { lsize : Z; lalign : Z }.

Definition wf_layout (l : Layout) : Prop :=
  0 ≤ lsize l ∧ (∃ k, 0 ≤ k < 63 ∧ lalign l = 2 ^ k) ∧ lsize l + (lalign l - 1) < 2 ^ 63.

(** [usize::next_power_of_two], which panics on overflow. *)
Definition npow2 (x : Z) : out Z :=
  let p := next_power_of_two x in if p <? 2 ^ 64 then Ret p else Panic.

Definition leading_zeros (x : Z) : Z := if x =? 0 then 64 else 63 - Z.log2 x.

Definition align_up (addr align : Z) : out Z :=
  assert_ (is_power_of_two align);;
  s ← add_w 64 addr align; s ← sub_w s 1;
  mret (Z.land s (not_w 64 (align - 1))).

Definition size_to_order (size : Z) : out nat :=
  if size <=? 1 then mret 0%nat
  else next_power ← npow2 size; mret (Z.to_nat (64 - leading_zeros next_power - 1)).

Definition order_to_size (order : nat) : Z := Z.shiftl 1 (Z.of_nat order).

(** ** The nodes of free lists in memory

    [FreeBlock] and [FreeSlot] are structures with one field, [next], placed at
    the start of every free block or slot.  [nodes] maps an address to the
    [next] field stored there; an address that was never written as a node is
    not in the map, and reading it is a [Panic] (undefined behaviour in the
    source), so that a theorem that a call returns also says that it only
    follows valid nodes. *)
Abbreviation nodes := (gmap Z (option Z)).

(** [o] is the head of the list of nodes [l]. *)
Fixpoint chain (m : nodes) (o : option Z) (l : list Z) : Prop :=
  match l with
  | [] => o = None
  | p :: l => o = Some p ∧ ∃ nx, m !! p = Some nx ∧ chain m nx l
  end.

Lemma chain_frame m m' o l :
  (∀ p, p ∈ l → m' !! p = m !! p) → chain m o l → chain m' o l.
Proof.
  revert o. induction l as [|p l IH]; intros o Hm; cbn; [done |].
  intros (-> & nx & Hp & Hc). split; [done |]. exists nx.
  rewrite Hm by set_solver. split; [done |]. apply IH; [set_solver | done].
Qed.

Lemma chain_insert m o l p x : p ∉ l → chain m o l → chain (<[p:=x]> m) o l.
Proof.
  intros Hp. apply chain_frame. intros q Hq. apply lookup_insert_ne. set_solver.
Qed.

Lemma chain_dom m o l p : chain m o l → p ∈ l → p ∈ dom m.
Proof.
  revert o. induction l as [|q l IH]; intros o; [set_solver |].
  intros (-> & nx & Hq & Hc) [->|Hp]%elem_of_cons; [by apply elem_of_dom | by eapply IH].
Qed.

(** A list of nodes without repetition is not longer than the memory. *)
Lemma chain_length m o l : chain m o l → NoDup l → (length l ≤ size m)%nat.
Proof.
  intros Hc Hnd. rewrite <- (size_list_to_set (C := gset Z)) by done.
  rewrite <- size_dom. apply subseteq_size. intros p Hp%elem_of_list_to_set.
  by eapply chain_dom.
Qed.

(** ** Orders *)

Lemma order_to_size_pow2 o : order_to_size o = 2 ^ Z.of_nat o.
Proof. unfold order_to_size. by rewrite Z.shiftl_1_l. Qed.

Lemma order_to_size_pos o : 0 < order_to_size o.
Proof. rewrite order_to_size_pow2. apply pow2_pos. lia. Qed.

Lemma order_to_size_S o : order_to_size (S o) = 2 * order_to_size o.
Proof. rewrite !order_to_size_pow2, Nat2Z.inj_succ, Z.pow_succ_r by lia. done. Qed.

Lemma order_to_size_mono a b : (a ≤ b)%nat → order_to_size a ≤ order_to_size b.
Proof. intros. rewrite !order_to_size_pow2. apply pow2_le. lia. Qed.

Lemma order_to_size_divide a b : (a ≤ b)%nat → (order_to_size a | order_to_size b).
Proof. intros. rewrite !order_to_size_pow2. apply pow2_divide. lia. Qed.

Lemma next_power_of_two_ge x : 1 ≤ x → x ≤ next_power_of_two x.
Proof.
  intros Hx. unfold next_power_of_two. destruct (Z.leb_spec x 1); [lia |].
  apply Z.log2_up_spec. lia.
Qed.

Lemma next_power_of_two_pow2 x : ∃ k, 0 ≤ k ∧ next_power_of_two x = 2 ^ k.
Proof.
  unfold next_power_of_two. destruct (Z.leb_spec x 1); [by exists 0 |].
  exists (Z.log2_up x). split; [apply Z.log2_up_nonneg | done].
Qed.

Lemma next_power_of_two_le x k : 0 ≤ k → x ≤ 2 ^ k → next_power_of_two x ≤ 2 ^ k.
Proof.
  intros Hk Hx. unfold next_power_of_two. destruct (Z.leb_spec x 1).
  { pose proof (pow2_pos k Hk). lia. }
  apply pow2_le. split; [apply Z.log2_up_nonneg |].
  rewrite <- (Z.log2_up_pow2 k) by done. by apply Z.log2_up_le_mono.
Qed.

Lemma next_power_of_two_id k : 0 ≤ k → next_power_of_two (2 ^ k) = 2 ^ k.
Proof.
  intros Hk. unfold next_power_of_two. destruct (Z.leb_spec (2 ^ k) 1) as [H|H].
  - assert (2 ^ k = 1) by (pose proof (pow2_pos k Hk); lia). lia.
  - by rewrite Z.log2_up_pow2.
Qed.

Lemma size_to_order_pow2 k : 0 ≤ k < 64 → size_to_order (2 ^ k) = Ret (Z.to_nat k).
Proof.
  intros Hk. unfold size_to_order. destruct (Z.leb_spec (2 ^ k) 1) as [H|H].
  - assert (k = 0) as ->; [| done]. destruct (decide (k = 0)); [done |].
    pose proof (pow2_le 1 k ltac:(lia)). lia.
  - unfold npow2. rewrite next_power_of_two_id by lia.
    pose proof (Z.pow_lt_mono_r 2 k 64 ltac:(lia) ltac:(lia) ltac:(lia)).
    rewrite (proj2 (Z.ltb_lt _ _)) by done. cbn. unfold mret, out_ret. f_equal.
    unfold leading_zeros. rewrite (proj2 (Z.eqb_neq _ _)) by lia.
    rewrite Z.log2_pow2 by lia. f_equal. lia.
Qed.

Lemma is_power_of_two_pow2 k : 0 ≤ k → is_power_of_two (2 ^ k) = true.
Proof.
  intros Hk. unfold is_power_of_two. pose proof (pow2_pos k Hk).
  rewrite (proj2 (Z.ltb_lt _ _)) by lia. rewrite land_mask, Z.mod_same by lia. done.
Qed.

Lemma heap_align_up_eq addr k :
  0 ≤ k < 64 → 0 ≤ addr → addr + 2 ^ k < 2 ^ 64 →
  align_up addr (2 ^ k) = Ret (round_up addr (2 ^ k)).
Proof.
  intros Hk Ha Hlt. unfold align_up. rewrite is_power_of_two_pow2 by lia. cbn.
  pose proof (pow2_pos k ltac:(lia)).
  rewrite add_w_ok by lia. cbn. rewrite sub_w_ok by lia. cbn. unfold mret, out_ret. f_equal.
  rewrite land_not_mask by (unfold is_uint; lia). unfold round_up.
  by replace (addr + 2 ^ k - 1) with (addr + (2 ^ k - 1)) by lia.
Qed.
