(* ===== verification/Buddy.v ===== *)
(** * The buddy allocator

    [heaperion/src/buddy.rs]: power-of-two blocks, one free list per order
    threaded through the free blocks, splitting on allocation and merging of
    buddies on release. *)

From S2P Require Import Prelude HeapUtils.

Definition MAX_ORDER : nat := 28.
Definition MIN_BLOCK_SIZE : Z := 16.

Record BuddyAllocator := mkBuddy {
  heap_start : Z;
  heap_size : Z;
  free_lists : list (option Z);
  max_order : nat;
}.

Module BuddyAllocator.

Definition set_free_list (self : BuddyAllocator) (order : nat) (o : option Z) : BuddyAllocator :=
  mkBuddy (heap_start self) (heap_size self) (<[order := o]> (free_lists self)) (max_order self).

(** The operations thread the memory [m]; those that do not write it return
    only the allocator. *)

Definition add_block_to_free_list (m : nodes) (self : BuddyAllocator) (ptr : Z) (order : nat)
    : out (nodes * BuddyAllocator) :=
  assert_ (Nat.ltb order MAX_ORDER);;
  assert_ (heap_start self <=? ptr);;
  assert_ (ptr + order_to_size order <=? heap_start self + heap_size self);;
  head ← unwrap (free_lists self !! order);
  mret (<[ptr := head]> m, set_free_list self order (Some ptr)).

Definition pop_block_from_free_list (m : nodes) (self : BuddyAllocator) (order : nat)
    : out (Z * BuddyAllocator) :=
  assert_ (Nat.ltb order MAX_ORDER);;
  head ← unwrap (free_lists self !! order);
  block ← unwrap head;
  next ← unwrap (m !! block);
  mret (block, set_free_list self order next).

(** [is_block_free]: the walk along a free list.  A list without repetition has
    at most [size m] nodes. *)
Fixpoint is_block_free_loop (fuel : nat) (m : nodes) (current : option Z) (ptr : Z) : out bool :=
  match current with
  | None => mret false
  | Some block =>
      if block =? ptr then mret true
      else match fuel with
           | O => Panic
           | S fuel => next ← unwrap (m !! block); is_block_free_loop fuel m next ptr
           end
  end.

Definition is_block_free (m : nodes) (self : BuddyAllocator) (ptr : Z) (order : nat) : out bool :=
  head ← unwrap (free_lists self !! order);
  is_block_free_loop (size m) m head ptr.

Fixpoint remove_loop (fuel : nat) (m : nodes) (self : BuddyAllocator) (order : nat)
    (prev current : option Z) (ptr : Z) : out (nodes * BuddyAllocator) :=
  match current with
  | None => mret (m, self)
  | Some block =>
      if block =? ptr then
        next ← unwrap (m !! block);
        match prev with
        | Some prev_block => mret (<[prev_block := next]> m, self)
        | None => mret (m, set_free_list self order next)
        end
      else match fuel with
           | O => Panic
           | S fuel =>
               next ← unwrap (m !! block);
               remove_loop fuel m self order (Some block) next ptr
           end
  end.

Definition remove_block_from_free_list (m : nodes) (self : BuddyAllocator) (ptr : Z) (order : nat)
    : out (nodes * BuddyAllocator) :=
  assert_ (Nat.ltb order MAX_ORDER);;
  head ← unwrap (free_lists self !! order);
  remove_loop (size m) m self order None head ptr.

Definition buddy_of (self : BuddyAllocator) (ptr : Z) (order : nat) : Z :=
  let block_size := order_to_size order in
  let offset := ptr - heap_start self in
  let buddy_offset := Z.lxor offset block_size in
  heap_start self + buddy_offset.

Definition split_block (m : nodes) (self : BuddyAllocator) (order : nat)
    : out (nodes * BuddyAllocator) :=
  assert_ (Nat.ltb 0 order);;
  assert_ (Nat.leb order (max_order self));;
  '(block_ptr, self) ← pop_block_from_free_list m self order;
  let half_size := order_to_size order / 2 in
  '(m, self) ← add_block_to_free_list m self block_ptr (order - 1);
  let second_half := block_ptr + half_size in
  add_block_to_free_list m self second_half (order - 1).

(** The merge loop of [free_block]; at most [max_order - order] merges. *)
Fixpoint free_block_loop (fuel : nat) (m : nodes) (self : BuddyAllocator)
    (current_ptr : Z) (current_order : nat) : out (nodes * BuddyAllocator * Z * nat) :=
  if Nat.ltb current_order (max_order self) then
    match fuel with
    | O => Panic
    | S fuel =>
        let buddy_ptr := buddy_of self current_ptr current_order in
        free ← is_block_free m self buddy_ptr current_order;
        if (free : bool) then
          '(m, self) ← remove_block_from_free_list m self buddy_ptr current_order;
          let current_ptr := if current_ptr <? buddy_ptr then current_ptr else buddy_ptr in
          free_block_loop fuel m self current_ptr (current_order + 1)
        else mret (m, self, current_ptr, current_order)
    end
  else mret (m, self, current_ptr, current_order).

Definition free_block (m : nodes) (self : BuddyAllocator) (ptr : Z) (order : nat)
    : out (nodes * BuddyAllocator) :=
  '(m, self, current_ptr, current_order) ←
    free_block_loop (max_order self - order) m self ptr order;
  add_block_to_free_list m self current_ptr current_order.

(** [for split_order in (order..higher_order).rev()] *)
Definition split_down (m : nodes) (self : BuddyAllocator) (order higher_order : nat)
    : out (nodes * BuddyAllocator) :=
  for_each (λ '(m, self) split_order, split_block m self (split_order + 1))
    (m, self) (rev (seq order (higher_order - order))).

(** [for higher_order in (order + 1)..=self.max_order] *)
Fixpoint find_higher (m : nodes) (self : BuddyAllocator) (order : nat) (orders : list nat)
    : out (nodes * BuddyAllocator * result Z HeapError) :=
  match orders with
  | [] => mret (m, self, Err OutOfMemory)
  | higher_order :: orders =>
      head ← unwrap (free_lists self !! higher_order);
      match head with
      | Some _ =>
          '(m, self) ← split_down m self order higher_order;
          '(block, self) ← pop_block_from_free_list m self order;
          mret (m, self, Ok block)
      | None => find_higher m self order orders
      end
  end.

Definition find_block (m : nodes) (self : BuddyAllocator) (order : nat)
    : out (nodes * BuddyAllocator * result Z HeapError) :=
  head ← unwrap (free_lists self !! order);
  match head with
  | Some _ =>
      '(block, self) ← pop_block_from_free_list m self order;
      mret (m, self, Ok block)
  | None => find_higher m self order (seq (order + 1) (max_order self - order))
  end.

(** The order computed from a layout by [allocate] and [deallocate]. *)
Definition layout_order (layout : Layout) : out nat :=
  let size := Z.max (lsize layout) MIN_BLOCK_SIZE in
  let align := Z.max (lalign layout) MIN_BLOCK_SIZE in
  required_size ← npow2 (Z.max size align);
  size_to_order required_size.

Definition allocate (m : nodes) (self : BuddyAllocator) (layout : Layout)
    : out (nodes * BuddyAllocator * result Z HeapError) :=
  if lsize layout =? 0 then mret (m, self, Err InvalidSize)
  else
    order ← layout_order layout;
    if Nat.ltb (max_order self) order then mret (m, self, Err OutOfMemory)
    else find_block m self order.

Definition deallocate (m : nodes) (self : BuddyAllocator) (ptr : Z) (layout : Layout)
    : out (nodes * BuddyAllocator * result unit HeapError) :=
  let heap_end := heap_start self + heap_size self in
  if (ptr <? heap_start self) || (heap_end <=? ptr) then mret (m, self, Err InvalidPointer)
  else
    order ← layout_order layout;
    '(m, self) ← free_block m self ptr order;
    mret (m, self, Ok tt).

Definition new (m : nodes) (ptr size : Z) : out (nodes * result BuddyAllocator HeapError) :=
  if size <? MIN_BLOCK_SIZE then mret (m, Err InvalidSize)
  else
    aligned_addr ← align_up ptr MIN_BLOCK_SIZE;
    adjustment ← sub_w aligned_addr ptr;
    if size <=? adjustment then mret (m, Err InvalidSize)
    else
      let adjusted_size := size - adjustment in
      p ← npow2 adjusted_size;
      o ← size_to_order (p / 2);
      let max_order := Nat.min o (MAX_ORDER - 1) in
      let buddy := mkBuddy aligned_addr adjusted_size (replicate MAX_ORDER None) max_order in
      initial_order ← size_to_order (p / 2);
      let initial_block_size := order_to_size initial_order in
      if initial_block_size <=? adjusted_size then
        '(m, buddy) ← add_block_to_free_list m buddy aligned_addr initial_order;
        mret (m, Ok buddy)
      else mret (m, Ok buddy).

End BuddyAllocator.

(** ** Blocks

    A block is an address and an order. *)

Abbreviation blk := (Z * nat)%type.

Definition bsize (b : blk) : Z := order_to_size b.2.

(** Its addresses. *)
Definition in_blk (b : blk) (x : Z) : Prop := b.1 ≤ x < b.1 + bsize b.

Definition disj (b1 b2 : blk) : Prop := b1.1 + bsize b1 ≤ b2.1 ∨ b2.1 + bsize b2 ≤ b1.1.

Global Instance disj_sym : Symmetric disj.
Proof. intros b1 b2. unfold disj. tauto. Qed.

Definition total (bs : list blk) : Z := foldr (λ b s, bsize b + s) 0 bs.

Lemma total_cons b bs : total (b :: bs) = bsize b + total bs.
Proof. done. Qed.

Global Instance total_proper : Proper ((≡ₚ) ==> eq) total.
Proof. intros l1 l2 Hp. induction Hp; rewrite ?total_cons in *; try done; lia. Qed.

Lemma total_app l1 l2 : total (l1 ++ l2) = total l1 + total l2.
Proof. induction l1 as [|b l1 IH]; [done |]. rewrite <- app_comm_cons, !total_cons, IH. lia. Qed.

Lemma bsize_pos b : 0 < bsize b.
Proof. apply order_to_size_pos. Qed.

Lemma total_nonneg bs : 0 ≤ total bs.
Proof.
  induction bs as [|b bs IH]; [done |]. rewrite total_cons. pose proof (bsize_pos b). lia.
Qed.

(** The blocks of the free lists. *)
Definition free_blocks (ls : list (list Z)) : list blk :=
  concat (imap (λ k l, (λ p, (p, k)) <$> l) ls).

Lemma elem_of_free_blocks ls p k :
  (p, k) ∈ free_blocks ls ↔ ∃ l, ls !! k = Some l ∧ p ∈ l.
Proof.
  unfold free_blocks. rewrite list_elem_of_In, in_concat. setoid_rewrite <- list_elem_of_In.
  split.
  - intros (x & Hx & Hp). apply list_elem_of_lookup in Hx as (j & Hj).
    rewrite list_lookup_imap in Hj. apply fmap_Some in Hj as (l & Hl & ->).
    apply list_elem_of_fmap in Hp as (q & [= -> ->] & Hq). eauto.
  - intros (l & Hl & Hp). exists ((λ p, (p, k)) <$> l). split.
    + apply list_elem_of_lookup. exists k. by rewrite list_lookup_imap, Hl.
    + apply list_elem_of_fmap. eauto.
Qed.

Lemma free_blocks_split ls k l :
  ls !! k = Some l →
  ∃ rest, ∀ l', free_blocks (<[k := l']> ls) ≡ₚ ((λ p, (p, k)) <$> l') ++ rest.
Proof.
  intros Hk. apply list_elem_of_split_length in Hk as (l1 & l2 & -> & ->).
  exists (free_blocks l1 ++
          concat (imap (λ j l, (λ p, (p, (length l1 + S j)%nat)) <$> l) l2)).
  intros l'. rewrite insert_app_r_alt, Nat.sub_diag by lia. cbn.
  unfold free_blocks. rewrite imap_app. cbn.
  rewrite concat_app. cbn. rewrite Nat.add_0_r.
  rewrite (Permutation_app_swap_app _ ((λ p, (p, length l1)) <$> l')). f_equiv. done.
Qed.

(** Taking a block out of the free list of order [k]. *)
Lemma free_blocks_pick ls k l p l' :
  ls !! k = Some l → l ≡ₚ p :: l' →
  free_blocks ls ≡ₚ (p, k) :: free_blocks (<[k := l']> ls).
Proof.
  intros Hk Hp. destruct (free_blocks_split ls k l Hk) as [rest Hr].
  rewrite <- (list_insert_id ls k l Hk) at 1. rewrite !Hr, Hp. done.
Qed.

Lemma free_blocks_add ls k l p :
  ls !! k = Some l → free_blocks (<[k := p :: l]> ls) ≡ₚ (p, k) :: free_blocks ls.
Proof.
  intros Hk. destruct (free_blocks_split ls k l Hk) as [rest Hr].
  rewrite Hr. rewrite <- (list_insert_id ls k l Hk). by rewrite Hr.
Qed.

(** ** Buddies *)

Lemma lxor_one c : Z.lxor c 1 = if Z.even c then c + 1 else c - 1.
Proof.
  assert (∀ d, Z.lxor (2 * d) 1 = 2 * d + 1) as Heven.
  { intros d. symmetry. apply Z.add_nocarry_lxor.
    change 1 with (2 ^ 1 - 1). rewrite land_mask by lia.
    rewrite Z.mul_comm. apply Z.mod_mul. lia. }
  destruct (Z.even c) eqn:E.
  - apply Z.even_spec in E as [d ->]. apply Heven.
  - rewrite <- Z.negb_odd in E. apply negb_false_iff, Z.odd_spec in E as [d ->].
    rewrite <- Heven, Z.lxor_assoc, Z.lxor_nilpotent, Z.lxor_0_r, Heven. lia.
Qed.

(** The buddy of the [c]-th block of order [k] is its neighbour [c xor 1]. *)
Lemma buddy_of_cell self c k :
  BuddyAllocator.buddy_of self (heap_start self + c * order_to_size k) k
  = heap_start self + (if Z.even c then c + 1 else c - 1) * order_to_size k.
Proof.
  unfold BuddyAllocator.buddy_of. f_equal.
  replace (heap_start self + c * order_to_size k - heap_start self)
    with (c * order_to_size k) by lia.
  rewrite order_to_size_pow2, <- Z.shiftl_mul_pow2 by lia.
  rewrite <- Z.shiftl_1_l, <- Z.shiftl_lxor, lxor_one.
  rewrite Z.shiftl_1_l. by rewrite Z.shiftl_mul_pow2 by lia.
Qed.

Definition buddy_cell (c : Z) : Z := if Z.even c then c + 1 else c - 1.

Lemma buddy_pair c :
  ∃ e, c = 2 * e ∧ buddy_cell c = 2 * e + 1 ∨ c = 2 * e + 1 ∧ buddy_cell c = 2 * e.
Proof.
  unfold buddy_cell. destruct (Z.even c) eqn:E.
  - apply Z.even_spec in E as [e ->]. exists e. lia.
  - rewrite <- Z.negb_odd in E. apply negb_false_iff, Z.odd_spec in E as [e ->]. exists e. lia.
Qed.

(** ** Tilings of the heap

    The managed region is [heap_start, heap_start + 2 ^ max_order).  A block
    fits when it is one of the cells of its order in that region (and can hold
    a list node of eight bytes). *)
Definition fits (self : BuddyAllocator) (b : blk) : Prop :=
  (3 ≤ b.2)%nat ∧
  ∃ c, 0 ≤ c ∧ b.1 = heap_start self + c * bsize b ∧
       (c + 1) * bsize b ≤ order_to_size (max_order self).

Record tiling (self : BuddyAllocator) (bs : list blk) : Prop := {
  tiling_fits : Forall (fits self) bs;
  tiling_disj : pairwise disj bs;
  tiling_total : total bs = order_to_size (max_order self);
}.

Lemma tiling_perm self bs bs' : bs ≡ₚ bs' → tiling self bs → tiling self bs'.
Proof.
  intros Hp [H1 H2 H3]. split.
  - by rewrite <- Hp.
  - by apply (pairwise_perm disj bs).
  - by rewrite <- Hp.
Qed.

Global Instance tiling_proper self : Proper ((≡ₚ) ==> iff) (tiling self).
Proof. intros l1 l2 Hp. split; by apply tiling_perm. Qed.

Lemma fits_order self b : fits self b → (b.2 ≤ max_order self)%nat.
Proof.
  intros (_ & c & Hc & _ & Hle). destruct (decide (b.2 ≤ max_order self)%nat); [done |].
  unfold bsize in Hle. pose proof (order_to_size_mono (S (max_order self)) b.2 ltac:(lia)) as Hm.
  rewrite order_to_size_S in Hm. pose proof (order_to_size_pos (max_order self)). nia.
Qed.

Lemma fits_bounds self b :
  fits self b →
  heap_start self ≤ b.1 ∧ b.1 + bsize b ≤ heap_start self + order_to_size (max_order self).
Proof. intros (_ & c & Hc & -> & Hle). pose proof (bsize_pos b). nia. Qed.

Lemma fits_split self p k :
  (3 ≤ k)%nat → fits self (p, S k) → fits self (p, k) ∧ fits self (p + order_to_size k, k).
Proof.
  unfold fits, bsize. cbn. intros Hk (_ & c & Hc & -> & Hle).
  rewrite order_to_size_S in *. pose proof (order_to_size_pos k).
  split; (split; [done |]); [exists (2 * c) | exists (2 * c + 1)]; nia.
Qed.

(** Splitting a block of a tiling into halves. *)
Lemma tiling_split self p k bs :
  (3 ≤ k)%nat → tiling self ((p, S k) :: bs) →
  tiling self ((p, k) :: (p + order_to_size k, k) :: bs).
Proof.
  intros Hk [Hf Hd Ht]. apply Forall_cons in Hf as [Hf Hfs].
  apply StronglySorted_inv in Hd as [Hd Hds]. rewrite total_cons in Ht.
  destruct (fits_split self p k Hk Hf) as [Hf1 Hf2]. pose proof (order_to_size_pos k).
  split.
  - by rewrite !Forall_cons.
  - rewrite Forall_forall in Hds. unfold disj, bsize in Hds. cbn in Hds.
    setoid_rewrite order_to_size_S in Hds.
    constructor; [constructor; [done |] | constructor].
    + apply Forall_forall. intros x Hx. specialize (Hds x Hx). unfold disj, bsize. cbn. lia.
    + unfold disj, bsize. cbn. lia.
    + apply Forall_forall. intros x Hx. specialize (Hds x Hx). unfold disj, bsize. cbn. lia.
  - rewrite !total_cons. unfold bsize in *. cbn in *. rewrite order_to_size_S in Ht. lia.
Qed.

(** A cell of an order below the maximal one and its buddy form a cell of the
    next order. *)
Lemma fits_pair self p k :
  fits self (p, k) → (k < max_order self)%nat →
  let q := BuddyAllocator.buddy_of self p k in
  let s := order_to_size k in
  ∃ e, fits self (heap_start self + e * (2 * s), S k) ∧
    (p = heap_start self + 2 * e * s ∧ q = p + s ∨
     q = heap_start self + 2 * e * s ∧ p = q + s).
Proof.
  intros (H3 & c & Hc & Hp & Hle) Hk q s. cbn in H3, Hp. unfold bsize in Hp, Hle. cbn in Hp, Hle.
  subst p q. rewrite buddy_of_cell. fold (buddy_cell c).
  destruct (buddy_pair c) as [e He]. pose proof (order_to_size_pos k) as Hs. fold s in Hs, Hle |- *.
  destruct (order_to_size_divide (S k) (max_order self)) as [z Hz]; [lia |].
  rewrite order_to_size_S in Hz. fold s in Hz. rewrite Hz in Hle.
  assert (c + 1 ≤ 2 * z) by (apply (Z.mul_le_mono_pos_r _ _ s); lia).
  exists e. split; [| destruct He as [[-> ->]|[-> ->]]; [left | right]; lia].
  split; [cbn; lia |]. exists e. unfold bsize. cbn. rewrite order_to_size_S. fold s.
  split_and!; [lia | done |]. rewrite Hz. assert (e < z) by lia. nia.
Qed.

(** Merging two buddies. *)
Lemma tiling_merge self p k bs :
  (k < max_order self)%nat →
  let q := BuddyAllocator.buddy_of self p k in
  tiling self ((q, k) :: (p, k) :: bs) →
  tiling self ((if p <? q then p else q, S k) :: bs).
Proof.
  intros Hk q [Hf Hd Ht].
  apply Forall_cons in Hf as [Hfq [Hfp Hfs]%Forall_cons].
  destruct (fits_pair self p k Hfp Hk) as (e & Hfe & Hpq). fold q in Hpq.
  pose proof (order_to_size_pos k) as Hs.
  apply StronglySorted_inv in Hd as [[Hd Hdp]%StronglySorted_inv [_ Hdq]%Forall_cons].
  assert ((if p <? q then p else q) = heap_start self + e * (2 * order_to_size k)) as ->.
  { destruct (Z.ltb_spec p q); lia. }
  split.
  - by constructor.
  - constructor; [done |]. rewrite Forall_forall in Hdp, Hdq.
    apply Forall_forall. intros x Hx. specialize (Hdp x Hx). specialize (Hdq x Hx).
    unfold disj, bsize in *. cbn in *. rewrite order_to_size_S.
    pose proof (order_to_size_pos x.2). lia.
  - rewrite !total_cons in *. unfold bsize in *. cbn in *. rewrite order_to_size_S. lia.
Qed.

(** Disjoint blocks inside an interval are not longer than it. *)
Lemma total_le lo hi bs :
  lo ≤ hi → pairwise disj bs → Forall (λ b, lo ≤ b.1 ∧ b.1 + bsize b ≤ hi) bs →
  total bs ≤ hi - lo.
Proof.
  remember (length bs) as n eqn:Hn. revert lo hi bs Hn.
  induction n as [n IH] using lt_wf_ind. intros lo hi bs -> Hlh Hd Hin.
  destruct bs as [|b bs]; [cbn; lia |].
  apply StronglySorted_inv in Hd as [Hd Hb]. apply Forall_cons in Hin as [Hbi Hin].
  rewrite Forall_forall in Hb, Hin. pose proof (bsize_pos b).
  set (L := filter (λ x : blk, x.1 + bsize x ≤ b.1) bs).
  set (R := filter (λ x : blk, ¬ x.1 + bsize x ≤ b.1) bs).
  assert (bs ≡ₚ L ++ R) as Hp by (symmetry; apply filter_app_complement).
  assert (length L + length R = length bs)%nat as Hlen by (by rewrite Hp, length_app).
  apply (pairwise_perm disj) in Hp as Hd'; [| done]. apply pairwise_app in Hd' as (HdL & HdR & _).
  assert (total L ≤ b.1 - lo).
  { apply (IH (length L)); [cbn; lia | done | lia | done |].
    apply Forall_forall. intros x [Hx1 Hx2]%list_elem_of_filter. specialize (Hin x Hx2). lia. }
  assert (total R ≤ hi - (b.1 + bsize b)).
  { apply (IH (length R)); [cbn; lia | done | lia | done |].
    apply Forall_forall. intros x [Hx1 Hx2]%list_elem_of_filter.
    specialize (Hin x Hx2). specialize (Hb x Hx2). unfold disj in Hb. lia. }
  rewrite total_cons, Hp, total_app. lia.
Qed.

(** A tiling covers every address of the region. *)
Lemma tiling_covers self bs x :
  tiling self bs →
  heap_start self ≤ x < heap_start self + order_to_size (max_order self) →
  ∃ b, b ∈ bs ∧ in_blk b x.
Proof.
  intros [Hf Hd Ht] Hx. rewrite Forall_forall in Hf.
  destruct (decide (Exists (λ b, b.1 ≤ x < b.1 + bsize b) bs)) as [He|He].
  { apply Exists_exists in He. done. }
  exfalso. assert (∀ b, b ∈ bs → b.1 + bsize b ≤ x ∨ x < b.1) as Hout.
  { intros b Hb. destruct (decide (b.1 ≤ x < b.1 + bsize b)); [| lia].
    exfalso. apply He, Exists_exists. eauto. }
  set (L := filter (λ b : blk, b.1 + bsize b ≤ x) bs).
  set (R := filter (λ b : blk, ¬ b.1 + bsize b ≤ x) bs).
  assert (bs ≡ₚ L ++ R) as Hp by (symmetry; apply filter_app_complement).
  apply (pairwise_perm disj) in Hp as Hd'; [| done]. apply pairwise_app in Hd' as (HdL & HdR & _).
  assert (total L ≤ x - heap_start self).
  { apply total_le; [lia | done |]. apply Forall_forall.
    intros b [Hb1 Hb2]%list_elem_of_filter. pose proof (fits_bounds _ _ (Hf b Hb2)). lia. }
  assert (total R ≤ heap_start self + order_to_size (max_order self) - (x + 1)).
  { apply total_le; [lia | done |]. apply Forall_forall.
    intros b [Hb1 Hb2]%list_elem_of_filter. pose proof (fits_bounds _ _ (Hf b Hb2)).
    specialize (Hout b Hb2). lia. }
  rewrite Hp, total_app in Ht. lia.
Qed.

(** No two buddies are both in the list. *)
Definition coalesced (self : BuddyAllocator) (bs : list blk) : Prop :=
  ∀ p k, (p, k) ∈ bs → (k < max_order self)%nat →
         (BuddyAllocator.buddy_of self p k, k) ∉ bs.

Lemma buddy_of_involutive self p k :
  BuddyAllocator.buddy_of self (BuddyAllocator.buddy_of self p k) k = p.
Proof.
  unfold BuddyAllocator.buddy_of.
  replace (heap_start self + Z.lxor (p - heap_start self) (order_to_size k) - heap_start self)
    with (Z.lxor (p - heap_start self) (order_to_size k)) by lia.
  rewrite Z.lxor_assoc, Z.lxor_nilpotent, Z.lxor_0_r. lia.
Qed.

Lemma buddy_of_ne self p k : BuddyAllocator.buddy_of self p k ≠ p.
Proof.
  unfold BuddyAllocator.buddy_of. intros E.
  assert (Z.lxor (p - heap_start self) (order_to_size k) = p - heap_start self) as E' by lia.
  apply (f_equal (Z.lxor (p - heap_start self))) in E'.
  rewrite <- Z.lxor_assoc, Z.lxor_nilpotent, Z.lxor_0_l in E'.
  pose proof (order_to_size_pos k). lia.
Qed.

(** A block whose buddy is not in the list can be added. *)
Lemma coalesced_add self bs p k :
  coalesced self bs →
  ((k < max_order self)%nat → (BuddyAllocator.buddy_of self p k, k) ∉ bs) →
  coalesced self ((p, k) :: bs).
Proof.
  intros Hc Hp r j [[= -> ->]|Hr]%elem_of_cons Hj [[= E]|Hb]%elem_of_cons.
  - by apply buddy_of_ne in E.
  - by apply Hp.
  - subst. apply Hp; [done |]. by rewrite buddy_of_involutive.
  - by apply (Hc r j).
Qed.

Lemma exists_min_order (bs : list blk) :
  bs ≠ [] → ∃ b, b ∈ bs ∧ ∀ b', b' ∈ bs → (b.2 ≤ b'.2)%nat.
Proof.
  induction bs as [|b bs IH]; [done |]. intros _. destruct bs as [|b' bs'].
  { exists b. set_solver. }
  destruct IH as (x & Hx & Hmin); [done |].
  destruct (decide (b.2 ≤ x.2)%nat).
  - exists b. split; [by left |]. intros y [->|Hy]%elem_of_cons; [lia |].
    specialize (Hmin y Hy). lia.
  - exists x. split; [by right |]. intros y [->|Hy]%elem_of_cons; [lia | auto].
Qed.

(** Cells are nested or disjoint. *)
Lemma fits_nested self p k q j :
  fits self (p, k) → fits self (q, j) → (j ≤ k)%nat → ¬ disj (p, k) (q, j) →
  p ≤ q ∧ q + order_to_size j ≤ p + order_to_size k.
Proof.
  intros (_ & c & _ & Hp & _) (_ & d & _ & Hq & _) Hjk Hnd.
  unfold disj, bsize in *. cbn in *. pose proof (order_to_size_pos j).
  destruct (order_to_size_divide j k Hjk) as [z Hz]. rewrite Hz in *.
  assert (c * z ≤ d < c * z + z) by nia. nia.
Qed.

Lemma not_disj b1 b2 x : in_blk b1 x → in_blk b2 x → ¬ disj b1 b2.
Proof. unfold in_blk, disj. lia. Qed.

(** A cell that meets no allocated block, when all free blocks are smaller: its
    addresses are covered by free blocks inside it. *)
Lemma cell_covered self F A p k x :
  tiling self (F ++ A) → fits self (p, k) → (∀ b, b ∈ A → disj (p, k) b) →
  (∀ q j, (q, j) ∈ F → (j < k)%nat) → in_blk (p, k) x →
  ∃ r i, (r, i) ∈ F ∧ in_blk (r, i) x ∧ in_blk (p, k) r.
Proof.
  intros Ht Hcell HA Hsmall Hx. pose proof (fits_bounds _ _ Hcell) as Hcb.
  pose proof (tiling_fits _ _ Ht) as Hf. rewrite Forall_forall in Hf.
  destruct (tiling_covers self _ x Ht) as ([r i] & Hr & Hxr); [unfold in_blk in Hx; cbn in *; lia |].
  apply elem_of_app in Hr as [Hr|Hr].
  - exists r, i. split_and!; [done | done |]. specialize (Hsmall _ _ Hr).
    destruct (fits_nested self p k r i) as [H1 H2];
      [done | apply Hf; set_solver | lia | by apply (not_disj _ _ x) |].
    unfold in_blk, bsize. cbn. pose proof (order_to_size_pos i). lia.
  - by destruct (not_disj (p, k) (r, i) x); [done | done | apply HA].
Qed.

(** In a coalesced tiling a cell that meets no allocated block lies in a free
    block, so that there is one of at least its order. *)
Lemma free_cell self F A p k :
  tiling self (F ++ A) → coalesced self F → fits self (p, k) →
  (∀ b, b ∈ A → disj (p, k) b) →
  ∃ q j, (q, j) ∈ F ∧ (k ≤ j)%nat.
Proof.
  intros Ht Hco Hcell HA.
  destruct (decide (Exists (λ b : blk, (k ≤ b.2)%nat) F)) as [He|Hne].
  { apply Exists_exists in He as ([q j] & ? & ?). eauto. }
  exfalso. assert (∀ q j, (q, j) ∈ F → (j < k)%nat) as Hsmall.
  { intros q j Hq. destruct (decide (k ≤ j)%nat); [| lia].
    exfalso. apply Hne, Exists_exists. exists (q, j). done. }
  pose proof (tiling_fits _ _ Ht) as Hf. rewrite Forall_forall in Hf.
  pose proof (order_to_size_pos k) as HK.
  pose proof (λ x, cell_covered self F A p k x Ht Hcell HA Hsmall) as Hcov.
  destruct (exists_min_order (filter (λ b, p ≤ b.1 < p + order_to_size k) F))
    as ([r i] & [Hrc Hr]%list_elem_of_filter & Hmin).
  { destruct (Hcov p) as (r & i & Hr & _ & Hrp); [unfold in_blk, bsize; cbn; lia |].
    intros E. apply (not_elem_of_nil (r, i)). rewrite <- E. by apply list_elem_of_filter. }
  cbn in Hrc. pose proof (Hsmall _ _ Hr) as Hik.
  assert (fits self (r, i)) as Hfr by (apply Hf; set_solver).
  pose proof (fits_order _ _ Hcell) as Hkmax. cbn in Hkmax.
  destruct (fits_pair self r i Hfr) as (e & Hfe & Hpq); [lia |].
  set (q := BuddyAllocator.buddy_of self r i) in *. pose proof (order_to_size_pos i) as Hi.
  set (P := heap_start self + e * (2 * order_to_size i)) in *.
  (* the pair of [r] and its buddy [q] is inside the cell *)
  assert (in_blk (P, S i) r ∧ in_blk (P, S i) q) as [HPr HPq].
  { unfold in_blk, bsize. cbn. rewrite order_to_size_S. lia. }
  destruct (fits_nested self p k P (S i)) as [HP1 HP2]; [done | done | lia |
    apply (not_disj _ _ r); [unfold in_blk, bsize; cbn; lia | done] |].
  destruct (Hcov q) as (s & j & Hs & Hqs & Hsc);
    [unfold in_blk, bsize in *; cbn in *; lia |].
  assert (fits self (s, j)) as Hfs by (apply Hf; set_solver).
  specialize (Hmin (s, j)). cbn in Hmin.
  assert (i ≤ j)%nat as Hij by (apply Hmin, list_elem_of_filter; done).
  destruct (decide (j = i)) as [->|Hji].
  - destruct Hfs as (_ & c & _ & Hc & _). unfold bsize in Hc. cbn in Hc.
    apply (Hco r i Hr); [lia |]. fold q. replace q with s; [done |].
    assert (∃ d, q = heap_start self + d * order_to_size i) as [d Hd].
    { destruct Hpq as [[H1 H2]|[H1 H2]]; [exists (2 * e + 1) | exists (2 * e)]; lia. }
    unfold in_blk, bsize in Hqs. cbn in Hqs. assert (c = d) by nia. lia.
  - destruct (fits_nested self s j P (S i)) as [Hs1 Hs2]; [done | done | lia |
      by apply (not_disj _ _ q) |].
    apply (not_disj (s, j) (r, i) r).
    + unfold in_blk, bsize in *. cbn in *. lia.
    + unfold in_blk, bsize. cbn. lia.
    + apply (pairwise_elem disj (F ++ A)); [apply Ht | set_solver | set_solver | congruence].
Qed.

(** A coalesced tiling by free blocks is the single block of maximal order. *)
Lemma coalesced_tiling self bs :
  (3 ≤ max_order self)%nat → tiling self bs → coalesced self bs →
  bs = [(heap_start self, max_order self)].
Proof.
  intros H3 Ht Hco. pose proof (order_to_size_pos (max_order self)) as HK.
  destruct (free_cell self bs [] (heap_start self) (max_order self))
    as (p & k & Hin & Hk); [by rewrite app_nil_r | done | | set_solver |].
  { split; [done |]. exists 0. unfold bsize. cbn. lia. }
  pose proof (tiling_fits _ _ Ht) as Hf. rewrite Forall_forall in Hf.
  pose proof (Hf _ Hin) as Hfit. pose proof (fits_order _ _ Hfit) as Hk'. cbn in Hk'.
  assert (k = max_order self) as -> by lia.
  destruct (Hfit) as (_ & c & Hc & Hp & Hle). unfold bsize in Hp, Hle. cbn in Hp, Hle.
  assert (c = 0) by nia. assert (p = heap_start self) as -> by lia.
  apply list_elem_of_split in Hin as (l1 & l2 & ->).
  apply tiling_total in Ht. rewrite total_app, total_cons in Ht. unfold bsize in Ht at 1.
  cbn in Ht. destruct l1 as [|b1 l1]; [destruct l2 as [|b2 l2]; [done |] |];
    rewrite ?total_cons in Ht.
  - pose proof (bsize_pos b2). pose proof (total_nonneg l2). cbn in *; lia.
  - pose proof (bsize_pos b1). pose proof (total_nonneg l1). pose proof (total_nonneg l2). lia.
Qed.

(** ** The representation invariant

    [ls] lists the blocks of every free list and [A] the blocks handed out.
    Free and allocated blocks tile the region together. *)
Record buddy_inv (m : nodes) (self : BuddyAllocator) (ls : list (list Z)) (A : list blk) : Prop := {
  bi_lists : Forall2 (chain m) (free_lists self) ls;
  bi_length : length ls = MAX_ORDER;
  bi_max : (max_order self < MAX_ORDER)%nat;
  bi_size : order_to_size (max_order self) ≤ heap_size self;
  bi_tiling : tiling self (free_blocks ls ++ A);
}.

(** The region and the bounds never change. *)
Definition same_heap (s s' : BuddyAllocator) : Prop :=
  heap_start s' = heap_start s ∧ heap_size s' = heap_size s ∧ max_order s' = max_order s.

(** The memory outside of the heap and that of the blocks [A] is the same in
    [m] and [m']. *)
Definition untouched (self : BuddyAllocator) (A : list blk) (m m' : nodes) : Prop :=
  ∀ x, ¬ (heap_start self ≤ x < heap_start self + heap_size self) ∨
       (∃ b, b ∈ A ∧ in_blk b x) →
       m' !! x = m !! x.

Lemma tiling_same s s' bs : same_heap s s' → tiling s bs → tiling s' bs.
Proof.
  destruct s, s'. intros (E1 & E2 & E3) [Hf Hd Ht]. cbn in *. subst.
  split; [| done | done]. done.
Qed.

Lemma buddy_of_same s s' p k :
  same_heap s s' → BuddyAllocator.buddy_of s' p k = BuddyAllocator.buddy_of s p k.
Proof. intros (E1 & _). unfold BuddyAllocator.buddy_of. by rewrite E1. Qed.

Lemma coalesced_same s s' bs : same_heap s s' → coalesced s bs → coalesced s' bs.
Proof.
  intros Hs Hc p k Hp Hk. rewrite (buddy_of_same s s') by done.
  apply Hc; [done |]. destruct Hs as (_ & _ & E). by rewrite <- E.
Qed.

Lemma coalesced_sub s bs bs' : (∀ b, b ∈ bs' → b ∈ bs) → coalesced s bs → coalesced s bs'.
Proof. intros Hsub Hc p k Hp Hk Hq. exact (Hc p k (Hsub _ Hp) Hk (Hsub _ Hq)). Qed.

Lemma same_heap_set self k o : same_heap self (BuddyAllocator.set_free_list self k o).
Proof. done. Qed.

Lemma same_heap_trans s1 s2 s3 : same_heap s1 s2 → same_heap s2 s3 → same_heap s1 s3.
Proof. unfold same_heap. intuition congruence. Qed.

Lemma untouched_refl self A m : untouched self A m m.
Proof. done. Qed.

Lemma untouched_trans self self' A m1 m2 m3 :
  same_heap self self' → untouched self A m1 m2 → untouched self' A m2 m3 →
  untouched self A m1 m3.
Proof.
  intros (E1 & E2 & _) H1 H2 x Hx. rewrite (H2 x), (H1 x); [done | done |].
  by rewrite E1, E2.
Qed.

Lemma untouched_sub self A A' m m' :
  (∀ b, b ∈ A → b ∈ A') → untouched self A' m m' → untouched self A m m'.
Proof. intros Hsub H x Hx. apply H. destruct Hx as [?|(b & ? & ?)]; eauto. Qed.

Lemma untouched_insert self A m p v :
  heap_start self ≤ p < heap_start self + heap_size self →
  (∀ b, b ∈ A → ¬ in_blk b p) → untouched self A m (<[p := v]> m).
Proof.
  intros Hh Hp x Hx. apply lookup_insert_ne. intros ->.
  destruct Hx as [?|(b & ? & ?)]; [done | by eapply Hp].
Qed.

Create HintDb buddy.
#[export] Hint Resolve same_heap_set same_heap_trans untouched_refl untouched_trans : buddy.

Lemma disj_addr b1 b2 : disj b1 b2 → b1.1 ≠ b2.1 ∧ ¬ in_blk b2 b1.1.
Proof. unfold disj, in_blk. pose proof (bsize_pos b1). pose proof (bsize_pos b2). lia. Qed.

Section inv.
Context {m : nodes} {self : BuddyAllocator} {ls : list (list Z)} {A : list blk}.
Context (Hinv : buddy_inv m self ls A).

Lemma inv_fl_length : length (free_lists self) = MAX_ORDER.
Proof. rewrite (Forall2_length _ _ _ (bi_lists _ _ _ _ Hinv)). apply Hinv. Qed.

Lemma inv_list k :
  (k < MAX_ORDER)%nat →
  ∃ o l, free_lists self !! k = Some o ∧ ls !! k = Some l ∧ chain m o l.
Proof.
  intros Hk. destruct (lookup_lt_is_Some_2 (free_lists self) k) as [o Ho];
    [by rewrite inv_fl_length |].
  destruct (Forall2_lookup_l _ _ _ _ _ (bi_lists _ _ _ _ Hinv) Ho) as (l & Hl & Hc). eauto.
Qed.

Lemma inv_disj b1 b2 :
  b1 ∈ free_blocks ls ++ A → b2 ∈ free_blocks ls ++ A → b1 ≠ b2 → disj b1 b2.
Proof. apply pairwise_elem; [apply _ |]. apply (tiling_disj _ _ (bi_tiling _ _ _ _ Hinv)). Qed.

Lemma inv_nodup k l : ls !! k = Some l → NoDup l.
Proof.
  intros Hl. pose proof (tiling_disj _ _ (bi_tiling _ _ _ _ Hinv)) as Hd.
  apply pairwise_app in Hd as (Hd & _ & _).
  destruct (free_blocks_split ls k l Hl) as [rest Hr]. specialize (Hr l).
  rewrite list_insert_id in Hr by done.
  apply (pairwise_perm disj) in Hr; [| done]. apply pairwise_app in Hr as (Hl' & _).
  clear -Hl'. induction l as [|p l IH]; [constructor |].
  cbn in Hl'. apply StronglySorted_inv in Hl' as [Hs Hf]. constructor; [| auto].
  intros Hin. rewrite Forall_forall in Hf.
  destruct (disj_addr (p, k) (p, k)) as [Hne _]; [| done]. apply Hf.
  apply list_elem_of_fmap. eauto.
Qed.

(** A free block's address is not a node of another free list, and is outside
    every allocated block. *)
Lemma inv_free_addr p k :
  (p, k) ∈ free_blocks ls →
  (∀ j l, ls !! j = Some l → p ∈ l → j = k) ∧ (∀ b, b ∈ A → ¬ in_blk b p).
Proof.
  intros Hp. split.
  - intros j l Hl Hin. destruct (decide (j = k)) as [|Hne]; [done | exfalso].
    assert ((p, j) ∈ free_blocks ls) as Hj by (apply elem_of_free_blocks; eauto).
    destruct (disj_addr (p, k) (p, j)) as [Hd _]; [| done].
    apply inv_disj; [set_solver | set_solver | congruence].
  - intros b Hb. pose proof (tiling_disj _ _ (bi_tiling _ _ _ _ Hinv)) as Hd.
    apply pairwise_app in Hd as (_ & _ & Hd).
    by destruct (disj_addr (p, k) b) as [_ Hd']; [apply Hd |].
Qed.
End inv.

(** Popping the head of a free list hands the block out. *)
Lemma pop_spec m self ls A k p l :
  buddy_inv m self ls A → ls !! k = Some (p :: l) →
  ∃ self', BuddyAllocator.pop_block_from_free_list m self k = Ret (p, self') ∧
    same_heap self self' ∧ buddy_inv m self' (<[k := l]> ls) ((p, k) :: A).
Proof.
  intros Hinv Hk. assert (k < MAX_ORDER)%nat as Hlt.
  { rewrite <- (bi_length _ _ _ _ Hinv). by eapply lookup_lt_Some. }
  destruct (inv_list Hinv k Hlt) as (o & l0 & Ho & Hl0 & Hc). simplify_eq.
  destruct Hc as (-> & nx & Hp & Hc).
  unfold BuddyAllocator.pop_block_from_free_list.
  rewrite (proj2 (Nat.ltb_lt _ _)) by done. cbn. rewrite Ho. cbn. rewrite Hp. cbn.
  eexists. split; [done |]. split; [apply same_heap_set |]. split; try apply Hinv.
  - cbn. apply Forall2_insert; [apply Hinv | done].
  - by rewrite length_insert, (bi_length _ _ _ _ Hinv).
  - apply (tiling_same self); [apply same_heap_set |].
    eapply tiling_perm; [| apply (bi_tiling _ _ _ _ Hinv)].
    rewrite (free_blocks_pick ls k (p :: l) p l) by done. cbn. by rewrite Permutation_middle.
Qed.

(** Putting an allocated block on the free list of its order. *)
Lemma add_spec m self ls A k p :
  buddy_inv m self ls ((p, k) :: A) →
  ∃ m' self' l, BuddyAllocator.add_block_to_free_list m self p k = Ret (m', self') ∧
    ls !! k = Some l ∧ same_heap self self' ∧ untouched self A m m' ∧
    buddy_inv m' self' (<[k := p :: l]> ls) A.
Proof.
  intros Hinv.
  assert (fits self (p, k)) as Hfit.
  { pose proof (tiling_fits _ _ (bi_tiling _ _ _ _ Hinv)) as Hf.
    rewrite Forall_forall in Hf. apply Hf. set_solver. }
  pose proof (fits_order _ _ Hfit) as Hk. cbn in Hk. pose proof (bi_max _ _ _ _ Hinv).
  pose proof (fits_bounds _ _ Hfit) as Hb. unfold bsize in Hb. cbn in Hb.
  pose proof (bi_size _ _ _ _ Hinv).
  destruct (inv_list Hinv k) as (o & l & Ho & Hl & Hc); [lia |].
  assert (∀ b, b ∈ free_blocks ls ++ A → p ≠ b.1 ∧ ¬ in_blk b p) as Hout.
  { pose proof (tiling_disj _ _ (bi_tiling _ _ _ _ Hinv)) as Hd.
    eapply (pairwise_perm disj _ ((p, k) :: free_blocks ls ++ A)) in Hd;
      [| symmetry; apply Permutation_middle].
    apply StronglySorted_inv in Hd as [_ Hd]. rewrite Forall_forall in Hd.
    intros b Hb'. by apply (disj_addr (p, k) b), Hd. }
  unfold BuddyAllocator.add_block_to_free_list.
  rewrite (proj2 (Nat.ltb_lt _ _)) by lia. cbn.
  rewrite (proj2 (Z.leb_le _ _)) by lia. cbn. rewrite (proj2 (Z.leb_le _ _)) by lia. cbn.
  rewrite Ho. cbn. do 3 eexists. split; [done |]. split; [done |]. split; [apply same_heap_set |].
  split.
  { apply untouched_insert; [pose proof (order_to_size_pos k); lia |].
    intros b Hb'; apply Hout; set_solver. }
  assert (Forall2 (chain (<[p := o]> m)) (free_lists self) ls) as Hls.
  { apply Forall2_same_length_lookup_2; [by rewrite (Forall2_length _ _ _ (bi_lists _ _ _ _ Hinv)) |].
    intros j o' l' Ho' Hl'. apply chain_insert.
    - intros Hin. destruct (Hout (p, j)) as [Hne _]; [| done].
      apply elem_of_app. left. apply elem_of_free_blocks. eauto.
    - exact (Forall2_lookup_lr _ _ _ _ _ _ (bi_lists _ _ _ _ Hinv) Ho' Hl'). }
  split; try apply Hinv.
  - cbn. apply Forall2_insert; [done |]. cbn. split; [done |]. exists o.
    rewrite lookup_insert_eq. split; [done |].
    exact (Forall2_lookup_lr _ _ _ _ _ _ Hls Ho Hl).
  - by rewrite length_insert, (bi_length _ _ _ _ Hinv).
  - apply (tiling_same self); [apply same_heap_set |].
    eapply tiling_perm; [| apply (bi_tiling _ _ _ _ Hinv)].
    rewrite free_blocks_add by done. cbn. by rewrite Permutation_middle.
Qed.

(** Walking a free list. *)
Lemma is_block_free_loop_spec fuel m o l p :
  chain m o l → (length l ≤ fuel)%nat →
  BuddyAllocator.is_block_free_loop fuel m o p = Ret (bool_decide (p ∈ l)).
Proof.
  revert o l. induction fuel as [|fuel IH]; intros o l Hc Hlen; destruct l as [|q l]; cbn in Hlen.
  - cbn in Hc. by subst o.
  - lia.
  - cbn in Hc. by subst o.
  - destruct Hc as (-> & nx & Hq & Hc). cbn.
    destruct (Z.eqb_spec q p) as [->|Hne].
    { rewrite bool_decide_true; [done | by left]. }
    rewrite Hq. cbn. rewrite (IH nx l Hc) by lia. do 2 f_equal.
    apply bool_decide_ext. rewrite elem_of_cons. naive_solver.
Qed.

Lemma is_block_free_spec m self ls A p k l :
  buddy_inv m self ls A → ls !! k = Some l →
  BuddyAllocator.is_block_free m self p k = Ret (bool_decide (p ∈ l)).
Proof.
  intros Hinv Hl. assert (k < MAX_ORDER)%nat as Hk.
  { rewrite <- (bi_length _ _ _ _ Hinv). by eapply lookup_lt_Some. }
  destruct (inv_list Hinv k Hk) as (o & l0 & Ho & Hl0 & Hc). simplify_eq.
  unfold BuddyAllocator.is_block_free. rewrite Ho. cbn.
  apply is_block_free_loop_spec; [done |].
  eapply chain_length; [done |]. by eapply inv_nodup.
Qed.

(** Unlinking a node. *)
Lemma remove_loop_spec fuel m self k prev o l1 p l2 :
  chain m o (l1 ++ p :: l2) → p ∉ l1 → (length l1 ≤ fuel)%nat →
  ∃ nx, m !! p = Some nx ∧ chain m nx l2 ∧
    BuddyAllocator.remove_loop fuel m self k prev o p =
      match (match last l1 with Some q => Some q | None => prev end) with
      | Some q => Ret (<[q := nx]> m, self)
      | None => Ret (m, BuddyAllocator.set_free_list self k nx)
      end.
Proof.
  revert fuel prev o. induction l1 as [|q l1 IH]; intros fuel prev o Hc Hp Hlen.
  - destruct Hc as (-> & nx & Hnx & Hc). exists nx. split_and!; [done | done |].
    destruct fuel; cbn; rewrite Z.eqb_refl, Hnx; by destruct prev.
  - destruct Hc as (-> & nx & Hnx & Hc). destruct fuel as [|fuel]; cbn in Hlen; [lia |].
    cbn [BuddyAllocator.remove_loop].
    rewrite (proj2 (Z.eqb_neq _ _)) by set_solver. rewrite Hnx. cbn [mbind out_bind unwrap].
    destruct (IH fuel (Some q) nx Hc) as (nx' & H1 & H2 & ->); [set_solver | lia |].
    exists nx'. split_and!; [done | done |]. rewrite last_cons. by destruct (last l1).
Qed.

Lemma chain_unlink m o l1 q p l2 nx :
  chain m o (l1 ++ q :: p :: l2) → NoDup (l1 ++ q :: p :: l2) → m !! p = Some nx →
  chain (<[q := nx]> m) o (l1 ++ q :: l2).
Proof.
  revert o. induction l1 as [|x l1 IH]; intros o Hc Hnd Hp; cbn in *.
  - destruct Hc as (-> & y & Hq & -> & z & Hpz & Hc). simplify_eq. split; [done |].
    exists z. rewrite lookup_insert_eq. split; [done |].
    apply chain_insert; [| done].
    apply NoDup_cons in Hnd as [Hq' _]. set_solver.
  - destruct Hc as (-> & y & Hx & Hc). apply NoDup_cons in Hnd as [Hxn Hnd].
    split; [done |]. exists y. rewrite lookup_insert_ne by set_solver. split; [done |]. by apply IH.
Qed.

(** Removing a free block hands it out. *)
Lemma remove_spec m self ls A k l p :
  buddy_inv m self ls A → ls !! k = Some l → p ∈ l →
  ∃ m' self' l', BuddyAllocator.remove_block_from_free_list m self p k = Ret (m', self') ∧
    l ≡ₚ p :: l' ∧ same_heap self self' ∧ untouched self A m m' ∧
    buddy_inv m' self' (<[k := l']> ls) ((p, k) :: A).
Proof.
  intros Hinv Hl Hp. assert (k < MAX_ORDER)%nat as Hk.
  { rewrite <- (bi_length _ _ _ _ Hinv). by eapply lookup_lt_Some. }
  destruct (inv_list Hinv k Hk) as (o & l0 & Ho & Hl0 & Hc). simplify_eq.
  pose proof (inv_nodup Hinv k l Hl) as Hnd.
  pose proof (chain_length _ _ _ Hc Hnd) as Hlen.
  apply list_elem_of_split in Hp as (l1 & l2 & ->).
  assert (p ∉ l1) as Hp1 by (apply NoDup_app in Hnd as (_ & Hnd & _); set_solver).
  rewrite length_app in Hlen. cbn in Hlen.
  destruct (remove_loop_spec (size m) m self k None o l1 p l2 Hc Hp1) as (nx & Hnx & Hc2 & Hrem);
    [lia |].
  assert (l1 ++ p :: l2 ≡ₚ p :: l1 ++ l2) as Hperm by (symmetry; apply Permutation_middle).
  assert (tiling self (free_blocks (<[k:=l1 ++ l2]> ls) ++ (p, k) :: A)) as Ht.
  { eapply tiling_perm; [| apply (bi_tiling _ _ _ _ Hinv)].
    rewrite (free_blocks_pick ls k _ p (l1 ++ l2)) by done. cbn. by rewrite Permutation_middle. }
  unfold BuddyAllocator.remove_block_from_free_list.
  rewrite (proj2 (Nat.ltb_lt _ _)) by done. cbn [assert_ mbind out_bind]. rewrite Ho.
  cbn [unwrap mbind out_bind]. rewrite Hrem.
  destruct (last l1) as [q|] eqn:Hlast.
  - apply last_Some in Hlast as [l1' ->].
    assert ((q, k) ∈ free_blocks ls) as Hq
      by (apply elem_of_free_blocks; eexists; split; [done | set_solver]).
    destruct (inv_free_addr Hinv q k Hq) as [Hq1 Hq2].
    do 3 eexists. split; [done |]. split; [done |]. split; [done |].
    pose proof (tiling_fits _ _ (bi_tiling _ _ _ _ Hinv)) as Hf. rewrite Forall_forall in Hf.
    pose proof (fits_bounds self (q, k) (Hf (q, k) ltac:(set_solver))) as Hqb.
    pose proof (bsize_pos (q, k)). pose proof (bi_size _ _ _ _ Hinv). cbn in Hqb.
    split; [by apply untouched_insert; [lia |] |]. split; try apply Hinv; [| | done].
    + apply Forall2_same_length_lookup_2.
      { by rewrite length_insert, (Forall2_length _ _ _ (bi_lists _ _ _ _ Hinv)). }
      intros j oj lj Hoj Hlj. destruct (decide (j = k)) as [->|Hne].
      * rewrite list_lookup_insert_eq in Hlj by (by eapply lookup_lt_Some). simplify_eq.
        rewrite <- app_assoc in *. cbn in *. by eapply chain_unlink.
      * rewrite list_lookup_insert_ne in Hlj by done. apply chain_insert; [naive_solver |].
        exact (Forall2_lookup_lr _ _ _ _ _ _ (bi_lists _ _ _ _ Hinv) Hoj Hlj).
    + by rewrite length_insert, (bi_length _ _ _ _ Hinv).
  - apply last_None in Hlast as ->. cbn in *.
    do 3 eexists. split; [done |]. split; [done |]. split; [apply same_heap_set |].
    split; [done |]. split; try apply Hinv.
    + cbn. apply Forall2_insert; [apply Hinv | done].
    + by rewrite length_insert, (bi_length _ _ _ _ Hinv).
    + by apply (tiling_same self); [apply same_heap_set |].
Qed.

(** Splitting the head block of order [S k] and then popping order [k] amounts
    to handing out the second half and keeping the first one free. *)
Lemma split_block_spec m self ls A k p self1 :
  (3 ≤ k)%nat → (S k ≤ max_order self)%nat →
  BuddyAllocator.pop_block_from_free_list m self (S k) = Ret (p, self1) →
  same_heap self self1 → buddy_inv m self1 ls ((p, S k) :: A) → coalesced self (free_blocks ls) →
  ∃ m' self' self1' ls',
    BuddyAllocator.split_block m self (S k) = Ret (m', self') ∧
    BuddyAllocator.pop_block_from_free_list m' self' k = Ret (p + order_to_size k, self1') ∧
    same_heap self self' ∧ same_heap self self1' ∧ untouched self A m m' ∧
    buddy_inv m' self1' ls' ((p + order_to_size k, k) :: A) ∧ coalesced self (free_blocks ls').
Proof.
  intros H3 Hk Hpop Hsame Hinv Hco. set (q := p + order_to_size k).
  assert (buddy_inv m self1 ls ((p, k) :: (q, k) :: A)) as Hinv2.
  { destruct Hinv as [? ? ? ? Ht]. split; [done.. |].
    rewrite <- Permutation_middle in Ht. apply tiling_split in Ht; [| done].
    eapply tiling_perm; [| exact Ht]. cbn. fold q.
    rewrite <- !Permutation_middle. done. }
  destruct (add_spec _ _ _ _ _ _ Hinv2) as (m2 & self2 & l & Hadd & Hl & Hs2 & Hu2 & Hinv3).
  assert (buddy_inv m2 self2 (<[k := p :: l]> ls) ((q, k) :: A)) as Hinv3' by done.
  destruct (add_spec _ _ _ _ _ _ Hinv3') as (m3 & self3 & l' & Hadd' & Hl' & Hs3 & Hu3 & Hinv4).
  rewrite list_lookup_insert_eq in Hl' by (by eapply lookup_lt_Some). simplify_eq.
  rewrite list_insert_insert_eq in Hinv4.
  destruct (pop_spec _ _ _ _ k q (p :: l) Hinv4) as (self4 & Hpop4 & Hs4 & Hinv5).
  { rewrite list_lookup_insert_eq; [done |]. by eapply lookup_lt_Some. }
  rewrite list_insert_insert_eq in Hinv5.
  exists m3, self3, self4, (<[k := p :: l]> ls). split_and!; eauto with buddy.
  - unfold BuddyAllocator.split_block. rewrite (proj2 (Nat.ltb_lt _ _)) by lia.
    cbn [assert_ mbind out_bind]. rewrite (proj2 (Nat.leb_le _ _)) by lia.
    cbn [assert_ mbind out_bind]. rewrite Hpop. cbn [mbind out_bind].
    rewrite Nat.sub_succ, Nat.sub_0_r, Hadd. cbn [mbind out_bind].
    rewrite order_to_size_S, Z.mul_comm, Z.div_mul by lia. done.
  - eapply untouched_trans; [| | exact Hu3]; [eauto with buddy |].
    intros x Hx. apply (untouched_sub self1 A ((q, k) :: A)) in Hu2; [| set_solver].
    apply Hu2. by destruct Hsame as (-> & -> & _).
  - assert ((q, k) ∉ free_blocks ls) as Hq.
    { intros Hq. assert (disj (p, S k) (q, k)) as Hd
        by (apply (inv_disj Hinv); [set_solver | set_solver | intros [=]; lia]).
      unfold disj, bsize in Hd. cbn in Hd. rewrite order_to_size_S in Hd.
      pose proof (order_to_size_pos k). lia. }
    eapply coalesced_sub; [intros b; rewrite free_blocks_add by done; exact id |].
    apply coalesced_add; [done |]. intros _.
    replace (BuddyAllocator.buddy_of self p k) with q; [done |].
    pose proof (tiling_fits _ _ (bi_tiling _ _ _ _ Hinv)) as Hf. rewrite Forall_forall in Hf.
    destruct (Hf (p, S k)) as (_ & c & _ & Hc & _); [set_solver |].
    unfold bsize in Hc. cbn in Hc. rewrite order_to_size_S in Hc.
    destruct Hsame as (E1 & _). rewrite E1 in Hc.
    subst q. rewrite Hc at 2.
    replace (heap_start self + c * (2 * order_to_size k))
      with (heap_start self + (2 * c) * order_to_size k) by lia.
    rewrite buddy_of_cell. rewrite Z.even_mul. cbn. lia.
Qed.

Lemma split_down_spec n : ∀ m self self1 ls A order p,
  (3 ≤ order)%nat → (order + n ≤ max_order self)%nat →
  BuddyAllocator.pop_block_from_free_list m self (order + n) = Ret (p, self1) →
  same_heap self self1 → buddy_inv m self1 ls ((p, (order + n)%nat) :: A) →
  coalesced self (free_blocks ls) →
  ∃ m' self' self1' ls' p',
    BuddyAllocator.split_down m self order (order + n) = Ret (m', self') ∧
    BuddyAllocator.pop_block_from_free_list m' self' order = Ret (p', self1') ∧
    same_heap self self1' ∧ untouched self A m m' ∧
    buddy_inv m' self1' ls' ((p', order) :: A) ∧ coalesced self (free_blocks ls').
Proof.
  unfold BuddyAllocator.split_down.
  induction n as [|n IH]; intros m self self1 ls A order p H3 Hmax Hpop Hs Hinv Hco.
  - rewrite Nat.add_0_r in *. rewrite Nat.sub_diag. cbn. eauto 12 with buddy.
  - replace (order + S n - order)%nat with (S n) by lia.
    rewrite seq_S, rev_app_distr. cbn [rev app for_each]. cbn beta iota.
    rewrite Nat.add_succ_r in *.
    destruct (split_block_spec m self ls A (order + n) p self1) as
      (m2 & self2 & self3 & ls2 & Hsplit & Hpop2 & Hs2 & Hs3 & Hu2 & Hinv2 & Hco2);
      [lia | lia | done.. |].
    rewrite Nat.add_0_r, Hsplit. cbn [mbind out_bind].
    destruct (IH m2 self2 self3 ls2 A order (p + order_to_size (order + n)))
      as (m' & self' & self1' & ls' & p' & Hd & Hp' & Hs' & Hu' & Hinv' & Hco');
      [done | | done | | done | by apply (coalesced_same self) |].
    + destruct Hs2 as (_ & _ & ->). lia.
    + unfold same_heap in *. intuition congruence.
    + replace (order + n - order)%nat with n in Hd by lia.
      exists m', self', self1', ls', p'. split_and!; eauto with buddy.
      apply (coalesced_same self2); [| done]. unfold same_heap in *. intuition congruence.
Qed.

(** The outcome of a search for a block of a given order. *)
Definition find_post (m : nodes) (self : BuddyAllocator) (ls : list (list Z)) (A : list blk)
    (order : nat) (r : nodes * BuddyAllocator * result Z HeapError) : Prop :=
  match r with
  | (m', self', Ok p) =>
      same_heap self self' ∧ untouched self A m m' ∧
      ∃ ls', buddy_inv m' self' ls' ((p, order) :: A) ∧ coalesced self' (free_blocks ls')
  | (m', self', Err e) =>
      e = OutOfMemory ∧ m' = m ∧ self' = self ∧
      ∀ p j, (order ≤ j)%nat → (p, j) ∉ free_blocks ls
  end.

Lemma find_higher_spec m self ls A order n j :
  buddy_inv m self ls A → coalesced self (free_blocks ls) →
  (3 ≤ order < j)%nat → (j + n = S (max_order self))%nat →
  (∀ p i, (order ≤ i < j)%nat → (p, i) ∉ free_blocks ls) →
  ∃ r, BuddyAllocator.find_higher m self order (seq j n) = Ret r ∧ find_post m self ls A order r.
Proof.
  intros Hinv Hco. revert j.
  induction n as [|n IH]; intros j Ho Hj Hnone; cbn [seq BuddyAllocator.find_higher].
  - eexists. split; [done |]. split_and!; try done. intros p i Hi Hin.
    destruct (decide (i < j)%nat); [by eapply Hnone |].
    pose proof (tiling_fits _ _ (bi_tiling _ _ _ _ Hinv)) as Hf. rewrite Forall_forall in Hf.
    pose proof (fits_order self (p, i) (Hf (p, i) ltac:(set_solver))) as Hle. cbn in Hle. lia.
  - pose proof (bi_max _ _ _ _ Hinv).
    destruct (inv_list Hinv j) as (o & l & Hoj & Hl & Hc); [lia |].
    rewrite Hoj. cbn [unwrap mbind out_bind]. destruct l as [|p l]; cbn in Hc.
    + subst o. apply IH; [lia | lia |]. intros p i Hi Hin.
      destruct (decide (i < j)%nat); [by eapply (Hnone p i); [lia |] |].
      assert (i = j) as -> by lia. apply elem_of_free_blocks in Hin as (l & Hl' & Hp).
      simplify_eq. set_solver.
    + destruct Hc as (-> & _).
      destruct (pop_spec _ _ _ _ j p l Hinv Hl) as (self1 & Hpop & Hs1 & Hinv1).
      assert (coalesced self (free_blocks (<[j := l]> ls))) as Hco1.
      { eapply coalesced_sub; [| exact Hco]. intros b Hb.
        rewrite (free_blocks_pick ls j (p :: l) p l) by done. by right. }
      destruct (split_down_spec (j - order) m self self1 (<[j := l]> ls) A order p)
        as (m' & self' & self1' & ls' & p' & Hd & Hp' & Hs' & Hu' & Hinv' & Hco');
        [lia | lia | | done | | done |];
        try (replace (order + (j - order))%nat with j by lia; done).
      replace (order + (j - order))%nat with j in Hd by lia.
      rewrite Hd. cbn [mbind out_bind]. rewrite Hp'. cbn [mbind out_bind].
      eexists. split; [done |]. split_and!; [done | done |].
      exists ls'. split; [done |]. by apply (coalesced_same self).
Qed.

Lemma find_block_spec m self ls A order :
  buddy_inv m self ls A → coalesced self (free_blocks ls) →
  (3 ≤ order ≤ max_order self)%nat →
  ∃ r, BuddyAllocator.find_block m self order = Ret r ∧ find_post m self ls A order r.
Proof.
  intros Hinv Hco Ho. pose proof (bi_max _ _ _ _ Hinv). unfold BuddyAllocator.find_block.
  destruct (inv_list Hinv order) as (o & l & Hoo & Hl & Hc); [lia |].
  rewrite Hoo. cbn [unwrap mbind out_bind]. destruct l as [|p l]; cbn in Hc.
  - subst o. apply find_higher_spec; [done | done | lia | lia |]. intros p i Hi Hin.
    assert (i = order) as -> by lia. apply elem_of_free_blocks in Hin as (l & Hl' & Hp).
    simplify_eq. set_solver.
  - destruct Hc as (-> & _).
    destruct (pop_spec _ _ _ _ order p l Hinv Hl) as (self1 & Hpop & Hs1 & Hinv1).
    rewrite Hpop. cbn [mbind out_bind]. eexists. split; [done |]. split_and!; [done | done |].
    exists (<[order := l]> ls). split; [done |].
    apply (coalesced_same self); [done |]. eapply coalesced_sub; [| exact Hco].
    intros b Hb. rewrite (free_blocks_pick ls order (p :: l) p l) by done. by right.
Qed.

(** ** Release *)

Lemma free_block_loop_spec fuel : ∀ m self ls A p k,
  buddy_inv m self ls ((p, k) :: A) → coalesced self (free_blocks ls) →
  (max_order self - k ≤ fuel)%nat →
  ∃ m' self' p' k' ls',
    BuddyAllocator.free_block_loop fuel m self p k = Ret (m', self', p', k') ∧
    same_heap self self' ∧ untouched self A m m' ∧
    buddy_inv m' self' ls' ((p', k') :: A) ∧ coalesced self' (free_blocks ls') ∧
    ((k' < max_order self')%nat → (BuddyAllocator.buddy_of self' p' k', k') ∉ free_blocks ls').
Proof.
  induction fuel as [|fuel IH]; intros m self ls A p k Hinv Hco Hfuel;
    cbn [BuddyAllocator.free_block_loop];
    destruct (Nat.ltb_spec k (max_order self)) as [Hk|Hk]; try lia.
  1, 3: do 5 eexists; split_and!; eauto with buddy; [done | lia].
  pose proof (bi_max _ _ _ _ Hinv). set (q := BuddyAllocator.buddy_of self p k).
  destruct (inv_list Hinv k) as (o & l & Hoo & Hl & Hc); [lia |].
  rewrite (is_block_free_spec _ _ _ _ _ _ _ Hinv Hl). cbn [mbind out_bind].
  destruct (bool_decide (q ∈ l)) eqn:Hq.
  - apply bool_decide_eq_true in Hq.
    destruct (remove_spec _ _ _ _ _ _ _ Hinv Hl Hq)
      as (m1 & self1 & l' & Hrem & Hl' & Hs1 & Hu1 & Hinv1).
    rewrite Hrem. cbn [mbind out_bind].
    assert (buddy_inv m1 self1 (<[k := l']> ls)
              ((if p <? q then p else q, (k + 1)%nat) :: A)) as Hinv2.
    { destruct Hinv1 as [? ? ? ? Ht]. split; [done.. |].
      rewrite Nat.add_1_r. rewrite <- Permutation_middle in Ht |- *.
      rewrite <- (Permutation_middle _ _ (p, k)) in Ht.
      subst q. rewrite <- (buddy_of_same self self1) in Ht |- * by done.
      apply tiling_merge; [| done]. destruct Hs1 as (_ & _ & ->). lia. }
    destruct (IH m1 self1 (<[k := l']> ls) A (if p <? q then p else q) (k + 1)%nat)
      as (m' & self' & p' & k' & ls' & -> & Hs' & Hu' & Hinv' & Hco' & Hb'); [done | | |].
    + apply (coalesced_same self); [done |]. eapply coalesced_sub; [| exact Hco].
      intros b Hb. rewrite (free_blocks_pick ls k l q l') by done. by right.
    + destruct Hs1 as (_ & _ & ->). lia.
    + do 5 eexists. split_and!; eauto with buddy.
      eapply untouched_trans; [exact Hs1 | | exact Hu'].
      eapply untouched_sub; [| exact Hu1]. set_solver.
  - apply bool_decide_eq_false in Hq. do 5 eexists. split_and!; eauto with buddy; [done |].
    intros _ Hin. apply elem_of_free_blocks in Hin as (l0 & Hl0 & Hp0). by simplify_eq.
Qed.

Lemma free_block_spec m self ls A p k :
  buddy_inv m self ls ((p, k) :: A) → coalesced self (free_blocks ls) →
  ∃ m' self' ls', BuddyAllocator.free_block m self p k = Ret (m', self') ∧
    same_heap self self' ∧ untouched self A m m' ∧
    buddy_inv m' self' ls' A ∧ coalesced self' (free_blocks ls').
Proof.
  intros Hinv Hco. unfold BuddyAllocator.free_block.
  destruct (free_block_loop_spec (max_order self - k) m self ls A p k Hinv Hco)
    as (m1 & self1 & p1 & k1 & ls1 & -> & Hs1 & Hu1 & Hinv1 & Hco1 & Hb1); [lia |].
  cbn [mbind out_bind].
  destruct (add_spec _ _ _ _ _ _ Hinv1) as (m2 & self2 & l & Hadd & Hl & Hs2 & Hu2 & Hinv2).
  exists m2, self2, (<[k1 := p1 :: l]> ls1). split_and!; eauto with buddy.
  apply (coalesced_same self1); [done |].
  eapply coalesced_sub; [intros b; rewrite free_blocks_add by done; exact id |].
  by apply coalesced_add.
Qed.

(** ** The public operations *)

(** The allocator is well formed and [A] are the blocks handed out. *)
Definition buddy_ok (m : nodes) (self : BuddyAllocator) (A : list blk) : Prop :=
  (3 ≤ max_order self)%nat ∧
  ∃ ls, buddy_inv m self ls A ∧ coalesced self (free_blocks ls).

Lemma layout_order_spec layout :
  wf_layout layout →
  ∃ k, BuddyAllocator.layout_order layout = Ret k ∧ (4 ≤ k < 64)%nat ∧
    lsize layout ≤ order_to_size k ∧ (lalign layout | order_to_size k).
Proof.
  intros (H0 & (a & Ha & Hal) & Hmax). unfold BuddyAllocator.layout_order, MIN_BLOCK_SIZE.
  set (n := Z.max (Z.max (lsize layout) 16) (Z.max (lalign layout) 16)).
  pose proof (pow2_pos a ltac:(lia)). pose proof (pow2_le a 62 ltac:(lia)).
  assert (16 ≤ n ≤ 2 ^ 63) as Hn by lia.
  destruct (next_power_of_two_pow2 n) as (k & Hk & E).
  pose proof (next_power_of_two_ge n ltac:(lia)) as Hge. rewrite E in Hge.
  pose proof (next_power_of_two_le n 63 ltac:(lia) ltac:(lia)) as Hle. rewrite E in Hle.
  assert (4 ≤ k) by (apply (Z.pow_le_mono_r_iff 2); lia).
  assert (k ≤ 63) by (apply (Z.pow_le_mono_r_iff 2); lia).
  unfold npow2. rewrite E. pose proof (pow2_le k 63 ltac:(lia)).
  rewrite (proj2 (Z.ltb_lt _ _)) by lia. cbn. rewrite size_to_order_pow2 by lia.
  exists (Z.to_nat k). rewrite order_to_size_pow2, Z2Nat.id by lia.
  split_and!; [done | lia | lia | lia |].
  rewrite Hal. apply pow2_divide. split; [lia |].
  apply (Z.pow_le_mono_r_iff 2); lia.
Qed.

Lemma allocate_ok m self A layout :
  buddy_ok m self A → wf_layout layout →
  ∃ m' self' r k,
    BuddyAllocator.allocate m self layout = Ret (m', self', r) ∧
    BuddyAllocator.layout_order layout = Ret k ∧
    match r with
    | Ok p =>
        lsize layout ≤ order_to_size k ∧
        heap_start self ≤ p ∧ p + order_to_size k ≤ heap_start self + heap_size self ∧
        (lalign layout | p - heap_start self) ∧
        (∀ b, b ∈ A → disj (p, k) b) ∧ untouched self A m m' ∧
        same_heap self self' ∧ buddy_ok m' self' ((p, k) :: A)
    | Err e =>
        m' = m ∧ self' = self ∧
        (e = InvalidSize ∧ lsize layout = 0 ∨
         e = OutOfMemory ∧ ∀ p, fits self (p, k) → ∃ b, b ∈ A ∧ ¬ disj (p, k) b)
    end.
Proof.
  intros (H3 & ls & Hinv & Hco) Hlay.
  destruct (layout_order_spec layout Hlay) as (k & Hk & Hk4 & Hsz & Hal).
  unfold BuddyAllocator.allocate.
  destruct (Z.eqb_spec (lsize layout) 0) as [E0|E0].
  { do 4 eexists. split; [done |]. split; [done |]. cbn. auto. }
  rewrite Hk. cbn [mbind out_bind].
  destruct (Nat.ltb_spec (max_order self) k) as [Hbig|Hfits].
  { do 4 eexists. split; [done |]. split; [done |]. split_and!; [done | done |]. right.
    split; [done |]. intros p Hp%fits_order. cbn in Hp. lia. }
  destruct (find_block_spec m self ls A k Hinv Hco) as (r & Hfind & Hpost); [lia |].
  rewrite Hfind. destruct r as [[m' self'] [p|e]].
  - destruct Hpost as (Hsame & Hun & ls' & Hinv' & Hco').
    exists m', self', (Ok p), k. split; [done |]. split; [done |].
    pose proof (bi_tiling _ _ _ _ Hinv') as Ht.
    pose proof (tiling_fits _ _ Ht) as Hf. rewrite Forall_forall in Hf.
    assert (fits self' (p, k)) as Hfit by (apply Hf; set_solver).
    pose proof (fits_bounds _ _ Hfit) as Hb. unfold bsize in Hb. cbn in Hb.
    pose proof (bi_size _ _ _ _ Hinv') as Hsize. pose proof Hsame as (E1 & E2 & E3).
    rewrite E1, E3 in Hb. rewrite E2, E3 in Hsize.
    split_and!; [done | lia | lia | | | done | done |].
    + destruct Hfit as (_ & c & _ & Hc & _). unfold bsize in Hc. cbn in Hc. rewrite E1 in Hc.
      replace (p - heap_start self) with (c * order_to_size k) by lia.
      by apply Z.divide_mul_r.
    + intros b Hb'. apply tiling_disj, pairwise_app in Ht as (_ & [_ Hd]%StronglySorted_inv & _).
      rewrite Forall_forall in Hd. by apply Hd.
    + split; [by rewrite E3 |]. eauto.
  - destruct Hpost as (-> & -> & -> & Hnone).
    exists m, self, (Err OutOfMemory), k. split_and!; [done.. | right]. split; [done |].
    intros p Hp. destruct (decide (Exists (λ b, ¬ disj (p, k) b) A)) as [He|He].
    { apply Exists_exists in He. done. }
    exfalso. destruct (free_cell self (free_blocks ls) A p k) as (q & j & Hq & Hj);
      [apply Hinv | done | done | | by eapply Hnone].
    intros b Hb. apply dec_stable. intros Hnd. apply He, Exists_exists. eauto.
Qed.

(** From a well-formed state, [allocate] never panics.  When it succeeds it
    hands out a block of at least the requested size, inside the heap, disjoint
    from every block handed out before, at an offset from the heap start that is
    a multiple of the requested alignment; it writes no memory of a block handed
    out.  It fails only for a size of zero or when every cell of the required
    order meets a block handed out (or the order exceeds the heap's), and then
    changes nothing. *)
Theorem buddy_allocate_spec m self A layout :
  buddy_ok m self A → wf_layout layout →
  ∃ m' self' r k,
    BuddyAllocator.allocate m self layout = Ret (m', self', r) ∧
    BuddyAllocator.layout_order layout = Ret k ∧
    match r with
    | Ok p =>
        lsize layout ≤ order_to_size k ∧
        heap_start self ≤ p ∧ p + order_to_size k ≤ heap_start self + heap_size self ∧
        (lalign layout | p - heap_start self) ∧
        (∀ b, b ∈ A → disj (p, k) b) ∧ untouched self A m m' ∧
        same_heap self self' ∧ buddy_ok m' self' ((p, k) :: A)
    | Err e =>
        m' = m ∧ self' = self ∧
        (e = InvalidSize ∧ lsize layout = 0 ∨
         e = OutOfMemory ∧ ∀ p, fits self (p, k) → ∃ b, b ∈ A ∧ ¬ disj (p, k) b)
    end.
Proof. apply allocate_ok. Qed.

Lemma deallocate_ok m self A layout p k :
  BuddyAllocator.layout_order layout = Ret k →
  buddy_ok m self ((p, k) :: A) →
  ∃ m' self',
    BuddyAllocator.deallocate m self p layout = Ret (m', self', Ok tt) ∧
    same_heap self self' ∧ untouched self A m m' ∧ buddy_ok m' self' A.
Proof.
  intros Hk (H3 & ls & Hinv & Hco). unfold BuddyAllocator.deallocate.
  pose proof (tiling_fits _ _ (bi_tiling _ _ _ _ Hinv)) as Hf. rewrite Forall_forall in Hf.
  assert (fits self (p, k)) as Hfit by (apply Hf; set_solver).
  pose proof (fits_bounds _ _ Hfit) as Hb. unfold bsize in Hb. cbn in Hb.
  pose proof (bi_size _ _ _ _ Hinv) as Hsize. pose proof (order_to_size_pos k).
  rewrite (proj2 (Z.ltb_ge _ _)) by lia. rewrite (proj2 (Z.leb_gt _ _)) by lia.
  cbn [orb]. rewrite Hk. cbn [mbind out_bind].
  destruct (free_block_spec m self ls A p k Hinv Hco)
    as (m' & self' & ls' & -> & Hs' & Hu' & Hinv' & Hco').
  cbn [mbind out_bind]. exists m', self'. split_and!; [done | done | done |].
  pose proof Hs' as (_ & _ & E3). split; [by rewrite E3 | eauto].
Qed.

Lemma deallocate_foreign m self p layout :
  ¬ (heap_start self ≤ p < heap_start self + heap_size self) →
  BuddyAllocator.deallocate m self p layout = Ret (m, self, Err InvalidPointer).
Proof.
  intros Hp. unfold BuddyAllocator.deallocate.
  destruct (Z.ltb_spec p (heap_start self)); [done |].
  by rewrite (proj2 (Z.leb_le _ _)) by lia.
Qed.

Lemma buddy_ok_perm m self A A' : A ≡ₚ A' → buddy_ok m self A → buddy_ok m self A'.
Proof.
  intros Hp (H3 & ls & [? ? ? ? Ht] & Hc). split; [done |]. exists ls. split; [| done].
  split; [done.. |]. eapply tiling_perm; [| exact Ht]. by rewrite Hp.
Qed.

Lemma buddy_ok_in m self A p k :
  buddy_ok m self A → (p, k) ∈ A →
  heap_start self ≤ p < heap_start self + heap_size self ∧
  p + order_to_size k ≤ heap_start self + heap_size self.
Proof.
  intros (_ & ls & Hi & _) Hin. pose proof (tiling_fits _ _ (bi_tiling _ _ _ _ Hi)) as Hf.
  rewrite Forall_forall in Hf. pose proof (fits_bounds self (p, k) (Hf (p, k) ltac:(set_solver))) as Hb.
  unfold bsize in Hb. cbn in Hb. pose proof (bi_size _ _ _ _ Hi). pose proof (order_to_size_pos k). lia.
Qed.

Lemma buddy_ok_disj m self A : buddy_ok m self A → pairwise disj A.
Proof.
  intros (_ & ls & Hi & _). by pose proof (tiling_disj _ _ (bi_tiling _ _ _ _ Hi))
    as (_ & Hd & _)%pairwise_app.
Qed.

(** The state depends on the memory of the heap only. *)
Lemma buddy_ok_frame m m' self A :
  (∀ x, heap_start self ≤ x < heap_start self + heap_size self → m' !! x = m !! x) →
  buddy_ok m self A → buddy_ok m' self A.
Proof.
  intros Hm (H3 & ls & Hi & Hc). split; [done |]. exists ls. split; [| done].
  split; try apply Hi.
  apply Forall2_same_length_lookup_2; [apply (Forall2_length _ _ _ (bi_lists _ _ _ _ Hi)) |].
  intros j o l Ho Hl. eapply chain_frame;
    [| exact (Forall2_lookup_lr _ _ _ _ _ _ (bi_lists _ _ _ _ Hi) Ho Hl)].
  intros p Hp. apply Hm. pose proof (tiling_fits _ _ (bi_tiling _ _ _ _ Hi)) as Hf.
  rewrite Forall_forall in Hf.
  assert ((p, j) ∈ free_blocks ls) as Hin by (apply elem_of_free_blocks; eauto).
  pose proof (fits_bounds self (p, j) (Hf (p, j) ltac:(set_solver))) as Hb.
  pose proof (bsize_pos (p, j)). cbn in Hb. pose proof (bi_size _ _ _ _ Hi). lia.
Qed.

(** [deallocate] of a block handed out for a layout never panics, returns
    [Ok], leaves the memory of all other blocks handed out alone, and gives the
    block back: the well-formed state no longer has it among the blocks handed
    out. *)
Theorem buddy_deallocate_spec m self A layout p k :
  BuddyAllocator.layout_order layout = Ret k →
  buddy_ok m self ((p, k) :: A) →
  ∃ m' self',
    BuddyAllocator.deallocate m self p layout = Ret (m', self', Ok tt) ∧
    same_heap self self' ∧ untouched self A m m' ∧ buddy_ok m' self' A.
Proof. apply deallocate_ok. Qed.

(** Buddies are always merged again: whenever every block handed out has
    been given back, in whatever order, the free lists hold the single block of
    maximal order and nothing else. *)
Theorem buddy_all_freed m self :
  buddy_ok m self [] →
  ∃ ls, buddy_inv m self ls [] ∧ free_blocks ls = [(heap_start self, max_order self)].
Proof.
  intros (H3 & ls & Hinv & Hco). exists ls. split; [done |].
  apply coalesced_tiling; [done | | done].
  pose proof (bi_tiling _ _ _ _ Hinv) as Ht. by rewrite app_nil_r in Ht.
Qed.

(** ** Initialisation *)

(** Half of the next power of two: the largest power of two below [x]. *)
Lemma npow2_half x :
  2 ≤ x ≤ 2 ^ 63 → ∃ k, 0 ≤ k < 63 ∧ npow2 x = Ret (2 ^ (k + 1)) ∧ 2 ^ k < x ≤ 2 ^ (k + 1).
Proof.
  intros Hx. exists (Z.log2_up x - 1).
  assert (0 < Z.log2_up x ≤ 63) as Hl.
  { split; [apply Z.log2_up_pos; lia |].
    rewrite <- (Z.log2_up_pow2 63) by lia. apply Z.log2_up_le_mono. lia. }
  pose proof (Z.log2_up_spec x ltac:(lia)) as Hs.
  replace (Z.log2_up x - 1 + 1) with (Z.log2_up x) by lia.
  split_and!; [lia | lia | | lia |].
  - unfold npow2, next_power_of_two. rewrite (proj2 (Z.leb_gt _ _)) by lia.
    pose proof (pow2_le (Z.log2_up x) 63 ltac:(lia)). by rewrite (proj2 (Z.ltb_lt _ _)) by lia.
  - replace (Z.log2_up x - 1) with (Z.pred (Z.log2_up x)) by lia. lia.
Qed.

Lemma init_free_blocks k p :
  (k < MAX_ORDER)%nat →
  free_blocks (<[k := [p]]> (replicate MAX_ORDER [])) = [(p, k)].
Proof.
  intros Hk. symmetry. apply Permutation_singleton_l.
  rewrite (free_blocks_add _ k []).
  - assert (free_blocks (replicate MAX_ORDER []) = []) as -> by reflexivity. done.
  - by apply lookup_replicate_2.
Qed.

Definition adjusted (ptr size : Z) : Z := size - (round_up ptr 16 - ptr).

Lemma new_ok m ptr size :
  0 ≤ ptr → 16 ≤ size → ptr + size < 2 ^ 63 → 9 ≤ adjusted ptr size ≤ 2 ^ 28 →
  ∃ m' b, BuddyAllocator.new m ptr size = Ret (m', Ok b) ∧ buddy_ok m' b [] ∧
    heap_start b = round_up ptr 16 ∧ heap_size b = adjusted ptr size ∧
    adjusted ptr size ≤ 2 * order_to_size (max_order b) ∧
    (∀ x, x ≠ heap_start b → m' !! x = m !! x).
Proof.
  unfold adjusted. intros Hp Hs Hps Hadj.
  destruct (round_up_spec ptr 16) as (_ & Hr & _); [lia |]. set (a := round_up ptr 16) in *.
  unfold BuddyAllocator.new, MIN_BLOCK_SIZE.
  rewrite (proj2 (Z.ltb_ge _ _)) by lia.
  assert (align_up ptr 16 = Ret a) as -> by (apply (heap_align_up_eq ptr 4); lia). cbn [mbind out_bind].
  rewrite sub_w_ok by lia. cbn [mbind out_bind].
  rewrite (proj2 (Z.leb_gt _ _)) by lia.
  set (s := size - (a - ptr)) in *.
  destruct (npow2_half s) as (k & Hk & -> & Hks); [lia |]. cbn [mbind out_bind].
  assert (2 ^ (k + 1) / 2 = 2 ^ k) as ->
    by (rewrite Z.pow_add_r, Z.div_mul by lia; done).
  rewrite size_to_order_pow2 by lia. cbn [mbind out_bind].
  assert (3 ≤ k) by (apply Z.lt_succ_r, (Z.pow_lt_mono_r_iff 2); [lia | lia |]; 
    replace (Z.succ k) with (k + 1) by lia; lia).
  assert (k < 28) by (apply (Z.pow_lt_mono_r_iff 2); lia).
  assert (order_to_size (Z.to_nat k) = 2 ^ k) as Ho by (rewrite order_to_size_pow2, Z2Nat.id; lia).
  rewrite Ho. rewrite (proj2 (Z.leb_le _ _)) by lia.
  rewrite Nat.min_l by (unfold MAX_ORDER; lia).
  unfold BuddyAllocator.add_block_to_free_list. cbn [heap_start heap_size free_lists].
  rewrite (proj2 (Nat.ltb_lt _ _)) by (unfold MAX_ORDER; lia). cbn [assert_ mbind out_bind].
  rewrite Z.leb_refl. cbn [assert_ mbind out_bind]. rewrite Ho.
  rewrite (proj2 (Z.leb_le _ _)) by lia. cbn [assert_ mbind out_bind].
  rewrite lookup_replicate_2 by (unfold MAX_ORDER; lia). cbn [unwrap mbind out_bind].
  do 2 eexists. split; [done |]. cbn [BuddyAllocator.set_free_list heap_start heap_size max_order].
  split; [| split_and!; [done | done | rewrite Ho; rewrite Z.pow_add_r in Hks; lia |]];
    [| intros x Hx; by apply lookup_insert_ne].
  split; [cbn; lia |]. exists (<[Z.to_nat k := [a]]> (replicate MAX_ORDER [])).
  rewrite init_free_blocks by (unfold MAX_ORDER; lia).
  split; [split |].
  - cbn [free_lists BuddyAllocator.set_free_list]. apply Forall2_insert.
    + apply Forall2_replicate. done.
    + cbn. split; [done |]. exists None. by rewrite lookup_insert_eq.
  - by rewrite length_insert, length_replicate.
  - unfold MAX_ORDER. cbn. lia.
  - cbn. rewrite Ho. lia.
  - rewrite init_free_blocks by (unfold MAX_ORDER; lia). cbn [app]. split.
    + apply Forall_singleton. split; [cbn; lia |]. exists 0. unfold bsize. cbn. lia.
    + repeat constructor.
    + rewrite total_cons. unfold bsize. cbn. lia.
  - intros q j [[= -> ->]|?]%elem_of_cons Hj; [cbn in Hj; lia | set_solver].
Qed.

(** For a region whose part after the first multiple of 16 has between 9
    bytes and 256 MiB, [new] succeeds with a well-formed allocator of that part
    whose managed region is at least half of it. *)
Theorem buddy_new_spec m ptr size :
  0 ≤ ptr → 16 ≤ size → ptr + size < 2 ^ 63 → 9 ≤ adjusted ptr size ≤ 2 ^ 28 →
  ∃ m' b, BuddyAllocator.new m ptr size = Ret (m', Ok b) ∧ buddy_ok m' b [] ∧
    heap_start b = round_up ptr 16 ∧ heap_size b = adjusted ptr size ∧
    adjusted ptr size ≤ 2 * order_to_size (max_order b) ∧
    (∀ x, x ≠ heap_start b → m' !! x = m !! x).
Proof. apply new_ok. Qed.

(** A heap of 4 KiB. *)
Definition demo_nodes : nodes := {[ 4096 := None ]}.
Definition demo_buddy : BuddyAllocator :=
  mkBuddy 4096 4096 (<[11%nat := Some 4096]> (replicate MAX_ORDER None)) 11.

Lemma demo_ok : buddy_ok demo_nodes demo_buddy [].
Proof.
  assert (round_up 4096 16 = 4096) as E by reflexivity.
  destruct (new_ok ∅ 4096 4096) as (m & b & Hn & Hok & _);
    [lia | lia | lia | unfold adjusted; rewrite E; lia |].
  assert (BuddyAllocator.new ∅ 4096 4096 = Ret (demo_nodes, Ok demo_buddy)) as Hn'
    by (vm_compute; reflexivity).
  rewrite Hn' in Hn. by injection Hn as -> ->.
Qed.

Definition demo_layout : Layout := mkLayout 100 8.

Lemma demo_layout_wf : wf_layout demo_layout.
Proof. split; [cbn; lia |]. split; [exists 3; cbn; lia | cbn; lia]. Qed.

Lemma demo_allocated :
  ∃ m' self', BuddyAllocator.allocate demo_nodes demo_buddy demo_layout = Ret (m', self', Ok 6016) ∧
    buddy_ok m' self' [(6016, 7%nat)].
Proof.
  destruct (allocate_ok demo_nodes demo_buddy [] demo_layout demo_ok demo_layout_wf)
    as (m' & self' & r & k & Ha & Hk & Hr).
  assert (BuddyAllocator.layout_order demo_layout = Ret 7%nat) as Hk' by (vm_compute; reflexivity).
  rewrite Hk' in Hk. injection Hk as <-.
  assert (∃ m self, BuddyAllocator.allocate demo_nodes demo_buddy demo_layout
            = Ret (m, self, Ok 6016)) as (m1 & s1 & E) by (vm_compute; eauto).
  rewrite E in Ha. injection Ha as -> -> <-.
  exists m', self'. split; [done |]. apply Hr.
Qed.

Lemma buddy_allocate_spec_witness :
  buddy_ok demo_nodes demo_buddy [] ∧ wf_layout demo_layout ∧
  ∃ m' self' r, BuddyAllocator.allocate demo_nodes demo_buddy demo_layout = Ret (m', self', r).
Proof.
  split; [exact demo_ok |]. split; [exact demo_layout_wf |].
  destruct (buddy_allocate_spec demo_nodes demo_buddy [] demo_layout demo_ok demo_layout_wf)
    as (m' & self' & r & k & Ha & _).
  exists m', self', r. exact Ha.
Defined.

Lemma buddy_deallocate_spec_witness :
  ∃ m self m' self', buddy_ok m self [(6016, 7%nat)] ∧
    BuddyAllocator.deallocate m self 6016 demo_layout = Ret (m', self', Ok tt) ∧
    buddy_ok m' self' [].
Proof.
  destruct demo_allocated as (m & self & _ & Hok).
  assert (BuddyAllocator.layout_order demo_layout = Ret 7%nat) as Hk by (vm_compute; reflexivity).
  destruct (buddy_deallocate_spec m self [] demo_layout 6016 7 Hk Hok)
    as (m' & self' & Hd & _ & _ & Hok').
  exists m, self, m', self'. split; [exact Hok |]. split; [exact Hd | exact Hok'].
Defined.

Lemma buddy_all_freed_witness :
  buddy_ok demo_nodes demo_buddy [] ∧
  ∃ ls, free_blocks ls = [(4096, 11%nat)].
Proof.
  split; [exact demo_ok |].
  destruct (buddy_all_freed demo_nodes demo_buddy demo_ok) as (ls & _ & E).
  exists ls. exact E.
Defined.

Lemma buddy_new_spec_witness :
  ∃ m' b, BuddyAllocator.new ∅ 4097 4096 = Ret (m', Ok b) ∧ heap_start b = 4112.
Proof.
  assert (adjusted 4097 4096 = 4081) as E by reflexivity.
  destruct (buddy_new_spec ∅ 4097 4096) as (m' & b & Hn & _ & Hs & _); [lia | lia | lia | lia |].
  exists m', b. split; [exact Hn | exact Hs].
Defined.

(** The blocks are aligned with respect to the start of the heap only: on a
    heap that starts at address 16, a request for 64 bytes aligned to 64 bytes
    is answered with an address that is not a multiple of 64. *)
Lemma buddy_misaligned :
  ∃ m b m' b' p,
    BuddyAllocator.new ∅ 16 4096 = Ret (m, Ok b) ∧
    BuddyAllocator.allocate m b (mkLayout 64 64) = Ret (m', b', Ok p) ∧ p mod 64 = 16.
Proof. do 5 eexists. split; [vm_compute; reflexivity |]. split; vm_compute; reflexivity. Qed.

(** [new] panics on every aligned region of more than 256 MiB: the order of
    the initial block is clamped for [max_order] but not for the free list it is
    put on, which does not exist. *)
Theorem buddy_new_large m ptr size :
  0 ≤ ptr → ptr mod 16 = 0 → 2 ^ 28 < size → ptr + size < 2 ^ 63 →
  BuddyAllocator.new m ptr size = Panic.
Proof.
  intros Hp Hal Hs Hps.
  assert (round_up ptr 16 = ptr) as Hr by (symmetry; apply round_up_unique; lia).
  unfold BuddyAllocator.new, MIN_BLOCK_SIZE.
  rewrite (proj2 (Z.ltb_ge _ _)) by lia.
  assert (align_up ptr 16 = Ret ptr) as ->
    by (rewrite <- Hr at 2; apply (heap_align_up_eq ptr 4); lia). cbn [mbind out_bind].
  rewrite sub_w_ok by lia. cbn [mbind out_bind]. rewrite Z.sub_diag, Z.sub_0_r.
  rewrite (proj2 (Z.leb_gt _ _)) by lia.
  destruct (npow2_half size) as (k & Hk & -> & Hks); [lia |]. cbn [mbind out_bind].
  assert (2 ^ (k + 1) / 2 = 2 ^ k) as ->
    by (rewrite Z.pow_add_r, Z.div_mul by lia; done).
  rewrite size_to_order_pow2 by lia. cbn [mbind out_bind].
  assert (28 ≤ k).
  { apply Z.lt_succ_r, (Z.pow_lt_mono_r_iff 2); [lia | lia |].
    replace (Z.succ k) with (k + 1) by lia. lia. }
  rewrite order_to_size_pow2, Z2Nat.id by lia. rewrite (proj2 (Z.leb_le _ _)) by lia.
  unfold BuddyAllocator.add_block_to_free_list.
  rewrite (proj2 (Nat.ltb_ge _ _)) by (unfold MAX_ORDER; lia). done.
Qed.

Lemma buddy_new_large_witness : BuddyAllocator.new ∅ 0x100000 (2 ^ 28 + 16) = Panic.
Proof. apply (buddy_new_large ∅ 0x100000 (2 ^ 28 + 16)); [lia | reflexivity | lia | lia]. Defined.

(** On a region of 17 bytes at address 1, of which only the two bytes at 16
    and 17 remain after alignment, [new] succeeds and writes a list node of eight
    bytes at address 16, beyond the end of the region. *)
Lemma buddy_new_overflow :
  ∃ m b, BuddyAllocator.new ∅ 1 17 = Ret (m, Ok b) ∧
    heap_start b = 16 ∧ heap_start b + heap_size b = 1 + 17 ∧ m !! 16 = Some None ∧
    1 + 17 < 16 + 8.
Proof.
  do 2 eexists. split; [vm_compute; reflexivity |]. cbn.
  split_and!; try reflexivity.
Qed.
