(* ===== verification/Slab.v ===== *)
(** * The slab allocator

    [heaperion/src/slab.rs]: pools of slots of one size each, the free slots of
    a pool linked through their first word. *)

From S2P Require Import Prelude HeapUtils.

Definition SLAB_SIZES : list Z := [8; 16; 32; 64; 128; 256; 512].
Definition MIN_HEAP_SIZE : Z := 4096.
Definition MAX_SLABS : nat := 8.

Record Slab := mkSlab {
  slot_size : Z;
  free_list : option Z;
  slab_start : Z;
  slab_end : Z;
  free_count : Z;
  capacity : Z;
}.

Module Slab.

(** The loop of [new] that links the slots, with its mutable variables. *)
Fixpoint link_slots (n : nat) (m : nodes) (slot_size current_ptr : Z)
    (prev_slot free_list : option Z) : nodes * option Z :=
  match n with
  | O => (m, free_list)
  | S n =>
      let slot := current_ptr in
      let m := <[slot := None]> m in
      match prev_slot with
      | Some prev =>
          link_slots n (<[prev := Some slot]> m) slot_size (current_ptr + slot_size)
            (Some slot) free_list
      | None => link_slots n m slot_size (current_ptr + slot_size) (Some slot) (Some slot)
      end
  end.

Definition new (m : nodes) (slot_size start_ptr size : Z) : out (nodes * result Slab HeapError) :=
  aligned_addr ← align_up start_ptr slot_size;
  offset ← sub_w aligned_addr start_ptr;
  if size <=? offset then mret (m, Err InvalidSize)
  else
    let adjusted_size := size - offset in
    let aligned_ptr := start_ptr + offset in
    let num_slots := adjusted_size / slot_size in
    let '(m, free_list) := link_slots (Z.to_nat num_slots) m slot_size aligned_ptr None None in
    mret (m, Ok (mkSlab slot_size free_list aligned_ptr (aligned_ptr + adjusted_size)
                   num_slots num_slots)).

Definition allocate (m : nodes) (self : Slab) : out (Slab * result Z HeapError) :=
  match free_list self with
  | Some slot =>
      next ← unwrap (m !! slot);
      free_count ← sub_w (free_count self) 1;
      mret (mkSlab (slot_size self) next (slab_start self) (slab_end self) free_count
              (capacity self), Ok slot)
  | None => mret (self, Err OutOfMemory)
  end.

Definition deallocate (m : nodes) (self : Slab) (ptr : Z)
    : out (nodes * Slab * result unit HeapError) :=
  if (ptr <? slab_start self) || (slab_end self <=? ptr) then mret (m, self, Err InvalidPointer)
  else
    let offset := ptr - slab_start self in
    if negb (offset mod slot_size self =? 0) then mret (m, self, Err InvalidPointer)
    else
      free_count ← add_w 64 (free_count self) 1;
      mret (<[ptr := free_list self]> m,
            mkSlab (slot_size self) (Some ptr) (slab_start self) (slab_end self) free_count
              (capacity self),
            Ok tt).

Definition contains (self : Slab) (ptr : Z) : bool :=
  (slab_start self <=? ptr) && (ptr <? slab_end self).

Definition _is_empty (self : Slab) : bool := free_count self =? capacity self.

Definition is_full (self : Slab) : bool := free_count self =? 0.

End Slab.

(** The array of [MAX_SLABS] optional slabs. *)
Record SlabAllocator := mkSlabAllocator { slabs : list (option Slab) }.

Module SlabAllocator.

(** The loop over [SLAB_SIZES], with [break] and [?]. *)
Fixpoint new_loop (m : nodes) (ptr remaining_size base_size current_ptr : Z)
    (slabs : list (option Slab)) (i : nat) (sizes : list Z)
    : out (nodes * result (list (option Slab)) HeapError) :=
  match sizes with
  | [] => mret (m, Ok slabs)
  | size :: sizes =>
      if Nat.leb MAX_SLABS i then mret (m, Ok slabs)
      else
        let used := current_ptr - ptr in
        let slab_size := Z.min base_size (saturating_sub remaining_size used) in
        four ← mul_w 64 size 4;
        if slab_size <? four then mret (m, Ok slabs)
        else
          '(m, r) ← Slab.new m size current_ptr slab_size;
          match r with
          | Err e => mret (m, Err e)
          | Ok slab =>
              let slabs := if 0 <? capacity slab then <[i := Some slab]> slabs else slabs in
              new_loop m ptr remaining_size base_size (current_ptr + slab_size) slabs (S i) sizes
          end
  end.

Definition new (m : nodes) (ptr size : Z) : out (nodes * result SlabAllocator HeapError) :=
  if size <? MIN_HEAP_SIZE then mret (m, Err InvalidSize)
  else
    let base_size := size / Z.of_nat (length SLAB_SIZES) in
    '(m, r) ← new_loop m ptr size base_size ptr (replicate MAX_SLABS None) 0 SLAB_SIZES;
    match r with
    | Ok slabs => mret (m, Ok (mkSlabAllocator slabs))
    | Err e => mret (m, Err e)
    end.

Fixpoint allocate_loop (m : nodes) (slabs : list (option Slab)) (size : Z)
    : out (list (option Slab) * result Z HeapError) :=
  match slabs with
  | [] => mret ([], Err OutOfMemory)
  | None :: rest =>
      '(rest, r) ← allocate_loop m rest size; mret (None :: rest, r)
  | Some slab :: rest =>
      if size <=? slot_size slab then
        '(slab, r) ← Slab.allocate m slab; mret (Some slab :: rest, r)
      else '(rest, r) ← allocate_loop m rest size; mret (Some slab :: rest, r)
  end.

Definition allocate (m : nodes) (self : SlabAllocator) (layout : Layout)
    : out (SlabAllocator * result Z HeapError) :=
  if lsize layout =? 0 then mret (self, Err InvalidSize)
  else
    let size := Z.max (lsize layout) (lalign layout) in
    '(slabs, r) ← allocate_loop m (slabs self) size;
    mret (mkSlabAllocator slabs, r).

Fixpoint deallocate_loop (m : nodes) (slabs : list (option Slab)) (ptr : Z)
    : out (nodes * list (option Slab) * result unit HeapError) :=
  match slabs with
  | [] => mret (m, [], Err InvalidPointer)
  | None :: rest =>
      '(m, rest, r) ← deallocate_loop m rest ptr; mret (m, None :: rest, r)
  | Some slab :: rest =>
      if Slab.contains slab ptr then
        '(m, slab, r) ← Slab.deallocate m slab ptr; mret (m, Some slab :: rest, r)
      else '(m, rest, r) ← deallocate_loop m rest ptr; mret (m, Some slab :: rest, r)
  end.

Definition deallocate (m : nodes) (self : SlabAllocator) (ptr : Z)
    : out (nodes * SlabAllocator * result unit HeapError) :=
  '(m, slabs, r) ← deallocate_loop m (slabs self) ptr;
  mret (m, mkSlabAllocator slabs, r).

Definition can_allocate (self : SlabAllocator) (layout : Layout) : bool :=
  if lsize layout =? 0 then false
  else
    let size := Z.max (lsize layout) (lalign layout) in
    existsb (λ o, match o with
                  | Some slab => (size <=? slot_size slab) && negb (Slab.is_full slab)
                  | None => false
                  end) (slabs self).

Definition max_size (self : SlabAllocator) : Z :=
  match last SLAB_SIZES with Some size => size | None => 0 end.

End SlabAllocator.

(** ** One slab *)

(** The addresses of [n] slots from [p] on. *)
Definition slots_from (p sz : Z) (n : nat) : list Z := (λ i, p + Z.of_nat i * sz) <$> seq 0 n.

Definition slots (s : Slab) : list Z :=
  slots_from (slab_start s) (slot_size s) (Z.to_nat (capacity s)).

Lemma slots_from_S p sz n : slots_from p sz (S n) = p :: slots_from (p + sz) sz n.
Proof.
  unfold slots_from. cbn [seq]. rewrite fmap_cons. f_equal; [lia |].
  rewrite <- fmap_S_seq, <- list_fmap_compose. apply list_fmap_ext. intros. cbn. lia.
Qed.

Lemma elem_of_slots_from p sz n x :
  x ∈ slots_from p sz n ↔ ∃ i : nat, (i < n)%nat ∧ x = p + Z.of_nat i * sz.
Proof.
  unfold slots_from. rewrite list_elem_of_fmap. setoid_rewrite elem_of_seq.
  split; intros (i & ? & ?); exists i; split; (lia || done).
Qed.

Lemma slots_from_ge p sz n x : 0 < sz → x ∈ slots_from p sz n → p ≤ x.
Proof. intros Hs (i & _ & ->)%elem_of_slots_from. lia. Qed.

(** The free list [l] and the slots [A] handed out are the slots of the slab. *)
Record slab_inv (m : nodes) (s : Slab) (l A : list Z) : Prop := {
  si_pow2 : ∃ k, 3 ≤ k < 63 ∧ slot_size s = 2 ^ k;
  si_chain : chain m (free_list s) l;
  si_slots : l ++ A ≡ₚ slots s;
  si_count : free_count s = Z.of_nat (length l);
  si_aligned : slab_start s mod slot_size s = 0;
  si_cap : 0 ≤ capacity s < 2 ^ 63;
  si_end : slab_start s + capacity s * slot_size s ≤ slab_end s;
}.

Lemma slots_nodup s : 0 < slot_size s → NoDup (slots s).
Proof.
  intros Hs. apply NoDup_fmap_2_strong; [| apply NoDup_seq]. intros i j _ _ E. nia.
Qed.

Section slab.
Context {m : nodes} {s : Slab} {l A : list Z} (Hinv : slab_inv m s l A).

Lemma slot_size_pos : 8 ≤ slot_size s.
Proof.
  destruct (si_pow2 _ _ _ _ Hinv) as (k & Hk & ->). pose proof (pow2_le 3 k ltac:(lia)). lia.
Qed.

Lemma slab_slot p :
  p ∈ l ++ A →
  slab_start s ≤ p ∧ p + slot_size s ≤ slab_end s ∧ (p - slab_start s) mod slot_size s = 0 ∧
  p mod slot_size s = 0.
Proof.
  intros Hp. pose proof slot_size_pos. pose proof (si_end _ _ _ _ Hinv).
  pose proof (si_cap _ _ _ _ Hinv). pose proof (si_aligned _ _ _ _ Hinv) as Hal.
  rewrite (si_slots _ _ _ _ Hinv) in Hp. apply elem_of_slots_from in Hp as (i & Hi & ->).
  split_and!; [lia | nia | |].
  - replace (slab_start s + Z.of_nat i * slot_size s - slab_start s)
      with (Z.of_nat i * slot_size s) by lia. apply Z.mod_mul. lia.
  - by rewrite Z.mod_add by lia.
Qed.

Lemma slab_nodup : NoDup (l ++ A).
Proof.
  rewrite (si_slots _ _ _ _ Hinv). apply slots_nodup. pose proof slot_size_pos. lia.
Qed.

Lemma slab_length : Z.of_nat (length l) + Z.of_nat (length A) = capacity s.
Proof.
  pose proof (Permutation_length (si_slots _ _ _ _ Hinv)) as E.
  rewrite length_app in E. unfold slots, slots_from in E. rewrite length_fmap, length_seq in E.
  pose proof (si_cap _ _ _ _ Hinv). lia.
Qed.

(** Allocation pops the first free slot; it fails exactly when all slots are
    handed out. *)
Lemma slab_allocate_ok :
  match l with
  | p :: l' => ∃ s', Slab.allocate m s = Ret (s', Ok p) ∧ slab_inv m s' l' (p :: A) ∧
      slot_size s' = slot_size s ∧ slab_start s' = slab_start s ∧ slab_end s' = slab_end s
  | [] => Slab.allocate m s = Ret (s, Err OutOfMemory)
  end.
Proof.
  destruct Hinv as [Hk Hc Hsl Hcnt Hal Hcap Hend]. unfold Slab.allocate.
  destruct l as [|p l']; cbn in Hc; [by rewrite Hc |].
  destruct Hc as (-> & nx & Hp & Hc). rewrite Hp. cbn [unwrap mbind out_bind].
  cbn in Hcnt. rewrite sub_w_ok by lia. cbn [mbind out_bind].
  eexists. split; [done |]. split; [| done]. split; cbn; auto.
  - rewrite <- Hsl. cbn. by rewrite Permutation_middle.
  - lia.
Qed.

Lemma slab_deallocate_ok p A' :
  A ≡ₚ p :: A' →
  ∃ s' m', Slab.deallocate m s p = Ret (m', s', Ok tt) ∧ m' = <[p := free_list s]> m ∧
    slab_inv m' s' (p :: l) A' ∧
    slot_size s' = slot_size s ∧ slab_start s' = slab_start s ∧ slab_end s' = slab_end s.
Proof.
  intros HA. assert (p ∈ l ++ A) as Hin by (rewrite HA; set_solver).
  destruct (slab_slot p Hin) as (H1 & H2 & H3 & H4). pose proof slot_size_pos as Hs.
  pose proof slab_length as Hlen. rewrite HA in Hlen. cbn in Hlen.
  unfold Slab.deallocate. rewrite (proj2 (Z.ltb_ge _ _)), (proj2 (Z.leb_gt _ _)) by lia.
  cbn [orb]. rewrite (proj2 (Z.eqb_eq _ _)) by done. cbn [negb].
  rewrite (si_count _ _ _ _ Hinv). pose proof (si_cap _ _ _ _ Hinv).
  rewrite add_w_ok by lia. cbn [mbind out_bind].
  do 2 eexists. split; [done |]. split; [done |]. split; [| done].
  split; cbn; try apply Hinv.
  - split; [done |]. exists (free_list s). rewrite lookup_insert_eq. split; [done |].
    apply chain_insert; [| apply Hinv]. pose proof slab_nodup as Hnd. rewrite HA in Hnd.
    apply NoDup_app in Hnd as (_ & Hnd & _). intros Hp. apply (Hnd p Hp). by left.
  - unfold slots. cbn. change (p :: l ++ A' ≡ₚ slots s). rewrite <- (si_slots _ _ _ _ Hinv), HA.
    by rewrite Permutation_middle.
  - lia.
Qed.
End slab.

(** *** Building a slab *)

Lemma link_slots_prev n m sz p q fl :
  0 < sz → q < p → m !! q = Some None →
  ∃ m', Slab.link_slots n m sz p (Some q) fl = (m', fl) ∧
    chain m' (Some q) (q :: slots_from p sz n) ∧
    (∀ x, x ∉ q :: slots_from p sz n → m' !! x = m !! x).
Proof.
  intros Hs. revert m p q. induction n as [|n IH]; intros m p q Hq Hm.
  - exists m. split; [done |]. split; [| done]. split; [done |]. by exists None.
  - cbn [Slab.link_slots].
    destruct (IH (<[q := Some p]> (<[p := None]> m)) (p + sz) p) as (m' & E & Hc & Hf);
      [lia | by rewrite lookup_insert_ne, lookup_insert_eq by lia |].
    exists m'. rewrite slots_from_S. split; [done |].
    assert (q ∉ p :: slots_from (p + sz) sz n) as Hnq.
    { intros [-> | Hin]%elem_of_cons; [lia |]. apply slots_from_ge in Hin; lia. }
    split.
    + split; [done |]. exists (Some p). split; [| done].
      by rewrite Hf, lookup_insert_eq by done.
    + intros x Hx. apply not_elem_of_cons in Hx as [Hxq Hx]. rewrite Hf by done.
      apply not_elem_of_cons in Hx as [Hxp Hx]. by rewrite !lookup_insert_ne by done.
Qed.

Lemma link_slots_spec n m sz p :
  0 < sz →
  ∃ m' fl, Slab.link_slots n m sz p None None = (m', fl) ∧ chain m' fl (slots_from p sz n) ∧
    (∀ x, x ∉ slots_from p sz n → m' !! x = m !! x).
Proof.
  intros Hs. destruct n as [|n]; [by exists m, None |]. cbn [Slab.link_slots].
  destruct (link_slots_prev n (<[p := None]> m) sz (p + sz) p (Some p)) as (m' & E & Hc & Hf);
    [done | lia | by rewrite lookup_insert_eq |].
  exists m', (Some p). rewrite slots_from_S. split_and!; [done | done |].
  intros x Hx. rewrite Hf by done. apply not_elem_of_cons in Hx as [? _].
  by rewrite lookup_insert_ne by done.
Qed.

Lemma slab_new_ok m k p size :
  3 ≤ k < 63 → 0 ≤ p → 2 ^ k ≤ size → p + size < 2 ^ 63 →
  ∃ m' s l, Slab.new m (2 ^ k) p size = Ret (m', Ok s) ∧ slab_inv m' s l [] ∧
    slot_size s = 2 ^ k ∧ p ≤ slab_start s ∧ slab_end s = p + size ∧
    capacity s = (size - (slab_start s - p)) / 2 ^ k ∧ slab_start s - p < 2 ^ k ∧
    (∀ x, ¬ (slab_start s ≤ x < slab_end s) → m' !! x = m !! x).
Proof.
  intros Hk Hp Hsz Hlt. pose proof (pow2_le 3 k ltac:(lia)) as H8.
  destruct (round_up_spec p (2 ^ k) ltac:(lia)) as (Hmod & Hb & _).
  unfold Slab.new. rewrite heap_align_up_eq by lia. cbn [mbind out_bind].
  set (a := round_up p (2 ^ k)) in *. rewrite sub_w_ok by lia. cbn [mbind out_bind].
  rewrite (proj2 (Z.leb_gt _ _)) by lia. replace (p + (a - p)) with a by lia.
  set (n := (size - (a - p)) / 2 ^ k).
  assert (0 ≤ n) by (apply Z.div_pos; lia).
  assert (n * 2 ^ k ≤ size - (a - p)) by (rewrite Z.mul_comm; apply Z.mul_div_le; lia).
  destruct (link_slots_spec (Z.to_nat n) m (2 ^ k) a) as (m' & fl & -> & Hc & Hf); [lia |].
  do 3 eexists. split; [done |]. split.
  - split; cbn; [by exists k | exact Hc | by rewrite app_nil_r | | done | nia | lia].
    unfold slots_from. rewrite length_fmap, length_seq. lia.
  - cbn. split_and!; try lia; try done.
    intros x Hx. apply Hf. intros (i & Hi & ->)%elem_of_slots_from. apply Hx. nia.
Qed.

(** ** The array of slabs *)

(** The invariant of one entry of the array. *)
Definition entry_inv (m : nodes) (o : option Slab) (la : list Z * list Z) : Prop :=
  match o with
  | Some s => slab_inv m s la.1 la.2
  | None => la = ([], [])
  end.

(** The regions of two entries do not meet. *)
Definition entry_apart (o o' : option Slab) : Prop :=
  match o, o' with
  | Some s, Some s' => slab_end s ≤ slab_start s' ∨ slab_end s' ≤ slab_start s
  | _, _ => True
  end.

(** [o'] is [o] up to its free list. *)
Definition same_region (o o' : option Slab) : Prop :=
  match o, o' with
  | Some s, Some s' =>
      slot_size s' = slot_size s ∧ slab_start s' = slab_start s ∧ slab_end s' = slab_end s
  | None, None => True
  | _, _ => False
  end.

Definition entries_inv (m : nodes) (os : list (option Slab)) (las : list (list Z * list Z)) : Prop :=
  Forall2 (entry_inv m) os las ∧ pairwise entry_apart os.

(** The slots handed out, with their sizes. *)
Definition entry_taken (o : option Slab) (la : list Z * list Z) : list (Z * Z) :=
  match o with Some s => (λ p, (p, slot_size s)) <$> la.2 | None => [] end.

Definition taken (os : list (option Slab)) (las : list (list Z * list Z)) : list (Z * Z) :=
  concat (zip_with entry_taken os las).

(** Two areas, each an address and a length, do not meet. *)
Definition area_apart (a b : Z * Z) : Prop := a.1 + a.2 ≤ b.1 ∨ b.1 + b.2 ≤ a.1.

Global Instance area_apart_sym : Symmetric area_apart.
Proof. intros a b. unfold area_apart. tauto. Qed.

Lemma same_region_refl o : same_region o o.
Proof. by destruct o. Qed.

Lemma same_region_all os : Forall2 same_region os os.
Proof. induction os; constructor; auto using same_region_refl. Qed.

Lemma entry_apart_same o o' r :
  same_region o o' → entry_apart o r → entry_apart o' r.
Proof. destruct o, o', r; cbn; intuition lia. Qed.

Lemma entry_apart_same_r o r r' :
  same_region r r' → entry_apart o r → entry_apart o r'.
Proof. destruct o, r, r'; cbn; intuition lia. Qed.

Lemma entries_inv_cons m o os la las :
  entries_inv m (o :: os) (la :: las) ↔
  entry_inv m o la ∧ Forall (entry_apart o) os ∧ entries_inv m os las.
Proof.
  unfold entries_inv. rewrite Forall2_cons. split.
  - intros ((? & ?) & [? ?]%StronglySorted_inv). auto.
  - intros (? & ? & ? & ?). split; [done |]. by constructor.
Qed.

Lemma apart_same_all o os os' :
  Forall2 same_region os os' → Forall (entry_apart o) os → Forall (entry_apart o) os'.
Proof.
  intros Hs. induction Hs; [done |]. rewrite !Forall_cons. intros [? ?].
  split; [by eapply entry_apart_same_r | auto].
Qed.

(** An area handed out lies in the region of its slab and is aligned to its length. *)
Lemma taken_in m os las p n :
  entries_inv m os las → (p, n) ∈ taken os las →
  ∃ s, Some s ∈ os ∧ n = slot_size s ∧ slab_start s ≤ p ∧ p + n ≤ slab_end s ∧ p mod n = 0.
Proof.
  revert las. induction os as [|o os IH]; intros [|la las]; try (intros [H _]; by inv H).
  - intros _. unfold taken. set_solver.
  - intros (Ho & _ & Hos)%entries_inv_cons. unfold taken. cbn [zip_with concat].
    intros [Hin|Hin]%elem_of_app.
    + destruct o as [s|]; cbn in Hin; [| set_solver].
      apply list_elem_of_fmap in Hin as (q & [= -> ->] & Hq).
      destruct (slab_slot Ho q) as (? & ? & _ & ?); [set_solver |].
      exists s. split_and!; try done. by left.
    + destruct (IH las Hos Hin) as (s & ? & ?). exists s. split; [by right | done].
Qed.

Lemma taken_apart m os las : entries_inv m os las → pairwise area_apart (taken os las).
Proof.
  revert las. induction os as [|o os IH]; intros [|la las]; try (intros [H _]; by inv H).
  - intros _. constructor.
  - intros (Ho & Hap & Hos)%entries_inv_cons. unfold taken. cbn [zip_with concat].
    apply pairwise_app. split_and!; [| by apply (IH las) |].
    + destruct o as [s|]; cbn; [| constructor]. pose proof (slot_size_pos Ho) as Hs.
      pose proof (slab_nodup Ho) as Hnd. apply NoDup_app in Hnd as (_ & _ & Hnd).
      assert (∀ p, p ∈ la.2 → (p - slab_start s) mod slot_size s = 0) as Hm.
      { intros p Hp. destruct (slab_slot Ho p) as (_ & _ & ? & _); set_solver. }
      clear -Hnd Hm Hs. induction (la.2) as [|p A IH]; cbn; constructor.
      * apply NoDup_cons in Hnd as [_ Hnd]. apply IH; set_solver.
      * apply NoDup_cons in Hnd as [Hp Hnd]. apply Forall_fmap, Forall_forall.
        intros q Hq. cbn. assert (p ≠ q) as Hne by set_solver.
        pose proof (Hm p ltac:(set_solver)) as Hmp. pose proof (Hm q ltac:(set_solver)) as Hmq.
        apply Z.mod_divide in Hmp as [c Hc]; [| lia]. apply Z.mod_divide in Hmq as [d Hd]; [| lia].
        unfold area_apart. cbn. destruct (Z.lt_trichotomy c d) as [?|[->|?]]; [left | lia | right]; nia.
    + intros [p n] [q k] Hp Hq. destruct o as [s|]; cbn in Hp; [| set_solver].
      apply list_elem_of_fmap in Hp as (p' & [= -> ->] & Hp).
      destruct (slab_slot Ho p') as (? & ? & _ & _); [set_solver |].
      destruct (taken_in m os las q k Hos Hq) as (s' & Hin & -> & ? & ? & _).
      rewrite Forall_forall in Hap. specialize (Hap _ Hin). unfold area_apart. cbn in *. lia.
Qed.

(** The slab that serves requests of [size] bytes. *)
Fixpoint first_fit (os : list (option Slab)) (size : Z) : option Slab :=
  match os with
  | [] => None
  | Some s :: os => if size <=? slot_size s then Some s else first_fit os size
  | None :: os => first_fit os size
  end.

Lemma allocate_loop_ok m os las size :
  entries_inv m os las →
  ∃ os' r, SlabAllocator.allocate_loop m os size = Ret (os', r) ∧ Forall2 same_region os os' ∧
    match r with
    | Ok p => ∃ las' s, first_fit os size = Some s ∧ Slab.is_full s = false ∧
        entries_inv m os' las' ∧ taken os' las' ≡ₚ (p, slot_size s) :: taken os las
    | Err e => e = OutOfMemory ∧ os' = os ∧
        (∀ s, first_fit os size = Some s → Slab.is_full s = true)
    end.
Proof.
  revert las. induction os as [|o os IH]; intros [|la las]; try (intros [H _]; by inv H).
  { intros _. do 2 eexists. split; [done |]. done. }
  intros (Ho & Hap & Hos)%entries_inv_cons. cbn [SlabAllocator.allocate_loop first_fit].
  assert ((match o with Some s => (size <=? slot_size s) = false | None => True end) →
    ∃ os' r, ('(rest, r) ← SlabAllocator.allocate_loop m os size; mret (o :: rest, r)) = Ret (os', r) ∧
    Forall2 same_region (o :: os) os' ∧
    match r with
    | Ok p => ∃ las' s, first_fit os size = Some s ∧ Slab.is_full s = false ∧
        entries_inv m os' las' ∧ taken os' las' ≡ₚ (p, slot_size s) :: taken (o :: os) (la :: las)
    | Err e => e = OutOfMemory ∧ os' = o :: os ∧
        (∀ s, first_fit os size = Some s → Slab.is_full s = true)
    end) as Hskip.
  { intros _. destruct (IH las Hos) as (os' & r & -> & Hs & Hr). cbn [mbind out_bind].
    exists (o :: os'), r. split; [done |]. split; [constructor; auto using same_region_refl |].
    destruct r as [p|e].
    - destruct Hr as (las' & s & Hf & Hfull & Hi & Ht). exists (la :: las'), s.
      split_and!; [done | done | |].
      + apply entries_inv_cons. split_and!; [done | by eapply apart_same_all | done].
      + unfold taken in *. cbn [zip_with concat]. rewrite Ht. by rewrite Permutation_middle.
    - destruct Hr as (-> & -> & ?). done. }
  destruct o as [s|]; [| by apply Hskip].
  destruct (size <=? slot_size s) eqn:Hsz; [| by apply Hskip]. clear Hskip.
  destruct la as [l A]. pose proof (slab_allocate_ok Ho) as Ha. cbn in Ho, Ha.
  pose proof (si_count _ _ _ _ Ho) as Hcnt. cbn in Hcnt. destruct l as [|p l].
  - rewrite Ha. cbn [mbind out_bind]. do 2 eexists. split; [done |].
    split; [apply same_region_all |]. split_and!; [done | done |].
    intros s' [= <-]. unfold Slab.is_full. by rewrite Hcnt.
  - destruct Ha as (s' & -> & Hi & E1 & E2 & E3). cbn [mbind out_bind].
    do 2 eexists. split; [done |]. split; [constructor; [done | apply same_region_all] |].
    exists ((l, p :: A) :: las), s. split_and!; [done | | |].
    + unfold Slab.is_full. apply Z.eqb_neq. cbn in Hcnt. lia.
    + apply entries_inv_cons. split_and!; [done | | done].
      eapply Forall_impl; [exact Hap |]. intros r. by apply (entry_apart_same (Some s)).
    + unfold taken. cbn. by rewrite E1.
Qed.

(** The entries do not depend on memory outside of their regions. *)
Lemma entry_inv_frame m m' o la :
  (∀ s x, o = Some s → slab_start s ≤ x < slab_end s → m' !! x = m !! x) →
  entry_inv m o la → entry_inv m' o la.
Proof.
  intros Hm. destruct o as [s|]; [| done]. intros Hi. cbn in Hi. split; try apply Hi.
  eapply chain_frame; [| apply Hi]. intros p Hp. apply (Hm s); [done |].
  destruct (slab_slot Hi p) as (? & ? & _); [set_solver |]. pose proof (slot_size_pos Hi). lia.
Qed.

Lemma entries_inv_frame m m' os las :
  (∀ s x, Some s ∈ os → slab_start s ≤ x < slab_end s → m' !! x = m !! x) →
  entries_inv m os las → entries_inv m' os las.
Proof.
  intros Hm [Hf Hp]. split; [| done]. clear Hp. induction Hf as [|o la os las Ho _ IH]; constructor.
  - eapply entry_inv_frame; [| exact Ho]. intros s x ->. apply Hm. by left.
  - apply IH. intros s x Hs. apply Hm. by right.
Qed.

(** An area handed out by a later entry is not in the region of an earlier one. *)
Lemma taken_not_contains m o os las p n s :
  Forall (entry_apart o) os → entries_inv m os las → (p, n) ∈ taken os las → o = Some s →
  Slab.contains s p = false.
Proof.
  intros Hap Hos Hin ->. destruct (taken_in m os las p n Hos Hin) as (s1 & Hs1 & Hn & ? & ? & _).
  destruct Hos as [Hf _]. apply list_elem_of_lookup in Hs1 as [i Hi].
  destruct (Forall2_lookup_l _ _ _ _ _ Hf Hi) as (la & _ & Hl). pose proof (slot_size_pos Hl).
  pose proof (Forall_lookup_1 _ _ _ _ Hap Hi) as Ha. cbn in Ha.
  unfold Slab.contains. apply andb_false_iff.
  destruct (Z.leb_spec (slab_start s) p); [right | by left]. apply Z.ltb_ge. lia.
Qed.

(** The first entry takes its slot back. *)
Lemma deallocate_here m s os l A las p T :
  entries_inv m (Some s :: os) ((l, A) :: las) → p ∈ A →
  taken (Some s :: os) ((l, A) :: las) ≡ₚ (p, slot_size s) :: T →
  ∃ m' os' las', SlabAllocator.deallocate_loop m (Some s :: os) p = Ret (m', os', Ok tt) ∧
    Forall2 same_region (Some s :: os) os' ∧ entries_inv m' os' las' ∧ taken os' las' ≡ₚ T ∧
    ∃ v, m' = <[p := v]> m.
Proof.
  intros (Ho & Hap & Hos)%entries_inv_cons Hq Ht. cbn in Ho.
  destruct (slab_slot Ho p) as (H1 & H2 & _); [set_solver |]. pose proof (slot_size_pos Ho).
  apply elem_of_Permutation in Hq as [A' HA].
  destruct (slab_deallocate_ok Ho p A' HA) as (s' & m' & Hd & Em & Hi & E1 & E2 & E3).
  cbn [SlabAllocator.deallocate_loop]. unfold Slab.contains.
  rewrite (proj2 (Z.leb_le _ _)), (proj2 (Z.ltb_lt _ _)) by lia. cbn [andb].
  rewrite Hd. cbn [mbind out_bind]. exists m', (Some s' :: os), ((p :: l, A') :: las).
  split; [done |]. split; [constructor; [done | apply same_region_all] |]. split_and!; [| | eauto].
  - apply entries_inv_cons. split_and!; [done | |].
    + eapply Forall_impl; [exact Hap |]. intros r. by apply (entry_apart_same (Some s)).
    + eapply entries_inv_frame; [| exact Hos]. intros s1 x Hs1 Hx. rewrite Em.
      apply lookup_insert_ne. rewrite Forall_forall in Hap. specialize (Hap _ Hs1). cbn in Hap. lia.
  - unfold taken in *. cbn in *. rewrite HA in Ht. cbn in Ht. rewrite E1.
    by apply (Permutation_cons_inv (a := (p, slot_size s))).
Qed.

Lemma deallocate_loop_ok m os las p n T :
  entries_inv m os las → taken os las ≡ₚ (p, n) :: T →
  ∃ m' os' las', SlabAllocator.deallocate_loop m os p = Ret (m', os', Ok tt) ∧
    Forall2 same_region os os' ∧ entries_inv m' os' las' ∧ taken os' las' ≡ₚ T ∧
    ∃ v, m' = <[p := v]> m.
Proof.
  revert las T. induction os as [|o os IH]; intros [|la las] T; try (intros [H _]; by inv H).
  { intros _ H%Permutation_length. done. }
  intros Hall Ht. pose proof Hall as (Ho & Hap & Hos)%entries_inv_cons.
  assert ((p, n) ∈ taken (o :: os) (la :: las)) as Hin by (rewrite Ht; by left).
  unfold taken in Hin. cbn [zip_with concat] in Hin. apply elem_of_app in Hin as [Hin|Hin].
  { destruct o as [s|]; cbn in Hin; [| set_solver].
    apply list_elem_of_fmap in Hin as (q & [= -> ->] & Hq). destruct la as [l A].
    by apply (deallocate_here m s os l A las q T). }
  pose proof (λ s, taken_not_contains m o os las p n s Hap Hos Hin) as Hnc.
  apply elem_of_Permutation in Hin as [T' HT'].
  destruct (IH las T' Hos HT') as (m' & os' & las' & Hd & Hs & Hi & Ht' & v & Em).
  exists m', (o :: os'), (la :: las'). split.
  { cbn [SlabAllocator.deallocate_loop]. destruct o as [s|]; [rewrite (Hnc s eq_refl) |];
      by rewrite Hd. }
  split; [constructor; auto using same_region_refl |]. split_and!; [| | eauto].
  - apply entries_inv_cons. split_and!; [| by eapply apart_same_all | done].
    eapply entry_inv_frame; [| exact Ho]. intros s x -> Hx. subst m'. apply lookup_insert_ne.
    specialize (Hnc s eq_refl). unfold Slab.contains in Hnc. intros ->.
    rewrite (proj2 (Z.leb_le _ _)), (proj2 (Z.ltb_lt _ _)) in Hnc by lia. done.
  - unfold taken in *. cbn [zip_with concat] in *. rewrite Ht'. rewrite HT' in Ht.
    rewrite <- Permutation_middle in Ht. by apply Permutation_cons_inv in Ht.
Qed.

(** ** Building the array *)

Lemma pairwise_apart_insert os i s :
  pairwise entry_apart os → (∀ s', Some s' ∈ os → slab_end s' ≤ slab_start s) →
  pairwise entry_apart (<[i := Some s]> os).
Proof.
  revert i. induction os as [|o os IH]; intros i; [done |].
  intros [Hp Hf]%StronglySorted_inv Hs. destruct i as [|i]; cbn; constructor.
  - done.
  - apply Forall_forall. intros [s'|] Hin; cbn; [| done]. right. apply Hs. by right.
  - apply IH; [done |]. intros s' Hs'. apply Hs. by right.
  - apply Forall_insert; [done |]. destruct o as [s'|]; cbn; [| done]. left. apply Hs. by left.
Qed.

Lemma entries_inv_insert m os las i s la :
  entries_inv m os las → entry_inv m (Some s) la →
  (∀ s', Some s' ∈ os → slab_end s' ≤ slab_start s) →
  entries_inv m (<[i := Some s]> os) (<[i := la]> las).
Proof.
  intros [Hf Hp] Ho Hs. split; [by apply Forall2_insert | by apply pairwise_apart_insert].
Qed.

(** The regions of the slabs lie between two addresses. *)
Definition regions_in (lo hi : Z) (os : list (option Slab)) : Prop :=
  ∀ s, Some s ∈ os → lo ≤ slab_start s ∧ slab_end s ≤ hi.

Lemma regions_in_insert lo hi hi' os i s :
  regions_in lo hi os → lo ≤ slab_start s → slab_end s ≤ hi' → hi ≤ hi' →
  regions_in lo hi' (<[i := Some s]> os).
Proof.
  intros Hr H1 H2 H3 s' Hin. apply list_elem_of_lookup in Hin as [j Hj].
  apply list_lookup_insert_Some in Hj as [(_ & [= ->] & _)|[_ Hj]]; [done |].
  apply list_elem_of_lookup_2 in Hj. specialize (Hr _ Hj). lia.
Qed.

Definition none_taken (las : list (list Z * list Z)) : Prop := Forall (λ la, la.2 = []) las.

Lemma none_taken_nil os las : none_taken las → taken os las = [].
Proof.
  intros H. revert os. induction H as [|la las Hla _ IH]; intros [|o os]; try done.
  unfold taken in *. cbn [zip_with concat]. rewrite IH, app_nil_r.
  destruct o; cbn; [by rewrite Hla | done].
Qed.

(** What the loop of [new] leaves in the array for the size classes [sizes]
    from index [i] on. *)
Definition classes_at (os : list (option Slab)) (i : nat) (base : Z) (sizes : list Z) : Prop :=
  ∀ j sz, sizes !! j = Some sz → sz * 4 ≤ base →
  ∃ s, os !! (i + j)%nat = Some (Some s) ∧ slot_size s = sz ∧ 3 ≤ capacity s.

Section new.
Context (ptr size : Z) (Hptr : 0 ≤ ptr) (Hsize : 4096 ≤ size) (Hend : ptr + size < 2 ^ 63).
Local Abbreviation base := (size / 7).

(** The slab of one size class. *)
Lemma new_slab_ok m i k :
  3 ≤ k ≤ 9 → (i < 7)%nat → 2 ^ k * 4 ≤ base →
  ∃ m' s l, Slab.new m (2 ^ k) (ptr + Z.of_nat i * base) base = Ret (m', Ok s) ∧
    slab_inv m' s l [] ∧ slot_size s = 2 ^ k ∧ 3 ≤ capacity s ∧
    ptr + Z.of_nat i * base ≤ slab_start s ∧ slab_end s = ptr + Z.of_nat (S i) * base ∧
    slab_end s ≤ ptr + size ∧
    (∀ x, ¬ (ptr + Z.of_nat i * base ≤ x < ptr + Z.of_nat (S i) * base) → m' !! x = m !! x).
Proof.
  intros Hk Hi H4. pose proof (pow2_le 3 k ltac:(lia)).
  pose proof (Z.mul_div_le size 7 ltac:(lia)). pose proof (Z.div_le_mono 4096 size 7).
  assert (Z.of_nat (S i) * base ≤ size) by nia.
  destruct (slab_new_ok m k (ptr + Z.of_nat i * base) base)
    as (m' & s & l & Hn & Hi' & E1 & Hs & He & Hc & Ho & Hf); [lia | nia | lia | nia |].
  exists m', s, l. split; [done |]. split; [done |]. split_and!; [done | | lia | lia | lia |].
  - rewrite Hc. apply Z.div_le_lower_bound; lia.
  - intros x Hx. apply Hf. lia.
Qed.

Lemma new_loop_ok sizes : ∀ i m os las,
  Forall (λ sz, ∃ k, 3 ≤ k ≤ 9 ∧ sz = 2 ^ k) sizes → StronglySorted Z.le sizes →
  (i + length sizes = 7)%nat → length os = MAX_SLABS →
  entries_inv m os las → none_taken las → regions_in ptr (ptr + Z.of_nat i * base) os →
  ∃ m' os' las',
    SlabAllocator.new_loop m ptr size base (ptr + Z.of_nat i * base) os i sizes = Ret (m', Ok os') ∧
    entries_inv m' os' las' ∧ none_taken las' ∧ regions_in ptr (ptr + size) os' ∧
    (∀ x, ¬ (ptr ≤ x < ptr + size) → m' !! x = m !! x) ∧
    (∀ j, (j < i)%nat → os' !! j = os !! j) ∧ classes_at os' i base sizes.
Proof.
  pose proof (Z.mul_div_le size 7 ltac:(lia)) as H7. pose proof (Z.div_pos size 7) as H0.
  assert (∀ i os, (i ≤ 7)%nat → regions_in ptr (ptr + Z.of_nat i * base) os →
            regions_in ptr (ptr + size) os) as Hwide.
  { intros i os Hi Hr s Hs. specialize (Hr s Hs). nia. }
  induction sizes as [|sz sizes IH]; intros i m os las Hsz Hso Hi Hlen Hinv Hnt Hr;
    cbn [length] in Hi; cbn [SlabAllocator.new_loop].
  { exists m, os, las. split_and!; try done. eapply Hwide; [| done]. lia. }
  rewrite (proj2 (Nat.leb_gt _ _)) by (unfold MAX_SLABS; lia).
  apply Forall_cons in Hsz as [(k & Hk & ->) Hsz].
  pose proof Hso as [Hso' Hle]%StronglySorted_inv.
  pose proof (pow2_le k 9 ltac:(lia)). pose proof (pow2_pos k ltac:(lia)).
  replace (ptr + Z.of_nat i * base - ptr) with (Z.of_nat i * base) by lia.
  assert (Z.min base (saturating_sub size (Z.of_nat i * base)) = base) as ->
    by (unfold saturating_sub; nia).
  rewrite mul_w_ok by lia. cbn [mbind out_bind].
  destruct (Z.ltb_spec base (2 ^ k * 4)) as [Hlt|Hge].
  { exists m, os, las. split_and!; try done; [eapply Hwide; [| done]; lia |].
    intros j sz' Hj Hb. exfalso. destruct j as [|j]; cbn in Hj; [simplify_eq; lia |].
    pose proof (Forall_lookup_1 _ _ _ _ Hle Hj) as Hle'. cbn in Hle'. lia. }
  destruct (new_slab_ok m i k) as (m1 & s & l & -> & Hs & E1 & Hc & Hs1 & Hs2 & Hs3 & Hf);
    [lia | lia | lia |]. cbn [mbind out_bind].
  rewrite (proj2 (Z.ltb_lt _ _)) by lia.
  replace (ptr + Z.of_nat i * base + base) with (ptr + Z.of_nat (S i) * base) by lia.
  destruct (IH (S i) m1 (<[i := Some s]> os) (<[i := (l, [])]> las))
    as (m' & os' & las' & -> & Hinv' & Hnt' & Hr' & Hf' & Hpre & Hcl);
    [done | done | lia | by rewrite length_insert | | by apply Forall_insert | |].
  - apply entries_inv_insert; [| done |].
    + eapply entries_inv_frame; [| exact Hinv]. intros s' x Hs' Hx. apply Hf.
      specialize (Hr _ Hs'). lia.
    + intros s' Hs'. specialize (Hr _ Hs'). lia.
  - apply (regions_in_insert _ (ptr + Z.of_nat i * base)); [done | nia | lia | lia].
  - exists m', os', las'. split; [done |]. split_and!; try done.
    + intros x Hx. rewrite Hf' by done. apply Hf. nia.
    + intros j Hj. rewrite Hpre by lia. by rewrite list_lookup_insert_ne by lia.
    + intros [|j] sz' Hj Hb; cbn in Hj.
      * simplify_eq. exists s. rewrite Nat.add_0_r, Hpre by lia.
        rewrite list_lookup_insert_eq by (rewrite Hlen; unfold MAX_SLABS; lia). done.
      * destruct (Hcl j sz' Hj Hb) as (s' & ? & ?). exists s'.
        by rewrite <- Nat.add_succ_comm.
Qed.
End new.

(** ** The public operations *)

(** The allocator is well formed, has its slabs in [[lo, hi)] and has handed
    out the areas [T]. *)
Definition slab_ok (m : nodes) (lo hi : Z) (self : SlabAllocator) (T : list (Z * Z)) : Prop :=
  regions_in lo hi (slabs self) ∧
  ∃ las, entries_inv m (slabs self) las ∧ taken (slabs self) las ≡ₚ T.

Lemma slab_ok_apart m lo hi self T : slab_ok m lo hi self T → pairwise area_apart T.
Proof.
  intros (_ & las & Hi & Ht). eapply (pairwise_perm _ _ _ Ht). by eapply taken_apart.
Qed.

Lemma slab_ok_in m lo hi self T p n :
  slab_ok m lo hi self T → (p, n) ∈ T → lo ≤ p ∧ p + n ≤ hi ∧ 8 ≤ n ∧ p mod n = 0.
Proof.
  intros (Hr & las & Hi & Ht). rewrite <- Ht. intros Hin.
  destruct (taken_in _ _ _ _ _ Hi Hin) as (s & Hs & -> & ? & ? & ?). pose proof (Hr s Hs).
  destruct Hi as [Hf _]. apply list_elem_of_lookup in Hs as [i Hs].
  destruct (Forall2_lookup_l _ _ _ _ _ Hf Hs) as (la & _ & Hl). pose proof (slot_size_pos Hl).
  split_and!; (lia || done).
Qed.

Lemma slab_ok_frame m m' lo hi self T :
  (∀ x, lo ≤ x < hi → m' !! x = m !! x) → slab_ok m lo hi self T → slab_ok m' lo hi self T.
Proof.
  intros Hm (Hr & las & Hi & Ht). split; [done |]. exists las. split; [| done].
  eapply entries_inv_frame; [| exact Hi]. intros s x Hs Hx. apply Hm. specialize (Hr s Hs). lia.
Qed.

Lemma regions_in_same lo hi os os' :
  Forall2 same_region os os' → regions_in lo hi os → regions_in lo hi os'.
Proof.
  intros Hs Hr s Hin. apply list_elem_of_lookup in Hin as [i Hi].
  destruct (Forall2_lookup_r _ _ _ _ _ Hs Hi) as ([s0|] & Ho & Hsame); [| done].
  destruct Hsame as (_ & -> & ->). apply Hr. by eapply list_elem_of_lookup_2.
Qed.

Lemma first_fit_in os size s :
  first_fit os size = Some s → Some s ∈ os ∧ size ≤ slot_size s.
Proof.
  induction os as [|[s'|] os IH]; cbn; [done | | intros H; set_solver].
  destruct (Z.leb_spec size (slot_size s')); [intros [= ->]; set_solver |].
  intros H'. set_solver.
Qed.

Lemma slabs_allocate_ok m lo hi self T layout :
  slab_ok m lo hi self T → wf_layout layout →
  ∃ self' r, SlabAllocator.allocate m self layout = Ret (self', r) ∧
    match r with
    | Ok p => ∃ n, lsize layout ≤ n ∧ p mod lalign layout = 0 ∧
        slab_ok m lo hi self' ((p, n) :: T)
    | Err e => self' = self ∧
        (e = InvalidSize ∧ lsize layout = 0 ∨
         e = OutOfMemory ∧
         ∀ s, first_fit (slabs self) (Z.max (lsize layout) (lalign layout)) = Some s →
              Slab.is_full s = true)
    end.
Proof.
  intros (Hr & las & Hi & Ht) (H0 & (a & Ha & Hal) & _). unfold SlabAllocator.allocate.
  destruct (Z.eqb_spec (lsize layout) 0) as [E|E]; [do 2 eexists; split; [done |]; cbn; auto |].
  destruct (allocate_loop_ok m _ las (Z.max (lsize layout) (lalign layout)) Hi)
    as (os' & r & -> & Hs & Hp). cbn [mbind out_bind]. do 2 eexists. split; [done |].
  destruct r as [p|e].
  - destruct Hp as (las' & s & Hf & _ & Hi' & Ht'). apply first_fit_in in Hf as [Hin Hsz].
    exists (slot_size s).
    assert (slab_ok m lo hi (mkSlabAllocator os') ((p, slot_size s) :: T)) as Hok.
    { split; [by eapply regions_in_same |]. exists las'. by rewrite <- Ht. }
    split_and!; [lia | | done].
    destruct (slab_ok_in _ _ _ _ _ p (slot_size s) Hok) as (_ & _ & _ & Hmod); [by left |].
    destruct Hi as [Hfa _]. apply list_elem_of_lookup in Hin as [i Hin].
    destruct (Forall2_lookup_l _ _ _ _ _ Hfa Hin) as (la & _ & Hl).
    destruct (si_pow2 _ _ _ _ Hl) as (k & Hk & Ek). rewrite Ek, Hal in *.
    assert (a ≤ k) by (apply (Z.pow_le_mono_r_iff 2); lia).
    apply Z.mod_divide; [pose proof (pow2_pos a ltac:(lia)); lia |].
    transitivity (2 ^ k); [apply pow2_divide; lia |].
    apply Z.mod_divide; [pose proof (pow2_pos k ltac:(lia)); lia | done].
  - destruct Hp as (-> & -> & Hfull). split; [by destruct self |]. right. done.
Qed.

Lemma slabs_deallocate_ok m lo hi self T p n :
  slab_ok m lo hi self ((p, n) :: T) →
  ∃ m' self', SlabAllocator.deallocate m self p = Ret (m', self', Ok tt) ∧
    slab_ok m' lo hi self' T ∧ (∀ x, x ≠ p → m' !! x = m !! x).
Proof.
  intros (Hr & las & Hi & Ht).
  destruct (deallocate_loop_ok m _ las p n T Hi Ht) as (m' & os' & las' & Hd & Hs & Hi' & Ht' & v & Em).
  unfold SlabAllocator.deallocate. rewrite Hd. cbn [mbind out_bind]. do 2 eexists.
  split; [done |]. split.
  - split; [by eapply regions_in_same |]. eauto.
  - intros x Hx. subst m'. by apply lookup_insert_ne.
Qed.

(** A pointer to none of the slabs is rejected and changes nothing. *)
Lemma slabs_deallocate_foreign m lo hi self p :
  regions_in lo hi (slabs self) → ¬ (lo ≤ p < hi) →
  SlabAllocator.deallocate m self p = Ret (m, self, Err InvalidPointer).
Proof.
  intros Hr Hp. unfold SlabAllocator.deallocate.
  assert (SlabAllocator.deallocate_loop m (slabs self) p = Ret (m, slabs self, Err InvalidPointer)) as ->;
    [| by destruct self].
  induction (slabs self) as [|o os IH]; [done |]. cbn [SlabAllocator.deallocate_loop].
  rewrite IH by (intros s Hs; apply Hr; by right). destruct o as [s|]; [| done].
  destruct (Hr s) as [? ?]; [by left |]. unfold Slab.contains.
  destruct (Z.leb_spec (slab_start s) p); [| done]. rewrite (proj2 (Z.ltb_ge _ _)) by lia. done.
Qed.

Lemma slabs_new_ok m ptr size :
  0 ≤ ptr → 4096 ≤ size → ptr + size < 2 ^ 63 →
  ∃ m' self, SlabAllocator.new m ptr size = Ret (m', Ok self) ∧
    slab_ok m' ptr (ptr + size) self [] ∧
    classes_at (slabs self) 0 (size / 7) SLAB_SIZES ∧
    (∀ x, ¬ (ptr ≤ x < ptr + size) → m' !! x = m !! x).
Proof.
  intros Hp Hs He. unfold SlabAllocator.new, MIN_HEAP_SIZE. rewrite (proj2 (Z.ltb_ge _ _)) by lia.
  destruct (new_loop_ok ptr size Hp Hs He SLAB_SIZES 0 m (replicate MAX_SLABS None)
              (replicate MAX_SLABS ([], [])))
    as (m' & os & las & Hn & Hi & Hnt & Hr & Hf & _ & Hc).
  - rewrite Forall_forall. intros sz Hsz. unfold SLAB_SIZES in Hsz.
    repeat (apply elem_of_cons in Hsz as [->|Hsz];
      [solve [exists 3; done | exists 4; done | exists 5; done | exists 6; done
             | exists 7; done | exists 8; done | exists 9; done] |]). by apply not_elem_of_nil in Hsz.
  - unfold SLAB_SIZES. repeat constructor; lia.
  - done.
  - done.
  - split; [apply Forall2_replicate; done |]. repeat constructor.
  - by apply Forall_replicate.
  - intros s [? _]%elem_of_replicate. done.
  - rewrite Z.mul_0_l, Z.add_0_r in Hn. cbn [length SLAB_SIZES].
    change (Z.of_nat 7) with 7. rewrite Hn. cbn [mbind out_bind]. do 2 eexists.
    split; [done |]. split_and!; [| done | done]. split; [done |]. exists las.
    split; [done |]. by rewrite none_taken_nil.
Qed.

(** [SlabAllocator::allocate] never panics on a well-formed allocator.  It
    hands out a slot of at least the requested size, at an address that is a
    multiple of the requested alignment, inside the heap and away from every slot
    handed out before.  It fails only for a size of zero or when the first slab
    with large enough slots is full or missing, and then changes nothing. *)
Theorem slab_allocate_spec m lo hi self T layout :
  slab_ok m lo hi self T → wf_layout layout →
  ∃ self' r, SlabAllocator.allocate m self layout = Ret (self', r) ∧
    match r with
    | Ok p => ∃ n, lsize layout ≤ n ∧ p mod lalign layout = 0 ∧ lo ≤ p ∧ p + n ≤ hi ∧
        (∀ b, b ∈ T → area_apart (p, n) b) ∧ slab_ok m lo hi self' ((p, n) :: T)
    | Err e => self' = self ∧
        (e = InvalidSize ∧ lsize layout = 0 ∨
         e = OutOfMemory ∧
         ∀ s, first_fit (slabs self) (Z.max (lsize layout) (lalign layout)) = Some s →
              Slab.is_full s = true)
    end.
Proof.
  intros Hok Hl. destruct (slabs_allocate_ok _ _ _ _ _ _ Hok Hl) as (self' & r & Ha & Hr).
  exists self', r. split; [done |]. destruct r as [p|e]; [| done].
  destruct Hr as (n & Hn & Hm & Hok'). exists n.
  destruct (slab_ok_in _ _ _ _ _ p n Hok') as (? & ? & _); [by left |].
  split_and!; try done. apply slab_ok_apart, StronglySorted_inv in Hok' as [_ Hd].
  by apply Forall_forall.
Qed.

(** Giving back any slot handed out succeeds, whatever the order of the
    requests: the allocator is well formed again without that slot, and no word
    other than the first one of the slot is written. *)
Theorem slab_deallocate_spec m lo hi self T p n :
  slab_ok m lo hi self ((p, n) :: T) →
  ∃ m' self', SlabAllocator.deallocate m self p = Ret (m', self', Ok tt) ∧
    slab_ok m' lo hi self' T ∧ (∀ x, x ≠ p → m' !! x = m !! x).
Proof. apply slabs_deallocate_ok. Qed.

(** On a region of at least 4 KiB, [SlabAllocator::new] builds a well-formed
    allocator with nothing handed out, writes only that region, and builds a slab
    of at least three slots for each size class of which four slots fit in a
    seventh of the region. *)
Theorem slab_new_spec m ptr size :
  0 ≤ ptr → 4096 ≤ size → ptr + size < 2 ^ 63 →
  ∃ m' self, SlabAllocator.new m ptr size = Ret (m', Ok self) ∧
    slab_ok m' ptr (ptr + size) self [] ∧
    classes_at (slabs self) 0 (size / 7) SLAB_SIZES ∧
    (∀ x, ¬ (ptr ≤ x < ptr + size) → m' !! x = m !! x).
Proof. apply slabs_new_ok. Qed.

(** A heap of 4 KiB at address 4096, and the state after [n] requests for 64 bytes. *)
Definition demo_slabs : nodes * SlabAllocator :=
  match SlabAllocator.new ∅ 4096 4096 with
  | Ret (m, Ok self) => (m, self)
  | _ => (∅, mkSlabAllocator [])
  end.

Definition layout64 : Layout := mkLayout 64 8.

Definition after_requests (n : nat) : SlabAllocator :=
  Nat.iter n (λ self, match SlabAllocator.allocate demo_slabs.1 self layout64 with
                      | Ret (self', _) => self'
                      | Panic => self
                      end) demo_slabs.2.

Lemma demo_slabs_ok : slab_ok demo_slabs.1 4096 8192 demo_slabs.2 [].
Proof.
  destruct (slabs_new_ok ∅ 4096 4096) as (m & self & Hn & Hok & _); [lia | lia | lia |].
  unfold demo_slabs. by rewrite Hn.
Qed.

Lemma layout64_wf : wf_layout layout64.
Proof. split; [done |]. split; [by exists 3 | done]. Qed.

Lemma slab_allocate_spec_witness :
  ∃ self', SlabAllocator.allocate demo_slabs.1 demo_slabs.2 layout64 = Ret (self', Ok 5888) ∧
    slab_ok demo_slabs.1 4096 8192 demo_slabs.2 [].
Proof.
  destruct (slab_allocate_spec _ _ _ _ _ layout64 demo_slabs_ok layout64_wf) as (self' & r & Ha & _).
  exists self'. split; [| exact demo_slabs_ok]. rewrite Ha.
  assert (match SlabAllocator.allocate demo_slabs.1 demo_slabs.2 layout64 with
          | Ret (_, r) => r = Ok 5888 | Panic => False end) as Hr by (vm_compute; reflexivity).
  rewrite Ha in Hr. by rewrite Hr.
Defined.

Lemma slab_deallocate_spec_witness :
  ∃ self p n m' self', slab_ok demo_slabs.1 4096 8192 self [(p, n)] ∧
    SlabAllocator.deallocate demo_slabs.1 self p = Ret (m', self', Ok tt) ∧
    slab_ok m' 4096 8192 self' [].
Proof.
  destruct (slabs_allocate_ok _ _ _ _ _ layout64 demo_slabs_ok layout64_wf) as (self & r & Ha & Hr).
  assert (match SlabAllocator.allocate demo_slabs.1 demo_slabs.2 layout64 with
          | Ret (_, r) => r = Ok 5888 | Panic => False end) as E by (vm_compute; reflexivity).
  rewrite Ha in E. subst r. destruct Hr as (n & _ & _ & Hok).
  destruct (slab_deallocate_spec _ _ _ _ _ _ _ Hok) as (m' & self' & Hd & Hok' & _).
  exists self, 5888, n, m', self'. auto.
Defined.

Lemma slab_new_spec_witness :
  ∃ m' self, SlabAllocator.new ∅ 4100 8192 = Ret (m', Ok self) ∧
    slab_ok m' 4100 12292 self [].
Proof.
  destruct (slab_new_spec ∅ 4100 8192) as (m' & self & Hn & Hok & _); [lia | lia | lia |].
  exists m', self. split; [exact Hn | exact Hok].
Defined.

(** [can_allocate] does not predict [allocate]: on a heap of 4 KiB, after
    nine requests for 64 bytes, it promises a tenth one, which fails with
    [OutOfMemory], since only the first slab with large enough slots is tried. *)
Lemma slab_can_allocate_diverges :
  let self := after_requests 9 in
  SlabAllocator.can_allocate self layout64 = true ∧
  SlabAllocator.allocate demo_slabs.1 self layout64 = Ret (self, Err OutOfMemory).
Proof. split; vm_compute; reflexivity. Qed.
