(* ===== verification/Hybrid.v ===== *)
(** * The hybrid heap

    [heaperion/src/hybrid.rs]: a slab allocator on the first quarter of the heap
    and a buddy allocator on the rest.  What the heap needs of its two parts is
    the class [HeapLaws]; the slab and the buddy allocator are instances of it,
    and so is the heap built from them. *)

From S2P Require Import Prelude HeapUtils Buddy Slab.

Definition SLAB_THRESHOLD : Z := 512.

Record HybridAllocator := mkHybrid {
  slab : SlabAllocator;
  buddy : BuddyAllocator;
}.

Module HybridAllocator.

Definition new (m : nodes) (heap_start heap_size : Z)
    : out (nodes * result HybridAllocator HeapError) :=
  let slab_size := heap_size / 4 in
  buddy_size ← sub_w heap_size slab_size;
  let buddy_start := heap_start + slab_size in
  '(m, r) ← SlabAllocator.new m heap_start slab_size;
  match r with
  | Err e => mret (m, Err e)
  | Ok slab =>
      '(m, r) ← BuddyAllocator.new m buddy_start buddy_size;
      match r with
      | Err e => mret (m, Err e)
      | Ok buddy => mret (m, Ok (mkHybrid slab buddy))
      end
  end.

(** The condition under which the slab allocator is tried. *)
Definition small (self : HybridAllocator) (layout : Layout) : bool :=
  (lsize layout <=? SLAB_THRESHOLD) && (lsize layout <=? SlabAllocator.max_size (slab self)).

Definition allocate (m : nodes) (self : HybridAllocator) (layout : Layout)
    : out (nodes * HybridAllocator * result Z HeapError) :=
  if lsize layout =? 0 then mret (m, self, Err InvalidSize)
  else
    '(self, found) ←
      (if small self layout then
         '(slab', r) ← SlabAllocator.allocate m (slab self) layout;
         mret (mkHybrid slab' (buddy self), match r with Ok ptr => Some ptr | Err _ => None end)
       else mret (self, None));
    match found with
    | Some ptr => mret (m, self, Ok ptr)
    | None =>
        '(m, buddy', r) ← BuddyAllocator.allocate m (buddy self) layout;
        mret (m, mkHybrid (slab self) buddy', r)
    end.

Definition deallocate (m : nodes) (self : HybridAllocator) (ptr : Z) (layout : Layout)
    : out (nodes * HybridAllocator * result unit HeapError) :=
  '(m, self, done) ←
    (if small self layout then
       '(m, slab', r) ← SlabAllocator.deallocate m (slab self) ptr;
       mret (m, mkHybrid slab' (buddy self), match r with Ok _ => true | Err _ => false end)
     else mret (m, self, false));
  if (done : bool) then mret (m, self, Ok tt)
  else
    '(m, buddy', r) ← BuddyAllocator.deallocate m (buddy self) ptr layout;
    mret (m, mkHybrid (slab self) buddy', r).

End HybridAllocator.

(** ** What an allocator promises *)

(** A request that is being served: the address and the layout. *)
Abbreviation request := (Z * Layout)%type (only parsing).

Definition in_area (b : request) (x : Z) : Prop := b.1 ≤ x < b.1 + lsize b.2.

Definition req_apart (b c : request) : Prop :=
  b.1 + lsize b.2 ≤ c.1 ∨ c.1 + lsize c.2 ≤ b.1.

Global Instance req_apart_sym : Symmetric req_apart.
Proof. intros b c. unfold req_apart. tauto. Qed.

(** Memory outside of [[lo, hi)] and that of the requests [T] is kept. *)
Definition keeps (lo hi : Z) (T : list request) (m m' : nodes) : Prop :=
  ∀ x, ¬ (lo ≤ x < hi) ∨ (∃ b, b ∈ T ∧ in_area b x) → m' !! x = m !! x.

Class HeapPart (S : Type) := {
  hp_alloc : nodes → S → Layout → out (nodes * S * result Z HeapError);
  hp_free : nodes → S → Z → Layout → out (nodes * S * result unit HeapError);
}.

(** [owns lo hi m s T]: [s] manages the memory [[lo, hi)] and serves [T];
    [placed s l p]: [p] is aligned the way [s] aligns an area of layout [l]. *)
Class HeapLaws (S : Type) `{!HeapPart S} := {
  owns : Z → Z → nodes → S → list request → Prop;
  placed : S → Layout → Z → Prop;
  owns_perm lo hi m s T T' : T ≡ₚ T' → owns lo hi m s T → owns lo hi m s T';
  owns_area lo hi m s T p l : owns lo hi m s T → (p, l) ∈ T → lo ≤ p < hi ∧ p + lsize l ≤ hi;
  owns_apart lo hi m s T : owns lo hi m s T → pairwise req_apart T;
  owns_frame lo hi m m' s T :
    (∀ x, lo ≤ x < hi → m' !! x = m !! x) → owns lo hi m s T → owns lo hi m' s T;
  hp_alloc_ok lo hi m s T l :
    owns lo hi m s T → wf_layout l →
    ∃ m' s' r, hp_alloc m s l = Ret (m', s', r) ∧
      match r with
      | Ok p => placed s l p ∧ owns lo hi m' s' ((p, l) :: T) ∧ keeps lo hi T m m'
      | Err _ => m' = m ∧ s' = s
      end;
  hp_free_ok lo hi m s T p l :
    owns lo hi m s ((p, l) :: T) →
    ∃ m' s', hp_free m s p l = Ret (m', s', Ok tt) ∧
      owns lo hi m' s' T ∧ keeps lo hi T m m';
  hp_free_foreign lo hi m s T p l :
    owns lo hi m s T → ¬ (lo ≤ p < hi) →
    hp_free m s p l = Ret (m, s, Err InvalidPointer);
}.

(** Relating the requests served to the blocks of the allocator. *)
Lemma pairwise_served {B} (R : B → B → Prop) (served : request → B → Prop) T bs :
  Forall2 served T bs →
  (∀ b c r q, served r b → served q c → R b c → req_apart r q) →
  pairwise R bs → pairwise req_apart T.
Proof.
  intros Hf HR. induction Hf as [|r b T bs Hr Hf IH]; [constructor |].
  intros [Hp Ha]%StronglySorted_inv. constructor; [auto |].
  clear IH Hp. induction Hf as [|q c T bs Hq _ IH]; constructor.
  - apply Forall_cons in Ha as [Ha _]. by eapply HR.
  - apply Forall_cons in Ha as [_ Ha]. auto.
Qed.

Lemma Forall2_Permutation {A B} (R : A → B → Prop) l l' k :
  l ≡ₚ l' → Forall2 R l k → ∃ k', k ≡ₚ k' ∧ Forall2 R l' k'.
Proof.
  intros Hp. revert k. induction Hp as [|x l l' _ IH|x y l|l1 l2 l3 _ IH1 _ IH2]; intros k Hf.
  - exists k. done.
  - apply Forall2_cons_inv_l in Hf as (y & k0 & Hx & Hf & ->).
    destruct (IH k0 Hf) as (k' & Hk & Hf'). exists (y :: k'). split; [by constructor | by constructor].
  - apply Forall2_cons_inv_l in Hf as (a & k0 & Ha & Hf & ->).
    apply Forall2_cons_inv_l in Hf as (b & k1 & Hb & Hf & ->).
    exists (b :: a :: k1). split; [constructor | by repeat constructor].
  - destruct (IH1 k Hf) as (k1 & H1 & Hf1). destruct (IH2 k1 Hf1) as (k2 & H2 & Hf2).
    exists k2. split; [by etrans | done].
Qed.

(** ** The slab allocator as a part *)

Definition slab_served (r : request) (a : Z * Z) : Prop := a.1 = r.1 ∧ lsize r.2 ≤ a.2.

Definition slab_owns (lo hi : Z) (m : nodes) (s : SlabAllocator) (T : list request) : Prop :=
  ∃ as_, Forall2 slab_served T as_ ∧ slab_ok m lo hi s as_.

Global Instance slab_part : HeapPart SlabAllocator := {
  hp_alloc m s l := '(s, r) ← SlabAllocator.allocate m s l; mret (m, s, r);
  hp_free m s p _ := SlabAllocator.deallocate m s p;
}.

Lemma slab_ok_perm m lo hi s T T' : T ≡ₚ T' → slab_ok m lo hi s T → slab_ok m lo hi s T'.
Proof. intros Hp (Hr & las & Hi & Ht). split; [done |]. exists las. by rewrite Ht. Qed.

Lemma slab_owns_keeps lo hi m s T p l m' :
  slab_owns lo hi m s ((p, l) :: T) → (∀ x, x ≠ p → m' !! x = m !! x) → keeps lo hi T m m'.
Proof.
  intros (as_ & Hf & Hok) Hm x Hx. apply Hm. intros ->.
  apply Forall2_cons_inv_l in Hf as ([p' n] & as' & [Ep Hn] & Hf & ->). cbn in Ep, Hn. subst p'.
  destruct (slab_ok_in _ _ _ _ _ p n Hok) as (? & ? & ? & _); [by left |].
  destruct Hx as [Hx|([q k] & Hq & Hx)]; [lia |].
  apply list_elem_of_lookup in Hq as [i Hq].
  destruct (Forall2_lookup_l _ _ _ _ _ Hf Hq) as ([q' n'] & Hi & Eq & Hn'). cbn in *. subst q'.
  apply slab_ok_apart, StronglySorted_inv in Hok as [_ Hd].
  pose proof (Forall_lookup_1 _ _ _ _ Hd Hi) as Ha. unfold area_apart, in_area in *. cbn in *. lia.
Qed.

Global Program Instance slab_laws : HeapLaws SlabAllocator := {
  owns := slab_owns;
  placed _ l p := p mod lalign l = 0;
}.
Next Obligation.
  intros lo hi m s T T' Hp (as_ & Hf & Hok).
  destruct (Forall2_Permutation _ _ _ _ Hp Hf) as (as' & Hp' & Hf').
  exists as'. split; [done |]. by eapply slab_ok_perm.
Qed.
Next Obligation.
  intros lo hi m s T p l (as_ & Hf & Hok) Hin. apply list_elem_of_lookup in Hin as [i Hi].
  destruct (Forall2_lookup_l _ _ _ _ _ Hf Hi) as ([q n] & Hq & E & Hn). cbn in *. subst q.
  destruct (slab_ok_in _ _ _ _ _ p n Hok) as (? & ? & ? & _); [by eapply list_elem_of_lookup_2 |]. lia.
Qed.
Next Obligation.
  intros lo hi m s T (as_ & Hf & Hok). eapply pairwise_served; [exact Hf | | by eapply slab_ok_apart].
  intros [b n] [c k] [r l] [q l'] [? ?] [? ?] Ha. unfold area_apart, req_apart in *. cbn in *. lia.
Qed.
Next Obligation. intros lo hi m m' s T Hm (as_ & Hf & Hok). exists as_. eauto using slab_ok_frame. Qed.
Next Obligation.
  intros lo hi m s T l (as_ & Hf & Hok) Hl. cbn.
  destruct (slabs_allocate_ok m lo hi s as_ l Hok Hl) as (s' & r & -> & Hr). cbn [mbind out_bind].
  exists m, s', r. split; [done |]. destruct r as [p|e]; [| by destruct Hr].
  destruct Hr as (n & Hn & Hal & Hok'). split_and!; [done | | done].
  exists ((p, n) :: as_). by split; [constructor |].
Qed.
Next Obligation.
  intros lo hi m s T p l Hown. pose proof Hown as (as_ & Hf & Hok). cbn.
  apply Forall2_cons_inv_l in Hf as ([p' n] & as' & [Ep Hn] & Hf & ->). cbn in Ep, Hn. subst p'.
  destruct (slabs_deallocate_ok m lo hi s as' p n Hok) as (m' & s' & -> & Hok' & Hm).
  exists m', s'. split_and!; [done | by exists as' | by eapply slab_owns_keeps].
Qed.
Next Obligation.
  intros lo hi m s T p l (as_ & _ & Hr & _) Hp. cbn. by eapply slabs_deallocate_foreign.
Qed.

(** ** The buddy allocator as a part *)

Definition buddy_served (r : request) (b : blk) : Prop :=
  b.1 = r.1 ∧ BuddyAllocator.layout_order r.2 = Ret b.2 ∧ lsize r.2 ≤ order_to_size b.2.

Definition buddy_owns (lo hi : Z) (m : nodes) (s : BuddyAllocator) (T : list request) : Prop :=
  lo ≤ heap_start s ∧ heap_start s + heap_size s ≤ hi ∧
  ∃ A, Forall2 buddy_served T A ∧ buddy_ok m s A.

Global Instance buddy_part : HeapPart BuddyAllocator := {
  hp_alloc := BuddyAllocator.allocate;
  hp_free := BuddyAllocator.deallocate;
}.

Lemma buddy_keeps lo hi s T A m m' :
  lo ≤ heap_start s → heap_start s + heap_size s ≤ hi →
  Forall2 buddy_served T A → untouched s A m m' → keeps lo hi T m m'.
Proof.
  intros Hlo Hhi Hf Hu x [Hx|([q k] & Hq & Hx)]; apply Hu; [left; lia | right].
  apply list_elem_of_lookup in Hq as [i Hq].
  destruct (Forall2_lookup_l _ _ _ _ _ Hf Hq) as ([q' n] & Hi & Eq & _ & Hn). cbn in *. subst q'.
  exists (q, n). split; [by eapply list_elem_of_lookup_2 |].
  unfold in_area in Hx. unfold in_blk, bsize. cbn in *. lia.
Qed.

Global Program Instance buddy_laws : HeapLaws BuddyAllocator := {
  owns := buddy_owns;
  placed s l p := (lalign l | p - heap_start s);
}.
Next Obligation.
  intros lo hi m s T T' Hp (Hlo & Hhi & A & Hf & Hok).
  destruct (Forall2_Permutation _ _ _ _ Hp Hf) as (A' & Hp' & Hf').
  split_and!; [done.. |]. exists A'. split; [done |]. by eapply buddy_ok_perm.
Qed.
Next Obligation.
  intros lo hi m s T p l (Hlo & Hhi & A & Hf & Hok) Hin. apply list_elem_of_lookup in Hin as [i Hi].
  destruct (Forall2_lookup_l _ _ _ _ _ Hf Hi) as ([q n] & Hq & E & _ & Hn). cbn in *. subst q.
  destruct (buddy_ok_in _ _ _ p n Hok) as [? ?]; [by eapply list_elem_of_lookup_2 |]. lia.
Qed.
Next Obligation.
  intros lo hi m s T (_ & _ & A & Hf & Hok).
  eapply pairwise_served; [exact Hf | | by eapply buddy_ok_disj].
  intros [b n] [c k] [r l] [q l'] (? & _ & ?) (? & _ & ?) Ha.
  unfold disj, bsize, req_apart in *. cbn in *. lia.
Qed.
Next Obligation.
  intros lo hi m m' s T Hm (Hlo & Hhi & A & Hf & Hok). split_and!; [done.. |]. exists A.
  split; [done |]. eapply buddy_ok_frame; [| exact Hok]. intros x Hx. apply Hm. lia.
Qed.
Next Obligation.
  intros lo hi m s T l (Hlo & Hhi & A & Hf & Hok) Hl. cbn.
  destruct (allocate_ok m s A l Hok Hl) as (m' & s' & r & k & -> & Hk & Hr).
  exists m', s', r. split; [done |]. destruct r as [p|e]; [| by destruct Hr as (-> & -> & _)].
  destruct Hr as (Hsz & _ & _ & Hal & _ & Hu & (E1 & E2 & _) & Hok').
  split_and!; [done | | by eapply buddy_keeps].
  split_and!; [by rewrite E1 | by rewrite E1, E2 |]. exists ((p, k) :: A). by split; [constructor |].
Qed.
Next Obligation.
  intros lo hi m s T p l (Hlo & Hhi & A & Hf & Hok). cbn.
  apply Forall2_cons_inv_l in Hf as ([p' k] & A' & (Ep & Hk & _) & Hf & ->). cbn in Ep, Hk. subst p'.
  destruct (deallocate_ok m s A' l p k Hk Hok) as (m' & s' & -> & (E1 & E2 & _) & Hu & Hok').
  exists m', s'. split_and!; [done | | by eapply buddy_keeps].
  split_and!; [by rewrite E1 | by rewrite E1, E2 |]. by exists A'.
Qed.
Next Obligation.
  intros lo hi m s T p l (Hlo & Hhi & _) Hp. cbn. apply deallocate_foreign. lia.
Qed.

(** ** The heap *)

Definition hybrid_owns (lo hi : Z) (m : nodes) (h : HybridAllocator) (T : list request) : Prop :=
  ∃ mid TS TB, T ≡ₚ TS ++ TB ∧ lo ≤ mid ≤ hi ∧
    owns lo mid m (slab h) TS ∧ owns mid hi m (buddy h) TB ∧
    Forall (λ r, HybridAllocator.small h r.2 = true) TS.

(** A request is aligned as one of the two parts aligns it. *)
Definition hybrid_placed (h : HybridAllocator) (l : Layout) (p : Z) : Prop :=
  placed (slab h) l p ∨ placed (buddy h) l p.

Global Instance hybrid_part : HeapPart HybridAllocator := {
  hp_alloc := HybridAllocator.allocate;
  hp_free := HybridAllocator.deallocate;
}.

Lemma keeps_low lo mid hi m m' (s : SlabAllocator) (b : BuddyAllocator) TS TB :
  lo ≤ mid ≤ hi → owns mid hi m b TB → keeps lo mid TS m m' →
  keeps lo hi (TS ++ TB) m m' ∧ owns mid hi m' b TB.
Proof.
  intros Hmid Hb Hk. split.
  - intros x [Hx|([q l] & Hq & Hx)]; apply Hk; [left; lia |].
    apply elem_of_app in Hq as [Hq|Hq]; [right; eauto | left].
    pose proof (owns_area _ _ _ _ _ _ _ Hb Hq). unfold in_area in Hx. cbn in Hx. lia.
  - eapply owns_frame; [| exact Hb]. intros x Hx. apply Hk. left. lia.
Qed.

Lemma keeps_high lo mid hi m m' (s : SlabAllocator) TS TB :
  lo ≤ mid ≤ hi → owns lo mid m s TS → keeps mid hi TB m m' →
  keeps lo hi (TS ++ TB) m m' ∧ owns lo mid m' s TS.
Proof.
  intros Hmid Hs Hk. split.
  - intros x [Hx|([q l] & Hq & Hx)]; apply Hk; [left; lia |].
    apply elem_of_app in Hq as [Hq|Hq]; [left | right; eauto].
    pose proof (owns_area _ _ _ _ _ _ _ Hs Hq). unfold in_area in Hx. cbn in Hx. lia.
  - eapply owns_frame; [| exact Hs]. intros x Hx. apply Hk. left. lia.
Qed.

Lemma keeps_perm lo hi T T' m m' : T ≡ₚ T' → keeps lo hi T m m' → keeps lo hi T' m m'.
Proof.
  intros Hp Hk x Hx. apply Hk. destruct Hx as [Hx|(b & Hb & Hx)]; [by left | right].
  exists b. by rewrite Hp.
Qed.

(** The request that the slabs do not serve goes to the buddy allocator. *)
Lemma allocate_buddy lo hi m h T layout :
  hybrid_owns lo hi m h T → wf_layout layout →
  ∃ m' b' r, BuddyAllocator.allocate m (buddy h) layout = Ret (m', b', r) ∧
    match r with
    | Ok p => hybrid_placed h layout p ∧
        hybrid_owns lo hi m' (mkHybrid (slab h) b') ((p, layout) :: T) ∧ keeps lo hi T m m'
    | Err _ => m' = m ∧ mkHybrid (slab h) b' = h
    end.
Proof.
  intros (mid & TS & TB & HT & Hmid & Hs & Hb & Hsm) Hl.
  destruct (hp_alloc_ok mid hi m (buddy h) TB layout Hb Hl) as (m' & b' & r & Ha & Hr).
  cbn in Ha. exists m', b', r. split; [done |].
  destruct r as [p|e]; [| destruct Hr as [-> ->]; by destruct h].
  destruct Hr as (Hpl & Hb' & Hk). destruct (keeps_high lo mid hi _ _ _ TS TB Hmid Hs Hk) as [Hk' Hs'].
  split_and!; [by right | | by eapply keeps_perm].
  exists mid, TS, ((p, layout) :: TB). split_and!; try done; [| lia | lia].
  rewrite HT. apply Permutation_middle.
Qed.

Lemma hybrid_allocate_ok lo hi m h T layout :
  hybrid_owns lo hi m h T → wf_layout layout →
  ∃ m' h' r, HybridAllocator.allocate m h layout = Ret (m', h', r) ∧
    match r with
    | Ok p => hybrid_placed h layout p ∧ hybrid_owns lo hi m' h' ((p, layout) :: T) ∧
              keeps lo hi T m m'
    | Err _ => m' = m ∧ h' = h
    end.
Proof.
  intros Hown Hl. unfold HybridAllocator.allocate.
  destruct (Z.eqb_spec (lsize layout) 0) as [E|E]; [by do 3 eexists |].
  destruct (HybridAllocator.small h layout) eqn:Hsmall; cbn [mbind out_bind mret out_ret].
  2: { destruct (allocate_buddy lo hi m h T layout Hown Hl) as (m' & b' & r & -> & Hr).
       by do 3 eexists. }
  pose proof Hown as (mid & TS & TB & HT & Hmid & Hs & Hb & Hsm).
  destruct (hp_alloc_ok lo mid m (slab h) TS layout Hs Hl) as (m' & s' & r & Ha & Hr). cbn in Ha.
  destruct (SlabAllocator.allocate m (slab h) layout) as [[s1 r1]|] eqn:Hsa; [| done].
  cbn in Ha. injection Ha as -> -> ->. cbn [mbind out_bind].
  destruct r as [p|e].
  - destruct Hr as (Hpl & Hs' & Hk).
    destruct (keeps_low lo mid hi _ _ (slab h) (buddy h) TS TB Hmid Hb Hk) as [Hk' Hb'].
    do 3 eexists. split; [done |]. split_and!; [by left | | by eapply keeps_perm].
    exists mid, ((p, layout) :: TS), TB. split_and!; try done; [by rewrite HT | lia | lia |].
    constructor; [done |]. eapply Forall_impl; [exact Hsm |]. done.
  - destruct Hr as [_ ->]. cbn [mbind out_bind].
    assert (mkHybrid (slab h) (buddy h) = h) as -> by (by destruct h). cbn [mbind out_bind mret out_ret].
    destruct (allocate_buddy lo hi m' h T layout Hown Hl) as (m2 & b' & r & -> & Hr).
    by do 3 eexists.
Qed.

Lemma hybrid_deallocate_ok lo hi m h T p layout :
  hybrid_owns lo hi m h ((p, layout) :: T) →
  ∃ m' h', HybridAllocator.deallocate m h p layout = Ret (m', h', Ok tt) ∧
    hybrid_owns lo hi m' h' T ∧ keeps lo hi T m m'.
Proof.
  intros (mid & TS & TB & HT & Hmid & Hs & Hb & Hsm). unfold HybridAllocator.deallocate.
  assert ((p, layout) ∈ TS ++ TB) as Hin by (rewrite <- HT; by left).
  apply elem_of_app in Hin as [Hin|Hin].
  - rewrite Forall_forall in Hsm. rewrite (Hsm _ Hin : HybridAllocator.small h layout = true).
    apply elem_of_Permutation in Hin as [TS' HTS].
    apply (owns_perm _ _ _ _ _ _ HTS) in Hs.
    destruct (hp_free_ok lo mid m (slab h) TS' p layout Hs) as (m' & s' & Hd & Hs' & Hk).
    cbn in Hd. rewrite Hd. cbn [mbind out_bind mret out_ret].
    destruct (keeps_low lo mid hi _ _ (slab h) (buddy h) TS' TB Hmid Hb Hk) as [Hk' Hb'].
    assert (T ≡ₚ TS' ++ TB) as HT'
      by (apply (Permutation_cons_inv (a := (p, layout))); rewrite HT, HTS; done).
    do 2 eexists. split; [done |]. split; [| eapply keeps_perm; [symmetry; exact HT' | done]].
    exists mid, TS', TB. split_and!; try done; [lia | lia |].
    apply Forall_forall. intros r Hr. apply Hsm. rewrite HTS. by right.
  - apply elem_of_Permutation in Hin as [TB' HTB]. apply (owns_perm _ _ _ _ _ _ HTB) in Hb.
    assert (¬ (lo ≤ p < mid)) as Hout.
    { destruct (owns_area _ _ _ _ _ p layout Hb) as [? _]; [by left | lia]. }
    pose proof (hp_free_foreign lo mid m (slab h) TS p layout Hs Hout) as Hfor. cbn in Hfor.
    destruct (hp_free_ok mid hi m (buddy h) TB' p layout Hb) as (m' & b' & Hd & Hb' & Hk).
    cbn in Hd.
    destruct (keeps_high lo mid hi _ _ (slab h) TS TB' Hmid Hs Hk) as [Hk' Hs'].
    assert (T ≡ₚ TS ++ TB') as HT'.
    { apply (Permutation_cons_inv (a := (p, layout))). rewrite HT, HTB.
      symmetry. apply Permutation_middle. }
    exists m', (mkHybrid (slab h) b'). split_and!.
    + destruct (HybridAllocator.small h layout); [rewrite Hfor |]; cbn; rewrite Hd; done.
    + exists mid, TS, TB'. split_and!; try done; lia.
    + eapply keeps_perm; [symmetry; exact HT' | done].
Qed.

(** The heap keeps the promises of its parts. *)
Global Program Instance hybrid_laws : HeapLaws HybridAllocator := {
  owns := hybrid_owns;
  placed := hybrid_placed;
}.
Next Obligation.
  intros lo hi m s T T' Hp (mid & TS & TB & HT & H). exists mid, TS, TB. by rewrite <- Hp.
Qed.
Next Obligation.
  intros lo hi m s T p l (mid & TS & TB & HT & Hmid & Hs & Hb & _). rewrite HT.
  intros [Hin|Hin]%elem_of_app; [pose proof (owns_area _ _ _ _ _ _ _ Hs Hin)
                                | pose proof (owns_area _ _ _ _ _ _ _ Hb Hin)]; lia.
Qed.
Next Obligation.
  intros lo hi m s T (mid & TS & TB & HT & Hmid & Hs & Hb & _).
  symmetry in HT. eapply (pairwise_perm _ _ _ HT). apply pairwise_app. split_and!;
    [exact (owns_apart _ _ _ _ _ Hs) | exact (owns_apart _ _ _ _ _ Hb) |].
  intros [p l] [q k] Hp Hq. pose proof (owns_area _ _ _ _ _ _ _ Hs Hp).
  pose proof (owns_area _ _ _ _ _ _ _ Hb Hq). left. cbn. lia.
Qed.
Next Obligation.
  intros lo hi m m' s T Hm (mid & TS & TB & HT & Hmid & Hs & Hb & Hsm).
  exists mid, TS, TB. split_and!; try done; try lia; (eapply owns_frame; [| eassumption]);
    intros x Hx; apply Hm; lia.
Qed.
Next Obligation. exact hybrid_allocate_ok. Qed.
Next Obligation. exact hybrid_deallocate_ok. Qed.
Next Obligation.
  intros lo hi m h T p l (mid & TS & TB & _ & Hmid & Hs & Hb & _) Hp. cbn.
  assert (¬ (lo ≤ p < mid)) as H1 by lia. assert (¬ (mid ≤ p < hi)) as H2 by lia.
  pose proof (hp_free_foreign _ _ _ _ _ p l Hs H1) as Hfs.
  pose proof (hp_free_foreign _ _ _ _ _ p l Hb H2) as Hfb. cbn in Hfs, Hfb.
  unfold HybridAllocator.deallocate.
  destruct (HybridAllocator.small h l); [rewrite Hfs |]; cbn; rewrite Hfb; cbn; by destruct h.
Qed.

Lemma hybrid_new_ok m start size :
  0 ≤ start → 16384 ≤ size ≤ 2 ^ 28 → start + size < 2 ^ 63 →
  ∃ m' h, HybridAllocator.new m start size = Ret (m', Ok h) ∧
    hybrid_owns start (start + size) m' h [] ∧
    (∀ x, ¬ (start ≤ x < start + size) → m' !! x = m !! x).
Proof.
  intros Hs Hz He. set (q := size / 4). assert (4096 ≤ q ∧ q * 4 ≤ size) as [Hq Hq4].
  { split; [apply Z.div_le_lower_bound; lia |]. pose proof (Z.mul_div_le size 4). lia. }
  unfold HybridAllocator.new. fold q. rewrite sub_w_ok by lia. cbn [mbind out_bind].
  destruct (slabs_new_ok m start q) as (m1 & s & -> & Hok & _ & Hf1); [lia | lia | lia |].
  cbn [mbind out_bind].
  destruct (round_up_spec (start + q) 16) as (_ & Hr & _); [lia |].
  destruct (new_ok m1 (start + q) (size - q)) as (m2 & b & -> & Hb & E1 & E2 & _ & Hf2);
    [lia | lia | lia | unfold adjusted; lia |].
  unfold adjusted in E2. cbn [mbind out_bind]. do 2 eexists. split; [done |]. split.
  - exists (start + q), [], []. split_and!; try done; [lia | lia | |].
    + exists []. split; [constructor |]. eapply slab_ok_frame; [| exact Hok].
      intros x Hx. apply Hf2. lia.
    + cbn. split_and!; [lia | lia |]. exists []. by split; [constructor |].
  - intros x Hx. rewrite Hf2 by lia. apply Hf1. lia.
Qed.

(** C1: on a well-formed heap that serves the requests [T],
    [HybridAllocator::allocate] never panics.  When it succeeds the new area is
    inside the heap and away from the areas of [T], is aligned as the slabs
    (absolutely) or as the buddy allocator (from the start of its part) align,
    and no memory outside of the heap or of [T] is written; when it fails
    nothing changes. *)
Theorem hybrid_allocate_spec lo hi m h T layout :
  hybrid_owns lo hi m h T → wf_layout layout →
  ∃ m' h' r, HybridAllocator.allocate m h layout = Ret (m', h', r) ∧
    match r with
    | Ok p => lo ≤ p ∧ p + lsize layout ≤ hi ∧ (∀ b, b ∈ T → req_apart (p, layout) b) ∧
        (p mod lalign layout = 0 ∨ (lalign layout | p - heap_start (buddy h))) ∧
        hybrid_owns lo hi m' h' ((p, layout) :: T) ∧ keeps lo hi T m m'
    | Err _ => m' = m ∧ h' = h
    end.
Proof.
  intros Hown Hl. destruct (hybrid_allocate_ok _ _ _ _ _ _ Hown Hl) as (m' & h' & r & Ha & Hr).
  exists m', h', r. split; [done |]. destruct r as [p|e]; [| done].
  destruct Hr as (Hp & Ho & Hk).
  destruct (owns_area (HeapLaws := hybrid_laws) lo hi m' h' ((p, layout) :: T) p layout Ho) as [? ?]; [by left |].
  pose proof (owns_apart (HeapLaws := hybrid_laws) lo hi m' h' _ Ho) as [_ Hd]%StronglySorted_inv.
  split_and!; try done; [lia |]. by apply Forall_forall.
Qed.

(** C2: [HybridAllocator::deallocate] of any request being served, with the
    layout it was made with, finds the part that serves it and succeeds: the heap
    is well formed without the request, and the memory of the other requests is
    kept. *)
Theorem hybrid_deallocate_spec lo hi m h T p layout :
  hybrid_owns lo hi m h ((p, layout) :: T) →
  ∃ m' h', HybridAllocator.deallocate m h p layout = Ret (m', h', Ok tt) ∧
    hybrid_owns lo hi m' h' T ∧ keeps lo hi T m m'.
Proof. apply hybrid_deallocate_ok. Qed.

(** [HybridAllocator::new] succeeds on every region of 16 KiB to 256 MiB: the
    heap is well formed, serves nothing and has written only its region. *)
Theorem hybrid_new_spec m start size :
  0 ≤ start → 16384 ≤ size ≤ 2 ^ 28 → start + size < 2 ^ 63 →
  ∃ m' h, HybridAllocator.new m start size = Ret (m', Ok h) ∧
    hybrid_owns start (start + size) m' h [] ∧
    (∀ x, ¬ (start ≤ x < start + size) → m' !! x = m !! x).
Proof. apply hybrid_new_ok. Qed.

(** A heap of 16 KiB. *)
Definition demo_heap : nodes * HybridAllocator :=
  match HybridAllocator.new ∅ 65536 16384 with
  | Ret (m, Ok h) => (m, h)
  | _ => (∅, mkHybrid (mkSlabAllocator []) demo_buddy)
  end.

Lemma demo_heap_ok : hybrid_owns 65536 81920 demo_heap.1 demo_heap.2 [].
Proof.
  destruct (hybrid_new_ok ∅ 65536 16384) as (m & h & Hn & Hok & _); [lia | lia | lia |].
  unfold demo_heap. by rewrite Hn.
Qed.

Lemma hybrid_allocate_spec_witness :
  ∃ m' h' r, HybridAllocator.allocate demo_heap.1 demo_heap.2 layout64 = Ret (m', h', Ok r) ∧
    65536 ≤ r ∧ r + 64 ≤ 81920.
Proof.
  destruct (hybrid_allocate_spec _ _ _ _ _ layout64 demo_heap_ok layout64_wf)
    as (m' & h' & r & Ha & Hr).
  assert (match HybridAllocator.allocate demo_heap.1 demo_heap.2 layout64 with
          | Ret (_, Ok _) => True | _ => False end) as E by (vm_compute; exact I).
  rewrite Ha in E. destruct r as [p|e]; [| destruct E]. destruct Hr as (H1 & H2 & _).
  exists m', h', p. split; [exact Ha |]. split; [exact H1 | exact H2].
Defined.

Lemma hybrid_deallocate_spec_witness :
  ∃ m h p m' h', hybrid_owns 65536 81920 m h [(p, layout64)] ∧
    HybridAllocator.deallocate m h p layout64 = Ret (m', h', Ok tt) ∧
    hybrid_owns 65536 81920 m' h' [].
Proof.
  destruct (hybrid_allocate_ok _ _ _ _ _ layout64 demo_heap_ok layout64_wf)
    as (m & h & r & Ha & Hr).
  assert (match HybridAllocator.allocate demo_heap.1 demo_heap.2 layout64 with
          | Ret (_, Ok _) => True | _ => False end) as E by (vm_compute; exact I).
  rewrite Ha in E. destruct r as [p|e]; [| destruct E]. destruct Hr as (_ & Ho & _).
  destruct (hybrid_deallocate_spec _ _ _ _ _ _ _ Ho) as (m' & h' & Hd & Ho' & _).
  exists m, h, p, m', h'. split; [exact Ho |]. split; [exact Hd | exact Ho'].
Defined.

Lemma hybrid_new_spec_witness :
  ∃ m' h, HybridAllocator.new ∅ 1000 20000 = Ret (m', Ok h) ∧
    hybrid_owns 1000 21000 m' h [].
Proof.
  destruct (hybrid_new_spec ∅ 1000 20000) as (m' & h & Hn & Ho & _); [lia | lia | lia |].
  exists m', h. split; [exact Hn | exact Ho].
Defined.
