(* ===== verification/PageTable.v ===== *)
(** * Page tables

    [beskar-hal/src/x86_64/paging/page_table.rs]: flags, entries, the recursive
    page table [PageTable] (mapping, unmapping, updating and translating pages of
    the three sizes) and the page table [OffsetPageTable] that reaches the tables
    through an offset.

    Tables live in physical memory; the code reads and writes them at virtual
    addresses.  The translation of these addresses, which the processor does, is
    the class [Mmu]; the frame allocator of the trait [FrameAllocator] is the
    class of that name. *)

From stdpp Require Import functions.
From S2P Require Import Prelude Addrs Paging.

(** The 64-bit words of physical memory, by address. *)
Abbreviation pmem := (Z → Z) (only parsing).

(** The physical address a virtual address stands for, if any. *)
Class Mmu := mmu : pmem → Z → option Z.

Class FrameAllocator (A : Type) := allocate_frame : A → out (option (Frame M4KiB) * A).

Module Flags.

Definition PRESENT : Z := 1.
Definition WRITABLE : Z := Z.shiftl 1 1.
Definition USER_ACCESSIBLE : Z := Z.shiftl 1 2.
Definition WRITE_THROUGH : Z := Z.shiftl 1 3.
Definition CACHE_DISABLED : Z := Z.shiftl 1 4.
Definition ACCESSED : Z := Z.shiftl 1 5.
Definition DIRTY : Z := Z.shiftl 1 6.
Definition HUGE_PAGE : Z := Z.shiftl 1 7.
Definition GLOBAL : Z := Z.shiftl 1 8.
Definition BIT_9 : Z := Z.shiftl 1 9.
Definition NO_EXECUTE : Z := Z.shiftl 1 63.
Definition MMIO_SUITABLE : Z :=
  Z.lor (Z.lor (Z.lor 1 (Z.shiftl 1 1)) (Z.shiftl 1 4)) (Z.shiftl 1 63).
Definition ALL : Z := 0x8000000000000FFF.
Definition EMPTY : Z := 0.
Definition PARENT : Z := Z.lor 1 (Z.shiftl 1 1).

Definition is_empty (self : Z) : bool := self =? 0.
Definition union (self other : Z) : Z := Z.lor self other.
Definition intersection (self other : Z) : Z := Z.land self other.
Definition without (self other : Z) : Z := Z.land self (not_w 64 other).
Definition contains (self other : Z) : bool := is_empty (without other self).

End Flags.

Module Entry.

Definition FLAGS_MASK : Z := Flags.ALL.
Definition FRAME_MASK : Z := 0x000FFFFFFFFFF000.
Definition EMPTY : Z := 0.

Definition flags (self : Z) : Z := Z.land self FLAGS_MASK.
Definition addr (self : Z) : out Z := PhysAddr.new_unchecked (Z.land self FRAME_MASK).
Definition is_null (self : Z) : bool := self =? 0.
Definition is_present (self : Z) : bool := Flags.contains (flags self) Flags.PRESENT.
Definition is_large (self : Z) : bool := Flags.contains (flags self) Flags.HUGE_PAGE.
Definition is_user_accessible (self : Z) : bool :=
  Flags.contains (flags self) Flags.USER_ACCESSIBLE.
Definition is_writable (self : Z) : bool := Flags.contains (flags self) Flags.WRITABLE.

Definition present_addr (self : Z) : out (option Z) :=
  if is_present self then a ← addr self; mret (Some a) else mret None.

(** The new value of the entry. *)
Definition set (addr flags : Z) : out Z :=
  assert_ (Z.land addr (not_w 64 FRAME_MASK) =? 0);;
  mret (Z.lor (Z.land addr FRAME_MASK) flags).
Definition set_flags (self flags : Z) : Z :=
  Z.lor (Z.land self FRAME_MASK) (Z.land flags FLAGS_MASK).
Definition add_flags (self flags : Z) : Z := Z.lor self flags.

Definition next_unchecked (raw : Z) : Z := VirtAddr.new_extend (shl_w 64 raw 9).

End Entry.

(** ** Memory accesses

    A reference to an entry or to a table is its virtual address; an access to
    an address that is not mapped is a page fault, here a panic. *)

Section access.
Context `{Mmu} {A : Type}.

Definition st : Type := pmem * A.

Definition load {E} (va : Z) : eff st E Z := λ '(m, a),
  match mmu m va with
  | Some pa => Ret ((m, a), Ok (m pa))
  | None => Panic
  end.

Definition store {E} (va v : Z) : eff st E unit := λ '(m, a),
  match mmu m va with
  | Some pa => Ret ((<[pa := v]> m, a), Ok tt)
  | None => Panic
  end.

(** [&mut entries[index]]. *)
Definition index {E} (entries i : Z) : eff st E Z :=
  lift (assert_ (i <? 512));; mret (entries + 8 * i).

(** [Entries::clear]: the entries from [i] on are filled with [Entry::EMPTY]. *)
Fixpoint clear_from {E} (n : nat) (entries : Z) (i : Z) : eff st E unit :=
  match n with
  | O => mret tt
  | S n => store (entries + 8 * i) Entry.EMPTY;; clear_from n entries (i + 1)
  end.

Definition clear {E} (entries : Z) : eff st E unit := clear_from 512 entries 0.

(** [Entry::next] and [Entry::next_mut], for the entry at address [self]. *)
Definition next {F} (self : Z) : eff st (MappingError F) Z :=
  e ← load self;
  if Entry.is_present e && negb (Entry.is_large e) then mret (Entry.next_unchecked self)
  else if Entry.is_present e && Entry.is_large e then throw UnexpectedLargePage
  else throw NotMapped.

(** [allocator.allocate_frame().ok_or(FrameAllocationFailed)?] *)
Definition new_frame `{FrameAllocator A} {F} : eff st (MappingError F) (Frame M4KiB) :=
  λ '(m, a),
    match allocate_frame a with
    | Ret (Some f, a) => Ret ((m, a), Ok f)
    | Ret (None, a) => Ret ((m, a), Err FrameAllocationFailed)
    | Panic => Panic
    end.

(** [entry.set(...)], [entry.set_flags(...)], [entry.add_flags(...)] on the
    entry at address [self]. *)
Definition entry_set {E} (self addr flags : Z) : eff st E unit :=
  v ← lift (Entry.set addr flags); store self v.
Definition entry_set_flags {E} (self flags : Z) : eff st E unit :=
  e ← load self; store self (Entry.set_flags e flags).
Definition entry_add_flags {E} (self flags : Z) : eff st E unit :=
  e ← load self; store self (Entry.add_flags e flags).

End access.

(** The parent flags for a mapping with [flags]. *)
Definition parent_flags (flags : Z) : Z :=
  if Flags.contains flags Flags.USER_ACCESSIBLE
  then Z.lor Flags.PARENT Flags.USER_ACCESSIBLE else Flags.PARENT.

(** [.ok()?] in a function that returns an [Option]. *)
Definition ok {St E A} (m : eff St E A) : St → out (option A) := λ s,
  match m s with
  | Ret (_, Ok a) => Ret (Some a)
  | Ret (_, Err _) => Ret None
  | Panic => Panic
  end.

(** ** The recursive page table *)

(** [entries]: the address of the level 4 table. *)
Record PageTable := mkPageTable { entries : Z }.

Module PageTable.

Section ops.
Context `{Mmu} {A : Type}.

Definition next_or_create `{FrameAllocator A} {F} (entry insert_flags : Z)
    : eff (st (A := A)) (MappingError F) Z :=
  if Flags.contains insert_flags Flags.HUGE_PAGE then throw UnexpectedLargePage
  else
    e ← load entry;
    if Entry.is_present e then
      entry_add_flags entry insert_flags;;
      next entry
    else
      frame ← new_frame;
      entry_set entry (Frame.start_address frame) (Z.lor insert_flags Flags.PRESENT);;
      entries ← next entry;
      clear entries;;
      mret entries.

Definition map_M4KiB `{FrameAllocator A} (self : PageTable) (page : Page M4KiB) (frame : Frame M4KiB)
    (flags : Z) : eff (st (A := A)) (MappingError (Frame M4KiB)) (Page M4KiB) :=
  let parent_flags := parent_flags flags in
  p4 ← lift (Page.p4_index page);
  p4_entry ← index (entries self) p4;
  p3_table ← next_or_create p4_entry parent_flags;
  p3 ← lift (Page.p3_index page);
  p3_entry ← index p3_table p3;
  p2_table ← next_or_create p3_entry parent_flags;
  p2 ← lift (Page.p2_index page);
  p2_entry ← index p2_table p2;
  p1_table ← next_or_create p2_entry parent_flags;
  p1 ← lift (Page.p1_index page);
  p1_entry ← index p1_table p1;
  e ← load p1_entry;
  if negb (Entry.is_null e) then
    a ← lift (Entry.addr e); throw (AlreadyMapped (Frame.containing_address a))
  else
    entry_set p1_entry (Frame.start_address frame)
      (Flags.without (Flags.union flags Flags.PRESENT) Flags.HUGE_PAGE);;
    mret page.

Definition unmap_M4KiB (self : PageTable) (page : Page M4KiB)
    : eff (st (A := A)) (MappingError (Frame M4KiB)) (Frame M4KiB * Page M4KiB) :=
  p4 ← lift (Page.p4_index page);
  p4_entry ← index (entries self) p4;
  p3_table ← next p4_entry;
  p3 ← lift (Page.p3_index page);
  p3_entry ← index p3_table p3;
  p2_table ← next p3_entry;
  p2 ← lift (Page.p2_index page);
  p2_entry ← index p2_table p2;
  p1_table ← next p2_entry;
  p1 ← lift (Page.p1_index page);
  p1_entry ← index p1_table p1;
  e ← load p1_entry;
  pa ← lift (Entry.present_addr e);
  a ← ok_or pa NotMapped;
  let frame := Frame.containing_address a in
  entry_set p1_entry 0 Flags.EMPTY;;
  mret (frame, page).

Definition update_flags_M4KiB (self : PageTable) (page : Page M4KiB) (flags : Z)
    : eff (st (A := A)) (MappingError (Frame M4KiB)) (Page M4KiB) :=
  p4 ← lift (Page.p4_index page);
  p4_entry ← index (entries self) p4;
  p3_table ← next p4_entry;
  p3 ← lift (Page.p3_index page);
  p3_entry ← index p3_table p3;
  p2_table ← next p3_entry;
  p2 ← lift (Page.p2_index page);
  p2_entry ← index p2_table p2;
  p1_table ← next p2_entry;
  p1 ← lift (Page.p1_index page);
  p1_entry ← index p1_table p1;
  e ← load p1_entry;
  if negb (Entry.is_present e) then throw NotMapped
  else entry_set_flags p1_entry flags;; mret page.

Definition translate_M4KiB (self : PageTable) (page : Page M4KiB)
    : st (A := A) → out (option (Frame M4KiB * Z)) := ok (
  p4 ← lift (Page.p4_index page);
  p4_entry ← index (entries self) p4;
  p3_table ← next (F := Frame M4KiB) p4_entry;
  p3 ← lift (Page.p3_index page);
  p3_entry ← index p3_table p3;
  p2_table ← next (F := Frame M4KiB) p3_entry;
  p2 ← lift (Page.p2_index page);
  p2_entry ← index p2_table p2;
  p1_table ← next (F := Frame M4KiB) p2_entry;
  p1 ← lift (Page.p1_index page);
  p1_entry ← index p1_table p1;
  e ← load p1_entry;
  if Entry.is_present e then
    a ← lift (Entry.addr e); mret (Frame.containing_address a, Entry.flags e)
  else throw NotMapped).

Definition map_M2MiB `{FrameAllocator A} (self : PageTable) (page : Page M2MiB) (frame : Frame M2MiB)
    (flags : Z) : eff (st (A := A)) (MappingError (Frame M2MiB)) (Page M2MiB) :=
  let parent_flags := parent_flags flags in
  p4 ← lift (Page.p4_index page);
  p4_entry ← index (entries self) p4;
  p3_table ← next_or_create p4_entry parent_flags;
  p3 ← lift (Page.p3_index page);
  p3_entry ← index p3_table p3;
  p2_table ← next_or_create p3_entry parent_flags;
  p2 ← lift (Page.p2_index page);
  p2_entry ← index p2_table p2;
  e ← load p2_entry;
  if negb (Entry.is_null e) then
    a ← lift (Entry.addr e); throw (AlreadyMapped (Frame.containing_address a))
  else
    entry_set p2_entry (Frame.start_address frame)
      (Flags.union (Flags.union flags Flags.PRESENT) Flags.HUGE_PAGE);;
    mret page.

Definition unmap_M2MiB (self : PageTable) (page : Page M2MiB)
    : eff (st (A := A)) (MappingError (Frame M2MiB)) (Frame M2MiB * Page M2MiB) :=
  p4 ← lift (Page.p4_index page);
  p4_entry ← index (entries self) p4;
  p3_table ← next p4_entry;
  p3 ← lift (Page.p3_index page);
  p3_entry ← index p3_table p3;
  p2_table ← next p3_entry;
  p2 ← lift (Page.p2_index page);
  p2_entry ← index p2_table p2;
  e ← load p2_entry;
  pa ← lift (Entry.present_addr e);
  a ← ok_or pa NotMapped;
  let frame := Frame.containing_address a in
  if negb (Flags.contains (Entry.flags e) Flags.HUGE_PAGE) then throw UnexpectedNotLargePage
  else
    entry_set p2_entry 0 Flags.EMPTY;;
    mret (frame, page).

Definition update_flags_M2MiB (self : PageTable) (page : Page M2MiB) (flags : Z)
    : eff (st (A := A)) (MappingError (Frame M2MiB)) (Page M2MiB) :=
  p4 ← lift (Page.p4_index page);
  p4_entry ← index (entries self) p4;
  p3_table ← next p4_entry;
  p3 ← lift (Page.p3_index page);
  p3_entry ← index p3_table p3;
  p2_table ← next p3_entry;
  p2 ← lift (Page.p2_index page);
  p2_entry ← index p2_table p2;
  e ← load p2_entry;
  if negb (Entry.is_present e) then throw NotMapped
  else if negb (Entry.is_large e) then throw UnexpectedNotLargePage
  else entry_set_flags p2_entry flags;; mret page.

Definition translate_M2MiB (self : PageTable) (page : Page M2MiB)
    : st (A := A) → out (option (Frame M2MiB * Z)) := ok (
  p4 ← lift (Page.p4_index page);
  p4_entry ← index (entries self) p4;
  p3_table ← next (F := Frame M4KiB) p4_entry;
  p3 ← lift (Page.p3_index page);
  p3_entry ← index p3_table p3;
  p2_table ← next (F := Frame M4KiB) p3_entry;
  p2 ← lift (Page.p2_index page);
  p2_entry ← index p2_table p2;
  e ← load p2_entry;
  if Entry.is_present e then
    a ← lift (Entry.addr e); mret (Frame.containing_address a, Entry.flags e)
  else throw NotMapped).

Definition map_M1GiB `{FrameAllocator A} (self : PageTable) (page : Page M1GiB) (frame : Frame M1GiB)
    (flags : Z) : eff (st (A := A)) (MappingError (Frame M1GiB)) (Page M1GiB) :=
  let parent_flags := parent_flags flags in
  p4 ← lift (Page.p4_index page);
  p4_entry ← index (entries self) p4;
  p3_table ← next_or_create p4_entry parent_flags;
  p3 ← lift (Page.p3_index page);
  p3_entry ← index p3_table p3;
  e ← load p3_entry;
  if negb (Entry.is_null e) then
    a ← lift (Entry.addr e); throw (AlreadyMapped (Frame.containing_address a))
  else
    entry_set p3_entry (Frame.start_address frame)
      (Flags.union (Flags.union flags Flags.PRESENT) Flags.HUGE_PAGE);;
    mret page.

Definition unmap_M1GiB (self : PageTable) (page : Page M1GiB)
    : eff (st (A := A)) (MappingError (Frame M1GiB)) (Frame M1GiB * Page M1GiB) :=
  p4 ← lift (Page.p4_index page);
  p4_entry ← index (entries self) p4;
  p3_table ← next p4_entry;
  p3 ← lift (Page.p3_index page);
  p3_entry ← index p3_table p3;
  e ← load p3_entry;
  pa ← lift (Entry.present_addr e);
  a ← ok_or pa NotMapped;
  let frame := Frame.containing_address a in
  if negb (Flags.contains (Entry.flags e) Flags.HUGE_PAGE) then throw UnexpectedNotLargePage
  else
    entry_set p3_entry 0 Flags.EMPTY;;
    mret (frame, page).

Definition update_flags_M1GiB (self : PageTable) (page : Page M1GiB) (flags : Z)
    : eff (st (A := A)) (MappingError (Frame M1GiB)) (Page M1GiB) :=
  p4 ← lift (Page.p4_index page);
  p4_entry ← index (entries self) p4;
  p3_table ← next p4_entry;
  p3 ← lift (Page.p3_index page);
  p3_entry ← index p3_table p3;
  e ← load p3_entry;
  if negb (Entry.is_present e) then throw NotMapped
  else if negb (Entry.is_large e) then throw UnexpectedNotLargePage
  else entry_set_flags p3_entry flags;; mret page.

Definition translate_M1GiB (self : PageTable) (page : Page M1GiB)
    : st (A := A) → out (option (Frame M1GiB * Z)) := ok (
  p4 ← lift (Page.p4_index page);
  p4_entry ← index (entries self) p4;
  p3_table ← next (F := Frame M4KiB) p4_entry;
  p3 ← lift (Page.p3_index page);
  p3_entry ← index p3_table p3;
  e ← load p3_entry;
  if Entry.is_present e then
    a ← lift (Entry.addr e); mret (Frame.containing_address a, Entry.flags e)
  else throw NotMapped).

Definition translate_addr (self : PageTable) (addr : Z)
    : st (A := A) → out (option (Z * Z)) := ok (
  p4 ← lift (VirtAddr.p4_index addr);
  p4_entry ← index (entries self) p4;
  p3_table ← next (F := Frame M4KiB) p4_entry;
  p3 ← lift (VirtAddr.p3_index addr);
  p3_entry ← index p3_table p3;
  e3 ← load p3_entry;
  if Entry.is_present e3 && Entry.is_large e3 then
    a ← lift (Entry.addr e3);
    pa ← lift (add_w 64 a (addr mod SIZE M1GiB));
    mret (PhysAddr.new_truncate pa, Entry.flags e3)
  else
    p2_table ← next p3_entry;
    p2 ← lift (VirtAddr.p2_index addr);
    p2_entry ← index p2_table p2;
    e2 ← load p2_entry;
    if Entry.is_present e2 && Entry.is_large e2 then
      a ← lift (Entry.addr e2);
      pa ← lift (add_w 64 a (addr mod SIZE M2MiB));
      mret (PhysAddr.new_truncate pa, Entry.flags e2)
    else
      p1_table ← next p2_entry;
      p1 ← lift (VirtAddr.p1_index addr);
      p1_entry ← index p1_table p1;
      e1 ← load p1_entry;
      if negb (Entry.is_present e1) then throw NotMapped
      else
        a ← lift (Entry.addr e1);
        pa ← lift (add_w 64 a (addr mod SIZE M4KiB));
        mret (PhysAddr.new_truncate pa, Entry.flags e1)).

End ops.

End PageTable.

(** ** The page table behind an offset *)

Record OffsetPageTable := mkOffsetPageTable { o_entries : Z; offset : Z }.

Module OffsetPageTable.

Section ops.
Context `{Mmu} {A : Type}.

(** [next_table] and [next_table_mut], for the entry at address [entry]. *)
Definition next_table {E} (offset entry : Z) : eff (st (A := A)) E (option Z) :=
  e ← load entry;
  if negb (Entry.is_present e) || Entry.is_large e then mret None
  else
    a ← lift (Entry.addr e);
    pt_vaddr ← lift (VirtAddr.add offset a);
    mret (Some pt_vaddr).

(** [next_table_mut(...).ok_or(NotMapped)?] *)
Definition next_or_fail {F} (offset entry : Z) : eff (st (A := A)) (MappingError F) Z :=
  t ← next_table offset entry; ok_or t NotMapped.

Definition next_or_create `{FrameAllocator A} {F} (offset entry insert_flags : Z)
    : eff (st (A := A)) (MappingError F) Z :=
  if Flags.contains insert_flags Flags.HUGE_PAGE then throw UnexpectedLargePage
  else
    e ← load entry;
    if Entry.is_present e then
      entry_add_flags entry insert_flags;;
      next_or_fail offset entry
    else
      frame ← new_frame;
      entry_set entry (Frame.start_address frame) (Z.lor insert_flags Flags.PRESENT);;
      next_table ← next_or_fail offset entry;
      clear next_table;;
      mret next_table.

Definition map `{FrameAllocator A} (self : OffsetPageTable) (page : Page M4KiB)
    (frame : Frame M4KiB) (flags : Z)
    : eff (st (A := A)) (MappingError (Frame M4KiB)) (Page M4KiB) :=
  let parent_flags := parent_flags flags in
  p4 ← lift (Page.p4_index page);
  p4_entry ← index (o_entries self) p4;
  p3_table ← next_or_create (offset self) p4_entry parent_flags;
  p3 ← lift (Page.p3_index page);
  p3_entry ← index p3_table p3;
  p2_table ← next_or_create (offset self) p3_entry parent_flags;
  p2 ← lift (Page.p2_index page);
  p2_entry ← index p2_table p2;
  p1_table ← next_or_create (offset self) p2_entry parent_flags;
  p1 ← lift (Page.p1_index page);
  p1_entry ← index p1_table p1;
  e ← load p1_entry;
  if negb (Entry.is_null e) then
    a ← lift (Entry.addr e); throw (AlreadyMapped (Frame.containing_address a))
  else
    entry_set p1_entry (Frame.start_address frame)
      (Flags.without (Flags.union flags Flags.PRESENT) Flags.HUGE_PAGE);;
    mret page.

(** The walk to the level 1 entry that [translate], [unmap] and [update_flags]
    begin with. *)
Definition p1_entry {F} (self : OffsetPageTable) (page : Page M4KiB)
    : eff (st (A := A)) (MappingError F) Z :=
  p4 ← lift (Page.p4_index page);
  p4_entry ← index (o_entries self) p4;
  p3_table ← next_or_fail (offset self) p4_entry;
  p3 ← lift (Page.p3_index page);
  p3_entry ← index p3_table p3;
  p2_table ← next_or_fail (offset self) p3_entry;
  p2 ← lift (Page.p2_index page);
  p2_entry ← index p2_table p2;
  p1_table ← next_or_fail (offset self) p2_entry;
  p1 ← lift (Page.p1_index page);
  index p1_table p1.

Definition translate (self : OffsetPageTable) (page : Page M4KiB)
    : st (A := A) → out (option (Frame M4KiB * Z)) := ok (
  p1_entry ← p1_entry (F := Frame M4KiB) self page;
  e ← load p1_entry;
  if Entry.is_present e then
    a ← lift (Entry.addr e); mret (Frame.containing_address a, Entry.flags e)
  else throw NotMapped).

Definition unmap (self : OffsetPageTable) (page : Page M4KiB)
    : eff (st (A := A)) (MappingError (Frame M4KiB)) (Frame M4KiB * Page M4KiB) :=
  p1_entry ← p1_entry self page;
  e ← load p1_entry;
  pa ← lift (Entry.present_addr e);
  a ← ok_or pa NotMapped;
  let frame := Frame.containing_address a in
  entry_set p1_entry 0 Flags.EMPTY;;
  mret (frame, page).

Definition update_flags (self : OffsetPageTable) (page : Page M4KiB) (flags : Z)
    : eff (st (A := A)) (MappingError (Frame M4KiB)) (Page M4KiB) :=
  p1_entry ← p1_entry self page;
  e ← load p1_entry;
  if negb (Entry.is_present e) then throw NotMapped
  else entry_set_flags p1_entry flags;; mret page.

End ops.

End OffsetPageTable.

(** ** Entries *)

Lemma testbit_pow2_land x k : 0 ≤ k → (Z.land (2 ^ k) x =? 0) = negb (Z.testbit x k).
Proof.
  intros Hk. destruct (Z.testbit x k) eqn:E; cbn [negb].
  - apply Z.eqb_neq. intros H. apply (f_equal (λ z, Z.testbit z k)) in H.
    rewrite Z.land_spec, Z.pow2_bits_true, E, Z.bits_0 in H by lia. done.
  - apply Z.eqb_eq. apply Z.bits_inj'. intros i Hi.
    rewrite Z.land_spec, Z.pow2_bits_eqb, Z.bits_0 by lia.
    destruct (Z.eqb_spec k i) as [->|]; [by rewrite E | done].
Qed.

Lemma testbit_not_w x k : 0 ≤ k < 64 → Z.testbit (not_w 64 x) k = negb (Z.testbit x k).
Proof.
  intros Hk. unfold not_w. rewrite Z.lxor_spec. change (2 ^ 64 - 1) with (Z.ones 64).
  rewrite Z.ones_spec_low by lia. by destruct (Z.testbit x k).
Qed.

Lemma contains_bit x k : 0 ≤ k < 64 → Flags.contains x (2 ^ k) = Z.testbit x k.
Proof.
  intros Hk. unfold Flags.contains, Flags.is_empty, Flags.without.
  rewrite testbit_pow2_land, testbit_not_w by lia. by destruct (Z.testbit x k).
Qed.

Lemma flags_bit e k : 0 ≤ k < 12 → Z.testbit (Entry.flags e) k = Z.testbit e k.
Proof.
  intros Hk. unfold Entry.flags, Entry.FLAGS_MASK, Flags.ALL. rewrite Z.land_spec.
  assert (Z.testbit 0x8000000000000FFF k = true) as ->; [| by destruct (Z.testbit e k)].
  change 0x8000000000000FFF with (Z.lor (Z.ones 12) (2 ^ 63)).
  by rewrite Z.lor_spec, Z.ones_spec_low by lia.
Qed.

Lemma is_present_bit e : Entry.is_present e = Z.testbit e 0.
Proof.
  unfold Entry.is_present. change Flags.PRESENT with (2 ^ 0).
  rewrite contains_bit, flags_bit by lia. done.
Qed.

Lemma is_large_bit e : Entry.is_large e = Z.testbit e 7.
Proof.
  unfold Entry.is_large. change Flags.HUGE_PAGE with (2 ^ 7).
  rewrite contains_bit, flags_bit by lia. done.
Qed.

Lemma frame_mask_bit k :
  0 ≤ k → Z.testbit Entry.FRAME_MASK k = (12 <=? k) && (k <? 52).
Proof.
  intros Hk. change Entry.FRAME_MASK with (Z.shiftl (Z.ones 40) 12).
  rewrite Z.shiftl_spec by lia. destruct (Z.leb_spec 12 k); cbn [andb].
  - rewrite Z.testbit_ones by lia. destruct (Z.ltb_spec k 52), (Z.leb_spec 0 (k - 12)),
      (Z.ltb_spec (k - 12) 40); cbn; lia.
  - by rewrite Z.testbit_neg_r by lia.
Qed.

Lemma all_mask_bit k :
  0 ≤ k → Z.testbit Flags.ALL k = (k <? 12) || (k =? 63).
Proof.
  intros Hk. change Flags.ALL with (Z.lor (Z.ones 12) (2 ^ 63)).
  rewrite Z.lor_spec, Z.testbit_ones, Z.pow2_bits_eqb by lia.
  rewrite (proj2 (Z.leb_le _ _)) by lia. cbn [andb]. f_equal. apply Z.eqb_sym.
Qed.

(** The frame of an entry. *)
Definition frame_of (e : Z) : Z := Z.land e Entry.FRAME_MASK.

Definition aligned_frame (f : Z) : Prop := PhysAddr.valid f ∧ f mod 4096 = 0.

(** Sets of the named flags. *)
Definition wf_flags (fl : Z) : Prop := Z.land fl Flags.ALL = fl.

Lemma frame_of_eq e : frame_of e = (e / 2 ^ 12) mod 2 ^ 40 * 2 ^ 12.
Proof.
  unfold frame_of. rewrite <- Z.shiftl_mul_pow2, <- Z.land_ones, <- Z.shiftr_div_pow2 by lia.
  apply Z.bits_inj'. intros k Hk.
  rewrite Z.land_spec, frame_mask_bit, Z.shiftl_spec by lia.
  destruct (Z.leb_spec 12 k); cbn [andb].
  - rewrite Z.land_spec, Z.shiftr_spec, Z.testbit_ones by lia.
    replace (k - 12 + 12) with k by lia. f_equal.
    destruct (Z.ltb_spec k 52), (Z.leb_spec 0 (k - 12)), (Z.ltb_spec (k - 12) 40); cbn; lia.
  - by rewrite andb_false_r, (Z.testbit_neg_r _ (k - 12)) by lia.
Qed.

Lemma frame_of_aligned e : aligned_frame (frame_of e).
Proof.
  rewrite frame_of_eq. pose proof (Z.mod_pos_bound (e / 2 ^ 12) (2 ^ 40) ltac:(lia)).
  split; [| by apply Z.mod_mul]. unfold PhysAddr.valid, PhysAddr.MAX. lia.
Qed.

Lemma frame_of_id f : aligned_frame f → frame_of f = f.
Proof.
  intros [Hv Hm]. rewrite frame_of_eq. unfold PhysAddr.valid, PhysAddr.MAX in Hv.
  pose proof (Z.div_mod f (2 ^ 12) ltac:(lia)) as E. change (2 ^ 12) with 4096 in *.
  rewrite Z.mod_small; [lia |]. split; [apply Z.div_pos; lia | apply Z.div_lt_upper_bound; lia].
Qed.

Lemma addr_eq e : Entry.addr e = Ret (frame_of e).
Proof.
  unfold Entry.addr, PhysAddr.new_unchecked. fold (frame_of e).
  destruct (frame_of_aligned e) as [[_ Hle] _]. by rewrite (proj2 (Z.leb_le _ _)).
Qed.

Lemma frame_bit f k : aligned_frame f → 0 ≤ k → ¬ (12 ≤ k < 52) → Z.testbit f k = false.
Proof.
  intros Hf Hk Ho. rewrite <- (frame_of_id f Hf). unfold frame_of.
  rewrite Z.land_spec, frame_mask_bit by lia.
  destruct (Z.leb_spec 12 k), (Z.ltb_spec k 52); cbn; rewrite ?andb_false_r; lia || done.
Qed.

Lemma flag_bit fl k : wf_flags fl → 0 ≤ k → 12 ≤ k → k ≠ 63 → Z.testbit fl k = false.
Proof.
  intros Hf Hk Ho Hne. rewrite <- Hf, Z.land_spec, all_mask_bit by lia.
  rewrite (proj2 (Z.ltb_ge _ _)), (proj2 (Z.eqb_neq _ _)) by lia. by rewrite andb_false_r.
Qed.

Lemma flags_no_frame fl : wf_flags fl → Z.land fl Entry.FRAME_MASK = 0.
Proof.
  intros Hfl. apply Z.bits_inj'. intros k Hk. rewrite Z.land_spec, Z.bits_0, frame_mask_bit by lia.
  destruct (decide (12 ≤ k < 52)) as [Hin|Hout].
  - rewrite flag_bit by (done || lia). done.
  - destruct (Z.leb_spec 12 k), (Z.ltb_spec k 52); cbn; rewrite ?andb_false_r; lia || done.
Qed.

Lemma set_eq f fl : aligned_frame f → Entry.set f fl = Ret (Z.lor f fl).
Proof.
  intros Hf. unfold Entry.set. fold (frame_of f). rewrite frame_of_id by done.
  assert (Z.land f (not_w 64 Entry.FRAME_MASK) = 0) as ->; [| done].
  apply Z.bits_inj'. intros k Hk. rewrite Z.land_spec, Z.bits_0.
  destruct (decide (12 ≤ k < 52)) as [Hin|Hout]; [| by rewrite frame_bit].
  rewrite testbit_not_w, frame_mask_bit by lia.
  rewrite (proj2 (Z.leb_le _ _)), (proj2 (Z.ltb_lt _ _)) by lia. by rewrite andb_false_r.
Qed.

Lemma made_bit f fl k : aligned_frame f → 0 ≤ k < 12 → Z.testbit (Z.lor f fl) k = Z.testbit fl k.
Proof. intros Hf Hk. rewrite Z.lor_spec, frame_bit by (done || lia). done. Qed.

Lemma made_frame f fl : aligned_frame f → wf_flags fl → frame_of (Z.lor f fl) = f.
Proof.
  intros Hf Hfl. unfold frame_of. rewrite Z.land_lor_distr_l. fold (frame_of f).
  rewrite frame_of_id by done. by rewrite (flags_no_frame fl Hfl), Z.lor_0_r.
Qed.

Lemma made_flags f fl : aligned_frame f → wf_flags fl → Entry.flags (Z.lor f fl) = fl.
Proof.
  intros Hf Hfl. unfold Entry.flags, Entry.FLAGS_MASK. rewrite Z.land_lor_distr_l, Hfl.
  replace (Z.land f Flags.ALL) with 0; [apply Z.lor_0_l |].
  symmetry. apply Z.bits_inj'. intros k Hk. rewrite Z.land_spec, Z.bits_0, all_mask_bit by lia.
  destruct (decide (12 ≤ k < 52)) as [Hin|Hout]; [| by rewrite frame_bit].
  rewrite (proj2 (Z.ltb_ge _ _)), (proj2 (Z.eqb_neq _ _)) by lia. by rewrite andb_false_r.
Qed.

(** The table an entry points to. *)
Definition ptr_of (e : Z) : option Z :=
  if Z.testbit e 0 && negb (Z.testbit e 7) then Some (frame_of e) else None.

Lemma ptr_of_aligned e T : ptr_of e = Some T → aligned_frame T.
Proof.
  unfold ptr_of. destruct (_ && _); [| done]. intros [= <-]. apply frame_of_aligned.
Qed.

(** Adding the flags of a parent changes neither the presence nor the pointer
    nor the size of a present entry. *)
Definition parent_like (fl : Z) : Prop :=
  wf_flags fl ∧ Z.testbit fl 0 = true ∧ Z.testbit fl 7 = false.

Lemma parent_flags_like fl : parent_like (parent_flags fl).
Proof. unfold parent_flags. destruct (Flags.contains _ _); repeat split. Qed.

Lemma add_flags_same e fl :
  parent_like fl → Z.testbit e 0 = true →
  Z.testbit (Entry.add_flags e fl) 0 = true ∧
  Z.testbit (Entry.add_flags e fl) 7 = Z.testbit e 7 ∧
  frame_of (Entry.add_flags e fl) = frame_of e.
Proof.
  intros (Hfl & H0 & H7) He. unfold Entry.add_flags. rewrite !Z.lor_spec, H7, He, orb_false_r.
  split_and!; [done | done |]. unfold frame_of. rewrite Z.land_lor_distr_l.
  rewrite (flags_no_frame fl Hfl). apply Z.lor_0_r.
Qed.
