(* ===== verification/PageTree.v ===== *)
(** * The tables as a tree

    What the operations of [PageTable] do to the tree of tables in physical
    memory: the entries reached through the recursive addresses are those of the
    tables of the tree, and mapping, unmapping and translating a page have their
    meaning in terms of the translation that the tree defines. *)

From stdpp Require Import functions.
From S2P Require Import Prelude Addrs Paging PageTable.

Section tree.
(** The level 4 table and the index of its entry that points to itself. *)
Context (root r : Z).

(** The table reached from table [T] along a path of indices. *)
Fixpoint tbl (m : Z → Z) (T : Z) (p : list Z) : option Z :=
  match p with
  | [] => Some T
  | i :: p => T' ← ptr_of (m (T + 8 * i)); tbl m T' p
  end.

(** The paths of indices that do not go through the recursive entry. *)
Definition path (p : list Z) : Prop := Forall (λ i, 0 ≤ i < 512) p ∧ head p ≠ Some r.

(** The tables form a tree, apart from the recursive entry, and no entry of the level 4
    table is for a large page. *)
Record wf_tree (m : Z → Z) : Prop := {
  wt_root : aligned_frame root;
  wt_index : 0 ≤ r < 512;
  wt_rec : ptr_of (m (root + 8 * r)) = Some root;
  wt_inj p q T : path p → path q → (length p ≤ 3)%nat → (length q ≤ 3)%nat →
    tbl m root p = Some T → tbl m root q = Some T → p = q;
  wt_small i : 0 ≤ i < 512 → Z.testbit (m (root + 8 * i)) 0 = true → is_Some (ptr_of (m (root + 8 * i)));
}.

(** The entry at index [i] of the table at path [p]. *)
Definition ent (m : Z → Z) (p : list Z) (i : Z) : option Z :=
  T ← tbl m root p; Some (m (T + 8 * i)).

(** The entry that decides the translation of the addresses with the given
    indices, with the size of its page. *)
Definition leaf (m : Z → Z) (a b c d : Z) : option (MemSize * Z) :=
  e3 ← ent m [a] b;
  if negb (Z.testbit e3 0) then None
  else if Z.testbit e3 7 then Some (M1GiB, e3)
  else
    e2 ← ent m [a; b] c;
    if negb (Z.testbit e2 0) then None
    else if Z.testbit e2 7 then Some (M2MiB, e2)
    else
      e1 ← ent m [a; b; c] d;
      if Z.testbit e1 0 then Some (M4KiB, e1) else None.

Lemma tbl_snoc m T p i : tbl m T (p ++ [i]) = (T' ← tbl m T p; ptr_of (m (T' + 8 * i))).
Proof.
  revert T. induction p as [|j p IH]; intros T; cbn.
  - by destruct (ptr_of _).
  - destruct (ptr_of (m (T + 8 * j))); cbn; [apply IH | done].
Qed.

Lemma tbl_ent m p i : tbl m root (p ++ [i]) = (e ← ent m p i; ptr_of e).
Proof. rewrite tbl_snoc. unfold ent. by destruct (tbl m root p). Qed.

Lemma path_app p i : path (p ++ [i]) → path p ∧ 0 ≤ i < 512.
Proof.
  intros [Hf Hh]. apply Forall_app in Hf as [Hf [Hi _]%Forall_cons].
  split; [| done]. split; [done |]. by destruct p.
Qed.

Lemma path_snoc p i : path p → p ≠ [] → 0 ≤ i < 512 → path (p ++ [i]).
Proof.
  intros [Hf Hh] Hp Hi. split; [apply Forall_app; split; [done | by apply Forall_singleton] |].
  by destruct p.
Qed.

Lemma tbl_aligned m p T : aligned_frame root → tbl m root p = Some T → aligned_frame T.
Proof.
  intros Hr. destruct p as [|i p _] using rev_ind; cbn; [by intros [= <-] |].
  rewrite tbl_ent. intros (e & _ & He)%bind_Some. by eapply ptr_of_aligned.
Qed.

Lemma slot_inj T T' i j :
  aligned_frame T → aligned_frame T' → 0 ≤ i < 512 → 0 ≤ j < 512 →
  T + 8 * i = T' + 8 * j → T = T' ∧ i = j.
Proof.
  intros [_ HT] [_ HT'] Hi Hj E. apply Z.mod_divide in HT as [t ->]; [| lia].
  apply Z.mod_divide in HT' as [t' ->]; [| lia]. lia.
Qed.

(** ** Updating one entry *)

Section update.
Context (m : Z → Z) (Hwf : wf_tree m).
Context (p : list Z) (i T : Z) (Hp : path p) (Hlen : (length p ≤ 3)%nat).
Context (Hi : 0 ≤ i < 512) (HT : tbl m root p = Some T).

Lemma upd_read v q x T' :
  path q → (length q ≤ 3)%nat → 0 ≤ x < 512 → tbl m root q = Some T' → (q, x) ≠ (p, i) →
  (<[T + 8 * i := v]> m : Z → Z) (T' + 8 * x) = m (T' + 8 * x).
Proof.
  intros Hq Hlq Hx HT' Hne. apply fn_lookup_insert_ne. intros E.
  destruct (slot_inj T T' i x) as [-> ->]; try done.
  - by eapply tbl_aligned; [apply Hwf |].
  - by eapply tbl_aligned; [apply Hwf |].
  - apply Hne. f_equal. by eapply (wt_inj _ Hwf).
Qed.

(** Tables whose path does not go through the entry stay where they are. *)
Lemma upd_tbl v q :
  path q → (length q ≤ 3)%nat → ¬ (p ++ [i]) `prefix_of` q →
  tbl (<[T + 8 * i := v]> m) root q = tbl m root q.
Proof.
  induction q as [|x q IH] using rev_ind; intros Hq Hlq Hnp; [done |].
  apply path_app in Hq as [Hq Hx]. rewrite length_app in Hlq. cbn in Hlq.
  rewrite !tbl_snoc, IH; [| done | lia | intros ?; apply Hnp; by apply prefix_app_r].
  destruct (tbl m root q) as [T'|] eqn:HT'; [| done]. cbn.
  rewrite (upd_read v q x T'); [done | done | lia | done | done |].
  intros [= -> ->]. by apply Hnp.
Qed.

(** An update that keeps the pointer of the entry keeps every table. *)
Lemma upd_ptr_tbl v q :
  ptr_of v = ptr_of (m (T + 8 * i)) →
  tbl (<[T + 8 * i := v]> m) root q = tbl m root q.
Proof.
  intros Hv. induction q as [|x q IH] using rev_ind; [done |]. rewrite !tbl_snoc, IH.
  destruct (tbl m root q) as [T'|]; [| done]. cbn.
  destruct (decide (T' + 8 * x = T + 8 * i)) as [->|Hne].
  - by rewrite fn_lookup_insert.
  - by rewrite fn_lookup_insert_ne by done.
Qed.

Lemma upd_ent v q x :
  path q → (length q ≤ 3)%nat → 0 ≤ x < 512 → (q, x) ≠ (p, i) → ¬ (p ++ [i]) `prefix_of` q →
  ent (<[T + 8 * i := v]> m) q x = ent m q x.
Proof.
  intros Hq Hlq Hx Hne Hnp. unfold ent. rewrite upd_tbl by done.
  destruct (tbl m root q) as [T'|] eqn:HT'; [| done]. cbn. f_equal. by eapply upd_read.
Qed.

Lemma upd_ent_here v : ent (<[T + 8 * i := v]> m) p i = Some v.
Proof.
  unfold ent. rewrite upd_tbl; [| done | done |].
  - rewrite HT. cbn. by rewrite fn_lookup_insert.
  - intros Hpre%prefix_length. rewrite length_app in Hpre. cbn in Hpre. lia.
Qed.

Lemma upd_ptr_ent v q x :
  ptr_of v = ptr_of (m (T + 8 * i)) →
  path q → (length q ≤ 3)%nat → 0 ≤ x < 512 → (q, x) ≠ (p, i) →
  ent (<[T + 8 * i := v]> m) q x = ent m q x.
Proof.
  intros Hv Hq Hlq Hx Hne. unfold ent. rewrite upd_ptr_tbl by done.
  destruct (tbl m root q) as [T'|] eqn:HT'; [| done]. cbn. f_equal. by eapply upd_read.
Qed.

Lemma upd_wf v :
  ptr_of v = ptr_of (m (T + 8 * i)) → (p = [] → Z.testbit v 0 = true → is_Some (ptr_of v)) →
  wf_tree (<[T + 8 * i := v]> m).
Proof.
  intros Hv Hsmall. split; try apply Hwf.
  - destruct (decide (root + 8 * r = T + 8 * i)) as [E|Hne].
    + rewrite E, fn_lookup_insert, Hv, <- E. apply Hwf.
    + rewrite fn_lookup_insert_ne by done. apply Hwf.
  - intros q q' T' ? ? ? ?. rewrite !upd_ptr_tbl by done. by apply Hwf.
  - intros j Hj. destruct (decide (root + 8 * j = T + 8 * i)) as [E|Hne].
    + rewrite E, fn_lookup_insert. apply Hsmall.
      destruct (slot_inj T root i j) as [-> _]; [by eapply tbl_aligned; [apply Hwf|] | apply Hwf | done.. |].
      eapply (wt_inj _ Hwf p [] root); [done | by split | done | cbn; lia | done | done].
    + rewrite fn_lookup_insert_ne by done. by apply Hwf.
Qed.
End update.

(** ** The translation after an update *)

(** The entries do the same as entries that are not leaves. *)
Definition alike (o o' : option Z) : Prop :=
  o = o' ∨ ∃ e e', o = Some e ∧ o' = Some e' ∧ Z.testbit e 0 = true ∧ Z.testbit e' 0 = true ∧
    Z.testbit e 7 = false ∧ Z.testbit e' 7 = false.

Lemma leaf_alike m m' a b c d :
  alike (ent m [a] b) (ent m' [a] b) → alike (ent m [a; b] c) (ent m' [a; b] c) →
  ent m [a; b; c] d = ent m' [a; b; c] d →
  leaf m a b c d = leaf m' a b c d.
Proof.
  unfold leaf. intros H3 H2 H1. rewrite H1.
  destruct H3 as [->|(f & f' & -> & -> & F1 & F2 & F3 & F4)].
  - destruct (ent m' [a] b) as [e3|]; [| done]. cbn [mbind option_bind negb].
    destruct H2 as [->|(e & e' & -> & -> & E1 & E2 & E3 & E4)]; [done |].
    cbn [mbind option_bind negb]. by rewrite E1, E2, E3, E4.
  - cbn [mbind option_bind negb]. rewrite F1, F2, F3, F4. cbn [mbind option_bind negb].
    destruct H2 as [->|(e & e' & -> & -> & E1 & E2 & E3 & E4)]; [done |].
    cbn [mbind option_bind negb]. by rewrite E1, E2, E3, E4.
Qed.

(** Indices of an address outside of the recursive area. *)
Definition indices (a b c d : Z) : Prop :=
  (0 ≤ a < 512 ∧ a ≠ r) ∧ 0 ≤ b < 512 ∧ 0 ≤ c < 512 ∧ 0 ≤ d < 512.

Lemma indices_path a b c d :
  indices a b c d → path [a] ∧ path [a; b] ∧ path [a; b; c].
Proof.
  intros ([? ?] & ? & ? & ?). unfold path. rewrite !Forall_cons. cbn. naive_solver.
Qed.

(** More flags on an entry that is not a leaf do not change any translation. *)
Lemma leaf_more_flags m p i T fl a b c d :
  wf_tree m → path p → (length p ≤ 2)%nat → 0 ≤ i < 512 → tbl m root p = Some T →
  parent_like fl → ptr_of (m (T + 8 * i)) ≠ None → indices a b c d →
  leaf (<[T + 8 * i := Entry.add_flags (m (T + 8 * i)) fl]> m) a b c d = leaf m a b c d.
Proof.
  intros Hwf Hp Hlen Hi HT Hfl Hptr Hidx.
  pose proof (indices_path a b c d Hidx) as (P1 & P2 & P3). destruct Hidx as (? & ? & ? & ?).
  set (e := m (T + 8 * i)) in *. set (v := Entry.add_flags e fl).
  assert (Z.testbit e 0 = true ∧ Z.testbit e 7 = false) as [E0 E7].
  { unfold ptr_of in Hptr. by destruct (Z.testbit e 0), (Z.testbit e 7). }
  destruct (add_flags_same e fl Hfl E0) as (V0 & V7 & Vf). fold v in V0, V7, Vf.
  assert (ptr_of v = ptr_of e) as Hv by (unfold ptr_of; by rewrite V0, V7, Vf, E0).
  assert (∀ q x, path q → (length q ≤ 3)%nat → 0 ≤ x < 512 →
            alike (ent (<[T + 8 * i := v]> m) q x) (ent m q x)) as Hal.
  { intros q x Hq Hl Hx. destruct (decide ((q, x) = (p, i))) as [[= -> ->]|Hne].
    - right. exists v, e. rewrite (upd_ent_here m Hwf p i T) by (done || lia).
      unfold ent. rewrite HT. split_and!; try done. by rewrite V7.
    - left. apply (upd_ptr_ent m Hwf p i T); (done || lia). }
  apply leaf_alike; [apply Hal; (done || cbn; lia) | apply Hal; (done || cbn; lia) |].
  apply (upd_ptr_ent m Hwf p i T); try (done || cbn; lia). intros [= <- <-]. cbn in Hlen. lia.
Qed.

(** ** A new table *)

Lemma tbl_app m T p q : tbl m T (p ++ q) = (T' ← tbl m T p; tbl m T' q).
Proof.
  revert T. induction p as [|i p IH]; intros T; cbn; [done |].
  destruct (ptr_of (m (T + 8 * i))); cbn; [apply IH | done].
Qed.

(** The memories agree outside of the frame [f]; the frame is filled with empty
    entries. *)
Definition outside (f : Z) (m m' : Z → Z) : Prop :=
  ∀ x, (∀ j, 0 ≤ j < 512 → x ≠ f + 8 * j) → m' x = m x.
Definition zeroed (f : Z) (m : Z → Z) : Prop := ∀ j, 0 ≤ j < 512 → m (f + 8 * j) = 0.

(** The frame is not that of a table. *)
Definition unused (m : Z → Z) (f : Z) : Prop :=
  ∀ q, path q → (length q ≤ 3)%nat → tbl m root q ≠ Some f.

Section create.
Context (m : Z → Z) (Hwf : wf_tree m).
Context (p : list Z) (i T : Z) (Hp : path (p ++ [i])) (Hlen : (length p ≤ 2)%nat).
Context (HT : tbl m root p = Some T) (Hold : Z.testbit (m (T + 8 * i)) 0 = false).
Context (f v : Z) (Hf : aligned_frame f) (Hfree : unused m f) (Hv : ptr_of v = Some f).
Context (m' : Z → Z) (Hout : outside f (<[T + 8 * i := v]> m) m').

Lemma create_outside q T' x :
  path q → (length q ≤ 3)%nat → tbl m root q = Some T' → 0 ≤ x < 512 →
  ∀ j, 0 ≤ j < 512 → T' + 8 * x ≠ f + 8 * j.
Proof.
  intros Hq Hl HT' Hx j Hj E. destruct (slot_inj T' f x j) as [-> _]; try done.
  - by eapply tbl_aligned; [apply Hwf |].
  - by apply (Hfree q).
Qed.

Lemma create_read q x T' :
  path q → (length q ≤ 3)%nat → 0 ≤ x < 512 → tbl m root q = Some T' → (q, x) ≠ (p, i) →
  m' (T' + 8 * x) = m (T' + 8 * x).
Proof.
  intros Hq Hl Hx HT' Hne. pose proof (path_app _ _ Hp) as [Hp' Hi].
  rewrite Hout by (by apply (create_outside q T' x)).
  by apply (upd_read m Hwf p i T Hp' ltac:(lia) Hi HT v q).
Qed.

Lemma create_here : m' (T + 8 * i) = v.
Proof.
  pose proof (path_app _ _ Hp) as [Hp' Hi].
  rewrite Hout by (apply (create_outside p T i); (done || lia)). by rewrite fn_lookup_insert.
Qed.

Lemma create_tbl q :
  path q → (length q ≤ 3)%nat → ¬ (p ++ [i]) `prefix_of` q → tbl m' root q = tbl m root q.
Proof.
  induction q as [|x q IH] using rev_ind; intros Hq Hlq Hnp; [done |].
  apply path_app in Hq as [Hq Hx]. rewrite length_app in Hlq. cbn in Hlq.
  rewrite !tbl_snoc, IH; [| done | lia | intros ?; apply Hnp; by apply prefix_app_r].
  destruct (tbl m root q) as [T'|] eqn:HT'; [| done]. cbn.
  rewrite (create_read q x T'); [done | done | lia | done | done |].
  intros [= -> ->]. by apply Hnp.
Qed.

Lemma create_tbl_parent : tbl m' root p = Some T.
Proof.
  pose proof (path_app _ _ Hp) as [Hp' _]. rewrite create_tbl; [done | done | lia |].
  intros Hpre%prefix_length. rewrite length_app in Hpre. cbn in Hpre. lia.
Qed.

Lemma create_tbl_here : tbl m' root (p ++ [i]) = Some f.
Proof. rewrite tbl_snoc, create_tbl_parent. cbn. by rewrite create_here. Qed.

Lemma create_rec : ptr_of (m' (root + 8 * r)) = Some root.
Proof.
  pose proof (path_app _ _ Hp) as [Hp' Hi]. pose proof (wt_index _ Hwf) as Hidx.
  rewrite (create_read [] r root); [apply Hwf | done | cbn; lia | done | done |].
  intros [= <- <-]. destruct Hp as [_ Hh]. by apply Hh.
Qed.

Context (Hzero : zeroed f m').

Lemma create_tbl_below x q : 0 ≤ x < 512 → tbl m' root ((p ++ [i]) ++ x :: q) = None.
Proof.
  intros Hx. rewrite tbl_app, create_tbl_here. cbn. by rewrite Hzero.
Qed.

Lemma create_tables q T' :
  path q → (length q ≤ 3)%nat → tbl m' root q = Some T' →
  q = p ++ [i] ∧ T' = f ∨ T' ≠ f ∧ tbl m root q = Some T'.
Proof.
  intros Hq Hl HT'. destruct (decide ((p ++ [i]) `prefix_of` q)) as [[s ->]|Hnp].
  - destruct s as [|x s].
    + rewrite app_nil_r in *. rewrite create_tbl_here in HT'. left. by simplify_eq.
    + destruct Hq as [Hq _]. apply Forall_app in Hq as [_ [Hx _]%Forall_cons].
      by rewrite create_tbl_below in HT'.
  - rewrite create_tbl in HT' by done. right. split; [| done]. intros ->. by apply (Hfree q).
Qed.

Lemma create_wf : wf_tree m'.
Proof.
  split; try apply Hwf.
  - apply create_rec.
  - intros q q' T' Hq Hq' Hl Hl' HT1 HT2.
    destruct (create_tables q T' Hq Hl HT1) as [[-> ->]|[? ?]];
      destruct (create_tables q' _ Hq' Hl' HT2) as [[-> ?]|[? ?]]; try done.
    by eapply (wt_inj _ Hwf).
  - intros j Hj. destruct (decide ((([] : list Z), j) = (p, i))) as [E|Hne].
    + assert (root + 8 * j = T + 8 * i) as ->; [|rewrite create_here, Hv; eauto].
      injection E as Ep ->. pose proof HT as HT1. rewrite <- Ep in HT1. injection HT1 as ->. done.
    + rewrite (create_read [] j root); [by apply Hwf | by split | cbn; lia | done | done | done].
Qed.

Lemma create_ent q x :
  path q → (length q ≤ 3)%nat → 0 ≤ x < 512 → (q, x) ≠ (p, i) → ¬ (p ++ [i]) `prefix_of` q →
  ent m' q x = ent m q x.
Proof.
  intros Hq Hl Hx Hne Hnp. unfold ent. rewrite create_tbl by done.
  destruct (tbl m root q) as [T'|] eqn:HT'; [| done]. cbn. f_equal. by apply (create_read q).
Qed.

Lemma create_ent_new x : 0 ≤ x < 512 → ent m' (p ++ [i]) x = Some 0.
Proof. intros Hx. unfold ent. rewrite create_tbl_here. cbn. by rewrite Hzero. Qed.

Lemma create_old_tbl : tbl m root (p ++ [i]) = None.
Proof. rewrite tbl_snoc, HT. cbn. unfold ptr_of. by rewrite Hold. Qed.

(** A new empty table translates nothing, as the absent one did. *)
Lemma create_leaf a b c d : indices a b c d → leaf m' a b c d = leaf m a b c d.
Proof.
  intros Hidx. pose proof (indices_path a b c d Hidx) as (P1 & P2 & P3).
  destruct Hidx as (? & ? & ? & ?).
  destruct (decide ((p ++ [i]) `prefix_of` [a; b; c])) as [Hpre|Hnp].
  - pose proof create_ent_new as Hnew. pose proof create_old_tbl as Hnone.
    pose proof create_ent as Hsame.
    assert (ent m p i = Some (m (T + 8 * i))) as Hent by (unfold ent; by rewrite HT).
    assert (ent m' p i = Some v) as Hent'
      by (unfold ent; rewrite create_tbl_parent; cbn; by rewrite create_here).
    assert (Z.testbit v 0 = true ∧ Z.testbit v 7 = false) as [V0 V7].
    { unfold ptr_of in Hv. by destruct (Z.testbit v 0), (Z.testbit v 7). }
    unfold leaf. destruct p as [|p0 [|p1 [|p2 p']]]; cbn [app] in *; [| | |cbn in Hlen; lia].
    + apply prefix_cons_inv_1 in Hpre as ->. rewrite Hnew by done.
      assert (ent m [a] b = None) as -> by (unfold ent; by rewrite Hnone). done.
    + pose proof (prefix_cons_inv_1 _ _ _ _ Hpre) as ->. apply prefix_cons_inv_2 in Hpre.
      apply prefix_cons_inv_1 in Hpre as ->. rewrite Hent, Hent', Hnew by done.
      cbn [mbind option_bind]. rewrite Hold, V0, V7. done.
    + pose proof (prefix_cons_inv_1 _ _ _ _ Hpre) as ->. apply prefix_cons_inv_2 in Hpre.
      pose proof (prefix_cons_inv_1 _ _ _ _ Hpre) as ->. apply prefix_cons_inv_2 in Hpre.
      apply prefix_cons_inv_1 in Hpre as ->. rewrite Hent, Hent', Hnew by done.
      rewrite (Hsame [a] b); [| done | cbn; lia | done | done |
        intros Hpl%prefix_length; cbn in Hpl; lia].
      cbn [mbind option_bind]. rewrite Hold, V0, V7. done.
  - unfold leaf. rewrite (create_ent [a] b), (create_ent [a; b] c), (create_ent [a; b; c] d);
      try (done || cbn; lia).
    + intros [= <- <-]. cbn in Hlen. lia.
    + intros [= <- <-]. by apply Hnp.
    + intros Hpre. apply Hnp. etrans; [exact Hpre |]. by exists [c].
    + intros [= <- <-]. apply Hnp. by exists [c].
    + intros Hpre. apply Hnp. etrans; [exact Hpre |]. by exists [b; c].
Qed.
End create.

(** ** Writing a leaf *)

Lemma ptr_of_Some e T : ptr_of e = Some T → Z.testbit e 0 = true ∧ Z.testbit e 7 = false.
Proof. unfold ptr_of. by destruct (Z.testbit e 0), (Z.testbit e 7). Qed.

Lemma ptr_of_None e : ptr_of e = None → Z.testbit e 0 = true → Z.testbit e 7 = true.
Proof. unfold ptr_of. by destruct (Z.testbit e 0), (Z.testbit e 7). Qed.

(** The entry on the way to a table. *)
Lemma tbl_parent m p i T :
  tbl m root (p ++ [i]) = Some T →
  ∃ e, ent m p i = Some e ∧ Z.testbit e 0 = true ∧ Z.testbit e 7 = false.
Proof.
  rewrite tbl_ent. intros (e & He & Hp)%bind_Some. exists e. split; [done |].
  by eapply ptr_of_Some.
Qed.

(** The translation by the last table. *)
Lemma leaf_at_4k m a b c d T :
  tbl m root [a; b; c] = Some T →
  leaf m a b c d = let e := m (T + 8 * d) in if Z.testbit e 0 then Some (M4KiB, e) else None.
Proof.
  intros HT. destruct (tbl_parent m [a; b] c T HT) as (e2 & H2 & E0 & E7).
  assert (is_Some (tbl m root ([a] ++ [b]))) as [T2 HT2].
  { change [a; b; c] with (([a] ++ [b]) ++ [c]) in HT. rewrite tbl_snoc in HT.
    by apply bind_Some in HT as (T2 & ? & _). }
  destruct (tbl_parent m [a] b T2 HT2) as (e3 & H3 & F0 & F7).
  unfold leaf. rewrite H3, H2. cbn [mbind option_bind]. rewrite E0, E7, F0, F7.
  unfold ent. by rewrite HT.
Qed.

Lemma leaf_at_2m m a b c d T :
  tbl m root [a; b] = Some T → ptr_of (m (T + 8 * c)) = None →
  leaf m a b c d = let e := m (T + 8 * c) in if Z.testbit e 0 then Some (M2MiB, e) else None.
Proof.
  intros HT Hn. destruct (tbl_parent m [a] b T HT) as (e3 & H3 & F0 & F7).
  assert (ent m [a; b] c = Some (m (T + 8 * c))) as H2 by (unfold ent; by rewrite HT).
  unfold leaf. rewrite H3, H2. cbn [mbind option_bind]. rewrite F0, F7. cbn zeta.
  destruct (Z.testbit (m (T + 8 * c)) 0) eqn:E0; [| done]. by rewrite (ptr_of_None _ Hn E0).
Qed.

Lemma leaf_at_1g m a b c d T :
  tbl m root [a] = Some T → ptr_of (m (T + 8 * b)) = None →
  leaf m a b c d = let e := m (T + 8 * b) in if Z.testbit e 0 then Some (M1GiB, e) else None.
Proof.
  intros HT Hn. assert (ent m [a] b = Some (m (T + 8 * b))) as H3 by (unfold ent; by rewrite HT).
  unfold leaf. rewrite H3. cbn [mbind option_bind]. cbn zeta.
  destruct (Z.testbit (m (T + 8 * b)) 0) eqn:E0; [| done]. by rewrite (ptr_of_None _ Hn E0).
Qed.

Lemma upd_level1_wf m p i T v :
  wf_tree m → path p → length p = 3%nat → 0 ≤ i < 512 → tbl m root p = Some T →
  wf_tree (<[T + 8 * i := v]> m) ∧
  ∀ q, path q → (length q ≤ 3)%nat → tbl (<[T + 8 * i := v]> m) root q = tbl m root q.
Proof.
  intros Hwf Hp Hlen Hi HT.
  assert (∀ q, path q → (length q ≤ 3)%nat →
            tbl (<[T + 8 * i := v]> m) root q = tbl m root q) as Htbl.
  { intros q Hq Hlq. apply (upd_tbl m Hwf p i T); try (done || lia).
    intros Hpre%prefix_length. rewrite length_app in Hpre. cbn in Hpre. lia. }
  split; [| done]. split; try apply Hwf.
  - rewrite (upd_read m Hwf p i T Hp ltac:(lia) Hi HT v [] r root); try done;
      [apply Hwf | cbn; lia | apply Hwf |]. intros [= <- _]. done.
  - intros q q' T' ? ? ? ?. rewrite !Htbl by done. by apply Hwf.
  - intros j Hj. rewrite (upd_read m Hwf p i T Hp ltac:(lia) Hi HT v [] j root); try done;
      [by apply Hwf | cbn; lia |]. intros [= <- _]. done.
Qed.

Lemma leaf_set_4k m a0 b0 c0 d0 T v a b c d :
  wf_tree m → indices a0 b0 c0 d0 → tbl m root [a0; b0; c0] = Some T → indices a b c d →
  leaf (<[T + 8 * d0 := v]> m) a b c d =
    if decide ((a, b, c, d) = (a0, b0, c0, d0))
    then if Z.testbit v 0 then Some (M4KiB, v) else None
    else leaf m a b c d.
Proof.
  intros Hwf Hi0 HT Hi. pose proof (indices_path _ _ _ _ Hi0) as (Q1 & Q2 & Q3).
  pose proof (indices_path _ _ _ _ Hi) as (P1 & P2 & P3).
  destruct Hi0 as (? & ? & ? & Hd0). destruct Hi as (? & ? & ? & ?).
  pose proof (upd_ent m Hwf [a0; b0; c0] d0 T Q3 ltac:(cbn; lia) Hd0 HT v) as Hent.
  assert (∀ q, (length q ≤ 3)%nat → ¬ ([a0; b0; c0] ++ [d0]) `prefix_of` q) as Hnp.
  { intros q Hq Hpre%prefix_length. cbn in Hpre. lia. }
  unfold leaf. rewrite (Hent [a] b), (Hent [a; b] c); try (done || cbn; lia || by apply Hnp);
    try (apply Hnp; cbn; lia).
  destruct (decide _) as [[= -> -> -> ->]|Hne].
  - destruct (tbl_parent m [a0; b0] c0 T HT) as (e2 & -> & E0 & E7).
    assert (is_Some (tbl m root ([a0] ++ [b0]))) as [T2 HT2].
    { change [a0; b0; c0] with (([a0] ++ [b0]) ++ [c0]) in HT. rewrite tbl_snoc in HT.
      by apply bind_Some in HT as (T2 & ? & _). }
    destruct (tbl_parent m [a0] b0 T2 HT2) as (e3 & -> & F0 & F7).
    rewrite (upd_ent_here m Hwf [a0; b0; c0] d0 T) by (done || cbn; lia).
    cbn [mbind option_bind]. by rewrite E0, E7, F0, F7.
  - rewrite (Hent [a; b; c] d); try (done || cbn; lia); [congruence | apply Hnp; cbn; lia].
Qed.

Lemma leaf_set_2m m a0 b0 c0 T v a b c d :
  wf_tree m → indices a0 b0 c0 0 → tbl m root [a0; b0] = Some T → indices a b c d →
  ptr_of v = None → ptr_of (m (T + 8 * c0)) = None →
  leaf (<[T + 8 * c0 := v]> m) a b c d =
    if decide ((a, b, c) = (a0, b0, c0))
    then if Z.testbit v 0 then Some (M2MiB, v) else None
    else leaf m a b c d.
Proof.
  intros Hwf Hi0 HT Hi Hv Hold. pose proof (indices_path _ _ _ _ Hi0) as (Q1 & Q2 & Q3).
  pose proof (indices_path _ _ _ _ Hi) as (P1 & P2 & P3).
  destruct Hi0 as (? & ? & Hc0 & _). destruct Hi as (? & ? & ? & ?).
  assert (ptr_of v = ptr_of (m (T + 8 * c0))) as Hptr by congruence.
  pose proof (λ q x, upd_ptr_ent m Hwf [a0; b0] c0 T Q2 ltac:(cbn; lia) Hc0 HT v q x Hptr) as Hent.
  unfold leaf. rewrite (Hent [a] b), (Hent [a; b; c] d); try (done || cbn; lia).
  destruct (decide _) as [[= -> -> ->]|Hne].
  - destruct (tbl_parent m [a0] b0 T HT) as (e3 & -> & F0 & F7).
    rewrite (upd_ent_here m Hwf [a0; b0] c0 T) by (done || cbn; lia).
    cbn [mbind option_bind]. rewrite F0, F7. cbn [negb].
    destruct (Z.testbit v 0) eqn:V0; [| done]. cbn [negb]. by rewrite (ptr_of_None v Hv V0).
  - rewrite (Hent [a; b] c); try (done || cbn; lia). congruence.
Qed.

Lemma leaf_set_1g m a0 b0 T v a b c d :
  wf_tree m → indices a0 b0 0 0 → tbl m root [a0] = Some T → indices a b c d →
  ptr_of v = None → ptr_of (m (T + 8 * b0)) = None →
  leaf (<[T + 8 * b0 := v]> m) a b c d =
    if decide ((a, b) = (a0, b0))
    then if Z.testbit v 0 then Some (M1GiB, v) else None
    else leaf m a b c d.
Proof.
  intros Hwf Hi0 HT Hi Hv Hold. pose proof (indices_path _ _ _ _ Hi0) as (Q1 & Q2 & Q3).
  pose proof (indices_path _ _ _ _ Hi) as (P1 & P2 & P3).
  destruct Hi0 as (? & Hb0 & _). destruct Hi as (? & ? & ? & ?).
  assert (ptr_of v = ptr_of (m (T + 8 * b0))) as Hptr by congruence.
  pose proof (λ q x, upd_ptr_ent m Hwf [a0] b0 T Q1 ltac:(cbn; lia) Hb0 HT v q x Hptr) as Hent.
  unfold leaf. rewrite (Hent [a; b] c), (Hent [a; b; c] d); try (done || cbn; lia).
  destruct (decide _) as [[= -> ->]|Hne].
  - rewrite (upd_ent_here m Hwf [a0] b0 T) by (done || cbn; lia).
    cbn [mbind option_bind]. destruct (Z.testbit v 0) eqn:V0; [| done]. cbn [negb].
    by rewrite (ptr_of_None v Hv V0).
  - rewrite (Hent [a] b); try (done || cbn; lia). congruence.
Qed.

End tree.
