(* ===== verification/PageMap.v ===== *)
(** * Mapping and translating pages

    The operations of the recursive [PageTable] and of the [OffsetPageTable] in
    terms of the tree of tables: the recursive addresses reach the tables, and
    each operation has the effect it promises on the translation of every
    address. *)

From stdpp Require Import functions.
From S2P Require Import Prelude Addrs Paging PageTable PageTree.

Lemma ok_bind_Ok {St E A B} (m : eff St E A) (f : A → eff St E B) s s' a :
  m s = Ret (s', Ok a) → ok (m ≫= f) s = ok (f a) s'.
Proof. intros H. unfold ok. by rewrite (eff_bind_Ok _ _ _ _ _ H). Qed.

Lemma ok_bind_Err {St E A B} (m : eff St E A) (f : A → eff St E B) s s' e :
  m s = Ret (s', Err e) → ok (m ≫= f) s = Ret None.
Proof. intros H. unfold ok. by rewrite (eff_bind_Err _ _ _ _ _ H). Qed.

Lemma ok_bind_lift {St E A B} (m : out A) (f : A → eff St E B) s a :
  m = Ret a → ok (lift m ≫= f) s = ok (f a) s.
Proof. intros ->. done. Qed.

(** The indices of an address. *)
Definition ix4 (va : Z) : Z := (va / 2 ^ 39) mod 512.
Definition ix3 (va : Z) : Z := (va / 2 ^ 30) mod 512.
Definition ix2 (va : Z) : Z := (va / 2 ^ 21) mod 512.
Definition ix1 (va : Z) : Z := (va / 2 ^ 12) mod 512.

(** The walk through four levels of tables from [root] that the processor does
    for an address mapped by a page of 4 KiB (access rights aside). *)
Class MmuLaws `{Mmu} (root : Z) : Prop := mmu_walk m va T3 T2 T1 :
  VirtAddr.canonical va →
  ptr_of (m (root + 8 * ix4 va)) = Some T3 →
  ptr_of (m (T3 + 8 * ix3 va)) = Some T2 →
  ptr_of (m (T2 + 8 * ix2 va)) = Some T1 →
  Z.testbit (m (T1 + 8 * ix1 va)) 0 = true →
  mmu m va = Some (frame_of (m (T1 + 8 * ix1 va)) + va mod 4096).

(** What a frame allocator promises under its invariant: it does not panic, and the
    frames it hands out are its own and are handed out once. *)
Class FrameAllocatorLaws (A : Type) `{!FrameAllocator A} := {
  alloc_inv : A → Prop;
  owned : A → Z → Prop;
  alloc_returns a : alloc_inv a → ∃ o a', allocate_frame a = Ret (o, a') ∧ alloc_inv a';
  alloc_owned a f a' : alloc_inv a → allocate_frame a = Ret (Some f, a') →
    aligned_frame (frame_start f) ∧ owned a (frame_start f) ∧
    ∀ x, owned a' x → owned a x ∧ x ≠ frame_start f;
  alloc_none a a' : alloc_inv a → allocate_frame a = Ret (None, a') → ∀ x, owned a' x → owned a x;
}.

(** ** Recursive addresses *)

(** The start of the page with the given indices. *)
Definition page_at (a b c d : Z) : Z :=
  VirtAddr.canonicalize (a * 2 ^ 39 + b * 2 ^ 30 + c * 2 ^ 21 + d * 2 ^ 12).

Lemma page_at_low a b c d o :
  0 ≤ a < 512 → 0 ≤ b < 512 → 0 ≤ c < 512 → 0 ≤ d < 512 → 0 ≤ o < 4096 →
  VirtAddr.canonical (page_at a b c d + o) ∧
  (page_at a b c d + o) mod 2 ^ 48 = a * 2 ^ 39 + b * 2 ^ 30 + c * 2 ^ 21 + d * 2 ^ 12 + o.
Proof.
  intros. unfold page_at. set (x := a * 2 ^ 39 + b * 2 ^ 30 + c * 2 ^ 21 + d * 2 ^ 12).
  assert (0 ≤ x ∧ x + o < 2 ^ 48) as [Hx Hxo] by (subst x; lia).
  rewrite VirtAddr.canonicalize_eq by (unfold is_uint; lia). rewrite Z.mod_small by lia.
  unfold VirtAddr.canonical, VirtAddr.MAX, VirtAddr.MIN_UPPER_HALF, VirtAddr.MAX_LOWER_HALF.
  destruct (Z.ltb_spec x (2 ^ 47)).
  - split; [left; subst x; lia |]. apply Z.mod_small. lia.
  - split; [right; lia |].
    replace (x + (2 ^ 64 - 2 ^ 48) + o) with (x + o + 65535 * 2 ^ 48) by lia.
    rewrite Z.mod_add by lia. apply Z.mod_small. lia.
Qed.

Lemma page_at_indices a b c d o :
  0 ≤ a < 512 → 0 ≤ b < 512 → 0 ≤ c < 512 → 0 ≤ d < 512 → 0 ≤ o < 4096 →
  let va := page_at a b c d + o in
  ix4 va = a ∧ ix3 va = b ∧ ix2 va = c ∧ ix1 va = d ∧ va mod 4096 = o.
Proof.
  intros. destruct (page_at_low a b c d o) as [_ E]; try done. fold va in E.
  pose proof (VirtAddr.low48_digits va) as D. rewrite E in D. unfold ix4, ix3, ix2, ix1.
  pose proof (Z.mod_pos_bound (va / 2 ^ 39) 512 ltac:(lia)).
  pose proof (Z.mod_pos_bound (va / 2 ^ 30) 512 ltac:(lia)).
  pose proof (Z.mod_pos_bound (va / 2 ^ 21) 512 ltac:(lia)).
  pose proof (Z.mod_pos_bound (va / 2 ^ 12) 512 ltac:(lia)).
  pose proof (Z.mod_pos_bound va 4096 ltac:(lia)). lia.
Qed.

(** Shifting the address of an entry by one level. *)
Lemma next_unchecked_page_at a b c d j :
  0 ≤ a < 512 → 0 ≤ b < 512 → 0 ≤ c < 512 → 0 ≤ d < 512 → 0 ≤ j < 512 →
  Entry.next_unchecked (page_at a b c d + 8 * j) = page_at b c d j.
Proof.
  intros. destruct (page_at_low a b c d (8 * j)) as [Hc E]; [lia.. |].
  unfold Entry.next_unchecked, VirtAddr.new_extend, shl_w, page_at at 2.
  set (va := page_at a b c d + 8 * j) in *. rewrite Z.shiftl_mul_pow2 by lia.
  rewrite <- VirtAddr.canonicalize_mod
    by (unfold is_uint; pose proof (Z.mod_pos_bound (va * 2 ^ 9) (2 ^ 64)); lia).
  f_equal. rewrite Z.mod_mod_divide by (exists (2 ^ 16); lia).
  rewrite <- Zmult_mod_idemp_l, E.
  replace ((a * 2 ^ 39 + b * 2 ^ 30 + c * 2 ^ 21 + d * 2 ^ 12 + 8 * j) * 2 ^ 9)
    with (b * 2 ^ 39 + c * 2 ^ 30 + d * 2 ^ 21 + j * 2 ^ 12 + a * 2 ^ 48) by lia.
  rewrite Z.mod_add by lia. apply Z.mod_small. lia.
Qed.

(** ** Access to the tables *)

Section recursive.
Context `{Mmu} (root r : Z) `{!MmuLaws root} {A : Type}.

(** The recursive address of the table at a path. *)
Definition rva (p : list Z) : Z :=
  match p with
  | [] => page_at r r r r
  | [a] => page_at r r r a
  | [a; b] => page_at r r a b
  | [a; b; c] => page_at r a b c
  | _ => 0
  end.

(** The recursive entry is in place. *)
Definition rec_ok (m : Z → Z) : Prop := 0 ≤ r < 512 ∧ ptr_of (m (root + 8 * r)) = Some root.

Lemma wf_rec m : wf_tree root r m → rec_ok m.
Proof. intros Hwf. split; apply Hwf. Qed.

Lemma walk_page m a b c d T3 T2 T1 T j :
  0 ≤ a < 512 → 0 ≤ b < 512 → 0 ≤ c < 512 → 0 ≤ d < 512 → 0 ≤ j < 512 →
  ptr_of (m (root + 8 * a)) = Some T3 → ptr_of (m (T3 + 8 * b)) = Some T2 →
  ptr_of (m (T2 + 8 * c)) = Some T1 → ptr_of (m (T1 + 8 * d)) = Some T →
  mmu m (page_at a b c d + 8 * j) = Some (T + 8 * j).
Proof.
  intros Ha Hb Hc Hd Hj H3 H2 H1 H0.
  destruct (page_at_low a b c d (8 * j)) as [Hcan _]; [lia.. |].
  destruct (page_at_indices a b c d (8 * j)) as (E4 & E3 & E2 & E1 & Eo); [lia.. |].
  set (va := page_at a b c d + 8 * j) in *.
  rewrite (mmu_walk m va T3 T2 T1 Hcan); rewrite ?E4, ?E3, ?E2, ?E1, ?Eo; try done.
  - unfold ptr_of in H0. destruct (_ && _); [| done]. by injection H0 as ->.
  - by apply (ptr_of_Some (m (T1 + 8 * d)) T).
Qed.

Lemma rva_mmu m p T j :
  rec_ok m → Forall (λ i, 0 ≤ i < 512) p → (length p ≤ 3)%nat → tbl m root p = Some T →
  0 ≤ j < 512 → mmu m (rva p + 8 * j) = Some (T + 8 * j).
Proof.
  intros [Hr Hrec] Hp Hlen HT Hj. destruct p as [|a [|b [|c [|? ?]]]]; cbn in Hlen; [| | | |lia];
    rewrite ?Forall_cons in Hp; cbn [tbl] in HT; cbn [rva].
  - injection HT as <-. by eapply walk_page.
  - apply bind_Some in HT as (T3 & H3 & [= <-]). by eapply walk_page; try apply Hp.
  - apply bind_Some in HT as (T3 & H3 & (T2 & H2 & [= <-])%bind_Some).
    by eapply walk_page; try apply Hp.
  - apply bind_Some in HT as (T3 & H3 & (T2 & H2 & (T1 & H1 & [= <-])%bind_Some)%bind_Some).
    by eapply walk_page; try apply Hp.
Qed.

Lemma rva_next p j :
  0 ≤ r < 512 → Forall (λ i, 0 ≤ i < 512) p → (length p ≤ 2)%nat → 0 ≤ j < 512 →
  Entry.next_unchecked (rva p + 8 * j) = rva (p ++ [j]).
Proof.
  intros Hr Hp Hlen Hj. destruct p as [|a [|b [|? ?]]]; cbn in Hlen; [| | |lia];
    rewrite ?Forall_cons in Hp; cbn [rva app]; apply next_unchecked_page_at; (lia || apply Hp).
Qed.

Section at_path.
Context (m : Z → Z) (p : list Z) (T j : Z) (a : A).
Context (Hrec : rec_ok m) (Hp : Forall (λ i, 0 ≤ i < 512) p) (Hlen : (length p ≤ 3)%nat).
Context (HT : tbl m root p = Some T) (Hj : 0 ≤ j < 512).

Lemma load_at {E} : load (E := E) (rva p + 8 * j) (m, a) = Ret ((m, a), Ok (m (T + 8 * j))).
Proof. unfold load. by rewrite (rva_mmu m p T j). Qed.

Lemma store_at {E} v :
  store (E := E) (rva p + 8 * j) v (m, a) = Ret ((<[T + 8 * j := v]> m, a), Ok tt).
Proof. unfold store. by rewrite (rva_mmu m p T j). Qed.

Lemma next_at {F} :
  (length p ≤ 2)%nat →
  next (F := F) (rva p + 8 * j) (m, a) =
    Ret ((m, a),
      let e := m (T + 8 * j) in
      if Z.testbit e 0 then if Z.testbit e 7 then Err UnexpectedLargePage else Ok (rva (p ++ [j]))
      else Err NotMapped).
Proof.
  intros Hl. unfold next. rewrite (eff_bind_Ok _ _ _ _ _ load_at).
  rewrite is_present_bit, is_large_bit, rva_next by (done || apply Hrec).
  by destruct (Z.testbit _ 0), (Z.testbit _ 7).
Qed.

Lemma entry_set_at {E} f fl :
  aligned_frame f →
  entry_set (E := E) (rva p + 8 * j) f fl (m, a) =
    Ret ((<[T + 8 * j := Z.lor f fl]> m, a), Ok tt).
Proof.
  intros Hf. unfold entry_set. rewrite (eff_bind_lift _ _ _ _ (set_eq f fl Hf)). apply store_at.
Qed.

Lemma entry_add_flags_at {E} fl :
  entry_add_flags (E := E) (rva p + 8 * j) fl (m, a) =
    Ret ((<[T + 8 * j := Entry.add_flags (m (T + 8 * j)) fl]> m, a), Ok tt).
Proof. unfold entry_add_flags. rewrite (eff_bind_Ok _ _ _ _ _ load_at). apply store_at. Qed.

Lemma entry_set_flags_at {E} fl :
  entry_set_flags (E := E) (rva p + 8 * j) fl (m, a) =
    Ret ((<[T + 8 * j := Entry.set_flags (m (T + 8 * j)) fl]> m, a), Ok tt).
Proof. unfold entry_set_flags. rewrite (eff_bind_Ok _ _ _ _ _ load_at). apply store_at. Qed.
End at_path.

(** ** Going down one level, creating the table if needed *)

Context `{!FrameAllocator A}.

Context `{!FrameAllocatorLaws A}.

(** The tables are a tree, and none of them is a frame of the allocator. *)
Definition pt_inv (m : Z → Z) (a : A) : Prop :=
  wf_tree root r m ∧ (∀ f, owned a f → unused root r m f) ∧ alloc_inv a.

Lemma clear_loop {E} p f m1 (a : A) n : ∀ i m,
  (∀ m', outside f m1 m' → rec_ok m' ∧ tbl m' root p = Some f) →
  Forall (λ i, 0 ≤ i < 512) p → (length p ≤ 3)%nat →
  outside f m1 m → 0 ≤ i → i + Z.of_nat n = 512 → (∀ j, 0 ≤ j < i → m (f + 8 * j) = 0) →
  ∃ m', clear_from (E := E) n (rva p) i (m, a) = Ret ((m', a), Ok tt) ∧
    outside f m1 m' ∧ zeroed f m'.
Proof.
  induction n as [|n IH]; intros i m Hacc Hp Hlen Hout Hi Hn Hz; cbn [clear_from].
  { exists m. split_and!; [done | done |]. intros j Hj. apply Hz. lia. }
  destruct (Hacc m Hout) as [Hrec HT].
  rewrite (eff_bind_Ok _ _ _ _ _ (store_at m p f i a Hrec Hp Hlen HT ltac:(lia) Entry.EMPTY)).
  apply IH; try done; [| lia | lia |].
  - intros x Hx. rewrite fn_lookup_insert_ne by (intros E'; by apply (Hx i); [lia |]). by apply Hout.
  - intros j Hj. destruct (decide (j = i)) as [->|Hne]; [by rewrite fn_lookup_insert |].
    rewrite fn_lookup_insert_ne by lia. apply Hz. lia.
Qed.

Lemma clear_at {E} p f m (a : A) :
  (∀ m', outside f m m' → rec_ok m' ∧ tbl m' root p = Some f) →
  Forall (λ i, 0 ≤ i < 512) p → (length p ≤ 3)%nat →
  ∃ m', clear (E := E) (rva p) (m, a) = Ret ((m', a), Ok tt) ∧ outside f m m' ∧ zeroed f m'.
Proof. intros Hacc Hp Hlen. apply clear_loop; try done. intros j Hj. lia. Qed.

Lemma parent_entry f fl :
  aligned_frame f → parent_like fl → ptr_of (Z.lor f (Z.lor fl Flags.PRESENT)) = Some f.
Proof.
  intros Hf (Hfl & H0 & H7). unfold ptr_of.
  rewrite (made_bit f _ 0), (made_bit f _ 7) by (done || lia).
  rewrite !(Z.lor_spec fl), H0, H7. change (Z.testbit Flags.PRESENT 7) with false. cbn [orb andb negb].
  rewrite made_frame; [done | done |]. unfold wf_flags. by rewrite Z.land_lor_distr_l, Hfl.
Qed.

(** The outcome of going down from entry [i] of the table at [p]. *)
Definition down_post (m : Z → Z) (a : A) (p : list Z) (i : Z) {F}
    (m' : Z → Z) (a' : A) (res : result Z (MappingError F)) : Prop :=
  pt_inv m' a' ∧
  match res with
  | Ok va => va = rva (p ++ [i]) ∧ is_Some (tbl m' root (p ++ [i])) ∧
      (∀ x y z w, indices r x y z w → leaf root m' x y z w = leaf root m x y z w)
  | Err UnexpectedLargePage =>
      ∃ e, ent root m p i = Some e ∧ Z.testbit e 0 = true ∧ Z.testbit e 7 = true
  | Err FrameAllocationFailed => m' = m
  | Err _ => False
  end.

Lemma pt_inv_upd m a p i T v :
  pt_inv m a → tbl m root p = Some T → path r p → (length p ≤ 3)%nat → 0 ≤ i < 512 →
  ptr_of v = ptr_of (m (T + 8 * i)) → (p = [] → Z.testbit v 0 = true → is_Some (ptr_of v)) →
  pt_inv (<[T + 8 * i := v]> m) a.
Proof.
  intros (Hwf & Hun & Hai) HT Hp Hl Hi Hv Hsmall. split_and!; [by eapply upd_wf | | done].
  intros f Hf q Hq Hlq. rewrite (upd_ptr_tbl root m i T) by done. by apply Hun.
Qed.

(** The entry is present: its flags are extended. *)
Lemma down_present m a p i T fl {F} :
  pt_inv m a → path r (p ++ [i]) → (length p ≤ 2)%nat → tbl m root p = Some T → parent_like fl →
  Z.testbit (m (T + 8 * i)) 0 = true →
  ∃ m' res, PageTable.next_or_create (F := F) (rva p + 8 * i) fl (m, a) = Ret ((m', a), res) ∧
    down_post m a p i m' a res.
Proof.
  intros Hinv Hpi Hlen HT Hfl E0. pose proof Hinv as [Hwf _].
  pose proof (path_app _ _ _ Hpi) as [Hp Hi]. pose proof (wf_rec m Hwf) as Hrec.
  pose proof Hfl as (_ & F0 & F7).
  unfold PageTable.next_or_create. change Flags.HUGE_PAGE with (2 ^ 7).
  rewrite contains_bit, F7 by lia.
  rewrite (eff_bind_Ok _ _ _ _ _ (load_at m p T i a Hrec (proj1 Hp) ltac:(lia) HT Hi)).
  rewrite is_present_bit, E0.
  set (e := m (T + 8 * i)) in *. set (v := Entry.add_flags e fl).
  destruct (add_flags_same e fl Hfl E0) as (V0 & V7 & Vf). fold v in V0, V7, Vf.
  assert (ptr_of v = ptr_of e) as Hv by (unfold ptr_of; by rewrite V0, V7, Vf, E0).
  rewrite (eff_bind_Ok _ _ _ _ _ (entry_add_flags_at m p T i a Hrec (proj1 Hp) ltac:(lia) HT Hi fl)).
  fold e v. set (m' := <[T + 8 * i := v]> m).
  assert (pt_inv m' a) as Hinv'.
  { apply (pt_inv_upd m a p); try done; [lia|]. intros -> _. injection HT as <-. rewrite Hv.
    by apply (wt_small _ _ _ Hwf). }
  assert (tbl m' root p = Some T) as HT' by (subst m'; by rewrite upd_ptr_tbl).
  rewrite (next_at m' p T i a (wf_rec m' (proj1 Hinv')) (proj1 Hp) ltac:(lia) HT' Hi Hlen).
  subst m'. rewrite fn_lookup_insert. cbn zeta. rewrite V0, V7.
  do 2 eexists. split; [done |]. split; [done |].
  destruct (Z.testbit e 7) eqn:E7.
  - exists e. unfold ent. rewrite HT. done.
  - split_and!; [done | |].
    + rewrite upd_ptr_tbl by done. rewrite tbl_snoc, HT. cbn. fold e. unfold ptr_of.
      by rewrite E0, E7.
    + intros x y z w Hidx. apply (leaf_more_flags root r m p); try done.
      fold e. unfold ptr_of. by rewrite E0, E7.
Qed.

(** The entry is not present: a table is created. *)
Lemma down_absent m a p i T fl {F} :
  pt_inv m a → path r (p ++ [i]) → (length p ≤ 2)%nat → tbl m root p = Some T → parent_like fl →
  Z.testbit (m (T + 8 * i)) 0 = false →
  ∃ m' a' res, PageTable.next_or_create (F := F) (rva p + 8 * i) fl (m, a) = Ret ((m', a'), res) ∧
    down_post m a p i m' a' res.
Proof.
  intros Hinv Hpi Hlen HT Hfl E0. pose proof Hinv as (Hwf & Hun & Hai).
  pose proof (path_app _ _ _ Hpi) as [Hp Hi]. pose proof (wf_rec m Hwf) as Hrec.
  pose proof Hfl as (_ & F0 & F7).
  unfold PageTable.next_or_create. change Flags.HUGE_PAGE with (2 ^ 7).
  rewrite contains_bit, F7 by lia.
  rewrite (eff_bind_Ok _ _ _ _ _ (load_at m p T i a Hrec (proj1 Hp) ltac:(lia) HT Hi)).
  rewrite is_present_bit, E0.
  destruct (alloc_returns a Hai) as ([[f]|] & a' & Ha & Hai').
  2: { do 3 eexists. unfold new_frame, mbind, eff_bind. rewrite Ha. split; [done |].
       split; [| done]. split_and!; [done | | done]. intros f Hf. by apply Hun, (alloc_none a a'). }
  destruct (alloc_owned a (mkFrame f) a' Hai Ha) as (Hf & Hown & Hrest). cbn in Hf, Hown, Hrest.
  assert (new_frame (F := F) (m, a) = Ret ((m, a'), Ok (mkFrame f))) as Hnew
    by (unfold new_frame; by rewrite Ha).
  rewrite (eff_bind_Ok _ _ _ _ _ Hnew). cbn [Frame.start_address frame_start].
  rewrite (eff_bind_Ok _ _ _ _ _ (entry_set_at m p T i a' Hrec (proj1 Hp) ltac:(lia) HT Hi f _ Hf)).
  pose proof (parent_entry f fl Hf Hfl) as Hv. set (v := Z.lor f (Z.lor fl Flags.PRESENT)) in *.
  pose proof (Hun f Hown) as Hfree. set (m1 := <[T + 8 * i := v]> m).
  assert (∀ m', outside f m1 m' → rec_ok m' ∧ tbl m' root (p ++ [i]) = Some f ∧
            tbl m' root p = Some T) as Hacc.
  { intros m' Ho. split_and!; [split; [apply Hwf |] | |].
    - by apply (create_rec root r m Hwf p i T Hpi Hlen HT E0 f v Hf Hfree m').
    - by apply (create_tbl_here root r m Hwf p i T Hpi Hlen HT f v Hf Hfree Hv m').
    - by apply (create_tbl_parent root r m Hwf p i T Hpi Hlen HT f v Hf Hfree m'). }
  destruct (Hacc m1 ltac:(done)) as (Hrec1 & HT1 & HTp).
  pose proof (next_at (F := F) m1 p T i a' Hrec1 (proj1 Hp) ltac:(lia) HTp Hi Hlen) as Hnext.
  subst m1. rewrite fn_lookup_insert in Hnext. cbn zeta in Hnext.
  destruct (ptr_of_Some v f Hv) as [V0 V7]. rewrite V0, V7 in Hnext.
  rewrite (eff_bind_Ok _ _ _ _ _ Hnext).
  destruct (clear_at (E := MappingError F) (p ++ [i]) f (<[T + 8 * i := v]> m) a')
    as (m' & Hclear & Hout & Hz).
  { intros m' Ho. destruct (Hacc m' Ho) as (? & ? & _). done. }
  { apply Hpi. } { rewrite length_app. cbn. lia. }
  rewrite (eff_bind_Ok _ _ _ _ _ Hclear). do 3 eexists. split; [done |].
  split; [split_and! |].
  - by apply (create_wf root r m Hwf p i T Hpi Hlen HT E0 f v Hf Hfree Hv m').
  - intros g [Hg Hne]%Hrest q Hq Hlq HTq.
    destruct (create_tables root r m Hwf p i T Hpi Hlen HT f v Hf Hfree Hv m' Hout Hz q g Hq Hlq HTq)
      as [[_ ?]|[_ HTq']]; [done | by apply (Hun g Hg q)].
  - done.
  - split_and!; [done | |].
    + destruct (Hacc m' Hout) as (_ & -> & _). done.
    + intros x y z w Hidx.
      by apply (create_leaf root r m Hwf p i T Hpi Hlen HT E0 f v Hf Hfree Hv m').
Qed.

Lemma down_spec m a p i T fl {F} :
  pt_inv m a → path r (p ++ [i]) → (length p ≤ 2)%nat → tbl m root p = Some T → parent_like fl →
  ∃ m' a' res, PageTable.next_or_create (F := F) (rva p + 8 * i) fl (m, a) = Ret ((m', a'), res) ∧
    down_post m a p i m' a' res.
Proof.
  intros Hinv Hpi Hlen HT Hfl. destruct (Z.testbit (m (T + 8 * i)) 0) eqn:E0.
  - destruct (down_present m a p i T fl (F := F)) as (m' & res & ? & ?); eauto.
  - by eapply down_absent.
Qed.

(** ** Mapping *)

Lemma index_at {E} p i (s : (Z → Z) * A) :
  0 ≤ i < 512 → index (E := E) p i s = Ret (s, Ok (p + 8 * i)).
Proof. intros Hi. unfold index. by rewrite (proj2 (Z.ltb_lt _ _)) by lia. Qed.

Lemma ix_bounds va : 0 ≤ ix4 va < 512 ∧ 0 ≤ ix3 va < 512 ∧ 0 ≤ ix2 va < 512 ∧ 0 ≤ ix1 va < 512.
Proof. unfold ix4, ix3, ix2, ix1. split_and!; apply Z.mod_pos_bound; lia. Qed.

(** The translation of the pages that satisfy [P] is the same. *)
Definition same_leaf (P : Z → Z → Z → Z → Prop) (m m' : Z → Z) : Prop :=
  ∀ x y z w, indices r x y z w → P x y z w → leaf root m' x y z w = leaf root m x y z w.

(** The outcomes of a mapping of the page with indices [x], [y], [z], [w] that
    are the same for the three sizes. *)
Definition map_failed (m m' : Z → Z) (x y z w : Z) {F} (err : MappingError F) : Prop :=
  match err with
  | UnexpectedLargePage => ∃ s e, leaf root m x y z w = Some (s, e) ∧ s ≠ M4KiB
  | AlreadyMapped _ | FrameAllocationFailed => same_leaf (λ _ _ _ _, True) m m'
  | _ => False
  end.

(** The state in which the last table of a page has been reached from [m]. *)
Definition reached (m : Z → Z) (p : list Z) (m' : Z → Z) (a' : A) : Prop :=
  pt_inv m' a' ∧ is_Some (tbl m' root p) ∧ same_leaf (λ _ _ _ _, True) m m'.

Lemma reach_p3 m a x fl {F} :
  pt_inv m a → path r [x] → parent_like fl →
  ∃ m' a' res, PageTable.next_or_create (F := F) (rva [] + 8 * x) fl (m, a) = Ret ((m', a'), res) ∧
    pt_inv m' a' ∧
    match res with
    | Ok va => va = rva [x] ∧ reached m [x] m' a'
    | Err err => ∀ y z w, map_failed m m' x y z w err
    end.
Proof.
  intros Hinv Hx Hfl.
  destruct (down_spec m a [] x root fl (F := F)) as (m' & a' & res & E & Hi' & Hpost);
    [done | done | cbn; lia | done | done |].
  exists m', a', res. split; [done |]. split; [done |]. destruct res as [va|err].
  - destruct Hpost as (-> & HT & Hl). split; [done |]. split_and!; [done | done |].
    intros ? ? ? ? ? _. by apply Hl.
  - intros y z w. destruct err; try done; cbn [map_failed].
    + subst m'. intros ? ? ? ? _ _. done.
    + destruct Hpost as (e & [= <-] & E0 & E7). destruct Hinv as [Hwf _].
      destruct (wt_small _ _ _ Hwf x) as [T HT]; [apply (path_app r [] x Hx) | done |].
      exfalso. unfold ptr_of in HT. by rewrite E0, E7 in HT.
Qed.

Lemma reach_p2 m m1 a1 x y fl {F} :
  reached m [x] m1 a1 → path r [x; y] → parent_like fl →
  ∃ m' a' res, PageTable.next_or_create (F := F) (rva [x] + 8 * y) fl (m1, a1) = Ret ((m', a'), res) ∧
    pt_inv m' a' ∧
    match res with
    | Ok va => va = rva [x; y] ∧ reached m [x; y] m' a'
    | Err err => ∀ z w, 0 ≤ z < 512 → 0 ≤ w < 512 → map_failed m m' x y z w err
    end.
Proof.
  intros (Hinv & [T HT] & Hl1) Hxy Hfl.
  destruct (down_spec m1 a1 [x] y T fl (F := F)) as (m' & a' & res & E & Hi' & Hpost);
    [done | done | cbn; lia | done | done |].
  exists m', a', res. split; [done |]. split; [done |]. destruct res as [va|err].
  - destruct Hpost as (-> & HT' & Hl). split; [done |]. split_and!; [done | done |].
    intros ? ? ? ? Hidx _. rewrite Hl by done. by apply Hl1.
  - intros z w Hz Hw. destruct err; try done; cbn [map_failed].
    + subst m'. done.
    + destruct Hpost as (e & He & E0 & E7). exists M1GiB, e. split; [| done].
      destruct Hxy as [Hf Hh]. rewrite !Forall_cons in Hf. cbn in Hh.
      rewrite <- Hl1; [| unfold indices; naive_solver | done].
      unfold leaf. rewrite He. cbn [mbind option_bind]. by rewrite E0, E7.
Qed.

Lemma reach_p1 m m2 a2 x y z fl {F} :
  reached m [x; y] m2 a2 → path r [x; y; z] → parent_like fl →
  ∃ m' a' res,
    PageTable.next_or_create (F := F) (rva [x; y] + 8 * z) fl (m2, a2) = Ret ((m', a'), res) ∧
    pt_inv m' a' ∧
    match res with
    | Ok va => va = rva [x; y; z] ∧ reached m [x; y; z] m' a'
    | Err err => ∀ w, 0 ≤ w < 512 → map_failed m m' x y z w err
    end.
Proof.
  intros (Hinv & [T HT] & Hl1) Hxyz Hfl.
  destruct (down_spec m2 a2 [x; y] z T fl (F := F)) as (m' & a' & res & E & Hi' & Hpost);
    [done | done | cbn; lia | done | done |].
  exists m', a', res. split; [done |]. split; [done |]. destruct res as [va|err].
  - destruct Hpost as (-> & HT' & Hl). split; [done |]. split_and!; [done | done |].
    intros ? ? ? ? Hidx _. rewrite Hl by done. by apply Hl1.
  - intros w Hw. destruct err; try done; cbn [map_failed].
    + subst m'. done.
    + destruct Hpost as (e & He & E0 & E7). exists M2MiB, e. split; [| done].
      destruct Hxyz as [Hf Hh]. rewrite !Forall_cons in Hf. cbn in Hh.
      rewrite <- Hl1; [| unfold indices; naive_solver | done].
      destruct (tbl_parent root m2 [x] y T HT) as (e3 & He3 & F0 & F7).
      unfold leaf. rewrite He3, He. cbn [mbind option_bind]. by rewrite F0, F7, E0, E7.
Qed.

(** The pages of 4 KiB inside of the page of size [s] with the given indices. *)
Definition in_page (s : MemSize) (x y z w x' y' z' w' : Z) : Prop :=
  match s with
  | M4KiB => (x', y', z', w') = (x, y, z, w)
  | M2MiB => (x', y', z') = (x, y, z)
  | M1GiB => (x', y') = (x, y)
  end.

(** The page of size [s] was free and is translated by the entry [v]; the
    translation of all other pages is the same. *)
Definition mapped (s : MemSize) (v : Z) (x y z w : Z) (m m' : Z → Z) : Prop :=
  (∀ x' y' z' w', indices r x' y' z' w' → in_page s x y z w x' y' z' w' →
     leaf root m x' y' z' w' = None ∧ leaf root m' x' y' z' w' = Some (s, v)) ∧
  same_leaf (λ x' y' z' w', ¬ in_page s x y z w x' y' z' w') m m'.

Definition map_post (s : MemSize) (v : Z) (x y z w : Z) (m : Z → Z) {R} (m' : Z → Z) (a' : A)
    (res : result R (MappingError (Frame s))) : Prop :=
  pt_inv m' a' ∧
  match res with
  | Ok _ => mapped s v x y z w m m'
  | Err err => map_failed m m' x y z w err
  end.

(** The end of [map]: the entry is written if it is null. *)
Definition finish_map (s : MemSize) (entry f fl : Z) (page : Page s)
    : eff (st (A := A)) (MappingError (Frame s)) (Page s) :=
  e ← load entry;
  if negb (Entry.is_null e) then
    a ← lift (Entry.addr e); throw (AlreadyMapped (Frame.containing_address a))
  else entry_set entry f fl;; mret page.

Lemma finish_at s p i T f fl page m a :
  pt_inv m a → path r p → (length p ≤ 3)%nat → 0 ≤ i < 512 → tbl m root p = Some T →
  aligned_frame f →
  finish_map s (rva p + 8 * i) f fl page (m, a) =
    if m (T + 8 * i) =? 0 then Ret ((<[T + 8 * i := Z.lor f fl]> m, a), Ok page)
    else Ret ((m, a), Err (AlreadyMapped (Frame.containing_address (frame_of (m (T + 8 * i)))))).
Proof.
  intros [Hwf _] Hp Hl Hi HT Hf. pose proof (wf_rec m Hwf) as Hrec. unfold finish_map.
  rewrite (eff_bind_Ok _ _ _ _ _ (load_at m p T i a Hrec (proj1 Hp) Hl HT Hi)).
  unfold Entry.is_null. destruct (m (T + 8 * i) =? 0); cbn [negb].
  - by rewrite (eff_bind_Ok _ _ _ _ _ (entry_set_at m p T i a Hrec (proj1 Hp) Hl HT Hi f fl Hf)).
  - by rewrite (eff_bind_lift _ _ _ _ (addr_eq _)).
Qed.

Lemma finish_4k m m3 a3 x y z w f fl page :
  reached m [x; y; z] m3 a3 → indices r x y z w → aligned_frame f → Z.testbit (Z.lor f fl) 0 = true →
  ∃ m' res, finish_map M4KiB (rva [x; y; z] + 8 * w) f fl page (m3, a3) = Ret ((m', a3), res) ∧
    map_post M4KiB (Z.lor f fl) x y z w m m' a3 res.
Proof.
  intros (Hinv & [T HT] & Hl) Hidx Hf H0. pose proof (indices_path _ _ _ _ _ Hidx) as (_ & _ & Hp).
  assert (0 ≤ w < 512) as Hw by apply Hidx.
  rewrite (finish_at M4KiB [x; y; z] w T) by (done || cbn; lia).
  destruct (Z.eqb_spec (m3 (T + 8 * w)) 0) as [E|E]; do 2 eexists; (split; [done |]); [| by split].
  destruct (upd_level1_wf root r m3 [x; y; z] w T (Z.lor f fl)) as [Hwf' Htbl];
    [apply Hinv | done | done | done | done |].
  set (v := Z.lor f fl) in *. pose proof (λ x' y' z' w',
    leaf_set_4k root r m3 x y z w T v x' y' z' w' (proj1 Hinv) Hidx HT) as Hset.
  split; [split_and!; [done | | apply Hinv] |].
  - intros g Hg q Hq Hlq. rewrite Htbl by done. by apply Hinv.
  - split.
    + intros x' y' z' w' Hi' [= -> -> -> ->]. split.
      * rewrite <- (Hl x y z w Hidx I), (leaf_at_4k root m3 x y z w T HT), E. done.
      * rewrite Hset, decide_True by done. by rewrite H0.
    + intros x' y' z' w' Hi' Hne. rewrite Hset, decide_False by done. by apply Hl.
Qed.

Lemma ptr_of_large v : Z.testbit v 7 = true → ptr_of v = None.
Proof. intros H7. unfold ptr_of. rewrite H7. by destruct (Z.testbit v 0). Qed.

Lemma finish_2m m m2 a2 x y z w f fl page :
  reached m [x; y] m2 a2 → indices r x y z w → aligned_frame f →
  Z.testbit (Z.lor f fl) 0 = true → Z.testbit (Z.lor f fl) 7 = true →
  ∃ m' res, finish_map M2MiB (rva [x; y] + 8 * z) f fl page (m2, a2) = Ret ((m', a2), res) ∧
    map_post M2MiB (Z.lor f fl) x y z w m m' a2 res.
Proof.
  intros (Hinv & [T HT] & Hl) Hidx Hf H0 H7. pose proof (indices_path _ _ _ _ _ Hidx) as (_ & Hp & _).
  assert (0 ≤ z < 512) as Hz by apply Hidx.
  rewrite (finish_at M2MiB [x; y] z T) by (done || cbn; lia).
  destruct (Z.eqb_spec (m2 (T + 8 * z)) 0) as [E|E]; do 2 eexists; (split; [done |]); [| by split].
  set (v := Z.lor f fl) in *. pose proof (ptr_of_large v H7) as Hv.
  assert (ptr_of (m2 (T + 8 * z)) = None) as Hold by (by rewrite E).
  assert (indices r x y z 0) as Hidx0 by (unfold indices in *; naive_solver lia).
  pose proof (λ x' y' z' w' Hi, leaf_set_2m root r m2 x y z T v x' y' z' w'
    (proj1 Hinv) Hidx0 HT Hi Hv Hold) as Hset.
  split; [apply (pt_inv_upd m2 a2 [x; y]); try (done || cbn; lia); congruence |]. split.
  - intros x' y' z' w' Hi' [= -> -> ->]. split.
    + rewrite <- (Hl x y z w' Hi' I), (leaf_at_2m root m2 x y z w' T HT Hold), E. done.
    + rewrite Hset, decide_True by done. by rewrite H0.
  - intros x' y' z' w' Hi' Hne. rewrite Hset, decide_False by done. by apply Hl.
Qed.

Lemma finish_1g m m1 a1 x y z w f fl page :
  reached m [x] m1 a1 → indices r x y z w → aligned_frame f →
  Z.testbit (Z.lor f fl) 0 = true → Z.testbit (Z.lor f fl) 7 = true →
  ∃ m' res, finish_map M1GiB (rva [x] + 8 * y) f fl page (m1, a1) = Ret ((m', a1), res) ∧
    map_post M1GiB (Z.lor f fl) x y z w m m' a1 res.
Proof.
  intros (Hinv & [T HT] & Hl) Hidx Hf H0 H7. pose proof (indices_path _ _ _ _ _ Hidx) as (Hp & _ & _).
  assert (0 ≤ y < 512) as Hy by apply Hidx.
  rewrite (finish_at M1GiB [x] y T) by (done || cbn; lia).
  destruct (Z.eqb_spec (m1 (T + 8 * y)) 0) as [E|E]; do 2 eexists; (split; [done |]); [| by split].
  set (v := Z.lor f fl) in *. pose proof (ptr_of_large v H7) as Hv.
  assert (ptr_of (m1 (T + 8 * y)) = None) as Hold by (by rewrite E).
  assert (indices r x y 0 0) as Hidx0 by (unfold indices in *; naive_solver lia).
  pose proof (λ x' y' z' w' Hi, leaf_set_1g root r m1 x y T v x' y' z' w'
    (proj1 Hinv) Hidx0 HT Hi Hv Hold) as Hset.
  split; [apply (pt_inv_upd m1 a1 [x]); try (done || cbn; lia); congruence |]. split.
  - intros x' y' z' w' Hi' [= -> ->]. split.
    + rewrite <- (Hl x y z' w' Hi' I), (leaf_at_1g root m1 x y z' w' T HT Hold), E. done.
    + rewrite Hset, decide_True by done. by rewrite H0.
  - intros x' y' z' w' Hi' Hne. rewrite Hset, decide_False by done. by apply Hl.
Qed.

(** The flags of the entry of a mapping. *)
Definition leaf_flags (s : MemSize) (fl : Z) : Z :=
  match s with
  | M4KiB => Flags.without (Flags.union fl Flags.PRESENT) Flags.HUGE_PAGE
  | _ => Flags.union (Flags.union fl Flags.PRESENT) Flags.HUGE_PAGE
  end.

Lemma leaf_flags_bits s fl :
  Z.testbit (leaf_flags s fl) 0 = true ∧
  Z.testbit (leaf_flags s fl) 7 = match s with M4KiB => false | _ => true end.
Proof.
  unfold leaf_flags, Flags.without, Flags.union.
  destruct s; rewrite ?Z.land_spec, ?Z.lor_spec, ?testbit_not_w by lia;
    change (Z.testbit Flags.PRESENT 0) with true; change (Z.testbit Flags.HUGE_PAGE 7) with true;
    change (Z.testbit Flags.HUGE_PAGE 0) with false; rewrite ?orb_true_r, ?andb_false_r; done.
Qed.

Lemma wf_frame_aligned {S} (f : Frame S) : wf_frame f → aligned_frame (frame_start f).
Proof.
  intros [Hv Hm]. split; [done |]. pose proof (SIZE_bounds S).
  apply Z.mod_divide; [lia |]. transitivity (SIZE S); [| by apply Z.mod_divide; [lia |]].
  destruct S; [exists 1 | exists 512 | exists (512 * 512)]; reflexivity.
Qed.


Lemma page_ix {S} (page : Page S) :
  Page.p4_index page = Ret (ix4 (page_start page)) ∧
  Page.p3_index page = Ret (ix3 (page_start page)) ∧
  Page.p2_index page = Ret (ix2 (page_start page)) ∧
  Page.p1_index page = Ret (ix1 (page_start page)).
Proof.
  split_and!; [apply VirtAddr.p4_index_eq | apply VirtAddr.p3_index_eq
              | apply VirtAddr.p2_index_eq | apply VirtAddr.p1_index_eq].
Qed.

Lemma page_indices {S} (page : Page S) :
  ix4 (page_start page) ≠ r →
  indices r (ix4 (page_start page)) (ix3 (page_start page)) (ix2 (page_start page))
    (ix1 (page_start page)).
Proof. intros Hr. destruct (ix_bounds (page_start page)) as (? & ? & ? & ?). unfold indices. auto. Qed.

(** The recursive page table. *)
Local Abbreviation table := (mkPageTable (rva [])).

(** A mapping operation of the right meaning for pages of size [s]. *)
Definition map_spec (s : MemSize)
    (map : PageTable → Page s → Frame s → Z → eff (st (A := A)) (MappingError (Frame s)) (Page s)) : Prop :=
  ∀ m a page frame fl,
    pt_inv m a → ix4 (page_start page) ≠ r → wf_frame frame →
    ∃ m' a' res, map table page frame fl (m, a) = Ret ((m', a'), res) ∧
      map_post s (Z.lor (frame_start frame) (leaf_flags s fl))
        (ix4 (page_start page)) (ix3 (page_start page)) (ix2 (page_start page))
        (ix1 (page_start page)) m m' a' res.

Section map.
Context (m : Z → Z) (a : A) {s : MemSize} (page : Page s) (frame : Frame s) (fl : Z).
Context (Hinv : pt_inv m a) (Hr : ix4 (page_start page) ≠ r) (Hframe : wf_frame frame).
Local Abbreviation x := (ix4 (page_start page)).
Local Abbreviation y := (ix3 (page_start page)).
Local Abbreviation z := (ix2 (page_start page)).
Local Abbreviation w := (ix1 (page_start page)).

(** The first levels of [map], with the rest of it in [k1], [k2], [k3]. *)
Lemma map_to_p3 (k : Z → eff (st (A := A)) (MappingError (Frame s)) (Page s)) v :
  (∀ m1 a1, reached m [x] m1 a1 →
     ∃ m' a' res, k (rva [x]) (m1, a1) = Ret ((m', a'), res) ∧ map_post s v x y z w m m' a' res) →
  ∃ m' a' res,
    (p4 ← lift (Page.p4_index page); p4_entry ← index (entries table) p4;
     p3_table ← PageTable.next_or_create p4_entry (parent_flags fl); k p3_table) (m, a)
      = Ret ((m', a'), res) ∧ map_post s v x y z w m m' a' res.
Proof.
  intros Hk. destruct (page_ix page) as (E4 & _). destruct (ix_bounds (page_start page)) as (B4 & _).
  rewrite (eff_bind_lift _ _ _ _ E4), (eff_bind_Ok _ _ _ _ _ (index_at _ _ _ B4)). cbn [entries].
  pose proof (indices_path _ _ _ _ _ (page_indices page Hr)) as (P1 & _).
  destruct (reach_p3 m a x (parent_flags fl) (F := Frame s) Hinv P1 (parent_flags_like fl))
    as (m1 & a1 & res & E & Hi & Hres). destruct res as [va|err].
  - destruct Hres as [-> Hre]. rewrite (eff_bind_Ok _ _ _ _ _ E). by apply Hk.
  - rewrite (eff_bind_Err _ _ _ _ _ E). do 3 eexists. split; [done |]. split; [done |]. apply Hres.
Qed.

Lemma map_to_p2 (k : Z → eff (st (A := A)) (MappingError (Frame s)) (Page s)) v m1 a1 :
  reached m [x] m1 a1 →
  (∀ m2 a2, reached m [x; y] m2 a2 →
     ∃ m' a' res, k (rva [x; y]) (m2, a2) = Ret ((m', a'), res) ∧ map_post s v x y z w m m' a' res) →
  ∃ m' a' res,
    (p3 ← lift (Page.p3_index page); p3_entry ← index (rva [x]) p3;
     p2_table ← PageTable.next_or_create p3_entry (parent_flags fl); k p2_table) (m1, a1)
      = Ret ((m', a'), res) ∧ map_post s v x y z w m m' a' res.
Proof.
  intros Hre Hk. destruct (page_ix page) as (_ & E3 & _).
  destruct (ix_bounds (page_start page)) as (_ & B3 & B2 & B1).
  rewrite (eff_bind_lift _ _ _ _ E3), (eff_bind_Ok _ _ _ _ _ (index_at _ _ _ B3)).
  pose proof (indices_path _ _ _ _ _ (page_indices page Hr)) as (_ & P2 & _).
  destruct (reach_p2 m m1 a1 x y (parent_flags fl) (F := Frame s) Hre P2 (parent_flags_like fl))
    as (m2 & a2 & res & E & Hi & Hres). destruct res as [va|err].
  - destruct Hres as [-> Hre']. rewrite (eff_bind_Ok _ _ _ _ _ E). by apply Hk.
  - rewrite (eff_bind_Err _ _ _ _ _ E). do 3 eexists. split; [done |]. split; [done |]. by apply Hres.
Qed.

Lemma map_to_p1 (k : Z → eff (st (A := A)) (MappingError (Frame s)) (Page s)) v m2 a2 :
  reached m [x; y] m2 a2 →
  (∀ m3 a3, reached m [x; y; z] m3 a3 →
     ∃ m' a' res, k (rva [x; y; z]) (m3, a3) = Ret ((m', a'), res) ∧ map_post s v x y z w m m' a' res) →
  ∃ m' a' res,
    (p2 ← lift (Page.p2_index page); p2_entry ← index (rva [x; y]) p2;
     p1_table ← PageTable.next_or_create p2_entry (parent_flags fl); k p1_table) (m2, a2)
      = Ret ((m', a'), res) ∧ map_post s v x y z w m m' a' res.
Proof.
  intros Hre Hk. destruct (page_ix page) as (_ & _ & E2 & _).
  destruct (ix_bounds (page_start page)) as (_ & B3 & B2 & B1).
  rewrite (eff_bind_lift _ _ _ _ E2), (eff_bind_Ok _ _ _ _ _ (index_at _ _ _ B2)).
  pose proof (indices_path _ _ _ _ _ (page_indices page Hr)) as (_ & _ & P3).
  destruct (reach_p1 m m2 a2 x y z (parent_flags fl) (F := Frame s) Hre P3 (parent_flags_like fl))
    as (m3 & a3 & res & E & Hi & Hres). destruct res as [va|err].
  - destruct Hres as [-> Hre']. rewrite (eff_bind_Ok _ _ _ _ _ E). by apply Hk.
  - rewrite (eff_bind_Err _ _ _ _ _ E). do 3 eexists. split; [done |]. split; [done |]. by apply Hres.
Qed.
End map.

Lemma map_4k_ok : map_spec M4KiB PageTable.map_M4KiB.
Proof.
  intros m a page frame fl Hinv Hr Hf. pose proof (wf_frame_aligned frame Hf) as Hfa.
  destruct (leaf_flags_bits M4KiB fl) as [L0 _].
  destruct (page_ix page) as (_ & _ & _ & E1). destruct (ix_bounds (page_start page)) as (_ & _ & _ & B1).
  apply (map_to_p3 m a page fl Hinv Hr). intros m1 a1 H1.
  apply (map_to_p2 m page fl Hr _ _ m1 a1 H1). intros m2 a2 H2.
  apply (map_to_p1 m page fl Hr _ _ m2 a2 H2). intros m3 a3 H3.
  rewrite (eff_bind_lift _ _ _ _ E1), (eff_bind_Ok _ _ _ _ _ (index_at _ _ _ B1)).
  destruct (finish_4k m m3 a3 _ _ _ _ (frame_start frame) (leaf_flags M4KiB fl) page H3
    (page_indices page Hr) Hfa) as (m' & res & E & Hp); [by rewrite made_bit |].
  exists m', a3, res. split; [exact E | exact Hp].
Qed.

Lemma map_2m_ok : map_spec M2MiB PageTable.map_M2MiB.
Proof.
  intros m a page frame fl Hinv Hr Hf. pose proof (wf_frame_aligned frame Hf) as Hfa.
  destruct (leaf_flags_bits M2MiB fl) as [L0 L7].
  destruct (page_ix page) as (_ & _ & E2 & _). destruct (ix_bounds (page_start page)) as (_ & _ & B2 & _).
  apply (map_to_p3 m a page fl Hinv Hr). intros m1 a1 H1.
  apply (map_to_p2 m page fl Hr _ _ m1 a1 H1). intros m2 a2 H2.
  rewrite (eff_bind_lift _ _ _ _ E2), (eff_bind_Ok _ _ _ _ _ (index_at _ _ _ B2)).
  destruct (finish_2m m m2 a2 _ _ _ _ (frame_start frame) (leaf_flags M2MiB fl) page H2
    (page_indices page Hr) Hfa) as (m' & res & E & Hp); [by rewrite made_bit | by rewrite made_bit |].
  exists m', a2, res. split; [exact E | exact Hp].
Qed.

Lemma map_1g_ok : map_spec M1GiB PageTable.map_M1GiB.
Proof.
  intros m a page frame fl Hinv Hr Hf. pose proof (wf_frame_aligned frame Hf) as Hfa.
  destruct (leaf_flags_bits M1GiB fl) as [L0 L7].
  destruct (page_ix page) as (_ & E3 & _). destruct (ix_bounds (page_start page)) as (_ & B3 & _).
  apply (map_to_p3 m a page fl Hinv Hr). intros m1 a1 H1.
  rewrite (eff_bind_lift _ _ _ _ E3), (eff_bind_Ok _ _ _ _ _ (index_at _ _ _ B3)).
  destruct (finish_1g m m1 a1 _ _ _ _ (frame_start frame) (leaf_flags M1GiB fl) page H1
    (page_indices page Hr) Hfa) as (m' & res & E & Hp); [by rewrite made_bit | by rewrite made_bit |].
  exists m', a1, res. split; [exact E | exact Hp].
Qed.


(** ** Translating *)

(** [next] on an entry of a table, by its pointer. *)
Lemma next_ptr {F} m (a : A) p T i :
  rec_ok m → path r (p ++ [i]) → (length p ≤ 2)%nat → tbl m root p = Some T →
  match tbl m root (p ++ [i]) with
  | Some _ => next (F := F) (rva p + 8 * i) (m, a) = Ret ((m, a), Ok (rva (p ++ [i])))
  | None => ∃ err, next (F := F) (rva p + 8 * i) (m, a) = Ret ((m, a), Err err)
  end.
Proof.
  intros Hrec Hpi Hl HT. pose proof (path_app _ _ _ Hpi) as [Hp Hi].
  rewrite tbl_snoc, HT, (next_at m p T i a Hrec (proj1 Hp) ltac:(lia) HT Hi Hl).
  cbn [mbind option_bind]. cbn zeta. unfold ptr_of.
  destruct (Z.testbit _ 0), (Z.testbit _ 7); cbn [andb negb]; eauto.
Qed.

(** The physical address and the flags that an entry gives for an address. *)
Definition translation (va : Z) (se : MemSize * Z) : Z * Z :=
  (PhysAddr.new_truncate (frame_of se.2 + va mod SIZE se.1), Entry.flags se.2).

Lemma addr_offset e va s : add_w 64 (frame_of e) (va mod SIZE s) = Ret (frame_of e + va mod SIZE s).
Proof.
  apply add_w_ok. destruct (frame_of_aligned e) as [[_ Hle] _]. unfold PhysAddr.MAX in Hle.
  pose proof (SIZE_bounds s). pose proof (Z.mod_pos_bound va (SIZE s) ltac:(lia)).
  assert (SIZE s ≤ 2 ^ 30) by (by destruct s). lia.
Qed.

(** One level of the walk of [translate_addr] at the table [p]: a large entry ends
    it, a pointer to the table [p ++ [i]] continues it with [k]. *)
Lemma walk_level {R} m (a : A) p T i (large k : Z → eff (st (A := A)) (MappingError (Frame M4KiB)) R) :
  rec_ok m → path r (p ++ [i]) → (length p ≤ 2)%nat → tbl m root p = Some T →
  ok (entry ← index (rva p) i;
      e ← load entry;
      if Entry.is_present e && Entry.is_large e then large e
      else t ← next entry; k t) (m, a) =
    (let e := m (T + 8 * i) in
     if negb (Z.testbit e 0) then Ret None
     else if Z.testbit e 7 then ok (large e) (m, a)
     else ok (k (rva (p ++ [i]))) (m, a)).
Proof.
  intros Hrec Hpi Hl HT. pose proof (path_app _ _ _ Hpi) as [Hp Hi]. unfold ok.
  rewrite (eff_bind_Ok _ _ _ _ _ (index_at _ _ _ Hi)).
  rewrite (eff_bind_Ok _ _ _ _ _ (load_at m p T i a Hrec (proj1 Hp) ltac:(lia) HT Hi)).
  rewrite is_present_bit, is_large_bit.
  pose proof (next_at (F := Frame M4KiB) m p T i a Hrec (proj1 Hp) ltac:(lia) HT Hi Hl) as N.
  cbn zeta in *. destruct (Z.testbit _ 0); cbn [andb negb].
  - destruct (Z.testbit _ 7); [done |]. by rewrite (eff_bind_Ok _ _ _ _ _ N).
  - by rewrite (eff_bind_Err _ _ _ _ _ N).
Qed.

(** The result for an entry that maps the address. *)
Lemma found e va s (st0 : st (A := A)) :
  ok (E := MappingError (Frame M4KiB))
     (a ← lift (Entry.addr e); pa ← lift (add_w 64 a (va mod SIZE s));
      mret (PhysAddr.new_truncate pa, Entry.flags e)) st0 = Ret (Some (translation va (s, e))).
Proof. by rewrite (ok_bind_lift _ _ _ _ (addr_eq e)), (ok_bind_lift _ _ _ _ (addr_offset e va s)). Qed.

Lemma translate_addr_ok m (a : A) va :
  wf_tree root r m → ix4 va ≠ r →
  PageTable.translate_addr table va (m, a) =
    Ret (translation va <$> leaf root m (ix4 va) (ix3 va) (ix2 va) (ix1 va)).
Proof.
  intros Hwf Hr. pose proof (wf_rec m Hwf) as Hrec.
  destruct (ix_bounds va) as (B4 & B3 & B2 & B1).
  assert (indices r (ix4 va) (ix3 va) (ix2 va) (ix1 va)) as Hidx by (unfold indices; auto).
  pose proof (indices_path _ _ _ _ _ Hidx) as (P1 & P2 & P3).
  unfold PageTable.translate_addr. cbn [entries].
  rewrite (ok_bind_lift _ _ _ _ (VirtAddr.p4_index_eq va)). fold (ix4 va).
  rewrite (ok_bind_Ok _ _ _ _ _ (index_at _ _ _ B4)).
  pose proof (next_ptr (F := Frame M4KiB) m a [] root (ix4 va) Hrec P1 ltac:(cbn; lia) eq_refl) as N4.
  cbn [app] in N4. unfold leaf, ent.
  destruct (tbl m root [ix4 va]) as [T3|] eqn:HT3; cbn [mbind option_bind].
  2: { destruct N4 as [err N4]. by rewrite (ok_bind_Err _ _ _ _ _ N4). }
  rewrite (ok_bind_Ok _ _ _ _ _ N4), (ok_bind_lift _ _ _ _ (VirtAddr.p3_index_eq va)).
  fold (ix3 va). rewrite (walk_level m a [ix4 va] T3 (ix3 va)) by (done || cbn; lia). cbn zeta.
  set (e3 := m (T3 + 8 * ix3 va)). destruct (Z.testbit e3 0) eqn:F0; cbn [negb]; [| done].
  destruct (Z.testbit e3 7) eqn:F7; [apply found |].
  assert (tbl m root [ix4 va; ix3 va] = Some (frame_of e3)) as HT2.
  { change [ix4 va; ix3 va] with ([ix4 va] ++ [ix3 va]). rewrite tbl_snoc, HT3. cbn.
    fold e3. unfold ptr_of. by rewrite F0, F7. }
  rewrite HT2. cbn [app mbind option_bind]. rewrite (ok_bind_lift _ _ _ _ (VirtAddr.p2_index_eq va)). fold (ix2 va).
  rewrite (walk_level m a [ix4 va; ix3 va] (frame_of e3) (ix2 va)) by (done || cbn; lia). cbn zeta.
  set (e2 := m (frame_of e3 + 8 * ix2 va)). destruct (Z.testbit e2 0) eqn:G0; cbn [negb]; [| done].
  destruct (Z.testbit e2 7) eqn:G7; [apply found |].
  assert (tbl m root [ix4 va; ix3 va; ix2 va] = Some (frame_of e2)) as HT1.
  { change [ix4 va; ix3 va; ix2 va] with ([ix4 va; ix3 va] ++ [ix2 va]). rewrite tbl_snoc, HT2. cbn.
    fold e2. unfold ptr_of. by rewrite G0, G7. }
  rewrite HT1. cbn [app mbind option_bind]. rewrite (ok_bind_lift _ _ _ _ (VirtAddr.p1_index_eq va)). fold (ix1 va).
  rewrite (ok_bind_Ok _ _ _ _ _ (index_at _ _ _ B1)).
  rewrite (ok_bind_Ok _ _ _ _ _
    (load_at m _ _ (ix1 va) a Hrec (proj1 P3) ltac:(cbn; lia) HT1 B1)).
  rewrite is_present_bit. set (e1 := m (frame_of e2 + 8 * ix1 va)).
  destruct (Z.testbit e1 0); [apply found | done].
Qed.

(** ** Unmapping and changing flags *)

(** Going down one level through an existing table. *)
Lemma go_down {R F} m (a : A) p T i (k : Z → eff (st (A := A)) (MappingError F) R) :
  rec_ok m → path r (p ++ [i]) → (length p ≤ 2)%nat → tbl m root p = Some T →
  (tbl m root (p ++ [i]) = None ∧
     ∃ err, (entry ← index (rva p) i; t ← next entry; k t) (m, a) = Ret ((m, a), Err err)) ∨
  (∃ T', tbl m root (p ++ [i]) = Some T' ∧
     (entry ← index (rva p) i; t ← next entry; k t) (m, a) = k (rva (p ++ [i])) (m, a)).
Proof.
  intros Hrec Hpi Hl HT. pose proof (path_app _ _ _ Hpi) as [_ Hi].
  rewrite (eff_bind_Ok _ _ _ _ _ (index_at _ _ _ Hi)).
  pose proof (next_ptr (F := F) m a p T i Hrec Hpi Hl HT) as N.
  destruct (tbl m root (p ++ [i])) as [T'|].
  - right. exists T'. split; [done |]. by rewrite (eff_bind_Ok _ _ _ _ _ N).
  - left. destruct N as [err N]. split; [done |]. exists err.
    by rewrite (eff_bind_Err _ _ _ _ _ N).
Qed.

(** The walk to the level 1 table of a page. *)
Lemma walk_4k {R} m (a : A) (page : Page M4KiB)
    (k : Z → eff (st (A := A)) (MappingError (Frame M4KiB)) R) :
  wf_tree root r m → ix4 (page_start page) ≠ r →
  let x := ix4 (page_start page) in let y := ix3 (page_start page) in
  let z := ix2 (page_start page) in let w := ix1 (page_start page) in
  let walk :=
    (p4 ← lift (Page.p4_index page); p4_entry ← index (entries table) p4;
     p3_table ← next p4_entry; p3 ← lift (Page.p3_index page); p3_entry ← index p3_table p3;
     p2_table ← next p3_entry; p2 ← lift (Page.p2_index page); p2_entry ← index p2_table p2;
     p1_table ← next p2_entry; p1 ← lift (Page.p1_index page); p1_entry ← index p1_table p1;
     k p1_entry) (m, a) in
  (tbl m root [x; y; z] = None ∧ ∃ err, walk = Ret ((m, a), Err err)) ∨
  (∃ T, tbl m root [x; y; z] = Some T ∧ walk = k (rva [x; y; z] + 8 * w) (m, a)).
Proof.
  intros Hwf Hr x y z w walk. pose proof (wf_rec m Hwf) as Hrec.
  destruct (ix_bounds (page_start page)) as (B4 & B3 & B2 & B1).
  destruct (page_ix page) as (E4 & E3 & E2 & E1).
  pose proof (indices_path _ _ _ _ _ (page_indices page Hr)) as (P1 & P2 & P3).
  fold x y z w in E4, E3, E2, E1, P1, P2, P3. subst walk.
  rewrite (eff_bind_lift _ _ _ _ E4). cbn [entries].
  destruct (go_down m a [] root x (λ p3_table, p3 ← lift (Page.p3_index page);
     p3_entry ← index p3_table p3; p2_table ← next p3_entry; p2 ← lift (Page.p2_index page);
     p2_entry ← index p2_table p2; p1_table ← next p2_entry; p1 ← lift (Page.p1_index page);
     p1_entry ← index p1_table p1; k p1_entry) Hrec P1 ltac:(cbn; lia) eq_refl)
    as [[H3 [err ->]]|(T3 & H3 & ->)]; cbn [app] in *.
  { left. split; [| eauto]. change [x; y; z] with ([x] ++ [y; z]). by rewrite tbl_app, H3. }
  rewrite (eff_bind_lift _ _ _ _ E3).
  destruct (go_down m a [x] T3 y (λ p2_table, p2 ← lift (Page.p2_index page);
     p2_entry ← index p2_table p2; p1_table ← next p2_entry; p1 ← lift (Page.p1_index page);
     p1_entry ← index p1_table p1; k p1_entry) Hrec P2 ltac:(cbn; lia) H3)
    as [[H2 [err ->]]|(T2 & H2 & ->)]; cbn [app] in *.
  { left. split; [| eauto]. change [x; y; z] with ([x; y] ++ [z]). by rewrite tbl_app, H2. }
  rewrite (eff_bind_lift _ _ _ _ E2).
  destruct (go_down m a [x; y] T2 z (λ p1_table, p1 ← lift (Page.p1_index page);
     p1_entry ← index p1_table p1; k p1_entry) Hrec P3 ltac:(cbn; lia) H2)
    as [[H1 [err ->]]|(T1 & H1 & ->)]; cbn [app] in *; [left; eauto | right].
  exists T1. split; [done |].
  by rewrite (eff_bind_lift _ _ _ _ E1), (eff_bind_Ok _ _ _ _ _ (index_at _ _ _ B1)).
Qed.

Section page_4k.
Context (m : Z → Z) (a : A) (page : Page M4KiB).
Context (Hinv : pt_inv m a) (Hr : ix4 (page_start page) ≠ r).
Local Abbreviation x := (ix4 (page_start page)).
Local Abbreviation y := (ix3 (page_start page)).
Local Abbreviation z := (ix2 (page_start page)).
Local Abbreviation w := (ix1 (page_start page)).

Lemma leaf_no_table e : tbl m root [x; y; z] = None → leaf root m x y z w ≠ Some (M4KiB, e).
Proof.
  intros Hn. unfold leaf. destruct (ent root m [x] y) as [e3|]; [| done]. cbn [mbind option_bind].
  destruct (negb _); [done |]. destruct (Z.testbit e3 7); [done |].
  destruct (ent root m [x; y] z) as [e2|]; [| done]. cbn [mbind option_bind].
  destruct (negb _); [done |]. destruct (Z.testbit e2 7); [done |].
  unfold ent. by rewrite Hn.
Qed.

(** Writing the entry of the page. *)
Lemma write_4k T v :
  tbl m root [x; y; z] = Some T →
  pt_inv (<[T + 8 * w := v]> m) a ∧
  leaf root (<[T + 8 * w := v]> m) x y z w = (if Z.testbit v 0 then Some (M4KiB, v) else None) ∧
  same_leaf (λ x' y' z' w', ¬ in_page M4KiB x y z w x' y' z' w') m (<[T + 8 * w := v]> m) ∧
  (∀ f, unused root r m f → unused root r (<[T + 8 * w := v]> m) f).
Proof.
  intros HT. pose proof (page_indices page Hr) as Hidx.
  pose proof (indices_path _ _ _ _ _ Hidx) as (_ & _ & P3). assert (0 ≤ w < 512) as Hw by apply Hidx.
  destruct (upd_level1_wf root r m [x; y; z] w T v) as [Hwf' Htbl]; [apply Hinv | done.. |].
  split_and!.
  - split_and!; [done | | apply Hinv]. intros f Hf q Hq Hl. rewrite Htbl by done. by apply Hinv.
  - rewrite (leaf_set_4k root r m x y z w T v), decide_True; (done || apply Hinv).
  - intros x' y' z' w' Hi Hne.
    rewrite (leaf_set_4k root r m x y z w T v), decide_False; (done || apply Hinv).
  - intros f Hf q Hq Hl. rewrite Htbl by done. by apply Hf.
Qed.

Lemma unmap_4k_ok :
  ∃ m' res, PageTable.unmap_M4KiB table page (m, a) = Ret ((m', a), res) ∧ pt_inv m' a ∧
    (∀ f, unused root r m f → unused root r m' f) ∧
    match leaf root m x y z w with
    | Some (M4KiB, e) => res = Ok (mkFrame (frame_of e), page) ∧
        leaf root m' x y z w = None ∧
        same_leaf (λ x' y' z' w', ¬ in_page M4KiB x y z w x' y' z' w') m m'
    | _ => m' = m ∧ ∃ err, res = Err err
    end.
Proof.
  pose proof Hinv as [Hwf _]. pose proof (wf_rec m Hwf) as Hrec.
  pose proof (page_indices page Hr) as Hidx.
  pose proof (indices_path _ _ _ _ _ Hidx) as (_ & _ & P3). assert (0 ≤ w < 512) as Hw by apply Hidx.
  unfold PageTable.unmap_M4KiB.
  destruct (walk_4k m a page (λ p1_entry, e ← load p1_entry; pa ← lift (Entry.present_addr e);
    a ← ok_or pa NotMapped; entry_set p1_entry 0 Flags.EMPTY;;
    mret (Frame.containing_address (S := M4KiB) a, page)) Hwf Hr) as [[Hn [err ->]]|(T & HT & ->)].
  { exists m, (Err err). split_and!; [done | done | done |].
    pose proof (λ e, leaf_no_table e Hn). destruct (leaf root m x y z w) as [[[] e]|]; eauto.
    exfalso. naive_solver. }
  rewrite (eff_bind_Ok _ _ _ _ _ (load_at m _ T w a Hrec (proj1 P3) ltac:(cbn; lia) HT Hw)).
  rewrite (leaf_at_4k root m x y z w T HT). cbn zeta. set (e := m (T + 8 * w)).
  unfold Entry.present_addr. rewrite is_present_bit.
  destruct (Z.testbit e 0) eqn:E0.
  - rewrite addr_eq. cbn [mbind out_bind]. rewrite (eff_bind_lift _ _ _ _ eq_refl).
    rewrite (eff_bind_Ok (ok_or (Some (frame_of e)) NotMapped) _ _ _ _ eq_refl).
    rewrite (eff_bind_Ok _ _ _ _ _ (entry_set_at m _ T w a Hrec (proj1 P3) ltac:(cbn; lia) HT Hw
      0 Flags.EMPTY ltac:(done))).
    destruct (write_4k T 0 HT) as (Hi' & Hl' & Hs' & Hu').
    do 2 eexists. split; [done |]. split_and!; try done.
    destruct (frame_of_aligned e) as [Hv Hm].
    rewrite frame_containing_eq by (by apply PhysAddr.valid_u64). cbn [SIZE]. by rewrite Hm, Z.sub_0_r.
  - rewrite (eff_bind_lift _ _ _ _ eq_refl). do 2 eexists. split; [done |]. eauto.
Qed.

Lemma update_flags_4k_ok fl :
  ∃ m' res, PageTable.update_flags_M4KiB table page fl (m, a) = Ret ((m', a), res) ∧ pt_inv m' a ∧
    match leaf root m x y z w with
    | Some (M4KiB, e) => res = Ok page ∧
        (let e' := Z.lor (frame_of e) (Z.land fl Flags.ALL) in
         leaf root m' x y z w = if Z.testbit fl 0 then Some (M4KiB, e') else None) ∧
        same_leaf (λ x' y' z' w', ¬ in_page M4KiB x y z w x' y' z' w') m m'
    | _ => m' = m ∧ ∃ err, res = Err err
    end.
Proof.
  pose proof Hinv as [Hwf _]. pose proof (wf_rec m Hwf) as Hrec.
  pose proof (page_indices page Hr) as Hidx.
  pose proof (indices_path _ _ _ _ _ Hidx) as (_ & _ & P3). assert (0 ≤ w < 512) as Hw by apply Hidx.
  unfold PageTable.update_flags_M4KiB.
  destruct (walk_4k m a page (λ p1_entry, e ← load p1_entry;
    if negb (Entry.is_present e) then throw NotMapped
    else entry_set_flags p1_entry fl;; mret page) Hwf Hr) as [[Hn [err ->]]|(T & HT & ->)].
  { exists m, (Err err). split_and!; [done | done |].
    pose proof (λ e, leaf_no_table e Hn). destruct (leaf root m x y z w) as [[[] e]|]; eauto.
    exfalso. naive_solver. }
  rewrite (eff_bind_Ok _ _ _ _ _ (load_at m _ T w a Hrec (proj1 P3) ltac:(cbn; lia) HT Hw)).
  rewrite (leaf_at_4k root m x y z w T HT). cbn zeta. set (e := m (T + 8 * w)).
  rewrite is_present_bit. destruct (Z.testbit e 0) eqn:E0; cbn [negb].
  - rewrite (eff_bind_Ok _ _ _ _ _
      (entry_set_flags_at m _ T w a Hrec (proj1 P3) ltac:(cbn; lia) HT Hw fl)).
    fold e. destruct (write_4k T (Entry.set_flags e fl) HT) as (Hi' & Hl' & Hs' & _).
    do 2 eexists. split; [done |]. split_and!; try done. rewrite Hl'.
    unfold Entry.set_flags, Entry.FLAGS_MASK. fold (frame_of e).
    rewrite (made_bit (frame_of e)) by (apply frame_of_aligned || lia).
    rewrite Z.land_spec. change (Z.testbit Flags.ALL 0) with true. by rewrite andb_true_r.
  - do 2 eexists. split; [done |]. eauto.
Qed.

Lemma translate_4k_ok :
  PageTable.translate_M4KiB table page (m, a) =
    Ret (match leaf root m x y z w with
         | Some (M4KiB, e) => Some (mkFrame (frame_of e), Entry.flags e)
         | _ => None
         end).
Proof.
  pose proof Hinv as [Hwf _]. pose proof (wf_rec m Hwf) as Hrec.
  pose proof (page_indices page Hr) as Hidx.
  pose proof (indices_path _ _ _ _ _ Hidx) as (_ & _ & P3). assert (0 ≤ w < 512) as Hw by apply Hidx.
  unfold PageTable.translate_M4KiB, ok.
  destruct (walk_4k m a page (λ p1_entry, e ← load p1_entry;
    if Entry.is_present e then
      a ← lift (Entry.addr e); mret (Frame.containing_address (S := M4KiB) a, Entry.flags e)
    else throw NotMapped) Hwf Hr) as [[Hn [err ->]]|(T & HT & ->)].
  { pose proof (λ e, leaf_no_table e Hn). destruct (leaf root m x y z w) as [[[] e]|]; try done.
    exfalso. naive_solver. }
  rewrite (eff_bind_Ok _ _ _ _ _ (load_at m _ T w a Hrec (proj1 P3) ltac:(cbn; lia) HT Hw)).
  rewrite (leaf_at_4k root m x y z w T HT). cbn zeta. set (e := m (T + 8 * w)).
  rewrite is_present_bit. destruct (Z.testbit e 0) eqn:E0; [| done].
  rewrite (eff_bind_lift _ _ _ _ (addr_eq e)). destruct (frame_of_aligned e) as [Hv Hm].
  rewrite frame_containing_eq by (by apply PhysAddr.valid_u64). cbn [SIZE].
  by rewrite Hm, Z.sub_0_r.
Qed.
End page_4k.


(** C3: on tables that form a tree, [map] of a page outside of the recursive area
    never panics and keeps the tables a tree apart from the free frames, for
    each of the three sizes.  When it succeeds no address of the page was
    translated before, all of them are translated by the new entry after, and the
    translation of every other page is the same; when it fails because the page
    is mapped or no frame is left, no translation changes; it fails with
    [UnexpectedLargePage] only inside of a larger page. *)
Theorem page_map_spec :
  map_spec M4KiB PageTable.map_M4KiB ∧ map_spec M2MiB PageTable.map_M2MiB ∧
  map_spec M1GiB PageTable.map_M1GiB.
Proof. split_and!; [apply map_4k_ok | apply map_2m_ok | apply map_1g_ok]. Qed.

(** C26: [translate_addr], which reads the tables at recursive addresses, gives
    the physical address and the flags that the walk through the tree of tables
    in physical memory defines, for the pages of all sizes. *)
Theorem page_translate_addr_spec m (a : A) va :
  wf_tree root r m → ix4 va ≠ r →
  PageTable.translate_addr table va (m, a) =
    Ret (translation va <$> leaf root m (ix4 va) (ix3 va) (ix2 va) (ix1 va)).
Proof. apply translate_addr_ok. Qed.

(** [update_flags] of a page of 4 KiB that is mapped replaces its flags, keeps
    its frame and the translation of all other pages; with flags that do not
    contain [PRESENT] it unmaps the page.  For any other page it fails and changes
    nothing. *)
Theorem page_update_flags_spec m a (page : Page M4KiB) fl :
  pt_inv m a → ix4 (page_start page) ≠ r →
  let x := ix4 (page_start page) in let y := ix3 (page_start page) in
  let z := ix2 (page_start page) in let w := ix1 (page_start page) in
  ∃ m' res, PageTable.update_flags_M4KiB table page fl (m, a) = Ret ((m', a), res) ∧ pt_inv m' a ∧
    match leaf root m x y z w with
    | Some (M4KiB, e) => res = Ok page ∧
        (let e' := Z.lor (frame_of e) (Z.land fl Flags.ALL) in
         leaf root m' x y z w = if Z.testbit fl 0 then Some (M4KiB, e') else None) ∧
        same_leaf (λ x' y' z' w', ¬ in_page M4KiB x y z w x' y' z' w') m m'
    | _ => m' = m ∧ ∃ err, res = Err err
    end.
Proof. intros Hinv Hr x y z w. by apply update_flags_4k_ok. Qed.

Lemma leaf_flags_wf s fl : wf_flags fl → wf_flags (leaf_flags s fl).
Proof.
  intros Hfl. unfold wf_flags, leaf_flags, Flags.without, Flags.union.
  assert (Z.land (Z.lor fl Flags.PRESENT) Flags.ALL = Z.lor fl Flags.PRESENT) as H1
    by (rewrite Z.land_lor_distr_l, Hfl; done).
  destruct s.
  - rewrite <- Z.land_assoc, (Z.land_comm (not_w 64 Flags.HUGE_PAGE)), Z.land_assoc. by rewrite H1.
  - rewrite Z.land_lor_distr_l, H1. done.
  - rewrite Z.land_lor_distr_l, H1. done.
Qed.

(** Unmapping a page of 4 KiB that has just been mapped returns its frame,
    and every address is translated again as before the mapping. *)
Theorem page_map_unmap m a page frame fl m1 a1 page1 :
  pt_inv m a → ix4 (page_start page) ≠ r → wf_frame frame → wf_flags fl →
  PageTable.map_M4KiB table page frame fl (m, a) = Ret ((m1, a1), Ok page1) →
  ∃ m2, PageTable.unmap_M4KiB table page (m1, a1) = Ret ((m2, a1), Ok (frame, page)) ∧
    pt_inv m2 a1 ∧ same_leaf (λ _ _ _ _, True) m m2.
Proof.
  intros Hinv Hr Hf Hfl Hmap.
  destruct (map_4k_ok m a page frame fl Hinv Hr Hf) as (m' & a' & res & E & Hi1 & Hpost).
  rewrite Hmap in E. injection E as <- <- <-. destruct Hpost as [Hin Hout].
  pose proof (page_indices page Hr) as Hidx.
  destruct (Hin _ _ _ _ Hidx eq_refl) as [Hnone Hsome].
  destruct (unmap_4k_ok m1 a1 page Hi1 Hr) as (m2 & res & Hun & Hi2 & _ & Hpost2).
  rewrite Hsome in Hpost2. destruct Hpost2 as (-> & Hn2 & Hs2). exists m2.
  rewrite made_frame in Hun by (by apply wf_frame_aligned || by apply leaf_flags_wf).
  destruct frame as [f]. split_and!; [exact Hun | done |].
  intros x' y' z' w' Hi' _. destruct (decide ((x', y', z', w') = (ix4 (page_start page),
    ix3 (page_start page), ix2 (page_start page), ix1 (page_start page)))) as [[= -> -> -> ->]|Hne].
  - by rewrite Hn2, Hnone.
  - rewrite Hs2, Hout by done. done.
Qed.

End recursive.

(** ** An instance *)

(** The walk of the processor, for pages of 4 KiB. *)
Definition x86_walk (root : Z) : Mmu := λ m va,
  T3 ← ptr_of (m (root + 8 * ix4 va));
  T2 ← ptr_of (m (T3 + 8 * ix3 va));
  T1 ← ptr_of (m (T2 + 8 * ix2 va));
  let e := m (T1 + 8 * ix1 va) in
  if Z.testbit e 0 then Some (frame_of e + va mod 4096) else None.

Lemma x86_walk_laws root : @MmuLaws (x86_walk root) root.
Proof.
  intros m va T3 T2 T1 _ H3 H2 H1 H0. unfold mmu, x86_walk.
  rewrite H3. cbn [mbind option_bind]. rewrite H2. cbn [mbind option_bind]. rewrite H1.
  cbn [mbind option_bind]. by rewrite H0.
Qed.

(** An allocator that hands out the frames from a number on. *)
Record Bump := mkBump { next_number : Z }.

Global Instance bump_allocator : FrameAllocator Bump := λ b,
  let n := next_number b in
  if (0 <=? n) && (n <? 2 ^ 40) then Ret (Some (mkFrame (n * 4096)), mkBump (n + 1)) else Ret (None, b).

Global Program Instance bump_laws : FrameAllocatorLaws Bump := {
  alloc_inv _ := True;
  owned b f := ∃ n, next_number b ≤ n ∧ f = n * 4096;
}.
Next Obligation. intros b _. unfold allocate_frame, bump_allocator. destruct (_ && _); eauto. Qed.
Next Obligation.
  intros [n] f a' _. unfold allocate_frame, bump_allocator. cbn [next_number].
  destruct (Z.leb_spec 0 n), (Z.ltb_spec n (2 ^ 40)); cbn [andb]; try done.
  intros [= <- <-]. cbn. split_and!.
  - split; [unfold PhysAddr.valid, PhysAddr.MAX; lia | by apply Z.mod_mul].
  - exists n. lia.
  - intros x (k & Hk & ->). split; [exists k; lia | lia].
Qed.
Next Obligation.
  intros [n] a' _. unfold allocate_frame, bump_allocator. cbn [next_number].
  destruct (_ && _); [done |]. by intros [= <-].
Qed.

(** A level 4 table at address 4096 with the recursive entry 511 and nothing else. *)
Definition demo_mem : Z → Z := λ x, if x =? 4096 + 8 * 511 then Z.lor 4096 3 else 0.

Lemma demo_mem_0 i : i ≠ 511 → demo_mem (4096 + 8 * i) = 0.
Proof. intros Hi. unfold demo_mem. by rewrite (proj2 (Z.eqb_neq _ _)) by lia. Qed.

Lemma demo_tree : wf_tree 4096 511 demo_mem.
Proof.
  split; [done | lia | done | |].
  2: { intros i Hi. destruct (decide (i = 511)) as [->|]; [done|]. by rewrite demo_mem_0. }
  assert (∀ p T, path 511 p → tbl demo_mem 4096 p = Some T → p = []) as Hnil.
  { intros [|i p] T [Hf Hh]; [done |]. apply Forall_cons in Hf as [Hi _]. cbn in Hh.
    cbn [tbl]. rewrite demo_mem_0; [done |]. intros ->. by apply Hh. }
  intros p q T Hp Hq _ _ HTp HTq. by rewrite (Hnil p T), (Hnil q T).
Qed.

Lemma demo_unused f : f ≠ 4096 → unused 4096 511 demo_mem f.
Proof.
  intros Hf p Hp _ HT. destruct p as [|i p]; [by injection HT as HT|]. destruct Hp as [Hi Hh].
  apply Forall_cons in Hi as [Hi _]. cbn in Hh. cbn [tbl] in HT.
  rewrite demo_mem_0 in HT; [done |]. intros ->. by apply Hh.
Qed.

Lemma demo_inv : pt_inv 4096 511 demo_mem (mkBump 2).
Proof.
  split_and!; [apply demo_tree | | done]. intros f (n & Hn & ->). cbn in Hn. apply demo_unused. lia.
Qed.

(** The operations on this machine. *)
Local Abbreviation demo_table := (mkPageTable (rva 511 [])).

Lemma page_map_spec_witness :
  ∃ m' a' res, @PageTable.map_M4KiB (x86_walk 4096) Bump _ demo_table
      (mkPage 0x40201000) (mkFrame 0x5000) 3 (demo_mem, mkBump 2) = Ret ((m', a'), res) ∧
    pt_inv 4096 511 m' a'.
Proof.
  destruct (@page_map_spec (x86_walk 4096) 4096 511 (x86_walk_laws 4096) Bump _ _) as [Hm _].
  destruct (Hm demo_mem (mkBump 2) (mkPage 0x40201000) (mkFrame 0x5000) 3 demo_inv)
    as (m' & a' & res & E & Hi & _); [done | done |].
  exists m', a', res. split; [exact E | exact Hi].
Defined.

Lemma page_translate_addr_spec_witness :
  @PageTable.translate_addr (x86_walk 4096) Bump demo_table 0x40201234 (demo_mem, mkBump 2) = Ret None.
Proof.
  exact (@page_translate_addr_spec (x86_walk 4096) 4096 511 (x86_walk_laws 4096) Bump
           demo_mem (mkBump 2) 0x40201234 demo_tree ltac:(done)).
Defined.

Lemma page_update_flags_spec_witness :
  ∃ m' res, @PageTable.update_flags_M4KiB (x86_walk 4096) Bump demo_table (mkPage 0x40201000) 3
      (demo_mem, mkBump 2) = Ret ((m', mkBump 2), res) ∧ pt_inv 4096 511 m' (mkBump 2).
Proof.
  destruct (@page_update_flags_spec (x86_walk 4096) 4096 511 (x86_walk_laws 4096) Bump _ _
    demo_mem (mkBump 2) (mkPage 0x40201000) 3 demo_inv) as (m' & res & E & Hi & _); [done |].
  exists m', res. split; [exact E | exact Hi].
Defined.

(** A mapping on this machine succeeds. *)
Lemma demo_map_ok : ∃ m1 a1, @PageTable.map_M4KiB (x86_walk 4096) Bump _ demo_table
  (mkPage 0x40201000) (mkFrame 0x5000) 3 (demo_mem, mkBump 2) = Ret ((m1, a1), Ok (mkPage 0x40201000)).
Proof.
  assert (match @PageTable.map_M4KiB (x86_walk 4096) Bump _ demo_table
    (mkPage 0x40201000) (mkFrame 0x5000) 3 (demo_mem, mkBump 2) with
    | Ret (_, Ok p) => p = mkPage 0x40201000 | _ => False end) as Ho by (vm_compute; reflexivity).
  destruct (PageTable.map_M4KiB _ _ _ _ _) as [[[m1 a1] [p|e]]|]; [| destruct Ho | destruct Ho].
  exists m1, a1. by rewrite Ho.
Qed.

Lemma page_map_unmap_witness :
  ∃ m1 a1 m2, @PageTable.map_M4KiB (x86_walk 4096) Bump _ demo_table
      (mkPage 0x40201000) (mkFrame 0x5000) 3 (demo_mem, mkBump 2)
      = Ret ((m1, a1), Ok (mkPage 0x40201000)) ∧
    @PageTable.unmap_M4KiB (x86_walk 4096) Bump demo_table (mkPage 0x40201000) (m1, a1)
      = Ret ((m2, a1), Ok (mkFrame 0x5000, mkPage 0x40201000)).
Proof.
  destruct demo_map_ok as (m1 & a1 & Eo).
  assert (ix4 (page_start (S := M4KiB) (mkPage 0x40201000)) ≠ 511) as Hr by (vm_compute; discriminate).
  assert (wf_frame (S := M4KiB) (mkFrame 0x5000)) as Hf by (split; vm_compute; [split; discriminate | reflexivity]).
  assert (wf_flags 3) as Hfl by reflexivity.
  destruct (@page_map_unmap (x86_walk 4096) 4096 511 (x86_walk_laws 4096) Bump _ _
    demo_mem (mkBump 2) _ _ 3 m1 a1 _ demo_inv Hr Hf Hfl Eo) as (m2 & Hun & _).
  exists m1, a1, m2. split; [exact Eo | exact Hun].
Defined.

(** ** Large pages

    A machine with the recursive entry 511 and empty tables for the first
    gibibyte. *)

Definition low_mem : Z → Z := λ x,
  if x =? 0x1000 + 8 * 511 then Z.lor 0x1000 3
  else if x =? 0x1000 then Z.lor 0x2000 3
  else if x =? 0x2000 then Z.lor 0x3000 3
  else 0.

Definition low_map_2m (fl : Z) : eff ((Z → Z) * Bump) (MappingError (Frame M2MiB)) (Page M2MiB) :=
  @PageTable.map_M2MiB (x86_walk 4096) Bump _ demo_table (mkPage 0) (mkFrame 0x200000) fl.

Definition low_translate (va : Z) : (Z → Z) * Bump → out (option (Z * Z)) :=
  @PageTable.translate_addr (x86_walk 4096) Bump demo_table va.

(** [update_flags] of a page of 2 MiB, given the flags it was mapped with,
    clears the [HUGE_PAGE] flag that [map] had set: the frame of the page is taken
    for a table from then on, and the page is not translated any more. *)
Theorem update_flags_2m_breaks :
  match low_map_2m Flags.PARENT (low_mem, mkBump 8) with
  | Ret (s, Ok _) =>
      low_translate 0x1234 s = Ret (Some (0x201234, 0x83)) ∧
      match @PageTable.update_flags_M2MiB (x86_walk 4096) Bump demo_table (mkPage 0) Flags.PARENT s with
      | Ret (s', Ok _) => low_translate 0x1234 s' = Ret None
      | _ => False
      end
  | _ => False
  end.
Proof. vm_compute. done. Qed.

(** [translate] of a page of 1 GiB does not look at the [HUGE_PAGE] flag: where a
    table of smaller pages is in place, the table itself is returned as the frame
    that the page is mapped to. *)
Lemma translate_1g_of_table :
  @PageTable.translate_M1GiB (x86_walk 4096) Bump demo_table (mkPage 0) (low_mem, mkBump 8)
    = Ret (Some (mkFrame 0, 3)) ∧
  low_translate 0 (low_mem, mkBump 8) = Ret None.
Proof. vm_compute. done. Qed.

(** A mapping of a page of 4 KiB inside of a read-only page of 2 MiB of the kernel
    fails, but has made the large page writable and accessible to user code. *)
Lemma map_in_large_page_widens :
  match low_map_2m Flags.PRESENT (low_mem, mkBump 8) with
  | Ret (s, Ok _) =>
      low_translate 0x1234 s = Ret (Some (0x201234, 0x81)) ∧
      match @PageTable.map_M4KiB (x86_walk 4096) Bump _ demo_table (mkPage 0x1000) (mkFrame 0x5000)
              Flags.USER_ACCESSIBLE s with
      | Ret (s', Err e) => e = UnexpectedLargePage ∧
          low_translate 0x1234 s' = Ret (Some (0x201234, 0x87))
      | _ => False
      end
  | _ => False
  end.
Proof. vm_compute. done. Qed.
