(* ===== verification/FatTable.v ===== *)
(** * The file allocation table

    [kernel/foundry/storage/src/fs/fat.rs] (types, clusters, errors) and
    [fs/fat/fat.rs]: the encodings of the entries of FAT12, FAT16 and FAT32, the
    in-memory table with its counter of free clusters, and the allocation and
    release of clusters and of chains of clusters. *)

From S2P Require Import Prelude Addrs.

Inductive FatType : Set := Fat12 | Fat16 | Fat32.

Inductive FatError : Set :=
| InvalidParameter | Io | NotFound | InvalidFilesystem | InvalidBootSector | InvalidFat
| InvalidCluster | InvalidDirEntry | OutOfBounds | NotSupported | UnexpectedEOF.

(** A cluster is its number, a [u32]. *)
Module Cluster.

Definition size_bits (fat_type : FatType) : Z :=
  match fat_type with Fat12 => 12 | Fat16 => 16 | Fat32 => 32 end.

Definition is_valid (self : Z) (fat_type : FatType) : bool :=
  match fat_type with
  | Fat12 => (2 <=? self) && (self <=? 0xFF6)
  | Fat16 => (2 <=? self) && (self <=? 0xFFF6)
  | Fat32 => (2 <=? self) && (self <=? 0x0FFFFFF6)
  end.

Definition is_end_of_chain (self : Z) (fat_type : FatType) : bool :=
  match fat_type with
  | Fat12 => (0xFF8 <=? self) && (self <=? 0xFFF)
  | Fat16 => (0xFFF8 <=? self) && (self <=? 0xFFFF)
  | Fat32 => (0x0FFFFFF8 <=? self) && (self <=? 0x0FFFFFFF)
  end.

Definition is_bad (self : Z) (fat_type : FatType) : bool :=
  match fat_type with
  | Fat12 => self =? 0xFF7
  | Fat16 => self =? 0xFFF7
  | Fat32 => self =? 0x0FFFFFF7
  end.

Definition is_free (self : Z) : bool := self =? 0.

Definition is_reserved (self : Z) (fat_type : FatType) : bool :=
  match fat_type with
  | Fat12 => (self =? 0x0FF0) || (self =? 0x0FF6)
  | Fat16 => (self =? 0xFFF0) || (self =? 0xFFF6)
  | Fat32 => (self =? 0x0FFFFFF0) || (self =? 0x0FFFFFF6)
  end.

End Cluster.

Inductive FatEntry : Set :=
| Free
| Next (cluster : Z)
| EndOfChain
| Bad
| Reserved.

Global Instance FatEntry_eq_dec : EqDecision FatEntry.
Proof. solve_decision. Defined.
Global Instance FatError_eq_dec : EqDecision FatError.
Proof. solve_decision. Defined.

(** [fat[i]] and [fat[i] = b] on a slice of bytes. *)
Definition byte_at (fat : list Z) (i : Z) : out Z := unwrap (fat !! Z.to_nat i).
Definition set_byte (fat : list Z) (i b : Z) : out (list Z) :=
  assert_ (i <? Z.of_nat (length fat));; mret (<[Z.to_nat i := b]> fat).

(** [u16::from_le_bytes] and [u32::from_le_bytes]. *)
Definition u16_le (b0 b1 : Z) : Z := b0 + 2 ^ 8 * b1.
Definition u32_le (b0 b1 b2 b3 : Z) : Z := b0 + 2 ^ 8 * b1 + 2 ^ 16 * b2 + 2 ^ 24 * b3.

Module fat12.

Definition read_fat_entry (fat : list Z) (cluster : Z) : out (result FatEntry FatError) :=
  offset ← add_w 64 cluster (cluster / 2);
  last ← add_w 64 offset 1;
  if Z.of_nat (length fat) <=? last then mret (Err OutOfBounds)
  else
    b0 ← byte_at fat offset;
    b1 ← byte_at fat last;
    let value := Z.lor b0 (shl_w 16 b1 8) in
    let value := if negb (Z.land cluster 1 =? 0) then Z.shiftr value 4 else Z.land value 0x0FFF in
    mret (Ok (if value =? 0 then Free
              else if value =? 0x0FF7 then Bad
              else if (0x0FF0 <=? value) && (value <=? 0x0FF6) then Reserved
              else if (0x0FF8 <=? value) && (value <=? 0x0FFF) then EndOfChain
              else Next value)).

Definition write_fat_entry (fat : list Z) (cluster : Z) (entry : FatEntry)
    : out (list Z * result unit FatError) :=
  offset ← add_w 64 cluster (cluster / 2);
  last ← add_w 64 offset 1;
  if Z.of_nat (length fat) <=? last then mret (fat, Err OutOfBounds)
  else
    value ← match entry with
            | Free => mret 0
            | Next next => unwrap (u16_try_from (Z.land next 0x0FFF))
            | EndOfChain => mret 0x0FFF
            | Bad => mret 0x0FF7
            | Reserved => mret 0x0FF6
            end;
    b0 ← byte_at fat offset;
    b1 ← byte_at fat last;
    let word := u16_le b0 b1 in
    let new_word :=
      if negb (Z.land cluster 1 =? 0)
      then Z.lor (Z.land word 0x000F) (shl_w 16 value 4)
      else Z.lor (Z.land word 0xF000) value in
    fat ← set_byte fat offset (new_word mod 2 ^ 8);
    fat ← set_byte fat last (new_word / 2 ^ 8);
    mret (fat, Ok tt).

End fat12.

Module fat16.

Definition read_fat_entry (fat : list Z) (cluster : Z) : out (result FatEntry FatError) :=
  offset ← mul_w 64 cluster 2;
  last ← add_w 64 offset 1;
  if Z.of_nat (length fat) <=? last then mret (Err OutOfBounds)
  else
    b0 ← byte_at fat offset;
    b1 ← byte_at fat last;
    let value := u16_le b0 b1 in
    mret (Ok (if value =? 0 then Free
              else if value =? 0xFFF7 then Bad
              else if (0xFFF0 <=? value) && (value <=? 0xFFF6) then Reserved
              else if (0xFFF8 <=? value) && (value <=? 0xFFFF) then EndOfChain
              else Next value)).

Definition write_fat_entry (fat : list Z) (cluster : Z) (entry : FatEntry)
    : out (list Z * result unit FatError) :=
  offset ← mul_w 64 cluster 2;
  last ← add_w 64 offset 1;
  if Z.of_nat (length fat) <=? last then mret (fat, Err OutOfBounds)
  else
    value ← match entry with
            | Free => mret 0
            | Next next => unwrap (u16_try_from (Z.land next 0xFFFF))
            | EndOfChain => mret 0xFFFF
            | Bad => mret 0xFFF7
            | Reserved => mret 0xFFF6
            end;
    fat ← set_byte fat offset (value mod 2 ^ 8);
    fat ← set_byte fat last (value / 2 ^ 8);
    mret (fat, Ok tt).

End fat16.

Module fat32.

Definition read_fat_entry (fat : list Z) (cluster : Z) : out (result FatEntry FatError) :=
  offset ← mul_w 64 cluster 4;
  last ← add_w 64 offset 3;
  if Z.of_nat (length fat) <=? last then mret (Err OutOfBounds)
  else
    b0 ← byte_at fat offset;
    b1 ← byte_at fat (offset + 1);
    b2 ← byte_at fat (offset + 2);
    b3 ← byte_at fat last;
    let value := u32_le b0 b1 b2 (Z.land b3 0x0F) in
    mret (Ok (if value =? 0 then Free
              else if value =? 0x0FFFFFF7 then Bad
              else if (0x0FFFFFF0 <=? value) && (value <=? 0x0FFFFFF6) then Reserved
              else if (0x0FFFFFF8 <=? value) && (value <=? 0x0FFFFFFF) then EndOfChain
              else Next value)).

Definition write_fat_entry (fat : list Z) (cluster : Z) (entry : FatEntry)
    : out (list Z * result unit FatError) :=
  offset ← mul_w 64 cluster 4;
  last ← add_w 64 offset 3;
  if Z.of_nat (length fat) <=? last then mret (fat, Err OutOfBounds)
  else
    let value :=
      match entry with
      | Free => 0
      | Next next => Z.land next 0x0FFFFFFF
      | EndOfChain => 0x0FFFFFFF
      | Bad => 0x0FFFFFF7
      | Reserved => 0x0FFFFFF6
      end in
    b3 ← byte_at fat last;
    let last_byte := Z.lor (Z.land b3 0xF0) (Z.land (Z.shiftr value 24) 0x0F) in
    fat ← set_byte fat offset (Z.land value 0xFF);
    fat ← set_byte fat (offset + 1) (Z.land (Z.shiftr value 8) 0xFF);
    fat ← set_byte fat (offset + 2) (Z.land (Z.shiftr value 16) 0xFF);
    fat ← set_byte fat last last_byte;
    mret (fat, Ok tt).

End fat32.

(** ** The table *)

Record FatTable := mkFatTable {
  fat_type : FatType;
  data : list Z;
  free_count : Z;
}.

Module FatTable.

Definition max_clusters (self : FatTable) : Z :=
  match fat_type self with Fat12 => 0x0FF6 | Fat16 => 0xFFF6 | Fat32 => 0x0FFFFFF6 end.

Definition get (self : FatTable) (cluster : Z) : out (result FatEntry FatError) :=
  if negb (Cluster.is_valid cluster (fat_type self)) then mret (Err InvalidCluster)
  else
    match fat_type self with
    | Fat12 => fat12.read_fat_entry (data self) cluster
    | Fat16 => fat16.read_fat_entry (data self) cluster
    | Fat32 => fat32.read_fat_entry (data self) cluster
    end.

(** [self.get(cluster)?] in an operation that changes the table. *)
Definition get_entry (cluster : Z) : eff FatTable FatError FatEntry := λ self,
  r ← get self cluster; mret (self, r).

Definition set_count (self : FatTable) (count : Z) : FatTable :=
  mkFatTable (fat_type self) (data self) count.

(** The counter after [entry] replaces [old_entry]. *)
Definition new_count (count : Z) (old_entry entry : FatEntry) : Z :=
  if bool_decide (old_entry = Free) && negb (bool_decide (entry = Free))
  then saturating_sub count 1
  else if negb (bool_decide (old_entry = Free)) && bool_decide (entry = Free)
  then saturating_add 32 count 1
  else count.

Definition update_count (old_entry entry : FatEntry) : eff FatTable FatError unit := λ self,
  mret (set_count self (new_count (free_count self) old_entry entry), Ok tt).

Definition write_entry (cluster : Z) (entry : FatEntry) : eff FatTable FatError unit := λ self,
  '(data, r) ← match fat_type self with
               | Fat12 => fat12.write_fat_entry (data self) cluster entry
               | Fat16 => fat16.write_fat_entry (data self) cluster entry
               | Fat32 => fat32.write_fat_entry (data self) cluster entry
               end;
  mret (mkFatTable (fat_type self) data (free_count self), r).

Definition set (cluster : Z) (entry : FatEntry) : eff FatTable FatError unit := λ self,
  if negb (Cluster.is_valid cluster (fat_type self)) && negb (cluster =? 0) && negb (cluster =? 1)
  then throw InvalidCluster self
  else
    (old_entry ← get_entry cluster;
     update_count old_entry entry;;
     write_entry cluster entry : eff FatTable FatError unit) self.

(** The loop [for i in 2..=max_clusters] of [alloc_cluster]: it ends at the
    latest where the slice ends. *)
Fixpoint alloc_loop (fuel : nat) (i : Z) : eff FatTable FatError Z := λ self,
  if max_clusters self <? i then throw OutOfBounds self
  else
    match fuel with
    | O => Panic
    | S fuel =>
        r ← get self i;
        match r with
        | Ok Free => (set i EndOfChain;; mret i : eff FatTable FatError Z) self
        | Err e => throw e self
        | _ => alloc_loop fuel (i + 1) self
        end
    end.

Definition alloc_cluster : eff FatTable FatError Z := λ self,
  if free_count self =? 0 then throw OutOfBounds self
  else alloc_loop (S (length (data self))) 2 self.

(** The loop [for _ in 1..count] of [alloc_cluster_chain]. *)
Fixpoint chain_loop (n : nat) (prev : Z) : eff FatTable FatError unit :=
  match n with
  | O => mret tt
  | S n =>
      next ← alloc_cluster;
      set prev (Next next);;
      chain_loop n next
  end.

Definition alloc_cluster_chain (count : Z) : eff FatTable FatError Z := λ self,
  if count =? 0 then throw InvalidParameter self
  else if free_count self <? count then throw OutOfBounds self
  else
    (first ← alloc_cluster;
     chain_loop (Z.to_nat (count - 1)) first;;
     mret first : eff FatTable FatError Z) self.

Definition free_cluster (cluster : Z) : eff FatTable FatError unit := λ self,
  if negb (Cluster.is_valid cluster (fat_type self)) then throw InvalidCluster self
  else set cluster Free self.

(** The loop of [free_cluster_chain]: each turn frees a cluster or ends. *)
Fixpoint free_loop (fuel : nat) (current : Z) : eff FatTable FatError unit := λ self,
  if Cluster.is_free current then mret (self, Ok tt)
  else
    match fuel with
    | O => Panic
    | S fuel =>
        (entry ← get_entry current;
         match entry with
         | Next next => set current Free;; free_loop fuel next
         | EndOfChain => set current Free
         | _ => throw InvalidCluster
         end : eff FatTable FatError unit) self
    end.

Definition free_cluster_chain (start : Z) : eff FatTable FatError unit := λ self,
  if negb (Cluster.is_valid start (fat_type self)) then throw InvalidCluster self
  else free_loop (S (length (data self))) start self.

(** The loop of [count_free]. *)
Fixpoint count_loop (fuel : nat) (self : FatTable) (i count : Z) : out (result Z FatError) :=
  if max_clusters self <? i then mret (Ok count)
  else
    match fuel with
    | O => Panic
    | S fuel =>
        r ← get self i;
        match r with
        | Ok Free => count ← add_w 32 count 1; count_loop fuel self (i + 1) count
        | Err OutOfBounds => mret (Ok count)
        | Err e => mret (Err e)
        | _ => count_loop fuel self (i + 1) count
        end
    end.

Definition count_free (self : FatTable) : out (result Z FatError) :=
  count_loop (S (length (data self))) self 2 0.

Definition new (fat_type : FatType) (data : list Z) : out FatTable :=
  let table := mkFatTable fat_type data 0 in
  r ← count_free table;
  mret (set_count table (match r with Ok n => n | Err _ => 0 end)).

(** [FatChainIter::next]: the cluster yielded and the new state of the iterator. *)
Definition chain_next (self : FatTable) (next : option Z) : out (option Z * option Z) :=
  match next with
  | None => mret (None, None)
  | Some current =>
      r ← get self current;
      mret (Some current, match r with Ok (Next next) => Some next | _ => None end)
  end.

End FatTable.

(** ** The entries as numbers

    [raw ty d c] is the number stored for cluster [c] and [slots ty n] how many
    entries [n] bytes hold. *)

Definition bytes (d : list Z) : Prop := Forall (λ b, 0 ≤ b < 256) d.
Definition byte (d : list Z) (i : Z) : Z := nth (Z.to_nat i) d 0.

Definition top (ty : FatType) : Z :=
  match ty with Fat12 => 0xFF0 | Fat16 => 0xFFF0 | Fat32 => 0x0FFFFFF0 end.
Definition slots (ty : FatType) (n : Z) : Z :=
  match ty with Fat12 => 2 * n / 3 | Fat16 => n / 2 | Fat32 => n / 4 end.

Definition raw (ty : FatType) (d : list Z) (c : Z) : Z :=
  match ty with
  | Fat12 =>
      let w := u16_le (byte d (c + c / 2)) (byte d (c + c / 2 + 1)) in
      if Z.odd c then w / 2 ^ 4 else w mod 2 ^ 12
  | Fat16 => u16_le (byte d (c * 2)) (byte d (c * 2 + 1))
  | Fat32 => u32_le (byte d (c * 4)) (byte d (c * 4 + 1)) (byte d (c * 4 + 2))
               (byte d (c * 4 + 3) mod 2 ^ 4)
  end.

Definition decode (ty : FatType) (v : Z) : FatEntry :=
  if v =? 0 then Free
  else if v =? top ty + 7 then Bad
  else if (top ty <=? v) && (v <=? top ty + 6) then Reserved
  else if (top ty + 8 <=? v) && (v <=? top ty + 15) then EndOfChain
  else Next v.

Definition encode (ty : FatType) (e : FatEntry) : Z :=
  match e with
  | Free => 0
  | Next n => n mod (top ty + 16)
  | EndOfChain => top ty + 15
  | Bad => top ty + 7
  | Reserved => top ty + 6
  end.

(** The entries that a table can represent. *)
Definition entry_ok (ty : FatType) (e : FatEntry) : Prop :=
  match e with Next n => 0 < n < top ty | _ => True end.

Lemma decode_encode ty e : entry_ok ty e → decode ty (encode ty e) = e.
Proof.
  intros H. unfold decode. destruct e as [|n| | |]; cbn [encode entry_ok] in *.
  2: rewrite Z.mod_small by lia.
  all: destruct ty; cbn [top] in *; try done.
  all: repeat case_match; first [done | lia].
Qed.

Lemma encode_range ty e : 0 ≤ encode ty e < top ty + 16.
Proof.
  destruct e; cbn [encode]; try (destruct ty; cbn; lia).
  apply Z.mod_pos_bound. destruct ty; cbn; lia.
Qed.

(** [lia] with quotients and remainders. *)
Ltac Zify.zify_post_hook ::= Z.div_mod_to_equations.

(** Bytes of a slice *)

Lemma byte_range d i : bytes d → 0 ≤ byte d i < 256.
Proof.
  intros Hd. unfold byte. destruct (nth_in_or_default (Z.to_nat i) d 0) as [H| ->]; [|lia].
  apply list_elem_of_In in H. unfold bytes in Hd. rewrite Forall_forall in Hd. by apply Hd.
Qed.

Lemma byte_at_eq d i : 0 ≤ i < Z.of_nat (length d) → byte_at d i = Ret (byte d i).
Proof.
  intros H. unfold byte_at, byte.
  destruct (lookup_lt_is_Some_2 d (Z.to_nat i)) as [b Hb]; [lia|].
  by rewrite Hb, (nth_lookup_Some _ _ _ _ Hb).
Qed.

Lemma set_byte_eq d i b :
  0 ≤ i < Z.of_nat (length d) → set_byte d i b = Ret (<[Z.to_nat i := b]> d).
Proof. intros H. unfold set_byte. by rewrite (proj2 (Z.ltb_lt _ _)) by lia. Qed.

Lemma byte_insert d i j b :
  0 ≤ i < Z.of_nat (length d) → 0 ≤ j →
  byte (<[Z.to_nat i := b]> d) j = if j =? i then b else byte d j.
Proof.
  intros Hi Hj. unfold byte. rewrite !nth_lookup.
  destruct (Z.eqb_spec j i) as [->|Hne].
  - by rewrite list_lookup_insert_eq by lia.
  - by rewrite list_lookup_insert_ne by lia.
Qed.

Lemma bytes_insert d i b : bytes d → 0 ≤ b < 256 → bytes (<[i := b]> d).
Proof. intros Hd Hb. by apply Forall_insert. Qed.

(** ** Reading an entry *)

Local Abbreviation len d := (Z.of_nat (length d)).

(** [x & m] for a mask of the low [k] bits. *)
Lemma land_low k x m : 0 ≤ k → m = 2 ^ k - 1 → Z.land x m = x mod 2 ^ k.
Proof. intros Hk ->. by apply land_mask. Qed.

Lemma land_odd c : negb (Z.land c 1 =? 0) = Z.odd c.
Proof.
  rewrite (land_low 1) by done. change (2 ^ 1) with 2. rewrite Zmod_odd. by destruct (Z.odd c).
Qed.

Lemma lor_bytes b0 b1 : 0 ≤ b0 < 256 → 0 ≤ b1 < 256 → Z.lor b0 (shl_w 16 b1 8) = u16_le b0 b1.
Proof.
  intros H0 H1. unfold shl_w, u16_le. rewrite Z.shiftl_mul_pow2 by lia.
  rewrite Z.mod_small, Z.lor_comm, (lor_low 8) by (try apply mul_pow2_mod_0; lia). lia.
Qed.

Lemma fat12_read d c :
  bytes d → 0 ≤ c < 2 ^ 32 →
  fat12.read_fat_entry d c =
    Ret (if c <? slots Fat12 (len d) then Ok (decode Fat12 (raw Fat12 d c)) else Err OutOfBounds).
Proof.
  intros Hd Hc. unfold fat12.read_fat_entry. rewrite add_w_ok by lia. cbn [mbind out_bind].
  rewrite add_w_ok by lia. cbn [mbind out_bind slots].
  destruct (Z.leb_spec (len d) (c + c / 2 + 1)), (Z.ltb_spec c (2 * len d / 3)); try lia; [done|].
  rewrite !byte_at_eq by lia. cbn [mbind out_bind].
  rewrite lor_bytes, land_odd, Z.shiftr_div_pow2 by (try apply byte_range; done || lia).
  by rewrite (land_low 12) by done.
Qed.

Lemma fat16_read d c :
  bytes d → 0 ≤ c < 2 ^ 32 →
  fat16.read_fat_entry d c =
    Ret (if c <? slots Fat16 (len d) then Ok (decode Fat16 (raw Fat16 d c)) else Err OutOfBounds).
Proof.
  intros Hd Hc. unfold fat16.read_fat_entry. rewrite !mul_w_ok by lia. cbn [mbind out_bind].
  rewrite add_w_ok by lia. cbn [mbind out_bind slots].
  destruct (Z.leb_spec (len d) (c * 2 + 1)), (Z.ltb_spec c (len d / 2)); try lia; [done|].
  by rewrite !byte_at_eq by lia.
Qed.

Lemma fat32_read d c :
  bytes d → 0 ≤ c < 2 ^ 32 →
  fat32.read_fat_entry d c =
    Ret (if c <? slots Fat32 (len d) then Ok (decode Fat32 (raw Fat32 d c)) else Err OutOfBounds).
Proof.
  intros Hd Hc. unfold fat32.read_fat_entry. rewrite !mul_w_ok by lia. cbn [mbind out_bind].
  rewrite add_w_ok by lia. cbn [mbind out_bind slots].
  destruct (Z.leb_spec (len d) (c * 4 + 3)), (Z.ltb_spec c (len d / 4)); try lia; [done|].
  rewrite !byte_at_eq by lia. cbn [mbind out_bind].
  by rewrite (land_low 4) by done.
Qed.

(** ** Writing an entry *)

(** [d'] is [d] with entry [c] replaced by [e], and nothing else changed. *)
Definition written (ty : FatType) (c : Z) (e : FatEntry) (d d' : list Z) : Prop :=
  bytes d' ∧ length d' = length d ∧
  raw ty d' c = encode ty e ∧ ∀ c', 0 ≤ c' → c' ≠ c → raw ty d' c' = raw ty d c'.

Lemma fat12_word d c v :
  bytes d → 0 ≤ v < 2 ^ 12 →
  let w := u16_le (byte d (c + c / 2)) (byte d (c + c / 2 + 1)) in
  (if Z.odd c then Z.lor (Z.land w 0x000F) (shl_w 16 v 4) else Z.lor (Z.land w 0xF000) v) =
  (if Z.odd c then w mod 2 ^ 4 + v * 2 ^ 4 else w / 2 ^ 12 * 2 ^ 12 + v).
Proof.
  intros Hd Hv w.
  assert (is_uint 16 w) as Hw.
  { pose proof (byte_range d (c + c / 2) Hd). pose proof (byte_range d (c + c / 2 + 1) Hd).
    unfold is_uint, w, u16_le. lia. }
  destruct (Z.odd c).
  - unfold shl_w. rewrite Z.shiftl_mul_pow2, Z.mod_small by lia.
    rewrite (land_low 4), Z.lor_comm, (lor_low 4) by (try apply mul_pow2_mod_0; lia). lia.
  - change 0xF000 with (not_w 16 (2 ^ 12 - 1)). rewrite land_not_mask by (done || lia).
    replace (w - w mod 2 ^ 12) with (w / 2 ^ 12 * 2 ^ 12) by lia.
    by rewrite (lor_low 12) by (try apply mul_pow2_mod_0; lia).
Qed.

Lemma fat12_value e :
  match e with
  | Free => Ret 0
  | Next next => unwrap (u16_try_from (Z.land next 0x0FFF))
  | EndOfChain => Ret 0x0FFF
  | Bad => Ret 0x0FF7
  | Reserved => Ret 0x0FF6
  end = Ret (encode Fat12 e).
Proof.
  destruct e as [|n| | |]; try done. rewrite (land_low 12) by done. unfold u16_try_from.
  cbn [encode top]. case_match; [done|]. lia.
Qed.

Lemma fat16_value e :
  match e with
  | Free => Ret 0
  | Next next => unwrap (u16_try_from (Z.land next 0xFFFF))
  | EndOfChain => Ret 0xFFFF
  | Bad => Ret 0xFFF7
  | Reserved => Ret 0xFFF6
  end = Ret (encode Fat16 e).
Proof.
  destruct e as [|n| | |]; try done. rewrite (land_low 16) by done. unfold u16_try_from.
  cbn [encode top]. case_match; [done|]. lia.
Qed.

(** Two consecutive bytes replaced. *)
Lemma word_written d o w d' :
  bytes d → 0 ≤ o → o + 1 < len d → 0 ≤ w < 2 ^ 16 →
  d' = <[Z.to_nat (o + 1) := w / 2 ^ 8]> (<[Z.to_nat o := w mod 2 ^ 8]> d) →
  bytes d' ∧ length d' = length d ∧
  ∀ j, 0 ≤ j → byte d' j = if j =? o then w mod 2 ^ 8 else if j =? o + 1 then w / 2 ^ 8 else byte d j.
Proof.
  intros Hd Ho Hl Hw ->. split_and!.
  - repeat apply bytes_insert; done || lia.
  - by rewrite !length_insert.
  - intros j Hj. rewrite !byte_insert by (rewrite ?length_insert; lia).
    destruct (Z.eqb_spec j (o + 1)), (Z.eqb_spec j o); done || lia.
Qed.

Lemma fat12_raw d c w d' :
  bytes d → 0 ≤ c →
  (∀ j, 0 ≤ j → byte d' j = if j =? c + c / 2 then w mod 2 ^ 8
                            else if j =? c + c / 2 + 1 then w / 2 ^ 8 else byte d j) →
  raw Fat12 d' c = if Z.odd c then w / 2 ^ 4 else w mod 2 ^ 12.
Proof.
  intros Hd Hc Hj. unfold raw, u16_le. rewrite !Hj by lia.
  rewrite Z.eqb_refl, (proj2 (Z.eqb_neq _ _)), Z.eqb_refl by lia. destruct (Z.odd c); lia.
Qed.

Lemma fat12_raw_ne d c v d' c' :
  bytes d → 0 ≤ c → 0 ≤ c' → c' ≠ c → 0 ≤ v < 2 ^ 12 →
  let o := c + c / 2 in
  let w := u16_le (byte d o) (byte d (o + 1)) in
  let w' := if Z.odd c then w mod 2 ^ 4 + v * 2 ^ 4 else w / 2 ^ 12 * 2 ^ 12 + v in
  (∀ j, 0 ≤ j → byte d' j = if j =? o then w' mod 2 ^ 8
                            else if j =? o + 1 then w' / 2 ^ 8 else byte d j) →
  raw Fat12 d' c' = raw Fat12 d c'.
Proof.
  intros Hd Hc Hc' Hne Hv o w w' Hj. subst o. unfold raw. rewrite !Hj by lia.
  pose proof (byte_range d (c + c / 2) Hd). pose proof (byte_range d (c + c / 2 + 1) Hd).
  pose proof (byte_range d (c' + c' / 2) Hd). pose proof (byte_range d (c' + c' / 2 + 1) Hd).
  pose proof (Zmod_odd c). pose proof (Zmod_odd c').
  destruct (Z.eqb_spec (c' + c' / 2) (c + c / 2)); [destruct (Z.odd c), (Z.odd c'); lia|].
  destruct (Z.eqb_spec (c' + c' / 2 + 1) (c + c / 2 + 1)); [lia|].
  destruct (Z.eqb_spec (c' + c' / 2) (c + c / 2 + 1)) as [E|],
    (Z.eqb_spec (c' + c' / 2 + 1) (c + c / 2)) as [E'|]; [lia| | |done].
  - rewrite E. subst w w'. unfold u16_le in *.
    destruct (Z.odd c), (Z.odd c'); lia.
  - rewrite E'. subst w w'. unfold u16_le in *.
    destruct (Z.odd c), (Z.odd c'); lia.
Qed.

Lemma fat12_write d c e :
  bytes d → 0 ≤ c < 2 ^ 32 → c < slots Fat12 (len d) →
  ∃ d', fat12.write_fat_entry d c e = Ret (d', Ok tt) ∧ written Fat12 c e d d'.
Proof.
  intros Hd Hc Hs. cbn in Hs. unfold fat12.write_fat_entry.
  rewrite add_w_ok by lia. cbn [mbind out_bind]. rewrite add_w_ok by lia. cbn [mbind out_bind].
  rewrite (proj2 (Z.leb_gt _ _)), fat12_value by lia. cbn [mbind out_bind].
  rewrite !byte_at_eq, land_odd by lia. cbn [mbind out_bind].
  pose proof (encode_range Fat12 e) as Hv. change (top Fat12 + 16) with (2 ^ 12) in Hv.
  pose proof (byte_range d (c + c / 2) Hd). pose proof (byte_range d (c + c / 2 + 1) Hd).
  rewrite fat12_word, !set_byte_eq by (done || lia). cbn [mbind out_bind].
  set (w := if Z.odd c then _ else _).
  assert (0 ≤ w < 2 ^ 16) as Hw by (subst w; unfold u16_le; destruct (Z.odd c); lia).
  rewrite set_byte_eq by (rewrite length_insert; lia). cbn [mbind out_bind].
  edestruct (word_written d (c + c / 2) w) as (Hb & Hl & Hj); [done | lia | lia | done | done |].
  eexists. split; [done|]. split_and!; [done | done | |].
  - rewrite (fat12_raw d c w _ Hd (proj1 Hc) Hj). subst w. unfold u16_le. destruct (Z.odd c); lia.
  - intros c' Hc' Hne. apply (fat12_raw_ne d c (encode Fat12 e)); done || lia.
Qed.

Lemma fat16_write d c e :
  bytes d → 0 ≤ c < 2 ^ 32 → c < slots Fat16 (len d) →
  ∃ d', fat16.write_fat_entry d c e = Ret (d', Ok tt) ∧ written Fat16 c e d d'.
Proof.
  intros Hd Hc Hs. cbn in Hs. unfold fat16.write_fat_entry.
  rewrite mul_w_ok by lia. cbn [mbind out_bind]. rewrite add_w_ok by lia. cbn [mbind out_bind].
  rewrite (proj2 (Z.leb_gt _ _)), fat16_value by lia. cbn [mbind out_bind].
  pose proof (encode_range Fat16 e) as Hv. change (top Fat16 + 16) with (2 ^ 16) in Hv.
  rewrite set_byte_eq by lia. cbn [mbind out_bind].
  rewrite set_byte_eq by (rewrite length_insert; lia). cbn [mbind out_bind].
  edestruct (word_written d (c * 2)) as (Hb & Hl & Hj); [done | lia | lia | done | done |].
  eexists. split; [done|]. split_and!; [done | done | |].
  - unfold raw, u16_le. rewrite !Hj, Z.eqb_refl, (proj2 (Z.eqb_neq _ _)), Z.eqb_refl by lia. lia.
  - intros c' Hc' Hne. unfold raw. by rewrite !Hj, !(proj2 (Z.eqb_neq _ _)) by lia.
Qed.

Lemma fat32_last b v :
  0 ≤ b < 256 → 0 ≤ v < 2 ^ 28 →
  Z.lor (Z.land b 0xF0) (Z.land (Z.shiftr v 24) 0x0F) = b / 2 ^ 4 * 2 ^ 4 + v / 2 ^ 24.
Proof.
  intros Hb Hv. change 0xF0 with (not_w 8 (2 ^ 4 - 1)).
  rewrite land_not_mask by (unfold is_uint; lia).
  rewrite Z.shiftr_div_pow2, (land_low 4), (Z.mod_small (v / 2 ^ 24)) by lia.
  replace (b - b mod 2 ^ 4) with (b / 2 ^ 4 * 2 ^ 4) by lia.
  by rewrite (lor_low 4) by (try apply mul_pow2_mod_0; lia).
Qed.

Lemma fat32_write d c e :
  bytes d → 0 ≤ c < 2 ^ 32 → c < slots Fat32 (len d) →
  ∃ d', fat32.write_fat_entry d c e = Ret (d', Ok tt) ∧ written Fat32 c e d d'.
Proof.
  intros Hd Hc Hs. cbn in Hs. unfold fat32.write_fat_entry.
  rewrite mul_w_ok by lia. cbn [mbind out_bind]. rewrite add_w_ok by lia. cbn [mbind out_bind].
  rewrite (proj2 (Z.leb_gt _ _)), byte_at_eq by lia. cbn [mbind out_bind].
  set (v := match e with Free => _ | _ => _ end).
  assert (v = encode Fat32 e) as ->.
  { subst v. destruct e; try done. by apply (land_low 28). }
  set (v := encode Fat32 e). pose proof (encode_range Fat32 e) as Hv.
  change (top Fat32 + 16) with (2 ^ 28) in Hv. fold v in Hv.
  pose proof (byte_range d (c * 4 + 3) Hd) as H3. rewrite fat32_last by done.
  rewrite set_byte_eq by lia. cbn [mbind out_bind].
  rewrite set_byte_eq by (rewrite length_insert; lia). cbn [mbind out_bind].
  rewrite set_byte_eq by (rewrite !length_insert; lia). cbn [mbind out_bind].
  rewrite set_byte_eq by (rewrite !length_insert; lia). cbn [mbind out_bind].
  rewrite !Z.shiftr_div_pow2, !(land_low 8) by lia.
  eexists. split; [done|]. split_and!.
  - repeat apply bytes_insert; done || lia.
  - by rewrite !length_insert.
  - fold v. unfold raw, u32_le. rewrite !byte_insert by (rewrite ?length_insert; lia).
    rewrite !Z.eqb_refl, !(proj2 (Z.eqb_neq _ _)) by lia. lia.
  - intros c' Hc' Hne. unfold raw. rewrite !byte_insert by (rewrite ?length_insert; lia).
    by rewrite !(proj2 (Z.eqb_neq _ _)) by lia.
Qed.

(** ** The table as a map from clusters to entries *)

Definition limit (self : FatTable) : Z :=
  Z.min (FatTable.max_clusters self + 1) (slots (fat_type self) (len (data self))).

Definition cluster (self : FatTable) (c : Z) : Prop := 2 ≤ c < limit self.

Definition entry (self : FatTable) (c : Z) : FatEntry :=
  decode (fat_type self) (raw (fat_type self) (data self) c).

Definition free_list (self : FatTable) : list Z :=
  filter (λ c, entry self c = Free) (seqZ 2 (limit self - 2)).

(** The counter is the number of free clusters. *)
Definition fat_wf (self : FatTable) : Prop :=
  bytes (data self) ∧ free_count self = Z.of_nat (length (free_list self)).

(** The tables agree but for the clusters of [cs]. *)
Definition same_but (cs : list Z) (self self' : FatTable) : Prop :=
  fat_type self' = fat_type self ∧ length (data self') = length (data self) ∧
  ∀ c, cluster self c → c ∉ cs → entry self' c = entry self c.

(** The clusters [cs] are linked in this order, and the last one ends the chain. *)
Fixpoint chain (self : FatTable) (cs : list Z) : Prop :=
  match cs with
  | [] => False
  | c :: cs' =>
      cluster self c ∧
      match cs' with
      | [] => entry self c = EndOfChain
      | n :: _ => entry self c = Next n ∧ chain self cs'
      end
  end.

Lemma get_eq self c :
  bytes (data self) → 0 ≤ c < 2 ^ 32 →
  FatTable.get self c =
    Ret (if negb (Cluster.is_valid c (fat_type self)) then Err InvalidCluster
         else if c <? slots (fat_type self) (len (data self)) then Ok (entry self c)
         else Err OutOfBounds).
Proof.
  intros Hd Hc. unfold FatTable.get, entry. destruct (negb _); [done|].
  destruct (fat_type self); [apply fat12_read | apply fat16_read | apply fat32_read]; done.
Qed.

Lemma is_valid_eq self c :
  Cluster.is_valid c (fat_type self) = (2 <=? c) && (c <=? FatTable.max_clusters self).
Proof. unfold Cluster.is_valid, FatTable.max_clusters. by destruct (fat_type self). Qed.

Lemma cluster_u32 self c : cluster self c → 2 ≤ c ≤ FatTable.max_clusters self ∧ c < 2 ^ 32 ∧
  c < slots (fat_type self) (len (data self)).
Proof.
  unfold cluster, limit, FatTable.max_clusters. destruct (fat_type self); lia.
Qed.

Lemma cluster_valid self c : cluster self c → Cluster.is_valid c (fat_type self) = true.
Proof. intros H%cluster_u32. rewrite is_valid_eq. lia. Qed.

Lemma get_cluster self c :
  bytes (data self) → cluster self c → FatTable.get self c = Ret (Ok (entry self c)).
Proof.
  intros Hd Hc. pose proof (cluster_u32 _ _ Hc).
  rewrite get_eq, cluster_valid by (done || lia). cbn [negb].
  by rewrite (proj2 (Z.ltb_lt _ _)) by lia.
Qed.

Lemma get_out self c :
  bytes (data self) → 0 ≤ c < 2 ^ 32 → ¬ cluster self c →
  FatTable.get self c =
    Ret (Err (if Cluster.is_valid c (fat_type self) then OutOfBounds else InvalidCluster)).
Proof.
  intros Hd Hc Hn. rewrite get_eq, !is_valid_eq by done. unfold cluster, limit in Hn.
  destruct (_ && _) eqn:E; cbn [negb]; [|done]. by rewrite (proj2 (Z.ltb_ge _ _)) by lia.
Qed.

Lemma write_entry_ok self c e :
  bytes (data self) → cluster self c →
  ∃ d, FatTable.write_entry c e self = Ret (mkFatTable (fat_type self) d (free_count self), Ok tt) ∧
    written (fat_type self) c e (data self) d.
Proof.
  intros Hd Hc. pose proof (cluster_u32 _ _ Hc) as (H1 & H2 & H3).
  unfold FatTable.write_entry. destruct self as [[] d n]; cbn [fat_type data free_count] in *.
  - destruct (fat12_write d c e) as (d' & -> & Hw); [done | lia | done | eauto].
  - destruct (fat16_write d c e) as (d' & -> & Hw); [done | lia | done | eauto].
  - destruct (fat32_write d c e) as (d' & -> & Hw); [done | lia | done | eauto].
Qed.

Lemma filter_agree {A} (P Q : A → Prop) `{∀ x, Decision (P x), ∀ x, Decision (Q x)} (l : list A) :
  (∀ y, y ∈ l → P y ↔ Q y) → filter P l = filter Q l.
Proof.
  induction l as [|y l IH]; intros Hy; [done|]. rewrite !filter_cons.
  rewrite IH by (intros; apply Hy; by right). assert (P y ↔ Q y) by (apply Hy; left).
  by destruct (decide (P y)), (decide (Q y)); try tauto.
Qed.

(** A predicate that changes at one element of a list without duplicates. *)
Lemma filter_drop {A} (P Q : A → Prop) `{∀ x, Decision (P x), ∀ x, Decision (Q x)} x (l : list A) :
  NoDup l → x ∈ l → P x → ¬ Q x → (∀ y, y ∈ l → y ≠ x → P y ↔ Q y) →
  length (filter P l) = S (length (filter Q l)).
Proof.
  intros Hl Hx HP HQ Hy. induction Hl as [|y l Hn Hl IH]; [by apply elem_of_nil in Hx|].
  rewrite !filter_cons. apply elem_of_cons in Hx as [<-|Hx].
  - rewrite decide_True, decide_False by done. cbn. do 2 f_equal.
    apply filter_agree. intros z Hz. apply Hy; [by right|]. by intros ->.
  - assert (y ≠ x) as Hne by (by intros ->).
    assert (P y ↔ Q y) by (apply Hy; [left | done]).
    assert (length (filter P l) = S (length (filter Q l))) as E.
    { apply IH; [done|]. intros z Hz. apply Hy. by right. }
    destruct (decide (P y)), (decide (Q y)); cbn; tauto || lia.
Qed.

Lemma same_limit cs self self' : same_but cs self self' → limit self' = limit self.
Proof.
  intros (Ht & Hl & _). unfold limit, FatTable.max_clusters. by rewrite Ht, Hl.
Qed.

Lemma same_cluster cs self self' c : same_but cs self self' → cluster self' c ↔ cluster self c.
Proof. intros H. unfold cluster. by rewrite (same_limit cs _ _ H). Qed.

Lemma same_trans cs cs' self self' self'' :
  same_but cs self self' → same_but cs' self' self'' → same_but (cs ++ cs') self self''.
Proof.
  intros Hs (Ht' & Hl' & He'). pose proof Hs as (Ht & Hl & He). split_and!; [congruence..|].
  intros c Hc [Hn Hn']%not_elem_of_app. rewrite He'; [by apply He | | done].
  by apply (same_cluster cs _ _ c Hs).
Qed.

Lemma same_weaken cs cs' self self' :
  (∀ c, c ∈ cs → c ∈ cs') → same_but cs self self' → same_but cs' self self'.
Proof. intros Hi (Ht & Hl & He). split_and!; [done..|]. intros c Hc Hn. apply He; eauto. Qed.

Lemma same_refl cs self : same_but cs self self.
Proof. done. Qed.

Lemma elem_of_clusters self c : c ∈ seqZ 2 (limit self - 2) ↔ cluster self c.
Proof. rewrite elem_of_seqZ. unfold cluster. lia. Qed.

(** How one changed entry changes the number of free clusters. *)
Lemma free_list_update self self' c :
  same_but [c] self self' → cluster self c →
  Z.of_nat (length (free_list self')) =
    FatTable.new_count (Z.of_nat (length (free_list self))) (entry self c) (entry self' c).
Proof.
  intros Hs Hc. pose proof Hs as (_ & _ & He). unfold free_list, FatTable.new_count.
  rewrite (same_limit _ _ _ Hs). set (l := seqZ 2 _).
  assert (NoDup l) by apply NoDup_seqZ.
  assert (c ∈ l) by by apply elem_of_clusters.
  assert (∀ y, y ∈ l → y ≠ c → entry self' y = entry self y) as Hy.
  { intros y Hl%elem_of_clusters Hne. apply He; [done|]. by rewrite list_elem_of_singleton. }
  assert (Z.of_nat (length l) ≤ 0x0FFFFFFF) as Hmax.
  { subst l. rewrite length_seqZ. unfold limit, FatTable.max_clusters. destruct (fat_type self); lia. }
  pose proof (length_filter (λ x, entry self x = Free) l).
  assert (∀ y, y ∈ l → y ≠ c → entry self y = Free ↔ entry self' y = Free) as Hiff.
  { intros y Hl Hne. by rewrite Hy. }
  destruct (bool_decide_reflect (entry self c = Free)) as [E1|E1],
    (bool_decide_reflect (entry self' c = Free)) as [E2|E2]; cbn [negb andb].
  - f_equal. f_equal. apply filter_agree. intros y Hl. destruct (decide (y = c)) as [->|]; [done|].
    by rewrite Hiff.
  - rewrite (filter_drop (λ x, entry self x = Free) (λ x, entry self' x = Free) c l) by done.
    unfold saturating_sub. lia.
  - rewrite (filter_drop (λ x, entry self' x = Free) (λ x, entry self x = Free) c l); try done.
    + unfold saturating_add. lia.
    + intros y Hl Hne. by rewrite Hiff.
  - f_equal. f_equal. apply filter_agree. intros y Hl. destruct (decide (y = c)) as [->|]; [done|].
    by rewrite Hiff.
Qed.

(** [set] replaces one entry and keeps the counter right. *)
Lemma set_ok self c e :
  fat_wf self → cluster self c → entry_ok (fat_type self) e →
  ∃ self', FatTable.set c e self = Ret (self', Ok tt) ∧ fat_wf self' ∧
    same_but [c] self self' ∧ entry self' c = e ∧
    free_count self' = FatTable.new_count (free_count self) (entry self c) e.
Proof.
  intros [Hd Hn] Hc He. unfold FatTable.set. rewrite cluster_valid by done. cbn [negb andb].
  set (n := FatTable.new_count (free_count self) (entry self c) e).
  destruct (write_entry_ok (FatTable.set_count self n) c e) as (d & Hw & Hwr); [done|done|].
  pose proof Hwr as (Hb & Hl & Hraw & Hne). cbn [fat_type data FatTable.set_count] in *.
  rewrite (eff_bind_Ok _ _ _ self (entry self c)).
  2: { unfold FatTable.get_entry. by rewrite get_cluster. }
  rewrite (eff_bind_Ok _ _ _ (FatTable.set_count self n) tt) by done.
  rewrite Hw. eexists. split; [done|].
  set (self' := mkFatTable _ _ _).
  assert (same_but [c] self self') as Hs.
  { split_and!; [done|done|]. intros c' Hc' Hnot. unfold entry. cbn. f_equal.
    unfold cluster in Hc'. apply Hne; [lia|]. intros ->. apply Hnot. by apply list_elem_of_singleton. }
  assert (entry self' c = e) as He'.
  { unfold entry. cbn. by rewrite Hraw, decode_encode. }
  split_and!; [split; [done|] | done | done | done].
  change (free_count self') with n. rewrite (free_list_update self self' c) by done. by rewrite <- Hn, He'.
Qed.

(** ** Allocation *)

Lemma new_count_take n e : e ≠ Free → FatTable.new_count n Free e = Z.max 0 (n - 1).
Proof. intros H. unfold FatTable.new_count. by rewrite bool_decide_true, bool_decide_false. Qed.
Lemma new_count_free n e : e ≠ Free → FatTable.new_count n e Free = Z.min (n + 1) (2 ^ 32 - 1).
Proof. intros H. unfold FatTable.new_count. by rewrite (bool_decide_false (e = _)), bool_decide_true. Qed.
Lemma new_count_used n e e' : e ≠ Free → e' ≠ Free → FatTable.new_count n e e' = n.
Proof. intros H H'. unfold FatTable.new_count. by rewrite !bool_decide_false. Qed.

(** The table after [c], free in [self], became the end of a chain. *)
Definition took (self : FatTable) (c : Z) (self' : FatTable) : Prop :=
  cluster self c ∧ entry self c = Free ∧ fat_wf self' ∧
  same_but [c] self self' ∧ entry self' c = EndOfChain ∧ free_count self' = free_count self - 1.

Lemma elem_of_free_list self c : c ∈ free_list self ↔ cluster self c ∧ entry self c = Free.
Proof. unfold free_list. rewrite list_elem_of_filter, elem_of_clusters. tauto. Qed.

Lemma free_count_pos self c :
  fat_wf self → cluster self c → entry self c = Free → 0 < free_count self.
Proof.
  intros [_ ->] Hc He. assert (c ∈ free_list self) as Hin by by apply elem_of_free_list.
  destruct (free_list self); [by apply elem_of_nil in Hin | cbn; lia].
Qed.

Lemma take_ok self c :
  fat_wf self → cluster self c → entry self c = Free →
  ∃ self', FatTable.set c EndOfChain self = Ret (self', Ok tt) ∧ took self c self'.
Proof.
  intros Hwf Hc He. pose proof (free_count_pos _ _ Hwf Hc He).
  destruct (set_ok self c EndOfChain) as (self' & Hset & Hwf' & Hs & He' & Hn); [done..|].
  exists self'. split; [done|]. split_and!; try done.
  rewrite Hn, He, new_count_take by done. lia.
Qed.

Lemma alloc_loop_ok fuel i self :
  fat_wf self → 2 ≤ i < 2 ^ 32 → Z.max 0 (limit self - i) < Z.of_nat fuel →
  (∃ c self', FatTable.alloc_loop fuel i self = Ret (self', Ok c) ∧ i ≤ c ∧ took self c self' ∧
     ∀ c', i ≤ c' < c → entry self c' ≠ Free) ∨
  (FatTable.alloc_loop fuel i self = Ret (self, Err OutOfBounds) ∧
     ∀ c', i ≤ c' < limit self → entry self c' ≠ Free).
Proof.
  revert i. induction fuel as [|fuel IH]; intros i Hwf Hi Hf; [lia|].
  cbn [FatTable.alloc_loop]. destruct (Z.ltb_spec (FatTable.max_clusters self) i) as [Hm|Hm].
  { right. split; [done|]. intros c' Hc'. unfold limit in Hc'. lia. }
  destruct (decide (cluster self i)) as [Hc|Hc].
  - rewrite get_cluster by (done || apply Hwf). cbn [mbind out_bind].
    destruct (decide (entry self i = Free)) as [E|E].
    + left. destruct (take_ok self i) as (self' & Hset & Htook); [done..|].
      exists i, self'. rewrite E. split; [by rewrite (eff_bind_Ok _ _ _ _ _ Hset)|].
      split_and!; [lia | done | lia].
    + assert (i < 2 ^ 32 - 1).
      { unfold FatTable.max_clusters in Hm. destruct (fat_type self); lia. }
      destruct (IH (i + 1)) as [(c & self' & Hl & Hle & Htook & Hmin) | [Hl Hmin]];
        [done | lia | unfold cluster in Hc; lia | left | right].
      * exists c, self'. split; [by destruct (entry self i)|]. split_and!; [lia | done |].
        intros c' Hc'. destruct (decide (c' = i)) as [->|]; [done | apply Hmin; lia].
      * split; [by destruct (entry self i)|].
        intros c' Hc'. destruct (decide (c' = i)) as [->|]; [done | apply Hmin; lia].
  - right. rewrite get_out by (done || lia || apply Hwf). rewrite is_valid_eq.
    rewrite (proj2 (Z.leb_le _ _)), (proj2 (Z.leb_le _ _)) by lia. split; [done|].
    unfold cluster in Hc. lia.
Qed.

Lemma slots_le ty n : 0 ≤ n → slots ty n ≤ n.
Proof. intros. destruct ty; cbn; lia. Qed.

Lemma alloc_cluster_ok self :
  fat_wf self →
  (∃ c self', FatTable.alloc_cluster self = Ret (self', Ok c) ∧ took self c self' ∧
     ∀ c', 2 ≤ c' < c → entry self c' ≠ Free) ∨
  (FatTable.alloc_cluster self = Ret (self, Err OutOfBounds) ∧ free_list self = []).
Proof.
  intros Hwf. unfold FatTable.alloc_cluster. destruct (Z.eqb_spec (free_count self) 0) as [E|E].
  { right. split; [done|]. destruct Hwf as [_ Hn]. apply nil_length_inv. lia. }
  destruct (alloc_loop_ok (S (length (data self))) 2 self) as
    [(c & self' & Hl & _ & Ht & Hmin) | [_ Hno]]; [done | done | | by left; eauto 10 |].
  { pose proof (slots_le (fat_type self) (len (data self))). unfold limit. lia. }
  exfalso. apply E. destruct Hwf as [_ ->]. destruct (free_list self) as [|c l] eqn:Hl; [done|].
  assert (c ∈ free_list self) as [Hc He]%elem_of_free_list by (rewrite Hl; left).
  by destruct (Hno c).
Qed.

(** ** Chains *)

Lemma chain_det self c cs cs' : chain self (c :: cs) → chain self (c :: cs') → cs = cs'.
Proof.
  revert c cs'. induction cs as [|n cs IH]; intros c cs'.
  - intros [_ E] [_ H']. destruct cs' as [|n' cs']; [done|]. destruct H'. congruence.
  - intros [_ [E Hc]] [_ H']. destruct cs' as [|n' cs']; [congruence|].
    destruct H' as [E' Hc']. assert (n' = n) as -> by congruence. f_equal. by apply (IH n).
Qed.

Lemma chain_suffix self l c cs : chain self (l ++ c :: cs) → chain self (c :: cs).
Proof.
  induction l as [|x l IH]; [done|]. cbn [app]. intros [_ H].
  destruct l as [|y l]; cbn [app] in *; [by destruct H | apply IH, H].
Qed.

(** A chain that ends has no cycle. *)
Lemma chain_NoDup self cs : chain self cs → NoDup cs.
Proof.
  induction cs as [|c cs IH]; [constructor|]. intros H. constructor.
  - intros (l1 & l2 & ->)%list_elem_of_split.
    assert (chain self (c :: l2)) as H2 by apply (chain_suffix self (c :: l1) c l2 H).
    pose proof (chain_det _ _ _ _ H H2) as E. apply (f_equal length) in E.
    rewrite length_app in E. cbn in E. lia.
  - destruct cs as [|n cs]; [constructor|]. apply IH, H.
Qed.

Lemma chain_cluster self cs c : chain self cs → c ∈ cs → cluster self c.
Proof.
  intros H (l1 & l2 & ->)%list_elem_of_split. by apply (chain_suffix self l1 c l2).
Qed.

(** A chain is kept by a change elsewhere. *)
Lemma chain_same cs xs self self' :
  same_but xs self self' → (∀ c, c ∈ cs → c ∉ xs) → chain self cs → chain self' cs.
Proof.
  intros Hs. pose proof Hs as (_ & _ & He). induction cs as [|c cs IH]; [done|].
  intros Hx [Hc H]. split; [by apply (same_cluster _ _ _ _ Hs)|].
  rewrite He by (done || apply Hx; left).
  destruct cs as [|n cs]; [done|]. destruct H as [E H]. split; [done|].
  apply IH; [|done]. intros x Hin. apply Hx. by right.
Qed.

Lemma took_not_free self c self' c' :
  took self c self' → cluster self c' → entry self' c' = Free → entry self c' = Free ∧ c' ≠ c.
Proof.
  intros (_ & _ & _ & (_ & _ & He) & Hc & _) Hc' E.
  assert (c' ≠ c) as Hne by (intros ->; congruence).
  rewrite He in E; [done | done |]. by rewrite list_elem_of_singleton.
Qed.

(** The loop of [alloc_cluster_chain] hangs [n] fresh clusters on [prev]. *)
Lemma chain_loop_ok n prev self :
  fat_wf self → limit self ≤ top (fat_type self) → Z.of_nat n ≤ free_count self →
  cluster self prev → entry self prev = EndOfChain →
  ∃ cs self', FatTable.chain_loop n prev self = Ret (self', Ok tt) ∧ fat_wf self' ∧
    length cs = n ∧ chain self' (prev :: cs) ∧ same_but (prev :: cs) self self' ∧
    (∀ c, c ∈ cs → entry self c = Free) ∧ free_count self' = free_count self - Z.of_nat n.
Proof.
  revert prev self. induction n as [|n IH]; intros prev self Hwf Hlim Hn Hp Ep.
  { exists [], self. split_and!; try done; [by intros c ?%elem_of_nil | lia]. }
  cbn [FatTable.chain_loop].
  destruct (alloc_cluster_ok self Hwf) as [(c & s1 & Ha & Ht & _) | [_ Hno]].
  2: { destruct Hwf as [_ E]. rewrite Hno in E. cbn in E. lia. }
  rewrite (eff_bind_Ok _ _ _ _ _ Ha).
  pose proof Ht as (Hc & Ec & Hwf1 & Hs1 & Ec1 & Hn1). pose proof Hs1 as (Ht1 & _ & He1).
  assert (prev ≠ c) as Hpc by (intros ->; congruence).
  assert (entry s1 prev = EndOfChain) as Ep1.
  { rewrite He1; [done | done | by rewrite list_elem_of_singleton]. }
  destruct (set_ok s1 prev (Next c)) as (s2 & Hset & Hwf2 & Hs2 & Ep2 & Hn2); [done | | |].
  { by apply (same_cluster _ _ _ _ Hs1). }
  { rewrite Ht1. cbn. unfold cluster in Hc. lia. }
  rewrite (eff_bind_Ok _ _ _ _ _ Hset). pose proof Hs2 as (Ht2 & _ & He2).
  rewrite Ep1, new_count_used in Hn2 by done.
  pose proof (same_trans _ _ _ _ _ Hs1 Hs2) as Hs12.
  destruct (IH c s2) as (cs & s3 & Hl & Hwf3 & Hlen & Hch & Hs3 & Hfree & Hn3); [done | | lia | | |].
  { rewrite (same_limit _ _ _ Hs12). congruence. }
  { by apply (same_cluster _ _ _ _ Hs12). }
  { rewrite He2; [done | by apply (same_cluster _ _ _ _ Hs1) | by rewrite list_elem_of_singleton]. }
  assert (∀ x, x ∈ cs → x ≠ prev ∧ entry self x = Free) as Hfree'.
  { intros x Hx. pose proof (Hfree x Hx) as Ex.
    assert (cluster s1 x) as Hx1.
    { apply (same_cluster _ _ _ _ Hs2), (same_cluster _ _ _ _ Hs3).
      apply (chain_cluster s3 (c :: cs)); [done | by right]. }
    assert (x ≠ prev) as Hxp by (intros ->; congruence). split; [done|].
    rewrite He2 in Ex; [|done|by rewrite list_elem_of_singleton].
    by apply (took_not_free self c s1 x Ht); [apply (same_cluster _ _ _ _ Hs1)|]. }
  assert (same_but (prev :: c :: cs) self s3) as Hs.
  { eapply same_weaken; [|exact (same_trans _ _ _ _ _ Hs12 Hs3)].
    intros x. cbn [app]. set_solver. }
  exists (c :: cs), s3. split_and!; [done | done | cbn; lia | | done | | lia].
  - split; [by apply (same_cluster _ _ _ _ Hs)|]. split; [|done].
    pose proof Hs3 as (_ & _ & He3). rewrite He3; [done | by apply (same_cluster _ _ _ _ Hs12) |].
    intros [->|Hx]%elem_of_cons; [done|]. by apply (Hfree' prev).
  - intros x [->|Hx]%elem_of_cons; [done|]. by apply Hfree'.
Qed.

Lemma alloc_cluster_chain_ok self count :
  fat_wf self → limit self ≤ top (fat_type self) → 1 ≤ count ≤ free_count self →
  ∃ first cs self', FatTable.alloc_cluster_chain count self = Ret (self', Ok first) ∧ fat_wf self' ∧
    Z.of_nat (length (first :: cs)) = count ∧ chain self' (first :: cs) ∧
    same_but (first :: cs) self self' ∧ (∀ c, c ∈ first :: cs → entry self c = Free) ∧
    free_count self' = free_count self - count.
Proof.
  intros Hwf Hlim Hn. unfold FatTable.alloc_cluster_chain.
  rewrite (proj2 (Z.eqb_neq _ _)), (proj2 (Z.ltb_ge _ _)) by lia.
  destruct (alloc_cluster_ok self Hwf) as [(c & s1 & Ha & Ht & _) | [_ Hno]].
  2: { destruct Hwf as [_ E]. rewrite Hno in E. cbn in E. lia. }
  rewrite (eff_bind_Ok _ _ _ _ _ Ha).
  pose proof Ht as (Hc & Ec & Hwf1 & Hs1 & Ec1 & Hn1). pose proof Hs1 as (Ht1 & _ & He1).
  destruct (chain_loop_ok (Z.to_nat (count - 1)) c s1) as
    (cs & s2 & Hl & Hwf2 & Hlen & Hch & Hs2 & Hfree & Hn2); [done | | lia | | done |].
  { rewrite (same_limit _ _ _ Hs1). congruence. }
  { by apply (same_cluster _ _ _ _ Hs1). }
  rewrite (eff_bind_Ok _ _ _ _ _ Hl). exists c, cs, s2.
  split_and!; [done | done | cbn; lia | done | | | lia].
  - eapply same_weaken; [|exact (same_trans _ _ _ _ _ Hs1 Hs2)]. intros x. cbn [app]. set_solver.
  - intros x [->|Hx]%elem_of_cons; [done|]. apply (took_not_free self c s1 x Ht); [|by apply Hfree].
    apply (same_cluster _ _ _ _ Hs1), (same_cluster _ _ _ _ Hs2).
    apply (chain_cluster s2 (c :: cs)); [done | by right].
Qed.

(** ** Freeing *)

Lemma free_loop_chain cs fuel c self :
  fat_wf self → chain self (c :: cs) → (length cs < fuel)%nat →
  ∃ self', FatTable.free_loop fuel c self = Ret (self', Ok tt) ∧ fat_wf self' ∧
    same_but (c :: cs) self self' ∧ ∀ x, x ∈ c :: cs → entry self' x = Free.
Proof.
  revert fuel c self. induction cs as [|n cs IH]; intros [|fuel] c self Hwf Hch Hf;
    try (cbn in Hf; lia); pose proof (chain_NoDup _ _ Hch) as Hnd; destruct Hch as [Hc H];
    cbn [FatTable.free_loop]; unfold Cluster.is_free;
    (rewrite (proj2 (Z.eqb_neq _ _)) by (unfold cluster in Hc; lia));
    (rewrite (eff_bind_Ok _ _ _ self (entry self c))
       by (unfold FatTable.get_entry; by rewrite get_cluster by (done || apply Hwf)));
    (destruct (set_ok self c Free) as (s1 & Hset & Hwf1 & Hs1 & E1 & _); [done..|]).
  - rewrite H. exists s1. split_and!; [done..|]. intros x ->%list_elem_of_singleton. done.
  - destruct H as [E Hch]. rewrite E, (eff_bind_Ok _ _ _ _ _ Hset).
    apply NoDup_cons in Hnd as [Hnc Hnd].
    destruct (IH fuel n s1) as (s2 & Hl & Hwf2 & Hs2 & E2); [done | | cbn in Hf; lia |].
    { apply (chain_same _ [c] self); [done | | done]. intros x Hx. set_solver. }
    exists s2. split_and!; [done | done | |].
    + exact (same_trans _ _ _ _ _ Hs1 Hs2).
    + pose proof Hs2 as (_ & _ & He2). intros x [->|Hx]%elem_of_cons; [|by apply E2].
      rewrite He2; [done | by apply (same_cluster _ _ _ _ Hs1) | done].
Qed.

(** A chain has at most as many clusters as the table. *)
Lemma fat_chain_length self cs : chain self cs → (length cs ≤ length (data self))%nat.
Proof.
  intros H. etrans; [apply (submseteq_length _ (seqZ 2 (limit self - 2)))|].
  - apply NoDup_submseteq; [by apply (chain_NoDup self)|].
    intros x Hx. apply elem_of_clusters. by apply (chain_cluster self cs).
  - rewrite length_seqZ. pose proof (slots_le (fat_type self) (len (data self))). unfold limit. lia.
Qed.

Lemma free_cluster_chain_ok self c cs :
  fat_wf self → chain self (c :: cs) →
  ∃ self', FatTable.free_cluster_chain c self = Ret (self', Ok tt) ∧ fat_wf self' ∧
    same_but (c :: cs) self self' ∧ ∀ x, x ∈ c :: cs → entry self' x = Free.
Proof.
  intros Hwf Hch. unfold FatTable.free_cluster_chain.
  rewrite cluster_valid by apply Hch. apply free_loop_chain; [done..|].
  apply fat_chain_length in Hch. cbn in Hch. lia.
Qed.

(** Every cluster keeps its entry or becomes free. *)
Definition only_freed (self self' : FatTable) : Prop :=
  fat_type self' = fat_type self ∧ length (data self') = length (data self) ∧
  ∀ c, cluster self c → entry self' c = entry self c ∨ entry self' c = Free.

Lemma only_freed_refl self : only_freed self self.
Proof. split_and!; [done..|]. intros. by left. Qed.

Lemma only_freed_trans s1 s2 s3 : only_freed s1 s2 → only_freed s2 s3 → only_freed s1 s3.
Proof.
  intros (Ht & Hl & He) (Ht' & Hl' & He'). split_and!; [congruence..|]. intros c Hc.
  assert (cluster s2 c) as Hc2.
  { unfold cluster, limit, FatTable.max_clusters in *. by rewrite Ht, Hl. }
  destruct (He' c Hc2) as [->|]; [by apply He | by right].
Qed.

Lemma raw_range ty d c : bytes d → 0 ≤ raw ty d c < top ty + 16.
Proof.
  intros Hd. destruct ty; cbn [raw top]; unfold u16_le, u32_le.
  - pose proof (byte_range d (c + c / 2) Hd). pose proof (byte_range d (c + c / 2 + 1) Hd).
    destruct (Z.odd c); lia.
  - pose proof (byte_range d (c * 2) Hd). pose proof (byte_range d (c * 2 + 1) Hd). lia.
  - pose proof (byte_range d (c * 4) Hd). pose proof (byte_range d (c * 4 + 1) Hd).
    pose proof (byte_range d (c * 4 + 2) Hd). pose proof (byte_range d (c * 4 + 3) Hd). lia.
Qed.

Lemma next_u32 self c n : bytes (data self) → entry self c = Next n → 0 ≤ n < 2 ^ 32.
Proof.
  intros Hd. unfold entry, decode. pose proof (raw_range (fat_type self) (data self) c Hd).
  repeat case_match; intros [= <-]. destruct (fat_type self); cbn in *; lia.
Qed.

Lemma free_count_le self : fat_wf self → free_count self ≤ Z.max 0 (limit self - 2).
Proof.
  intros [_ Hn]. unfold free_list in Hn.
  pose proof (length_filter (λ x, entry self x = Free) (seqZ 2 (limit self - 2))) as Hle.
  rewrite length_seqZ in Hle. lia.
Qed.

Lemma limit_le self : limit self ≤ 2 ^ 28.
Proof. unfold limit, FatTable.max_clusters. destruct (fat_type self); lia. Qed.

(** The loop ends on every table, also on a cycle: each turn but the last frees
    a cluster that was in use. *)
Lemma free_loop_total fuel c self :
  fat_wf self → 0 ≤ c < 2 ^ 32 →
  Z.max 0 (limit self - 2) - free_count self < Z.of_nat fuel →
  ∃ self' r, FatTable.free_loop fuel c self = Ret (self', r) ∧ fat_wf self' ∧ only_freed self self'.
Proof.
  revert c self. induction fuel as [|fuel IH]; intros c self Hwf Hc Hf.
  { pose proof (free_count_le self Hwf). lia. }
  pose proof (only_freed_refl self) as Hrefl. cbn [FatTable.free_loop].
  destruct (Cluster.is_free c); [by exists self, (Ok tt)|].
  destruct (decide (cluster self c)) as [Hcl|Hcl].
  2: { erewrite (eff_bind_Err _ _ _ self) by
         (unfold FatTable.get_entry; by rewrite get_out by (done || apply Hwf)).
       by eexists self, _. }
  rewrite (eff_bind_Ok _ _ _ self (entry self c))
    by (unfold FatTable.get_entry; by rewrite get_cluster by (done || apply Hwf)).
  destruct (set_ok self c Free) as (s1 & Hset & Hwf1 & Hs1 & E1 & Hn1); [done..|].
  pose proof Hs1 as (Ht1 & Hl1 & He1).
  assert (only_freed self s1) as Hof.
  { split_and!; [done..|]. intros x Hx. destruct (decide (x = c)) as [->|]; [by right|].
    left. apply He1; [done|]. by rewrite list_elem_of_singleton. }
  destruct (entry self c) as [|n| | |] eqn:E; try by eexists self, _.
  2: { exists s1, (Ok tt). by rewrite Hset. }
  rewrite (eff_bind_Ok _ _ _ _ _ Hset), new_count_free in * by done.
  pose proof (next_u32 self c n (proj1 Hwf) E). pose proof (free_count_le self Hwf).
  pose proof (limit_le self).
  destruct (IH n s1) as (s2 & r & Hl & Hwf2 & Hof2); [done | done | |].
  { rewrite (same_limit _ _ _ Hs1). lia. }
  exists s2, r. split_and!; [done | done | by apply (only_freed_trans self s1)].
Qed.

(** ** Counting and iterating *)

Lemma count_loop_ok fuel self i n :
  bytes (data self) → 2 ≤ i < 2 ^ 32 → 0 ≤ n → n + Z.max 0 (limit self - i) < 2 ^ 32 →
  Z.max 0 (limit self - i) < Z.of_nat fuel →
  FatTable.count_loop fuel self i n =
    Ret (Ok (n + Z.of_nat (length (filter (λ c, entry self c = Free) (seqZ i (limit self - i)))))).
Proof.
  intros Hd. revert i n. induction fuel as [|fuel IH]; intros i n Hi Hn Hb Hf; [lia|].
  cbn [FatTable.count_loop]. destruct (Z.ltb_spec (FatTable.max_clusters self) i) as [Hm|Hm].
  { rewrite seqZ_nil by (unfold limit; lia). cbn. do 2 f_equal. lia. }
  destruct (decide (cluster self i)) as [Hc|Hc]; pose proof Hc as Hc'; unfold cluster in Hc'.
  - rewrite get_cluster by done. cbn [mbind out_bind].
    rewrite (seqZ_cons i), filter_cons by lia. replace (Z.succ i) with (i + 1) by lia.
    replace (Z.pred (limit self - i)) with (limit self - (i + 1)) by lia.
    assert (i < 2 ^ 32 - 1) by (pose proof (limit_le self); lia).
    destruct (decide (entry self i = Free)) as [E|E].
    + rewrite E, add_w_ok by lia. cbn [mbind out_bind]. rewrite IH by lia. cbn [length].
      do 2 f_equal. lia.
    + transitivity (FatTable.count_loop fuel self (i + 1) n); [by destruct (entry self i)|].
      by rewrite IH by lia.
  - rewrite get_out by (done || lia). cbn [mbind out_bind].
    rewrite is_valid_eq, (proj2 (Z.leb_le _ _)), (proj2 (Z.leb_le _ _)) by lia.
    rewrite seqZ_nil by lia. cbn. do 2 f_equal. lia.
Qed.

Lemma count_free_ok self :
  bytes (data self) →
  FatTable.count_free self = Ret (Ok (Z.of_nat (length (free_list self)))).
Proof.
  intros Hd. pose proof (limit_le self). unfold FatTable.count_free.
  rewrite count_loop_ok; [done | done | lia | lia | lia |].
  pose proof (slots_le (fat_type self) (len (data self))). unfold limit. lia.
Qed.

Lemma chain_iter_ok cs c self fuel :
  bytes (data self) → chain self (c :: cs) → (length cs < fuel)%nat →
  collect (FatTable.chain_next self) (S fuel) (Some c) = Ret (Some (c :: cs)).
Proof.
  intros Hd. revert c fuel. induction cs as [|n cs IH]; intros c [|fuel] [Hc H] Hf;
    try (cbn in Hf; lia); cbn [collect FatTable.chain_next];
    (rewrite get_cluster by done); cbn [mbind out_bind].
  - by rewrite H.
  - destruct H as [-> H]. cbn [mbind out_bind mret out_ret].
    specialize (IH n fuel H ltac:(cbn in Hf; lia)). cbn [collect mbind out_bind] in IH |- *.
    by rewrite IH.
Qed.

(** ** Properties *)

(** [FatTable::new] counts the free clusters: it never fails, keeps the
    bytes, and its counter is the number of clusters whose entry reads as free. *)
Theorem fat_new_spec ty d :
  bytes d →
  ∃ self, FatTable.new ty d = Ret self ∧ fat_wf self ∧ fat_type self = ty ∧ data self = d.
Proof.
  intros Hd. unfold FatTable.new. rewrite count_free_ok by done. cbn [mbind out_bind].
  by eexists.
Qed.

(** Reading after writing, for FAT12, FAT16 and FAT32: [set] on a cluster of
    the table succeeds, [get] then returns the entry, every other cluster reads
    as before (also the neighbour that shares a byte in FAT12), and the counter is
    again the number of free clusters. *)
Theorem fat_set_get self c e :
  fat_wf self → cluster self c → entry_ok (fat_type self) e →
  ∃ self', FatTable.set c e self = Ret (self', Ok tt) ∧ fat_wf self' ∧
    FatTable.get self' c = Ret (Ok e) ∧
    ∀ c', 0 ≤ c' < 2 ^ 32 → c' ≠ c → FatTable.get self' c' = FatTable.get self c'.
Proof.
  intros Hwf Hc He. destruct (set_ok self c e) as (self' & Hset & Hwf' & Hs & E & _); [done..|].
  pose proof Hs as (Ht & Hl & He').
  exists self'. split_and!; [done | done | |].
  - rewrite get_cluster, E; [done | apply Hwf' | by apply (same_cluster _ _ _ _ Hs)].
  - intros c' Hc' Hne. destruct (decide (cluster self c')) as [Hin|Hout].
    + rewrite !get_cluster; [|apply Hwf | done | apply Hwf' | by apply (same_cluster _ _ _ _ Hs)].
      rewrite He'; [done | done |]. by rewrite list_elem_of_singleton.
    + rewrite !get_out; [by rewrite Ht | apply Hwf | done | done | apply Hwf' | done |].
      by rewrite (same_cluster _ _ _ _ Hs).
Qed.

(** [alloc_cluster] on a table whose counter is right: it takes the lowest
    free cluster and marks it as the end of a chain, leaving the rest as it was,
    and it fails, with the table unchanged, exactly when no cluster is free. *)
Theorem fat_alloc_cluster_spec self :
  fat_wf self →
  (∃ c self', FatTable.alloc_cluster self = Ret (self', Ok c) ∧ took self c self' ∧
     ∀ c', 2 ≤ c' < c → entry self c' ≠ Free) ∨
  (FatTable.alloc_cluster self = Ret (self, Err OutOfBounds) ∧ free_list self = []).
Proof. apply alloc_cluster_ok. Qed.

(** [alloc_cluster_chain] on a table without reserved cluster numbers: asked
    for at most as many clusters as are free, it returns the head of a chain of
    exactly [count] clusters that were free, distinct, linked in the table in the
    order [chain_iter] visits them; nothing else changes, and
    [free_cluster_chain] gives back all of them. *)
Theorem fat_alloc_chain_spec self count :
  fat_wf self → limit self ≤ top (fat_type self) → 1 ≤ count ≤ free_count self →
  ∃ first cs self', FatTable.alloc_cluster_chain count self = Ret (self', Ok first) ∧
    fat_wf self' ∧ Z.of_nat (length cs) = count ∧ NoDup cs ∧
    (∀ c, c ∈ cs → entry self c = Free) ∧ same_but cs self self' ∧
    collect (FatTable.chain_next self') (S (length cs)) (Some first) = Ret (Some cs) ∧
    ∃ self'', FatTable.free_cluster_chain first self' = Ret (self'', Ok tt) ∧ fat_wf self'' ∧
      ∀ c, cluster self c → entry self'' c = entry self c.
Proof.
  intros Hwf Hlim Hn.
  destruct (alloc_cluster_chain_ok self count) as
    (c & cs & s1 & Ha & Hwf1 & Hlen & Hch & Hs & Hfree & _); [done..|].
  destruct (free_cluster_chain_ok s1 c cs) as (s2 & Hf & Hwf2 & Hs2 & E2); [done..|].
  exists c, (c :: cs), s1. split_and!; try done.
  - by apply (chain_NoDup s1).
  - apply chain_iter_ok; [apply Hwf1 | done | cbn; lia].
  - exists s2. split_and!; [done | done |]. intros x Hx.
    destruct (decide (x ∈ c :: cs)) as [Hin|Hin]; [by rewrite E2, Hfree|].
    pose proof Hs as (_ & _ & He). pose proof Hs2 as (_ & _ & He2).
    rewrite He2, He; [done | done | done | by apply (same_cluster _ _ _ _ Hs) | done].
Qed.

(** [free_cluster_chain] returns on every table and every start, chains
    with cycles, cross links and bad clusters included; it only turns entries
    into free ones and keeps the counter right. *)
Theorem fat_free_chain_total self c :
  fat_wf self → 0 ≤ c < 2 ^ 32 →
  ∃ self' r, FatTable.free_cluster_chain c self = Ret (self', r) ∧ fat_wf self' ∧ only_freed self self'.
Proof.
  intros Hwf Hc. unfold FatTable.free_cluster_chain. destruct (negb _).
  { eexists self, _. split_and!; [done | done | apply only_freed_refl]. }
  apply free_loop_total; [done..|]. destruct Hwf as [_ Hn].
  pose proof (slots_le (fat_type self) (len (data self))). unfold limit. lia.
Qed.

(** ** Links that are lost *)

(** Cluster numbers from [0xFF0] to [0xFF6] (and their FAT16 and FAT32
    counterparts) pass [is_valid] and are handed out by [alloc_cluster], but a
    link to them is stored as the number that reads back as [Reserved]. *)
Lemma reserved_link self c n :
  bytes (data self) → cluster self c → top (fat_type self) ≤ n ≤ top (fat_type self) + 6 →
  Cluster.is_valid n (fat_type self) = true ∧
  ∃ self', FatTable.write_entry c (Next n) self = Ret (self', Ok tt) ∧ entry self' c = Reserved.
Proof.
  intros Hd Hc Hn. split.
  { rewrite is_valid_eq. unfold FatTable.max_clusters. destruct (fat_type self); cbn in *; lia. }
  destruct (write_entry_ok self c (Next n)) as (d & Hw & _ & _ & Hraw & _); [done..|].
  eexists. split; [done|]. unfold entry. cbn [fat_type data]. rewrite Hraw. cbn [encode].
  rewrite Z.mod_small by (destruct (fat_type self); cbn in *; lia).
  unfold decode. repeat case_match; try done; destruct (fat_type self); cbn in *; lia.
Qed.

(** The guard of [set] lets clusters 0 and 1 through, but [get] rejects them. *)
Lemma set_first_two self c e :
  c = 0 ∨ c = 1 → FatTable.set c e self = Ret (self, Err InvalidCluster).
Proof.
  intros Hc. unfold FatTable.set.
  assert (FatTable.get self c = Ret (Err InvalidCluster)) as Hg.
  { unfold FatTable.get. rewrite is_valid_eq. by destruct Hc as [-> | ->]. }
  assert (negb (Cluster.is_valid c (fat_type self)) && negb (c =? 0) && negb (c =? 1) = false) as ->.
  { destruct Hc as [-> | ->]; cbn; by rewrite ?andb_false_r. }
  by rewrite (eff_bind_Err _ _ _ self InvalidCluster) by (unfold FatTable.get_entry; by rewrite Hg).
Qed.

(** ** Examples *)

(** A FAT12 of eight entries: cluster 2 links to 4, which ends the chain,
    cluster 3 is bad, and 5, 6 and 7 are free. *)
Definition demo_fat : FatTable :=
  mkFatTable Fat12 [0xF8; 0xFF; 0xFF; 0x04; 0x70; 0xFF; 0xFF; 0x0F; 0x00; 0x00; 0x00; 0x00] 3.

Lemma demo_fat_wf : fat_wf demo_fat.
Proof.
  split; [|vm_compute; reflexivity]. unfold bytes. apply Forall_forall.
  intros b Hb. repeat (apply elem_of_cons in Hb as [->|Hb]; [lia|]). by apply elem_of_nil in Hb.
Qed.

Lemma fat_new_witness :
  ∃ self, FatTable.new Fat12 (data demo_fat) = Ret self ∧ fat_wf self ∧
    fat_type self = Fat12 ∧ data self = data demo_fat.
Proof. apply (fat_new_spec Fat12 (data demo_fat)). exact (proj1 demo_fat_wf). Defined.

Lemma fat_set_get_witness :
  ∃ self', FatTable.set 5 (Next 6) demo_fat = Ret (self', Ok tt) ∧ fat_wf self' ∧
    FatTable.get self' 5 = Ret (Ok (Next 6)) ∧
    ∀ c', 0 ≤ c' < 2 ^ 32 → c' ≠ 5 → FatTable.get self' c' = FatTable.get demo_fat c'.
Proof.
  apply (fat_set_get demo_fat 5 (Next 6)).
  - exact demo_fat_wf.
  - vm_compute. split; congruence.
  - vm_compute. split; congruence.
Defined.

Lemma fat_alloc_cluster_witness :
  (∃ c self', FatTable.alloc_cluster demo_fat = Ret (self', Ok c) ∧ took demo_fat c self' ∧
     ∀ c', 2 ≤ c' < c → entry demo_fat c' ≠ Free) ∨
  (FatTable.alloc_cluster demo_fat = Ret (demo_fat, Err OutOfBounds) ∧ free_list demo_fat = []).
Proof. apply (fat_alloc_cluster_spec demo_fat). exact demo_fat_wf. Defined.

Lemma fat_alloc_chain_witness :
  ∃ first cs self', FatTable.alloc_cluster_chain 3 demo_fat = Ret (self', Ok first) ∧
    fat_wf self' ∧ Z.of_nat (length cs) = 3 ∧ NoDup cs ∧
    (∀ c, c ∈ cs → entry demo_fat c = Free) ∧ same_but cs demo_fat self' ∧
    collect (FatTable.chain_next self') (S (length cs)) (Some first) = Ret (Some cs) ∧
    ∃ self'', FatTable.free_cluster_chain first self' = Ret (self'', Ok tt) ∧ fat_wf self'' ∧
      ∀ c, cluster demo_fat c → entry self'' c = entry demo_fat c.
Proof.
  apply (fat_alloc_chain_spec demo_fat 3).
  - exact demo_fat_wf.
  - vm_compute. congruence.
  - vm_compute. split; congruence.
Defined.

Lemma fat_free_chain_total_witness :
  ∃ self' r, FatTable.free_cluster_chain 2 demo_fat = Ret (self', r) ∧ fat_wf self' ∧
    only_freed demo_fat self'.
Proof.
  apply (fat_free_chain_total demo_fat 2).
  - exact demo_fat_wf.
  - lia.
Defined.
