(* ===== verification/FatIface.v ===== *)
(** * What files and directories use of a file system

    The trait [FatEntries] of [fs/fat/fat.rs] with the laws that files and directories
    rely on, its implementation by [FatTable], and the callbacks
    [RefDataReader] and [RefDataWriter] of [fs/fat.rs], through which they access the
    bytes of a cluster. *)

From S2P Require Import Prelude FatTable.

Class FatEntries (T : Type) := {
  fe_type : T → FatType;
  fe_get : T → Z → out (result FatEntry FatError);
  fe_set : Z → FatEntry → eff T FatError unit;
  fe_alloc : eff T FatError Z;
  fe_free_chain : Z → eff T FatError unit;
}.

(** The callbacks: reading [n] bytes at an offset of a cluster, and writing bytes there.
    They belong to the caller, [D] is what they capture. *)
Class DataOps (D : Type) := {
  read_data : Z → Z → Z → eff D FatError (list Z);
  write_data : Z → Z → list Z → eff D FatError unit;
}.

(** [buffer[i..i + l.len()].copy_from_slice(l)] *)
Definition splice {A} (i : nat) (l xs : list A) : list A := take i xs ++ l ++ drop (i + length l) xs.

(** A loop that used up its fuel. *)
Definition no_fuel {St E A} : eff St E A := λ _, Panic.

(** ** The laws *)

Section links.
Context {T : Type} (cl : T → Z → Prop) (ent : T → Z → FatEntry).

(** The clusters [cs] are linked in this order, and the last one ends the chain. *)
Fixpoint linked (t : T) (cs : list Z) : Prop :=
  match cs with
  | [] => False
  | c :: cs' =>
      cl t c ∧
      match cs' with
      | [] => ent t c = EndOfChain
      | n :: _ => ent t c = Next n ∧ linked t cs'
      end
  end.

(** The entries outside of [cs] are the same. *)
Definition elsewhere (cs : list Z) (t t' : T) : Prop :=
  (∀ c, cl t' c ↔ cl t c) ∧ ∀ c, cl t c → c ∉ cs → ent t' c = ent t c.

End links.

(** A table is a map from its clusters to entries. *)
Class FatEntriesLaws (T : Type) `{FatEntries T} := {
  fe_ok : T → Prop;
  cl : T → Z → Prop;
  ent : T → Z → FatEntry;
  cl_bound t c : cl t c → 2 ≤ c < 2 ^ 28;
  cl_valid t c : fe_ok t → cl t c → Cluster.is_valid c (fe_type t) = true;
  get_law t c : fe_ok t → cl t c → fe_get t c = Ret (Ok (ent t c));
  set_law t c e : fe_ok t → cl t c → (e = EndOfChain ∨ ∃ n, e = Next n ∧ cl t n) →
    ∃ t', fe_set c e t = Ret (t', Ok tt) ∧ fe_ok t' ∧ elsewhere cl ent [c] t t' ∧ ent t' c = e;
  alloc_law t : fe_ok t →
    (∃ c t', fe_alloc t = Ret (t', Ok c) ∧ fe_ok t' ∧ cl t c ∧ ent t c = Free ∧
       elsewhere cl ent [c] t t' ∧ ent t' c = EndOfChain) ∨
    (fe_alloc t = Ret (t, Err OutOfBounds) ∧ ∀ c, cl t c → ent t c ≠ Free);
  free_law t c cs : fe_ok t → linked cl ent t (c :: cs) →
    ∃ t', fe_free_chain c t = Ret (t', Ok tt) ∧ fe_ok t' ∧ elsewhere cl ent (c :: cs) t t' ∧
      ∀ x, x ∈ c :: cs → ent t' x = Free;
}.

(** Clusters hold [bpc] bytes; the callbacks access exactly the bytes they are asked for, or fail,
    which only a [faulty] device does. *)
Class DataLaws (D : Type) `{DataOps D} (bpc : Z) := {
  faulty : Prop;
  bytes_of : D → Z → list Z;
  bytes_len d c : Z.of_nat (length (bytes_of d c)) = bpc;
  read_law d c o n : 2 ≤ c → 0 ≤ o → 0 ≤ n → o + n ≤ bpc →
    ∃ d' res, read_data c o n d = Ret (d', res) ∧ (∀ x, bytes_of d' x = bytes_of d x) ∧
      match res with
      | Ok l => l = take (Z.to_nat n) (drop (Z.to_nat o) (bytes_of d c))
      | Err _ => faulty
      end;
  write_law d c o l : 2 ≤ c → 0 ≤ o → o + Z.of_nat (length l) ≤ bpc →
    ∃ d' res, write_data c o l d = Ret (d', res) ∧ (∀ x, x ≠ c → bytes_of d' x = bytes_of d x) ∧
      match res with
      | Ok _ => bytes_of d' c = splice (Z.to_nat o) l (bytes_of d c)
      | Err _ => bytes_of d' c = bytes_of d c ∧ faulty
      end;
}.

(** ** The table implements the trait *)

Global Instance table_entries : FatEntries FatTable := {
  fe_type := fat_type;
  fe_get := FatTable.get;
  fe_set := FatTable.set;
  fe_alloc := FatTable.alloc_cluster;
  fe_free_chain := FatTable.free_cluster_chain;
}.

(** No cluster has a number that is reserved for another purpose. *)
Definition table_ok (t : FatTable) : Prop := fat_wf t ∧ limit t ≤ top (fat_type t).

Lemma same_elsewhere cs t t' : same_but cs t t' → elsewhere cluster entry cs t t'.
Proof. intros Hs. split; [intros c; by apply (same_cluster cs) | apply Hs]. Qed.

Lemma same_ok cs t t' : same_but cs t t' → table_ok t → fat_wf t' → table_ok t'.
Proof.
  intros Hs [_ Hl] Hwf. split; [done|]. rewrite (same_limit _ _ _ Hs). destruct Hs as [-> _]. done.
Qed.

Global Program Instance table_laws : FatEntriesLaws FatTable := {
  fe_ok := table_ok;
  cl := cluster;
  ent := entry;
}.
Next Obligation. intros t c [Hc Hl]. pose proof (limit_le t). lia. Qed.
Next Obligation. intros t c _ Hc. by apply cluster_valid. Qed.
Next Obligation. intros t c [[Hb _] _] Hc. by apply get_cluster. Qed.
Next Obligation.
  intros t c e Hok Hc He. destruct (set_ok t c e) as (t' & E & Hwf & Hs & Ee & _); [apply Hok | done | |].
  { destruct He as [->|(n & -> & [Hn1 Hn2])]; [done|]. destruct Hok as [_ Hl]. cbn. lia. }
  exists t'. split_and!; [done | by eapply same_ok | by apply same_elsewhere | done].
Qed.
Next Obligation.
  intros t Hok. destruct (alloc_cluster_ok t) as [(c & t' & E & (Hc & Ec & Hwf & Hs & Ee & _) & _)|[E Hf]]; [apply Hok| |].
  - left. exists c, t'. split_and!; [done | by eapply same_ok | done | done | by apply same_elsewhere | done].
  - right. split; [done|]. intros c Hc Ec. assert (c ∈ free_list t) as Hin by (by apply elem_of_free_list).
    rewrite Hf in Hin. by apply elem_of_nil in Hin.
Qed.
Next Obligation.
  intros t c cs Hok Hl. destruct (free_cluster_chain_ok t c cs) as (t' & E & Hwf & Hs & Hx); [apply Hok | exact Hl |].
  exists t'. split_and!; [done | by eapply same_ok | by apply same_elsewhere | done].
Qed.

(** ** Chains *)

Section chains.
Context {T : Type} `{FatEntriesLaws T}.
Implicit Types (t : T) (cs : list Z).
Local Abbreviation linked := (linked cl ent).
Local Abbreviation elsewhere := (elsewhere cl ent).

Lemma linked_suffix t l c cs : linked t (l ++ c :: cs) → linked t (c :: cs).
Proof.
  induction l as [|x l IH]; [done|]. cbn [app]. intros [_ Hl].
  destruct l as [|y l]; cbn [app] in *; [by destruct Hl | apply IH, Hl].
Qed.

Lemma linked_det t c cs cs' : linked t (c :: cs) → linked t (c :: cs') → cs = cs'.
Proof.
  revert c cs'. induction cs as [|n cs IH]; intros c cs'.
  - intros [_ E] [_ H']. destruct cs' as [|n' cs']; [done|]. destruct H'. congruence.
  - intros [_ [E Hc]] [_ H']. destruct cs' as [|n' cs']; [congruence|].
    destruct H' as [E' Hc']. assert (n' = n) as -> by congruence. f_equal. by apply (IH n).
Qed.

Lemma linked_NoDup t cs : linked t cs → NoDup cs.
Proof.
  induction cs as [|c cs IH]; [constructor|]. intros Hl. constructor.
  - intros (l1 & l2 & ->)%list_elem_of_split.
    pose proof (linked_det _ _ _ _ Hl (linked_suffix t (c :: l1) c l2 Hl)) as E. apply (f_equal length) in E.
    rewrite length_app in E. cbn in E. lia.
  - destruct cs as [|n cs]; [constructor|]. apply IH, Hl.
Qed.

Lemma linked_cl t cs c : linked t cs → c ∈ cs → cl t c.
Proof. intros Hl (l1 & l2 & ->)%list_elem_of_split. by apply (linked_suffix t l1 c l2). Qed.

Lemma linked_elsewhere xs cs t t' : elsewhere xs t t' → (∀ c, c ∈ cs → c ∉ xs) → linked t cs → linked t' cs.
Proof.
  intros [Hcl He]. induction cs as [|c cs IH]; [done|]. intros Hx [Hc Hl]. split; [by apply Hcl|].
  rewrite He by (done || apply Hx; left). destruct cs as [|n cs]; [done|]. destruct Hl as [E Hl]. split; [done|].
  apply IH; [|done]. intros x Hin. apply Hx. by right.
Qed.

Lemma linked_entry t cs i c :
  linked t cs → cs !! i = Some c →
  ent t c = match cs !! S i with Some n => Next n | None => EndOfChain end.
Proof.
  intros Hl Hi. apply list_elem_of_split_length in Hi as (l1 & l2 & -> & ->).
  apply linked_suffix in Hl as [_ Hl]. rewrite lookup_app_r by lia.
  replace (S (length l1) - length l1)%nat with 1%nat by lia. destruct l2 as [|n l2]; [done | by destruct Hl].
Qed.

(** A chain is cut or extended at its last cluster. *)
Lemma linked_cut t t' l c rest :
  linked t (l ++ c :: rest) → elsewhere [c] t t' → ent t' c = EndOfChain → linked t' (l ++ [c]).
Proof.
  intros Hl Hs E. pose proof (linked_NoDup _ _ Hl) as Hnd. revert Hl Hnd.
  induction l as [|x l IH]; cbn [app]; intros Hl Hnd.
  { split; [apply Hs, Hl | done]. }
  apply NoDup_cons in Hnd as [Hx Hnd]. destruct Hl as [Hc Hl]. split; [by apply Hs|].
  assert (x ∉ [c]) as Hxc by (intros ->%list_elem_of_singleton; apply Hx, elem_of_app; right; left).
  rewrite (proj2 Hs) by done. destruct l as [|y l]; cbn [app] in *; destruct Hl as [Ex Hl]; (split; [done|]); by apply IH.
Qed.

Lemma linked_extend t t1 t2 l c n :
  linked t (l ++ [c]) → cl t n → ent t n = Free → elsewhere [n] t t1 → ent t1 n = EndOfChain →
  elsewhere [c] t1 t2 → ent t2 c = Next n → linked t2 (l ++ [c; n]).
Proof.
  intros Hl Hn En H1 E1 H2 E2.
  assert (n ∉ l ++ [c]) as Hnot.
  { intros Hin. pose proof Hin as [i Hi]%list_elem_of_lookup. pose proof (linked_entry _ _ _ _ Hl Hi) as E.
    rewrite En in E. by destruct ((l ++ [c]) !! S i). }
  assert (n ≠ c) as Hnc by (intros ->; apply Hnot, elem_of_app; right; left).
  assert (linked t1 (l ++ [c])) as Hl1.
  { eapply linked_elsewhere; [exact H1 | | done]. intros x Hx ->%list_elem_of_singleton. done. }
  clear Hl. pose proof (linked_NoDup _ _ Hl1) as Hnd. revert Hl1 Hnd.
  induction l as [|x l IH]; cbn [app]; intros Hl1 Hnd.
  { split; [apply H2, Hl1|]. split; [done|]. split; [by apply H2, H1|].
    rewrite (proj2 H2); [done | by apply H1 |]. by intros ?%list_elem_of_singleton. }
  apply NoDup_cons in Hnd as [Hx Hnd]. destruct Hl1 as [Hc Hl]. split; [by apply H2|].
  assert (x ∉ [c]) as Hxc by (intros ->%list_elem_of_singleton; apply Hx, elem_of_app; right; left).
  rewrite (proj2 H2) by done. cbn [app] in Hnot. apply not_elem_of_cons in Hnot as [_ Hnot].
  destruct l as [|y l]; cbn [app] in *; destruct Hl as [Ex Hl]; (split; [done|]); by apply IH.
Qed.

Lemma linked_length t cs : linked t cs → Z.of_nat (length cs) ≤ 2 ^ 28.
Proof.
  intros Hl. assert (cs ⊆+ seqZ 2 (2 ^ 28 - 2)) as Hsub.
  { apply NoDup_submseteq; [by eapply linked_NoDup|]. intros c Hc. apply elem_of_seqZ.
    pose proof (cl_bound t c (linked_cl t cs c Hl Hc)). lia. }
  apply submseteq_length in Hsub. rewrite length_seqZ in Hsub. lia.
Qed.

Lemma elsewhere_trans xs ys t1 t2 t3 :
  elsewhere xs t1 t2 → elsewhere ys t2 t3 → elsewhere (xs ++ ys) t1 t3.
Proof.
  intros [Hc1 He1] [Hc2 He2]. split; [intros c; by rewrite Hc2|]. intros c Hc Hn.
  apply not_elem_of_app in Hn as [Hn1 Hn2]. rewrite He2; [by apply He1 | by apply Hc1 | done].
Qed.

Lemma elsewhere_weaken xs ys t1 t2 : xs ⊆ ys → elsewhere xs t1 t2 → elsewhere ys t1 t2.
Proof. intros Hsub [Hc He]. split; [done|]. intros c Hcl Hn. apply He; [done|]. set_solver. Qed.

Lemma elsewhere_refl xs t : elsewhere xs t t.
Proof. by split. Qed.

End chains.
