(* ===== verification/FatFile.v ===== *)
(** * Files of a FAT file system

    [kernel/foundry/storage/src/fs/fat/file.rs]: [FatFile] gives access to the bytes of a
    chain of clusters at a current position: [read], [write], [seek] and [truncate]. *)

From S2P Require Import Prelude FatTable FatIface.

Module FatFile.

Record t {T : Type} := mkFatFile {
  fat : T;
  first_cluster : Z;
  position : Z;
  size : Z;
  bytes_per_cluster : Z;
  current_cluster : Z;
  cluster_offset : Z;
}.
Arguments t T : clear implicits.

Section ops.
Context {T D : Type} `{FatEntries T} `{DataOps D}.

Definition new (fat : T) (first_cluster size bytes_per_cluster : Z) : result (t T) FatError :=
  if negb (Cluster.is_valid first_cluster (fe_type fat)) && negb (first_cluster =? 0)
  then Err InvalidCluster
  else Ok (mkFatFile T fat first_cluster 0 size bytes_per_cluster first_cluster 0).

(** ** Access to the fields and to what they refer to *)

Definition set_fat (f : t T) (fat : T) : t T :=
  mkFatFile T fat (first_cluster f) (position f) (size f) (bytes_per_cluster f) (current_cluster f) (cluster_offset f).
Definition set_first (f : t T) (c : Z) : t T :=
  mkFatFile T (fat f) c (position f) (size f) (bytes_per_cluster f) (current_cluster f) (cluster_offset f).
Definition set_position (f : t T) (p : Z) : t T :=
  mkFatFile T (fat f) (first_cluster f) p (size f) (bytes_per_cluster f) (current_cluster f) (cluster_offset f).
Definition set_size (f : t T) (n : Z) : t T :=
  mkFatFile T (fat f) (first_cluster f) (position f) n (bytes_per_cluster f) (current_cluster f) (cluster_offset f).
Definition set_cursor (f : t T) (c o : Z) : t T :=
  mkFatFile T (fat f) (first_cluster f) (position f) (size f) (bytes_per_cluster f) c o.

(** A method that uses the callbacks runs on the file and what they capture. *)
Local Abbreviation io := (eff (t T * D) FatError).

Definition self : io (t T) := λ s, Ret (s, Ok s.1).
Definition update (g : t T → t T) : io unit := λ '(f, d), Ret ((g f, d), Ok tt).
Definition get_entry (c : Z) : io FatEntry := λ '(f, d), r ← fe_get (fat f) c; mret ((f, d), r).
Definition on_fat {A} (op : eff T FatError A) : io A := λ '(f, d),
  '(fat, r) ← op (fat f); mret ((set_fat f fat, d), r).
Definition on_data {A} (op : eff D FatError A) : io A := λ '(f, d),
  '(d, r) ← op d; mret ((f, d), r).

(** ** Seeking *)

(** The loop of [seek], at most one turn per cluster. *)
Fixpoint seek_loop (fuel : nat) (target : Z) : io unit :=
  f ← self;
  if target <=? position f then mret tt
  else
    match fuel with
    | O => no_fuel
    | S fuel =>
        let current_cluster_size := bytes_per_cluster f in
        remaining_in_cluster ← lift (sub_w current_cluster_size (cluster_offset f));
        e ← lift (add_w 64 (position f) remaining_in_cluster);
        if e <=? target then
          entry ← get_entry (current_cluster f);
          match entry with
          | Next next =>
              update (λ f, set_position (set_cursor f next 0) e);;
              seek_loop fuel target
          | EndOfChain =>
              lift (assert_ (negb (current_cluster_size =? 0)));;
              update (λ f, set_position (set_cursor f (current_cluster f) (size f mod current_cluster_size)) (size f))
          | _ => throw InvalidCluster
          end
        else
          let delta := target - position f in
          o ← lift (add_w 32 (cluster_offset f) delta);
          update (λ f, set_position (set_cursor f (current_cluster f) o) (position f + delta))
    end.

Definition seek (target : Z) : io Z :=
  f ← self;
  let target := Z.min target (size f) in
  (if target <? position f then update (λ f, set_position (set_cursor f (first_cluster f) 0) 0) else mret tt);;
  seek_loop (Z.to_nat target + 2) target;;
  f ← self;
  mret (position f).

(** ** Reading *)

(** [self.position += chunk_size; self.cluster_offset += chunk_size] *)
Definition advance (chunk_size : Z) : io unit :=
  f ← self;
  p ← lift (add_w 64 (position f) chunk_size);
  o ← lift (add_w 32 (cluster_offset f) chunk_size);
  update (λ f, set_position (set_cursor f (current_cluster f) o) p).

Fixpoint read_loop (fuel : nat) (bytes_to_read bytes_read : Z) (buffer : list Z) : io (list Z * Z) :=
  if bytes_to_read <=? bytes_read then mret (buffer, bytes_read)
  else
    match fuel with
    | O => no_fuel
    | S fuel =>
        f ← self;
        cluster_remaining ← lift (sub_w (bytes_per_cluster f) (cluster_offset f));
        let chunk_size := Z.min (bytes_to_read - bytes_read) cluster_remaining in
        chunk ← on_data (read_data (current_cluster f) (cluster_offset f) chunk_size);
        let buffer := splice (Z.to_nat bytes_read) chunk buffer in
        let bytes_read := bytes_read + chunk_size in
        advance chunk_size;;
        f ← self;
        if (bytes_per_cluster f <=? cluster_offset f) && (bytes_read <? bytes_to_read) then
          entry ← get_entry (current_cluster f);
          match entry with
          | Next next =>
              update (λ f, set_cursor f next 0);;
              read_loop fuel bytes_to_read bytes_read buffer
          | EndOfChain => mret (buffer, bytes_read)
          | _ => throw InvalidCluster
          end
        else read_loop fuel bytes_to_read bytes_read buffer
    end.

(** The new content of the buffer, and the number of bytes read into it. *)
Definition read (buffer : list Z) : io (list Z * Z) :=
  f ← self;
  if size f <=? position f then mret (buffer, 0)
  else
    let bytes_to_read := Z.min (Z.of_nat (length buffer)) (size f - position f) in
    read_loop (Z.to_nat bytes_to_read + 1) bytes_to_read 0 buffer.

(** ** Writing *)

(** The cluster after the current one, allocated at the end of the chain. *)
Definition next_or_alloc : io unit :=
  f ← self;
  entry ← get_entry (current_cluster f);
  match entry with
  | Next next => update (λ f, set_cursor f next 0)
  | EndOfChain =>
      new_cluster ← on_fat fe_alloc;
      on_fat (fe_set (current_cluster f) (Next new_cluster));;
      update (λ f, set_cursor f new_cluster 0)
  | _ => throw InvalidCluster
  end.

Fixpoint write_loop (fuel : nat) (buffer : list Z) (write_size bytes_written : Z) : io Z :=
  if write_size <=? bytes_written then mret bytes_written
  else
    match fuel with
    | O => no_fuel
    | S fuel =>
        f ← self;
        cluster_remaining ← lift (sub_w (bytes_per_cluster f) (cluster_offset f));
        let chunk_size := Z.min (write_size - bytes_written) cluster_remaining in
        on_data (write_data (current_cluster f) (cluster_offset f)
                   (take (Z.to_nat chunk_size) (drop (Z.to_nat bytes_written) buffer)));;
        let bytes_written := bytes_written + chunk_size in
        advance chunk_size;;
        update (λ f, if size f <? position f then set_size f (position f) else f);;
        f ← self;
        (if (bytes_per_cluster f <=? cluster_offset f) && (bytes_written <? write_size)
         then next_or_alloc else mret tt);;
        write_loop fuel buffer write_size bytes_written
    end.

Definition write (buffer : list Z) : io Z :=
  if (length buffer =? 0)%nat then mret 0
  else
    f ← self;
    (if first_cluster f =? 0 then
       c ← on_fat fe_alloc;
       update (λ f, set_cursor (set_first f c) c (cluster_offset f))
     else mret tt);;
    write_loop (length buffer + 1) buffer (Z.of_nat (length buffer)) 0.

(** ** Truncating *)

Definition truncate (new_size : Z) : io unit :=
  f ← self;
  if size f <=? new_size then mret tt
  else if new_size =? 0 then
    (if negb (first_cluster f =? 0) then
       on_fat (fe_free_chain (first_cluster f));;
       update (λ f, set_cursor (set_first f 0) 0 0)
     else mret tt);;
    update (λ f, set_position (set_size f 0) 0)
  else
    seek new_size;;
    f ← self;
    entry ← get_entry (current_cluster f);
    (match entry with
     | Next next =>
         on_fat (fe_set (current_cluster f) EndOfChain);;
         on_fat (fe_free_chain next)
     | _ => mret tt
     end);;
    update (λ f,
      let f := set_size f new_size in
      if new_size <? position f then set_position f new_size else f).

End ops.

End FatFile.

(** ** Bytes of a chain *)

Section splices.
Context {A : Type}.
Implicit Types (l xs ys : list A).

Lemma splice_nil i xs : splice i [] xs = xs.
Proof. unfold splice. cbn. by rewrite Nat.add_0_r, take_drop. Qed.

Lemma splice_length i l xs : (i + length l ≤ length xs)%nat → length (splice i l xs) = length xs.
Proof. intros Hi. unfold splice. rewrite !length_app, length_take, length_drop. lia. Qed.

Lemma splice_app_l i l xs ys : (i + length l ≤ length xs)%nat → splice i l (xs ++ ys) = splice i l xs ++ ys.
Proof.
  intros Hi. unfold splice. rewrite take_app_le by lia. rewrite drop_app_le by lia. by rewrite <- !app_assoc.
Qed.

Lemma splice_app_r i l xs ys : splice (length xs + i) l (xs ++ ys) = xs ++ splice i l ys.
Proof.
  unfold splice. rewrite take_app_add, <- Nat.add_assoc, drop_app_add. by rewrite <- app_assoc.
Qed.

Lemma splice_splice i l1 l2 xs :
  (i ≤ length xs)%nat → splice (i + length l1) l2 (splice i l1 xs) = splice i (l1 ++ l2) xs.
Proof.
  intros Hi. assert (length (take i xs ++ l1) = (i + length l1)%nat) as Hp by (rewrite length_app, length_take; lia).
  assert (splice i l1 xs = (take i xs ++ l1) ++ drop (i + length l1) xs) as -> by (unfold splice; by rewrite app_assoc).
  rewrite <- Hp at 1. rewrite <- (Nat.add_0_r (length (take i xs ++ l1))), splice_app_r. unfold splice. cbn.
  rewrite length_app, drop_drop, <- !app_assoc, <- Nat.add_assoc. done.
Qed.

(** The bytes from [p] on, in two parts. *)
Lemma slice_app p a b xs : take (a + b) (drop p xs) = take a (drop p xs) ++ take b (drop (p + a) xs).
Proof. by rewrite <- drop_drop, take_take_drop. Qed.

Lemma splice_cong i l xs ys :
  take i xs = take i ys → drop (i + length l) xs = drop (i + length l) ys → splice i l xs = splice i l ys.
Proof. unfold splice. congruence. Qed.

Lemma take_splice n i l xs :
  (i ≤ length xs)%nat → (i + length l ≤ n)%nat → take n (splice i l xs) = splice i l (take n xs).
Proof.
  intros Hi Hn. unfold splice. rewrite take_take, Nat.min_l by lia.
  assert (length (take i xs) = i) as Ht by (rewrite length_take; lia).
  rewrite !app_assoc, take_app_ge by (rewrite length_app; lia). f_equal.
  rewrite length_app, Ht. by rewrite skipn_firstn_comm.
Qed.

End splices.

Section files.
Context {T D : Type} `{FatEntriesLaws T} (bpc : Z) `{!DataOps D} `{!DataLaws D bpc}.
Import FatFile.
Local Abbreviation linked := (linked cl ent).
Local Abbreviation elsewhere := (elsewhere cl ent).
Local Abbreviation B := (Z.to_nat bpc).

Lemma update_bind {A} g (k : unit → eff (t T * D) FatError A) f d : (update g ≫= k) (f, d) = k tt (g f, d).
Proof. done. Qed.

Lemma self_bind {A} (k : t T → eff (t T * D) FatError A) f d : (self ≫= k) (f, d) = k f (f, d).
Proof. done. Qed.

Definition flat (d : D) (cs : list Z) : list Z := cs ≫= bytes_of d.

Lemma bytes_length d c : length (bytes_of d c) = B.
Proof. pose proof (bytes_len d c). lia. Qed.

Lemma bpc_nonneg (d : D) : 0 ≤ bpc.
Proof. pose proof (bytes_len d 0). lia. Qed.

Lemma flat_cons d c cs : flat d (c :: cs) = bytes_of d c ++ flat d cs.
Proof. done. Qed.

Lemma flat_length d cs : length (flat d cs) = (length cs * B)%nat.
Proof. induction cs as [|c cs IH]; [done|].
  rewrite flat_cons, length_app, bytes_length, IH. cbn. lia.
Qed.

Lemma flat_app d cs cs' : flat d (cs ++ cs') = flat d cs ++ flat d cs'.
Proof. apply bind_app. Qed.

Lemma flat_same d d' cs : (∀ c, c ∈ cs → bytes_of d' c = bytes_of d c) → flat d' cs = flat d cs.
Proof.
  induction cs as [|c cs IH]; intros Hs; [done|]. cbn. rewrite Hs by left. f_equal.
  apply IH. intros x Hx. apply Hs. by right.
Qed.

(** The bytes of the cluster number [i] of the chain. *)
Lemma flat_at d cs i c :
  cs !! i = Some c → ∃ l1 l2, cs = l1 ++ c :: l2 ∧ length l1 = i ∧
    flat d cs = flat d l1 ++ bytes_of d c ++ flat d l2 ∧ length (flat d l1) = (i * B)%nat.
Proof.
  intros (l1 & l2 & -> & ->)%list_elem_of_split_length. exists l1, l2. split_and!; [done | done | | apply flat_length].
  by rewrite flat_app.
Qed.

Lemma flat_slice d cs i c o n :
  cs !! i = Some c → (o + n ≤ B)%nat →
  take n (drop o (bytes_of d c)) = take n (drop (i * B + o) (flat d cs)).
Proof.
  intros Hi Hon. destruct (flat_at d cs i c Hi) as (l1 & l2 & _ & _ & -> & Hl).
  rewrite <- Hl, drop_app_add. pose proof (bytes_length d c).
  rewrite drop_app_le by lia. rewrite take_app_le; [done|]. rewrite length_drop. lia.
Qed.

Lemma flat_write d d' cs i c o l :
  NoDup cs → cs !! i = Some c → (o + length l ≤ B)%nat →
  bytes_of d' c = splice o l (bytes_of d c) → (∀ x, x ≠ c → bytes_of d' x = bytes_of d x) →
  flat d' cs = splice (i * B + o) l (flat d cs).
Proof.
  intros Hnd Hi Hol Hc Hx. pose proof (bytes_length d c).
  destruct (flat_at d cs i c Hi) as (l1 & l2 & E & _ & -> & Hl). rewrite <- Hl, splice_app_r.
  rewrite splice_app_l by lia. rewrite <- Hc. rewrite E in Hnd |- *. rewrite flat_app, flat_cons.
  apply NoDup_app in Hnd as (_ & Hnot & Hnd). apply NoDup_cons in Hnd as [Hc2 _].
  rewrite (flat_same d d' l1), (flat_same d d' l2).
  - done.
  - intros x Hin. apply Hx. intros ->. done.
  - intros x Hin. apply Hx. intros ->. apply (Hnot c Hin). left.
Qed.

(** ** The file that a state stands for

    [repr cs f]: the chain of the file is [cs], and its cursor is at the position. The content
    of the file are the first [size f] bytes of the chain. *)

Record repr (cs : list Z) (f : t T) : Prop := {
  r_ok : fe_ok (fat f);
  r_bpc : bytes_per_cluster f = bpc;
  r_pos : 0 < bpc < 2 ^ 32;
  r_size : 0 ≤ position f ≤ size f;
  r_fits : size f ≤ bpc * Z.of_nat (length cs);
  r_chain : match cs with
            | [] => first_cluster f = 0 ∧ current_cluster f = 0 ∧ cluster_offset f = 0
            | c :: _ => first_cluster f = c ∧ linked (fat f) cs
            end;
  r_cursor : cs ≠ [] → ∃ i, cs !! i = Some (current_cluster f) ∧
    position f = Z.of_nat i * bpc + cluster_offset f ∧ 0 ≤ cluster_offset f ≤ bpc;
}.

Definition content (cs : list Z) (f : t T) (d : D) : list Z := take (Z.to_nat (size f)) (flat d cs).

Lemma repr_length cs f : repr cs f → Z.of_nat (length cs) ≤ 2 ^ 28.
Proof.
  intros Hr. pose proof (r_chain _ _ Hr) as Hc. destruct cs as [|c cs]; [cbn; lia|].
  destruct Hc as [_ Hl]. exact (linked_length _ _ Hl).
Qed.

Lemma repr_small cs f : repr cs f → bpc * Z.of_nat (length cs) < 2 ^ 62.
Proof. intros Hr. pose proof (repr_length _ _ Hr). pose proof (r_pos _ _ Hr). nia. Qed.

Lemma content_length cs f d : repr cs f → Z.of_nat (length (content cs f d)) = size f.
Proof.
  intros Hr. unfold content. rewrite length_take, flat_length.
  pose proof (r_size _ _ Hr). pose proof (r_fits _ _ Hr). pose proof (r_pos _ _ Hr). lia.
Qed.

(** The current cluster of a file that has clusters. *)
Lemma repr_cursor cs f :
  repr cs f → cs ≠ [] → ∃ i, cs !! i = Some (current_cluster f) ∧
    position f = Z.of_nat i * bpc + cluster_offset f ∧ 0 ≤ cluster_offset f ≤ bpc ∧
    linked (fat f) cs ∧ cl (fat f) (current_cluster f) ∧ 2 ≤ current_cluster f.
Proof.
  intros Hr Hne. destruct (r_cursor _ _ Hr Hne) as (i & Hi & Hp & Ho).
  pose proof (r_chain _ _ Hr) as Hc. destruct cs as [|c cs]; [done|]. destruct Hc as [_ Hl].
  assert (cl (fat f) (current_cluster f)) as Hcl.
  { eapply linked_cl; [exact Hl|]. by eapply list_elem_of_lookup_2. }
  exists i. pose proof (cl_bound _ _ Hcl). split_and!; done || lia.
Qed.

Lemma get_entry_ok cs f (d : D) i :
  repr cs f → cs !! i = Some (current_cluster f) →
  get_entry (current_cluster f) (f, d) =
    Ret ((f, d), Ok (match cs !! Datatypes.S i with Some n => Next n | None => EndOfChain end)).
Proof.
  intros Hr Hi. assert (cs ≠ []) as Hne by (by intros ->). destruct (repr_cursor _ _ Hr Hne) as (_ & _ & _ & _ & Hl & Hcl & _).
  unfold get_entry. rewrite (get_law _ _ (r_ok _ _ Hr) Hcl). cbn [mbind out_bind mret out_ret].
  by rewrite (linked_entry _ _ _ _ Hl Hi).
Qed.

(** Moving the cursor inside of the chain. *)
Lemma repr_move cs f c o p i :
  repr cs f → cs !! i = Some c → p = Z.of_nat i * bpc + o → 0 ≤ o ≤ bpc → p ≤ size f →
  repr cs (set_position (set_cursor f c o) p).
Proof.
  intros Hr Hi Hp Ho Hps. pose proof Hr as [Hok Hb Hpos Hsz Hfit Hch Hcu].
  split; cbn; [done | done | done | lia | done | |].
  - destruct cs as [|c' cs]; [done | exact Hch].
  - intros _. exists i. done.
Qed.

Lemma advance_ok cs f (d : D) n i :
  repr cs f → cs !! i = Some (current_cluster f) → position f = Z.of_nat i * bpc + cluster_offset f →
  0 ≤ cluster_offset f → 0 ≤ n → cluster_offset f + n ≤ bpc →
  advance n (f, d) = Ret ((set_position (set_cursor f (current_cluster f) (cluster_offset f + n)) (position f + n), d), Ok tt).
Proof.
  intros Hr Hi Hp Ho Hn Hb. pose proof (repr_small _ _ Hr). pose proof (r_pos _ _ Hr).
  apply lookup_lt_Some in Hi. unfold advance. rewrite self_bind.
  rewrite !add_w_ok by nia. done.
Qed.

(** ** Reading *)

Lemma read_loop_ok fuel btr br buffer cs f d :
  repr cs f → 0 ≤ br ≤ btr → btr ≤ Z.of_nat (length buffer) → position f + (btr - br) ≤ size f →
  (br < btr → (btr - br) + (if cluster_offset f =? bpc then 1 else 0) ≤ Z.of_nat fuel) →
  ∃ f' d' res, read_loop fuel btr br buffer (f, d) = Ret ((f', d'), res) ∧ repr cs f' ∧
    fat f' = fat f ∧ size f' = size f ∧ (∀ x, bytes_of d' x = bytes_of d x) ∧
    match res with
    | Ok (b', n) => n = btr ∧ position f' = position f + (btr - br) ∧
        b' = splice (Z.to_nat br) (take (Z.to_nat (btr - br)) (drop (Z.to_nat (position f)) (flat d cs))) buffer
    | Err _ => faulty
    end.
Proof.
  revert br buffer f d. induction fuel as [|fuel IH]; intros br buffer f d Hr Hbr Hlen Hsz Hfuel; cbn [read_loop];
    (destruct (Z.leb_spec btr br) as [Hge|Hlt];
     [exists f, d, (Ok (buffer, br)); replace (btr - br) with 0 by lia; change (Z.to_nat 0) with 0%nat; rewrite take_0, splice_nil; split_and!; done || lia|]).
  { specialize (Hfuel Hlt). destruct (_ =? _); lia. }
  assert (cs ≠ []) as Hne.
  { intros ->. pose proof (r_fits _ _ Hr). pose proof (r_size _ _ Hr). cbn in *. lia. }
  destruct (repr_cursor _ _ Hr Hne) as (i & Hi & Hp & Ho & Hl & Hcl & Hc2).
  pose proof (r_pos _ _ Hr) as Hpos. pose proof (r_size _ _ Hr) as Hps. pose proof (r_fits _ _ Hr) as Hfit.
  rewrite self_bind, (r_bpc _ _ Hr), sub_w_ok by lia.
  rewrite (eff_bind_lift _ _ _ _ eq_refl). cbn zeta.
  set (n := Z.min (btr - br) (bpc - cluster_offset f)) in *. assert (0 ≤ n) as Hn by lia.
  destruct (read_law d (current_cluster f) (cluster_offset f) n) as (d1 & res1 & E1 & Hd1 & H1); [lia..|].
  assert (on_data (read_data (current_cluster f) (cluster_offset f) n) (f, d) = Ret ((f, d1), res1)) as Ed
    by (unfold on_data; by rewrite E1).
  destruct res1 as [chunk|err].
  2: { rewrite (eff_bind_Err _ _ _ _ _ Ed). exists f, d1, (Err err). by split_and!. }
  rewrite (eff_bind_Ok _ _ _ _ _ Ed).
  rewrite (eff_bind_Ok _ _ _ _ _ (advance_ok cs f d1 n i Hr Hi Hp ltac:(lia) Hn ltac:(lia))).
  set (f1 := set_position _ _). assert (repr cs f1) as Hr1 by (apply (repr_move _ _ _ _ _ i); done || lia).
  rewrite self_bind, (r_bpc _ _ Hr1). cbn [cluster_offset f1 set_position set_cursor].
  assert (length chunk = Z.to_nat n) as Hcl'.
  { subst chunk. rewrite length_take, length_drop, bytes_length. lia. }
  assert (∀ f2, repr cs f2 → fat f2 = fat f → size f2 = size f → position f2 = position f + n →
    (br + n < btr → cluster_offset f2 = 0) →
    ∃ f' d' res, read_loop fuel btr (br + n) (splice (Z.to_nat br) chunk buffer) (f2, d1) = Ret ((f', d'), res) ∧ repr cs f' ∧
    fat f' = fat f ∧ size f' = size f ∧ (∀ x, bytes_of d' x = bytes_of d x) ∧
    match res with
    | Ok (b', m) => m = btr ∧ position f' = position f + (btr - br) ∧
        b' = splice (Z.to_nat br) (take (Z.to_nat (btr - br)) (drop (Z.to_nat (position f)) (flat d cs))) buffer
    | Err _ => faulty
    end) as Hnext.
  { intros f2 Hr2 Ef2 Es2 Ep2 Hoff.
    destruct (IH (br + n) (splice (Z.to_nat br) chunk buffer) f2 d1 Hr2) as (f' & d' & res & E & Hr' & Ef' & Es' & Hd' & Hres).
    - lia.
    - rewrite splice_length by lia. done.
    - lia.
    - intros Hlt2. rewrite Hoff by done. specialize (Hfuel Hlt). rewrite (proj2 (Z.eqb_neq 0 bpc)) by lia.
      destruct (Z.eqb_spec (cluster_offset f) bpc); lia.
    - exists f', d', res. rewrite E. split_and!; [done | done | congruence | congruence | |].
      { intros x. by rewrite Hd', Hd1. }
      destruct res as [[b' m]|]; [|done]. destruct Hres as (-> & Ep' & ->). split_and!; [done | lia |].
      rewrite (flat_same d d1) by (intros; apply Hd1).
      replace (Z.to_nat (br + n)) with (Z.to_nat br + length chunk)%nat by lia. rewrite splice_splice by lia. f_equal.
      subst chunk. rewrite (flat_slice d cs i) by (done || lia).
      replace (i * B + Z.to_nat (cluster_offset f))%nat with (Z.to_nat (position f)) by nia.
      replace (Z.to_nat (position f2)) with (Z.to_nat (position f) + Z.to_nat n)%nat by lia.
      replace (Z.to_nat (btr - br)) with (Z.to_nat n + Z.to_nat (btr - (br + n)))%nat by lia.
      by rewrite slice_app. }
  destruct (Z.leb_spec bpc (cluster_offset f + n)) as [Hfull|Hpart]; cbn [andb].
  2: { apply Hnext; [done | done | done | done |]. lia. }
  destruct (Z.ltb_spec (br + n) btr) as [Hmore|Hdone].
  2: { apply Hnext; [done | done | done | done |]. lia. }
  assert (is_Some (cs !! Datatypes.S i)) as [next Hnx].
  { apply lookup_lt_is_Some_2. cbn in Hp. nia. }
  rewrite (eff_bind_Ok _ _ _ _ _ (get_entry_ok cs f1 d1 i Hr1 Hi)), Hnx.
  rewrite (eff_bind_Ok (update _) _ (f1, d1) (set_cursor f1 next 0, d1) tt eq_refl).
  apply Hnext; [|done..].
  change (set_cursor f1 next 0) with (set_position (set_cursor f1 next 0) (position f1)).
  apply (repr_move _ _ _ _ _ (Datatypes.S i)); [done | done | cbn; lia | lia | apply Hr1].
Qed.

Lemma read_ok buffer cs f d :
  repr cs f →
  ∃ f' d' res, read buffer (f, d) = Ret ((f', d'), res) ∧ repr cs f' ∧
    fat f' = fat f ∧ size f' = size f ∧ (∀ x, bytes_of d' x = bytes_of d x) ∧
    match res with
    | Ok (b', n) => n = Z.min (Z.of_nat (length buffer)) (size f - position f) ∧ position f' = position f + n ∧
        b' = splice 0 (take (Z.to_nat n) (drop (Z.to_nat (position f)) (content cs f d))) buffer
    | Err _ => faulty
    end.
Proof.
  intros Hr. pose proof (r_size _ _ Hr) as Hps. unfold read.
  rewrite self_bind. destruct (Z.leb_spec (size f) (position f)) as [Hend|Hmore].
  { exists f, d, (Ok (buffer, 0)). replace (Z.min _ _) with 0 by lia. change (Z.to_nat 0) with 0%nat.
    rewrite take_0, splice_nil, Z.add_0_r. by split_and!. }
  cbn zeta. set (n := Z.min _ _). destruct (read_loop_ok (Z.to_nat n + 1) n 0 buffer cs f d Hr)
    as (f' & d' & res & E & Hr' & Ef & Es & Hd & Hres); [lia | lia | lia | destruct (_ =? _); lia |].
  exists f', d', res. split_and!; try done. destruct res as [[b' m]|]; [|done].
  destruct Hres as (-> & Ep & ->). split_and!; [done | lia |]. rewrite Z.sub_0_r. f_equal.
  unfold content. rewrite skipn_firstn_comm, take_take. f_equal. lia.
Qed.

(** ** Writing *)

(** The chain [cs] of a file became [cs'] by adding free clusters; other entries are the same. *)
Definition grown (cs : list Z) (fat : T) (cs' : list Z) (fat' : T) : Prop :=
  ∃ new, cs' = cs ++ new ∧ (∀ c, c ∈ new → cl fat c ∧ ent fat c = Free) ∧ elsewhere cs' fat fat'.

Lemma grown_refl cs fat : grown cs fat cs fat.
Proof. exists []. rewrite app_nil_r. split_and!; [done | by intros c ?%elem_of_nil | by split]. Qed.

Lemma grown_trans cs fat cs1 fat1 cs2 fat2 :
  grown cs fat cs1 fat1 → (∀ c, c ∈ cs1 → ent fat1 c ≠ Free) → grown cs1 fat1 cs2 fat2 → grown cs fat cs2 fat2.
Proof.
  intros (n1 & -> & Hf1 & He1) Hused (n2 & -> & Hf2 & He2). exists (n1 ++ n2). split_and!; [by rewrite app_assoc | |].
  - intros c [Hc|Hc]%elem_of_app; [by apply Hf1|]. destruct (Hf2 c Hc) as [Hcl Hfr].
    assert (c ∉ cs ++ n1) as Hno by (intros Hin; by apply (Hused c Hin)).
    apply He1 in Hcl. split; [done|]. by rewrite <- (proj2 He1).
  - eapply elsewhere_weaken; [|by eapply elsewhere_trans]. set_solver.
Qed.

Lemma linked_used fat cs c : linked fat cs → c ∈ cs → ent fat c ≠ Free.
Proof.
  intros Hl [i Hi]%list_elem_of_lookup. rewrite (linked_entry _ _ _ _ Hl Hi). by destruct (cs !! Datatypes.S i).
Qed.

Lemma repr_linked cs f : repr cs f → cs ≠ [] → linked (fat f) cs.
Proof. intros Hr Hne. by destruct (repr_cursor _ _ Hr Hne) as (? & _ & _ & _ & ? & _). Qed.

(** No cluster is free. *)
Definition full (fat : T) : Prop := ∀ c, cl fat c → ent fat c ≠ Free.

Lemma on_fat_ok {A} (op : eff T FatError A) f (d : D) fat' r :
  op (fat f) = Ret (fat', r) → on_fat op (f, d) = Ret ((set_fat f fat', d), r).
Proof. intros E. unfold on_fat. by rewrite E. Qed.

Lemma next_or_alloc_ok cs f (d : D) i :
  repr cs f → cs !! i = Some (current_cluster f) → position f = (Z.of_nat i + 1) * bpc →
  (∃ cs' f', next_or_alloc (f, d) = Ret ((f', d), Ok tt) ∧ repr cs' f' ∧ grown cs (fat f) cs' (fat f') ∧
     position f' = position f ∧ size f' = size f ∧ cluster_offset f' = 0) ∨
  (next_or_alloc (f, d) = Ret ((f, d), Err OutOfBounds) ∧ full (fat f)).
Proof.
  intros Hr Hi Hp. assert (cs ≠ []) as Hne by (by intros ->). pose proof (repr_linked _ _ Hr Hne) as Hl.
  pose proof (r_pos _ _ Hr) as Hpos. unfold next_or_alloc. rewrite self_bind.
  rewrite (eff_bind_Ok _ _ _ _ _ (get_entry_ok cs f d i Hr Hi)).
  destruct (cs !! Datatypes.S i) as [next|] eqn:Hnx.
  { left. exists cs, (set_cursor f next 0). split_and!; [done | | apply grown_refl | done..].
    change (set_cursor f next 0) with (set_position (set_cursor f next 0) (position f)).
    apply (repr_move _ _ _ _ _ (Datatypes.S i)); [done | done | lia | lia | apply Hr]. }
  destruct (alloc_law (fat f) (r_ok _ _ Hr)) as [(c & t1 & E1 & Hok1 & Hc & Ec & Hs1 & Ec1)|[E1 Hfull]].
  2: { right. rewrite (eff_bind_Err _ _ _ _ _ (on_fat_ok _ f d _ _ E1)). split; [by destruct f | done]. }
  left. rewrite (eff_bind_Ok _ _ _ _ _ (on_fat_ok _ f d _ _ E1)).
  assert (cl (fat f) (current_cluster f)) as Hcur by (eapply linked_cl; [exact Hl | by eapply list_elem_of_lookup_2]).
  assert (current_cluster f ∈ cs) as Hin by (by eapply list_elem_of_lookup_2).
  destruct (set_law t1 (current_cluster f) (Next c)) as (t2 & E2 & Hok2 & Hs2 & Ec2); [done | by apply Hs1 | right; exists c; split; [done | by apply Hs1] |].
  rewrite (eff_bind_Ok _ _ _ _ _ (on_fat_ok _ (set_fat f t1) d t2 _ E2)).
  assert (cs = take i cs ++ [current_cluster f]) as Ecs.
  { rewrite <- (take_S_r _ _ _ Hi), take_ge; [done|]. apply lookup_ge_None_1 in Hnx. lia. }
  assert (linked t2 (cs ++ [c])) as Hl2.
  { rewrite Ecs, <- app_assoc. rewrite Ecs in Hl. by eapply linked_extend. }
  exists (cs ++ [c]), (set_cursor (set_fat (set_fat f t1) t2) c 0). split_and!; [done | | | done..].
  - pose proof Hr as [_ Hb _ Hsz Hfit Hch _]. split; cbn; [done | done | done | done | | |].
    + rewrite length_app. cbn. nia.
    + destruct cs as [|c0 cs]; [done|]. split; [apply Hch | exact Hl2].
    + intros _. exists (length cs). rewrite lookup_app_r, Nat.sub_diag by lia. split_and!; [done | | lia | lia].
      apply (f_equal length) in Ecs. rewrite length_app, length_take in Ecs. cbn in Ecs.
      apply lookup_lt_Some in Hi. rewrite Hp. f_equal. lia.
  - exists [c]. split_and!; [done | |].
    + by intros x ->%list_elem_of_singleton.
    + eapply elsewhere_weaken; [|by eapply elsewhere_trans]. set_solver.
Qed.

(** [k] bytes were written at the position, and [size] grew with them. *)
Definition wrote (l : list Z) (cs : list Z) (f : t T) (d : D) (cs' : list Z) (f' : t T) (d' : D) : Prop :=
  repr cs' f' ∧ grown cs (fat f) cs' (fat f') ∧
  position f' = position f + Z.of_nat (length l) ∧ size f' = Z.max (size f) (position f + Z.of_nat (length l)) ∧
  (∀ x, x ∉ cs' → bytes_of d' x = bytes_of d x) ∧
  flat d' cs' = splice (Z.to_nat (position f)) l (flat d cs').

Lemma wrote_nil cs f d d' : repr cs f → (∀ x, bytes_of d' x = bytes_of d x) → wrote [] cs f d cs f d'.
Proof.
  intros Hr Hd. pose proof (r_size _ _ Hr). split_and!; [done | apply grown_refl | cbn; lia | cbn; lia | by intros |].
  rewrite splice_nil. apply flat_same. auto.
Qed.

Lemma grown_prefix cs t1 cs' t2 i c : grown cs t1 cs' t2 → cs !! i = Some c → cs' !! i = Some c.
Proof. intros (new & -> & _) Hi. by apply lookup_app_l_Some. Qed.

Lemma repr_NoDup cs f : repr cs f → NoDup cs.
Proof. intros Hr. destruct cs; [constructor|]. by eapply linked_NoDup, repr_linked. Qed.

Lemma wrote_app l1 l2 cs f d f1 d1 cs2 f2 cs' f' d' i :
  cs !! i = Some (current_cluster f) → position f = Z.of_nat i * bpc + cluster_offset f →
  0 ≤ cluster_offset f → cluster_offset f + Z.of_nat (length l1) ≤ bpc → 0 ≤ position f →
  bytes_of d1 (current_cluster f) = splice (Z.to_nat (cluster_offset f)) l1 (bytes_of d (current_cluster f)) →
  (∀ x, x ≠ current_cluster f → bytes_of d1 x = bytes_of d x) →
  repr cs f → repr cs2 f2 → fat f1 = fat f → grown cs (fat f1) cs2 (fat f2) →
  position f2 = position f + Z.of_nat (length l1) → size f2 = Z.max (size f) (position f + Z.of_nat (length l1)) →
  wrote l2 cs2 f2 d1 cs' f' d' → wrote (l1 ++ l2) cs f d cs' f' d'.
Proof.
  intros Hi Hp Ho Hol Hp0 Hc Hx Hr Hr2 Ef1 Hg Hp2 Hs2 (Hr' & Hg' & Hp' & Hs' & Hd' & Hfl).
  assert (cs2 ≠ []) as Hne2.
  { destruct Hg as (new & -> & _). intros E. apply app_eq_nil in E as [-> _]. done. }
  rewrite Ef1 in Hg. assert (grown cs (fat f) cs' (fat f')) as Hgg.
  { eapply grown_trans; [exact Hg | | exact Hg']. intros c. by apply linked_used, repr_linked. }
  pose proof (grown_prefix _ _ _ _ _ _ Hgg Hi) as Hi'.
  split_and!; [done | done | | | |]; rewrite ?length_app.
  - lia.
  - lia.
  - intros x Hn. rewrite Hd' by done. apply Hx. intros ->. apply Hn. by eapply list_elem_of_lookup_2.
  - pose proof (bytes_len d 0) as Hlen. rewrite Hfl, (flat_write d d1 cs' i (current_cluster f) (Z.to_nat (cluster_offset f)) l1);
      [|by eapply repr_NoDup | done | lia | done | done].
    replace (i * B + Z.to_nat (cluster_offset f))%nat with (Z.to_nat (position f)) by nia.
    replace (Z.to_nat (position f2)) with (Z.to_nat (position f) + length l1)%nat by lia.
    apply splice_splice. rewrite flat_length. apply lookup_lt_Some in Hi'. nia.
Qed.

(** The size after a chunk. *)
Lemma repr_grow cs f c o p i :
  repr cs f → cs !! i = Some c → p = Z.of_nat i * bpc + o → 0 ≤ o ≤ bpc →
  let f1 := set_position (set_cursor f c o) p in
  let f2 := if size f1 <? position f1 then set_size f1 (position f1) else f1 in
  repr cs f2 ∧ position f2 = p ∧ size f2 = Z.max (size f) p ∧ cluster_offset f2 = o ∧ current_cluster f2 = c ∧ fat f2 = fat f.
Proof.
  intros Hr Hi Hp Ho f1 f2. pose proof Hr as [Hok Hb Hpos Hsz Hfit Hch Hcu].
  pose proof (lookup_lt_Some _ _ _ Hi) as Hlt. cbn in f2. unfold f2.
  destruct (Z.ltb_spec (size f) p) as [Hl|Hl]; cbn; split_and!; try done; try lia.
  - split; cbn; [done | done | done | lia | nia | by destruct cs |]. intros _. by exists i.
  - apply (repr_move _ _ _ _ _ i); done || lia.
Qed.

Lemma write_loop_ok fuel buffer bw cs f d :
  let ws := Z.of_nat (length buffer) in
  repr cs f → cs ≠ [] → 0 ≤ bw ≤ ws →
  (bw < ws → (ws - bw) + (if cluster_offset f =? bpc then 1 else 0) ≤ Z.of_nat fuel) →
  ∃ f' d' res cs' k, write_loop fuel buffer ws bw (f, d) = Ret ((f', d'), res) ∧
    wrote (take k (drop (Z.to_nat bw) buffer)) cs f d cs' f' d' ∧
    match res with
    | Ok n => n = ws ∧ Z.of_nat k = ws - bw
    | Err e => faulty ∨ e = OutOfBounds ∧ full (fat f')
    end.
Proof.
  intros ws. revert bw cs f d. induction fuel as [|fuel IH]; intros bw cs f d Hr Hne Hbw Hfuel; cbn [write_loop];
    (destruct (Z.leb_spec ws bw) as [Hge|Hlt];
     [exists f, d, (Ok bw), cs, 0%nat; rewrite take_0; split_and!; [done | by apply wrote_nil | lia..]|]).
  { specialize (Hfuel Hlt). destruct (_ =? _); lia. }
  destruct (repr_cursor _ _ Hr Hne) as (i & Hi & Hp & Ho & Hl & Hcl & Hc2).
  pose proof (r_pos _ _ Hr) as Hpos. pose proof (r_size _ _ Hr) as Hps.
  rewrite self_bind, (r_bpc _ _ Hr), sub_w_ok by lia.
  rewrite (eff_bind_lift _ _ _ _ eq_refl). cbn zeta.
  set (n := Z.min (ws - bw) (bpc - cluster_offset f)) in *. assert (0 ≤ n) as Hn by lia.
  set (l1 := take (Z.to_nat n) (drop (Z.to_nat bw) buffer)).
  assert (Z.of_nat (length l1) = n) as Hl1 by (unfold l1; rewrite length_take, length_drop; lia).
  destruct (write_law d (current_cluster f) (cluster_offset f) l1) as (d1 & res1 & E1 & Hd1 & H1); [lia..|].
  assert (on_data (write_data (current_cluster f) (cluster_offset f) l1) (f, d) = Ret ((f, d1), res1)) as Ed
    by (unfold on_data; by rewrite E1).
  destruct res1 as [u|err].
  2: { rewrite (eff_bind_Err _ _ _ _ _ Ed). exists f, d1, (Err err), cs, 0%nat. rewrite take_0.
       split_and!; [done | | by left; apply H1]. apply wrote_nil; [done|]. intros x.
       destruct (decide (x = current_cluster f)) as [->|]; [apply H1 | by apply Hd1]. }
  rewrite (eff_bind_Ok _ _ _ _ _ Ed).
  rewrite (eff_bind_Ok _ _ _ _ _ (advance_ok cs f d1 n i Hr Hi Hp ltac:(lia) Hn ltac:(lia))).
  destruct (repr_grow cs f (current_cluster f) (cluster_offset f + n) (position f + n) i Hr Hi) as (Hr2 & Ep2 & Es2 & Eo2 & Ec2 & Ef2); [lia..|].
  set (f1 := set_position _ _) in *. set (f2 := if _ <? _ then _ else f1) in *.
  rewrite (eff_bind_Ok (update _) _ (f1, d1) (f2, d1) tt eq_refl), self_bind.
  rewrite (r_bpc _ _ Hr2), Eo2.
  assert (∀ cs3 f3, repr cs3 f3 → grown cs (fat f2) cs3 (fat f3) → position f3 = position f2 → size f3 = size f2 →
    (bw + n < ws → cluster_offset f3 = 0) →
    ∃ f' d' res cs' k, write_loop fuel buffer ws (bw + n) (f3, d1) = Ret ((f', d'), res) ∧
      wrote (take k (drop (Z.to_nat bw) buffer)) cs f d cs' f' d' ∧
      match res with
      | Ok n => n = ws ∧ Z.of_nat k = ws - bw
      | Err e => faulty ∨ e = OutOfBounds ∧ full (fat f')
      end) as Hnext.
  { intros cs3 f3 Hr3 Hg3 Ep3 Es3 Ho3.
    destruct (IH (bw + n) cs3 f3 d1 Hr3) as (f' & d' & res & cs' & k & E & Hw & Hres).
    - destruct Hg3 as (new & -> & _). intros [-> _]%app_eq_nil. done.
    - lia.
    - intros Hlt2. rewrite Ho3 by done. specialize (Hfuel Hlt). rewrite (proj2 (Z.eqb_neq 0 bpc)) by lia.
      destruct (Z.eqb_spec (cluster_offset f) bpc); lia.
    - exists f', d', res, cs', (Z.to_nat n + k)%nat. rewrite E. split_and!; [done | |].
      + rewrite slice_app. eapply (wrote_app l1 _ cs f d f2 d1 cs3 f3 cs' f' d' i); try done; try lia.
        by replace (Z.to_nat bw + Z.to_nat n)%nat with (Z.to_nat (bw + n)) by lia.
      + destruct res as [m|]; [|done]. destruct Hres as [-> Hk]. split; [done | lia]. }
  destruct (Z.leb_spec bpc (cluster_offset f + n)) as [Hfull|Hpart]; cbn [andb].
  2: { rewrite (eff_bind_Ok (mret tt) _ (f2, d1) (f2, d1) tt eq_refl). apply (Hnext cs f2); [done | apply grown_refl | done | done | lia]. }
  destruct (Z.ltb_spec (bw + n) ws) as [Hmore|Hdone].
  2: { rewrite (eff_bind_Ok (mret tt) _ (f2, d1) (f2, d1) tt eq_refl). apply (Hnext cs f2); [done | apply grown_refl | done | done | lia]. }
  rewrite <- Ec2 in Hi. destruct (next_or_alloc_ok cs f2 d1 i Hr2 Hi) as [(cs3 & f3 & E3 & Hr3 & Hg3 & Ep3 & Es3 & Eo3)|[E3 Hfl]]; [lia| |].
  - rewrite (eff_bind_Ok _ _ _ _ _ E3). by apply (Hnext cs3 f3).
  - rewrite (eff_bind_Err _ _ _ _ _ E3). exists f2, d1, (Err OutOfBounds), cs, (Z.to_nat n).
    split_and!; [done | | by right]. fold l1. rewrite <- (app_nil_r l1). rewrite Ec2 in Hi.
    eapply (wrote_app l1 [] cs f d f2 d1 cs f2 cs f2 d1 i); try done; try lia; [apply grown_refl | by apply wrote_nil].
Qed.

Lemma repr_first cs f : repr cs f → first_cluster f = 0 ↔ cs = [].
Proof.
  intros Hr. pose proof (r_chain _ _ Hr) as Hc. destruct cs as [|c cs]; [by split; [|intros; apply Hc]|].
  destruct Hc as [-> [Hcl _]]. pose proof (cl_bound _ _ Hcl). split; [lia | done].
Qed.

Lemma write_ok buffer cs f d :
  repr cs f →
  ∃ f' d' res cs' k, write buffer (f, d) = Ret ((f', d'), res) ∧ wrote (take k buffer) cs f d cs' f' d' ∧
    match res with
    | Ok n => n = Z.of_nat (length buffer) ∧ k = length buffer
    | Err e => faulty ∨ e = OutOfBounds ∧ full (fat f')
    end.
Proof.
  intros Hr. unfold write. destruct (Nat.eqb_spec (length buffer) 0) as [E0|Hne].
  { exists f, d, (Ok 0), cs, 0%nat. rewrite take_0. split_and!; [done | by apply wrote_nil | lia..]. }
  assert (∀ cs1 f1, repr cs1 f1 → cs1 ≠ [] → ∃ f' d' res cs' k,
    write_loop (length buffer + 1) buffer (Z.of_nat (length buffer)) 0 (f1, d) = Ret ((f', d'), res) ∧
    wrote (take k buffer) cs1 f1 d cs' f' d' ∧
    match res with
    | Ok n => n = Z.of_nat (length buffer) ∧ k = length buffer
    | Err e => faulty ∨ e = OutOfBounds ∧ full (fat f')
    end) as Hloop.
  { intros cs1 f1 Hr1 Hcs1. destruct (write_loop_ok (length buffer + 1) buffer 0 cs1 f1 d Hr1 Hcs1)
      as (f' & d' & res & cs' & k & E & Hw & Hres); [lia | destruct (_ =? _); lia |].
    exists f', d', res, cs', k. split_and!; [done | by rewrite drop_0 in Hw |]. destruct res; [lia | done]. }
  rewrite self_bind. destruct (Z.eqb_spec (first_cluster f) 0) as [Ef|Ef].
  2: { rewrite (eff_bind_Ok (mret tt) _ (f, d) (f, d) tt eq_refl). apply Hloop; [done|].
       intros Ecs. by apply Ef, (repr_first cs f). }
  apply (repr_first cs f Hr) in Ef as ->.
  destruct (alloc_law (fat f) (r_ok _ _ Hr)) as [(c & t1 & E1 & Hok1 & Hc & Ec & Hs1 & Ec1)|[E1 Hfull]].
  2: { pose proof (on_fat_ok fe_alloc f d _ _ E1) as Ea.
       rewrite (eff_bind_Err _ _ _ _ _ (eff_bind_Err _ _ _ _ _ Ea)). exists f, d, (Err OutOfBounds), [], 0%nat. rewrite take_0.
       split_and!; [by destruct f | by apply wrote_nil | by right]. }
  pose proof (on_fat_ok fe_alloc f d _ _ E1) as Ea.
  set (f1 := set_cursor (set_first (set_fat f t1) c) c (cluster_offset (set_fat f t1))).
  rewrite (eff_bind_Ok _ _ (f, d) (f1, d) tt (eff_bind_Ok _ _ _ _ _ Ea)).
  pose proof Hr as [_ Hb Hpos Hsz Hfit (_ & _ & Ho) _]. cbn in Hfit.
  assert (repr [c] f1) as Hr1.
  { split; cbn; [done | done | done | done | lia | split; [done|]; split; [by apply Hs1 | done] |].
    intros _. exists 0%nat. split_and!; [done | lia | lia | lia]. }
  destruct (Hloop [c] f1 Hr1 ltac:(done)) as (f' & d' & res & cs' & k & E & (Hr' & Hg & Hw) & Hres).
  exists f', d', res, cs', k. rewrite E. split_and!; [done | | done]. split_and!; [done | | apply Hw..].
  eapply grown_trans; [| |exact Hg].
  - exists [c]. split_and!; [done | by intros x ->%list_elem_of_singleton | exact Hs1].
  - intros x. apply linked_used. by apply (repr_linked [c] f1).
Qed.

(** The content after a write. *)
Lemma wrote_content l cs f d cs' f' d' :
  repr cs f → wrote l cs f d cs' f' d' → content cs' f' d' = splice (Z.to_nat (position f)) l (content cs f d).
Proof.
  intros Hr (Hr' & (new & -> & _) & _ & Hs & _ & Hfl). pose proof (r_size _ _ Hr). pose proof (r_fits _ _ Hr). pose proof (r_pos _ _ Hr).
  unfold content. rewrite Hfl.
  assert (length (flat d cs) = (length cs * B)%nat) as Hlen by apply flat_length. rewrite flat_app, take_splice; [|rewrite length_app; nia | lia].
  apply splice_cong.
  - rewrite !take_take, Nat.min_l, Nat.min_l by lia. rewrite take_app_le by nia. done.
  - destruct (decide (position f + Z.of_nat (length l) ≤ size f)).
    + replace (size f') with (size f) by lia. rewrite take_app_le by nia. done.
    + rewrite !drop_ge; [done | |]; rewrite length_take; lia.
Qed.

(** ** Seeking *)

Lemma seek_loop_ok fuel target cs f (d : D) :
  repr cs f → position f ≤ target ≤ size f →
  (position f < target → target - position f + (if cluster_offset f =? bpc then 1 else 0) ≤ Z.of_nat fuel) →
  ∃ f', seek_loop fuel target (f, d) = Ret ((f', d), Ok tt) ∧
    position f' = target ∧ fat f' = fat f ∧ size f' = size f ∧ first_cluster f' = first_cluster f ∧
    bytes_per_cluster f' = bpc ∧
    (repr cs f' ∨
     position f < target ∧ target = bpc * Z.of_nat (length cs) ∧ last cs = Some (current_cluster f') ∧ cluster_offset f' = 0).
Proof.
  revert f. induction fuel as [|fuel IH]; intros f Hr Ht Hfuel; cbn [seek_loop];
    rewrite self_bind;
    (destruct (Z.leb_spec target (position f)) as [Hge|Hlt];
     [exists f; split_and!; [done | lia | done.. | apply Hr |]; by left|]).
  { specialize (Hfuel Hlt). destruct (_ =? _); lia. }
  pose proof (r_fits _ _ Hr) as Hfit. pose proof (r_size _ _ Hr) as Hps. pose proof (r_pos _ _ Hr) as Hpos. pose proof (repr_small _ _ Hr) as Hsm.
  assert (cs ≠ []) as Hne by (intros ->; cbn in Hfit; lia).
  destruct (repr_cursor _ _ Hr Hne) as (i & Hi & Hp & Ho & Hl & Hcl & Hc2). pose proof (lookup_lt_Some _ _ _ Hi) as Hlen.
  cbn zeta. rewrite (r_bpc _ _ Hr), sub_w_ok by lia. rewrite (eff_bind_lift _ _ _ _ eq_refl), (add_w_ok 64 (position f)) by lia.
  rewrite (eff_bind_lift _ _ _ _ eq_refl). destruct (Z.leb_spec (position f + (bpc - cluster_offset f)) target) as [Hskip|Hpart].
  - rewrite (eff_bind_Ok _ _ _ _ _ (get_entry_ok cs f d i Hr Hi)). destruct (cs !! Datatypes.S i) as [next|] eqn:Hnx.
    + set (f1 := set_position (set_cursor f next 0) (position f + (bpc - cluster_offset f))).
      rewrite update_bind. fold f1.
      assert (repr cs f1) as Hr1 by (apply (repr_move _ _ _ _ _ (Datatypes.S i)); [done | done | lia | lia | lia]).
      destruct (IH f1 Hr1) as (f' & E & Ep & Ef & Es & E1 & Eb & Hres); [cbn; lia | |].
      { intros _. specialize (Hfuel Hlt). cbn [position cluster_offset f1 set_position set_cursor]. rewrite (proj2 (Z.eqb_neq 0 bpc)) by lia.
        destruct (Z.eqb_spec (cluster_offset f) bpc); lia. }
      exists f'. rewrite E. split_and!; [done.. |]. destruct Hres as [Hr'|(_ & ? & ? & ?)]; [by left | by right].
    + apply lookup_ge_None_1 in Hnx. assert (target = size f ∧ size f = bpc * Z.of_nat (length cs)) as [Et Esz] by nia.
      rewrite (eff_bind_lift (assert_ (negb (bpc =? 0))) _ (f, d) tt) by (by rewrite (proj2 (Z.eqb_neq bpc 0)) by lia).
      eexists. split; [reflexivity|]. split_and!; [done.. | apply Hr |]. right. split_and!; [done | lia | |].
      * cbn. rewrite last_lookup. replace (pred (length cs)) with i by lia. done.
      * cbn. rewrite Esz, Z.mul_comm. apply Z.mod_mul. lia.
  - rewrite add_w_ok by lia. rewrite (eff_bind_lift _ _ _ _ eq_refl). eexists. split; [reflexivity|].
    split_and!; [cbn; lia | done.. | apply Hr |]. left. apply (repr_move _ _ _ _ _ i); [done | done | lia | lia | lia].
Qed.

(** At the end of a file that fills its clusters, [seek] leaves the cursor at the start
    of the last cluster. *)
Definition misplaced (cs : list Z) (f : t T) : Prop :=
  position f = size f ∧ size f = bpc * Z.of_nat (length cs) ∧ last cs = Some (current_cluster f) ∧ cluster_offset f = 0.

Lemma repr_rewind cs f : repr cs f → repr cs (set_position (set_cursor f (first_cluster f) 0) 0).
Proof.
  intros Hr. pose proof (r_size _ _ Hr). pose proof (r_pos _ _ Hr). pose proof (r_chain _ _ Hr) as Hch. destruct cs as [|c cs].
  - destruct Hr as [Hok Hb Hpos Hsz Hfit (E1 & _ & _) _]. split; cbn; [done | done | done | lia | done | done | done].
  - apply (repr_move _ _ _ _ _ 0); [done | cbn; f_equal; symmetry; apply Hch | lia | lia | lia].
Qed.

Lemma seek_ok target cs f (d : D) :
  repr cs f → 0 ≤ target →
  let p := Z.min target (size f) in
  ∃ f', seek target (f, d) = Ret ((f', d), Ok p) ∧
    fat f' = fat f ∧ size f' = size f ∧ first_cluster f' = first_cluster f ∧ position f' = p ∧
    (repr cs f' ∨ position f < p ∧ misplaced cs f').
Proof.
  intros Hr Ht p. pose proof (r_size _ _ Hr) as Hps. unfold seek. rewrite self_bind. cbn zeta. fold p.
  assert (∀ f1, repr cs f1 → position f1 ≤ p → fat f1 = fat f → size f1 = size f → first_cluster f1 = first_cluster f →
    (position f1 = position f ∨ p < size f) →
    ∃ f', ((seek_loop (Z.to_nat p + 2) p;; f ← self; mret (position f)) : eff (t T * D) FatError Z) (f1, d) = Ret ((f', d), Ok p) ∧
      fat f' = fat f ∧ size f' = size f ∧ first_cluster f' = first_cluster f ∧ position f' = p ∧
      (repr cs f' ∨ position f < p ∧ misplaced cs f')) as Hrest.
  { intros f1 Hr1 Hp1 Ef Es E1 Hor. pose proof (r_size _ _ Hr1) as Hs1. destruct (seek_loop_ok (Z.to_nat p + 2) p cs f1 d Hr1) as (f' & E & Ep & Ef' & Es' & E1' & _ & Hres);
      [lia | destruct (_ =? _); lia |].
    exists f'. rewrite (eff_bind_Ok _ _ _ _ _ E), self_bind. rewrite Ep.
    split_and!; [done | congruence | congruence | congruence | done |].
    destruct Hres as [?|(Hlt & Et & Hla & Ho)]; [by left|]. right.
    pose proof (r_fits _ _ Hr) as Hfit. split; [lia|]. split_and!; [lia | lia | done | done]. }
  destruct (Z.ltb_spec p (position f)) as [Hback|Hfwd].
  - rewrite update_bind. apply Hrest; [by apply repr_rewind | cbn; lia | done | done | done | lia].
  - apply (Hrest f); [done | done | done | done | done | by left].
Qed.

(** ** Truncating *)

(** [truncate] ends the chain after the current cluster and frees the rest. *)
Definition cut (new_size : Z) : eff (t T * D) FatError unit :=
  f ← self;
  entry ← get_entry (current_cluster f);
  (match entry with
   | Next next =>
       on_fat (fe_set (current_cluster f) EndOfChain);;
       on_fat (fe_free_chain next)
   | _ => mret tt
   end);;
  update (λ f,
    let f := set_size f new_size in
    if new_size <? position f then set_position f new_size else f).

(** What is left of a chain. *)
Definition shortened (n : Z) (cs : list Z) (f : t T) (cs' : list Z) (f' : t T) : Prop :=
  repr cs' f' ∧ size f' = n ∧ position f' = n ∧ elsewhere cs (fat f) (fat f') ∧ cs' `prefix_of` cs ∧
  ∀ c, c ∈ cs → c ∉ cs' → ent (fat f') c = Free.

Lemma cut_repr n cs f i t' :
  repr cs f → n = position f → cs !! i = Some (current_cluster f) → position f = Z.of_nat i * bpc + cluster_offset f →
  0 ≤ cluster_offset f ≤ bpc → fe_ok t' → linked t' (take (Datatypes.S i) cs) →
  repr (take (Datatypes.S i) cs) (set_size (set_fat f t') n).
Proof.
  intros Hr -> Hi Hp Ho Hok' Hl'. pose proof Hr as [_ Hb Hpos Hsz _ Hch _]. pose proof (lookup_lt_Some _ _ _ Hi) as Hlt.
  assert (Z.of_nat (length (take (Datatypes.S i) cs)) = Z.of_nat i + 1) as Hlen by (rewrite length_take; lia).
  split; cbn [fat bytes_per_cluster position size set_size set_fat first_cluster current_cluster cluster_offset]; [done | done | done | lia | rewrite Hlen; lia | |].
  - destruct cs as [|c cs]; [done|]. cbn in Hl' |- *. split; [apply Hch | exact Hl'].
  - intros _. exists i. rewrite lookup_take_lt by lia. split_and!; done || lia.
Qed.

Lemma cut_ok cs f d :
  repr cs f → cs ≠ [] →
  ∃ f' cs', cut (position f) (f, d) = Ret ((f', d), Ok tt) ∧ shortened (position f) cs f cs' f'.
Proof.
  intros Hr Hne. destruct (repr_cursor _ _ Hr Hne) as (i & Hi & Hp & Ho & Hl & Hcl & Hc2).
  pose proof (cut_repr (position f) cs f i) as Hrep. set (cs' := take (Datatypes.S i) cs) in *.
  assert (cs' = take i cs ++ [current_cluster f]) as Ecs' by (unfold cs'; by apply take_S_r).
  assert (cs = take i cs ++ current_cluster f :: drop (Datatypes.S i) cs) as Ecs by (symmetry; by apply take_drop_middle).
  assert (∀ f2 : t T, position f2 = position f → update (λ g, let g := set_size g (position f) in
      if position f <? position g then set_position g (position f) else g) (f2, d) = Ret ((set_size f2 (position f), d), Ok tt)) as Hupd.
  { intros f2 Hf2. unfold update. cbn. by rewrite Hf2, Z.ltb_irrefl. }
  unfold cut. rewrite self_bind, (eff_bind_Ok _ _ _ _ _ (get_entry_ok cs f d i Hr Hi)).
  rewrite <- (Nat.add_0_r (Datatypes.S i)), <- lookup_drop. destruct (drop (Datatypes.S i) cs) as [|next rest]; cbn [lookup list_lookup].
  { rewrite (eff_bind_Ok (mret tt) _ (f, d) (f, d) tt eq_refl), Hupd by done. rewrite <- Ecs' in Ecs.
    exists (set_size f (position f)), cs'. rewrite <- Ecs. split; [done|]. split_and!; [|done..|by split|done|done].
    replace (set_size f (position f)) with (set_size (set_fat f (fat f)) (position f)) by (by destruct f).
    rewrite Ecs. apply Hrep; try done; [apply Hr | by rewrite <- Ecs]. }
  destruct (set_law (fat f) (current_cluster f) EndOfChain) as (t1 & E2 & Hok1 & Hs1 & Ec1); [apply Hr | done | by left |].
  pose proof (linked_NoDup _ _ Hl) as Hnd. rewrite Ecs in Hnd. apply NoDup_app in Hnd as (_ & Hnd1 & Hnd2). apply NoDup_cons in Hnd2 as [Hnd2 _].
  assert (linked t1 cs') as Hlc by (rewrite Ecs'; rewrite Ecs in Hl; by eapply linked_cut).
  assert (linked t1 (next :: rest)) as Hlr.
  { eapply linked_elsewhere; [exact Hs1 | by intros x Hx ->%list_elem_of_singleton |].
    rewrite Ecs in Hl. by apply linked_suffix in Hl as [_ [_ Hl]]. }
  destruct (free_law t1 next rest Hok1 Hlr) as (t2 & E3 & Hok2 & Hs2 & Hfree).
  assert ((on_fat (fe_set (current_cluster f) EndOfChain);; on_fat (fe_free_chain next) : eff (t T * D) FatError unit) (f, d)
    = Ret ((set_fat f t2, d), Ok tt)) as E4.
  { rewrite (eff_bind_Ok _ _ _ _ _ (on_fat_ok _ f d _ _ E2)). exact (on_fat_ok _ (set_fat f t1) d t2 _ E3). }
  rewrite (eff_bind_Ok _ _ _ _ _ E4), Hupd by done.
  exists (set_size (set_fat f t2) (position f)), cs'. split; [done|]. split_and!; [|done|done| | |].
  - apply Hrep; try done. eapply linked_elsewhere; [exact Hs2 | | exact Hlc]. intros x Hx Hin. rewrite Ecs' in Hx.
    apply elem_of_app in Hx as [Hx| ->%list_elem_of_singleton]; [|done]. apply (Hnd1 x Hx). by right.
  - cbn. eapply elsewhere_weaken; [|by eapply elsewhere_trans]. rewrite Ecs. set_solver.
  - exists (next :: rest). rewrite Ecs'. rewrite Ecs at 1. by rewrite <- app_assoc.
  - intros c Hc Hnc. cbn. apply Hfree. rewrite Ecs in Hc. rewrite Ecs' in Hnc. set_solver.
Qed.

Lemma truncate_ok n cs f (d : D) :
  repr cs f → 0 ≤ n →
  (size f ≤ n ∧ truncate n (f, d) = Ret ((f, d), Ok tt)) ∨
  (n < size f ∧ ∃ f' cs', truncate n (f, d) = Ret ((f', d), Ok tt) ∧ shortened n cs f cs' f').
Proof.
  intros Hr Hn. pose proof (r_size _ _ Hr) as Hps. pose proof (r_pos _ _ Hr) as Hpos. pose proof (r_fits _ _ Hr) as Hfit.
  unfold truncate. rewrite self_bind. destruct (Z.leb_spec (size f) n) as [Hge|Hlt]; [by left|right; split; [done|]].
  assert (cs ≠ []) as Hne by (intros ->; cbn in Hfit; lia). pose proof (repr_linked _ _ Hr Hne) as Hl.
  destruct (Z.eqb_spec n 0) as [->|Hn0].
  - assert (first_cluster f ≠ 0) as Hf0 by (by rewrite (repr_first cs f)).
    rewrite (proj2 (Z.eqb_neq _ _) Hf0). cbn [negb]. destruct cs as [|c cs]; [done|].
    pose proof (r_chain _ _ Hr) as [Ec _]. destruct (free_law _ _ _ (r_ok _ _ Hr) Hl) as (t' & E & Hok' & Hs' & Hfree).
    rewrite <- Ec in E. pose proof (on_fat_ok _ f d _ _ E) as E'.
    set (f1 := set_cursor (set_first (set_fat f t') 0) 0 0). rewrite (eff_bind_Ok _ _ (f, d) (f1, d) tt) by (by rewrite (eff_bind_Ok _ _ _ _ _ E')).
    exists (set_position (set_size f1 0) 0), []. split; [done|]. split_and!; [| done | done | exact Hs' | apply prefix_nil | intros x Hx _; by apply Hfree].
    split; cbn; [done | apply Hr | done | lia | lia | done | done].
  - destruct (seek_ok n cs f d Hr Hn) as (f1 & E & Ef & Es & E1 & Ep & [Hr1|[_ (Hp1 & Hs1 & _)]]); [|lia].
    rewrite (eff_bind_Ok _ _ _ _ _ E). assert (position f1 = n) as Hp1 by lia.
    destruct (cut_ok cs f1 d Hr1 Hne) as (f' & cs' & E2 & Hsh). rewrite Hp1 in *. exists f', cs'. split; [exact E2|].
    unfold shortened in *. by rewrite <- Ef.
Qed.

(** ** The specification

    A file is a list of bytes with a position in it. *)

Record file := mkFile { fbytes : list Z; fpos : nat }.

Definition abs (cs : list Z) (f : t T) (d : D) : file := mkFile (content cs f d) (Z.to_nat (position f)).

Definition file_read (n : nat) (F : file) : list Z * file :=
  let l := take n (drop (fpos F) (fbytes F)) in (l, mkFile (fbytes F) (fpos F + length l)).
Definition file_write (l : list Z) (F : file) : file := mkFile (splice (fpos F) l (fbytes F)) (fpos F + length l).
Definition file_seek (p : nat) (F : file) : file := mkFile (fbytes F) (Nat.min p (length (fbytes F))).
(** A position behind the new end is moved to it, a smaller one stays. *)
Definition file_truncate (n : nat) (F : file) : file :=
  if (length (fbytes F) <=? n)%nat then F else mkFile (take n (fbytes F)) (Nat.min (fpos F) n).

(** The device changed at most in the clusters of [cs], and the table in those and in free ones. *)
Definition framed (cs : list Z) (f : t T) (d : D) (f' : t T) (d' : D) : Prop :=
  ∀ c, cl (fat f) c → c ∉ cs → ent (fat f) c ≠ Free → ent (fat f') c = ent (fat f) c ∧ bytes_of d' c = bytes_of d c.

Lemma abs_read cs f d f' d' (l : list Z) :
  repr cs f → size f' = size f → (∀ x, bytes_of d' x = bytes_of d x) →
  position f' = position f + Z.of_nat (length l) → abs cs f' d' = mkFile (content cs f d) (Z.to_nat (position f) + length l).
Proof.
  intros Hr Es Hd Ep. pose proof (r_size _ _ Hr). unfold abs, content. rewrite Es, Ep, (flat_same d d') by auto. f_equal. lia.
Qed.

Lemma file_read_ok buffer cs f d :
  repr cs f →
  ∃ f' d' res, read buffer (f, d) = Ret ((f', d'), res) ∧ repr cs f' ∧ framed cs f d f' d' ∧
    match res with
    | Ok (b', n) => ∃ l, file_read (length buffer) (abs cs f d) = (l, abs cs f' d') ∧
        b' = splice 0 l buffer ∧ n = Z.of_nat (length l)
    | Err _ => faulty ∧ content cs f' d' = content cs f d
    end.
Proof.
  intros Hr. pose proof (content_length cs f d Hr) as Hlen. pose proof (r_size _ _ Hr) as Hps.
  destruct (read_ok buffer cs f d Hr) as (f' & d' & res & E & Hr' & Ef & Es & Hd & Hres).
  exists f', d', res. split_and!; [done | done | intros c _ _ _; by rewrite Ef, Hd |]. destruct res as [[b' n]|err].
  - destruct Hres as (En & Ep & ->). set (l := take (Z.to_nat n) (drop (Z.to_nat (position f)) (content cs f d))).
    assert (Z.of_nat (length l) = n) as Hl by (unfold l; rewrite length_take, length_drop; lia).
    exists l. split_and!; [|done|done]. unfold file_read. cbn [fpos fbytes abs].
    assert (take (length buffer) (drop (Z.to_nat (position f)) (content cs f d)) = l) as ->.
    { unfold l. destruct (decide (Z.of_nat (length buffer) ≤ size f - position f)).
      - f_equal. lia.
      - rewrite !take_ge; [done | |]; rewrite length_drop; lia. }
    f_equal. symmetry. apply (abs_read cs f d); [done | done | done | lia].
  - split; [done|]. unfold content. by rewrite Es, (flat_same d d') by auto.
Qed.

Lemma file_write_ok buffer cs f d :
  repr cs f →
  ∃ f' d' res cs' k, write buffer (f, d) = Ret ((f', d'), res) ∧ repr cs' f' ∧ framed cs f d f' d' ∧
    abs cs' f' d' = file_write (take k buffer) (abs cs f d) ∧
    match res with
    | Ok n => n = Z.of_nat (length buffer) ∧ k = length buffer
    | Err e => faulty ∨ e = OutOfBounds ∧ full (fat f')
    end.
Proof.
  intros Hr. pose proof (r_size _ _ Hr) as Hps. destruct (write_ok buffer cs f d Hr) as (f' & d' & res & cs' & k & E & Hw & Hres).
  pose proof (wrote_content _ _ _ _ _ _ _ Hr Hw) as Hc. destruct Hw as (Hr' & (new & -> & Hnew & Hel) & Hp & _ & Hd & _).
  exists f', d', res, (cs ++ new), k. split_and!; [done | done | | | done].
  - intros c Hcl Hn Hused. assert (c ∉ cs ++ new) as Hno.
    { intros [?|Hin]%elem_of_app; [done|]. by apply Hused, Hnew. }
    split; [by apply Hel | by apply Hd].
  - unfold abs, file_write. cbn [fbytes fpos]. rewrite Hc. f_equal. lia.
Qed.

Lemma file_seek_ok p cs f d :
  repr cs f → 0 ≤ p →
  ∃ f', seek p (f, d) = Ret ((f', d), Ok (Z.min p (size f))) ∧ framed cs f d f' d ∧
    abs cs f' d = file_seek (Z.to_nat p) (abs cs f d) ∧
    (repr cs f' ∨ position f < size f ≤ p ∧ size f = bpc * Z.of_nat (length cs)).
Proof.
  intros Hr Hp. pose proof (content_length cs f d Hr) as Hlen. destruct (seek_ok p cs f d Hr Hp) as (f' & E & Ef & Es & _ & Ep & Hres).
  exists f'. split_and!; [done | intros c _ _ _; by rewrite Ef | |].
  - unfold abs, file_seek. cbn [fbytes fpos]. unfold content at 1. rewrite Es, Ep. f_equal. lia.
  - destruct Hres as [?|[Hlt (Ep' & Es' & _)]]; [by left | right; lia].
Qed.

Lemma file_truncate_ok n cs f d :
  repr cs f → 0 ≤ n →
  ∃ f' cs', truncate n (f, d) = Ret ((f', d), Ok tt) ∧ repr cs' f' ∧ framed cs f d f' d ∧
    (size f ≤ n → abs cs' f' d = file_truncate (Z.to_nat n) (abs cs f d)) ∧
    (n < size f → abs cs' f' d = file_seek (Z.to_nat n) (file_truncate (Z.to_nat n) (abs cs f d))) ∧
    (n < size f → ∀ c, c ∈ cs → c ∉ cs' → ent (fat f') c = Free).
Proof.
  intros Hr Hn. pose proof (content_length cs f d Hr) as Hlen. unfold file_truncate. cbn [fbytes abs].
  destruct (truncate_ok n cs f d Hr Hn) as [[Hge E]|(Hlt & f' & cs' & E & Hr' & Es & Ep & Hel & [k ->] & Hfree)].
  - exists f, cs. rewrite (proj2 (Nat.leb_le _ _)) by lia. split_and!; [done | done | by intros c | done | lia | lia].
  - exists f', cs'. rewrite (proj2 (Nat.leb_gt _ _)) by lia. split_and!; [done | done | | lia | |done].
    + intros c Hcl Hn' _. split; [by apply Hel | done].
    + intros _. unfold abs, content, file_seek. cbn [fbytes]. rewrite Es, Ep, length_take, take_take, !Nat.min_l by (unfold content in Hlen; lia).
      f_equal. rewrite flat_app, take_app_le; [done|].
      pose proof (r_fits _ _ Hr') as Hfit. rewrite Es in Hfit. pose proof (r_pos _ _ Hr'). rewrite flat_length. nia.
Qed.

(** C8: a [FatFile] implements a list of bytes with a position, over any file allocation
    table and any device that keep to their interfaces, for clusters of any size. [read] fills the
    buffer with the bytes at the position; [write] replaces the bytes there, extends the
    file and its chain as needed and, when it fails because no cluster is free, has written a
    first part of the buffer; [seek] and [truncate] do what their names say, and where [truncate] makes
    the file shorter it also moves the position to the new end. All of them leave the clusters of other
    files alone, and keep the cursor of the file in step with its position, but for a [seek] to the end of a file that fills its last cluster. *)
Theorem fat_file_refines cs f d :
  repr cs f →
  (∀ buffer, ∃ f' d' res, read buffer (f, d) = Ret ((f', d'), res) ∧ repr cs f' ∧ framed cs f d f' d' ∧
    match res with
    | Ok (b', n) => ∃ l, file_read (length buffer) (abs cs f d) = (l, abs cs f' d') ∧
        b' = splice 0 l buffer ∧ n = Z.of_nat (length l)
    | Err _ => faulty ∧ content cs f' d' = content cs f d
    end) ∧
  (∀ buffer, ∃ f' d' res cs' k, write buffer (f, d) = Ret ((f', d'), res) ∧ repr cs' f' ∧ framed cs f d f' d' ∧
    abs cs' f' d' = file_write (take k buffer) (abs cs f d) ∧
    match res with
    | Ok n => n = Z.of_nat (length buffer) ∧ k = length buffer
    | Err e => faulty ∨ e = OutOfBounds ∧ full (fat f')
    end) ∧
  (∀ p, 0 ≤ p → ∃ f', seek p (f, d) = Ret ((f', d), Ok (Z.min p (size f))) ∧ framed cs f d f' d ∧
    abs cs f' d = file_seek (Z.to_nat p) (abs cs f d) ∧
    (repr cs f' ∨ position f < size f ≤ p ∧ size f = bpc * Z.of_nat (length cs))) ∧
  (∀ n, 0 ≤ n → ∃ f' cs', truncate n (f, d) = Ret ((f', d), Ok tt) ∧ repr cs' f' ∧ framed cs f d f' d ∧
    (size f ≤ n → abs cs' f' d = file_truncate (Z.to_nat n) (abs cs f d)) ∧
    (n < size f → abs cs' f' d = file_seek (Z.to_nat n) (file_truncate (Z.to_nat n) (abs cs f d))) ∧
    (n < size f → ∀ c, c ∈ cs → c ∉ cs' → ent (fat f') c = Free)).
Proof.
  intros Hr. split_and!; intros.
  - by apply file_read_ok.
  - by apply file_write_ok.
  - by apply file_seek_ok.
  - by apply file_truncate_ok.
Qed.

(** What is written is read back: after a successful write, seeking to where it
    began and reading as many bytes gives the written bytes. *)
Theorem fat_file_roundtrip buffer other cs f d f1 d1 n :
  repr cs f → length other = length buffer → write buffer (f, d) = Ret ((f1, d1), Ok n) →
  ∃ f2, seek (position f) (f1, d1) = Ret ((f2, d1), Ok (position f)) ∧
    match read other (f2, d1) with
    | Ret (_, Ok (b, k)) => b = buffer ∧ k = Z.of_nat (length buffer)
    | Ret (_, Err _) => faulty
    | Panic => False
    end.
Proof.
  intros Hr Hlen Ew. pose proof (r_size _ _ Hr) as Hps. pose proof (content_length cs f d Hr) as Hcl.
  destruct (write_ok buffer cs f d Hr) as (f' & d' & res & cs' & k & E & Hw & Hres). rewrite Ew in E.
  injection E as <- <- <-. destruct Hres as [_ ->]. rewrite firstn_all in Hw.
  pose proof (wrote_content _ _ _ _ _ _ _ Hr Hw) as Hc. destruct Hw as (Hr1 & _ & Hp1 & Hs1 & _ & _).
  destruct (seek_ok (position f) cs' f1 d1 Hr1) as (f2 & E2 & Ef2 & Es2 & _ & Ep2 & [Hr2|[Hlt _]]); [lia| |lia].
  exists f2. rewrite Z.min_l in * by lia. split; [done|].
  destruct (file_read_ok other cs' f2 d1 Hr2) as (f3 & d3 & res & -> & _ & _ & H3).
  destruct res as [[b m]|]; [|by destruct H3]. destruct H3 as (l & El & -> & ->). unfold file_read in El.
  cbn [abs fpos fbytes] in El. injection El as El _. rewrite Ep2 in El. unfold content in El. rewrite Es2 in El. fold (content cs' f1 d1) in El.
  assert (l = buffer) as ->.
  { rewrite <- El, Hc, Hlen. unfold splice. assert (length (take (Z.to_nat (position f)) (content cs f d)) = Z.to_nat (position f)) as Ht
      by (rewrite length_take; lia). rewrite <- Ht at 1. rewrite drop_app_length, take_app_length. done. }
  split; [|done]. unfold splice. cbn. rewrite drop_ge by lia. apply app_nil_r.
Qed.

End files.

(** ** A file on a small device

    Clusters of [n] bytes in memory, and the table [demo_fat], in which the clusters 2 and 4
    are linked and 5, 6 and 7 are free. *)

Module Small.

Record disk (n : nat) := mkDisk { clusters : gmap Z (list Z) }.
Arguments mkDisk {n} clusters.
Arguments clusters {n} d.

Section disk.
Context {n : nat}.

Definition cluster_bytes (d : disk n) (c : Z) : list Z := take n (default [] (clusters d !! c) ++ replicate n 0).

Global Instance ops : DataOps (disk n) := {
  read_data c o k d := Ret (d, Ok (take (Z.to_nat k) (drop (Z.to_nat o) (cluster_bytes d c))));
  write_data c o l d := Ret (mkDisk (<[c := splice (Z.to_nat o) l (cluster_bytes d c)]> (clusters d)), Ok tt);
}.

Lemma cluster_length d c : length (cluster_bytes d c) = n.
Proof. unfold cluster_bytes. rewrite length_take, length_app, length_replicate. lia. Qed.

Lemma cluster_insert d c l : length l = n → cluster_bytes (mkDisk (<[c := l]> d)) c = l.
Proof.
  intros Hl. unfold cluster_bytes. cbn [clusters]. rewrite lookup_insert_eq. cbn [default from_option id].
  rewrite take_app_le by lia. apply take_ge. lia.
Qed.

Global Program Instance laws : DataLaws (disk n) (Z.of_nat n) := { faulty := False; bytes_of := cluster_bytes }.
Next Obligation. intros d c. by rewrite cluster_length. Qed.
Next Obligation. intros d c o k _ _ _ _. eexists d, (Ok _). done. Qed.
Next Obligation.
  intros d c o l _ Ho Hl. eexists _, (Ok tt). split; [reflexivity|]. split.
  - intros x Hx. unfold cluster_bytes. cbn [clusters]. by rewrite lookup_insert_ne.
  - apply cluster_insert. rewrite splice_length; [apply cluster_length|]. rewrite cluster_length. lia.
Qed.

End disk.

Definition device : disk 4 := mkDisk {[2 := [1; 2; 3; 4]; 4 := [5; 6; 7; 8]]}.

(** A file of [n] bytes in the clusters 2 and 4. *)
Definition file_of (n : Z) : FatFile.t FatTable := FatFile.mkFatFile FatTable demo_fat 2 0 n 4 2 0.

Lemma demo_linked : linked cluster entry demo_fat [2; 4].
Proof. vm_compute. repeat split; congruence. Qed.

Lemma file_repr n : 0 ≤ n ≤ 8 → repr 4 [2; 4] (file_of n).
Proof.
  intros Hn. split; cbn; [| done | lia | lia | lia | split; [done | exact demo_linked] |].
  - split; [exact demo_fat_wf | vm_compute; congruence].
  - intros _. exists 0%nat. split_and!; done || lia.
Qed.

End Small.

Lemma fat_file_refines_witness :
  ∃ f' d' cs', FatFile.write [9; 10; 11] (Small.file_of 6, Small.device) = Ret ((f', d'), Ok 3) ∧ repr 4 cs' f' ∧
    content 4 cs' f' d' = [9; 10; 11; 4; 5; 6].
Proof.
  destruct (fat_file_refines 4 [2; 4] (Small.file_of 6) Small.device (Small.file_repr 6 ltac:(lia))) as (_ & Hw & _ & _).
  destruct (Hw [9; 10; 11]) as (f' & d' & res & cs' & k & E & Hr & _ & Ha & Hres).
  destruct res as [n|e].
  - destruct Hres as [-> ->]. exists f', d', cs'. split; [exact E|]. split; [exact Hr|].
    injection Ha as Hc _. rewrite Hc. vm_compute. reflexivity.
  - exfalso. revert E. vm_compute. intros E. discriminate E.
Defined.

Lemma fat_file_roundtrip_witness :
  ∃ f1 d1 f2, FatFile.write [9; 10; 11] (Small.file_of 6, Small.device) = Ret ((f1, d1), Ok 3) ∧
    FatFile.seek 0 (f1, d1) = Ret ((f2, d1), Ok 0).
Proof.
  destruct (FatFile.write [9; 10; 11] (Small.file_of 6, Small.device)) as [[[f1 d1] [n|e]]|] eqn:E.
  - destruct (fat_file_roundtrip 4 [9; 10; 11] [0; 0; 0] [2; 4] (Small.file_of 6) Small.device f1 d1 n
      (Small.file_repr 6 ltac:(lia)) eq_refl E) as (f2 & E2 & _).
    exists f1, d1, f2. split; [|exact E2]. rewrite <- E. vm_compute in E |- *. congruence.
  - exfalso. revert E. vm_compute. intros E. discriminate E.
  - exfalso. revert E. vm_compute. intros E. discriminate E.
Defined.

(** A file of eight bytes fills its two clusters. Appending to it after a seek to its end overwrites
    its second cluster, and the new byte is not where the file has its ninth byte. *)
Lemma append_overwrites :
  match FatFile.seek 8 (Small.file_of 8, Small.device) with
  | Ret (s, Ok p) => p = 8 ∧
      match FatFile.write [9] s with
      | Ret ((f, d), Ok n) => n = 1 ∧ FatFile.size f = 9 ∧
          content 4 [2; 4] f d = [1; 2; 3; 4; 9; 6; 7; 8] ∧ FatTable.get (FatFile.fat f) 4 = Ret (Ok EndOfChain)
      | _ => False
      end
  | _ => False
  end.
Proof. vm_compute. repeat split. Qed.

(** [truncate] moves the position forward to the new end of the file. *)
Lemma truncate_moves :
  match FatFile.truncate 5 (Small.file_of 6, Small.device) with
  | Ret ((f, _), Ok _) => FatFile.position (Small.file_of 6) = 0 ∧ FatFile.position f = 5
  | _ => False
  end.
Proof. vm_compute. repeat split. Qed.
