(* ===== verification/FatDate.v ===== *)
(** * Dates and times of FAT directory entries

    [kernel/foundry/storage/src/fs/fat/date.rs]: dates and times, and their
    packed encodings in 16 bits (and 8 bits for the part of a time below two
    seconds). *)

From S2P Require Import Prelude Addrs.

Definition u8_try_from (x : Z) : option Z := if x <? 2 ^ 8 then Some x else None.

Record Date := mkDate { year : Z; month : Z; day : Z }.

(** A [DosDate] is its 16-bit number. *)
Module DosDate.

Definition BASE : Z := 33.
Definition new (dos_date : Z) : Z := dos_date.

End DosDate.

Module Date.

Definition MIN_YEAR : Z := 1980.
Definition MAX_YEAR : Z := 2107.

Definition new (year month day : Z) : out Date :=
  assert_ ((MIN_YEAR <=? year) && (year <=? MAX_YEAR));;
  assert_ ((1 <=? month) && (month <=? 12));;
  assert_ ((1 <=? day) && (day <=? 31));;
  mret (mkDate year month day).

Definition decode (dos_date : Z) : out Date :=
  year ← add_w 16 (Z.shiftr dos_date 9) MIN_YEAR;
  month ← unwrap (u8_try_from (Z.land (Z.shiftr dos_date 5) 0xF));
  day ← unwrap (u8_try_from (Z.land dos_date 0x1F));
  mret (mkDate year month day).

Definition encode (self : Date) : out Z :=
  y ← sub_w (year self) MIN_YEAR;
  mret (DosDate.new (Z.lor (Z.lor (shl_w 16 y 9) (shl_w 16 (month self) 5)) (day self))).

End Date.

Record Time := mkTime { hour : Z; min : Z; sec : Z; ms : Z }.

Record DosTime := mkDosTime { dos_time_hi_res : Z; dos_time : Z }.

Module DosTime.

Definition BASE : DosTime := mkDosTime 0 0.
Definition new (dos_time dos_time_hi_res : Z) : DosTime := mkDosTime dos_time_hi_res dos_time.

End DosTime.

Module Time.

Definition new (hour min sec ms : Z) : out Time :=
  assert_ ((hour <=? 23) && (min <=? 59) && (sec <=? 59) && (ms <=? 999));;
  mret (mkTime hour min sec ms).

Definition decode (t : DosTime) : out Time :=
  hour ← unwrap (u8_try_from (Z.shiftr (dos_time t) 11));
  min ← unwrap (u8_try_from (Z.land (Z.shiftr (dos_time t) 5) 0x3F));
  s ← mul_w 16 (Z.land (dos_time t) 0x1F) 2;
  s ← add_w 16 s (dos_time_hi_res t / 100);
  sec ← unwrap (u8_try_from s);
  ms ← mul_w 16 (dos_time_hi_res t mod 100) 10;
  mret (mkTime hour min sec ms).

Definition encode (self : Time) : out DosTime :=
  let dos_time :=
    Z.lor (Z.lor (shl_w 16 (hour self) 11) (shl_w 16 (min self) 5)) (sec self / 2) in
  centi ← unwrap (u8_try_from (ms self / 10));
  odd ← mul_w 8 (sec self mod 2) 100;
  dos_time_hi_res ← add_w 8 centi odd;
  mret (DosTime.new dos_time dos_time_hi_res).

End Time.

Record DateTime := mkDateTime { date : Date; time : Time }.

Record DosDateTime := mkDosDateTime { ddt_date : Z; ddt_time : DosTime }.

Module DateTime.

Definition new (date : Date) (time : Time) : DateTime := mkDateTime date time.

Definition decode (dos_datetime : DosDateTime) : out DateTime :=
  date ← Date.decode (ddt_date dos_datetime);
  time ← Time.decode (ddt_time dos_datetime);
  mret (new date time).

Definition encode (self : DateTime) : out DosDateTime :=
  dos_date ← Date.encode (date self);
  dos_time ← Time.encode (time self);
  mret (mkDosDateTime dos_date dos_time).

End DateTime.

(** A provider of the current date and time. *)
Class TimeProvider := {
  get_current_date : out Date;
  get_current_time : out Time;
}.

Definition get_current_date_time `{TimeProvider} : out DateTime :=
  date ← get_current_date; time ← get_current_time; mret (DateTime.new date time).

Global Instance DosMinTimeProvider : TimeProvider := {
  get_current_date := Date.new 1980 1 1;
  get_current_time := Time.new 0 0 0 0;
}.

(** ** Ranges *)

Definition date_ok (d : Date) : Prop :=
  Date.MIN_YEAR ≤ year d ≤ Date.MAX_YEAR ∧ 1 ≤ month d ≤ 12 ∧ 1 ≤ day d ≤ 31.
Definition time_ok (t : Time) : Prop :=
  0 ≤ hour t ≤ 23 ∧ 0 ≤ min t ≤ 59 ∧ 0 ≤ sec t ≤ 59 ∧ 0 ≤ ms t ≤ 999.

(** The packed numbers. *)
Definition pack_date (d : Date) : Z := (year d - 1980) * 2 ^ 9 + month d * 2 ^ 5 + day d.
Definition pack_time (t : Time) : Z := hour t * 2 ^ 11 + min t * 2 ^ 5 + sec t / 2.

Lemma lor_pack a b c i j :
  0 ≤ j ≤ i → i ≤ 16 → 0 ≤ a < 2 ^ (16 - i) → 0 ≤ b < 2 ^ (i - j) → 0 ≤ c < 2 ^ j →
  Z.lor (Z.lor (shl_w 16 a i) (shl_w 16 b j)) c = a * 2 ^ i + b * 2 ^ j + c.
Proof.
  intros Hij Hi Ha Hb Hc. unfold shl_w. rewrite !Z.shiftl_mul_pow2 by lia.
  assert (2 ^ 16 = 2 ^ (16 - i) * 2 ^ i) as E1 by (rewrite <- Z.pow_add_r by lia; f_equal; lia).
  assert (2 ^ i = 2 ^ (i - j) * 2 ^ j) as E2 by (rewrite <- Z.pow_add_r by lia; f_equal; lia).
  pose proof (pow2_pos i ltac:(lia)). pose proof (pow2_pos j ltac:(lia)).
  assert (0 ≤ a * 2 ^ i < 2 ^ 16) by (rewrite E1; split; [apply Z.mul_nonneg_nonneg | apply Z.mul_lt_mono_pos_r]; lia).
  assert (0 ≤ b * 2 ^ j < 2 ^ i) by (rewrite E2; split; [apply Z.mul_nonneg_nonneg | apply Z.mul_lt_mono_pos_r]; lia).
  pose proof (pow2_le i 16 ltac:(lia)). rewrite !Z.mod_small by lia.
  rewrite (lor_low i (a * 2 ^ i)) by (try apply mul_pow2_mod_0; lia).
  rewrite (lor_low j); [done | lia | | done].
  rewrite Z.add_mod, !mul_pow2_mod_0 by lia. done.
Qed.

Local Ltac Zify.zify_post_hook ::= Z.div_mod_to_equations.

Lemma u8_ok x : x < 2 ^ 8 → unwrap (u8_try_from x) = Ret x.
Proof. intros H. unfold u8_try_from. by rewrite (proj2 (Z.ltb_lt _ _)). Qed.

Lemma land_field k x m : 0 ≤ k → m = 2 ^ k - 1 → Z.land x m = x mod 2 ^ k.
Proof. intros Hk ->. by apply land_mask. Qed.

Lemma date_encode d : date_ok d → Date.encode d = Ret (pack_date d) ∧ is_uint 16 (pack_date d).
Proof.
  intros (Hy & Hm & Hd). unfold Date.MIN_YEAR, Date.MAX_YEAR in *.
  unfold Date.encode, DosDate.new, Date.MIN_YEAR. rewrite sub_w_ok by lia. cbn [mbind out_bind].
  rewrite lor_pack by (cbn; lia). split; [done|]. unfold is_uint, pack_date. lia.
Qed.

Lemma date_decode x :
  is_uint 16 x →
  Date.decode x = Ret (mkDate (x / 2 ^ 9 + 1980) (x / 2 ^ 5 mod 2 ^ 4) (x mod 2 ^ 5)).
Proof.
  intros Hx. unfold is_uint in Hx. unfold Date.decode, Date.MIN_YEAR.
  rewrite !Z.shiftr_div_pow2, (land_field 4 _ 0xF), (land_field 5 _ 0x1F) by lia.
  rewrite add_w_ok by lia. cbn [mbind out_bind].
  rewrite u8_ok by lia. cbn [mbind out_bind]. by rewrite u8_ok by lia.
Qed.

Lemma time_encode t :
  time_ok t →
  Time.encode t = Ret (mkDosTime (ms t / 10 + sec t mod 2 * 100) (pack_time t)) ∧
  is_uint 16 (pack_time t) ∧ is_uint 8 (ms t / 10 + sec t mod 2 * 100).
Proof.
  intros (Hh & Hm & Hs & Hms). unfold Time.encode, DosTime.new.
  rewrite lor_pack by (cbn; lia). rewrite u8_ok by lia. cbn [mbind out_bind].
  rewrite mul_w_ok by lia. cbn [mbind out_bind]. rewrite add_w_ok by lia. cbn [mbind out_bind].
  split; [done|]. unfold is_uint, pack_time. lia.
Qed.

Lemma time_decode t :
  is_uint 16 (dos_time t) → is_uint 8 (dos_time_hi_res t) →
  Time.decode t = Ret (mkTime (dos_time t / 2 ^ 11) (dos_time t / 2 ^ 5 mod 2 ^ 6)
    (dos_time t mod 2 ^ 5 * 2 + dos_time_hi_res t / 100) (dos_time_hi_res t mod 100 * 10)).
Proof.
  unfold is_uint. intros Ht Hr. unfold Time.decode.
  rewrite !Z.shiftr_div_pow2, (land_field 6 _ 0x3F), (land_field 5 _ 0x1F) by lia.
  rewrite !u8_ok by lia. cbn [mbind out_bind].
  rewrite (mul_w_ok 16 (dos_time t mod 2 ^ 5)) by lia. cbn [mbind out_bind]. rewrite add_w_ok by lia. cbn [mbind out_bind].
  rewrite u8_ok by lia. cbn [mbind out_bind]. by rewrite mul_w_ok by lia.
Qed.

Lemma datetime_ok dt :
  date_ok (date dt) → time_ok (time dt) →
  ∃ e, DateTime.encode dt = Ret e ∧
    DateTime.decode e =
      Ret (mkDateTime (date dt)
             (mkTime (hour (time dt)) (min (time dt)) (sec (time dt))
                     (ms (time dt) - ms (time dt) mod 10))).
Proof.
  destruct dt as [[y mo d] [h mi s m]]. cbn [date time year month day hour min sec ms].
  intros Hd Ht. destruct (date_encode _ Hd) as [Ed Rd]. destruct (time_encode _ Ht) as (Et & Rt & Rh).
  unfold DateTime.encode, DateTime.decode. cbn [date time]. rewrite Ed, Et. cbn [mbind out_bind].
  eexists. split; [done|]. cbn [ddt_date ddt_time].
  rewrite date_decode, time_decode by done. cbn [mbind out_bind mret out_ret DateTime.new].
  unfold date_ok, time_ok, pack_date, pack_time, Date.MIN_YEAR, Date.MAX_YEAR, DateTime.new in *.
  cbn [year month day hour min sec ms dos_time dos_time_hi_res] in *.
  do 3 f_equal; lia.
Qed.

(** ** Properties *)

(** A date and time in range survive being stored: [encode] succeeds and
    [decode] gives them back, with the milliseconds rounded down to a multiple of
    ten. *)
Theorem datetime_roundtrip dt :
  date_ok (date dt) → time_ok (time dt) →
  ∃ e, DateTime.encode dt = Ret e ∧
    DateTime.decode e =
      Ret (mkDateTime (date dt)
             (mkTime (hour (time dt)) (min (time dt)) (sec (time dt))
                     (ms (time dt) - ms (time dt) mod 10))).
Proof. apply datetime_ok. Qed.

Lemma datetime_roundtrip_witness :
  ∃ e, DateTime.encode (mkDateTime (mkDate 1999 12 31) (mkTime 23 59 59 995)) = Ret e ∧
    DateTime.decode e = Ret (mkDateTime (mkDate 1999 12 31) (mkTime 23 59 59 (995 - 995 mod 10))).
Proof.
  apply (datetime_roundtrip (mkDateTime (mkDate 1999 12 31) (mkTime 23 59 59 995)));
    vm_compute; intuition congruence.
Defined.

(** The packed dates are ordered as the dates are. *)
Lemma pack_date_order d1 d2 :
  date_ok d1 → date_ok d2 →
  pack_date d1 < pack_date d2 ↔
    year d1 < year d2 ∨ year d1 = year d2 ∧
      (month d1 < month d2 ∨ month d1 = month d2 ∧ day d1 < day d2).
Proof. unfold date_ok, pack_date. lia. Qed.

(** Every 16-bit number is the packed form of what [decode] reads. *)
Lemma date_encode_decode x : is_uint 16 x → (Date.decode x ≫= Date.encode) = Ret x.
Proof.
  intros Hx. rewrite date_decode by done. cbn [mbind out_bind].
  unfold is_uint in Hx. unfold Date.encode, DosDate.new, Date.MIN_YEAR. cbn [year month day].
  rewrite sub_w_ok by lia. cbn [mbind out_bind]. rewrite lor_pack by (cbn; lia).
  unfold mret, out_ret. f_equal. lia.
Qed.

(** [decode] does not check what it reads: month 0 and second 64 come out of it,
    which [new] rejects. *)
Lemma decode_unchecked :
  Date.decode 0 = Ret (mkDate 1980 0 0) ∧ Date.new 1980 0 0 = Panic ∧
  Time.decode (mkDosTime 255 0xFFFF) = Ret (mkTime 31 63 64 550) ∧ Time.new 31 63 64 550 = Panic.
Proof. done. Qed.

Lemma min_time_provider :
  ∃ dt, get_current_date_time = Ret dt ∧ date_ok (date dt) ∧ time_ok (time dt) ∧
    DateTime.encode dt = Ret (mkDosDateTime DosDate.BASE DosTime.BASE).
Proof. eexists. split; [reflexivity|]. vm_compute. intuition congruence. Qed.
