(* ===== verification/Dirent.v ===== *)
(** * Directory entries of FAT

    [kernel/foundry/storage/src/fs/fat/dirent.rs]: attributes, the short entry
    with its dates and its first cluster, the long-name entry, and the checksum
    that ties long-name entries to their short entry. *)

From S2P Require Import Prelude Addrs FatTable FatDate.

Definition DIR_ENTRY_SIZE : Z := 32.

(** An [Attributes] is its byte. *)
Module Attributes.

Definition READ_ONLY : Z := 0x01.
Definition HIDDEN : Z := 0x02.
Definition SYSTEM : Z := 0x04.
Definition VOLUME_ID : Z := 0x08.
Definition DIRECTORY : Z := 0x10.
Definition ARCHIVE : Z := 0x20.
Definition LONG_NAME : Z := Z.lor (Z.lor (Z.lor READ_ONLY HIDDEN) SYSTEM) VOLUME_ID.
Definition LONG_NAME_MASK : Z :=
  Z.lor (Z.lor (Z.lor (Z.lor (Z.lor READ_ONLY HIDDEN) SYSTEM) VOLUME_ID) DIRECTORY) ARCHIVE.

Definition new (attributes : Z) : Z := attributes.
Definition is_read_only (self : Z) : bool := negb (Z.land self READ_ONLY =? 0).
Definition is_hidden (self : Z) : bool := negb (Z.land self HIDDEN =? 0).
Definition is_system (self : Z) : bool := negb (Z.land self SYSTEM =? 0).
Definition is_volume_id (self : Z) : bool := negb (Z.land self VOLUME_ID =? 0).
Definition is_directory (self : Z) : bool := negb (Z.land self DIRECTORY =? 0).
Definition is_archive (self : Z) : bool := negb (Z.land self ARCHIVE =? 0).
Definition is_long_name (self : Z) : bool := Z.land self LONG_NAME_MASK =? LONG_NAME.

End Attributes.

Record DirEntry := mkDirEntry {
  name : list Z;
  ext : list Z;
  attr : Z;
  nt_res : Z;
  creation_time : DosTime;
  creation_date : Z;
  last_access_date_ : Z;
  first_cluster_high : Z;
  write_time : Z;
  write_date : Z;
  first_cluster_low : Z;
  file_size : Z;
}.

Module DirEntry.

Definition DELETED_ENTRY : Z := 0xE5.
Definition END_OF_ENTRIES : Z := 0x00.
Definition DOT_ENTRY : list Z := 0x2E :: replicate 10 0x20.
Definition DOTDOT_ENTRY : list Z := 0x2E :: 0x2E :: replicate 9 0x20.

Definition new : DirEntry :=
  mkDirEntry (replicate 8 0) (replicate 3 0) 0 0 DosTime.BASE DosDate.BASE DosDate.BASE
    0 0 DosDate.BASE 0 0.

(** [self.name[0]] *)
Definition first_byte (self : DirEntry) : out Z := byte_at (name self) 0.

Definition is_free (self : DirEntry) : out bool :=
  b ← first_byte self; mret (b =? END_OF_ENTRIES).
Definition is_deleted (self : DirEntry) : out bool :=
  b ← first_byte self; mret (b =? DELETED_ENTRY).
Definition is_valid (self : DirEntry) : out bool :=
  free ← is_free self;
  deleted ← is_deleted self;
  mret (negb free && negb deleted).

Definition is_directory (self : DirEntry) : bool :=
  Attributes.is_directory (Attributes.new (attr self)).
Definition is_volume_id (self : DirEntry) : bool :=
  Attributes.is_volume_id (Attributes.new (attr self)).
Definition is_file (self : DirEntry) : out bool :=
  valid ← is_valid self;
  mret (valid && negb (is_directory self) && negb (is_volume_id self)).
Definition is_long_name (self : DirEntry) : bool :=
  Attributes.is_long_name (Attributes.new (attr self)).
Definition attributes (self : DirEntry) : Z := Attributes.new (attr self).

Definition set_attributes (self : DirEntry) (attributes : Z) : DirEntry :=
  mkDirEntry (name self) (ext self) attributes (nt_res self) (creation_time self)
    (creation_date self) (last_access_date_ self) (first_cluster_high self) (write_time self)
    (write_date self) (first_cluster_low self) (file_size self).

Definition set_name (self : DirEntry) (name : list Z) : DirEntry :=
  mkDirEntry name (ext self) (attr self) (nt_res self) (creation_time self)
    (creation_date self) (last_access_date_ self) (first_cluster_high self) (write_time self)
    (write_date self) (first_cluster_low self) (file_size self).

Definition set_extension (self : DirEntry) (ext : list Z) : DirEntry :=
  mkDirEntry (name self) ext (attr self) (nt_res self) (creation_time self)
    (creation_date self) (last_access_date_ self) (first_cluster_high self) (write_time self)
    (write_date self) (first_cluster_low self) (file_size self).

Definition filename_raw (self : DirEntry) : list Z := name self ++ ext self.

Definition first_cluster (self : DirEntry) (fat_type : FatType) : Z :=
  let low := first_cluster_low self in
  let high := match fat_type with Fat32 => shl_w 32 (first_cluster_high self) 16 | _ => 0 end in
  Z.lor low high.

Definition set_first_cluster (self : DirEntry) (cluster : Z) (fat_type : FatType) : DirEntry :=
  let low := Z.land cluster 0xFFFF in
  let high :=
    match fat_type with
    | Fat32 => Z.land (Z.shiftr cluster 16) 0xFFFF
    | _ => first_cluster_high self
    end in
  mkDirEntry (name self) (ext self) (attr self) (nt_res self) (creation_time self)
    (creation_date self) (last_access_date_ self) high (write_time self)
    (write_date self) low (file_size self).

Definition set_file_size (self : DirEntry) (size : Z) : DirEntry :=
  mkDirEntry (name self) (ext self) (attr self) (nt_res self) (creation_time self)
    (creation_date self) (last_access_date_ self) (first_cluster_high self) (write_time self)
    (write_date self) (first_cluster_low self) size.

Definition creation_datetime (self : DirEntry) : out DateTime :=
  DateTime.decode (mkDosDateTime (creation_date self) (creation_time self)).

Definition set_creation_datetime (self : DirEntry) (datetime : DateTime) : out DirEntry :=
  dos_datetime ← DateTime.encode datetime;
  mret (mkDirEntry (name self) (ext self) (attr self) (nt_res self) (ddt_time dos_datetime)
    (ddt_date dos_datetime) (last_access_date_ self) (first_cluster_high self) (write_time self)
    (write_date self) (first_cluster_low self) (file_size self)).

Definition last_access_date (self : DirEntry) : out Date := Date.decode (last_access_date_ self).

Definition set_last_access_date (self : DirEntry) (date : Date) : out DirEntry :=
  d ← Date.encode date;
  mret (mkDirEntry (name self) (ext self) (attr self) (nt_res self) (creation_time self)
    (creation_date self) d (first_cluster_high self) (write_time self)
    (write_date self) (first_cluster_low self) (file_size self)).

Definition last_write_datetime (self : DirEntry) : out DateTime :=
  DateTime.decode (mkDosDateTime (write_date self) (DosTime.new (write_time self) 0)).

Definition set_last_write_datetime (self : DirEntry) (datetime : DateTime) : out DirEntry :=
  d ← Date.encode (date datetime);
  t ← Time.encode (time datetime);
  mret (mkDirEntry (name self) (ext self) (attr self) (nt_res self) (creation_time self)
    (creation_date self) (last_access_date_ self) (first_cluster_high self) (dos_time t)
    d (first_cluster_low self) (file_size self)).

End DirEntry.

Record LongNameEntry := mkLongName {
  seq_num_ : Z;
  name1 : list Z;
  lattr : Z;
  entry_type : Z;
  checksum : Z;
  name2 : list Z;
  lfirst_cluster : Z;
  name3 : list Z;
}.

Module LongNameEntry.

Definition LAST_ENTRY : Z := 0x40.
Definition CHARS_PER_ENTRY : Z := 13.

Definition new (seq_num checksum : Z) (is_last : bool) : LongNameEntry :=
  let seq := if is_last then Z.lor seq_num LAST_ENTRY else seq_num in
  mkLongName seq (replicate 10 0) Attributes.LONG_NAME 0 checksum (replicate 12 0) 0
    (replicate 4 0).

Definition is_last (self : LongNameEntry) : bool := negb (Z.land (seq_num_ self) LAST_ENTRY =? 0).
Definition seq_num (self : LongNameEntry) : Z := Z.land (seq_num_ self) (not_w 8 LAST_ENTRY).

(** [arr[idx * 2] = bytes[0]; arr[idx * 2 + 1] = bytes[1]] *)
Definition set_pair (arr : list Z) (idx ch : Z) : out (list Z) :=
  arr ← set_byte arr (idx * 2) (ch mod 2 ^ 8);
  set_byte arr (idx * 2 + 1) (ch / 2 ^ 8).

Definition set_name (self : LongNameEntry) (idx ch : Z) : out (LongNameEntry * result unit FatError) :=
  if CHARS_PER_ENTRY <=? idx then mret (self, Err InvalidParameter)
  else if idx <? 5 then
    n ← set_pair (name1 self) idx ch;
    mret (mkLongName (seq_num_ self) n (lattr self) (entry_type self) (checksum self)
            (name2 self) (lfirst_cluster self) (name3 self), Ok tt)
  else if idx <? 11 then
    n ← set_pair (name2 self) (idx - 5) ch;
    mret (mkLongName (seq_num_ self) (name1 self) (lattr self) (entry_type self) (checksum self)
            n (lfirst_cluster self) (name3 self), Ok tt)
  else
    n ← set_pair (name3 self) (idx - 11) ch;
    mret (mkLongName (seq_num_ self) (name1 self) (lattr self) (entry_type self) (checksum self)
            (name2 self) (lfirst_cluster self) n, Ok tt).

(** [u16::from_le_bytes([arr[idx * 2], arr[idx * 2 + 1]])] *)
Definition get_pair (arr : list Z) (idx : Z) : out Z :=
  b0 ← byte_at arr (idx * 2);
  b1 ← byte_at arr (idx * 2 + 1);
  mret (u16_le b0 b1).

Definition get_name (self : LongNameEntry) (idx : Z) : out (result Z FatError) :=
  if CHARS_PER_ENTRY <=? idx then mret (Err InvalidParameter)
  else
    ch ← (if idx <? 5 then get_pair (name1 self) idx
          else if idx <? 11 then get_pair (name2 self) (idx - 5)
          else get_pair (name3 self) (idx - 11));
    mret (Ok ch).

End LongNameEntry.

(** One turn of the loop of [calc_short_name_checksum]. *)
Definition checksum_step (sum b : Z) : Z :=
  wrapping_add 8 (wrapping_add 8 (shl_w 8 (Z.land sum 1) 7) (Z.shiftr sum 1)) b.

Definition calc_short_name_checksum (name : list Z) : Z := foldl checksum_step 0 name.

(** ** Well-formed entries *)

Definition dirent_ok (e : DirEntry) : Prop :=
  length (name e) = 8%nat ∧ length (ext e) = 3%nat ∧
  is_uint 16 (first_cluster_low e) ∧ is_uint 16 (first_cluster_high e).

Definition lfn_ok (e : LongNameEntry) : Prop :=
  length (name1 e) = 10%nat ∧ length (name2 e) = 12%nat ∧ length (name3 e) = 4%nat.

Local Ltac Zify.zify_post_hook ::= Z.div_mod_to_equations.

(** Two bytes of an array hold a character. *)
Lemma get_pair_eq arr idx :
  0 ≤ idx → idx * 2 + 1 < Z.of_nat (length arr) →
  LongNameEntry.get_pair arr idx = Ret (u16_le (byte arr (idx * 2)) (byte arr (idx * 2 + 1))).
Proof. intros H1 H2. unfold LongNameEntry.get_pair. by rewrite !byte_at_eq by lia. Qed.

Lemma set_pair_ok arr idx ch :
  0 ≤ idx → idx * 2 + 1 < Z.of_nat (length arr) → is_uint 16 ch →
  ∃ arr', LongNameEntry.set_pair arr idx ch = Ret arr' ∧ length arr' = length arr ∧
    LongNameEntry.get_pair arr' idx = Ret ch ∧
    ∀ j, 0 ≤ j → j ≠ idx → j * 2 + 1 < Z.of_nat (length arr) →
      LongNameEntry.get_pair arr' j = LongNameEntry.get_pair arr j.
Proof.
  intros H1 H2 Hc. unfold is_uint in Hc. unfold LongNameEntry.set_pair.
  rewrite set_byte_eq by lia. cbn [mbind out_bind].
  rewrite set_byte_eq by (rewrite length_insert; lia).
  eexists. split; [done|]. rewrite !length_insert. split; [done|]. split.
  - rewrite get_pair_eq by (rewrite ?length_insert; lia).
    rewrite !byte_insert by (rewrite ?length_insert; lia).
    rewrite !Z.eqb_refl, (proj2 (Z.eqb_neq _ _)) by lia. unfold u16_le. f_equal. lia.
  - intros j Hj Hne Hl. rewrite !get_pair_eq by (rewrite ?length_insert; lia).
    rewrite !byte_insert by (rewrite ?length_insert; lia).
    by rewrite !(proj2 (Z.eqb_neq _ _)) by lia.
Qed.

(** The character at an index below 13. *)
Definition char_at (e : LongNameEntry) (idx : Z) : out Z :=
  if idx <? 5 then LongNameEntry.get_pair (name1 e) idx
  else if idx <? 11 then LongNameEntry.get_pair (name2 e) (idx - 5)
  else LongNameEntry.get_pair (name3 e) (idx - 11).

Lemma get_name_eq e idx :
  LongNameEntry.get_name e idx =
    if LongNameEntry.CHARS_PER_ENTRY <=? idx then Ret (Err InvalidParameter)
    else ch ← char_at e idx; Ret (Ok ch).
Proof. done. Qed.

Lemma set_name_ok e idx ch :
  lfn_ok e → 0 ≤ idx < LongNameEntry.CHARS_PER_ENTRY → is_uint 16 ch →
  ∃ e', LongNameEntry.set_name e idx ch = Ret (e', Ok tt) ∧ lfn_ok e' ∧ char_at e' idx = Ret ch ∧
    ∀ j, 0 ≤ j < LongNameEntry.CHARS_PER_ENTRY → j ≠ idx → char_at e' j = char_at e j.
Proof.
  intros (L1 & L2 & L3) Hi Hc. unfold LongNameEntry.set_name.
  rewrite (proj2 (Z.leb_gt _ _)) by lia. unfold LongNameEntry.CHARS_PER_ENTRY, char_at in *.
  destruct (Z.ltb_spec idx 5) as [H5|H5]; [|destruct (Z.ltb_spec idx 11) as [H11|H11]].
  - destruct (set_pair_ok (name1 e) idx ch) as (n & -> & Hl & Hg & Hj); [lia | lia | done |].
    eexists. split; [done|]. split_and!; [unfold lfn_ok; cbn; split_and!; congruence | done |].
    intros j Hj0 Hne. cbn [name1 name2 name3]. destruct (Z.ltb_spec j 5); [apply Hj; lia | done].
  - destruct (set_pair_ok (name2 e) (idx - 5) ch) as (n & -> & Hl & Hg & Hj); [lia | lia | done |].
    eexists. split; [done|]. split_and!; [unfold lfn_ok; cbn; split_and!; congruence | done |].
    intros j Hj0 Hne. cbn [name1 name2 name3].
    destruct (Z.ltb_spec j 5), (Z.ltb_spec j 11); try done. apply Hj; lia.
  - destruct (set_pair_ok (name3 e) (idx - 11) ch) as (n & -> & Hl & Hg & Hj); [lia | lia | done |].
    eexists. split; [done|]. split_and!; [unfold lfn_ok; cbn; split_and!; congruence | done |].
    intros j Hj0 Hne. cbn [name1 name2 name3].
    destruct (Z.ltb_spec j 5), (Z.ltb_spec j 11); try done. apply Hj; lia.
Qed.

(** One byte of the name is mixed in by a bijection of the sum. *)
Lemma checksum_step_eq sum b :
  is_uint 8 sum → checksum_step sum b = (sum mod 2 * 2 ^ 7 + sum / 2 + b) mod 2 ^ 8.
Proof.
  unfold is_uint. intros Hs. unfold checksum_step, wrapping_add, shl_w.
  rewrite (land_low 1), Z.shiftl_mul_pow2, Z.shiftr_div_pow2 by lia.
  change (2 ^ 1) with 2. rewrite (Z.mod_small (sum mod 2 * 2 ^ 7)) by lia.
  by rewrite (Z.mod_small (sum mod 2 * 2 ^ 7 + sum / 2)) by lia.
Qed.

Lemma checksum_step_u8 sum b : is_uint 8 sum → is_uint 8 (checksum_step sum b).
Proof. intros Hs. rewrite checksum_step_eq by done. unfold is_uint. lia. Qed.

Lemma checksum_step_inj_sum s1 s2 b :
  is_uint 8 s1 → is_uint 8 s2 → checksum_step s1 b = checksum_step s2 b → s1 = s2.
Proof. intros H1 H2. rewrite !checksum_step_eq by done. unfold is_uint in *. lia. Qed.

Lemma checksum_step_inj_byte s b1 b2 :
  is_uint 8 s → is_uint 8 b1 → is_uint 8 b2 → checksum_step s b1 = checksum_step s b2 → b1 = b2.
Proof. intros H1 H2 H3. rewrite !checksum_step_eq by done. unfold is_uint in *. lia. Qed.

Lemma checksum_fold_u8 l s : is_uint 8 s → is_uint 8 (foldl checksum_step s l).
Proof. revert s. induction l as [|b l IH]; intros s Hs; cbn; [done|]. by apply IH, checksum_step_u8. Qed.

Lemma checksum_fold_inj l s1 s2 :
  is_uint 8 s1 → is_uint 8 s2 → foldl checksum_step s1 l = foldl checksum_step s2 l → s1 = s2.
Proof.
  revert s1 s2. induction l as [|b l IH]; intros s1 s2 H1 H2 E; cbn in *; [done|].
  apply (checksum_step_inj_sum _ _ b); [done..|]. by apply IH; [apply checksum_step_u8..|].
Qed.

(** ** Properties *)

(** The checksum that ties long-name entries to a short entry is a byte and
    detects every change of a single byte of the short name. *)
Theorem checksum_detects l1 b b' l2 :
  is_uint 8 b → is_uint 8 b' → b ≠ b' →
  is_uint 8 (calc_short_name_checksum (l1 ++ b :: l2)) ∧
  calc_short_name_checksum (l1 ++ b :: l2) ≠ calc_short_name_checksum (l1 ++ b' :: l2).
Proof.
  intros Hb Hb' Hne. unfold calc_short_name_checksum. rewrite !foldl_app. cbn [foldl].
  assert (is_uint 8 (foldl checksum_step 0 l1)) as H1 by by apply checksum_fold_u8.
  split; [by apply checksum_fold_u8, checksum_step_u8|].
  intros E%checksum_fold_inj; [|by apply checksum_step_u8..].
  by apply Hne, (checksum_step_inj_byte (foldl checksum_step 0 l1)).
Qed.

Lemma checksum_detects_witness :
  is_uint 8 (calc_short_name_checksum ([84; 69; 83] ++ 84 :: [32; 32; 32; 32; 84; 88; 84])) ∧
  calc_short_name_checksum ([84; 69; 83] ++ 84 :: [32; 32; 32; 32; 84; 88; 84]) ≠
  calc_short_name_checksum ([84; 69; 83] ++ 49 :: [32; 32; 32; 32; 84; 88; 84]).
Proof.
  apply (checksum_detects [84; 69; 83] 84 49 [32; 32; 32; 32; 84; 88; 84]).
  - unfold is_uint. lia.
  - unfold is_uint. lia.
  - lia.
Defined.

(** The 13 characters of a long-name entry: [set_name] and [get_name] reject
    the indices from 13 on; below, a character set is read back, the other
    twelve are unchanged, and nothing panics. *)
Theorem long_name_set_get e idx ch :
  lfn_ok e → 0 ≤ idx → is_uint 16 ch →
  if LongNameEntry.CHARS_PER_ENTRY <=? idx
  then LongNameEntry.set_name e idx ch = Ret (e, Err InvalidParameter) ∧
       LongNameEntry.get_name e idx = Ret (Err InvalidParameter)
  else ∃ e', LongNameEntry.set_name e idx ch = Ret (e', Ok tt) ∧ lfn_ok e' ∧
         LongNameEntry.get_name e' idx = Ret (Ok ch) ∧
         ∀ j, 0 ≤ j → j ≠ idx → LongNameEntry.get_name e' j = LongNameEntry.get_name e j.
Proof.
  intros Hok Hi Hc. destruct (Z.leb_spec LongNameEntry.CHARS_PER_ENTRY idx) as [H|H].
  { unfold LongNameEntry.set_name, LongNameEntry.get_name. by rewrite (proj2 (Z.leb_le _ _)). }
  destruct (set_name_ok e idx ch) as (e' & Hs & Hok' & Hg & Hj); [done | done | done |].
  exists e'. split_and!; [done | done | |].
  - rewrite get_name_eq, (proj2 (Z.leb_gt _ _)), Hg by done. done.
  - intros j Hj0 Hne. rewrite !get_name_eq.
    destruct (Z.leb_spec LongNameEntry.CHARS_PER_ENTRY j); [done|]. by rewrite Hj.
Qed.

Lemma long_name_set_get_witness :
  ∃ e', LongNameEntry.set_name (LongNameEntry.new 1 0x12 true) 7 0xE9 = Ret (e', Ok tt) ∧ lfn_ok e' ∧
    LongNameEntry.get_name e' 7 = Ret (Ok 0xE9) ∧
    ∀ j, 0 ≤ j → j ≠ 7 →
      LongNameEntry.get_name e' j = LongNameEntry.get_name (LongNameEntry.new 1 0x12 true) j.
Proof.
  apply (long_name_set_get (LongNameEntry.new 1 0x12 true) 7 0xE9).
  - repeat split.
  - lia.
  - unfold is_uint. lia.
Defined.

(** The first cluster of an entry: FAT32 keeps all 32 bits of the number that
    was set, FAT12 and FAT16 its low 16 bits (all of a valid cluster number), and
    no other field changes. *)
Theorem first_cluster_roundtrip e c ty :
  dirent_ok e → is_uint 32 c →
  let e' := DirEntry.set_first_cluster e c ty in
  dirent_ok e' ∧
  DirEntry.first_cluster e' ty = (match ty with Fat32 => c | _ => c mod 2 ^ 16 end) ∧
  (Cluster.is_valid c ty = true → DirEntry.first_cluster e' ty = c) ∧
  DirEntry.filename_raw e' = DirEntry.filename_raw e ∧ file_size e' = file_size e ∧
  attr e' = attr e ∧ DirEntry.creation_datetime e' = DirEntry.creation_datetime e ∧
  DirEntry.last_write_datetime e' = DirEntry.last_write_datetime e.
Proof.
  intros (L1 & L2 & Hl & Hh) Hc e'. unfold is_uint in *.
  assert (DirEntry.first_cluster e' ty = (match ty with Fat32 => c | _ => c mod 2 ^ 16 end)) as E.
  { subst e'. unfold DirEntry.first_cluster, DirEntry.set_first_cluster.
    cbn [first_cluster_low first_cluster_high]. rewrite (land_low 16 c) by done.
    destruct ty; [apply Z.lor_0_r | apply Z.lor_0_r |].
    rewrite Z.shiftr_div_pow2, (land_low 16) by lia. unfold shl_w.
    rewrite Z.shiftl_mul_pow2, (Z.mod_small (_ * _)) by lia.
    rewrite Z.lor_comm, (lor_low 16) by (try apply mul_pow2_mod_0; lia). lia. }
  rewrite E. split_and!; try done.
  - subst e'. unfold dirent_ok, DirEntry.set_first_cluster, is_uint. cbn.
    rewrite (land_low 16 c) by done. split_and!; try done; try lia.
    all: destruct ty; try lia; rewrite (land_low 16) by done; lia.
  - destruct ty; cbn; try done; intros H; lia.
Qed.

Lemma first_cluster_roundtrip_witness :
  let e' := DirEntry.set_first_cluster DirEntry.new 0x12345678 Fat32 in
  dirent_ok e' ∧ DirEntry.first_cluster e' Fat32 = 0x12345678 ∧
  (Cluster.is_valid 0x12345678 Fat32 = true → DirEntry.first_cluster e' Fat32 = 0x12345678) ∧
  DirEntry.filename_raw e' = DirEntry.filename_raw DirEntry.new ∧
  file_size e' = file_size DirEntry.new ∧ attr e' = attr DirEntry.new ∧
  DirEntry.creation_datetime e' = DirEntry.creation_datetime DirEntry.new ∧
  DirEntry.last_write_datetime e' = DirEntry.last_write_datetime DirEntry.new.
Proof.
  apply (first_cluster_roundtrip DirEntry.new 0x12345678 Fat32).
  - unfold dirent_ok, is_uint. cbn. lia.
  - unfold is_uint. lia.
Defined.

(** The creation time is kept to ten milliseconds, the time of the last write,
    which has no high-resolution byte, to two seconds. *)
Lemma creation_datetime_set e dt :
  date_ok (date dt) → time_ok (time dt) →
  ∃ e', DirEntry.set_creation_datetime e dt = Ret e' ∧
    DirEntry.creation_datetime e' =
      Ret (mkDateTime (date dt) (mkTime (hour (time dt)) (min (time dt)) (sec (time dt))
             (ms (time dt) - ms (time dt) mod 10))).
Proof.
  intros Hd Ht. destruct (datetime_ok dt Hd Ht) as (x & Hx & Hdec).
  unfold DirEntry.set_creation_datetime. rewrite Hx. cbn [mbind out_bind].
  eexists. split; [done|]. unfold DirEntry.creation_datetime. cbn. destruct x. exact Hdec.
Qed.

Lemma last_write_datetime_set e dt :
  date_ok (date dt) → time_ok (time dt) →
  ∃ e', DirEntry.set_last_write_datetime e dt = Ret e' ∧
    DirEntry.last_write_datetime e' =
      Ret (mkDateTime (date dt) (mkTime (hour (time dt)) (min (time dt))
             (sec (time dt) - sec (time dt) mod 2) 0)).
Proof.
  destruct dt as [[y mo d] [h mi s m]]. cbn [date time hour min sec].
  intros Hd Ht. destruct (date_encode _ Hd) as [Ed Rd]. destruct (time_encode _ Ht) as (Et & Rt & _).
  unfold DirEntry.set_last_write_datetime. cbn [date time]. rewrite Ed, Et. cbn [mbind out_bind].
  eexists. split; [done|]. unfold DirEntry.last_write_datetime, DateTime.decode.
  cbn [write_date write_time ddt_date ddt_time dos_time].
  rewrite date_decode, time_decode by done. cbn [mbind out_bind].
  unfold date_ok, time_ok, pack_date, pack_time, Date.MIN_YEAR, Date.MAX_YEAR, DateTime.new in *.
  cbn [year month day hour min sec ms dos_time dos_time_hi_res DosTime.new] in *.
  unfold mret, out_ret. do 3 f_equal; lia.
Qed.

(** A long-name entry is never taken for a file. *)
Lemma long_name_not_file e :
  DirEntry.is_long_name e = true → DirEntry.is_file e ≠ Ret true.
Proof.
  unfold DirEntry.is_long_name, Attributes.is_long_name, DirEntry.is_file, DirEntry.is_volume_id,
    Attributes.is_volume_id, Attributes.new.
  intros H%Z.eqb_eq E. apply bind_Ret in E as (v & _ & E). injection E as E.
  assert (Z.land (attr e) Attributes.VOLUME_ID = Attributes.VOLUME_ID) as Hv.
  { change Attributes.VOLUME_ID with (Z.land Attributes.LONG_NAME_MASK Attributes.VOLUME_ID) at 1.
    by rewrite Z.land_assoc, H. }
  rewrite Hv in E. cbn in E. by rewrite andb_false_r in E.
Qed.
