(* ===== verification/FatDir.v ===== *)
(** * Directories of a FAT file system

    [kernel/foundry/storage/src/fs/fat/dir.rs]: [Directory] reads and writes the 32-byte
    entries in the clusters of a directory, with the entries that hold long names. *)

From S2P Require Import Prelude Addrs FatTable FatIface FatFile FatDate Dirent.

(** ** Entries as bytes

    [DirEntry] and [LongNameEntry] are packed structures that are read and written as 32 bytes. *)

Definition le16 (x : Z) : list Z := [x mod 2 ^ 8; x / 2 ^ 8].
Definition le32 (x : Z) : list Z := [x mod 2 ^ 8; x / 2 ^ 8 mod 2 ^ 8; x / 2 ^ 16 mod 2 ^ 8; x / 2 ^ 24].

Definition dirent_bytes (e : DirEntry) : list Z :=
  name e ++ ext e ++ [attr e; nt_res e] ++ [dos_time_hi_res (creation_time e)] ++ le16 (dos_time (creation_time e)) ++
  le16 (creation_date e) ++ le16 (last_access_date_ e) ++ le16 (first_cluster_high e) ++ le16 (write_time e) ++
  le16 (write_date e) ++ le16 (first_cluster_low e) ++ le32 (file_size e).

Definition u8_at (l : list Z) (i : nat) : Z := nth i l 0.
Definition u16_at (l : list Z) (i : nat) : Z := u16_le (u8_at l i) (u8_at l (i + 1)).
Definition u32_at (l : list Z) (i : nat) : Z := u32_le (u8_at l i) (u8_at l (i + 1)) (u8_at l (i + 2)) (u8_at l (i + 3)).

Definition dirent_of (l : list Z) : DirEntry :=
  mkDirEntry (take 8 l) (take 3 (drop 8 l)) (u8_at l 11) (u8_at l 12) (mkDosTime (u8_at l 13) (u16_at l 14))
    (u16_at l 16) (u16_at l 18) (u16_at l 20) (u16_at l 22) (u16_at l 24) (u16_at l 26) (u32_at l 28).

Definition lfn_bytes (e : LongNameEntry) : list Z :=
  [seq_num_ e] ++ name1 e ++ [lattr e; entry_type e; checksum e] ++ name2 e ++ le16 (lfirst_cluster e) ++ name3 e.

Definition lfn_of (l : list Z) : LongNameEntry :=
  mkLongName (u8_at l 0) (take 10 (drop 1 l)) (u8_at l 11) (u8_at l 12) (u8_at l 13) (take 12 (drop 14 l)) (u16_at l 26)
    (take 4 (drop 28 l)).

(** ** Names

    A [String] is the list of its characters, numbers below 0x110000 that are no surrogates. *)

(** [encode_utf16] *)
Definition encode_utf16 (name : list Z) : list Z :=
  name ≫= λ c, if c <? 0x10000 then [c] else [0xD800 + (c - 0x10000) / 2 ^ 10; 0xDC00 + (c - 0x10000) mod 2 ^ 10].

(** [char::from_u32] of a [u16] *)
Definition from_u16 (ch : Z) : option Z := if (0xD800 <=? ch) && (ch <? 0xE000) then None else Some ch.

(** The characters of one entry, [None] where [get_name] fails. *)
Fixpoint entry_chars (e : LongNameEntry) (n : nat) (i : Z) : out (result (list Z) FatError) :=
  match n with
  | O => mret (Ok [])
  | S n =>
      r ← LongNameEntry.get_name e i;
      match r with
      | Err err => mret (Err err)
      | Ok ch =>
          if ch =? 0 then mret (Ok [])
          else
            r ← entry_chars e n (i + 1);
            match r with
            | Err err => mret (Err err)
            | Ok rest =>
                mret (Ok (if ch =? 0xFFFF then rest else match from_u16 ch with Some c => c :: rest | None => rest end))
            end
      end
  end.

(** [sort_by_key] is stable. *)
Fixpoint insert_entry (e : LongNameEntry) (l : list LongNameEntry) : list LongNameEntry :=
  match l with
  | [] => [e]
  | x :: l' => if LongNameEntry.seq_num e <=? LongNameEntry.seq_num x then e :: l else x :: insert_entry e l'
  end.
Definition sort_entries (l : list LongNameEntry) : list LongNameEntry := foldr insert_entry [] l.

Fixpoint names_of (l : list LongNameEntry) : out (result (list Z) FatError) :=
  match l with
  | [] => mret (Ok [])
  | e :: l =>
      r ← entry_chars e (Z.to_nat LongNameEntry.CHARS_PER_ENTRY) 0;
      match r with
      | Err err => mret (Err err)
      | Ok cs =>
          r ← names_of l;
          mret (match r with Err err => Err err | Ok rest => Ok (cs ++ rest) end)
      end
  end.

Definition build_long_filename (entries : list LongNameEntry) : out (result (list Z) FatError) :=
  names_of (sort_entries entries).

(** ** Entries with long names *)

Record DirectoryEntry := mkDirectoryEntry { short_entry : DirEntry; long_name : option (list Z) }.

Module DirectoryEntry.

(** The short name that the code computes from [name] is not put into the entry. *)
Definition new (name : list Z) (attributes : Z) : out DirectoryEntry :=
  let short_entry := DirEntry.set_attributes DirEntry.new attributes in
  today ← Date.new 2025 1 1;
  now ← Time.new 0 0 0 0;
  let today_now := DateTime.new today now in
  short_entry ← DirEntry.set_creation_datetime short_entry today_now;
  short_entry ← DirEntry.set_last_access_date short_entry today;
  short_entry ← DirEntry.set_last_write_datetime short_entry today_now;
  mret (mkDirectoryEntry short_entry (Some name)).

Definition is_directory (self : DirectoryEntry) : bool := DirEntry.is_directory (short_entry self).
Definition is_file (self : DirectoryEntry) : out bool := DirEntry.is_file (short_entry self).
Definition attributes (self : DirectoryEntry) : Z := DirEntry.attributes (short_entry self).
Definition first_cluster (self : DirectoryEntry) (fat_type : FatType) : Z := DirEntry.first_cluster (short_entry self) fat_type.
Definition file_size (self : DirectoryEntry) : Z := file_size (short_entry self).
Definition set_first_cluster (self : DirectoryEntry) (cluster : Z) (fat_type : FatType) : DirectoryEntry :=
  mkDirectoryEntry (DirEntry.set_first_cluster (short_entry self) cluster fat_type) (long_name self).
Definition set_file_size (self : DirectoryEntry) (size : Z) : DirectoryEntry :=
  mkDirectoryEntry (DirEntry.set_file_size (short_entry self) size) (long_name self).

End DirectoryEntry.

(** ** Directories *)

Module Directory.

Record t {T : Type} := mkDirectory {
  fat : T;
  first_cluster : Z;
  position : Z;
  bytes_per_cluster : Z;
  current_cluster : Z;
  cluster_offset : Z;
}.
Arguments t T : clear implicits.

Section ops.
Context {T D : Type} `{FatEntries T} `{DataOps D}.

Definition new (fat : T) (first_cluster bytes_per_cluster : Z) : result (t T) FatError :=
  if negb (Cluster.is_valid first_cluster (fe_type fat)) && negb (first_cluster =? 0)
  then Err InvalidCluster
  else Ok (mkDirectory T fat first_cluster 0 bytes_per_cluster first_cluster 0).

Definition set_fat (dir : t T) (fat : T) : t T :=
  mkDirectory T fat (first_cluster dir) (position dir) (bytes_per_cluster dir) (current_cluster dir) (cluster_offset dir).
Definition set_position (dir : t T) (p : Z) : t T :=
  mkDirectory T (fat dir) (first_cluster dir) p (bytes_per_cluster dir) (current_cluster dir) (cluster_offset dir).
Definition set_cursor (dir : t T) (c o : Z) : t T :=
  mkDirectory T (fat dir) (first_cluster dir) (position dir) (bytes_per_cluster dir) c o.

Local Abbreviation io := (eff (t T * D) FatError).

Definition self : io (t T) := λ s, Ret (s, Ok s.1).
Definition update (g : t T → t T) : io unit := λ '(f, d), Ret ((g f, d), Ok tt).
Definition get_entry (c : Z) : io FatEntry := λ '(f, d), r ← fe_get (fat f) c; mret ((f, d), r).
Definition on_fat {A} (op : eff T FatError A) : io A := λ '(f, d),
  '(fat, r) ← op (fat f); mret ((set_fat f fat, d), r).
Definition on_data {A} (op : eff D FatError A) : io A := λ '(f, d),
  '(d, r) ← op d; mret ((f, d), r).
Definition of_result {A} (m : out (result A FatError)) : io A := λ s, r ← m; mret (s, r).

(** [self.position += n] *)
Definition skip (n : Z) : io unit :=
  dir ← self; p ← lift (add_w 64 (position dir) n); update (λ dir, set_position dir p).

(** The loop of [seek], at most one turn per cluster. *)
Fixpoint seek_loop (fuel : nat) (entries_per_cluster remaining : Z) : io Z :=
  if remaining <=? 0 then dir ← self; mret (position dir)
  else
    match fuel with
    | O => no_fuel
    | S fuel =>
        dir ← self;
        entries_in_current ← lift (sub_w entries_per_cluster (cluster_offset dir / DIR_ENTRY_SIZE));
        if remaining <=? entries_in_current then
          o ← lift (add_w 32 (cluster_offset dir) (remaining * DIR_ENTRY_SIZE));
          update (λ dir, set_cursor dir (current_cluster dir) o);;
          skip remaining;;
          seek_loop fuel entries_per_cluster 0
        else
          skip entries_in_current;;
          entry ← get_entry (current_cluster dir);
          match entry with
          | Next next =>
              update (λ dir, set_cursor dir next 0);;
              seek_loop fuel entries_per_cluster (remaining - entries_in_current)
          | EndOfChain => dir ← self; mret (position dir)
          | _ => throw InvalidCluster
          end
    end.

Definition rewind_ (dir : t T) : t T := set_position (set_cursor dir (first_cluster dir) 0) 0.

Definition seek (target : Z) : io Z :=
  dir ← self;
  (if target <? position dir then update rewind_ else mret tt);;
  dir ← self;
  let entries_to_skip := target - position dir in
  if entries_to_skip =? 0 then mret (position dir)
  else
    let entries_per_cluster := bytes_per_cluster dir / DIR_ENTRY_SIZE in
    seek_loop (Z.to_nat entries_to_skip + 2) entries_per_cluster entries_to_skip.

Definition rewind : io unit := update rewind_.

(** Where a read or a short entry reaches the end of a cluster. *)
Definition next_cluster : io unit :=
  dir ← self;
  if bytes_per_cluster dir <=? cluster_offset dir then
    entry ← get_entry (current_cluster dir);
    match entry with
    | Next next => update (λ dir, set_cursor dir next 0)
    | EndOfChain => mret tt
    | _ => throw InvalidCluster
    end
  else mret tt.

(** [self.cluster_offset += n] *)
Definition advance (n : Z) : io unit :=
  dir ← self; o ← lift (add_w 32 (cluster_offset dir) n); update (λ dir, set_cursor dir (current_cluster dir) o).

(** Reads 32 bytes at the cursor. *)
Definition read_entry_data : io (list Z) :=
  dir ← self;
  buffer ← on_data (read_data (current_cluster dir) (cluster_offset dir) DIR_ENTRY_SIZE);
  advance DIR_ENTRY_SIZE;;
  next_cluster;;
  mret buffer.

(** The loop that collects long-name entries: [next_entry] and [next_lfn] are taken from
    [entry_data], the bytes of the first one. *)
Fixpoint lfn_loop (fuel : nat) (entry_data : list Z) (lfn_entries : list LongNameEntry) (last : LongNameEntry)
    : io (option DirectoryEntry) :=
  if negb (LongNameEntry.is_last last) then throw InvalidDirEntry
  else
    match fuel with
    | O => no_fuel
    | S fuel =>
        read_entry_data;;
        let next_entry := dirent_of entry_data in
        if DirEntry.is_long_name next_entry then
          let next_lfn := lfn_of entry_data in
          lfn_loop fuel entry_data (lfn_entries ++ [next_lfn]) next_lfn
        else
          long_name ← of_result (build_long_filename lfn_entries);
          mret (Some (mkDirectoryEntry next_entry (Some long_name)))
    end.

Fixpoint read_entry (fuel : nat) : io (option DirectoryEntry) :=
  match fuel with
  | O => no_fuel
  | S fuel =>
      entry_data ← read_entry_data;
      b ← lift (byte_at entry_data 0);
      if b =? DirEntry.END_OF_ENTRIES then mret None
      else if b =? DirEntry.DELETED_ENTRY then
        skip 1;;
        read_entry fuel
      else
        let entry := dirent_of entry_data in
        if DirEntry.is_long_name entry then
          let long_entry := lfn_of entry_data in
          lfn_loop fuel entry_data [long_entry] long_entry
        else
          skip 1;;
          mret (Some (mkDirectoryEntry entry None))
  end.

(** ** Writing *)

(** Where a long-name entry reaches the end of a cluster, the chain is extended. *)
Definition next_or_alloc : io unit :=
  dir ← self;
  if bytes_per_cluster dir <=? cluster_offset dir then
    entry ← get_entry (current_cluster dir);
    match entry with
    | Next next => update (λ dir, set_cursor dir next 0)
    | EndOfChain =>
        new_cluster ← on_fat fe_alloc;
        on_fat (fe_set (current_cluster dir) (Next new_cluster));;
        update (λ dir, set_cursor dir new_cluster 0)
    | _ => throw InvalidCluster
    end
  else mret tt.

(** The thirteen characters of the entry number [i]. *)
Fixpoint fill_name (n : nat) (j start_idx : Z) (chars : list Z) (e : LongNameEntry) : io LongNameEntry :=
  match n with
  | O => mret e
  | S n =>
      let char_idx := start_idx + j in
      let ch :=
        match chars !! Z.to_nat char_idx with
        | Some c => c
        | None => if j <? LongNameEntry.CHARS_PER_ENTRY - 1 then 0 else 0xFFFF
        end in
      '(e, r) ← lift (LongNameEntry.set_name e j ch);
      match r with
      | Ok _ => fill_name n (j + 1) start_idx chars e
      | Err err => throw err
      end
  end.

(** [for i in 0..lfn_entries_count] *)
Fixpoint write_long (n : nat) (i count : Z) (chars : list Z) (checksum : Z) : io unit :=
  match n with
  | O => mret tt
  | S n =>
      let seq_num := count - i in
      let lfn_entry := LongNameEntry.new seq_num checksum (i =? 0) in
      lfn_entry ← fill_name (Z.to_nat LongNameEntry.CHARS_PER_ENTRY) 0 (i * LongNameEntry.CHARS_PER_ENTRY) chars lfn_entry;
      dir ← self;
      on_data (write_data (current_cluster dir) (cluster_offset dir) (lfn_bytes lfn_entry));;
      advance DIR_ENTRY_SIZE;;
      next_or_alloc;;
      write_long n (i + 1) count chars checksum
  end.

Definition write_entry (entry : DirectoryEntry) : io unit :=
  (match long_name entry with
   | Some long_name =>
       let chars := encode_utf16 long_name in
       lfn_entries_count ← lift (unwrap (u8_try_from ((Z.of_nat (length chars) + 12) / 13)));
       let checksum := calc_short_name_checksum (DirEntry.filename_raw (short_entry entry)) in
       write_long (Z.to_nat lfn_entries_count) 0 lfn_entries_count chars checksum
   | None => mret tt
   end);;
  dir ← self;
  on_data (write_data (current_cluster dir) (cluster_offset dir) (dirent_bytes (short_entry entry)));;
  advance DIR_ENTRY_SIZE;;
  next_cluster.

End ops.

End Directory.

(** ** Entries and their bytes *)

(** The values that the fields of an entry can have. *)
Definition dirent_wf (e : DirEntry) : Prop :=
  length (name e) = 8%nat ∧ length (ext e) = 3%nat ∧
  is_uint 16 (dos_time (creation_time e)) ∧ is_uint 16 (creation_date e) ∧ is_uint 16 (last_access_date_ e) ∧
  is_uint 16 (first_cluster_high e) ∧ is_uint 16 (write_time e) ∧ is_uint 16 (write_date e) ∧
  is_uint 16 (first_cluster_low e) ∧ is_uint 32 (file_size e).

Definition lfn_wf (e : LongNameEntry) : Prop :=
  length (name1 e) = 10%nat ∧ length (name2 e) = 12%nat ∧ length (name3 e) = 4%nat.

Lemma u16_le16 x : u16_le (x mod 2 ^ 8) (x / 2 ^ 8) = x.
Proof. unfold u16_le. pose proof (Z.div_mod x (2 ^ 8)). lia. Qed.

Lemma u32_le32 x : u32_le (x mod 2 ^ 8) (x / 2 ^ 8 mod 2 ^ 8) (x / 2 ^ 16 mod 2 ^ 8) (x / 2 ^ 24) = x.
Proof. unfold u32_le. Z.div_mod_to_equations. lia. Qed.

(** A list of known length as its elements. *)
Ltac explode l := repeat (destruct l as [|? l]; [discriminate | ]); destruct l; [|discriminate].

Lemma dirent_of_bytes e : dirent_wf e → dirent_of (dirent_bytes e) = e.
Proof.
  destruct e as [n x a r [h t] cd ad fh wt wd fl sz]. intros (Hn & Hx & _). cbn in Hn, Hx.
  explode n. explode x. unfold dirent_of, dirent_bytes, u16_at, u32_at, u8_at, le16, le32.
  cbn [name ext attr nt_res creation_time creation_date last_access_date_ first_cluster_high write_time write_date
    first_cluster_low file_size dos_time dos_time_hi_res app take drop nth Nat.add].
  by rewrite !u16_le16, u32_le32.
Qed.

Lemma lfn_of_bytes e : lfn_wf e → lfn_of (lfn_bytes e) = e.
Proof.
  destruct e as [s n1 a ty c n2 fc n3]. intros (H1 & H2 & H3). cbn in H1, H2, H3. explode n1. explode n2. explode n3.
  unfold lfn_of, lfn_bytes, u16_at, u8_at, le16.
  cbn [seq_num_ name1 lattr entry_type checksum name2 lfirst_cluster name3 app take drop nth Nat.add].
  by rewrite u16_le16.
Qed.

Lemma dirent_bytes_length e : dirent_wf e → length (dirent_bytes e) = 32%nat.
Proof. intros (Hn & Hx & _). unfold dirent_bytes. rewrite !length_app, Hn, Hx. done. Qed.

Lemma le16_u16 a b : 0 ≤ a < 256 → le16 (u16_le a b) = [a; b].
Proof. intros Ha. unfold le16, u16_le. f_equal; [|f_equal]; Z.div_mod_to_equations; lia. Qed.

Lemma le32_u32 a b c d : 0 ≤ a < 256 → 0 ≤ b < 256 → 0 ≤ c < 256 → le32 (u32_le a b c d) = [a; b; c; d].
Proof. intros Ha Hb Hc. unfold le32, u32_le. repeat f_equal; Z.div_mod_to_equations; lia. Qed.

(** Each record of 32 bytes is the representation of an entry. *)
Lemma bytes_of_dirent l : bytes l → length l = 32%nat → dirent_bytes (dirent_of l) = l.
Proof.
  unfold bytes. intros Hb Hl. explode l. rewrite !Forall_cons in Hb.
  unfold dirent_of, dirent_bytes, u16_at, u32_at, u8_at.
  cbn [name ext attr nt_res creation_time creation_date last_access_date_ first_cluster_high write_time write_date
    first_cluster_low file_size dos_time dos_time_hi_res take drop nth Nat.add].
  rewrite !le16_u16, le32_u32 by apply Hb. done.
Qed.

(** The first byte of a record. *)
Definition first_of (r : list Z) : Z := nth 0 r 0.

(** ** Records of long names *)

Section long_names.
Context {T D : Type} `{FatEntries T} `{DataOps D}.
Import Directory.

Lemma lfn_loop_fails fuel entry_data lfns last (s s' : t T * D) o :
  DirEntry.is_long_name (dirent_of entry_data) = true → lfn_loop fuel entry_data lfns last s ≠ Ret (s', Ok o).
Proof.
  intros Hl. revert lfns last s. induction fuel as [|fuel IH]; intros lfns last s; cbn [lfn_loop];
    destruct (negb (LongNameEntry.is_last last)); try done. rewrite Hl.
  intros [(e & _ & ?)|(s1 & l & _ & E)]%eff_bind_inv; [done|]. by apply IH in E.
Qed.

(** Where the next record belongs to a long name, [read_entry] never returns an entry: it fails, or
    it goes on reading until the device fails, since it looks at the first record
    again instead of the ones that follow. *)
Lemma long_names_unreadable fuel (s s1 s' : t T * D) l o :
  read_entry_data s = Ret (s1, Ok l) → first_of l ≠ DirEntry.END_OF_ENTRIES → first_of l ≠ DirEntry.DELETED_ENTRY →
  DirEntry.is_long_name (dirent_of l) = true → read_entry fuel s ≠ Ret (s', Ok o).
Proof.
  intros E Hn0 He5 Hl. destruct fuel as [|fuel]; [done|]. cbn [read_entry]. rewrite (eff_bind_Ok _ _ _ _ _ E).
  unfold byte_at. change (Z.to_nat 0) with 0%nat. destruct l as [|b l]; [done|]. cbn [lookup list_lookup unwrap].
  rewrite (eff_bind_lift (Ret b) _ _ b eq_refl). unfold first_of in *. cbn [nth] in *.
  rewrite (proj2 (Z.eqb_neq _ _) Hn0), (proj2 (Z.eqb_neq _ _) He5). cbn zeta. rewrite Hl. by apply lfn_loop_fails.
Qed.

End long_names.

Section dirs.
Context {T D : Type} `{FatEntriesLaws T} (m : nat) `{!DataOps D} `{!DataLaws D (32 * Z.of_nat m)}.
Import Directory.
Local Abbreviation linked := (linked cl ent).
Local Abbreviation bpc := (32 * Z.of_nat m).
Local Abbreviation flat := (flat bpc).

(** The directory is a list of [m * length cs] records. *)
Definition record (d : D) (cs : list Z) (k : nat) : list Z := take 32 (drop (32 * k) (flat d cs)).

(** The cursor is at the record [k]; after the last record it is behind the last cluster. *)
Record dir_at (cs : list Z) (dir : t T) (k : nat) : Prop := {
  da_ok : fe_ok (fat dir);
  da_bpc : bytes_per_cluster dir = bpc;
  da_m : 0 < bpc < 2 ^ 31;
  da_first : head cs = Some (first_cluster dir);
  da_linked : linked (fat dir) cs;
  da_pos : 0 ≤ position dir ≤ Z.of_nat k;
  da_cursor : ∃ i j, cs !! i = Some (current_cluster dir) ∧ cluster_offset dir = 32 * Z.of_nat j ∧
    k = (i * m + j)%nat ∧ (j < m ∨ j = m ∧ Datatypes.S i = length cs)%nat;
}.

Lemma dir_at_bound cs dir k : dir_at cs dir k → (k ≤ m * length cs)%nat ∧ Z.of_nat (m * length cs) < 2 ^ 62.
Proof.
  intros Hd. destruct (da_cursor _ _ _ Hd) as (i & j & Hi & _ & -> & Hj). apply lookup_lt_Some in Hi.
  pose proof (linked_length _ _ (da_linked _ _ _ Hd)). pose proof (da_m _ _ _ Hd). split; nia.
Qed.

Lemma dir_self_bind {A} (k : t T → eff (t T * D) FatError A) f d : (self ≫= k) (f, d) = k f (f, d).
Proof. done. Qed.

Lemma dir_update_bind {A} g (k : unit → eff (t T * D) FatError A) f d : (update g ≫= k) (f, d) = k tt (g f, d).
Proof. done. Qed.

Lemma skip_ok cs dir (d : D) k :
  dir_at cs dir k → position dir < Z.of_nat k →
  ∃ dir', skip 1 (dir, d) = Ret ((dir', d), Ok tt) ∧ dir_at cs dir' k ∧ position dir' = position dir + 1 ∧ fat dir' = fat dir.
Proof.
  intros Hd Hlt. destruct (dir_at_bound _ _ _ Hd). exists (set_position dir (position dir + 1)). split_and!; [| |done|done].
  - unfold skip. rewrite dir_self_bind, add_w_ok by lia. done.
  - destruct Hd as [? ? ? ? ? ? ?]. split; cbn; done || lia.
Qed.

(** Moving on by one record. *)
Lemma next_record cs dir (d : D) k :
  dir_at cs dir k → (k < m * length cs)%nat →
  ∃ dir', (advance DIR_ENTRY_SIZE;; next_cluster : eff (t T * D) FatError unit) (dir, d) = Ret ((dir', d), Ok tt) ∧
    dir_at cs dir' (Datatypes.S k) ∧ position dir' = position dir ∧ fat dir' = fat dir.
Proof.
  intros Hd Hk. pose proof Hd as [Hok Hb Hm Hf Hl Hp (i & j & Hi & Ho & Ek & Hj)].
  pose proof (lookup_lt_Some _ _ _ Hi) as Hlt. assert (j < m)%nat as Hjm by (destruct Hj as [?|[-> Hlen]]; [done | nia]).
  unfold advance, next_cluster. change DIR_ENTRY_SIZE with 32.
  set (dir1 := set_cursor dir (current_cluster dir) (cluster_offset dir + 32)).
  rewrite (eff_bind_Ok _ _ (dir, d) (dir1, d) tt).
  2: { rewrite dir_self_bind, add_w_ok by lia. done. }
  rewrite dir_self_bind. cbn [bytes_per_cluster cluster_offset current_cluster dir1 set_cursor]. rewrite Hb, Ho.
  destruct (Z.leb_spec bpc (32 * Z.of_nat j + 32)) as [Hfull|Hpart].
  - assert (cl (fat dir) (current_cluster dir)) as Hcl by (eapply linked_cl; [exact Hl | by eapply list_elem_of_lookup_2]).
    assert (get_entry (current_cluster dir) (dir1, d) =
      Ret ((dir1, d), Ok (match cs !! Datatypes.S i with Some n => Next n | None => EndOfChain end))) as E.
    { unfold get_entry. cbn [fat dir1 set_cursor]. rewrite (get_law _ _ Hok Hcl). cbn. by rewrite (linked_entry _ _ _ _ Hl Hi). }
    rewrite (eff_bind_Ok _ _ _ _ _ E). destruct (cs !! Datatypes.S i) as [next|] eqn:Hn.
    + exists (set_cursor dir1 next 0). split_and!; [done | | done | done]. split; cbn; try done; [lia|].
      exists (Datatypes.S i), 0%nat. split_and!; [done | done | nia | left; lia].
    + exists dir1. split_and!; [done | | done | done]. apply lookup_ge_None_1 in Hn. split; cbn; try done; [lia|].
      exists i, m. split_and!; [done | lia | nia | right; lia].
  - exists dir1. split_and!; [done | | done | done]. split; cbn; try done; [lia|].
    exists i, (Datatypes.S j). split_and!; [done | lia | lia | left; lia].
Qed.

Lemma record_at cs d i j c :
  cs !! i = Some c → (j < m)%nat → take 32 (drop (32 * j) (bytes_of d c)) = record d cs (i * m + j).
Proof.
  intros Hi Hj. rewrite (flat_slice bpc d cs i c) by (done || lia). unfold record. do 2 f_equal. nia.
Qed.

Lemma read_entry_data_ok cs dir d k :
  dir_at cs dir k → (k < m * length cs)%nat →
  ∃ dir' d' res, read_entry_data (dir, d) = Ret ((dir', d'), res) ∧ (∀ x, bytes_of d' x = bytes_of d x) ∧
    match res with
    | Ok l => l = record d cs k ∧ dir_at cs dir' (Datatypes.S k) ∧ position dir' = position dir ∧ fat dir' = fat dir
    | Err _ => faulty
    end.
Proof.
  intros Hd Hk. pose proof Hd as [Hok Hb Hm Hf Hl Hp (i & j & Hi & Ho & Ek & Hj)].
  pose proof (lookup_lt_Some _ _ _ Hi) as Hlt. assert (j < m)%nat as Hjm by (destruct Hj as [?|[-> Hlen]]; [done | nia]).
  assert (cl (fat dir) (current_cluster dir)) as Hcl by (eapply linked_cl; [exact Hl | by eapply list_elem_of_lookup_2]).
  pose proof (cl_bound _ _ Hcl) as Hcb. unfold read_entry_data. rewrite dir_self_bind. change DIR_ENTRY_SIZE with 32.
  destruct (read_law d (current_cluster dir) (cluster_offset dir) 32) as (d1 & res & E & Hd1 & Hres); [lia..|].
  assert (on_data (read_data (current_cluster dir) (cluster_offset dir) 32) (dir, d) = Ret ((dir, d1), res)) as Ed
    by (unfold on_data; by rewrite E).
  destruct res as [l|err].
  2: { rewrite (eff_bind_Err _ _ _ _ _ Ed). by exists dir, d1, (Err err). }
  rewrite (eff_bind_Ok _ _ _ _ _ Ed). destruct (next_record cs dir d1 k Hd Hk) as (dir' & E' & Hd' & Hp' & Hf').
  exists dir', d1, (Ok l). split_and!; [|done| |done|done|done].
  - revert E'. unfold mbind, eff_bind. change DIR_ENTRY_SIZE with 32.
    destruct (advance 32 (dir, d1)) as [[[s1 d2] [u|e]]|]; [|done|done].
    destruct (next_cluster (s1, d2)) as [[s2 [u2|e]]|]; [|done|done]. intros [= ->]. done.
  - rewrite Hres, Ek, Ho. rewrite <- (record_at cs d i j (current_cluster dir)) by done. by replace (Z.to_nat (32 * Z.of_nat j)) with (32 * j)%nat by lia.
Qed.

(** ** Listing *)

(** The records from [k] on. *)
Definition records_from (d : D) (cs : list Z) (k : nat) : list (list Z) :=
  record d cs <$> seq k (m * length cs - k).

Lemma records_cons d cs k :
  (k < m * length cs)%nat → records_from d cs k = record d cs k :: records_from d cs (Datatypes.S k).
Proof.
  intros Hk. unfold records_from. replace (m * length cs - k)%nat with (Datatypes.S (m * length cs - Datatypes.S k)) by lia. done.
Qed.

Lemma records_end d cs k : (m * length cs ≤ k)%nat → records_from d cs k = [].
Proof. intros Hk. unfold records_from. by replace (m * length cs - k)%nat with 0%nat by lia. Qed.

Lemma records_same d d' cs k : (∀ x, bytes_of d' x = bytes_of d x) → records_from d' cs k = records_from d cs k.
Proof.
  intros Hd. apply list_fmap_ext. intros i x _. unfold record. by rewrite (flat_same bpc d d') by auto.
Qed.

(** The entries up to the end mark, without the deleted ones. *)
Fixpoint listing (rs : list (list Z)) : option (list DirEntry) :=
  match rs with
  | [] => None
  | r :: rs =>
      if first_of r =? DirEntry.END_OF_ENTRIES then Some []
      else if first_of r =? DirEntry.DELETED_ENTRY then listing rs
      else cons (dirent_of r) <$> listing rs
  end.

(** No entry belongs to a long name. *)
Definition short_names (es : list DirEntry) : bool := forallb (λ e, negb (DirEntry.is_long_name e)) es.

Lemma record_length d cs k : (k < m * length cs)%nat → length (record d cs k) = 32%nat.
Proof. intros Hk. unfold record. rewrite length_take, length_drop, flat_length. nia. Qed.

Lemma first_byte_ok d cs k : (k < m * length cs)%nat → byte_at (record d cs k) 0 = Ret (first_of (record d cs k)).
Proof.
  intros Hk. pose proof (record_length d cs k Hk) as Hl. unfold byte_at, first_of. destruct (record d cs k); [done|]. done.
Qed.

Lemma read_entry_ok fuel cs dir d k es :
  dir_at cs dir k → listing (records_from d cs k) = Some es → short_names es = true →
  (m * length cs - k < fuel)%nat →
  ∃ dir' d' res, read_entry fuel (dir, d) = Ret ((dir', d'), res) ∧ (∀ x, bytes_of d' x = bytes_of d x) ∧
    match res with
    | Ok None => es = []
    | Ok (Some e) => ∃ e0 es' k', e = mkDirectoryEntry e0 None ∧ es = e0 :: es' ∧ dir_at cs dir' k' ∧ (k < k')%nat ∧
        listing (records_from d' cs k') = Some es' ∧ short_names es' = true
    | Err _ => faulty
    end.
Proof.
  revert dir d k. induction fuel as [|fuel IH]; intros dir d k Hd Hls Hsh Hfuel; [lia|]. cbn [read_entry].
  destruct (decide (k < m * length cs)%nat) as [Hk|Hk]; [|by rewrite records_end in Hls by lia].
  rewrite records_cons in Hls by done. cbn [listing] in Hls.
  destruct (read_entry_data_ok cs dir d k Hd Hk) as (dir1 & d1 & res & E & Hd1 & Hres). destruct res as [l|err].
  2: { rewrite (eff_bind_Err _ _ _ _ _ E). exists dir1, d1, (Err err). done. }
  destruct Hres as (-> & Hat & Hp & Hf). rewrite (eff_bind_Ok _ _ _ _ _ E), (eff_bind_lift _ _ _ _ (first_byte_ok d cs k Hk)).
  destruct (first_of (record d cs k) =? DirEntry.END_OF_ENTRIES).
  { injection Hls as <-. exists dir1, d1, (Ok None). done. }
  pose proof (da_pos _ _ _ Hd) as Hpos. destruct (skip_ok cs dir1 d1 (Datatypes.S k) Hat) as (dir2 & E2 & Hat2 & Hp2 & Hf2); [lia|].
  rewrite <- (records_same d d1) in Hls by done.
  destruct (first_of (record d cs k) =? DirEntry.DELETED_ENTRY).
  - rewrite (eff_bind_Ok _ _ _ _ _ E2). destruct (IH dir2 d1 (Datatypes.S k) Hat2 Hls Hsh) as (dir' & d' & res & E' & Hd' & Hres); [lia|].
    exists dir', d', res. split_and!; [done | intros x; by rewrite Hd', Hd1 |]. destruct res as [[e|]|]; [|done|done].
    destruct Hres as (e0 & es' & k' & ? & ? & ? & ? & ? & ?). exists e0, es', k'. split_and!; done || lia.
  - cbn zeta. apply fmap_Some in Hls as (es' & Hes' & ->). cbn [short_names forallb] in Hsh.
    apply andb_prop in Hsh as [Hs1%negb_true_iff Hsh]. rewrite Hs1, (eff_bind_Ok _ _ _ _ _ E2).
    exists dir2, d1, (Ok (Some (mkDirectoryEntry (dirent_of (record d cs k)) None))). split_and!; [done | done |].
    exists (dirent_of (record d cs k)), es', (Datatypes.S k). split_and!; done || lia.
Qed.

(** All that [DirEntryIterator] yields, up to the first [None] or error. *)
Fixpoint read_all (n fuel : nat) : eff (t T * D) FatError (list DirectoryEntry) :=
  match n with
  | O => no_fuel
  | Datatypes.S n =>
      o ← read_entry fuel;
      match o with
      | None => mret []
      | Some e => l ← read_all n fuel; mret (e :: l)
      end
  end.

Lemma read_all_ok n fuel cs dir d k es :
  dir_at cs dir k → listing (records_from d cs k) = Some es → short_names es = true →
  (m * length cs - k < fuel)%nat → (m * length cs - k < n)%nat →
  ∃ dir' d' res, read_all n fuel (dir, d) = Ret ((dir', d'), res) ∧ (∀ x, bytes_of d' x = bytes_of d x) ∧
    match res with
    | Ok l => l = (λ e, mkDirectoryEntry e None) <$> es
    | Err _ => faulty
    end.
Proof.
  revert dir d k es. induction n as [|n IH]; intros dir d k es Hd Hls Hsh Hfuel Hn; [lia|]. cbn [read_all].
  destruct (read_entry_ok fuel cs dir d k es Hd Hls Hsh Hfuel) as (dir1 & d1 & res & E & Hd1 & Hres). destruct res as [o|err].
  2: { rewrite (eff_bind_Err _ _ _ _ _ E). exists dir1, d1, (Err err). done. }
  rewrite (eff_bind_Ok _ _ _ _ _ E). destruct o as [e|].
  2: { exists dir1, d1, (Ok []). by rewrite Hres. }
  destruct Hres as (e0 & es' & k' & -> & -> & Hat & Hk' & Hls' & Hsh').
  destruct (dir_at_bound _ _ _ Hat) as [Hb _].
  destruct (IH dir1 d1 k' es' Hat Hls' Hsh') as (dir' & d' & res & E' & Hd' & Hres); [lia | lia |].
  destruct res as [l|err].
  - rewrite (eff_bind_Ok _ _ _ _ _ E'). eexists dir', d', (Ok _). split_and!; [done | intros x; by rewrite Hd', Hd1 |]. by rewrite Hres.
  - rewrite (eff_bind_Err _ _ _ _ _ E'). exists dir', d', (Err err). split_and!; [done | intros x; by rewrite Hd', Hd1 | done].
Qed.

(** A long name before the end mark: [read_all] does not reach the end. *)
Lemma read_entry_long fuel cs dir d k es s' o :
  dir_at cs dir k → listing (records_from d cs k) = Some es → short_names es = false →
  read_entry fuel (dir, d) = Ret (s', Ok o) →
  ∃ e es' k', o = Some e ∧ dir_at cs s'.1 k' ∧ listing (records_from s'.2 cs k') = Some es' ∧ short_names es' = false.
Proof.
  revert dir d k. induction fuel as [|fuel IH]; intros dir d k Hd Hls Hsh Er; [done|].
  destruct (decide (k < m * length cs)%nat) as [Hk|Hk]; [|by rewrite records_end in Hls by lia].
  rewrite records_cons in Hls by done. cbn [listing] in Hls.
  destruct (read_entry_data_ok cs dir d k Hd Hk) as (dir1 & d1 & res & E & Hd1 & Hres). destruct res as [l|err].
  2: { cbn [read_entry] in Er. by rewrite (eff_bind_Err _ _ _ _ _ E) in Er. }
  destruct Hres as (-> & Hat & Hp & Hf). pose proof (da_pos _ _ _ Hd) as Hpos.
  destruct (skip_ok cs dir1 d1 (Datatypes.S k) Hat) as (dir2 & E2 & Hat2 & _ & _); [lia|].
  destruct (Z.eqb_spec (first_of (record d cs k)) DirEntry.END_OF_ENTRIES) as [Hend|Hend]; [by simplify_eq|].
  rewrite <- (records_same d d1) in Hls by done.
  destruct (Z.eqb_spec (first_of (record d cs k)) DirEntry.DELETED_ENTRY) as [Hdel|Hdel].
  - apply (IH dir2 d1 (Datatypes.S k)); [done..|]. revert Er. cbn [read_entry].
    rewrite (eff_bind_Ok _ _ _ _ _ E), (eff_bind_lift _ _ _ _ (first_byte_ok d cs k Hk)), Hdel. cbn. by rewrite (eff_bind_Ok _ _ _ _ _ E2).
  - apply fmap_Some in Hls as (es' & Hes' & ->). cbn [short_names forallb] in Hsh.
    destruct (DirEntry.is_long_name (dirent_of (record d cs k))) eqn:Hln.
    { by apply (long_names_unreadable _ _ _ _ _ _ E Hend Hdel Hln) in Er. }
    revert Er. cbn [read_entry]. rewrite (eff_bind_Ok _ _ _ _ _ E), (eff_bind_lift _ _ _ _ (first_byte_ok d cs k Hk)).
    rewrite (proj2 (Z.eqb_neq _ _) Hend), (proj2 (Z.eqb_neq _ _) Hdel). cbn zeta. rewrite Hln, (eff_bind_Ok _ _ _ _ _ E2).
    intros [= <- <-]. eexists _, es', (Datatypes.S k). by split_and!.
Qed.

Lemma read_all_long n fuel cs dir d k es s' l :
  dir_at cs dir k → listing (records_from d cs k) = Some es → short_names es = false →
  read_all n fuel (dir, d) ≠ Ret (s', Ok l).
Proof.
  revert dir d k es s' l. induction n as [|n IH]; intros dir d k es s' l Hd Hls Hsh; [done|]. cbn [read_all].
  intros [(e & _ & ?)|([dir1 d1] & o & E & Er)]%eff_bind_inv; [done|].
  destruct (read_entry_long _ _ _ _ _ _ _ _ Hd Hls Hsh E) as (e & es' & k' & -> & Hat & Hls' & Hsh').
  apply eff_bind_inv in Er as [(? & _ & ?)|(s2 & l' & E' & _)]; [done|]. by apply (IH dir1 d1 k' es' s2 l' Hat Hls' Hsh') in E'.
Qed.

(** ** Writing *)

Lemma record_write d d' cs k i j c l :
  NoDup cs → cs !! i = Some c → (j < m)%nat → k = (i * m + j)%nat → length l = 32%nat →
  bytes_of d' c = splice (32 * j) l (bytes_of d c) → (∀ x, x ≠ c → bytes_of d' x = bytes_of d x) →
  record d' cs k = l ∧ ∀ k', k' ≠ k → record d' cs k' = record d cs k'.
Proof.
  intros Hnd Hi Hj -> Hl Hc Hx. unfold record. pose proof (lookup_lt_Some _ _ _ Hi) as Hlt.
  rewrite (flat_write bpc d d' cs i c (32 * j) l) by (done || lia).
  replace (i * Z.to_nat bpc + 32 * j)%nat with (32 * (i * m + j))%nat by nia. set (k := (i * m + j)%nat).
  assert (32 * k + 32 ≤ length (flat d cs))%nat as Hlen by (rewrite flat_length; unfold k; nia).
  assert (length (take (32 * k) (flat d cs)) = 32 * k)%nat as Ht by (rewrite length_take; lia).
  unfold splice. rewrite Hl. split.
  - rewrite <- Ht at 1. rewrite drop_app_length, <- Hl, take_app_length. done.
  - intros k' Hne. destruct (decide (k' < k)%nat) as [Hlt'|Hgt].
    + rewrite drop_app_le by lia. rewrite take_app_le by (rewrite length_drop; lia).
      rewrite skipn_firstn_comm, take_take. f_equal. lia.
    + rewrite app_assoc, drop_app_ge by (rewrite length_app; lia). rewrite length_app, Ht, Hl, drop_drop. do 2 f_equal. lia.
Qed.

(** An entry without a long name is written to the record at the cursor. *)
Lemma write_short_ok e cs dir d k :
  dir_at cs dir k → (k < m * length cs)%nat → dirent_wf e →
  ∃ dir' d' res, write_entry (mkDirectoryEntry e None) (dir, d) = Ret ((dir', d'), res) ∧
    (∀ x, x ∉ cs → bytes_of d' x = bytes_of d x) ∧ fat dir' = fat dir ∧
    match res with
    | Ok _ => dir_at cs dir' (Datatypes.S k) ∧ record d' cs k = dirent_bytes e ∧
        ∀ k', k' ≠ k → record d' cs k' = record d cs k'
    | Err _ => faulty ∧ ∀ x, bytes_of d' x = bytes_of d x
    end.
Proof.
  intros Hd Hk Hwf. pose proof Hd as [Hok Hb Hm Hf Hl Hp (i & j & Hi & Ho & Ek & Hj)].
  pose proof (lookup_lt_Some _ _ _ Hi) as Hlt. assert (j < m)%nat as Hjm by (destruct Hj as [?|[-> Hlen]]; [done | nia]).
  assert (current_cluster dir ∈ cs) as Hin by (by eapply list_elem_of_lookup_2).
  pose proof (cl_bound _ _ (linked_cl _ _ _ Hl Hin)) as Hcb. pose proof (dirent_bytes_length e Hwf) as Hlen.
  unfold write_entry. cbn [long_name short_entry]. rewrite (eff_bind_Ok (mret tt) _ (dir, d) (dir, d) tt eq_refl), dir_self_bind.
  destruct (write_law d (current_cluster dir) (cluster_offset dir) (dirent_bytes e)) as (d1 & res & E & Hx & Hres); [lia..|].
  assert (on_data (write_data (current_cluster dir) (cluster_offset dir) (dirent_bytes e)) (dir, d) = Ret ((dir, d1), res)) as Ed
    by (unfold on_data; by rewrite E).
  assert (∀ x, x ∉ cs → bytes_of d1 x = bytes_of d x) as Hout by (intros x Hn; apply Hx; by intros ->).
  destruct res as [u|err].
  2: { rewrite (eff_bind_Err _ _ _ _ _ Ed). exists dir, d1, (Err err). destruct Hres as [Hc Hft]. split_and!; [done..|].
       intros x. destruct (decide (x = current_cluster dir)) as [->|]; [done | by apply Hx]. }
  rewrite (eff_bind_Ok _ _ _ _ _ Ed). destruct (next_record cs dir d1 k Hd Hk) as (dir' & E' & Hd' & Hp' & Hf').
  rewrite E'. exists dir', d1, (Ok tt). rewrite Ho in Hres. replace (Z.to_nat (32 * Z.of_nat j)) with (32 * j)%nat in Hres by lia.
  destruct (record_write d d1 cs k i j (current_cluster dir) (dirent_bytes e) (linked_NoDup _ _ Hl) Hi Hjm Ek Hlen Hres Hx) as [Hr1 Hr2].
  by split_and!.
Qed.

Lemma new_at fat cs first dir :
  new fat first bpc = Ok dir → fe_ok fat → linked fat cs → head cs = Some first → 0 < bpc < 2 ^ 31 → dir_at cs dir 0.
Proof.
  intros E Hok Hl Hh Hm. unfold new in E. destruct (_ && _); [done|]. injection E as <-. split; cbn; [done | done | done | done | done | lia |].
  exists 0%nat, 0%nat. split_and!; [by destruct cs | done | done | left; lia].
Qed.

(** C34: a directory whose chain of clusters has an end mark is opened and read to its end. Where
    no entry before the mark belongs to a long name, this yields exactly the entries before the
    mark that are not deleted, in the order of the records in the chain, whatever the number of
    clusters, or an error of the device. Where one does, the end is never reached. *)
Theorem fat_dir_listing fat first cs dir d es :
  new fat first bpc = Ok dir → fe_ok fat → linked fat cs → head cs = Some first → 0 < bpc < 2 ^ 31 →
  listing (records_from d cs 0) = Some es →
  if short_names es
  then ∃ s' res, read_all (m * length cs + 1) (m * length cs + 1) (dir, d) = Ret (s', res) ∧
    match res with
    | Ok l => l = (λ e, mkDirectoryEntry e None) <$> es
    | Err _ => faulty
    end
  else ∀ n fuel s' l, read_all n fuel (dir, d) ≠ Ret (s', Ok l).
Proof.
  intros E Hok Hl Hh Hm Hls. pose proof (new_at fat cs first dir E Hok Hl Hh Hm) as Hd. destruct (short_names es) eqn:Hsh.
  - destruct (read_all_ok (m * length cs + 1) (m * length cs + 1) cs dir d 0 es Hd Hls Hsh) as (dir' & d' & res & E' & _ & Hres); [lia | lia |].
    by exists (dir', d'), res.
  - intros n fuel s' l. by apply (read_all_long n fuel cs dir d 0 es).
Qed.

(** After the last record of a chain without an end mark the cursor is behind the last cluster,
    and the next read asks for the 32 bytes after it. *)
Lemma reads_behind_chain cs dir d :
  dir_at cs dir (m * length cs) →
  Some (current_cluster dir) = last cs ∧ cluster_offset dir = bpc ∧
  ∀ err d', read_data (current_cluster dir) bpc DIR_ENTRY_SIZE d = Ret (d', Err err) →
    read_entry 1 (dir, d) = Ret ((dir, d'), Err err).
Proof.
  intros Hd. pose proof Hd as [Hok Hb Hm Hf Hl Hp (i & j & Hi & Ho & Ek & Hj)]. pose proof (lookup_lt_Some _ _ _ Hi) as Hlt.
  assert (j = m ∧ Datatypes.S i = length cs) as [-> Hlast] by (destruct Hj as [?|?]; [nia | done]).
  split_and!; [| done |].
  - rewrite last_lookup, <- Hlast. done.
  - intros err d' E. cbn [read_entry]. unfold read_entry_data. rewrite (eff_bind_Err _ _ _ (dir, d') err); [done|].
    rewrite dir_self_bind, Ho, (eff_bind_Err _ _ _ (dir, d') err); [done|]. unfold on_data. by rewrite E.
Qed.

(** An entry written with [write_entry] is what [read_entry] finds at that place, other
    records and other clusters are unchanged, and the directory stands at the next record. *)
Theorem fat_dir_write_read e cs dir d k dir' d' :
  dir_at cs dir k → (k < m * length cs)%nat → dirent_wf e →
  first_of (name e) ≠ DirEntry.END_OF_ENTRIES → first_of (name e) ≠ DirEntry.DELETED_ENTRY → DirEntry.is_long_name e = false →
  write_entry (mkDirectoryEntry e None) (dir, d) = Ret ((dir', d'), Ok tt) →
  dir_at cs dir' (Datatypes.S k) ∧ (∀ k', k' ≠ k → record d' cs k' = record d cs k') ∧
  (∀ x, x ∉ cs → bytes_of d' x = bytes_of d x) ∧
  match read_entry 1 (dir, d') with
  | Ret (_, Ok o) => o = Some (mkDirectoryEntry e None)
  | Ret (_, Err _) => faulty
  | Panic => False
  end.
Proof.
  intros Hd Hk Hwf Hn0 He5 Hln E. destruct (write_short_ok e cs dir d k Hd Hk Hwf) as (dir1 & d1 & res & E1 & Hout & _ & Hres).
  rewrite E in E1. injection E1 as <- <- <-. destruct Hres as (Hd' & Hrec & Hoth). split_and!; [done..|].
  cbn [read_entry]. destruct (read_entry_data_ok cs dir d' k Hd Hk) as (dir2 & d2 & res & E2 & _ & Hres). destruct res as [l|err].
  2: { by rewrite (eff_bind_Err _ _ _ _ _ E2). }
  destruct Hres as (-> & Hat & Hp & _). rewrite (eff_bind_Ok _ _ _ _ _ E2), (eff_bind_lift _ _ _ _ (first_byte_ok d' cs k Hk)).
  assert (first_of (record d' cs k) = first_of (name e)) as ->.
  { rewrite Hrec. destruct Hwf as [Hn _]. unfold first_of, dirent_bytes. destruct (name e); [done | done]. }
  rewrite (proj2 (Z.eqb_neq _ _) Hn0), (proj2 (Z.eqb_neq _ _) He5). cbn zeta. rewrite Hrec, dirent_of_bytes, Hln by done.
  pose proof (da_pos _ _ _ Hd). destruct (skip_ok cs dir2 d2 (Datatypes.S k) Hat) as (dir3 & E3 & _); [lia|].
  by rewrite (eff_bind_Ok _ _ _ _ _ E3).
Qed.

End dirs.

(** ** A directory on a small device

    The clusters 2 and 4 of [demo_fat], with two records of 32 bytes each. *)

Module SmallDir.
Import FatFile.Small.

Definition entry_a : DirEntry := mkDirEntry [65; 32; 32; 32; 32; 32; 32; 32] [84; 88; 84] 0x20 0 (mkDosTime 0 0) 33 33 0 0 33 5 700.
Definition entry_b : DirEntry := mkDirEntry [66; 32; 32; 32; 32; 32; 32; 32] [84; 88; 84] 0x20 0 (mkDosTime 0 0) 33 33 0 0 33 6 70000.
Definition deleted : DirEntry := DirEntry.set_name entry_a (0xE5 :: replicate 7 32).

Definition device : disk 64 :=
  mkDisk {[2 := dirent_bytes entry_a ++ dirent_bytes deleted; 4 := dirent_bytes entry_b ++ replicate 32 0]}.

(** The same with a record of a long name in the place of the deleted one. *)
Definition long : DirEntry := DirEntry.set_attributes entry_a 0x0F.
Definition device_long : disk 64 :=
  mkDisk {[2 := dirent_bytes entry_a ++ dirent_bytes long; 4 := dirent_bytes entry_b ++ replicate 32 0]}.

Definition dir : Directory.t FatTable := Directory.mkDirectory FatTable demo_fat 2 0 64 2 0.

Lemma demo_table_ok : table_ok demo_fat.
Proof. split; [exact demo_fat_wf | vm_compute; congruence]. Qed.

Lemma opened : Directory.new demo_fat 2 (32 * Z.of_nat 2) = Ok dir.
Proof. reflexivity. Qed.

Lemma starts : head [2; 4] = Some 2.
Proof. reflexivity. Qed.

Lemma fits : 0 < 32 * Z.of_nat 2 < 2 ^ 31.
Proof. lia. Qed.

Lemma listed : listing (records_from 2 device [2; 4] 0) = Some [entry_a; entry_b].
Proof. vm_compute. reflexivity. Qed.

Lemma listed_long : listing (records_from 2 device_long [2; 4] 0) = Some [entry_a; long; entry_b].
Proof. vm_compute. reflexivity. Qed.

Lemma dir_start : dir_at 2 [2; 4] dir 0.
Proof. exact (new_at 2 demo_fat [2; 4] 2 dir opened demo_table_ok demo_linked starts fits). Qed.

End SmallDir.

Lemma fat_dir_listing_witness :
  (∃ s', read_all 5 5 (SmallDir.dir, SmallDir.device)
         = Ret (s', Ok [mkDirectoryEntry SmallDir.entry_a None; mkDirectoryEntry SmallDir.entry_b None])) ∧
  ∀ n fuel s' l, read_all n fuel (SmallDir.dir, SmallDir.device_long) ≠ Ret (s', Ok l).
Proof.
  split.
  - destruct (fat_dir_listing (H0:=table_laws) 2 demo_fat 2 [2; 4] SmallDir.dir SmallDir.device [SmallDir.entry_a; SmallDir.entry_b]
      SmallDir.opened SmallDir.demo_table_ok FatFile.Small.demo_linked SmallDir.starts SmallDir.fits SmallDir.listed) as (s' & res & E & Hres).
    exists s'. destruct res as [l|e]; [|destruct Hres]. rewrite Hres in E. exact E.
  - exact (fat_dir_listing (H0:=table_laws) 2 demo_fat 2 [2; 4] SmallDir.dir SmallDir.device_long [SmallDir.entry_a; SmallDir.long; SmallDir.entry_b]
      SmallDir.opened SmallDir.demo_table_ok FatFile.Small.demo_linked SmallDir.starts SmallDir.fits SmallDir.listed_long).
Defined.

Lemma fat_dir_write_read_witness :
  ∃ dir' d', Directory.write_entry (mkDirectoryEntry SmallDir.entry_b None) (SmallDir.dir, SmallDir.device)
    = Ret ((dir', d'), Ok tt) ∧ dir_at 2 [2; 4] dir' 1.
Proof.
  destruct (Directory.write_entry (mkDirectoryEntry SmallDir.entry_b None) (SmallDir.dir, SmallDir.device))
    as [[[dir' d'] [[]|e]]|] eqn:E.
  - exists dir', d'. split; [reflexivity|].
    eapply (fat_dir_write_read 2 SmallDir.entry_b [2; 4] SmallDir.dir SmallDir.device 0 dir' d' SmallDir.dir_start).
    + vm_compute. lia.
    + unfold dirent_wf, is_uint. vm_compute. repeat split; congruence.
    + vm_compute. congruence.
    + vm_compute. congruence.
    + reflexivity.
    + exact E.
  - exfalso. revert E. vm_compute. intros E. discriminate E.
  - exfalso. revert E. vm_compute. intros E. discriminate E.
Defined.

(** ** Divergences *)

(** The entries that [DirectoryEntry::new] makes have an empty short name, which marks the
    end of the directory when it is read. *)
Lemma new_entry_ends_directory nm attributes e :
  DirectoryEntry.new nm attributes = Ret e → first_of (dirent_bytes (short_entry e)) = DirEntry.END_OF_ENTRIES.
Proof.
  assert (∀ m : out DirectoryEntry, m = DirectoryEntry.new nm attributes → m = Ret e → name (short_entry e) = replicate 8 0) as Hn.
  { intros m ->. vm_compute. intros [= <-]. reflexivity. }
  intros E. unfold first_of, dirent_bytes. by rewrite (Hn _ eq_refl E).
Qed.

(** A [seek] to the first entry of the second cluster stays behind the end of the first one. *)
Lemma seek_stays_behind :
  match Directory.seek 2 (SmallDir.dir, SmallDir.device) with
  | Ret ((dir, _), Ok p) => p = 2 ∧ Directory.current_cluster dir = 2 ∧ Directory.cluster_offset dir = Directory.bytes_per_cluster dir
  | _ => False
  end.
Proof. vm_compute. repeat split. Qed.

(** A name of more than 13 characters: the parts that [write_entry] writes are in the opposite order of
    their sequence numbers, so that the name is put together in the wrong order. *)
Definition written_parts (nm : list Z) : out (result (list Z) FatError) :=
  match Directory.write_entry (mkDirectoryEntry SmallDir.entry_a (Some nm)) (SmallDir.dir, SmallDir.device) with
  | Ret ((_, d), Ok _) => build_long_filename (lfn_of <$> take 2 (records_from 2 d [2; 4] 0))
  | _ => Panic
  end.

Lemma long_name_reversed :
  written_parts [97; 98; 99; 100; 101; 102; 103; 104; 105; 106; 107; 108; 109; 110; 111]
  = Ret (Ok [110; 111; 97; 98; 99; 100; 101; 102; 103; 104; 105; 106; 107; 108; 109]).
Proof. vm_compute. reflexivity. Qed.
