(* ===== verification/Bs.v ===== *)
(** * Boot sectors of FAT

    [kernel/foundry/storage/src/fs/fat/bs.rs]: the parameter blocks of FAT12/16
    and of FAT32, with their builders, the choice of the parameters for a volume
    size and the validation of a block, and the boot sectors that hold them. *)

From S2P Require Import Prelude Addrs FatTable Dirent.

(** [/] and [div_ceil], which panic on a zero divisor. *)
Definition div_w (a b : Z) : out Z := if b =? 0 then Panic else Ret (a / b).
Definition div_ceil (a b : Z) : out Z := if b =? 0 then Panic else Ret ((a + b - 1) / b).

(** [u16::try_from(x).unwrap()] and [u32::try_from]. *)
Definition to_u16 (x : Z) : out Z := unwrap (u16_try_from x).
Definition u32_try_from (x : Z) : option Z := if x <? 2 ^ 32 then Some x else None.

(** Text of the boot sector, in ASCII. *)
Definition NO_NAME : list Z := [78; 79; 32; 78; 65; 77; 69; 32; 32; 32; 32].
Definition FAT_ : list Z := [70; 65; 84; 32; 32; 32; 32; 32].
Definition FAT12_ : list Z := [70; 65; 84; 49; 50; 32; 32; 32].
Definition FAT16_ : list Z := [70; 65; 84; 49; 54; 32; 32; 32].
Definition FAT32_ : list Z := [70; 65; 84; 51; 50; 32; 32; 32].
Definition BESKAROS : list Z := [66; 69; 83; 75; 65; 82; 79; 83].

Module BootParamBlockStart.

Record t := mk {
  bytes_per_sector : Z;
  sectors_per_cluster : Z;
  reserved_sectors : Z;
  fat_count : Z;
  root_entries : Z;
  total_sectors : Z;
  media_descriptor : Z;
  sectors_per_fat : Z;
  sectors_per_track : Z;
  heads : Z;
  hidden_sectors : Z;
  total_sectors_large : Z;
}.

Definition new : t := mk 512 1 1 2 512 0 0xF8 0 63 255 0 0.

Definition with_bytes_per_sector (self : t) (x : Z) : out t :=
  assert_ (is_power_of_two x && (512 <=? x) && (x <=? 4096));;
  mret (mk x (sectors_per_cluster self) (reserved_sectors self) (fat_count self) (root_entries self)
    (total_sectors self) (media_descriptor self) (sectors_per_fat self) (sectors_per_track self)
    (heads self) (hidden_sectors self) (total_sectors_large self)).

Definition with_sectors_per_cluster (self : t) (x : Z) : out t :=
  assert_ (is_power_of_two x);;
  mret (mk (bytes_per_sector self) x (reserved_sectors self) (fat_count self) (root_entries self)
    (total_sectors self) (media_descriptor self) (sectors_per_fat self) (sectors_per_track self)
    (heads self) (hidden_sectors self) (total_sectors_large self)).

Definition with_reserved_sectors (self : t) (x : Z) : out t :=
  assert_ (0 <? x);;
  mret (mk (bytes_per_sector self) (sectors_per_cluster self) x (fat_count self) (root_entries self)
    (total_sectors self) (media_descriptor self) (sectors_per_fat self) (sectors_per_track self)
    (heads self) (hidden_sectors self) (total_sectors_large self)).

Definition with_fat_count (self : t) (x : Z) : out t :=
  assert_ (0 <? x);;
  mret (mk (bytes_per_sector self) (sectors_per_cluster self) (reserved_sectors self) x
    (root_entries self) (total_sectors self) (media_descriptor self) (sectors_per_fat self)
    (sectors_per_track self) (heads self) (hidden_sectors self) (total_sectors_large self)).

Definition with_root_entries (self : t) (x : Z) : t :=
  mk (bytes_per_sector self) (sectors_per_cluster self) (reserved_sectors self) (fat_count self) x
    (total_sectors self) (media_descriptor self) (sectors_per_fat self) (sectors_per_track self)
    (heads self) (hidden_sectors self) (total_sectors_large self).

Definition with_total_sectors (self : t) (x : Z) : t :=
  mk (bytes_per_sector self) (sectors_per_cluster self) (reserved_sectors self) (fat_count self)
    (root_entries self) x (media_descriptor self) (sectors_per_fat self) (sectors_per_track self)
    (heads self) (hidden_sectors self) (if negb (x =? 0) then 0 else total_sectors_large self).

Definition with_media_descriptor (self : t) (x : Z) : t :=
  mk (bytes_per_sector self) (sectors_per_cluster self) (reserved_sectors self) (fat_count self)
    (root_entries self) (total_sectors self) x (sectors_per_fat self) (sectors_per_track self)
    (heads self) (hidden_sectors self) (total_sectors_large self).

Definition with_sectors_per_fat (self : t) (x : Z) : t :=
  mk (bytes_per_sector self) (sectors_per_cluster self) (reserved_sectors self) (fat_count self)
    (root_entries self) (total_sectors self) (media_descriptor self) x (sectors_per_track self)
    (heads self) (hidden_sectors self) (total_sectors_large self).

Definition with_sectors_per_track (self : t) (x : Z) : t :=
  mk (bytes_per_sector self) (sectors_per_cluster self) (reserved_sectors self) (fat_count self)
    (root_entries self) (total_sectors self) (media_descriptor self) (sectors_per_fat self) x
    (heads self) (hidden_sectors self) (total_sectors_large self).

Definition with_heads (self : t) (x : Z) : t :=
  mk (bytes_per_sector self) (sectors_per_cluster self) (reserved_sectors self) (fat_count self)
    (root_entries self) (total_sectors self) (media_descriptor self) (sectors_per_fat self)
    (sectors_per_track self) x (hidden_sectors self) (total_sectors_large self).

Definition with_hidden_sectors (self : t) (x : Z) : t :=
  mk (bytes_per_sector self) (sectors_per_cluster self) (reserved_sectors self) (fat_count self)
    (root_entries self) (total_sectors self) (media_descriptor self) (sectors_per_fat self)
    (sectors_per_track self) (heads self) x (total_sectors_large self).

Definition with_total_sectors_large (self : t) (x : Z) : t :=
  mk (bytes_per_sector self) (sectors_per_cluster self) (reserved_sectors self) (fat_count self)
    (root_entries self) (if negb (x =? 0) then 0 else total_sectors self) (media_descriptor self)
    (sectors_per_fat self) (sectors_per_track self) (heads self) (hidden_sectors self) x.

End BootParamBlockStart.

Module BootParamBlockEnd.

Record t := mk {
  drive_number : Z;
  _reserved : Z;
  boot_flag : Z;
  volume_id : Z;
  volume_label : list Z;
  fs_type : list Z;
}.

Definition new : t := mk 0x80 0 0x29 0 NO_NAME FAT_.

Definition with_drive_number (self : t) (x : Z) : t :=
  mk x (_reserved self) (boot_flag self) (volume_id self) (volume_label self) (fs_type self).
Definition with_boot_flag (self : t) (x : Z) : t :=
  mk (drive_number self) (_reserved self) x (volume_id self) (volume_label self) (fs_type self).
Definition with_volume_id (self : t) (x : Z) : t :=
  mk (drive_number self) (_reserved self) (boot_flag self) x (volume_label self) (fs_type self).
Definition with_volume_label (self : t) (x : list Z) : t :=
  mk (drive_number self) (_reserved self) (boot_flag self) (volume_id self) x (fs_type self).
Definition with_fs_type (self : t) (x : list Z) : t :=
  mk (drive_number self) (_reserved self) (boot_flag self) (volume_id self) (volume_label self) x.

End BootParamBlockEnd.

Module Start := BootParamBlockStart.
Module End_ := BootParamBlockEnd.

Module BootParamBlock.

Record t := mk {
  bpb_start : Start.t;
  bpb_end : End_.t;
}.

Definition bytes_per_sector (self : t) : Z := Start.bytes_per_sector (bpb_start self).
Definition sectors_per_cluster (self : t) : Z := Start.sectors_per_cluster (bpb_start self).
Definition reserved_sectors (self : t) : Z := Start.reserved_sectors (bpb_start self).
Definition fat_count (self : t) : Z := Start.fat_count (bpb_start self).
Definition root_entries (self : t) : Z := Start.root_entries (bpb_start self).
Definition media_descriptor (self : t) : Z := Start.media_descriptor (bpb_start self).
Definition sectors_per_fat (self : t) : Z := Start.sectors_per_fat (bpb_start self).
Definition sectors_per_track (self : t) : Z := Start.sectors_per_track (bpb_start self).
Definition heads (self : t) : Z := Start.heads (bpb_start self).
Definition hidden_sectors (self : t) : Z := Start.hidden_sectors (bpb_start self).
Definition total_sectors (self : t) : Z :=
  if negb (Start.total_sectors (bpb_start self) =? 0) then Start.total_sectors (bpb_start self)
  else Start.total_sectors_large (bpb_start self).

(** The block with another start or another end. *)
Definition set_start (self : t) (s : Start.t) : t := mk s (bpb_end self).
Definition set_end (self : t) (e : End_.t) : t := mk (bpb_start self) e.

Definition with_bytes_per_sector (self : t) (x : Z) : out t :=
  s ← Start.with_bytes_per_sector (bpb_start self) x; mret (set_start self s).
Definition with_sectors_per_cluster (self : t) (x : Z) : out t :=
  s ← Start.with_sectors_per_cluster (bpb_start self) x; mret (set_start self s).
Definition with_reserved_sectors (self : t) (x : Z) : out t :=
  s ← Start.with_reserved_sectors (bpb_start self) x; mret (set_start self s).
Definition with_fat_count (self : t) (x : Z) : out t :=
  s ← Start.with_fat_count (bpb_start self) x; mret (set_start self s).
Definition with_root_entries (self : t) (x : Z) : t :=
  set_start self (Start.with_root_entries (bpb_start self) x).
Definition with_media_descriptor (self : t) (x : Z) : t :=
  set_start self (Start.with_media_descriptor (bpb_start self) x).
Definition with_sectors_per_fat (self : t) (x : Z) : t :=
  set_start self (Start.with_sectors_per_fat (bpb_start self) x).
Definition with_sectors_per_track (self : t) (x : Z) : t :=
  set_start self (Start.with_sectors_per_track (bpb_start self) x).
Definition with_heads (self : t) (x : Z) : t :=
  set_start self (Start.with_heads (bpb_start self) x).
Definition with_hidden_sectors (self : t) (x : Z) : t :=
  set_start self (Start.with_hidden_sectors (bpb_start self) x).
Definition with_total_sectors (self : t) (x : Z) : t :=
  match u16_try_from x with
  | Some x => set_start self (Start.with_total_sectors (bpb_start self) x)
  | None => set_start self (Start.with_total_sectors_large (bpb_start self) x)
  end.
Definition with_drive_number (self : t) (x : Z) : t :=
  set_end self (End_.with_drive_number (bpb_end self) x).
Definition with_boot_flag (self : t) (x : Z) : t :=
  set_end self (End_.with_boot_flag (bpb_end self) x).
Definition with_volume_id (self : t) (x : Z) : t :=
  set_end self (End_.with_volume_id (bpb_end self) x).
Definition with_volume_label (self : t) (x : list Z) : t :=
  set_end self (End_.with_volume_label (bpb_end self) x).
Definition with_fs_type (self : t) (x : list Z) : t :=
  set_end self (End_.with_fs_type (bpb_end self) x).

Definition new : t := mk Start.new End_.new.
Definition new_fat12 : t := with_fs_type new FAT12_.
Definition new_fat16 : t := with_fs_type new FAT16_.

(** The clusters outside of the reserved area and of the root directory. *)
Definition clusters (self : t) : out Z :=
  root ← mul_w 32 (root_entries self) 32;
  root ← div_w root (bytes_per_sector self);
  data_sectors ← sub_w (total_sectors self) (reserved_sectors self);
  data_sectors ← sub_w data_sectors root;
  div_w data_sectors (sectors_per_cluster self).

Definition calculate_sectors_per_fat_fat12 (self : t) : out Z :=
  clusters ← clusters self;
  n ← mul_w 32 clusters 3;
  fat_size_bytes ← div_ceil n 2;
  sectors_per_fat ← div_ceil fat_size_bytes (bytes_per_sector self);
  to_u16 sectors_per_fat.

Definition calculate_sectors_per_fat_fat16 (self : t) : out Z :=
  clusters ← clusters self;
  n ← add_w 32 clusters 2;
  fat_size_bytes ← mul_w 32 n 2;
  sectors_per_fat ← div_ceil fat_size_bytes (bytes_per_sector self);
  to_u16 sectors_per_fat.

(** The sectors per cluster chosen for a number of sectors. *)
Definition choose_sectors_per_cluster (total_sectors : Z) : Z :=
  if total_sectors <? 4085 then 1
  else if total_sectors <? 8190 then 2
  else if total_sectors <? 16450 then 1
  else if total_sectors <? 32680 then 2
  else if total_sectors <? 65525 then 4
  else if total_sectors <? 131072 then 8
  else 16.

Definition choose_root_entries (total_sectors : Z) : Z :=
  if total_sectors <? 16450 then 224 else 512.

(** Direct assignments to fields of [bpb_start]. *)
Definition assign_start (self : t) (total total_large sectors_per_cluster root_entries : Z) : t :=
  set_start self (Start.mk (bytes_per_sector self) sectors_per_cluster (reserved_sectors self)
    (fat_count self) root_entries total (media_descriptor self) (sectors_per_fat self)
    (sectors_per_track self) (heads self) (hidden_sectors self) total_large).

Definition configure_for_volume_size (self : t) (volume_size_bytes : Z) : out t :=
  sectors ← div_w volume_size_bytes (bytes_per_sector self);
  '(small, large) ←
    (if sectors <=? 0xFFFF then small ← to_u16 sectors; mret (small, 0)
     else large ← unwrap (u32_try_from sectors); mret (0, large));
  let self := assign_start self small large (choose_sectors_per_cluster sectors)
                (choose_root_entries sectors) in
  if sectors <? 4085 then
    let self := with_fs_type self FAT12_ in
    n ← calculate_sectors_per_fat_fat12 self;
    mret (with_sectors_per_fat self n)
  else
    let self := with_fs_type self FAT16_ in
    n ← calculate_sectors_per_fat_fat16 self;
    mret (with_sectors_per_fat self n).

Definition is_fat32 (self : t) : bool := sectors_per_fat self =? 0.

Definition bytes_per_cluster (self : t) : out Z :=
  mul_w 32 (bytes_per_sector self) (sectors_per_cluster self).

Definition validate (self : t) : out bool :=
  if negb (is_power_of_two (bytes_per_sector self)) || (bytes_per_sector self <? 512)
     || (4096 <? bytes_per_sector self)
  then mret false
  else
    cluster ← mul_w 32 (bytes_per_sector self) (sectors_per_cluster self);
    if negb (is_power_of_two (sectors_per_cluster self)) || (32 * 1024 <? cluster)
    then mret false
    else if reserved_sectors self =? 0 then mret false
    else if (fat_count self =? 0) || (2 <? fat_count self) then mret false
    else
      root ← mul_w 64 (root_entries self) DIR_ENTRY_SIZE;
      if negb (root mod bytes_per_sector self =? 0) then mret false
      else
        let small := Start.total_sectors (bpb_start self) in
        let large := Start.total_sectors_large (bpb_start self) in
        if (negb (small =? 0) && negb (large =? 0)) || ((small =? 0) && (large =? 0))
        then mret false
        else mret (negb (sectors_per_fat self =? 0)).

End BootParamBlock.

Module ExtendedBootParamBlock.

Record t := mk {
  bpb_start : Start.t;
  sectors_per_fat_large : Z;
  flags : Z;
  version_major : Z;
  version_minor : Z;
  root_cluster : Z;
  fs_info_sector : Z;
  backup_boot_sector : Z;
  _reserved : list Z;
  bpb_end : End_.t;
}.

Definition bytes_per_sector (self : t) : Z := Start.bytes_per_sector (bpb_start self).
Definition sectors_per_cluster (self : t) : Z := Start.sectors_per_cluster (bpb_start self).
Definition reserved_sectors (self : t) : Z := Start.reserved_sectors (bpb_start self).
Definition fat_count (self : t) : Z := Start.fat_count (bpb_start self).
Definition root_entries (self : t) : Z := Start.root_entries (bpb_start self).
Definition media_descriptor (self : t) : Z := Start.media_descriptor (bpb_start self).
Definition sectors_per_track (self : t) : Z := Start.sectors_per_track (bpb_start self).
Definition heads (self : t) : Z := Start.heads (bpb_start self).
Definition hidden_sectors (self : t) : Z := Start.hidden_sectors (bpb_start self).
Definition total_sectors (self : t) : Z :=
  if negb (Start.total_sectors (bpb_start self) =? 0) then Start.total_sectors (bpb_start self)
  else Start.total_sectors_large (bpb_start self).

Definition sectors_per_fat (self : t) : Z := sectors_per_fat_large self.
Definition drive_number (self : t) : Z := End_.drive_number (bpb_end self).
Definition boot_flag (self : t) : Z := End_.boot_flag (bpb_end self).
Definition volume_id (self : t) : Z := End_.volume_id (bpb_end self).
Definition volume_label (self : t) : list Z := End_.volume_label (bpb_end self).
Definition fs_type (self : t) : list Z := End_.fs_type (bpb_end self).

(** The block with another start or another end. *)
Definition set_start (self : t) (s : Start.t) : t :=
  mk s (sectors_per_fat_large self) (flags self) (version_major self) (version_minor self)
    (root_cluster self) (fs_info_sector self) (backup_boot_sector self) (_reserved self)
    (bpb_end self).
Definition set_end (self : t) (e : End_.t) : t :=
  mk (bpb_start self) (sectors_per_fat_large self) (flags self) (version_major self)
    (version_minor self) (root_cluster self) (fs_info_sector self) (backup_boot_sector self)
    (_reserved self) e.

Definition with_bytes_per_sector (self : t) (x : Z) : out t :=
  s ← Start.with_bytes_per_sector (bpb_start self) x; mret (set_start self s).
Definition with_sectors_per_cluster (self : t) (x : Z) : out t :=
  s ← Start.with_sectors_per_cluster (bpb_start self) x; mret (set_start self s).
Definition with_reserved_sectors (self : t) (x : Z) : out t :=
  s ← Start.with_reserved_sectors (bpb_start self) x; mret (set_start self s).
Definition with_fat_count (self : t) (x : Z) : out t :=
  s ← Start.with_fat_count (bpb_start self) x; mret (set_start self s).
Definition with_media_descriptor (self : t) (x : Z) : t :=
  set_start self (Start.with_media_descriptor (bpb_start self) x).
Definition with_sectors_per_track (self : t) (x : Z) : t :=
  set_start self (Start.with_sectors_per_track (bpb_start self) x).
Definition with_heads (self : t) (x : Z) : t :=
  set_start self (Start.with_heads (bpb_start self) x).
Definition with_hidden_sectors (self : t) (x : Z) : t :=
  set_start self (Start.with_hidden_sectors (bpb_start self) x).

(** Direct assignments to fields of [bpb_start]. *)
Definition assign_start (self : t) (total total_large sectors_per_cluster : Z) : t :=
  set_start self (Start.mk (bytes_per_sector self) sectors_per_cluster (reserved_sectors self)
    (fat_count self) (root_entries self) total (media_descriptor self)
    (Start.sectors_per_fat (bpb_start self)) (sectors_per_track self) (heads self)
    (hidden_sectors self) total_large).

Definition with_total_sectors (self : t) (x : Z) : t :=
  assign_start self 0 x (sectors_per_cluster self).
Definition with_sectors_per_fat (self : t) (x : Z) : t :=
  mk (bpb_start self) x (flags self) (version_major self) (version_minor self) (root_cluster self)
    (fs_info_sector self) (backup_boot_sector self) (_reserved self) (bpb_end self).
Definition with_flags (self : t) (x : Z) : t :=
  mk (bpb_start self) (sectors_per_fat_large self) x (version_major self) (version_minor self)
    (root_cluster self) (fs_info_sector self) (backup_boot_sector self) (_reserved self)
    (bpb_end self).
Definition with_root_cluster (self : t) (x : Z) : t :=
  mk (bpb_start self) (sectors_per_fat_large self) (flags self) (version_major self)
    (version_minor self) x (fs_info_sector self) (backup_boot_sector self) (_reserved self)
    (bpb_end self).
Definition with_fs_info_sector (self : t) (x : Z) : t :=
  mk (bpb_start self) (sectors_per_fat_large self) (flags self) (version_major self)
    (version_minor self) (root_cluster self) x (backup_boot_sector self) (_reserved self)
    (bpb_end self).
Definition with_backup_boot_sector (self : t) (x : Z) : t :=
  mk (bpb_start self) (sectors_per_fat_large self) (flags self) (version_major self)
    (version_minor self) (root_cluster self) (fs_info_sector self) x (_reserved self)
    (bpb_end self).
Definition with_version (self : t) (major minor : Z) : t :=
  mk (bpb_start self) (sectors_per_fat_large self) (flags self) major minor (root_cluster self)
    (fs_info_sector self) (backup_boot_sector self) (_reserved self) (bpb_end self).
Definition with_drive_number (self : t) (x : Z) : t :=
  set_end self (End_.with_drive_number (bpb_end self) x).
Definition with_boot_flag (self : t) (x : Z) : t :=
  set_end self (End_.with_boot_flag (bpb_end self) x).
Definition with_volume_id (self : t) (x : Z) : t :=
  set_end self (End_.with_volume_id (bpb_end self) x).
Definition with_volume_label (self : t) (x : list Z) : t :=
  set_end self (End_.with_volume_label (bpb_end self) x).
Definition with_fs_type (self : t) (x : list Z) : t :=
  set_end self (End_.with_fs_type (bpb_end self) x).

Definition with_label (fs_type : list Z) : out t :=
  s ← Start.with_reserved_sectors Start.new 32;
  mret (mk (Start.with_root_entries s 0) 0 0 0 0 2 1 6 (replicate 12 0)
          (End_.with_fs_type End_.new fs_type)).

Definition new : out t := with_label FAT_.
Definition new_fat32 : out t := with_label FAT32_.

Definition calculate_sectors_per_fat (self : t) : out Z :=
  data_sectors ← sub_w (total_sectors self) (reserved_sectors self);
  data_sectors ← sub_w data_sectors 0;
  n ← div_w data_sectors (sectors_per_cluster self);
  estimated_clusters ← add_w 32 n 100;
  fat_size_bytes ← mul_w 32 estimated_clusters 4;
  sectors_per_fat ← div_ceil fat_size_bytes (bytes_per_sector self);
  add_w 32 sectors_per_fat (sectors_per_fat / 20).

Definition choose_sectors_per_cluster (total_sectors : Z) : Z :=
  if total_sectors <? 532480 then 1
  else if total_sectors <? 16777216 then 8
  else if total_sectors <? 33554432 then 16
  else if total_sectors <? 67108864 then 32
  else 64.

Definition configure_for_volume_size (self : t) (volume_size_bytes : Z) : out t :=
  sectors ← div_w volume_size_bytes (bytes_per_sector self);
  let large := default (2 ^ 32 - 1) (u32_try_from sectors) in
  let self := assign_start self 0 large (choose_sectors_per_cluster sectors) in
  n ← calculate_sectors_per_fat self;
  mret (with_sectors_per_fat self n).

Definition is_fat32 (self : t) : bool := true.

Definition bytes_per_cluster (self : t) : out Z :=
  mul_w 32 (bytes_per_sector self) (sectors_per_cluster self).

Definition validate (self : t) : out bool :=
  if negb (is_power_of_two (bytes_per_sector self)) || (bytes_per_sector self <? 512)
     || (4096 <? bytes_per_sector self)
  then mret false
  else
    cluster ← mul_w 32 (bytes_per_sector self) (sectors_per_cluster self);
    if negb (is_power_of_two (sectors_per_cluster self)) || (32 * 1024 <? cluster)
    then mret false
    else if (reserved_sectors self =? 0) || (reserved_sectors self <=? backup_boot_sector self)
            || (reserved_sectors self <=? fs_info_sector self)
    then mret false
    else if (fat_count self =? 0) || (2 <? fat_count self) then mret false
    else
      root ← mul_w 64 (root_entries self) DIR_ENTRY_SIZE;
      if negb (root_entries self =? 0) || negb (root mod bytes_per_sector self =? 0)
      then mret false
      else if negb (Start.total_sectors (bpb_start self) =? 0)
              || (Start.total_sectors_large (bpb_start self) =? 0)
      then mret false
      else mret (negb (sectors_per_fat self =? 0)).

End ExtendedBootParamBlock.

Module BootSector.

Record t := mk {
  boot_jump : list Z;
  oem_name : list Z;
  bpb : BootParamBlock.t;
  boot_code : list Z;
  boot_signature : list Z;
}.

Definition of_bpb (bpb : BootParamBlock.t) : t :=
  mk [0xEB; 0x3C; 0x90] BESKAROS bpb (replicate 448 0) [0x55; 0xAA].

Definition new : t := of_bpb BootParamBlock.new.
Definition new_fat12 : t := of_bpb BootParamBlock.new_fat12.
Definition new_fat16 : t := of_bpb BootParamBlock.new_fat16.

Definition with_bpb (self : t) (x : BootParamBlock.t) : t :=
  mk (boot_jump self) (oem_name self) x (boot_code self) (boot_signature self).
Definition with_boot_jump (self : t) (x : list Z) : t :=
  mk x (oem_name self) (bpb self) (boot_code self) (boot_signature self).
Definition with_oem_name (self : t) (x : list Z) : t :=
  mk (boot_jump self) x (bpb self) (boot_code self) (boot_signature self).
Definition with_boot_code (self : t) (x : list Z) : out t :=
  assert_ (bool_decide (length x ≤ 448)%nat);;
  mret (mk (boot_jump self) (oem_name self) (bpb self) (x ++ replicate (448 - length x) 0)
          (boot_signature self)).

Definition with_bytes_per_sector (self : t) (x : Z) : out t :=
  b ← BootParamBlock.with_bytes_per_sector (bpb self) x; mret (with_bpb self b).
Definition with_sectors_per_cluster (self : t) (x : Z) : out t :=
  b ← BootParamBlock.with_sectors_per_cluster (bpb self) x; mret (with_bpb self b).
Definition with_reserved_sectors (self : t) (x : Z) : out t :=
  b ← BootParamBlock.with_reserved_sectors (bpb self) x; mret (with_bpb self b).
Definition with_fat_count (self : t) (x : Z) : out t :=
  b ← BootParamBlock.with_fat_count (bpb self) x; mret (with_bpb self b).
Definition with_root_entries (self : t) (x : Z) : t :=
  with_bpb self (BootParamBlock.with_root_entries (bpb self) x).
Definition with_total_sectors (self : t) (x : Z) : t :=
  with_bpb self (BootParamBlock.with_total_sectors (bpb self) x).
Definition with_media_descriptor (self : t) (x : Z) : t :=
  with_bpb self (BootParamBlock.with_media_descriptor (bpb self) x).
Definition with_sectors_per_fat (self : t) (x : Z) : t :=
  with_bpb self (BootParamBlock.with_sectors_per_fat (bpb self) x).
Definition with_sectors_per_track (self : t) (x : Z) : t :=
  with_bpb self (BootParamBlock.with_sectors_per_track (bpb self) x).
Definition with_heads (self : t) (x : Z) : t :=
  with_bpb self (BootParamBlock.with_heads (bpb self) x).
Definition with_hidden_sectors (self : t) (x : Z) : t :=
  with_bpb self (BootParamBlock.with_hidden_sectors (bpb self) x).
Definition with_drive_number (self : t) (x : Z) : t :=
  with_bpb self (BootParamBlock.with_drive_number (bpb self) x).
Definition with_boot_flag (self : t) (x : Z) : t :=
  with_bpb self (BootParamBlock.with_boot_flag (bpb self) x).
Definition with_volume_id (self : t) (x : Z) : t :=
  with_bpb self (BootParamBlock.with_volume_id (bpb self) x).
Definition with_volume_label (self : t) (x : list Z) : t :=
  with_bpb self (BootParamBlock.with_volume_label (bpb self) x).
Definition with_fs_type (self : t) (x : list Z) : t :=
  with_bpb self (BootParamBlock.with_fs_type (bpb self) x).

Definition configure_for_volume_size (self : t) (volume_size_bytes : Z) : out t :=
  b ← BootParamBlock.configure_for_volume_size (bpb self) volume_size_bytes; mret (with_bpb self b).

Definition validate (self : t) : out bool :=
  if negb (bool_decide (boot_signature self = [0x55; 0xAA])) then mret false
  else BootParamBlock.validate (bpb self).

End BootSector.

Module ExtendedBootSector.

Record t := mk {
  boot_jump : list Z;
  oem_name : list Z;
  bpb : ExtendedBootParamBlock.t;
  boot_code : list Z;
  boot_signature : list Z;
}.

Definition of_bpb (bpb : ExtendedBootParamBlock.t) : t :=
  mk [0xEB; 0x58; 0x90] BESKAROS bpb (replicate 420 0) [0x55; 0xAA].

Definition new : out t := b ← ExtendedBootParamBlock.new; mret (of_bpb b).
Definition new_fat32 : out t := b ← ExtendedBootParamBlock.new_fat32; mret (of_bpb b).

Definition with_bpb (self : t) (x : ExtendedBootParamBlock.t) : t :=
  mk (boot_jump self) (oem_name self) x (boot_code self) (boot_signature self).
Definition with_boot_jump (self : t) (x : list Z) : t :=
  mk x (oem_name self) (bpb self) (boot_code self) (boot_signature self).
Definition with_oem_name (self : t) (x : list Z) : t :=
  mk (boot_jump self) x (bpb self) (boot_code self) (boot_signature self).
Definition with_boot_code (self : t) (x : list Z) : out t :=
  assert_ (bool_decide (length x ≤ 420)%nat);;
  mret (mk (boot_jump self) (oem_name self) (bpb self) (x ++ replicate (420 - length x) 0)
          (boot_signature self)).

Definition with_bytes_per_sector (self : t) (x : Z) : out t :=
  b ← ExtendedBootParamBlock.with_bytes_per_sector (bpb self) x; mret (with_bpb self b).
Definition with_sectors_per_cluster (self : t) (x : Z) : out t :=
  b ← ExtendedBootParamBlock.with_sectors_per_cluster (bpb self) x; mret (with_bpb self b).
Definition with_reserved_sectors (self : t) (x : Z) : out t :=
  b ← ExtendedBootParamBlock.with_reserved_sectors (bpb self) x; mret (with_bpb self b).
Definition with_fat_count (self : t) (x : Z) : out t :=
  b ← ExtendedBootParamBlock.with_fat_count (bpb self) x; mret (with_bpb self b).
Definition with_total_sectors (self : t) (x : Z) : t :=
  with_bpb self (ExtendedBootParamBlock.with_total_sectors (bpb self) x).
Definition with_media_descriptor (self : t) (x : Z) : t :=
  with_bpb self (ExtendedBootParamBlock.with_media_descriptor (bpb self) x).
Definition with_sectors_per_fat (self : t) (x : Z) : t :=
  with_bpb self (ExtendedBootParamBlock.with_sectors_per_fat (bpb self) x).
Definition with_sectors_per_track (self : t) (x : Z) : t :=
  with_bpb self (ExtendedBootParamBlock.with_sectors_per_track (bpb self) x).
Definition with_heads (self : t) (x : Z) : t :=
  with_bpb self (ExtendedBootParamBlock.with_heads (bpb self) x).
Definition with_hidden_sectors (self : t) (x : Z) : t :=
  with_bpb self (ExtendedBootParamBlock.with_hidden_sectors (bpb self) x).
Definition with_flags (self : t) (x : Z) : t :=
  with_bpb self (ExtendedBootParamBlock.with_flags (bpb self) x).
Definition with_version (self : t) (major minor : Z) : t :=
  with_bpb self (ExtendedBootParamBlock.with_version (bpb self) major minor).
Definition with_root_cluster (self : t) (x : Z) : t :=
  with_bpb self (ExtendedBootParamBlock.with_root_cluster (bpb self) x).
Definition with_fs_info_sector (self : t) (x : Z) : t :=
  with_bpb self (ExtendedBootParamBlock.with_fs_info_sector (bpb self) x).
Definition with_backup_boot_sector (self : t) (x : Z) : t :=
  with_bpb self (ExtendedBootParamBlock.with_backup_boot_sector (bpb self) x).
Definition with_drive_number (self : t) (x : Z) : t :=
  with_bpb self (ExtendedBootParamBlock.with_drive_number (bpb self) x).
Definition with_boot_flag (self : t) (x : Z) : t :=
  with_bpb self (ExtendedBootParamBlock.with_boot_flag (bpb self) x).
Definition with_volume_id (self : t) (x : Z) : t :=
  with_bpb self (ExtendedBootParamBlock.with_volume_id (bpb self) x).
Definition with_volume_label (self : t) (x : list Z) : t :=
  with_bpb self (ExtendedBootParamBlock.with_volume_label (bpb self) x).

Definition configure_for_volume_size (self : t) (volume_size_bytes : Z) : out t :=
  b ← ExtendedBootParamBlock.configure_for_volume_size (bpb self) volume_size_bytes; mret (with_bpb self b).

Definition validate (self : t) : out bool :=
  if negb (bool_decide (boot_signature self = [0x55; 0xAA])) then mret false
  else ExtendedBootParamBlock.validate (bpb self).

End ExtendedBootSector.

(** ** Properties *)

Local Ltac Zify.zify_post_hook ::= Z.div_mod_to_equations.

Lemma div_w_ok a b : 0 < b → div_w a b = Ret (a / b).
Proof. intros H. unfold div_w. by rewrite (proj2 (Z.eqb_neq _ _)) by lia. Qed.

Lemma div_ceil_ok a b : 0 < b → div_ceil a b = Ret ((a + b - 1) / b).
Proof. intros H. unfold div_ceil. by rewrite (proj2 (Z.eqb_neq _ _)) by lia. Qed.

Lemma to_u16_ok x : x < 2 ^ 16 → to_u16 x = Ret x.
Proof. intros H. unfold to_u16, u16_try_from. by rewrite (proj2 (Z.ltb_lt _ _)). Qed.

(** A block as [new] makes it, apart from its reserved sectors and labels. *)
Definition std_block (b : BootParamBlock.t) (reserved : Z) : Prop :=
  BootParamBlock.bytes_per_sector b = 512 ∧ BootParamBlock.fat_count b = 2 ∧
  BootParamBlock.reserved_sectors b = reserved ∧ 0 < reserved < 2 ^ 16.

Definition root_sectors (total : Z) : Z := BootParamBlock.choose_root_entries total * 32 / 512.

(** The type chosen for a number of sectors, and the clusters of its data area:
    what the reserved sectors, the root directory and both FATs leave. *)
Definition type_of (total : Z) : FatType := if total <? 4085 then Fat12 else Fat16.

Definition data_clusters (b : BootParamBlock.t) : Z :=
  (BootParamBlock.total_sectors b - BootParamBlock.reserved_sectors b
   - root_sectors (BootParamBlock.total_sectors b)
   - BootParamBlock.fat_count b * BootParamBlock.sectors_per_fat b)
  / BootParamBlock.sectors_per_cluster b.

Lemma choose_spc_range n :
  let s := BootParamBlock.choose_sectors_per_cluster n in
  s = 1 ∨ s = 2 ∨ s = 4 ∨ s = 8 ∨ s = 16.
Proof. unfold BootParamBlock.choose_sectors_per_cluster. repeat case_match; auto. Qed.

Lemma root_sectors_range n : root_sectors n = 14 ∨ root_sectors n = 32.
Proof.
  unfold root_sectors, BootParamBlock.choose_root_entries. case_match; [by left | by right].
Qed.

(** The clusters computed for a block whose size fields have been set. *)
Lemma clusters_eq b n spc root :
  BootParamBlock.bytes_per_sector b = 512 → BootParamBlock.total_sectors b = n →
  BootParamBlock.root_entries b = root → BootParamBlock.sectors_per_cluster b = spc →
  0 ≤ root < 2 ^ 16 → 0 < spc →
  BootParamBlock.reserved_sectors b + root * 32 / 512 ≤ n →
  BootParamBlock.clusters b =
    Ret ((n - BootParamBlock.reserved_sectors b - root * 32 / 512) / spc).
Proof.
  intros Hb Hn Hr Hs Hroot Hspc Hle. unfold BootParamBlock.clusters. rewrite Hb, Hn, Hr, Hs.
  rewrite mul_w_ok by lia. cbn [mbind out_bind]. rewrite div_w_ok by lia. cbn [mbind out_bind].
  rewrite sub_w_ok by lia. cbn [mbind out_bind]. rewrite sub_w_ok by lia. cbn [mbind out_bind].
  by rewrite div_w_ok by lia.
Qed.

(** The block before the sectors per FAT are computed. *)
Definition sized (self : BootParamBlock.t) (n : Z) : BootParamBlock.t :=
  BootParamBlock.assign_start self (if n <=? 0xFFFF then n else 0) (if n <=? 0xFFFF then 0 else n)
    (BootParamBlock.choose_sectors_per_cluster n) (BootParamBlock.choose_root_entries n).

Lemma sized_total self n : 0 ≤ n → BootParamBlock.total_sectors (sized self n) = n.
Proof.
  intros Hn. unfold BootParamBlock.total_sectors, sized. cbn.
  destruct (Z.leb_spec n 0xFFFF); cbn; [|done]. destruct (Z.eqb_spec n 0); cbn; [done|done].
Qed.

Lemma configure_eq self size :
  BootParamBlock.bytes_per_sector self = 512 → 0 ≤ size → size / 512 < 2 ^ 32 →
  BootParamBlock.configure_for_volume_size self size =
    let n := size / 512 in
    if n <? 4085 then
      f ← BootParamBlock.calculate_sectors_per_fat_fat12 (BootParamBlock.with_fs_type (sized self n) FAT12_);
      Ret (BootParamBlock.with_sectors_per_fat (BootParamBlock.with_fs_type (sized self n) FAT12_) f)
    else
      f ← BootParamBlock.calculate_sectors_per_fat_fat16 (BootParamBlock.with_fs_type (sized self n) FAT16_);
      Ret (BootParamBlock.with_sectors_per_fat (BootParamBlock.with_fs_type (sized self n) FAT16_) f).
Proof.
  intros Hb Hs Hn. unfold BootParamBlock.configure_for_volume_size. rewrite Hb, div_w_ok by lia.
  cbn [mbind out_bind]. unfold sized. destruct (Z.leb_spec (size / 512) 0xFFFF).
  - rewrite to_u16_ok by lia. done.
  - unfold u32_try_from. by rewrite (proj2 (Z.ltb_lt _ (2 ^ 32))) by lia.
Qed.

(** The sectors per FAT computed for [n] sectors of which [c] clusters remain. *)
Definition fat_sectors (ty : FatType) (c : Z) : Z :=
  match ty with
  | Fat12 => ((c * 3 + 1) / 2 + 511) / 512
  | _ => ((c + 2) * 2 + 511) / 512
  end.

Lemma calculate_fat12 b c :
  BootParamBlock.bytes_per_sector b = 512 → BootParamBlock.clusters b = Ret c → 0 ≤ c < 2 ^ 16 →
  BootParamBlock.calculate_sectors_per_fat_fat12 b = Ret (fat_sectors Fat12 c).
Proof.
  intros Hb Hc Hr. unfold BootParamBlock.calculate_sectors_per_fat_fat12. rewrite Hc, Hb.
  cbn [mbind out_bind]. rewrite mul_w_ok by lia. cbn [mbind out_bind].
  rewrite !div_ceil_ok by lia. cbn [mbind out_bind].
  rewrite div_ceil_ok by lia. cbn [mbind out_bind]. rewrite to_u16_ok by lia.
  unfold fat_sectors. do 2 f_equal. lia.
Qed.

Lemma calculate_fat16 b c :
  BootParamBlock.bytes_per_sector b = 512 → BootParamBlock.clusters b = Ret c → 0 ≤ c ≤ 16776958 →
  BootParamBlock.calculate_sectors_per_fat_fat16 b = Ret (fat_sectors Fat16 c).
Proof.
  intros Hb Hc Hr. unfold BootParamBlock.calculate_sectors_per_fat_fat16. rewrite Hc, Hb.
  cbn [mbind out_bind]. rewrite add_w_ok by lia. cbn [mbind out_bind].
  rewrite mul_w_ok by lia. cbn [mbind out_bind].
  rewrite div_ceil_ok by lia. cbn [mbind out_bind]. rewrite to_u16_ok by lia.
  unfold fat_sectors. do 2 f_equal. lia.
Qed.

Lemma configure_ok self reserved size :
  std_block self reserved → 0 ≤ size →
  let n := size / 512 in
  let spc := BootParamBlock.choose_sectors_per_cluster n in
  let c := (n - reserved - root_sectors n) / spc in
  reserved + root_sectors n ≤ n ≤ 127 * 2 ^ 21 →
  ∃ b, BootParamBlock.configure_for_volume_size self size = Ret b ∧ std_block b reserved ∧
    BootParamBlock.total_sectors b = n ∧ BootParamBlock.sectors_per_cluster b = spc ∧
    BootParamBlock.root_entries b = BootParamBlock.choose_root_entries n ∧
    BootParamBlock.sectors_per_fat b = fat_sectors (type_of n) c ∧
    End_.fs_type (BootParamBlock.bpb_end b) =
      (match type_of n with Fat12 => FAT12_ | _ => FAT16_ end) ∧
    b = BootParamBlock.with_sectors_per_fat
          (BootParamBlock.with_fs_type (sized self n)
             (match type_of n with Fat12 => FAT12_ | _ => FAT16_ end))
          (fat_sectors (type_of n) c).
Proof.
  intros (Hb & Hf & Hr & Hr') Hs n spc c Hn. rewrite configure_eq by (done || lia). fold n. cbn zeta.
  pose proof (choose_spc_range n) as Hspc. cbn zeta in Hspc. pose proof (root_sectors_range n) as Hroot.
  assert (∀ l, BootParamBlock.clusters (BootParamBlock.with_fs_type (sized self n) l) = Ret c) as Hc.
  { intros l. unfold c. rewrite (clusters_eq _ n spc (BootParamBlock.choose_root_entries n)).
    - change (BootParamBlock.reserved_sectors (BootParamBlock.with_fs_type (sized self n) l))
        with (BootParamBlock.reserved_sectors self). by rewrite Hr.
    - done.
    - apply (sized_total self n). lia.
    - done.
    - done.
    - unfold BootParamBlock.choose_root_entries. case_match; lia.
    - subst spc. lia.
    - change (BootParamBlock.reserved_sectors (BootParamBlock.with_fs_type (sized self n) l))
        with (BootParamBlock.reserved_sectors self). rewrite Hr. apply Hn. }
  assert (0 ≤ c ≤ n - reserved - root_sectors n) as Hc0.
  { subst c spc. destruct Hspc as [-> | [-> | [-> | [-> | ->]]]]; lia. }
  unfold type_of. destruct (Z.ltb_spec n 4085) as [Hlt|Hge].
  - rewrite (calculate_fat12 _ c) by (done || lia). eexists. split; [done|]. split_and!; try done.
    apply (sized_total self n). lia.
  - assert (c ≤ 16776958).
    { subst c spc. unfold BootParamBlock.choose_sectors_per_cluster. repeat case_match; lia. }
    rewrite (calculate_fat16 _ c) by (done || lia). eexists. split; [done|]. split_and!; try done.
    apply (sized_total self n). lia.
Qed.

(** What [validate] asks of a block of 512-byte sectors with two FATs. *)
Lemma validate_ok b reserved :
  std_block b reserved →
  (let s := BootParamBlock.sectors_per_cluster b in s = 1 ∨ s = 2 ∨ s = 4 ∨ s = 8 ∨ s = 16) →
  BootParamBlock.root_entries b = 224 ∨ BootParamBlock.root_entries b = 512 →
  (0 < Start.total_sectors (BootParamBlock.bpb_start b) ∧
     Start.total_sectors_large (BootParamBlock.bpb_start b) = 0 ∨
   Start.total_sectors (BootParamBlock.bpb_start b) = 0 ∧
     0 < Start.total_sectors_large (BootParamBlock.bpb_start b)) →
  0 < BootParamBlock.sectors_per_fat b →
  BootParamBlock.validate b = Ret true.
Proof.
  intros (Hb & Hf & Hr & Hr') Hs Hroot Ht Hspf. cbn zeta in Hs. unfold BootParamBlock.validate.
  rewrite Hb, Hf, Hr. cbn [is_power_of_two]. change (is_power_of_two 512) with true. cbn [negb orb].
  rewrite (mul_w_ok 32) by lia. cbn [mbind out_bind].
  assert (negb (is_power_of_two (BootParamBlock.sectors_per_cluster b))
          || (32 * 1024 <? 512 * BootParamBlock.sectors_per_cluster b) = false) as ->.
  { destruct Hs as [-> | [-> | [-> | [-> | ->]]]]; done. }
  rewrite (proj2 (Z.eqb_neq reserved 0)) by lia. cbn [Z.eqb orb Z.ltb Z.compare].
  rewrite mul_w_ok by (destruct Hroot as [-> | ->]; done). cbn [mbind out_bind].
  assert (negb ((BootParamBlock.root_entries b * DIR_ENTRY_SIZE) mod 512 =? 0) = false) as ->.
  { destruct Hroot as [-> | ->]; done. }
  rewrite (proj2 (Z.eqb_neq (BootParamBlock.sectors_per_fat b) 0)) by lia.
  destruct Ht as [[H1 ->] | [-> H1]].
  - by rewrite (proj2 (Z.eqb_neq (Start.total_sectors _) 0)) by lia.
  - by rewrite (proj2 (Z.eqb_neq (Start.total_sectors_large _) 0)) by lia.
Qed.

(** Automatic configuration for FAT12 and FAT16: for every volume of 512-byte
    sectors that has room for more than the reserved sectors and the root
    directory, up to 127 GiB, [configure_for_volume_size] returns a block that
    [validate] accepts, that records the size of the volume, and whose FATs have
    an entry for every cluster of the data area. *)
Theorem bpb_configure_spec self reserved size :
  std_block self reserved → 0 ≤ size →
  reserved + root_sectors (size / 512) < size / 512 ≤ 127 * 2 ^ 21 →
  ∃ b, BootParamBlock.configure_for_volume_size self size = Ret b ∧
    BootParamBlock.validate b = Ret true ∧ BootParamBlock.is_fat32 b = false ∧
    BootParamBlock.total_sectors b = size / 512 ∧
    data_clusters b + 2 ≤ slots (type_of (size / 512)) (BootParamBlock.sectors_per_fat b * 512).
Proof.
  intros Hstd Hs Hn. set (n := size / 512) in *.
  destruct (configure_ok self reserved size) as (b & Hb & Hstd' & Ht & Hspc & Hroot & Hf & _ & Eb);
    [done | done | fold n; lia |]. fold n in Hb, Ht, Hspc, Hroot, Hf, Eb.
  pose proof (choose_spc_range n) as Hr. cbn zeta in Hr. pose proof (root_sectors_range n) as Hrs.
  set (spc := BootParamBlock.choose_sectors_per_cluster n) in *.
  set (c := (n - reserved - root_sectors n) / spc) in *.
  assert (0 ≤ c ∧ spc * c ≤ n - reserved - root_sectors n < spc * c + spc) as Hc.
  { subst c. destruct Hr as [-> | [-> | [-> | [-> | ->]]]]; lia. }
  assert (0 < fat_sectors (type_of n) c) as Hpos.
  { unfold type_of, fat_sectors, spc, BootParamBlock.choose_sectors_per_cluster in *.
    repeat case_match; lia. }
  pose proof Hstd' as (Hbps & Hfc & Hres & Hrng).
  exists b. split_and!; [done | | | done |].
  - apply (validate_ok b reserved); [done | by rewrite Hspc | | | by rewrite Hf].
    + rewrite Hroot. unfold BootParamBlock.choose_root_entries. destruct (n <? 16450); auto.
    + rewrite Eb. clear Eb. cbn. destruct (Z.leb_spec n 0xFFFF); lia.
  - unfold BootParamBlock.is_fat32. rewrite Hf. apply Z.eqb_neq. lia.
  - unfold data_clusters. rewrite Ht, Hres, Hfc, Hf, Hspc.
    set (f := fat_sectors (type_of n) c) in *.
    assert ((n - reserved - root_sectors n - 2 * f) / spc ≤ c) as Hle.
    { subst c. apply Z.div_le_mono; [destruct Hr as [-> | [-> | [-> | [-> | ->]]]] |]; lia. }
    unfold type_of in *. destruct (Z.ltb_spec n 4085) as [Hlt|Hge]; unfold slots, fat_sectors in *.
    + assert (spc = 1) as E.
      { unfold spc, BootParamBlock.choose_sectors_per_cluster. by rewrite (proj2 (Z.ltb_lt n 4085)). }
      rewrite E in *. rewrite Z.div_1_r. subst f. lia.
    + subst f. lia.
Qed.

Lemma bpb_configure_spec_witness :
  ∃ b, BootParamBlock.configure_for_volume_size BootParamBlock.new 1474560 = Ret b ∧
    BootParamBlock.validate b = Ret true ∧ BootParamBlock.is_fat32 b = false ∧
    BootParamBlock.total_sectors b = 1474560 / 512 ∧
    data_clusters b + 2 ≤ slots (type_of (1474560 / 512)) (BootParamBlock.sectors_per_fat b * 512).
Proof.
  apply (bpb_configure_spec BootParamBlock.new 1 1474560).
  - vm_compute. intuition congruence.
  - lia.
  - vm_compute. intuition congruence.
Defined.

(** ** FAT32 *)

(** A block as [new_fat32] makes it, apart from its reserved sectors and labels. *)
Definition std_block32 (b : ExtendedBootParamBlock.t) (reserved : Z) : Prop :=
  ExtendedBootParamBlock.bytes_per_sector b = 512 ∧ ExtendedBootParamBlock.fat_count b = 2 ∧
  ExtendedBootParamBlock.root_entries b = 0 ∧
  ExtendedBootParamBlock.reserved_sectors b = reserved ∧ 0 < reserved < 2 ^ 16 ∧
  ExtendedBootParamBlock.backup_boot_sector b < reserved ∧
  ExtendedBootParamBlock.fs_info_sector b < reserved.

Lemma choose_spc32_range n :
  let s := ExtendedBootParamBlock.choose_sectors_per_cluster n in
  s = 1 ∨ s = 8 ∨ s = 16 ∨ s = 32 ∨ s = 64.
Proof. unfold ExtendedBootParamBlock.choose_sectors_per_cluster. repeat case_match; auto 10. Qed.

(** The clusters estimated for [n] sectors are far below the 32-bit limit. *)
Lemma clusters32_le reserved sectors :
  0 < reserved → 0 ≤ sectors →
  (Z.min sectors (2 ^ 32 - 1) - reserved) / ExtendedBootParamBlock.choose_sectors_per_cluster sectors
    < 2 ^ 27.
Proof.
  intros Hr Hs. unfold ExtendedBootParamBlock.choose_sectors_per_cluster. repeat case_match; lia.
Qed.

Lemma validate32_ok b reserved :
  std_block32 b reserved →
  (let s := ExtendedBootParamBlock.sectors_per_cluster b in
   s = 1 ∨ s = 8 ∨ s = 16 ∨ s = 32 ∨ s = 64) →
  Start.total_sectors (ExtendedBootParamBlock.bpb_start b) = 0 →
  0 < Start.total_sectors_large (ExtendedBootParamBlock.bpb_start b) →
  0 < ExtendedBootParamBlock.sectors_per_fat b →
  ExtendedBootParamBlock.validate b = Ret true.
Proof.
  intros (Hb & Hf & Hro & Hr & Hr' & Hbk & Hfs) Hs Ht0 Ht Hspf. cbn zeta in Hs.
  unfold ExtendedBootParamBlock.validate.
  rewrite Hb, Hf, Hr, Hro. change (is_power_of_two 512) with true. cbn [negb orb].
  rewrite (mul_w_ok 32) by lia. cbn [mbind out_bind].
  assert (negb (is_power_of_two (ExtendedBootParamBlock.sectors_per_cluster b))
          || (32 * 1024 <? 512 * ExtendedBootParamBlock.sectors_per_cluster b) = false) as ->.
  { destruct Hs as [-> | [-> | [-> | [-> | ->]]]]; done. }
  rewrite (proj2 (Z.eqb_neq reserved 0)), !(proj2 (Z.leb_gt reserved _)), Ht0 by lia.
  rewrite (proj2 (Z.eqb_neq (Start.total_sectors_large _) 0)) by lia.
  by rewrite (proj2 (Z.eqb_neq (ExtendedBootParamBlock.sectors_per_fat b) 0)) by lia.
Qed.

Lemma calculate32 b reserved n spc :
  ExtendedBootParamBlock.bytes_per_sector b = 512 →
  ExtendedBootParamBlock.reserved_sectors b = reserved →
  ExtendedBootParamBlock.total_sectors b = n → ExtendedBootParamBlock.sectors_per_cluster b = spc →
  0 < spc → reserved ≤ n → 0 ≤ (n - reserved) / spc < 2 ^ 27 →
  let f := (((n - reserved) / spc + 100) * 4 + 511) / 512 in
  ExtendedBootParamBlock.calculate_sectors_per_fat b = Ret (f + f / 20).
Proof.
  intros Hb Hr Hn Hs Hspc Hle Hc f. unfold ExtendedBootParamBlock.calculate_sectors_per_fat.
  rewrite Hb, Hr, Hn, Hs. rewrite sub_w_ok by lia. cbn [mbind out_bind].
  rewrite sub_w_ok by lia. cbn [mbind out_bind]. rewrite Z.sub_0_r, div_w_ok by lia.
  cbn [mbind out_bind]. set (c := (n - reserved) / spc) in *. clearbody c.
  rewrite add_w_ok by lia. cbn [mbind out_bind]. rewrite mul_w_ok by lia. cbn [mbind out_bind].
  rewrite div_ceil_ok by lia. cbn [mbind out_bind].
  replace (((c + 100) * 4 + 512 - 1) / 512) with f by (subst f; f_equal; lia).
  apply add_w_ok. subst f. lia.
Qed.

(** Automatic configuration for FAT32, for every volume size: a volume with
    fewer sectors than are reserved makes [configure_for_volume_size] panic; on
    every other one it returns a block that [validate] accepts, that records the
    number of sectors (at most [u32::MAX]), whose clusters all have valid numbers
    and whose FATs have an entry for each of them. *)
Theorem bpb32_configure_spec self reserved size :
  std_block32 self reserved → is_u64 size →
  let n := Z.min (size / 512) (2 ^ 32 - 1) in
  if size / 512 <? reserved
  then ExtendedBootParamBlock.configure_for_volume_size self size = Panic
  else ∃ b, ExtendedBootParamBlock.configure_for_volume_size self size = Ret b ∧
    ExtendedBootParamBlock.validate b = Ret true ∧
    ExtendedBootParamBlock.total_sectors b = n ∧
    let clusters := (n - reserved) / ExtendedBootParamBlock.sectors_per_cluster b in
    Cluster.is_valid (clusters + 2) Fat32 = true ∧
    clusters + 2 ≤ slots Fat32 (ExtendedBootParamBlock.sectors_per_fat b * 512).
Proof.
  intros Hstd Hs n. pose proof Hstd as (Hb & Hf & Hro & Hr & Hr' & Hbk & Hfs). unfold is_uint in Hs.
  unfold ExtendedBootParamBlock.configure_for_volume_size. rewrite Hb, div_w_ok by lia.
  cbn [mbind out_bind]. set (sectors := size / 512) in *.
  assert (default (2 ^ 32 - 1) (u32_try_from sectors) = n) as ->.
  { unfold u32_try_from, n. destruct (Z.ltb_spec sectors (2 ^ 32)); cbn; lia. }
  pose proof (choose_spc32_range sectors) as Hspc. cbn zeta in Hspc.
  pose proof (clusters32_le reserved sectors ltac:(lia) ltac:(lia)) as Hc. fold n in Hc.
  set (spc := ExtendedBootParamBlock.choose_sectors_per_cluster sectors) in *.
  set (b := ExtendedBootParamBlock.assign_start self 0 n spc).
  destruct (Z.ltb_spec sectors reserved) as [Hlt|Hge].
  { unfold ExtendedBootParamBlock.calculate_sectors_per_fat.
    change (ExtendedBootParamBlock.total_sectors b) with n.
    change (ExtendedBootParamBlock.reserved_sectors b) with
      (ExtendedBootParamBlock.reserved_sectors self).
    rewrite Hr. unfold sub_w. by rewrite (proj2 (Z.leb_gt _ _)) by lia. }
  assert (0 ≤ (n - reserved) / spc) as Hc0 by (apply Z.div_pos; lia).
  rewrite (calculate32 b reserved n spc) by (done || lia). cbn [mbind out_bind].
  set (c := (n - reserved) / spc) in *. set (f := ((c + 100) * 4 + 511) / 512).
  eexists. split; [done|]. split_and!.
  - apply (validate32_ok _ reserved); [done | done | done | cbn; lia | cbn; lia].
  - done.
  - change ((n - reserved) / ExtendedBootParamBlock.sectors_per_cluster _) with c. cbn. lia.
  - change ((n - reserved) / ExtendedBootParamBlock.sectors_per_cluster _) with c.
    cbn. fold f. subst f. lia.
Qed.

Definition demo_block32 : ExtendedBootParamBlock.t :=
  Eval vm_compute in
  match ExtendedBootParamBlock.new_fat32 with
  | Ret b => b
  | Panic => ExtendedBootParamBlock.mk Start.new 0 0 0 0 0 0 0 [] End_.new
  end.

Lemma bpb32_configure_spec_witness :
  ExtendedBootParamBlock.new_fat32 = Ret demo_block32 ∧
  ∃ b, ExtendedBootParamBlock.configure_for_volume_size demo_block32 (2 ^ 36) = Ret b ∧
    ExtendedBootParamBlock.validate b = Ret true ∧
    ExtendedBootParamBlock.total_sectors b = Z.min (2 ^ 36 / 512) (2 ^ 32 - 1) ∧
    let clusters :=
      (Z.min (2 ^ 36 / 512) (2 ^ 32 - 1) - 32) / ExtendedBootParamBlock.sectors_per_cluster b in
    Cluster.is_valid (clusters + 2) Fat32 = true ∧
    clusters + 2 ≤ slots Fat32 (ExtendedBootParamBlock.sectors_per_fat b * 512).
Proof.
  split; [reflexivity|]. apply (bpb32_configure_spec demo_block32 32 (2 ^ 36)).
  - vm_compute. intuition congruence.
  - unfold is_uint. lia.
Defined.

(** ** Volumes for which the configuration goes wrong *)

(** A volume of 1 GiB is labelled FAT16 although it has 131005 clusters, twice as
    many as 16-bit entries can number. *)
Lemma fat16_too_many_clusters :
  match BootParamBlock.configure_for_volume_size BootParamBlock.new (2 ^ 30) with
  | Ret b => BootParamBlock.validate b = Ret true ∧ End_.fs_type (BootParamBlock.bpb_end b) = FAT16_ ∧
             0xFFF6 < data_clusters b
  | Panic => False
  end.
Proof. vm_compute. auto. Qed.

(** A volume of 3 MiB, which the choice of the cluster size takes for FAT12, is
    labelled FAT16. *)
Lemma small_volume_labelled_fat16 :
  match BootParamBlock.configure_for_volume_size BootParamBlock.new (3 * 2 ^ 20) with
  | Ret b => End_.fs_type (BootParamBlock.bpb_end b) = FAT16_ ∧ data_clusters b < 4085
  | Panic => False
  end.
Proof. vm_compute. auto. Qed.

(** With sectors of 2048 bytes, 224 root entries do not fill whole sectors, so
    that the block configured for a volume of 1 MiB is not valid. *)
Lemma large_sectors_invalid :
  (b ← BootParamBlock.with_bytes_per_sector BootParamBlock.new 2048;
   b ← BootParamBlock.configure_for_volume_size b (2 ^ 20);
   BootParamBlock.validate b) = Ret false.
Proof. vm_compute. reflexivity. Qed.

(** [with_total_sectors(0)] leaves the large count, so that the old number of
    sectors stays in force. *)
Lemma with_total_sectors_zero b :
  Start.total_sectors (BootParamBlock.bpb_start b) = 0 →
  BootParamBlock.total_sectors (BootParamBlock.with_total_sectors b 0) =
    BootParamBlock.total_sectors b.
Proof. intros H. unfold BootParamBlock.total_sectors. cbn. by rewrite H. Qed.

Lemma with_total_sectors_get b n :
  0 < n → BootParamBlock.total_sectors (BootParamBlock.with_total_sectors b n) = n.
Proof.
  intros Hn. unfold BootParamBlock.with_total_sectors, u16_try_from, BootParamBlock.total_sectors.
  destruct (Z.ltb_spec n (2 ^ 16)); cbn; rewrite (proj2 (Z.eqb_neq n 0)) by lia; done.
Qed.
