(* ===== verification/Threads.v ===== *)
(** * Interleavings of threads

    Concurrent code is modelled by the steps of one thread: each step does one
    access to the shared state.  A configuration is the shared state and the
    control state of every thread, and the threads take turns in any order.  The
    interleaving is sequentially consistent, which for the code modelled here
    (atomic read-modify-write operations and plain loads and stores that
    synchronise through them) is what x86-64 gives. *)

From S2P Require Import Prelude.

Section threads.

Context {S L : Type} (step : nat → S → L → S → L → Prop).

(** Thread [i] takes a step. *)
Inductive thread_step : nat → S * list L → S * list L → Prop :=
| Thread_step i s ls l s' l' :
    ls !! i = Some l → step i s l s' l' → thread_step i (s, ls) (s', <[i := l']> ls).

Definition any_step (c c' : S * list L) : Prop := ∃ i, thread_step i c c'.

(** The configurations that [n] threads in the control state [idle] can reach. *)
Definition reachable (s : S) (idle : L) (n : nat) : S * list L → Prop :=
  rtc any_step (s, replicate n idle).

(** Induction over reachable configurations. *)
Lemma reachable_inv (I : S * list L → Prop) s idle n :
  I (s, replicate n idle) →
  (∀ i c c', I c → thread_step i c c' → I c') →
  ∀ c, reachable s idle n c → I c.
Proof.
  intros H0 Hstep c Hc. unfold reachable in Hc.
  assert (∀ c0, rtc any_step c0 c → I c0 → I c) as Hgen; [|by apply (Hgen _ Hc)].
  clear H0 Hc. intros c0 Hc. induction Hc as [|c1 c2 c3 [i H12] _ IH]; [done|].
  intros H1. apply IH. by apply (Hstep i c1).
Qed.

Lemma thread_step_inv i s ls c' :
  thread_step i (s, ls) c' →
  ∃ l s' l', ls !! i = Some l ∧ step i s l s' l' ∧ c' = (s', <[i := l']> ls).
Proof. intros H. inversion H; subst. eauto 10. Qed.

Lemma thread_step_length i c c' : thread_step i c c' → length c'.2 = length c.2.
Proof.
  destruct c as [s ls]. intros (l & s' & l' & _ & _ & ->)%thread_step_inv. apply length_insert.
Qed.

Lemma reachable_length s idle n c : reachable s idle n c → length c.2 = n.
Proof.
  revert c. apply reachable_inv; [by apply length_replicate|].
  intros i c c' Hl Hs. by rewrite (thread_step_length _ _ _ Hs).
Qed.

End threads.

(** ** Counting threads *)

Section count.

Context {L : Type} (P : L → bool).

Definition one (l : L) : Z := if P l then 1 else 0.
Definition count (ls : list L) : Z := foldr (λ l n, one l + n) 0 ls.

Lemma count_cons l ls : count (l :: ls) = one l + count ls.
Proof. done. Qed.

Lemma one_range l : 0 ≤ one l ≤ 1.
Proof. unfold one. destruct (P l); lia. Qed.

Lemma count_nonneg ls : 0 ≤ count ls.
Proof. induction ls as [|l ls IH]; [done|]. rewrite count_cons. pose proof (one_range l). lia. Qed.

Lemma count_le ls : count ls ≤ Z.of_nat (length ls).
Proof. induction ls as [|l ls IH]; [done|]. rewrite count_cons. cbn [length]. pose proof (one_range l). lia. Qed.

Lemma count_replicate n l : P l = false → count (replicate n l) = 0.
Proof. intros Hl. induction n as [|n IH]; [done|]. cbn [replicate]. rewrite count_cons, IH. unfold one. by rewrite Hl. Qed.

Lemma count_insert i l l' ls :
  ls !! i = Some l → count (<[i := l']> ls) = count ls - one l + one l'.
Proof.
  revert i. induction ls as [|x ls IH]; intros [|i] Hi; cbn in Hi; try done.
  - injection Hi as ->. change (<[0%nat := l']> (l :: ls)) with (l' :: ls). rewrite !count_cons. lia.
  - change (<[S i := l']> (x :: ls)) with (x :: <[i := l']> ls). rewrite !count_cons, IH by done. lia.
Qed.

Lemma count_pos ls i l : ls !! i = Some l → P l = true → 1 ≤ count ls.
Proof.
  revert i. induction ls as [|x ls IH]; intros [|i] Hi Hl; cbn in Hi; try done; rewrite count_cons.
  - injection Hi as ->. pose proof (count_nonneg ls). unfold one. rewrite Hl. lia.
  - pose proof (IH i Hi Hl). pose proof (one_range x). lia.
Qed.

Lemma count_one ls i l : ls !! i = Some l → one l ≤ count ls.
Proof.
  intros Hi. unfold one. destruct (P l) eqn:Hl; [by apply (count_pos ls i l) | apply count_nonneg].
Qed.

Lemma count_zero ls i l : count ls = 0 → ls !! i = Some l → P l = false.
Proof.
  intros H0 Hi. destruct (P l) eqn:Hl; [|done]. pose proof (count_pos ls i l Hi Hl). lia.
Qed.

(** Two threads in [P] are two in the count. *)
Lemma count_two ls i j l l' :
  i ≠ j → ls !! i = Some l → ls !! j = Some l' → P l = true → P l' = true → 2 ≤ count ls.
Proof.
  revert i j. induction ls as [|x ls IH]; intros [|i] [|j] Hij Hi Hj Hl Hl'; cbn in Hi, Hj; try done;
    rewrite count_cons.
  - injection Hi as ->. unfold one. rewrite Hl. pose proof (count_pos ls j l' Hj Hl'). lia.
  - injection Hj as ->. unfold one. rewrite Hl'. pose proof (count_pos ls i l Hi Hl). lia.
  - pose proof (one_range x). assert (2 ≤ count ls); [|lia].
    apply (IH i j); [congruence | done..].
Qed.

Lemma count_ex ls : 1 ≤ count ls → ∃ i l, ls !! i = Some l ∧ P l = true.
Proof.
  induction ls as [|x ls IH]; [done|]. rewrite count_cons. unfold one. destruct (P x) eqn:Hx; intros H.
  - by exists 0%nat, x.
  - destruct IH as (i & l & Hi & Hl); [lia|]. by exists (S i), l.
Qed.

End count.

Lemma count_ext {L} (P Q : L → bool) ls :
  (∀ i l, ls !! i = Some l → P l = Q l) → count P ls = count Q ls.
Proof.
  induction ls as [|x ls IH]; intros HPQ; [done|]. rewrite !count_cons. unfold one.
  rewrite (HPQ 0%nat x eq_refl), IH; [done|]. intros i l Hi. by apply (HPQ (S i)).
Qed.

Lemma count_none {L} (P : L → bool) ls :
  (∀ i l, ls !! i = Some l → P l = false) → count P ls = 0.
Proof.
  intros HP. rewrite (count_ext P (λ _, false)) by done. clear HP.
  induction ls as [|x ls IH]; [done|]. by rewrite count_cons, IH.
Qed.

Lemma count_mono {L} (P Q : L → bool) ls :
  (∀ l, P l = true → Q l = true) → count P ls ≤ count Q ls.
Proof.
  intros HPQ. induction ls as [|x ls IH]; [done|]. rewrite !count_cons. unfold one.
  destruct (P x) eqn:Hx; [rewrite (HPQ x Hx); lia|]. destruct (Q x); lia.
Qed.

Lemma count_app {L} (P : L → bool) l l' : count P (l ++ l') = count P l + count P l'.
Proof. induction l as [|x l IH]; [done|]. rewrite <- app_comm_cons, !count_cons, IH. lia. Qed.

Lemma count_all {L} (P : L → bool) l : (∀ x, x ∈ l → P x = true) → count P l = Z.of_nat (length l).
Proof.
  induction l as [|x l IH]; intros HP; [done|]. rewrite count_cons, IH by (intros; apply HP; by right).
  unfold one. rewrite HP by (by left). cbn [length]. lia.
Qed.

(** ** Sums over threads *)

Section total.

Context {L : Type} (w : L → Z).

Definition total (ls : list L) : Z := foldr (λ l n, w l + n) 0 ls.

Lemma sum_cons l ls : total (l :: ls) = w l + total ls.
Proof. done. Qed.

Lemma total_insert i l l' ls : ls !! i = Some l → total (<[i := l']> ls) = total ls - w l + w l'.
Proof.
  revert i. induction ls as [|x ls IH]; intros [|i] Hi; cbn in Hi; try done.
  - injection Hi as ->. change (<[0%nat := l']> (l :: ls)) with (l' :: ls). rewrite !sum_cons. lia.
  - change (<[S i := l']> (x :: ls)) with (x :: <[i := l']> ls). rewrite !sum_cons, IH by done. lia.
Qed.

Lemma total_bound b ls : (∀ i l, ls !! i = Some l → w l ≤ b) → total ls ≤ b * Z.of_nat (length ls).
Proof.
  induction ls as [|x ls IH]; intros Hb; [cbn; lia|]. rewrite sum_cons. cbn [length].
  pose proof (Hb 0%nat x eq_refl). pose proof (IH (λ i, Hb (S i))). lia.
Qed.

Lemma sum_nonneg ls : (∀ l, 0 ≤ w l) → 0 ≤ total ls.
Proof. intros Hw. induction ls as [|x ls IH]; [done|]. rewrite sum_cons. pose proof (Hw x). lia. Qed.

Lemma total_one ls i l : (∀ l, 0 ≤ w l) → ls !! i = Some l → w l ≤ total ls.
Proof.
  intros Hw. revert i. induction ls as [|x ls IH]; intros [|i] Hi; cbn in Hi; try done; rewrite sum_cons.
  - injection Hi as ->. pose proof (sum_nonneg ls Hw). lia.
  - pose proof (IH i Hi). pose proof (Hw x). lia.
Qed.

(** Two different threads. *)
Lemma total_two ls i j l l' :
  (∀ l, 0 ≤ w l) → i ≠ j → ls !! i = Some l → ls !! j = Some l' → w l + w l' ≤ total ls.
Proof.
  intros Hw. revert i j. induction ls as [|x ls IH]; intros [|i] [|j] Hij Hi Hj; cbn in Hi, Hj; try done; rewrite sum_cons.
  - injection Hi as ->. pose proof (total_one ls j l' Hw Hj). lia.
  - injection Hj as ->. pose proof (total_one ls i l Hw Hi). lia.
  - pose proof (Hw x). assert (w l + w l' ≤ total ls); [|lia]. apply (IH i j); [congruence | done..].
Qed.

End total.

(** Runs thread [i] by one [rule] towards a configuration to be reached. *)
Ltac run i rule :=
  eapply rtc_l; [exists i; eapply Thread_step; [reflexivity | eapply rule; reflexivity] | cbn].

(** The same for a [rule] with premises that are not equations. *)
Ltac run_by i rule :=
  eapply rtc_l; [exists i; eapply Thread_step; [reflexivity | by eapply rule] | cbn].
