(* ===== verification/RwLock.v ===== *)
(** * The read-write lock

    [hyperdrive/src/locks/rw.rs]: a counter of readers and a flag of the writer,
    with priority for the writer.  Each constructor of [step] is one atomic access
    (or the call of an operation) of a thread. *)

From S2P Require Import Prelude Threads.

Record AtomicState := mkState { readers : Z; writer : bool }.

Module AtomicState.

Definition new : AtomicState := mkState 0 false.

(** [readers.fetch_add(1)] and [readers.fetch_sub(1)], which wrap around. *)
Definition add_reader (self : AtomicState) : AtomicState :=
  mkState (wrapping_add 32 (readers self) 1) (writer self).
Definition sub_reader (self : AtomicState) : AtomicState :=
  mkState ((readers self - 1) mod 2 ^ 32) (writer self).
Definition set_writer (self : AtomicState) (b : bool) : AtomicState := mkState (readers self) b.

End AtomicState.

Record RwLock (A : Type) := mkRwLock { state : AtomicState; data : A }.
Arguments mkRwLock {A} state data.
Arguments state {A} r.
Arguments data {A} r.

(** Where a thread is. *)
Inductive pc : Set :=
| Idle
| ReadCheck    (** in [while self.writer.load(..)] of [read_lock] *)
| ReadAdd      (** before [self.readers.fetch_add(1, ..)] *)
| ReadRecheck  (** before [if self.writer.load(..)] *)
| ReadUndo     (** before [self.readers.fetch_sub(1, ..)] of [read_lock] *)
| Reading      (** has a [ReadGuard] *)
| WriteTry     (** in the loop on [compare_exchange] of [write_lock] *)
| WriteWait    (** in [while self.readers.load(..) != 0] *)
| Writing.     (** has a [WriteGuard] *)

Global Instance pc_eq_dec : EqDecision pc.
Proof. solve_decision. Defined.

Module RwLock.

Section lock.

Context {A : Type}.

Definition new (data : A) : RwLock A := mkRwLock AtomicState.new data.
Definition into_inner (self : RwLock A) : A := data self.

Definition set_state (self : RwLock A) (st : AtomicState) : RwLock A := mkRwLock st (data self).

Inductive step : nat → RwLock A → pc → RwLock A → pc → Prop :=
(** [read] and [read_lock] *)
| Read_call i s : step i s Idle s ReadCheck
| Read_spin i s : writer (state s) = true → step i s ReadCheck s ReadCheck
| Read_pass i s : writer (state s) = false → step i s ReadCheck s ReadAdd
| Read_add i s : step i s ReadAdd (set_state s (AtomicState.add_reader (state s))) ReadRecheck
| Read_conflict i s : writer (state s) = true → step i s ReadRecheck s ReadUndo
| Read_enter i s : writer (state s) = false → step i s ReadRecheck s Reading
| Read_undo i s : step i s ReadUndo (set_state s (AtomicState.sub_reader (state s))) ReadCheck
(** [Drop for ReadGuard] and [read_unlock] *)
| Read_drop i s : step i s Reading (set_state s (AtomicState.sub_reader (state s))) Idle
(** [write] and [write_lock] *)
| Write_call i s : step i s Idle s WriteTry
| Write_spin i s : writer (state s) = true → step i s WriteTry s WriteTry
| Write_cas i s :
    writer (state s) = false →
    step i s WriteTry (set_state s (AtomicState.set_writer (state s) true)) WriteWait
| Write_wait i s : readers (state s) ≠ 0 → step i s WriteWait s WriteWait
| Write_enter i s : readers (state s) = 0 → step i s WriteWait s Writing
(** [DerefMut for WriteGuard] *)
| Write_store i s d : step i s Writing (mkRwLock (state s) d) Writing
(** [Drop for WriteGuard] and [write_unlock] *)
| Write_drop i s :
    step i s Writing (set_state s (AtomicState.set_writer (state s) false)) Idle.

End lock.

End RwLock.

(** ** The invariant *)

(** Threads that count as readers, threads that own the writer flag, and threads
    with a guard. *)
Definition counted (l : pc) : bool :=
  match l with ReadRecheck | ReadUndo | Reading => true | _ => false end.
Definition owner (l : pc) : bool := match l with WriteWait | Writing => true | _ => false end.
Definition reading (l : pc) : bool := match l with Reading => true | _ => false end.
Definition writing (l : pc) : bool := match l with Writing => true | _ => false end.

Section proofs.

Context {A : Type}.

Definition rw_inv (c : RwLock A * list pc) : Prop :=
  readers (state c.1) = count counted c.2 ∧
  count owner c.2 = (if writer (state c.1) then 1 else 0) ∧
  (count writing c.2 = 0 ∨ count reading c.2 = 0).

Lemma rw_inv_step n i c c' :
  Z.of_nat n < 2 ^ 32 → length c.2 = n → rw_inv c → thread_step RwLock.step i c c' → rw_inv c'.
Proof.
  intros Hn Hl (Hr & Ho & Hx) Hs. destruct c as [s ls].
  apply thread_step_inv in Hs as (l & s' & l' & Hi & Hs & ->). cbn [fst snd] in *.
  pose proof (count_le counted (<[i := l']> ls)) as Hle. rewrite length_insert, Hl in Hle.
  pose proof (count_nonneg counted (<[i := l']> ls)) as Hge.
  pose proof (count_nonneg owner (<[i := l']> ls)).
  pose proof (count_mono reading counted ls ltac:(by intros [])) as Hrc.
  pose proof (count_mono writing owner ls ltac:(by intros [])) as Hwo.
  pose proof (count_nonneg reading ls). pose proof (count_nonneg writing ls).
  unfold rw_inv. cbn [fst snd].
  rewrite (count_insert counted i l l' ls Hi) in *. rewrite (count_insert owner i l l' ls Hi) in *.
  rewrite (count_insert writing i l l' ls Hi), (count_insert reading i l l' ls Hi).
  destruct Hs as [| | | | |i s Hw|i s|i s| | |i s Hw| |i s Hr0| |i s];
    cbn [one counted owner reading writing RwLock.set_state state AtomicState.add_reader
      AtomicState.sub_reader AtomicState.set_writer readers writer] in *;
    unfold wrapping_add; try (rewrite Z.mod_small by lia); try lia.
  - rewrite Hw in *. lia.
  - pose proof (count_pos reading ls i Reading Hi eq_refl). lia.
  - rewrite Hw in *. lia.
  - pose proof (count_pos writing ls i Writing Hi eq_refl). destruct (writer (state s)); lia.
Qed.

Lemma rw_inv_init n (d : A) : rw_inv (RwLock.new d, replicate n Idle).
Proof. unfold rw_inv. cbn [fst snd]. rewrite !count_replicate by done. auto. Qed.

Lemma rw_reachable n (d : A) c :
  Z.of_nat n < 2 ^ 32 → reachable RwLock.step (RwLock.new d) Idle n c →
  length c.2 = n ∧ rw_inv c.
Proof.
  intros Hn. revert c. apply reachable_inv.
  - split; [apply length_replicate | apply rw_inv_init].
  - intros i c c' [Hl Hc] Hs. split; [|by apply (rw_inv_step n i c)].
    by rewrite (thread_step_length _ _ _ _ Hs).
Qed.

(** A thread with a guard keeps out the threads that must not have one. *)
Lemma rw_inv_excl c i j l :
  rw_inv c → c.2 !! i = Some Writing → c.2 !! j = Some l → i ≠ j →
  reading l = false ∧ owner l = false.
Proof.
  intros (_ & Ho & Hx) Hi Hj Hij. split.
  - pose proof (count_pos writing _ _ _ Hi eq_refl). apply (count_zero reading c.2 j); [lia | done].
  - destruct (owner l) eqn:E; [|done].
    pose proof (count_two owner _ i j _ _ Hij Hi Hj eq_refl E). destruct (writer _); lia.
Qed.

(** With no operation in progress the threads that count are those with a guard. *)
Lemma settled_count (ls : list pc) :
  Forall (λ l, l = Idle ∨ l = Reading ∨ l = Writing) ls → count counted ls = count reading ls ∧ count owner ls = count writing ls.
Proof.
  induction 1 as [|l ls Hl _ IH]; [done|]. unfold count in *. cbn.
  destruct Hl as [->|[->| ->]]; cbn; lia.
Qed.

End proofs.

(** ** Properties *)

(** C31: mutual exclusion of the read-write lock, for any number of threads below
    2^32 and every interleaving: while a thread has the write guard no other
    thread has a guard, and only the thread with the write guard changes the data.
    The counter of readers never wraps: it is the number of read guards and of
    calls of [read_lock] that have counted themselves and not yet decided.  The flag
    is up exactly while one thread has the write guard or waits for the readers, so
    that with no call of an operation in progress both are those of the guards. *)
Theorem rw_exclusion {A} n (d : A) c :
  Z.of_nat n < 2 ^ 32 → reachable RwLock.step (RwLock.new d) Idle n c →
  (∀ i j l, c.2 !! i = Some Writing → c.2 !! j = Some l → i ≠ j → l ≠ Reading ∧ l ≠ Writing) ∧
  (∀ i c', thread_step RwLock.step i c c' → data c'.1 ≠ data c.1 →
     c.2 !! i = Some Writing ∧
     ∀ j l, c.2 !! j = Some l → i ≠ j → l ≠ Reading ∧ l ≠ Writing) ∧
  readers (state c.1) = count counted c.2 ∧
  count owner c.2 = (if writer (state c.1) then 1 else 0) ∧
  (Forall (λ l, l = Idle ∨ l = Reading ∨ l = Writing) c.2 →
     readers (state c.1) = count reading c.2 ∧ count writing c.2 = (if writer (state c.1) then 1 else 0)).
Proof.
  intros Hn Hc. apply rw_reachable in Hc as [_ Hinv]; [|done].
  assert (∀ i j l, c.2 !! i = Some Writing → c.2 !! j = Some l → i ≠ j →
    l ≠ Reading ∧ l ≠ Writing) as Hex.
  { intros i j l Hi Hj Hij. destruct (rw_inv_excl c i j l) as [H1 H2]; [done..|].
    split; intros ->; done. }
  split; [done|]. split.
  - intros i c' Hs Hd. destruct c as [s ls].
    apply thread_step_inv in Hs as (l & s' & l' & Hi & Hs & ->). cbn [fst snd] in *.
    assert (l = Writing) as -> by (destruct Hs; done). split; [done|].
    intros j l Hj Hij. by apply (Hex i j).
  - destruct Hinv as (Hr & Ho & _). split; [done|]. split; [done|]. intros Hq. destruct (settled_count c.2 Hq). lia.
Qed.

(** A writer that has raised its flag is not overtaken: as long as the flag is
    up, no thread newly gets the read guard. *)
Theorem rw_writer_priority {A} (c c' : RwLock A * list pc) i :
  writer (state c.1) = true → thread_step RwLock.step i c c' →
  ∀ j, c'.2 !! j = Some Reading → c.2 !! j = Some Reading.
Proof.
  intros Hw Hs j Hj. destruct c as [s ls].
  apply thread_step_inv in Hs as (l & s' & l' & Hi & Hs & ->). cbn [fst snd] in *.
  destruct (decide (i = j)) as [<-|Hij].
  - apply list_lookup_insert_Some in Hj as [(_ & -> & _)|[? _]]; [|done].
    inversion Hs; subst; congruence.
  - by rewrite list_lookup_insert_ne in Hj.
Qed.

(** The read-write lock does not deadlock: in every reachable configuration
    in which some thread has called an operation or has a guard, a thread can take
    a step that is not a turn of a waiting loop. *)
Theorem rw_progress {A} n (d : A) c i l :
  Z.of_nat n < 2 ^ 32 → reachable RwLock.step (RwLock.new d) Idle n c →
  c.2 !! i = Some l → l ≠ Idle →
  ∃ j k s' k', c.2 !! j = Some k ∧ k ≠ Idle ∧ RwLock.step j c.1 k s' k' ∧ k' ≠ k.
Proof.
  intros Hn Hc Hi Hl. apply rw_reachable in Hc as [_ (Hr & Ho & _)]; [|done].
  destruct c as [s ls]. cbn [fst snd] in *.
  destruct (decide (1 ≤ count counted ls)) as [H1|H1].
  { apply count_ex in H1 as (j & k & Hj & Hk).
    destruct k; try done; [destruct (writer (state s)) eqn:Hw | |]; eexists j, _, _, _;
      (split; [done|]; split; [done|]; split; [by constructor | done]). }
  destruct (writer (state s)) eqn:Hw.
  - assert (1 ≤ count owner ls) as (j & k & Hj & Hk)%count_ex by lia.
    pose proof (count_nonneg counted ls).
    destruct k; try done; eexists j, _, _, _; (split; [done|]; split; [done|]).
    + split; [apply RwLock.Write_enter; lia | done].
    + split; [apply RwLock.Write_drop | done].
  - pose proof (count_pos counted ls i l Hi) as Hcl. pose proof (count_pos owner ls i l Hi) as Hol.
    pose proof (count_nonneg counted ls).
    destruct l; cbn in Hcl, Hol; try done; try lia; eexists i, _, _, _;
      (split; [done|]; split; [done|]; split; [by constructor | done]).
Qed.

(** ** Examples *)

(** Thread 0 writes while thread 1 waits to read. *)
Definition demo_rw : RwLock Z * list pc := (mkRwLock (mkState 0 true) 7, [Writing; ReadCheck]).

Lemma demo_rw_reachable : reachable RwLock.step (RwLock.new 0) Idle 2 demo_rw.
Proof.
  unfold reachable, demo_rw. cbn [replicate].
  run 1%nat (@RwLock.Read_call Z). run 0%nat (@RwLock.Write_call Z).
  run 0%nat (@RwLock.Write_cas Z). run 0%nat (@RwLock.Write_enter Z).
  eapply rtc_l; [exists 0%nat; eapply Thread_step; [reflexivity | apply (RwLock.Write_store 0 _ 7)]|].
  apply rtc_refl.
Qed.

Lemma rw_exclusion_witness :
  (∀ i j l, demo_rw.2 !! i = Some Writing → demo_rw.2 !! j = Some l → i ≠ j →
     l ≠ Reading ∧ l ≠ Writing) ∧
  (∀ i c', thread_step RwLock.step i demo_rw c' → data c'.1 ≠ data demo_rw.1 →
     demo_rw.2 !! i = Some Writing ∧
     ∀ j l, demo_rw.2 !! j = Some l → i ≠ j → l ≠ Reading ∧ l ≠ Writing) ∧
  readers (state demo_rw.1) = 0 ∧ count owner demo_rw.2 = 1.
Proof.
  destruct (rw_exclusion 2 0 demo_rw) as (H1 & H2 & H3 & H4 & _); [lia | exact demo_rw_reachable |].
  split; [exact H1|]. split; [exact H2|]. split; [exact H3 | exact H4].
Defined.

Lemma rw_writer_priority_witness :
  ∀ j, [Idle; ReadCheck] !! j = Some Reading → [Writing; ReadCheck] !! j = Some Reading.
Proof.
  apply (rw_writer_priority demo_rw
           (mkRwLock (mkState 0 false) 7, [Idle; ReadCheck]) 0).
  - reflexivity.
  - exact (Thread_step RwLock.step 0 demo_rw.1 demo_rw.2 Writing _ Idle eq_refl
             (RwLock.Write_drop 0 demo_rw.1)).
Defined.

Lemma rw_progress_witness :
  ∃ j k s' k', demo_rw.2 !! j = Some k ∧ k ≠ Idle ∧ RwLock.step j demo_rw.1 k s' k' ∧ k' ≠ k.
Proof.
  apply (rw_progress 2 0 demo_rw 1 ReadCheck).
  - lia.
  - exact demo_rw_reachable.
  - reflexivity.
  - congruence.
Defined.
