(* ===== verification/FairLock.v ===== *)
(** * The contract of a fair lock

    The specification that the ticket lock and the MCS lock implement: threads get
    the lock in the order of their calls.  [FairLock] is the interface through which
    the users of a lock see it. *)

From S2P Require Import Prelude Threads.

Module Fifo.

(** The threads that want the lock in the order of their calls, and whether the
    first one has it. *)
Record t := mk { queue : list nat; held : bool }.

Definition init : t := mk [] false.

Inductive step : nat → t → t → Prop :=
| Call i q h : i ∉ q → step i (mk q h) (mk (q ++ [i]) h)
| Acquire i q : step i (mk (i :: q) false) (mk (i :: q) true)
| Release i q : step i (mk (i :: q) true) (mk q false).

Definition any (a a' : t) : Prop := ∃ i, step i a a'.

End Fifo.

(** A lock with shared state [S] ([s0 n] at first, for [n] threads) and control states
    [L], correct for a number of
    threads that [fits]: a simulation of the specification in which the thread that
    has the lock is the first one of the queue. *)
Class FairLock {S L : Type} (step : nat → S → L → S → L → Prop) (s0 : nat → S) (idle : L)
    (holding : L → bool) (fits : nat → Prop) := {
  lock_rel : S * list L → Fifo.t → Prop;
  lock_init n : lock_rel (s0 n, replicate n idle) Fifo.init;
  lock_step i c c' a :
    fits (length c.2) → lock_rel c a → thread_step step i c c' →
    ∃ a', (a' = a ∨ Fifo.step i a a') ∧ lock_rel c' a';
  lock_holder c a i l :
    lock_rel c a → c.2 !! i = Some l → holding l = true → ∃ q, a = Fifo.mk (i :: q) true;
}.

Section fair_lock.

Context {S L : Type} {step : nat → S → L → S → L → Prop} {s0 : nat → S} {idle : L}
  {holding : L → bool} {fits : nat → Prop} `{!FairLock step s0 idle holding fits}.

Lemma lock_reachable n c :
  fits n → reachable step (s0 n) idle n c →
  length c.2 = n ∧ ∃ a, rtc Fifo.any Fifo.init a ∧ lock_rel c a.
Proof.
  intros Hn. revert c. apply reachable_inv.
  - split; [apply length_replicate|]. exists Fifo.init. split; [done | apply lock_init].
  - intros i c c' (Hl & a & Ha & Hrel) Hs. split; [by rewrite (thread_step_length _ _ _ _ Hs)|].
    destruct (lock_step i c c' a) as (a' & Hstep & Hrel'); [by rewrite Hl | done | done |].
    exists a'. split; [|done]. destruct Hstep as [->|Hstep]; [done|].
    eapply rtc_r; [done | by exists i].
Qed.

(** Mutual exclusion follows from the contract. *)
Lemma lock_mutex n c i j l k :
  fits n → reachable step (s0 n) idle n c → c.2 !! i = Some l → c.2 !! j = Some k →
  holding l = true → holding k = true → i = j.
Proof.
  intros Hn Hc Hi Hj Hl Hk. apply lock_reachable in Hc as (_ & a & _ & Hrel); [|done].
  destruct (lock_holder c a i l Hrel Hi Hl) as [q ->].
  destruct (lock_holder c _ j k Hrel Hj Hk) as [q' E]. congruence.
Qed.

End fair_lock.
