(* ===== verification/TicketLock.v ===== *)
(** * The ticket lock

    [hyperdrive/src/locks/ticket.rs]: two 32-bit counters that wrap around.  The
    specification is a queue of threads of which the first may hold the lock. *)

From S2P Require Import Prelude Threads FairLock.

Record TicketLock (A : Type) := mkTicketLock { next_ticket : Z; now_serving : Z; tdata : A }.
Arguments mkTicketLock {A} next_ticket now_serving tdata.
Arguments next_ticket {A} t.
Arguments now_serving {A} t.
Arguments tdata {A} t.

(** Where a thread is. *)
Inductive tpc : Set :=
| TIdle
| Waiting (ticket : Z)  (** in the loop of [lock], with its ticket *)
| Holding.              (** has a [TicketGuard] *)

Module TicketLock.

Section lock.

Context {A : Type}.

Definition new (data : A) : TicketLock A := mkTicketLock 0 0 data.
Definition into_inner (self : TicketLock A) : A := tdata self.

Inductive step : nat → TicketLock A → tpc → TicketLock A → tpc → Prop :=
(** [lock]: [next_ticket.fetch_add(1)] *)
| Take i s :
    step i s TIdle (mkTicketLock (wrapping_add 32 (next_ticket s) 1) (now_serving s) (tdata s))
      (Waiting (next_ticket s))
(** [lock]: [while now_serving.load() != ticket] *)
| Spin i s t : now_serving s ≠ t → step i s (Waiting t) s (Waiting t)
| Enter i s t : now_serving s = t → step i s (Waiting t) s Holding
(** [DerefMut for TicketGuard] *)
| Store i s d : step i s Holding (mkTicketLock (next_ticket s) (now_serving s) d) Holding
(** [Drop for TicketGuard] *)
| Drop_guard i s :
    step i s Holding (mkTicketLock (next_ticket s) (wrapping_add 32 (now_serving s) 1) (tdata s))
      TIdle.

End lock.

End TicketLock.

Section proofs.

Context {A : Type}.

(** The control state of the thread at position [k] of the queue. *)
Definition at_position (s : TicketLock A) (h : bool) (k : nat) : tpc :=
  if h && bool_decide (k = 0%nat) then Holding
  else Waiting ((now_serving s + Z.of_nat k) mod 2 ^ 32).

Definition ticket_rel (c : TicketLock A * list tpc) (a : Fifo.t) : Prop :=
  NoDup (Fifo.queue a) ∧
  (∀ i l, c.2 !! i = Some l → l = TIdle ↔ i ∉ Fifo.queue a) ∧
  (∀ k i, Fifo.queue a !! k = Some i → c.2 !! i = Some (at_position c.1 (Fifo.held a) k)) ∧
  is_uint 32 (now_serving c.1) ∧
  next_ticket c.1 = (now_serving c.1 + Z.of_nat (length (Fifo.queue a))) mod 2 ^ 32 ∧
  (Fifo.held a = true → Fifo.queue a ≠ []).

Lemma at_position_idle s h k : at_position s h k ≠ TIdle.
Proof. unfold at_position. by destruct (h && _). Qed.

(** Not more threads queue up than there are. *)
Lemma ticket_queue_length c a :
  ticket_rel c a → (length (Fifo.queue a) ≤ length c.2)%nat.
Proof.
  intros (Hnd & _ & Hk & _). rewrite <- (length_seq (length c.2) 0).
  apply submseteq_length, NoDup_submseteq; [done|]. intros i [k Hi]%list_elem_of_lookup.
  apply Hk in Hi. apply lookup_lt_Some in Hi. apply elem_of_seq. lia.
Qed.

Lemma ticket_position c a i l :
  ticket_rel c a → c.2 !! i = Some l → l ≠ TIdle →
  ∃ k, Fifo.queue a !! k = Some i ∧ l = at_position c.1 (Fifo.held a) k.
Proof.
  intros (_ & Hidle & Hk & _) Hi Hl.
  destruct (decide (i ∈ Fifo.queue a)) as [Hin|Hin]; [|by destruct Hl; apply (Hidle i l)].
  apply list_elem_of_lookup in Hin as [k Hq]. exists k. split; [done|].
  apply Hk in Hq. congruence.
Qed.

(** Only the first in the queue can have the ticket that is served. *)
Lemma served_is_first (s : TicketLock A) h k :
  is_uint 32 (now_serving s) → Z.of_nat k < 2 ^ 32 →
  at_position s h k = Waiting (now_serving s) → k = 0%nat ∧ h = false.
Proof.
  unfold is_uint, at_position. intros Hs Hk.
  destruct (h && bool_decide (k = 0%nat)) eqn:E; [done|]. intros [= Hw].
  assert (k = 0%nat) as ->.
  { destruct (decide (now_serving s + Z.of_nat k < 2 ^ 32)).
    - rewrite Z.mod_small in Hw by lia. lia.
    - rewrite <- (Z.mod_add _ (-1)), Z.mod_small in Hw by lia. lia. }
  split; [done|]. rewrite bool_decide_true, andb_true_r in E by done. done.
Qed.

Lemma ticket_take i s ls q h :
  ticket_rel (s, ls) (Fifo.mk q h) → ls !! i = Some TIdle →
  (i ∉ q) ∧
  ticket_rel (mkTicketLock (wrapping_add 32 (next_ticket s) 1) (now_serving s) (tdata s),
              <[i := Waiting (next_ticket s)]> ls) (Fifo.mk (q ++ [i]) h).
Proof.
  intros (Hnd & Hidle & Hk & Hs & Hn & Hh) Hi. cbn [fst snd Fifo.queue Fifo.held] in *.
  assert (i ∉ q) as Hq by by apply (Hidle i TIdle). split; [done|].
  split_and!; cbn [fst snd Fifo.queue Fifo.held next_ticket now_serving].
  - apply NoDup_app. split_and!; [done | | apply NoDup_singleton]. set_solver.
  - intros j l Hj. rewrite elem_of_app, list_elem_of_singleton.
    destruct (decide (i = j)) as [<-|Hij].
    + rewrite list_lookup_insert_eq in Hj by (by apply lookup_lt_Some in Hi).
      injection Hj as <-. naive_solver.
    + rewrite list_lookup_insert_ne in Hj by done. rewrite (Hidle j l Hj). naive_solver.
  - intros k j [Hj|[Hle Hj]]%lookup_app_Some.
    + assert (i ≠ j) by (intros ->; apply Hq; by apply list_elem_of_lookup_2 in Hj).
      rewrite list_lookup_insert_ne by done. by rewrite (Hk k j Hj).
    + apply list_lookup_singleton_Some in Hj as [Hk0 <-].
      rewrite list_lookup_insert_eq by (by apply lookup_lt_Some in Hi).
      unfold at_position. assert (k = length q) as -> by lia.
      destruct h; cbn [andb]; [|by rewrite Hn].
      rewrite bool_decide_false by (intros E; by apply Hh, nil_length_inv). by rewrite Hn.
  - done.
  - unfold wrapping_add. rewrite Hn, Z.add_mod_idemp_l, length_app by done. f_equal. cbn. lia.
  - intros _. by destruct q.
Qed.

Lemma ticket_enter i s ls q h :
  Z.of_nat (length ls) ≤ 2 ^ 32 →
  ticket_rel (s, ls) (Fifo.mk q h) → ls !! i = Some (Waiting (now_serving s)) →
  ∃ q', q = i :: q' ∧ h = false ∧ ticket_rel (s, <[i := Holding]> ls) (Fifo.mk q true).
Proof.
  intros Hlen Hrel Hi. pose proof (ticket_queue_length _ _ Hrel) as Hql.
  destruct (ticket_position _ _ _ _ Hrel Hi) as (k & Hq & E); [done|].
  destruct Hrel as (Hnd & Hidle & Hk & Hs & Hn & Hh). cbn [fst snd Fifo.queue Fifo.held] in *.
  apply lookup_lt_Some in Hq as Hkq.
  destruct (served_is_first s h k) as [-> ->]; [done | lia | done |].
  destruct q as [|i' q']; [done|]. injection Hq as ->. exists q'. split_and!; [done | done |].
  split_and!; cbn [fst snd Fifo.queue Fifo.held]; try done.
  - intros j l Hj. destruct (decide (i = j)) as [<-|Hij].
    + rewrite list_lookup_insert_eq in Hj by (by apply lookup_lt_Some in Hi).
      injection Hj as <-. split; [done|]. intros []. left.
    + rewrite list_lookup_insert_ne in Hj by done. by apply Hidle.
  - intros k j Hj. destruct k as [|k].
    + injection Hj as ->. by rewrite list_lookup_insert_eq by (by apply lookup_lt_Some in Hi).
    + assert (i ≠ j).
      { intros ->. apply NoDup_cons in Hnd as [Hnd _]. apply Hnd. by apply (list_elem_of_lookup_2 q' k). }
      rewrite list_lookup_insert_ne by done. rewrite (Hk (S k) j Hj). done.
Qed.

Lemma ticket_drop i s ls q h :
  ticket_rel (s, ls) (Fifo.mk q h) → ls !! i = Some Holding →
  ∃ q', q = i :: q' ∧ h = true ∧
    ticket_rel (mkTicketLock (next_ticket s) (wrapping_add 32 (now_serving s) 1) (tdata s),
                <[i := TIdle]> ls) (Fifo.mk q' false).
Proof.
  intros Hrel Hi. destruct (ticket_position _ _ _ _ Hrel Hi) as (k & Hq & E); [done|].
  destruct Hrel as (Hnd & Hidle & Hk & Hs & Hn & Hh). cbn [fst snd Fifo.queue Fifo.held] in *.
  unfold at_position in E. destruct (h && bool_decide (k = 0%nat)) eqn:Eh; [|done].
  apply andb_true_iff in Eh as [-> ->%bool_decide_eq_true].
  destruct q as [|i' q']; [done|]. injection Hq as ->. exists q'. split_and!; [done | done |].
  apply NoDup_cons in Hnd as [Hni Hnd].
  split_and!; cbn [fst snd Fifo.queue Fifo.held next_ticket now_serving]; try done.
  - intros j l Hj. destruct (decide (i = j)) as [<-|Hij].
    + rewrite list_lookup_insert_eq in Hj by (by apply lookup_lt_Some in Hi). naive_solver.
    + rewrite list_lookup_insert_ne in Hj by done. rewrite (Hidle j l Hj). set_solver.
  - intros k j Hj. assert (i ≠ j) by (intros ->; by apply list_elem_of_lookup_2 in Hj).
    rewrite list_lookup_insert_ne by done. rewrite (Hk (S k) j Hj). unfold at_position, wrapping_add.
    cbn [andb now_serving]. rewrite Z.add_mod_idemp_l by done. do 2 f_equal. f_equal. lia.
  - unfold wrapping_add, is_uint. apply Z.mod_pos_bound. lia.
  - rewrite Hn. unfold wrapping_add. rewrite Z.add_mod_idemp_l by done. f_equal. cbn [length]. lia.
Qed.

(** Every step of the ticket lock is a step of the specification, or changes
    nothing that the specification sees. *)
Lemma ticket_simulation i c c' a :
  Z.of_nat (length c.2) ≤ 2 ^ 32 → ticket_rel c a → thread_step TicketLock.step i c c' →
  ∃ a', (a' = a ∨ Fifo.step i a a') ∧ ticket_rel c' a'.
Proof.
  intros Hlen Hrel Hs. destruct c as [s ls], a as [q h].
  apply thread_step_inv in Hs as (l & s' & l' & Hi & Hs & ->). cbn [fst snd] in *.
  destruct Hs as [i s|i s t Ht|i s t <-|i s d|i s].
  - destruct (ticket_take i s ls q h Hrel Hi) as [Hq Hrel'].
    exists (Fifo.mk (q ++ [i]) h). split; [right; by constructor | done].
  - rewrite list_insert_id by done. eauto.
  - destruct (ticket_enter i s ls q h Hlen Hrel Hi) as (q' & -> & -> & Hrel').
    eexists. split; [right; constructor | done].
  - rewrite list_insert_id by done. exists (Fifo.mk q h). split; [by left | done].
  - destruct (ticket_drop i s ls q h Hrel Hi) as (q' & -> & -> & Hrel').
    eexists. split; [right; constructor | done].
Qed.

Lemma ticket_rel_init n (d : A) : ticket_rel (TicketLock.new d, replicate n TIdle) Fifo.init.
Proof.
  split_and!; cbn; try done; [by apply NoDup_nil|].
  intros i l [-> _]%lookup_replicate_1. split; [intros _; apply not_elem_of_nil | done].
Qed.

Lemma ticket_holder c a i :
  ticket_rel c a → c.2 !! i = Some Holding → ∃ q, a = Fifo.mk (i :: q) true.
Proof.
  intros Hrel Hi. destruct c as [s ls], a as [q h].
  destruct (ticket_drop i s ls q h Hrel Hi) as (q' & -> & -> & _). eauto.
Qed.

Definition ticket_holding (l : tpc) : bool := match l with Holding => true | _ => false end.

Global Program Instance ticket_fair (d : A) :
    FairLock TicketLock.step (λ _, TicketLock.new d) TIdle ticket_holding (λ n, Z.of_nat n ≤ 2 ^ 32) := {
  lock_rel := ticket_rel;
}.
Next Obligation. intros d n. apply ticket_rel_init. Qed.
Next Obligation. intros d i c c' a. apply ticket_simulation. Qed.
Next Obligation. intros d c a i [] Hrel Hi Hl; try done. by apply (ticket_holder c a i). Qed.

End proofs.

(** ** Properties *)

(** The ticket lock implements a fair lock, for up to 2^32 threads and
    although its counters wrap around: every reachable configuration corresponds
    to a reachable state of the queue of the specification, and every step of a
    thread is a step of that thread in the specification (a call joins the end of
    the queue, only the first one acquires, a release lets the next one go first)
    or is not visible there. *)
Theorem ticket_refines_fifo {A} n (d : A) c :
  Z.of_nat n ≤ 2 ^ 32 → reachable TicketLock.step (TicketLock.new d) TIdle n c →
  ∃ a, rtc Fifo.any Fifo.init a ∧ ticket_rel c a ∧
    ∀ i c', thread_step TicketLock.step i c c' →
      ∃ a', (a' = a ∨ Fifo.step i a a') ∧ ticket_rel c' a'.
Proof.
  intros Hn Hc. apply (lock_reachable (FairLock0 := ticket_fair d)) in Hc as (Hl & a & Ha & Hrel); [|done].
  exists a. split_and!; [done | done |]. intros i c' Hs. apply (ticket_simulation i c); [lia | done..].
Qed.

(** Mutual exclusion of the ticket lock: two threads never have the guard at
    the same time, and only the thread that has it changes the data. *)
Theorem ticket_mutex {A} n (d : A) c :
  Z.of_nat n ≤ 2 ^ 32 → reachable TicketLock.step (TicketLock.new d) TIdle n c →
  (∀ i j, c.2 !! i = Some Holding → c.2 !! j = Some Holding → i = j) ∧
  (∀ i c', thread_step TicketLock.step i c c' → tdata c'.1 ≠ tdata c.1 → c.2 !! i = Some Holding).
Proof.
  intros Hn Hc. split.
  - intros i j Hi Hj.
    by apply (lock_mutex (FairLock0 := ticket_fair d) n c i j Holding Holding).
  - intros i c' Hs Hd. destruct c as [s ls].
    apply thread_step_inv in Hs as (l & s' & l' & Hi & Hs & ->). cbn [fst snd] in *.
    by destruct Hs.
Qed.

(** The lock does not deadlock: the first in the queue can always go on. *)
Lemma ticket_progress {A} n (d : A) c i l :
  Z.of_nat n ≤ 2 ^ 32 → reachable TicketLock.step (TicketLock.new d) TIdle n c →
  c.2 !! i = Some l → l ≠ TIdle →
  ∃ j k s' k', c.2 !! j = Some k ∧ k ≠ TIdle ∧ TicketLock.step j c.1 k s' k' ∧ k' ≠ k.
Proof.
  intros Hn Hc Hi Hl.
  apply (lock_reachable (FairLock0 := ticket_fair d)) in Hc as (_ & a & _ & Hrel); [|done].
  destruct (ticket_position c a i l Hrel Hi Hl) as (k & Hk & _).
  destruct a as [[|j q] h]; [done|]. pose proof Hrel as (_ & _ & Hpos & Hs & _).
  specialize (Hpos 0%nat j eq_refl). cbn [Fifo.held] in Hpos. unfold at_position in Hpos.
  destruct h; cbn [andb bool_decide] in Hpos.
  - rewrite bool_decide_true in Hpos by done. eexists j, _, _, _. split_and!; [done | done | apply TicketLock.Drop_guard | done].
  - rewrite Z.add_0_r, Z.mod_small in Hpos by done.
    eexists j, _, _, _. split_and!; [done | done | by apply TicketLock.Enter | done].
Qed.

(** ** Examples *)

(** Thread 1 holds the lock and thread 0 waits. *)
Definition demo_ticket : TicketLock Z * list tpc := (mkTicketLock 2 0 5, [Waiting 1; Holding]).

Lemma demo_ticket_reachable : reachable TicketLock.step (TicketLock.new 5) TIdle 2 demo_ticket.
Proof.
  unfold reachable, demo_ticket. cbn [replicate].
  run 1%nat (@TicketLock.Take Z). run 0%nat (@TicketLock.Take Z).
  run 1%nat (@TicketLock.Enter Z). apply rtc_refl.
Qed.

Lemma ticket_refines_fifo_witness :
  ∃ a, rtc Fifo.any Fifo.init a ∧ ticket_rel demo_ticket a ∧
    ∀ i c', thread_step TicketLock.step i demo_ticket c' →
      ∃ a', (a' = a ∨ Fifo.step i a a') ∧ ticket_rel c' a'.
Proof. apply (ticket_refines_fifo 2 5 demo_ticket); [lia | exact demo_ticket_reachable]. Defined.

Lemma ticket_mutex_witness :
  (∀ i j, demo_ticket.2 !! i = Some Holding → demo_ticket.2 !! j = Some Holding → i = j) ∧
  (∀ i c', thread_step TicketLock.step i demo_ticket c' → tdata c'.1 ≠ tdata demo_ticket.1 →
     demo_ticket.2 !! i = Some Holding).
Proof. apply (ticket_mutex 2 5 demo_ticket); [lia | exact demo_ticket_reachable]. Defined.
