(* ===== verification/Mcs.v ===== *)
(** * The MCS lock

    [hyperdrive/src/locks/mcs.rs]: [McsLock], where every thread that waits spins on
    a node of its own, and the nodes form a queue.  A node belongs to one call of
    [lock] at a time, so that the node of a call has the number of the thread that
    makes it. *)

From S2P Require Import Prelude Threads FairLock.

Record McsNode := mkNode { locked : bool; next : option nat }.

(** The nodes are those of the threads. *)
Record McsLock (A : Type) := mkMcs { tail : option nat; nodes : list McsNode; mdata : A }.
Arguments mkMcs {A} tail nodes mdata.
Arguments tail {A} m.
Arguments nodes {A} m.
Arguments mdata {A} m.

Inductive npc : Set :=
| NIdle
| LockFlag               (** [lock], before [node.locked.store(true)] *)
| LockNext               (** before [node.set_next(null)] *)
| LockSwap               (** before [tail.swap(node)] *)
| LockLink (p : nat)     (** before [prev.set_next(node)] *)
| LockWait               (** in the loop [while node.is_locked()] *)
| LockGot                (** there was no previous node: before the guard is made *)
| TryNext                (** [try_lock], before [node.set_next(null)] *)
| TryCas                 (** before the [compare_exchange] of the tail *)
| Held                   (** with a guard, or in its [drop] before [node.next()] *)
| DropCas                (** in [drop], before the [compare_exchange] *)
| DropSpin               (** in [drop], in the loop [while node.next().is_none()] *)
| DropLoad               (** before [node.next().unwrap()] *)
| DropStore (n : nat)    (** before [n.locked.store(false)] *)
| NPanic.                (** [unwrap] failed *)

Module McsNode.

Definition new : McsNode := mkNode false None.
Definition set_locked (nd : McsNode) (b : bool) : McsNode := mkNode b (next nd).
Definition set_next (nd : McsNode) (n : option nat) : McsNode := mkNode (locked nd) n.

End McsNode.

Module McsLock.

Section lock.

Context {A : Type}.

(** A lock and the nodes of [n] threads. *)
Definition new (n : nat) (value : A) : McsLock A := mkMcs None (replicate n McsNode.new) value.
Definition into_inner (s : McsLock A) : A := mdata s.

Definition set_tail (s : McsLock A) (t : option nat) : McsLock A := mkMcs t (nodes s) (mdata s).
Definition set_node (s : McsLock A) (i : nat) (nd : McsNode) : McsLock A :=
  mkMcs (tail s) (<[i := nd]> (nodes s)) (mdata s).

(** [Drop for McsGuard] *)
Inductive release : nat → McsLock A → npc → McsLock A → npc → Prop :=
| Drop_last i s nd : nodes s !! i = Some nd → next nd = None → release i s Held s DropCas
| Drop_more i s nd : nodes s !! i = Some nd → next nd ≠ None → release i s Held s DropLoad
| Drop_cas i s : tail s = Some i → release i s DropCas (set_tail s None) NIdle
| Drop_cas_fail i s : tail s ≠ Some i → release i s DropCas s DropSpin
| Drop_spin i s nd : nodes s !! i = Some nd → next nd = None → release i s DropSpin s DropSpin
| Drop_linked i s nd : nodes s !! i = Some nd → next nd ≠ None → release i s DropSpin s DropLoad
| Drop_load i s nd n :
    nodes s !! i = Some nd → next nd = Some n → release i s DropLoad s (DropStore n)
| Drop_unwrap i s nd : nodes s !! i = Some nd → next nd = None → release i s DropLoad s NPanic
| Drop_store i s n nd :
    nodes s !! n = Some nd →
    release i s (DropStore n) (set_node s n (McsNode.set_locked nd false)) NIdle.

Inductive step : nat → McsLock A → npc → McsLock A → npc → Prop :=
(** [lock] *)
| Lock_call i s : step i s NIdle s LockFlag
| Lock_flag i s nd :
    nodes s !! i = Some nd → step i s LockFlag (set_node s i (McsNode.set_locked nd true)) LockNext
| Lock_next i s nd :
    nodes s !! i = Some nd → step i s LockNext (set_node s i (McsNode.set_next nd None)) LockSwap
| Lock_first i s : tail s = None → step i s LockSwap (set_tail s (Some i)) LockGot
| Lock_queued i s p : tail s = Some p → step i s LockSwap (set_tail s (Some i)) (LockLink p)
| Lock_link i s p nd :
    nodes s !! p = Some nd →
    step i s (LockLink p) (set_node s p (McsNode.set_next nd (Some i))) LockWait
| Lock_spin i s nd : nodes s !! i = Some nd → locked nd = true → step i s LockWait s LockWait
| Lock_free i s nd : nodes s !! i = Some nd → locked nd = false → step i s LockWait s Held
| Lock_guard i s : step i s LockGot s Held
(** [try_lock] *)
| Try_call i s : step i s NIdle s TryNext
| Try_next i s nd :
    nodes s !! i = Some nd → step i s TryNext (set_node s i (McsNode.set_next nd None)) TryCas
| Try_ok i s : tail s = None → step i s TryCas (set_tail s (Some i)) LockGot
| Try_fail i s : tail s ≠ None → step i s TryCas s NIdle
(** [DerefMut for McsGuard] *)
| Store i s d : step i s Held (mkMcs (tail s) (nodes s) d) Held
| Release i s l s' l' : release i s l s' l' → step i s l s' l'.

End lock.

End McsLock.

(** ** The queue of nodes *)

Section proofs.

Context {A : Type}.

Implicit Types (s : McsLock A) (ls : list npc) (q : list nat).

Import McsLock.

(** The node of the last thread has no successor; the successor of another one is
    the next thread of the queue, once that thread has set the link. *)
Definition link_ok ls (nd : McsNode) (j : nat) q : Prop :=
  match q with
  | [] => next nd = None
  | k :: _ =>
      (next nd = None ∧ ls !! k = Some (LockLink j)) ∨ (next nd = Some k ∧ ls !! k = Some LockWait)
  end.

Fixpoint chain s ls q : Prop :=
  match q with
  | [] => True
  | j :: q' => (∃ nd, nodes s !! j = Some nd ∧ link_ok ls nd j q') ∧ chain s ls q'
  end.

(** The first thread of the queue, and what it knows. *)
Definition head_ok (h : bool) (l : npc) (nd : McsNode) q : Prop :=
  if h then
    match l with
    | Held | DropCas => True
    | DropSpin => q ≠ []
    | DropLoad => next nd ≠ None
    | DropStore n => next nd = Some n
    | _ => False
    end
  else l = LockGot ∨ (l = LockWait ∧ locked nd = false).

Definition first_ok s ls (h : bool) q : Prop :=
  match q with
  | [] => h = false
  | j :: q' => ∃ nd l, nodes s !! j = Some nd ∧ ls !! j = Some l ∧ head_ok h l nd q'
  end.

(** The threads behind it wait for their flag. *)
Definition rest_ok s q : Prop :=
  ∀ j, j ∈ q → ∃ nd, nodes s !! j = Some nd ∧ locked nd = true.

(** A thread that is not in the queue, and how far it prepared its node. *)
Definition outside s (i : nat) (l : npc) : Prop :=
  match l with
  | NIdle | LockFlag | TryNext => True
  | LockNext => ∃ nd, nodes s !! i = Some nd ∧ locked nd = true
  | LockSwap => ∃ nd, nodes s !! i = Some nd ∧ locked nd = true ∧ next nd = None
  | TryCas => ∃ nd, nodes s !! i = Some nd ∧ next nd = None
  | _ => False
  end.

Definition mcs_rel (c : McsLock A * list npc) (a : Fifo.t) : Prop :=
  NoDup (Fifo.queue a) ∧ length (nodes c.1) = length c.2 ∧ tail c.1 = last (Fifo.queue a) ∧
  (∀ i l, c.2 !! i = Some l → i ∉ Fifo.queue a → outside c.1 i l) ∧
  chain c.1 c.2 (Fifo.queue a) ∧ first_ok c.1 c.2 (Fifo.held a) (Fifo.queue a) ∧
  rest_ok c.1 (List.tl (Fifo.queue a)).

(** *** The chain under changes *)

Lemma nodes_frame s s' ls ls' q :
  (∀ j, j ∈ q → nodes s' !! j = nodes s !! j) → (∀ j, j ∈ List.tl q → ls' !! j = ls !! j) →
  chain s ls q → chain s' ls' q.
Proof.
  induction q as [|j q IH]; [done|]. cbn [chain List.tl]. intros Hn Hl [(nd & Hnd & Hlk) Hc]. split.
  - exists nd. split; [rewrite Hn by left; done|]. destruct q as [|k q]; [done|]. cbn in *.
    rewrite Hl by left. done.
  - apply IH; [| | done].
    + intros k Hk. apply Hn. by right.
    + intros k Hk. apply Hl. destruct q; [done | by right].
Qed.

Lemma chain_elem s ls q j : chain s ls q → j ∈ q → is_Some (nodes s !! j).
Proof.
  induction q as [|k q IH]; [by intros _ ?%not_elem_of_nil|]. cbn. intros [(nd & Hnd & _) Hc].
  intros [->|Hj]%elem_of_cons; [by exists nd | by apply IH].
Qed.

Lemma nodes_snoc s ls q i p nd :
  chain s ls q → last q = Some p → i ∉ q → (i < length ls)%nat → nodes s !! i = Some nd → next nd = None →
  chain s (<[i := LockLink p]> ls) (q ++ [i]).
Proof.
  induction q as [|j q IH]; [done|]. cbn [chain app]. intros [(nd0 & Hnd0 & Hlk) Hc] Hp Hi Hlt Hnd Hnx.
  apply not_elem_of_cons in Hi as [Hij Hi]. destruct q as [|k q].
  - injection Hp as <-. cbn. split.
    + exists nd0. split; [done|]. left. split; [done|]. by apply list_lookup_insert_eq.
    + split; [|done]. by exists nd.
  - split; [|by apply IH]. exists nd0. split; [done|]. cbn in *.
    apply not_elem_of_cons in Hi as [Hik _]. by rewrite list_lookup_insert_ne by done.
Qed.

(** The thread that links itself behind [p] is the one after [p]. *)
Lemma chain_link s ls q i p nd :
  NoDup q → chain s ls q → i ∈ List.tl q → (i < length ls)%nat → (p < length (nodes s))%nat →
  ls !! i = Some (LockLink p) → nodes s !! p = Some nd →
  next nd = None ∧ p ∈ q ∧
  chain (set_node s p (McsNode.set_next nd (Some i))) (<[i := LockWait]> ls) q.
Proof.
  induction q as [|j q IH]; [by intros _ _ ?%not_elem_of_nil|]. cbn [chain List.tl].
  intros [Hjq Hnd]%NoDup_cons [(nd0 & Hnd0 & Hlk) Hc] Hi Hlt Hltp Hl Hp.
  destruct q as [|k q]; [by apply not_elem_of_nil in Hi|].
  apply elem_of_cons in Hi as [->|Hi].
  - cbn in Hlk. rewrite Hl in Hlk. destruct Hlk as [[Hnx E]|[_ E]]; [|done]. injection E as ->.
    rewrite Hp in Hnd0. injection Hnd0 as <-. split_and!; [done | by left | |].
    + exists (McsNode.set_next nd (Some k)). split; [by apply list_lookup_insert_eq|].
      right. split; [done|]. by apply list_lookup_insert_eq.
    + apply (nodes_frame s _ ls); [| | done].
      * intros x Hx. apply list_lookup_insert_ne. by intros ->.
      * intros x Hx. apply list_lookup_insert_ne. intros ->. cbn in Hx. by apply NoDup_cons in Hnd as [? _].
  - destruct (IH Hnd Hc Hi Hlt Hltp Hl Hp) as (Hnx & Hpq & Hch). split_and!; [done | by right | | done].
    exists nd0. split; [cbn; rewrite list_lookup_insert_ne; [done | by intros ->]|].
    cbn in Hlk |- *. rewrite list_lookup_insert_ne; [done|].
    intros ->. by apply NoDup_cons in Hnd as [? _].
Qed.

(** *** Where a thread is *)

Lemma chain_tail s ls q i :
  chain s ls q → i ∈ List.tl q → ls !! i = Some LockWait ∨ ∃ p, ls !! i = Some (LockLink p).
Proof.
  induction q as [|j q IH]; [by intros _ ?%not_elem_of_nil|]. cbn [chain List.tl].
  intros [(nd & _ & Hlk) Hc] Hi. destruct q as [|k q]; [by apply not_elem_of_nil in Hi|].
  apply elem_of_cons in Hi as [->|Hi]; [|by apply IH].
  cbn in Hlk. destruct Hlk as [[_ E]|[_ E]]; [right; by exists j | by left].
Qed.

Definition out_pc (l : npc) : bool :=
  match l with NIdle | LockFlag | LockNext | LockSwap | TryNext | TryCas => true | _ => false end.

(** Control states of the first thread alone. *)
Definition head_pc (l : npc) : bool :=
  match l with
  | LockGot | Held | DropCas | DropSpin | DropLoad | DropStore _ => true
  | _ => false
  end.

Lemma not_in_queue s ls q h i l :
  mcs_rel (s, ls) (Fifo.mk q h) → ls !! i = Some l → out_pc l = true → i ∉ q.
Proof.
  intros (_ & _ & _ & _ & Hc & Hf & _) Hi Hl Hq. cbn [fst snd Fifo.queue Fifo.held] in *.
  destruct q as [|j q]; [by apply not_elem_of_nil in Hq|].
  apply elem_of_cons in Hq as [->|Hq].
  - destruct Hf as (nd & l' & _ & Hj & Hh). rewrite Hi in Hj. injection Hj as <-.
    destruct h, l; cbn in Hh; naive_solver.
  - destruct (chain_tail s ls (j :: q) i Hc Hq) as [E|[p E]]; rewrite Hi in E; injection E as ->; done.
Qed.

Lemma at_head s ls q h i l :
  mcs_rel (s, ls) (Fifo.mk q h) → ls !! i = Some l → head_pc l = true →
  ∃ q' nd, q = i :: q' ∧ nodes s !! i = Some nd ∧ head_ok h l nd q'.
Proof.
  intros (_ & _ & _ & Ho & Hc & Hf & _) Hi Hl. cbn [fst snd Fifo.queue Fifo.held] in *.
  destruct (decide (i ∈ q)) as [Hq|Hq]; [|specialize (Ho i l Hi Hq); by destruct l].
  destruct q as [|j q]; [by apply not_elem_of_nil in Hq|].
  apply elem_of_cons in Hq as [->|Hq].
  - destruct Hf as (nd & l' & Hnd & Hj & Hh). rewrite Hi in Hj. injection Hj as <-. eauto.
  - destruct (chain_tail s ls (j :: q) i Hc Hq) as [E|[p E]]; rewrite Hi in E; injection E as ->; done.
Qed.

(** *** Simulation *)

(** A thread outside of the queue prepares its node. *)
Lemma sim_outside s s' ls a i l l' :
  mcs_rel (s, ls) a → ls !! i = Some l → out_pc l = true → out_pc l' = true →
  tail s' = tail s → length (nodes s') = length (nodes s) →
  (∀ j, j ≠ i → nodes s' !! j = nodes s !! j) → outside s' i l' →
  mcs_rel (s', <[i := l']> ls) a.
Proof.
  destruct a as [q h]. intros Hrel Hi Hl Hl' Ht Hlen Hn Ho'.
  pose proof (not_in_queue s ls q h i l Hrel Hi Hl) as Hq.
  destruct Hrel as (Hnd & Hln & Htl & Ho & Hc & Hf & Hr). cbn [fst snd Fifo.queue Fifo.held] in *.
  assert (∀ j, j ∈ q → nodes s' !! j = nodes s !! j ∧ <[i := l']> ls !! j = ls !! j) as Hsame.
  { intros j Hj. assert (i ≠ j) by (by intros ->). split; [by apply Hn | by apply list_lookup_insert_ne]. }
  split_and!; cbn [fst snd Fifo.queue Fifo.held]; [done | by rewrite length_insert, Hlen | by rewrite Ht | | | |].
  - intros j k [(<- & <- & _)|[Hij Hj]]%list_lookup_insert_Some Hjq; [done|].
    specialize (Ho j k Hj Hjq). destruct k; cbn in *; try done; by rewrite Hn.
  - apply (nodes_frame s _ ls); [| | done]; intros j Hj; apply Hsame; [done|].
    destruct q; [done | by right].
  - destruct q as [|j q]; [done|]. destruct Hf as (nd & k & Hk & Hj & Hh).
    exists nd, k. destruct (Hsame j) as [-> ->]; [left | done].
  - intros j Hj. rewrite (proj1 (Hsame j ltac:(destruct q; [done | by right]))). by apply Hr.
Qed.

(** The first thread moves on. *)
Lemma sim_head s ls q h h' i l l' nd :
  mcs_rel (s, ls) (Fifo.mk (i :: q) h) → ls !! i = Some l → nodes s !! i = Some nd →
  head_ok h' l' nd q → mcs_rel (s, <[i := l']> ls) (Fifo.mk (i :: q) h').
Proof.
  intros (Hnd & Hln & Htl & Ho & Hc & Hf & Hr) Hi Hn Hh. cbn [fst snd Fifo.queue Fifo.held] in *.
  apply NoDup_cons in Hnd as [Hiq Hnd].
  split_and!; cbn [fst snd Fifo.queue Fifo.held]; [by apply NoDup_cons | by rewrite length_insert | done | | | | done].
  - intros j k [(<- & <- & _)|[Hij Hj]]%list_lookup_insert_Some Hjq; [by destruct Hjq; left | by apply Ho].
  - apply (nodes_frame s _ ls); [done | | done].
    intros j Hj. apply list_lookup_insert_ne. by intros ->.
  - exists nd, l'. split_and!; [done | | done].
    apply list_lookup_insert_eq. by apply lookup_lt_Some in Hi.
Qed.

(** A change that leaves nodes and tail alone. *)
Lemma sim_data s s' ls a :
  mcs_rel (s, ls) a → tail s' = tail s → nodes s' = nodes s → mcs_rel (s', ls) a.
Proof.
  intros (Hnd & Hln & Htl & Ho & Hc & Hf & Hr) Ht Hn. cbn [fst snd] in *.
  split_and!; cbn [fst snd]; rewrite ?Hn, ?Ht; try done.
  - intros i l Hi Hq. specialize (Ho i l Hi Hq). destruct l; cbn in *; rewrite ?Hn; done.
  - apply (nodes_frame s _ ls); [by rewrite Hn | done | done].
  - destruct (Fifo.queue a); [done|]. cbn. by rewrite Hn.
  - intros j Hj. rewrite Hn. by apply Hr.
Qed.

(** [tail.swap(node)] when the lock is free, and the [compare_exchange] of
    [try_lock]. *)
Lemma sim_first s ls q h i l nd :
  mcs_rel (s, ls) (Fifo.mk q h) → ls !! i = Some l → out_pc l = true → nodes s !! i = Some nd →
  next nd = None → tail s = None →
  (i ∉ q) ∧ mcs_rel (set_tail s (Some i), <[i := LockGot]> ls) (Fifo.mk (q ++ [i]) h).
Proof.
  intros Hrel Hi Hl Hn Hnx Ht. split; [by apply (not_in_queue s ls q h i l)|].
  destruct Hrel as (Hnd & Hln & Htl & Ho & Hc & Hf & Hr). cbn [fst snd Fifo.queue Fifo.held] in *.
  rewrite Ht in Htl. symmetry in Htl. apply last_None in Htl as ->. cbn in Hf. subst h.
  assert (<[i := LockGot]> ls !! i = Some LockGot) as Hi'.
  { apply list_lookup_insert_eq. by apply lookup_lt_Some in Hi. }
  split_and!; cbn [fst snd Fifo.queue Fifo.held app]; [apply NoDup_singleton | by rewrite length_insert | done | | | |].
  - intros j k [(<- & <- & _)|[Hij Hj]]%list_lookup_insert_Some Hjq; [by destruct Hjq; left|].
    apply (Ho j k Hj), not_elem_of_nil.
  - cbn. split; [by exists nd | done].
  - exists nd, LockGot. split_and!; [done | done | by left].
  - by intros j Hj%not_elem_of_nil.
Qed.

Lemma sim_queued s ls q h i p nd :
  mcs_rel (s, ls) (Fifo.mk q h) → ls !! i = Some LockSwap → nodes s !! i = Some nd →
  locked nd = true → next nd = None → tail s = Some p →
  (i ∉ q) ∧ mcs_rel (set_tail s (Some i), <[i := LockLink p]> ls) (Fifo.mk (q ++ [i]) h).
Proof.
  intros Hrel Hi Hn Hlk Hnx Ht.
  assert (i ∉ q) as Hiq by (by apply (not_in_queue s ls q h i LockSwap)). split; [done|].
  destruct Hrel as (Hnd & Hln & Htl & Ho & Hc & Hf & Hr). cbn [fst snd Fifo.queue Fifo.held] in *.
  rewrite Ht in Htl. apply lookup_lt_Some in Hi as Hlt.
  split_and!; cbn [fst snd Fifo.queue Fifo.held].
  - apply NoDup_app. split_and!; [done | | apply NoDup_singleton]. set_solver.
  - by rewrite length_insert.
  - by rewrite last_snoc.
  - intros j k [(<- & <- & _)|[Hij Hj]]%list_lookup_insert_Some Hjq; [set_solver|].
    apply (Ho j k Hj). set_solver.
  - apply (nodes_frame s _ (<[i := LockLink p]> ls)); [done | done |]. by eapply nodes_snoc.
  - destruct q as [|j q]; [done|]. destruct Hf as (nd0 & k & Hk & Hj & Hh).
    exists nd0, k. split_and!; [done | |].
    + rewrite list_lookup_insert_ne; [done|]. intros ->. set_solver.
    + destruct h, k; cbn in *; try done. by destruct q.
  - destruct q as [|j q]; [done|]. cbn in *. intros x [Hx| ->%list_elem_of_singleton]%elem_of_app; eauto.
Qed.

Lemma sim_link s ls a i p nd :
  mcs_rel (s, ls) a → ls !! i = Some (LockLink p) → nodes s !! p = Some nd →
  mcs_rel (set_node s p (McsNode.set_next nd (Some i)), <[i := LockWait]> ls) a.
Proof.
  destruct a as [q h]. intros (Hnd & Hln & Htl & Ho & Hc & Hf & Hr) Hi Hn.
  cbn [fst snd Fifo.queue Fifo.held] in *.
  destruct (decide (i ∈ q)) as [Hq|Hq]; [|by specialize (Ho i _ Hi Hq)].
  assert (i ∈ List.tl q) as Hit.
  { destruct q as [|j q]; [done|]. apply elem_of_cons in Hq as [->|Hq]; [|done].
    destruct Hf as (? & k & _ & Hj & Hh). rewrite Hi in Hj. injection Hj as <-. destruct h; naive_solver. }
  apply lookup_lt_Some in Hi as Hlt. apply lookup_lt_Some in Hn as Hltp.
  destruct (chain_link s ls q i p nd Hnd Hc Hit Hlt Hltp Hi Hn) as (Hnx & Hpq & Hch).
  split_and!; cbn [fst snd Fifo.queue Fifo.held]; [done | cbn; by rewrite !length_insert | done | | done | |].
  - intros j k [(<- & <- & _)|[Hij Hj]]%list_lookup_insert_Some Hjq; [done|].
    specialize (Ho j k Hj Hjq). assert (p ≠ j) by (by intros ->).
    destruct k; cbn in *; try done; by rewrite list_lookup_insert_ne.
  - destruct q as [|j q]; [done|]. destruct Hf as (nd0 & k & Hk & Hj & Hh).
    assert (i ≠ j) by (intros ->; by apply NoDup_cons in Hnd as [? _]).
    cbn. rewrite (list_lookup_insert_ne ls) by done. destruct (decide (p = j)) as [->|Hpj].
    + exists (McsNode.set_next nd (Some i)), k. rewrite list_lookup_insert_eq by done.
      rewrite Hn in Hk. injection Hk as <-. split_and!; [done | done |].
      destruct h, k; cbn in *; try done. congruence.
    + exists nd0, k. by rewrite list_lookup_insert_ne.
  - intros j Hj. destruct (Hr j Hj) as (nd0 & Hk & Hlk). cbn. destruct (decide (p = j)) as [->|Hpj].
    + exists (McsNode.set_next nd (Some i)). rewrite list_lookup_insert_eq by done.
      split; [done|]. cbn. congruence.
    + exists nd0. by rewrite list_lookup_insert_ne.
Qed.

(** The last thread of the queue leaves. *)
Lemma sim_leave_last s ls q h i l :
  mcs_rel (s, ls) (Fifo.mk (i :: q) h) → ls !! i = Some l → tail s = Some i →
  q = [] ∧ mcs_rel (set_tail s None, <[i := NIdle]> ls) (Fifo.mk q false).
Proof.
  intros (Hnd & Hln & Htl & Ho & Hc & Hf & Hr) Hi Ht. cbn [fst snd Fifo.queue Fifo.held] in *.
  assert (q = []) as ->.
  { rewrite Ht, last_cons in Htl. destruct (last q) as [x|] eqn:E; [|by apply last_None].
    injection Htl as <-. apply last_Some_elem_of in E. by apply NoDup_cons in Hnd as [? _]. }
  split; [done|]. split_and!; cbn [fst snd Fifo.queue Fifo.held]; try done.
  - by apply NoDup_nil.
  - by rewrite length_insert.
  - intros j k [(<- & <- & _)|[Hij Hj]]%list_lookup_insert_Some _; [done|].
    apply (Ho j k Hj). by intros ->%list_elem_of_singleton.
Qed.

(** The first thread leaves and unlocks the next one. *)
Lemma sim_leave s ls q i n nd :
  mcs_rel (s, ls) (Fifo.mk (i :: q) true) → ls !! i = Some (DropStore n) → nodes s !! n = Some nd →
  mcs_rel (set_node s n (McsNode.set_locked nd false), <[i := NIdle]> ls) (Fifo.mk q false).
Proof.
  intros (Hnd & Hln & Htl & Ho & Hc & Hf & Hr) Hi Hn. cbn [fst snd Fifo.queue Fifo.held] in *.
  apply NoDup_cons in Hnd as [Hiq Hnd]. destruct Hf as (nd0 & l & Hn0 & Hl & Hh).
  rewrite Hi in Hl. injection Hl as <-. cbn in Hh. destruct Hc as [(nd1 & Hn1 & Hlk) Hc].
  rewrite Hn0 in Hn1. injection Hn1 as <-.
  destruct q as [|k q]; cbn in Hlk; [congruence|]. rewrite Hh in Hlk.
  destruct Hlk as [[? _]|[[= ->] Hk]]; [done|].
  assert (i ≠ k) as Hik by (intros ->; apply Hiq; left). apply NoDup_cons in Hnd as [Hkq Hnd].
  apply lookup_lt_Some in Hn as Hltn.
  split_and!; cbn [fst snd Fifo.queue Fifo.held].
  - by apply NoDup_cons.
  - cbn. by rewrite !length_insert.
  - cbn [set_node tail]. by rewrite Htl, last_cons_cons.
  - intros j x [(<- & <- & _)|[Hij Hj]]%list_lookup_insert_Some Hjq; [done|].
    assert (k ≠ j) by (intros ->; apply Hjq; left).
    assert (outside s j x) as Hox by (apply (Ho j x Hj); set_solver).
    destruct x; cbn in *; try done; by rewrite list_lookup_insert_ne.
  - cbn in Hc. destruct Hc as [(nd1 & Hn1 & Hlk1) Hc]. rewrite Hn in Hn1. injection Hn1 as <-. split.
    + exists (McsNode.set_locked nd false). split; [by apply list_lookup_insert_eq|].
      destruct q as [|k' q]; [done|]. cbn in *. rewrite list_lookup_insert_ne; [done | set_solver].
    + apply (nodes_frame s _ ls); [| | done].
      * intros j Hj. apply list_lookup_insert_ne. by intros ->.
      * intros j Hj. apply list_lookup_insert_ne. intros ->. apply Hiq. right. destruct q; [done | by right].
  - exists (McsNode.set_locked nd false), LockWait. cbn. rewrite list_lookup_insert_eq by done.
    rewrite list_lookup_insert_ne by done. split_and!; [done | done | by right].
  - intros j Hj. cbn in *. rewrite list_lookup_insert_ne by (by intros ->).
    apply Hr. by right.
Qed.

Lemma outside_of s ls a i l :
  mcs_rel (s, ls) a → ls !! i = Some l → out_pc l = true → outside s i l.
Proof.
  destruct a as [q h]. intros Hrel Hi Hl. pose proof (not_in_queue s ls q h i l Hrel Hi Hl) as Hq.
  by apply Hrel.
Qed.

(** The thread prepares its node. *)
Lemma sim_prepare s ls a i l l' nd nd' :
  mcs_rel (s, ls) a → ls !! i = Some l → out_pc l = true → out_pc l' = true →
  nodes s !! i = Some nd → outside (set_node s i nd') i l' →
  mcs_rel (set_node s i nd', <[i := l']> ls) a.
Proof.
  intros Hrel Hi Hl Hl' Hn Ho. apply (sim_outside s _ ls a i l); try done.
  - cbn. by rewrite length_insert.
  - intros j Hj. cbn. by rewrite list_lookup_insert_ne.
Qed.

(** A waiting thread whose flag was cleared is the first one, and nobody has the
    lock. *)
Lemma wait_over s ls q h i nd :
  mcs_rel (s, ls) (Fifo.mk q h) → ls !! i = Some LockWait → nodes s !! i = Some nd →
  locked nd = false → ∃ q', q = i :: q' ∧ h = false.
Proof.
  intros (_ & _ & _ & Ho & Hc & Hf & Hr) Hi Hn Hl. cbn [fst snd Fifo.queue Fifo.held] in *.
  destruct (decide (i ∈ q)) as [Hq|Hq]; [|by specialize (Ho i _ Hi Hq)].
  destruct q as [|j q]; [by apply not_elem_of_nil in Hq|].
  apply elem_of_cons in Hq as [->|Hq].
  - exists q. split; [done|]. destruct Hf as (nd0 & l & _ & Hj & Hh).
    rewrite Hi in Hj. injection Hj as <-. by destruct h.
  - destruct (Hr i Hq) as (nd0 & Hn0 & Hl0). congruence.
Qed.

(** The first thread moves on without a visible effect. *)
Lemma sim_head_silent s ls q h i l l' :
  mcs_rel (s, ls) (Fifo.mk q h) → ls !! i = Some l → head_pc l = true →
  (∀ q' nd, nodes s !! i = Some nd → head_ok h l nd q' → head_ok h l' nd q') →
  ∃ a', (a' = Fifo.mk q h ∨ Fifo.step i (Fifo.mk q h) a') ∧ mcs_rel (s, <[i := l']> ls) a'.
Proof.
  intros Hrel Hi Hl Hh. destruct (at_head s ls q h i l Hrel Hi Hl) as (q' & nd & -> & Hn & Hh0).
  exists (Fifo.mk (i :: q') h). split; [by left|]. by eapply sim_head; eauto.
Qed.

Lemma node_set s i nd nd' : nodes s !! i = Some nd → nodes (set_node s i nd') !! i = Some nd'.
Proof. intros Hn. cbn. apply list_lookup_insert_eq. by apply lookup_lt_Some in Hn. Qed.

(** The release. *)
Lemma sim_release i s l s' l' ls q h :
  mcs_rel (s, ls) (Fifo.mk q h) → ls !! i = Some l → release i s l s' l' →
  ∃ a', (a' = Fifo.mk q h ∨ Fifo.step i (Fifo.mk q h) a') ∧ mcs_rel (s', <[i := l']> ls) a'.
Proof.
  intros Hrel Hi Hs.
  assert (head_pc l = true → ∃ q' nd, q = i :: q' ∧ nodes s !! i = Some nd ∧ head_ok h l nd q') as Hhd
    by (by apply (at_head s ls)).
  destruct Hs as [i s nd Hn Hx|i s nd Hn Hx|i s Ht|i s Ht|i s nd Hn Hx|i s nd Hn Hx|i s nd n Hn Hx|i s nd Hn Hx
    |i s n nd Hn]; cbn [head_pc] in Hhd.
  - eapply sim_head_silent; try done. intros q' nd'. destruct h; naive_solver.
  - eapply sim_head_silent; try done. intros q' nd'. destruct h; naive_solver.
  - destruct Hhd as (q' & nd' & -> & _ & Hh); [done|]. destruct h; [|naive_solver].
    destruct (sim_leave_last s ls q' true i DropCas) as [-> Hrel']; try done.
    eexists. split; [right; apply Fifo.Release | done].
  - destruct Hhd as (q' & nd' & -> & Hn & Hh); [done|].
    exists (Fifo.mk (i :: q') h). split; [by left|]. eapply sim_head; try done.
    destruct h; [|naive_solver]. cbn. intros ->. destruct Hrel as (_ & _ & Htl & _). by apply Ht.
  - exists (Fifo.mk q h). split; [by left|]. by rewrite list_insert_id.
  - eapply sim_head_silent; try done. intros q' nd'. destruct h; naive_solver.
  - eapply sim_head_silent; try done. intros q' nd'. destruct h; naive_solver.
  - destruct Hhd as (q' & nd' & -> & Hn' & Hh); [done|]. rewrite Hn in Hn'. injection Hn' as <-.
    destruct h; naive_solver.
  - destruct Hhd as (q' & nd' & -> & Hn' & Hh); [done|]. destruct h; [|naive_solver].
    eexists. split; [right; apply Fifo.Release|]. by apply sim_leave.
Qed.

Lemma mcs_simulation i c c' a :
  mcs_rel c a → thread_step step i c c' →
  ∃ a', (a' = a ∨ Fifo.step i a a') ∧ mcs_rel c' a'.
Proof.
  intros Hrel Hs. destruct c as [s ls], a as [q h].
  apply thread_step_inv in Hs as (l & s' & l' & Hi & Hs & ->).
  assert (out_pc l = true → outside s i l) as Hout by (by apply (outside_of s ls (Fifo.mk q h))).
  assert (head_pc l = true → ∃ q' nd, q = i :: q' ∧ nodes s !! i = Some nd ∧ head_ok h l nd q') as Hhd
    by (by apply (at_head s ls)).
  destruct Hs as [i s|i s nd Hn|i s nd Hn|i s Ht|i s p Ht|i s p nd Hn|i s nd Hn Hl|i s nd Hn Hl|i s
    |i s|i s nd Hn|i s Ht|i s Ht|i s d|i s l s' l' Hs]; cbn [out_pc head_pc outside] in Hout, Hhd.
  - exists (Fifo.mk q h). split; [by left|]. by apply (sim_outside s s ls _ i NIdle).
  - exists (Fifo.mk q h). split; [by left|]. eapply sim_prepare; try done.
    eexists. split; [by eapply node_set | done].
  - exists (Fifo.mk q h). split; [by left|]. destruct (Hout eq_refl) as (nd' & Hn' & Hlk).
    eapply sim_prepare; try done. eexists. split; [by eapply node_set|]. cbn. split; [congruence | done].
  - destruct (Hout eq_refl) as (nd & Hn & _ & Hx).
    destruct (sim_first s ls q h i LockSwap nd) as [Hq Hrel']; try done.
    eexists. split; [right; by constructor | done].
  - destruct (Hout eq_refl) as (nd & Hn & Hlk & Hx).
    destruct (sim_queued s ls q h i p nd) as [Hq Hrel']; try done.
    eexists. split; [right; by constructor | done].
  - exists (Fifo.mk q h). split; [by left|]. by apply sim_link.
  - exists (Fifo.mk q h). split; [by left|]. by rewrite list_insert_id.
  - destruct (wait_over s ls q h i nd) as (q' & -> & ->); try done.
    eexists. split; [right; apply Fifo.Acquire|]. by eapply (sim_head s ls q' false true).
  - destruct Hhd as (q' & nd & -> & Hn & Hh); [done|]. destruct h; [done|].
    eexists. split; [right; apply Fifo.Acquire|]. by eapply (sim_head s ls q' false true).
  - exists (Fifo.mk q h). split; [by left|]. by apply (sim_outside s s ls _ i NIdle).
  - exists (Fifo.mk q h). split; [by left|]. eapply sim_prepare; try done.
    eexists. split; [by eapply node_set | done].
  - destruct (Hout eq_refl) as (nd & Hn & Hx).
    destruct (sim_first s ls q h i TryCas nd) as [Hq Hrel']; try done.
    eexists. split; [right; by constructor | done].
  - exists (Fifo.mk q h). split; [by left|]. by apply (sim_outside s s ls _ i TryCas).
  - exists (Fifo.mk q h). split; [by left|]. rewrite list_insert_id by done. by eapply sim_data.
  - by apply (sim_release i s l).
Qed.

Lemma mcs_rel_init n (d : A) : mcs_rel (new n d, replicate n NIdle) Fifo.init.
Proof.
  split_and!; cbn; try done; [by apply NoDup_nil | by rewrite !length_replicate | |].
  - intros i l [-> _]%lookup_replicate_1 _. done.
  - intros j Hj. by apply not_elem_of_nil in Hj.
Qed.

Definition mcs_holding (l : npc) : bool :=
  match l with Held | DropCas | DropSpin | DropLoad | DropStore _ => true | _ => false end.

Lemma mcs_holder c a i l :
  mcs_rel c a → c.2 !! i = Some l → mcs_holding l = true → ∃ q, a = Fifo.mk (i :: q) true.
Proof.
  destruct c as [s ls], a as [q h]. intros Hrel Hi Hl.
  destruct (at_head s ls q h i l Hrel Hi) as (q' & nd & -> & _ & Hh); [by destruct l|].
  exists q'. destruct h; [done|]. destruct l; naive_solver.
Qed.

Global Program Instance mcs_fair (d : A) :
    FairLock step (λ n, new n d) NIdle mcs_holding (λ _, True) := {
  lock_rel := mcs_rel;
}.
Next Obligation. intros d n. apply mcs_rel_init. Qed.
Next Obligation. intros d i c c' a _. apply mcs_simulation. Qed.
Next Obligation. intros d c a i l. apply mcs_holder. Qed.

(** A thread in the queue has not returned from [lock] or [drop]. *)
Lemma in_queue_alive s ls q h j :
  mcs_rel (s, ls) (Fifo.mk q h) → j ∈ q → ∃ k, ls !! j = Some k ∧ out_pc k = false.
Proof.
  intros Hrel Hj. pose proof Hrel as (_ & Hln & _ & _ & Hc & _). cbn [fst snd Fifo.queue] in *.
  destruct (chain_elem s ls q j Hc Hj) as [nd Hn%lookup_lt_Some].
  destruct (lookup_lt_is_Some_2 ls j) as [k Hk]; [lia|]. exists k. split; [done|].
  destruct (out_pc k) eqn:E; [|done]. by destruct (not_in_queue s ls q h j k Hrel Hk E).
Qed.

Lemma chain_prev s ls q i p :
  NoDup q → chain s ls q → i ∈ List.tl q → ls !! i = Some (LockLink p) → p ∈ q ∧ p ≠ i.
Proof.
  induction q as [|j q IH]; [by intros _ _ ?%not_elem_of_nil|]. cbn [chain List.tl].
  intros [Hjq Hnd]%NoDup_cons [(nd & _ & Hlk) Hc] Hi Hl.
  destruct q as [|k q]; [by apply not_elem_of_nil in Hi|].
  apply elem_of_cons in Hi as [->|Hi].
  - cbn in Hlk. rewrite Hl in Hlk. destruct Hlk as [[_ [= ->]]|[_ E]]; [|done].
    split; [left | intros ->; apply Hjq; left].
  - destruct (IH Hnd Hc Hi Hl) as [Hp Hpi]. split; [by right | done].
Qed.

(** Every node that a thread is about to access through a pointer belongs to a call
    that has not returned, and [unwrap] does not fail. *)
Lemma mcs_alive s ls q h i l :
  mcs_rel (s, ls) (Fifo.mk q h) → ls !! i = Some l →
  match l with
  | LockLink p | DropStore p => p ≠ i ∧ ∃ k, ls !! p = Some k ∧ out_pc k = false
  | NPanic => False
  | _ => True
  end.
Proof.
  intros Hrel Hi. pose proof Hrel as (Hnd & _ & _ & Ho & Hc & Hf & _). cbn [fst snd Fifo.queue Fifo.held] in *.
  assert (out_pc l = false → i ∈ q) as Hin.
  { intros Hl. destruct (decide (i ∈ q)) as [|Hq]; [done|]. specialize (Ho i l Hi Hq). by destruct l. }
  assert (∀ k, ls !! i = Some k → head_pc k = false → k ≠ LockWait → i ∈ q → i ∈ List.tl q) as Htl.
  { intros k Hk Hkh Hkw Hq. destruct q as [|j q]; [done|]. apply elem_of_cons in Hq as [->|Hq]; [|done].
    destruct Hf as (nd & x & _ & Hx & Hh). rewrite Hk in Hx. injection Hx as <-.
    destruct h, k; naive_solver. }
  destruct l; try done.
  - destruct (chain_prev s ls q i p) as [Hp Hpi]; try done; [by eapply Htl; eauto|].
    split; [done|]. by eapply in_queue_alive.
  - destruct (at_head s ls q h i (DropStore n) Hrel Hi eq_refl) as (q' & nd & -> & Hn & Hh).
    destruct h; [|naive_solver]. cbn in Hh, Hc. destruct Hc as [(nd' & Hn' & Hlk) _].
    rewrite Hn in Hn'. injection Hn' as <-. destruct q' as [|k q']; cbn in Hlk; [congruence|].
    rewrite Hh in Hlk. destruct Hlk as [[? _]|[[= ->] _]]; [done|].
    split; [intros ->; by apply NoDup_cons in Hnd as [Hx _]; apply Hx; left|].
    eapply in_queue_alive; [done|]. right. left.
  - destruct (chain_tail s ls q i Hc) as [E|[p E]]; [by eapply Htl; eauto | congruence | congruence].
Qed.

(** *** Progress *)

(** The first thread of the queue, or the thread behind it, can go on. *)
Lemma head_progress s ls i q h :
  mcs_rel (s, ls) (Fifo.mk (i :: q) h) →
  ∃ j k s' k', ls !! j = Some k ∧ k ≠ NIdle ∧ step j s k s' k' ∧ k' ≠ k.
Proof.
  intros Hrel. pose proof Hrel as (_ & _ & _ & _ & [(nd0 & Hn0 & Hlk) Hc] & (nd & l & Hn & Hi & Hh) & _).
  cbn [fst snd Fifo.queue Fifo.held] in *. rewrite Hn in Hn0. injection Hn0 as <-.
  destruct h, l; cbn in Hh; try (naive_solver; fail).
  - destruct (next nd) eqn:E; eexists i, _, _, _; (split_and!; [done | done | | ]).
    + eapply Release, Drop_more; [done | by rewrite E].
    + done.
    + by eapply Release, Drop_last.
    + done.
  - destruct (decide (tail s = Some i)); eexists i, _, _, _; (split_and!; [done | done | | ]).
    + by apply Release, Drop_cas.
    + done.
    + by apply Release, Drop_cas_fail.
    + done.
  - destruct q as [|k q]; [done|]. cbn in Hlk. destruct Hlk as [[Hx Hk]|[Hx Hk]].
    + eexists k, _, _, _. split_and!; [done | done | by eapply Lock_link | done].
    + eexists i, _, _, _. split_and!; [done | done | eapply Release, Drop_linked; [done | by rewrite Hx] | done].
  - destruct (next nd) eqn:E; [|done]. eexists i, _, _, _. split_and!; [done | done | by eapply Release, Drop_load | done].
  - destruct q as [|k q]; cbn in Hlk; [congruence|]. rewrite Hh in Hlk.
    destruct Hlk as [[? _]|[[= ->] _]]; [done|]. destruct Hc as [(nd1 & Hn1 & _) _].
    eexists i, _, _, _. split_and!; [done | done | by eapply Release, Drop_store | done].
  - destruct Hh as [?|[_ Hl]]; [done|]. eexists i, _, _, _. split_and!; [done | done | by eapply Lock_free | done].
  - eexists i, _, _, _. split_and!; [done | done | by eapply Lock_guard | done].
Qed.

Lemma outside_progress s i l nd :
  nodes s !! i = Some nd → out_pc l = true → l ≠ NIdle →
  ∃ s' l', step i s l s' l' ∧ l' ≠ l.
Proof.
  intros Hn Hl Hne. destruct l; try done.
  - eexists _, _. split; [by eapply Lock_flag | done].
  - eexists _, _. split; [by eapply Lock_next | done].
  - destruct (tail s) eqn:E; eexists _, _; [split; [by eapply Lock_queued | done] | split; [by eapply Lock_first | done]].
  - eexists _, _. split; [by eapply Try_next | done].
  - destruct (decide (tail s = None)); eexists _, _; [split; [by eapply Try_ok | done] | split; [by eapply Try_fail | done]].
Qed.

End proofs.

(** ** Properties *)

(** C27: the MCS lock implements a fair lock for any number of threads: every
    reachable configuration corresponds to a reachable state of the queue of the
    specification, and every step of a thread is a step of that thread in the
    specification (the [swap] of [lock] and the [compare_exchange] of [try_lock]
    join the end of the queue, only the first one gets the guard, the release lets
    the next one go first) or is not visible there. *)
Theorem mcs_refines_fifo {A} n (d : A) c :
  reachable McsLock.step (McsLock.new n d) NIdle n c →
  ∃ a, rtc Fifo.any Fifo.init a ∧ mcs_rel c a ∧
    ∀ i c', thread_step McsLock.step i c c' →
      ∃ a', (a' = a ∨ Fifo.step i a a') ∧ mcs_rel c' a'.
Proof.
  intros Hc. apply (lock_reachable (FairLock0 := mcs_fair d)) in Hc as (Hl & a & Ha & Hrel); [|done].
  exists a. split_and!; [done | done |]. intros i c' Hs. by apply (mcs_simulation i c).
Qed.

(** Memory safety and mutual exclusion of the MCS lock: at most one thread has
    the guard, only that thread changes the data, a node is only accessed through a
    pointer while the call it belongs to has not returned, and the [unwrap] in the
    release never fails. *)
Theorem mcs_safe {A} n (d : A) c :
  reachable McsLock.step (McsLock.new n d) NIdle n c →
  (∀ i j l k, c.2 !! i = Some l → c.2 !! j = Some k →
     mcs_holding l = true → mcs_holding k = true → i = j) ∧
  (∀ i c', thread_step McsLock.step i c c' → mdata c'.1 ≠ mdata c.1 → c.2 !! i = Some Held) ∧
  (∀ i l, c.2 !! i = Some l →
     match l with
     | LockLink p | DropStore p => p ≠ i ∧ ∃ k, c.2 !! p = Some k ∧ out_pc k = false
     | NPanic => False
     | _ => True
     end).
Proof.
  intros Hc. split_and!.
  - intros i j l k. by apply (lock_mutex (FairLock0 := mcs_fair d) n c).
  - intros i c' Hs Hd. destruct c as [s ls].
    apply thread_step_inv in Hs as (l & s' & l' & Hi & Hs & ->). cbn [fst snd] in *.
    destruct Hs as [| | | | | | | | | | | | | |? ? ? ? ? Hr]; try done. by destruct Hr.
  - apply (lock_reachable (FairLock0 := mcs_fair d)) in Hc as (_ & a & _ & Hrel); [|done].
    destruct c as [s ls], a as [q h]. intros i l. by apply (mcs_alive s ls q h).
Qed.

(** C40: the MCS lock does not deadlock: whenever a thread is in [lock], in
    [try_lock], in the release or has the guard, some thread can do more than go
    round a waiting loop. *)
Theorem mcs_progress {A} n (d : A) c i l :
  reachable McsLock.step (McsLock.new n d) NIdle n c → c.2 !! i = Some l → l ≠ NIdle →
  ∃ j k s' k', c.2 !! j = Some k ∧ k ≠ NIdle ∧ McsLock.step j c.1 k s' k' ∧ k' ≠ k.
Proof.
  intros Hc Hi Hne. apply (lock_reachable (FairLock0 := mcs_fair d)) in Hc as (_ & a & _ & Hrel); [|done].
  destruct c as [s ls], a as [q h]. destruct (out_pc l) eqn:El.
  - destruct Hrel as (_ & Hln & _). cbn [fst snd] in *. apply lookup_lt_Some in Hi as Hlt.
    destruct (lookup_lt_is_Some_2 (nodes s) i) as [nd Hn]; [lia|].
    destruct (outside_progress s i l nd Hn El Hne) as (s' & l' & Hs & Hl'). by exists i, l, s', l'.
  - destruct q as [|j q]; [|by apply (head_progress s ls j q h)].
    destruct Hrel as (_ & _ & _ & Ho & _). specialize (Ho i l Hi (not_elem_of_nil _)). by destruct l.
Qed.

(** ** Examples *)

(** Thread 0 has the lock, thread 1 waits behind it. *)
Definition demo_mcs : McsLock Z * list npc :=
  (mkMcs (Some 1%nat) [mkNode true (Some 1%nat); mkNode true None] 5, [Held; LockWait]).

Lemma demo_mcs_reachable : reachable McsLock.step (McsLock.new 2 5) NIdle 2 demo_mcs.
Proof.
  unfold reachable, demo_mcs, McsLock.new. cbn [replicate].
  run 0%nat (@McsLock.Lock_call Z). run 0%nat (@McsLock.Lock_flag Z). run 0%nat (@McsLock.Lock_next Z).
  run 0%nat (@McsLock.Lock_first Z). run 0%nat (@McsLock.Lock_guard Z).
  run 1%nat (@McsLock.Lock_call Z). run 1%nat (@McsLock.Lock_flag Z). run 1%nat (@McsLock.Lock_next Z).
  run 1%nat (@McsLock.Lock_queued Z). run 1%nat (@McsLock.Lock_link Z). apply rtc_refl.
Qed.

Lemma mcs_refines_fifo_witness :
  ∃ a, rtc Fifo.any Fifo.init a ∧ mcs_rel demo_mcs a ∧
    ∀ i c', thread_step McsLock.step i demo_mcs c' →
      ∃ a', (a' = a ∨ Fifo.step i a a') ∧ mcs_rel c' a'.
Proof. apply (mcs_refines_fifo 2 5 demo_mcs). exact demo_mcs_reachable. Defined.

Lemma mcs_safe_witness :
  (∀ i j l k, demo_mcs.2 !! i = Some l → demo_mcs.2 !! j = Some k →
     mcs_holding l = true → mcs_holding k = true → i = j) ∧
  (∀ i c', thread_step McsLock.step i demo_mcs c' → mdata c'.1 ≠ mdata demo_mcs.1 →
     demo_mcs.2 !! i = Some Held) ∧
  (∀ i l, demo_mcs.2 !! i = Some l →
     match l with
     | LockLink p | DropStore p => p ≠ i ∧ ∃ k, demo_mcs.2 !! p = Some k ∧ out_pc k = false
     | NPanic => False
     | _ => True
     end).
Proof. apply (mcs_safe 2 5 demo_mcs). exact demo_mcs_reachable. Defined.

Lemma mcs_progress_witness :
  ∃ j k s' k', demo_mcs.2 !! j = Some k ∧ k ≠ NIdle ∧ McsLock.step j demo_mcs.1 k s' k' ∧ k' ≠ k.
Proof. apply (mcs_progress 2 5 demo_mcs 1 LockWait); [exact demo_mcs_reachable | done | done]. Defined.
