(* ===== verification/MuMcs.v ===== *)
(** * The MCS lock around a value that is initialised later

    [hyperdrive/src/locks/mcs.rs]: [MUMcsLock], a flag and an MCS lock around a
    [MaybeUninit].  The proofs use the MCS lock through the contract of a fair lock
    only: mutual exclusion of its holders. *)

From S2P Require Import Prelude Threads FairLock Mcs.

Record MUMcsLock (A : Type) := mkMu { inner_lock : McsLock (option A); is_init : bool }.
Arguments mkMu {A} inner_lock is_init.
Arguments inner_lock {A} m.
Arguments is_init {A} m.

(** How a thread asks for the lock: [lock] and [with_locked], [lock_if_init] and
    [with_locked_if_init], or [try_lock] and [try_with_locked]. *)
Inductive kind : Set := KLock | KIfInit | KTry.

(** What it takes the inner lock for. *)
Inductive purpose (A : Type) : Type := PInit (v : A) | PUse.
Arguments PInit {A} v.
Arguments PUse {A}.

Inductive upc (A : Type) : Type :=
| UIdle
| InitCheck (v : A)                        (** [init], before [is_initialized] *)
| UseCheck (k : kind)                      (** before [is_initialized] of the others *)
| Locking (p : purpose A) (l : npc)        (** in [lock] or [try_lock] of the inner lock *)
| InitSwap (v : A)                         (** with the inner guard, before [is_init.swap(true)] *)
| InitWrite (v : A)                        (** before [inner.write(value)] *)
| Access                                   (** with a guard *)
| Unlocking (p : purpose A) (l : npc)      (** in the [drop] of the inner guard *)
| UPanic.                                  (** [lock] on an uninitialised lock *)
Arguments UIdle {A}.
Arguments InitCheck {A} v.
Arguments UseCheck {A} k.
Arguments Locking {A} p l.
Arguments InitSwap {A} v.
Arguments InitWrite {A} v.
Arguments Access {A}.
Arguments Unlocking {A} p l.
Arguments UPanic {A}.

Module MUMcsLock.

Section lock.

Context {A : Type}.

Definition uninit (n : nat) : MUMcsLock A := mkMu (McsLock.new n None) false.
Definition is_initialized (s : MUMcsLock A) : bool := is_init s.

Definition set_inner (s : MUMcsLock A) (m : McsLock (option A)) : MUMcsLock A := mkMu m (is_init s).
Definition write (s : MUMcsLock A) (v : A) : MUMcsLock A :=
  set_inner s (mkMcs (tail (inner_lock s)) (nodes (inner_lock s)) (Some v)).

(** [into_inner] and [Drop]: what is in the lock at the end. *)
Definition into_inner (s : MUMcsLock A) : option A :=
  if is_init s then mdata (inner_lock s) else None.

(** Where a thread is after a step in the inner lock. *)
Definition locking (p : purpose A) (l : npc) : upc A :=
  match l, p with
  | Held, PInit v => InitSwap v
  | Held, PUse => Access
  | NIdle, _ => UIdle
  | _, _ => Locking p l
  end.
Definition unlocking (p : purpose A) (l : npc) : upc A :=
  match l with NIdle => UIdle | _ => Unlocking p l end.

Inductive step : nat → MUMcsLock A → upc A → MUMcsLock A → upc A → Prop :=
(** [init] *)
| Init_call i s v : step i s UIdle s (InitCheck v)
| Init_skip i s v : is_initialized s = true → step i s (InitCheck v) s UIdle
| Init_lock i s v : is_initialized s = false → step i s (InitCheck v) s (Locking (PInit v) LockFlag)
| Init_again i s v : is_init s = true → step i s (InitSwap v) s (Unlocking (PInit v) Held)
| Init_first i s v :
    is_init s = false → step i s (InitSwap v) (mkMu (inner_lock s) true) (InitWrite v)
| Init_write i s v : step i s (InitWrite v) (write s v) (Unlocking (PInit v) Held)
(** [lock], [lock_if_init] and [try_lock] *)
| Use_call i s k : step i s UIdle s (UseCheck k)
| Use_uninit i s k :
    is_initialized s = false →
    step i s (UseCheck k) s (match k with KLock => UPanic | _ => UIdle end)
| Use_init i s k :
    is_initialized s = true →
    step i s (UseCheck k) s
      (match k with
       | KLock => Locking PUse LockFlag
       | KIfInit => UseCheck KLock
       | KTry => Locking PUse TryNext
       end)
(** [DerefMut for MUMcsGuard]: [assume_init_mut] *)
| Use_store i s v d :
    mdata (inner_lock s) = Some v → step i s Access (write s d) Access
| Use_release i s : step i s Access s (Unlocking PUse Held)
(** the inner lock *)
| Inner_lock i s p l m l' :
    l ≠ Held → McsLock.step i (inner_lock s) l m l' →
    step i s (Locking p l) (set_inner s m) (locking p l')
| Inner_unlock i s p l m l' :
    mdata m = mdata (inner_lock s) → McsLock.step i (inner_lock s) l m l' →
    step i s (Unlocking p l) (set_inner s m) (unlocking p l').

End lock.

End MUMcsLock.

(** ** The invariant *)

Section proofs.

Context {A : Type}.

Implicit Types (s : MUMcsLock A) (l : upc A) (ls : list (upc A)).

Import MUMcsLock.

(** The thread as the inner lock sees it. *)
Definition project l : npc :=
  match l with
  | UIdle | InitCheck _ | UseCheck _ | UPanic => NIdle
  | Locking _ k | Unlocking _ k => k
  | InitSwap _ | InitWrite _ | Access => Held
  end.

(** Every step of the outer lock is at most one step of the inner one. *)
Lemma project_step i s l s' l' :
  step i s l s' l' →
  (inner_lock s' = inner_lock s ∧ project l' = project l) ∨
  McsLock.step i (inner_lock s) (project l) (inner_lock s') (project l').
Proof.
  intros Hs. destruct Hs as [| | | | | | |i s k Hu|i s k Hu| | |i s p l m l' Hl Hm|i s p l m l' Hd Hm];
    cbn; try (by left).
  - right. apply McsLock.Lock_call.
  - right. apply McsLock.Store.
  - left. by destruct k.
  - destruct k; [right; apply McsLock.Lock_call | by left | right; apply McsLock.Try_call].
  - right. apply McsLock.Store.
  - right. destruct l', p; done.
  - right. destruct l'; done.
Qed.

Lemma project_reachable n c :
  reachable step (uninit n) UIdle n c →
  reachable McsLock.step (McsLock.new n None) NIdle n (inner_lock c.1, project <$> c.2).
Proof.
  revert c. apply reachable_inv.
  - cbn. rewrite fmap_replicate. apply rtc_refl.
  - intros i c c' Hc Hs. destruct c as [s ls].
    apply thread_step_inv in Hs as (l & s' & l' & Hi & Hs & ->). cbn [fst snd] in *.
    rewrite list_fmap_insert. destruct (project_step i s l s' l' Hs) as [[-> ->]|Hm].
    + rewrite list_insert_id; [done|]. by rewrite list_lookup_fmap, Hi.
    + eapply rtc_r; [done|]. exists i. constructor 1 with (project l); [|done].
      by rewrite list_lookup_fmap, Hi.
Qed.

Lemma mu_mutex n c i j l k :
  reachable step (uninit n) UIdle n c → c.2 !! i = Some l → c.2 !! j = Some k →
  mcs_holding (project l) = true → mcs_holding (project k) = true → i = j.
Proof.
  intros Hc%project_reachable Hi Hj.
  apply (lock_mutex (FairLock0 := mcs_fair (A := option A) None) n _ i j (project l) (project k) I Hc);
    cbn; by rewrite list_lookup_fmap, ?Hi, ?Hj.
Qed.

(** What a thread knows: those that use the value saw the flag set. *)
Definition mu_knows s l : Prop :=
  match l with
  | Locking PUse _ | Access => is_init s = true
  | InitWrite _ => is_init s = true ∧ mdata (inner_lock s) = None
  | _ => True
  end.

Definition mu_inv (c : MUMcsLock A * list (upc A)) : Prop :=
  (∀ i l, c.2 !! i = Some l → mu_knows c.1 l) ∧
  (is_init c.1 = false → mdata (inner_lock c.1) = None) ∧
  (is_init c.1 = true → is_Some (mdata (inner_lock c.1)) ∨ ∃ i v, c.2 !! i = Some (InitWrite v)).

(** A thread with a guard finds the value. *)
Lemma mu_holds n s ls i l :
  reachable step (uninit n) UIdle n (s, ls) → mu_inv (s, ls) → ls !! i = Some l →
  mcs_holding (project l) = true → (∀ v, l ≠ InitWrite v) → is_init s = true →
  is_Some (mdata (inner_lock s)).
Proof.
  intros Hr (_ & _ & Hv) Hi Hl Hne Hs. destruct (Hv Hs) as [|(j & v & Hj)]; [done|].
  assert (i = j) as <- by (by apply (mu_mutex n (s, ls) i j l (InitWrite v))). cbn [snd] in Hj.
  by destruct (Hne v); congruence.
Qed.

(** A step that leaves flag and value alone. *)
Lemma mu_quiet s s' ls i l l' :
  mu_inv (s, ls) → ls !! i = Some l → is_init s' = is_init s →
  mdata (inner_lock s') = mdata (inner_lock s) → (∀ v, l ≠ InitWrite v) → mu_knows s' l' →
  mu_inv (s', <[i := l']> ls).
Proof.
  intros (Hk & Hf & Hv) Hi E1 E2 Hne Hl'. cbn [fst snd] in *. split_and!; cbn [fst snd]; rewrite ?E1, ?E2; [| done |].
  - intros j k [(<- & <- & _)|[Hij Hj]]%list_lookup_insert_Some; [done|].
    specialize (Hk j k Hj). destruct k as [| | |[]| | | | |]; cbn in *; rewrite ?E1, ?E2; done.
  - intros Hs. destruct (Hv Hs) as [?|(j & v & Hj)]; [by left | right].
    exists j, v. rewrite list_lookup_insert_ne; [done|]. intros ->. by destruct (Hne v); congruence.
Qed.

Lemma mcs_step_data {B} i (s s' : McsLock B) (l l' : npc) :
  McsLock.step i s l s' l' → l ≠ Held → mdata s' = mdata s.
Proof. intros [| | | | | | | | | | | | | |? ? ? ? ? Hr]; try done. by destruct Hr. Qed.

Lemma mu_inv_step n i c c' :
  reachable step (uninit n) UIdle n c → mu_inv c → thread_step step i c c' → mu_inv c'.
Proof.
  intros Hr Hinv Hs. destruct c as [s ls].
  apply thread_step_inv in Hs as (l & s' & l' & Hi & Hs & ->).
  assert (mu_knows s l) as Hkn by (by apply Hinv in Hi).
  destruct Hs as [| | | |i s v Hz|i s v| | |i s k Hz|i s v d Hz| |i s p l m l' Hl Hm|i s p l m l' Hd Hm];
    try (by eapply mu_quiet).
  - destruct Hinv as (Hk & Hf & Hv). cbn [fst snd] in *. split_and!; cbn [fst snd is_init]; [|done|].
    + intros j k [(<- & <- & _)|[Hij Hj]]%list_lookup_insert_Some; [by cbn; auto|].
      specialize (Hk j k Hj). destruct k as [| | |[]| | | | |]; cbn in *; try done. naive_solver.
    + intros _. right. exists i, v. apply list_lookup_insert_eq. by apply lookup_lt_Some in Hi.
  - destruct Hkn as [Hin Hno]. split_and!; cbn [fst snd].
    + intros j k [(<- & <- & _)|[Hij Hj]]%list_lookup_insert_Some; [done|].
      destruct k as [| | |[]| |w| | |]; cbn; try done.
      destruct Hij. by apply (mu_mutex n (s, ls) i j (InitWrite v) (InitWrite w)).
    + cbn. congruence.
    + intros _. left. done.
  - eapply mu_quiet; try done. by destruct k.
  - eapply mu_quiet; try done. destruct k; done.
  - cbn in Hkn. split_and!; cbn [fst snd].
    + intros j k [(<- & <- & _)|[Hij Hj]]%list_lookup_insert_Some; [done|].
      destruct k as [| | |[]| |w| | |]; cbn; try done.
      destruct Hij. by apply (mu_mutex n (s, ls) i j Access (InitWrite w)).
    + cbn. congruence.
    + intros _. left. done.
  - eapply mu_quiet; try done; [cbn; by apply mcs_step_data in Hm|].
    destruct l', p; done.
  - eapply mu_quiet; try done. by destruct l'.
Qed.

Lemma mu_reachable n c : reachable step (uninit n) UIdle n c → mu_inv c.
Proof.
  intros Hc. assert (reachable step (uninit n) UIdle n c ∧ mu_inv c) as [_ ?]; [|done].
  revert c Hc. apply reachable_inv.
  - split; [apply rtc_refl|]. split_and!; [|done|done].
    intros i l [-> _]%lookup_replicate_1. done.
  - intros i c c' [Hr Hinv] Hs. split; [|by apply (mu_inv_step n i c)].
    eapply rtc_r; [done|]. by exists i.
Qed.

End proofs.

(** ** Properties *)

(** The lock with delayed initialisation is sound: a guard gives access to the
    value only when it is initialised (the [assume_init] calls are justified), at
    most one thread is between the flag and the write of the value or has a guard,
    and once the flag is set only a thread with a guard, or the one initialiser,
    changes the value. *)
Theorem mu_safe {A} n (c : MUMcsLock A * list (upc A)) :
  reachable MUMcsLock.step (MUMcsLock.uninit n) UIdle n c →
  (∀ i, c.2 !! i = Some Access → is_Some (mdata (inner_lock c.1))) ∧
  (∀ i j l k, c.2 !! i = Some l → c.2 !! j = Some k → mcs_holding (project l) = true →
     mcs_holding (project k) = true → i = j) ∧
  (∀ i c', thread_step MUMcsLock.step i c c' →
     mdata (inner_lock c'.1) ≠ mdata (inner_lock c.1) →
     c.2 !! i = Some Access ∨ (mdata (inner_lock c.1) = None ∧ ∃ v, c.2 !! i = Some (InitWrite v))).
Proof.
  intros Hr. pose proof (mu_reachable n c Hr) as Hinv. destruct c as [s ls]. split_and!.
  - intros i Hi. apply (mu_holds n s ls i Access); try done. by apply Hinv in Hi.
  - intros i j l k. by apply (mu_mutex n).
  - intros i c' Hs Hd. apply thread_step_inv in Hs as (l & s' & l' & Hi & Hs & ->). cbn [fst snd] in *.
    apply Hinv in Hi as Hk. destruct Hs as [| | | | |i s v| | | |i s v d| |i s p l m l' Hl Hm|]; try done.
    + right. split; [apply Hk | by exists v].
    + by left.
    + destruct Hd. cbn. by apply mcs_step_data in Hm.
Qed.

(** ** Examples *)

(** The thread has initialised the lock with 7 and locked it. *)
Definition demo_mu : MUMcsLock Z * list (upc Z) :=
  (mkMu (mkMcs (Some 0%nat) [mkNode true None] (Some 7)) true, [Access]).

Ltac inner rule := eapply rtc_l; [exists 0%nat; eapply Thread_step; [reflexivity|];
  first [eapply MUMcsLock.Inner_lock; [|eapply rule; reflexivity]; discriminate
        |eapply MUMcsLock.Inner_unlock; [|eapply McsLock.Release, rule; reflexivity]; reflexivity] | cbn].

Lemma demo_mu_reachable : reachable MUMcsLock.step (MUMcsLock.uninit 1) UIdle 1 demo_mu.
Proof.
  unfold reachable, demo_mu, MUMcsLock.uninit, McsLock.new. cbn [replicate].
  run 0%nat (λ i s, MUMcsLock.Init_call (A := Z) i s 7). run 0%nat (@MUMcsLock.Init_lock Z).
  inner (@McsLock.Lock_flag (option Z)). inner (@McsLock.Lock_next (option Z)).
  inner (@McsLock.Lock_first (option Z)). inner (@McsLock.Lock_guard (option Z)).
  run 0%nat (@MUMcsLock.Init_first Z). run 0%nat (@MUMcsLock.Init_write Z).
  inner (@McsLock.Drop_last (option Z)). inner (@McsLock.Drop_cas (option Z)).
  run 0%nat (λ i s, MUMcsLock.Use_call (A := Z) i s KLock). run 0%nat (@MUMcsLock.Use_init Z).
  inner (@McsLock.Lock_flag (option Z)). inner (@McsLock.Lock_next (option Z)).
  inner (@McsLock.Lock_first (option Z)). inner (@McsLock.Lock_guard (option Z)). apply rtc_refl.
Qed.

Lemma mu_safe_witness :
  (∀ i, demo_mu.2 !! i = Some Access → is_Some (mdata (inner_lock demo_mu.1))) ∧
  (∀ i j l k, demo_mu.2 !! i = Some l → demo_mu.2 !! j = Some k → mcs_holding (project l) = true →
     mcs_holding (project k) = true → i = j) ∧
  (∀ i c', thread_step MUMcsLock.step i demo_mu c' →
     mdata (inner_lock c'.1) ≠ mdata (inner_lock demo_mu.1) →
     demo_mu.2 !! i = Some Access ∨
     (mdata (inner_lock demo_mu.1) = None ∧ ∃ v, demo_mu.2 !! i = Some (InitWrite v))).
Proof. apply (mu_safe 1 demo_mu). exact demo_mu_reachable. Defined.
