(* ===== verification/Once.v ===== *)
(** * One-time initialisation

    [hyperdrive/src/once.rs]: the state in an [AtomicU8], the value that one thread
    writes, and the threads that call [call_once] and [get]. *)

From S2P Require Import Prelude Threads.

Inductive State : Set := Initialized | Initializing | Uninitialized | Poisoned.

Global Instance State_eq_dec : EqDecision State.
Proof. solve_decision. Defined.

Module State.

Definition as_u8 (self : State) : Z :=
  match self with Initialized => 0 | Initializing => 1 | Uninitialized => 2 | Poisoned => 3 end.

Definition from_u8 (value : Z) : option State :=
  match value with
  | 0 => Some Initialized
  | 1 => Some Initializing
  | 2 => Some Uninitialized
  | 3 => Some Poisoned
  | _ => None
  end.

End State.

Record Once (A : Type) := mkOnce { state : Z; value : option A }.
Arguments mkOnce {A} state value.
Arguments state {A} o.
Arguments value {A} o.

(** Where a thread is. *)
Inductive opc (A : Type) : Type :=
| ONone
| CallCas               (** [call_once], before the [compare_exchange] *)
| CallInit              (** in [guard_call]: the initializer runs *)
| CallPoison            (** the initializer panicked, before [poison] *)
| CallWrite (v : A)     (** before the value is written *)
| CallStore (v : A)     (** before [Initialized] is stored *)
| CallDone              (** [call_once] returns *)
| GetLoad               (** [get], before the first load *)
| GetSpin               (** in the loop of [get] *)
| GetReload             (** after the loop, before the last load *)
| GetRead               (** before the value is read *)
| GetDone (o : option A)(** [get] returns [o] *)
| OncePanic.            (** the thread panicked *)
Arguments ONone {A}.
Arguments CallCas {A}.
Arguments CallInit {A}.
Arguments CallPoison {A}.
Arguments CallWrite {A} v.
Arguments CallStore {A} v.
Arguments CallDone {A}.
Arguments GetLoad {A}.
Arguments GetSpin {A}.
Arguments GetReload {A}.
Arguments GetRead {A}.
Arguments GetDone {A} o.
Arguments OncePanic {A}.

Module Once.

Section once.

Context {A : Type}.

Definition uninit : Once A := mkOnce (State.as_u8 Uninitialized) None.
Definition from_init (v : A) : Once A := mkOnce (State.as_u8 Initialized) (Some v).

(** [AtomicState::load]: [None] stands for the undefined behaviour of
    [from_u8_unchecked] on an invalid value. *)
Definition load (s : Once A) : option State := State.from_u8 (state s).
Definition store (s : Once A) (st : State) : Once A := mkOnce (State.as_u8 st) (value s).

Definition is_initialized (s : Once A) : bool := bool_decide (load s = Some Initialized).
Definition is_poisoned (s : Once A) : bool := bool_decide (load s = Some Poisoned).

Definition poison (s : Once A) : Once A := store s Poisoned.

(** [Drop]: the value that is dropped. *)
Definition drop (s : Once A) : option A := if is_initialized s then value s else None.

Inductive step : nat → Once A → opc A → Once A → opc A → Prop :=
(** [call_once] *)
| Call i s : step i s ONone s CallCas
| Call_ok i s :
    state s = State.as_u8 Uninitialized → step i s CallCas (store s Initializing) CallInit
| Call_err i s : state s ≠ State.as_u8 Uninitialized → step i s CallCas s CallDone
(** [PoisonGuard::guard_call]: the initializer returns a value or panics *)
| Init_value i s v : step i s CallInit s (CallWrite v)
| Init_panic i s : step i s CallInit s CallPoison
| Init_poison i s : step i s CallPoison (poison s) OncePanic
| Init_write i s v : step i s (CallWrite v) (mkOnce (state s) (Some v)) (CallStore v)
| Init_store i s v : step i s (CallStore v) (store s Initialized) CallDone
| Call_return i s : step i s CallDone s ONone
(** [get] *)
| Get_call i s : step i s ONone s GetLoad
| Get_initialized i s : load s = Some Initialized → step i s GetLoad s GetRead
| Get_initializing i s : load s = Some Initializing → step i s GetLoad s GetSpin
| Get_uninitialized i s : load s = Some Uninitialized → step i s GetLoad s (GetDone None)
| Get_poisoned i s : load s = Some Poisoned → step i s GetLoad s OncePanic
| Get_spin i s : load s = Some Initializing → step i s GetSpin s GetSpin
| Get_exit i s : load s ≠ Some Initializing → step i s GetSpin s GetReload
| Get_reload i s : load s = Some Initialized → step i s GetReload s GetRead
| Get_reload_poisoned i s : load s ≠ Some Initialized → step i s GetReload s OncePanic
| Get_read i s v : value s = Some v → step i s GetRead s (GetDone (Some v))
| Get_return i s o : step i s (GetDone o) s ONone.

End once.

End Once.

(** ** The invariant *)

Section proofs.

Context {A : Type}.

Implicit Types (s : Once A) (l : opc A) (ls : list (opc A)).

(** The thread that initialises. *)
Definition initialising l : bool :=
  match l with CallInit | CallPoison | CallWrite _ | CallStore _ => true | _ => false end.

(** What a thread knows.  [Initialized] and [Poisoned] are final. *)
Definition once_knows s l : Prop :=
  match l with
  | CallInit | CallPoison | CallWrite _ => Once.load s = Some Initializing
  | CallStore v => Once.load s = Some Initializing ∧ value s = Some v
  | GetSpin => Once.load s ≠ Some Uninitialized
  | GetReload => Once.load s = Some Initialized ∨ Once.load s = Some Poisoned
  | GetRead => Once.load s = Some Initialized
  | GetDone (Some v) => Once.load s = Some Initialized ∧ value s = Some v
  | _ => True
  end.

Definition once_inv (c : Once A * list (opc A)) : Prop :=
  (∃ st, Once.load c.1 = Some st ∧
     count initialising c.2 = (if decide (st = Initializing) then 1 else 0) ∧
     (st = Initialized → is_Some (value c.1))) ∧
  (∀ i l, c.2 !! i = Some l → once_knows c.1 l).

Lemma from_as_u8 st : State.from_u8 (State.as_u8 st) = Some st.
Proof. by destruct st. Qed.

Lemma as_from_u8 z st : State.from_u8 z = Some st → z = State.as_u8 st.
Proof. unfold State.from_u8. repeat case_match; naive_solver. Qed.

Lemma load_store s st : Once.load (Once.store s st) = Some st.
Proof. unfold Once.load, Once.store. cbn. apply from_as_u8. Qed.

(** What the other threads know survives the step of the initialising thread. *)
Lemma once_knows_stable s s' l :
  once_knows s l → initialising l = false →
  Once.load s = Some Uninitialized ∨
  (Once.load s = Some Initializing ∧ Once.load s' ≠ Some Uninitialized) →
  once_knows s' l.
Proof.
  intros Hk Hl Hs. destruct l as [| | | | | | | | | | |[v|]|]; cbn in *; try done; naive_solver congruence.
Qed.

(** The others when thread [i] initialises. *)
Lemma others_idle (ls : list (opc A)) i l j k :
  count initialising ls = 1 → ls !! i = Some l → initialising l = true → j ≠ i →
  ls !! j = Some k → initialising k = false.
Proof.
  intros Hc Hi Hl Hji Hj. destruct (initialising k) eqn:E; [|done].
  pose proof (count_two initialising ls i j l k (not_eq_sym Hji) Hi Hj Hl E). lia.
Qed.

Lemma once_inv_local s ls i l l' :
  once_inv (s, ls) → ls !! i = Some l → initialising l' = initialising l → once_knows s l' →
  once_inv (s, <[i := l']> ls).
Proof.
  intros [(st & Hl & Hc & Hv) Ht] Hi Hli Hk. cbn [fst snd] in *. split; cbn [fst snd].
  - exists st. split_and!; [done | | done].
    rewrite (count_insert initialising i l l' ls Hi). unfold one. rewrite Hli. lia.
  - intros j k [(<- & <- & _)|[Hij Hj]]%list_lookup_insert_Some; [done|]. by apply (Ht j).
Qed.

(** A step that changes the state to [st] and the number of initialising threads
    with it. *)
Lemma once_inv_change s s' st ls i l l' :
  once_inv (s, ls) → ls !! i = Some l → once_knows s' l' → Once.load s' = Some st →
  (Once.load s = Some Uninitialized ∧ st = Initializing ∧ initialising l' = true ∧ initialising l = false) ∨
  (Once.load s = Some Initializing ∧ initialising l = true ∧ st ≠ Uninitialized ∧
   initialising l' = bool_decide (st = Initializing) ∧ (st = Initialized → is_Some (value s'))) →
  once_inv (s', <[i := l']> ls).
Proof.
  intros [(st0 & Hl & Hc & Hv) Ht] Hi Hk Hs' Hcase. cbn [fst snd] in *. split; cbn [fst snd].
  - exists st. rewrite (count_insert initialising i l l' ls Hi). unfold one. split; [done|].
    destruct Hcase as [(Hu & -> & -> & ->)|(Hu & -> & Hne & -> & Hv')]; rewrite Hl in Hu; injection Hu as ->;
      rewrite Hc; [split; [reflexivity | done]|].
    split; [|done]. destruct st; reflexivity.
  - intros j k [(<- & <- & _)|[Hij Hj]]%list_lookup_insert_Some; [done|].
    apply (once_knows_stable s); [by apply (Ht j) | |].
    + destruct Hcase as [(Hu & _)|(Hu & Hli & _)]; rewrite Hl in Hu; injection Hu as ->.
      * by apply (count_zero initialising ls j).
      * by apply (others_idle ls i l j).
    + destruct Hcase as [(Hu & _)|(Hu & _ & Hne & _)]; [by left | right]. rewrite Hs'. naive_solver.
Qed.

Lemma once_inv_step i c c' : once_inv c → thread_step Once.step i c c' → once_inv c'.
Proof.
  intros Hinv Hs. destruct c as [s ls].
  apply thread_step_inv in Hs as (l & s' & l' & Hi & Hs & ->). cbn [fst snd] in *.
  pose proof Hinv as [(st & Hl & Hc & Hv) Ht]. cbn [fst snd] in *. pose proof (Ht i l Hi) as Hk.
  destruct Hs as [|i s Hu| | | |i s|i s v|i s v| | | | | | | |i s Hne| | |i s v Hval|];
    try (eapply once_inv_local; [done | done | done |]; cbn in *; first [done | congruence | tauto]).
  - apply (once_inv_change s _ Initializing ls i CallCas); try done; [apply load_store..|].
    left. split_and!; try done. unfold Once.load. rewrite Hu. done.
  - eapply (once_inv_change s _ Poisoned); try done. right. cbn in Hk. split_and!; done.
  - eapply (once_inv_change s _ Initializing); try done. right. cbn in Hk. split_and!; done.
  - eapply (once_inv_change s _ Initialized); try done. right. cbn in Hk.
    split_and!; try done; [apply Hk|]. intros _. cbn. rewrite (proj2 Hk). done.
  - eapply once_inv_local; [done | done | done |]. cbn in *. destruct st; naive_solver congruence.
Qed.

Lemma once_inv_init n : once_inv (Once.uninit, replicate n ONone).
Proof.
  split; cbn [fst snd].
  - exists Uninitialized. split_and!; [done | by apply count_replicate | done].
  - intros i l [-> _]%lookup_replicate_1. done.
Qed.

Lemma once_reachable n c : reachable Once.step Once.uninit ONone n c → once_inv c.
Proof.
  revert c. apply reachable_inv; [apply once_inv_init|]. intros i c c' Hc Hs. by apply (once_inv_step i c).
Qed.

(** [Initialized] is final, and nothing becomes uninitialised again. *)
Lemma once_final_step i c c' :
  once_inv c → thread_step Once.step i c c' →
  (Once.load c.1 = Some Initialized → c'.1 = c.1) ∧
  (Once.load c.1 ≠ Some Uninitialized → Once.load c'.1 ≠ Some Uninitialized).
Proof.
  intros [_ Ht] Hs. destruct c as [s ls].
  apply thread_step_inv in Hs as (l & s' & l' & Hi & Hs & ->). cbn [fst snd] in *.
  specialize (Ht i l Hi). destruct Hs; cbn in Ht; try done; rewrite ?load_store.
  - unfold Once.load. rewrite H. done.
  - unfold Once.poison. rewrite load_store. split; [congruence | done].
  - split; [congruence | done].
  - destruct Ht as [Ht _]. split; [congruence | done].
Qed.

Lemma once_final c c' :
  once_inv c → rtc (any_step Once.step) c c' →
  (Once.load c.1 = Some Initialized → c'.1 = c.1) ∧
  (Once.load c.1 ≠ Some Uninitialized → Once.load c'.1 ≠ Some Uninitialized).
Proof.
  intros Hinv Hc. induction Hc as [|c1 c2 c3 [i Hs] _ IH]; [done|].
  destruct (once_final_step i c1 c2 Hinv Hs) as [H1 H2].
  destruct IH as [H3 H4]; [by apply (once_inv_step i c1)|]. split; [|by auto].
  intros Hl. rewrite H3; [by apply H1|]. by rewrite (H1 Hl).
Qed.

End proofs.

(** ** Properties *)

(** C32: one-time initialisation, for any number of threads and every interleaving.
    The raw state is always one of the four states; at most one initializer runs,
    and none after the first one started; [get] reads the value only once it is
    there; and from then on neither the state nor the value changes, so that all
    calls of [get] return the same value. *)
Theorem once_safe {A} n (c : Once A * list (opc A)) :
  reachable Once.step Once.uninit ONone n c →
  is_Some (Once.load c.1) ∧
  (∀ i j l k, c.2 !! i = Some l → c.2 !! j = Some k →
     initialising l = true → initialising k = true → i = j) ∧
  (∀ i, c.2 !! i = Some GetRead → is_Some (value c.1)) ∧
  (∀ i v, c.2 !! i = Some (GetDone (Some v)) → value c.1 = Some v) ∧
  (∀ c', rtc (any_step Once.step) c c' →
     (Once.load c.1 = Some Initialized → c'.1 = c.1) ∧
     (Once.load c.1 ≠ Some Uninitialized → Once.load c'.1 ≠ Some Uninitialized)).
Proof.
  intros Hc. apply once_reachable in Hc as Hinv. pose proof Hinv as [(st & Hl & Hn & Hv) Ht].
  split_and!; [done | | | |].
  - intros i j l k Hi Hj Hil Hik. destruct (decide (i = j)) as [|Hij]; [done|].
    pose proof (count_two initialising c.2 i j l k Hij Hi Hj Hil Hik). destruct (decide _); lia.
  - intros i Hi. apply Ht in Hi. cbn in Hi. apply Hv. congruence.
  - intros i v Hi. apply Ht in Hi. apply Hi.
  - intros c'. by apply once_final.
Qed.

(** A thread that spins in [get] waits for a thread that can go on. *)
Lemma once_progress {A} n (c : Once A * list (opc A)) :
  reachable Once.step Once.uninit ONone n c → Once.load c.1 = Some Initializing →
  ∃ i l s' l', c.2 !! i = Some l ∧ initialising l = true ∧ Once.step i c.1 l s' l'.
Proof.
  intros Hc Hl. apply once_reachable in Hc as [(st & Hl' & Hn & _) _].
  rewrite Hl in Hl'. injection Hl' as <-.
  destruct (count_ex initialising c.2) as (i & l & Hi & Hin); [by rewrite Hn|].
  destruct l; try done; eexists i, _, _, _; split_and!; try done.
  - apply Once.Init_panic.
  - apply Once.Init_poison.
  - apply Once.Init_write.
  - apply Once.Init_store.
Qed.

(** ** Examples *)

(** Thread 0 has initialised the value, thread 1 is about to read it. *)
Definition demo_once : Once Z * list (opc Z) := (mkOnce 0 (Some 42), [CallDone; GetRead]).

Lemma demo_once_reachable : reachable Once.step Once.uninit ONone 2 demo_once.
Proof.
  unfold reachable, demo_once. cbn [replicate].
  run 0%nat (@Once.Call Z). run 1%nat (@Once.Get_call Z). run 0%nat (@Once.Call_ok Z).
  run 1%nat (@Once.Get_initializing Z). run 0%nat (λ i s, Once.Init_value (A := Z) i s 42).
  run 0%nat (@Once.Init_write Z). run 0%nat (@Once.Init_store Z).
  eapply rtc_l; [exists 1%nat; eapply Thread_step; [reflexivity | by apply Once.Get_exit]|].
  run 1%nat (@Once.Get_reload Z). apply rtc_refl.
Qed.

Lemma once_safe_witness :
  is_Some (Once.load demo_once.1) ∧
  (∀ i j l k, demo_once.2 !! i = Some l → demo_once.2 !! j = Some k →
     initialising l = true → initialising k = true → i = j) ∧
  (∀ i, demo_once.2 !! i = Some GetRead → is_Some (value demo_once.1)) ∧
  (∀ i v, demo_once.2 !! i = Some (GetDone (Some v)) → value demo_once.1 = Some v) ∧
  (∀ c', rtc (any_step Once.step) demo_once c' →
     (Once.load demo_once.1 = Some Initialized → c'.1 = demo_once.1) ∧
     (Once.load demo_once.1 ≠ Some Uninitialized → Once.load c'.1 ≠ Some Uninitialized)).
Proof. apply (once_safe 2 demo_once). exact demo_once_reachable. Defined.
