(* ===== verification/Barrier.v ===== *)
(** * Barriers

    [hyperdrive/src/sync/barrier.rs]: the barrier that is used once and the one that
    can be used again.  For the latter two ghost counters record how many threads
    got a place at the barrier and how many passed it. *)

From S2P Require Import Prelude Threads.

(** ** The barrier for one use *)

Record Barrier := mkBarrier { bcount : Z; bcurrent : Z }.

(** Where a thread is: before [fetch_add], in the waiting loop, after it, or
    stopped by the assertion. *)
Inductive bpc : Set := BIdle | BArrive | BWait | BDone | BPanic.

Module Barrier.

Definition new (count : Z) : out Barrier :=
  assert_ (0 <? count);;
  mret (mkBarrier count 0).

(** [wait] *)
Inductive step : nat → Barrier → bpc → Barrier → bpc → Prop :=
| Wait_call i s : step i s BIdle s BArrive
| Wait_arrive i s :
    bcurrent s < bcount s →
    step i s BArrive (mkBarrier (bcount s) (wrapping_add 16 (bcurrent s) 1)) BWait
| Wait_late i s :
    bcount s ≤ bcurrent s →
    step i s BArrive (mkBarrier (bcount s) (wrapping_add 16 (bcurrent s) 1)) BPanic
| Wait_spin i s : bcurrent s < bcount s → step i s BWait s BWait
| Wait_pass i s : bcount s ≤ bcurrent s → step i s BWait s BDone
| Wait_return i s : step i s BDone s BIdle.

End Barrier.

(** ** The reusable barrier *)

Record ReusableBarrier := mkReusable { count_ : Z; rank : Z; current : Z; out_ : Z }.

Inductive rpc : Set :=
| RIdle
| RRank         (** before [rank.fetch_add] *)
| RSpin         (** in the loop that waits for a new round *)
| REnter        (** before [current.fetch_add] *)
| RWait         (** in the waiting loop *)
| ROut          (** before [out.fetch_add] *)
| RReset1       (** before [current.store(0)] *)
| RReset2       (** before [out.store(0)] *)
| RReset3       (** before [rank.store(0)] *)
| RDone.        (** [wait] returns *)

Module ReusableBarrier.

Definition new (count : Z) : out ReusableBarrier :=
  assert_ (0 <? count);;
  mret (mkReusable count 0 0 0).

Definition set_rank (s : ReusableBarrier) r := mkReusable (count_ s) r (current s) (out_ s).
Definition set_current (s : ReusableBarrier) c := mkReusable (count_ s) (rank s) c (out_ s).
Definition set_out (s : ReusableBarrier) o := mkReusable (count_ s) (rank s) (current s) o.

(** [wait] *)
Inductive step : nat → ReusableBarrier → rpc → ReusableBarrier → rpc → Prop :=
| Call i s : step i s RIdle s RRank
| Rank_late i s :
    count_ s ≤ rank s → step i s RRank (set_rank s (wrapping_add 16 (rank s) 1)) RSpin
| Rank_ok i s :
    rank s < count_ s → step i s RRank (set_rank s (wrapping_add 16 (rank s) 1)) REnter
| Spin_late i s : count_ s ≤ rank s → step i s RSpin s RSpin
| Spin_ok i s : rank s < count_ s → step i s RSpin s RRank
| Enter i s : step i s REnter (set_current s (wrapping_add 16 (current s) 1)) RWait
| Wait_spin i s : current s < count_ s → step i s RWait s RWait
| Wait_pass i s : count_ s ≤ current s → step i s RWait s ROut
| Out_last i s :
    out_ s = count_ s - 1 → step i s ROut (set_out s (wrapping_add 16 (out_ s) 1)) RReset1
| Out_other i s :
    out_ s ≠ count_ s - 1 → step i s ROut (set_out s (wrapping_add 16 (out_ s) 1)) RDone
| Reset_current i s : step i s RReset1 (set_current s 0) RReset2
| Reset_out i s : step i s RReset2 (set_out s 0) RReset3
| Reset_rank i s : step i s RReset3 (set_rank s 0) RDone
| Return i s : step i s RDone s RIdle.

(** The ghost counters: threads that got a place, and threads that passed. *)
Record ghost := mkGhost { arrived : Z; passed : Z }.

Definition ghost_step (g : ghost) (l l' : rpc) : ghost :=
  match l, l' with
  | RRank, REnter => mkGhost (arrived g + 1) (passed g)
  | RWait, ROut => mkGhost (arrived g) (passed g + 1)
  | _, _ => g
  end.

Inductive gstep : nat → ReusableBarrier * ghost → rpc → ReusableBarrier * ghost → rpc → Prop :=
| Ghost i s g l s' l' : step i s l s' l' → gstep i (s, g) l (s', ghost_step g l l') l'.

End ReusableBarrier.

(** ** The barrier for one use: invariant *)

Definition one_adds (l : bpc) : bool := match l with BPanic => true | _ => false end.
Definition one_in (l : bpc) : bool := match l with BWait => true | _ => false end.

(** Panicking threads are the only ones above the count. *)
Definition one_inv (n : nat) (N : Z) (c : Barrier * list bpc) : Prop :=
  length c.2 = n ∧ bcount c.1 = N ∧ 0 ≤ bcurrent c.1 ∧
  bcurrent c.1 ≤ N + count one_adds c.2 ∧
  (bcurrent c.1 < N → count one_in c.2 = bcurrent c.1 ∧ ∀ i, c.2 !! i ≠ Some BDone).

Lemma one_inv_step n N i c c' :
  Z.of_nat n + N < 2 ^ 16 → one_inv n N c → thread_step Barrier.step i c c' → one_inv n N c'.
Proof.
  intros Hn (Hlen & HN & H0 & Hc & Hd) Hs. destruct c as [s ls].
  apply thread_step_inv in Hs as (l & s' & l' & Hi & Hs & ->). unfold one_inv. cbn [fst snd] in *.
  pose proof (count_le one_adds (<[i := l']> ls)) as Hle. pose proof (count_nonneg one_adds ls).
  rewrite length_insert, (count_insert one_adds i l l' ls Hi) in *. rewrite (count_insert one_in i l l' ls Hi).
  assert (∀ x, x ≠ BDone → (∀ j, ls !! j ≠ Some BDone) → ∀ j, <[i := x]> ls !! j ≠ Some BDone) as Hins.
  { intros x Hx Ho j [(_ & ? & _)|[_ Hj]]%list_lookup_insert_Some; [done | by apply (Ho j)]. }
  destruct Hs; unfold wrapping_add; cbn [one one_adds one_in bcount bcurrent] in *;
    rewrite ?Z.mod_small by lia; split_and!; try done; try lia; intros Hlt;
    try (destruct Hd as [Hd1 Hd2]; [lia|]; split; [lia | by apply Hins]); try lia.
Qed.

Lemma one_reachable n N c :
  0 < N → Z.of_nat n + N < 2 ^ 16 → reachable Barrier.step (mkBarrier N 0) BIdle n c → one_inv n N c.
Proof.
  intros HN Hn. revert c. apply reachable_inv.
  - unfold one_inv. cbn [fst snd]. rewrite !count_replicate by done. split_and!; try done; try lia.
    + apply length_replicate.
    + cbn. lia.
    + intros _. split; [done|]. intros i [? _]%lookup_replicate_1. done.
  - intros i c c' Hc Hs. by apply (one_inv_step n N i c).
Qed.

(** ** The reusable barrier: invariant *)

Section reusable.

Import ReusableBarrier.

Definition spins (l : rpc) : bool := match l with RSpin => true | _ => false end.
Definition enters (l : rpc) : bool := match l with REnter => true | _ => false end.
Definition waits (l : rpc) : bool := match l with RWait => true | _ => false end.
Definition leaves (l : rpc) : bool := match l with ROut => true | _ => false end.
Definition reset1 (l : rpc) : bool := match l with RReset1 => true | _ => false end.
Definition reset2 (l : rpc) : bool := match l with RReset2 => true | _ => false end.
Definition reset3 (l : rpc) : bool := match l with RReset3 => true | _ => false end.

(** A round in which nobody resets. *)
Definition round_open (N k : Z) (s : ReusableBarrier) (g : ghost) (ls : list rpc) : Prop :=
  count reset1 ls = 0 ∧ count reset2 ls = 0 ∧ count reset3 ls = 0 ∧
  Z.min (rank s) N = count enters ls + current s ∧
  current s = count waits ls + count leaves ls + out_ s ∧ 0 ≤ out_ s < N ∧
  (0 < count leaves ls + out_ s → current s = N) ∧
  arrived g = k * N + Z.min (rank s) N ∧ passed g = k * N + count leaves ls + out_ s.

(** The last thread of a round resets. *)
Definition round_reset (N k : Z) (s : ReusableBarrier) (g : ghost) (ls : list rpc) : Prop :=
  count enters ls = 0 ∧ count waits ls = 0 ∧ count leaves ls = 0 ∧ N ≤ rank s ∧
  arrived g = (k + 1) * N ∧ passed g = (k + 1) * N ∧
  count reset1 ls + count reset2 ls + count reset3 ls = 1 ∧
  (count reset1 ls = 1 → current s = N) ∧ (count reset1 ls = 0 → current s = 0) ∧
  (count reset3 ls = 0 → out_ s = N) ∧ (count reset3 ls = 1 → out_ s = 0).

Definition reusable_inv (n : nat) (N : Z) (c : (ReusableBarrier * ghost) * list rpc) : Prop :=
  length c.2 = n ∧ count_ c.1.1 = N ∧ 0 ≤ rank c.1.1 ∧
  (N ≤ rank c.1.1 → rank c.1.1 - N ≤ count spins c.2) ∧
  ∃ k, 0 ≤ k ∧ (round_open N k c.1.1 c.1.2 c.2 ∨ round_reset N k c.1.1 c.1.2 c.2).

Lemma reusable_inv_step n N i c c' :
  0 < N → Z.of_nat n + N < 2 ^ 16 → reusable_inv n N c → thread_step gstep i c c' → reusable_inv n N c'.
Proof.
  intros HN Hn (Hlen & HcN & H0 & Hsp & k & Hk & Hcase) Hs. destruct c as [[s g] ls].
  apply thread_step_inv in Hs as (l & sg' & l' & Hi & Hs & ->). inversion Hs as [? ? ? ? s' ? Hst]; subst. clear Hs.
  unfold reusable_inv. cbn [fst snd] in *. rewrite length_insert.
  pose proof (count_le spins (<[i := l']> ls)) as Hle.
  rewrite length_insert, (count_insert spins i l l' ls Hi) in Hle.
  pose proof (count_nonneg spins ls). pose proof (count_nonneg enters ls).
  pose proof (count_nonneg waits ls). pose proof (count_nonneg leaves ls). pose proof (count_nonneg reset1 ls).
  pose proof (count_nonneg reset2 ls). pose proof (count_nonneg reset3 ls).
  pose proof (count_one enters ls i l Hi). pose proof (count_one waits ls i l Hi).
  pose proof (count_one leaves ls i l Hi). pose proof (count_one reset1 ls i l Hi).
  pose proof (count_one reset2 ls i l Hi). pose proof (count_one reset3 ls i l Hi).
  apply lookup_lt_Some in Hi as Hlt.
  unfold round_open, round_reset in *. rewrite !(count_insert _ i l l' ls Hi).
  destruct Hst; unfold wrapping_add; cbn [one spins enters waits leaves reset1 reset2 reset3 ghost_step
    count_ rank current out_ arrived passed set_rank set_current set_out] in *;
    (assert (current s + 1 < 2 ^ 16 ∧ out_ s + 1 < 2 ^ 16) by lia);
    rewrite ?Z.mod_small by lia; (split_and!; [done | done | lia | lia |]);
    destruct Hcase as [Hcase|Hcase]; try lia.
  all: try (exists k; split; [lia|]; first [left; lia | right; lia]).
  all: exists (k + 1); split; [lia|]; left; lia.
Qed.

Lemma reusable_inv_init n N : 0 < N → reusable_inv n N ((mkReusable N 0 0 0, mkGhost 0 0), replicate n RIdle).
Proof.
  intros HN. unfold reusable_inv, round_open. cbn [fst snd count_ rank current out_ arrived passed].
  rewrite !count_replicate by done. split_and!; try done; try lia; [apply length_replicate|].
  exists 0. split; [done|]. left. lia.
Qed.

Lemma reusable_reachable n N c :
  0 < N → Z.of_nat n + N < 2 ^ 16 →
  reachable gstep (mkReusable N 0 0 0, mkGhost 0 0) RIdle n c → reusable_inv n N c.
Proof.
  intros HN Hn. revert c. apply reachable_inv; [by apply reusable_inv_init|].
  intros i c c' Hc Hs. by apply (reusable_inv_step n N i c).
Qed.

(** Idle threads and threads that can only go round a waiting loop. *)
Definition stuck (s : ReusableBarrier) (l : rpc) : bool :=
  match l with
  | RIdle => true
  | RSpin => count_ s <=? rank s
  | RWait => current s <? count_ s
  | _ => false
  end.

Lemma not_stuck i s l : stuck s l = false → ∃ s' l', step i s l s' l' ∧ l' ≠ l.
Proof.
  destruct l; cbn; try done; intros Hst; try (eexists _, _; split; [by constructor | done]).
  - destruct (decide (count_ s ≤ rank s)); eexists _, _; split; [by apply Rank_late | done | apply Rank_ok; lia | done].
  - eexists _, _; split; [apply Spin_ok; lia | done].
  - eexists _, _; split; [apply Wait_pass; lia | done].
  - destruct (decide (out_ s = count_ s - 1)); eexists _, _; split; [by apply Out_last | done | by apply Out_other | done].
Qed.

Definition inside (l : rpc) : bool := match l with RIdle => false | _ => true end.

(** If all threads are stuck, too few are in [wait]. *)
Lemma all_stuck n N c :
  0 < N → reusable_inv n N c → (∀ i l, c.2 !! i = Some l → stuck c.1.1 l = true) → count inside c.2 < N.
Proof.
  intros HN (Hlen & HcN & H0 & Hsp & k & Hk & Hcase) Hst. destruct c as [[s g] ls]. cbn [fst snd] in *.
  assert (∀ i l, ls !! i = Some l → match l with
    | RIdle => True | RSpin => N ≤ rank s | RWait => current s < N | _ => False end) as Hl.
  { intros i l Hi. apply Hst in Hi. destruct l; cbn in Hi; try done; lia. }
  assert (count enters ls = 0) by (apply count_none; intros i [] Hi; by specialize (Hl i _ Hi)).
  assert (count leaves ls = 0) by (apply count_none; intros i [] Hi; by specialize (Hl i _ Hi)).
  assert (count reset1 ls = 0) by (apply count_none; intros i [] Hi; by specialize (Hl i _ Hi)).
  assert (count reset2 ls = 0) by (apply count_none; intros i [] Hi; by specialize (Hl i _ Hi)).
  assert (count reset3 ls = 0) by (apply count_none; intros i [] Hi; by specialize (Hl i _ Hi)).
  destruct Hcase as [Ho|Hr]; [unfold round_open in Ho | unfold round_reset in Hr; lia].
  assert (0 < count waits ls → current s < N) as Hw.
  { intros Hw. destruct (count_ex waits ls) as (i & l & Hi & E); [lia|].
    specialize (Hl i l Hi). by destruct l. }
  assert (rank s < N) as Hrk by lia.
  rewrite (count_ext inside waits ls); [lia|].
  intros i l Hi. specialize (Hl i l Hi). destruct l; try done. lia.
Qed.

(** No thread passes before all threads of its round are there. *)
Lemma rounds n N c :
  0 < N → reusable_inv n N c →
  passed c.1.2 ≤ arrived c.1.2 / N * N ∧ arrived c.1.2 ≤ passed c.1.2 / N * N + N.
Proof.
  intros HN (_ & _ & _ & _ & k & Hk & Hcase). destruct c as [[s g] ls]. cbn [fst snd] in *.
  pose proof (count_nonneg enters ls). pose proof (count_nonneg waits ls). pose proof (count_nonneg leaves ls).
  assert (∀ x r, k * N ≤ x → x < k * N + N → r = k → x / N = r) as Hdiv.
  { intros x r Hx1 Hx2 ->. symmetry. apply (Z.div_unique x N k (x - k * N)); lia. }
  unfold round_open, round_reset in Hcase.
  destruct (decide (arrived g = (k + 1) * N)) as [E|E].
  - rewrite E, Z.div_mul by lia. split; [lia|].
    destruct (decide (passed g = (k + 1) * N)) as [E'|E'].
    + rewrite E', Z.div_mul by lia. lia.
    + rewrite (Hdiv (passed g) k) by lia. lia.
  - assert (passed g = k * N) as -> by lia.
    rewrite (Hdiv (arrived g) k) by lia. rewrite Z.div_mul by lia. lia.
Qed.

End reusable.

(** ** Properties *)

(** The reusable barrier separates rounds, for any threads and interleaving as
    long as threads and count together stay below 2^16 (the width of its
    counters): the [k]-th group of [count] threads passes only once [k * count]
    threads got a place, and no thread gets a place in the next round before
    everybody of the round passed. *)
Theorem barrier_rounds n N c :
  0 < N → Z.of_nat n + N < 2 ^ 16 →
  reachable ReusableBarrier.gstep (mkReusable N 0 0 0, ReusableBarrier.mkGhost 0 0) RIdle n c →
  ReusableBarrier.passed c.1.2 ≤ ReusableBarrier.arrived c.1.2 / N * N ∧
  ReusableBarrier.arrived c.1.2 ≤ ReusableBarrier.passed c.1.2 / N * N + N.
Proof. intros HN Hn Hc. apply (rounds n N); [done|]. by apply reusable_reachable. Qed.

(** The reusable barrier does not deadlock: when [count] threads or more are in
    [wait], one of them can do more than go round a waiting loop. *)
Theorem barrier_progress n N c :
  0 < N → Z.of_nat n + N < 2 ^ 16 →
  reachable ReusableBarrier.gstep (mkReusable N 0 0 0, ReusableBarrier.mkGhost 0 0) RIdle n c →
  N ≤ count inside c.2 →
  ∃ i l s' l', c.2 !! i = Some l ∧ l ≠ RIdle ∧ ReusableBarrier.step i c.1.1 l s' l' ∧ l' ≠ l.
Proof.
  intros HN Hn Hc Hin. apply reusable_reachable in Hc as Hinv; [|done..].
  destruct (decide (1 ≤ count (λ l, negb (stuck c.1.1 l)) c.2)) as [He|He].
  - apply count_ex in He as (i & l & Hi & Hl%negb_true_iff).
    destruct (not_stuck i c.1.1 l Hl) as (s' & l' & Hs & Hne).
    exists i, l, s', l'. split_and!; try done. by intros ->.
  - pose proof (all_stuck n N c HN Hinv) as Hall. assert (count inside c.2 < N); [|lia].
    apply Hall. intros i l Hi. destruct (stuck c.1.1 l) eqn:E; [done|].
    destruct He. apply (count_pos _ c.2 i l Hi). by rewrite E.
Qed.

(** With the barrier for one use no thread passes before [count] threads have
    arrived, and a thread that arrives after that panics (as long as threads and
    count together stay below 2^16). *)
Theorem barrier_once n N c :
  0 < N → Z.of_nat n + N < 2 ^ 16 → reachable Barrier.step (mkBarrier N 0) BIdle n c →
  (∀ i, c.2 !! i = Some BDone → N ≤ bcurrent c.1) ∧
  (∀ i c', thread_step Barrier.step i c c' → c.2 !! i = Some BArrive →
     c'.2 !! i = Some (if bcurrent c.1 <? N then BWait else BPanic)).
Proof.
  intros HN Hn Hc. apply one_reachable in Hc as (Hlen & HcN & H0 & Hcur & Hd); [|done..]. split.
  - intros i Hi. destruct (decide (bcurrent c.1 < N)) as [Hlt|]; [|lia].
    destruct (Hd Hlt) as [_ Hno]. by destruct (Hno i).
  - intros i c' Hs Hi. destruct c as [s ls].
    apply thread_step_inv in Hs as (l & s' & l' & Hl & Hs & ->). cbn [fst snd] in *.
    rewrite Hi in Hl. injection Hl as <-.
    rewrite list_lookup_insert_eq by (by apply lookup_lt_Some in Hi). f_equal.
    inversion Hs; subst; destruct (Z.ltb_spec (bcurrent s) (bcount s)); done || lia.
Qed.

(** ** Examples *)

(** Two threads meet: the first one has passed, the second one is about to. *)
Definition demo_barrier : (ReusableBarrier * ReusableBarrier.ghost) * list rpc :=
  ((mkReusable 2 2 2 0, ReusableBarrier.mkGhost 2 1), [ROut; RWait]).

Lemma demo_barrier_reachable :
  reachable ReusableBarrier.gstep (mkReusable 2 0 0 0, ReusableBarrier.mkGhost 0 0) RIdle 2 demo_barrier.
Proof.
  unfold reachable, demo_barrier. cbn [replicate].
  do 2 (eapply rtc_l; [exists 0%nat; eapply Thread_step; [reflexivity | by do 2 constructor] | cbn]).
  do 2 (eapply rtc_l; [exists 1%nat; eapply Thread_step; [reflexivity | by do 2 constructor] | cbn]).
  do 1 (eapply rtc_l; [exists 0%nat; eapply Thread_step; [reflexivity | by do 2 constructor] | cbn]).
  do 1 (eapply rtc_l; [exists 1%nat; eapply Thread_step; [reflexivity | by do 2 constructor] | cbn]).
  eapply rtc_l; [exists 0%nat; eapply Thread_step; [reflexivity | by constructor; apply ReusableBarrier.Wait_pass] | cbn].
  apply rtc_refl.
Qed.

Lemma barrier_rounds_witness :
  ReusableBarrier.passed demo_barrier.1.2 ≤ ReusableBarrier.arrived demo_barrier.1.2 / 2 * 2 ∧
  ReusableBarrier.arrived demo_barrier.1.2 ≤ ReusableBarrier.passed demo_barrier.1.2 / 2 * 2 + 2.
Proof. apply (barrier_rounds 2 2 demo_barrier); [lia | lia | exact demo_barrier_reachable]. Defined.

Lemma barrier_progress_witness :
  ∃ i l s' l', demo_barrier.2 !! i = Some l ∧ l ≠ RIdle ∧
    ReusableBarrier.step i demo_barrier.1.1 l s' l' ∧ l' ≠ l.
Proof.
  apply (barrier_progress 2 2 demo_barrier); [lia | lia | exact demo_barrier_reachable | by vm_compute].
Defined.

Lemma barrier_once_witness :
  (∀ i, [BArrive; BWait] !! i = Some BDone → 2 ≤ 1) ∧
  (∀ i c', thread_step Barrier.step i (mkBarrier 2 1, [BArrive; BWait]) c' →
     [BArrive; BWait] !! i = Some BArrive → c'.2 !! i = Some BWait).
Proof.
  apply (barrier_once 2 2 (mkBarrier 2 1, [BArrive; BWait])); [lia | lia |].
  unfold reachable. cbn [replicate]. run 1%nat Barrier.Wait_call. run 1%nat Barrier.Wait_arrive.
  run 0%nat Barrier.Wait_call. apply rtc_refl.
Defined.
