(* ===== verification/Ring.v ===== *)
(** * The ring buffer

    [hyperdrive/src/queues/ring.rs]: a queue in an array of [SIZE] slots, one of
    which stays free.  The specification is a list of at most [SIZE - 1] elements.
    A slot is [None] while it is uninitialised, and reading such a slot as a value
    ([assume_init]) is undefined behaviour, modelled by [Panic]. *)

From S2P Require Import Prelude.

Record Ring (A : Type) := mkRing { buffer : list (option A); read_index : Z; write_index : Z }.
Arguments mkRing {A} buffer read_index write_index.
Arguments buffer {A} r.
Arguments read_index {A} r.
Arguments write_index {A} r.

Module Ring.

Section ring.

Context {A : Type} (SIZE : Z).

Definition new : out (Ring A) :=
  assert_ (0 <? SIZE);; mret (mkRing (replicate (Z.to_nat SIZE) None) 0 0).

Definition capacity : Z := SIZE.

Definition len (self : Ring A) : out Z :=
  let w_idx := write_index self in
  let r_idx := read_index self in
  if r_idx <=? w_idx then sub_w w_idx r_idx
  else n ← sub_w capacity r_idx; add_w 64 n w_idx.

Definition is_empty (self : Ring A) : bool := read_index self =? write_index self.

Definition next_write_index (self : Ring A) : out Z :=
  n ← add_w 64 (write_index self) 1; mret (n mod SIZE).
Definition next_read_index (self : Ring A) : out Z :=
  n ← add_w 64 (read_index self) 1; mret (n mod SIZE).

Definition is_full (self : Ring A) : out bool :=
  n ← next_write_index self; mret (n =? read_index self).

(** [self.buffer[self.write_index].write(value)] *)
Definition write_slot (self : Ring A) (value : A) : out (list (option A)) :=
  assert_ (write_index self <? Z.of_nat (length (buffer self)));;
  mret (<[Z.to_nat (write_index self) := Some value]> (buffer self)).

Definition push (self : Ring A) (value : A) : out (Ring A) :=
  next_write_index ← next_write_index self;
  assert_ (negb (next_write_index =? read_index self));;
  b ← write_slot self value;
  mret (mkRing b (read_index self) next_write_index).

(** The error holds the value that was not pushed. *)
Definition try_push (self : Ring A) (value : A) : out (Ring A * result unit A) :=
  next_write_index ← next_write_index self;
  if next_write_index =? read_index self then mret (self, Err value)
  else
    b ← write_slot self value;
    mret (mkRing b (read_index self) next_write_index, Ok tt).

Definition pop (self : Ring A) : out (Ring A * option A) :=
  if is_empty self then mret (self, None)
  else
    element ← unwrap (buffer self !! Z.to_nat (read_index self));
    next_read_index ← next_read_index self;
    value ← unwrap element;
    mret (mkRing (buffer self) next_read_index (write_index self), Some value).

(** [Drop]: the values dropped, in order. *)
Fixpoint drop_loop (fuel : nat) (self : Ring A) : out (list A) :=
  match fuel with
  | O => Panic
  | S fuel =>
      '(self, o) ← pop self;
      match o with
      | None => mret []
      | Some v => vs ← drop_loop fuel self; mret (v :: vs)
      end
  end.

Definition drop (self : Ring A) : out (list A) := drop_loop (S (length (buffer self))) self.

End ring.

End Ring.

(** ** The abstraction *)

Section proofs.

Context {A : Type} (SIZE : Z) (Hsize : 0 < SIZE < 2 ^ 64).

(** The ring holds the elements [q], oldest first. *)
Definition ring_rel (r : Ring A) (q : list A) : Prop :=
  Z.of_nat (length (buffer r)) = SIZE ∧ 0 ≤ read_index r < SIZE ∧
  Z.of_nat (length q) < SIZE ∧
  write_index r = (read_index r + Z.of_nat (length q)) mod SIZE ∧
  ∀ k a, q !! k = Some a →
    buffer r !! Z.to_nat ((read_index r + Z.of_nat k) mod SIZE) = Some (Some a).

Lemma ring_write_range r q : ring_rel r q → 0 ≤ write_index r < SIZE.
Proof. intros (_ & _ & _ & -> & _). apply Z.mod_pos_bound. lia. Qed.

(** Indices of the ring at a distance less than its size are different. *)
Lemma mod_distance a b :
  0 ≤ a < SIZE → 0 ≤ b < SIZE → (a + b) mod SIZE = if a + b <? SIZE then a + b else a + b - SIZE.
Proof.
  intros Ha Hb. destruct (Z.ltb_spec (a + b) SIZE); [apply Z.mod_small; lia|].
  rewrite <- (Z.mod_add _ (-1)), Z.mod_small by lia. lia.
Qed.

Lemma ring_empty r q : ring_rel r q → Ring.is_empty r = bool_decide (q = []).
Proof.
  intros (_ & Hr & Hq & Hw & _). unfold Ring.is_empty. rewrite Hw, mod_distance by lia.
  destruct q as [|a q].
  - rewrite bool_decide_true by done. apply Z.eqb_eq. change (Z.of_nat (length [])) with 0.
    destruct (Z.ltb_spec (read_index r + 0) SIZE); lia.
  - rewrite bool_decide_false by done. apply Z.eqb_neq. cbn [length] in *.
    destruct (Z.ltb_spec (read_index r + Z.of_nat (S (length q))) SIZE); lia.
Qed.

Lemma ring_next_write r q :
  ring_rel r q →
  Ring.next_write_index SIZE r = Ret ((read_index r + Z.of_nat (length q) + 1) mod SIZE).
Proof.
  intros Hrel. pose proof (ring_write_range r q Hrel) as Hw'. destruct Hrel as (_ & Hr & Hq & Hw & _).
  unfold Ring.next_write_index. rewrite add_w_ok by lia. cbn [mbind out_bind].
  rewrite Hw, Z.add_mod_idemp_l by lia. done.
Qed.

Lemma ring_full r q :
  ring_rel r q →
  ((read_index r + Z.of_nat (length q) + 1) mod SIZE =? read_index r) =
    bool_decide (Z.of_nat (length q) = SIZE - 1).
Proof.
  intros (_ & Hr & Hq & Hw & _). rewrite <- Z.add_assoc.
  destruct (decide (Z.of_nat (length q) = SIZE - 1)) as [E|E].
  - rewrite bool_decide_true by done. apply Z.eqb_eq. rewrite E.
    replace (read_index r + (SIZE - 1 + 1)) with (read_index r + 1 * SIZE) by lia.
    rewrite Z.mod_add, Z.mod_small by lia. done.
  - rewrite bool_decide_false by done. apply Z.eqb_neq. rewrite mod_distance by lia.
    destruct (Z.ltb_spec (read_index r + (Z.of_nat (length q) + 1)) SIZE); lia.
Qed.

Lemma ring_write r q v :
  ring_rel r q → Z.of_nat (length q) < SIZE - 1 →
  ∃ b, Ring.write_slot r v = Ret b ∧
    ring_rel (mkRing b (read_index r) ((read_index r + Z.of_nat (length q) + 1) mod SIZE)) (q ++ [v]).
Proof.
  intros Hrel Hlt. pose proof (ring_write_range r q Hrel) as Hw'.
  destruct Hrel as (Hl & Hr & Hq & Hw & Hk). unfold Ring.write_slot.
  rewrite (proj2 (Z.ltb_lt _ _)) by lia. eexists. split; [done|].
  split_and!; cbn [buffer read_index write_index]; try (rewrite ?length_insert, ?length_app; cbn; lia).
  - f_equal. rewrite length_app. cbn. lia.
  - intros k a [Ha|[Hle Ha]]%lookup_app_Some.
    + apply lookup_lt_Some in Ha as Hlk. rewrite list_lookup_insert_ne; [by apply Hk|].
      rewrite Hw, !mod_distance by lia. intros E.
      destruct (Z.ltb_spec (read_index r + Z.of_nat (length q)) SIZE),
        (Z.ltb_spec (read_index r + Z.of_nat k) SIZE); lia.
    + apply list_lookup_singleton_Some in Ha as [Hk0 <-].
      replace (Z.of_nat k) with (Z.of_nat (length q)) by lia. rewrite <- Hw.
      apply list_lookup_insert_eq. lia.
Qed.

Lemma ring_pop r a q :
  ring_rel r (a :: q) → ∃ r', Ring.pop SIZE r = Ret (r', Some a) ∧ ring_rel r' q.
Proof.
  intros Hrel. pose proof (ring_empty r _ Hrel) as He. rewrite bool_decide_false in He by done.
  destruct Hrel as (Hl & Hr & Hq & Hw & Hk). unfold Ring.pop. rewrite He.
  pose proof (Hk 0%nat a eq_refl) as H0. rewrite Z.add_0_r, Z.mod_small in H0 by done.
  rewrite H0. cbn [unwrap mbind out_bind]. unfold Ring.next_read_index.
  rewrite add_w_ok by lia. cbn [mbind out_bind unwrap mret out_ret]. eexists. split; [done|].
  split_and!; cbn [buffer read_index write_index length] in *; try (done || lia).
  - apply Z.mod_pos_bound. lia.
  - apply Z.mod_pos_bound. lia.
  - rewrite Hw, Z.add_mod_idemp_l by lia. f_equal. lia.
  - intros k x Hx. rewrite Z.add_mod_idemp_l by lia.
    specialize (Hk (S k) x Hx). rewrite <- Hk. do 3 f_equal. lia.
Qed.

Lemma ring_len r q : ring_rel r q → Ring.len SIZE r = Ret (Z.of_nat (length q)).
Proof.
  intros (_ & Hr & Hq & Hw & _). unfold Ring.len, Ring.capacity. rewrite Hw, mod_distance by lia.
  destruct (Z.ltb_spec (read_index r + Z.of_nat (length q)) SIZE).
  - rewrite (proj2 (Z.leb_le _ _)), sub_w_ok by lia. f_equal. lia.
  - rewrite (proj2 (Z.leb_gt _ _)), sub_w_ok by lia. cbn [mbind out_bind].
    rewrite add_w_ok by lia. f_equal. lia.
Qed.

Lemma ring_drop_loop fuel r q :
  ring_rel r q → (length q < fuel)%nat → Ring.drop_loop SIZE fuel r = Ret q.
Proof.
  revert r q. induction fuel as [|fuel IH]; intros r q Hrel Hf; [lia|]. cbn [Ring.drop_loop].
  destruct q as [|a q].
  - unfold Ring.pop. rewrite (ring_empty r [] Hrel), bool_decide_true by done. done.
  - destruct (ring_pop r a q Hrel) as (r' & -> & Hrel'). cbn [mbind out_bind].
    rewrite (IH r' q) by (done || cbn in Hf; lia). done.
Qed.

End proofs.

(** ** Properties *)

(** A new ring is empty. *)
Lemma ring_new {A} SIZE :
  0 < SIZE → ∃ r : Ring A, Ring.new SIZE = Ret r ∧ ring_rel SIZE r [].
Proof.
  intros H. unfold Ring.new. rewrite (proj2 (Z.ltb_lt _ _)) by lia. eexists. split; [done|].
  split_and!; cbn; try (rewrite ?length_replicate; lia); try done.
Qed.

(** The ring buffer implements a bounded queue: on a ring that holds the
    elements [q], [try_push] and [push] append an element unless there are
    [SIZE - 1] already, in which case the former returns the value and the latter
    panics; [pop] takes the oldest element and never reads an uninitialised slot;
    [len], [is_empty] and [is_full] tell the number of elements; and dropping the
    ring drops every element once. *)
Theorem ring_refines {A} SIZE (r : Ring A) (q : list A) v :
  0 < SIZE < 2 ^ 64 → ring_rel SIZE r q →
  (if bool_decide (Z.of_nat (length q) = SIZE - 1)
   then Ring.try_push SIZE r v = Ret (r, Err v) ∧ Ring.push SIZE r v = Panic
   else ∃ r', Ring.try_push SIZE r v = Ret (r', Ok tt) ∧ Ring.push SIZE r v = Ret r' ∧
          ring_rel SIZE r' (q ++ [v])) ∧
  match q with
  | [] => Ring.pop SIZE r = Ret (r, None)
  | a :: q' => ∃ r', Ring.pop SIZE r = Ret (r', Some a) ∧ ring_rel SIZE r' q'
  end ∧
  Ring.len SIZE r = Ret (Z.of_nat (length q)) ∧
  Ring.is_empty r = bool_decide (q = []) ∧
  Ring.is_full SIZE r = Ret (bool_decide (Z.of_nat (length q) = SIZE - 1)) ∧
  Ring.drop SIZE r = Ret q.
Proof.
  intros Hs Hrel. pose proof (ring_next_write SIZE Hs r q Hrel) as Hn.
  pose proof (ring_full SIZE Hs r q Hrel) as Hf. pose proof Hrel as (Hl & _ & Hq & _).
  split_and!.
  - unfold Ring.try_push, Ring.push. rewrite Hn. cbn [mbind out_bind]. rewrite Hf.
    destruct (bool_decide_reflect (Z.of_nat (length q) = SIZE - 1)) as [E|E]; [done|].
    destruct (ring_write SIZE Hs r q v Hrel) as (b & Hb & Hrel'); [lia|].
    rewrite Hb. cbn. eauto.
  - destruct q as [|a q]; [|by apply ring_pop]. unfold Ring.pop.
    by rewrite (ring_empty SIZE Hs r [] Hrel), bool_decide_true.
  - by apply ring_len.
  - by apply (ring_empty SIZE).
  - unfold Ring.is_full. rewrite Hn. cbn. by rewrite Hf.
  - apply ring_drop_loop; [done | done | lia].
Qed.

Definition demo_ring : Ring Z := mkRing [Some 9; None; Some 7; Some 8] 2 1.

Lemma demo_ring_rel : ring_rel 4 demo_ring [7; 8; 9].
Proof.
  split_and!; try done. intros k a H.
  do 3 (destruct k as [|k]; [injection H as <-; reflexivity|]). done.
Qed.

Lemma ring_refines_witness :
  (Ring.try_push 4 demo_ring 6 = Ret (demo_ring, Err 6) ∧ Ring.push 4 demo_ring 6 = Panic) ∧
  (∃ r', Ring.pop 4 demo_ring = Ret (r', Some 7) ∧ ring_rel 4 r' [8; 9]) ∧
  Ring.len 4 demo_ring = Ret 3 ∧ Ring.is_empty demo_ring = bool_decide ([7; 8; 9] = []) ∧
  Ring.is_full 4 demo_ring = Ret (bool_decide (3 = 4 - 1)) ∧
  Ring.drop 4 demo_ring = Ret [7; 8; 9].
Proof.
  apply (ring_refines 4 demo_ring [7; 8; 9] 6).
  - lia.
  - exact demo_ring_rel.
Defined.
