(* ===== verification/Mpmc.v ===== *)
(** * The queue for many producers and many consumers

    [hyperdrive/src/queues/mpmc.rs]: a ring of slots with sequence numbers.  Each
    constructor of [step] is one access of a thread to the shared queue.  The
    specification is a bounded queue that takes an element at the moment at which
    the code moves the read index, and returns it later. *)

From S2P Require Import Prelude Threads.

Record Slot (A : Type) := mkSlot { sequence : Z; value : option A }.
Arguments mkSlot {A} sequence value.
Arguments sequence {A} s.
Arguments value {A} s.

Record MpmcQueue (A : Type) := mkMpmc { slots : list (Slot A); read_pos : Z; write_pos : Z }.
Arguments mkMpmc {A} slots read_pos write_pos.
Arguments slots {A} m.
Arguments read_pos {A} m.
Arguments write_pos {A} m.

(** Where a thread is. *)
Inductive mpc (A : Type) : Type :=
| MIdle
| PushLoad (v : A)             (** before [self.write_index.load(..)] *)
| PushSeq (v : A) (pos : Z)    (** before [slot.sequence.load(..)] of [try_push] *)
| PushCas (v : A) (pos : Z)    (** before the [compare_exchange] of [try_push] *)
| PushStore (v : A) (pos : Z)  (** in [Slot::write], before the value is written *)
| PushPublish (v : A) (pos : Z)(** in [Slot::write], before the sequence is stored *)
| PushDone (r : result unit A) (** [try_push] returns [r] *)
| PopLoad                      (** before [self.read_index.load(..)] *)
| PopSeq (pos : Z)             (** before [slot.sequence.load(..)] of [pop] *)
| PopCas (pos : Z)             (** before the [compare_exchange] of [pop] *)
| PopRead (pos : Z)            (** in [Slot::read], before the value is read *)
| PopPublish (pos : Z) (v : A) (** in [Slot::read], before the sequence is stored *)
| PopDone (o : option A)       (** [pop] returns [o] *)
| Panicked (o : option A).     (** an addition overflowed; [o] was read before *)
Arguments MIdle {A}.
Arguments PushLoad {A} v.
Arguments PushSeq {A} v pos.
Arguments PushCas {A} v pos.
Arguments PushStore {A} v pos.
Arguments PushPublish {A} v pos.
Arguments PushDone {A} r.
Arguments PopLoad {A}.
Arguments PopSeq {A} pos.
Arguments PopCas {A} pos.
Arguments PopRead {A} pos.
Arguments PopPublish {A} pos v.
Arguments PopDone {A} o.
Arguments Panicked {A} o.

Module Slot.

Section slot.

Context {A : Type}.

Definition new (i : Z) : Slot A := mkSlot i None.

(** [Slot::write]: the value is written, then the sequence number. *)
Definition write_value (sl : Slot A) (v : A) : Slot A := mkSlot (sequence sl) (Some v).
Definition write_sequence (sl : Slot A) (pos : Z) : Slot A := mkSlot (pos + 1) (value sl).

(** [Slot::read] stores the sequence number after the value was read. *)
Definition read_sequence (SIZE : Z) (sl : Slot A) (pos : Z) : Slot A := mkSlot (pos + SIZE) (value sl).

End slot.

End Slot.

Module MpmcQueue.

Section queue.

Context {A : Type} (SIZE : Z).

Definition new : out (MpmcQueue A) :=
  assert_ (0 <? SIZE);;
  mret (mkMpmc (Slot.new <$> seqZ 0 SIZE) 0 0).

(** [&self.buffer[pos % SIZE]] and an update of that slot. *)
Definition slot (s : MpmcQueue A) (pos : Z) : option (Slot A) := slots s !! Z.to_nat (pos mod SIZE).
Definition set_slot (s : MpmcQueue A) (pos : Z) (sl : Slot A) : MpmcQueue A :=
  mkMpmc (<[Z.to_nat (pos mod SIZE) := sl]> (slots s)) (read_pos s) (write_pos s).
Definition set_read (s : MpmcQueue A) (pos : Z) : MpmcQueue A := mkMpmc (slots s) pos (write_pos s).
Definition set_write (s : MpmcQueue A) (pos : Z) : MpmcQueue A := mkMpmc (slots s) (read_pos s) pos.

Inductive step : nat → MpmcQueue A → mpc A → MpmcQueue A → mpc A → Prop :=
(** [try_push] *)
| Push_call i s v : step i s MIdle s (PushLoad v)
| Push_load i s v : step i s (PushLoad v) s (PushSeq v (write_pos s))
| Push_equal i s v pos sl :
    slot s pos = Some sl → sequence sl = pos → step i s (PushSeq v pos) s (PushCas v pos)
| Push_less i s v pos sl :
    slot s pos = Some sl → sequence sl < pos → step i s (PushSeq v pos) s (PushDone (Err v))
| Push_greater i s v pos sl :
    slot s pos = Some sl → pos < sequence sl → step i s (PushSeq v pos) s (PushLoad v)
| Push_overflow i s v pos : 2 ^ 64 ≤ pos + 1 → step i s (PushCas v pos) s (Panicked None)
| Push_cas i s v pos :
    pos + 1 < 2 ^ 64 → write_pos s = pos →
    step i s (PushCas v pos) (set_write s (pos + 1)) (PushStore v pos)
| Push_retry i s v pos :
    pos + 1 < 2 ^ 64 → write_pos s ≠ pos → step i s (PushCas v pos) s (PushSeq v (write_pos s))
(** [Slot::write] *)
| Push_store i s v pos sl :
    slot s pos = Some sl →
    step i s (PushStore v pos) (set_slot s pos (Slot.write_value sl v)) (PushPublish v pos)
| Push_publish i s v pos sl :
    slot s pos = Some sl →
    step i s (PushPublish v pos) (set_slot s pos (Slot.write_sequence sl pos)) (PushDone (Ok tt))
| Push_return i s r : step i s (PushDone r) s MIdle
(** [pop] *)
| Pop_call i s : step i s MIdle s PopLoad
| Pop_load i s : step i s PopLoad s (PopSeq (read_pos s))
| Pop_overflow i s pos : 2 ^ 64 ≤ pos + 1 → step i s (PopSeq pos) s (Panicked None)
| Pop_equal i s pos sl :
    pos + 1 < 2 ^ 64 → slot s pos = Some sl → sequence sl = pos + 1 →
    step i s (PopSeq pos) s (PopCas pos)
| Pop_less i s pos sl :
    pos + 1 < 2 ^ 64 → slot s pos = Some sl → sequence sl < pos + 1 →
    step i s (PopSeq pos) s (PopDone None)
| Pop_greater i s pos sl :
    pos + 1 < 2 ^ 64 → slot s pos = Some sl → pos + 1 < sequence sl →
    step i s (PopSeq pos) s PopLoad
| Pop_cas i s pos :
    read_pos s = pos → step i s (PopCas pos) (set_read s (pos + 1)) (PopRead pos)
| Pop_retry i s pos : read_pos s ≠ pos → step i s (PopCas pos) s (PopSeq (read_pos s))
(** [Slot::read] *)
| Pop_read i s pos sl v :
    slot s pos = Some sl → value sl = Some v → step i s (PopRead pos) s (PopPublish pos v)
| Pop_publish_overflow i s pos v :
    2 ^ 64 ≤ pos + SIZE → step i s (PopPublish pos v) s (Panicked (Some v))
| Pop_publish i s pos v sl :
    pos + SIZE < 2 ^ 64 → slot s pos = Some sl →
    step i s (PopPublish pos v) (set_slot s pos (Slot.read_sequence SIZE sl pos)) (PopDone (Some v))
| Pop_return i s o : step i s (PopDone o) s MIdle.

(** [push] unwraps what [try_push] returns. *)
Definition push_return (r : result unit A) : out unit :=
  match r with Ok _ => Ret tt | Err _ => Panic end.

Definition is_empty (s : MpmcQueue A) : bool := read_pos s =? write_pos s.

End queue.

End MpmcQueue.

(** ** The specification: a bounded queue *)

Module BQueue.

Section spec.

Context {A : Type} (SIZE : Z).

(** The elements, oldest first, and the elements taken but not yet returned. *)
Record t := mk { items : list A; pending : gmap nat A }.

Definition init : t := mk [] ∅.

Inductive event := EPush (v : A) | EPop | EReturn (v : A).

Inductive step : nat → event → t → t → Prop :=
| Push i v q p : Z.of_nat (length q) < SIZE → step i (EPush v) (mk q p) (mk (q ++ [v]) p)
| Pop i v q p : p !! i = None → step i EPop (mk (v :: q) p) (mk q (<[i := v]> p))
| Return i v q p : p !! i = Some v → step i (EReturn v) (mk q p) (mk q (delete i p)).

Definition any (a a' : t) : Prop := ∃ i e, step i e a a'.

End spec.

Arguments t : clear implicits.
Arguments event : clear implicits.

End BQueue.

(** ** The invariant *)

Section proofs.

Context {A : Type} (SIZE : Z) (Hsize : 2 ≤ SIZE).

Implicit Types (s : MpmcQueue A) (H : list A) (l : mpc A).

Local Abbreviation slot := (MpmcQueue.slot SIZE).
Local Abbreviation set_slot := (MpmcQueue.set_slot SIZE).

Definition seq_at s (pos : Z) : option Z := sequence <$> slot s pos.
Definition value_at s (pos : Z) : option A := slot s pos ≫= value.

(** [H] has the value pushed at every position so far.  A slot is waiting for the
    position [p], or being written at [p], or holds the value of [p]. *)
Definition slot_ok s H (k : Z) (sl : Slot A) : Prop :=
  ∃ p, p mod SIZE = k ∧ 0 ≤ p ∧ write_pos s - SIZE ≤ p ∧
    ((sequence sl = p ∧ write_pos s ≤ p ∧ p - SIZE < read_pos s) ∨
     (sequence sl = p ∧ read_pos s ≤ p < write_pos s) ∨
     (sequence sl = p + 1 ∧ p < write_pos s ∧ value sl = H !! Z.to_nat p)).

(** What a thread knows. *)
Definition thread_ok s H l : Prop :=
  match l with
  | PushSeq _ pos => 0 ≤ pos ≤ write_pos s
  | PushCas _ pos => 0 ≤ pos ≤ write_pos s ∧ (write_pos s = pos → seq_at s pos = Some pos)
  | PushStore v p =>
      read_pos s ≤ p < write_pos s ∧ seq_at s p = Some p ∧ H !! Z.to_nat p = Some v
  | PushPublish v p =>
      read_pos s ≤ p < write_pos s ∧ seq_at s p = Some p ∧ H !! Z.to_nat p = Some v ∧
      value_at s p = Some v
  | PopSeq pos => 0 ≤ pos ≤ read_pos s
  | PopCas pos => 0 ≤ pos ≤ read_pos s ∧ (read_pos s = pos → seq_at s pos = Some (pos + 1))
  | PopRead p => 0 ≤ p < read_pos s ∧ seq_at s p = Some (p + 1)
  | PopPublish p v => 0 ≤ p < read_pos s ∧ seq_at s p = Some (p + 1) ∧ H !! Z.to_nat p = Some v
  | _ => True
  end.

(** The position whose slot a thread may access. *)
Definition owns l : option Z :=
  match l with
  | PushStore _ p | PushPublish _ p | PopRead p | PopPublish p _ => Some p
  | _ => None
  end.

Definition indices_ok s H : Prop :=
  Z.of_nat (length (slots s)) = SIZE ∧ write_pos s = Z.of_nat (length H) ∧
  0 ≤ read_pos s ≤ write_pos s ∧ write_pos s ≤ read_pos s + SIZE.

Definition slots_ok s H : Prop :=
  ∀ k sl, 0 ≤ k < SIZE → slots s !! Z.to_nat k = Some sl → slot_ok s H k sl.

(** No two threads may access the same slot. *)
Definition exclusive (ls : list (mpc A)) : Prop :=
  ∀ i j li lj p q, i ≠ j → ls !! i = Some li → ls !! j = Some lj →
    owns li = Some p → owns lj = Some q → p mod SIZE ≠ q mod SIZE.

Definition mpmc_inv s (ls : list (mpc A)) H : Prop :=
  indices_ok s H ∧ slots_ok s H ∧ exclusive ls ∧
  ∀ i l, ls !! i = Some l → thread_ok s H l.

Lemma mod_range pos : 0 ≤ pos mod SIZE < SIZE.
Proof. apply Z.mod_pos_bound. lia. Qed.

(** Neighbouring positions are in different slots: this needs two slots. *)
Lemma mod_succ p q : p mod SIZE = q mod SIZE → p + 1 ≠ q.
Proof.
  intros Hm <-. assert ((SIZE | 1)) as [k Hk].
  { replace 1 with (p + 1 - p) by lia. apply Z.mod_divide; [lia|].
    rewrite Zminus_mod, Hm, Z.sub_diag. by apply Z.mod_0_l; lia. }
  assert (k ≤ 0 ∨ 1 ≤ k) as [|] by lia; nia.
Qed.

Lemma slot_some s H pos : indices_ok s H → ∃ sl, slot s pos = Some sl.
Proof.
  intros (Hl & _). unfold MpmcQueue.slot. apply lookup_lt_is_Some_2.
  pose proof (mod_range pos). lia.
Qed.

Lemma slot_set s H p0 sl pos :
  indices_ok s H →
  slot (set_slot s p0 sl) pos = if pos mod SIZE =? p0 mod SIZE then Some sl else slot s pos.
Proof.
  intros (Hl & _). unfold MpmcQueue.slot, MpmcQueue.set_slot. cbn [slots].
  pose proof (mod_range pos). pose proof (mod_range p0).
  destruct (Z.eqb_spec (pos mod SIZE) (p0 mod SIZE)) as [->|Hne].
  - apply list_lookup_insert_eq. lia.
  - apply list_lookup_insert_ne. lia.
Qed.

Lemma slot_ok_at s H pos sl :
  slots_ok s H → slot s pos = Some sl → slot_ok s H (pos mod SIZE) sl.
Proof. intros Hs Hsl. apply Hs; [apply mod_range | done]. Qed.

Lemma seq_at_slot s pos sl : slot s pos = Some sl → seq_at s pos = Some (sequence sl).
Proof. unfold seq_at. by intros ->. Qed.

Lemma seq_at_mod s p q : p mod SIZE = q mod SIZE → seq_at s p = seq_at s q.
Proof. unfold seq_at, MpmcQueue.slot. by intros ->. Qed.

(** The slot a thread owns is being written or being read. *)
Lemma owned_seq s H l p :
  owns l = Some p → thread_ok s H l →
  (read_pos s ≤ p < write_pos s ∧ seq_at s p = Some p) ∨
  (0 ≤ p < read_pos s ∧ seq_at s p = Some (p + 1)).
Proof. destruct l; try done; cbn; intros [= ->]; naive_solver. Qed.

(** ** Preservation *)

(** A change of one slot that no condition of a waiting thread depends on. *)
Lemma thread_ok_slot s H l p0 sl sl0 :
  indices_ok s H → slot s p0 = Some sl0 →
  (sequence sl = sequence sl0 ∨
   (seq_at s (write_pos s) = Some (write_pos s) → write_pos s mod SIZE ≠ p0 mod SIZE) ∧
   (seq_at s (read_pos s) = Some (read_pos s + 1) → read_pos s mod SIZE ≠ p0 mod SIZE)) →
  (∀ q, owns l = Some q → q mod SIZE ≠ p0 mod SIZE) →
  thread_ok s H l → thread_ok (set_slot s p0 sl) H l.
Proof.
  intros Hi Hs0 Hseq Hown.
  assert (∀ pos, pos mod SIZE ≠ p0 mod SIZE →
    seq_at (set_slot s p0 sl) pos = seq_at s pos ∧ value_at (set_slot s p0 sl) pos = value_at s pos)
    as Hother.
  { intros pos Hne. unfold seq_at, value_at. rewrite (slot_set s H) by done.
    by rewrite (proj2 (Z.eqb_neq _ _)). }
  assert (∀ pos x, (sequence sl = sequence sl0 ∨ (seq_at s pos = Some x → pos mod SIZE ≠ p0 mod SIZE)) →
    seq_at s pos = Some x → seq_at (set_slot s p0 sl) pos = Some x) as Hcas.
  { intros pos x Hx Hp. destruct (decide (pos mod SIZE = p0 mod SIZE)) as [E|E];
      [|by rewrite (proj1 (Hother pos E))].
    destruct Hx as [Hx|Hx]; [|by destruct (Hx Hp)].
    unfold seq_at in *. rewrite (slot_set s H), (proj2 (Z.eqb_eq _ _)) by done. cbn.
    unfold MpmcQueue.slot in *. rewrite E, Hs0 in Hp. cbn in Hp. congruence. }
  destruct l; cbn [thread_ok owns] in *; try done.
  - intros [Hp Hw]. split; [done|]. intros E. cbn in E. subst pos. apply Hcas; [naive_solver | by apply Hw].
  - destruct (Hother pos) as [E1 E2]; [by apply Hown|]. by rewrite E1, ?E2.
  - destruct (Hother pos) as [E1 E2]; [by apply Hown|]. by rewrite E1, ?E2.
  - intros [Hp Hw]. split; [done|]. intros E. cbn in E. subst pos. apply Hcas; [naive_solver | by apply Hw].
  - destruct (Hother pos) as [E1 E2]; [by apply Hown|]. by rewrite E1, ?E2.
  - destruct (Hother pos) as [E1 E2]; [by apply Hown|]. by rewrite E1, ?E2.
Qed.

Lemma thread_ok_write s H l v :
  indices_ok s H → thread_ok s H l →
  thread_ok (MpmcQueue.set_write s (write_pos s + 1)) (H ++ [v]) l.
Proof.
  intros Hi. assert (∀ p (x : A), H !! Z.to_nat p = Some x → (H ++ [v]) !! Z.to_nat p = Some x) as Hl.
  { intros p x. apply lookup_app_l_Some. }
  destruct l; cbn [thread_ok MpmcQueue.set_write write_pos read_pos]; try naive_solver lia.
Qed.

Lemma thread_ok_read s H l :
  indices_ok s H → seq_at s (read_pos s) = Some (read_pos s + 1) → thread_ok s H l →
  thread_ok (MpmcQueue.set_read s (read_pos s + 1)) H l.
Proof.
  intros Hi Hr. assert (∀ p, seq_at s p = Some p → read_pos s ≤ p → read_pos s + 1 ≤ p) as Hne.
  { intros p Hp Hle. assert (p ≠ read_pos s); [|lia]. intros ->. rewrite Hr in Hp. injection Hp. lia. }
  destruct l; cbn [thread_ok MpmcQueue.set_read write_pos read_pos]; try naive_solver lia.
Qed.

Lemma exclusive_insert ls i l' :
  exclusive ls →
  (∀ p j lj q, owns l' = Some p → j ≠ i → ls !! j = Some lj → owns lj = Some q →
     p mod SIZE ≠ q mod SIZE) →
  exclusive (<[i := l']> ls).
Proof.
  intros He Hn a b la lb p q Hab Ha Hb Hp Hq.
  apply list_lookup_insert_Some in Ha as [(<- & -> & _)|[Hia Ha]];
    apply list_lookup_insert_Some in Hb as [(<- & -> & _)|[Hib Hb]]; try done.
  - by apply (Hn p b lb q).
  - apply not_eq_sym. by apply (Hn q a la p).
  - by apply (He a b la lb).
Qed.

Lemma threads_insert (P : mpc A → Prop) (ls : list (mpc A)) i l' :
  (∀ j l, j ≠ i → ls !! j = Some l → P l) → P l' → ∀ j l, <[i := l']> ls !! j = Some l → P l.
Proof.
  intros Ho Hl j l [(<- & -> & _)|[Hij Hj]]%list_lookup_insert_Some; [done|]. by apply (Ho j).
Qed.

(** A step that leaves the queue alone. *)
Lemma inv_local s ls H i l l' :
  mpmc_inv s ls H → ls !! i = Some l → thread_ok s H l' → (owns l' = None ∨ owns l' = owns l) →
  mpmc_inv s (<[i := l']> ls) H.
Proof.
  intros (Hi & Hs & He & Ht) Hl Hl' Ho. split_and!; [done | done | |].
  - apply exclusive_insert; [done|]. intros p j lj q Hp Hj Hlj Hq.
    destruct Ho as [Ho|Ho]; [congruence|]. apply (He i j l lj); congruence.
  - apply threads_insert; [|done]. intros j lj _. apply (Ht j).
Qed.

(** The other threads do not own the slot of a thread's position. *)
Lemma others_elsewhere s ls H i l p :
  mpmc_inv s ls H → ls !! i = Some l → owns l = Some p →
  ∀ j lj, j ≠ i → ls !! j = Some lj → ∀ q, owns lj = Some q → q mod SIZE ≠ p mod SIZE.
Proof. intros (_ & _ & He & _) Hl Hp j lj Hj Hlj q Hq. by apply (He j i lj l). Qed.

Lemma indices_set_slot s H p0 sl : indices_ok s H → indices_ok (set_slot s p0 sl) H.
Proof.
  intros (Hl & Hw). split; [|done]. unfold MpmcQueue.set_slot. cbn. by rewrite length_insert.
Qed.

(** One slot is changed by the thread that owns it. *)
Lemma inv_set_slot s ls H i l l' p0 sl sl0 :
  mpmc_inv s ls H → ls !! i = Some l → owns l = Some p0 → slot s p0 = Some sl0 →
  (sequence sl = sequence sl0 ∨
   (seq_at s (write_pos s) = Some (write_pos s) → write_pos s mod SIZE ≠ p0 mod SIZE) ∧
   (seq_at s (read_pos s) = Some (read_pos s + 1) → read_pos s mod SIZE ≠ p0 mod SIZE)) →
  slot_ok s H (p0 mod SIZE) sl → thread_ok (set_slot s p0 sl) H l' →
  (owns l' = None ∨ owns l' = owns l) →
  mpmc_inv (set_slot s p0 sl) (<[i := l']> ls) H.
Proof.
  intros Hinv Hl Hp Hs0 Hseq Hsl Hl' Ho. pose proof Hinv as (Hi & Hs & He & Ht).
  split_and!; [by apply indices_set_slot | | |].
  - intros k x Hk Hx. unfold MpmcQueue.set_slot in Hx. cbn [slots] in Hx.
    apply list_lookup_insert_Some in Hx as [(E & -> & _)|[_ Hx]]; [|by apply (Hs k)].
    pose proof (mod_range p0). assert (k = p0 mod SIZE) as -> by lia. done.
  - apply exclusive_insert; [done|]. intros p j lj q Hpp Hj Hlj Hq.
    destruct Ho as [Ho|Ho]; [congruence|].
    apply not_eq_sym, (others_elsewhere s ls H i l p Hinv Hl) with j lj; congruence.
  - apply threads_insert; [|done]. intros j lj Hj Hlj.
    apply (thread_ok_slot s H lj p0 sl sl0); [done | done | done | | by apply (Ht j)].
    by apply (others_elsewhere s ls H i l p0 Hinv Hl Hp j).
Qed.

(** What the sequence number of the slot of [p] tells. *)
Lemma seq_equal s H p :
  indices_ok s H → slots_ok s H → seq_at s p = Some p →
  write_pos s ≤ p ∧ p - SIZE < read_pos s ∨ read_pos s ≤ p < write_pos s.
Proof.
  intros Hi Hs Hp. destruct (slot_some s H p Hi) as [sl Hsl].
  pose proof (seq_at_slot s p sl Hsl) as E. rewrite Hp in E. injection E as E.
  destruct (slot_ok_at s H p sl Hs Hsl) as (p' & Hm & _ & _ & [(E1 & E2)|[(E1 & E2)|(E1 & E2)]]).
  - left. rewrite E, E1. done.
  - right. rewrite E, E1. done.
  - destruct (mod_succ p' p); [done | lia].
Qed.

Lemma seq_published s H p :
  indices_ok s H → slots_ok s H → seq_at s p = Some (p + 1) →
  p < write_pos s ∧ write_pos s - SIZE ≤ p ∧ value_at s p = H !! Z.to_nat p.
Proof.
  intros Hi Hs Hp. destruct (slot_some s H p Hi) as [sl Hsl].
  pose proof (seq_at_slot s p sl Hsl) as E. rewrite Hp in E. injection E as E.
  unfold value_at. rewrite Hsl. cbn.
  destruct (slot_ok_at s H p sl Hs Hsl) as (p' & Hm & _ & Hw & [(E1 & E2)|[(E1 & E2)|(E1 & E2 & E3)]]).
  - destruct (mod_succ p p'); [done | lia].
  - destruct (mod_succ p p'); [done | lia].
  - assert (p' = p) as -> by lia. done.
Qed.

Lemma push_cas_ok s ls H i v :
  mpmc_inv s ls H → ls !! i = Some (PushCas v (write_pos s)) →
  Z.of_nat (length (drop (Z.to_nat (read_pos s)) H)) < SIZE ∧
  mpmc_inv (MpmcQueue.set_write s (write_pos s + 1)) (<[i := PushStore v (write_pos s)]> ls) (H ++ [v]).
Proof.
  intros (Hi & Hs & He & Ht) Hl. pose proof (Ht i _ Hl) as [Hpos Hseq]. specialize (Hseq eq_refl).
  pose proof Hi as (Hlen & HW & HR & HRS).
  destruct (seq_equal s H (write_pos s) Hi Hs Hseq) as [[_ Hlt]|]; [|lia].
  split; [rewrite length_drop; lia|]. split_and!.
  - split_and!; cbn; try done; try lia. rewrite length_app. cbn. lia.
  - intros k sl Hk Hsl. cbn in Hsl. destruct (Hs k sl Hk Hsl) as (p & Hm & Hp0 & Hp & Hcase).
    assert (sequence sl = write_pos s → k = write_pos s mod SIZE → p = write_pos s) as Hsame.
    { intros E Ek. destruct Hcase as [(E1 & _)|[(E1 & _)|(E1 & _)]]; [congruence | congruence |].
      destruct (mod_succ p (write_pos s)); congruence. }
    assert (p + SIZE ≠ write_pos s ∨ sequence sl = write_pos s ∧ k = write_pos s mod SIZE) as Hne.
    { destruct (decide (k = write_pos s mod SIZE)) as [->|Hk'].
      - right. split; [|done]. unfold seq_at, MpmcQueue.slot in Hseq. rewrite Hsl in Hseq.
        by injection Hseq.
      - left. intros E. apply Hk'. rewrite <- Hm, <- E. rewrite <- (Z.mod_add p 1 SIZE) by lia.
        f_equal. lia. }
    exists p. cbn. split_and!; [done | done | destruct Hne as [|[]]; [lia | rewrite Hsame by done; lia] |].
    destruct Hcase as [(E1 & E2 & E3)|[(E1 & E2)|(E1 & E2 & E3)]].
    + destruct (decide (p = write_pos s)) as [->|]; [right; left | left]; lia.
    + right; left. lia.
    + right; right. split_and!; [done | lia |]. rewrite E3.
      by rewrite lookup_app_l by lia.
  - apply exclusive_insert; [done|]. intros p j lj q Hp Hj Hlj Hq. injection Hp as <-.
    intros Hm. pose proof (Ht j lj Hlj) as Hok.
    pose proof (owned_seq s H lj q Hq Hok) as Hor. rewrite <- (seq_at_mod _ _ _ Hm), Hseq in Hor.
    destruct Hor as [[Hr E]|[Hr E]]; injection E as E; [lia|].
    destruct (mod_succ q (write_pos s)); [done | lia].
  - apply threads_insert.
    + intros j lj _ Hlj. apply thread_ok_write; [done | by apply (Ht j)].
    + cbn. split_and!; [lia | lia | done |].
      rewrite HW, Nat2Z.id. by apply list_lookup_middle.
Qed.

Lemma push_store_ok s ls H i v p sl :
  mpmc_inv s ls H → ls !! i = Some (PushStore v p) → slot s p = Some sl →
  mpmc_inv (set_slot s p (mkSlot (sequence sl) (Some v))) (<[i := PushPublish v p]> ls) H.
Proof.
  intros Hinv Hl Hsl. pose proof Hinv as (Hi & Hs & He & Ht).
  pose proof (Ht i _ Hl) as (Hp & Hseq & Hv).
  pose proof (seq_at_slot s p sl Hsl) as E. rewrite Hseq in E. injection E as E.
  apply (inv_set_slot s ls H i (PushStore v p) _ p _ sl); try done; [by left | | | by right].
  - destruct (slot_ok_at s H p sl Hs Hsl) as (p' & Hm & H0 & Hw & [C|[C|C]]); exists p'.
    + auto 10.
    + auto 10.
    + destruct C as (E1 & _). destruct (mod_succ p' p); [done | lia].
  - cbn. unfold seq_at, value_at. rewrite (slot_set s H), Z.eqb_refl by done. cbn.
    by rewrite <- E.
Qed.

Lemma push_publish_ok s ls H i v p sl :
  mpmc_inv s ls H → ls !! i = Some (PushPublish v p) → slot s p = Some sl →
  mpmc_inv (set_slot s p (mkSlot (p + 1) (value sl))) (<[i := PushDone (Ok tt)]> ls) H.
Proof.
  intros Hinv Hl Hsl. pose proof Hinv as (Hi & Hs & He & Ht).
  pose proof (Ht i _ Hl) as (Hp & Hseq & Hv & Hval).
  unfold value_at in Hval. rewrite Hsl in Hval. cbn in Hval. pose proof Hi as (_ & HW & HR & HRS).
  apply (inv_set_slot s ls H i (PushPublish v p) _ p _ sl); try done; [right | | by left].
  - split; intros E Hm; rewrite (seq_at_mod _ _ _ Hm), Hseq in E; injection E as E; [lia|].
    destruct (mod_succ (read_pos s) p); [done | lia].
  - exists p. split_and!; [done | lia | lia |]. right; right. cbn. split_and!; [done | lia | congruence].
Qed.

Lemma pop_cas_ok s ls H i :
  mpmc_inv s ls H → ls !! i = Some (PopCas (read_pos s)) →
  read_pos s < write_pos s ∧
  mpmc_inv (MpmcQueue.set_read s (read_pos s + 1)) (<[i := PopRead (read_pos s)]> ls) H.
Proof.
  intros (Hi & Hs & He & Ht) Hl. pose proof (Ht i _ Hl) as [Hpos Hseq]. specialize (Hseq eq_refl).
  pose proof Hi as (Hlen & HW & HR & HRS).
  destruct (seq_published s H (read_pos s) Hi Hs Hseq) as (Hlt & _ & _).
  split; [done|]. split_and!.
  - split_and!; cbn; done || lia.
  - intros k sl Hk Hsl. cbn in Hsl. destruct (Hs k sl Hk Hsl) as (p & Hm & Hp0 & Hp & Hcase).
    exists p. cbn. split_and!; [done | done | done |].
    destruct Hcase as [E|[(E1 & E2)|E]]; [left; lia | right; left | by right; right].
    assert (p ≠ read_pos s); [intros -> | lia].
    unfold seq_at, MpmcQueue.slot in Hseq. rewrite Hm, Hsl in Hseq. cbn in Hseq.
    injection Hseq. lia.
  - apply exclusive_insert; [done|]. intros p j lj q Hp Hj Hlj Hq. injection Hp as <-.
    intros Hm. pose proof (Ht j lj Hlj) as Hok.
    pose proof (owned_seq s H lj q Hq Hok) as Hor. rewrite <- (seq_at_mod _ _ _ Hm), Hseq in Hor.
    destruct Hor as [[Hr E]|[Hr E]]; injection E as E; [|lia].
    destruct (mod_succ (read_pos s) q); [done | lia].
  - apply threads_insert.
    + intros j lj _ Hlj. apply thread_ok_read; [done | done | by apply (Ht j)].
    + cbn. split; [lia | done].
Qed.

Lemma pop_read_ok s ls H i p sl v :
  mpmc_inv s ls H → ls !! i = Some (PopRead p) → slot s p = Some sl → value sl = Some v →
  H !! Z.to_nat p = Some v ∧ mpmc_inv s (<[i := PopPublish p v]> ls) H.
Proof.
  intros Hinv Hl Hsl Hv. pose proof Hinv as (Hi & Hs & He & Ht).
  pose proof (Ht i _ Hl) as (Hp & Hseq).
  destruct (seq_published s H p Hi Hs Hseq) as (_ & _ & Hval).
  unfold value_at in Hval. rewrite Hsl in Hval. cbn in Hval.
  split; [congruence|]. apply (inv_local s ls H i (PopRead p)); [done | done | | by right].
  cbn. split_and!; [lia | lia | done | congruence].
Qed.

Lemma pop_publish_ok s ls H i v p sl :
  mpmc_inv s ls H → ls !! i = Some (PopPublish p v) → slot s p = Some sl →
  mpmc_inv (set_slot s p (mkSlot (p + SIZE) (value sl))) (<[i := PopDone (Some v)]> ls) H.
Proof.
  intros Hinv Hl Hsl. pose proof Hinv as (Hi & Hs & He & Ht).
  pose proof (Ht i _ Hl) as (Hp & Hseq & Hv). pose proof Hi as (_ & HW & HR & HRS).
  destruct (seq_published s H p Hi Hs Hseq) as (Hlt & Hge & _).
  apply (inv_set_slot s ls H i (PopPublish p v) _ p _ sl); try done; [right | | by left].
  - split; intros E Hm; rewrite (seq_at_mod _ _ _ Hm), Hseq in E; injection E as E; [|lia].
    destruct (mod_succ p (write_pos s)); [done | lia].
  - exists (p + SIZE). split_and!; [|lia|lia|].
    + rewrite <- (Z.mod_add p 1 SIZE) by lia. f_equal. lia.
    + left. cbn. lia.
Qed.

(** ** The simulation *)

(** What a thread has taken from the queue and not yet returned. *)
Definition taken H l : option A :=
  match l with
  | PopRead p => H !! Z.to_nat p
  | PopPublish _ v | PopDone (Some v) | Panicked (Some v) => Some v
  | _ => None
  end.

(** The step of the specification that a change of control state stands for. *)
Definition event_of (l l' : mpc A) : option (BQueue.event A) :=
  match l, l' with
  | PushCas v _, PushStore _ _ => Some (BQueue.EPush v)
  | PopCas _, PopRead _ => Some BQueue.EPop
  | PopDone (Some v), MIdle => Some (BQueue.EReturn v)
  | _, _ => None
  end.

Definition mpmc_rel (c : MpmcQueue A * list (mpc A)) (a : BQueue.t A) : Prop :=
  ∃ H, mpmc_inv c.1 c.2 H ∧ BQueue.items a = drop (Z.to_nat (read_pos c.1)) H ∧
    ∀ i l, c.2 !! i = Some l → BQueue.pending a !! i = taken H l.

Lemma taken_app s H l v : indices_ok s H → thread_ok s H l → taken (H ++ [v]) l = taken H l.
Proof.
  intros (_ & HW & HR & _). destruct l; cbn; try done. intros [Hp _].
  apply lookup_app_l. lia.
Qed.

(** A step that is not visible in the specification. *)
Lemma rel_silent (ls : list (mpc A)) (a : BQueue.t A) H i l l' :
  (∀ j k, ls !! j = Some k → BQueue.pending a !! j = taken H k) → ls !! i = Some l →
  taken H l' = taken H l →
  ∀ j k, <[i := l']> ls !! j = Some k → BQueue.pending a !! j = taken H k.
Proof.
  intros Hp Hl Ht j k [(<- & <- & _)|[Hij Hj]]%list_lookup_insert_Some; [|by apply Hp].
  rewrite Ht. by apply Hp.
Qed.

Lemma sim_push s ls H a i v :
  mpmc_inv s ls H → BQueue.items a = drop (Z.to_nat (read_pos s)) H →
  (∀ j k, ls !! j = Some k → BQueue.pending a !! j = taken H k) →
  ls !! i = Some (PushCas v (write_pos s)) →
  ∃ a', BQueue.step SIZE i (BQueue.EPush v) a a' ∧
    mpmc_rel (MpmcQueue.set_write s (write_pos s + 1), <[i := PushStore v (write_pos s)]> ls) a'.
Proof.
  intros Hinv Hq Hp Hl. destruct (push_cas_ok s ls H i v Hinv Hl) as [Hlt Hinv'].
  destruct a as [q p]. cbn in Hq, Hp. eexists. split; [constructor; by rewrite Hq|].
  pose proof Hinv as ((_ & HW & HR & _) & _ & _ & Ht).
  exists (H ++ [v]). split_and!; [done | |].
  - cbn. rewrite drop_app_le by lia. by rewrite Hq.
  - cbn. intros j k [(<- & <- & _)|[Hij Hj]]%list_lookup_insert_Some.
    + by rewrite (Hp _ _ Hl).
    + rewrite (taken_app s H k v); [by apply Hp | apply Hinv | by apply (Ht j)].
Qed.

Lemma sim_pop s ls H a i :
  mpmc_inv s ls H → BQueue.items a = drop (Z.to_nat (read_pos s)) H →
  (∀ j k, ls !! j = Some k → BQueue.pending a !! j = taken H k) →
  ls !! i = Some (PopCas (read_pos s)) →
  ∃ a', BQueue.step SIZE i BQueue.EPop a a' ∧
    mpmc_rel (MpmcQueue.set_read s (read_pos s + 1), <[i := PopRead (read_pos s)]> ls) a'.
Proof.
  intros Hinv Hq Hp Hl. destruct (pop_cas_ok s ls H i Hinv Hl) as [Hlt Hinv'].
  pose proof Hinv as ((_ & HW & HR & _) & _ & _ & Ht).
  destruct (lookup_lt_is_Some_2 H (Z.to_nat (read_pos s))) as [v Hv]; [lia|].
  destruct a as [q p]. cbn in Hq, Hp. rewrite (drop_S _ v) in Hq by done. subst q.
  eexists. split; [constructor; by rewrite (Hp _ _ Hl)|].
  exists H. split_and!; [done | |].
  - cbn. f_equal. lia.
  - cbn. intros j k [(<- & <- & _)|[Hij Hj]]%list_lookup_insert_Some.
    + rewrite lookup_insert_eq. by rewrite <- Hv.
    + rewrite lookup_insert_ne by done. by apply Hp.
Qed.

Lemma sim_return s ls H a i v :
  mpmc_inv s ls H → BQueue.items a = drop (Z.to_nat (read_pos s)) H →
  (∀ j k, ls !! j = Some k → BQueue.pending a !! j = taken H k) →
  ls !! i = Some (PopDone (Some v)) →
  ∃ a', BQueue.step SIZE i (BQueue.EReturn v) a a' ∧ mpmc_rel (s, <[i := MIdle]> ls) a'.
Proof.
  intros Hinv Hq Hp Hl. destruct a as [q p]. cbn in Hq, Hp.
  eexists. split; [constructor; by rewrite (Hp _ _ Hl)|].
  exists H. split_and!; [| done |].
  - apply (inv_local s ls H i (PopDone (Some v))); try done. by left.
  - cbn. intros j k [(<- & <- & _)|[Hij Hj]]%list_lookup_insert_Some.
    + by rewrite lookup_delete_eq.
    + rewrite lookup_delete_ne by done. by apply Hp.
Qed.

(** A step that only changes the thread, and nothing the specification sees. *)
Lemma sim_local s ls a i l l' :
  mpmc_rel (s, ls) a → ls !! i = Some l → (∀ H, indices_ok s H → thread_ok s H l → thread_ok s H l') →
  owns l' = None → (∀ H, taken H l' = taken H l) → mpmc_rel (s, <[i := l']> ls) a.
Proof.
  intros (H & Hinv & Hq & Hp) Hl Hok Ho Ht. exists H. split_and!; [| done |].
  - apply (inv_local s ls H i l); [done | done | | by left].
    apply Hok; [apply Hinv | by apply Hinv in Hl].
  - by apply (rel_silent ls a H i l).
Qed.

Lemma seq_at_eq s p sl x : slot s p = Some sl → sequence sl = x → seq_at s p = Some x.
Proof. intros Hs <-. by apply seq_at_slot. Qed.

Ltac silent := eapply sim_local; [done | done | | done | done]; intros ? (_ & ? & ? & ?);
  cbn; naive_solver (eauto using seq_at_eq; lia).

Lemma mpmc_simulation i c c' a l l' :
  mpmc_rel c a → thread_step (MpmcQueue.step SIZE) i c c' →
  c.2 !! i = Some l → c'.2 !! i = Some l' →
  match event_of l l' with
  | Some e => ∃ a', BQueue.step SIZE i e a a' ∧ mpmc_rel c' a'
  | None => mpmc_rel c' a
  end.
Proof.
  intros Hrel Hs Hl Hl'. destruct c as [s ls]. cbn [snd] in Hl.
  apply thread_step_inv in Hs as (k & s' & k' & Hk & Hs & ->). cbn [snd] in Hl'.
  rewrite Hk in Hl. injection Hl as ->.
  rewrite list_lookup_insert_eq in Hl' by (by apply lookup_lt_Some in Hk). injection Hl' as ->.
  pose proof Hrel as (H & Hinv & Hq & Hp). cbn [fst snd] in *.
  destruct Hs as [| | | | | |i s v pos Hpos <-| |i s v pos sl Hsl|i s v pos sl Hsl|i s r| | | | | | |i s pos <-| |i s pos sl v Hsl Hv| |i s pos v sl _ Hsl|i s [v|]];
    cbn [event_of]; try silent.
  - by eapply sim_push.
  - exists H. split_and!; [by eapply push_store_ok | done |]. by eapply rel_silent.
  - exists H. split_and!; [by eapply push_publish_ok | done |]. by eapply rel_silent.
  - by eapply sim_pop.
  - destruct (pop_read_ok s ls H i pos sl v Hinv Hk Hsl Hv) as [Ev Hinv'].
    exists H. split_and!; [done | done |]. by eapply rel_silent.
  - exists H. split_and!; [by eapply pop_publish_ok | done |]. by eapply rel_silent.
  - by eapply sim_return.
Qed.

(** The empty queue. *)
Definition empty_queue : MpmcQueue A := mkMpmc (Slot.new <$> seqZ 0 SIZE) 0 0.

Lemma mpmc_new : MpmcQueue.new SIZE = Ret empty_queue.
Proof. unfold MpmcQueue.new. by rewrite (proj2 (Z.ltb_lt 0 SIZE)) by lia. Qed.

Lemma mpmc_init n : mpmc_rel (empty_queue, replicate n MIdle) BQueue.init.
Proof.
  exists []. split_and!; [|done|].
  - split_and!; cbn.
    + split_and!; cbn; [rewrite length_fmap, length_seqZ | ..]; lia.
    + intros k sl Hk Hsl. cbn in Hsl. apply list_lookup_fmap_Some in Hsl as (x & -> & Hx).
      apply lookup_seqZ in Hx as [-> Hlt]. exists k. cbn.
      rewrite Z.mod_small by lia. split_and!; [done | lia | lia | left; lia].
    + intros i j li lj p q _ [-> _]%lookup_replicate_1. done.
    + intros i l [-> _]%lookup_replicate_1. done.
  - cbn. intros i l [-> _]%lookup_replicate_1. by rewrite lookup_empty.
Qed.

Lemma mpmc_reachable n c :
  reachable (MpmcQueue.step SIZE) empty_queue MIdle n c →
  ∃ a, rtc (BQueue.any SIZE) BQueue.init a ∧ mpmc_rel c a.
Proof.
  revert c. apply reachable_inv.
  - exists BQueue.init. split; [done | apply mpmc_init].
  - intros i c c' (a & Ha & Hrel) Hs. destruct c as [s ls].
    pose proof Hs as (l & s' & l' & Hl & _ & ->)%thread_step_inv.
    pose proof (mpmc_simulation i (s, ls) _ a l l' Hrel Hs Hl) as Hsim.
    cbn [snd] in Hsim. rewrite list_lookup_insert_eq in Hsim by (by apply lookup_lt_Some in Hl).
    specialize (Hsim eq_refl). destruct (event_of l l') as [e|]; [|eauto].
    destruct Hsim as (a' & Hst & Hrel'). exists a'. split; [|done].
    eapply rtc_r; [done | by exists i, e].
Qed.

(** The slot of a position before the write index is not free for the position
    itself, and what a thread that finds a full or empty queue has seen. *)
Lemma mod_far p q : p mod SIZE = q mod SIZE → p < q → p + SIZE ≤ q.
Proof.
  intros Hm Hlt. assert ((SIZE | q - p)) as [k Hk].
  { apply Z.mod_divide; [lia|]. rewrite Zminus_mod, Hm, Z.sub_diag. by apply Z.mod_0_l; lia. }
  assert (1 ≤ k) by nia. nia.
Qed.

Lemma full_slot s H pos sl :
  indices_ok s H → slots_ok s H → 0 ≤ pos ≤ write_pos s → slot s pos = Some sl →
  sequence sl < pos →
  pos = write_pos s ∧
  (write_pos s = read_pos s + SIZE ∨ seq_at s (pos - SIZE) = Some (pos - SIZE + 1)).
Proof.
  intros Hi Hs Hpos Hsl Hlt. pose proof Hi as (_ & HW & HR & HRS).
  destruct (slot_ok_at s H pos sl Hs Hsl) as (p & Hm & Hp0 & Hp & Hcase).
  assert (p + SIZE ≤ pos) by (apply mod_far; [done | destruct Hcase as [C|[C|C]]; lia]).
  assert (pos = write_pos s) as -> by lia. split; [done|].
  assert (p = write_pos s - SIZE) as -> by lia.
  destruct Hcase as [C|[C|(C & _)]]; [lia | left; lia | right].
  rewrite (seq_at_mod s _ (write_pos s)) by done. by rewrite (seq_at_slot s _ sl), C.
Qed.

Lemma empty_slot s H pos sl :
  indices_ok s H → slots_ok s H → 0 ≤ pos ≤ read_pos s → slot s pos = Some sl →
  sequence sl < pos + 1 →
  pos = read_pos s ∧ (read_pos s = write_pos s ∨ seq_at s (read_pos s) = Some (read_pos s)).
Proof.
  intros Hi Hs Hpos Hsl Hlt. pose proof Hi as (_ & HW & HR & HRS).
  destruct (slot_ok_at s H pos sl Hs Hsl) as (p & Hm & Hp0 & Hp & Hcase).
  destruct (decide (p < pos)) as [Hlt'|Hge].
  { pose proof (mod_far p pos Hm Hlt'). split; [lia | left; lia]. }
  destruct Hcase as [(C1 & C2 & C3)|[(C1 & C2)|(C1 & C2 & C3)]]; [| |lia].
  - split; [lia|]. left. lia.
  - assert (p = read_pos s) as -> by lia. split; [lia|]. right.
    rewrite (seq_at_mod s _ pos) by done. by rewrite (seq_at_slot s _ sl), C1.
Qed.

End proofs.

(** ** Properties *)

(** C4: with two slots or more the queue implements a bounded FIFO queue for any
    number of producers and consumers.  Every reachable configuration corresponds
    to a reachable state of the specification.  The [compare_exchange] of
    [try_push] that succeeds puts the element at the end of a queue that is not
    full, that of [pop] takes the oldest element, [pop] returns the element taken,
    and no other step changes the queue. *)
Theorem mpmc_refines {A} SIZE n (c : MpmcQueue A * list (mpc A)) :
  2 ≤ SIZE → reachable (MpmcQueue.step SIZE) (empty_queue SIZE) MIdle n c →
  ∃ a, rtc (BQueue.any SIZE) BQueue.init a ∧ mpmc_rel SIZE c a ∧
    ∀ i c' l l', thread_step (MpmcQueue.step SIZE) i c c' →
      c.2 !! i = Some l → c'.2 !! i = Some l' →
      match event_of l l' with
      | Some e => ∃ a', BQueue.step SIZE i e a a' ∧ mpmc_rel SIZE c' a'
      | None => mpmc_rel SIZE c' a
      end.
Proof.
  intros Hsz Hc. destruct (mpmc_reachable SIZE Hsz n c Hc) as (a & Ha & Hrel).
  exists a. split_and!; [done | done |]. intros i c' l l'. by apply mpmc_simulation.
Qed.

(** The [unsafe] accesses to the slots are sound, with two slots or more: two
    threads never access the value of the same slot at the same time, and the slot
    that [Slot::read] reads holds a value. *)
Theorem mpmc_race_free {A} SIZE n (c : MpmcQueue A * list (mpc A)) :
  2 ≤ SIZE → reachable (MpmcQueue.step SIZE) (empty_queue SIZE) MIdle n c →
  (∀ i j li lj p q, i ≠ j → c.2 !! i = Some li → c.2 !! j = Some lj →
     owns li = Some p → owns lj = Some q → p mod SIZE ≠ q mod SIZE) ∧
  (∀ i p, c.2 !! i = Some (PopRead p) →
     ∃ sl v, MpmcQueue.slot SIZE c.1 p = Some sl ∧ value sl = Some v).
Proof.
  intros Hsz Hc. destruct (mpmc_reachable SIZE Hsz n c Hc) as (a & _ & H & (Hi & Hs & He & Ht) & _).
  split; [exact He|]. intros i p Hp. pose proof (Ht i _ Hp) as [Hr Hseq].
  destruct (seq_published SIZE Hsz c.1 H p Hi Hs Hseq) as (Hlt & _ & Hv).
  destruct (slot_some SIZE Hsz c.1 H p Hi) as [sl Hsl].
  destruct Hi as (_ & HW & _). destruct (lookup_lt_is_Some_2 H (Z.to_nat p)) as [v Ev]; [lia|].
  exists sl, v. split; [done|]. unfold value_at in Hv. rewrite Hsl, Ev in Hv. done.
Qed.

(** When the operations fail.  [try_push] gives its element back only when the
    queue holds [SIZE] elements or the slot it needs is still being read, and [pop]
    returns nothing only when the queue is empty or its first element is still
    being written. *)
Theorem mpmc_failures {A} SIZE n (c c' : MpmcQueue A * list (mpc A)) i l l' :
  2 ≤ SIZE → reachable (MpmcQueue.step SIZE) (empty_queue SIZE) MIdle n c →
  thread_step (MpmcQueue.step SIZE) i c c' → c.2 !! i = Some l → c'.2 !! i = Some l' → l' ≠ l →
  match l' with
  | PushDone (Err _) =>
      write_pos c.1 = read_pos c.1 + SIZE ∨
      seq_at SIZE c.1 (write_pos c.1 - SIZE) = Some (write_pos c.1 - SIZE + 1)
  | PopDone None =>
      read_pos c.1 = write_pos c.1 ∨ seq_at SIZE c.1 (read_pos c.1) = Some (read_pos c.1)
  | _ => True
  end.
Proof.
  intros Hsz Hc Hs Hl Hl' Hne.
  destruct (mpmc_reachable SIZE Hsz n c Hc) as (a & _ & H & (Hi & Hsl & He & Ht) & _).
  specialize (Ht i l Hl). destruct c as [s ls].
  apply thread_step_inv in Hs as (k & s' & k' & Hk & Hs & ->). cbn [fst snd] in *.
  rewrite Hk in Hl. injection Hl as ->.
  rewrite list_lookup_insert_eq in Hl' by (by apply lookup_lt_Some in Hk). injection Hl' as ->.
  destruct Hs; try done; cbn in Ht.
  - destruct (full_slot SIZE Hsz s H pos sl) as [-> Hor]; done.
  - by destruct (empty_slot SIZE Hsz s H pos sl) as [_ Hor].
Qed.

(** ** A queue of one slot *)

(** [new] accepts [SIZE = 1], where the sequence number after a push at [pos] is
    also the one of the free slot at [pos + 1].  A second push overwrites the
    element that nobody has read, and reports success. *)
Definition overwritten : MpmcQueue Z := mkMpmc [mkSlot 2 (Some 8)] 0 2.

Lemma mpmc_one_slot_overwrites :
  reachable (MpmcQueue.step 1) (empty_queue 1) MIdle 1 (overwritten, [MIdle]).
Proof.
  unfold reachable, overwritten, empty_queue. cbn [replicate].
  run 0%nat (λ i s, MpmcQueue.Push_call (A := Z) 1 i s 7). run 0%nat (@MpmcQueue.Push_load Z 1).
  run 0%nat (@MpmcQueue.Push_equal Z 1). run 0%nat (@MpmcQueue.Push_cas Z 1).
  run 0%nat (@MpmcQueue.Push_store Z 1). run 0%nat (@MpmcQueue.Push_publish Z 1).
  run 0%nat (@MpmcQueue.Push_return Z 1).
  run 0%nat (λ i s, MpmcQueue.Push_call (A := Z) 1 i s 8). run 0%nat (@MpmcQueue.Push_load Z 1).
  run 0%nat (@MpmcQueue.Push_equal Z 1). run 0%nat (@MpmcQueue.Push_cas Z 1).
  run 0%nat (@MpmcQueue.Push_store Z 1). run 0%nat (@MpmcQueue.Push_publish Z 1).
  run 0%nat (@MpmcQueue.Push_return Z 1). apply rtc_refl.
Qed.

(** ... and [pop] then loops for ever. *)
Lemma mpmc_one_slot_pop_diverges c :
  rtc (any_step (MpmcQueue.step 1)) (overwritten, [PopLoad]) c →
  c = (overwritten, [PopLoad]) ∨ c = (overwritten, [PopSeq 0]).
Proof.
  set (P := λ c : MpmcQueue Z * list (mpc Z), c = (overwritten, [PopLoad]) ∨ c = (overwritten, [PopSeq 0])).
  assert (∀ c0, rtc (any_step (MpmcQueue.step 1)) c0 c → P c0 → P c) as Hgen.
  { intros c0 Hc. induction Hc as [|c1 c2 c3 [i Hs] _ IH]; [done|]. intros H0. apply IH. clear IH.
    destruct H0 as [->| ->]; apply thread_step_inv in Hs as (l & s' & l' & Hl & Hs & ->);
      apply list_lookup_singleton_Some in Hl as [-> <-]; inversion Hs; subst; cbn in *;
      first [by left | by right | lia | idtac].
    all: match goal with H : MpmcQueue.slot _ _ _ = Some _ |- _ => injection H as <- end;
      cbn in *; first [lia | by left]. }
  intros Hc. apply (Hgen _ Hc). by left.
Qed.

(** ** Examples *)

(** Thread 0 has pushed 7 and 8 into two slots, thread 1 reads the first of them. *)
Definition demo_mpmc : MpmcQueue Z * list (mpc Z) :=
  (mkMpmc [mkSlot 1 (Some 7); mkSlot 2 (Some 8)] 1 2, [MIdle; PopRead 0]).

Lemma demo_mpmc_reachable : reachable (MpmcQueue.step 2) (empty_queue 2) MIdle 2 demo_mpmc.
Proof.
  unfold reachable, demo_mpmc, empty_queue. cbn [replicate].
  run 0%nat (λ i s, MpmcQueue.Push_call (A := Z) 2 i s 7). run 0%nat (@MpmcQueue.Push_load Z 2).
  run 0%nat (@MpmcQueue.Push_equal Z 2). run 0%nat (@MpmcQueue.Push_cas Z 2).
  run 0%nat (@MpmcQueue.Push_store Z 2). run 0%nat (@MpmcQueue.Push_publish Z 2).
  run 1%nat (@MpmcQueue.Pop_call Z 2). run 0%nat (@MpmcQueue.Push_return Z 2).
  run 1%nat (@MpmcQueue.Pop_load Z 2). run 1%nat (@MpmcQueue.Pop_equal Z 2).
  run 0%nat (λ i s, MpmcQueue.Push_call (A := Z) 2 i s 8). run 0%nat (@MpmcQueue.Push_load Z 2).
  run 0%nat (@MpmcQueue.Push_equal Z 2). run 0%nat (@MpmcQueue.Push_cas Z 2).
  run 1%nat (@MpmcQueue.Pop_cas Z 2).
  run 0%nat (@MpmcQueue.Push_store Z 2). run 0%nat (@MpmcQueue.Push_publish Z 2).
  run 0%nat (@MpmcQueue.Push_return Z 2). apply rtc_refl.
Qed.

Lemma mpmc_refines_witness :
  ∃ a, rtc (BQueue.any 2) BQueue.init a ∧ mpmc_rel 2 demo_mpmc a ∧
    ∀ i c' l l', thread_step (MpmcQueue.step 2) i demo_mpmc c' →
      demo_mpmc.2 !! i = Some l → c'.2 !! i = Some l' →
      match event_of l l' with
      | Some e => ∃ a', BQueue.step 2 i e a a' ∧ mpmc_rel 2 c' a'
      | None => mpmc_rel 2 c' a
      end.
Proof. apply (mpmc_refines 2 2 demo_mpmc); [lia | exact demo_mpmc_reachable]. Defined.

Lemma mpmc_race_free_witness :
  (∀ i j li lj p q, i ≠ j → demo_mpmc.2 !! i = Some li → demo_mpmc.2 !! j = Some lj →
     owns li = Some p → owns lj = Some q → p mod 2 ≠ q mod 2) ∧
  (∀ i p, demo_mpmc.2 !! i = Some (PopRead p) →
     ∃ sl v, MpmcQueue.slot 2 demo_mpmc.1 p = Some sl ∧ value sl = Some v).
Proof. apply (mpmc_race_free 2 2 demo_mpmc); [lia | exact demo_mpmc_reachable]. Defined.

(** A thread that pops from the empty queue. *)
Definition demo_pop : MpmcQueue Z * list (mpc Z) := (empty_queue 2, [PopSeq 0]).

Lemma demo_pop_reachable : reachable (MpmcQueue.step 2) (empty_queue 2) MIdle 1 demo_pop.
Proof.
  unfold reachable, demo_pop. cbn [replicate].
  run 0%nat (@MpmcQueue.Pop_call Z 2). run 0%nat (@MpmcQueue.Pop_load Z 2). apply rtc_refl.
Qed.

Lemma mpmc_failures_witness :
  thread_step (MpmcQueue.step 2) 0 demo_pop (empty_queue 2, [PopDone None]) ∧
  (read_pos demo_pop.1 = write_pos demo_pop.1 ∨
   seq_at 2 demo_pop.1 (read_pos demo_pop.1) = Some (read_pos demo_pop.1)).
Proof.
  assert (thread_step (MpmcQueue.step 2) 0 demo_pop (empty_queue 2, [PopDone None])) as Hs.
  { change [PopDone None] with (<[0%nat := PopDone None]> [@PopSeq Z 0]).
    eapply Thread_step; [done|]. by eapply MpmcQueue.Pop_less. }
  split; [exact Hs|].
  apply (mpmc_failures 2 1 demo_pop (empty_queue 2, [PopDone None]) 0 (PopSeq 0) (PopDone None));
    [lia | exact demo_pop_reachable | exact Hs | done | done | done].
Defined.
