(* ===== verification/MpmcSeq.v ===== *)
(** * Calls of the queue that do not overlap

    [hyperdrive/src/queues/mpmc.rs] for the code that calls it: a call of [try_push] or of [pop] that runs alone, as
    the steps of the concurrent model.  The class [BoundedQueue] says what such calls promise to the users of a queue,
    and the queue with sequence numbers is an instance. *)

From S2P Require Import Prelude Threads Mpmc.

(** A queue of at most [bq_capacity] elements.  [bq_rel q n l] says that [q] holds the elements [l], oldest first,
    and that [n] elements were pushed since it was created; the calls return as long as [n] is below [bq_limit]. *)
Class BoundedQueue (Q A : Type) := {
  bq_capacity : Z;
  bq_limit : Z;
  bq_try_push : Q → A → out (Q * result unit A);
  bq_pop : Q → out (Q * option A);
  bq_rel : Q → Z → list A → Prop;
  bq_push_law q n l v :
    bq_rel q n l → n < bq_limit →
    if Z.of_nat (length l) <? bq_capacity
    then ∃ q', bq_try_push q v = Ret (q', Ok tt) ∧ bq_rel q' (n + 1) (l ++ [v])
    else bq_try_push q v = Ret (q, Err v);
  bq_pop_law q n l :
    bq_rel q n l → n < bq_limit →
    match l with
    | [] => bq_pop q = Ret (q, None)
    | v :: l => ∃ q', bq_pop q = Ret (q', Some v) ∧ bq_rel q' n l
    end;
}.

(** ** A call that runs alone *)

Section calls.
Context {A : Type} (SIZE : Z).
Implicit Types (s : MpmcQueue A) (l : mpc A).

Local Abbreviation slot := (MpmcQueue.slot SIZE).
Local Abbreviation set_slot := (MpmcQueue.set_slot SIZE).

(** The step that a thread inside a call takes next *)
Definition next s l : option (MpmcQueue A * mpc A) :=
  match l with
  | PushLoad v => Some (s, PushSeq v (write_pos s))
  | PushSeq v pos =>
      sl ← slot s pos;
      Some (s, if sequence sl =? pos then PushCas v pos
               else if sequence sl <? pos then PushDone (Err v) else PushLoad v)
  | PushCas v pos =>
      Some (if 2 ^ 64 <=? pos + 1 then (s, Panicked None)
            else if write_pos s =? pos then (MpmcQueue.set_write s (pos + 1), PushStore v pos)
            else (s, PushSeq v (write_pos s)))
  | PushStore v pos => sl ← slot s pos; Some (set_slot s pos (Slot.write_value sl v), PushPublish v pos)
  | PushPublish v pos => sl ← slot s pos; Some (set_slot s pos (Slot.write_sequence sl pos), PushDone (Ok tt))
  | PopLoad => Some (s, PopSeq (read_pos s))
  | PopSeq pos =>
      if 2 ^ 64 <=? pos + 1 then Some (s, Panicked None)
      else
        sl ← slot s pos;
        Some (s, if sequence sl =? pos + 1 then PopCas pos
                 else if sequence sl <? pos + 1 then PopDone None else PopLoad)
  | PopCas pos =>
      Some (if read_pos s =? pos then (MpmcQueue.set_read s (pos + 1), PopRead pos) else (s, PopSeq (read_pos s)))
  | PopRead pos => sl ← slot s pos; v ← value sl; Some (s, PopPublish pos v)
  | PopPublish pos v =>
      if 2 ^ 64 <=? pos + SIZE then Some (s, Panicked (Some v))
      else sl ← slot s pos; Some (set_slot s pos (Slot.read_sequence SIZE sl pos), PopDone (Some v))
  | MIdle | PushDone _ | PopDone _ | Panicked _ => None
  end.

Fixpoint call (fuel : nat) s l : option (MpmcQueue A * mpc A) :=
  match l, fuel with
  | (PushDone _ | PopDone _ | Panicked _), _ => Some (s, l)
  | _, O => None
  | _, S fuel => '(s, l) ← next s l; call fuel s l
  end.

(** A call that meets no other thread takes at most five steps: one for each access. *)
Definition CALL_STEPS : nat := 5.

Definition try_push s (v : A) : out (MpmcQueue A * result unit A) :=
  match call CALL_STEPS s (PushLoad v) with Some (s, PushDone r) => Ret (s, r) | _ => Panic end.
Definition pop s : out (MpmcQueue A * option A) :=
  match call CALL_STEPS s PopLoad with Some (s, PopDone o) => Ret (s, o) | _ => Panic end.

(** ** The steps are those of the concurrent model *)

Lemma next_step i s l s' l' : next s l = Some (s', l') → MpmcQueue.step SIZE i s l s' l'.
Proof.
  destruct l; cbn [next]; intros E; repeat case_match; simplify_option_eq;
    try (by econstructor); try (by econstructor; (done || lia)).
  - destruct (Z.eqb_spec (sequence H) pos), (Z.ltb_spec (sequence H) pos); by econstructor; (done || lia).
  - destruct (Z.eqb_spec (sequence H0) (pos + 1)), (Z.ltb_spec (sequence H0) (pos + 1)); by econstructor; (done || lia).
Qed.

Lemma call_steps fuel s l s' l' :
  call fuel s l = Some (s', l') → rtc (any_step (MpmcQueue.step SIZE)) (s, [l]) (s', [l']).
Proof.
  revert s l. induction fuel as [|fuel IH]; intros s l; cbn [call]; [by destruct l; intros [= <- <-]|].
  intros E. destruct (next s l) as [[s1 l1]|] eqn:En.
  - eapply rtc_l; [|apply (IH s1)].
    + exists 0%nat. by eapply (Thread_step _ 0 s [l] l), (next_step 0).
    + by destruct l; rewrite ?En in E.
  - destruct l; try done; by injection E as <- <-.
Qed.

(** ** What a call does *)

Context (Hsize : 2 ≤ SIZE).

(** No call is running: the slots of the elements hold them, and the other ones wait for the next positions. *)
Definition quiet s (n : Z) (items : list A) : Prop :=
  Z.of_nat (length (slots s)) = SIZE ∧ 0 ≤ read_pos s ∧ write_pos s = n ∧
  n = read_pos s + Z.of_nat (length items) ∧ n ≤ read_pos s + SIZE ∧
  ∀ pos, read_pos s ≤ pos < read_pos s + SIZE →
    ∃ sl, slot s pos = Some sl ∧
      if pos <? n then sequence sl = pos + 1 ∧ value sl = items !! Z.to_nat (pos - read_pos s) else sequence sl = pos.

Lemma mod_window r p q : r ≤ p < r + SIZE → r ≤ q < r + SIZE → p mod SIZE = q mod SIZE → p = q.
Proof.
  intros Hp Hq Hm. pose proof (Z.div_mod p SIZE ltac:(lia)) as Ep. pose proof (Z.div_mod q SIZE ltac:(lia)) as Eq.
  rewrite Hm in Ep. assert (p / SIZE = q / SIZE) as Ed by nia. congruence.
Qed.

Lemma slot_insert s p0 sl pos :
  Z.of_nat (length (slots s)) = SIZE →
  slot (set_slot s p0 sl) pos = if pos mod SIZE =? p0 mod SIZE then Some sl else slot s pos.
Proof.
  intros Hl. unfold MpmcQueue.slot, MpmcQueue.set_slot. cbn [slots].
  pose proof (Z.mod_pos_bound pos SIZE). pose proof (Z.mod_pos_bound p0 SIZE).
  destruct (Z.eqb_spec (pos mod SIZE) (p0 mod SIZE)) as [->|Hne].
  - apply list_lookup_insert_eq. lia.
  - apply list_lookup_insert_ne. lia.
Qed.

Lemma try_push_ok s n items v :
  quiet s n items → n + SIZE < 2 ^ 64 → Z.of_nat (length items) < SIZE →
  ∃ s', try_push s v = Ret (s', Ok tt) ∧ quiet s' (n + 1) (items ++ [v]).
Proof.
  intros (Hl & Hr & Hw & Hn & Hcap & Hs) Hlim Hlen.
  destruct (Hs n) as (sl & Hsl & Hseq); [lia|]. rewrite Z.ltb_irrefl in Hseq.
  set (sl1 := Slot.write_value sl v). set (s1 := set_slot (MpmcQueue.set_write s (n + 1)) n sl1).
  assert (slot s1 n = Some sl1) as Hsl1 by (unfold s1; rewrite slot_insert, Z.eqb_refl by done; done).
  exists (set_slot s1 n (Slot.write_sequence sl1 n)). split.
  - unfold try_push, CALL_STEPS. cbn [call next mbind option_bind]. rewrite Hw. cbn [call next mbind option_bind].
    rewrite Hsl. cbn [call next mbind option_bind]. rewrite Hseq, Z.eqb_refl. cbn [call next mbind option_bind]. rewrite Hw, Z.eqb_refl.
    rewrite (proj2 (Z.leb_gt _ _)) by lia. cbn [call next mbind option_bind].
    change (slot (MpmcQueue.set_write s (n + 1)) n) with (slot s n). rewrite Hsl. cbn [call next mbind option_bind].
    fold sl1 s1. rewrite Hsl1. done.
  - split_and!; cbn; rewrite ?length_insert, ?length_app; cbn [length]; try lia.
    intros pos Hpos. cbn in Hpos. fold s1. rewrite slot_insert by (cbn; by rewrite length_insert).
    destruct (Z.eqb_spec (pos mod SIZE) (n mod SIZE)) as [Hm|Hm].
    + apply (mod_window (read_pos s)) in Hm as ->; [|lia..]. eexists. split; [done|].
      rewrite (proj2 (Z.ltb_lt _ _)) by lia. split; [done|]. cbn.
      rewrite lookup_app_r by lia. by replace (_ - _)%nat with 0%nat by lia.
    + unfold s1. rewrite slot_insert by done. rewrite (proj2 (Z.eqb_neq _ _)) by done.
      destruct (Hs pos Hpos) as (sl' & Hsl' & Hc). exists sl'. split; [done|].
      assert (pos ≠ n) by congruence.
      destruct (Z.ltb_spec pos n), (Z.ltb_spec pos (n + 1)); try lia.
      rewrite lookup_app_l by (cbn; lia). done.
Qed.

Lemma try_push_full s n items v :
  quiet s n items → Z.of_nat (length items) = SIZE → try_push s v = Ret (s, Err v).
Proof.
  intros (Hl & Hr & Hw & Hn & Hcap & Hs) Hlen.
  destruct (Hs (read_pos s)) as (sl & Hsl & Hseq); [lia|].
  rewrite (proj2 (Z.ltb_lt _ _)) in Hseq by lia. destruct Hseq as [Hseq _].
  assert (slot s n = Some sl) as Hsl'.
  { rewrite <- Hsl. unfold MpmcQueue.slot. replace n with (read_pos s + 1 * SIZE) by lia. by rewrite Z.mod_add by lia. }
  unfold try_push, CALL_STEPS. cbn [call next mbind option_bind]. rewrite Hw. cbn [call next mbind option_bind]. rewrite Hsl'. cbn [call next mbind option_bind].
  rewrite (proj2 (Z.eqb_neq _ _)), (proj2 (Z.ltb_lt _ _)) by lia. done.
Qed.

Lemma pop_empty s n : quiet s n [] → n + SIZE < 2 ^ 64 → pop s = Ret (s, None).
Proof.
  intros (Hl & Hr & Hw & Hn & Hcap & Hs) Hlim. cbn in Hn.
  destruct (Hs (read_pos s)) as (sl & Hsl & Hseq); [lia|]. rewrite (proj2 (Z.ltb_ge _ _)) in Hseq by lia.
  unfold pop, CALL_STEPS. cbn [call next mbind option_bind]. rewrite (proj2 (Z.leb_gt _ _)) by lia.
  rewrite Hsl. cbn [call next mbind option_bind].
  rewrite (proj2 (Z.eqb_neq _ _)), (proj2 (Z.ltb_lt _ _)) by lia. done.
Qed.

Lemma pop_ok s n v items :
  quiet s n (v :: items) → n + SIZE < 2 ^ 64 → ∃ s', pop s = Ret (s', Some v) ∧ quiet s' n items.
Proof.
  intros (Hl & Hr & Hw & Hn & Hcap & Hs) Hlim. cbn in Hn. set (r := read_pos s) in *.
  destruct (Hs r) as (sl & Hsl & Hseq); [lia|]. rewrite (proj2 (Z.ltb_lt _ _)) in Hseq by lia.
  destruct Hseq as [Hseq Hv]. rewrite Z.sub_diag in Hv. change (value sl = Some v) in Hv.
  exists (set_slot (MpmcQueue.set_read s (r + 1)) r (Slot.read_sequence SIZE sl r)). split.
  - unfold pop, CALL_STEPS. cbn [call next mbind option_bind]. fold r. rewrite (proj2 (Z.leb_gt _ _)) by lia.
    rewrite Hsl. cbn [call next mbind option_bind]. rewrite Hseq, Z.eqb_refl. cbn [call next mbind option_bind]. fold r.
    rewrite Z.eqb_refl. cbn [call next mbind option_bind].
    change (slot (MpmcQueue.set_read s (r + 1)) r) with (slot s r). rewrite Hsl. cbn [call next mbind option_bind]. rewrite Hv. cbn [call next mbind option_bind]. rewrite (proj2 (Z.leb_gt _ _)) by lia.
    change (slot (MpmcQueue.set_read s (r + 1)) r) with (slot s r). by rewrite Hsl.
  - split_and!; cbn; rewrite ?length_insert; try lia.
    intros pos Hpos. cbn in Hpos. rewrite slot_insert by done.
    destruct (Z.eqb_spec (pos mod SIZE) (r mod SIZE)) as [Hm|Hm].
    + assert (pos = r + SIZE) as ->.
      { apply (mod_window (r + 1)); [lia..|]. rewrite Hm. symmetry.
        rewrite <- (Z.mod_add r 1 SIZE) by lia. f_equal. lia. }
      eexists. split; [done|]. by rewrite (proj2 (Z.ltb_ge _ _)) by lia.
    + assert (pos ≠ r + SIZE) as Hne.
      { intros ->. destruct Hm. rewrite <- (Z.mod_add r 1 SIZE) by lia. f_equal. lia. }
      destruct (Hs pos ltac:(lia)) as (sl' & Hsl' & Hc). exists sl'. split; [done|].
      destruct (pos <? n); [|done]. destruct Hc as [-> ->]. split; [done|].
      by replace (Z.to_nat (pos - r)) with (S (Z.to_nat (pos - (r + 1)))) by lia.
Qed.

Lemma quiet_empty : quiet (empty_queue SIZE) 0 [].
Proof.
  split_and!; cbn; rewrite ?length_fmap, ?length_seqZ; try lia. intros pos Hpos.
  exists (Slot.new pos). unfold MpmcQueue.slot. cbn [slots empty_queue]. rewrite Z.mod_small by lia.
  rewrite list_lookup_fmap, lookup_seqZ_lt by lia. cbn. rewrite Z2Nat.id by lia.
  split; [done|]. by rewrite (proj2 (Z.ltb_ge _ _)) by lia.
Qed.

(** The queue with two slots or more is a bounded queue until its positions come near the end of the words. *)
#[refine] Definition mpmc_bounded : BoundedQueue (MpmcQueue A) A := {|
  bq_capacity := SIZE;
  bq_limit := 2 ^ 64 - SIZE;
  bq_try_push := try_push;
  bq_pop := pop;
  bq_rel := quiet;
|}.
Proof.
  - intros s n items v Hq Hlim. destruct (Z.ltb_spec (Z.of_nat (length items)) SIZE) as [Hlt|Hge].
    + apply try_push_ok; [done | lia | done].
    + eapply try_push_full; [done|]. destruct Hq as (_ & _ & _ & ? & ? & _). lia.
  - intros s n [|v items] Hq Hlim; [eapply pop_empty | eapply pop_ok]; (done || lia).
Defined.

End calls.
