(* ===== verification/Mpsc.v ===== *)
(** * The intrusive queue for many producers and one consumer

    [hyperdrive/src/queues/mpsc.rs].  Elements are numbers that stand for pointers:
    [links] has their links and [handles] says which of them the callers own.  Each
    constructor of [step] is one access of a thread to the shared queue. *)

From S2P Require Import Prelude Threads.

Record MpscQueue := mkMpsc {
  head : nat;
  tail : nat;
  being_dequeued : bool;
  stub : nat;
  links : list (option nat);
  handles : list bool
}.

(** Where a thread is. *)
Inductive qpc : Set :=
| QIdle
| EnqLink (e : nat)          (** [enqueue_ptr], before the link of [e] is cleared *)
| EnqSwap (e : nat)          (** before [head.swap] *)
| EnqStore (e p : nat)       (** before the link of the previous element [p] is set *)
| DeqCas (retry : bool)      (** [try_dequeue] before the [compare_exchange]; [dequeue] retries *)
| DeqTail                    (** [dequeue_impl], before [tail.load] *)
| DeqNext (t : nat)          (** before the link of [t] is read *)
| DeqSkip (n : nat)          (** the tail is the stub: before [tail.store(next)] *)
| DeqNext2 (t : nat)         (** before the link of the element after the stub is read *)
| DeqStore (t n : nat)       (** before [tail.store(next)]; [t] will be returned *)
| DeqPush (t : nat)          (** before the link of the stub is cleared *)
| DeqSwap (t : nat)          (** before [head.swap(stub)] *)
| DeqLink (t p : nat)        (** before the link of [p] is set to the stub *)
| DeqSpin (t : nat)          (** in the loop that waits for the link of [t] *)
| DeqRelease (o : option nat)(** before [being_dequeued.store(false)] *)
| DeqDone (o : option nat).  (** [dequeue] returns [o] *)

Module MpscQueue.

(** The stub has the number 0, and the callers own [n] more elements. *)
Definition new (n : nat) : MpscQueue :=
  mkMpsc 0 0 false 0 (replicate (S n) None) (false :: replicate n true).

Definition set_head (s : MpscQueue) (h : nat) : MpscQueue :=
  mkMpsc h (tail s) (being_dequeued s) (stub s) (links s) (handles s).
Definition set_tail (s : MpscQueue) (t : nat) : MpscQueue :=
  mkMpsc (head s) t (being_dequeued s) (stub s) (links s) (handles s).
Definition set_flag (s : MpscQueue) (b : bool) : MpscQueue :=
  mkMpsc (head s) (tail s) b (stub s) (links s) (handles s).
Definition set_link (s : MpscQueue) (e : nat) (n : option nat) : MpscQueue :=
  mkMpsc (head s) (tail s) (being_dequeued s) (stub s) (<[e := n]> (links s)) (handles s).
Definition set_handle (s : MpscQueue) (e : nat) (b : bool) : MpscQueue :=
  mkMpsc (head s) (tail s) (being_dequeued s) (stub s) (links s) (<[e := b]> (handles s)).

(** [dequeue_impl] once the element [t] and its link [next] are known. *)
Definition found (t : nat) (next : option nat) : qpc :=
  match next with Some n => DeqStore t n | None => DeqPush t end.

Inductive step : nat → MpscQueue → qpc → MpscQueue → qpc → Prop :=
(** [enqueue] and [enqueue_ptr] *)
| Enq_call i s e : handles s !! e = Some true → step i s QIdle (set_handle s e false) (EnqLink e)
| Enq_link i s e : step i s (EnqLink e) (set_link s e None) (EnqSwap e)
| Enq_swap i s e : step i s (EnqSwap e) (set_head s e) (EnqStore e (head s))
| Enq_store i s e p : step i s (EnqStore e p) (set_link s p (Some e)) QIdle
(** [dequeue] and [try_dequeue] *)
| Deq_call i s retry : step i s QIdle s (DeqCas retry)
| Deq_retry i s : being_dequeued s = true → step i s (DeqCas true) s (DeqCas true)
| Deq_in_use i s : being_dequeued s = true → step i s (DeqCas false) s QIdle
| Deq_cas i s retry : being_dequeued s = false → step i s (DeqCas retry) (set_flag s true) DeqTail
(** [dequeue_impl] *)
| Deq_tail i s : step i s DeqTail s (DeqNext (tail s))
| Deq_empty i s t :
    t = stub s → links s !! t = Some None → step i s (DeqNext t) s (DeqRelease None)
| Deq_stub i s t n :
    t = stub s → links s !! t = Some (Some n) → step i s (DeqNext t) s (DeqSkip n)
| Deq_skip i s n : step i s (DeqSkip n) (set_tail s n) (DeqNext2 n)
| Deq_next i s t next :
    t ≠ stub s → links s !! t = Some next → step i s (DeqNext t) s (found t next)
| Deq_next2 i s t next : links s !! t = Some next → step i s (DeqNext2 t) s (found t next)
| Deq_store i s t n : step i s (DeqStore t n) (set_tail s n) (DeqRelease (Some t))
| Deq_push i s t : step i s (DeqPush t) (set_link s (stub s) None) (DeqSwap t)
| Deq_swap i s t : step i s (DeqSwap t) (set_head s (stub s)) (DeqLink t (head s))
| Deq_link i s t p : step i s (DeqLink t p) (set_link s p (Some (stub s))) (DeqSpin t)
| Deq_spin i s t : links s !! t = Some None → step i s (DeqSpin t) s (DeqSpin t)
| Deq_linked i s t n : links s !! t = Some (Some n) → step i s (DeqSpin t) s (DeqStore t n)
| Deq_release i s o : step i s (DeqRelease o) (set_flag s false) (DeqDone o)
| Deq_return i s o :
    step i s (DeqDone o) (match o with Some t => set_handle s t true | None => s end) QIdle.

(** [is_empty] *)
Definition is_empty (s : MpscQueue) : bool :=
  (tail s =? stub s)%nat && match links s !! tail s with Some None => true | _ => false end.

(** [Drop]: the elements dropped, in order. *)
Fixpoint drop_loop (fuel : nat) (s : MpscQueue) (current : option nat) : option (list nat) :=
  match current, fuel with
  | None, _ => Some []
  | Some _, O => None
  | Some node, S n =>
      match links s !! node with
      | None => None
      | Some next =>
          match drop_loop n s next with
          | None => None
          | Some rest => Some (if (node =? stub s)%nat then rest else node :: rest)
          end
      end
  end.

Definition drop (s : MpscQueue) : option (list nat) :=
  match drop_loop (length (links s)) s (Some (tail s)) with
  | None => None
  | Some rest => Some (rest ++ [stub s])
  end.

End MpscQueue.

(** ** The stub can be handed out *)

(** One producer and one consumer are enough.  The consumer finds that the element 1
    is the last one and is about to insert the stub; the producer enqueues 2 and is
    between the two writes of the enqueue of 3 when the stub gets in behind 3.  The
    next call of [dequeue] finds 2 without a successor and inserts the stub, which is
    still in the queue and now points to itself.  After two more calls [dequeue]
    returns the stub as if it were an element. *)
Lemma mpsc_returns_stub :
  ∃ s, reachable MpscQueue.step (MpscQueue.new 3) QIdle 2
         (s, [QIdle; DeqDone (Some (stub s))]).
Proof.
  exists (mkMpsc 0 0 false 0 [Some 0%nat; Some 2%nat; Some 3%nat; Some 0%nat] [false; true; true; true]).
  unfold reachable. cbn.
  (* 1 is enqueued *)
  run 0%nat (λ i s, MpscQueue.Enq_call i s 1). run 0%nat MpscQueue.Enq_link.
  run 0%nat MpscQueue.Enq_swap. run 0%nat MpscQueue.Enq_store.
  (* the first call of dequeue finds 1 *)
  run 1%nat (λ i s, MpscQueue.Deq_call i s true). run 1%nat MpscQueue.Deq_cas. run 1%nat MpscQueue.Deq_tail.
  run 1%nat (λ i s t, MpscQueue.Deq_stub i s t 1). run 1%nat MpscQueue.Deq_skip.
  run 1%nat MpscQueue.Deq_next2.
  (* 2 is enqueued, 3 only swapped in *)
  run 0%nat (λ i s, MpscQueue.Enq_call i s 2). run 0%nat MpscQueue.Enq_link.
  run 0%nat MpscQueue.Enq_swap. run 0%nat MpscQueue.Enq_store.
  run 0%nat (λ i s, MpscQueue.Enq_call i s 3). run 0%nat MpscQueue.Enq_link. run 0%nat MpscQueue.Enq_swap.
  (* the stub goes behind 3, and 1 is returned *)
  run 1%nat MpscQueue.Deq_push. run 1%nat MpscQueue.Deq_swap. run 1%nat MpscQueue.Deq_link.
  run 1%nat (λ i s t, MpscQueue.Deq_linked i s t 2). run 1%nat MpscQueue.Deq_store.
  run 1%nat MpscQueue.Deq_release. run 1%nat MpscQueue.Deq_return.
  (* the second call finds 2 without a successor *)
  run 1%nat (λ i s, MpscQueue.Deq_call i s true). run 1%nat MpscQueue.Deq_cas. run 1%nat MpscQueue.Deq_tail.
  run_by 1%nat MpscQueue.Deq_next. run 1%nat MpscQueue.Deq_push.
  run 1%nat MpscQueue.Deq_swap. run 1%nat MpscQueue.Deq_link. run 0%nat MpscQueue.Enq_store.
  run 1%nat (λ i s t, MpscQueue.Deq_linked i s t 3). run 1%nat MpscQueue.Deq_store.
  run 1%nat MpscQueue.Deq_release. run 1%nat MpscQueue.Deq_return.
  (* the third call returns 3 *)
  run 1%nat (λ i s, MpscQueue.Deq_call i s true). run 1%nat MpscQueue.Deq_cas. run 1%nat MpscQueue.Deq_tail.
  run_by 1%nat MpscQueue.Deq_next. run 1%nat MpscQueue.Deq_store.
  run 1%nat MpscQueue.Deq_release. run 1%nat MpscQueue.Deq_return.
  (* the fourth call returns the stub *)
  run 1%nat (λ i s, MpscQueue.Deq_call i s true). run 1%nat MpscQueue.Deq_cas. run 1%nat MpscQueue.Deq_tail.
  run 1%nat (λ i s t, MpscQueue.Deq_stub i s t 0). run 1%nat MpscQueue.Deq_skip.
  run 1%nat (λ i s t, MpscQueue.Deq_next2 i s t (Some 0%nat)). run 1%nat MpscQueue.Deq_store.
  run 1%nat MpscQueue.Deq_release. apply rtc_refl.
Qed.

(** ** The specification: a queue *)

Module Queue.

Inductive event := EPush (e : nat) | EPop (e : nat).

Inductive step : event → list nat → list nat → Prop :=
| Push e q : step (EPush e) q (q ++ [e])
| Pop e q : step (EPop e) (e :: q) q.

End Queue.

(** ** The chain of elements *)

Section proofs.

Implicit Types (s : MpscQueue) (l : qpc) (ls : list qpc) (q : list nat).

Import MpscQueue.

(** [b] comes right after [a]. *)
Definition after q (a b : nat) : Prop := ∃ k, q !! k = Some a ∧ q !! S k = Some b.

(** The link of [a] is not set yet: a producer will do it, and then the stub is not
    behind [a]; or the consumer will set it to the stub. *)
Definition pend s ls (a : nat) q : Prop :=
  match q with
  | [] => True
  | b :: _ =>
      ((∃ i, ls !! i = Some (EnqStore b a)) ∧ stub s ∉ q) ∨
      (b = stub s ∧ ∃ i t, ls !! i = Some (DeqLink t a))
  end.

Definition linked s ls (a : nat) q : Prop :=
  links s !! a = Some (List.hd_error q) ∨ (links s !! a = Some None ∧ pend s ls a q).

Fixpoint chain s ls q : Prop :=
  match q with
  | [] => True
  | a :: q' => linked s ls a q' ∧ chain s ls q'
  end.

(** Control states that the chain depends on. *)
Definition pends l : bool := match l with EnqStore _ _ | DeqLink _ _ => true | _ => false end.

(** The chain does not depend on other elements and other threads. *)
Lemma qchain_frame s s' ls ls' q :
  stub s' = stub s → (∀ a, a ∈ q → links s' !! a = links s !! a) →
  (∀ j l, ls !! j = Some l → pends l = true → ls' !! j = Some l) →
  chain s ls q → chain s' ls' q.
Proof.
  intros Hst Hlk Hls. induction q as [|a q IH]; [done|]. cbn. intros [Ha Hq]. split.
  - unfold linked, pend in *. rewrite Hst, Hlk by left.
    destruct Ha as [?|[? Hp]]; [by left | right]. split; [done|]. destruct q as [|b q]; [done|].
    destruct Hp as [[(i & Hi) Hs]|[-> (i & t & Hi)]]; [left | right]; naive_solver.
  - apply IH; [|done]. intros x Hx. apply Hlk. by right.
Qed.

(** A new element at the end. *)
Lemma qchain_snoc s s' ls ls' q e p i l :
  stub s' = stub s → links s' = links s → last q = Some p → e ∉ q → links s !! e = Some None →
  (∀ j k, ls !! j = Some k → pends k = true → ls' !! j = Some k) → ls' !! i = Some l →
  (l = EnqStore e p ∧ e ≠ stub s) ∨
  (∃ t, l = DeqLink t p ∧ e = stub s ∧ ∀ j x y, ls !! j ≠ Some (EnqStore x y)) →
  chain s ls q → chain s' ls' (q ++ [e]).
Proof.
  intros Hst Hlk Hp He Hn Hls Hi Hl. induction q as [|a q IH]; [done|]. cbn [chain app].
  intros [Ha Hq]. apply not_elem_of_cons in He as [Hea He]. destruct q as [|b q].
  - injection Hp as ->. cbn. unfold linked, pend. rewrite Hlk, Hst. split; [|by auto].
    right. cbn in Ha. split; [by destruct Ha as [?|[? _]]|].
    destruct Hl as [[-> Hne]|(t & -> & -> & _)]; [left | right].
    + split; [by exists i|]. by intros ?%list_elem_of_singleton.
    + split; [done|]. by exists i, t.
  - split; [|by apply IH]. unfold linked, pend in *. rewrite Hlk, Hst. cbn [app List.hd_error] in *.
    destruct Ha as [?|[? Hpd]]; [by left | right]. split; [done|].
    destruct Hpd as [[(j & Hj) Hs]|[-> (j & t & Hj)]].
    + destruct Hl as [[-> Hne]|(t & _ & _ & Hno)]; [left | by destruct (Hno j b a)].
      split; [exists j; by apply Hls|]. change (stub s ∉ (b :: q) ++ [e]).
      rewrite elem_of_app, list_elem_of_singleton. naive_solver.
    + right. split; [done|]. exists j, t. by apply Hls.
Qed.

(** The link of [p] is set to its successor. *)
Lemma chain_set s s' ls ls' q p e :
  stub s' = stub s → NoDup q → after q p e → links s' !! p = Some (Some e) →
  (∀ a, a ≠ p → links s' !! a = links s !! a) →
  (∀ j a b, a ≠ p → ls !! j = Some (EnqStore b a) → ls' !! j = Some (EnqStore b a)) →
  (∀ j a t, a ≠ p → ls !! j = Some (DeqLink t a) → ls' !! j = Some (DeqLink t a)) →
  chain s ls q → chain s' ls' q.
Proof.
  intros Hst Hnd Haf Hp Hlk Hls1 Hls2.
  assert (∀ a x, a ≠ p → linked s ls a x → linked s' ls' a x) as Hother.
  { intros a x Ha. unfold linked, pend. rewrite Hst, Hlk by done.
    intros [?|[? Hpd]]; [by left | right]. split; [done|]. destruct x as [|b x]; [done|].
    destruct Hpd as [[(j & Hj) Hs]|[-> (j & t & Hj)]]; [left | right]; naive_solver. }
  assert (∀ x, p ∉ x → chain s ls x → chain s' ls' x) as Hrest.
  { induction x as [|a x IHx]; [done|]. cbn. intros [Hpa Hpx]%not_elem_of_cons [H1 H2].
    split; [by apply Hother | by apply IHx]. }
  revert Hnd Haf. induction q as [|a q IH]; [by intros _ (k & ? & _)|].
  intros [Haq Hnd]%NoDup_cons (k & Ek & Es) [Ha Hq]. cbn [chain]. destruct k as [|k]; cbn in Ek, Es.
  - injection Ek as ->. split; [|by apply Hrest]. left. rewrite Hp. by destruct q; cbn in *; congruence.
  - assert (a ≠ p) by (intros ->; apply Haq; by apply list_elem_of_lookup_2 in Ek).
    split; [by apply Hother|]. apply IH; [done | by exists k | done].
Qed.

Lemma after_elem q a b : after q a b → a ∈ q ∧ b ∈ q.
Proof. intros (k & ?%list_elem_of_lookup_2 & ?%list_elem_of_lookup_2). done. Qed.

Lemma after_app q a b e : after q a b → after (q ++ [e]) a b.
Proof. intros (k & Ha & Hb). exists k. split; by apply lookup_app_l_Some. Qed.

Lemma after_last q p e : last q = Some p → after (q ++ [e]) p e.
Proof.
  intros Hl. rewrite last_lookup in Hl. apply lookup_lt_Some in Hl as Hlt.
  exists (Nat.pred (length q)). split; [by apply lookup_app_l_Some|].
  replace (S (Nat.pred (length q))) with (length q) by lia. by apply list_lookup_middle.
Qed.

Lemma after_tl t q a b : after (t :: q) a b → a ≠ t → after q a b.
Proof. intros ([|k] & Ha & Hb) Hne; cbn in *; [congruence | by exists k]. Qed.

(** The first element has no predecessor; predecessor and successor are unique. *)
Lemma after_hd t q a : NoDup (t :: q) → ¬ after (t :: q) a t.
Proof. intros Hnd (k & _ & Hb). pose proof (NoDup_lookup _ (S k) 0%nat t Hnd Hb eq_refl). done. Qed.

Lemma after_fun q a b c : NoDup q → after q a b → after q a c → b = c.
Proof.
  intros Hnd (k & Ha & Hb) (k' & Ha' & Hc). pose proof (NoDup_lookup _ _ _ _ Hnd Ha Ha'). congruence.
Qed.

Lemma after_inj q a b c : NoDup q → after q a c → after q b c → a = b.
Proof.
  intros Hnd (k & Ha & Hc) (k' & Hb & Hc'). pose proof (NoDup_lookup _ _ _ _ Hnd Hc Hc'). congruence.
Qed.

(** ** The invariant *)

(** An element that a thread owns and that is not in the queue. *)
Definition loose s q (e : nat) : Prop :=
  (e ∉ q) ∧ e ≠ stub s ∧ handles s !! e = Some false ∧ is_Some (links s !! e).

(** What a thread knows. *)
Definition knows s q l : Prop :=
  match l with
  | EnqLink e => loose s q e
  | EnqSwap e => loose s q e ∧ links s !! e = Some None
  | EnqStore e p => after q p e ∧ links s !! p = Some None ∧ e ≠ stub s
  | DeqNext t => List.hd_error q = Some t
  | DeqSkip n => ∃ q', q = stub s :: n :: q' ∧ links s !! stub s = Some (Some n)
  | DeqNext2 t => List.hd_error q = Some t ∧ t ≠ stub s
  | DeqStore t n => t ≠ stub s ∧ ∃ q', q = t :: n :: q' ∧ links s !! t = Some (Some n)
  | DeqPush t => List.hd_error q = Some t ∧ stub s ∉ q
  | DeqSwap t => List.hd_error q = Some t ∧ (stub s ∉ q) ∧ links s !! stub s = Some None
  | DeqLink t p =>
      List.hd_error q = Some t ∧ t ≠ stub s ∧ after q p (stub s) ∧ links s !! p = Some None
  | DeqSpin t => List.hd_error q = Some t ∧ t ≠ stub s
  | DeqRelease (Some t) | DeqDone (Some t) => loose s q t
  | _ => True
  end.

(** The thread that dequeues. *)
Definition deq l : bool :=
  match l with
  | DeqTail | DeqNext _ | DeqSkip _ | DeqNext2 _ | DeqStore _ _ | DeqPush _ | DeqSwap _
  | DeqLink _ _ | DeqSpin _ | DeqRelease _ => true
  | _ => false
  end.

(** The element a thread owns or is inserting. *)
Definition mine l : option nat :=
  match l with
  | EnqLink e | EnqSwap e | EnqStore e _ => Some e
  | DeqRelease o | DeqDone o => o
  | _ => None
  end.

Definition shape s q : Prop :=
  NoDup q ∧ List.hd_error q = Some (tail s) ∧ last q = Some (head s) ∧
  (∀ e, e ∈ q → is_Some (links s !! e)) ∧ is_Some (links s !! stub s) ∧
  length (links s) = length (handles s) ∧
  (∀ e, handles s !! e = Some true → e ∉ q) ∧ handles s !! stub s = Some false.

Definition mpsc_inv s ls q : Prop :=
  shape s q ∧ chain s ls q ∧
  (∀ i l, ls !! i = Some l → knows s q l) ∧
  (∀ i j l k e, i ≠ j → ls !! i = Some l → ls !! j = Some k → mine l = Some e → mine k ≠ Some e) ∧
  count deq ls = (if being_dequeued s then 1 else 0).

(** ** Preservation *)

Ltac cases_pc k := destruct k as [| | | | | | | | | | | | | | [?|]|[?|]].

Definition flag (b : bool) : Z := if b then 1 else 0.

Lemma inv_step s s' ls q q' i l l' :
  mpsc_inv s ls q → ls !! i = Some l → shape s' q' → chain s' (<[i := l']> ls) q' → knows s' q' l' →
  (∀ j k, j ≠ i → ls !! j = Some k → (deq l = true → deq k = false) → knows s q k → knows s' q' k) →
  (∀ e, mine l' = Some e → mine l = Some e ∨ ∀ j k, j ≠ i → ls !! j = Some k → mine k ≠ Some e) →
  flag (being_dequeued s') = flag (being_dequeued s) - one deq l + one deq l' →
  mpsc_inv s' (<[i := l']> ls) q'.
Proof.
  intros (_ & _ & Hk & Hm & Hc) Hi Hsh Hch Hk' Hoth Hmine Hflag. split_and!; [done | done | | |].
  - intros j k [(<- & <- & _)|[Hij Hj]]%list_lookup_insert_Some; [done|].
    apply (Hoth j k); [done | done | | by apply (Hk j)]. intros Hl.
    destruct (deq k) eqn:Ek; [|done].
    pose proof (count_two deq ls i j l k Hij Hi Hj Hl Ek). destruct (being_dequeued s); lia.
  - intros a b la lb e Hab [(<- & <- & _)|[Hia Ha]]%list_lookup_insert_Some
      [(<- & <- & _)|[Hib Hb]]%list_lookup_insert_Some He; try done.
    + destruct (Hmine e He) as [Hl|Hno]; [by apply (Hm i b l lb) | by apply (Hno b)].
    + intros He'. destruct (Hmine e He') as [Hl|Hno]; [by apply (Hm i a l la e) | by apply (Hno a la)].
    + by apply (Hm a b la lb).
  - rewrite (count_insert deq i l l' ls Hi). unfold flag in Hflag. lia.
Qed.

Lemma chain_local s ls q i l l' :
  chain s ls q → ls !! i = Some l → pends l = false → chain s (<[i := l']> ls) q.
Proof.
  intros Hc Hi Hl. apply (qchain_frame s s ls); try done.
  intros j k Hj Hk. apply list_lookup_insert_Some. right. split; [|done]. intros ->. congruence.
Qed.

(** A step that leaves the queue alone. *)
Lemma mpsc_local s ls q i l l' :
  mpsc_inv s ls q → ls !! i = Some l → pends l = false → knows s q l' →
  (∀ e, mine l' = Some e → mine l = Some e) → deq l' = deq l →
  mpsc_inv s (<[i := l']> ls) q.
Proof.
  intros Hinv Hi Hp Hk Hm Hd. apply (inv_step s s ls q q i l); try done.
  - apply Hinv.
  - apply (chain_local s ls q i l); [apply Hinv | done | done].
  - intros e He. left. by apply Hm.
  - unfold one. rewrite Hd. lia.
Qed.

Lemma inv_flag s ls q i l l' b :
  mpsc_inv s ls q → ls !! i = Some l → pends l = false → knows s q l' →
  (∀ e, mine l' = Some e → mine l = Some e) →
  flag b = flag (being_dequeued s) - one deq l + one deq l' →
  mpsc_inv (set_flag s b) (<[i := l']> ls) q.
Proof.
  intros Hinv Hi Hp Hk Hm Hd. apply (inv_step s (set_flag s b) ls q q i l); try done.
  - apply Hinv.
  - apply (qchain_frame s _ (<[i := l']> ls)); try done.
    apply (chain_local s ls q i l); [apply Hinv | done | done].
  - intros e He. left. by apply Hm.
Qed.

Lemma in_queue_handle s q e : shape s q → e ∈ q → handles s !! e = Some false.
Proof.
  intros (_ & _ & _ & Hin & _ & Hlen & Hh & _) He. destruct (Hin e He) as [x Hx%lookup_lt_Some].
  destruct (lookup_lt_is_Some_2 (handles s) e) as [[] Hb]; [lia | by destruct (Hh e Hb) | done].
Qed.

(** Handles only matter to those who own the element. *)
Lemma shape_handle s q e b :
  shape s q → (e ∉ q) → e ≠ stub s → (e < length (handles s))%nat → shape (set_handle s e b) q.
Proof.
  intros (H1 & H2 & H3 & H4 & H5 & H6 & H7 & H8) He Hst Hlt. split_and!; try done; cbn.
  - by rewrite length_insert.
  - intros x [(<- & _ & _)|[_ Hx]]%list_lookup_insert_Some; [done | by apply H7].
  - by rewrite list_lookup_insert_ne.
Qed.

Lemma inv_call s ls q i e :
  mpsc_inv s ls q → ls !! i = Some QIdle → handles s !! e = Some true →
  mpsc_inv (set_handle s e false) (<[i := EnqLink e]> ls) q.
Proof.
  intros Hinv Hi He. pose proof Hinv as (Hsh & Hc & Hk & Hm & _). apply lookup_lt_Some in He as Hlt.
  pose proof Hsh as (_ & _ & _ & _ & _ & Hlen & Hh & Hst).
  assert (e ∉ q) as Heq by by apply Hh. assert (e ≠ stub s) as Hne by congruence.
  assert (∀ x, loose s q x → loose (set_handle s e false) q x) as Hloose.
  { intros x (H1 & H2 & H3 & H4). split_and!; try done. cbn.
    rewrite list_lookup_insert_ne; [done | congruence]. }
  apply (inv_step s _ ls q q i QIdle); try done.
  - by apply shape_handle.
  - apply (qchain_frame s _ (<[i := EnqLink e]> ls)); try done. by apply (chain_local s ls q i QIdle).
  - split_and!; [done | done | |]; cbn.
    + by apply list_lookup_insert_eq.
    + apply lookup_lt_is_Some_2. lia.
  - intros j k _ _ _. cases_pc k; cbn [knows]; try done; try (by apply Hloose).
    intros [? ?]. split; [by apply Hloose | done].
  - intros x [= <-]. right. intros j k Hj Hjk Hx. specialize (Hk j k Hjk).
    cases_pc k; cbn in Hx; try done; injection Hx as ->; cbn in Hk.
    + destruct Hk as (_ & _ & ? & _). congruence.
    + destruct Hk as ((_ & _ & ? & _) & _). congruence.
    + destruct Hk as (Ha & _). by apply after_elem in Ha as [_ ?].
    + destruct Hk as (_ & _ & ? & _). congruence.
    + destruct Hk as (_ & _ & ? & _). congruence.
  - cbn. lia.
Qed.

(** A link of an element outside of the queue is cleared. *)
Lemma clear_link s q e :
  shape s q → (e ∉ q) → is_Some (links s !! e) → shape (set_link s e None) q.
Proof.
  intros (H1 & H2 & H3 & H4 & H5 & H6 & H7 & H8) He [x Hx]. apply lookup_lt_Some in Hx as Hlt.
  split_and!; try done; cbn.
  - intros y Hy. rewrite list_lookup_insert_ne by (by intros ->). by apply H4.
  - destruct (decide (e = stub s)) as [->|]; [by rewrite list_lookup_insert_eq | by rewrite list_lookup_insert_ne].
  - by rewrite length_insert.
Qed.

Lemma clear_link_knows s q e k :
  (e ∉ q) → is_Some (links s !! e) → (e = stub s → deq k = false) →
  knows s q k → knows (set_link s e None) q k.
Proof.
  intros He [x Hx] Hst. apply lookup_lt_Some in Hx as Hlt.
  assert (∀ y, y ∈ q → links (set_link s e None) !! y = links s !! y) as Hq.
  { intros y Hy. cbn. apply list_lookup_insert_ne. by intros ->. }
  assert (∀ y, links s !! y = Some None → links (set_link s e None) !! y = Some None) as Hn.
  { intros y Hy. cbn. destruct (decide (e = y)) as [->|]; [by rewrite list_lookup_insert_eq|].
    by rewrite list_lookup_insert_ne. }
  assert (∀ y, loose s q y → loose (set_link s e None) q y) as Hloose.
  { intros y (H1 & H2 & H3 & [z Hz]). split_and!; try done. cbn. destruct (decide (e = y)) as [->|].
    - by rewrite list_lookup_insert_eq.
    - rewrite list_lookup_insert_ne by done. by exists z. }
  cases_pc k; cbn [knows]; try done; try (by apply Hloose).
  - intros [? ?]. split; [by apply Hloose | by apply Hn].
  - intros (? & ? & ?). split_and!; [done | by apply Hn | done].
  - intros (q' & -> & Hl). exists q'. split; [done|]. change (stub (set_link s e None)) with (stub s).
    rewrite Hq; [done | left].
  - intros (Hne & q' & -> & Hl). split; [done|]. exists q'. split; [done|]. rewrite Hq; [done | left].
  - intros (? & ? & ?). split_and!; [done | done | by apply Hn].
  - intros (? & ? & ? & ?). split_and!; [done | done | done | by apply Hn].
Qed.

Lemma inv_clear s ls q i l l' e :
  mpsc_inv s ls q → ls !! i = Some l → pends l = false → (e ∉ q) → is_Some (links s !! e) →
  (e = stub s → deq l = true) → knows (set_link s e None) q l' →
  (∀ x, mine l' = Some x → mine l = Some x) → deq l' = deq l →
  mpsc_inv (set_link s e None) (<[i := l']> ls) q.
Proof.
  intros Hinv Hi Hp He Hs Hst Hk Hm Hd. pose proof Hinv as (Hsh & Hc & _).
  apply (inv_step s _ ls q q i l); try done.
  - by apply clear_link.
  - apply (qchain_frame s _ (<[i := l']> ls)); try done; [|by apply (chain_local s ls q i l)].
    intros a Ha. cbn. apply list_lookup_insert_ne. by intros ->.
  - intros j k Hj Hjk Hdk. apply clear_link_knows; [done | done |]. intros E. apply Hdk. by apply Hst.
  - intros x Hx. left. by apply Hm.
  - cbn. unfold one. rewrite Hd. lia.
Qed.

Lemma loose_app s s' q e x :
  stub s' = stub s → handles s' = handles s → links s' = links s → x ≠ e →
  loose s q x → loose s' (q ++ [e]) x.
Proof.
  intros Hs Hh Hl Hne (H1 & H2 & H3 & H4). unfold loose. rewrite Hs, Hh, Hl. split_and!; try done.
  rewrite elem_of_app, list_elem_of_singleton. naive_solver.
Qed.

(** What the others know when [e] is appended. *)
Lemma append_knows s s' q e k :
  stub s' = stub s → handles s' = handles s → links s' = links s → tail s' = tail s →
  shape s q → mine k ≠ Some e → (e = stub s → deq k = false) →
  knows s q k → knows s' (q ++ [e]) k.
Proof.
  intros Hs Hh Hl Ht (_ & Hhd & _) Hm Hst.
  assert (∀ x, mine k = Some x → loose s q x → loose s' (q ++ [e]) x) as Hloose.
  { intros x Hx. apply loose_app; try done. congruence. }
  assert (∀ t, List.hd_error q = Some t → List.hd_error (q ++ [e]) = Some t) as Hhd' by by destruct q.
  assert (deq k = true → (stub s ∉ q) → stub s ∉ q ++ [e]) as Hnin.
  { intros Hd Hq. rewrite elem_of_app, list_elem_of_singleton. intros [?| E]; [done|]. by rewrite Hst in Hd. }
  cases_pc k; cbn [knows mine deq] in *; rewrite ?Hs, ?Hl; try done; try (by apply Hloose); try (by apply Hhd').
  - intros [? ?]. split; [by apply Hloose | done].
  - intros (Ha & ?). split; [by apply after_app | done].
  - intros (q' & -> & ?). by exists (q' ++ [e]).
  - intros [? ?]. split; [by apply Hhd' | done].
  - intros (? & q' & -> & ?). split; [done|]. by exists (q' ++ [e]).
  - intros [? ?]. split; [by apply Hhd' | by apply Hnin].
  - intros (? & ? & ?). split_and!; [by apply Hhd' | by apply Hnin | done].
  - intros (? & ? & Ha & ?). split_and!; [by apply Hhd' | done | by apply after_app | done].
  - intros [? ?]. split; [by apply Hhd' | done].
Qed.

Lemma shape_app s q e :
  shape s q → (e ∉ q) → is_Some (links s !! e) → handles s !! e = Some false →
  shape (set_head s e) (q ++ [e]).
Proof.
  intros (H1 & H2 & H3 & H4 & H5 & H6 & H7 & H8) He Hs Hh. split_and!; try done; cbn.
  - apply NoDup_app. split_and!; [done | set_solver | apply NoDup_singleton].
  - by destruct q.
  - by rewrite last_snoc.
  - intros x [Hx| ->%list_elem_of_singleton]%elem_of_app; [by apply H4 | done].
  - intros x Hx [Hq| ->%list_elem_of_singleton]%elem_of_app; [by apply (H7 x) | congruence].
Qed.

Lemma inv_append s ls q i l l' e :
  mpsc_inv s ls q → ls !! i = Some l → pends l = false → (e ∉ q) → links s !! e = Some None →
  handles s !! e = Some false → (∀ j k, j ≠ i → ls !! j = Some k → mine k ≠ Some e) →
  (l' = EnqStore e (head s) ∧ e ≠ stub s ∧ deq l = false ∧ mine l = Some e) ∨
  (∃ t, l' = DeqLink t (head s) ∧ e = stub s ∧ t ≠ stub s ∧ List.hd_error q = Some t ∧ deq l = true ∧
     ∀ j x y, ls !! j ≠ Some (EnqStore x y)) →
  mpsc_inv (set_head s e) (<[i := l']> ls) (q ++ [e]).
Proof.
  intros Hinv Hi Hp He Hlk Hh Hm Hcase. pose proof Hinv as (Hsh & Hc & Hk & _).
  pose proof Hsh as (Hnd & Hhd & Hlast & Hin & _).
  assert (links s !! head s = Some None) as Hlast0.
  { clear - Hc Hlast. induction q as [|a q IH]; [done|]. destruct Hc as [Ha Hc]. destruct q as [|b q].
    - injection Hlast as ->. by destruct Ha as [?|[? _]].
    - by apply IH. }
  assert (<[i := l']> ls !! i = Some l') as Hi'.
  { apply list_lookup_insert_eq. by apply lookup_lt_Some in Hi. }
  apply (inv_step s _ ls q _ i l); try done.
  - by apply shape_app.
  - apply (qchain_snoc s _ ls _ q e (head s) i l'); try done.
    + intros j k Hj Hk'. apply list_lookup_insert_Some. right. split; [|done]. intros ->. congruence.
    + destruct Hcase as [(-> & ? & _)|(t & -> & -> & _ & _ & _ & ?)]; [by left | right]. by exists t.
  - destruct Hcase as [(-> & ? & _)|(t & -> & -> & Ht & Hqt & _)]; cbn.
    + split_and!; [by apply after_last | done | done].
    + split_and!; [by destruct q | done | by apply after_last | done].
  - intros j k Hj Hjk Hdk. apply append_knows; try done; [by apply (Hm j)|]. intros ->.
    destruct Hcase as [(_ & ? & _)|(t & _ & _ & _ & _ & Hd & _)]; [done | by apply Hdk].
  - intros x Hx. destruct Hcase as [(-> & _ & _ & Hml)|(t & -> & _)]; [|done].
    left. cbn in Hx. congruence.
  - cbn. unfold one. destruct Hcase as [(-> & _ & -> & _)|(t & -> & _ & _ & _ & -> & _)]; cbn; lia.
Qed.

(** The link of [p] is set to the element behind it. *)
Lemma set_link_knows s q p e k :
  shape s q → after q p e → links s !! p = Some None → mine k ≠ Some e → deq k = false ∨ e ≠ stub s →
  knows s q k → knows (set_link s p (Some e)) q k.
Proof.
  intros (Hnd & _ & _ & _ & _ & Hlen & _) Haf Hp Hm Hd. apply lookup_lt_Some in Hp as Hlt.
  destruct (after_elem q p e Haf) as [Hpq Heq].
  assert (∀ y, y ≠ p → links (set_link s p (Some e)) !! y = links s !! y) as Hne.
  { intros y Hy. cbn. by apply list_lookup_insert_ne. }
  assert (∀ y, loose s q y → loose (set_link s p (Some e)) q y) as Hloose.
  { intros y (H1 & H2 & H3 & H4). split_and!; try done. rewrite Hne; [done | by intros ->]. }
  cases_pc k; cbn [knows mine deq] in *; try done; try (by apply Hloose).
  - intros [(? & ? & ?) ?]. split; [by apply Hloose|]. rewrite Hne; [done | by intros ->].
  - intros (Ha & Hl & ?). split_and!; [done | | done]. rewrite Hne; [done|]. intros ->.
    by rewrite (after_fun q p e e0) in Hm.
  - intros (q' & -> & Hl). exists q'. split; [done|]. change (stub (set_link s p (Some e))) with (stub s).
    rewrite Hne; [done | congruence].
  - intros (? & q' & -> & Hl). split; [done|]. exists q'. split; [done|]. rewrite Hne; [done | congruence].
  - intros (? & Hs & ?). split_and!; [done | done |]. change (stub (set_link s p (Some e))) with (stub s).
    rewrite Hne; [done | by intros E; rewrite E in Hs].
  - intros (? & ? & Ha & Hl). split_and!; [done | done | done |]. rewrite Hne; [done|]. intros ->.
    destruct Hd as [|Hd]; [done|]. by destruct Hd; apply (after_fun q p).
Qed.

Lemma inv_set_link s ls q i l l' p e :
  mpsc_inv s ls q → ls !! i = Some l → after q p e → links s !! p = Some None →
  (∀ j k, j ≠ i → ls !! j = Some k → mine k ≠ Some e) →
  (l = EnqStore e p ∧ l' = QIdle ∧ e ≠ stub s) ∨
  (∃ t, l = DeqLink t p ∧ l' = DeqSpin t ∧ e = stub s ∧ List.hd_error q = Some t ∧ t ≠ stub s) →
  mpsc_inv (set_link s p (Some e)) (<[i := l']> ls) q.
Proof.
  intros Hinv Hi Haf Hp Hm Hcase. pose proof Hinv as (Hsh & Hc & Hk & _).
  apply lookup_lt_Some in Hp as Hlt. destruct (after_elem q p e Haf) as [Hpq Heq].
  pose proof Hsh as (Hnd & H2 & H3 & H4 & H5 & H6 & H7 & H8).
  apply (inv_step s _ ls q q i l); try done.
  - split_and!; try done; cbn.
    + intros y Hy. destruct (decide (p = y)) as [->|]; [by rewrite list_lookup_insert_eq|].
      rewrite list_lookup_insert_ne by done. by apply H4.
    + destruct (decide (p = stub s)) as [->|]; [by rewrite list_lookup_insert_eq | by rewrite list_lookup_insert_ne].
    + by rewrite length_insert.
  - apply (chain_set s _ ls _ q p e); try done; cbn.
    + by apply list_lookup_insert_eq.
    + intros a Ha. by apply list_lookup_insert_ne.
    + intros j a b Ha Hj. rewrite list_lookup_insert_ne; [done|]. intros ->.
      destruct Hcase as [(-> & _)|(t & -> & _)]; congruence.
    + intros j a t Ha Hj. rewrite list_lookup_insert_ne; [done|]. intros ->.
      destruct Hcase as [(-> & _)|(t' & -> & _)]; congruence.
  - destruct Hcase as [(_ & -> & _)|(t & _ & -> & _ & ? & ?)]; done.
  - intros j k Hj Hjk Hdk. apply set_link_knows; try done; [by apply (Hm j)|].
    destruct Hcase as [(_ & _ & ?)|(t & -> & _)]; [by right | left; by apply Hdk].
  - destruct Hcase as [(_ & -> & _)|(t & _ & -> & _)]; done.
  - cbn. destruct Hcase as [(-> & -> & _)|(t & -> & -> & _)]; cbn; lia.
Qed.

(** The consumer moves on. *)
Lemma advance_knows s q t n k :
  NoDup (t :: n :: q) → deq k = false → links s !! t = Some (Some n) →
  knows s (t :: n :: q) k → knows (set_tail s n) (n :: q) k.
Proof.
  intros Hnd Hd Hl.
  assert (∀ y, loose s (t :: n :: q) y → loose (set_tail s n) (n :: q) y) as Hloose.
  { intros y (H1 & H2 & H3 & H4). split_and!; try done. apply not_elem_of_cons in H1. apply H1. }
  cases_pc k; cbn [knows deq] in *; try done; try (by apply Hloose).
  - intros [? ?]. split; [by apply Hloose | done].
  - intros (Ha & Hp & ?). split_and!; [|done|done]. apply (after_tl t); [done|]. intros ->. cbn in Hp. congruence.
Qed.

Lemma shape_advance s q t n : shape s (t :: n :: q) → shape (set_tail s n) (n :: q).
Proof.
  intros (H1 & H2 & H3 & H4 & H5 & H6 & H7 & H8). apply NoDup_cons in H1 as [H0 H1].
  split_and!; try done; cbn.
  - intros e He. apply H4. by right.
  - intros e He Hq. apply (H7 e He). by right.
Qed.

Lemma inv_advance s ls q i l l' t n :
  mpsc_inv s ls (t :: n :: q) → ls !! i = Some l → deq l = true → links s !! t = Some (Some n) →
  pends l = false → deq l' = true → knows (set_tail s n) (n :: q) l' →
  (mine l' = None ∨ mine l' = Some t) → mpsc_inv (set_tail s n) (<[i := l']> ls) (n :: q).
Proof.
  intros Hinv Hi Hd Hl Hp Hd' Hk' Hm. pose proof Hinv as (Hsh & Hc & Hk & _). pose proof Hsh as (Hnd & _).
  apply (inv_step s _ ls (t :: n :: q) _ i l); try done.
  - by apply (shape_advance s q t).
  - apply (qchain_frame s _ (<[i := l']> ls)); try done. apply (chain_local s ls _ i l); [by apply Hc | done | done].
  - intros j k Hj Hjk Hdk. apply (advance_knows s q t); [done | by apply Hdk | done].
  - intros e He. right. intros j k Hj Hjk Hmk. assert (e = t) as -> by (destruct Hm; congruence).
    specialize (Hk j k Hjk). cases_pc k; cbn in Hmk; try done; injection Hmk as ->; cbn in Hk.
    + destruct Hk as (Hno & _). apply Hno. left.
    + destruct Hk as ((Hno & _) & _). apply Hno. left.
    + destruct Hk as (Ha & _). by apply (after_hd t (n :: q) p Hnd).
    + destruct Hk as (Hno & _). apply Hno. left.
    + destruct Hk as (Hno & _). apply Hno. left.
  - cbn. unfold one. rewrite Hd, Hd'. lia.
Qed.

Lemma inv_return s ls q i t :
  mpsc_inv s ls q → ls !! i = Some (DeqDone (Some t)) →
  mpsc_inv (set_handle s t true) (<[i := QIdle]> ls) q.
Proof.
  intros Hinv Hi. pose proof Hinv as (Hsh & Hc & Hk & Hm & _). pose proof (Hk i _ Hi) as (Hq & Hst & Hh & _).
  apply lookup_lt_Some in Hh as Hlt.
  assert (∀ j k y, j ≠ i → ls !! j = Some k → mine k = Some y → loose s q y → loose (set_handle s t true) q y) as Hloose.
  { intros j k y Hj Hjk Hy (H1 & H2 & H3 & H4). split_and!; try done. cbn.
    rewrite list_lookup_insert_ne; [done|]. intros ->. by apply (Hm j i k _ y Hj Hjk Hi). }
  apply (inv_step s _ ls q q i (DeqDone (Some t))); try done.
  - by apply shape_handle.
  - apply (qchain_frame s _ (<[i := QIdle]> ls)); try done. by apply (chain_local s ls q i (DeqDone (Some t))).
  - intros j k Hj Hjk _. cases_pc k; cbn [knows]; try done; try (by apply (Hloose j _ _ Hj Hjk)).
    intros [? ?]. split; [by apply (Hloose j _ _ Hj Hjk) | done].
  - cbn. lia.
Qed.

(** What the consumer finds at the first element. *)
Lemma first_link s ls q i l t nx :
  mpsc_inv s ls q → ls !! i = Some l → deq l = true → (∀ t' p, l ≠ DeqLink t' p) →
  List.hd_error q = Some t → links s !! t = Some nx →
  match nx with
  | Some n => ∃ q', q = t :: n :: q'
  | None => q = [t] ∨ ((stub s ∉ List.tl q) ∧ ∃ j e, ls !! j = Some (EnqStore e t))
  end.
Proof.
  intros (Hsh & Hc & _ & _ & Hcnt) Hi Hd Hno Hhd Hl. destruct q as [|a q]; [done|]. injection Hhd as ->.
  destruct Hc as [[Hlk|[Hlk Hp]] _]; rewrite Hl in Hlk; injection Hlk as ->.
  - destruct q as [|b q]; [by left | by exists q].
  - destruct q as [|b q]; [by left|]. right. cbn in Hp.
    destruct Hp as [[(j & Hj) Hs]|[-> (j & t' & Hj)]]; [split; [done | by exists j, b]|].
    assert (i ≠ j) as Hij by (intros ->; rewrite Hi in Hj; injection Hj as ->; by destruct (Hno t' t)).
    pose proof (count_two deq ls i j l _ Hij Hi Hj Hd eq_refl). destruct (being_dequeued s); lia.
Qed.

Lemma knows_found s ls q i l t nx :
  mpsc_inv s ls q → ls !! i = Some l → deq l = true → (∀ t' p, l ≠ DeqLink t' p) →
  List.hd_error q = Some t → t ≠ stub s → links s !! t = Some nx → knows s q (found t nx).
Proof.
  intros Hinv Hi Hd Hno Hhd Hst Hl. pose proof (first_link s ls q i l t nx Hinv Hi Hd Hno Hhd Hl) as Hf.
  destruct nx as [n|]; cbn.
  - split; [done|]. destruct Hf as (q' & ->). by exists q'.
  - split; [done|]. destruct Hf as [->|[Hs _]].
    + by intros ?%list_elem_of_singleton.
    + destruct q as [|a q]; [done|]. injection Hhd as ->. rewrite elem_of_cons. naive_solver.
Qed.

(** ** The simulation *)

(** The elements in the queue. *)
Definition items s q : list nat := filter (λ e, e ≠ stub s) q.

Definition event_of (l l' : qpc) : option Queue.event :=
  match l, l' with
  | EnqSwap e, EnqStore _ _ => Some (Queue.EPush e)
  | DeqStore t _, DeqRelease _ => Some (Queue.EPop t)
  | _, _ => None
  end.

Definition mpsc_rel (c : MpscQueue * list qpc) (a : list nat) : Prop :=
  ∃ q, mpsc_inv c.1 c.2 q ∧ a = items c.1 q.

(** No producer is between its two writes when the consumer inserts the stub. *)
Definition careful (i : nat) (c : MpscQueue * list qpc) : Prop :=
  ∀ t, c.2 !! i = Some (DeqSwap t) → ∀ j e p, c.2 !! j ≠ Some (EnqStore e p).

Definition careful_step (c c' : MpscQueue * list qpc) : Prop :=
  ∃ i, thread_step step i c c' ∧ careful i c.

Lemma mine_unique s ls q i l e :
  mpsc_inv s ls q → ls !! i = Some l → mine l = Some e →
  ∀ j k, j ≠ i → ls !! j = Some k → mine k ≠ Some e.
Proof. intros (_ & _ & _ & Hm & _) Hi He j k Hj Hjk. by apply (Hm i j l k e (not_eq_sym Hj)). Qed.

(** No thread owns the stub. *)
Lemma stub_unowned s ls q j k : mpsc_inv s ls q → ls !! j = Some k → mine k ≠ Some (stub s).
Proof.
  intros (_ & _ & Hk & _) Hj Hm. specialize (Hk j k Hj).
  cases_pc k; cbn in Hm, Hk; try done; injection Hm as ->.
  - by destruct Hk as (_ & ? & _).
  - by destruct Hk as ((_ & ? & _) & _).
  - by destruct Hk as (_ & _ & ?).
  - by destruct Hk as (_ & ? & _).
  - by destruct Hk as (_ & ? & _).
Qed.

Lemma sim_enqueue s ls q i e :
  mpsc_inv s ls q → ls !! i = Some (EnqSwap e) →
  Queue.step (Queue.EPush e) (items s q) (items s (q ++ [e])) ∧
  mpsc_inv (set_head s e) (<[i := EnqStore e (head s)]> ls) (q ++ [e]).
Proof.
  intros Hinv Hi. pose proof Hinv as (_ & _ & Hk & _). pose proof (Hk i _ Hi) as ((Hq & Hst & Hh & _) & Hl). split.
  - unfold items. rewrite filter_app, (filter_cons_True _ e []), filter_nil by done. constructor.
  - apply (inv_append s ls q i (EnqSwap e)); try done; [by apply (mine_unique s ls q i (EnqSwap e))|]. left. done.
Qed.

Lemma sim_stub s ls q i t :
  mpsc_inv s ls q → ls !! i = Some (DeqSwap t) → (∀ j e p, ls !! j ≠ Some (EnqStore e p)) →
  items s (q ++ [stub s]) = items s q ∧
  mpsc_inv (set_head s (stub s)) (<[i := DeqLink t (head s)]> ls) (q ++ [stub s]).
Proof.
  intros Hinv Hi Hno. pose proof Hinv as (Hsh & _ & Hk & _). pose proof (Hk i _ Hi) as (Hhd & Hst & Hl). split.
  - unfold items. rewrite filter_app, (filter_cons_False _ (stub s) []), filter_nil, app_nil_r by naive_solver. done.
  - apply (inv_append s ls q i (DeqSwap t)); try done.
    + by destruct Hsh as (_ & _ & _ & _ & _ & _ & _ & ?).
    + intros j k _ Hj. by apply (stub_unowned s ls q j).
    + right. exists t. split_and!; try done. intros ->. destruct q; [done|]. injection Hhd as ->. apply Hst. left.
Qed.

(** [enqueue_ptr] and the insertion of the stub, before the swap. *)
Lemma sim_clear s ls q i l l' e :
  mpsc_inv s ls q → ls !! i = Some l →
  (l = EnqLink e ∧ l' = EnqSwap e) ∨ (∃ t, l = DeqPush t ∧ l' = DeqSwap t ∧ e = stub s) →
  mpsc_inv (set_link s e None) (<[i := l']> ls) q.
Proof.
  intros Hinv Hi Hcase. pose proof Hinv as (Hsh & _ & Hk & _). specialize (Hk i l Hi).
  assert ((e ∉ q) ∧ is_Some (links s !! e)) as [Hq [x Hx]].
  { destruct Hcase as [[-> ->]|(t & -> & -> & ->)]; cbn in Hk; [split; apply Hk|].
    split; [apply Hk|]. by destruct Hsh as (_ & _ & _ & _ & ? & _). }
  apply lookup_lt_Some in Hx as Hlt.
  apply (inv_clear s ls q i l); try done;
    destruct Hcase as [[-> ->]|(t & -> & -> & ->)]; cbn [knows pends mine deq] in *; try done.
  - intros ->. by destruct Hk as (_ & ? & _).
  - destruct Hk as (H1 & H2 & H3 & H4). unfold loose. cbn. by rewrite list_lookup_insert_eq.
  - cbn. rewrite list_lookup_insert_eq by done. naive_solver.
Qed.

(** The links are set. *)
Lemma sim_store s ls q i l l' p e :
  mpsc_inv s ls q → ls !! i = Some l →
  (l = EnqStore e p ∧ l' = QIdle) ∨ (∃ t, l = DeqLink t p ∧ l' = DeqSpin t ∧ e = stub s) →
  mpsc_inv (set_link s p (Some e)) (<[i := l']> ls) q.
Proof.
  intros Hinv Hi Hcase. pose proof Hinv as (Hsh & _ & Hk & _). specialize (Hk i l Hi).
  destruct Hcase as [[-> ->]|(t & -> & -> & ->)]; cbn in Hk.
  - apply (inv_set_link s ls q i (EnqStore e p)); try done; try apply Hk; [by apply (mine_unique s ls q i (EnqStore e p))|].
    left. split_and!; try done. apply Hk.
  - apply (inv_set_link s ls q i (DeqLink t p)); try done; try apply Hk; [intros j k _ Hj; by apply (stub_unowned s ls q j)|].
    right. exists t. split_and!; try done; apply Hk.
Qed.

(** The consumer skips the stub, or takes an element. *)
Lemma sim_skip s ls q i n :
  mpsc_inv s ls q → ls !! i = Some (DeqSkip n) →
  ∃ q', items s q' = items s q ∧ mpsc_inv (set_tail s n) (<[i := DeqNext2 n]> ls) q'.
Proof.
  intros Hinv Hi. pose proof Hinv as ((Hnd & _) & _ & Hk & _).
  destruct (Hk i _ Hi) as (q' & -> & Hl). exists (n :: q'). split.
  - unfold items. by rewrite (filter_cons_False _ (stub s)) by naive_solver.
  - apply (inv_advance s ls q' i (DeqSkip n) _ (stub s)); try done; [|by left].
    split; [done|]. cbn. apply NoDup_cons in Hnd as [Hs _]. intros ->. apply Hs. left.
Qed.

Lemma sim_take s ls q i t n :
  mpsc_inv s ls q → ls !! i = Some (DeqStore t n) →
  ∃ q', Queue.step (Queue.EPop t) (items s q) (items s q') ∧
    mpsc_inv (set_tail s n) (<[i := DeqRelease (Some t)]> ls) q'.
Proof.
  intros Hinv Hi. pose proof Hinv as (Hsh & _ & Hk & _). destruct (Hk i _ Hi) as (Hst & q' & -> & Hl).
  exists (n :: q'). split.
  - unfold items. rewrite (filter_cons_True _ t) by done. constructor.
  - apply (inv_advance s ls q' i (DeqStore t n) _ t); try done; [|by right].
    pose proof (in_queue_handle s _ t Hsh ltac:(left)) as Hh. destruct Hsh as ([Ht _]%NoDup_cons & _).
    by split_and!.
Qed.

Lemma mpsc_simulation i c c' a l l' :
  mpsc_rel c a → thread_step step i c c' → careful i c → c.2 !! i = Some l → c'.2 !! i = Some l' →
  match event_of l l' with
  | Some e => ∃ a', Queue.step e a a' ∧ mpsc_rel c' a'
  | None => mpsc_rel c' a
  end.
Proof.
  intros (q & Hinv & ->) Hs Hcare Hl Hl'. destruct c as [s ls]. cbn [fst snd] in *.
  apply thread_step_inv in Hs as (k & s' & k' & Hk & Hs & ->). cbn [snd] in Hl'.
  rewrite Hk in Hl. injection Hl as ->.
  rewrite list_lookup_insert_eq in Hl' by (by apply lookup_lt_Some in Hk). injection Hl' as ->.
  pose proof Hinv as (Hsh & _ & Hkn & _). specialize (Hkn i l Hk).
  destruct Hs as [i s e He|i s e|i s e|i s e p|i s r|i s Hf|i s Hf|i s r Hf|i s|i s t -> Hx|i s t n -> Hx|i s n|i s t nx Ht Hx
    |i s t nx Hx|i s t n|i s t|i s t|i s t p|i s t Hx|i s t n Hx|i s o|i s [t|]]; cbn [event_of].
  - exists q. split; [by apply inv_call | done].
  - exists q. split; [apply (sim_clear s ls q i (EnqLink e)); [done | done | by left] | done].
  - destruct (sim_enqueue s ls q i e Hinv Hk) as [Hst Hinv']. eexists. split; [done|]. by exists (q ++ [e]).
  - exists q. split; [apply (sim_store s ls q i (EnqStore e p)); [done | done | by left] | done].
  - exists q. split; [by apply (mpsc_local s ls q i QIdle) | done].
  - exists q. split; [by rewrite list_insert_id | done].
  - exists q. split; [by apply (mpsc_local s ls q i (DeqCas false)) | done].
  - exists q. split; [apply (inv_flag s ls q i (DeqCas r)); try done; by rewrite Hf | done].
  - exists q. split; [apply (mpsc_local s ls q i DeqTail); try done; apply Hsh | done].
  - exists q. split; [by apply (mpsc_local s ls q i (DeqNext (stub s))) | done].
  - exists q. split; [|done]. apply (mpsc_local s ls q i (DeqNext (stub s))); try done. cbn in Hkn |- *.
    destruct (first_link s ls q i _ (stub s) (Some n) Hinv Hk) as (q' & ->); try done. by exists q'.
  - destruct (sim_skip s ls q i n Hinv Hk) as (q' & E & Hinv'). exists q'. split; [done | by rewrite <- E].
  - assert (knows s q (found t nx)) by (by apply (knows_found s ls q i (DeqNext t))).
    destruct nx; (exists q; split; [by apply (mpsc_local s ls q i (DeqNext t)) | done]).
  - assert (knows s q (found t nx)) by (apply (knows_found s ls q i (DeqNext2 t)); naive_solver).
    destruct nx; (exists q; split; [by apply (mpsc_local s ls q i (DeqNext2 t)) | done]).
  - destruct (sim_take s ls q i t n Hinv Hk) as (q' & Hst & Hinv'). eexists. split; [done|]. by exists q'.
  - exists q. split; [apply (sim_clear s ls q i (DeqPush t)); [done | done | right; by exists t] | done].
  - destruct (sim_stub s ls q i t Hinv Hk) as [E Hinv']; [by apply (Hcare t)|].
    exists (q ++ [stub s]). split; [done | by rewrite <- E].
  - exists q. split; [apply (sim_store s ls q i (DeqLink t p)); [done | done | right; by exists t] | done].
  - exists q. split; [by rewrite list_insert_id | done].
  - exists q. split; [|done]. apply (mpsc_local s ls q i (DeqSpin t)); try done. destruct Hkn as [Hhd Hst].
    destruct (first_link s ls q i _ t (Some n) Hinv Hk) as (q' & ->); try done. split; [done|]. by exists q'.
  - assert (being_dequeued s = true) as Hb.
    { destruct Hinv as (_ & _ & _ & _ & Hc). pose proof (count_pos deq ls i _ Hk eq_refl).
      destruct (being_dequeued s); [done | lia]. }
    exists q. split; [apply (inv_flag s ls q i (DeqRelease o)); try done; by rewrite Hb | done].
  - exists q. split; [by apply inv_return | done].
  - exists q. split; [by apply (mpsc_local s ls q i (DeqDone None)) | done].
Qed.

Lemma mpsc_init n m : mpsc_rel (new n, replicate m QIdle) [].
Proof.
  exists [0%nat]. split; [|done]. split_and!; cbn.
  - split_and!; try done; cbn; [apply NoDup_singleton | | by rewrite !length_replicate |].
    + intros e He. apply list_elem_of_singleton in He as ->. done.
    + intros [|e] He Hq; [done|]. by apply list_elem_of_singleton in Hq.
  - split; [by left | done].
  - intros i l [-> _]%lookup_replicate_1. done.
  - intros i j l k e _ [-> _]%lookup_replicate_1. done.
  - change (count deq (replicate m QIdle) = 0). by apply count_replicate.
Qed.

Lemma mpsc_reachable n m c :
  rtc careful_step (new n, replicate m QIdle) c →
  ∃ a, rtc (λ a a', ∃ e, Queue.step e a a') [] a ∧ mpsc_rel c a.
Proof.
  intros Hc. assert (∀ c0 a0, rtc careful_step c0 c → mpsc_rel c0 a0 →
    rtc (λ a a', ∃ e, Queue.step e a a') [] a0 → ∃ a, rtc (λ a a', ∃ e, Queue.step e a a') [] a ∧ mpsc_rel c a) as Hgen;
    [|by apply (Hgen _ [] Hc); [apply mpsc_init|]].
  clear Hc. intros c0 a0 Hc. revert a0. induction Hc as [|c1 c2 c3 (i & Hs & Hcare) _ IH]; intros a0 Hrel Ha; [by eauto|].
  destruct c1 as [s ls]. pose proof Hs as (l & s' & l' & Hi & _ & ->)%thread_step_inv.
  pose proof (mpsc_simulation i (s, ls) _ a0 l l' Hrel Hs Hcare Hi) as Hsim.
  cbn [snd] in Hsim. rewrite list_lookup_insert_eq in Hsim by (by apply lookup_lt_Some in Hi).
  specialize (Hsim eq_refl). destruct (event_of l l') as [e|]; [|by apply (IH a0)].
  destruct Hsim as (a' & Hst & Hrel'). apply (IH a'); [done|]. eapply rtc_r; [done | by exists e].
Qed.

(** [Drop] walks the whole chain when nobody uses the queue. *)
Lemma drop_loop_chain s ls q n :
  chain s ls q → (∀ i l, ls !! i = Some l → pends l = false) → (length q ≤ n)%nat →
  drop_loop n s (List.hd_error q) = Some (items s q).
Proof.
  intros Hc Hno. revert n. induction q as [|a q IH]; intros n Hn; [by destruct n|].
  destruct n as [|n]; cbn in Hn; [lia|]. destruct Hc as [Ha Hc]. cbn [List.hd_error drop_loop].
  assert (links s !! a = Some (List.hd_error q)) as ->.
  { destruct Ha as [?|[? Hp]]; [done|]. destruct q as [|b q]; [done|].
    destruct Hp as [[(i & Hi) _]|[_ (i & t & Hi)]]; by apply Hno in Hi. }
  rewrite IH by (done || lia). unfold items. rewrite filter_cons.
  destruct (Nat.eqb_spec a (stub s)), (decide (a ≠ stub s)); done.
Qed.

Lemma mpsc_drop s ls q :
  mpsc_inv s ls q → (∀ i l, ls !! i = Some l → pends l = false) → drop s = Some (items s q ++ [stub s]).
Proof.
  intros ((Hnd & Hhd & _ & Hin & _) & Hc & _) Hno. unfold drop. rewrite <- Hhd.
  rewrite (drop_loop_chain s ls q); [done | done | done |].
  rewrite <- (length_seq (length (links s)) 0). apply submseteq_length, NoDup_submseteq; [done|].
  intros e [x Hx%lookup_lt_Some]%Hin. apply elem_of_seq. lia.
Qed.

End proofs.

(** ** Properties *)

(** C33: the queue implements a FIFO queue for any number of producers and consumers,
    as long as no producer is between its two writes at the moment at which the
    consumer inserts the stub.  Every configuration reached in this way corresponds
    to a state of the specification; the [swap] of [enqueue_ptr] puts the element at
    the end, [dequeue] takes the oldest element, no other step changes the queue,
    and the stub is never returned. *)
Theorem mpsc_refines n m c :
  rtc careful_step (MpscQueue.new n, replicate m QIdle) c →
  ∃ a, rtc (λ a a', ∃ e, Queue.step e a a') [] a ∧ mpsc_rel c a ∧
    (∀ i, c.2 !! i ≠ Some (DeqDone (Some (stub c.1)))) ∧
    ∀ i c' l l', thread_step MpscQueue.step i c c' → careful i c →
      c.2 !! i = Some l → c'.2 !! i = Some l' →
      match event_of l l' with
      | Some e => ∃ a', Queue.step e a a' ∧ mpsc_rel c' a'
      | None => mpsc_rel c' a
      end.
Proof.
  intros Hc. destruct (mpsc_reachable n m c Hc) as (a & Ha & Hrel). exists a. split_and!; [done | done | |].
  - intros i Hi. destruct Hrel as (q & Hinv & _). by apply (stub_unowned _ _ _ _ _ Hinv Hi).
  - intros i c' l l'. by apply mpsc_simulation.
Qed.

(** [dequeue] finds nothing only when the queue is empty or the first element is
    still being linked. *)
Lemma mpsc_empty n m c i :
  rtc careful_step (MpscQueue.new n, replicate m QIdle) c →
  c.2 !! i = Some (DeqNext (stub c.1)) → links c.1 !! stub c.1 = Some None →
  mpsc_rel c [] ∨ ∃ j e, c.2 !! j = Some (EnqStore e (stub c.1)).
Proof.
  intros Hc Hi Hl. destruct (mpsc_reachable n m c Hc) as (a & _ & q & Hinv & ->).
  pose proof Hinv as (_ & _ & Hk & _). specialize (Hk i _ Hi). cbn in Hk.
  destruct (first_link _ _ _ _ _ _ _ Hinv Hi eq_refl ltac:(done) Hk Hl) as [->|[_ Hp]]; [|by right].
  left. exists [stub c.1]. split; [done|]. unfold items. by rewrite filter_cons_False by naive_solver.
Qed.

(** Calls that do not overlap: while a thread is in an operation, all others are outside. *)
Definition alone_step (c c' : MpscQueue * list qpc) : Prop :=
  ∃ i, thread_step MpscQueue.step i c c' ∧ ∀ j l, j ≠ i → c.2 !! j = Some l → l = QIdle.

Lemma alone_careful c c' : alone_step c c' → careful_step c c'.
Proof.
  intros (i & Hs & Hidle). exists i. split; [done|]. intros t Hi j e p Hj.
  destruct (decide (j = i)) as [->|Hne]; [by rewrite Hi in Hj | by apply Hidle in Hj].
Qed.

(** With such calls the queue is a FIFO queue: [enqueue] appends, [dequeue] takes the oldest element, and it finds nothing only
    in an empty queue.  This is what the queues of the scheduler are taken for. *)
Lemma mpsc_calls_fifo n m c :
  rtc alone_step (MpscQueue.new n, replicate m QIdle) c →
  ∃ a, mpsc_rel c a ∧
    (∀ i c' l l', thread_step MpscQueue.step i c c' → (∀ j k, j ≠ i → c.2 !! j = Some k → k = QIdle) →
      c.2 !! i = Some l → c'.2 !! i = Some l' →
      match event_of l l' with
      | Some e => ∃ a', Queue.step e a a' ∧ mpsc_rel c' a'
      | None => mpsc_rel c' a
      end) ∧
    (∀ i, (∀ j k, j ≠ i → c.2 !! j = Some k → k = QIdle) →
      c.2 !! i = Some (DeqNext (stub c.1)) → links c.1 !! stub c.1 = Some None → mpsc_rel c []).
Proof.
  intros Hc. assert (rtc careful_step (MpscQueue.new n, replicate m QIdle) c) as Hcare.
  { apply (rtc_subrel alone_step); [apply alone_careful | done]. }
  destruct (mpsc_reachable n m c Hcare) as (a & _ & Hrel). exists a. split_and!; [done | |].
  - intros i c' l l' Hs Hidle. apply mpsc_simulation; [done | done |]. intros t Hi j e p Hj.
    destruct (decide (j = i)) as [->|Hne]; [by rewrite Hi in Hj | by apply (Hidle j) in Hj].
  - intros i Hidle Hi Hl. destruct (mpsc_empty n m c i Hcare Hi Hl) as [?|(j & e & Hj)]; [done|].
    destruct (decide (j = i)) as [->|Hne]; [by rewrite Hi in Hj | by apply (Hidle j) in Hj].
Qed.

(** ** Examples *)

(** Thread 0 has enqueued the element 1, thread 1 is about to take it. *)
Definition demo_mpsc : MpscQueue * list qpc :=
  (mkMpsc 1 1 true 0 [Some 1%nat; None] [false; false], [QIdle; DeqNext2 1]).

Ltac careful_run i rule := eapply rtc_l;
  [exists i; split; [eapply Thread_step; [reflexivity | eapply rule; reflexivity] | by intros t Ht] | cbn].

Lemma demo_mpsc_reachable : rtc careful_step (MpscQueue.new 1, replicate 2 QIdle) demo_mpsc.
Proof.
  unfold demo_mpsc. cbn.
  careful_run 0%nat (λ i s, MpscQueue.Enq_call i s 1). careful_run 0%nat MpscQueue.Enq_link.
  careful_run 0%nat MpscQueue.Enq_swap. careful_run 0%nat MpscQueue.Enq_store.
  careful_run 1%nat (λ i s, MpscQueue.Deq_call i s true). careful_run 1%nat MpscQueue.Deq_cas.
  careful_run 1%nat MpscQueue.Deq_tail. careful_run 1%nat (λ i s t, MpscQueue.Deq_stub i s t 1).
  careful_run 1%nat MpscQueue.Deq_skip. apply rtc_refl.
Qed.

Lemma mpsc_refines_witness :
  ∃ a, rtc (λ a a', ∃ e, Queue.step e a a') [] a ∧ mpsc_rel demo_mpsc a ∧
    (∀ i, demo_mpsc.2 !! i ≠ Some (DeqDone (Some (stub demo_mpsc.1)))) ∧
    ∀ i c' l l', thread_step MpscQueue.step i demo_mpsc c' → careful i demo_mpsc →
      demo_mpsc.2 !! i = Some l → c'.2 !! i = Some l' →
      match event_of l l' with
      | Some e => ∃ a', Queue.step e a a' ∧ mpsc_rel c' a'
      | None => mpsc_rel c' a
      end.
Proof. apply (mpsc_refines 1 2 demo_mpsc). exact demo_mpsc_reachable. Defined.
