(* ===== verification/Elf.v ===== *)
(** * The ELF loader

    [kernel/src/process/binary/elf/src]: the loader and the interface to the memory
    it maps ([mapper.rs]).  What the package [xmas-elf] reads from a file is a record
    of the values that its accessors return. *)

From S2P Require Import Prelude Addrs Ranges.

(** ** Errors, flags and segments *)

Inductive ElfLoadError : Set :=
| InvalidBinary | UnsupportedFeature | MapperError | RelocationError | InvalidSegment | Overflow.

Module PageFlags.

Definition PRESENT : Z := 1.
Definition WRITABLE : Z := 2.
Definition EXECUTABLE : Z := 4.
Definition USER_ACCESSIBLE : Z := 8.

Definition rx : Z := Z.lor PRESENT EXECUTABLE.
Definition rwx : Z := Z.lor (Z.lor PRESENT WRITABLE) EXECUTABLE.
Definition r : Z := PRESENT.
Definition rw : Z := Z.lor PRESENT WRITABLE.

Definition is_present (self : Z) : bool := negb (Z.land self PRESENT =? 0).
Definition is_writable (self : Z) : bool := negb (Z.land self WRITABLE =? 0).
Definition is_executable (self : Z) : bool := negb (Z.land self EXECUTABLE =? 0).
Definition is_user_accessible (self : Z) : bool := negb (Z.land self USER_ACCESSIBLE =? 0).

Definition set_user_accessible (self : Z) (user_accessible : bool) : Z :=
  if user_accessible then Z.lor self USER_ACCESSIBLE else Z.land self (not_w 8 USER_ACCESSIBLE).

End PageFlags.

Record MappedRegion := mkRegion { virt_addr : Z; rsize : Z }.

Record TlsTemplate := mkTls { tls_start : Z; tls_file_size : Z; tls_mem_size : Z }.

Record LoadedBinary := mkLoaded { entry_point : Z; tls_template : option TlsTemplate }.

(** The trait [MemoryMapper], with a state [M].  [write_u64] is the store through a
    raw pointer that applies a relocation. *)
Class MemoryMapper (M : Type) := {
  map_region : Z → Z → M → M * option MappedRegion;
  copy_data : Z → list Z → M → M * bool;
  zero_region : Z → Z → M → M * bool;
  update_flags : MappedRegion → Z → M → M * bool;
  unmap_region : MappedRegion → M → M * bool;
  rollback : M → M;
  write_u64 : Z → Z → M → M;
}.

(** ** What is read from the file *)

Inductive Type_ : Set := Load | Tls | Dynamic | GnuRelro | Interp | OtherType.
Inductive Tag : Set := Rela | RelaSize | RelaEnt | OtherTag.
Inductive ElfClass : Set := SixtyFour | OtherClass.
Inductive Machine : Set := X86_64 | OtherMachine.
Inductive Data : Set := LittleEndian | OtherData.
Inductive OsAbi : Set := SystemV | Linux | OtherAbi.
Inductive FileType : Set := Executable | SharedObject | OtherFile.

(** An entry of the dynamic segment; [None] stands for the errors of the accessors. *)
Record DynEntry := mkDyn { get_tag : option Tag; get_ptr : option Z; get_val : option Z }.

Record RelaEntry := mkRela { get_offset : Z; get_symbol_table_index : Z; get_type : Z; get_addend : Z }.

Record ProgramHeader := mkPh {
  ph_type : option Type_;
  virtual_addr : Z;
  offset : Z;
  file_size : Z;
  mem_size : Z;
  is_write : bool;
  is_execute : bool;
  ph_dynamic : option (list DynEntry);  (** [get_data], when it is a dynamic segment *)
  ph_sane : bool                        (** [program::sanity_check] *)
}.

Record ElfFile := mkElf {
  input : list Z;
  header_sane : bool;                   (** [header::sanity_check] *)
  class_ : ElfClass;
  machine : Machine;
  data : Data;
  os_abi : OsAbi;
  type_ : FileType;
  entry : Z;
  program_iter : list ProgramHeader
}.

Definition PAGE_SIZE : Z := 4096.
Definition R_RELATIVE : Z := 8.
Definition MAX_LOAD_SEGMENTS : nat := 16.
(** [size_of::<Rela<P64>>()] *)
Definition RELA_SIZE : Z := 24.

Definition align_down (value align : Z) : out Z :=
  assert_ (is_power_of_two align);;
  mret (Z.land value (not_w 64 (align - 1))).

Definition align_up (value align : Z) : out (result Z ElfLoadError) :=
  assert_ (is_power_of_two align);;
  mret (match checked_add 64 value (align - 1) with
        | Some v => Ok (Z.land v (not_w 64 (align - 1)))
        | None => Err Overflow
        end).

Definition checked_sub (a b : Z) : option Z := if b <=? a then Some (a - b) else None.

(** [input.get(offset..offset + size)]: the addition may overflow. *)
Definition get_range (input : list Z) (offset size : Z) : out (option (list Z)) :=
  e ← add_w 64 offset size;
  mret (if e <=? Z.of_nat (length input)
        then Some (take (Z.to_nat size) (drop (Z.to_nat offset) input)) else None).

Module ElfLoader.

Section loader.

Context {M : Type} `{!MemoryMapper M}.

(** The 24 bytes of a relocation entry, as the package lays them out. *)
Context (read_rela : list Z → RelaEntry).

Local Abbreviation elf_eff := (eff M ElfLoadError).

(** An operation of the mapper whose failure is [MapperError]. *)
Definition mapper_op (f : M → M * bool) : elf_eff unit := λ m,
  let '(m', ok) := f m in Ret (m', if ok then Ok tt else Err MapperError).

(** [(addr as *mut u64).write_unaligned(value)] *)
Definition raw_write (addr value : Z) : elf_eff unit := λ m, Ret (write_u64 addr value m, Ok tt).

(** [map_region], whose failure is [MapperError]. *)
Definition map_op (size flags : Z) : elf_eff MappedRegion := λ m,
  let '(m', r) := map_region size flags m in
  Ret (m', match r with Some region => Ok region | None => Err MapperError end).

(** [Result] values in the monad. *)
Definition of_result {A} (r : result A ElfLoadError) : elf_eff A := λ m, Ret (m, r).

Definition sanity_check (elf : ElfFile) : result unit ElfLoadError :=
  if negb (header_sane elf) then Err InvalidBinary
  else if existsb (λ ph, negb (ph_sane ph)) (program_iter elf) then Err InvalidBinary
  else match class_ elf with OtherClass => Err InvalidBinary | SixtyFour =>
  match machine elf with OtherMachine => Err InvalidBinary | X86_64 =>
  match data elf with OtherData => Err InvalidBinary | LittleEndian =>
  match os_abi elf with OtherAbi => Err InvalidBinary | _ =>
  match type_ elf with OtherFile => Err InvalidBinary | _ => Ok tt
  end end end end end.

(** Segments that [calculate_address_range] considers. *)
Definition allocatable (ph : ProgramHeader) : bool :=
  match ph_type ph with Some Load | Some Tls => true | _ => false end.

Fixpoint address_range_loop (phs : list ProgramHeader) (min_vaddr max_vaddr : Z)
    : out (result (Z * Z) ElfLoadError) :=
  match phs with
  | [] => mret (Ok (min_vaddr, max_vaddr))
  | ph :: phs =>
      if negb (allocatable ph) then address_range_loop phs min_vaddr max_vaddr
      else
        let seg_start := virtual_addr ph in
        match checked_add 64 seg_start (mem_size ph) with
        | None => mret (Err Overflow)
        | Some seg_end =>
            seg_start_aligned ← align_down seg_start PAGE_SIZE;
            up ← align_up seg_end PAGE_SIZE;
            match up with
            | Err e => mret (Err e)
            | Ok up =>
                seg_end_aligned ← sub_w up 1;
                address_range_loop phs (Z.min min_vaddr seg_start_aligned)
                  (Z.max max_vaddr seg_end_aligned)
            end
        end
  end.

Definition calculate_address_range (elf : ElfFile) : out (result MemoryRange ElfLoadError) :=
  res ← address_range_loop (program_iter elf) (2 ^ 64 - 1) 0;
  match res with
  | Err e => mret (Err e)
  | Ok (min_vaddr, max_vaddr) =>
      if min_vaddr =? 2 ^ 64 - 1 then mret (Err InvalidBinary)
      else range ← MemoryRange.new min_vaddr max_vaddr; mret (Ok range)
  end.

Definition compute_segment_flags (ph : ProgramHeader) : Z :=
  match is_write ph, is_execute ph with
  | true, true => PageFlags.rwx
  | true, false => PageFlags.rw
  | false, true => PageFlags.rx
  | false, false => PageFlags.r
  end.

Definition load_segment (elf : ElfFile) (ph : ProgramHeader) (region_addr min_vaddr : Z)
    : elf_eff unit :=
  let segment_vaddr := virtual_addr ph in
  let file_size := file_size ph in
  let mem_size := mem_size ph in
  if mem_size <? file_size then throw InvalidSegment
  else
    dest_offset ← ok_or (checked_sub segment_vaddr min_vaddr) Overflow;
    dest_addr ← ok_or (checked_add 64 region_addr dest_offset) Overflow;
    (if 0 <? file_size then
       r ← lift (get_range (input elf) (offset ph) file_size);
       file_data ← ok_or r InvalidBinary;
       mapper_op (copy_data (VirtAddr.new_extend dest_addr) file_data)
     else mret tt);;
    (if file_size <? mem_size then
       let bss_size := mem_size - file_size in
       bss_addr ← ok_or (checked_add 64 dest_addr file_size) Overflow;
       mapper_op (zero_region (VirtAddr.new_extend bss_addr) bss_size)
     else mret tt);;
    mapper_op (update_flags (mkRegion (VirtAddr.new_extend dest_addr) mem_size)
                 (compute_segment_flags ph)).

Definition load_tls_segment (ph : ProgramHeader) (input : list Z) (region_addr min_vaddr : Z)
    : elf_eff unit :=
  let file_size := file_size ph in
  if file_size =? 0 then mret tt
  else
    let mem_size := mem_size ph in
    if mem_size <? file_size then throw InvalidSegment
    else
      r ← lift (get_range input (offset ph) file_size);
      file_data ← ok_or r InvalidBinary;
      dest_offset ← ok_or (checked_sub (virtual_addr ph) min_vaddr) Overflow;
      dest_addr ← ok_or (checked_add 64 region_addr dest_offset) Overflow;
      mapper_op (copy_data (VirtAddr.new_extend dest_addr) file_data);;
      (if file_size <? mem_size then
         bss_addr ← ok_or (checked_add 64 dest_addr file_size) Overflow;
         mapper_op (zero_region (VirtAddr.new_extend bss_addr) (mem_size - file_size))
       else mret tt).

(** [vaddr_to_file_offset]; the sums may overflow. *)
Fixpoint vaddr_to_file_offset (phs : list ProgramHeader) (vaddr : Z) : out (option Z) :=
  match phs with
  | [] => mret None
  | ph :: phs =>
      match ph_type ph with
      | Some Load =>
          let seg_vaddr := virtual_addr ph in
          let seg_file_size := file_size ph in
          if negb (seg_vaddr <=? vaddr) then vaddr_to_file_offset phs vaddr
          else
            seg_end ← add_w 64 seg_vaddr seg_file_size;
            if vaddr <? seg_end then
              let offset_in_segment := vaddr - seg_vaddr in
              o ← add_w 64 (offset ph) offset_in_segment; mret (Some o)
            else vaddr_to_file_offset phs vaddr
      | _ => vaddr_to_file_offset phs vaddr
      end
  end.

(** The scan of the dynamic segment for [Rela], [RelaSize] and [RelaEnt]. *)
Fixpoint find_rela (entries : list DynEntry) (rela : option Z * option Z * option Z)
    : result (option Z * option Z * option Z) ElfLoadError :=
  match entries with
  | [] => Ok rela
  | entry :: entries =>
      let '(rela_vaddr, rela_size, rela_ent) := rela in
      match get_tag entry with
      | None => Err InvalidBinary
      | Some Rela =>
          match get_ptr entry with
          | None => Err InvalidBinary
          | Some p => find_rela entries (Some p, rela_size, rela_ent)
          end
      | Some RelaSize =>
          match get_val entry with
          | None => Err InvalidBinary
          | Some v => find_rela entries (rela_vaddr, Some v, rela_ent)
          end
      | Some RelaEnt =>
          match get_val entry with
          | None => Err InvalidBinary
          | Some v => find_rela entries (rela_vaddr, rela_size, Some v)
          end
      | Some OtherTag => find_rela entries rela
      end
  end.

(** The ranges of the LOAD segments, at most [MAX_LOAD_SEGMENTS] of them. *)
Fixpoint load_ranges (phs : list ProgramHeader) (segs : list (Z * Z))
    : result (list (Z * Z)) ElfLoadError :=
  match phs with
  | [] => Ok segs
  | ph :: phs =>
      match ph_type ph with
      | Some Load =>
          if (MAX_LOAD_SEGMENTS <=? length segs)%nat then Err InvalidBinary
          else match checked_add 64 (virtual_addr ph) (mem_size ph) with
               | None => Err Overflow
               | Some seg_end => load_ranges phs (segs ++ [(virtual_addr ph, seg_end)])
               end
      | _ => load_ranges phs segs
      end
  end.

(** One relocation. *)
Definition relocate (elf : ElfFile) (load_segments : list (Z * Z))
    (reloc_file_offset reloc_ent region_addr min_vaddr i : Z) : elf_eff unit :=
  k ← lift (mul_w 64 i reloc_ent);
  reloc_offset ← lift (add_w 64 reloc_file_offset k);
  let rela := read_rela (take (Z.to_nat RELA_SIZE) (drop (Z.to_nat reloc_offset) (input elf))) in
  if negb (get_symbol_table_index rela =? 0) || negb (get_type rela =? R_RELATIVE) then mret tt
  else
    let rela_offset_vaddr := get_offset rela in
    if negb (existsb (λ seg, (fst seg <=? rela_offset_vaddr) && (rela_offset_vaddr <? snd seg))
               load_segments)
    then throw RelocationError
    else
      target_delta ← ok_or (checked_sub rela_offset_vaddr min_vaddr) Overflow;
      target_addr ← ok_or (checked_add 64 region_addr target_delta) Overflow;
      relocated_value ← ok_or (checked_add 64 region_addr (get_addend rela)) Overflow;
      raw_write target_addr relocated_value.

Fixpoint relocate_all (elf : ElfFile) (load_segments : list (Z * Z))
    (reloc_file_offset reloc_ent region_addr min_vaddr i : Z) (n : nat) : elf_eff unit :=
  match n with
  | O => mret tt
  | S n =>
      relocate elf load_segments reloc_file_offset reloc_ent region_addr min_vaddr i;;
      relocate_all elf load_segments reloc_file_offset reloc_ent region_addr min_vaddr (i + 1) n
  end.

Definition process_relocations (elf : ElfFile) (ph : ProgramHeader) (region_addr min_vaddr : Z)
    : elf_eff unit :=
  entries ← ok_or (ph_dynamic ph) InvalidBinary;
  '(rela_vaddr, rela_size, rela_ent) ← of_result (find_rela entries (None, None, None));
  match rela_vaddr with
  | None => mret tt
  | Some reloc_vaddr =>
      reloc_size ← ok_or rela_size InvalidBinary;
      reloc_ent ← ok_or rela_ent InvalidBinary;
      if negb (reloc_ent =? RELA_SIZE) then throw RelocationError
      else
        o ← lift (vaddr_to_file_offset (program_iter elf) reloc_vaddr);
        reloc_file_offset ← ok_or o InvalidBinary;
        let num_entries := reloc_size / reloc_ent in
        reloc_entry_end ← ok_or (checked_add 64 reloc_file_offset reloc_size) Overflow;
        if Z.of_nat (length (input elf)) <? reloc_entry_end then throw InvalidBinary
        else
          segs ← of_result (load_ranges (program_iter elf) []);
          relocate_all elf segs reloc_file_offset reloc_ent region_addr min_vaddr 0
            (Z.to_nat num_entries)
  end.

(** [region_addr + (ph.virtual_addr() - min_vaddr.as_u64())] *)
Definition runtime_addr (ph : ProgramHeader) (region_addr min_vaddr : Z) : out Z :=
  d ← sub_w (virtual_addr ph) min_vaddr; VirtAddr.add region_addr d.

Definition process_gnu_relro (ph : ProgramHeader) (region_addr min_vaddr : Z) : elf_eff unit :=
  virt_addr ← lift (runtime_addr ph region_addr min_vaddr);
  mapper_op (update_flags (mkRegion virt_addr (mem_size ph)) PageFlags.r).

Fixpoint load_segments (elf : ElfFile) (region_addr min_vaddr : Z) (phs : list ProgramHeader)
    (tls_template : option TlsTemplate) : elf_eff (option TlsTemplate) :=
  match phs with
  | [] => mret tls_template
  | ph :: phs =>
      pt ← ok_or (ph_type ph) InvalidBinary;
      match pt with
      | Load =>
          load_segment elf ph region_addr min_vaddr;;
          load_segments elf region_addr min_vaddr phs tls_template
      | Tls =>
          load_tls_segment ph (input elf) region_addr min_vaddr;;
          start ← lift (runtime_addr ph region_addr min_vaddr);
          load_segments elf region_addr min_vaddr phs
            (Some (mkTls start (file_size ph) (mem_size ph)))
      | Dynamic =>
          process_relocations elf ph region_addr min_vaddr;;
          load_segments elf region_addr min_vaddr phs tls_template
      | GnuRelro =>
          process_gnu_relro ph region_addr min_vaddr;;
          load_segments elf region_addr min_vaddr phs tls_template
      | Interp => throw UnsupportedFeature
      | OtherType => load_segments elf region_addr min_vaddr phs tls_template
      end
  end.

(** On an error the region is unmapped and the mapper rolled back. *)
Definition or_unmap {A} (region : MappedRegion) (f : elf_eff A) : elf_eff A := λ m,
  match f m with
  | Ret (m, Err e) => let '(m, _) := unmap_region region m in Ret (rollback m, Err e)
  | r => r
  end.

(** [load], for the file [elf] that [ElfFile::new] made of the input ([None] when it
    failed). *)
Definition load (elf : option ElfFile) : elf_eff LoadedBinary :=
  elf ← ok_or elf InvalidBinary;
  of_result (sanity_check elf);;
  r ← lift (calculate_address_range elf);
  addr_range ← of_result r;
  range_size ← lift (MemoryRange.size addr_range);
  region ← map_op range_size PageFlags.rw;
  tls_template ← or_unmap region
    (load_segments elf (virt_addr region) (VirtAddr.new_extend (start addr_range))
       (program_iter elf) None);
  d ← lift (sub_w (entry elf) (start addr_range));
  runtime_addr ← lift (VirtAddr.add (virt_addr region) d);
  mret (mkLoaded runtime_addr tls_template).

End loader.

End ElfLoader.

(** ** A mapper that records what it is asked to do

    Any behaviour of a mapper is covered: [base] is the address it maps at after the
    operations so far, and [succeeds] says whether the last operation succeeds. *)

Inductive op : Type :=
| OMap (size flags : Z)
| OCopy (dest : Z) (src : list Z)
| OZero (dest size : Z)
| OFlags (region : MappedRegion) (flags : Z)
| OUnmap (region : MappedRegion)
| ORollback
| OWrite (addr value : Z).

Section log.

Context (base : list op → option Z) (succeeds : list op → bool).

Local Instance log_mapper : MemoryMapper (list op) := {
  map_region size flags m :=
    let m' := m ++ [OMap size flags] in (m', (λ b, mkRegion b size) <$> base m');
  copy_data dest src m := let m' := m ++ [OCopy dest src] in (m', succeeds m');
  zero_region dest size m := let m' := m ++ [OZero dest size] in (m', succeeds m');
  update_flags region flags m := let m' := m ++ [OFlags region flags] in (m', succeeds m');
  unmap_region region m := let m' := m ++ [OUnmap region] in (m', succeeds m');
  rollback m := m ++ [ORollback];
  write_u64 addr value m := m ++ [OWrite addr value];
}.

Context (read_rela : list Z → RelaEntry).

Import ElfLoader.

Local Abbreviation elf_eff := (eff (list op) ElfLoadError).

(** The operations that [f] asks for satisfy [P]. *)
Definition emits {A} (P : op → Prop) (f : elf_eff A) : Prop :=
  ∀ m m' r, f m = Ret (m', r) → ∃ l, m' = m ++ l ∧ Forall P l.

Lemma emits_pure {A} P (r : result A ElfLoadError) : emits P (of_result r).
Proof. intros m m' r' [= <- _]. exists []. by rewrite app_nil_r. Qed.

Lemma emits_ret {A} P (a : A) : emits P (mret a : elf_eff A).
Proof. exact (emits_pure P (Ok a)). Qed.

Lemma emits_throw {A} P e : emits P (throw e : elf_eff A).
Proof. exact (emits_pure P (Err e)). Qed.

Lemma emits_ok_or {A} P (o : option A) e : emits P (ok_or o e : elf_eff A).
Proof. destruct o; [apply emits_ret | apply emits_throw]. Qed.

Lemma emits_lift {A} P (o : out A) : emits P (lift o : elf_eff A).
Proof. intros m m' r. unfold lift. intros H. out_inv. exists []. by rewrite app_nil_r. Qed.

Lemma emits_bind {A B} P (f : elf_eff A) (g : A → elf_eff B) :
  emits P f → (∀ a m m', f m = Ret (m', Ok a) → emits P (g a)) → emits P (f ≫= g).
Proof.
  intros Hf Hg m m' r. unfold mbind, eff_bind. destruct (f m) as [[m1 [a|e]]|] eqn:E; [| |done].
  - intros Hr. destruct (Hf m m1 _ E) as (l1 & -> & H1).
    destruct (Hg a m _ E _ _ _ Hr) as (l2 & -> & H2). exists (l1 ++ l2).
    rewrite app_assoc. split; [done | by apply Forall_app].
  - intros [= <- <-]. by apply (Hf m m1 _ E).
Qed.

Lemma emits_op (P : op → Prop) (f : list op → list op * bool) o :
  (∀ m, f m = (m ++ [o], succeeds (m ++ [o]))) → P o → emits P (mapper_op f).
Proof.
  intros Hf Ho m m' r. unfold mapper_op. rewrite Hf. intros [= <- _]. exists [o]. split; [done|].
  by apply Forall_singleton.
Qed.

(** *** The address range *)

(** The fields of a header are 64-bit words. *)
Definition ph_wf (ph : ProgramHeader) : Prop :=
  is_uint 64 (virtual_addr ph) ∧ is_uint 64 (offset ph) ∧ is_uint 64 (file_size ph) ∧
  is_uint 64 (mem_size ph).

Lemma align_down_page x :
  is_uint 64 x → align_down x PAGE_SIZE = Ret (x - x mod PAGE_SIZE).
Proof.
  intros Hx. change (align_down x PAGE_SIZE) with (Ret (Z.land x (not_w 64 (2 ^ 12 - 1)))).
  by rewrite land_not_mask.
Qed.

Lemma align_up_page x :
  is_uint 64 x →
  align_up x PAGE_SIZE =
    Ret (if x + (PAGE_SIZE - 1) <? 2 ^ 64 then Ok (round_up x PAGE_SIZE) else Err Overflow).
Proof.
  intros [Hx0 Hx]. unfold align_up, PAGE_SIZE. change (assert_ (is_power_of_two 4096)) with (Ret tt).
  cbn [mbind out_bind mret out_ret]. unfold checked_add.
  destruct (Z.ltb_spec (x + (4096 - 1)) (2 ^ 64)) as [Hlt|]; [|done]. do 2 f_equal.
  change (4096 - 1) with (2 ^ 12 - 1). rewrite land_not_mask; [done | lia | unfold is_uint; lia].
Qed.

(** Where the segment of [ph] is in [lo .. hi]. *)
Definition covers (lo hi : Z) (ph : ProgramHeader) : Prop :=
  lo ≤ virtual_addr ph ∧ virtual_addr ph + mem_size ph ≤ hi + 1.

(** The bounds are those of pages that hold the first or last byte of a segment. *)
Definition first_page (phs : list ProgramHeader) (x : Z) : Prop :=
  ∃ ph, ph ∈ phs ∧ allocatable ph = true ∧ x = virtual_addr ph - virtual_addr ph mod PAGE_SIZE.
Definition last_page (phs : list ProgramHeader) (x : Z) : Prop :=
  ∃ ph, ph ∈ phs ∧ allocatable ph = true ∧ x = round_up (virtual_addr ph + mem_size ph) PAGE_SIZE - 1.

Lemma address_range_loop_ok phs mn mx lo hi :
  Forall ph_wf phs → mx < 2 ^ 64 - 1 → address_range_loop phs mn mx = Ret (Ok (lo, hi)) →
  lo ≤ mn ∧ mx ≤ hi < 2 ^ 64 - 1 ∧ (lo = mn ∨ first_page phs lo) ∧ (hi = mx ∨ last_page phs hi) ∧
  ∀ ph, ph ∈ phs → allocatable ph = true → covers lo hi ph ∧ PAGE_SIZE ≤ hi + 1.
Proof.
  revert mn mx. induction phs as [|ph phs IH]; intros mn mx Hwf Hmx; cbn [address_range_loop].
  - intros [= -> ->]. split_and!; [lia | lia | done | by left | by left |]. by intros ph ?%not_elem_of_nil.
  - apply Forall_cons in Hwf as [(Hv & _ & _ & Hm) Hwf]. unfold is_uint in Hv, Hm.
    assert (∀ x, first_page phs x → first_page (ph :: phs) x) as Hf1.
    { intros x (p & Hp & ?). exists p. split; [by right | done]. }
    assert (∀ x, last_page phs x → last_page (ph :: phs) x) as Hl1.
    { intros x (p & Hp & ?). exists p. split; [by right | done]. }
    destruct (allocatable ph) eqn:Ea; cbn [negb].
    + destruct (checked_add 64 (virtual_addr ph) (mem_size ph)) as [e|] eqn:Ee; [|done].
      apply checked_add_Some in Ee as [-> He]. rewrite align_down_page, align_up_page by (unfold is_uint; lia).
      cbn [mbind out_bind]. destruct (Z.ltb_spec (virtual_addr ph + mem_size ph + (PAGE_SIZE - 1)) (2 ^ 64)) as [Hlt|]; [|done].
      intros H. out_inv_step. apply sub_w_Ret in H0 as [-> H1].
      pose proof (Z.mod_pos_bound (virtual_addr ph) PAGE_SIZE ltac:(done)) as Hmod.
      destruct (round_up_spec (virtual_addr ph + mem_size ph) PAGE_SIZE ltac:(done)) as (Hr1 & Hr2 & _).
      assert (round_up (virtual_addr ph + mem_size ph) PAGE_SIZE < 2 ^ 64) as Hr3.
      { unfold round_up in *. pose proof (Z.mod_pos_bound (virtual_addr ph + mem_size ph + (PAGE_SIZE - 1)) PAGE_SIZE ltac:(done)). lia. }
      apply IH in H as (H2 & H3 & H4 & H5 & H6); [|done|lia].
      split_and!; [lia | lia | lia | | |].
      * destruct H4 as [->|H4]; [|right; by apply Hf1].
        destruct (Z.min_spec mn (virtual_addr ph - virtual_addr ph mod PAGE_SIZE)) as [[_ ->]|[_ ->]]; [by left | right].
        exists ph. split_and!; [left | done | done].
      * destruct H5 as [->|H5]; [|right; by apply Hl1].
        destruct (Z.max_spec mx (round_up (virtual_addr ph + mem_size ph) PAGE_SIZE - 1)) as [[_ ->]|[_ ->]]; [right | by left].
        exists ph. split_and!; [left | done | done].
      * intros p [->|Hp]%elem_of_cons Hpa; [|by apply H6]. unfold covers.
        apply Z.mod_divide in Hr1 as [z Hz]; [|done]. unfold PAGE_SIZE in *. split; lia.
    + intros H. apply IH in H as (H2 & H3 & H4 & H5 & H6); [|done|done].
      split_and!; [lia | lia | lia | naive_solver | naive_solver |].
      intros p [->|Hp]%elem_of_cons Hpa; [congruence | by apply H6].
Qed.

(** *** What a segment writes *)

(** Writes and changes of flags stay in [b .. b + n), and nothing else is mapped or unmapped. *)
Definition inside (b n : Z) (o : op) : Prop :=
  match o with
  | OCopy dest src => b ≤ dest ∧ dest + Z.of_nat (length src) ≤ b + n
  | OZero dest size => b ≤ dest ∧ 0 ≤ size ∧ dest + size ≤ b + n
  | OWrite addr _ => b ≤ addr < b + n
  | OFlags region _ => b ≤ virt_addr region ∧ 0 ≤ rsize region ∧ virt_addr region + rsize region ≤ b + n
  | OMap _ _ | OUnmap _ | ORollback => False
  end.

(** The operation that a GNU_RELRO header asks for: its range, moved along with the segments, becomes read-only. *)
Definition protects (elf : ElfFile) (b lo : Z) (o : op) : Prop :=
  ∃ ph, ph ∈ program_iter elf ∧ ph_type ph = Some GnuRelro ∧
    o = OFlags (mkRegion (VirtAddr.new_extend (b + (virtual_addr ph - lo))) (mem_size ph)) PageFlags.r.

(** The operations of a segment: no raw writes. *)
Definition seg_op (b n : Z) (o : op) : Prop :=
  inside b n o ∧ match o with OWrite _ _ => False | _ => True end.

Lemma get_range_length l o n x :
  0 ≤ o → 0 ≤ n → get_range l o n = Ret (Some x) → Z.of_nat (length x) = n.
Proof.
  intros Ho Hn H. unfold get_range in H. out_inv. 
  destruct (Z.leb_spec (o + n) (Z.of_nat (length l))) as [Hle|]; [|done]. simplify_eq.
  all: rewrite length_take, length_drop; lia.
Qed.

(** The place of a segment in a region of the lower half. *)
Definition placed (b n lo : Z) (ph : ProgramHeader) : Prop :=
  0 ≤ b ∧ b + n < 2 ^ 47 ∧ lo ≤ virtual_addr ph ∧ virtual_addr ph - lo + mem_size ph ≤ n.

Lemma new_extend_low x : 0 ≤ x < 2 ^ 47 → VirtAddr.new_extend x = x.
Proof. intros Hx. apply VirtAddr.canonicalize_id. left. unfold VirtAddr.MAX_LOWER_HALF. lia. Qed.

Lemma new_extend_id x : VirtAddr.canonical x → VirtAddr.new_extend x = x.
Proof. apply VirtAddr.canonicalize_id. Qed.

Lemma emits_mono {A} (P Q : op → Prop) (f : elf_eff A) : (∀ o, P o → Q o) → emits P f → emits Q f.
Proof.
  intros HPQ Hf m m' r Hr. destruct (Hf m m' r Hr) as (l & -> & Hl). exists l. split; [done|].
  by apply (Forall_impl P).
Qed.

(** The segment is in the region. *)
Lemma inside_placed b n lo ph o :
  placed b n lo ph → seg_op (b + (virtual_addr ph - lo)) (mem_size ph) o → inside b n o.
Proof. intros (? & ? & ? & ?) [Ho _]. destruct o; cbn in *; lia. Qed.

Lemma ok_or_Ok {A} (o : option A) e (m m' : list op) a :
  (ok_or o e : elf_eff A) m = Ret (m', Ok a) → o = Some a ∧ m' = m.
Proof. destruct o; cbn; [intros [= <- ->] | intros [=]]; done. Qed.

Lemma lift_Ok {A} (o : out A) (m m' : list op) r :
  (lift o : elf_eff A) m = Ret (m', r) → ∃ a, o = Ret a ∧ r = Ok a ∧ m' = m.
Proof. unfold lift. intros H. out_inv. eauto. Qed.

(** The destination of a segment. *)
Lemma dest_ok b n lo ph d (m m' m1 m1' : list op) x :
  placed b n lo ph → is_uint 64 (virtual_addr ph) →
  (ok_or (checked_sub (virtual_addr ph) lo) Overflow : elf_eff Z) m = Ret (m', Ok d) →
  (ok_or (checked_add 64 b d) Overflow : elf_eff Z) m1 = Ret (m1', Ok x) →
  d = virtual_addr ph - lo ∧ x = b + (virtual_addr ph - lo).
Proof.
  intros (Hb & Hn & Hlo & Hm) Hv Hd Hx. apply ok_or_Ok in Hd as [Hd _]. apply ok_or_Ok in Hx as [Hx _].
  unfold checked_sub in Hd. destruct (Z.leb_spec lo (virtual_addr ph)); [|lia]. simplify_eq.
  apply checked_add_Some in Hx as [-> _]. done.
Qed.

Lemma load_segment_emits elf ph b n lo :
  ph_wf ph → placed b n lo ph →
  emits (seg_op (b + (virtual_addr ph - lo)) (mem_size ph)) (load_segment elf ph b lo).
Proof.
  intros (Hv & Ho & Hf & Hm) Hp. pose proof Hp as (Hb & Hn & Hlo & Hin). unfold is_uint in Hv, Ho, Hf, Hm.
  unfold load_segment.
  destruct (Z.ltb_spec (mem_size ph) (file_size ph)); [apply emits_throw|].
  apply emits_bind; [apply emits_ok_or|]. intros d m1 m1' Hd.
  apply emits_bind; [apply emits_ok_or|]. intros x m2 m2' Hx.
  destruct (dest_ok b n lo ph d m1 m1' m2 m2' x Hp Hv Hd Hx) as [-> ->].
  set (dest := b + (virtual_addr ph - lo)).
  apply emits_bind.
  { destruct (Z.ltb_spec 0 (file_size ph)); [|apply emits_ret].
    apply emits_bind; [apply emits_lift|]. intros r m3 m3' (a & Hr & [= ->] & _)%lift_Ok.
    apply emits_bind; [apply emits_ok_or|]. intros fd m4 m4' [-> _]%ok_or_Ok.
    apply get_range_length in Hr; [|lia|lia].
    eapply emits_op; [done|]. rewrite new_extend_low by lia. split; [cbn; lia | done]. }
  intros _ m3 m3' _. apply emits_bind.
  { destruct (Z.ltb_spec (file_size ph) (mem_size ph)); [|apply emits_ret].
    apply emits_bind; [apply emits_ok_or|]. intros bss m4 m4' [Hbss _]%ok_or_Ok.
    apply checked_add_Some in Hbss as [-> _].
    eapply emits_op; [done|]. rewrite new_extend_low by lia. split; [cbn; lia | done]. }
  intros _ m4 m4' _. eapply emits_op; [done|]. rewrite new_extend_low by lia. split; [cbn; lia | done].
Qed.

Lemma load_tls_segment_emits ph inp b n lo :
  ph_wf ph → placed b n lo ph →
  emits (seg_op (b + (virtual_addr ph - lo)) (mem_size ph)) (load_tls_segment ph inp b lo).
Proof.
  intros (Hv & Ho & Hf & Hm) Hp. pose proof Hp as (Hb & Hn & Hlo & Hin). unfold is_uint in Hv, Ho, Hf, Hm.
  unfold load_tls_segment. destruct (Z.eqb_spec (file_size ph) 0); [apply emits_ret|].
  destruct (Z.ltb_spec (mem_size ph) (file_size ph)); [apply emits_throw|].
  apply emits_bind; [apply emits_lift|]. intros r m3 m3' (a & Hr & [= ->] & _)%lift_Ok.
  apply emits_bind; [apply emits_ok_or|]. intros fd m4 m4' [-> _]%ok_or_Ok.
  apply get_range_length in Hr; [|lia|lia].
  apply emits_bind; [apply emits_ok_or|]. intros d m1 m1' Hd.
  apply emits_bind; [apply emits_ok_or|]. intros x m2 m2' Hx.
  destruct (dest_ok b n lo ph d m1 m1' m2 m2' x Hp Hv Hd Hx) as [-> ->].
  set (dest := b + (virtual_addr ph - lo)).
  apply emits_bind; [eapply emits_op; [done|]; rewrite new_extend_low by lia; split; [cbn; lia | done]|].
  intros _ m5 m5' _. destruct (Z.ltb_spec (file_size ph) (mem_size ph)); [|apply emits_ret].
  apply emits_bind; [apply emits_ok_or|]. intros bss m6 m6' [Hbss _]%ok_or_Ok.
  apply checked_add_Some in Hbss as [-> _].
  eapply emits_op; [done|]. rewrite new_extend_low by lia. split; [cbn; lia | done].
Qed.

(** The ranges that relocations are checked against are those of LOAD segments. *)
Lemma load_ranges_ok phs segs segs' :
  load_ranges phs segs = Ok segs' →
  ∀ seg, seg ∈ segs' → seg ∈ segs ∨
    ∃ ph, ph ∈ phs ∧ ph_type ph = Some Load ∧ seg = (virtual_addr ph, virtual_addr ph + mem_size ph).
Proof.
  revert segs. induction phs as [|ph phs IH]; intros segs; cbn [load_ranges]; [intros [= ->]; auto|].
  assert (∀ x, load_ranges phs x = Ok segs' → ∀ seg, seg ∈ segs' → seg ∈ x ∨ ∃ p, p ∈ ph :: phs ∧
    ph_type p = Some Load ∧ seg = (virtual_addr p, virtual_addr p + mem_size p)) as Hrec.
  { intros x Hx seg Hs. destruct (IH x Hx seg Hs) as [?|(p & Hp & ?)]; [by left | right].
    exists p. split; [by right | done]. }
  destruct (ph_type ph) as [[]|] eqn:Et; try apply Hrec.
  destruct (MAX_LOAD_SEGMENTS <=? length segs)%nat; [done|].
  destruct (checked_add 64 (virtual_addr ph) (mem_size ph)) as [e|] eqn:Ee; [|done].
  apply checked_add_Some in Ee as [-> _]. intros H seg Hs.
  destruct (Hrec _ H seg Hs) as [[?| ->%list_elem_of_singleton]%elem_of_app|?]; [by left | right | by right].
  exists ph. split_and!; [left | done | done].
Qed.

Lemma relocate_emits elf segs off ent b n lo i :
  0 ≤ b → b + n < 2 ^ 47 →
  (∀ seg, seg ∈ segs → lo ≤ fst seg ∧ snd seg - lo ≤ n) →
  emits (inside b n) (relocate read_rela elf segs off ent b lo i).
Proof.
  intros Hb Hn Hsegs. unfold relocate.
  apply emits_bind; [apply emits_lift|]. intros k m1 m1' _.
  apply emits_bind; [apply emits_lift|]. intros o m2 m2' _.
  set (rela := read_rela _). destruct (_ || _); [apply emits_ret|].
  destruct (existsb _ segs) eqn:E; cbn [negb]; [|apply emits_throw].
  apply existsb_exists in E as (seg & Hin & [H1%Z.leb_le H2%Z.ltb_lt]%andb_true_iff).
  apply list_elem_of_In, Hsegs in Hin as [Hs1 Hs2].
  apply emits_bind; [apply emits_ok_or|]. intros d m3 m3' [Hd _]%ok_or_Ok.
  apply emits_bind; [apply emits_ok_or|]. intros x m4 m4' [Hx _]%ok_or_Ok.
  apply emits_bind; [apply emits_ok_or|]. intros v m5 m5' _.
  intros m m' r [= <- _]. exists [OWrite x v]. split; [done|]. apply Forall_singleton. cbn.
  unfold checked_sub in Hd. destruct (Z.leb_spec lo (get_offset rela)); [|done]. simplify_eq.
  apply checked_add_Some in Hx as [-> _]. lia.
Qed.

Lemma process_relocations_emits elf ph b n lo :
  0 ≤ b → b + n < 2 ^ 47 →
  (∀ p, p ∈ program_iter elf → ph_type p = Some Load → lo ≤ virtual_addr p ∧ virtual_addr p + mem_size p - lo ≤ n) →
  emits (inside b n) (process_relocations read_rela elf ph b lo).
Proof.
  intros Hb Hn Hsegs. unfold process_relocations.
  apply emits_bind; [apply emits_ok_or|]. intros entries m1 m1' _.
  apply emits_bind; [apply emits_pure|]. intros [[[reloc|] rs] re] m2 m2' _; [|apply emits_ret].
  apply emits_bind; [apply emits_ok_or|]. intros rsize m3 m3' _.
  apply emits_bind; [apply emits_ok_or|]. intros ent m4 m4' _.
  destruct (negb _); [apply emits_throw|].
  apply emits_bind; [apply emits_lift|]. intros o m5 m5' _.
  apply emits_bind; [apply emits_ok_or|]. intros off m6 m6' _.
  apply emits_bind; [apply emits_ok_or|]. intros e m7 m7' _.
  destruct (_ <? e); [apply emits_throw|].
  apply emits_bind; [apply emits_pure|]. intros segs m8 m8' [= _ Hs].
  assert (∀ seg, seg ∈ segs → lo ≤ fst seg ∧ snd seg - lo ≤ n) as Hseg.
  { intros seg Hin. destruct (load_ranges_ok _ _ _ Hs seg Hin) as [?%not_elem_of_nil|(p & Hp & Ht & ->)]; [done|].
    by apply Hsegs. }
  generalize 0 at 1. induction (Z.to_nat (rsize / ent)) as [|k IH]; intros i; [apply emits_ret|].
  cbn [relocate_all]. apply emits_bind; [by apply relocate_emits | done].
Qed.

(** Where GNU_RELRO headers are processed *)
Lemma gnu_relro_emits elf ph b lo :
  ph ∈ program_iter elf → ph_type ph = Some GnuRelro → emits (protects elf b lo) (process_gnu_relro ph b lo).
Proof.
  intros Hin Ht. unfold process_gnu_relro. apply emits_bind; [apply emits_lift|].
  intros va m2 m2' (x & Hx & [= <-] & _)%lift_Ok. unfold runtime_addr, VirtAddr.add in Hx. out_inv.
  eapply emits_op; [done|]. by exists ph.
Qed.

Lemma load_segments_emits elf phs tls b n lo :
  Forall ph_wf phs → 0 ≤ b → b + n < 2 ^ 47 → (∀ p, p ∈ phs → p ∈ program_iter elf) →
  (∀ p, p ∈ program_iter elf → allocatable p = true → placed b n lo p) →
  emits (λ o, inside b n o ∨ protects elf b lo o) (load_segments read_rela elf b lo phs tls).
Proof.
  intros Hwf Hb Hn Hphs Hall. revert tls. induction phs as [|ph phs IH]; intros tls; [apply emits_ret|].
  apply Forall_cons in Hwf as [Hph Hwf]. cbn [load_segments]. set (P := λ o, _).
  assert (∀ tls, emits P (load_segments read_rela elf b lo phs tls)) as Hrec.
  { apply IH; [done|]. intros p Hp. apply Hphs. by right. }
  assert (ph ∈ program_iter elf) as Hin by (apply Hphs; left). pose proof (Hall ph Hin) as Hpl.
  unfold allocatable in Hpl. apply emits_bind; [apply emits_ok_or|]. intros pt m1 m1' [Ept _]%ok_or_Ok.
  rewrite Ept in Hpl. destruct pt.
  - apply emits_bind; [|done]. specialize (Hpl eq_refl).
    eapply emits_mono; [|by eapply load_segment_emits]. intros o. left. by eapply inside_placed.
  - specialize (Hpl eq_refl). apply emits_bind.
    { eapply emits_mono; [|by eapply load_tls_segment_emits]. intros o. left. by eapply inside_placed. }
    intros _ m2 m2' _. apply emits_bind; [apply emits_lift | done].
  - apply emits_bind; [|done]. eapply emits_mono; [by left|]. apply process_relocations_emits; [done | done|]. intros p Hp Ht.
    destruct (Hall p Hp) as (_ & _ & ? & ?); [unfold allocatable; by rewrite Ht | lia].
  - apply emits_bind; [|done]. eapply emits_mono; [by right|]. by apply gnu_relro_emits.
  - apply emits_throw.
  - apply Hrec.
Qed.

Lemma calculate_ok elf r :
  Forall ph_wf (program_iter elf) → calculate_address_range elf = Ret (Ok r) →
  0 ≤ start r ≤ end_ r ∧ end_ r < 2 ^ 64 - 1 ∧ start r mod PAGE_SIZE = 0 ∧ (end_ r + 1) mod PAGE_SIZE = 0 ∧
  first_page (program_iter elf) (start r) ∧ last_page (program_iter elf) (end_ r) ∧
  ∀ ph, ph ∈ program_iter elf → allocatable ph = true → covers (start r) (end_ r) ph.
Proof.
  intros Hwf H. unfold calculate_address_range in H. out_inv_step.
  match goal with H : address_range_loop _ _ _ = Ret ?x |- _ => rename H into Hl; destruct x as [[lo hi]|]; [|done] end.
  destruct (Z.eqb_spec lo (2 ^ 64 - 1)) as [|Hne]; [done|]. unfold MemoryRange.new in H. out_inv.
  apply address_range_loop_ok in Hl as (_ & Hhi & Hlo & Hla & Hcov); [|done|done].
  destruct Hlo as [|Hf]; [done|]. cbn [start end_].
  destruct Hf as (p & Hp & Hpa & Ep). pose proof (Forall_forall ph_wf (program_iter elf)) as [Hall _].
  assert (last_page (program_iter elf) hi) as (p' & Hp' & Hpa' & Ep').
  { destruct Hla as [->|]; [|done]. by destruct (Hcov p Hp Hpa) as [_ Hc]. }
  destruct (Hall Hwf p Hp) as ([? ?] & _).
  pose proof (Z.mod_le (virtual_addr p) PAGE_SIZE ltac:(done) ltac:(done)).
  split_and!; [lia | lia | lia | | | by exists p | by exists p' |].
  - rewrite Ep, Zminus_mod_idemp_r, Z.sub_diag. done.
  - rewrite Ep'. replace (round_up _ _ - 1 + 1) with (round_up (virtual_addr p' + mem_size p') PAGE_SIZE) by lia.
    by apply round_up_spec.
  - intros ph Hph Hpha. by apply Hcov.
Qed.

(** The result of [load] when the checks pass, up to the mapping of the region. *)
Lemma load_inv elf log res :
  load read_rela (Some elf) [] = Ret (log, res) →
  (log = [] ∧ ∃ e, res = Err e) ∨
  ∃ r n, calculate_address_range elf = Ret (Ok r) ∧ n = end_ r - start r + 1 ∧
    ((log = [OMap n PageFlags.rw] ∧ base log = None ∧ res = Err MapperError) ∨
     ∃ b, base [OMap n PageFlags.rw] = Some b ∧
       ((∃ m t d, load_segments read_rela elf b (VirtAddr.new_extend (start r)) (program_iter elf) None
                    [OMap n PageFlags.rw] = Ret (m, Ok t) ∧ log = m ∧
                  VirtAddr.add b (entry elf - start r) = Ret d ∧ res = Ok (mkLoaded d t)) ∨
        (∃ m e, load_segments read_rela elf b (VirtAddr.new_extend (start r)) (program_iter elf) None
                  [OMap n PageFlags.rw] = Ret (m, Err e) ∧
                log = m ++ [OUnmap (mkRegion b n); ORollback] ∧ res = Err e))).
Proof.
  intros H. unfold load in H.
  apply eff_bind_inv in H as [(e & [=] & _)|(m0 & elf0 & [= <- <-] & H)].
  apply eff_bind_inv in H as [(e & [= <- _] & ->)|(m0 & [] & [= <- _] & H)]; [by left; eauto|].
  apply eff_bind_inv in H as [(e & (? & _ & [=] & _)%lift_Ok & _)|(m0 & r & (r0 & Hr & [= <-] & ->)%lift_Ok & H)].
  apply eff_bind_inv in H as [(e & [= <- ->] & ->)|(m0 & r' & [= <- ->] & H)]; [by left; eauto|].
  apply eff_bind_inv in H as [(e & (? & _ & [=] & _)%lift_Ok & _)|(m0 & n & (n' & Hn & [= <-] & ->)%lift_Ok & H)].
  right. exists r', n. unfold MemoryRange.size in Hn. out_inv. split_and!; [done | done |].
  set (n := end_ r' - start r' + 1) in *.
  apply eff_bind_inv in H as [(e & Hm & ->)|(m0 & region & Hm & H)]; unfold map_op in Hm; cbn in Hm.
  - left. destruct (base [OMap n PageFlags.rw]) eqn:Eb; cbn in Hm; simplify_eq. done.
  - right. destruct (base [OMap n PageFlags.rw]) as [b|] eqn:Eb; cbn in Hm; simplify_eq. exists b. split; [done|].
    cbn [virt_addr] in H. apply eff_bind_inv in H as [(e & Hl & ->)|(m1 & t & Hl & H)]; unfold or_unmap in Hl.
    + right. destruct (load_segments _ _ _ _ _ _ _) as [[m [t|e']]|] eqn:El; cbn in Hl; simplify_eq.
      exists m, e. rewrite <- app_assoc. done.
    + left. destruct (load_segments _ _ _ _ _ _ _) as [[m [t'|e']]|] eqn:El; cbn in Hl; simplify_eq.
      apply eff_bind_inv in H as [(e & (? & _ & [=] & _)%lift_Ok & _)|(m2 & d & (d' & Hd & [= <-] & ->)%lift_Ok & H)].
      apply eff_bind_inv in H as [(e & (? & _ & [=] & _)%lift_Ok & _)|(m3 & x & (x' & Hx & [= <-] & ->)%lift_Ok & H)].
      apply sub_w_Ret in Hd as [-> _]. injection H as <- <-. by exists m1, t, x.
Qed.

(** *** The image of a segment *)

(** What the operations make of memory, a function from addresses to bytes. *)
Definition apply_op (mem : Z → Z) (o : op) (a : Z) : Z :=
  match o with
  | OCopy dest src =>
      if (dest <=? a) && (a <? dest + Z.of_nat (length src))
      then default 0 (src !! Z.to_nat (a - dest)) else mem a
  | OZero dest size => if (dest <=? a) && (a <? dest + size) then 0 else mem a
  | OWrite addr v =>
      if (addr <=? a) && (a <? addr + 8) then v / 256 ^ (a - addr) mod 256 else mem a
  | _ => mem a
  end.

Definition replay (log : list op) (mem : Z → Z) : Z → Z := foldl apply_op mem log.

(** The byte at [i] of the segment of [ph]. *)
Definition image (elf : ElfFile) (ph : ProgramHeader) (i : Z) : Z :=
  if i <? file_size ph then default 0 (input elf !! Z.to_nat (offset ph + i)) else 0.

(** An operation leaves [n] bytes at [b] alone. *)
Definition spares (b n : Z) (o : op) : Prop :=
  match o with
  | OCopy dest src => dest + Z.of_nat (length src) ≤ b ∨ b + n ≤ dest
  | OZero dest size => dest + size ≤ b ∨ b + n ≤ dest
  | OWrite addr _ => addr + 8 ≤ b ∨ b + n ≤ addr
  | _ => True
  end.

Lemma replay_app l1 l2 mem : replay (l1 ++ l2) mem = replay l2 (replay l1 mem).
Proof. apply foldl_app. Qed.

Lemma replay_spares b n log mem a :
  Forall (spares b n) log → b ≤ a < b + n → replay log mem a = mem a.
Proof.
  intros Hl Ha. revert mem. induction Hl as [|o log Ho Hl IH]; intros mem; [done|].
  change (replay (o :: log) mem a) with (replay log (apply_op mem o) a). rewrite IH.
  destruct o as [| dest src | dest size | | | | addr v]; cbn in *; try done.
  - destruct (Z.leb_spec dest a), (Z.ltb_spec a (dest + Z.of_nat (length src))); done || lia.
  - destruct (Z.leb_spec dest a), (Z.ltb_spec a (dest + size)); done || lia.
  - destruct (Z.leb_spec addr a), (Z.ltb_spec a (addr + 8)); done || lia.
Qed.

Lemma mapper_op_Ok (f : list op → list op * bool) o m m' r :
  (∀ m, f m = (m ++ [o], succeeds (m ++ [o]))) → mapper_op f m = Ret (m', r) → m' = m ++ [o].
Proof. intros Hf. unfold mapper_op. rewrite Hf. by intros [= <- _]. Qed.

(** The operations of [load_segment] and of [load_tls_segment] when they succeed. *)
Definition data_ops (elf : ElfFile) (ph : ProgramHeader) (dest : Z) : list op :=
  (if 0 <? file_size ph
   then [OCopy dest (take (Z.to_nat (file_size ph)) (drop (Z.to_nat (offset ph)) (input elf)))] else []) ++
  (if file_size ph <? mem_size ph then [OZero (dest + file_size ph) (mem_size ph - file_size ph)] else []).
Definition segment_ops (elf : ElfFile) (ph : ProgramHeader) (dest : Z) : list op :=
  data_ops elf ph dest ++ match ph_type ph with Some Load => [OFlags (mkRegion dest (mem_size ph)) (compute_segment_flags ph)] | _ => [] end.

Lemma load_segment_ok elf ph b n lo m m' :
  ph_wf ph → placed b n lo ph → ph_type ph = Some Load →
  load_segment elf ph b lo m = Ret (m', Ok tt) →
  file_size ph ≤ mem_size ph ∧
  (0 < file_size ph → offset ph + file_size ph ≤ Z.of_nat (length (input elf))) ∧
  m' = m ++ segment_ops elf ph (b + (virtual_addr ph - lo)).
Proof.
  intros (Hv & Ho & Hf & Hm) Hp Ht H. pose proof Hp as (Hb & Hn & Hlo & Hin). unfold is_uint in Hv, Ho, Hf, Hm.
  unfold load_segment in H. destruct (Z.ltb_spec (mem_size ph) (file_size ph)); [done|]. split; [done|].
  apply eff_bind_inv in H as [(e & _ & [=])|(m1 & d & Hd & H)].
  apply eff_bind_inv in H as [(e & _ & [=])|(m2 & x & Hx & H)].
  destruct (dest_ok b n lo ph d m m1 m1 m2 x Hp Hv Hd Hx) as [-> ->].
  apply ok_or_Ok in Hd as [_ ->]. apply ok_or_Ok in Hx as [_ ->].
  set (dest := b + (virtual_addr ph - lo)) in *. unfold segment_ops, data_ops. rewrite Ht.
  apply eff_bind_inv in H as [(e & _ & [=])|(m1 & [] & H1 & H)].
  apply eff_bind_inv in H as [(e & _ & [=])|(m2 & [] & H2 & H)].
  eapply mapper_op_Ok in H; [|done]. rewrite new_extend_low in * by lia.
  assert (m2 = m1 ++ (if file_size ph <? mem_size ph then [OZero (dest + file_size ph) (mem_size ph - file_size ph)] else [])) as ->.
  { destruct (Z.ltb_spec (file_size ph) (mem_size ph)); [|injection H2 as <-; by rewrite app_nil_r].
    apply eff_bind_inv in H2 as [(e & _ & [=])|(m3 & bss & [Hbss ->]%ok_or_Ok & H2)].
    apply checked_add_Some in Hbss as [-> _]. eapply mapper_op_Ok in H2; [|done].
    by rewrite new_extend_low in H2 by lia. }
  destruct (Z.ltb_spec 0 (file_size ph)).
  - apply eff_bind_inv in H1 as [(e & _ & [=])|(m3 & r & (r' & Hr & [= <-] & ->)%lift_Ok & H1)].
    apply eff_bind_inv in H1 as [(e & _ & [=])|(m4 & fd & [-> ->]%ok_or_Ok & H1)].
    eapply mapper_op_Ok in H1; [|done]. unfold get_range in Hr. out_inv.
    destruct (Z.leb_spec (offset ph + file_size ph) (Z.of_nat (length (input elf)))); [|done]. simplify_eq.
    split; [done|]. by rewrite <- !app_assoc.
  - injection H1 as <-. split; [lia|]. by rewrite H, <- app_assoc.
Qed.

Lemma load_tls_segment_ok elf ph b n lo m m' :
  ph_wf ph → placed b n lo ph → ph_type ph = Some Tls → 0 < file_size ph →
  load_tls_segment ph (input elf) b lo m = Ret (m', Ok tt) →
  file_size ph ≤ mem_size ph ∧ offset ph + file_size ph ≤ Z.of_nat (length (input elf)) ∧
  m' = m ++ segment_ops elf ph (b + (virtual_addr ph - lo)).
Proof.
  intros (Hv & Ho & Hf & Hm) Hp Ht Hpos H. pose proof Hp as (Hb & Hn & Hlo & Hin). unfold is_uint in Hv, Ho, Hf, Hm.
  unfold load_tls_segment in H. rewrite (proj2 (Z.eqb_neq _ _)) in H by lia.
  destruct (Z.ltb_spec (mem_size ph) (file_size ph)); [done|]. split; [done|].
  apply eff_bind_inv in H as [(e & _ & [=])|(m1 & r & (r' & Hr & [= <-] & ->)%lift_Ok & H)].
  apply eff_bind_inv in H as [(e & _ & [=])|(m1 & fd & [-> ->]%ok_or_Ok & H)].
  apply eff_bind_inv in H as [(e & _ & [=])|(m1 & d & Hd & H)].
  apply eff_bind_inv in H as [(e & _ & [=])|(m2 & x & Hx & H)].
  destruct (dest_ok b n lo ph d m m1 m1 m2 x Hp Hv Hd Hx) as [-> ->].
  apply ok_or_Ok in Hd as [_ ->]. apply ok_or_Ok in Hx as [_ ->].
  set (dest := b + (virtual_addr ph - lo)) in *. unfold segment_ops, data_ops. rewrite Ht, app_nil_r.
  unfold get_range in Hr. out_inv.
  destruct (Z.leb_spec (offset ph + file_size ph) (Z.of_nat (length (input elf)))); [|done]. simplify_eq. split; [done|].
  apply eff_bind_inv in H as [(e & _ & [=])|(m1 & [] & Hc & H)]. eapply mapper_op_Ok in Hc; [|done].
  rewrite new_extend_low in * by lia. rewrite (proj2 (Z.ltb_lt _ _)) by lia. subst m1.
  destruct (Z.ltb_spec (file_size ph) (mem_size ph)); [|injection H as <-; by rewrite app_nil_r].
  apply eff_bind_inv in H as [(e & _ & [=])|(m3 & bss & [Hbss ->]%ok_or_Ok & H)].
  apply checked_add_Some in Hbss as [-> _]. eapply mapper_op_Ok in H; [|done].
  rewrite new_extend_low in H by lia. by rewrite H, <- app_assoc.
Qed.

(** The segment is in memory afterwards. *)
Lemma segment_ops_image elf ph dest mem i :
  ph_wf ph → file_size ph ≤ mem_size ph → 0 ≤ i < mem_size ph →
  (0 < file_size ph → offset ph + file_size ph ≤ Z.of_nat (length (input elf))) →
  replay (segment_ops elf ph dest) mem (dest + i) = image elf ph i.
Proof.
  intros (_ & [Ho _] & [Hf _] & _) Hle Hi Hlen. unfold segment_ops.
  assert (∀ l mem, replay (l ++ match ph_type ph with Some Load => [OFlags (mkRegion dest (mem_size ph)) (compute_segment_flags ph)] | _ => [] end) mem
    = replay l mem) as -> by (intros l mem'; rewrite replay_app; by repeat case_match).
  unfold data_ops. rewrite replay_app. unfold image.
  set (fd := take _ _). assert (0 < file_size ph → Z.of_nat (length fd) = file_size ph) as Hfd.
  { intros Hp. specialize (Hlen Hp). unfold fd. rewrite length_take, length_drop. lia. }
  destruct (Z.ltb_spec i (file_size ph)) as [Hlt|Hge].
  - destruct (Z.ltb_spec 0 (file_size ph)); [|lia]. specialize (Hfd ltac:(lia)). specialize (Hlen ltac:(lia)).
    transitivity (replay [OCopy dest fd] mem (dest + i)).
    + destruct (file_size ph <? mem_size ph); [|done]. cbn.
      destruct (Z.leb_spec (dest + file_size ph) (dest + i)); [lia | done].
    + cbn. destruct (Z.leb_spec dest (dest + i)), (Z.ltb_spec (dest + i) (dest + Z.of_nat (length fd))); try lia.
      cbn [andb]. unfold fd. rewrite lookup_take_lt by lia. rewrite lookup_drop. do 2 f_equal. lia.
  - destruct (Z.ltb_spec (file_size ph) (mem_size ph)); [|lia]. cbn.
    destruct (Z.leb_spec (dest + file_size ph) (dest + i)), (Z.ltb_spec (dest + i) (dest + file_size ph + (mem_size ph - file_size ph)));
      done || lia.
Qed.

(** Headers whose segment does not overlap that of [ph] *)
Definition apart (ph p : ProgramHeader) : Prop :=
  allocatable p = true →
  virtual_addr p + mem_size p ≤ virtual_addr ph ∨ virtual_addr ph + mem_size ph ≤ virtual_addr p.

(** The relocation table that a DYNAMIC header leads to: the entries of [RELA_SIZE] bytes in the file, at the place in a
    LOAD segment that its [Rela] tag names, as many as its [RelaSize] tag has room for. *)
Definition rela_table (elf : ElfFile) (ph : ProgramHeader) : list RelaEntry :=
  match find_rela (default [] (ph_dynamic ph)) (None, None, None) with
  | Ok (Some vaddr, Some size, Some _) =>
      match vaddr_to_file_offset (program_iter elf) vaddr with
      | Ret (Some off) =>
          (λ i, read_rela (take (Z.to_nat RELA_SIZE) (drop (Z.to_nat (off + i * RELA_SIZE)) (input elf)))) <$> seqZ 0 (size / RELA_SIZE)
      | _ => []
      end
  | _ => []
  end.

(** The writes for its relative relocations, in the order of the table; other kinds are skipped. *)
Definition rela_write (b lo : Z) (e : RelaEntry) : list op :=
  if (get_symbol_table_index e =? 0) && (get_type e =? R_RELATIVE) then [OWrite (b + (get_offset e - lo)) (b + get_addend e)] else [].
Definition rela_writes (elf : ElfFile) (b lo : Z) (ph : ProgramHeader) : list op :=
  match ph_type ph with Some Dynamic => rela_table elf ph ≫= rela_write b lo | _ => [] end.

Lemma replay_at l mem mem' a : mem a = mem' a → replay l mem a = replay l mem' a.
Proof.
  revert mem mem'. induction l as [|o l IH]; intros mem mem' E; [done|]. apply IH. by destruct o; cbn; rewrite ?E.
Qed.

(** *** Relocations *)

Lemma relocate_ok elf segs off b lo i m m' :
  relocate read_rela elf segs off RELA_SIZE b lo i m = Ret (m', Ok tt) →
  m' = m ++ rela_write b lo (read_rela (take (Z.to_nat RELA_SIZE) (drop (Z.to_nat (off + i * RELA_SIZE)) (input elf)))).
Proof.
  intros H. unfold relocate in H.
  apply eff_bind_inv in H as [(e & _ & [=])|(m1 & k & (k' & Hk & [= <-] & ->)%lift_Ok & H)].
  apply mul_w_Ret in Hk as [-> _].
  apply eff_bind_inv in H as [(e & _ & [=])|(m1 & o & (o' & Ho & [= <-] & ->)%lift_Ok & H)].
  apply add_w_Ret in Ho as [-> _]. set (e := read_rela _) in *. unfold rela_write.
  destruct (get_symbol_table_index e =? 0), (get_type e =? R_RELATIVE); cbn [negb orb andb] in *;
    try (injection H as <-; by rewrite app_nil_r).
  destruct (negb _); [done|].
  apply eff_bind_inv in H as [(e' & _ & [=])|(m1 & d & [Hd ->]%ok_or_Ok & H)].
  apply eff_bind_inv in H as [(e' & _ & [=])|(m1 & x & [[-> _]%checked_add_Some ->]%ok_or_Ok & H)].
  apply eff_bind_inv in H as [(e' & _ & [=])|(m1 & v & [[-> _]%checked_add_Some ->]%ok_or_Ok & H)].
  unfold checked_sub in Hd. destruct (_ <=? _); [|done]. injection Hd as <-. by injection H as <-.
Qed.

Lemma relocate_all_ok elf segs off b lo n i m m' :
  relocate_all read_rela elf segs off RELA_SIZE b lo i n m = Ret (m', Ok tt) →
  m' = m ++ (((λ i, read_rela (take (Z.to_nat RELA_SIZE) (drop (Z.to_nat (off + i * RELA_SIZE)) (input elf)))) <$> seqZ i (Z.of_nat n))
    ≫= rela_write b lo).
Proof.
  revert i m. induction n as [|n IH]; intros i m H; cbn [relocate_all] in H.
  { injection H as <-. by rewrite app_nil_r. }
  apply eff_bind_inv in H as [(e & _ & [=])|(m1 & [] & H1%relocate_ok & H)]. apply IH in H. subst.
  rewrite (seqZ_cons i (Z.of_nat (S n))) by lia. replace (Z.pred (Z.of_nat (S n))) with (Z.of_nat n) by lia.
  cbn [fmap list_fmap mbind list_bind]. by rewrite <- app_assoc.
Qed.

(** The operations of [process_relocations] when it succeeds *)
Lemma process_relocations_ok elf ph b lo m m' :
  process_relocations read_rela elf ph b lo m = Ret (m', Ok tt) → m' = m ++ (rela_table elf ph ≫= rela_write b lo).
Proof.
  intros H. unfold process_relocations in H. unfold rela_table.
  apply eff_bind_inv in H as [(e & _ & [=])|(m1 & entries & [-> ->]%ok_or_Ok & H)]. change (default [] (Some entries)) with entries.
  apply eff_bind_inv in H as [(e & _ & [=])|(m1 & [[rv rs] re] & [= <- Hf] & H)]. rewrite Hf.
  destruct rv as [vaddr|]; [|injection H as <-; by rewrite app_nil_r].
  apply eff_bind_inv in H as [(e & _ & [=])|(m1 & size & [-> ->]%ok_or_Ok & H)].
  apply eff_bind_inv in H as [(e & _ & [=])|(m1 & ent & [-> ->]%ok_or_Ok & H)].
  destruct (Z.eqb_spec ent RELA_SIZE) as [->|]; [|done]. cbn [negb] in H.
  apply eff_bind_inv in H as [(e & _ & [=])|(m1 & o & (o' & -> & [= <-] & ->)%lift_Ok & H)].
  apply eff_bind_inv in H as [(e & _ & [=])|(m1 & off & [-> ->]%ok_or_Ok & H)].
  apply eff_bind_inv in H as [(e & _ & [=])|(m1 & en & [_ ->]%ok_or_Ok & H)].
  destruct (_ <? en); [done|].
  apply eff_bind_inv in H as [(e & _ & [=])|(m1 & segs & [= <- _] & H)]. apply relocate_all_ok in H. rewrite H.
  do 3 f_equal. unfold seqZ. by rewrite Nat2Z.id.
Qed.

(** After a segment, the other headers change its bytes only by their relocations. *)
Lemma load_segments_after elf ph phs tls b n lo m m' t :
  Forall ph_wf phs → Forall (apart ph) phs →
  (∀ p, p ∈ phs → allocatable p = true → placed b n lo p) →
  load_segments read_rela elf b lo phs tls m = Ret (m', Ok t) →
  ∃ l, m' = m ++ l ∧ ∀ mem a, b + (virtual_addr ph - lo) ≤ a < b + (virtual_addr ph - lo) + mem_size ph →
    replay l mem a = replay (phs ≫= rela_writes elf b lo) mem a.
Proof.
  intros Hwf Hap Hphs. revert tls m. induction phs as [|p phs IH]; intros tls m H.
  { injection H as <- _. exists []. by rewrite app_nil_r. }
  apply Forall_cons in Hwf as [Hp Hwf]. apply Forall_cons in Hap as [Hov Hap]. cbn [load_segments] in H.
  assert (∀ tls m0 l0, m0 = m ++ l0 → load_segments read_rela elf b lo phs tls m0 = Ret (m', Ok t) →
    (∀ mem a, b + (virtual_addr ph - lo) ≤ a < b + (virtual_addr ph - lo) + mem_size ph → replay l0 mem a = replay (rela_writes elf b lo p) mem a) →
    ∃ l, m' = m ++ l ∧ ∀ mem a, b + (virtual_addr ph - lo) ≤ a < b + (virtual_addr ph - lo) + mem_size ph →
      replay l mem a = replay ((p :: phs) ≫= rela_writes elf b lo) mem a) as Hrec.
  { intros tls' m0 l0 -> H0 Hl0. destruct (IH Hwf Hap ltac:(intros; apply Hphs; [by right | done]) tls' _ H0) as (l & -> & Hl).
    exists (l0 ++ l). rewrite app_assoc. split; [done|]. intros mem a Ha. cbn [mbind list_bind]. rewrite !replay_app, Hl by done.
    by apply replay_at, Hl0. }
  assert (∀ l0, Forall (spares (b + (virtual_addr ph - lo)) (mem_size ph)) l0 → ph_type p ≠ Some Dynamic → ∀ mem a,
    b + (virtual_addr ph - lo) ≤ a < b + (virtual_addr ph - lo) + mem_size ph → replay l0 mem a = replay (rela_writes elf b lo p) mem a) as Hsp.
  { intros l0 Hl0 Hnd mem a Ha. rewrite (replay_spares _ _ _ _ _ Hl0 Ha). unfold rela_writes. by destruct (ph_type p) as [[]|]. }
  assert (allocatable p = true → ∀ l0, Forall (seg_op (b + (virtual_addr p - lo)) (mem_size p)) l0 → Forall (spares (b + (virtual_addr ph - lo)) (mem_size ph)) l0) as Hseg.
  { intros Ha l0 Hl0. specialize (Hov Ha). eapply Forall_impl; [exact Hl0|]. intros o [Hin Hno]. destruct o; cbn in *; try done; lia. }
  assert (allocatable p = true → placed b n lo p) as Hpl by (apply Hphs; left).
  apply eff_bind_inv in H as [(e & _ & [=])|(m1 & pt & [Ept ->]%ok_or_Ok & H)].
  unfold allocatable in Hpl, Hseg. rewrite Ept in Hpl, Hseg, Hsp. destruct pt.
  - apply eff_bind_inv in H as [(e & _ & [=])|(m2 & [] & H1 & H)].
    destruct (load_segment_emits elf p b n lo Hp (Hpl eq_refl) _ _ _ H1) as (l0 & -> & Hl0). apply (Hrec tls _ l0 eq_refl H). apply Hsp; [by apply Hseg | done].
  - apply eff_bind_inv in H as [(e & _ & [=])|(m2 & [] & H1 & H)].
    destruct (load_tls_segment_emits p (input elf) b n lo Hp (Hpl eq_refl) _ _ _ H1) as (l0 & -> & Hl0).
    apply eff_bind_inv in H as [(e & _ & [=])|(m3 & st & (x & _ & _ & ->)%lift_Ok & H)]. apply (Hrec _ _ l0 eq_refl H). apply Hsp; [by apply Hseg | done].
  - apply eff_bind_inv in H as [(e & _ & [=])|(m2 & [] & H1%process_relocations_ok & H)].
    apply (Hrec tls _ _ H1 H). intros mem a _. unfold rela_writes. by rewrite Ept.
  - apply eff_bind_inv in H as [(e & _ & [=])|(m2 & [] & H1 & H)]. unfold process_gnu_relro in H1.
    apply eff_bind_inv in H1 as [(e & _ & [=])|(m3 & va & (x & _ & _ & ->)%lift_Ok & H1)].
    eapply mapper_op_Ok in H1; [|done]. apply (Hrec tls _ _ H1 H). apply Hsp; [by repeat constructor | done].
  - done.
  - apply (Hrec tls m [] ltac:(by rewrite app_nil_r) H). by apply Hsp.
Qed.

(** Loading the headers before [ph], then [ph], then the others. *)
Lemma load_segments_app elf b lo pre phs tls m m' t :
  load_segments read_rela elf b lo (pre ++ phs) tls m = Ret (m', Ok t) →
  ∃ m1 t1, load_segments read_rela elf b lo phs t1 m1 = Ret (m', Ok t).
Proof.
  revert tls m. induction pre as [|p pre IH]; intros tls m; cbn [app load_segments]; [eauto|]. intros H.
  apply eff_bind_inv in H as [(e & _ & [=])|(m1 & pt & [Hpt ->]%ok_or_Ok & H)].
  destruct pt; try (by apply IH in H); try done;
    apply eff_bind_inv in H as [(e & _ & [=])|(m2 & [] & _ & H)]; try (by apply IH in H).
  apply eff_bind_inv in H as [(e & _ & [=])|(m3 & st & _ & H)]. by apply IH in H.
Qed.

(** Segments that are filled: LOAD segments, and TLS segments with bytes in the file *)
Definition filled (ph : ProgramHeader) : Prop := ph_type ph = Some Load ∨ ph_type ph = Some Tls ∧ 0 < file_size ph.

Lemma load_segments_image elf pre ph post b n lo m m' t mem i :
  program_iter elf = pre ++ ph :: post → Forall ph_wf (program_iter elf) → filled ph → Forall (apart ph) post →
  (∀ p, p ∈ program_iter elf → allocatable p = true → placed b n lo p) →
  load_segments read_rela elf b lo (program_iter elf) None m = Ret (m', Ok t) → 0 ≤ i < mem_size ph →
  let a := b + (virtual_addr ph - lo) + i in
  replay m' mem a = replay (post ≫= rela_writes elf b lo) (λ _, image elf ph i) a.
Proof.
  intros Eph Hwf Ht Hap Hpl H Hi a. rewrite Eph in H. apply load_segments_app in H as (m1 & t1 & H).
  rewrite Eph in Hwf. apply Forall_app in Hwf as [_ [Hwph Hwpost]%Forall_cons].
  assert (placed b n lo ph) as Hp.
  { apply Hpl; [rewrite Eph; apply elem_of_app; right; left | unfold allocatable; by destruct Ht as [->|[-> _]]]. }
  assert (∃ t2 m2, load_segments read_rela elf b lo post t2 m2 = Ret (m', Ok t) ∧ m2 = m1 ++ segment_ops elf ph (b + (virtual_addr ph - lo)) ∧
    file_size ph ≤ mem_size ph ∧ (0 < file_size ph → offset ph + file_size ph ≤ Z.of_nat (length (input elf)))) as (t2 & m2 & H2 & -> & Hle & Hlen).
  { cbn [load_segments] in H. apply eff_bind_inv in H as [(e & _ & [=])|(m2 & pt & [Ept ->]%ok_or_Ok & H)].
    destruct Ht as [Ht|[Ht Hpos]]; rewrite Ht in Ept; injection Ept as <-;
      apply eff_bind_inv in H as [(e & _ & [=])|(m3 & [] & Hs & H)].
    - apply (load_segment_ok elf ph b n lo) in Hs as (Hle & Hlen & ->); [|done..]. by eexists _, _.
    - apply (load_tls_segment_ok elf ph b n lo) in Hs as (Hle & Hlen & ->); [|done..].
      apply eff_bind_inv in H as [(e & _ & [=])|(m4 & st & (x & _ & _ & ->)%lift_Ok & H)]. by eexists _, _. }
  assert (∀ p, p ∈ post → allocatable p = true → placed b n lo p) as Hpost.
  { intros p Hp'. apply Hpl. rewrite Eph. apply elem_of_app. right. by right. }
  destruct (load_segments_after elf ph post t2 b n lo _ _ _ Hwpost Hap Hpost H2) as (l & -> & Hl).
  rewrite !replay_app, Hl by (unfold a; lia). apply replay_at. by apply segment_ops_image.
Qed.

(** The template of the last TLS header. *)
Definition last_tls (b lo : Z) (phs : list ProgramHeader) (tls : option TlsTemplate) : option TlsTemplate :=
  foldl (λ t ph, match ph_type ph with
                 | Some Tls => Some (mkTls (b + (virtual_addr ph - lo)) (file_size ph) (mem_size ph))
                 | _ => t
                 end) tls phs.

Lemma runtime_addr_ok b n lo ph d :
  placed b n lo ph → 0 ≤ mem_size ph → runtime_addr ph b lo = Ret d → d = b + (virtual_addr ph - lo).
Proof.
  intros (Hb & Hn & Hlo & Hm) Hms H. unfold runtime_addr, VirtAddr.add in H. out_inv.
  apply new_extend_low. lia.
Qed.

Lemma load_segments_tls elf phs tls b n lo m m' t :
  Forall ph_wf phs → (∀ p, p ∈ phs → allocatable p = true → placed b n lo p) →
  load_segments read_rela elf b lo phs tls m = Ret (m', Ok t) → t = last_tls b lo phs tls.
Proof.
  intros Hwf. revert tls m. induction phs as [|ph phs IH]; intros tls m Hpl; cbn [load_segments].
  { by intros [= _ ->]. }
  apply Forall_cons in Hwf as [(_ & _ & _ & [Hms _]) Hwf]. intros H.
  assert (∀ tls m, load_segments read_rela elf b lo phs tls m = Ret (m', Ok t) → t = last_tls b lo phs tls) as Hrec.
  { intros tls' m0. apply (IH Hwf). intros p Hp. apply Hpl. by right. }
  unfold last_tls. cbn [foldl].
  apply eff_bind_inv in H as [(e & _ & [=])|(m1 & pt & [Hpt ->]%ok_or_Ok & H)]. rewrite Hpt.
  destruct pt; try (by apply Hrec in H); try done;
    apply eff_bind_inv in H as [(e & _ & [=])|(m2 & [] & _ & H)]; try (by apply Hrec in H).
  apply eff_bind_inv in H as [(e & _ & [=])|(m3 & st & (x & Hx & [= <-] & _)%lift_Ok & H)].
  assert (placed b n lo ph) as Hp by (apply Hpl; [left | unfold allocatable; by rewrite Hpt]).
  rewrite (runtime_addr_ok b n lo ph st Hp Hms Hx) in H. by apply Hrec in H.
Qed.

(** *** Panics

    A file whose segments are not empty and hold their part of the file, with no sum of
    its fields over 64 bits, and which protects and enters addresses of the segments. *)
Definition regular (lo hi : Z) (ph : ProgramHeader) : Prop :=
  (allocatable ph = true → 0 < mem_size ph ∧ virtual_addr ph + mem_size ph < 2 ^ 64) ∧
  file_size ph ≤ mem_size ph ∧ offset ph + file_size ph < 2 ^ 64 ∧
  (ph_type ph = Some GnuRelro → lo ≤ virtual_addr ph ≤ hi) ∧
  (∀ l e, ph_dynamic ph = Some l → e ∈ l → ∀ v, get_val e = Some v → 0 ≤ v).

(** [f] does not panic. *)
Definition returns {A} (f : elf_eff A) : Prop := ∀ m, f m ≠ Panic.

Lemma returns_bind {A B} (f : elf_eff A) (g : A → elf_eff B) :
  returns f → (∀ a m m', f m = Ret (m', Ok a) → returns (g a)) → returns (f ≫= g).
Proof.
  intros Hf Hg m. unfold mbind, eff_bind. specialize (Hf m).
  destruct (f m) as [[m1 [a|e]]|] eqn:E; [by eapply Hg | done | done].
Qed.

Lemma bind_panic {A B} (f : elf_eff A) (g : A → elf_eff B) m :
  (f ≫= g) m = Panic → f m = Panic ∨ ∃ m1 a, f m = Ret (m1, Ok a) ∧ g a m1 = Panic.
Proof. unfold mbind, eff_bind. destruct (f m) as [[m1 [a|e]]|]; [|done|by left]. right. eauto. Qed.

Lemma returns_of_result {A} (r : result A ElfLoadError) : returns (of_result r).
Proof. done. Qed.
Lemma returns_ret {A} (a : A) : returns (mret a : elf_eff A).
Proof. done. Qed.
Lemma returns_throw {A} e : returns (throw e : elf_eff A).
Proof. done. Qed.
Lemma returns_ok_or {A} (o : option A) e : returns (ok_or o e : elf_eff A).
Proof. by destruct o. Qed.
Lemma returns_lift {A} (o : out A) : o ≠ Panic → returns (lift o : elf_eff A).
Proof. intros Ho m. by destruct o. Qed.
Lemma returns_op (f : list op → list op * bool) : returns (mapper_op f).
Proof. intros m. unfold mapper_op. by destruct (f m). Qed.

Lemma get_range_returns l o n : o + n < 2 ^ 64 → get_range l o n ≠ Panic.
Proof. intros H. unfold get_range. by rewrite add_w_ok. Qed.

Lemma add_returns a b : a + b < 2 ^ 64 → VirtAddr.add a b ≠ Panic.
Proof. intros H. unfold VirtAddr.add. by rewrite add_w_ok. Qed.

#[local] Hint Resolve returns_of_result returns_ret returns_throw returns_ok_or returns_op : core.

(** One operation after the other. *)
Local Ltac steps := repeat (apply returns_bind; [by auto | intros; try done]).

Lemma load_segment_returns elf ph b lo :
  offset ph + file_size ph < 2 ^ 64 → returns (load_segment elf ph b lo).
Proof.
  intros H. unfold load_segment. destruct (_ <? _); [done|]. steps.
  apply returns_bind.
  { destruct (_ <? _); [|done]. apply returns_bind; [by apply returns_lift, get_range_returns | intros; steps]; auto. }
  intros _ _ _ _. apply returns_bind; [|auto]. destruct (_ <? _); [|done]. steps; auto.
Qed.

Lemma load_tls_segment_returns ph inp b lo :
  offset ph + file_size ph < 2 ^ 64 → returns (load_tls_segment ph inp b lo).
Proof.
  intros H. unfold load_tls_segment. destruct (_ =? _); [done|]. destruct (_ <? _); [done|].
  apply returns_bind; [by apply returns_lift, get_range_returns | intros; steps].
  destruct (_ <? _); [|done]. steps; auto.
Qed.

Lemma vaddr_to_file_offset_returns lo hi phs vaddr :
  Forall ph_wf phs → Forall (regular lo hi) phs → vaddr_to_file_offset phs vaddr ≠ Panic.
Proof.
  intros Hwf Hr. induction phs as [|ph phs IH]; [done|].
  apply Forall_cons in Hwf as [_ Hwf]. apply Forall_cons in Hr as [(Ha & Hf & Ho & _) Hr].
  specialize (IH Hwf Hr). cbn [vaddr_to_file_offset].
  destruct (ph_type ph) as [[]|] eqn:E; try done.
  destruct Ha as [Ha1 Ha2]; [unfold allocatable; by rewrite E|].
  destruct (Z.leb_spec (virtual_addr ph) vaddr); [|done]. cbn [negb].
  rewrite (add_w_ok 64 (virtual_addr ph)) by lia. cbn [mbind out_bind].
  destruct (Z.ltb_spec vaddr (virtual_addr ph + file_size ph)); [|done]. rewrite add_w_ok by lia. done.
Qed.

Lemma vaddr_to_file_offset_nonneg phs vaddr o :
  Forall ph_wf phs → vaddr_to_file_offset phs vaddr = Ret (Some o) → 0 ≤ o.
Proof.
  intros Hwf. induction Hwf as [|ph phs (_ & [Ho _] & _) _ IH]; [done|]. cbn [vaddr_to_file_offset].
  destruct (ph_type ph) as [[]|]; try done.
  destruct (Z.leb_spec (virtual_addr ph) vaddr) as [Hle|]; [|done]. cbn [negb]. intros H. out_inv_step.
  destruct (_ <? _); [|by apply IH]. out_inv. lia.
Qed.

Lemma find_rela_val l r rv re s :
  find_rela l r = Ok (rv, Some s, re) → (∀ e, e ∈ l → ∀ v, get_val e = Some v → 0 ≤ v) →
  (∀ s0, r.1.2 = Some s0 → 0 ≤ s0) → 0 ≤ s.
Proof.
  revert r. induction l as [|e l IH]; intros [[rv0 rs0] re0] H Hv Hr; cbn [find_rela] in H.
  { injection H as -> -> ->. by apply Hr. }
  assert (∀ e', e' ∈ l → ∀ v, get_val e' = Some v → 0 ≤ v) as Hv' by (intros e' He'; apply Hv; by right).
  destruct (get_tag e) as [[]|]; try done.
  - destruct (get_ptr e); [|done]. by apply IH in H.
  - destruct (get_val e) as [v|] eqn:Ev; [|done]. apply IH in H; [done | done |].
    intros s0 [= <-]. apply (Hv e); [left | done].
  - destruct (get_val e); [|done]. by apply IH in H.
  - by apply IH in H.
Qed.

Lemma relocate_all_returns elf segs off b lo i n :
  0 ≤ i → off + (i + Z.of_nat n) * RELA_SIZE < 2 ^ 64 → 0 ≤ off →
  returns (relocate_all read_rela elf segs off RELA_SIZE b lo i n).
Proof.
  revert i. induction n as [|n IH]; intros i Hi Hn Hoff; [done|]. cbn [relocate_all]. unfold RELA_SIZE in *.
  apply returns_bind; [|intros _ _ _ _; apply IH; lia]. unfold relocate.
  rewrite mul_w_ok by lia. apply returns_bind; [done|]. intros k m m' (x & [= Hx] & [= ->] & _)%lift_Ok. subst x.
  rewrite add_w_ok by lia. apply returns_bind; [done|]. intros o m1 m1' _.
  destruct (_ || _); [done|]. destruct (negb _); [done|]. steps.
Qed.

Lemma process_relocations_returns elf ph b lo lo' hi :
  Forall ph_wf (program_iter elf) → Forall (regular lo' hi) (program_iter elf) → ph ∈ program_iter elf →
  returns (process_relocations read_rela elf ph b lo).
Proof.
  intros Hwf Hr Hph. unfold process_relocations.
  apply returns_bind; [done|]. intros entries m1 m1' [He _]%ok_or_Ok.
  apply returns_bind; [done|]. intros [[[reloc|] rs] re] m2 m2' [= _ Hf]; [|done].
  apply returns_bind; [done|]. intros rsize m3 m3' [-> _]%ok_or_Ok.
  apply returns_bind; [done|]. intros ent m4 m4' _.
  destruct (Z.eqb_spec ent RELA_SIZE) as [->|]; [|done]. cbn [negb].
  apply returns_bind; [by eapply returns_lift, vaddr_to_file_offset_returns|]. intros o m5 m5' (x & Ho & [= <-] & _)%lift_Ok.
  apply returns_bind; [done|]. intros off m6 m6' [-> _]%ok_or_Ok.
  apply returns_bind; [done|]. intros e m7 m7' [[-> Hlt]%checked_add_Some _]%ok_or_Ok.
  destruct (_ <? _); [done|]. apply returns_bind; [done|]. intros segs m8 m8' _.
  assert (0 ≤ rsize) as Hrs.
  { rewrite Forall_forall in Hr. destruct (Hr ph Hph) as (_ & _ & _ & _ & Hd).
    apply find_rela_val in Hf; [done | intros e; by apply Hd | done]. }
  apply vaddr_to_file_offset_nonneg in Ho; [|done]. unfold RELA_SIZE in *.
  apply relocate_all_returns; [done | | done].
  pose proof (Z.mul_div_le rsize 24 ltac:(done)). unfold RELA_SIZE. lia.
Qed.

Lemma load_segments_returns elf phs tls b n lo hi :
  Forall ph_wf (program_iter elf) → Forall (regular lo hi) (program_iter elf) →
  (∀ p, p ∈ phs → p ∈ program_iter elf) → 0 ≤ b → b + n < 2 ^ 47 → hi - lo < n →
  (∀ p, p ∈ program_iter elf → allocatable p = true → lo ≤ virtual_addr p ≤ hi) →
  returns (load_segments read_rela elf b lo phs tls).
Proof.
  intros Hwf Hr Hsub Hb Hn Hhi Hall. revert tls. induction phs as [|ph phs IH]; intros tls; [done|].
  assert (∀ tls, returns (load_segments read_rela elf b lo phs tls)) as Hrec.
  { apply IH. intros p Hp. apply Hsub. by right. }
  assert (ph ∈ program_iter elf) as Hph by (apply Hsub; left).
  pose proof (proj1 (Forall_forall _ _) Hr ph Hph) as (_ & _ & Ho & Hg & _).
  cbn [load_segments]. apply returns_bind; [done|]. intros pt m m' [Ept _]%ok_or_Ok.
  assert (lo ≤ virtual_addr ph ≤ hi → returns (lift (runtime_addr ph b lo) : elf_eff Z)) as Hra.
  { intros Hv. apply returns_lift. unfold runtime_addr. rewrite sub_w_ok by lia. apply add_returns. lia. }
  specialize (Hall ph Hph). unfold allocatable in Hall. rewrite Ept in *. destruct pt.
  - apply returns_bind; [by apply load_segment_returns | done].
  - apply returns_bind; [by apply load_tls_segment_returns|]. intros _ _ _ _.
    apply returns_bind; [by apply Hra, Hall | done].
  - apply returns_bind; [by eapply process_relocations_returns | done].
  - apply returns_bind; [|done]. unfold process_gnu_relro.
    apply returns_bind; [by apply Hra, Hg | auto].
  - done.
  - apply Hrec.
Qed.

(** The range of a regular file. *)
Lemma address_range_loop_returns lo hi phs mn mx :
  Forall ph_wf phs → Forall (regular lo hi) phs → address_range_loop phs mn mx ≠ Panic.
Proof.
  intros Hwf Hr. revert mn mx. induction phs as [|ph phs IH]; intros mn mx; [done|].
  apply Forall_cons in Hwf as [(Hv & _ & _ & Hm) Hwf]. apply Forall_cons in Hr as [(Ha & _) Hr].
  specialize (IH Hwf Hr). cbn [address_range_loop]. destruct (allocatable ph); [|apply IH]. cbn [negb].
  destruct (Ha eq_refl) as [Ha1 Ha2]. unfold is_uint in Hv, Hm.
  unfold checked_add. destruct (Z.ltb_spec (virtual_addr ph + mem_size ph) (2 ^ 64)); [|lia].
  rewrite align_down_page, align_up_page by (unfold is_uint; lia). cbn [mbind out_bind].
  destruct (Z.ltb_spec (virtual_addr ph + mem_size ph + (PAGE_SIZE - 1)) (2 ^ 64)); [|done].
  destruct (round_up_spec (virtual_addr ph + mem_size ph) PAGE_SIZE ltac:(done)) as (_ & Hr2 & _).
  rewrite sub_w_ok by lia. apply IH.
Qed.

Lemma calculate_returns lo hi elf :
  Forall ph_wf (program_iter elf) → Forall (regular lo hi) (program_iter elf) →
  calculate_address_range elf ≠ Panic.
Proof.
  intros Hwf Hr. unfold calculate_address_range.
  destruct (address_range_loop _ _ _) as [res|] eqn:E; [|by apply (address_range_loop_returns lo hi) in E].
  cbn [mbind out_bind]. destruct res as [[mn mx]|]; [|done].
  destruct (Z.eqb_spec mn (2 ^ 64 - 1)); [done|].
  apply address_range_loop_ok in E as (_ & Hmx & [Hmn|(p & Hp & Ha & Ep)] & _ & Hc); [done | | done | done].
  destruct (Hc p Hp Ha) as [[H1 H2] _].
  destruct (proj1 (Forall_forall _ _) Hr p Hp) as [H3 _]. apply H3 in Ha as [H4 _].
  unfold MemoryRange.new. destruct (Z.leb_spec mn mx); [done | lia].
Qed.

(** *** The loader *)

Context (elf : ElfFile).

(** The segments start at a canonical address and the mapper maps in the lower half. *)
Definition lower_half : Prop :=
  (∀ n flags b, base [OMap n flags] = Some b → 0 ≤ b ∧ b + n < 2 ^ 47) ∧
  ∀ r, calculate_address_range elf = Ret (Ok r) → VirtAddr.canonical (start r).

Lemma range_placed r b :
  Forall ph_wf (program_iter elf) → calculate_address_range elf = Ret (Ok r) →
  0 ≤ b → b + (end_ r - start r + 1) < 2 ^ 47 →
  ∀ p, p ∈ program_iter elf → allocatable p = true → placed b (end_ r - start r + 1) (start r) p.
Proof.
  intros Hwf Hr Hb Hn p Hp Ha. apply calculate_ok in Hr as (_ & _ & _ & _ & _ & _ & Hc); [|done].
  destruct (Hc p Hp Ha). unfold placed. lia.
Qed.


(** C5: for a file whose segments start at a canonical address, and a mapper that maps in the lower half, a load that
    returns copies, zeroes and changes flags only in the region that it maps, which is the range of the segments.  The
    one exception are GNU_RELRO headers: the range that such a header names, moved along with the segments but not
    checked against the region, becomes read-only.  For relocations the region holds the first byte written.  When a
    load fails after mapping, it ends by unmapping the region and rolling back, and when mapping fails nothing else is
    done. *)
Theorem elf_load_contained log res :
  Forall ph_wf (program_iter elf) → lower_half →
  load read_rela (Some elf) [] = Ret (log, res) →
  (log = [] ∧ ∃ e, res = Err e) ∨
  ∃ r n, calculate_address_range elf = Ret (Ok r) ∧ n = end_ r - start r + 1 ∧
    ((log = [OMap n PageFlags.rw] ∧ base log = None ∧ res = Err MapperError) ∨
     ∃ b l, base [OMap n PageFlags.rw] = Some b ∧ Forall (λ o, inside b n o ∨ protects elf b (start r) o) l ∧
       ((∃ bin, res = Ok bin ∧ log = OMap n PageFlags.rw :: l) ∨
        (∃ e, res = Err e ∧ log = OMap n PageFlags.rw :: l ++ [OUnmap (mkRegion b n); ORollback]))).
Proof.
  intros Hwf [Hlow Hcan] H. apply load_inv in H as [H|(r & n & Hr & -> & H)]; [by left | right].
  exists r, (end_ r - start r + 1). split_and!; [done | done |].
  destruct H as [H|(b & Hb & H)]; [by left | right]. exists b.
  destruct (Hlow _ _ _ Hb) as [Hb0 Hb1]. rewrite (new_extend_id _ (Hcan r Hr)) in H.
  pose proof (range_placed r b Hwf Hr Hb0 Hb1) as Hpl.
  pose proof (load_segments_emits elf (program_iter elf) None b _ (start r) Hwf Hb0 Hb1 (λ p Hp, Hp) Hpl) as Hem.
  destruct H as [(m & t & d & Hs & -> & _ & ->)|(m & e & Hs & -> & ->)];
    destruct (Hem _ _ _ Hs) as (l & -> & Hl); exists l; split_and!; try done; [left | right]; by eexists.
Qed.


(** Loading a regular file never panics, whatever the mapper does. *)
Theorem elf_load_returns lo hi :
  Forall ph_wf (program_iter elf) → lower_half →
  (∀ r, calculate_address_range elf = Ret (Ok r) → r = mkRange lo hi) →
  Forall (regular lo hi) (program_iter elf) → lo ≤ entry elf ≤ hi →
  ∃ log res, load read_rela (Some elf) [] = Ret (log, res).
Proof.
  intros Hwf [Hlow Hcan] Hrange Hreg Hentry. destruct (load _ _ _) as [[log res]|] eqn:E; [eauto | exfalso].
  unfold load in E. apply bind_panic in E as [[=]|(m0 & elf0 & [= <- <-] & E)].
  apply bind_panic in E as [[=]|(m0 & [] & [= <- _] & E)].
  apply bind_panic in E as [H|(m0 & r & (r0 & Hr & [= <-] & ->)%lift_Ok & E)].
  { by apply (returns_lift _ (calculate_returns lo hi elf Hwf Hreg)) in H. }
  apply bind_panic in E as [[=]|(m0 & r' & [= <- ->] & E)].
  destruct (calculate_ok _ _ Hwf Hr) as ((Hs0 & Hse) & He & Hs1 & Hs2 & _ & _ & Hcov).
  specialize (Hcan r' Hr). specialize (Hrange r' Hr) as ->. cbn [start end_] in *.
  assert (MemoryRange.size (mkRange lo hi) = Ret (hi - lo + 1)) as Hsz.
  { unfold MemoryRange.size. cbn [start end_]. rewrite sub_w_ok by lia. apply add_w_ok. lia. }
  rewrite Hsz in E. apply bind_panic in E as [[=]|(m0 & n & (? & [= Hn] & [= ->] & ->)%lift_Ok & E)]. subst.
  apply bind_panic in E as [H|(m0 & region & Hm & E)]; unfold map_op in *; cbn in *; [by destruct (base _)|].
  destruct (base [OMap (hi - lo + 1) PageFlags.rw]) as [b|] eqn:Eb; cbn in Hm; simplify_eq. cbn [virt_addr] in E.
  apply Hlow in Eb as [Hb0 Hb1]. rewrite new_extend_id in E by done.
  apply bind_panic in E as [H|(m1 & t & _ & E)].
  - unfold or_unmap in H. destruct (load_segments _ _ _ _ _ _ _) as [[m [|]]|] eqn:El; [done | done |].
    apply (load_segments_returns elf (program_iter elf) None b (hi - lo + 1) lo hi) in El; try done; [lia|].
    intros p Hp Ha. destruct (Hcov p Hp Ha) as [? ?].
    destruct (proj1 (Forall_forall _ _) Hreg p Hp) as ((? & _) & _); [done | lia].
  - rewrite sub_w_ok in E by lia. apply bind_panic in E as [[=]|(m2 & d & (? & [= Hd] & [= ->] & ->)%lift_Ok & E)]. subst.
    apply bind_panic in E as [H|(m3 & x & _ & [=])].
    apply returns_lift in H; [done|]. apply add_returns. lia.
Qed.

End log.

(** ** Loading a small program *)

Module Sample.

Import ElfLoader.

(** Two pages at 0x1000: 4 bytes of code, and data with 2 bytes of the file and 6 of
    zeros. *)
Definition text : ProgramHeader := mkPh (Some Load) 0x1000 0 4 4 false true None true.
Definition data_ : ProgramHeader := mkPh (Some Load) 0x2000 4 2 8 true false None true.
Definition elf : ElfFile :=
  mkElf [1; 2; 3; 4; 5; 6] true SixtyFour X86_64 LittleEndian SystemV Executable 0x1000 [text; data_].

(** A mapper that maps at 4 MiB what is not too large. *)
Definition base (m : list op) : option Z :=
  match m with [OMap n _] => if n <=? 2 ^ 40 then Some 0x400000 else None | _ => None end.

(** The fields of an entry, little endian. *)
Definition word (l : list Z) : Z := foldr (λ x acc, x + 256 * acc) 0 l.
Definition rela (l : list Z) : RelaEntry :=
  mkRela (word (take 8 l)) (word (take 4 (drop 12 l))) (word (take 4 (drop 8 l))) (word (take 8 (drop 16 l))).

Definition run (base : list op → option Z) (succeeds : list op → bool) (elf : ElfFile)
    : out (list op * result LoadedBinary ElfLoadError) :=
  @load _ (log_mapper base succeeds) rela (Some elf) [].

(** With an entry point, headers and extra bytes for the file. *)
Definition with_headers (entry : Z) (bytes : list Z) (phs : list ProgramHeader) : ElfFile :=
  mkElf bytes true SixtyFour X86_64 LittleEndian SystemV Executable entry phs.

(** A relocation entry for the address [offset]. *)
Definition rela_bytes (offset addend : Z) : list Z :=
  let le x n := map (λ i, x / 256 ^ Z.of_nat i mod 256) (seq 0 n) in
  le offset 8%nat ++ le 8 4%nat ++ le 0 4%nat ++ le addend 8%nat.

Definition dynamic (rela : Z) : ProgramHeader :=
  mkPh (Some Dynamic) 0 0 0 0 false false
    (Some [mkDyn (Some Rela) (Some rela) None; mkDyn (Some RelaSize) None (Some 24);
           mkDyn (Some RelaEnt) None (Some 24)]) true.

(** A program with a pointer at 0x1010 that a relocation sets *)
Definition first : ProgramHeader := mkPh (Some Load) 0x1000 0 24 0x1000 true false None true.
Definition moved : ElfFile := with_headers 0x1008 (rela_bytes 0x1010 0x1008) [first; dynamic 0x1000].

End Sample.

Lemma sample_wf : Forall ph_wf (program_iter Sample.elf).
Proof. by repeat (apply Forall_cons; split; [split_and!; vm_compute; split; discriminate || done|]). Qed.

Lemma sample_lower_half : lower_half Sample.base Sample.elf.
Proof.
  split.
  - intros n flags b. cbn. destruct (Z.leb_spec n (2 ^ 40)); [|done]. intros [= <-]. lia.
  - intros r Hr. vm_compute in Hr. injection Hr as <-. left. vm_compute. by split.
Qed.

Lemma moved_wf : Forall ph_wf (program_iter Sample.moved).
Proof. by repeat (apply Forall_cons; split; [split_and!; vm_compute; split; discriminate || done|]). Qed.

Lemma moved_lower_half : lower_half Sample.base Sample.moved.
Proof.
  split; [apply sample_lower_half|]. intros r Hr. vm_compute in Hr. injection Hr as <-. left. vm_compute. by split.
Qed.

(** The second page cannot be written: the load is undone. *)
Lemma elf_load_contained_witness :
  let succeeds m := (length m <=? 3)%nat in
  Forall ph_wf (program_iter Sample.elf) ∧ lower_half Sample.base Sample.elf ∧
  ∃ log, Sample.run Sample.base succeeds Sample.elf = Ret (log, Err MapperError) ∧
    ∃ l, log = OMap 8192 PageFlags.rw :: l ++ [OUnmap (mkRegion 0x400000 8192); ORollback] ∧
      Forall (inside 0x400000 8192) l.
Proof.
  intros succeeds. split; [apply sample_wf|]. split; [apply sample_lower_half|].
  eexists. split; [vm_compute; reflexivity|].
  destruct (elf_load_contained Sample.base succeeds Sample.rela Sample.elf _ (Err MapperError) sample_wf
    sample_lower_half ltac:(vm_compute; reflexivity)) as [(H & _)|(r & n & Hr & -> & H)]; [done|].
  vm_compute in Hr. injection Hr as <-. cbn in H.
  destruct H as [([=] & _)|(b & l & [= <-] & Hl & [(bin & [=] & _)|(e & _ & H)])].
  exists l. split; [exact H |]. eapply Forall_impl; [exact Hl|]. intros o [Ho|(ph & Hin & Ht & _)]; [exact Ho|].
  by apply elem_of_cons in Hin as [->|[->|?%not_elem_of_nil]%elem_of_cons].
Defined.


Lemma elf_load_returns_witness :
  Forall ph_wf (program_iter Sample.elf) ∧ lower_half Sample.base Sample.elf ∧
  ∃ log res, Sample.run Sample.base (λ _, false) Sample.elf = Ret (log, res).
Proof.
  split; [apply sample_wf|]. split; [apply sample_lower_half|].
  apply (elf_load_returns Sample.base (λ _, false) Sample.rela Sample.elf 0x1000 0x2fff sample_wf sample_lower_half).
  - intros r Hr. vm_compute in Hr. by injection Hr as <-.
  - by repeat (apply Forall_cons; split; [split_and!; done|]).
  - vm_compute. split; discriminate.
Defined.

(** ** What the loader does not check *)

(** Only the first byte of a relocation is checked: one for the last byte of the region
    writes 7 bytes behind it. *)
Lemma relocation_past_the_end :
  ∃ log bin, Sample.run Sample.base (λ _, true)
    (Sample.with_headers 0 (Sample.rela_bytes 0xfff 0)
      [mkPh (Some Load) 0 0 24 0x1000 true false None true; Sample.dynamic 0]) = Ret (log, Ok bin) ∧
    OMap 0x1000 PageFlags.rw ∈ log ∧ OWrite 0x400fff 0x400000 ∈ log.
Proof. do 2 eexists. split; [vm_compute; reflexivity|]. set_solver. Qed.

(** A relocation adds the address of the region, where the segments have been moved by
    that address minus their lowest one: with segments from 0x1000 on, the pointer to
    0x1008 becomes one to 0x401008, but that byte is now at 0x400008. *)
Lemma relocation_bias :
  ∃ log bin, Sample.run Sample.base (λ _, true)
    Sample.moved = Ret (log, Ok bin) ∧
    entry_point bin = 0x400008 ∧ OWrite 0x400010 0x401008 ∈ log.
Proof. do 2 eexists. split; [vm_compute; reflexivity|]. split; [done | set_solver]. Qed.

(** The segment to protect is not checked to be in the region. *)
Lemma relro_outside :
  ∃ log bin, Sample.run Sample.base (λ _, true)
    (Sample.with_headers 0 [1; 2]
      [mkPh (Some Load) 0 0 2 2 true false None true;
       mkPh (Some GnuRelro) 0xFFFF800000000000 0 0 0x1000 false false None true]) = Ret (log, Ok bin) ∧
    OMap 0x1000 PageFlags.rw ∈ log ∧ OFlags (mkRegion 0xFFFF800000400000 0x1000) PageFlags.r ∈ log.
Proof. do 2 eexists. split; [vm_compute; reflexivity|]. set_solver. Qed.

(** An empty segment at address 0 or an entry point below the segments make the loader
    panic. *)
Lemma malformed_panics :
  Sample.run Sample.base (λ _, true) (Sample.with_headers 0 [] [mkPh (Some Load) 0 0 0 0 true false None true]) = Panic ∧
  Sample.run Sample.base (λ _, true) (Sample.with_headers 0 [1] [mkPh (Some Load) 0x1000 0 1 1 true false None true]) = Panic.
Proof. split; vm_compute; reflexivity. Qed.

(** The lowest address is cut to 48 bits: behind them, relocations are written to
    addresses that are not canonical. *)
Lemma relocation_not_canonical :
  ∃ log bin, Sample.run Sample.base (λ _, true)
    (Sample.with_headers (2 ^ 48) (Sample.rela_bytes (2 ^ 48) 0)
      [mkPh (Some Load) (2 ^ 48) 0 24 0x1000 true false None true; Sample.dynamic (2 ^ 48)]) = Ret (log, Ok bin) ∧
    OWrite (2 ^ 48 + 0x400000) 0x400000 ∈ log ∧ VirtAddr.new_extend (2 ^ 48 + 0x400000) = 0x400000.
Proof. do 2 eexists. split; [vm_compute; reflexivity|]. split; [set_solver | done]. Qed.
