(* ===== verification/KernelMem.v ===== *)
(** * Memory management of the kernel

    [kernel/src/mem]: the page allocator of an address space, the frame allocator, and
    the address space that puts them together with the recursive page table to map and
    unmap memory; the layout of the kernel half is that of
    [bootloader/bootloader-api/src/lib.rs].

    A critical section under one of the locks is one step of the state; the locks
    themselves are modelled elsewhere. *)

From stdpp Require Import functions.
From S2P Require Import Prelude Addrs Paging Ranges PageTable PageTree PageMap.

(** ** The layout of the address space *)

Definition KERNEL_PT_START_ENTRY : Z := 256.
Definition USER_PT_END_ENTRY : Z := KERNEL_PT_START_ENTRY - 1.
Definition KERNEL_PT_RECURSIVE_INDEX : Z := 256.
Definition KERNEL_AS_BASE : Z := VirtAddr.new_extend (Z.shiftl 256 39).
Definition KERNEL_POOL_BASE : Z := VirtAddr.new_extend (Z.shiftl 260 39).

(** ** The page allocator *)

Module PageAllocator.

(** [PageAllocator<N>] has the only field [vranges]. *)
Record t := mkPageAllocator { vranges : MemoryRanges }.

Definition new_empty (N : nat) : t := mkPageAllocator (MemoryRanges.new N).

Definition new_range (N : nat) (start end_ : Z) : out t :=
  range ← MemoryRange.new start end_;
  vaddrs ← MemoryRanges.insert (MemoryRanges.new N) range;
  mret (mkPageAllocator vaddrs).

Definition allocate_pages {S : MemSize} (self : t) (count : Z)
    : out (t * option (PageRangeInclusive S)) :=
  size ← mul_w 64 (SIZE S) count;
  '(vranges, o) ← MemoryRanges.allocate (vranges self) size (ALIGNMENT S);
  match o with
  | None => mret (mkPageAllocator vranges, None)
  | Some start_vaddr =>
      let first_page := Page.containing_address (VirtAddr.new_extend start_vaddr) in
      n ← sub_w count 1;
      last_page ← Page.add first_page n;
      mret (mkPageAllocator vranges, Some (Page.range_inclusive first_page last_page))
  end.

Definition allocate_guarded (self : t) (count : Z)
    : out (t * option (Page M4KiB * PageRangeInclusive M4KiB * Page M4KiB)) :=
  n ← add_w 64 count 2;
  size ← mul_w 64 (SIZE M4KiB) n;
  '(vranges, o) ← MemoryRanges.allocate (vranges self) size (ALIGNMENT M4KiB);
  match o with
  | None => mret (mkPageAllocator vranges, None)
  | Some start_vaddr =>
      let start_vaddr := VirtAddr.new_extend start_vaddr in
      let guard_page_start := Page.containing_address start_vaddr in
      first ← VirtAddr.add start_vaddr (SIZE M4KiB);
      d ← mul_w 64 (SIZE M4KiB) count;
      last ← VirtAddr.add start_vaddr d;
      let usable_pages :=
        Page.range_inclusive (Page.containing_address first) (Page.containing_address last) in
      n ← add_w 64 count 1;
      d ← mul_w 64 (SIZE M4KiB) n;
      guard ← VirtAddr.add start_vaddr d;
      let guard_page_end := Page.containing_address guard in
      mret (mkPageAllocator vranges, Some (guard_page_start, usable_pages, guard_page_end))
  end.

Definition free_pages {S : MemSize} (self : t) (pages : PageRangeInclusive S) : out t :=
  e ← add_w 64 (Page.start_address (pr_end pages)) (SIZE S - 1);
  range ← MemoryRange.new (Page.start_address (pr_start pages)) e;
  vranges ← MemoryRanges.insert (vranges self) range;
  mret (mkPageAllocator vranges).

End PageAllocator.

(** ** The frame allocator *)

Module FrameAlloc.

Definition MAX_MEMORY_REGIONS : nat := 4096.
Definition AP_TRAMPOLINE_PADDR : Z := 0x8000.

(** [FrameAllocator] *)
Record t := mkFrameAllocator { memory_ranges : MemoryRanges }.

(** [PhysAddr::new_truncate(addr).frame()] *)
Definition frame_at {S : MemSize} (addr : Z) : Frame S :=
  Frame.containing_address (PhysAddr.new_truncate addr).

Definition alloc (S : MemSize) (self : t) : out (option (Frame S) * t) :=
  '(memory_ranges, addr) ← MemoryRanges.allocate (memory_ranges self) (SIZE S) (ALIGNMENT S);
  Ret (option_map frame_at addr, mkFrameAllocator memory_ranges).

Definition alloc_request (S : MemSize) (self : t) (req_ranges : MemoryRanges)
    : out (option (Frame S) * t) :=
  '(memory_ranges, addr) ←
    MemoryRanges.allocate_req (memory_ranges self) (SIZE S) (ALIGNMENT S) req_ranges;
  Ret (option_map frame_at addr, mkFrameAllocator memory_ranges).

Definition free {S : MemSize} (self : t) (frame : Frame S) : out t :=
  e ← add_w 64 (Frame.start_address frame) (Frame.size frame - 1);
  range ← MemoryRange.new (Frame.start_address frame) e;
  memory_ranges ← MemoryRanges.insert (memory_ranges self) range;
  mret (mkFrameAllocator memory_ranges).

(** The trait of [beskar-core], for the frames of page tables. *)
#[global] Instance allocator : FrameAllocator t := alloc M4KiB.

Definition reserve_tramp_frame (allocator : t) : out t :=
  range ← MemoryRange.new AP_TRAMPOLINE_PADDR (AP_TRAMPOLINE_PADDR + SIZE M4KiB);
  req_range ← MemoryRanges.insert (MemoryRanges.new 1) range;
  '(frame, allocator) ← alloc_request M4KiB allocator req_range;
  _ ← unwrap frame;
  mret allocator.

Definition init (ranges : list MemoryRange) : out t :=
  assert_ (negb (Nat.eqb (length ranges) 0));;
  memory_ranges ← for_each MemoryRanges.insert (MemoryRanges.new MAX_MEMORY_REGIONS)
    (take MAX_MEMORY_REGIONS ranges);
  _ ← MemoryRanges.sum memory_ranges;
  reserve_tramp_frame (mkFrameAllocator memory_ranges).

End FrameAlloc.

(** ** The mapper of each page size *)

(** The trait [Mapper<S, Flags>] of [PageTable]. *)
Class Mapper `{Mmu} {A : Type} `{FrameAllocator A} (S : MemSize) := {
  map : PageTable → Page S → Frame S → Z → eff (st (A := A)) (MappingError (Frame S)) (Page S);
  unmap : PageTable → Page S → eff (st (A := A)) (MappingError (Frame S)) (Frame S * Page S);
}.

#[export] Instance mapper_4k `{Mmu} {A} `{FrameAllocator A} : Mapper (A := A) M4KiB :=
  {| map := PageTable.map_M4KiB; unmap := PageTable.unmap_M4KiB |}.
#[export] Instance mapper_2m `{Mmu} {A} `{FrameAllocator A} : Mapper (A := A) M2MiB :=
  {| map := PageTable.map_M2MiB; unmap := PageTable.unmap_M2MiB |}.
#[export] Instance mapper_1g `{Mmu} {A} `{FrameAllocator A} : Mapper (A := A) M1GiB :=
  {| map := PageTable.map_M1GiB; unmap := PageTable.unmap_M1GiB |}.

(** [for page in range], with fuel for the iterations. *)
Fixpoint for_pages {St E} {S : MemSize} (fuel : nat) (range : PageRangeInclusive S)
    (body : Page S → eff St E unit) : eff St E unit :=
  match fuel with
  | O => λ _, Panic
  | Datatypes.S fuel =>
      '(o, range) ← lift (PageRangeInclusive.next range);
      match o with
      | None => mret tt
      | Some page => body page;; for_pages fuel range body
      end
  end.

(** One iteration for each page, and the one that finds the end. *)
Definition for_range {St E} {S : MemSize} (range : PageRangeInclusive S)
    (body : Page S → eff St E unit) : eff St E unit :=
  for_pages (Z.to_nat ((page_start (pr_end range) - page_start (pr_start range)) / SIZE S) + 2) range body.

(** ** Address spaces *)

Module AddressSpace.

Definition PROCESS_PGALLOC_VRANGES : nat := 64.

Record t := mkAddressSpace {
  pt : PageTable;
  lvl4_paddr : Z;
  pgalloc : PageAllocator.t
}.

(** What the operations change: the memory, the frame allocator and the address space;
    and the frame in the register CR3. *)
Record machine := mkMachine {
  mem : Z → Z;
  cr3 : Z;
  fralloc : FrameAlloc.t;
  space : t
}.

Definition is_active (s : machine) : bool := lvl4_paddr (space s) =? cr3 s.

Definition cr3_flags (self : t) : Z := 0.
Definition cr3_raw (self : t) : Z := Z.lor (lvl4_paddr self) (cr3_flags self).

Definition is_addr_owned (self : t) (start end_ : Z) : out bool :=
  assert_ (start <=? end_);;
  mret ((start <=? end_) && (end_ <? KERNEL_AS_BASE)).

(** [with_frame_allocator] around [with_page_table]: [f] has both. *)
Definition with_page_table {E A} (f : PageTable → eff ((Z → Z) * FrameAlloc.t) E A)
    : eff machine E A := λ s,
  if is_active s then
    match f (pt (space s)) (mem s, fralloc s) with
    | Ret ((m, a), r) => Ret (mkMachine m (cr3 s) a (space s), r)
    | Panic => Panic
    end
  else Panic.

Definition with_pgalloc {E A} (f : PageAllocator.t → out (PageAllocator.t * A))
    : eff machine E A := λ s,
  '(p, r) ← f (pgalloc (space s));
  Ret (mkMachine (mem s) (cr3 s) (fralloc s) (mkAddressSpace (pt (space s)) (lvl4_paddr (space s)) p), Ok r).

(** [frame_allocator.alloc()] and [frame_allocator.free(frame)] in [with_page_table]. *)
Definition alloc_frame {E} (S : MemSize) : eff ((Z → Z) * FrameAlloc.t) E (option (Frame S)) := λ '(m, a),
  '(f, a) ← FrameAlloc.alloc S a; Ret ((m, a), Ok f).
Definition free_frame {E S} (frame : Frame S) : eff ((Z → Z) * FrameAlloc.t) E unit := λ '(m, a),
  a ← FrameAlloc.free a frame; Ret ((m, a), Ok tt).

(** [result.ok()?] in a function that returns [None] on errors. *)
Definition or_none {St E A} (f : eff St E A) : eff St unit A := λ s,
  match f s with
  | Ret (s, Ok a) => Ret (s, Ok a)
  | Ret (s, Err _) => Ret (s, Err tt)
  | Panic => Panic
  end.

(** [if let Ok(x) = f { body }] *)
Definition if_ok {St E E' A} (f : eff St E A) (body : A → eff St E' unit) : eff St E' unit := λ s,
  match f s with
  | Ret (s, Ok a) => body a s
  | Ret (s, Err _) => Ret (s, Ok tt)
  | Panic => Panic
  end.

(** The pages of a new process, and those of the kernel. *)
Definition process_pages : out PageAllocator.t :=
  start_page ← Page.from_p4p3p2p1 0 0 0 1;
  end_page ← Page.from_p4p3p2p1 USER_PT_END_ENTRY 511 511 511;
  end_vaddr ← VirtAddr.add (Page.start_address end_page) (SIZE M4KiB - 1);
  PageAllocator.new_range PROCESS_PGALLOC_VRANGES (Page.start_address start_page) end_vaddr.

Definition kernel_pages : out PageAllocator.t :=
  PageAllocator.new_range PROCESS_PGALLOC_VRANGES KERNEL_POOL_BASE VirtAddr.MAX.

Section ops.
Context `{Mmu}.

(** [None] is the error [tt]. *)
Definition alloc_map (S : MemSize) `{!Mapper (A := FrameAlloc.t) S} (size flags : Z)
    : eff machine unit (PageRangeInclusive S) :=
  let pages := (size + SIZE S - 1) / SIZE S in
  o ← with_pgalloc (λ pgalloc, PageAllocator.allocate_pages pgalloc pages);
  page_range ← ok_or o tt;
  with_page_table (λ page_table,
    for_range page_range (λ page,
      o ← alloc_frame S;
      frame ← ok_or o tt;
      or_none (map page_table page frame (Z.lor flags Flags.PRESENT));;
      mret tt));;
  mret page_range.

Definition unmap_free (S : MemSize) `{!Mapper (A := FrameAlloc.t) S}
    (page_range : PageRangeInclusive S) : eff machine unit unit :=
  with_page_table (λ page_table,
    for_range page_range (λ page,
      if_ok (unmap page_table page) (λ '(frame, flush), free_frame frame)));;
  with_pgalloc (λ pgalloc, p ← PageAllocator.free_pages pgalloc page_range; mret (p, tt)).

End ops.

End AddressSpace.

(** ** Translations by address *)

(** The low 48 bits of a canonical address. *)
Lemma canonical_low a :
  VirtAddr.canonical a →
  (a ≤ VirtAddr.MAX_LOWER_HALF ∧ a mod 2 ^ 48 = a) ∨
  (VirtAddr.MIN_UPPER_HALF ≤ a ∧ a mod 2 ^ 48 = a - (2 ^ 64 - 2 ^ 48)).
Proof.
  unfold VirtAddr.canonical, VirtAddr.MAX_LOWER_HALF, VirtAddr.MIN_UPPER_HALF, VirtAddr.MAX.
  intros [Ha|Ha]; [left | right]; split; try lia; [apply Z.mod_small; lia|].
  replace a with (a - (2 ^ 64 - 2 ^ 48) + 65535 * 2 ^ 48) at 1 by lia.
  rewrite Z.mod_add by lia. apply Z.mod_small. lia.
Qed.

(** Canonical addresses with the same page number are in the same page. *)
Lemma in_page_low S a b :
  in_page S (ix4 a) (ix3 a) (ix2 a) (ix1 a) (ix4 b) (ix3 b) (ix2 b) (ix1 b) ↔
  (a mod 2 ^ 48) / SIZE S = (b mod 2 ^ 48) / SIZE S.
Proof.
  pose proof (VirtAddr.low48_digits a) as Da. pose proof (VirtAddr.low48_digits b) as Db.
  destruct (ix_bounds a) as (A4 & A3 & A2 & A1), (ix_bounds b) as (B4 & B3 & B2 & B1).
  unfold ix4, ix3, ix2, ix1 in *. rewrite Da, Db.
  pose proof (Z.mod_pos_bound a 4096 ltac:(lia)). pose proof (Z.mod_pos_bound b 4096 ltac:(lia)).
  generalize dependent (a mod 2 ^ 48). generalize dependent (b mod 2 ^ 48). intros _ _ _ _.
  generalize dependent ((a / 2 ^ 39) mod 512). generalize dependent ((a / 2 ^ 30) mod 512).
  generalize dependent ((a / 2 ^ 21) mod 512). generalize dependent ((a / 2 ^ 12) mod 512).
  generalize dependent ((b / 2 ^ 39) mod 512). generalize dependent ((b / 2 ^ 30) mod 512).
  generalize dependent ((b / 2 ^ 21) mod 512). generalize dependent ((b / 2 ^ 12) mod 512).
  intros. destruct S; cbn [in_page SIZE].
  - split; [intros [= -> -> -> ->] | intros E; repeat f_equal]; Z.div_mod_to_equations; lia.
  - split; [intros [= -> -> ->] | intros E; repeat f_equal]; Z.div_mod_to_equations; lia.
  - split; [intros [= -> ->] | intros E; repeat f_equal]; Z.div_mod_to_equations; lia.
Qed.

Lemma in_page_block {S} (page : Page S) va :
  wf_page page → VirtAddr.canonical va →
  in_page S (ix4 (page_start page)) (ix3 (page_start page)) (ix2 (page_start page)) (ix1 (page_start page))
    (ix4 va) (ix3 va) (ix2 va) (ix1 va) ↔ block (page_start page) (SIZE S) va.
Proof.
  intros [Hc Hm] Hva. rewrite in_page_low. unfold block. pose proof (SIZE_bounds S).
  set (p := page_start page) in *.
  assert ((p mod 2 ^ 48) mod SIZE S = 0) as Hpm.
  { rewrite Z.mod_mod_divide; [done|]. apply Z.mod_divide; [lia|]. by destruct S. }
  assert (∀ x y, 0 ≤ x → x mod SIZE S = 0 → x / SIZE S = y / SIZE S ↔ x ≤ y < x + SIZE S) as Hdiv.
  { intros x y Hx Hxm. apply Z.mod_divide in Hxm as [q ->]; [|lia]. rewrite Z.div_mul by lia.
    split; [intros -> | intros Hy; apply Z.div_unique with (y - q * SIZE S)]; [|lia|lia].
    pose proof (Z.div_mod y (SIZE S)). pose proof (Z.mod_pos_bound y (SIZE S)). lia. }
  rewrite Hdiv; [|apply Z.mod_pos_bound; lia | done].
  destruct (aligned_gap (p mod 2 ^ 48) (2 ^ 47) (SIZE S)) as [q Hq]; [lia | done | by destruct S|].
  unfold VirtAddr.MAX_LOWER_HALF, VirtAddr.MIN_UPPER_HALF in *.
  destruct (canonical_low p Hc) as [[Hp1 Hp2]|[Hp1 Hp2]], (canonical_low va Hva) as [[Hv1 Hv2]|[Hv1 Hv2]];
    unfold VirtAddr.MAX_LOWER_HALF, VirtAddr.MIN_UPPER_HALF in *; rewrite Hp2, Hv2 in *; try lia.
  assert (0 < q) by nia. assert (SIZE S ≤ q * SIZE S) by nia. lia.
Qed.

(** ** The frame allocator *)

(** Whole pages. *)
Definition page_closed (P : Z → Prop) : Prop := ∀ x y, x / 4096 = y / 4096 → P x → P y.

(** The free memory is a set of whole frames below the end of physical memory. *)
Definition frames_inv (a : FrameAlloc.t) : Prop :=
  ranges_inv FrameAlloc.MAX_MEMORY_REGIONS (FrameAlloc.memory_ranges a) ∧
  (∀ x, addrs (FrameAlloc.memory_ranges a) x → x ≤ PhysAddr.MAX) ∧
  page_closed (addrs (FrameAlloc.memory_ranges a)).

(** The free physical addresses. *)
Definition free_mem (a : FrameAlloc.t) (x : Z) : Prop := addrs (FrameAlloc.memory_ranges a) x.

Lemma addrs_nonneg N self x : ranges_inv N self → addrs self x → 0 ≤ x < 2 ^ 64.
Proof.
  intros Hinv (r & Hr & Hx). pose proof (inv_wf _ _ Hinv) as Hwf. rewrite Forall_forall in Hwf.
  destruct (Hwf r Hr). unfold in_range in Hx. lia.
Qed.

Lemma closed_start N self r :
  ranges_inv N self → page_closed (addrs self) → r ∈ MemoryRanges.entries self → start r mod 4096 = 0.
Proof.
  intros Hinv Hcl Hr. pose proof (inv_wf _ _ Hinv) as Hwf. rewrite Forall_forall in Hwf.
  destruct (Hwf r Hr) as [Hr1 Hr2]. destruct (decide (start r mod 4096 = 0)) as [|Hne]; [done | exfalso].
  assert (addrs self (start r - 1)) as (q & Hq & Hin).
  { apply (Hcl (start r)); [Z.div_mod_to_equations; lia|]. exists r. split; [done|]. unfold in_range. lia. }
  unfold in_range in Hin. assert (q ≠ r) as Hqr by (intros ->; lia).
  destruct (pairwise_elem apart _ q r (inv_apart _ _ Hinv) Hq Hr Hqr); lia.
Qed.

Lemma SIZE_pages S : ∃ k, 1 ≤ k ∧ SIZE S = k * 4096.
Proof. destruct S; [exists 1 | exists 512 | exists 262144]; cbn; lia. Qed.

Lemma block_closed S a : a mod SIZE S = 0 → page_closed (block a (SIZE S)).
Proof.
  intros Ha x y Hxy. destruct (SIZE_pages S) as (k & Hk & HS). unfold block. rewrite HS in *.
  apply Z.mod_divide in Ha as [q ->]; [|lia]. rewrite Z.mul_assoc.
  generalize (q * k). intros c. Z.div_mod_to_equations. lia.
Qed.

Lemma page_closed_minus P Q : page_closed P → page_closed Q → page_closed (λ x, P x ∧ ¬ Q x).
Proof. intros HP HQ x y Hxy [Hx Hn]. split; [by apply (HP x) | intros Hy; by apply Hn, (HQ y)]. Qed.

Lemma page_closed_union P Q : page_closed P → page_closed Q → page_closed (λ x, P x ∨ Q x).
Proof. intros HP HQ x y Hxy [Hx|Hx]; [left; by apply (HP x) | right; by apply (HQ x)]. Qed.

Lemma page_closed_ext P Q : (∀ x, P x ↔ Q x) → page_closed P → page_closed Q.
Proof. intros HPQ HP x y Hxy. rewrite <- !HPQ. by apply HP. Qed.

Lemma frame_at_eq {S} a :
  0 ≤ a → a + SIZE S - 1 ≤ PhysAddr.MAX → a mod SIZE S = 0 →
  FrameAlloc.frame_at (S := S) a = mkFrame a ∧ wf_frame (S := S) (mkFrame a).
Proof.
  intros Ha He Hm. pose proof (SIZE_bounds S). unfold FrameAlloc.frame_at.
  assert (PhysAddr.valid a) as Hv by (unfold PhysAddr.valid; lia).
  rewrite PhysAddr.new_truncate_id by done. rewrite frame_containing_eq by (by apply PhysAddr.valid_u64).
  rewrite Hm, Z.sub_0_r. done.
Qed.

(** An allocation takes a free frame out of the free memory. *)
Lemma alloc_frame_spec S a :
  frames_inv a →
  match FrameAlloc.alloc S a with
  | Ret (Some f, a') =>
      frames_inv a' ∧ wf_frame f ∧ (∀ x, block (frame_start f) (SIZE S) x → free_mem a x) ∧
      ∀ x, free_mem a' x ↔ free_mem a x ∧ ¬ block (frame_start f) (SIZE S) x
  | Ret (None, a') => a' = a ∧ ¬ ∃ f : Frame S, wf_frame f ∧ ∀ x, block (frame_start f) (SIZE S) x → free_mem a x
  | Panic => S ≠ M4KiB ∧ used (FrameAlloc.memory_ranges a) = FrameAlloc.MAX_MEMORY_REGIONS
  end.
Proof.
  destruct a as [rs]. unfold FrameAlloc.alloc, frames_inv, free_mem. cbn [FrameAlloc.memory_ranges].
  intros (Hinv & Hmax & Hcl). pose proof (SIZE_bounds S) as Hb.
  pose proof (ranges_allocate_ok _ rs (SIZE S) (ALIGNMENT S) Hinv ltac:(lia)) as Hspec.
  rewrite ALIGNMENT_SIZE in Hspec.
  destruct (MemoryRanges.allocate rs (SIZE S) (ALIGNMENT S)) as [[rs' [x|]]|];
    cbn [mbind out_bind option_map FrameAlloc.memory_ranges].
  - destruct Hspec as (Hm & H0 & H1 & Hin & Hinv' & Hrs').
    destruct (frame_at_eq (S := S) x) as [-> Hwf]; [done | | done |].
    { apply Hmax, Hin. unfold block. lia. }
    cbn [frame_start]. split_and!; [done | | | done | done | done].
    + intros y Hy. apply Hmax, (Hrs' y), Hy.
    + eapply page_closed_ext; [intros y; symmetry; apply Hrs'|].
      by apply page_closed_minus, block_closed.
  - destruct Hspec as [-> Hno]. split; [done|]. intros ([f] & [_ Hm] & Hf). apply Hno. eauto.
  - destruct Hspec as [Hu (r & Hr & Hm)]. split; [|done]. intros ->.
    by apply (closed_start _ _ r) in Hinv.
Qed.

(** A frame that is given back is free. *)
Lemma free_frame_spec {S} a (f : Frame S) :
  frames_inv a → wf_frame f →
  match FrameAlloc.free a f with
  | Ret a' => frames_inv a' ∧ ∀ x, free_mem a' x ↔ free_mem a x ∨ block (frame_start f) (SIZE S) x
  | Panic => used (FrameAlloc.memory_ranges a) = FrameAlloc.MAX_MEMORY_REGIONS
  end.
Proof.
  destruct a as [rs], f as [f]. unfold FrameAlloc.free, frames_inv, free_mem, wf_frame, Frame.size.
  cbn [FrameAlloc.memory_ranges Frame.start_address frame_start].
  intros (Hinv & Hmax & Hcl) [Hv Hm]. pose proof (SIZE_bounds S) as Hb. unfold PhysAddr.valid in Hv.
  assert (f + SIZE S - 1 ≤ PhysAddr.MAX) as Hend.
  { unfold PhysAddr.MAX in *. destruct (aligned_gap f (2 ^ 52) (SIZE S)) as [q Hq]; [lia | done | by destruct S|].
    assert (0 < q) by nia. nia. }
  unfold PhysAddr.MAX in Hend. rewrite add_w_ok by lia. cbn [mbind out_bind].
  unfold MemoryRange.new. rewrite (proj2 (Z.leb_le f (f + (SIZE S - 1)))) by lia. cbn [mbind out_bind assert_ mret out_ret].
  set (r := mkRange f (f + (SIZE S - 1))). assert (wf_range r) as Hr by (unfold wf_range; cbn; lia).
  pose proof (insert_panic_iff _ _ _ Hinv Hr) as Hp.
  destruct (MemoryRanges.insert rs r) as [rs'|] eqn:E; cbn [mbind out_bind mret out_ret FrameAlloc.memory_ranges]; [|by apply Hp].
  destruct (insert_Ret _ _ _ _ Hinv Hr E) as [Hinv' Hrs'].
  assert (∀ x, addrs rs' x ↔ addrs rs x ∨ block f (SIZE S) x) as Hx.
  { intros x. rewrite Hrs'. by assert (in_range r x ↔ block f (SIZE S) x) as -> by (unfold in_range, block, r; cbn; lia). }
  split_and!; [done | | | done].
  - intros x [?|?]%Hx; [by apply Hmax | unfold block, PhysAddr.MAX in *; lia].
  - eapply page_closed_ext; [intros y; symmetry; apply Hx|]. by apply page_closed_union, block_closed.
Qed.

(** The kernel's frame allocator for page tables. *)
#[global] Program Instance kernel_frames : FrameAllocatorLaws FrameAlloc.t := {
  alloc_inv := frames_inv;
  owned := free_mem;
}.
Next Obligation.
  intros a Ha. pose proof (alloc_frame_spec M4KiB a Ha) as H. unfold allocate_frame, FrameAlloc.allocator.
  destruct (FrameAlloc.alloc M4KiB a) as [[[f|] a']|]; [| |by destruct H].
  - destruct H as (Ha' & _). eauto.
  - destruct H as [-> _]. eauto.
Qed.
Next Obligation.
  intros a f a' Ha E. pose proof (alloc_frame_spec M4KiB a Ha) as H.
  unfold allocate_frame, FrameAlloc.allocator in E. rewrite E in H. destruct H as (_ & Hf & Hin & Ha').
  split_and!; [by apply wf_frame_aligned | apply Hin; unfold block; cbn; lia|].
  intros x [Hx Hn]%Ha'. split; [done|]. intros ->. apply Hn. unfold block. cbn. lia.
Qed.
Next Obligation.
  intros a a' Ha E. pose proof (alloc_frame_spec M4KiB a Ha) as H.
  unfold allocate_frame, FrameAlloc.allocator in E. rewrite E in H. by destruct H as [-> _].
Qed.

(** ** The page allocator *)

(** The free pages are canonical addresses. *)
Definition pages_inv (p : PageAllocator.t) : Prop :=
  ranges_inv AddressSpace.PROCESS_PGALLOC_VRANGES (PageAllocator.vranges p) ∧
  ∀ va, addrs (PageAllocator.vranges p) va → VirtAddr.canonical va.

(** The free virtual addresses. *)
Definition free_va (p : PageAllocator.t) (va : Z) : Prop := addrs (PageAllocator.vranges p) va.

(** A range of [n] pages of one half. *)
Definition wf_pages {S} (range : PageRangeInclusive S) (n : Z) : Prop :=
  wf_page (pr_start range) ∧ wf_page (pr_end range) ∧ 1 ≤ n ∧
  page_start (pr_end range) = page_start (pr_start range) + (n - 1) * SIZE S ∧
  same_half (page_start (pr_start range)) (page_start (pr_end range)).

(** Canonical addresses in a row are in one half. *)
Lemma canonical_row a n :
  1 ≤ n → (∀ x, a ≤ x < a + n → VirtAddr.canonical x) → same_half a (a + n - 1).
Proof.
  intros Hn H. pose proof (H a ltac:(lia)) as Ha.
  destruct (decide (a ≤ VirtAddr.MAX_LOWER_HALF)) as [Hl|].
  - left. destruct (decide (a + n - 1 ≤ VirtAddr.MAX_LOWER_HALF)) as [|Hgt]; [done | exfalso].
    specialize (H (VirtAddr.MAX_LOWER_HALF + 1) ltac:(lia)).
    unfold VirtAddr.canonical, VirtAddr.MAX_LOWER_HALF, VirtAddr.MIN_UPPER_HALF in H. lia.
  - right. unfold VirtAddr.canonical in Ha. lia.
Qed.

(** The pages of a free block. *)
Lemma block_pages {S : MemSize} a n :
  a mod SIZE S = 0 → 0 ≤ a → a + SIZE S * n ≤ 2 ^ 64 → 1 ≤ n →
  (∀ x, block a (SIZE S * n) x → VirtAddr.canonical x) →
  Page.containing_address (S := S) (VirtAddr.new_extend a) = mkPage a ∧
  Page.add (mkPage (S := S) a) (n - 1) = Ret (mkPage (a + (n - 1) * SIZE S)) ∧
  wf_pages (mkPageRange (mkPage a) (mkPage (S := S) (a + (n - 1) * SIZE S))) n.
Proof.
  intros Hm Ha Htop Hn Hcan. pose proof (SIZE_bounds S) as Hb.
  assert (VirtAddr.canonical a) as Hca by (apply Hcan; unfold block; nia).
  assert (VirtAddr.canonical (a + (n - 1) * SIZE S)) as Hce by (apply Hcan; unfold block; nia).
  assert (wf_page (S := S) (mkPage a)) as Hw by done. split; [|split; [|unfold wf_pages; cbn [pr_start pr_end]; split_and!]].
  - unfold VirtAddr.new_extend. rewrite VirtAddr.canonicalize_id by done.
    rewrite containing_address_eq by (by apply VirtAddr.canonical_u64). by rewrite Hm, Z.sub_0_r.
  - rewrite page_add_eq; [|done|lia|cbn; nia]. cbn [page_start]. by rewrite VirtAddr.canonicalize_id.
  - done.
  - split; [done|]. cbn. by rewrite Z.mod_add by lia.
  - done.
  - done.
  - cbn [page_start]. pose proof (canonical_row a ((n - 1) * SIZE S + 1)) as Hrow.
    replace (a + ((n - 1) * SIZE S + 1) - 1) with (a + (n - 1) * SIZE S) in Hrow by lia.
    apply Hrow; [nia|]. intros x Hx. apply Hcan. unfold block. nia.
Qed.

Lemma allocate_pages_spec {S : MemSize} p count :
  pages_inv p → 1 ≤ count → SIZE S * count < 2 ^ 64 →
  match PageAllocator.allocate_pages (S := S) p count with
  | Ret (p', Some range) =>
      pages_inv p' ∧ wf_pages range count ∧
      (∀ va, block (page_start (pr_start range)) (SIZE S * count) va → free_va p va) ∧
      ∀ va, free_va p' va ↔ free_va p va ∧ ¬ block (page_start (pr_start range)) (SIZE S * count) va
  | Ret (p', None) => p' = p ∧
      ¬ ∃ a, a mod SIZE S = 0 ∧ ∀ va, block a (SIZE S * count) va → free_va p va
  | Panic => used (PageAllocator.vranges p) = AddressSpace.PROCESS_PGALLOC_VRANGES
  end.
Proof.
  destruct p as [rs]. unfold pages_inv, free_va, PageAllocator.allocate_pages. cbn [PageAllocator.vranges].
  intros [Hinv Hcan] Hc Hlt. pose proof (SIZE_bounds S) as Hb. rewrite mul_w_ok by done. cbn [mbind out_bind].
  pose proof (ranges_allocate_ok _ rs (SIZE S * count) (ALIGNMENT S) Hinv ltac:(nia)) as Hspec.
  rewrite ALIGNMENT_SIZE in Hspec.
  destruct (MemoryRanges.allocate rs (SIZE S * count) (ALIGNMENT S)) as [[rs' [x|]]|];
    cbn [mbind out_bind PageAllocator.vranges mret out_ret].
  - destruct Hspec as (Hm & H0 & H1 & Hin & Hinv' & Hrs').
    destruct (block_pages (S := S) x count) as (Hp & Hadd & Hwf); [done | done | done | done | |].
    { intros y Hy. by apply Hcan, Hin. }
    rewrite Hp, sub_w_ok by lia. cbn [mbind out_bind]. rewrite Hadd.
    cbn [mbind out_bind mret out_ret PageAllocator.vranges Page.range_inclusive pr_start page_start].
    split_and!; [done | | done | done | done]. intros y Hy. by apply Hcan, (Hrs' y).
  - by destruct Hspec as [-> ?].
  - apply Hspec.
Qed.

(** The last page ends in its half. *)
Lemma page_end {S} (p : Page S) :
  wf_page p →
  (page_start p ≤ VirtAddr.MAX_LOWER_HALF → page_start p + SIZE S ≤ 2 ^ 47) ∧ page_start p + SIZE S ≤ 2 ^ 64.
Proof.
  intros [Hc Hm]. pose proof (SIZE_bounds S) as Hb. pose proof (VirtAddr.canonical_u64 _ Hc) as [H0 H1].
  assert (∀ k, (2 ^ k) mod SIZE S = 0 → page_start p < 2 ^ k → page_start p + SIZE S ≤ 2 ^ k) as Hk.
  { intros k Hkm Hlt. destruct (aligned_gap (page_start p) (2 ^ k) (SIZE S)) as [q Hq]; [lia | done | done|].
    assert (0 < q) by nia. nia. }
  unfold VirtAddr.MAX_LOWER_HALF. split; [intros|]; (apply Hk; [by destruct S | lia]).
Qed.

(** All addresses of a range of pages are canonical. *)
Lemma wf_pages_canonical {S} (range : PageRangeInclusive S) n va :
  wf_pages range n → block (page_start (pr_start range)) (SIZE S * n) va → VirtAddr.canonical va.
Proof.
  intros ([Hs _] & He & Hn & Ee & Hhalf) Hva. destruct (page_end _ He) as [H1 H2].
  unfold block in Hva. pose proof (SIZE_bounds S). pose proof (VirtAddr.canonical_u64 _ Hs) as [? _].
  unfold same_half, VirtAddr.canonical, VirtAddr.MAX_LOWER_HALF, VirtAddr.MIN_UPPER_HALF, VirtAddr.MAX in *.
  destruct Hhalf as [Hl|Hu]; [left; specialize (H1 Hl); nia | right; nia].
Qed.

Lemma free_pages_spec {S : MemSize} p (range : PageRangeInclusive S) n :
  pages_inv p → wf_pages range n →
  match PageAllocator.free_pages p range with
  | Ret p' => pages_inv p' ∧
      ∀ va, free_va p' va ↔ free_va p va ∨ block (page_start (pr_start range)) (SIZE S * n) va
  | Panic => used (PageAllocator.vranges p) = AddressSpace.PROCESS_PGALLOC_VRANGES
  end.
Proof.
  intros Hpi Hw. pose proof (λ va, wf_pages_canonical range n va Hw) as Hblock.
  pose proof Hw as (_ & He0 & _). apply page_end in He0 as [_ Htop]. revert Hpi Hw Hblock Htop.
  destruct p as [rs], range as [[s] [e]]. unfold pages_inv, free_va, PageAllocator.free_pages, wf_pages.
  unfold Page.start_address. cbn [PageAllocator.vranges pr_start pr_end page_start].
  intros [Hinv Hcan] ([Hs Hsm] & [He Hem] & Hn & -> & Hhalf) Hblock Htop. cbn [page_start] in *.
  pose proof (SIZE_bounds S) as Hb. pose proof (VirtAddr.canonical_u64 _ Hs) as [Hs0 _].
  rewrite add_w_ok by lia. cbn [mbind out_bind].
  set (r := mkRange s (s + (n - 1) * SIZE S + (SIZE S - 1))).
  assert (wf_range r) as Hr by (unfold wf_range, r; cbn; nia).
  unfold MemoryRange.new. rewrite (proj2 (Z.leb_le s (s + (n - 1) * SIZE S + (SIZE S - 1)))) by nia.
  cbn [mbind out_bind assert_ mret out_ret]. fold r.
  pose proof (insert_panic_iff _ _ _ Hinv Hr) as Hp.
  destruct (MemoryRanges.insert rs r) as [rs'|] eqn:E; cbn [mbind out_bind mret out_ret PageAllocator.vranges]; [|by apply Hp].
  destruct (insert_Ret _ _ _ _ Hinv Hr E) as [Hinv' Hrs'].
  assert (∀ x, addrs rs' x ↔ addrs rs x ∨ block s (SIZE S * n) x) as Hx.
  { intros x. rewrite Hrs'. by assert (in_range r x ↔ block s (SIZE S * n) x) as -> by (unfold in_range, block, r; cbn; nia). }
  split_and!; [done | | done]. intros va [?|Hva]%Hx; [by apply Hcan | by apply Hblock].
Qed.

(** ** Loops over pages *)

(** The pages of a range. *)
Definition pages_of {S} (range : PageRangeInclusive S) (n : Z) : list (Page S) :=
  (λ k, mkPage (page_start (pr_start range) + Z.of_nat k * SIZE S)) <$> seq 0 (Z.to_nat n).

Fixpoint for_list {St E} {S : MemSize} (body : Page S → eff St E unit) (l : list (Page S)) : eff St E unit :=
  match l with
  | [] => mret tt
  | page :: l => body page;; for_list body l
  end.

(** The loop visits the pages in order; only at the very end of the address space the
    iterator overflows. *)
Lemma for_range_list {St E S} (range : PageRangeInclusive S) n (body : Page S → eff St E unit) s :
  wf_pages range n → page_start (pr_end range) + SIZE S < 2 ^ 64 →
  for_range range body s = for_list body (pages_of range n) s.
Proof.
  destruct range as [p e]. intros (Hp & He & Hn & Ee & Hhalf) Htop. cbn [pr_start pr_end] in *.
  pose proof (SIZE_bounds S). unfold for_range. cbn [pr_start pr_end].
  replace ((page_start e - page_start p) / SIZE S) with (n - 1)
    by (rewrite Ee, Z.add_simpl_l, Z.div_mul by lia; done).
  replace (Z.to_nat (n - 1) + 2)%nat with (Datatypes.S (Z.to_nat n)) by lia.
  unfold pages_of. cbn [pr_start]. remember (Z.to_nat n) as c eqn:Ec.
  assert (page_start e - page_start p = (Z.of_nat c - 1) * SIZE S) as Hc by (rewrite Ee; nia).
  assert (∀ j k, (k + j = c)%nat → ∀ s,
    for_pages (Datatypes.S j) (mkPageRange (mkPage (VirtAddr.canonicalize (page_start p + Z.of_nat k * SIZE S))) e) body s
    = for_list body ((λ k, mkPage (page_start p + Z.of_nat k * SIZE S)) <$> seq k j) s) as H'.
  { induction j as [|j IH]; intros k Hk s'.
    - replace k with c by lia. pose proof (page_iter_end p e c Hp He Hhalf Hc Htop) as Hend.
      cbn [for_pages]. unfold PageRangeInclusive.next at 1. cbn [pr_start pr_end page_start].
      by rewrite (proj2 (Z.leb_gt _ _)).
    - remember (Datatypes.S j) as j' eqn:Ej. cbn [for_pages].
      rewrite (eff_bind_lift _ _ _ _ (page_iter_step p e c Hp He Hhalf Hc k Htop (ltac:(lia) : (k < c)%nat))).
      subst j'. cbn [seq fmap list_fmap for_list]. unfold mbind, eff_bind.
      destruct (body _ s') as [[s1 [[]|]]|]; [|done|done]. apply IH. lia. }
  rewrite <- (H' c 0%nat) by done. do 2 f_equal. cbn. rewrite Z.add_0_r, VirtAddr.canonicalize_id by apply Hp. by destruct p.
Qed.

Definition panics {St E} : eff St E unit := λ _, Panic.

(** At the end of the address space the iterator overflows before the last page. *)
Lemma for_range_top {St E S} (range : PageRangeInclusive S) n (body : Page S → eff St E unit) s :
  wf_pages range n → page_start (pr_end range) + SIZE S = 2 ^ 64 →
  for_range range body s = (for_list body (pages_of range (n - 1)) ;; panics) s.
Proof.
  destruct range as [p e]. intros (Hp & He & Hn & Ee & Hhalf) Htop. cbn [pr_start pr_end] in *.
  pose proof (SIZE_bounds S). unfold for_range. cbn [pr_start pr_end].
  replace ((page_start e - page_start p) / SIZE S) with (n - 1)
    by (rewrite Ee, Z.add_simpl_l, Z.div_mul by lia; done).
  unfold pages_of. cbn [pr_start]. remember (Z.to_nat (n - 1)) as c eqn:Ec.
  assert (page_start e - page_start p = (Z.of_nat (Datatypes.S c) - 1) * SIZE S) as Hc by (rewrite Ee; nia).
  replace (c + 2)%nat with (Datatypes.S (Datatypes.S c)) by lia.
  assert (∀ j k, (k + j = c)%nat → ∀ s,
    for_pages (Datatypes.S (Datatypes.S j)) (mkPageRange (mkPage (page_start p + Z.of_nat k * SIZE S)) e) body s
    = (for_list body ((λ k, mkPage (page_start p + Z.of_nat k * SIZE S)) <$> seq k j) ;; panics) s) as H'.
  { induction j as [|j IH]; intros k Hk s'.
    - assert (page_start p + Z.of_nat k * SIZE S = page_start e) as -> by nia.
      remember 1%nat as one. cbn [for_pages]. unfold PageRangeInclusive.next at 1. cbn [pr_start pr_end page_start].
      rewrite Z.leb_refl. unfold Page.add, VirtAddr.add, Page.start_address. cbn [page_start].
      rewrite mul_w_ok by lia. cbn [mbind out_bind]. unfold add_w. rewrite Z.mul_1_l, Htop. done.
    - destruct (Paging.page_at p e (Datatypes.S c) Hp He Hhalf Hc k ltac:(lia)) as [Hw Hle].
      remember (Datatypes.S (Datatypes.S j)) as j' eqn:Ej. cbn [for_pages]. unfold PageRangeInclusive.next at 1.
      cbn [pr_start pr_end page_start]. rewrite (proj2 (Z.leb_le _ _)) by done.
      rewrite page_add_eq; [|done|lia|cbn; nia]. cbn [page_start].
      destruct (Paging.page_at p e (Datatypes.S c) Hp He Hhalf Hc (Datatypes.S k) ltac:(lia)) as [[Hcan _] _]. cbn [page_start] in Hcan.
      replace (page_start p + Z.of_nat k * SIZE S + 1 * SIZE S) with (page_start p + Z.of_nat (Datatypes.S k) * SIZE S) by lia.
      rewrite VirtAddr.canonicalize_id by done. cbn [mbind out_bind]. rewrite (eff_bind_lift _ _ _ _ eq_refl).
      subst j'. cbn [seq fmap list_fmap for_list]. unfold mbind at 1, eff_bind at 1.
      unfold mbind at 2, eff_bind at 2. unfold mbind at 1, eff_bind at 1.
      destruct (body _ s') as [[s1 [[]|]]|]; [|done|done]. rewrite IH by lia. done. }
  rewrite <- (H' c 0%nat) by done. do 2 f_equal. cbn. rewrite Z.add_0_r. by destruct p.
Qed.

(** ** Frames taken while mapping *)

Create HintDb takes.

Section taken.
Context `{Mmu} {A : Type} `{!FrameAllocator A} (R : A → A → Prop) `{!PreOrder R}.
Context (HR : ∀ a o a', allocate_frame a = Ret (o, a') → R a a').

(** The allocator after [f] is related to the one before. *)
Definition takes {E B} (f : eff (st (A := A)) E B) : Prop :=
  ∀ m a m' a' r, f (m, a) = Ret ((m', a'), r) → R a a'.

Lemma takes_bind {E B C} (f : eff (st (A := A)) E B) (g : B → eff (st (A := A)) E C) :
  takes f → (∀ b, takes (g b)) → takes (f ≫= g).
Proof.
  intros Hf Hg m a m' a' r. unfold mbind, eff_bind.
  destruct (f (m, a)) as [[[m1 a1] [b|e]]|] eqn:E1; [| |done].
  - intros E2. etransitivity; [by eapply Hf | by eapply Hg].
  - intros [= -> -> _]. by eapply Hf.
Qed.

Lemma takes_ret {E B} (b : B) : takes (mret b : eff (st (A := A)) E B).
Proof. by intros m a m' a' r [= -> -> _]. Qed.
Lemma takes_throw {E B} (e : E) : takes (throw e : eff (st (A := A)) E B).
Proof. by intros m a m' a' r [= -> -> _]. Qed.
Lemma takes_lift {E B} (o : out B) : takes (lift o : eff (st (A := A)) E B).
Proof. intros m a m' a' r. unfold lift. destruct o; [by intros [= -> -> _] | done]. Qed.
Lemma takes_load {E} va : takes (load (E := E) va).
Proof. intros m a m' a' r. unfold load. destruct (mmu m va); [by intros [= -> -> _] | done]. Qed.
Lemma takes_store {E} va v : takes (store (E := E) va v).
Proof. intros m a m' a' r. unfold store. destruct (mmu m va); [by intros [= _ -> _] | done]. Qed.
Lemma takes_new_frame {F} : takes (new_frame (F := F)).
Proof.
  intros m a m' a' r. unfold new_frame. destruct (allocate_frame a) as [[[f|] a1]|] eqn:E; [| |done];
    intros [= -> -> _]; by eapply HR.
Qed.

#[local] Hint Resolve takes_ret takes_throw takes_lift takes_load takes_store takes_new_frame : takes.

(** Goes through binds and branches. *)
Local Ltac takes := repeat match goal with
  | |- takes (_ ≫= _) => apply takes_bind; [|intros ?]
  | |- takes (if ?b then _ else _) => destruct b
  | |- takes _ => solve [auto with takes]
  end.

Lemma takes_clear_from {E} n entries i : takes (clear_from (E := E) n entries i).
Proof. revert i. induction n as [|n IH]; intros i; cbn [clear_from]; takes. Qed.
Lemma takes_next {F} e : takes (next (F := F) e).
Proof. unfold next. takes. Qed.
Lemma takes_index {E} e i : takes (index (E := E) e i).
Proof. unfold index. takes. Qed.
Lemma takes_entry_set {E} e addr fl : takes (entry_set (E := E) e addr fl).
Proof. unfold entry_set. takes. Qed.
Lemma takes_clear {E} entries : takes (clear (E := E) entries).
Proof. apply takes_clear_from. Qed.

#[local] Hint Resolve takes_next takes_index takes_entry_set takes_clear : takes.

Lemma takes_next_or_create {F} e fl : takes (PageTable.next_or_create (F := F) e fl).
Proof.
  unfold PageTable.next_or_create, entry_add_flags. takes.
Qed.

#[local] Hint Resolve takes_next_or_create : takes.

Lemma takes_map_4k pt page frame fl : takes (PageTable.map_M4KiB pt page frame fl).
Proof. unfold PageTable.map_M4KiB. takes. Qed.
Lemma takes_map_2m pt page frame fl : takes (PageTable.map_M2MiB pt page frame fl).
Proof. unfold PageTable.map_M2MiB. takes. Qed.
Lemma takes_map_1g pt page frame fl : takes (PageTable.map_M1GiB pt page frame fl).
Proof. unfold PageTable.map_M1GiB. takes. Qed.
End taken.

(** The free memory shrinks. *)
Definition shrinks (a a' : FrameAlloc.t) : Prop :=
  frames_inv a → frames_inv a' ∧ ∀ x, free_mem a' x → free_mem a x.

#[global] Instance shrinks_preorder : PreOrder shrinks.
Proof.
  split; [by intros a Ha|]. intros a b c Hab Hbc Ha. destruct (Hab Ha) as [Hb H1].
  destruct (Hbc Hb) as [Hc H2]. auto.
Qed.

Lemma alloc_shrinks S a o a' : FrameAlloc.alloc S a = Ret (o, a') → shrinks a a'.
Proof.
  intros E Ha. pose proof (alloc_frame_spec S a Ha) as Hs. rewrite E in Hs. destruct o as [f|].
  - destruct Hs as (Ha' & _ & _ & Hx). split; [done|]. intros x Hx'. by apply Hx.
  - by destruct Hs as [-> _].
Qed.

(** The allocator when [f] is not one of its frames: [f] may be added to its own. *)
Program Definition frames_and (f : Z) : FrameAllocatorLaws FrameAlloc.t := {|
  alloc_inv a := frames_inv a ∧ ¬ free_mem a f;
  owned a x := free_mem a x ∨ x = f;
|}.
Next Obligation.
  intros f a [Ha Hf]. destruct (alloc_returns (FrameAllocatorLaws := kernel_frames) a Ha) as (o & a' & E & Ha'). exists o, a'. split_and!; [done | done |].
  intros Hx. by apply (alloc_shrinks M4KiB a o a' E) in Hx.
Qed.
Next Obligation.
  intros f a g a' [Ha Hf] E. destruct (alloc_owned (FrameAllocatorLaws := kernel_frames) a g a' Ha E) as (Hg & Ho & Hx).
  split_and!; [done | by left|]. intros x [[? ?]%Hx| ->]; [auto|]. split; [by right|]. by intros ->.
Qed.
Next Obligation.
  intros f a a' [Ha Hf] E x [Hx| ->]; [left | by right]. by apply (alloc_none (FrameAllocatorLaws := kernel_frames) a a').
Qed.

(** What the mapper of each size promises. *)
Class MapperLaws `{Mmu} (root r : Z) (S : MemSize) `{!Mapper (A := FrameAlloc.t) S} : Prop := {
  map_ok (laws : FrameAllocatorLaws FrameAlloc.t) : map_spec root r S (map (S := S));
  map_takes pt page frame fl : takes shrinks (map (S := S) pt page frame fl);
}.

Section mapper_laws.
Context `{Mmu} (root r : Z) `{!MmuLaws root}.
#[local] Existing Instance shrinks_preorder.

#[global] Instance mapper_4k_laws : MapperLaws root r M4KiB.
Proof.
  split; [intros laws; exact (map_4k_ok root r)|]. intros pt page frame fl.
  exact (takes_map_4k shrinks (alloc_shrinks M4KiB) pt page frame fl).
Qed.
#[global] Instance mapper_2m_laws : MapperLaws root r M2MiB.
Proof.
  split; [intros laws; exact (map_2m_ok root r)|]. intros pt page frame fl.
  exact (takes_map_2m shrinks (alloc_shrinks M4KiB) pt page frame fl).
Qed.
#[global] Instance mapper_1g_laws : MapperLaws root r M1GiB.
Proof.
  split; [intros laws; exact (map_1g_ok root r)|]. intros pt page frame fl.
  exact (takes_map_1g shrinks (alloc_shrinks M4KiB) pt page frame fl).
Qed.
End mapper_laws.

(** ** Address spaces *)

Section address_space.
Context `{Mmu} (root r : Z) `{!MmuLaws root}.

Local Abbreviation table := (mkPageTable (rva r [])).

(** The entry that translates an address. *)
Definition leaf_at (m : Z → Z) (va : Z) : option (MemSize * Z) :=
  leaf root m (ix4 va) (ix3 va) (ix2 va) (ix1 va).

(** The addresses outside of the recursive area. *)
Definition regular (va : Z) : Prop := VirtAddr.canonical va ∧ ix4 va ≠ r.

Lemma regular_indices va : regular va → indices r (ix4 va) (ix3 va) (ix2 va) (ix1 va).
Proof. intros [_ Hr]. destruct (ix_bounds va) as (? & ? & ? & ?). unfold indices. auto. Qed.

(** The translation of regular addresses is the same. *)
Definition same_translation (m m' : Z → Z) (P : Z → Prop) : Prop :=
  ∀ va, regular va → P va → leaf_at m' va = leaf_at m va.

(** A page is mapped to a frame, and was free. *)
Definition page_mapped {S} (m m' : Z → Z) (fl : Z) (page : Page S) (frame : Frame S) : Prop :=
  ∀ va, regular va → block (page_start page) (SIZE S) va →
    leaf_at m va = None ∧ leaf_at m' va = Some (S, Z.lor (frame_start frame) (leaf_flags S fl)).

Section pages.
Context {S : MemSize} `{!Mapper (A := FrameAlloc.t) S} `{!MapperLaws root r S}.

Lemma map_addr m a (page : Page S) frame fl :
  pt_inv root r m a → wf_page page → regular (page_start page) → wf_frame frame →
  leaf_at m (page_start page) = None →
  ∃ m' a' res, map table page frame fl (m, a) = Ret ((m', a'), res) ∧ pt_inv root r m' a' ∧ shrinks a a' ∧
    (∀ f, ¬ free_mem a f → unused root r m f → unused root r m' f) ∧
    match res with
    | Ok _ => page_mapped m m' fl page frame ∧
        same_translation m m' (λ va, ¬ block (page_start page) (SIZE S) va)
    | Err _ => same_translation m m' (λ _, True)
    end.
Proof.
  intros Hinv Hp [_ Hr] Hf Hnone.
  destruct (map_ok _ m a page frame fl Hinv Hr Hf) as (m' & a' & res & E & Hinv' & Hpost).
  exists m', a', res. split_and!; [done | done | by eapply map_takes | |].
  { intros f Hff Hfu. pose proof Hinv as (Hwf & Hun & Ha).
    destruct (map_ok (frames_and f) m a page frame fl) as (m1 & a1 & res1 & E1 & (_ & Hun1 & _) & _); [|done|done|].
    - split_and!; [done | | done]. intros x [Hx| ->]; [by apply Hun | done].
    - rewrite E in E1. injection E1 as <- _ _. apply Hun1. by right. }
  destruct res as [pg|err].
  - destruct Hpost as [Hin Hout]. split.
    + intros va Hva Hb. apply Hin; [by apply regular_indices|].
      apply in_page_block; [done | apply Hva | done].
    + intros va Hva Hb. apply Hout; [by apply regular_indices|]. intros Hi. apply Hb.
      apply in_page_block; [done | apply Hva | done].
  - intros va Hva _. destruct err; cbn [map_failed] in Hpost.
    + apply Hpost; [by apply regular_indices | exact I].
    + apply Hpost; [by apply regular_indices | exact I].
    + destruct Hpost.
    + destruct Hpost as (s & e & Hl & _). unfold leaf_at in Hnone. congruence.
    + destruct Hpost.
Qed.

(** Frames that were free, no longer are, and do not overlap. *)
Definition fresh (a a' : FrameAlloc.t) (frames : list (Frame S)) : Prop :=
  Forall (λ f, wf_frame f ∧ ∀ x, block (frame_start f) (SIZE S) x → free_mem a x ∧ ¬ free_mem a' x) frames ∧
  pairwise (λ f g, ∀ x, block (frame_start f) (SIZE S) x → ¬ block (frame_start g) (SIZE S) x) frames.

(** The body of the loop of [alloc_map]. *)
Definition map_page (fl : Z) (page : Page S) : eff ((Z → Z) * FrameAlloc.t) unit unit :=
  o ← AddressSpace.alloc_frame S;
  frame ← ok_or o tt;
  AddressSpace.or_none (map table page frame (Z.lor fl Flags.PRESENT));;
  mret tt.

(** Distinct pages of a list are disjoint. *)
Definition apart_pages (pages : list (Page S)) : Prop :=
  pairwise (λ p q, ∀ va, block (page_start p) (SIZE S) va → ¬ block (page_start q) (SIZE S) va) pages.

(** Pages that can be mapped. *)
Definition mappable (m : Z → Z) (page : Page S) : Prop :=
  wf_page page ∧ regular (page_start page) ∧ leaf_at m (page_start page) = None.

(** Memory that is not free and not used for tables stays unused. *)
Definition keeps (m m' : Z → Z) (a : FrameAlloc.t) : Prop :=
  ∀ x, ¬ free_mem a x → unused root r m x → unused root r m' x.

Lemma alloc_frame_eq {E} m a :
  AddressSpace.alloc_frame (E := E) S (m, a) =
    match FrameAlloc.alloc S a with Ret (f, a') => Ret ((m, a'), Ok f) | Panic => Panic end.
Proof. unfold AddressSpace.alloc_frame. by destruct (FrameAlloc.alloc S a) as [[f a']|]. Qed.

Lemma map_page_spec fl m a page :
  pt_inv root r m a → mappable m page →
  match map_page fl page (m, a) with
  | Ret ((m', a'), Ok _) => pt_inv root r m' a' ∧ shrinks a a' ∧ keeps m m' a ∧
      ∃ f, fresh a a' [f] ∧ unused root r m' (frame_start f) ∧
      page_mapped m m' (Z.lor fl Flags.PRESENT) page f ∧
      same_translation m m' (λ va, ¬ block (page_start page) (SIZE S) va)
  | Ret ((m', a'), Err _) => pt_inv root r m' a' ∧ shrinks a a' ∧ same_translation m m' (λ _, True)
  | Panic => S ≠ M4KiB ∧ used (FrameAlloc.memory_ranges a) = FrameAlloc.MAX_MEMORY_REGIONS
  end.
Proof.
  intros Hinv (Hp & Hr & Hnone). pose proof Hinv as (Hwf & Hun & Ha). change (frames_inv a) in Ha.
  unfold map_page. pose proof (alloc_frame_spec S a Ha) as Hs. unfold mbind at 1, eff_bind at 1.
  rewrite alloc_frame_eq. destruct (FrameAlloc.alloc S a) as [[[f|] a1]|] eqn:Ea; [| |done].
  2: { destruct Hs as [-> _]. split_and!; [done | done | by intros va]. }
  destruct Hs as (Ha1 & Hf & Hfree & Hrest).
  assert (pt_inv root r m a1) as Hinv1.
  { split_and!; [done | | done]. intros x Hx. by apply Hun, (Hrest x). }
  destruct (map_addr m a1 page f (Z.lor fl Flags.PRESENT) Hinv1 Hp Hr Hf Hnone)
    as (m' & a' & res & E & Hinv' & Hsh & Hkeep & Hpost).
  assert (shrinks a a') as Hsh' by (etransitivity; [by eapply alloc_shrinks | done]).
  rewrite (eff_bind_Ok (ok_or (Some f) tt) _ _ _ _ eq_refl).
  unfold mbind, eff_bind, AddressSpace.or_none. rewrite E. destruct res as [pg|err]; [|done].
  destruct Hpost as [Hm Hs]. split_and!; [done | done | |].
  { intros x Hx. apply Hkeep. intros Hx'. by apply Hx, (Hrest x). }
  assert (block (frame_start f) (SIZE S) (frame_start f)) as Hself
    by (unfold block; pose proof (SIZE_bounds S); lia).
  exists f. split_and!; [| | done | done].
  2: { apply Hkeep; [by intros [_ ?]%Hrest | by apply Hun, Hfree]. }
  split; [|constructor; [constructor | done]]. apply Forall_singleton. split; [done|]. intros x Hx.
  split; [by apply Hfree|]. intros Hx'. destruct (Hsh Ha1) as [_ Hsub]. apply Hsub, Hrest in Hx' as [_ Hn]. done.
Qed.

(** The frames of the first page and those of the rest. *)
Lemma fresh_cons a a1 a' f fs :
  frames_inv a → shrinks a a1 → shrinks a1 a' → fresh a a1 [f] → fresh a1 a' fs → fresh a a' (f :: fs).
Proof.
  intros Ha H1 H2 [[Hf Hx]%Forall_singleton _] [Hfs Hp]. destruct (H1 Ha) as [Ha1 S1]. destruct (H2 Ha1) as [_ S2].
  assert (∀ x, block (frame_start f) (SIZE S) x → free_mem a x ∧ ¬ free_mem a' x) as Hx'.
  { intros x Hb. destruct (Hx x Hb). split; [done|]. intros Hn. by apply S2 in Hn. }
  split.
  - apply Forall_cons. split; [done|]. eapply Forall_impl; [done|]. intros g [Hg Hgx]. split; [done|].
    intros x Hb. destruct (Hgx x Hb). split; [by apply S1 | done].
  - constructor; [done|]. eapply Forall_impl; [done|]. intros g [_ Hgx] x Hb Hb'.
    destruct (Hx x Hb) as [_ Hn]. by apply Hn, (Hgx x Hb').
Qed.

Lemma Forall2_with_l {A B} (P : A → Prop) (Q R : A → B → Prop) l k :
  Forall P l → Forall2 Q l k → (∀ x y, P x → Q x y → R x y) → Forall2 R l k.
Proof.
  intros Hl Hlk HR. induction Hlk; [constructor|]. apply Forall_cons in Hl as [? ?]. constructor; auto.
Qed.

(** The loop of [alloc_map]. *)
Lemma map_pages_spec fl pages m a :
  pt_inv root r m a → Forall (mappable m) pages → apart_pages pages →
  match for_list (map_page fl) pages (m, a) with
  | Ret ((m', a'), Ok _) => pt_inv root r m' a' ∧ shrinks a a' ∧
      keeps m m' a ∧
      ∃ frames, fresh a a' frames ∧ Forall (λ f, unused root r m' (frame_start f)) frames ∧
      Forall2 (page_mapped m m' (Z.lor fl Flags.PRESENT)) pages frames ∧
      same_translation m m' (λ va, Forall (λ p, ¬ block (page_start p) (SIZE S) va) pages)
  | Ret ((m', a'), Err _) => pt_inv root r m' a' ∧ shrinks a a' ∧
      same_translation m m' (λ va, Forall (λ p, ¬ block (page_start p) (SIZE S) va) pages)
  | Panic => S ≠ M4KiB
  end.
Proof.
  revert m a. induction pages as [|p pages IH]; intros m a Hinv Hm Hap; cbn [for_list].
  { split_and!; [done | done | by intros x|]. exists []. split_and!; [by split; constructor | done | done | by intros va]. }
  apply Forall_cons in Hm as [Hp Hm]. apply StronglySorted_inv in Hap as [Hap Hpx].
  pose proof (map_page_spec fl m a p Hinv Hp) as H1. unfold mbind, eff_bind.
  destruct (map_page fl p (m, a)) as [[[m1 a1] [u|e]]|]; [| |by destruct H1].
  2: { destruct H1 as (Hi & Hsh & Ht). split_and!; [done | done |]. intros va Hva _. by apply Ht. }
  destruct H1 as (Hinv1 & Hsh1 & Hk1 & f & Hf & Hfu & Hpm & Ht).
  assert (Forall (mappable m1) pages) as Hm1.
  { rewrite Forall_forall in Hm, Hpx |- *. intros q Hq. destruct (Hm q Hq) as (Hwq & Hrq & Hn).
    split_and!; [done | done |]. rewrite Ht; [done | done |]. intros Hb. apply (Hpx q Hq _ Hb).
    unfold block. pose proof (SIZE_bounds S). lia. }
  specialize (IH m1 a1 Hinv1 Hm1 Hap). destruct (for_list _ _ _) as [[[m' a'] [u'|e]]|]; [| |done].
  - destruct IH as (Hi' & Hsh' & Hk' & fs & Hfs & Hfsu & Hpms & Ht'). split_and!; [done | by etransitivity | |].
    { intros x Hx Hu. apply Hk'; [|by apply Hk1]. intros Hx'. apply Hx. by apply Hsh1 in Hx'; [|apply Hinv]. }
    exists (f :: fs). split_and!.
    + apply (fresh_cons a a1 a'); try done. apply Hinv.
    + constructor; [|done]. apply Hk'; [|done]. destruct Hf as [[Hf _]%Forall_cons _].
      apply Hf. unfold block. pose proof (SIZE_bounds S). lia.
    + constructor.
      * intros va Hva Hb. destruct (Hpm va Hva Hb) as [? E]. split; [done|]. rewrite Ht'; [done | done|].
        eapply Forall_impl; [exact Hpx|]. intros q Hq Hbq. by apply (Hq va).
      * eapply (Forall2_with_l _ _ _ _ _ Hpx Hpms). intros q g Hq Hqm va Hva Hb.
        destruct (Hqm va Hva Hb) as [En E]. split; [|done]. rewrite <- Ht; [done | done|].
        intros Hbp. by apply (Hq va).
    + intros va Hva [Hn Hn']%Forall_cons. rewrite Ht' by done. by apply Ht.
  - destruct IH as (Hi' & Hsh' & Ht'). split_and!; [done | by etransitivity|].
    intros va Hva [Hn Hn']%Forall_cons. rewrite Ht' by done. by apply Ht.
Qed.

(** The pages of a range, by address. *)
Lemma pages_of_block (range : PageRangeInclusive S) n va :
  1 ≤ n →
  block (page_start (pr_start range)) (SIZE S * n) va ↔
  ∃ p, p ∈ pages_of range n ∧ block (page_start p) (SIZE S) va.
Proof.
  intros Hn. pose proof (SIZE_bounds S). unfold pages_of, block. set (a := page_start (pr_start range)). split.
  - intros Hva. set (k := (va - a) / SIZE S).
    pose proof (Z.div_mod (va - a) (SIZE S) ltac:(lia)). pose proof (Z.mod_pos_bound (va - a) (SIZE S) ltac:(lia)).
    assert (0 ≤ k < n) by (subst k; split; [apply Z.div_pos; lia | apply Z.div_lt_upper_bound; lia]).
    exists (mkPage (a + Z.of_nat (Z.to_nat k) * SIZE S)). split.
    + apply list_elem_of_fmap. exists (Z.to_nat k). split; [done|]. apply elem_of_seq. lia.
    + cbn. rewrite Z2Nat.id by lia. fold k in H1. lia.
  - intros (p & (k & -> & Hk%elem_of_seq)%list_elem_of_fmap & Hva). cbn in Hva. nia.
Qed.

Lemma pages_of_apart (range : PageRangeInclusive S) n : apart_pages (pages_of range n).
Proof.
  pose proof (SIZE_bounds S). unfold apart_pages, pages_of. generalize 0%nat as k.
  induction (Z.to_nat n) as [|c IH]; intros k; cbn; [constructor|]. constructor; [apply IH|].
  apply Forall_fmap, Forall_forall. intros j Hj%elem_of_seq va. unfold block. cbn. nia.
Qed.

Lemma pages_of_wf (range : PageRangeInclusive S) n p :
  wf_pages range n → p ∈ pages_of range n → wf_page p ∧ block (page_start (pr_start range)) (SIZE S * n) (page_start p).
Proof.
  intros Hw Hp. assert (block (page_start (pr_start range)) (SIZE S * n) (page_start p)) as Hb.
  { apply pages_of_block; [apply Hw|]. exists p. split; [done|]. unfold block. pose proof (SIZE_bounds S). lia. }
  split; [|done]. split; [by eapply wf_pages_canonical|].
  apply list_elem_of_fmap in Hp as (k & -> & _). cbn. pose proof (SIZE_bounds S). rewrite Z.mod_add by lia. apply Hw.
Qed.
End pages.

Import AddressSpace.

(** Projections of a machine. *)
Local Ltac proj := cbn [mem cr3 fralloc space pt lvl4_paddr pgalloc] in *.

(** The machine with an active address space whose free pages are not mapped. *)
Record vm_inv (s : machine) : Prop := {
  vm_active : is_active s = true;
  vm_table : pt (space s) = table;
  vm_tables : pt_inv root r (mem s) (fralloc s);
  vm_pages : pages_inv (pgalloc (space s));
  vm_free va : free_va (pgalloc (space s)) va → ix4 va ≠ r ∧ leaf_at (mem s) va = None;
}.

(** The free pages of the machine. *)
Definition free_pages_of (s : machine) (va : Z) : Prop := free_va (pgalloc (space s)) va.

(** What [alloc_map] does when it gives out a range of [n] pages. *)
Definition allocated {S} (s s' : machine) (fl : Z) (range : PageRangeInclusive S) (n : Z) : Prop :=
  wf_pages range n ∧ page_start (pr_end range) + SIZE S < 2 ^ 64 ∧
  (∀ va, block (page_start (pr_start range)) (SIZE S * n) va → free_pages_of s va) ∧
  (∀ va, free_pages_of s' va ↔ free_pages_of s va ∧ ¬ block (page_start (pr_start range)) (SIZE S * n) va) ∧
  same_translation (mem s) (mem s') (λ va, ¬ block (page_start (pr_start range)) (SIZE S * n) va) ∧
  (∀ x, free_mem (fralloc s') x → free_mem (fralloc s) x) ∧
  ∃ frames, fresh (S := S) (fralloc s) (fralloc s') frames ∧
    Forall (λ f, unused root r (mem s') (frame_start f)) frames ∧
    Forall2 (page_mapped (mem s) (mem s') (Z.lor fl Flags.PRESENT)) (pages_of range n) frames.

Section alloc_map.
Context (S : MemSize) `{!Mapper (A := FrameAlloc.t) S} `{!MapperLaws root r S}.

(** The pages of a free range can be mapped. *)
Lemma free_mappable m c a l4 pg (range : PageRangeInclusive S) n k :
  vm_inv (mkMachine m c a (mkAddressSpace table l4 pg)) → wf_pages range n → k ≤ n →
  (∀ va, block (page_start (pr_start range)) (SIZE S * n) va → free_va pg va) →
  Forall (mappable (S := S) m) (pages_of range k).
Proof.
  intros Hinv Hwp Hk Hblock. apply Forall_forall. intros p Hp.
  assert (p ∈ pages_of range n) as Hp'.
  { apply list_elem_of_fmap in Hp as (j & -> & Hj%elem_of_seq). apply list_elem_of_fmap. exists j.
    split; [done|]. apply elem_of_seq. lia. }
  destruct (pages_of_wf range n p Hwp Hp') as [Hw Hb].
  destruct (vm_free _ Hinv (page_start p)) as [? ?]; [by apply Hblock|].
  split_and!; [done | split; [apply Hw | done] | done].
Qed.

(** The machine after the pages of a range have been taken and some of them mapped. *)
Lemma taken_inv m c a l4 pg pg' m' a' (range : PageRangeInclusive S) n :
  vm_inv (mkMachine m c a (mkAddressSpace table l4 pg)) → pages_inv pg' → pt_inv root r m' a' →
  (∀ va, free_va pg' va ↔ free_va pg va ∧ ¬ block (page_start (pr_start range)) (SIZE S * n) va) →
  same_translation m m' (λ va, ¬ block (page_start (pr_start range)) (SIZE S * n) va) →
  vm_inv (mkMachine m' c a' (mkAddressSpace table l4 pg')).
Proof.
  intros [Hact Ept Htab Hpg Hfree] Hpg' Htab' Hfree' Ht. split; proj; try done.
  intros va [Hva Hn]%Hfree'. destruct (Hfree va Hva) as [Hr Hl]. split; [done|]. rewrite Ht; [done | | done].
  split; [by apply Hpg | done].
Qed.

Lemma not_in_pages (range : PageRangeInclusive S) n k va :
  k ≤ n → 1 ≤ n → ¬ block (page_start (pr_start range)) (SIZE S * n) va →
  Forall (λ p, ¬ block (page_start p) (SIZE S) va) (pages_of range k).
Proof.
  intros Hk Hn Hb. apply Forall_forall. intros p Hp Hbp. apply Hb. pose proof (SIZE_bounds S).
  apply list_elem_of_fmap in Hp as (j & -> & Hj%elem_of_seq). unfold block in *. cbn in Hbp. nia.
Qed.

Lemma alloc_map_ok size fl s :
  vm_inv s → 0 < size → size + SIZE S ≤ 2 ^ 64 →
  match alloc_map S size fl s with
  | Ret (s', Ok range) => vm_inv s' ∧ allocated s s' fl range ((size + SIZE S - 1) / SIZE S)
  | Ret (s', Err _) => vm_inv s' ∧ (∀ va, free_pages_of s' va → free_pages_of s va) ∧
      same_translation (mem s) (mem s') (λ va, ¬ free_pages_of s va)
  | Panic => S ≠ M4KiB ∨ used (PageAllocator.vranges (pgalloc (space s))) = PROCESS_PGALLOC_VRANGES ∨
      free_pages_of s (2 ^ 64 - 1)
  end.
Proof.
  intros Hinv Hsize Htop. pose proof (SIZE_bounds S) as Hb. unfold alloc_map. cbn zeta.
  set (n := (size + SIZE S - 1) / SIZE S).
  assert (1 ≤ n ∧ SIZE S * n < 2 ^ 64) as [Hn Hlt].
  { pose proof (Z.mul_div_le (size + SIZE S - 1) (SIZE S) ltac:(lia)) as Hle.
    split; [apply Z.div_le_lower_bound; lia | fold n in Hle; lia]. }
  destruct s as [m c a [pt0 l4 pg]]. pose proof Hinv as [Hact Ept Htab Hpg Hfree]. proj. subst pt0.
  pose proof (allocate_pages_spec (S := S) pg n Hpg Hn Hlt) as Hp. unfold free_pages_of.
  unfold mbind at 1, eff_bind at 1, with_pgalloc. cbn [space pgalloc pt lvl4_paddr mem cr3 fralloc].
  destruct (PageAllocator.allocate_pages pg n) as [[pg' [range|]]|]; cbn [mbind out_bind]; [| |by right; left].
  2: { destruct Hp as [-> _]. split_and!; [done | done | by intros va]. }
  destruct Hp as (Hpg' & Hwp & Hblock & Hfree'). set (s' := mkMachine m c a (mkAddressSpace table l4 pg')).
  rewrite (eff_bind_Ok (ok_or (Some range) tt) _ _ _ _ eq_refl).
  unfold mbind at 1, eff_bind at 1, with_page_table. subst s'. unfold is_active in *. proj. rewrite Hact.
  change (for_range range _) with (for_range range (map_page (S := S) fl)).
  assert (∀ m' a', pt_inv root r m' a' →
    same_translation m m' (λ va, Forall (λ p, ¬ block (page_start p) (SIZE S) va) (pages_of range n)) →
    vm_inv (mkMachine m' c a' (mkAddressSpace table l4 pg')) ∧ (∀ va, free_va pg' va → free_va pg va) ∧
    same_translation m m' (λ va, ¬ free_va pg va)) as Herr.
  { intros m' a' Htab' Ht. assert (same_translation m m' (λ va,
      ¬ block (page_start (pr_start range)) (SIZE S * n) va)) as Ht'.
    { intros va Hva Hnb. apply Ht; [done|]. by apply (not_in_pages range n n). }
    split_and!; [by eapply (taken_inv m c a l4 pg) | by intros va [? _]%Hfree' |].
    intros va Hva Hnf. apply Ht'; [done|]. intros Hbl. by apply Hnf, Hblock. }
  destruct (decide (page_start (pr_end range) + SIZE S < 2 ^ 64)) as [Hend|Hend].
  - rewrite (for_range_list range n) by done.
    pose proof (map_pages_spec fl _ m a Htab (free_mappable _ _ _ _ _ range n n Hinv Hwp ltac:(lia) Hblock) (pages_of_apart range n)) as Hm.
    destruct (for_list _ _ _) as [[[m' a'] [u|e]]|]; [| |by left].
    + destruct Hm as (Htab' & Hsh & _ & fs & Hfs & Hfu & Hmap & Ht). assert (same_translation m m' (λ va,
        ¬ block (page_start (pr_start range)) (SIZE S * n) va)) as Ht'.
      { intros va Hva Hnb. apply Ht; [done|]. by apply (not_in_pages range n n). }
      split; [by eapply (taken_inv m c a l4 pg) | split_and!; eauto]. apply Hsh, Htab.
    + destruct Hm as (Htab' & _ & Ht). by apply Herr.
  - assert (page_start (pr_end range) + SIZE S = 2 ^ 64) as Hend'.
    { destruct (page_end (pr_end range)) as [_ ?]; [apply Hwp | lia]. }
    rewrite (for_range_top range n) by done. unfold mbind at 1, eff_bind at 1.
    pose proof (map_pages_spec fl _ m a Htab (free_mappable _ _ _ _ _ range n (n - 1) Hinv Hwp ltac:(lia) Hblock) (pages_of_apart range (n - 1))) as Hm.
    destruct (for_list _ _ _) as [[[m' a'] [u|e]]|]; [| |by left].
    + right. right. apply Hblock. destruct Hwp as ([Hs _] & _ & _ & Ee & _).
      apply VirtAddr.canonical_u64 in Hs as [Hs _]. unfold block. nia.
    + destruct Hm as (Htab' & _ & Ht). apply Herr; [done|]. intros va Hva Hnb. apply Ht; [done|].
      rewrite Forall_forall in Hnb |- *. intros p Hp. apply Hnb.
      apply list_elem_of_fmap in Hp as (j & -> & Hj%elem_of_seq). apply list_elem_of_fmap. exists j.
      split; [done|]. apply elem_of_seq. lia.
Qed.
End alloc_map.

(** *** Unmapping pages of 4 KiB *)

(** The body of the loop of [unmap_free]. *)
Definition unmap_page (page : Page M4KiB) : eff ((Z → Z) * FrameAlloc.t) unit unit :=
  if_ok (unmap table page) (λ '(frame, flush), free_frame frame).

(** The page is free, or mapped to a frame that holds no table. *)
Definition unmappable (m : Z → Z) (page : Page M4KiB) : Prop :=
  wf_page page ∧ regular (page_start page) ∧
  match leaf_at m (page_start page) with
  | None => True
  | Some (s, e) => s = M4KiB ∧ unused root r m (frame_of e)
  end.

(** The memory of the frame of a page. *)
Definition frame_mem (m : Z → Z) (page : Page M4KiB) (x : Z) : Prop :=
  ∃ e, leaf_at m (page_start page) = Some (M4KiB, e) ∧ block (frame_of e) (SIZE M4KiB) x.

(** The array of free ranges is full after more memory has been freed. *)
Definition ranges_full (a : FrameAlloc.t) : Prop :=
  ∃ a', (∀ x, free_mem a x → free_mem a' x) ∧
    used (FrameAlloc.memory_ranges a') = FrameAlloc.MAX_MEMORY_REGIONS.

Lemma same_page_leaf m va (page : Page M4KiB) :
  wf_page page → regular va → block (page_start page) (SIZE M4KiB) va →
  leaf_at m va = leaf_at m (page_start page).
Proof.
  intros Hp [Hva _] Hb. apply (in_page_block page va Hp Hva) in Hb. cbn in Hb. unfold leaf_at.
  by injection Hb as -> -> -> ->.
Qed.

Lemma unmap_page_spec m a page :
  pt_inv root r m a → unmappable m page →
  match unmap_page page (m, a) with
  | Ret ((m', a'), res) => res = Ok tt ∧ pt_inv root r m' a' ∧
      (∀ f, unused root r m f → unused root r m' f) ∧
      (∀ va, regular va → block (page_start page) (SIZE M4KiB) va → leaf_at m' va = None) ∧
      same_translation m m' (λ va, ¬ block (page_start page) (SIZE M4KiB) va) ∧
      (∀ x, free_mem a' x ↔ free_mem a x ∨ frame_mem m page x)
  | Panic => used (FrameAlloc.memory_ranges a) = FrameAlloc.MAX_MEMORY_REGIONS
  end.
Proof.
  intros Hinv (Hp & Hr & Hl). pose proof Hr as [Hc Hr4]. unfold unmap_page, if_ok.
  change (unmap table page (m, a)) with (PageTable.unmap_M4KiB table page (m, a)).
  destruct (unmap_4k_ok root r m a page Hinv Hr4) as (m' & res & -> & Hinv' & Hk & Hpost).
  unfold frame_mem. fold (leaf_at m (page_start page)) in Hpost.
  destruct (leaf_at m (page_start page)) as [[sz e]|] eqn:El.
  - destruct Hl as [-> Hu]. destruct Hpost as (-> & Hn & Hs).
    assert (wf_frame (S := M4KiB) (mkFrame (frame_of e))) as Hf by apply frame_of_aligned.
    pose proof (free_frame_spec a (mkFrame (frame_of e)) (proj2 (proj2 Hinv)) Hf) as Hfree.
    unfold free_frame. destruct (FrameAlloc.free a _) as [a'|]; cbn [mbind out_bind]; [|done].
    destruct Hfree as [Ha' Hx]. cbn [frame_start] in Hx. split_and!; [done | | done | | |].
    + split_and!; [apply Hinv' | | done]. intros f [Hf'|Hb]%Hx; [by apply Hinv'|].
      intros q Hq Hlq HT. assert (aligned_frame f) as [_ Hfm].
      { eapply tbl_aligned; [|exact HT]. apply Hinv'. }
      assert (f = frame_of e) as ->; [|by apply (Hk _ Hu q)].
      destruct (frame_of_aligned e) as [_ Hem]. unfold block in Hb. cbn in Hb.
      apply Z.mod_divide in Hfm as [k ->], Hem as [k' Ek]; [|done|done]. rewrite Ek in *. lia.
    + intros va Hva Hb. rewrite (same_page_leaf m' va page Hp Hva Hb). exact Hn.
    + intros va Hva Hb. apply Hs; [by apply regular_indices|]. intros Hi. apply Hb.
      apply in_page_block; [done | apply Hva | done].
    + intros x. rewrite Hx. naive_solver.
  - destruct Hpost as [-> [err ->]]. split_and!; [done | done | done | | by intros va | naive_solver].
    intros va Hva Hb. by rewrite (same_page_leaf m va page Hp Hva Hb).
Qed.

(** The loop of [unmap_free]. *)
Lemma unmap_pages_spec pages m a :
  pt_inv root r m a → Forall (unmappable m) pages → apart_pages pages →
  match for_list unmap_page pages (m, a) with
  | Ret ((m', a'), res) => res = Ok tt ∧ pt_inv root r m' a' ∧
      (∀ va, regular va → (∃ p, p ∈ pages ∧ block (page_start p) (SIZE M4KiB) va) → leaf_at m' va = None) ∧
      same_translation m m' (λ va, Forall (λ p, ¬ block (page_start p) (SIZE M4KiB) va) pages) ∧
      (∀ x, free_mem a' x ↔ free_mem a x ∨ ∃ p, p ∈ pages ∧ frame_mem m p x)
  | Panic => ranges_full a
  end.
Proof.
  revert m a. induction pages as [|p pages IH]; intros m a Hinv Hm Hap; cbn [for_list].
  { split_and!; [done | done | | by intros va |].
    - by intros va _ (p & Hp%elem_of_nil & _).
    - intros x. split; [by left|]. by intros [?|(p & Hp%elem_of_nil & _)]. }
  apply Forall_cons in Hm as [Hp Hm]. apply StronglySorted_inv in Hap as [Hap Hpx].
  pose proof (unmap_page_spec m a p Hinv Hp) as H1. unfold mbind, eff_bind.
  destruct (unmap_page p (m, a)) as [[[m1 a1] res]|]; [|by exists a].
  destruct H1 as (-> & Hinv1 & Hk1 & Hn1 & Ht1 & Hx1).
  assert (∀ q, q ∈ pages → leaf_at m1 (page_start q) = leaf_at m (page_start q)) as Hsame.
  { rewrite Forall_forall in Hm, Hpx. intros q Hq. destruct (Hm q Hq) as (_ & Hrq & _).
    apply Ht1; [done|]. intros Hb. apply (Hpx q Hq _ Hb). unfold block. cbn. lia. }
  assert (Forall (unmappable m1) pages) as Hm1.
  { rewrite Forall_forall in Hm |- *. intros q Hq. destruct (Hm q Hq) as (Hwq & Hrq & Hl).
    split_and!; [done | done |]. rewrite (Hsame q Hq).
    destruct (leaf_at m (page_start q)) as [[sz e]|]; [|done]. destruct Hl as [-> Hu]. auto. }
  specialize (IH m1 a1 Hinv1 Hm1 Hap). destruct (for_list _ _ _) as [[[m' a'] res]|].
  2: { destruct IH as (a2 & H2 & Hu). exists a2. split; [|done]. intros x Hx. by apply H2, Hx1; left. }
  destruct IH as (-> & Hi' & Hn' & Ht' & Hx'). split_and!; [done | done | | |].
  - intros va Hva (q & [->|Hq]%elem_of_cons & Hb); [|by apply Hn'; eauto].
    rewrite Ht'; [by apply Hn1 | done|]. eapply Forall_impl; [exact Hpx|]. intros q Hq. by apply Hq.
  - intros va Hva [Hn Hnn]%Forall_cons. rewrite Ht' by done. by apply Ht1.
  - intros x. rewrite Hx', Hx1. split.
    + intros [[?|Hp']|(q & Hq & e & He & Hb)]; [by left | right; exists p; split; [left | done] | right].
      exists q. split; [by right|]. exists e. by rewrite <- (Hsame q Hq).
    + intros [?|(q & [->|Hq]%elem_of_cons & Hqx)]; [by left; left | by left; right | right].
      destruct Hqx as (e & He & Hb). exists q. split; [done|]. exists e. by rewrite (Hsame q Hq).
Qed.

Lemma unmap_free_ok range n s :
  vm_inv s → wf_pages range n → page_start (pr_end range) + SIZE M4KiB < 2 ^ 64 →
  Forall (unmappable (mem s)) (pages_of range n) →
  match unmap_free M4KiB range s with
  | Ret (s', res) => res = Ok tt ∧ vm_inv s' ∧
      (∀ va, free_pages_of s' va ↔
         free_pages_of s va ∨ block (page_start (pr_start range)) (SIZE M4KiB * n) va) ∧
      same_translation (mem s) (mem s') (λ va, ¬ block (page_start (pr_start range)) (SIZE M4KiB * n) va) ∧
      (∀ x, free_mem (fralloc s') x ↔
         free_mem (fralloc s) x ∨ ∃ p, p ∈ pages_of range n ∧ frame_mem (mem s) p x)
  | Panic => ranges_full (fralloc s) ∨
      used (PageAllocator.vranges (pgalloc (space s))) = PROCESS_PGALLOC_VRANGES
  end.
Proof.
  intros Hinv Hwp Hend Hun. destruct s as [m c a [pt0 l4 pg]].
  pose proof Hinv as [Hact Ept Htab Hpg Hfree]. unfold free_pages_of. unfold is_active in Hact. proj. subst pt0.
  unfold unmap_free, mbind at 1, eff_bind at 1, with_page_table, is_active. proj. rewrite Hact.
  change (for_range range _) with (for_range range unmap_page). rewrite (for_range_list range n) by done.
  pose proof (unmap_pages_spec _ m a Htab Hun (pages_of_apart range n)) as Hs.
  destruct (for_list _ _ _) as [[[m' a'] res]|]; [|by left]. destruct Hs as (-> & Htab' & Hnone & Hsame & Hx).
  unfold with_pgalloc. proj. pose proof (free_pages_spec pg range n Hpg Hwp) as Hf.
  destruct (PageAllocator.free_pages pg range) as [pg'|]; cbn [mbind out_bind mret out_ret]; [|by right].
  destruct Hf as [Hpg' Hfree']. assert (same_translation m m' (λ va,
    ¬ block (page_start (pr_start range)) (SIZE M4KiB * n) va)) as Hsame'.
  { intros va Hva Hnb. apply Hsame; [done|]. apply (not_in_pages _ range n n); [lia | apply Hwp | done]. }
  split_and!; [done | | done | done | done]. split; unfold is_active; proj; try done.
  intros va Hva. destruct (decide (block (page_start (pr_start range)) (SIZE M4KiB * n) va)) as [Hb|Hnb].
  - assert (VirtAddr.canonical va) as Hc by (by eapply wf_pages_canonical).
    apply pages_of_block in Hb as (p & Hp & Hb); [|apply Hwp].
    pose proof (proj1 (Forall_forall _ _) Hun p Hp) as (Hwf & [_ Hr] & _).
    assert (ix4 va ≠ r) as Hr' by (apply (in_page_block p va Hwf Hc) in Hb; cbn in Hb; congruence).
    split; [done|]. apply Hnone; [done | eauto].
  - apply Hfree' in Hva as [Hva|?]; [|done]. destruct (Hfree va Hva) as [Hr Hl]. split; [done|].
    rewrite Hsame'; [done | split; [by apply Hpg | done] | done].
Qed.

(** The frame of a page that [alloc_map] has mapped. *)
Lemma allocated_frame s s' fl range n p :
  vm_inv s → wf_flags fl → allocated (S := M4KiB) s s' fl range n → p ∈ pages_of range n →
  wf_page p ∧ regular (page_start p) ∧ ∃ (f : Frame M4KiB) e, leaf_at (mem s') (page_start p) = Some (M4KiB, e) ∧ frame_of e = frame_start f ∧
    unused root r (mem s') (frame_start f) ∧
    ∀ x, block (frame_start f) (SIZE M4KiB) x → free_mem (fralloc s) x.
Proof.
  intros Hinv Hfl (Hwp & _ & Hblock & _ & _ & _ & frames & [Hfr _] & Hun & Hmap) Hp.
  destruct (pages_of_wf range n p Hwp Hp) as [Hw Hb].
  apply Hblock in Hb. destruct (vm_free _ Hinv _ Hb) as [Hr _].
  assert (regular (page_start p)) as Hreg by (split; [apply Hw | done]).
  split_and!; [done | done |]. apply list_elem_of_lookup in Hp as [k Hk].
  apply (Forall2_lookup_l _ _ _ _ _ Hmap) in Hk as (f & Hf & Hm).
  destruct (Hm (page_start p) Hreg) as [_ ->]; [unfold block; cbn; lia|].
  rewrite Forall_lookup in Hun, Hfr. destruct (Hfr k f Hf) as [Hwff Hfx].
  eexists f, _. split_and!; [done | | by eapply Hun | intros x Hx; by apply Hfx].
  apply made_frame; [by apply wf_frame_aligned|].
  apply leaf_flags_wf. unfold wf_flags in *. rewrite Z.land_lor_distr_l, Hfl. done.
Qed.

Lemma allocated_frame_mem s s' fl range n :
  vm_inv s → wf_flags fl → allocated (S := M4KiB) s s' fl range n →
  ∀ p x, p ∈ pages_of range n → frame_mem (mem s') p x → free_mem (fralloc s) x.
Proof.
  intros Hinv Hfl Ha p x Hp (e & He & Hx).
  destruct (allocated_frame s s' fl range n p Hinv Hfl Ha Hp) as (_ & _ & f & e' & He' & Hf & _ & Hfx).
  rewrite He in He'. injection He' as <-. apply Hfx. by rewrite <- Hf.
Qed.

(** The pages that [alloc_map] has mapped can be unmapped. *)
Lemma allocated_unmappable s s' fl range n :
  vm_inv s → wf_flags fl → allocated (S := M4KiB) s s' fl range n → vm_inv s' →
  Forall (unmappable (mem s')) (pages_of range n).
Proof.
  intros Hinv Hfl Ha Hinv'. apply Forall_forall. intros p Hp.
  destruct (allocated_frame s s' fl range n p Hinv Hfl Ha Hp) as (Hw & Hr & f & e & He & Hf & Hu & _).
  split_and!; [done | done |]. rewrite He, Hf. done.
Qed.

(** [alloc_map] is correct for pages of a size. *)
Definition alloc_map_correct (S : MemSize) `{!Mapper (A := FrameAlloc.t) S} : Prop :=
  ∀ size fl s, vm_inv s → 0 < size → size + SIZE S ≤ 2 ^ 64 →
  match alloc_map S size fl s with
  | Ret (s', Ok range) => vm_inv s' ∧ allocated s s' fl range ((size + SIZE S - 1) / SIZE S)
  | Ret (s', Err _) => vm_inv s' ∧ (∀ va, free_pages_of s' va → free_pages_of s va) ∧
      same_translation (mem s) (mem s') (λ va, ¬ free_pages_of s va)
  | Panic => S ≠ M4KiB ∨ used (PageAllocator.vranges (pgalloc (space s))) = PROCESS_PGALLOC_VRANGES ∨
      free_pages_of s (2 ^ 64 - 1)
  end.

(** C6: [alloc_map] of an address space, for pages of the three sizes: when it succeeds, the
    range has enough pages to hold [size] bytes, they were free and are no longer; each of
    them is mapped, with the flags that were asked for, to a frame of its own that was free
    memory and is no longer, and which is not a page table; the translation of all other
    addresses is the same.  When it fails only addresses that were free may be translated
    differently.  It panics only when the arrays of ranges are full or when the last page of
    the address space is free. *)
Theorem alloc_map_spec :
  alloc_map_correct M4KiB ∧ alloc_map_correct M2MiB ∧ alloc_map_correct M1GiB.
Proof. split; [|split]; intros size fl s; [exact (alloc_map_ok M4KiB size fl s) | exact (alloc_map_ok M2MiB size fl s) | exact (alloc_map_ok M1GiB size fl s)]. Qed.

(** Freeing what [alloc_map] has mapped takes the address space back: every address is
    translated as before and the free pages are the same; the frames of the pages are free
    memory again, and nothing else is (frames of page tables made on the way stay in use).
    It panics only when an array of free ranges is full. *)
Theorem alloc_map_free size fl s s' range :
  vm_inv s → 0 < size → size + SIZE M4KiB ≤ 2 ^ 64 → wf_flags fl →
  alloc_map M4KiB size fl s = Ret (s', Ok range) →
  match unmap_free M4KiB range s' with
  | Ret (s'', res) => res = Ok tt ∧ vm_inv s'' ∧ same_translation (mem s) (mem s'') (λ _, True) ∧
      (∀ va, free_pages_of s'' va ↔ free_pages_of s va) ∧
      (∀ x, free_mem (fralloc s'') x → free_mem (fralloc s) x) ∧
      (∀ p x, p ∈ pages_of range ((size + SIZE M4KiB - 1) / SIZE M4KiB) → frame_mem (mem s') p x →
         free_mem (fralloc s'') x)
  | Panic => ranges_full (fralloc s') ∨
      used (PageAllocator.vranges (pgalloc (space s'))) = PROCESS_PGALLOC_VRANGES
  end.
Proof.
  intros Hinv Hsize Htop Hfl E. pose proof (alloc_map_ok M4KiB size fl s Hinv Hsize Htop) as Ha.
  rewrite E in Ha. destruct Ha as [Hinv' Ha]. set (n := (size + SIZE M4KiB - 1) / SIZE M4KiB) in *.
  pose proof (allocated_unmappable s s' fl range n Hinv Hfl Ha Hinv') as Hun.
  pose proof Ha as (Hwp & Hend & Hblock & Hfree & Ht & Hsh & _).
  pose proof (unmap_free_ok range n s' Hinv' Hwp Hend Hun) as Hu.
  destruct (unmap_free M4KiB range s') as [[s'' res]|]; [|done].
  destruct Hu as (-> & Hinv'' & Hfree'' & Ht'' & Hx). split_and!; [done | done | | | |].
  - intros va Hva _. destruct (decide (block (page_start (pr_start range)) (SIZE M4KiB * n) va)) as [Hb|Hnb].
    + destruct (vm_free _ Hinv va) as [_ ->]; [by apply Hblock|].
      apply (vm_free _ Hinv'' va), Hfree''. by right.
    + rewrite Ht'' by done. by apply Ht.
  - intros va. rewrite Hfree'', Hfree. pose proof (Hblock va).
    destruct (decide (block (page_start (pr_start range)) (SIZE M4KiB * n) va)); tauto.
  - intros x [Hx'|(p & Hp & Hpx)]%Hx; [by apply Hsh|].
    by apply (allocated_frame_mem s s' fl range n Hinv Hfl Ha p x).
  - intros p x Hp Hpx. apply Hx. right. eauto.
Qed.
End address_space.

(** ** The layout *)

(** The indices of the addresses of a range within one half. *)
Lemma ix4_between lo hi va :
  VirtAddr.canonical lo → VirtAddr.canonical hi → same_half lo hi → lo ≤ va ≤ hi →
  VirtAddr.canonical va ∧ ix4 lo ≤ ix4 va ≤ ix4 hi.
Proof.
  intros Hlo Hhi Hhalf Hva. pose proof (canonical_between lo va hi Hlo Hhi Hhalf Hva) as Hc. split; [done|].
  assert (∀ x, ix4 x = x mod 2 ^ 48 / 2 ^ 39) as Hix.
  { intros x. pose proof (VirtAddr.low48_digits x) as D. unfold ix4.
    destruct (ix_bounds x) as (? & ? & ? & ?). unfold ix4, ix3, ix2, ix1 in *.
    apply Z.div_unique with (x mod 2 ^ 48 - (x / 2 ^ 39) mod 512 * 2 ^ 39); [|lia].
    pose proof (Z.mod_pos_bound x 4096 ltac:(lia)). lia. }
  rewrite !Hix. unfold same_half in Hhalf.
  destruct (canonical_low lo Hlo) as [[? ->]|[? ->]], (canonical_low va Hc) as [[? ->]|[? ->]],
    (canonical_low hi Hhi) as [[? ->]|[? ->]];
    unfold VirtAddr.MAX_LOWER_HALF, VirtAddr.MIN_UPPER_HALF in *; try lia; split; apply Z.div_le_mono; lia.
Qed.

Lemma new_range_pages lo hi p :
  VirtAddr.canonical lo → VirtAddr.canonical hi → same_half lo hi →
  PageAllocator.new_range AddressSpace.PROCESS_PGALLOC_VRANGES lo hi = Ret p →
  pages_inv p ∧ ∀ va, free_va p va ↔ lo ≤ va ≤ hi.
Proof.
  intros Hlo Hhi Hhalf H. unfold PageAllocator.new_range, MemoryRange.new in H. out_inv.
  pose proof (VirtAddr.canonical_u64 _ Hlo) as [Hlo0 _]. pose proof (VirtAddr.canonical_u64 _ Hhi) as [_ Hhi0].
  match goal with Hle : (lo <=? hi) = true, Hins : MemoryRanges.insert _ _ = _ |- _ =>
    apply Z.leb_le in Hle; apply (insert_Ret _ _ _ _ (new_inv _)) in Hins as [Hinv Ha]; [|unfold wf_range; cbn; lia] end.
  assert (∀ va, addrs r0 va ↔ lo ≤ va ≤ hi) as Hva.
  { intros va. rewrite Ha. unfold in_range. cbn. split; [|by right]. by intros [(q & Hq%elem_of_nil & _)|?]. }
  split; [split; [done|] | done]. intros va Hf%Hva. by apply (ix4_between lo hi va).
Qed.

(** C39: the pages of a process are those of the lower half but the first, and those of the
    kernel are in the upper half: none of them is in the recursive area, and the two are
    told apart by [is_addr_owned]. *)
Theorem layout_spec space :
  ∃ p k, AddressSpace.process_pages = Ret p ∧ AddressSpace.kernel_pages = Ret k ∧ pages_inv p ∧ pages_inv k ∧
    (∀ va, free_va p va ↔ 0x1000 ≤ va ≤ VirtAddr.MAX_LOWER_HALF) ∧
    (∀ va, free_va k va ↔ KERNEL_POOL_BASE ≤ va ≤ VirtAddr.MAX) ∧
    (∀ va, free_va p va ∨ free_va k va → ix4 va ≠ KERNEL_PT_RECURSIVE_INDEX) ∧
    (∀ va, free_va p va → AddressSpace.is_addr_owned space va va = Ret true) ∧
    (∀ va, free_va k va → AddressSpace.is_addr_owned space va va = Ret false).
Proof.
  destruct (AddressSpace.process_pages) as [p|] eqn:Ep; [|done]. destruct (AddressSpace.kernel_pages) as [k|] eqn:Ek; [|done].
  assert (VirtAddr.canonical 0x1000 ∧ VirtAddr.canonical VirtAddr.MAX_LOWER_HALF ∧
    VirtAddr.canonical KERNEL_POOL_BASE ∧ VirtAddr.canonical VirtAddr.MAX) as (C1 & C2 & C3 & C4).
  { unfold VirtAddr.canonical, VirtAddr.MAX, VirtAddr.MAX_LOWER_HALF, VirtAddr.MIN_UPPER_HALF.
    change KERNEL_POOL_BASE with 0xFFFF820000000000. lia. }
  assert (same_half 0x1000 VirtAddr.MAX_LOWER_HALF) as S1 by (left; done).
  assert (same_half KERNEL_POOL_BASE VirtAddr.MAX) as S2 by (right; done).
  destruct (new_range_pages 0x1000 VirtAddr.MAX_LOWER_HALF p C1 C2 S1 Ep) as [Hp Hpv].
  destruct (new_range_pages KERNEL_POOL_BASE VirtAddr.MAX k C3 C4 S2 Ek) as [Hk Hkv].
  assert (∀ va b, (va <? KERNEL_AS_BASE) = b → AddressSpace.is_addr_owned space va va = Ret b) as Hown.
  { intros va b <-. unfold AddressSpace.is_addr_owned. by rewrite Z.leb_refl. }
  exists p, k. split_and!; try done.
  - intros va [Hva%Hpv|Hva%Hkv].
    + destruct (ix4_between _ _ va C1 C2 S1 Hva) as [_ [_ H]]. change (ix4 VirtAddr.MAX_LOWER_HALF) with 255 in H.
      unfold KERNEL_PT_RECURSIVE_INDEX. lia.
    + destruct (ix4_between _ _ va C3 C4 S2 Hva) as [_ [H _]]. change (ix4 KERNEL_POOL_BASE) with 260 in H.
      unfold KERNEL_PT_RECURSIVE_INDEX. lia.
  - intros va Hva%Hpv. apply Hown, Z.ltb_lt. change KERNEL_AS_BASE with 0xFFFF800000000000.
    unfold VirtAddr.MAX_LOWER_HALF in Hva. lia.
  - intros va Hva%Hkv. apply Hown, Z.ltb_ge. change KERNEL_AS_BASE with 0xFFFF800000000000.
    change KERNEL_POOL_BASE with 0xFFFF820000000000 in Hva. lia.
Qed.

(** ** A small machine *)

Module Small.

Import AddressSpace.

(** The recursive entry 511 of the table at 0x1000, and empty tables for the first 2 MiB. *)
Definition memory (x : Z) : Z :=
  if x =? 0x1000 + 8 * 511 then 0x1003
  else if x =? 0x1000 then 0x2003 else if x =? 0x2000 then 0x3003 else if x =? 0x3000 then 0x4003 else 0.

(** Sixteen free frames, and the pages from 0x1000 to 0xFFFFF. *)
Definition frames : FrameAlloc.t :=
  FrameAlloc.mkFrameAllocator (mkRanges (mkRange 0x10000 0x1FFFF :: replicate 4095 (mkRange 0 0)) 1).
Definition pages : PageAllocator.t :=
  PageAllocator.mkPageAllocator (mkRanges (mkRange 0x1000 0xFFFFF :: replicate 63 (mkRange 0 0)) 1).
Definition start : machine :=
  mkMachine memory 4096 frames (mkAddressSpace (mkPageTable (rva 511 [])) 4096 pages).

End Small.

(** Its operations. *)
Local Abbreviation small_alloc := (@AddressSpace.alloc_map (x86_walk 4096) M4KiB
  (@mapper_4k (x86_walk 4096) FrameAlloc.t FrameAlloc.allocator)).
Local Abbreviation small_free := (@AddressSpace.unmap_free (x86_walk 4096) M4KiB
  (@mapper_4k (x86_walk 4096) FrameAlloc.t FrameAlloc.allocator)).

Lemma single_range N lo hi :
  0 ≤ lo ≤ hi → hi < 2 ^ 64 →
  ranges_inv (Datatypes.S N) (mkRanges (mkRange lo hi :: replicate N (mkRange 0 0)) 1).
Proof.
  intros Hlo Hhi. split; [cbn; by rewrite length_replicate | cbn; lia | |].
  - apply Forall_singleton. unfold wf_range. cbn. lia.
  - constructor; constructor.
Qed.

Lemma one_range_addrs N lo hi x :
  addrs (mkRanges (mkRange lo hi :: replicate N (mkRange 0 0)) 1) x ↔ lo ≤ x ≤ hi.
Proof.
  split; [intros (q & Hq & Hx) | intros Hx].
  - apply list_elem_of_singleton in Hq as ->. exact Hx.
  - exists (mkRange lo hi). split; [by apply list_elem_of_singleton | exact Hx].
Qed.

(** Its tables, and no others. *)
Lemma small_entry k i :
  0 ≤ k ≤ 2 → 0 ≤ i < 512 → (k = 0 → i ≠ 511) →
  ptr_of (Small.memory (0x1000 + 0x1000 * k + 8 * i)) = if i =? 0 then Some (0x2000 + 0x1000 * k) else None.
Proof.
  intros Hk Hi Hr. unfold Small.memory.
  destruct (Z.eqb_spec (0x1000 + 0x1000 * k + 8 * i) (0x1000 + 8 * 511)); [lia|].
  assert (k = 0 ∨ k = 1 ∨ k = 2) as [->|[->| ->]] by lia; destruct (Z.eqb_spec i 0) as [->|Hne]; try done;
    by rewrite !(proj2 (Z.eqb_neq _ _)) by lia.
Qed.

Lemma small_tables p T :
  path 511 p → (length p ≤ 3)%nat → tbl Small.memory 0x1000 p = Some T →
  p = replicate (length p) 0 ∧ T = 0x1000 + 0x1000 * Z.of_nat (length p).
Proof.
  revert T. induction p as [|i p IH] using rev_ind; intros T Hp Hl HT; [by injection HT as <-|].
  rewrite length_app in *. cbn in Hl. destruct (path_app _ _ _ Hp) as [Hp' Hi].
  rewrite tbl_snoc in HT. destruct (tbl Small.memory 0x1000 p) as [T'|]; [|done].
  destruct (IH T' Hp' ltac:(lia) eq_refl) as [Ep ->]. cbn [mbind option_bind] in HT.
  rewrite small_entry in HT; [|lia|done|].
  - destruct (Z.eqb_spec i 0) as [->|]; [|done]. injection HT as <-. split; [|cbn; lia].
    rewrite Ep at 1. by rewrite replicate_add.
  - intros Hk ->. destruct p; [|cbn in Hk; lia]. destruct Hp as [_ Hp]. by apply Hp.
Qed.

Lemma small_tree : wf_tree 0x1000 511 Small.memory.
Proof.
  split; [done | lia | done | |].
  - intros p q T Hp Hq Hlp Hlq HTp HTq. destruct (small_tables p T Hp Hlp HTp) as [Ep ->].
    destruct (small_tables q _ Hq Hlq HTq) as [Eq El]. assert (length p = length q) as E by lia.
    rewrite E in Ep. by rewrite <- Eq in Ep.
  - intros i Hi. destruct (decide (i = 511)) as [->|]; [done|].
    replace (0x1000 + 8 * i) with (0x1000 + 0x1000 * 0 + 8 * i) by lia. rewrite small_entry by lia.
    destruct (Z.eqb_spec i 0) as [->|Hne]; [done|]. unfold Small.memory.
    by rewrite !(proj2 (Z.eqb_neq _ _)) by lia.
Qed.

Lemma small_unused f : 0x10000 ≤ f → unused 0x1000 511 Small.memory f.
Proof. intros Hf p Hp Hl HT. destruct (small_tables p f Hp Hl HT) as [_ ->]. lia. Qed.

Lemma small_inv : vm_inv 4096 511 Small.start.
Proof.
  split; cbn [AddressSpace.mem AddressSpace.fralloc AddressSpace.space AddressSpace.pgalloc Small.start].
  - done.
  - done.
  - split_and!; [apply small_tree | |].
    + intros f Hf%one_range_addrs. apply small_unused. lia.
    + split_and!; [by apply single_range | intros x Hx%one_range_addrs; unfold PhysAddr.MAX; lia|].
      intros x y Hxy. unfold FrameAlloc.memory_ranges, Small.frames. rewrite !one_range_addrs.
      intros Hx. Z.div_mod_to_equations. lia.
  - split; [by apply single_range|]. intros x Hx%one_range_addrs. left. unfold VirtAddr.MAX_LOWER_HALF. lia.
  - intros va Hva%one_range_addrs. assert (ix4 va = 0 ∧ ix3 va = 0 ∧ ix2 va = 0) as (E4 & E3 & E2).
    { unfold ix4, ix3, ix2. rewrite !Z.div_small by lia. done. }
    split; [lia|]. unfold leaf_at. rewrite E4, E3, E2.
    rewrite (leaf_at_4k 4096 Small.memory 0 0 0 (ix1 va) 0x4000) by done. cbn zeta.
    destruct (ix_bounds va) as (_ & _ & _ & ?). unfold Small.memory.
    by rewrite !(proj2 (Z.eqb_neq _ _)) by lia.
Qed.

Lemma alloc_map_spec_witness :
  ∃ s' range, small_alloc 0x1800 3 Small.start = Ret (s', Ok range) ∧
    pr_start range = mkPage 0x1000 ∧ pr_end range = mkPage 0x2000 ∧ vm_inv 4096 511 s'.
Proof.
  destruct (@alloc_map_spec (x86_walk 4096) 4096 511 (x86_walk_laws 4096)) as [Hspec _].
  specialize (Hspec 0x1800 3 Small.start small_inv ltac:(done) ltac:(done)).
  assert (match small_alloc 0x1800 3 Small.start with
          | Ret (_, Ok range) => range = mkPageRange (mkPage 0x1000) (mkPage 0x2000) | _ => False end) as Hrun
    by (vm_compute; reflexivity).
  destruct (small_alloc 0x1800 3 Small.start) as [[s' [range|e]]|]; [|destruct Hrun|destruct Hrun].
  exists s', range. rewrite Hrun. split; [reflexivity|]. split; [reflexivity|]. split; [reflexivity|]. apply Hspec.
Defined.

Lemma alloc_map_free_witness :
  ∃ s' range s'', small_alloc 0x1800 3 Small.start = Ret (s', Ok range) ∧
    small_free range s' = Ret (s'', Ok tt) ∧ vm_inv 4096 511 s''.
Proof.
  assert (match small_alloc 0x1800 3 Small.start with
          | Ret (s', Ok range) => match small_free range s' with Ret _ => True | Panic => False end
          | _ => False end) as Hrun by (vm_compute; exact I).
  destruct (small_alloc 0x1800 3 Small.start) as [[s' [range|e]]|] eqn:E; [|destruct Hrun|destruct Hrun].
  pose proof (@alloc_map_free (x86_walk 4096) 4096 511 (x86_walk_laws 4096) 0x1800 3 Small.start s' range small_inv
    ltac:(done) ltac:(done) ltac:(done) E) as H.
  destruct (small_free range s') as [[s'' res]|] eqn:E'; [|destruct Hrun].
  destruct H as (-> & Hi & _). exists s', range, s''. split; [reflexivity|]. split; [exact E' | exact Hi].
Defined.

(** When no frame is left, the pages and frames that [alloc_map] has taken are lost. *)
Lemma alloc_map_leaks :
  match small_alloc 0x11000 3 Small.start with
  | Ret (s', Err _) =>
      MemoryRanges.entries (FrameAlloc.memory_ranges (AddressSpace.fralloc s')) = [] ∧
      MemoryRanges.entries (PageAllocator.vranges (AddressSpace.pgalloc (AddressSpace.space s')))
        = [mkRange 0x12000 0xFFFFF]
  | _ => False
  end.
Proof. vm_compute. split; reflexivity. Qed.
