(* ===== verification/Pmap.v ===== *)
(** * Mappings of physical memory

    [kernel/src/mem/page_alloc/pmap.rs]: [PhysicalMapping] maps the frames of a range of
    physical addresses to pages of the current address space, translates addresses and
    unmaps the pages when it is dropped. *)

From stdpp Require Import functions.
From S2P Require Import Prelude Addrs Paging Ranges PageTable PageTree PageMap KernelMem.

Import AddressSpace.

(** [for (frame, page) in frames.into_iter().zip(pages)] *)
Fixpoint for_zip {St E} {S : MemSize} (fuel : nat) (frames : FrameRangeInclusive S)
    (pages : PageRangeInclusive S) (body : Frame S → Page S → eff St E unit) : eff St E unit :=
  match fuel with
  | O => λ _, Panic
  | Datatypes.S fuel =>
      '(o, frames) ← lift (FrameRangeInclusive.next frames);
      match o with
      | None => mret tt
      | Some frame =>
          '(o, pages) ← lift (PageRangeInclusive.next pages);
          match o with
          | None => mret tt
          | Some page => body frame page;; for_zip fuel frames pages body
          end
      end
  end.

Module PhysicalMapping.

Record t {S : MemSize} := mkPhysicalMapping { start_frame : Frame S; start_page : Page S; count : Z }.
Arguments t S : clear implicits.

Section ops.
Context `{Mmu}.

Definition new (S : MemSize) `{!Mapper (A := FrameAlloc.t) S} (start_paddr required_length flags : Z)
    : eff machine (MappingError (Frame S)) (t S) :=
  end_paddr ← lift (PhysAddr.add start_paddr required_length);
  let start_frame := Frame.containing_address start_paddr in
  let end_frame := Frame.containing_address end_paddr in
  let frame_range := Frame.range_inclusive start_frame end_frame in
  d ← lift (Frame.diff end_frame start_frame);
  count ← lift (add_w 64 d 1);
  o ← with_pgalloc (λ page_allocator, PageAllocator.allocate_pages page_allocator count);
  page_range ← lift (unwrap o);
  with_page_table (λ page_table,
    for_zip (Z.to_nat count + 1) frame_range page_range (λ frame page,
      map page_table page frame (Z.lor flags Flags.PRESENT);; mret tt));;
  mret (mkPhysicalMapping S start_frame (pr_start page_range) count).

Definition translate {S : MemSize} (self : t S) (addr : Z) : out (option Z) :=
  if addr <? Frame.start_address (start_frame self) then mret None
  else
    offset ← PhysAddr.diff addr (Frame.start_address (start_frame self));
    size ← mul_w 64 (count self) (SIZE S);
    if size <=? offset then mret None
    else va ← VirtAddr.add (Page.start_address (start_page self)) offset; mret (Some va).

Definition translate_range {S : MemSize} (self : t S) (addr length : Z) : out (option Z) :=
  if addr <? Frame.start_address (start_frame self) then mret None
  else
    offset ← PhysAddr.diff addr (Frame.start_address (start_frame self));
    e ← add_w 64 offset length;
    size ← mul_w 64 (count self) (SIZE S);
    if size <? e then mret None
    else va ← VirtAddr.add (Page.start_address (start_page self)) offset; mret (Some va).

Definition drop {S : MemSize} `{!Mapper (A := FrameAlloc.t) S} (self : t S) : eff machine unit unit :=
  p ← lift (Page.add (start_page self) (count self));
  last ← lift (Page.sub p 1);
  let page_range := Page.range_inclusive (start_page self) last in
  with_page_table (λ page_table,
    for_range page_range (λ page, if_ok (unmap page_table page) (λ '(_, tlb), mret tt)));;
  with_pgalloc (λ page_allocator, p ← PageAllocator.free_pages page_allocator page_range; mret (p, tt)).

End ops.

End PhysicalMapping.

(** ** The loop over frames and pages *)

(** The pages of a range with the frames from [f] on. *)
Definition frame_for {S} (f : Z) (range : PageRangeInclusive S) (page : Page S) : Frame S :=
  mkFrame (f + (page_start page - page_start (pr_start range))).

Lemma for_zip_list {St E S} (f e : Frame S) (range : PageRangeInclusive S) n
    (body : Frame S → Page S → eff St E unit) s :
  wf_pages range n → page_start (pr_end range) + SIZE S < 2 ^ 64 →
  wf_frame f → wf_frame e → frame_start e = frame_start f + (n - 1) * SIZE S → frame_start e + SIZE S < 2 ^ 52 →
  for_zip (Z.to_nat n + 1) (mkFrameRange f e) range body s =
    for_list (λ page, body (frame_for (frame_start f) range page) page) (pages_of range n) s.
Proof.
  destruct range as [p q]. intros (Hp & Hq & Hn & Eq & Hhalf) Htop Hf He Ee Hmax. cbn [pr_start pr_end] in *.
  pose proof (SIZE_bounds S). unfold pages_of, frame_for. cbn [pr_start].
  remember (Z.to_nat n) as c eqn:Ec. replace (c + 1)%nat with (Datatypes.S c) by lia.
  assert (page_start q - page_start p = (Z.of_nat c - 1) * SIZE S) as Hc by (rewrite Eq; nia).
  assert (frame_start e - frame_start f = (Z.of_nat c - 1) * SIZE S) as Hfc by (rewrite Ee; nia).
  pose proof (proj1 Hf) as Hfv. pose proof (proj1 He) as Hev. unfold PhysAddr.valid, PhysAddr.MAX in Hfv, Hev.
  assert (∀ j k, (k + j = c)%nat → ∀ s,
    for_zip (Datatypes.S j) (mkFrameRange (mkFrame (frame_start f + Z.of_nat k * SIZE S)) e)
      (mkPageRange (mkPage (VirtAddr.canonicalize (page_start p + Z.of_nat k * SIZE S))) q) body s
    = for_list (λ page, body (mkFrame (frame_start f + (page_start page - page_start p))) page)
        ((λ k, mkPage (page_start p + Z.of_nat k * SIZE S)) <$> seq k j) s) as H'.
  { induction j as [|j IH]; intros k Hk s'.
    - cbn [for_zip]. unfold FrameRangeInclusive.next at 1. cbn [fr_start fr_end frame_start].
      by rewrite (proj2 (Z.leb_gt _ _)) by nia.
    - remember (Datatypes.S j) as j' eqn:Ej. cbn [for_zip]. unfold FrameRangeInclusive.next at 1.
      cbn [fr_start fr_end frame_start]. rewrite (proj2 (Z.leb_le _ _)) by nia.
      destruct (frame_at f e c Hf He Hfc k ltac:(lia)) as [Hw Hle].
      rewrite frame_add_eq; [|done|lia|cbn; lia]. cbn [frame_start mbind out_bind].
      rewrite Z.mod_small by nia. rewrite (eff_bind_lift _ _ _ _ eq_refl).
      rewrite (eff_bind_lift _ _ _ _ (page_iter_step p q c Hp Hq Hhalf Hc k Htop (ltac:(lia) : (k < c)%nat))).
      subst j'. cbn [seq fmap list_fmap for_list]. unfold mbind, eff_bind. cbn [page_start].
      replace (page_start p + Z.of_nat k * SIZE S - page_start p) with (Z.of_nat k * SIZE S) by lia.
      destruct (body _ _ s') as [[s1 [[]|]]|]; [|done|done].
      replace (frame_start f + Z.of_nat k * SIZE S + 1 * SIZE S)
        with (frame_start f + Z.of_nat (Datatypes.S k) * SIZE S) by lia. apply IH. lia. }
  rewrite <- (H' c 0%nat) by done. cbn. rewrite !Z.add_0_r, VirtAddr.canonicalize_id by apply Hp. by destruct p, f.
Qed.

Section mapping.
Context `{Mmu} (root r : Z) `{!MmuLaws root}.
Local Abbreviation table := (mkPageTable (rva r [])).
Local Abbreviation leaf_at := (KernelMem.leaf_at root).
Local Abbreviation regular := (KernelMem.regular r).
Local Abbreviation same_translation := (KernelMem.same_translation root r).
Local Abbreviation page_mapped := (KernelMem.page_mapped root r).
Local Abbreviation vm_inv := (KernelMem.vm_inv root r).

Section map_to.
Context {S : MemSize} `{!Mapper (A := FrameAlloc.t) S} `{!MapperLaws root r S}.

(** Mapping pages to given frames. *)
Lemma map_to_spec (frame_of : Page S → Frame S) fl pages m a :
  pt_inv root r m a → Forall (mappable root r m) pages → apart_pages pages →
  (∀ p, p ∈ pages → wf_frame (frame_of p)) →
  ∃ m' a' res, for_list (λ page, map table page (frame_of page) fl;; mret tt) pages (m, a) = Ret ((m', a'), res) ∧
    pt_inv root r m' a' ∧
    same_translation m m' (λ va, Forall (λ p, ¬ block (page_start p) (SIZE S) va) pages) ∧
    match res with
    | Ok _ => Forall (λ p, page_mapped m m' fl p (frame_of p)) pages
    | Err _ => True
    end.
Proof.
  revert m a. induction pages as [|p pages IH]; intros m a Hinv Hm Hap Hfr; cbn [for_list].
  { exists m, a, (Ok tt). by split_and!; [| |intros va|]. }
  apply Forall_cons in Hm as [(Hp & Hr & Hn) Hm]. apply StronglySorted_inv in Hap as [Hap Hpx].
  destruct (map_addr root r m a p (frame_of p) fl Hinv Hp Hr) as (m1 & a1 & res & E & Hinv1 & _ & _ & Hpost);
    [apply Hfr; left | done |]. unfold mbind, eff_bind. rewrite E. destruct res as [pg|err].
  2: { exists m1, a1, (Err err). split_and!; [done | done | | done]. intros va Hva _. by apply Hpost. }
  destruct Hpost as [Hpm Ht]. cbn [mret eff_ret].
  assert (Forall (mappable root r m1) pages) as Hm1.
  { rewrite Forall_forall in Hm, Hpx |- *. intros q Hq. destruct (Hm q Hq) as (Hwq & Hrq & Hnq).
    split_and!; [done | done |]. rewrite Ht; [done | done |]. intros Hb. apply (Hpx q Hq _ Hb).
    unfold block. pose proof (SIZE_bounds S). lia. }
  destruct (IH m1 a1 Hinv1 Hm1 Hap) as (m' & a' & res & E' & Hinv' & Ht' & Hres).
  { intros q Hq. apply Hfr. by right. }
  unfold mbind, eff_bind in E'. rewrite E'. exists m', a', res. split_and!; [done | done | |].
  - intros va Hva [Hnp Hnn]%Forall_cons. rewrite Ht' by done. by apply Ht.
  - destruct res as [u|]; [|done]. constructor.
    + intros va Hva Hb. destruct (Hpm va Hva Hb) as [? Eq]. split; [done|]. rewrite Ht'; [done | done|].
      eapply Forall_impl; [exact Hpx|]. intros q Hq. by apply Hq.
    + rewrite Forall_forall in Hres, Hpx |- *. intros q Hq va Hva Hb. destruct (Hres q Hq va Hva Hb) as [En Eq].
      split; [|done]. rewrite <- Ht; [done | done|]. intros Hbp. by apply (Hpx q Hq va).
Qed.

Import PhysicalMapping.

(** The range of a mapping. *)
Definition range_of (pm : t S) : PageRangeInclusive S :=
  mkPageRange (start_page pm) (mkPage (page_start (start_page pm) + (count pm - 1) * SIZE S)).

(** The mapping of [count pm] frames by free pages. *)
Record maps (s s' : machine) (fl : Z) (pm : t S) : Prop := {
  maps_frame : wf_frame (start_frame pm);
  maps_end : frame_start (start_frame pm) + SIZE S * count pm ≤ 2 ^ 52;
  maps_pages : wf_pages (range_of pm) (count pm);
  maps_top : page_start (start_page pm) + SIZE S * count pm < 2 ^ 64;
  maps_free va : block (page_start (start_page pm)) (SIZE S * count pm) va → free_pages_of s va;
  maps_taken va : free_pages_of s' va ↔
    free_pages_of s va ∧ ¬ block (page_start (start_page pm)) (SIZE S * count pm) va;
  maps_same : same_translation (mem s) (mem s') (λ va, ¬ block (page_start (start_page pm)) (SIZE S * count pm) va);
  maps_leaf va : regular va → block (page_start (start_page pm)) (SIZE S * count pm) va →
    let off := va - page_start (start_page pm) in
    leaf_at (mem s') va = Some (S, Z.lor (frame_start (start_frame pm) + (off - off mod SIZE S)) (leaf_flags S fl));
}.

(** The frames that hold the addresses from [start] to [start + len]. *)
Lemma frames_between start len :
  0 ≤ start → 0 ≤ len → start + len + SIZE S < 2 ^ 52 →
  let c := (start + len) / SIZE S - start / SIZE S + 1 in
  let f := mkFrame (S := S) (start - start mod SIZE S) in
  let e := mkFrame (S := S) (start + len - (start + len) mod SIZE S) in
  Frame.containing_address (S := S) start = f ∧ Frame.containing_address (S := S) (start + len) = e ∧
  wf_frame f ∧ wf_frame e ∧ frame_start e = frame_start f + (c - 1) * SIZE S ∧ frame_start e + SIZE S < 2 ^ 52 ∧
  Frame.diff e f = Ret (c - 1) ∧ 1 ≤ c ∧ c * SIZE S ≤ 2 ^ 52.
Proof.
  intros Hs Hlen Htop c f e. pose proof (SIZE_bounds S) as Hb.
  assert (PhysAddr.valid start ∧ PhysAddr.valid (start + len)) as [Hv1 Hv2] by (unfold PhysAddr.valid, PhysAddr.MAX; lia).
  rewrite !frame_containing_eq by (by apply PhysAddr.valid_u64).
  pose proof (Z.mod_pos_bound start (SIZE S) ltac:(lia)). pose proof (Z.mod_pos_bound (start + len) (SIZE S) ltac:(lia)).
  pose proof (Z.div_mod start (SIZE S) ltac:(lia)) as D1. pose proof (Z.div_mod (start + len) (SIZE S) ltac:(lia)) as D2.
  assert (0 ≤ start / SIZE S ≤ (start + len) / SIZE S) as Hq by (split; [apply Z.div_pos | apply Z.div_le_mono]; lia).
  assert (frame_start e = frame_start f + (c - 1) * SIZE S) as Ee by (cbn; subst c; lia).
  assert (∀ x, 0 ≤ x → x + SIZE S < 2 ^ 52 → wf_frame (S := S) (mkFrame (x - x mod SIZE S))) as Hwf.
  { intros x Hx Hxt. pose proof (Z.mod_pos_bound x (SIZE S) ltac:(lia)). pose proof (Z.mod_le x (SIZE S) Hx ltac:(lia)).
    split; cbn; [unfold PhysAddr.valid, PhysAddr.MAX; lia|]. rewrite Zminus_mod_idemp_r, Z.sub_diag. done. }
  split_and!; try done; [by apply Hwf; lia | by apply Hwf; lia | cbn; lia | | subst c; lia | subst c; nia].
  unfold Frame.diff, PhysAddr.diff. rewrite sub_w_ok by nia. cbn [mbind out_bind mret out_ret]. f_equal.
  rewrite Ee, Z.add_simpl_l. apply Z.div_mul. lia.
Qed.

(** The frames of the pages. *)
Lemma frame_for_wf range n (f : Frame S) p :
  wf_frame f → frame_start f + SIZE S * n ≤ 2 ^ 52 → p ∈ pages_of range n → wf_frame (S := S) (frame_for (frame_start f) range p).
Proof.
  intros [Hv Hm] Htop (k & -> & Hk%elem_of_seq)%list_elem_of_fmap. pose proof (SIZE_bounds S).
  unfold frame_for, PhysAddr.valid, PhysAddr.MAX in *. split; cbn; [unfold PhysAddr.valid, PhysAddr.MAX; nia|].
  rewrite Z.add_simpl_l, Z.mod_add by lia. done.
Qed.

Lemma mapped_maps m c3 a l4 pg m' a' pg' fl range n (f : Frame S) :
  wf_frame f → frame_start f + SIZE S * n ≤ 2 ^ 52 → wf_pages range n → page_start (pr_end range) + SIZE S < 2 ^ 64 →
  (∀ va, block (page_start (pr_start range)) (SIZE S * n) va → free_va pg va) →
  (∀ va, free_va pg' va ↔ free_va pg va ∧ ¬ block (page_start (pr_start range)) (SIZE S * n) va) →
  same_translation m m' (λ va, ¬ block (page_start (pr_start range)) (SIZE S * n) va) →
  Forall (λ p, page_mapped m m' fl p (frame_for (frame_start f) range p)) (pages_of range n) →
  maps (mkMachine m c3 a (mkAddressSpace table l4 pg)) (mkMachine m' c3 a' (mkAddressSpace table l4 pg')) fl
    (mkPhysicalMapping S f (pr_start range) n).
Proof.
  intros Hf Hft Hwp Htop Hblock Hfree Ht Hmap. pose proof (SIZE_bounds S).
  pose proof Hwp as (_ & _ & Hn & Er & _). split; cbn [start_frame start_page count]; try done.
  - destruct range as [p [q]]. unfold range_of. cbn in *. by rewrite <- Er.
  - nia.
  - intros va Hva Hb. cbv zeta. set (off := va - page_start (pr_start range)). apply pages_of_block in Hb as (p & Hp & Hb); [|done].
    cbn [mem]. destruct (proj1 (Forall_forall _ _) Hmap p Hp va Hva Hb) as [_ ->]. unfold frame_for. cbn [frame_start].
    do 4 f_equal. apply list_elem_of_fmap in Hp as (k & -> & _). cbn [page_start] in *. unfold block in Hb.
    subst off. set (x := va - page_start (pr_start range)) in *.
    assert (x mod SIZE S = x - Z.of_nat k * SIZE S) as ->; [|lia].
    symmetry. apply Z.mod_unique with (Z.of_nat k); [left; lia | lia].
Qed.

Lemma pmap_new_ok start len fl s :
  vm_inv s → 0 ≤ start → 0 ≤ len → start + len + SIZE S < 2 ^ 52 → ¬ free_pages_of s (2 ^ 64 - 1) →
  let c := (start + len) / SIZE S - start / SIZE S + 1 in
  match new S start len fl s with
  | Ret (s', Ok pm) => vm_inv s' ∧ maps s s' (Z.lor fl Flags.PRESENT) pm ∧
      start_frame pm = mkFrame (start - start mod SIZE S) ∧ count pm = c
  | Ret (s', Err _) => vm_inv s' ∧ (∀ va, free_pages_of s' va → free_pages_of s va) ∧
      same_translation (mem s) (mem s') (λ va, ¬ free_pages_of s va)
  | Panic => used (PageAllocator.vranges (pgalloc (space s))) = PROCESS_PGALLOC_VRANGES ∨
      ¬ ∃ a, a mod SIZE S = 0 ∧ ∀ va, block a (SIZE S * c) va → free_pages_of s va
  end.
Proof.
  intros Hinv Hs Hlen Htop Hlast c. pose proof (SIZE_bounds S) as Hb.
  destruct (frames_between start len Hs Hlen Htop) as (Ef & Ee & Hf & He & Hef & Het & Hd & Hc & Hct). fold c in Hef, Hd, Hc, Hct.
  set (f := mkFrame (S := S) (start - start mod SIZE S)) in *. set (e := mkFrame (S := S) (start + len - _)) in *.
  assert (frame_start f + SIZE S * c ≤ 2 ^ 52) as Hfc by (clear -Hef Het; nia).
  unfold new, PhysAddr.add. rewrite add_w_ok by lia. cbn [mbind out_bind mret out_ret].
  rewrite (eff_bind_lift _ _ _ _ eq_refl), PhysAddr.new_truncate_id by (unfold PhysAddr.valid, PhysAddr.MAX; lia).
  cbn zeta. rewrite Ef, Ee, (eff_bind_lift _ _ _ _ Hd), add_w_ok by lia.
  rewrite (eff_bind_lift _ _ _ _ eq_refl). replace (c - 1 + 1) with c by lia.
  destruct s as [m c3 a [pt0 l4 pg]]. pose proof Hinv as [Hact Ept Htab Hpg Hfree].
  unfold free_pages_of in *. cbn [mem cr3 fralloc space pt lvl4_paddr pgalloc] in *. subst pt0.
  pose proof (allocate_pages_spec (S := S) pg c Hpg Hc ltac:(lia)) as Hp.
  unfold mbind at 1, eff_bind at 1, with_pgalloc. cbn [mem cr3 fralloc space pt lvl4_paddr pgalloc].
  destruct (PageAllocator.allocate_pages pg c) as [[pg' [range|]]|]; cbn [mbind out_bind]; [| |by left].
  2: { right. by destruct Hp as [_ Hno]. }
  destruct Hp as (Hpg' & Hwp & Hblock & Hfree'). rewrite (eff_bind_lift (unwrap (Some range)) _ _ _ eq_refl).
  assert (page_start (pr_end range) + SIZE S < 2 ^ 64) as Hend.
  { destruct (page_end (pr_end range)) as [_ ?]; [apply Hwp|].
    destruct (decide (page_start (pr_end range) + SIZE S = 2 ^ 64)) as [E64|]; [exfalso | lia].
    apply Hlast, Hblock. destruct Hwp as ([Hsc _] & _ & _ & Er & _). apply VirtAddr.canonical_u64 in Hsc as [? _].
    unfold block. nia. }
  unfold mbind at 1, eff_bind at 1, with_page_table. unfold is_active in *. cbn [mem cr3 fralloc space pt lvl4_paddr pgalloc] in *.
  rewrite Hact. change (Frame.range_inclusive f e) with (mkFrameRange f e). rewrite (for_zip_list f e range c) by done.
  destruct (map_to_spec (frame_for (frame_start f) range) (Z.lor fl Flags.PRESENT) (pages_of range c) m a Htab)
    as (m' & a' & res & E & Htab' & Ht & Hres).
  { by eapply (free_mappable root r S m c3 a l4 pg range c c). }
  { apply pages_of_apart. }
  { intros p Hp. by apply (frame_for_wf range c f p). }
  rewrite E. assert (same_translation m m' (λ va, ¬ block (page_start (pr_start range)) (SIZE S * c) va)) as Ht'.
  { intros va Hva Hnb. apply Ht; [done|]. by apply (not_in_pages S range c c). }
  assert (vm_inv (mkMachine m' c3 a' (mkAddressSpace table l4 pg'))) as Hinv' by (by eapply (taken_inv root r S m c3 a l4 pg)).
  destruct res as [u|err].
  - cbn [mret eff_ret]. split_and!; [done | | done | done]. by apply mapped_maps.
  - split_and!; [done | by intros va [? _]%Hfree' |]. intros va Hva Hnf. apply Ht'; [done|]. intros Hbl. by apply Hnf, Hblock.
Qed.

(** The address of [x] in the mapping. *)
Lemma translate_eq s s' fl pm x :
  maps s s' fl pm → 0 ≤ x < 2 ^ 52 →
  translate pm x = Ret (
    if decide (block (frame_start (start_frame pm)) (SIZE S * count pm) x)
    then Some (page_start (start_page pm) + (x - frame_start (start_frame pm))) else None).
Proof.
  intros Hm Hx. pose proof (maps_frame _ _ _ _ Hm) as [Hv _]. pose proof (maps_end _ _ _ _ Hm) as He.
  pose proof (maps_pages _ _ _ _ Hm) as Hwp. pose proof (maps_top _ _ _ _ Hm) as Ht. pose proof (SIZE_bounds S).
  pose proof Hwp as ([Hc _] & _ & Hn & _). cbn in Hc, Hn. apply VirtAddr.canonical_u64 in Hc. unfold is_uint in Hc.
  unfold PhysAddr.valid, PhysAddr.MAX in Hv. unfold translate, Frame.start_address, Page.start_address.
  destruct (Z.ltb_spec x (frame_start (start_frame pm))) as [Hlt|Hge].
  { rewrite decide_False; [done|]. unfold block. lia. }
  unfold PhysAddr.diff. rewrite sub_w_ok by lia. cbn [mbind out_bind].
  rewrite mul_w_ok by nia. cbn [mbind out_bind]. destruct (Z.leb_spec (count pm * SIZE S) (x - frame_start (start_frame pm))).
  { rewrite decide_False; [done|]. unfold block. lia. }
  rewrite decide_True by (unfold block; lia). unfold VirtAddr.add. rewrite add_w_ok by nia.
  cbn [mbind out_bind mret out_ret]. unfold VirtAddr.new_extend. rewrite VirtAddr.canonicalize_id; [done|].
  apply (wf_pages_canonical (range_of pm) (count pm)); [done|]. unfold block. cbn. lia.
Qed.

Lemma translate_range_eq s s' fl pm x len :
  maps s s' fl pm → 0 ≤ x < 2 ^ 52 → 0 ≤ len < 2 ^ 63 →
  translate_range pm x len = Ret (
    if decide (frame_start (start_frame pm) ≤ x ∧ x + len ≤ frame_start (start_frame pm) + SIZE S * count pm)
    then Some (VirtAddr.canonicalize (page_start (start_page pm) + (x - frame_start (start_frame pm)))) else None).
Proof.
  intros Hm Hx Hlen. pose proof (maps_frame _ _ _ _ Hm) as [Hv _]. pose proof (maps_end _ _ _ _ Hm) as He.
  pose proof (maps_pages _ _ _ _ Hm) as Hwp. pose proof (maps_top _ _ _ _ Hm) as Ht. pose proof (SIZE_bounds S).
  pose proof Hwp as ([Hc _] & _ & Hn & _). cbn in Hc, Hn. apply VirtAddr.canonical_u64 in Hc. unfold is_uint in Hc.
  unfold PhysAddr.valid, PhysAddr.MAX in Hv. unfold translate_range, Frame.start_address, Page.start_address.
  destruct (Z.ltb_spec x (frame_start (start_frame pm))) as [Hlt|Hge].
  { rewrite decide_False; [done|]. lia. }
  unfold PhysAddr.diff. rewrite sub_w_ok by lia. cbn [mbind out_bind]. rewrite add_w_ok by lia. cbn [mbind out_bind].
  rewrite mul_w_ok by nia. cbn [mbind out_bind].
  destruct (Z.ltb_spec (count pm * SIZE S) (x - frame_start (start_frame pm) + len)).
  { rewrite decide_False; [done|]. lia. }
  rewrite decide_True by lia. unfold VirtAddr.add. by rewrite add_w_ok by nia.
Qed.

(** The page tables lead from the virtual address back to the physical one. *)
Lemma mapped_back s s' fl pm x :
  vm_inv s → vm_inv s' → wf_flags fl → maps s s' fl pm →
  block (frame_start (start_frame pm)) (SIZE S * count pm) x →
  PageTable.translate_addr table (page_start (start_page pm) + (x - frame_start (start_frame pm))) (mem s', fralloc s')
  = Ret (Some (x, leaf_flags S fl)).
Proof.
  intros Hinv Hinv' Hfl Hm Hx. pose proof (maps_frame _ _ _ _ Hm) as [Hv Hfm]. pose proof (maps_end _ _ _ _ Hm) as He.
  pose proof (maps_pages _ _ _ _ Hm) as Hwp. pose proof (SIZE_bounds S). pose proof Hwp as ([Hc Hpm] & _ & Hn & _).
  cbn in Hc, Hpm, Hn. unfold PhysAddr.valid, PhysAddr.MAX in Hv. unfold block in Hx.
  set (va := page_start (start_page pm) + (x - frame_start (start_frame pm))).
  assert (block (page_start (start_page pm)) (SIZE S * count pm) va) as Hb by (unfold block, va; lia).
  assert (regular va) as Hr.
  { split; [by apply (wf_pages_canonical (range_of pm) (count pm)) |].
    apply (vm_free _ _ _ Hinv). by apply (maps_free _ _ _ _ Hm). }
  rewrite (translate_addr_ok root r) by (exact (proj1 (vm_tables _ _ _ Hinv')) || apply Hr).
  change (leaf root (mem s') (ix4 va) (ix3 va) (ix2 va) (ix1 va)) with (leaf_at (mem s') va).
  rewrite (maps_leaf _ _ _ _ Hm va Hr Hb). cbn [fmap option_fmap option_map]. do 2 f_equal. unfold translation. cbn [fst snd].
  replace (va - page_start (start_page pm)) with (x - frame_start (start_frame pm)) by (unfold va; lia).
  set (off := x - frame_start (start_frame pm)) in *.
  assert (0 ≤ off - off mod SIZE S) as Hoff by (pose proof (Z.mod_le off (SIZE S)); lia).
  pose proof (Z.mod_pos_bound off (SIZE S) ltac:(lia)).
  assert (wf_frame (S := S) (mkFrame (frame_start (start_frame pm) + (off - off mod SIZE S)))) as Hwf.
  { split; cbn; [unfold PhysAddr.valid, PhysAddr.MAX; lia|].
    rewrite <- Z.add_mod_idemp_l, Hfm, Z.add_0_l, Zminus_mod_idemp_r, Z.sub_diag by lia. done. }
  apply wf_frame_aligned in Hwf. cbn [frame_start] in Hwf.
  rewrite made_frame, made_flags by (done || by apply leaf_flags_wf). f_equal.
  replace (va mod SIZE S) with (off mod SIZE S).
  - rewrite PhysAddr.new_truncate_id by (unfold PhysAddr.valid, PhysAddr.MAX; lia). lia.
  - unfold va. fold off. rewrite <- Z.add_mod_idemp_l, Hpm by lia. done.
Qed.
End map_to.

(** ** Dropping a mapping *)

Section unmap.
Import PhysicalMapping.

(** [drop] takes the frames out of the tables, and gives none to the frame allocator. *)
Definition unmap_only (page : Page M4KiB) : eff ((Z → Z) * FrameAlloc.t) unit unit :=
  if_ok (unmap table page) (λ '(_, tlb), mret tt).

Definition removable (m : Z → Z) (page : Page M4KiB) : Prop :=
  wf_page page ∧ regular (page_start page) ∧ ∃ e, leaf_at m (page_start page) = Some (M4KiB, e).

Lemma unmap_only_spec pages m a :
  pt_inv root r m a → Forall (removable m) pages → apart_pages pages →
  ∃ m', for_list unmap_only pages (m, a) = Ret ((m', a), Ok tt) ∧ pt_inv root r m' a ∧
    (∀ va, regular va → (∃ p, p ∈ pages ∧ block (page_start p) (SIZE M4KiB) va) → leaf_at m' va = None) ∧
    same_translation m m' (λ va, Forall (λ p, ¬ block (page_start p) (SIZE M4KiB) va) pages).
Proof.
  revert m. induction pages as [|p pages IH]; intros m Hinv Hm Hap; cbn [for_list].
  { exists m. split_and!; [done | done | | by intros va]. by intros va _ (p & Hp%elem_of_nil & _). }
  apply Forall_cons in Hm as [(Hp & Hr & e & He) Hm]. apply StronglySorted_inv in Hap as [Hap Hpx].
  unfold mbind, eff_bind. unfold unmap_only at 1, if_ok.
  change (unmap table p (m, a)) with (PageTable.unmap_M4KiB table p (m, a)).
  destruct (unmap_4k_ok root r m a p Hinv (proj2 Hr)) as (m1 & res & -> & Hinv1 & _ & Hpost).
  fold (leaf_at m (page_start p)) in Hpost. rewrite He in Hpost. destruct Hpost as (-> & Hn & Hs). cbn [mret eff_ret].
  assert (same_translation m m1 (λ va, ¬ block (page_start p) (SIZE M4KiB) va)) as Ht1.
  { intros va Hva Hb. apply Hs; [by apply regular_indices|]. intros Hi. apply Hb.
    apply in_page_block; [done | apply Hva | done]. }
  destruct (IH m1 Hinv1) as (m' & E & Hinv' & Hnone & Ht'); [|done|].
  { rewrite Forall_forall in Hm, Hpx |- *. intros q Hq. destruct (Hm q Hq) as (Hwq & Hrq & e' & He').
    split_and!; [done | done |]. exists e'. rewrite Ht1; [done | done|]. intros Hb. apply (Hpx q Hq _ Hb).
    unfold block. cbn. lia. }
  unfold mbind, eff_bind in E. rewrite E. exists m'. split_and!; [done | done | |].
  - intros va Hva (q & [->|Hq]%elem_of_cons & Hb); [|by apply Hnone; eauto].
    rewrite Ht'; [rewrite (same_page_leaf root r m1 va p Hp Hva Hb); exact Hn | done|].
    eapply Forall_impl; [exact Hpx|]. intros q Hq. by apply Hq.
  - intros va Hva [Hnp Hnn]%Forall_cons. rewrite Ht' by done. by apply Ht1.
Qed.

(** The pages of a mapping can be unmapped. *)
Lemma maps_removable s s' fl (pm : t M4KiB) :
  vm_inv s → maps s s' fl pm → Forall (removable (mem s')) (pages_of (range_of pm) (count pm)).
Proof.
  intros Hinv Hm. apply Forall_forall. intros p Hp. pose proof (maps_pages _ _ _ _ Hm) as Hwp.
  destruct (pages_of_wf _ _ p Hwp Hp) as [Hw Hb].
  assert (regular (page_start p)) as Hr.
  { split; [apply Hw|]. apply (vm_free _ _ _ Hinv). by apply (maps_free _ _ _ _ Hm). }
  split_and!; [done | done |]. eexists. exact (maps_leaf _ _ _ _ Hm _ Hr Hb).
Qed.

(** The range that [drop] computes is the range of the mapping. *)
Lemma drop_range s s' fl (pm : t M4KiB) :
  maps s s' fl pm →
  ∃ p, Page.add (start_page pm) (count pm) = Ret p ∧ Page.sub p 1 = Ret (pr_end (range_of pm)).
Proof.
  intros Hm. pose proof (maps_pages _ _ _ _ Hm) as Hwp. pose proof (maps_top _ _ _ _ Hm) as Ht.
  pose proof Hwp as (Hp & [Hqc Hqm] & Hn & _). cbn in Hp, Hn, Hqc, Hqm. pose proof Hp as [Hc Hpm].
  pose proof (VirtAddr.canonical_u64 _ Hc) as Hu. unfold is_uint in Hu. cbn [SIZE] in *.
  set (x := page_start (start_page pm) + count pm * 4096) in *. assert (x < 2 ^ 64) as Hx64 by (unfold x; lia).
  replace (page_start (start_page pm) + (count pm - 1) * 4096) with (x - 4096) in * by (unfold x; lia).
  exists (mkPage (VirtAddr.canonicalize x)). split; [by rewrite page_add_eq by (done || cbn; lia)|].
  assert (VirtAddr.canonical x ∨ x = 2 ^ 47) as [Hxc| Ex].
  { unfold VirtAddr.canonical, VirtAddr.MAX_LOWER_HALF, VirtAddr.MIN_UPPER_HALF, VirtAddr.MAX in *.
    apply Z.mod_divide in Hqm as [k Hk]; [|done]. unfold is_uint in *. lia. }
  - rewrite (VirtAddr.canonicalize_id x) by done.
    rewrite page_sub_eq; [| |lia|cbn; unfold x; lia].
    + cbn [page_start SIZE range_of pr_end]. rewrite Z.mul_1_l, VirtAddr.canonicalize_id by done.
      do 2 f_equal. unfold x. lia.
    + split; [done|]. cbn [page_start SIZE]. unfold x. rewrite Z.mod_add by lia. done.
  - cbn [range_of pr_end]. replace (page_start (start_page pm) + (count pm - 1) * SIZE M4KiB) with (2 ^ 47 - 4096)
      by (cbn; unfold x in Ex; lia). rewrite Ex. vm_compute. done.
Qed.

Lemma drop_ok s s' fl (pm : t M4KiB) :
  vm_inv s → vm_inv s' → maps s s' fl pm →
  match drop pm s' with
  | Ret (s'', res) => res = Ok tt ∧ vm_inv s'' ∧ same_translation (mem s) (mem s'') (λ _, True) ∧
      (∀ va, free_pages_of s'' va ↔ free_pages_of s va) ∧ fralloc s'' = fralloc s'
  | Panic => used (PageAllocator.vranges (pgalloc (space s'))) = PROCESS_PGALLOC_VRANGES
  end.
Proof.
  intros Hinv Hinv' Hm. destruct (drop_range _ _ _ _ Hm) as (p & E1 & E2).
  pose proof (maps_removable _ _ _ _ Hinv Hm) as Hrem. pose proof (maps_pages _ _ _ _ Hm) as Hwp.
  unfold drop. rewrite (eff_bind_lift _ _ _ _ E1), (eff_bind_lift _ _ _ _ E2). cbn zeta.
  change (Page.range_inclusive (start_page pm) (pr_end (range_of pm))) with (range_of pm).
  destruct s' as [m' c a [pt0 l4 pg]]. pose proof Hinv' as [Hact Ept Htab Hpg Hfree]. unfold is_active in Hact.
  cbn [mem cr3 fralloc space pt lvl4_paddr pgalloc] in *. subst pt0.
  unfold mbind at 1, eff_bind at 1, with_page_table, is_active. cbn [mem cr3 fralloc space pt lvl4_paddr pgalloc].
  rewrite Hact. change (for_range (range_of pm) _) with (for_range (range_of pm) unmap_only).
  rewrite (for_range_list (range_of pm) (count pm)); [|done|].
  2: { pose proof (maps_top _ _ _ _ Hm). cbn in *. lia. }
  destruct (unmap_only_spec _ m' a Htab Hrem (pages_of_apart _ _)) as (m'' & -> & Htab' & Hnone & Ht).
  unfold with_pgalloc. cbn [mem cr3 fralloc space pt lvl4_paddr pgalloc].
  pose proof (free_pages_spec pg (range_of pm) (count pm) Hpg Hwp) as Hf.
  destruct (PageAllocator.free_pages pg (range_of pm)) as [pg'|]; cbn [mbind out_bind mret out_ret]; [|done].
  destruct Hf as [Hpg' Hfree']. cbn [range_of pr_start] in Hfree'.
  set (B := block (page_start (start_page pm)) (SIZE M4KiB * count pm)) in *.
  assert (∀ va, Decision (B va)) as Hdec by (intros; unfold B, block; apply _).
  assert (∀ va, free_va pg' va ↔ free_pages_of s va) as Hall.
  { intros va. rewrite Hfree'. pose proof (maps_taken _ _ _ _ Hm va) as Htk. pose proof (maps_free _ _ _ _ Hm va) as Hmf.
    unfold free_pages_of in *. cbn in Htk. fold B in Htk, Hmf. destruct (decide (B va)); tauto. }
  assert (same_translation (mem s) m'' (λ _, True)) as Hsame.
  { intros va Hva _. destruct (decide (B va)) as [Hb|Hnb].
    - destruct (vm_free _ _ _ Hinv va) as [_ ->]; [by apply (maps_free _ _ _ _ Hm)|].
      apply Hnone; [done|]. apply pages_of_block; [apply Hwp | exact Hb].
    - rewrite Ht; [by apply (maps_same _ _ _ _ Hm) | done|]. apply (not_in_pages _ _ (count pm)); [lia | apply Hwp | exact Hnb]. }
  split_and!; [done | | done | done | done]. split; unfold is_active; cbn [mem cr3 fralloc space pt lvl4_paddr pgalloc]; try done.
  intros va Hva%Hall. destruct (vm_free _ _ _ Hinv va Hva) as [Hr Hl]. split; [done|].
  rewrite Hsame; [done | | done]. split; [|done]. by apply (vm_pages _ _ _ Hinv).
Qed.

End unmap.

(** ** The specification *)

Import PhysicalMapping.

(** What a mapping of the physical addresses from [start] to [start + len] promises. *)
Definition mapping_correct (S : MemSize) `{!Mapper (A := FrameAlloc.t) S} : Prop :=
  ∀ start len fl s, vm_inv s → 0 ≤ start → 0 ≤ len → start + len + SIZE S < 2 ^ 52 → wf_flags fl →
  ¬ free_pages_of s (2 ^ 64 - 1) →
  match new S start len fl s with
  | Ret (s', Ok pm) => vm_inv s' ∧
      (∀ x, start ≤ x ≤ start + len → ∃ va, translate pm x = Ret (Some va) ∧ free_pages_of s va ∧
        ¬ free_pages_of s' va ∧
        PageTable.translate_addr table va (mem s', fralloc s') = Ret (Some (x, leaf_flags S (Z.lor fl Flags.PRESENT)))) ∧
      (∀ x n, start ≤ x → 0 < n → x + n ≤ start + len → ∃ va, translate_range pm x n = Ret (Some va) ∧
        ∀ i, 0 ≤ i < n → PageTable.translate_addr table (va + i) (mem s', fralloc s') =
          Ret (Some (x + i, leaf_flags S (Z.lor fl Flags.PRESENT)))) ∧
      same_translation (mem s) (mem s') (λ va, ¬ free_pages_of s va)
  | Ret (s', Err _) => vm_inv s' ∧ same_translation (mem s) (mem s') (λ va, ¬ free_pages_of s va)
  | Panic => used (PageAllocator.vranges (pgalloc (space s))) = PROCESS_PGALLOC_VRANGES ∨
      ¬ ∃ a, a mod SIZE S = 0 ∧
          ∀ va, block a (SIZE S * ((start + len) / SIZE S - start / SIZE S + 1)) va → free_pages_of s va
  end.

Lemma mapping_ok (S : MemSize) `{!Mapper (A := FrameAlloc.t) S} `{!MapperLaws root r S} : mapping_correct S.
Proof.
  intros start len fl s Hinv Hs Hlen Htop Hfl Hlast. pose proof (SIZE_bounds S).
  pose proof (pmap_new_ok start len fl s Hinv Hs Hlen Htop Hlast) as Hn.
  destruct (new S start len fl s) as [[s' [pm|err]]|]; [|by destruct Hn as (? & _ & ?)|done].
  destruct Hn as (Hinv' & Hm & Ef & Ec).
  assert (wf_flags (Z.lor fl Flags.PRESENT)) as Hfl' by (unfold wf_flags in *; by rewrite Z.land_lor_distr_l, Hfl).
  assert (∀ x, start ≤ x ≤ start + len → block (frame_start (start_frame pm)) (SIZE S * count pm) x) as Hin.
  { intros x Hx. rewrite Ef, Ec. unfold block. cbn [frame_start].
    pose proof (Z.mod_pos_bound start (SIZE S) ltac:(lia)). pose proof (Z.mod_pos_bound (start + len) (SIZE S) ltac:(lia)).
    pose proof (Z.div_mod start (SIZE S) ltac:(lia)). pose proof (Z.div_mod (start + len) (SIZE S) ltac:(lia)). nia. }
  assert (∀ x, start ≤ x ≤ start + len →
    block (page_start (start_page pm)) (SIZE S * count pm) (page_start (start_page pm) + (x - frame_start (start_frame pm)))) as Hva.
  { intros x Hx%Hin. unfold block in *. lia. }
  split_and!; [done | | |].
  - intros x Hx. eexists. rewrite (translate_eq _ _ _ _ x Hm), decide_True by (by apply Hin || lia).
    split_and!; [done | by apply (maps_free _ _ _ _ Hm), Hva | intros [_ Hb]%(maps_taken _ _ _ _ Hm); by apply Hb, Hva |].
    by apply (mapped_back s); [..|apply Hin].
  - intros x n Hx Hpos Hxn. eexists. rewrite (translate_range_eq _ _ _ _ x n Hm) by lia.
    assert (block (frame_start (start_frame pm)) (SIZE S * count pm) x) as Hbx by (apply Hin; lia).
    assert (block (frame_start (start_frame pm)) (SIZE S * count pm) (x + n - 1)) as Hby by (apply Hin; lia).
    unfold block in Hbx, Hby. rewrite decide_True, VirtAddr.canonicalize_id; [| |lia].
    2: { apply (wf_pages_canonical (range_of pm) (count pm)); [apply (maps_pages _ _ _ _ Hm) | apply Hva; lia]. }
    split; [done|]. intros i Hi.
    replace (page_start (start_page pm) + (x - frame_start (start_frame pm)) + i)
      with (page_start (start_page pm) + (x + i - frame_start (start_frame pm))) by lia.
    apply (mapped_back s); [done | done | done | done |]. apply Hin. lia.
  - intros va Hva' Hnf. apply (maps_same _ _ _ _ Hm); [done|]. intros Hb. by apply Hnf, (maps_free _ _ _ _ Hm).
Qed.

(** C29: a physical mapping of [start, start + len], in pages of any of the three
    sizes, is usable: each of these physical addresses has a virtual address, taken
    from the free pages of the address space, from which the page tables lead back to
    it with the requested flags; a range is contiguous; nothing else that was
    translated changes. Errors leave the other translations alone, and a panic means
    that no run of free pages is long enough or that the list of free ranges is full. *)
Theorem physical_mapping_spec :
  mapping_correct M4KiB ∧ mapping_correct M2MiB ∧ mapping_correct M1GiB.
Proof. split_and!; apply mapping_ok; apply _. Qed.

(** Dropping a physical mapping undoes it: all addresses are translated as before it
    was made, the same pages are free, and no frame is given to the frame allocator. *)
Theorem physical_mapping_drop start len fl s s' pm :
  vm_inv s → 0 ≤ start → 0 ≤ len → start + len + SIZE M4KiB < 2 ^ 52 → ¬ free_pages_of s (2 ^ 64 - 1) →
  new M4KiB start len fl s = Ret (s', Ok pm) →
  match drop pm s' with
  | Ret (s'', res) => res = Ok tt ∧ vm_inv s'' ∧ same_translation (mem s) (mem s'') (λ _, True) ∧
      (∀ va, free_pages_of s'' va ↔ free_pages_of s va) ∧ fralloc s'' = fralloc s'
  | Panic => used (PageAllocator.vranges (pgalloc (space s'))) = PROCESS_PGALLOC_VRANGES
  end.
Proof.
  intros Hinv Hs Hlen Htop Hlast E. pose proof (pmap_new_ok start len fl s Hinv Hs Hlen Htop Hlast) as Hn.
  rewrite E in Hn. destruct Hn as (Hinv' & Hm & _). by eapply drop_ok.
Qed.
End mapping.

(** ** Witnesses *)

Local Abbreviation small_new := (@PhysicalMapping.new (x86_walk 4096) M4KiB
  (@mapper_4k (x86_walk 4096) FrameAlloc.t FrameAlloc.allocator)).
Local Abbreviation small_drop := (@PhysicalMapping.drop (x86_walk 4096) M4KiB
  (@mapper_4k (x86_walk 4096) FrameAlloc.t FrameAlloc.allocator)).

Lemma small_last : ¬ free_pages_of Small.start (2 ^ 64 - 1).
Proof. intros Hx%one_range_addrs. lia. Qed.

Lemma physical_mapping_spec_witness :
  ∃ s' pm, small_new 0xFEE01234 0x1000 3 Small.start = Ret (s', Ok pm) ∧ PhysicalMapping.count pm = 2 ∧
    ∃ va, PhysicalMapping.translate pm 0xFEE02000 = Ret (Some va) ∧
      @PageTable.translate_addr (x86_walk 4096) FrameAlloc.t (mkPageTable (rva 511 [])) va
        (AddressSpace.mem s', AddressSpace.fralloc s') = Ret (Some (0xFEE02000, 3)).
Proof.
  destruct (@physical_mapping_spec (x86_walk 4096) 4096 511 (x86_walk_laws 4096)) as [Hspec _].
  specialize (Hspec 0xFEE01234 0x1000 3 Small.start small_inv ltac:(done) ltac:(done) ltac:(done) ltac:(done) small_last).
  assert (match small_new 0xFEE01234 0x1000 3 Small.start with
          | Ret (_, Ok pm) => PhysicalMapping.count pm = 2 | _ => False end) as Hrun by (vm_compute; reflexivity).
  destruct (small_new 0xFEE01234 0x1000 3 Small.start) as [[s' [pm|e]]|]; [|destruct Hrun|destruct Hrun].
  exists s', pm. split; [reflexivity|]. split; [exact Hrun|]. destruct Hspec as (_ & Hx & _).
  destruct (Hx 0xFEE02000 ltac:(lia)) as (va & Hva & _ & _ & Ht). exists va. split; [exact Hva | exact Ht].
Defined.

Lemma physical_mapping_drop_witness :
  ∃ s' pm s'', small_new 0xFEE01234 0x1000 3 Small.start = Ret (s', Ok pm) ∧
    small_drop pm s' = Ret (s'', Ok tt) ∧ vm_inv 4096 511 s''.
Proof.
  assert (match small_new 0xFEE01234 0x1000 3 Small.start with
          | Ret (s', Ok pm) => match small_drop pm s' with Ret _ => True | Panic => False end
          | _ => False end) as Hrun by (vm_compute; exact I).
  destruct (small_new 0xFEE01234 0x1000 3 Small.start) as [[s' [pm|e]]|] eqn:E; [|destruct Hrun|destruct Hrun].
  pose proof (@physical_mapping_drop (x86_walk 4096) 4096 511 (x86_walk_laws 4096) 0xFEE01234 0x1000 3 Small.start s' pm
    small_inv ltac:(done) ltac:(done) ltac:(done) small_last E) as H.
  destruct (small_drop pm s') as [[s'' res]|] eqn:E'; [|destruct Hrun].
  destruct H as (-> & Hi & _). exists s', pm, s''. split; [reflexivity|]. split; [exact E' | exact Hi].
Defined.
