(* ===== verification/NetUtils.v ===== *)
(** * Buffers, byte order and checksums of the network stack

    [kernel/foundry/holonet/src/utils.rs], and the slices of bytes on which the packets of the
    network protocols are views. *)

From S2P Require Import Prelude.

(** [NetworkError] of [holonet/src/lib.rs] *)
Inductive NetworkError := Absent | Invalid | Uninitialized | Unsupported.

Abbreviation NetworkResult A := (out (result A NetworkError)).

(** [check_len()?; rest] *)
Definition try_ {A B} (m : NetworkResult A) (f : A → NetworkResult B) : NetworkResult B :=
  match m with Ret (Ok a) => f a | Ret (Err e) => Ret (Err e) | Panic => Panic end.

(** [b.then_some(()).ok_or(e)] *)
Definition then_ok (b : bool) (e : NetworkError) : NetworkResult unit := Ret (if b then Ok tt else Err e).

(** ** Slices

    A slice of [u8] is the list of its bytes; an access out of range panics. *)

Definition len {A} (l : list A) : Z := Z.of_nat (length l).
Definition bytes (l : list Z) : Prop := Forall (is_uint 8) l.

Definition sub_list (l : list Z) (lo hi : Z) : list Z := take (Z.to_nat (hi - lo)) (drop (Z.to_nat lo) l).
Definition byte_at (l : list Z) (i : Z) : Z := nth (Z.to_nat i) l 0.
Definition put (l : list Z) (lo : Z) (v : list Z) : list Z := take (Z.to_nat lo) l ++ v ++ drop (Z.to_nat (lo + len v)) l.

(** [l[lo..hi]], [l[lo..]], [l[i]] *)
Definition slice (l : list Z) (lo hi : Z) : out (list Z) :=
  if (lo <=? hi) && (hi <=? len l) then Ret (sub_list l lo hi) else Panic.
Definition slice_from (l : list Z) (lo : Z) : out (list Z) := slice l lo (len l).
Definition index (l : list Z) (i : Z) : out Z := if i <? len l then Ret (byte_at l i) else Panic.

(** [l[lo..hi].copy_from_slice(v)], [l[i] = x] *)
Definition copy_from_slice (l : list Z) (lo hi : Z) (v : list Z) : out (list Z) :=
  if (lo <=? hi) && (hi <=? len l) && (hi - lo =? len v) then Ret (put l lo v) else Panic.
Definition set_index (l : list Z) (i x : Z) : out (list Z) := if i <? len l then Ret (put l i [x]) else Panic.

(** [<[u8; n]>::try_from(l).unwrap()] *)
Definition array (n : Z) (l : list Z) : out (list Z) := if len l =? n then Ret l else Panic.

(** ** Byte order *)

(** [from_be_bytes], [to_be_bytes] of the integers of [n] bytes *)
Definition from_be_bytes (l : list Z) : Z := foldl (λ x b, x * 2 ^ 8 + b) 0 l.
Fixpoint to_be_bytes (n : nat) (x : Z) : list Z :=
  match n with
  | O => []
  | S n => x / 2 ^ (8 * Z.of_nat n) mod 2 ^ 8 :: to_be_bytes n x
  end.

Definition u16_from_inet_bytes (l : list Z) : Z := from_be_bytes l.
Definition u16_to_inet_bytes (x : Z) : list Z := to_be_bytes 2 x.
Definition u32_from_inet_bytes (l : list Z) : Z := from_be_bytes l.
Definition u32_to_inet_bytes (x : Z) : list Z := to_be_bytes 4 x.
Definition u64_from_inet_bytes (l : list Z) : Z := from_be_bytes l.
Definition u64_to_inet_bytes (x : Z) : list Z := to_be_bytes 8 x.

(** [u16_from_inet_bytes(l[lo..hi].try_into().unwrap())] and its 32-bit form *)
Definition get_u16 (l : list Z) (lo hi : Z) : out Z := s ← slice l lo hi; a ← array 2 s; mret (u16_from_inet_bytes a).
Definition get_u32 (l : list Z) (lo hi : Z) : out Z := s ← slice l lo hi; a ← array 4 s; mret (u32_from_inet_bytes a).

(** [u16::try_from(x).unwrap()] *)
Definition u16_of (x : Z) : out Z := if x <? 2 ^ 16 then Ret x else Panic.

(** ** Checksums *)

(** [while i < buffer.len()] *)
Fixpoint sum_words (fuel : nat) (buffer : list Z) (i sum : Z) : out Z :=
  match fuel with
  | O => Panic
  | S fuel =>
      if i <? len buffer then
        word ← (if i + 1 <? len buffer
                then a ← index buffer i; b ← index buffer (i + 1); mret (from_be_bytes [a; b])
                else a ← index buffer i; mret (from_be_bytes [a; 0]));
        sum_words fuel buffer (i + 2) (wrapping_add 32 sum word)
      else mret sum
  end.

(** [while sum >> 16 > 0] *)
Fixpoint add_carries (fuel : nat) (sum : Z) : out Z :=
  match fuel with
  | O => Panic
  | S fuel =>
      if 0 <? Z.shiftr sum 16 then
        sum ← add_w 32 (Z.land sum 0xFFFF) (Z.shiftr sum 16);
        add_carries fuel sum
      else mret sum
  end.

(** One more turn than the buffer has bytes; the carries are gone after two turns. *)
Definition checksum (buffer : list Z) : out Z :=
  sum ← sum_words (S (length buffer)) buffer 0 0;
  sum ← add_carries 3 sum;
  sum ← u16_of sum;
  mret (not_w 16 sum).

Definition checksum_with_pseudo (pseudo_header data : list Z) : out Z :=
  sum ← sum_words (S (length pseudo_header)) pseudo_header 0 0;
  sum ← sum_words (S (length data)) data 0 sum;
  sum ← add_carries 3 sum;
  sum ← u16_of sum;
  mret (not_w 16 sum).

(** ** The checksum of RFC 1071

    The complement of the sum of the 16-bit words in one's complement arithmetic, where the
    carry out of the sum of two words is added to it at the other end. *)

Fixpoint words (l : list Z) : list Z :=
  match l with
  | a :: b :: l => a * 2 ^ 8 + b :: words l
  | [a] => [a * 2 ^ 8]
  | [] => []
  end.

Definition oc_add (a b : Z) : Z := if a + b <? 2 ^ 16 then a + b else a + b - 2 ^ 16 + 1.
Definition internet_checksum (l : list Z) : Z := 2 ^ 16 - 1 - foldl oc_add 0 (words l).

(** ** Lemmas on slices *)

Lemma len_nonneg {A} (l : list A) : 0 ≤ len l.
Proof. unfold len. lia. Qed.

Lemma len_app {A} (l k : list A) : len (l ++ k) = len l + len k.
Proof. unfold len. rewrite length_app. lia. Qed.

Lemma slice_ok l lo hi : lo ≤ hi ≤ len l → slice l lo hi = Ret (sub_list l lo hi).
Proof. intros. unfold slice. by rewrite !(proj2 (Z.leb_le _ _)) by lia. Qed.

Lemma index_ok l i : i < len l → index l i = Ret (byte_at l i).
Proof. intros. unfold index. by rewrite (proj2 (Z.ltb_lt _ _)) by lia. Qed.

Lemma copy_ok l lo hi v : lo ≤ hi ≤ len l → hi - lo = len v → copy_from_slice l lo hi v = Ret (put l lo v).
Proof. intros. unfold copy_from_slice. by rewrite !(proj2 (Z.leb_le _ _)), (proj2 (Z.eqb_eq _ _)) by lia. Qed.

Lemma set_index_ok l i x : i < len l → set_index l i x = Ret (put l i [x]).
Proof. intros. unfold set_index. by rewrite (proj2 (Z.ltb_lt _ _)) by lia. Qed.

Lemma array_ok n l : len l = n → array n l = Ret l.
Proof. intros <-. unfold array. by rewrite Z.eqb_refl. Qed.

Lemma len_sub_list l lo hi : 0 ≤ lo ≤ hi → hi ≤ len l → len (sub_list l lo hi) = hi - lo.
Proof. unfold sub_list, len. intros. rewrite length_take, length_drop. lia. Qed.

Lemma len_put l lo v : 0 ≤ lo → lo + len v ≤ len l → len (put l lo v) = len l.
Proof. unfold put. rewrite !len_app. unfold len. intros. rewrite length_take, length_drop. lia. Qed.

Lemma sub_put_same l lo hi v : 0 ≤ lo → hi = lo + len v → hi ≤ len l → sub_list (put l lo v) lo hi = v.
Proof.
  unfold put, sub_list, len. intros ? -> ?.
  rewrite drop_app_length' by (rewrite length_take; lia).
  rewrite take_app_length' by lia. done.
Qed.

Lemma sub_put_below l lo hi lo' v :
  0 ≤ lo ≤ hi → hi ≤ lo' → lo' + len v ≤ len l → sub_list (put l lo' v) lo hi = sub_list l lo hi.
Proof.
  unfold put, sub_list, len. intros.
  rewrite drop_app_le by (rewrite length_take; lia).
  rewrite take_app_le by (rewrite length_drop, length_take; lia).
  rewrite !take_drop_commute, take_take. do 2 f_equal. lia.
Qed.

Lemma sub_put_above l lo hi lo' v :
  0 ≤ lo' → lo' + len v ≤ lo → lo' + len v ≤ len l → sub_list (put l lo' v) lo hi = sub_list l lo hi.
Proof.
  unfold put, sub_list, len. intros. f_equal.
  rewrite app_assoc, drop_app_ge by (rewrite length_app, length_take; lia).
  rewrite drop_drop. f_equal. rewrite length_app, length_take. lia.
Qed.

Lemma byte_sub l i : 0 ≤ i < len l → sub_list l i (i + 1) = [byte_at l i].
Proof.
  unfold sub_list, byte_at, len. intros.
  replace (Z.to_nat (i + 1 - i)) with 1%nat by lia.
  destruct (lookup_lt_is_Some_2 l (Z.to_nat i)) as [x Hx]; [lia |].
  rewrite (drop_S _ _ _ Hx). cbn. f_equal. by rewrite (nth_lookup_Some _ _ _ _ Hx).
Qed.

Lemma byte_put_same l i x : 0 ≤ i < len l → byte_at (put l i [x]) i = x.
Proof.
  intros. assert (len [x] = 1) by done. assert (len (put l i [x]) = len l) by (apply len_put; lia).
  cut ([byte_at (put l i [x]) i] = [x]); [congruence |].
  rewrite <- byte_sub by lia. apply sub_put_same; lia.
Qed.

Lemma byte_put_other l i lo v :
  0 ≤ i < len l → 0 ≤ lo → lo + len v ≤ len l → i < lo ∨ lo + len v ≤ i → byte_at (put l lo v) i = byte_at l i.
Proof.
  intros. assert (len (put l lo v) = len l) by (apply len_put; lia).
  cut ([byte_at (put l lo v) i] = [byte_at l i]); [congruence |]. rewrite <- !byte_sub by lia.
  destruct (decide (i < lo)); [apply sub_put_below | apply sub_put_above]; lia.
Qed.

Lemma bytes_put l lo v : bytes l → bytes v → bytes (put l lo v).
Proof.
  intros Hl Hv. unfold bytes, put. rewrite !Forall_app.
  split_and!; [by apply Forall_take | done | by apply Forall_drop].
Qed.

Lemma bytes_sub l lo hi : bytes l → bytes (sub_list l lo hi).
Proof. intros. by apply Forall_take, Forall_drop. Qed.

Lemma byte_at_u8 l i : bytes l → is_uint 8 (byte_at l i).
Proof.
  intros Hl. unfold byte_at. destruct (nth_in_or_default (Z.to_nat i) l 0) as [Hin| ->]; [| done].
  unfold bytes in Hl; rewrite Forall_forall in Hl. by apply Hl, list_elem_of_In.
Qed.


(** ** Lemmas on the byte order *)

Lemma len_to_be n x : len (to_be_bytes n x) = Z.of_nat n.
Proof. unfold len. f_equal. induction n; cbn; congruence. Qed.

Lemma bytes_to_be n x : bytes (to_be_bytes n x).
Proof. induction n; cbn; constructor; [apply Z.mod_pos_bound; lia | done]. Qed.

Lemma from_be_app l k : from_be_bytes (l ++ k) = from_be_bytes l * 2 ^ (8 * len k) + from_be_bytes k.
Proof.
  unfold from_be_bytes. rewrite foldl_app. generalize (foldl (λ x b, x * 2 ^ 8 + b) 0 l) as a.
  induction k as [|b k IH] using rev_ind; intros a; [cbn [foldl]; change (8 * len (@nil Z)) with 0; lia |].
  rewrite !foldl_app, IH, len_app. cbn [foldl]. change (len [b]) with 1.
  rewrite Z.mul_add_distr_l, Z.pow_add_r by (pose proof (len_nonneg k); lia). lia.
Qed.

Lemma from_be_bound l : bytes l → 0 ≤ from_be_bytes l < 2 ^ (8 * len l).
Proof.
  induction l as [|b l IH] using rev_ind; [done |].
  intros [Hl [Hb _]%Forall_cons]%Forall_app. specialize (IH Hl). unfold is_uint in Hb.
  rewrite from_be_app, len_app. change (len [b]) with 1.
  rewrite Z.mul_add_distr_l, Z.pow_add_r by (pose proof (len_nonneg l); lia). cbn [from_be_bytes foldl]. lia.
Qed.

Lemma to_be_mod n x : to_be_bytes n (x mod 2 ^ (8 * Z.of_nat n)) = to_be_bytes n x.
Proof.
  assert (∀ m, (n ≤ m)%nat → to_be_bytes n (x mod 2 ^ (8 * Z.of_nat m)) = to_be_bytes n x) as H.
  { induction n as [|n IH]; intros m Hm; cbn [to_be_bytes]; [done |].
    rewrite IH by lia. f_equal. apply field_of_low; lia. }
  by apply H.
Qed.

Lemma from_to_be n x : is_uint (8 * Z.of_nat n) x → from_be_bytes (to_be_bytes n x) = x.
Proof.
  revert x. induction n as [|n IH]; intros x [H1 H2]; [change (2 ^ (8 * Z.of_nat 0)) with 1 in H2; cbn; lia |].
  cbn [to_be_bytes]. change (?b :: ?l) with ([b] ++ l). rewrite from_be_app, len_to_be.
  rewrite <- to_be_mod, IH by (apply Z.mod_pos_bound, pow2_pos; lia).
  set (p := 2 ^ (8 * Z.of_nat n)) in *. assert (0 < p) by (apply pow2_pos; lia).
  assert (2 ^ (8 * Z.of_nat (S n)) = p * 2 ^ 8) as Hp
    by (subst p; rewrite <- Z.pow_add_r by lia; f_equal; lia).
  cbn [from_be_bytes foldl]. rewrite (Z.mod_small (x / p)).
  - pose proof (Z.div_mod x p). lia.
  - split; [apply Z.div_pos; lia | apply Z.div_lt_upper_bound; lia].
Qed.

(** A slice of a slice. *)
Lemma sub_sub l a b lo hi : 0 ≤ a ≤ lo → lo ≤ hi ≤ b → sub_list (sub_list l a b) (lo - a) (hi - a) = sub_list l lo hi.
Proof.
  intros. unfold sub_list. rewrite !take_drop_commute, take_take, drop_drop.
  f_equal; [lia |]. f_equal. lia.
Qed.

(** Buffers of the same length with a common prefix of [n] bytes have the same fields there. *)
Definition same_prefix (n : Z) (b b' : list Z) : Prop := len b' = len b ∧ sub_list b' 0 n = sub_list b 0 n.

Section prefix.
Context {n : Z} {b b' : list Z} (Hp : same_prefix n b b').

Lemma sub_prefix lo hi : 0 ≤ lo ≤ hi → hi ≤ n → sub_list b' lo hi = sub_list b lo hi.
Proof.
  intros. destruct Hp as [_ Hs]. pose proof (sub_sub b 0 n lo hi) as H1. pose proof (sub_sub b' 0 n lo hi) as H2.
  rewrite Hs in H2. rewrite <- H1, <- H2 by lia. done.
Qed.

Lemma slice_prefix lo hi : 0 ≤ lo → hi ≤ n → slice b' lo hi = slice b lo hi.
Proof.
  intros. unfold slice. destruct (Z.leb_spec lo hi); [| done].
  rewrite sub_prefix by lia. by destruct Hp as [-> _].
Qed.

Lemma index_prefix i : 0 ≤ i < n → index b' i = index b i.
Proof.
  intros. unfold index. destruct Hp as [Hl _]. rewrite Hl. destruct (Z.ltb_spec i (len b)); [| done].
  pose proof (sub_prefix i (i + 1)) as Hs. rewrite !byte_sub in Hs by lia. f_equal.
  assert ([byte_at b' i] = [byte_at b i]) by (apply Hs; lia). congruence.
Qed.

Lemma byte_prefix i : 0 ≤ i < n → i < len b → byte_at b' i = byte_at b i.
Proof.
  intros. pose proof (index_prefix i) as Hi. rewrite !index_ok in Hi by (rewrite ?(proj1 Hp); lia).
  assert (Ret (byte_at b' i) = Ret (byte_at b i)) as [=] by (apply Hi; lia). done.
Qed.

Lemma get_u16_prefix lo hi : 0 ≤ lo → hi ≤ n → get_u16 b' lo hi = get_u16 b lo hi.
Proof. intros. unfold get_u16. by rewrite slice_prefix. Qed.
Lemma get_u32_prefix lo hi : 0 ≤ lo → hi ≤ n → get_u32 b' lo hi = get_u32 b lo hi.
Proof. intros. unfold get_u32. by rewrite slice_prefix. Qed.

End prefix.

(** [buf_prefix] replaces the reads of the second buffer by reads of the first. *)
Ltac buf_prefix Hp :=
  repeat first
    [ rewrite (get_u16_prefix Hp) by lia | rewrite (get_u32_prefix Hp) by lia | rewrite (slice_prefix Hp) by lia
    | rewrite (index_prefix Hp) by lia | rewrite (sub_prefix Hp) by lia | rewrite (byte_prefix Hp) by lia | rewrite (proj1 Hp) ].

(** ** Writes

    [written l l' lo hi v]: the buffer [l'] is [l] with [v] written at [lo..hi]. *)
Record written (l l' : list Z) (lo hi : Z) (v : list Z) : Prop := {
  w_len : len l' = len l;
  w_bytes : bytes l → bytes v → bytes l';
  w_at : sub_list l' lo hi = v;
  w_byte i : lo ≤ i < hi → byte_at l' i = byte_at v (i - lo);
  w_other a b : 0 ≤ a ≤ b → b ≤ lo ∨ hi ≤ a → sub_list l' a b = sub_list l a b;
  w_byte_other i : 0 ≤ i < len l → i < lo ∨ hi ≤ i → byte_at l' i = byte_at l i;
  w_split : l' = sub_list l 0 lo ++ v ++ sub_list l hi (len l);
}.

Lemma byte_put_at l lo v i : 0 ≤ lo ≤ i → i < lo + len v ≤ len l → byte_at (put l lo v) i = byte_at v (i - lo).
Proof.
  unfold byte_at, put, len. intros.
  rewrite app_nth2 by (rewrite length_take; lia). rewrite app_nth1 by (rewrite length_take; lia).
  f_equal. rewrite length_take. lia.
Qed.

Lemma put_written l lo v : 0 ≤ lo → lo + len v ≤ len l → written l (put l lo v) lo (lo + len v) v.
Proof.
  intros. pose proof (len_nonneg v). constructor.
  - apply len_put; lia.
  - apply bytes_put.
  - apply sub_put_same; lia.
  - intros. apply byte_put_at; lia.
  - intros a b ? [?|?]; [apply sub_put_below | apply sub_put_above]; lia.
  - intros. apply byte_put_other; lia.
  - unfold put, sub_list. rewrite Z.sub_0_r. f_equal. f_equal.
    rewrite take_ge; [done |]. rewrite length_drop. unfold len in *. lia.
Qed.

Lemma copy_spec l lo hi v :
  0 ≤ lo ≤ hi → hi ≤ len l → hi - lo = len v → ∃ l', copy_from_slice l lo hi v = Ret l' ∧ written l l' lo hi v.
Proof.
  intros. exists (put l lo v). rewrite copy_ok by lia. split; [done |].
  replace hi with (lo + len v) by lia. apply put_written; lia.
Qed.

Lemma set_index_spec l i x : 0 ≤ i < len l → ∃ l', set_index l i x = Ret l' ∧ written l l' i (i + 1) [x].
Proof. intros. exists (put l i [x]). rewrite set_index_ok by lia. split; [done |]. by apply (put_written l i [x]); [| change (len [x]) with 1]; lia. Qed.

Lemma get_u16_ok l lo hi : 0 ≤ lo → hi = lo + 2 → hi ≤ len l → get_u16 l lo hi = Ret (from_be_bytes (sub_list l lo hi)).
Proof.
  intros ? -> ?. unfold get_u16. rewrite slice_ok by lia. cbn [mbind out_bind].
  rewrite array_ok by (rewrite len_sub_list; lia). done.
Qed.

Lemma get_u32_ok l lo hi : 0 ≤ lo → hi = lo + 4 → hi ≤ len l → get_u32 l lo hi = Ret (from_be_bytes (sub_list l lo hi)).
Proof.
  intros ? -> ?. unfold get_u32. rewrite slice_ok by lia. cbn [mbind out_bind].
  rewrite array_ok by (rewrite len_sub_list; lia). done.
Qed.

Lemma slice_from_ok l lo : lo ≤ len l → slice_from l lo = Ret (sub_list l lo (len l)).
Proof. intros. unfold slice_from. apply slice_ok; lia. Qed.

Lemma byte_single x i : i = 0 → byte_at [x] i = x.
Proof. by intros ->. Qed.

Lemma from_to_u16 x : is_uint 16 x → from_be_bytes (to_be_bytes 2 x) = x.
Proof. apply (from_to_be 2). Qed.
Lemma from_to_u32 x : is_uint 32 x → from_be_bytes (to_be_bytes 4 x) = x.
Proof. apply (from_to_be 4). Qed.

(** [buf_len] proves bounds of offsets; [buf_write] runs the next write of the goal, [buf_read] the
    reads of fields of the buffer, [buf_back] looks through the writes for the value of a field. *)
Ltac written_len :=
  repeat match goal with W : written _ ?l _ _ _ |- context [len ?l] => rewrite (w_len _ _ _ _ _ W) end.

Ltac buf_len :=
  unfold u16_to_inet_bytes, u32_to_inet_bytes; written_len;
  rewrite ?len_to_be, ?len_sub_list by (written_len; lia); repeat match goal with |- context [len [?x]] => change (len [x]) with 1 end; lia.

Ltac buf_write :=
  match goal with
  | |- context [copy_from_slice ?l ?lo ?hi ?v] =>
      let l' := fresh "l" in let W := fresh "W" in let H := fresh in
      destruct (copy_spec l lo hi v) as (l' & H & W); [lia | buf_len | buf_len |]; rewrite H; clear H
  | |- context [set_index ?l ?i ?x] =>
      let l' := fresh "l" in let W := fresh "W" in let H := fresh in
      destruct (set_index_spec l i x) as (l' & H & W); [buf_len |]; rewrite H; clear H
  end; cbn [mbind out_bind].

Ltac buf_read :=
  match goal with
  | |- context [get_u16 ?l ?lo ?hi] => rewrite (get_u16_ok l lo hi) by buf_len
  | |- context [get_u32 ?l ?lo ?hi] => rewrite (get_u32_ok l lo hi) by buf_len
  | |- context [slice_from ?l ?lo] => rewrite (slice_from_ok l lo) by buf_len
  | |- context [slice ?l ?lo ?hi] => rewrite (slice_ok l lo hi) by buf_len
  | |- context [index ?l ?i] => rewrite (index_ok l i) by buf_len
  | |- context [array ?n ?l] => rewrite (array_ok n l) by buf_len
  end; cbn [mbind out_bind].

Ltac buf_back :=
  repeat match goal with
  | W : written _ ?l ?lo ?hi _ |- context [sub_list ?l ?lo ?hi] => rewrite (w_at _ _ _ _ _ W)
  | W : written _ ?l _ _ _ |- context [sub_list ?l ?a ?b] => rewrite (w_other _ _ _ _ _ W a b) by buf_len
  | W : written _ ?l _ _ _ |- context [byte_at ?l ?i] => rewrite (w_byte _ _ _ _ _ W i) by lia
  | W : written _ ?l _ _ _ |- context [byte_at ?l ?i] => rewrite (w_byte_other _ _ _ _ _ W i) by buf_len
  | W : written _ ?l _ _ _ |- context [len ?l] => rewrite (w_len _ _ _ _ _ W)
  end.

(** [buf_bytes] shows that a buffer into which bytes were written consists of bytes. *)
Ltac buf_bytes :=
  first
    [ assumption
    | match goal with
      | W : written _ ?l _ _ _ |- bytes ?l => apply (w_bytes _ _ _ _ _ W); buf_bytes
      | |- bytes [_] => apply Forall_singleton; done
      | |- bytes (sub_list _ _ _) => apply bytes_sub; buf_bytes
      | _ => apply bytes_to_be
      end ].

(** ** Correctness of the checksum *)

Definition sum (ws : list Z) : Z := foldr Z.add 0 ws.

(** The one's complement value of a sum: its remainder modulo [2^16 - 1], where only the sum
    zero is represented by zero. *)
Definition norm (s : Z) : Z := if s =? 0 then 0 else (s - 1) mod (2 ^ 16 - 1) + 1.

(** Induction over a list of bytes that is read word by word. *)
Lemma words_ind (P : list Z → Prop) :
  P [] → (∀ a, P [a]) → (∀ a b l, P l → P (a :: b :: l)) → ∀ l, P l.
Proof.
  intros H0 H1 H2. assert (∀ l, P l ∧ ∀ a, P (a :: l)) as H; [| intros l; apply H].
  induction l as [|b l [IH1 IH2]]; auto.
Qed.

Lemma words_app l k : Z.even (len l) = true → words (l ++ k) = words l ++ words k.
Proof.
  induction l as [|a|a b l IH] using words_ind; [done | done |]. intros He. cbn. f_equal. apply IH.
  change (a :: b :: l) with ([a; b] ++ l) in He. by rewrite len_app, Z.even_add in He; destruct (Z.even (len l)).
Qed.

Lemma sum_app l k : sum (l ++ k) = sum l + sum k.
Proof. induction l; cbn; [done |]. unfold sum in *. lia. Qed.

Lemma words_bound l : bytes l → Forall (is_uint 16) (words l).
Proof.
  unfold bytes, is_uint. induction l as [|a|a b l IH] using words_ind; cbn; [done | |].
  - intros [Ha _]%Forall_cons. repeat constructor; lia.
  - intros (Ha & Hb & Hl)%(λ h, conj (Forall_inv h) (Forall_cons_1 _ _ _ (Forall_inv_tail h))).
    constructor; [lia | by apply IH].
Qed.

Lemma length_words l : 2 * len (words l) ≤ len l + 1.
Proof. unfold len. induction l as [|a|a b l IH] using words_ind; cbn [words length]; lia. Qed.

Lemma sum_bound ws : Forall (is_uint 16) ws → 0 ≤ sum ws ≤ (2 ^ 16 - 1) * len ws.
Proof.
  unfold len, is_uint. induction 1 as [|w ws Hw _ IH]; cbn [sum foldr length] in *; [lia |].
  change (foldr Z.add 0 ws) with (sum ws). lia.
Qed.

(** The buffers of up to 2^17 bytes are summed up without wrapping around. *)
Lemma sum_words_bound l : bytes l → len l ≤ 2 ^ 17 → 0 ≤ sum (words l) < 2 ^ 32.
Proof.
  intros Hb Hl. pose proof (sum_bound _ (words_bound l Hb)). pose proof (length_words l).
  assert (len (words l) ≤ 2 ^ 16) by lia. nia.
Qed.

Lemma norm_small s : 0 ≤ s < 2 ^ 16 → norm s = s.
Proof. intros. unfold norm. destruct (Z.eqb_spec s 0); [done |]. rewrite Z.mod_small; lia. Qed.

Lemma norm_range s : 0 ≤ s → 0 ≤ norm s < 2 ^ 16.
Proof.
  intros. unfold norm. destruct (Z.eqb_spec s 0); [lia |].
  pose proof (Z.mod_pos_bound (s - 1) (2 ^ 16 - 1)). lia.
Qed.

Lemma norm_eq s r k : 0 < r < 2 ^ 16 → s = k * (2 ^ 16 - 1) + r → 0 ≤ k → norm s = r.
Proof.
  intros Hr -> Hk. unfold norm. destruct (Z.eqb_spec (k * (2 ^ 16 - 1) + r) 0); [lia |].
  replace (k * (2 ^ 16 - 1) + r - 1) with (r - 1 + k * (2 ^ 16 - 1)) by lia.
  rewrite Z.mod_add, Z.mod_small; lia.
Qed.

Lemma norm_decompose s : 0 < s → ∃ k, 0 ≤ k ∧ 0 < norm s < 2 ^ 16 ∧ s = k * (2 ^ 16 - 1) + norm s.
Proof.
  intros. exists ((s - 1) / (2 ^ 16 - 1)). unfold norm. destruct (Z.eqb_spec s 0); [lia |].
  pose proof (Z.mod_pos_bound (s - 1) (2 ^ 16 - 1)). pose proof (Z.div_mod (s - 1) (2 ^ 16 - 1)).
  pose proof (Z.div_pos (s - 1) (2 ^ 16 - 1)). lia.
Qed.

Lemma oc_add_norm a b : 0 ≤ a → is_uint 16 b → oc_add (norm a) b = norm (a + b).
Proof.
  intros Ha [Hb1 Hb2]. unfold oc_add.
  destruct (decide (a = 0)) as [->|Hne].
  { cbn [norm Z.eqb]. rewrite norm_small by lia. by rewrite (proj2 (Z.ltb_lt _ _)) by lia. }
  destruct (norm_decompose a) as (k & Hk & Hn & Heq); [lia |].
  destruct (Z.ltb_spec (norm a + b) (2 ^ 16)); symmetry.
  - apply (norm_eq _ _ k); lia.
  - apply (norm_eq _ _ (k + 1)); lia.
Qed.

Lemma oc_sum_norm ws : Forall (is_uint 16) ws → foldl oc_add 0 ws = norm (sum ws).
Proof.
  intros Hws. cut (∀ a, 0 ≤ a → foldl oc_add (norm a) ws = norm (a + sum ws)); [intros H; by apply (H 0) |].
  induction Hws as [|w ws Hw Hws IH]; intros a Ha; cbn [foldl sum foldr]; [by rewrite Z.add_0_r |].
  rewrite oc_add_norm by done. unfold is_uint in Hw. rewrite IH by lia. f_equal. unfold sum. lia.
Qed.

Lemma internet_checksum_norm l : bytes l → internet_checksum l = 2 ^ 16 - 1 - norm (sum (words l)).
Proof. intros. unfold internet_checksum. by rewrite oc_sum_norm by by apply words_bound. Qed.

Lemma byte_at_app pre a l : byte_at (pre ++ a :: l) (len pre) = a.
Proof. unfold byte_at, len. rewrite Nat2Z.id, app_nth2, Nat.sub_diag by lia. done. Qed.

Lemma byte_at_app2 pre a b l : byte_at (pre ++ a :: b :: l) (len pre + 1) = b.
Proof.
  replace (pre ++ a :: b :: l) with ((pre ++ [a]) ++ b :: l) by by rewrite <- app_assoc.
  replace (len pre + 1) with (len (pre ++ [a])) by by rewrite len_app. apply byte_at_app.
Qed.

Lemma sum_words_ok fuel pre l s :
  (length l < fuel)%nat → bytes l → 0 ≤ s → s + sum (words l) < 2 ^ 32 →
  sum_words fuel (pre ++ l) (len pre) s = Ret (s + sum (words l)).
Proof.
  revert pre l s. induction fuel as [|fuel IH]; intros pre l s Hf Hb Hs Hlt; [lia |].
  pose proof (sum_bound _ (words_bound l Hb)) as [Hpos _]. cbn [sum_words]. rewrite len_app.
  destruct l as [|a [|b l]]; cbn [words sum foldr] in *.
  - change (len (@nil Z)) with 0. rewrite !Z.add_0_r, Z.ltb_irrefl. done.
  - change (len [a]) with 1. rewrite (proj2 (Z.ltb_lt _ _)), Z.ltb_irrefl by lia.
    rewrite index_ok by (rewrite len_app; change (len [a]) with 1; lia). rewrite byte_at_app.
    unfold mbind, out_bind, mret, out_ret. cbn [from_be_bytes foldl].
    destruct fuel as [|fuel]; [cbn in Hf; lia |]. cbn [sum_words].
    rewrite len_app. change (len [a]) with 1. rewrite (proj2 (Z.ltb_ge _ _)) by lia.
    unfold wrapping_add. by rewrite Z.mod_small by lia.
  - change (foldr Z.add 0 (words l)) with (sum (words l)) in *.
    replace (len (a :: b :: l)) with (2 + len l) by (unfold len; cbn [length]; lia).
    pose proof (len_nonneg l). pose proof (len_nonneg pre). rewrite !(proj2 (Z.ltb_lt _ _)) by lia.
    assert (len (pre ++ a :: b :: l) = len pre + 2 + len l) as Hlen
      by (rewrite len_app; unfold len; cbn [length]; lia).
    rewrite !index_ok by lia. rewrite byte_at_app.
    rewrite byte_at_app2.
    unfold mbind, out_bind, mret, out_ret. cbn [from_be_bytes foldl].
    replace (pre ++ a :: b :: l) with ((pre ++ [a; b]) ++ l) by by rewrite <- app_assoc.
    replace (len pre + 2) with (len (pre ++ [a; b])) by by rewrite len_app.
    apply Forall_cons in Hb as [Ha [Hb Hl]%Forall_cons]. unfold is_uint in Ha, Hb.
    pose proof (sum_bound _ (words_bound l Hl)) as [Hpos' _].
    unfold wrapping_add. rewrite Z.mod_small by lia. cbn in Hf. rewrite IH by (done || lia). f_equal. lia.
Qed.

Lemma sum_words_all l s :
  bytes l → 0 ≤ s → s + sum (words l) < 2 ^ 32 → sum_words (S (length l)) l 0 s = Ret (s + sum (words l)).
Proof. intros. apply (sum_words_ok _ []); [lia | done..]. Qed.

Lemma carry_step s : 2 ^ 16 ≤ s < 2 ^ 32 →
  let s' := s mod 2 ^ 16 + s / 2 ^ 16 in 0 < s' < 2 ^ 17 - 1 ∧ norm s' = norm s ∧ (s < 2 ^ 17 - 1 → s' < 2 ^ 16).
Proof.
  intros Hs s'. pose proof (Z.mod_pos_bound s (2 ^ 16)). pose proof (Z.div_mod s (2 ^ 16)).
  set (q := s / 2 ^ 16) in *. set (r := s mod 2 ^ 16) in *.
  assert (0 < q < 2 ^ 16) by lia. split_and!; [lia | lia | | lia].
  destruct (norm_decompose s') as (k & Hk & Hn & Heq); [lia |].
  symmetry. apply (norm_eq _ _ (k + q)); lia.
Qed.

Lemma add_carries_ok s : 0 ≤ s < 2 ^ 32 → add_carries 3 s = Ret (norm s).
Proof.
  assert (∀ fuel s, 0 ≤ s < 2 ^ 32 →
    add_carries (S fuel) s = if s <? 2 ^ 16 then Ret (norm s) else add_carries fuel (s mod 2 ^ 16 + s / 2 ^ 16)) as H.
  { clear. intros fuel s Hs. cbn [add_carries].
    rewrite Z.shiftr_div_pow2 by lia. change 0xFFFF with (2 ^ 16 - 1). rewrite land_mask by lia.
    destruct (Z.ltb_spec s (2 ^ 16)).
    - rewrite Z.div_small by lia. cbn. by rewrite norm_small by lia.
    - destruct (carry_step s) as (? & _); [lia |].
      assert (0 < s / 2 ^ 16) by (apply Z.div_str_pos; lia).
      rewrite (proj2 (Z.ltb_lt _ _)), add_w_ok by lia. done. }
  intros Hs. rewrite H by done. destruct (Z.ltb_spec s (2 ^ 16)); [done |].
  destruct (carry_step s) as (Hb & Hn & _); [lia |].
  rewrite H, <- Hn by lia. set (t := s mod 2 ^ 16 + s / 2 ^ 16) in *.
  destruct (Z.ltb_spec t (2 ^ 16)); [done |].
  destruct (carry_step t) as (Hb' & Hn' & Hlt); [lia |].
  rewrite H, <- Hn' by lia. by rewrite (proj2 (Z.ltb_lt _ _)) by lia.
Qed.

Lemma finish_checksum s :
  0 ≤ s < 2 ^ 32 → (sum ← add_carries 3 s; sum ← u16_of sum; mret (not_w 16 sum)) = Ret (2 ^ 16 - 1 - norm s).
Proof.
  intros Hs. rewrite add_carries_ok by done. cbn [mbind out_bind]. pose proof (norm_range s).
  unfold u16_of. rewrite (proj2 (Z.ltb_lt _ _)) by lia. cbn [mbind out_bind].
  rewrite not_w_spec by (unfold is_uint; lia). done.
Qed.

Lemma checksum_ok buffer : bytes buffer → len buffer ≤ 2 ^ 17 → checksum buffer = Ret (internet_checksum buffer).
Proof.
  intros Hb Hl. unfold checksum. pose proof (sum_words_bound _ Hb Hl).
  rewrite sum_words_all by (done || lia). rewrite Z.add_0_l. cbn [mbind out_bind].
  rewrite internet_checksum_norm by done. by apply finish_checksum.
Qed.

Lemma checksum_with_pseudo_ok pseudo data :
  bytes pseudo → bytes data → Z.even (len pseudo) = true → len pseudo + len data ≤ 2 ^ 17 →
  checksum_with_pseudo pseudo data = Ret (internet_checksum (pseudo ++ data)).
Proof.
  intros Hp Hd He Hl. unfold checksum_with_pseudo.
  assert (bytes (pseudo ++ data)) as Hb by by apply Forall_app.
  pose proof (sum_words_bound _ Hb) as Hs. rewrite len_app in Hs. specialize (Hs Hl).
  rewrite words_app, sum_app in Hs by done.
  pose proof (sum_bound _ (words_bound _ Hp)). pose proof (sum_bound _ (words_bound _ Hd)).
  rewrite sum_words_all by (done || lia). cbn [mbind out_bind].
  rewrite sum_words_all by (done || lia). cbn [mbind out_bind]. rewrite Z.add_0_l.
  rewrite internet_checksum_norm, words_app, sum_app by done. by apply finish_checksum.
Qed.

(** [0xFFFF] is another representation of the checksum zero. *)
Definition same_checksum (ck ck' : Z) : Prop := ck' = ck ∨ ck = 0 ∧ ck' = 2 ^ 16 - 1.

(** A buffer into which its checksum was filled has the checksum zero, which is what the receiver tests. *)
Lemma filled_checksum pre post ck :
  bytes pre → bytes post → Z.even (len pre) = true → same_checksum (internet_checksum (pre ++ [0; 0] ++ post)) ck →
  internet_checksum (pre ++ to_be_bytes 2 ck ++ post) = 0.
Proof.
  intros Hpre Hpost He Hck.
  assert (bytes (pre ++ [0; 0] ++ post)) as Hb.
  { apply Forall_app; split; [done |]. apply Forall_app; split; [| done]. by repeat constructor. }
  rewrite internet_checksum_norm in Hck by done.
  rewrite words_app, sum_app in Hck by done. change (sum (words ([0; 0] ++ post))) with (sum (words post)) in Hck.
  pose proof (sum_bound _ (words_bound _ Hpre)). pose proof (sum_bound _ (words_bound _ Hpost)).
  pose proof (norm_range (sum (words pre) + sum (words post))). unfold same_checksum in Hck.
  rewrite internet_checksum_norm.
  2:{ apply Forall_app; split; [done |]. apply Forall_app; split; [apply bytes_to_be | done]. }
  rewrite words_app, sum_app by done. rewrite words_app, sum_app by done.
  assert (sum (words (to_be_bytes 2 ck)) = ck) as ->.
  { pose proof (from_to_be 2 ck ltac:(unfold is_uint; lia)) as Hf. revert Hf.
    cbn [to_be_bytes words sum foldr from_be_bytes foldl]. lia. }
  set (s := sum (words pre) + sum (words post)) in *.
  enough (norm (sum (words pre) + (ck + sum (words post))) = 2 ^ 16 - 1) by lia.
  replace (sum (words pre) + (ck + sum (words post))) with (s + ck) by lia.
  destruct (decide (s = 0)) as [Hz|]; [rewrite Hz in *; cbn [norm Z.eqb] in Hck; rewrite norm_small; lia |].
  destruct (norm_decompose s) as (k & Hk & Hn & Heq); [lia |].
  destruct Hck as [Hck|[Hck1 Hck2]]; [apply (norm_eq _ _ k); lia | apply (norm_eq _ _ (k + 1)); lia].
Qed.

Lemma sub_cat l a b c : 0 ≤ a ≤ b → b ≤ c → sub_list l a c = sub_list l a b ++ sub_list l b c.
Proof.
  intros. unfold sub_list. replace (Z.to_nat (c - a)) with (Z.to_nat (b - a) + Z.to_nat (c - b))%nat by lia.
  rewrite <- take_take_drop, drop_drop. do 3 f_equal. lia.
Qed.

(** A checksum of [pseudo] and the first [n] bytes that is written over its zeroed field at [c]. *)
Lemma checksum_written pseudo l l' c e n ck :
  bytes pseudo → bytes l → Z.even (len pseudo) = true → Z.even c = true → 0 ≤ c → e = c + 2 → e ≤ n ≤ len l →
  sub_list l c e = [0; 0] → same_checksum (internet_checksum (pseudo ++ sub_list l 0 n)) ck →
  written l l' c e (to_be_bytes 2 ck) → internet_checksum (pseudo ++ sub_list l' 0 n) = 0.
Proof.
  intros Hp Hl Hpe Hce Hc -> Hn Hz Hck W. revert Hck.
  rewrite (sub_cat l 0 c n), (sub_cat l c (c + 2) n), Hz by lia. intros Hck.
  rewrite (sub_cat l' 0 c n), (sub_cat l' c (c + 2) n), (w_at _ _ _ _ _ W) by lia.
  rewrite !(w_other _ _ _ _ _ W) by lia. rewrite !(app_assoc pseudo) in *. apply filled_checksum; [| | | done].
  - apply Forall_app; split; [done | by apply bytes_sub].
  - by apply bytes_sub.
  - rewrite len_app, len_sub_list, Z.sub_0_r, Z.even_add, Hpe, Hce by lia. done.
Qed.

Lemma sub_all l n : n = len l → sub_list l 0 n = l.
Proof. intros ->. unfold sub_list, len. cbn [Z.to_nat]. rewrite drop_0, take_ge by lia. done. Qed.

Lemma checksum_written_all pseudo l l' c e ck :
  bytes pseudo → bytes l → Z.even (len pseudo) = true → Z.even c = true → 0 ≤ c → e = c + 2 → e ≤ len l →
  sub_list l c e = [0; 0] → same_checksum (internet_checksum (pseudo ++ l)) ck → written l l' c e (to_be_bytes 2 ck) →
  internet_checksum (pseudo ++ l') = 0.
Proof.
  intros ? ? ? ? ? ? ? ? ? W. rewrite <- (sub_all l' (len l)) by (symmetry; apply W).
  apply (checksum_written pseudo l l' c e (len l) ck); [done || lia.. | | done]. by rewrite sub_all.
Qed.

(** ** Claims *)

(** C36: the checksum loops compute the checksum of RFC 1071, the complement of the sum of the words
    in one's complement arithmetic, for all buffers of up to 128 KiB: the 32-bit sum does not wrap
    around and the carries are gone when the loop ends.  Summing a pseudo-header of even length first
    is the same as having it in front of the data. *)
Theorem checksum_equivalent (pseudo data : list Z) :
  bytes pseudo → bytes data → Z.even (len pseudo) = true → len pseudo + len data ≤ 2 ^ 17 →
  checksum data = Ret (internet_checksum data) ∧
  checksum_with_pseudo pseudo data = checksum (pseudo ++ data) ∧
  checksum (pseudo ++ data) = Ret (internet_checksum (pseudo ++ data)).
Proof.
  intros Hp Hd He Hl. pose proof (len_nonneg pseudo).
  assert (checksum (pseudo ++ data) = Ret (internet_checksum (pseudo ++ data))) as ->
    by (apply checksum_ok; [by apply Forall_app | by rewrite len_app]).
  rewrite checksum_ok, checksum_with_pseudo_ok by (done || lia). done.
Qed.

Lemma checksum_equivalent_witness :
  checksum [0xFF; 0xFF; 0x01] = Ret 0xFEFF ∧
  checksum_with_pseudo [0x80; 0; 0x80; 0] [0xFF; 0xFF; 0x01] = checksum [0x80; 0; 0x80; 0; 0xFF; 0xFF; 0x01].
Proof.
  split; [vm_compute; reflexivity |].
  apply (checksum_equivalent [0x80; 0; 0x80; 0] [0xFF; 0xFF; 0x01]);
    [repeat constructor; done | repeat constructor; done | done | done].
Defined.
