(* ===== verification/NetIface.v ===== *)
(** * Headers of packets

    The interface that the representations of all protocols of [holonet] share: a header is emitted
    into a buffer and parsed from one, and what follows it belongs to the next protocol. *)

From S2P Require Import Prelude NetUtils.

(** [Repr::parse] and [Repr::emit] *)
Class Header (R : Type) := {
  parse_hdr : list Z → NetworkResult R;
  emit_hdr : R → list Z → out (list Z);
}.

(** [valid r n]: the header [r] can be emitted into a buffer of [n] bytes.  An emitted header [r] is
    parsed into [received r]; it is found in the first [hdr_len] bytes of the buffer, and
    emitting it does not touch the others. *)
Class HeaderLaws (R : Type) `{Header R} := {
  hdr_len : Z;
  valid : R → Z → Prop;
  received : R → R;
  hdr_nonneg : 0 ≤ hdr_len;
  received_valid r n : valid r n → valid (received r) n;
  emit_law r b :
    bytes b → valid r (len b) →
    hdr_len ≤ len b ∧
    ∃ b', emit_hdr r b = Ret b' ∧ len b' = len b ∧ bytes b' ∧ parse_hdr b' = Ret (Ok (received r)) ∧
      sub_list b' hdr_len (len b) = sub_list b hdr_len (len b);
  parse_law r b b' :
    bytes b → bytes b' → valid r (len b) → hdr_len ≤ len b → same_prefix hdr_len b b' → parse_hdr b = Ret (Ok r) → parse_hdr b' = Ret (Ok r);
}.
Arguments hdr_len R {_ _}.

(** [f] on the slice that the [payload_mut] of a header of [hdr] bytes borrows *)
Definition on_payload (hdr : Z) (f : list Z → out (list Z)) (buffer : list Z) : out (list Z) :=
  p ← slice_from buffer hdr; p' ← f p; copy_from_slice buffer hdr (len buffer) p'.

(** [Packet::payload] and [Packet::payload_mut] of a protocol that carries others: behind a valid header
    they are what follows it. *)
Class Carrier (R : Type) := {
  payload_of : list Z → out (list Z);
  payload_mut_of : (list Z → out (list Z)) → list Z → out (list Z);
}.
Arguments payload_of R {_} _.
Arguments payload_mut_of R {_} _ _.

Class CarrierLaws (R : Type) `{HeaderLaws R} `{!Carrier R} := {
  payload_law r b :
    bytes b → valid r (len b) → parse_hdr b = Ret (Ok r) →
    payload_of R b = slice_from b (hdr_len R) ∧ ∀ f, payload_mut_of R f b = on_payload (hdr_len R) f b;
}.

Lemma on_payload_ok hdr f b p' :
  0 ≤ hdr ≤ len b → f (sub_list b hdr (len b)) = Ret p' → len p' = len b - hdr →
  ∃ b', on_payload hdr f b = Ret b' ∧ written b b' hdr (len b) p'.
Proof.
  intros. unfold on_payload. rewrite slice_from_ok by lia. cbn [mbind out_bind].
  rewrite H0. cbn [mbind out_bind]. apply copy_spec; lia.
Qed.

(** Two headers, the second in the payload of the first. *)
Section nest.
Context {R1 R2 : Type} `{CarrierLaws R1} `{HeaderLaws R2}.

Definition emit2 (r : R1 * R2) (b : list Z) : out (list Z) :=
  b ← emit_hdr r.1 b; payload_mut_of R1 (emit_hdr r.2) b.

Definition parse2 (b : list Z) : NetworkResult (R1 * R2) :=
  try_ (parse_hdr b) (λ r1, p ← payload_of R1 b; try_ (parse_hdr p) (λ r2, Ret (Ok (r1, r2)))).

Lemma emit2_law r1 r2 b :
  bytes b → valid r1 (len b) → valid r2 (len b - hdr_len R1) →
  hdr_len R1 + hdr_len R2 ≤ len b ∧
  ∃ b', emit2 (r1, r2) b = Ret b' ∧ len b' = len b ∧ bytes b' ∧ parse2 b' = Ret (Ok (received r1, received r2)) ∧
    sub_list b' (hdr_len R1 + hdr_len R2) (len b) = sub_list b (hdr_len R1 + hdr_len R2) (len b).
Proof.
  intros Hb Hv1 Hv2. destruct (emit_law r1 b Hb Hv1) as (Hl1 & b1 & He1 & Hlen1 & Hb1 & Hp1 & Hrest1).
  pose proof (@hdr_nonneg R1 _ _) as Hn1. pose proof (@hdr_nonneg R2 _ _) as Hn2.
  assert (len (sub_list b1 (hdr_len R1) (len b1)) = len b - hdr_len R1) as Hlp by (rewrite len_sub_list; lia).
  destruct (emit_law r2 (sub_list b1 (hdr_len R1) (len b1))) as (Hl2 & p & He2 & Hlen2 & Hb2 & Hp2 & Hrest2);
    [by apply bytes_sub | by rewrite Hlp |].
  destruct (on_payload_ok (hdr_len R1) (emit_hdr r2) b1 p) as (b' & Hop & W); [lia | done | lia |].
  split; [lia |]. exists b'. unfold emit2. cbn [fst snd]. rewrite He1. cbn [mbind out_bind].
  assert (valid (received r1) (len b1)) as Hv1' by (rewrite Hlen1; by apply received_valid).
  destruct (payload_law (received r1) b1) as [_ ->]; [done.. |].
  split_and!; [done | rewrite (w_len _ _ _ _ _ W); lia | by apply W | |].
  - assert (parse_hdr b' = Ret (Ok (received r1))) as Hp1'.
    { apply (parse_law (received r1) b1 b');
        [done | by apply W | done | lia | split; [apply W | apply (w_other _ _ _ _ _ W); lia] | done]. }
    unfold parse2. rewrite Hp1'. cbn [try_].
    destruct (payload_law (received r1) b') as [-> _]; [by apply W | by rewrite (w_len _ _ _ _ _ W) | done |].
    rewrite slice_from_ok by (rewrite (w_len _ _ _ _ _ W); lia). cbn [mbind out_bind].
    rewrite (w_len _ _ _ _ _ W), (w_at _ _ _ _ _ W), Hp2. done.
  - rewrite Hlp in Hrest2. rewrite <- !sub_sub with (a := hdr_len R1) (b := len b) (lo := hdr_len R1 + hdr_len R2) by lia.
    replace (hdr_len R1 + hdr_len R2 - hdr_len R1) with (hdr_len R2) by lia.
    replace (sub_list b' (hdr_len R1) (len b)) with p by (rewrite <- Hlen1; symmetry; apply W).
    by rewrite Hrest2, Hlen1, Hrest1.
Qed.

Lemma parse2_law r b b' :
  bytes b → bytes b' → valid r.1 (len b) ∧ valid r.2 (len b - hdr_len R1) → hdr_len R1 + hdr_len R2 ≤ len b → same_prefix (hdr_len R1 + hdr_len R2) b b' →
  parse2 b = Ret (Ok r) → parse2 b' = Ret (Ok r).
Proof.
  intros Hb Hb' [Hv1 Hv2] Hl [Hlen Hs]. pose proof (@hdr_nonneg R1 _ _) as Hn1. pose proof (@hdr_nonneg R2 _ _) as Hn2.
  unfold parse2. destruct (parse_hdr b) as [[r1|]|] eqn:Hp1; [cbn [try_] | done..].
  destruct (payload_of R1 b) as [p|] eqn:Hpay; [cbn [mbind out_bind] | done].
  destruct (parse_hdr p) as [[r2|]|] eqn:Hp2; [cbn [try_] | done..]. intros [= <-]. cbn [fst snd] in Hv1, Hv2.
  assert (parse_hdr b' = Ret (Ok r1)) as Hp1'.
  { apply (parse_law r1 b b'); [done | done | done | lia | | done].
    split; [done |]. apply (sub_prefix (n := hdr_len R1 + hdr_len R2)); [by split | lia | lia]. }
  rewrite Hp1'. cbn [try_]. revert Hpay. destruct (payload_law r1 b) as [-> _]; [done.. |].
  destruct (payload_law r1 b') as [-> _]; [done | by rewrite Hlen | done |].
  rewrite !slice_from_ok by lia. intros [= Hpay]. cbn [mbind out_bind]. set (p' := sub_list b' _ _).
  assert (len p = len b - hdr_len R1) as Hlp by (subst p; rewrite len_sub_list; lia).
  assert (len p' = len b - hdr_len R1) by (subst p'; rewrite len_sub_list; lia).
  rewrite (parse_law r2 p p'); [done | by subst p; apply bytes_sub | by apply bytes_sub | by rewrite Hlp | lia | | done].
  split; [lia |]. subst p p'. rewrite Hlen.
  pose proof (sub_sub b (hdr_len R1) (len b) (hdr_len R1) (hdr_len R1 + hdr_len R2)) as E1.
  pose proof (sub_sub b' (hdr_len R1) (len b) (hdr_len R1) (hdr_len R1 + hdr_len R2)) as E2.
  rewrite Z.sub_diag in E1, E2. replace (hdr_len R1 + hdr_len R2 - hdr_len R1) with (hdr_len R2) in E1, E2 by lia.
  rewrite E1, E2 by lia. apply (sub_prefix (n := hdr_len R1 + hdr_len R2)); [by split | lia | lia].
Qed.

(** A pair of headers is a header again. *)
Global Instance pair_header : Header (R1 * R2) := {| parse_hdr := parse2; emit_hdr := emit2 |}.

Global Program Instance pair_laws : HeaderLaws (R1 * R2) := {|
  hdr_len := hdr_len R1 + hdr_len R2;
  valid r n := valid r.1 n ∧ valid r.2 (n - hdr_len R1);
  received r := (received r.1, received r.2);
|}.
Next Obligation. pose proof (@hdr_nonneg R1 _ _). pose proof (@hdr_nonneg R2 _ _). lia. Qed.
Next Obligation. intros [r1 r2] n [Hv1 Hv2]. split; by apply received_valid. Qed.
Next Obligation. intros [r1 r2] b Hb [Hv1 Hv2]. by apply emit2_law. Qed.
Next Obligation. intros r b b'. apply parse2_law. Qed.

End nest.
