(* ===== verification/Ethernet.v ===== *)
(** * Ethernet frames

    [kernel/foundry/holonet/src/l2/ethernet.rs]: addresses, the view of a buffer as a frame and the
    representation of its header. *)

From S2P Require Import Prelude NetUtils NetIface.

Inductive EtherType := IpV4 | Arp | IpV6.

Global Instance EtherType_eq_dec : EqDecision EtherType.
Proof. solve_decision. Defined.

Module EtherType.

Definition try_from (value : Z) : result EtherType NetworkError :=
  if value =? 0x0800 then Ok IpV4
  else if value =? 0x0806 then Ok Arp
  else if value =? 0x86DD then Ok IpV6
  else Err Invalid.

(** [u16::from(EtherType)] *)
Definition to_u16 (value : EtherType) : Z :=
  match value with IpV4 => 0x0800 | Arp => 0x0806 | IpV6 => 0x86DD end.

End EtherType.

(** [Result::unwrap] *)
Definition unwrap_ok {A E} (r : result A E) : out A := match r with Ok a => Ret a | Err _ => Panic end.

(** A MAC address is the list of its six bytes. *)
Module MacAddress.

Definition t := list Z.

Definition BROADCAST : t := replicate 6 0xFF.
Definition from_bytes (data : list Z) : out t := array 6 data.
Definition as_bytes (self : t) : list Z := self.
Definition is_broadcast (self : t) : bool := bool_decide (self = BROADCAST).
Definition is_multicast (self : t) : out bool := b ← index self 0; mret (negb (Z.land b 0x01 =? 0)).
Definition is_local (self : t) : out bool := b ← index self 0; mret (negb (Z.land b 0x02 =? 0)).
Definition is_unicast (self : t) : out bool :=
  if is_broadcast self then mret false else m ← is_multicast self; mret (negb m).

Definition valid (self : t) : Prop := bytes self ∧ len self = 6.

End MacAddress.

(** The frame is the buffer it wraps: an operation that writes returns the new buffer. *)
Module Frame.

Definition HEADER_LEN : Z := 14.

Definition check_len (buffer : list Z) : NetworkResult unit := then_ok (HEADER_LEN <=? len buffer) Invalid.
Definition new (buffer : list Z) : NetworkResult (list Z) := try_ (check_len buffer) (λ _, Ret (Ok buffer)).
Definition buffer_len (payload_len : Z) : out Z := add_w 64 HEADER_LEN payload_len.

Definition dst_addr (buffer : list Z) : out MacAddress.t := s ← slice buffer 0 6; MacAddress.from_bytes s.
Definition src_addr (buffer : list Z) : out MacAddress.t := s ← slice buffer 6 12; MacAddress.from_bytes s.
Definition ethertype (buffer : list Z) : out EtherType :=
  raw ← get_u16 buffer 12 14; unwrap_ok (EtherType.try_from raw).
Definition payload (buffer : list Z) : out (list Z) := slice_from buffer HEADER_LEN.

Definition set_dst_addr (value : MacAddress.t) (buffer : list Z) : out (list Z) :=
  copy_from_slice buffer 0 6 (MacAddress.as_bytes value).
Definition set_src_addr (value : MacAddress.t) (buffer : list Z) : out (list Z) :=
  copy_from_slice buffer 6 12 (MacAddress.as_bytes value).
Definition set_ethertype (value : EtherType) (buffer : list Z) : out (list Z) :=
  copy_from_slice buffer 12 14 (u16_to_inet_bytes (EtherType.to_u16 value)).

(** [f] on the slice that [payload_mut] borrows *)
Definition payload_mut (f : list Z → out (list Z)) (buffer : list Z) : out (list Z) :=
  p ← slice_from buffer HEADER_LEN; p' ← f p; copy_from_slice buffer HEADER_LEN (len buffer) p'.

End Frame.

Module Ethernet.

Record Repr := mkRepr { src_addr : MacAddress.t; dst_addr : MacAddress.t; ethertype : EtherType }.

Definition parse (frame : list Z) : NetworkResult Repr :=
  try_ (Frame.check_len frame) (λ _,
    src_addr ← Frame.src_addr frame;
    dst_addr ← Frame.dst_addr frame;
    ethertype ← Frame.ethertype frame;
    Ret (Ok (mkRepr src_addr dst_addr ethertype))).

Definition buffer_len (self : Repr) : Z := Frame.HEADER_LEN.

Definition emit (self : Repr) (frame : list Z) : out (list Z) :=
  assert_ (buffer_len self <=? len frame);;
  frame ← Frame.set_src_addr (src_addr self) frame;
  frame ← Frame.set_dst_addr (dst_addr self) frame;
  Frame.set_ethertype (ethertype self) frame.

Definition valid (r : Repr) : Prop := MacAddress.valid (src_addr r) ∧ MacAddress.valid (dst_addr r).

End Ethernet.

(** ** Lemmas *)

Lemma ethertype_roundtrip t : EtherType.try_from (EtherType.to_u16 t) = Ok t.
Proof. by destruct t. Qed.

Lemma ethertype_u16 t : is_uint 16 (EtherType.to_u16 t).
Proof. by destruct t. Qed.

(** A frame is parsed into what was emitted, and the payload is left alone. *)
Lemma ethernet_emit_parse r frame :
  Ethernet.valid r → Frame.HEADER_LEN ≤ len frame →
  ∃ frame', Ethernet.emit r frame = Ret frame' ∧ Ethernet.parse frame' = Ret (Ok r) ∧ len frame' = len frame ∧
    (bytes frame → bytes frame') ∧ sub_list frame' 14 (len frame) = sub_list frame 14 (len frame).
Proof.
  intros [[Hsb Hsl] [Hdb Hdl]] Hlen. unfold Frame.HEADER_LEN in Hlen. unfold Ethernet.emit, Ethernet.buffer_len, Frame.HEADER_LEN.
  rewrite (proj2 (Z.leb_le _ _)) by lia. cbn [assert_ mbind out_bind].
  unfold Frame.set_src_addr, Frame.set_dst_addr, Frame.set_ethertype, MacAddress.as_bytes.
  do 3 buf_write. exists l1. split_and!; [done | | by buf_back | | by buf_back].
  - unfold Ethernet.parse, Frame.check_len, then_ok, Frame.HEADER_LEN. buf_back.
    rewrite (proj2 (Z.leb_le _ _)) by lia. cbn [try_].
    unfold Frame.src_addr, Frame.dst_addr, Frame.ethertype, MacAddress.from_bytes. repeat buf_read. buf_back.
    repeat buf_read. unfold u16_to_inet_bytes. rewrite from_to_u16 by apply ethertype_u16.
    rewrite ethertype_roundtrip. by destruct r.
  - intros. apply W1; [apply W0; [by apply W |] |]; [done.. | apply bytes_to_be].
Qed.

Global Instance ethernet_header : Header Ethernet.Repr := {| parse_hdr := Ethernet.parse; emit_hdr := Ethernet.emit |}.

Global Program Instance ethernet_laws : HeaderLaws Ethernet.Repr := {|
  hdr_len := 14;
  valid r n := Ethernet.valid r ∧ 14 ≤ n;
  received r := r;
|}.
Next Obligation. lia. Qed.
Next Obligation. done. Qed.
Next Obligation.
  intros r b Hb [Hr Hn]. split; [done |].
  destruct (ethernet_emit_parse r b Hr Hn) as (b' & ? & ? & ? & ? & ?). exists b'. auto.
Qed.
Next Obligation.
  cbn. intros r b b' Hb Hb' Hv Hl Hp Hr. rewrite <- Hr.
  unfold Ethernet.parse, Frame.check_len, Frame.src_addr, Frame.dst_addr, Frame.ethertype. by buf_prefix Hp.
Qed.

Global Instance ethernet_carrier : Carrier Ethernet.Repr := {|
  payload_of := Frame.payload;
  payload_mut_of := Frame.payload_mut;
|}.
Global Instance ethernet_carrier_laws : CarrierLaws Ethernet.Repr.
Proof. by split. Qed.

(** The three ways in which parsing a frame ends. *)
Lemma ethernet_parse_cases frame :
  Ethernet.parse frame =
  if len frame <? 14 then Ret (Err Invalid)
  else match EtherType.try_from (from_be_bytes (sub_list frame 12 14)) with
       | Ok t => Ret (Ok (Ethernet.mkRepr (sub_list frame 6 12) (sub_list frame 0 6) t))
       | Err _ => Panic
       end.
Proof.
  unfold Ethernet.parse, Frame.check_len, then_ok, Frame.HEADER_LEN.
  destruct (Z.ltb_spec (len frame) 14).
  - by rewrite (proj2 (Z.leb_gt _ _)) by lia.
  - rewrite (proj2 (Z.leb_le _ _)) by lia. cbn [try_].
    unfold Frame.src_addr, Frame.dst_addr, Frame.ethertype, MacAddress.from_bytes. repeat buf_read.
    by destruct (EtherType.try_from _).
Qed.
