(* ===== verification/Ip.v ===== *)
(** * IPv4 packets

    [kernel/foundry/holonet/src/l3/ip.rs]: the view of a buffer as a packet and the representation of
    its header. *)

From S2P Require Import Prelude NetUtils NetIface Ethernet.

(** [Ipv4Addr] of the standard library is its [u32]. *)
Module Ipv4Addr.
Definition t := Z.
(** [Ipv4Addr::from] of four bytes *)
Definition from_octets (l : list Z) : t := from_be_bytes l.
Definition octets (self : t) : list Z := to_be_bytes 4 self.
End Ipv4Addr.

Inductive Protocol := Icmp | Igmp | Tcp | Udp.

Module Protocol.

Definition try_from (value : Z) : result Protocol NetworkError :=
  if value =? 1 then Ok Icmp
  else if value =? 2 then Ok Igmp
  else if value =? 6 then Ok Tcp
  else if value =? 17 then Ok Udp
  else Err Invalid.

(** [u8::from(Protocol)] *)
Definition to_u8 (value : Protocol) : Z := match value with Icmp => 1 | Igmp => 2 | Tcp => 6 | Udp => 17 end.

End Protocol.

Module IpFlags.

Record t := mk { reserved : bool; dont_fragment : bool; more_fragments : bool }.

Definition from_bits (value : Z) : t :=
  mk (negb (Z.land value 0x80 =? 0)) (negb (Z.land value 0x40 =? 0)) (negb (Z.land value 0x20 =? 0)).

Definition to_bits (self : t) : Z :=
  let bits := 0 in
  let bits := if reserved self then Z.lor bits 0x80 else bits in
  let bits := if dont_fragment self then Z.lor bits 0x40 else bits in
  if more_fragments self then Z.lor bits 0x20 else bits.

Definition none : t := mk false false false.

End IpFlags.

Module IpPacket.

Definition HEADER_LEN : Z := 20.

Definition check_len (buffer : list Z) : NetworkResult unit := then_ok (HEADER_LEN <=? len buffer) Invalid.
Definition new (buffer : list Z) : NetworkResult (list Z) := try_ (check_len buffer) (λ _, Ret (Ok buffer)).

Definition header_len (buffer : list Z) : out Z := b ← index buffer 0; mret (Z.land b 0x0F * 4).
Definition version (buffer : list Z) : out Z := b ← index buffer 0; mret (Z.shiftr b 4).
Definition dscp (buffer : list Z) : out Z := b ← index buffer 1; mret (Z.shiftr b 2).
Definition ecn (buffer : list Z) : out Z := b ← index buffer 1; mret (Z.land b 0x03).
Definition total_len (buffer : list Z) : out Z := get_u16 buffer 2 4.
Definition identification (buffer : list Z) : out Z := get_u16 buffer 4 6.
Definition flags (buffer : list Z) : out IpFlags.t := b ← index buffer 6; mret (IpFlags.from_bits b).
Definition fragment_offset (buffer : list Z) : out Z := raw ← get_u16 buffer 6 8; mret (Z.land raw 0x1FFF).
Definition ttl (buffer : list Z) : out Z := index buffer 8.
Definition protocol (buffer : list Z) : out Protocol := b ← index buffer 9; unwrap_ok (Protocol.try_from b).
Definition checksum (buffer : list Z) : out Z := get_u16 buffer 10 12.
Definition src_addr (buffer : list Z) : out Ipv4Addr.t := get_u32 buffer 12 16.
Definition dst_addr (buffer : list Z) : out Ipv4Addr.t := get_u32 buffer 16 20.
Definition payload (buffer : list Z) : out (list Z) := n ← header_len buffer; slice_from buffer n.

Definition set_version_and_header_len (version header_len : Z) (buffer : list Z) : out (list Z) :=
  set_index buffer 0 (Z.lor (shl_w 8 version 4) (Z.land header_len 0x0F)).
Definition set_dscp_ecn (dscp ecn : Z) (buffer : list Z) : out (list Z) :=
  set_index buffer 1 (Z.lor (shl_w 8 dscp 2) (Z.land ecn 0x03)).
Definition set_total_len (value : Z) (buffer : list Z) : out (list Z) :=
  copy_from_slice buffer 2 4 (u16_to_inet_bytes value).
Definition set_identification (value : Z) (buffer : list Z) : out (list Z) :=
  copy_from_slice buffer 4 6 (u16_to_inet_bytes value).
Definition set_flags_and_fragment_offset (flags : IpFlags.t) (fragment_offset : Z) (buffer : list Z) : out (list Z) :=
  let value := Z.lor (shl_w 16 (IpFlags.to_bits flags) 5) (Z.land fragment_offset 0x1FFF) in
  copy_from_slice buffer 6 8 (u16_to_inet_bytes value).
Definition set_ttl (value : Z) (buffer : list Z) : out (list Z) := set_index buffer 8 value.
Definition set_protocol (value : Protocol) (buffer : list Z) : out (list Z) := set_index buffer 9 (Protocol.to_u8 value).
Definition set_checksum (value : Z) (buffer : list Z) : out (list Z) :=
  copy_from_slice buffer 10 12 (u16_to_inet_bytes value).
Definition set_src_addr (value : Ipv4Addr.t) (buffer : list Z) : out (list Z) :=
  copy_from_slice buffer 12 16 (u32_to_inet_bytes value).
Definition set_dst_addr (value : Ipv4Addr.t) (buffer : list Z) : out (list Z) :=
  copy_from_slice buffer 16 20 (u32_to_inet_bytes value).
Definition payload_mut (f : list Z → out (list Z)) (buffer : list Z) : out (list Z) :=
  n ← header_len buffer; on_payload n f buffer.

Definition fill_checksum (buffer : list Z) : out (list Z) :=
  buffer ← set_checksum 0 buffer;
  n ← header_len buffer;
  data ← slice buffer 0 n;
  cksum ← NetUtils.checksum data;
  set_checksum cksum buffer.

End IpPacket.

Module Ip.

Record Repr := mkRepr {
  src_addr : Ipv4Addr.t;
  dst_addr : Ipv4Addr.t;
  protocol : Protocol;
  payload_len : Z;
  ttl : Z;
  flags : IpFlags.t;
}.

Definition parse (packet : list Z) : NetworkResult Repr :=
  try_ (IpPacket.check_len packet) (λ _,
    version ← IpPacket.version packet;
    if negb (version =? 4) then Ret (Err Invalid)
    else
      src_addr ← IpPacket.src_addr packet;
      dst_addr ← IpPacket.dst_addr packet;
      protocol ← IpPacket.protocol packet;
      payload ← IpPacket.payload packet;
      ttl ← IpPacket.ttl packet;
      flags ← IpPacket.flags packet;
      Ret (Ok (mkRepr src_addr dst_addr protocol (len payload) ttl flags))).

Definition buffer_len (self : Repr) : out Z := add_w 64 IpPacket.HEADER_LEN (payload_len self).

Definition emit (self : Repr) (packet : list Z) : out (list Z) :=
  n ← buffer_len self;
  assert_ (n <=? len packet);;
  packet ← IpPacket.set_version_and_header_len 4 5 packet;
  packet ← IpPacket.set_dscp_ecn 0 0 packet;
  n ← add_w 64 IpPacket.HEADER_LEN (payload_len self);
  n ← u16_of n;
  packet ← IpPacket.set_total_len n packet;
  packet ← IpPacket.set_identification 0 packet;
  packet ← IpPacket.set_flags_and_fragment_offset (flags self) 0 packet;
  packet ← IpPacket.set_ttl (ttl self) packet;
  packet ← IpPacket.set_protocol (protocol self) packet;
  packet ← IpPacket.set_src_addr (src_addr self) packet;
  packet ← IpPacket.set_dst_addr (dst_addr self) packet;
  IpPacket.fill_checksum packet.

(** The fields have the widths of their types. *)
Definition typed (r : Repr) : Prop :=
  is_uint 32 (src_addr r) ∧ is_uint 32 (dst_addr r) ∧ is_uint 64 (payload_len r) ∧ is_uint 8 (ttl r).

Definition with_flags (r : Repr) (f : IpFlags.t) : Repr :=
  mkRepr (src_addr r) (dst_addr r) (protocol r) (payload_len r) (ttl r) f.

End Ip.

(** ** Lemmas *)

Lemma protocol_roundtrip p : Protocol.try_from (Protocol.to_u8 p) = Ok p.
Proof. by destruct p. Qed.

Lemma to_u8_byte p : is_uint 8 (Protocol.to_u8 p).
Proof. by destruct p. Qed.

(** The ways in which parsing a packet ends. *)
Lemma ip_parse_cases packet :
  Ip.parse packet =
  if len packet <? 20 then Ret (Err Invalid)
  else if negb (Z.shiftr (byte_at packet 0) 4 =? 4) then Ret (Err Invalid)
  else match Protocol.try_from (byte_at packet 9) with
       | Err _ => Panic
       | Ok p =>
           let n := Z.land (byte_at packet 0) 15 * 4 in
           if len packet <? n then Panic
           else Ret (Ok (Ip.mkRepr (from_be_bytes (sub_list packet 12 16)) (from_be_bytes (sub_list packet 16 20)) p
                  (len packet - n) (byte_at packet 8) (IpFlags.from_bits (byte_at packet 6))))
       end.
Proof.
  unfold Ip.parse, IpPacket.check_len, then_ok, IpPacket.HEADER_LEN.
  destruct (Z.ltb_spec (len packet) 20); [by rewrite (proj2 (Z.leb_gt _ _)) by lia |].
  rewrite (proj2 (Z.leb_le _ _)) by lia. cbn [try_].
  unfold IpPacket.version, IpPacket.src_addr, IpPacket.dst_addr, IpPacket.protocol,
    IpPacket.payload, IpPacket.header_len, IpPacket.ttl, IpPacket.flags. repeat buf_read. unfold mret, out_ret.
  cbn [mbind out_bind]. destruct (negb _); [done |]. destruct (Protocol.try_from _) as [p|]; [| done]. cbn [unwrap_ok mbind out_bind].
  assert (0 ≤ Z.land (byte_at packet 0) 15) by (apply Z.land_nonneg; lia).
  cbn zeta. set (n := Z.land (byte_at packet 0) 15 * 4) in *. destruct (Z.ltb_spec (len packet) n).
  - unfold slice_from, slice. by rewrite (proj2 (Z.leb_gt _ _)) by lia.
  - buf_read. by rewrite len_sub_list by lia.
Qed.

(** The flags are shifted by 5 where they belong 8 bits further up: they end up in the fragment offset. *)
Definition misplaced (f : IpFlags.t) : Z := IpFlags.to_bits f * 2 ^ 5.

Lemma flags_lost f :
  let v := u16_to_inet_bytes (Z.lor (shl_w 16 (IpFlags.to_bits f) 5) (Z.land 0 8191)) in
  IpFlags.from_bits (byte_at v 0) = IpFlags.none ∧ Z.land (from_be_bytes v) 0x1FFF = misplaced f.
Proof. destruct f as [[] [] []]; done. Qed.

(** What [emit] leaves in the packet. *)
Record ip_emitted (r : Ip.Repr) (packet packet' : list Z) : Prop := {
  ie_len : len packet' = len packet;
  ie_bytes : bytes packet';
  ie_parse : Ip.parse packet' =
    Ret (Ok (Ip.mkRepr (Ip.src_addr r) (Ip.dst_addr r) (Ip.protocol r) (len packet - 20) (Ip.ttl r) IpFlags.none));
  ie_checksum : internet_checksum (sub_list packet' 0 20) = 0;
  ie_total : IpPacket.total_len packet' = Ret (20 + Ip.payload_len r);
  ie_fragment : IpPacket.fragment_offset packet' = Ret (misplaced (Ip.flags r));
  ie_payload : sub_list packet' 20 (len packet) = sub_list packet 20 (len packet);
}.

Lemma ip_emit_ok r packet :
  Ip.typed r → bytes packet → 20 + Ip.payload_len r ≤ len packet → 20 + Ip.payload_len r < 2 ^ 16 →
  ∃ packet', Ip.emit r packet = Ret packet' ∧ ip_emitted r packet packet'.
Proof.
  intros (Hs & Hd & [Hp _] & Ht) Hb Hlen H16. unfold Ip.emit, Ip.buffer_len, IpPacket.HEADER_LEN.
  rewrite add_w_ok by lia. cbn [mbind out_bind]. rewrite (proj2 (Z.leb_le _ _)) by lia. cbn [assert_ mbind out_bind].
  unfold IpPacket.set_version_and_header_len, IpPacket.set_dscp_ecn, IpPacket.set_total_len, IpPacket.set_identification,
    IpPacket.set_flags_and_fragment_offset, IpPacket.set_ttl, IpPacket.set_protocol, IpPacket.set_src_addr,
    IpPacket.set_dst_addr, IpPacket.fill_checksum, IpPacket.set_checksum, u16_of.
  do 2 buf_write. rewrite (proj2 (Z.ltb_lt _ _)) by lia. cbn [mbind out_bind].
  do 8 buf_write. unfold IpPacket.header_len. buf_read. buf_back.
  change (mret (Z.land (byte_at [Z.lor (shl_w 8 4 4) (Z.land 5 15)] (0 - 0)) 15 * 4)) with (Ret 20). cbn [mbind out_bind].
  assert (bytes l8) as Hb8 by (pose proof (to_u8_byte (Ip.protocol r)); buf_bytes).
  buf_read. rewrite checksum_ok by (by apply bytes_sub || buf_len). cbn [mbind out_bind]. buf_write.
  exists l9. split; [done |]. destruct (flags_lost (Ip.flags r)) as [Hf1 Hf2]. split.
  - by buf_back.
  - buf_bytes.
  - unfold Ip.parse, IpPacket.check_len, IpPacket.HEADER_LEN, then_ok. buf_back. rewrite (proj2 (Z.leb_le _ _)) by lia.
    cbn [try_]. unfold IpPacket.version. buf_read. buf_back.
    change (mret (Z.shiftr (byte_at [Z.lor (shl_w 8 4 4) (Z.land 5 15)] (0 - 0)) 4)) with (Ret 4). cbn [mbind out_bind].
    change (negb (4 =? 4)) with false. cbv iota.
    unfold IpPacket.src_addr, IpPacket.dst_addr, IpPacket.protocol, IpPacket.payload, IpPacket.header_len, IpPacket.ttl, IpPacket.flags.
    do 3 buf_read. buf_back. unfold u32_to_inet_bytes. rewrite !from_to_u32 by done.
    do 3 buf_read. buf_back. rewrite !byte_single by done. rewrite protocol_roundtrip. cbn [unwrap_ok mbind out_bind].
    change (mret (Z.land (Z.lor (shl_w 8 4 4) (Z.land 5 15)) 15 * 4)) with (Ret 20). cbn [mbind out_bind].
    buf_read. change (6 - 6) with 0. rewrite Hf1. unfold mret, out_ret. cbn [mbind out_bind]. do 3 f_equal. buf_len.
  - rewrite <- (app_nil_l (sub_list _ _ _)). eapply (checksum_written [] l8 l9 10 12 20); [by apply Forall_nil | done.. | buf_len | by buf_back | by left | done].
  - unfold IpPacket.total_len. buf_read. buf_back. unfold u16_to_inet_bytes. by rewrite from_to_u16 by (split; lia).
  - unfold IpPacket.fragment_offset. buf_read. buf_back. by rewrite Hf2.
  - by buf_back.
Qed.

Global Instance ip_header : Header Ip.Repr := {| parse_hdr := Ip.parse; emit_hdr := Ip.emit |}.

(** A packet in a buffer of exactly its size is parsed into what was emitted, without the flags. *)
Global Program Instance ip_laws : HeaderLaws Ip.Repr := {|
  hdr_len := 20;
  valid r n := Ip.typed r ∧ n = 20 + Ip.payload_len r ∧ n < 2 ^ 16;
  received r := Ip.with_flags r IpFlags.none;
|}.
Next Obligation. lia. Qed.
Next Obligation. done. Qed.
Next Obligation.
  intros r b Hb (Hr & Hn & H16). assert (0 ≤ Ip.payload_len r) by apply Hr. split; [lia |].
  destruct (ip_emit_ok r b) as (b' & He & [? ? Hp]); [done | done | lia | lia |].
  exists b'. split_and!; [done.. | | done]. cbn [parse_hdr ip_header]. rewrite Hp.
  by replace (len b - 20) with (Ip.payload_len r) by lia.
Qed.
Next Obligation.
  cbn [parse_hdr ip_header]. intros r b b' Hb Hb' Hv Hl Hp Hr. rewrite <- Hr, !ip_parse_cases. by buf_prefix Hp.
Qed.

Global Instance ip_carrier : Carrier Ip.Repr := {| payload_of := IpPacket.payload; payload_mut_of := IpPacket.payload_mut |}.

Global Instance ip_carrier_laws : CarrierLaws Ip.Repr.
Proof.
  split. intros r b Hb (_ & Hn & _). cbn [parse_hdr ip_header payload_of payload_mut_of ip_carrier hdr_len ip_laws].
  rewrite ip_parse_cases. destruct (Z.ltb_spec (len b) 20); [done |]. destruct (negb _); [done |].
  destruct (Protocol.try_from _); [| done]. cbn zeta. destruct (len b <? _); [done |]. intros [= <-].
  unfold IpPacket.payload, IpPacket.payload_mut, IpPacket.header_len. rewrite index_ok by lia. unfold mret, out_ret. cbn [mbind out_bind].
  cbn [Ip.payload_len] in Hn. replace (Z.land (byte_at b 0) 15 * 4) with 20 by lia. done.
Qed.
