(* ===== verification/Arp.v ===== *)
(** * Address resolution packets

    [kernel/foundry/holonet/src/l3/arp.rs]: the view of a buffer as an ARP packet, whose fields depend
    on the lengths of addresses that it declares, and the representation for Ethernet and IPv4. *)

From S2P Require Import Prelude NetUtils NetIface Ethernet Ip.

Definition FIXED_HEADER_LEN : Z := 8.

Definition SOURCE_HARDWARE_ADDR_RANGE (hardware_len : Z) : Z * Z :=
  let start := FIXED_HEADER_LEN in (start, start + hardware_len).
Definition SOURCE_PROTOCOL_ADDR_RANGE (hardware_len protocol_len : Z) : Z * Z :=
  let start := FIXED_HEADER_LEN + hardware_len in (start, start + protocol_len).
Definition TARGET_HARDWARE_ADDR_RANGE (hardware_len protocol_len : Z) : Z * Z :=
  let start := FIXED_HEADER_LEN + hardware_len + protocol_len in (start, start + hardware_len).
Definition TARGET_PROTOCOL_ADDR_RANGE (hardware_len protocol_len : Z) : Z * Z :=
  let start := FIXED_HEADER_LEN + 2 * hardware_len + protocol_len in (start, start + protocol_len).

Inductive Hardware := HwEthernet.
Inductive Operation := Request | Reply.

Definition hardware_try_from (raw : Z) : result Hardware NetworkError := if raw =? 1 then Ok HwEthernet else Err Invalid.
Definition hardware_to_u16 (hw : Hardware) : Z := match hw with HwEthernet => 1 end.

Definition operation_try_from (raw : Z) : result Operation NetworkError :=
  if raw =? 1 then Ok Request else if raw =? 2 then Ok Reply else Err Invalid.
Definition operation_to_u16 (op : Operation) : Z := match op with Request => 1 | Reply => 2 end.

Module ArpPacket.

Definition hardware_len (buffer : list Z) : out Z := index buffer 4.
Definition protocol_len (buffer : list Z) : out Z := index buffer 5.

Definition check_len (buffer : list Z) : NetworkResult unit :=
  h ← hardware_len buffer;
  p ← protocol_len buffer;
  let min_len := (TARGET_PROTOCOL_ADDR_RANGE h p).2 in
  then_ok (min_len <=? len buffer) Invalid.
Definition new (buffer : list Z) : NetworkResult (list Z) := try_ (check_len buffer) (λ _, Ret (Ok buffer)).

Definition hardware_type (buffer : list Z) : out Hardware := raw ← get_u16 buffer 0 2; unwrap_ok (hardware_try_from raw).
Definition protocol_type (buffer : list Z) : out EtherType := raw ← get_u16 buffer 2 4; unwrap_ok (EtherType.try_from raw).
Definition operation (buffer : list Z) : out Operation := raw ← get_u16 buffer 6 8; unwrap_ok (operation_try_from raw).

Definition source_hardware_addr (buffer : list Z) : out (list Z) :=
  h ← hardware_len buffer;
  let '(lo, hi) := SOURCE_HARDWARE_ADDR_RANGE h in slice buffer lo hi.
Definition source_protocol_addr (buffer : list Z) : out (list Z) :=
  h ← hardware_len buffer; p ← protocol_len buffer;
  let '(lo, hi) := SOURCE_PROTOCOL_ADDR_RANGE h p in slice buffer lo hi.
Definition target_hardware_addr (buffer : list Z) : out (list Z) :=
  h ← hardware_len buffer; p ← protocol_len buffer;
  let '(lo, hi) := TARGET_HARDWARE_ADDR_RANGE h p in slice buffer lo hi.
Definition target_protocol_addr (buffer : list Z) : out (list Z) :=
  h ← hardware_len buffer; p ← protocol_len buffer;
  let '(lo, hi) := TARGET_PROTOCOL_ADDR_RANGE h p in slice buffer lo hi.

Definition set_hardware_type (value : Hardware) (buffer : list Z) : out (list Z) :=
  copy_from_slice buffer 0 2 (u16_to_inet_bytes (hardware_to_u16 value)).
Definition set_protocol_type (value : EtherType) (buffer : list Z) : out (list Z) :=
  copy_from_slice buffer 2 4 (u16_to_inet_bytes (EtherType.to_u16 value)).
Definition set_hardware_len (value : Z) (buffer : list Z) : out (list Z) := set_index buffer 4 value.
Definition set_protocol_len (value : Z) (buffer : list Z) : out (list Z) := set_index buffer 5 value.
Definition set_operation (value : Operation) (buffer : list Z) : out (list Z) :=
  copy_from_slice buffer 6 8 (u16_to_inet_bytes (operation_to_u16 value)).

Definition set_source_hardware_addr (value buffer : list Z) : out (list Z) :=
  h ← hardware_len buffer;
  let '(lo, hi) := SOURCE_HARDWARE_ADDR_RANGE h in copy_from_slice buffer lo hi value.
Definition set_source_protocol_addr (value buffer : list Z) : out (list Z) :=
  h ← hardware_len buffer; p ← protocol_len buffer;
  let '(lo, hi) := SOURCE_PROTOCOL_ADDR_RANGE h p in copy_from_slice buffer lo hi value.
Definition set_target_hardware_addr (value buffer : list Z) : out (list Z) :=
  h ← hardware_len buffer; p ← protocol_len buffer;
  let '(lo, hi) := TARGET_HARDWARE_ADDR_RANGE h p in copy_from_slice buffer lo hi value.
Definition set_target_protocol_addr (value buffer : list Z) : out (list Z) :=
  h ← hardware_len buffer; p ← protocol_len buffer;
  let '(lo, hi) := TARGET_PROTOCOL_ADDR_RANGE h p in copy_from_slice buffer lo hi value.

End ArpPacket.

Module ArpRepr.

Record t := EthernetIpv4 {
  operation : Operation;
  source_hardware_addr : MacAddress.t;
  source_protocol_addr : Ipv4Addr.t;
  target_hardware_addr : MacAddress.t;
  target_protocol_addr : Ipv4Addr.t;
}.

Definition parse (packet : list Z) : NetworkResult t :=
  try_ (ArpPacket.check_len packet) (λ _,
    hw ← ArpPacket.hardware_type packet;
    proto ← ArpPacket.protocol_type packet;
    h ← ArpPacket.hardware_len packet;
    p ← ArpPacket.protocol_len packet;
    match hw, proto with
    | HwEthernet, IpV4 =>
        if (h =? 6) && (p =? 4) then
          operation ← ArpPacket.operation packet;
          sh ← ArpPacket.source_hardware_addr packet; sh ← MacAddress.from_bytes sh;
          sp ← ArpPacket.source_protocol_addr packet; sp ← array 4 sp;
          th ← ArpPacket.target_hardware_addr packet; th ← MacAddress.from_bytes th;
          tp ← ArpPacket.target_protocol_addr packet; tp ← array 4 tp;
          Ret (Ok (EthernetIpv4 operation sh (Ipv4Addr.from_octets sp) th (Ipv4Addr.from_octets tp)))
        else Ret (Err Unsupported)
    | _, _ => Ret (Err Unsupported)
    end).

Definition buffer_len (self : t) : Z := (TARGET_PROTOCOL_ADDR_RANGE 6 4).2.

Definition emit (self : t) (packet : list Z) : out (list Z) :=
  packet ← ArpPacket.set_hardware_type HwEthernet packet;
  packet ← ArpPacket.set_protocol_type IpV4 packet;
  packet ← ArpPacket.set_hardware_len 6 packet;
  packet ← ArpPacket.set_protocol_len 4 packet;
  packet ← ArpPacket.set_operation (operation self) packet;
  packet ← ArpPacket.set_source_hardware_addr (MacAddress.as_bytes (source_hardware_addr self)) packet;
  packet ← ArpPacket.set_source_protocol_addr (Ipv4Addr.octets (source_protocol_addr self)) packet;
  packet ← ArpPacket.set_target_hardware_addr (MacAddress.as_bytes (target_hardware_addr self)) packet;
  ArpPacket.set_target_protocol_addr (Ipv4Addr.octets (target_protocol_addr self)) packet.

Definition typed (r : t) : Prop :=
  MacAddress.valid (source_hardware_addr r) ∧ MacAddress.valid (target_hardware_addr r) ∧
  is_uint 32 (source_protocol_addr r) ∧ is_uint 32 (target_protocol_addr r).

End ArpRepr.

(** ** Lemmas *)

Lemma operation_roundtrip op : operation_try_from (operation_to_u16 op) = Ok op.
Proof. by destruct op. Qed.
Lemma operation_u16 op : is_uint 16 (operation_to_u16 op).
Proof. by destruct op. Qed.

Ltac arp_ranges :=
  try change (SOURCE_HARDWARE_ADDR_RANGE 6) with (8, 14); try change (SOURCE_PROTOCOL_ADDR_RANGE 6 4) with (14, 18);
  try change (TARGET_HARDWARE_ADDR_RANGE 6 4) with (18, 24); try change (TARGET_PROTOCOL_ADDR_RANGE 6 4) with (24, 28);
  cbv iota.

(** The ways in which parsing ends: the lengths are read before the length of the buffer is known. *)
Lemma arp_parse_cases packet :
  bytes packet →
  ArpRepr.parse packet =
  let h := byte_at packet 4 in
  let p := byte_at packet 5 in
  if len packet <? 6 then Panic
  else if len packet <? 8 + 2 * h + 2 * p then Ret (Err Invalid)
  else match hardware_try_from (from_be_bytes (sub_list packet 0 2)), EtherType.try_from (from_be_bytes (sub_list packet 2 4)) with
       | Ok _, Ok t =>
           if bool_decide (t = IpV4) && (h =? 6) && (p =? 4) then
             match operation_try_from (from_be_bytes (sub_list packet 6 8)) with
             | Ok op => Ret (Ok (ArpRepr.EthernetIpv4 op (sub_list packet 8 14) (from_be_bytes (sub_list packet 14 18))
                               (sub_list packet 18 24) (from_be_bytes (sub_list packet 24 28))))
             | Err _ => Panic
             end
           else Ret (Err Unsupported)
       | _, _ => Panic
       end.
Proof.
  intros Hb. unfold ArpRepr.parse, ArpPacket.check_len, ArpPacket.hardware_len, ArpPacket.protocol_len.
  cbn zeta. destruct (Z.ltb_spec (len packet) 6).
  { unfold index. destruct (Z.ltb_spec 4 (len packet)), (Z.ltb_spec 5 (len packet)); try lia; done. }
  do 2 buf_read. unfold TARGET_PROTOCOL_ADDR_RANGE, FIXED_HEADER_LEN. cbn [snd].
  pose proof (byte_at_u8 packet 4 Hb) as [Hh _]. pose proof (byte_at_u8 packet 5 Hb) as [Hp _].
  set (h := byte_at packet 4) in *. set (p := byte_at packet 5) in *.
  unfold then_ok. destruct (Z.ltb_spec (len packet) (8 + 2 * h + 2 * p)).
  { by rewrite (proj2 (Z.leb_gt _ _)) by lia. }
  rewrite (proj2 (Z.leb_le _ _)) by lia. cbn [try_]. unfold ArpPacket.hardware_type, ArpPacket.protocol_type.
  do 2 buf_read. destruct (hardware_try_from _) as [[]|]; [| done]. cbn [unwrap_ok mbind out_bind].
  destruct (EtherType.try_from _) as [t|]; [| done]. cbn [unwrap_ok mbind out_bind].
  destruct t; [| done..]. rewrite bool_decide_true by done. cbn [andb].
  destruct (Z.eqb_spec h 6) as [Hh6|]; [| done]. destruct (Z.eqb_spec p 4) as [Hp4|]; [| done]. cbn [andb].
  unfold ArpPacket.operation. buf_read. destruct (operation_try_from _) as [op|]; [| done]. cbn [unwrap_ok mbind out_bind].
  unfold ArpPacket.source_hardware_addr, ArpPacket.source_protocol_addr, ArpPacket.target_hardware_addr,
    ArpPacket.target_protocol_addr, ArpPacket.hardware_len, ArpPacket.protocol_len, MacAddress.from_bytes.
  repeat (buf_read; fold h p; rewrite ?Hh6, ?Hp4).
  arp_ranges. by repeat buf_read.
Qed.

(** The packet is parsed into what was emitted. *)
Lemma arp_emit_ok r packet :
  ArpRepr.typed r → bytes packet → 28 ≤ len packet →
  ∃ packet', ArpRepr.emit r packet = Ret packet' ∧ len packet' = len packet ∧ bytes packet' ∧
    ArpRepr.parse packet' = Ret (Ok r) ∧ sub_list packet' 28 (len packet) = sub_list packet 28 (len packet).
Proof.
  intros ([Hsb Hsl] & [Htb Htl] & Hs & Ht) Hb Hlen.
  unfold ArpRepr.emit, ArpPacket.set_hardware_type, ArpPacket.set_protocol_type, ArpPacket.set_hardware_len,
    ArpPacket.set_protocol_len, ArpPacket.set_operation, ArpPacket.set_source_hardware_addr,
    ArpPacket.set_source_protocol_addr, ArpPacket.set_target_hardware_addr, ArpPacket.set_target_protocol_addr,
    ArpPacket.hardware_len, ArpPacket.protocol_len, MacAddress.as_bytes, Ipv4Addr.octets.
  do 5 buf_write. repeat (first [buf_read | buf_write]; buf_back; rewrite ?byte_single by done; arp_ranges).
  exists l7. assert (bytes l7) by buf_bytes. split_and!; [done | by buf_back | done | | by buf_back].
  rewrite arp_parse_cases by done. cbn zeta. buf_back. rewrite !byte_single by done.
  rewrite !(proj2 (Z.ltb_ge _ _)) by lia. unfold u16_to_inet_bytes.
  rewrite !from_to_u16 by (apply operation_u16 || done).
  rewrite ethertype_roundtrip, operation_roundtrip, !from_to_u32 by done. cbn. by destruct r.
Qed.

Global Instance arp_header : Header ArpRepr.t := {| parse_hdr := ArpRepr.parse; emit_hdr := ArpRepr.emit |}.

Global Program Instance arp_laws : HeaderLaws ArpRepr.t := {|
  hdr_len := 28;
  valid r n := ArpRepr.typed r ∧ 28 ≤ n;
  received r := r;
|}.
Next Obligation. lia. Qed.
Next Obligation. done. Qed.
Next Obligation. intros r b Hb [Hr Hn]. split; [done |]. by apply arp_emit_ok. Qed.
Next Obligation.
  cbn [parse_hdr arp_header]. intros r b b' Hb Hb' Hv Hl Hp Hr. rewrite <- Hr, !arp_parse_cases by done. by buf_prefix Hp.
Qed.
