(* ===== verification/Icmp.v ===== *)
(** * ICMP packets

    [kernel/foundry/holonet/src/l4/icmp.rs]: the view of a buffer as a message and the representation of
    its header. *)

From S2P Require Import Prelude NetUtils NetIface Ethernet.

Inductive MessageType :=
| EchoReply | DestinationUnreachable | SourceQuench | Redirect_ | EchoRequest | RouterAdvertisement
| RouterSolicitation | TimeExceeded | ParameterProblem | Timestamp | TimestampReply | InformationRequest
| InformationReply.

Module MessageType.

Definition try_from (value : Z) : result MessageType NetworkError :=
  match value with
  | 0 => Ok EchoReply
  | 3 => Ok DestinationUnreachable
  | 4 => Ok SourceQuench
  | 5 => Ok Redirect_
  | 8 => Ok EchoRequest
  | 9 => Ok RouterAdvertisement
  | 10 => Ok RouterSolicitation
  | 11 => Ok TimeExceeded
  | 12 => Ok ParameterProblem
  | 13 => Ok Timestamp
  | 14 => Ok TimestampReply
  | 15 => Ok InformationRequest
  | 16 => Ok InformationReply
  | _ => Err Invalid
  end.

(** [u8::from(MessageType)] *)
Definition to_u8 (value : MessageType) : Z :=
  match value with
  | EchoReply => 0
  | DestinationUnreachable => 3
  | SourceQuench => 4
  | Redirect_ => 5
  | EchoRequest => 8
  | RouterAdvertisement => 9
  | RouterSolicitation => 10
  | TimeExceeded => 11
  | ParameterProblem => 12
  | Timestamp => 13
  | TimestampReply => 14
  | InformationRequest => 15
  | InformationReply => 16
  end.

End MessageType.

Module IcmpPacket.

Definition HEADER_LEN : Z := 8.

Definition check_len (buffer : list Z) : NetworkResult unit := then_ok (HEADER_LEN <=? len buffer) Invalid.
Definition new (buffer : list Z) : NetworkResult (list Z) := try_ (check_len buffer) (λ _, Ret (Ok buffer)).

Definition msg_type (buffer : list Z) : out MessageType := b ← index buffer 0; unwrap_ok (MessageType.try_from b).
Definition code (buffer : list Z) : out Z := index buffer 1.
Definition checksum (buffer : list Z) : out Z := get_u16 buffer 2 4.
Definition rest_of_header (buffer : list Z) : out Z := get_u32 buffer 4 8.
Definition echo_identity (buffer : list Z) : out (Z * Z) :=
  ident ← get_u16 buffer 4 6; sequence ← get_u16 buffer 6 8; mret (ident, sequence).
Definition payload (buffer : list Z) : out (list Z) := slice_from buffer HEADER_LEN.

Definition set_msg_type (value : MessageType) (buffer : list Z) : out (list Z) := set_index buffer 0 (MessageType.to_u8 value).
Definition set_code (value : Z) (buffer : list Z) : out (list Z) := set_index buffer 1 value.
Definition set_checksum (value : Z) (buffer : list Z) : out (list Z) := copy_from_slice buffer 2 4 (u16_to_inet_bytes value).
Definition set_rest_of_header (value : Z) (buffer : list Z) : out (list Z) := copy_from_slice buffer 4 8 (to_be_bytes 4 value).
Definition set_echo_identity (ident sequence : Z) (buffer : list Z) : out (list Z) :=
  buffer ← copy_from_slice buffer 4 6 (u16_to_inet_bytes ident);
  copy_from_slice buffer 6 8 (u16_to_inet_bytes sequence).
Definition payload_mut (f : list Z → out (list Z)) (buffer : list Z) : out (list Z) := on_payload HEADER_LEN f buffer.

Definition fill_checksum (buffer : list Z) : out (list Z) :=
  buffer ← set_checksum 0 buffer;
  cksum ← NetUtils.checksum buffer;
  set_checksum cksum buffer.

End IcmpPacket.

Module IcmpRepr.

Record t := mkRepr { msg_type : MessageType; code : Z; payload_len : Z }.

Definition parse (packet : list Z) : NetworkResult t :=
  try_ (IcmpPacket.check_len packet) (λ _,
    msg_type ← IcmpPacket.msg_type packet;
    code ← IcmpPacket.code packet;
    payload ← IcmpPacket.payload packet;
    Ret (Ok (mkRepr msg_type code (len payload)))).

Definition buffer_len (self : t) : out Z := add_w 64 IcmpPacket.HEADER_LEN (payload_len self).

Definition emit (self : t) (packet : list Z) : out (list Z) :=
  n ← buffer_len self;
  assert_ (n <=? len packet);;
  packet ← IcmpPacket.set_msg_type (msg_type self) packet;
  packet ← IcmpPacket.set_code (code self) packet;
  packet ← IcmpPacket.set_rest_of_header 0 packet;
  IcmpPacket.fill_checksum packet.

Definition typed (r : t) : Prop := is_uint 8 (code r) ∧ is_uint 64 (payload_len r).

End IcmpRepr.

(** ** Lemmas *)

Lemma msg_type_roundtrip t : MessageType.try_from (MessageType.to_u8 t) = Ok t.
Proof. by destruct t. Qed.
Lemma msg_type_u8 t : is_uint 8 (MessageType.to_u8 t).
Proof. by destruct t. Qed.

Lemma icmp_parse_cases packet :
  IcmpRepr.parse packet =
  if len packet <? 8 then Ret (Err Invalid)
  else match MessageType.try_from (byte_at packet 0) with
       | Ok t => Ret (Ok (IcmpRepr.mkRepr t (byte_at packet 1) (len packet - 8)))
       | Err _ => Panic
       end.
Proof.
  unfold IcmpRepr.parse, IcmpPacket.check_len, then_ok, IcmpPacket.HEADER_LEN.
  destruct (Z.ltb_spec (len packet) 8); [by rewrite (proj2 (Z.leb_gt _ _)) by lia |].
  rewrite (proj2 (Z.leb_le _ _)) by lia. cbn [try_].
  unfold IcmpPacket.msg_type, IcmpPacket.code, IcmpPacket.payload, IcmpPacket.HEADER_LEN. repeat buf_read.
  rewrite len_sub_list by lia. by destruct (MessageType.try_from _).
Qed.

(** The message is parsed into what was emitted, and its checksum is right. *)
Lemma icmp_emit_ok r packet :
  IcmpRepr.typed r → bytes packet → len packet = 8 + IcmpRepr.payload_len r → len packet ≤ 2 ^ 17 →
  ∃ packet', IcmpRepr.emit r packet = Ret packet' ∧ len packet' = len packet ∧ bytes packet' ∧
    IcmpRepr.parse packet' = Ret (Ok r) ∧ sub_list packet' 8 (len packet) = sub_list packet 8 (len packet) ∧
    internet_checksum packet' = 0.
Proof.
  intros [Hc [Hp _]] Hb Hlen Hmax. unfold IcmpRepr.emit, IcmpRepr.buffer_len, IcmpPacket.HEADER_LEN.
  rewrite add_w_ok by lia. cbn [mbind out_bind]. rewrite (proj2 (Z.leb_le _ _)) by lia. cbn [assert_ mbind out_bind].
  pose proof (msg_type_u8 (IcmpRepr.msg_type r)).
  unfold IcmpPacket.set_msg_type, IcmpPacket.set_code, IcmpPacket.set_rest_of_header, IcmpPacket.fill_checksum, IcmpPacket.set_checksum.
  do 4 buf_write. assert (bytes l2) by buf_bytes. rewrite checksum_ok by (done || buf_len). cbn [mbind out_bind]. buf_write.
  exists l3. split_and!; [done | by buf_back | buf_bytes | | by buf_back |].
  - rewrite icmp_parse_cases. buf_back. rewrite (proj2 (Z.ltb_ge _ _)), !byte_single by lia. rewrite msg_type_roundtrip.
    replace (len packet - 8) with (IcmpRepr.payload_len r) by lia. by destruct r.
  - eapply (checksum_written_all [] l2 l3 2 4); [by apply Forall_nil | done.. | buf_len | by buf_back | by left | done].
Qed.

Global Instance icmp_header : Header IcmpRepr.t := {| parse_hdr := IcmpRepr.parse; emit_hdr := IcmpRepr.emit |}.

Global Program Instance icmp_laws : HeaderLaws IcmpRepr.t := {|
  hdr_len := 8;
  valid r n := IcmpRepr.typed r ∧ n = 8 + IcmpRepr.payload_len r ∧ n ≤ 2 ^ 17;
  received r := r;
|}.
Next Obligation. lia. Qed.
Next Obligation. done. Qed.
Next Obligation.
  intros r b Hb (Hr & Hn & Hmax). assert (0 ≤ IcmpRepr.payload_len r) by apply Hr. split; [lia |].
  destruct (icmp_emit_ok r b) as (b' & ? & ? & ? & ? & ? & _); [done.. |]. by exists b'.
Qed.
Next Obligation.
  cbn [parse_hdr icmp_header]. intros r b b' Hb Hb' Hv Hl Hp Hr. rewrite <- Hr, !icmp_parse_cases. by buf_prefix Hp.
Qed.
