(* ===== verification/Udp.v ===== *)
(** * UDP packets

    [kernel/foundry/holonet/src/l4/udp.rs]: the view of a buffer as a datagram and the representation of
    its header. *)

From S2P Require Import Prelude NetUtils NetIface Ethernet Ip.

Module UdpPacket.

Definition HEADER_LEN : Z := 8.

Definition check_len (buffer : list Z) : NetworkResult unit := then_ok (HEADER_LEN <=? NetUtils.len buffer) Invalid.
Definition new (buffer : list Z) : NetworkResult (list Z) := try_ (check_len buffer) (λ _, Ret (Ok buffer)).

Definition src_port (buffer : list Z) : out Z := get_u16 buffer 0 2.
Definition dst_port (buffer : list Z) : out Z := get_u16 buffer 2 4.
Definition len (buffer : list Z) : out Z := get_u16 buffer 4 6.
Definition checksum (buffer : list Z) : out Z := get_u16 buffer 6 8.
Definition has_checksum (buffer : list Z) : out bool := c ← checksum buffer; mret (negb (c =? 0)).

(** [split_at(n).0] panics like [[..n]]. *)
Definition payload (buffer : list Z) : out (list Z) :=
  data ← slice_from buffer HEADER_LEN;
  n ← len buffer;
  slice data 0 (saturating_sub n HEADER_LEN).
Definition is_empty (buffer : list Z) : out bool := n ← len buffer; mret (n <=? HEADER_LEN).

Definition set_src_port (value : Z) (buffer : list Z) : out (list Z) := copy_from_slice buffer 0 2 (u16_to_inet_bytes value).
Definition set_dst_port (value : Z) (buffer : list Z) : out (list Z) := copy_from_slice buffer 2 4 (u16_to_inet_bytes value).
Definition set_len (value : Z) (buffer : list Z) : out (list Z) := copy_from_slice buffer 4 6 (u16_to_inet_bytes value).
Definition set_checksum (value : Z) (buffer : list Z) : out (list Z) := copy_from_slice buffer 6 8 (u16_to_inet_bytes value).

(** [f] on the slice that [payload_mut] borrows *)
Definition payload_mut (f : list Z → out (list Z)) (buffer : list Z) : out (list Z) :=
  n ← len buffer;
  let n := saturating_sub n HEADER_LEN in
  data ← slice_from buffer HEADER_LEN;
  p ← slice data 0 n;
  p' ← f p;
  copy_from_slice buffer HEADER_LEN (HEADER_LEN + n) p'.

Definition fill_checksum (src_addr dst_addr : Ipv4Addr.t) (buffer : list Z) : out (list Z) :=
  let pseudo := replicate 12 0 in
  pseudo ← copy_from_slice pseudo 0 4 (Ipv4Addr.octets src_addr);
  pseudo ← copy_from_slice pseudo 4 8 (Ipv4Addr.octets dst_addr);
  pseudo ← set_index pseudo 8 0;
  pseudo ← set_index pseudo 9 17;
  n ← len buffer;
  pseudo ← copy_from_slice pseudo 10 12 (u16_to_inet_bytes n);
  buffer ← set_checksum 0 buffer;
  cksum ← checksum_with_pseudo pseudo buffer;
  set_checksum (if cksum =? 0 then 0xFFFF else cksum) buffer.

End UdpPacket.

Module UdpRepr.

Record t := mkRepr { src_port : Z; dst_port : Z; payload_len : Z }.

Definition parse (packet : list Z) : NetworkResult t :=
  try_ (UdpPacket.check_len packet) (λ _,
    src_port ← UdpPacket.src_port packet;
    dst_port ← UdpPacket.dst_port packet;
    payload ← UdpPacket.payload packet;
    Ret (Ok (mkRepr src_port dst_port (len payload)))).

Definition buffer_len (self : t) : out Z := add_w 64 UdpPacket.HEADER_LEN (payload_len self).

Definition emit (self : t) (packet : list Z) : out (list Z) :=
  n ← buffer_len self;
  assert_ (n <=? len packet);;
  packet ← UdpPacket.set_src_port (src_port self) packet;
  packet ← UdpPacket.set_dst_port (dst_port self) packet;
  n ← add_w 64 UdpPacket.HEADER_LEN (payload_len self);
  n ← u16_of n;
  UdpPacket.set_len n packet.

Definition typed (r : t) : Prop := is_uint 16 (src_port r) ∧ is_uint 16 (dst_port r) ∧ is_uint 64 (payload_len r).

End UdpRepr.

(** ** Lemmas *)

Lemma udp_parse_cases packet :
  UdpRepr.parse packet =
  if len packet <? 8 then Ret (Err Invalid)
  else
    let n := saturating_sub (from_be_bytes (sub_list packet 4 6)) 8 in
    if len packet - 8 <? n then Panic
    else Ret (Ok (UdpRepr.mkRepr (from_be_bytes (sub_list packet 0 2)) (from_be_bytes (sub_list packet 2 4)) n)).
Proof.
  unfold UdpRepr.parse, UdpPacket.check_len, then_ok, UdpPacket.HEADER_LEN.
  destruct (Z.ltb_spec (len packet) 8); [by rewrite (proj2 (Z.leb_gt _ _)) by lia |].
  rewrite (proj2 (Z.leb_le _ _)) by lia. cbn [try_].
  unfold UdpPacket.src_port, UdpPacket.dst_port, UdpPacket.payload, UdpPacket.len, UdpPacket.HEADER_LEN. do 4 buf_read.
  cbn zeta. set (n := saturating_sub _ 8). assert (0 ≤ n) by (unfold n, saturating_sub; lia).
  assert (len (sub_list packet 8 (len packet)) = len packet - 8) as Hl by (rewrite len_sub_list; lia).
  destruct (Z.ltb_spec (len packet - 8) n).
  - unfold slice. rewrite Hl, (proj2 (Z.leb_gt n _)), andb_false_r by lia. done.
  - rewrite slice_ok by lia. cbn [mbind out_bind]. by rewrite len_sub_list, Z.sub_0_r by lia.
Qed.

Lemma udp_emit_ok r packet :
  UdpRepr.typed r → bytes packet → 8 + UdpRepr.payload_len r ≤ len packet → 8 + UdpRepr.payload_len r < 2 ^ 16 →
  ∃ packet', UdpRepr.emit r packet = Ret packet' ∧ len packet' = len packet ∧ bytes packet' ∧
    UdpRepr.parse packet' = Ret (Ok r) ∧ sub_list packet' 8 (len packet) = sub_list packet 8 (len packet).
Proof.
  intros (Hs & Hd & [Hp _]) Hb Hlen H16. unfold UdpRepr.emit, UdpRepr.buffer_len, UdpPacket.HEADER_LEN.
  rewrite add_w_ok by lia. cbn [mbind out_bind]. rewrite (proj2 (Z.leb_le _ _)) by lia. cbn [assert_ mbind out_bind].
  unfold UdpPacket.set_src_port, UdpPacket.set_dst_port, UdpPacket.set_len, u16_of. rewrite (proj2 (Z.ltb_lt _ _)) by lia.
  do 3 buf_write. exists l1. split_and!; [done | by buf_back | buf_bytes | | by buf_back].
  rewrite udp_parse_cases. buf_back. unfold u16_to_inet_bytes. rewrite !from_to_u16 by (done || split; lia).
  rewrite (proj2 (Z.ltb_ge _ _)) by lia. cbn zeta.
  replace (saturating_sub (8 + UdpRepr.payload_len r) 8) with (UdpRepr.payload_len r) by (unfold saturating_sub; lia).
  rewrite (proj2 (Z.ltb_ge _ _)) by lia. by destruct r.
Qed.

Global Instance udp_header : Header UdpRepr.t := {| parse_hdr := UdpRepr.parse; emit_hdr := UdpRepr.emit |}.

Global Program Instance udp_laws : HeaderLaws UdpRepr.t := {|
  hdr_len := 8;
  valid r n := UdpRepr.typed r ∧ 8 + UdpRepr.payload_len r ≤ n ∧ 8 + UdpRepr.payload_len r < 2 ^ 16;
  received r := r;
|}.
Next Obligation. lia. Qed.
Next Obligation. done. Qed.
Next Obligation.
  intros r b Hb (Hr & Hn & Hmax). assert (0 ≤ UdpRepr.payload_len r) by apply Hr. split; [lia |]. by apply udp_emit_ok.
Qed.
Next Obligation.
  cbn [parse_hdr udp_header]. intros r b b' Hb Hb' Hv Hl Hp Hr. rewrite <- Hr, !udp_parse_cases. by buf_prefix Hp.
Qed.

(** The pseudo-header of RFC 768 and RFC 793. *)
Definition pseudo_header (src_addr dst_addr protocol n : Z) : list Z :=
  Ipv4Addr.octets src_addr ++ Ipv4Addr.octets dst_addr ++ [0; protocol] ++ u16_to_inet_bytes n.

Lemma pseudo_header_ok s d p n :
  is_uint 8 p → bytes (pseudo_header s d p n) ∧ len (pseudo_header s d p n) = 12 ∧
  (pseudo ← copy_from_slice (replicate 12 0) 0 4 (Ipv4Addr.octets s);
   pseudo ← copy_from_slice pseudo 4 8 (Ipv4Addr.octets d);
   pseudo ← set_index pseudo 8 0;
   pseudo ← set_index pseudo 9 p;
   copy_from_slice pseudo 10 12 (u16_to_inet_bytes n)) = Ret (pseudo_header s d p n).
Proof.
  intros Hp. split_and!; [| done | done].
  repeat (apply Forall_app; split); try apply bytes_to_be. apply Forall_cons; split; [done |]. by apply Forall_singleton.
Qed.

(** A datagram with its checksum filled in passes the test of the receiver; the checksum is never zero,
    which would mean that there is none. *)
Lemma udp_fill_checksum_ok s d packet :
  bytes packet → 8 ≤ len packet → len packet ≤ 2 ^ 16 →
  ∃ packet', UdpPacket.fill_checksum s d packet = Ret packet' ∧ len packet' = len packet ∧ bytes packet' ∧
    sub_list packet' 0 6 = sub_list packet 0 6 ∧ sub_list packet' 8 (len packet) = sub_list packet 8 (len packet) ∧
    UdpPacket.has_checksum packet' = Ret true ∧
    internet_checksum (pseudo_header s d 17 (from_be_bytes (sub_list packet 4 6)) ++ packet') = 0.
Proof.
  intros Hb H8 Hmax. unfold UdpPacket.fill_checksum, UdpPacket.len. set (n := from_be_bytes (sub_list packet 4 6)).
  destruct (pseudo_header_ok s d 17 n) as (Hpb & Hpl & Hps); [done |]. set (ps := pseudo_header s d 17 n) in *.
  revert Hps. destruct (copy_from_slice _ 0 4 _) as [p1|]; [cbn [mbind out_bind] | done].
  destruct (copy_from_slice p1 4 8 _) as [p2|]; [cbn [mbind out_bind] | done].
  destruct (set_index p2 8 0) as [p3|]; [cbn [mbind out_bind] | done].
  destruct (set_index p3 9 17) as [p4|]; [cbn [mbind out_bind] | done]. intros Hps.
  buf_read. fold n. rewrite Hps. cbn [mbind out_bind]. unfold UdpPacket.set_checksum. buf_write.
  assert (bytes l) by buf_bytes. rewrite checksum_with_pseudo_ok by (done || (rewrite ?Hpl; done) || (rewrite Hpl; buf_len)).
  cbn [mbind out_bind]. set (ck := internet_checksum _). buf_write.
  assert (0 ≤ ck < 2 ^ 16).
  { subst ck. rewrite internet_checksum_norm by (by apply Forall_app).
    pose proof (norm_range (NetUtils.sum (words (ps ++ l)))).
    pose proof (sum_bound _ (words_bound (ps ++ l) ltac:(by apply Forall_app))). lia. }
  exists l0. split_and!; [done | by buf_back | buf_bytes | by buf_back | by buf_back | |].
  - unfold UdpPacket.has_checksum, UdpPacket.checksum. buf_read. buf_back. unfold u16_to_inet_bytes.
    rewrite from_to_u16 by (destruct (Z.eqb_spec ck 0); split; lia).
    by destruct (Z.eqb_spec ck 0) as [|Hne%Z.eqb_neq]; [| rewrite Hne].
  - eapply (checksum_written_all ps l l0 6 8); [done.. | buf_len | by buf_back | | done].
    unfold same_checksum. fold ck. destruct (Z.eqb_spec ck 0); lia.
Qed.
