(* ===== verification/Tcp.v ===== *)
(** * TCP packets

    [kernel/foundry/holonet/src/l4/tcp.rs]: the view of a buffer as a segment and the representation of
    its header. *)

From S2P Require Import Prelude NetUtils NetIface Ethernet Ip Udp.

(** [Flags] is its byte. *)
Module TcpFlags.

Definition t := Z.
Definition FIN : Z := 0x01.
Definition SYN : Z := 0x02.
Definition RST : Z := 0x04.
Definition PSH : Z := 0x08.
Definition ACK : Z := 0x10.
Definition URG : Z := 0x20.

Definition from_bits (value : Z) : t := Z.land value 0x3F.
Definition to_bits (self : t) : Z := self.
Definition fin (self : t) : bool := negb (Z.land self FIN =? 0).
Definition syn (self : t) : bool := negb (Z.land self SYN =? 0).
Definition rst (self : t) : bool := negb (Z.land self RST =? 0).
Definition psh (self : t) : bool := negb (Z.land self PSH =? 0).
Definition ack (self : t) : bool := negb (Z.land self ACK =? 0).
Definition urg (self : t) : bool := negb (Z.land self URG =? 0).

End TcpFlags.

Module TcpPacket.

Definition HEADER_LEN : Z := 20.

Definition check_len (buffer : list Z) : NetworkResult unit := then_ok (HEADER_LEN <=? len buffer) Invalid.
Definition new (buffer : list Z) : NetworkResult (list Z) := try_ (check_len buffer) (λ _, Ret (Ok buffer)).

Definition src_port (buffer : list Z) : out Z := get_u16 buffer 0 2.
Definition dst_port (buffer : list Z) : out Z := get_u16 buffer 2 4.
Definition seq_num (buffer : list Z) : out Z := get_u32 buffer 4 8.
Definition ack_num (buffer : list Z) : out Z := get_u32 buffer 8 12.
Definition data_offset (buffer : list Z) : out Z := b ← index buffer 12; mret (Z.shiftr b 4).
Definition header_len (buffer : list Z) : out Z := n ← data_offset buffer; mret (n * 4).
Definition flags (buffer : list Z) : out TcpFlags.t := b ← index buffer 13; mret (TcpFlags.from_bits b).
Definition window_size (buffer : list Z) : out Z := get_u16 buffer 14 16.
Definition checksum (buffer : list Z) : out Z := get_u16 buffer 16 18.
Definition urgent_ptr (buffer : list Z) : out Z := get_u16 buffer 18 20.
Definition payload (buffer : list Z) : out (list Z) := n ← header_len buffer; slice_from buffer n.
Definition is_syn (buffer : list Z) : out bool := f ← flags buffer; mret (TcpFlags.syn f).
Definition is_ack (buffer : list Z) : out bool := f ← flags buffer; mret (TcpFlags.ack f).
Definition is_fin (buffer : list Z) : out bool := f ← flags buffer; mret (TcpFlags.fin f).
Definition is_rst (buffer : list Z) : out bool := f ← flags buffer; mret (TcpFlags.rst f).
Definition is_psh (buffer : list Z) : out bool := f ← flags buffer; mret (TcpFlags.psh f).
Definition is_empty (buffer : list Z) : out bool := p ← payload buffer; mret (len p =? 0).

Definition set_src_port (value : Z) (buffer : list Z) : out (list Z) := copy_from_slice buffer 0 2 (u16_to_inet_bytes value).
Definition set_dst_port (value : Z) (buffer : list Z) : out (list Z) := copy_from_slice buffer 2 4 (u16_to_inet_bytes value).
Definition set_seq_num (value : Z) (buffer : list Z) : out (list Z) := copy_from_slice buffer 4 8 (u32_to_inet_bytes value).
Definition set_ack_num (value : Z) (buffer : list Z) : out (list Z) := copy_from_slice buffer 8 12 (u32_to_inet_bytes value).
Definition set_data_offset (value : Z) (buffer : list Z) : out (list Z) :=
  set_index buffer 12 (shl_w 8 (Z.land value 0x0F) 4).
Definition set_flags (flags : TcpFlags.t) (buffer : list Z) : out (list Z) := set_index buffer 13 (TcpFlags.to_bits flags).
Definition set_window_size (value : Z) (buffer : list Z) : out (list Z) := copy_from_slice buffer 14 16 (u16_to_inet_bytes value).
Definition set_checksum (value : Z) (buffer : list Z) : out (list Z) := copy_from_slice buffer 16 18 (u16_to_inet_bytes value).
Definition set_urgent_ptr (value : Z) (buffer : list Z) : out (list Z) := copy_from_slice buffer 18 20 (u16_to_inet_bytes value).
Definition payload_mut (f : list Z → out (list Z)) (buffer : list Z) : out (list Z) :=
  n ← header_len buffer; on_payload n f buffer.

Definition fill_checksum (src_addr dst_addr : Ipv4Addr.t) (buffer : list Z) : out (list Z) :=
  let pseudo := replicate 12 0 in
  pseudo ← copy_from_slice pseudo 0 4 (Ipv4Addr.octets src_addr);
  pseudo ← copy_from_slice pseudo 4 8 (Ipv4Addr.octets dst_addr);
  pseudo ← set_index pseudo 8 0;
  pseudo ← set_index pseudo 9 6;
  n ← header_len buffer;
  p ← payload buffer;
  total_len ← add_w 64 n (len p);
  total_len ← u16_of total_len;
  pseudo ← copy_from_slice pseudo 10 12 (u16_to_inet_bytes total_len);
  buffer ← set_checksum 0 buffer;
  cksum ← checksum_with_pseudo pseudo buffer;
  set_checksum cksum buffer.

End TcpPacket.

Module TcpRepr.

Record t := mkRepr {
  src_port : Z;
  dst_port : Z;
  seq_num : Z;
  ack_num : Z;
  flags : TcpFlags.t;
  window_size : Z;
  payload_len : Z;
}.

Definition parse (packet : list Z) : NetworkResult t :=
  try_ (TcpPacket.check_len packet) (λ _,
    src_port ← TcpPacket.src_port packet;
    dst_port ← TcpPacket.dst_port packet;
    seq_num ← TcpPacket.seq_num packet;
    ack_num ← TcpPacket.ack_num packet;
    flags ← TcpPacket.flags packet;
    window_size ← TcpPacket.window_size packet;
    payload ← TcpPacket.payload packet;
    Ret (Ok (mkRepr src_port dst_port seq_num ack_num flags window_size (len payload)))).

Definition buffer_len (self : t) : out Z := add_w 64 TcpPacket.HEADER_LEN (payload_len self).

Definition emit (self : t) (packet : list Z) : out (list Z) :=
  n ← buffer_len self;
  assert_ (n <=? len packet);;
  packet ← TcpPacket.set_src_port (src_port self) packet;
  packet ← TcpPacket.set_dst_port (dst_port self) packet;
  packet ← TcpPacket.set_seq_num (seq_num self) packet;
  packet ← TcpPacket.set_ack_num (ack_num self) packet;
  packet ← TcpPacket.set_data_offset 5 packet;
  packet ← TcpPacket.set_flags (flags self) packet;
  packet ← TcpPacket.set_window_size (window_size self) packet;
  TcpPacket.set_urgent_ptr 0 packet.

(** A value of type [Flags] has none of the two upper bits: [from_bits] is the only way to make one. *)
Definition typed (r : t) : Prop :=
  is_uint 16 (src_port r) ∧ is_uint 16 (dst_port r) ∧ is_uint 32 (seq_num r) ∧ is_uint 32 (ack_num r) ∧
  is_uint 6 (flags r) ∧ is_uint 16 (window_size r) ∧ is_uint 64 (payload_len r).

End TcpRepr.

(** ** Lemmas *)

Lemma tcp_parse_cases packet :
  bytes packet →
  TcpRepr.parse packet =
  if len packet <? 20 then Ret (Err Invalid)
  else
    let n := Z.shiftr (byte_at packet 12) 4 * 4 in
    if len packet <? n then Panic
    else Ret (Ok (TcpRepr.mkRepr (from_be_bytes (sub_list packet 0 2)) (from_be_bytes (sub_list packet 2 4))
           (from_be_bytes (sub_list packet 4 8)) (from_be_bytes (sub_list packet 8 12)) (Z.land (byte_at packet 13) 0x3F)
           (from_be_bytes (sub_list packet 14 16)) (len packet - n))).
Proof.
  intros Hb. unfold TcpRepr.parse, TcpPacket.check_len, then_ok, TcpPacket.HEADER_LEN.
  destruct (Z.ltb_spec (len packet) 20); [by rewrite (proj2 (Z.leb_gt _ _)) by lia |].
  rewrite (proj2 (Z.leb_le _ _)) by lia. cbn [try_].
  unfold TcpPacket.src_port, TcpPacket.dst_port, TcpPacket.seq_num, TcpPacket.ack_num, TcpPacket.flags,
    TcpPacket.window_size, TcpPacket.payload, TcpPacket.header_len, TcpPacket.data_offset.
  do 7 buf_read. unfold mret, out_ret. cbn [mbind out_bind]. cbn zeta. set (n := Z.shiftr _ 4 * 4).
  assert (0 ≤ n).
  { subst n. pose proof (byte_at_u8 packet 12 Hb) as [? _]. pose proof (Z.shiftr_nonneg (byte_at packet 12) 4). lia. }
  destruct (Z.ltb_spec (len packet) n).
  - unfold slice_from, slice. by rewrite (proj2 (Z.leb_gt _ _)) by lia.
  - buf_read. by rewrite len_sub_list by lia.
Qed.

Lemma tcp_emit_ok r packet :
  TcpRepr.typed r → bytes packet → len packet = 20 + TcpRepr.payload_len r → len packet < 2 ^ 64 →
  ∃ packet', TcpRepr.emit r packet = Ret packet' ∧ len packet' = len packet ∧ bytes packet' ∧
    TcpRepr.parse packet' = Ret (Ok r) ∧ sub_list packet' 20 (len packet) = sub_list packet 20 (len packet).
Proof.
  intros (Hs & Hd & Hsq & Hak & Hf & Hw & [Hp _]) Hb Hlen H64. unfold TcpRepr.emit, TcpRepr.buffer_len, TcpPacket.HEADER_LEN.
  rewrite add_w_ok by lia. cbn [mbind out_bind]. rewrite (proj2 (Z.leb_le _ _)) by lia. cbn [assert_ mbind out_bind].
  unfold TcpPacket.set_src_port, TcpPacket.set_dst_port, TcpPacket.set_seq_num, TcpPacket.set_ack_num,
    TcpPacket.set_data_offset, TcpPacket.set_flags, TcpPacket.set_window_size, TcpPacket.set_urgent_ptr, TcpFlags.to_bits.
  assert (is_uint 8 (TcpRepr.flags r)) by (unfold is_uint in *; lia).
  do 8 buf_write. exists l6. assert (bytes l6) by buf_bytes. split_and!; [done | by buf_back | done | | by buf_back].
  rewrite tcp_parse_cases by done. buf_back. unfold u16_to_inet_bytes, u32_to_inet_bytes.
  rewrite !byte_single by done. rewrite !from_to_u16, !from_to_u32 by done.
  rewrite (proj2 (Z.ltb_ge _ _)) by lia. cbn zeta. change (Z.shiftr (shl_w 8 (Z.land 5 15) 4) 4 * 4) with 20.
  rewrite (proj2 (Z.ltb_ge _ _)) by lia. change 63 with (2 ^ 6 - 1). rewrite land_mask, Z.mod_small by done || apply Hf.
  replace (len packet - 20) with (TcpRepr.payload_len r) by lia. by destruct r.
Qed.

Global Instance tcp_header : Header TcpRepr.t := {| parse_hdr := TcpRepr.parse; emit_hdr := TcpRepr.emit |}.

Global Program Instance tcp_laws : HeaderLaws TcpRepr.t := {|
  hdr_len := 20;
  valid r n := TcpRepr.typed r ∧ n = 20 + TcpRepr.payload_len r ∧ n < 2 ^ 64;
  received r := r;
|}.
Next Obligation. lia. Qed.
Next Obligation. done. Qed.
Next Obligation.
  intros r b Hb (Hr & Hn & Hmax). assert (0 ≤ TcpRepr.payload_len r) by apply Hr. split; [lia |]. by apply tcp_emit_ok.
Qed.
Next Obligation.
  cbn [parse_hdr tcp_header]. intros r b b' Hb Hb' Hv Hl Hp Hr. rewrite <- Hr, !tcp_parse_cases by done. by buf_prefix Hp.
Qed.

(** A segment whose data starts within the buffer, with its checksum filled in, passes the test of the receiver. *)
Lemma tcp_fill_checksum_ok s d packet :
  bytes packet → 20 ≤ len packet → len packet < 2 ^ 16 → Z.shiftr (byte_at packet 12) 4 * 4 ≤ len packet →
  ∃ packet', TcpPacket.fill_checksum s d packet = Ret packet' ∧ len packet' = len packet ∧ bytes packet' ∧
    sub_list packet' 0 16 = sub_list packet 0 16 ∧ sub_list packet' 18 (len packet) = sub_list packet 18 (len packet) ∧
    internet_checksum (pseudo_header s d 6 (len packet) ++ packet') = 0.
Proof.
  intros Hb H20 Hmax Hoff. unfold TcpPacket.fill_checksum.
  destruct (pseudo_header_ok s d 6 (len packet)) as (Hpb & Hpl & Hps); [done |]. set (ps := pseudo_header s d 6 _) in *.
  revert Hps. destruct (copy_from_slice _ 0 4 _) as [p1|]; [cbn [mbind out_bind] | done].
  destruct (copy_from_slice p1 4 8 _) as [p2|]; [cbn [mbind out_bind] | done].
  destruct (set_index p2 8 0) as [p3|]; [cbn [mbind out_bind] | done].
  destruct (set_index p3 9 6) as [p4|]; [cbn [mbind out_bind] | done]. intros Hps.
  unfold TcpPacket.payload, TcpPacket.header_len, TcpPacket.data_offset. buf_read. unfold mret, out_ret. cbn [mbind out_bind].
  set (n := Z.shiftr _ 4 * 4) in *.
  assert (0 ≤ n).
  { subst n. pose proof (byte_at_u8 packet 12 Hb) as [? _]. pose proof (Z.shiftr_nonneg (byte_at packet 12) 4). lia. }
  buf_read. rewrite len_sub_list, add_w_ok by lia. cbn [mbind out_bind].
  replace (n + (len packet - n)) with (len packet) by lia. unfold u16_of. rewrite (proj2 (Z.ltb_lt _ _)) by lia.
  cbn [mbind out_bind]. rewrite Hps. cbn [mbind out_bind]. unfold TcpPacket.set_checksum. buf_write.
  assert (bytes l) by buf_bytes. rewrite checksum_with_pseudo_ok by (done || (rewrite ?Hpl; done) || (rewrite Hpl; buf_len)).
  cbn [mbind out_bind]. buf_write.
  exists l0. split_and!; [done | by buf_back | buf_bytes | by buf_back | by buf_back |].
  eapply (checksum_written_all ps l l0 16 18); [done.. | buf_len | by buf_back | by left | done].
Qed.
