(* ===== verification/NetWire.v ===== *)
(** * The formats of the protocols

    What the standards say about the bytes of a packet, written down apart from the code of [holonet],
    and what its parsers find in such a packet.  The fields that the parsers do not look at, such as
    checksums and options, have any values. *)

From S2P Require Import Prelude NetUtils NetIface Ethernet Ip Arp Icmp Udp Tcp.

(** ** Assigned numbers *)

Definition ethertype_number (t : EtherType) : Z := match t with IpV4 => 0x0800 | Arp => 0x0806 | IpV6 => 0x86DD end.

Definition protocol_number (p : Protocol) : Z := match p with Icmp => 1 | Igmp => 2 | Tcp => 6 | Udp => 17 end.

Definition opcode (op : Operation) : Z := match op with Request => 1 | Reply => 2 end.

Definition icmp_number (t : MessageType) : Z :=
  match t with
  | EchoReply => 0 | DestinationUnreachable => 3 | SourceQuench => 4 | Redirect_ => 5 | EchoRequest => 8
  | RouterAdvertisement => 9 | RouterSolicitation => 10 | TimeExceeded => 11 | ParameterProblem => 12
  | Timestamp => 13 | TimestampReply => 14 | InformationRequest => 15 | InformationReply => 16
  end.

(** ** Formats *)

(** A number of [n] bytes, the most significant one first *)
Local Abbreviation be := to_be_bytes.

(** IEEE 802.3 *)
Definition ethernet_frame (dst src : list Z) (t : EtherType) (payload : list Z) : list Z :=
  dst ++ src ++ be 2 (ethertype_number t) ++ payload.

(** RFC 826 *)
Definition arp_packet (op : Operation) (sha : list Z) (spa : Z) (tha : list Z) (tpa : Z) (rest : list Z) : list Z :=
  be 2 1 ++ be 2 0x0800 ++ [6; 4] ++ be 2 (opcode op) ++ sha ++ be 4 spa ++ tha ++ be 4 tpa ++ rest.

(** RFC 791: [ihl] is the length of the header in words, [flags] three bits, [fragment] thirteen. *)
Definition ipv4_packet (ihl tos total id flags fragment ttl : Z) (p : Protocol) (checksum src dst : Z)
    (options payload : list Z) : list Z :=
  [4 * 2 ^ 4 + ihl; tos] ++ be 2 total ++ be 2 id ++ be 2 (flags * 2 ^ 13 + fragment) ++ [ttl; protocol_number p] ++
  be 2 checksum ++ be 4 src ++ be 4 dst ++ options ++ payload.

(** The most significant flag is reserved, the next ones are don't-fragment and more-fragments. *)
Definition ipv4_flags (flags : Z) : IpFlags.t := IpFlags.mk (Z.testbit flags 2) (Z.testbit flags 1) (Z.testbit flags 0).

(** RFC 792 *)
Definition icmp_message (t : MessageType) (code checksum rest : Z) (payload : list Z) : list Z :=
  [icmp_number t; code] ++ be 2 checksum ++ be 4 rest ++ payload.

(** RFC 768: [data] is followed by bytes that do not belong to the datagram. *)
Definition udp_datagram (src dst checksum : Z) (data rest : list Z) : list Z :=
  be 2 src ++ be 2 dst ++ be 2 (8 + len data) ++ be 2 checksum ++ data ++ rest.

(** RFC 9293: [offset] is the length of the header in words, [flags] the eight control bits. *)
Definition tcp_segment (src dst seq ack offset reserved flags window checksum urgent : Z) (options payload : list Z) : list Z :=
  be 2 src ++ be 2 dst ++ be 4 seq ++ be 4 ack ++ [offset * 2 ^ 4 + reserved; flags] ++ be 2 window ++ be 2 checksum ++
  be 2 urgent ++ options ++ payload.

(** ** What the parsers find *)

(** A list of six bytes *)
Ltac six l H := destruct l as [|? [|? [|? [|? [|? [|? [|? ?]]]]]]]; try (exfalso; unfold len in H; cbn [length] in H; lia).

(** The length of a packet of fields *)
Ltac fields_len := rewrite ?len_app, ?len_to_be; repeat match goal with |- context [len [?x; ?y]] => change (len [x; y]) with 2 end.

Lemma ethernet_fields dst src t payload :
  MacAddress.valid dst → MacAddress.valid src →
  Ethernet.parse (ethernet_frame dst src t payload) = Ret (Ok (Ethernet.mkRepr src dst t)).
Proof.
  intros [_ Hd] [_ Hs]. rewrite ethernet_parse_cases. pose proof (len_nonneg payload).
  assert (len (ethernet_frame dst src t payload) = 14 + len payload) as ->.
  { unfold ethernet_frame. fields_len. lia. }
  rewrite (proj2 (Z.ltb_ge _ _)) by lia. unfold ethernet_frame. six dst Hd. six src Hs. by destruct t.
Qed.

Lemma arp_fields op sha spa tha tpa rest :
  MacAddress.valid sha → MacAddress.valid tha → is_uint 32 spa → is_uint 32 tpa → bytes rest →
  ArpRepr.parse (arp_packet op sha spa tha tpa rest) = Ret (Ok (ArpRepr.EthernetIpv4 op sha spa tha tpa)).
Proof.
  intros [Hsb Hs] [Htb Ht] Hspa Htpa Hr. pose proof (len_nonneg rest).
  assert (len (arp_packet op sha spa tha tpa rest) = 28 + len rest) as Hl by (unfold arp_packet; fields_len; lia).
  rewrite arp_parse_cases, Hl.
  2: { unfold arp_packet. repeat (apply Forall_app; split); try apply bytes_to_be; try done. by repeat constructor. }
  unfold arp_packet. six sha Hs. six tha Ht.
  cbn zeta. rewrite (proj2 (Z.ltb_ge _ _)) by lia.
  match goal with |- context [28 + len rest <? ?e] => change e with 28 end. rewrite (proj2 (Z.ltb_ge _ _)) by lia.
  rewrite <- (from_to_u32 spa Hspa) at 2. rewrite <- (from_to_u32 tpa Htpa) at 2. by destruct op.
Qed.

Lemma ipv4_flags_ok b : 0 ≤ b < 2 ^ 8 → IpFlags.from_bits b = ipv4_flags (b / 2 ^ 5).
Proof.
  intros Hb. assert (∀ i, 0 ≤ i → negb (Z.land b (2 ^ i) =? 0) = Z.testbit b i) as Ht.
  { intros i Hi. destruct (Z.testbit b i) eqn:E.
    - apply negb_true_iff, Z.eqb_neq. intros H0. apply (f_equal (λ z, Z.testbit z i)) in H0.
      rewrite Z.land_spec, E, Z.pow2_bits_true, Z.testbit_0_l in H0 by done. done.
    - apply negb_false_iff, Z.eqb_eq. apply Z.bits_inj'. intros j Hj. rewrite Z.land_spec, Z.testbit_0_l.
      destruct (decide (j = i)) as [->|]; [by rewrite E | by rewrite Z.pow2_bits_false, andb_false_r by lia]. }
  unfold IpFlags.from_bits, ipv4_flags. change 0x80 with (2 ^ 7). change 0x40 with (2 ^ 6). change 0x20 with (2 ^ 5) at 1.
  rewrite (Ht 7), (Ht 6), (Ht 5), !Z.div_pow2_bits by lia. done.
Qed.

Lemma ipv4_fields ihl tos total id flags fragment ttl p checksum src dst options payload :
  is_uint 3 flags → is_uint 13 fragment → is_uint 32 src → is_uint 32 dst →
  5 ≤ ihl < 2 ^ 4 → len options = 4 * (ihl - 5) →
  Ip.parse (ipv4_packet ihl tos total id flags fragment ttl p checksum src dst options payload)
  = Ret (Ok (Ip.mkRepr src dst p (len payload) ttl (ipv4_flags flags))).
Proof.
  intros Hf Hfr Hs Hd Hihl Ho. pose proof (len_nonneg payload).
  set (w := ipv4_packet _ _ _ _ _ _ _ _ _ _ _ _ _).
  assert (len w = 20 + len options + len payload) as Hl by (unfold w, ipv4_packet; fields_len; lia).
  rewrite ip_parse_cases, Hl, (proj2 (Z.ltb_ge _ _)) by lia.
  change (byte_at w 0) with (4 * 2 ^ 4 + ihl). change (byte_at w 9) with (protocol_number p). change (byte_at w 8) with ttl.
  change (byte_at w 6) with ((flags * 2 ^ 13 + fragment) / 2 ^ 8 mod 2 ^ 8).
  change (sub_list w 12 16) with (be 4 src). change (sub_list w 16 20) with (be 4 dst). rewrite !from_to_u32 by done.
  rewrite Z.shiftr_div_pow2 by lia. change 15 with (2 ^ 4 - 1). rewrite land_mask by lia.
  replace ((4 * 2 ^ 4 + ihl) / 2 ^ 4) with 4 by (Z.div_mod_to_equations; lia).
  replace ((4 * 2 ^ 4 + ihl) mod 2 ^ 4) with ihl by (Z.div_mod_to_equations; lia). cbn [negb Z.eqb Pos.eqb].
  replace (Protocol.try_from (protocol_number p)) with (Ok (E:=NetworkError) p) by (by destruct p).
  cbn zeta. rewrite (proj2 (Z.ltb_ge _ _)) by lia. unfold is_uint in Hf, Hfr.
  rewrite ipv4_flags_ok by (apply Z.mod_pos_bound; lia). do 3 f_equal; [lia|]. f_equal. Z.div_mod_to_equations. lia.
Qed.

Lemma icmp_fields t code checksum rest payload :
  IcmpRepr.parse (icmp_message t code checksum rest payload) = Ret (Ok (IcmpRepr.mkRepr t code (len payload))).
Proof.
  pose proof (len_nonneg payload). set (w := icmp_message _ _ _ _ _).
  assert (len w = 8 + len payload) as Hl by (unfold w, icmp_message; fields_len; lia).
  rewrite icmp_parse_cases, Hl, (proj2 (Z.ltb_ge _ _)) by lia. change (byte_at w 0) with (icmp_number t). change (byte_at w 1) with code.
  replace (8 + len payload - 8) with (len payload) by lia. by destruct t.
Qed.

Lemma udp_fields src dst checksum data rest :
  is_uint 16 src → is_uint 16 dst → 8 + len data < 2 ^ 16 →
  UdpRepr.parse (udp_datagram src dst checksum data rest) = Ret (Ok (UdpRepr.mkRepr src dst (len data))).
Proof.
  intros Hs Hd Hn. pose proof (len_nonneg data). pose proof (len_nonneg rest). set (w := udp_datagram _ _ _ _ _).
  assert (len w = 8 + len data + len rest) as Hl by (unfold w, udp_datagram; fields_len; lia).
  rewrite udp_parse_cases, Hl, (proj2 (Z.ltb_ge _ _)) by lia.
  change (sub_list w 0 2) with (be 2 src). change (sub_list w 2 4) with (be 2 dst). change (sub_list w 4 6) with (be 2 (8 + len data)).
  rewrite !from_to_u16 by (done || split; lia). cbn zeta.
  replace (saturating_sub (8 + len data) 8) with (len data) by (unfold saturating_sub; lia). by rewrite (proj2 (Z.ltb_ge _ _)) by lia.
Qed.

Lemma tcp_fields src dst seq ack offset reserved flags window checksum urgent options payload :
  is_uint 16 src → is_uint 16 dst → is_uint 32 seq → is_uint 32 ack → is_uint 4 reserved → is_uint 8 flags →
  is_uint 16 window → bytes options → bytes payload → 5 ≤ offset < 2 ^ 4 → len options = 4 * (offset - 5) →
  TcpRepr.parse (tcp_segment src dst seq ack offset reserved flags window checksum urgent options payload)
  = Ret (Ok (TcpRepr.mkRepr src dst seq ack (flags mod 2 ^ 6) window (len payload))).
Proof.
  intros Hs Hd Hsq Ha Hrs Hfl Hw Hob Hpb Hoff Ho. pose proof (len_nonneg payload). set (w := tcp_segment _ _ _ _ _ _ _ _ _ _ _ _).
  assert (len w = 20 + len options + len payload) as Hl by (unfold w, tcp_segment; fields_len; lia). unfold is_uint in Hrs.
  rewrite tcp_parse_cases, Hl, (proj2 (Z.ltb_ge _ _)); [|lia|].
  2: { unfold w, tcp_segment. repeat (apply Forall_app; split); try apply bytes_to_be; try done.
       apply Forall_cons; split; [split; lia | by apply Forall_singleton]. }
  change (byte_at w 12) with (offset * 2 ^ 4 + reserved). change (byte_at w 13) with flags.
  change (sub_list w 0 2) with (be 2 src). change (sub_list w 2 4) with (be 2 dst). change (sub_list w 4 8) with (be 4 seq).
  change (sub_list w 8 12) with (be 4 ack). change (sub_list w 14 16) with (be 2 window). rewrite !from_to_u16, !from_to_u32 by done.
  rewrite Z.shiftr_div_pow2 by lia. replace ((offset * 2 ^ 4 + reserved) / 2 ^ 4) with offset by (Z.div_mod_to_equations; lia).
  cbn zeta. rewrite (proj2 (Z.ltb_ge _ _)) by lia. change 63 with (2 ^ 6 - 1). rewrite land_mask by lia. do 3 f_equal. lia.
Qed.
