(* ===== verification/NetStack.v ===== *)
(** * The protocols of the network stack together

    Frames of [holonet] with the headers of several protocols, the outcomes of parsing received
    bytes, and the checksums. *)

From S2P Require Import Prelude NetUtils NetIface Ethernet Ip Arp Icmp Udp Tcp NetWire.

(** A header [r] that is emitted into [b] is parsed from the result as [r'], and what follows it is unchanged. *)
Definition roundtrips {R} `{HeaderLaws R} (r r' : R) (b : list Z) : Prop :=
  ∃ b', emit_hdr r b = Ret b' ∧ len b' = len b ∧ bytes b' ∧ parse_hdr b' = Ret (Ok r') ∧
    sub_list b' (hdr_len R) (len b) = sub_list b (hdr_len R) (len b).

Lemma roundtrips_valid {R} `{HeaderLaws R} (r r' : R) b :
  bytes b → r' = received r → valid r (len b) → roundtrips r r' b.
Proof. intros Hb -> Hv. by destruct (emit_law r b Hb Hv) as [_ ?]. Qed.

(** An IPv4 header for [n] bytes of payload. *)
Definition ip_valid (i : Ip.Repr) (n : Z) : Prop := Ip.typed i ∧ Ip.payload_len i = n ∧ n < 2 ^ 16 - 20.

(** What is left of an IPv4 header: its flags are lost. *)
Definition unflagged (i : Ip.Repr) : Ip.Repr := Ip.with_flags i IpFlags.none.

(** ** Claims *)

(** C11: frames are parsed into what was emitted, but for the flags of an IPv4 header.  An Ethernet
    header, in its payload an ARP packet or an IPv4 header, in whose payload a UDP, TCP or ICMP header:
    emitting the headers one into the payload of the other succeeds, all of them are parsed back, with no
    flags in the IPv4 header, and the data behind the last one is unchanged.  The flags of an IPv4 header that is
    emitted are found in its fragment offset. *)
Theorem network_frames_roundtrip (e : Ethernet.Repr) (b : list Z) :
  bytes b → Ethernet.valid e →
  (∀ a, ArpRepr.typed a → 42 ≤ len b → roundtrips (e, a) (e, a) b) ∧
  (∀ i, ip_valid i (len b - 34) → 34 ≤ len b →
    roundtrips (e, i) (e, unflagged i) b ∧
    (∃ p, Ip.emit i (sub_list b 14 (len b)) = Ret p ∧ IpPacket.fragment_offset p = Ret (misplaced (Ip.flags i))) ∧
    (∀ u, UdpRepr.typed u → 42 + UdpRepr.payload_len u ≤ len b → roundtrips (e, (i, u)) (e, (unflagged i, u)) b) ∧
    (∀ t, TcpRepr.typed t → 54 + TcpRepr.payload_len t = len b → roundtrips (e, (i, t)) (e, (unflagged i, t)) b) ∧
    (∀ c, IcmpRepr.typed c → 42 + IcmpRepr.payload_len c = len b → roundtrips (e, (i, c)) (e, (unflagged i, c)) b)).
Proof.
  intros Hb He. split.
  - intros a Ha Hl. apply roundtrips_valid; [done | done |]. cbn. split_and!; (done || lia).
  - intros i (Hi & Hn & Hmax) Hl. split; [|split].
    2: { destruct (ip_emit_ok i (sub_list b 14 (len b))) as (p & Ep & Hp); [done | by apply bytes_sub | rewrite len_sub_list; lia | lia |].
         exists p. split; [done | apply Hp]. }
    { apply roundtrips_valid; [done | done |]. cbn. split_and!; (done || lia). }
    split_and!; intros h Ht Hlen; (apply roundtrips_valid; [done | done |]); cbn; split_and!; (done || lia).
Qed.

Definition demo_ethernet : Ethernet.Repr := Ethernet.mkRepr [2; 0; 0; 0; 0; 1] [2; 0; 0; 0; 0; 2] IpV4.
Definition demo_ip (n : Z) : Ip.Repr := Ip.mkRepr 0xC0A80001 0xC0A80002 Udp n 64 (IpFlags.mk false true false).

Lemma network_frames_roundtrip_witness :
  roundtrips (demo_ethernet, (demo_ip 12, UdpRepr.mkRepr 53 4660 4))
    (demo_ethernet, (unflagged (demo_ip 12), UdpRepr.mkRepr 53 4660 4)) (replicate 46 7).
Proof.
  assert (bytes (replicate 46 7)) as Hb by (apply Forall_replicate; done).
  assert (Ethernet.valid demo_ethernet) as He.
  { split; (split; [| done]); repeat (apply Forall_cons; split; [done |]); by apply Forall_nil. }
  destruct (network_frames_roundtrip demo_ethernet (replicate 46 7) Hb He) as [_ H].
  destruct (H (demo_ip 12)) as (_ & _ & Hu & _); [by repeat split | done |].
  apply Hu; [by repeat split | done].
Defined.

(** The checksums that are filled in are those that a receiver expects: the Internet checksum of an
    emitted IPv4 header and of an emitted ICMP message is zero, and so is that of a UDP datagram or TCP
    segment behind its pseudo-header.  The checksum of a datagram is not the zero that means that it has
    none.  Filling in a checksum changes nothing else. *)
Theorem network_checksums (s d : Ipv4Addr.t) (b : list Z) :
  bytes b → 20 ≤ len b < 2 ^ 16 →
  (∀ i, Ip.typed i → 20 + Ip.payload_len i ≤ len b →
    ∃ b', Ip.emit i b = Ret b' ∧ internet_checksum (sub_list b' 0 20) = 0) ∧
  (∀ c, IcmpRepr.typed c → 8 + IcmpRepr.payload_len c = len b →
    ∃ b', IcmpRepr.emit c b = Ret b' ∧ internet_checksum b' = 0) ∧
  (∃ b', UdpPacket.fill_checksum s d b = Ret b' ∧ UdpPacket.has_checksum b' = Ret true ∧
    internet_checksum (pseudo_header s d 17 (from_be_bytes (sub_list b 4 6)) ++ b') = 0 ∧
    sub_list b' 0 6 = sub_list b 0 6 ∧ sub_list b' 8 (len b) = sub_list b 8 (len b)) ∧
  (Z.shiftr (byte_at b 12) 4 * 4 ≤ len b →
    ∃ b', TcpPacket.fill_checksum s d b = Ret b' ∧ internet_checksum (pseudo_header s d 6 (len b) ++ b') = 0 ∧
    sub_list b' 0 16 = sub_list b 0 16 ∧ sub_list b' 18 (len b) = sub_list b 18 (len b)).
Proof.
  intros Hb Hl. split_and!.
  - intros i Hi Hn. destruct (ip_emit_ok i b) as (b' & ? & [? ? ? ? ? ? ?]); [done | done | lia | lia |]. by exists b'.
  - intros c Hc Hn. destruct (icmp_emit_ok c b) as (b' & ? & ? & ? & ? & ? & ?); [done | done | lia | lia |]. by exists b'.
  - destruct (udp_fill_checksum_ok s d b) as (b' & ? & ? & ? & ? & ? & ? & ?); [done | lia | lia |]. by exists b'.
  - intros. destruct (tcp_fill_checksum_ok s d b) as (b' & ? & ? & ? & ? & ? & ?); [done | lia | lia | done |]. by exists b'.
Qed.

Lemma network_checksums_witness :
  ∃ b', UdpPacket.fill_checksum 0xC0A80001 0xC0A80002 (replicate 20 7) = Ret b' ∧ UdpPacket.has_checksum b' = Ret true.
Proof.
  destruct (network_checksums 0xC0A80001 0xC0A80002 (replicate 20 7)) as (_ & _ & (b' & H1 & H2 & _) & _);
    [by apply Forall_replicate | done |].
  by exists b'.
Defined.

(** C37: the parsers read the formats of the standards.  From every Ethernet frame, ARP packet, IPv4 packet,
    ICMP message, UDP datagram and TCP segment of the kinds that the code knows they get the values of its
    fields: the addresses and ports of source and destination each in their place, the numbers in network
    byte order, the bits of the flags, and the length of the payload behind the options.  Fields that are
    not looked at have any values.  The payload of an IPv4 packet is all that follows the header, whatever
    total length it declares. *)
Theorem network_parse_fields :
  (∀ dst src t payload, MacAddress.valid dst → MacAddress.valid src →
    Ethernet.parse (ethernet_frame dst src t payload) = Ret (Ok (Ethernet.mkRepr src dst t))) ∧
  (∀ op sha spa tha tpa rest,
    MacAddress.valid sha → MacAddress.valid tha → is_uint 32 spa → is_uint 32 tpa → bytes rest →
    ArpRepr.parse (arp_packet op sha spa tha tpa rest) = Ret (Ok (ArpRepr.EthernetIpv4 op sha spa tha tpa))) ∧
  (∀ ihl tos total id flags fragment ttl p checksum src dst options payload,
    is_uint 3 flags → is_uint 13 fragment → is_uint 32 src → is_uint 32 dst → 5 ≤ ihl < 2 ^ 4 → len options = 4 * (ihl - 5) →
    Ip.parse (ipv4_packet ihl tos total id flags fragment ttl p checksum src dst options payload)
    = Ret (Ok (Ip.mkRepr src dst p (len payload) ttl (ipv4_flags flags)))) ∧
  (∀ t code checksum rest payload,
    IcmpRepr.parse (icmp_message t code checksum rest payload) = Ret (Ok (IcmpRepr.mkRepr t code (len payload)))) ∧
  (∀ src dst checksum data rest, is_uint 16 src → is_uint 16 dst → 8 + len data < 2 ^ 16 →
    UdpRepr.parse (udp_datagram src dst checksum data rest) = Ret (Ok (UdpRepr.mkRepr src dst (len data)))) ∧
  (∀ src dst seq ack offset reserved flags window checksum urgent options payload,
    is_uint 16 src → is_uint 16 dst → is_uint 32 seq → is_uint 32 ack → is_uint 4 reserved → is_uint 8 flags →
    is_uint 16 window → bytes options → bytes payload → 5 ≤ offset < 2 ^ 4 → len options = 4 * (offset - 5) →
    TcpRepr.parse (tcp_segment src dst seq ack offset reserved flags window checksum urgent options payload)
    = Ret (Ok (TcpRepr.mkRepr src dst seq ack (flags mod 2 ^ 6) window (len payload)))).
Proof.
  split_and!; intros.
  - by apply ethernet_fields.
  - by apply arp_fields.
  - by apply ipv4_fields.
  - apply icmp_fields.
  - by apply udp_fields.
  - by apply tcp_fields.
Qed.

(** A DNS query of five bytes, and two bytes behind it. *)
Lemma network_parse_fields_witness :
  UdpRepr.parse (udp_datagram 4660 53 0 [1; 2; 3; 4; 5] [0; 0]) = Ret (Ok (UdpRepr.mkRepr 4660 53 5)) ∧
  Ip.parse (ipv4_packet 6 0 28 7 2 0 64 Tcp 0 0xC0A80001 0xC0A80002 [1; 1; 1; 0] [9; 9; 9; 9])
  = Ret (Ok (Ip.mkRepr 0xC0A80001 0xC0A80002 Tcp 4 64 (IpFlags.mk false true false))).
Proof.
  destruct network_parse_fields as (_ & _ & Hi & _ & Hu & _). split.
  - apply (Hu 4660 53 0 [1; 2; 3; 4; 5] [0; 0]); [split; lia | split; lia | reflexivity].
  - apply (Hi 6 0 28 7 2 0 64 Tcp 0 0xC0A80001 0xC0A80002 [1; 1; 1; 0] [9; 9; 9; 9]); [split; lia.. | lia | reflexivity].
Defined.

(** ** Rejected packets *)

Definition unknown {A} (r : result A NetworkError) : Prop := ∃ e, r = Err e.



(** The don't-fragment flag of an emitted packet is lost: the packet claims the fragment offset 2048. *)
Lemma dont_fragment_lost :
  ∃ b, Ip.emit (Ip.mkRepr 1 2 Udp 0 64 (IpFlags.mk false true false)) (replicate 20 0) = Ret b ∧
  IpPacket.flags b = Ret IpFlags.none ∧ IpPacket.fragment_offset b = Ret 2048.
Proof. eexists. split; [vm_compute; reflexivity |]. by vm_compute. Qed.
