(* ===== verification/Vfs.v ===== *)
(** * The virtual file system

    [kernel/foundry/storage/src/fs.rs] and [vfs.rs]: paths, the interface of file systems, mounts and
    the handles of open files. *)

From stdpp Require Import sorting.
From S2P Require Import Prelude NetUtils.

Inductive FileError :=
| Io | NotFound | InvalidPath | InvalidHandle | AlreadyExists | NotEnoughSpace | UnexpectedEof | PermissionDenied
| CorruptedFS | UnsupportedOperation.

(** [BlockDeviceError] of [beskar-core/src/storage.rs] *)
Inductive BlockDeviceError := BdIo | OutOfBounds | BdUnsupported | UnalignedAccess.

Definition file_error_of (e : BlockDeviceError) : FileError :=
  match e with
  | BdIo | UnalignedAccess => Io
  | OutOfBounds => UnexpectedEof
  | BdUnsupported => UnsupportedOperation
  end.

Inductive FileType := File | Directory.

Record FileMetadata := mkFileMetadata { md_size : Z; md_file_type : FileType }.

(** ** Paths

    A path, a string, is the list of the bytes of its UTF-8 encoding. *)
Definition Path := list Z.
Definition SLASH : Z := 47.

(** [str::is_char_boundary]: the byte at the index does not continue a character. *)
Definition is_char_boundary (s : list Z) (i : Z) : bool :=
  (i =? 0) || (i =? len s) || ((i <? len s) && negb ((0x80 <=? byte_at s i) && (byte_at s i <? 0xC0))).

(** [&s[..n]] and [&s[n..]] of a string *)
Definition str_to (s : list Z) (n : Z) : out (list Z) := if is_char_boundary s n then Ret (sub_list s 0 n) else Panic.
Definition str_from (s : list Z) (n : Z) : out (list Z) := if is_char_boundary s n then Ret (sub_list s n (len s)) else Panic.

Definition ends_with_slash (s : list Z) : bool := bool_decide (last s = Some SLASH).

(** ** File systems *)

(** The trait [FileSystem]: operations on the state [F] of a file system. *)
Class FileSystem (F : Type) := {
  fs_create : Path → eff F FileError unit;
  fs_delete : Path → eff F FileError unit;
  fs_exists : Path → eff F FileError bool;
  fs_open : Path → eff F FileError unit;
  fs_close : Path → eff F FileError unit;
  fs_read : Path → list Z → Z → F → out (F * (list Z * result Z FileError));
  fs_write : Path → list Z → Z → eff F FileError Z;
  fs_metadata : Path → eff F FileError FileMetadata;
  fs_read_dir : Path → eff F FileError (list Path);
}.

(** [BTreeMap]: a finite map that is iterated over in the order of its keys. *)
Fixpoint str_le (p q : list Z) : bool :=
  match p, q with
  | [], _ => true
  | _ :: _, [] => false
  | a :: p, b :: q => (a <? b) || ((a =? b) && str_le p q)
  end.

Definition mount_le {F} (a b : Path * F) : Prop := str_le a.1 b.1 = true.
Global Instance mount_le_dec {F} (a b : Path * F) : Decision (mount_le a b).
Proof. unfold mount_le. apply _. Defined.

Definition iter_mounts {F} (m : gmap Path F) : list (Path * F) := merge_sort mount_le (map_to_list m).

(** ** The virtual file system *)

(** The state of [Vfs] and the static [HANDLE_COUNTER].  A handle is its number.  The locks around the
    parts are taken and released within an operation, which is modelled as one step. *)
Record OpenFileInfo := mkOpenFileInfo { process_id : Z; file_path : Path }.

Record Vfs {F : Type} := mkVfs {
  mounts : gmap Path F;
  open_handles : gmap Z OpenFileInfo;
  handle_counter : Z;
}.
Arguments Vfs F : clear implicits.
Arguments mkVfs {F} _ _ _.

Definition handle_le (a b : Z * OpenFileInfo) : Prop := a.1 ≤ b.1.
Global Instance handle_le_dec a b : Decision (handle_le a b).
Proof. unfold handle_le. apply _. Defined.

Definition iter_handles (m : gmap Z OpenFileInfo) : list (Z * OpenFileInfo) := merge_sort handle_le (map_to_list m).

Module Handle.

Definition INVALID : Z := -1.

(** [fetch_add] wraps around. *)
Definition new {F} : eff (Vfs F) FileError Z := λ v,
  let id := handle_counter v in
  assert_ (0 <=? id);;
  Ret (mkVfs (mounts v) (open_handles v) (cast_signed 64 (wrapping_add 64 id 1)), Ok id).

Definition from_raw (id : Z) : out Z := assert_ (0 <=? id);; mret id.

End Handle.

Module VfsOps.
Section ops.
Context {F : Type} `{FileSystem F}.

Definition new : Vfs F := mkVfs ∅ ∅ 0.

Definition mount (path : Path) (fs : F) (v : Vfs F) : Vfs F :=
  mkVfs (<[path := fs]> (mounts v)) (open_handles v) (handle_counter v).

Definition unmount (path : Path) : eff (Vfs F) FileError F := λ v,
  match mounts v !! path with
  | Some fs => Ret (mkVfs (delete path (mounts v)) (open_handles v) (handle_counter v), Ok fs)
  | None => Ret (v, Err NotFound)
  end.

(** [current_pid]: the process that [H::get_current_process_id] returns *)
Definition check_file_opened (current_pid : Z) (path : Path) (v : Vfs F) : bool :=
  existsb (λ e, bool_decide (file_path e.2 = path) && (process_id e.2 =? current_pid)) (map_to_list (open_handles v)).

Definition insert_handle (handle : Z) (info : OpenFileInfo) : eff (Vfs F) FileError unit := λ v,
  Ret (mkVfs (mounts v) (<[handle := info]> (open_handles v)) (handle_counter v), Ok tt).

Definition opened (current_pid : Z) (path : Path) : eff (Vfs F) FileError bool := λ v,
  Ret (v, Ok (check_file_opened current_pid path v)).

Definition new_handle (current_pid : Z) (path : Path) : eff (Vfs F) FileError Z :=
  b ← opened current_pid path;
  if b : bool then throw PermissionDenied
  else
    handle ← Handle.new;
    insert_handle handle (mkOpenFileInfo current_pid path);;
    mret handle.

Definition delete_handle (handle : Z) : eff (Vfs F) FileError unit := λ v,
  match open_handles v !! handle with
  | Some _ => Ret (mkVfs (mounts v) (delete handle (open_handles v)) (handle_counter v), Ok tt)
  | None => Ret (v, Err InvalidHandle)
  end.

Definition handle_to_path (current_pid : Z) (handle : Z) : eff (Vfs F) FileError Path := λ v,
  match open_handles v !! handle with
  | None => Ret (v, Err InvalidHandle)
  | Some open_file =>
      Ret (v, if process_id open_file =? current_pid then Ok (file_path open_file) else Err PermissionDenied)
  end.

(** One turn of the loop over the mounts: the best match so far with its length. *)
Definition better_mount (path : Path) (best : option Path * Z) (mount : Path * F) : out (option Path * Z) :=
  let mount_path := mount.1 in
  let mount_len := len mount_path in
  if mount_len <=? best.2 then mret best
  else if mount_len <=? len path then
    prefix ← str_to path mount_len;
    if bool_decide (prefix = mount_path) then
      if (mount_len =? len path) || (bool_decide (path !! Z.to_nat mount_len = Some SLASH)) || ends_with_slash mount_path
      then mret (Some mount_path, mount_len)
      else mret best
    else mret best
  else mret best.

Definition best_mount (path : Path) (v : Vfs F) : out (option Path * Z) :=
  for_each (better_mount path) (None, 0) (iter_mounts (mounts v)).

(** [f] updates the file system of the mount that it is called with. *)
Definition path_to_fs {R} (path : Path) (bad : R) (f : Path → F → out (F * R)) (v : Vfs F) : out (Vfs F * R) :=
  '(best_match, mount_len) ← best_mount path v;
  match best_match with
  | None => Ret (v, bad)
  | Some mount_path =>
      fs ← unwrap (mounts v !! mount_path);
      rel_path ← str_from path mount_len;
      '(fs, r) ← f rel_path fs;
      Ret (mkVfs (<[mount_path := fs]> (mounts v)) (open_handles v) (handle_counter v), r)
  end.

Definition on_fs {A} (path : Path) (f : Path → eff F FileError A) : eff (Vfs F) FileError A :=
  path_to_fs path (Err InvalidPath) f.

Definition create (path : Path) : eff (Vfs F) FileError unit := on_fs path fs_create.

Definition open (current_pid : Z) (path : Path) : eff (Vfs F) FileError Z :=
  handle ← new_handle current_pid path;
  on_fs path fs_open;;
  mret handle.

Definition close (current_pid : Z) (handle : Z) : eff (Vfs F) FileError unit :=
  path ← handle_to_path current_pid handle;
  delete_handle handle;;
  on_fs path fs_close.

(** [retain] visits the handles in order; a file system that cannot close a file panics. *)
Definition close_of (pid : Z) (v : Vfs F) (e : Z * OpenFileInfo) : out (Vfs F) :=
  if process_id e.2 =? pid then
    '(v, r) ← on_fs (file_path e.2) fs_close v;
    match r with
    | Ok _ => Ret (mkVfs (mounts v) (delete e.1 (open_handles v)) (handle_counter v))
    | Err _ => Panic
    end
  else Ret v.

Definition close_all_from_process (pid : Z) (v : Vfs F) : out (Vfs F) :=
  for_each (close_of pid) v (iter_handles (open_handles v)).

Definition delete (current_pid : Z) (path : Path) : eff (Vfs F) FileError unit :=
  b ← opened current_pid path;
  if b : bool then throw PermissionDenied else on_fs path fs_delete.

Definition exists_ (path : Path) : eff (Vfs F) FileError bool := on_fs path fs_exists.

(** The buffer is an argument that the operation updates. *)
Definition read (current_pid handle : Z) (buffer : list Z) (offset : Z) (v : Vfs F)
    : out (Vfs F * (list Z * result Z FileError)) :=
  '(v, r) ← handle_to_path current_pid handle v;
  match r with
  | Err e => Ret (v, (buffer, Err e))
  | Ok path => path_to_fs path (buffer, Err InvalidPath) (λ rel fs, fs_read rel buffer offset fs) v
  end.

Definition write (current_pid handle : Z) (buffer : list Z) (offset : Z) : eff (Vfs F) FileError Z :=
  path ← handle_to_path current_pid handle;
  on_fs path (λ rel, fs_write rel buffer offset).

Definition metadata (path : Path) : eff (Vfs F) FileError FileMetadata := on_fs path fs_metadata.
Definition read_dir (path : Path) : eff (Vfs F) FileError (list Path) := on_fs path fs_read_dir.

End ops.
End VfsOps.

(** ** Resolution of paths *)

(** The mount point [k] covers [path]: it is a prefix that ends at the border of a component. *)
Definition covers (k path : Path) : Prop :=
  k ≠ [] ∧ ∃ rest, path = k ++ rest ∧ (rest = [] ∨ head rest = Some SLASH ∨ last k = Some SLASH).

(** [k] is the longest mount point that covers [path]. *)
Definition resolves {F} (m : gmap Path F) (path k : Path) : Prop :=
  is_Some (m !! k) ∧ covers k path ∧ ∀ k', is_Some (m !! k') → covers k' path → len k' ≤ len k.

(** No mount point ends inside of a character of [path]. *)
Definition sliceable {F} (m : gmap Path F) (path : Path) : Prop :=
  ∀ k, is_Some (m !! k) → len k ≤ len path → is_char_boundary path (len k) = true.

Lemma prefix_iff (k path : Path) : len k ≤ len path → sub_list path 0 (len k) = k ↔ ∃ rest, path = k ++ rest.
Proof.
  intros Hl. unfold sub_list, len in *. rewrite Z.sub_0_r, Nat2Z.id. cbn [Z.to_nat]. rewrite drop_0. split.
  - intros Hk. exists (drop (length k) path). rewrite <- Hk at 1. by rewrite take_drop.
  - intros [rest ->]. by rewrite take_app_length.
Qed.

(** A mount that is visited becomes the best one exactly when it covers the path and is longer. *)
Lemma better_mount_ok {F} (path : Path) (best : option Path * Z) (k : Path) (fs : F) :
  (len k ≤ len path → is_char_boundary path (len k) = true) → 0 ≤ best.2 →
  (covers k path ∧ best.2 < len k ∧ VfsOps.better_mount path best (k, fs) = Ret (Some k, len k)) ∨
  (¬ (covers k path ∧ best.2 < len k) ∧ VfsOps.better_mount path best (k, fs) = Ret best).
Proof.
  intros Hb H0. unfold VfsOps.better_mount. cbn [fst].
  destruct (Z.leb_spec (len k) best.2) as [|Hlt]; [right; split; [lia | done] |].
  assert (k ≠ []) by (intros ->; unfold len in Hlt; cbn [length] in Hlt; lia).
  destruct (Z.leb_spec (len k) (len path)) as [Hle|Hgt].
  2:{ right. split; [| done]. intros [(_ & rest & -> & _) _]. rewrite len_app in Hgt. pose proof (len_nonneg rest). lia. }
  unfold str_to. rewrite Hb by done. cbn [mbind out_bind].
  case_bool_decide as Hp.
  2:{ right. split; [| done]. intros [(_ & rest & -> & _) _]. apply Hp, prefix_iff; eauto. }
  apply prefix_iff in Hp as [rest ->]; [| done]. rewrite len_app.
  assert (((len k =? len k + len rest) || bool_decide ((k ++ rest) !! Z.to_nat (len k) = Some SLASH) || ends_with_slash k) = true ↔
          (rest = [] ∨ head rest = Some SLASH ∨ last k = Some SLASH)) as Hiff.
  { rewrite !orb_true_iff, Z.eqb_eq, bool_decide_eq_true. unfold ends_with_slash. rewrite bool_decide_eq_true.
    unfold len. rewrite Nat2Z.id, lookup_app_r, Nat.sub_diag, head_lookup by lia.
    assert (Z.of_nat (length k) = Z.of_nat (length k) + Z.of_nat (length rest) ↔ rest = []) as ->
      by (rewrite <- length_zero_iff_nil; lia). tauto. }
  destruct (_ || _) eqn:E.
  - left. split_and!; [| done | done]. split; [done |]. exists rest. split; [done |]. by apply Hiff.
  - right. split; [| done]. intros [(_ & rest' & Heq & Hr) _]. apply app_inv_head in Heq as <-. apply Hiff in Hr. done.
Qed.

Lemma best_loop {F} (path : Path) (l : list (Path * F)) (best : option Path * Z) :
  (∀ k fs, (k, fs) ∈ l → len k ≤ len path → is_char_boundary path (len k) = true) → 0 ≤ best.2 →
  ∃ best', for_each (VfsOps.better_mount path) best l = Ret best' ∧
    (best' = best ∧ (∀ k fs, (k, fs) ∈ l → covers k path → len k ≤ best.2) ∨
     ∃ k fs, (k, fs) ∈ l ∧ best' = (Some k, len k) ∧ covers k path ∧ best.2 < len k ∧
       ∀ k' fs', (k', fs') ∈ l → covers k' path → len k' ≤ len k).
Proof.
  revert best. induction l as [|[k fs] l IH]; intros best Hb H0.
  { exists best. split; [done |]. left. split; [done |]. intros k fs Hin. by apply elem_of_nil in Hin. }
  cbn [for_each]. destruct (better_mount_ok path best k fs) as [(Hc & Hlt & ->)|[Hn ->]];
    [intros; eapply Hb; [by left | done] | done | |]; cbn [mbind out_bind].
  - destruct (IH (Some k, len k)) as (best' & -> & Hbest); [intros; eapply Hb; [by right | done] | cbn; lia |].
    exists best'. split; [done |]. right. destruct Hbest as [[-> Hmax]|(k2 & fs2 & Hin & -> & Hc2 & Hlt2 & Hmax)].
    + exists k, fs. split_and!; [by left | done | done | done |].
      intros k' fs' [[= -> ->]|Hin]%elem_of_cons Hc'; [done | by apply (Hmax k' fs')].
    + cbn in Hlt2. exists k2, fs2. split_and!; [by right | done | done | lia |].
      intros k' fs' [[= -> ->]|Hin']%elem_of_cons Hc'; [lia | by apply (Hmax k' fs')].
  - destruct (IH best) as (best' & -> & Hbest); [intros; eapply Hb; [by right | done] | done |].
    exists best'. split; [done |]. destruct Hbest as [[-> Hmax]|(k2 & fs2 & Hin & -> & Hc2 & Hlt2 & Hmax)]; [left | right].
    + split; [done |]. intros k' fs' [[= -> ->]|Hin]%elem_of_cons Hc'; [| by apply (Hmax k' fs')].
      destruct (decide (len k ≤ best.2)); [done |]. exfalso. apply Hn. split; [done | lia].
    + exists k2, fs2. split_and!; [by right | done | done | done |].
      intros k' fs' [[= -> ->]|Hin']%elem_of_cons Hc'; [| by apply (Hmax k' fs')].
      destruct (decide (len k ≤ best.2)); [lia |]. exfalso. apply Hn. split; [done | lia].
Qed.

Lemma elem_of_iter_mounts {F} (m : gmap Path F) k fs : (k, fs) ∈ iter_mounts m ↔ m !! k = Some fs.
Proof. unfold iter_mounts. by rewrite merge_sort_Permutation, elem_of_map_to_list. Qed.

Lemma covers_pos k path : covers k path → 0 < len k.
Proof. intros [Hk _]. destruct k; [done |]. unfold len. cbn [length]. lia. Qed.

Lemma best_mount_ok {F} (path : Path) (v : Vfs F) :
  sliceable (mounts v) path →
  (∃ k, resolves (mounts v) path k ∧ VfsOps.best_mount path v = Ret (Some k, len k)) ∨
  ((∀ k, is_Some (mounts v !! k) → ¬ covers k path) ∧ VfsOps.best_mount path v = Ret (None, 0)).
Proof.
  intros Hs. unfold VfsOps.best_mount.
  destruct (best_loop path (iter_mounts (mounts v)) (None, 0)) as (best & -> & Hbest).
  - intros k fs Hin. apply elem_of_iter_mounts in Hin. apply Hs. eauto.
  - done.
  - destruct Hbest as [[-> Hmax]|(k & fs & Hin & -> & Hc & _ & Hmax)]; [right | left].
    + split; [| done]. intros k [fs Hk] Hc. apply covers_pos in Hc as Hpos.
      apply elem_of_iter_mounts in Hk. specialize (Hmax _ _ Hk Hc). cbn in Hmax. lia.
    + exists k. split; [| done]. apply elem_of_iter_mounts in Hin. split_and!; [eauto | done |].
      intros k' [fs' Hk'] Hc'. apply elem_of_iter_mounts in Hk'. by apply (Hmax k' fs').
Qed.

Lemma covers_same_len k k' path : covers k path → covers k' path → len k = len k' → k = k'.
Proof.
  intros (_ & rest & Heq & _) (_ & rest' & Heq' & _) Hl. rewrite Heq in Heq'. unfold len in Hl.
  apply app_inj_1 in Heq' as [? _]; [done | lia].
Qed.

Lemma resolves_unique {F} (m : gmap Path F) path k k' : resolves m path k → resolves m path k' → k = k'.
Proof.
  intros (Hs & Hc & Hmax) (Hs' & Hc' & Hmax'). apply (covers_same_len k k' path); [done.. |].
  specialize (Hmax k' Hs' Hc'). specialize (Hmax' k Hs Hc). lia.
Qed.

(** The file system of the longest mount point that covers the path is called with the rest of the path. *)
Lemma path_to_fs_ok {F R} (v : Vfs F) (path k rel : Path) (fs : F) (bad : R) (f : Path → F → out (F * R)) :
  sliceable (mounts v) path → resolves (mounts v) path k → path = k ++ rel → mounts v !! k = Some fs →
  VfsOps.path_to_fs path bad f v =
  ('(fs', r) ← f rel fs; Ret (mkVfs (<[k := fs']> (mounts v)) (open_handles v) (handle_counter v), r)).
Proof.
  intros Hs Hr Hrel Hfs. unfold VfsOps.path_to_fs.
  destruct (best_mount_ok path v Hs) as [(k' & Hr' & ->)|[Hn _]]; [| by destruct (Hn k); apply Hr].
  cbn [mbind out_bind]. rewrite <- (resolves_unique _ _ _ _ Hr Hr'), Hfs. cbn [unwrap mbind out_bind].
  unfold str_from. rewrite Hs; [| eauto | subst path; rewrite len_app; pose proof (len_nonneg rel); lia]. cbn [mbind out_bind].
  assert (sub_list path (len k) (len path) = rel) as ->; [| done].
  subst path. unfold sub_list. rewrite len_app. unfold len. rewrite Nat2Z.id, drop_app_length, take_ge by lia. done.
Qed.

Lemma path_to_fs_none {F R} (v : Vfs F) (path : Path) (bad : R) (f : Path → F → out (F * R)) :
  sliceable (mounts v) path → (∀ k, is_Some (mounts v !! k) → ¬ covers k path) →
  VfsOps.path_to_fs path bad f v = Ret (v, bad).
Proof.
  intros Hs Hn. unfold VfsOps.path_to_fs.
  destruct (best_mount_ok path v Hs) as [(k & Hr & _)|[_ ->]]; [| done]. by destruct (Hn k); apply Hr.
Qed.

(** A path of ASCII characters can be cut anywhere. *)
Lemma ascii_sliceable {F} (m : gmap Path F) (path : Path) : Forall (is_uint 7) path → sliceable m path.
Proof.
  intros Ha k _ Hl. unfold is_char_boundary. destruct (Z.eqb_spec (len k) (len path)); [by rewrite orb_true_r |].
  pose proof (len_nonneg k). rewrite (proj2 (Z.ltb_lt _ _)) by lia.
  assert (is_uint 7 (byte_at path (len k))) as [? ?].
  { unfold byte_at. rewrite Forall_forall in Ha. apply Ha, list_elem_of_In, nth_In. unfold len in *. lia. }
  rewrite (proj2 (Z.leb_gt _ _)) by lia. by rewrite orb_true_r.
Qed.

(** ** Handles *)

(** Every handle is smaller than the counter, until the counter has wrapped around, from when on no
    handle can be made; no process has the same file open twice. *)
Record vfs_ok {F} (v : Vfs F) : Prop := {
  handle_bound h i : open_handles v !! h = Some i → 0 ≤ h ∧ (0 ≤ handle_counter v → h < handle_counter v);
  counter_bound : - 2 ^ 63 ≤ handle_counter v < 2 ^ 63;
  opened_once h1 h2 i1 i2 :
    open_handles v !! h1 = Some i1 → open_handles v !! h2 = Some i2 →
    process_id i1 = process_id i2 → file_path i1 = file_path i2 → h1 = h2;
}.

(** Two states that differ only within their file systems. *)
Definition same_handles {F} (v v' : Vfs F) : Prop :=
  open_handles v' = open_handles v ∧ handle_counter v' = handle_counter v ∧ dom (mounts v') = dom (mounts v).

Lemma same_handles_ok {F} (v v' : Vfs F) : same_handles v v' → vfs_ok v → vfs_ok v'.
Proof. intros (Ho & Hc & _) [H1 H2 H3]. split; rewrite ?Ho, ?Hc; done. Qed.

Lemma path_to_fs_handles {F R} (path : Path) (bad : R) (f : Path → F → out (F * R)) (v v' : Vfs F) r :
  VfsOps.path_to_fs path bad f v = Ret (v', r) → same_handles v v'.
Proof.
  unfold VfsOps.path_to_fs. destruct (VfsOps.best_mount path v) as [[[k|] n]|]; cbn [mbind out_bind]; [| | done].
  - destruct (mounts v !! k) as [fs|] eqn:Hk; cbn [unwrap mbind out_bind]; [| done].
    destruct (str_from path n) as [rel|]; cbn [mbind out_bind]; [| done].
    destruct (f rel fs) as [[fs' r']|]; cbn [mbind out_bind]; [| done]. intros [= <- _].
    split_and!; [done | done |]. cbn. rewrite dom_insert_L.
    apply elem_of_dom_2 in Hk. set_solver.
  - by intros [= <- _].
Qed.

Section handles.
Context {F : Type} `{FileSystem F}.
Implicit Types (v : Vfs F) (path : Path).

Lemma check_file_opened_spec pid path v :
  VfsOps.check_file_opened pid path v = true ↔ ∃ h, open_handles v !! h = Some (mkOpenFileInfo pid path).
Proof.
  unfold VfsOps.check_file_opened. rewrite existsb_exists. split.
  - intros ([h i] & Hin & Hb). apply list_elem_of_In, elem_of_map_to_list in Hin. cbn in Hb.
    apply andb_true_iff in Hb as [Hp%bool_decide_eq_true Hq%Z.eqb_eq]. exists h. destruct i; cbn in *; congruence.
  - intros [h Hh]. exists (h, mkOpenFileInfo pid path). split; [by apply list_elem_of_In, elem_of_map_to_list |].
    cbn. by rewrite bool_decide_true, Z.eqb_refl.
Qed.

(** A new handle has the number of the counter, which no other handle has. *)
Lemma new_handle_ok pid path v :
  0 ≤ handle_counter v → (∀ h, open_handles v !! h ≠ Some (mkOpenFileInfo pid path)) →
  VfsOps.new_handle pid path v =
  Ret (mkVfs (mounts v) (<[handle_counter v := mkOpenFileInfo pid path]> (open_handles v))
         (cast_signed 64 (wrapping_add 64 (handle_counter v) 1)), Ok (handle_counter v)).
Proof.
  intros Hc Hn. unfold VfsOps.new_handle. erewrite eff_bind_Ok by done.
  destruct (VfsOps.check_file_opened pid path v) eqn:E.
  { apply check_file_opened_spec in E as [h Hh]. by destruct (Hn h). }
  erewrite (eff_bind_Ok Handle.new); [| unfold Handle.new; by rewrite (proj2 (Z.leb_le _ _)) by lia].
  by erewrite eff_bind_Ok by done.
Qed.

Lemma new_handle_inv pid path v v' r :
  VfsOps.new_handle pid path v = Ret (v', r) →
  (v' = v ∧ r = Err PermissionDenied ∧ ∃ h, open_handles v !! h = Some (mkOpenFileInfo pid path)) ∨
  (0 ≤ handle_counter v ∧ r = Ok (handle_counter v) ∧ (∀ h, open_handles v !! h ≠ Some (mkOpenFileInfo pid path)) ∧
   v' = mkVfs (mounts v) (<[handle_counter v := mkOpenFileInfo pid path]> (open_handles v))
          (cast_signed 64 (wrapping_add 64 (handle_counter v) 1))).
Proof.
  intros Hr. destruct (VfsOps.check_file_opened pid path v) eqn:E.
  - left. unfold VfsOps.new_handle in Hr. erewrite eff_bind_Ok in Hr by done. rewrite E in Hr. injection Hr as <- <-.
    split_and!; [done | done |]. by apply check_file_opened_spec.
  - right. assert (∀ h, open_handles v !! h ≠ Some (mkOpenFileInfo pid path)) as Hn.
    { intros h Hh. rewrite (proj2 (check_file_opened_spec pid path v)) in E; [done | eauto]. }
    destruct (decide (0 ≤ handle_counter v)) as [Hc|Hc].
    + rewrite new_handle_ok in Hr by done. injection Hr as <- <-. done.
    + exfalso. unfold VfsOps.new_handle in Hr. erewrite eff_bind_Ok in Hr by done. rewrite E in Hr. revert Hr.
      unfold Handle.new, mbind, eff_bind. by rewrite (proj2 (Z.leb_gt _ _)) by lia.
Qed.

Lemma next_counter c : 0 ≤ c < 2 ^ 63 →
  cast_signed 64 (wrapping_add 64 c 1) = if c =? 2 ^ 63 - 1 then - 2 ^ 63 else c + 1.
Proof.
  intros Hc. unfold cast_signed, wrapping_add. rewrite Z.mod_small by lia.
  destruct (Z.eqb_spec c (2 ^ 63 - 1)); [by subst |]. rewrite (proj2 (Z.ltb_lt _ _)); [done |].
  change (64 - 1) with 63. lia.
Qed.

Lemma insert_handle_ok pid path v :
  vfs_ok v → 0 ≤ handle_counter v → (∀ h, open_handles v !! h ≠ Some (mkOpenFileInfo pid path)) →
  vfs_ok (mkVfs (mounts v) (<[handle_counter v := mkOpenFileInfo pid path]> (open_handles v))
            (cast_signed 64 (wrapping_add 64 (handle_counter v) 1))).
Proof.
  intros [H1 H2 H3] Hc Hn. split; cbn.
  - intros h i Hh. rewrite next_counter by lia. apply lookup_insert_Some in Hh as [[<- <-]|[Hne Hh]].
    + split; [lia |]. destruct (Z.eqb_spec (handle_counter v) (2 ^ 63 - 1)); lia.
    + destruct (H1 h i Hh) as [? Hlt]. specialize (Hlt Hc). split; [done |].
      destruct (Z.eqb_spec (handle_counter v) (2 ^ 63 - 1)); lia.
  - rewrite next_counter by lia. destruct (Z.eqb_spec (handle_counter v) (2 ^ 63 - 1)); lia.
  - intros h1 h2 i1 i2 Hh1 Hh2 Hp Hf.
    apply lookup_insert_Some in Hh1 as [[<- <-]|[Hne1 Hh1]]; apply lookup_insert_Some in Hh2 as [[<- <-]|[Hne2 Hh2]].
    + done.
    + cbn in *. destruct (Hn h2). rewrite Hh2. destruct i2; cbn in *; congruence.
    + cbn in *. destruct (Hn h1). rewrite Hh1. destruct i1; cbn in *; congruence.
    + by apply (H3 h1 h2 i1 i2).
Qed.

Lemma delete_handle_ok v h : vfs_ok v → vfs_ok (mkVfs (mounts v) (delete h (open_handles v)) (handle_counter v)).
Proof.
  intros [H1 H2 H3]. split; cbn.
  - intros h' i [_ Hh]%lookup_delete_Some. by apply (H1 h' i).
  - done.
  - intros h1 h2 i1 i2 [_ Hh1]%lookup_delete_Some [_ Hh2]%lookup_delete_Some. by apply H3.
Qed.

End handles.

(** ** Operations of processes *)

(** The operations, as the process that calls them sees them. *)
Inductive vfs_op (F : Type) :=
| OpMount (path : Path) (fs : F)
| OpUnmount (path : Path)
| OpCreate (path : Path)
| OpOpen (path : Path)
| OpClose (handle : Z)
| OpExit (pid : Z)
| OpDelete (path : Path)
| OpExists (path : Path)
| OpRead (handle : Z) (buffer : list Z) (offset : Z)
| OpWrite (handle : Z) (buffer : list Z) (offset : Z)
| OpMetadata (path : Path)
| OpReadDir (path : Path).
Arguments OpMount {F}. Arguments OpUnmount {F}. Arguments OpCreate {F}. Arguments OpOpen {F}. Arguments OpClose {F}.
Arguments OpExit {F}. Arguments OpDelete {F}. Arguments OpExists {F}. Arguments OpRead {F}. Arguments OpWrite {F}.
Arguments OpMetadata {F}. Arguments OpReadDir {F}.

(** The state after an operation, whatever it returns. *)
Definition state_of {St R} (m : out (St * R)) : out St := '(s, _) ← m; mret s.

Definition run_op {F} `{FileSystem F} (pid : Z) (op : vfs_op F) (v : Vfs F) : out (Vfs F) :=
  match op with
  | OpMount path fs => mret (VfsOps.mount path fs v)
  | OpUnmount path => state_of (VfsOps.unmount path v)
  | OpCreate path => state_of (VfsOps.create path v)
  | OpOpen path => state_of (VfsOps.open pid path v)
  | OpClose handle => state_of (VfsOps.close pid handle v)
  | OpExit p => VfsOps.close_all_from_process p v
  | OpDelete path => state_of (VfsOps.delete pid path v)
  | OpExists path => state_of (VfsOps.exists_ path v)
  | OpRead handle buffer offset => state_of (VfsOps.read pid handle buffer offset v)
  | OpWrite handle buffer offset => state_of (VfsOps.write pid handle buffer offset v)
  | OpMetadata path => state_of (VfsOps.metadata path v)
  | OpReadDir path => state_of (VfsOps.read_dir path v)
  end.

(** The handles of which processes an operation of [pid] may change. *)
Definition affects {F} (pid : Z) (op : vfs_op F) : Z := match op with OpExit p => p | _ => pid end.

(** How an operation changes the handles: it makes one for the process, with a new number, and removes
    some of it. *)
Definition handles_step {F} (pid : Z) (v v' : Vfs F) : Prop :=
  vfs_ok v' ∧
  (∀ h i, process_id i ≠ pid → open_handles v !! h = Some i → open_handles v' !! h = Some i) ∧
  (∀ h i, open_handles v' !! h = Some i → open_handles v !! h = Some i ∨ process_id i = pid ∧ h = handle_counter v).

Section steps.
Context {F : Type} `{FileSystem F}.
Implicit Types (v : Vfs F) (path : Path).

Lemma same_handles_step pid v v' : vfs_ok v → same_handles v v' → handles_step pid v v'.
Proof.
  intros Hok Hs. split_and!; [by apply (same_handles_ok v) | |]; destruct Hs as (-> & _); [done | by left].
Qed.

Lemma state_of_inv {St R} (m : out (St * R)) s : state_of m = Ret s → ∃ r, m = Ret (s, r).
Proof. destruct m as [[s' r]|]; cbn; [| done]. intros [= <-]. eauto. Qed.

Lemma handle_to_path_inv pid h v v' r :
  VfsOps.handle_to_path pid h v = Ret (v', r) →
  v' = v ∧ match r with
           | Ok path => open_handles v !! h = Some (mkOpenFileInfo pid path)
           | Err e => e = InvalidHandle ∧ open_handles v !! h = None ∨
                      e = PermissionDenied ∧ ∃ i, open_handles v !! h = Some i ∧ process_id i ≠ pid
           end.
Proof.
  unfold VfsOps.handle_to_path. destruct (open_handles v !! h) as [i|]; intros [= <- <-]; [| auto].
  split; [done |]. destruct (Z.eqb_spec (process_id i) pid) as [<-|]; [by destruct i |]. right. eauto.
Qed.

Lemma step_trans pid v1 v2 v3 : handles_step pid v1 v2 → same_handles v2 v3 → handles_step pid v1 v3.
Proof.
  intros (H1 & H2 & H3) Hs. pose proof Hs as (Ho & Hc & _).
  split_and!; [by apply (same_handles_ok v2) | intros; rewrite Ho; auto | intros h i; rewrite Ho; auto].
Qed.

Lemma insert_step pid path v :
  vfs_ok v → 0 ≤ handle_counter v → (∀ h, open_handles v !! h ≠ Some (mkOpenFileInfo pid path)) →
  handles_step pid v (mkVfs (mounts v) (<[handle_counter v := mkOpenFileInfo pid path]> (open_handles v))
    (cast_signed 64 (wrapping_add 64 (handle_counter v) 1))).
Proof.
  intros Hok Hc Hn. split_and!; [by apply insert_handle_ok | |]; cbn.
  - intros h i Hp Hh. rewrite lookup_insert_ne; [done |]. intros <-. apply Hok in Hh as [_ Hlt]. specialize (Hlt Hc). lia.
  - intros h i [[<- <-]|[_ Hh]]%lookup_insert_Some; auto.
Qed.

Lemma delete_step pid h i v :
  vfs_ok v → open_handles v !! h = Some i → process_id i = pid →
  handles_step pid v (mkVfs (mounts v) (delete h (open_handles v)) (handle_counter v)).
Proof.
  intros Hok Hh Hp. split_and!; [by apply delete_handle_ok | |]; cbn.
  - intros h' i' Hp' Hh'. rewrite lookup_delete_ne; [done |]. congruence.
  - intros h' i' [_ Hh']%lookup_delete_Some. auto.
Qed.

Lemma open_step pid path v v' r : vfs_ok v → VfsOps.open pid path v = Ret (v', r) → handles_step pid v v'.
Proof.
  intros Hok. unfold VfsOps.open. intros [(e & Hn & _)|(v1 & h & Hn & Hr)]%eff_bind_inv.
  - apply new_handle_inv in Hn as [(-> & _)|(_ & ? & _)]; [by apply same_handles_step | done].
  - apply new_handle_inv in Hn as [(_ & ? & _)|(Hc & _ & Hn & ->)]; [done |].
    eapply step_trans; [by apply insert_step |].
    apply eff_bind_inv in Hr as [(e & Hr & _)|(v2 & u & Hr & [= <- _])]; by eapply path_to_fs_handles.
Qed.

Lemma close_step pid h v v' r : vfs_ok v → VfsOps.close pid h v = Ret (v', r) → handles_step pid v v'.
Proof.
  intros Hok. unfold VfsOps.close. intros [(e & Hn & _)|(v1 & path & Hn & Hr)]%eff_bind_inv.
  - apply handle_to_path_inv in Hn as [-> _]. by apply same_handles_step.
  - apply handle_to_path_inv in Hn as [-> Hh].
    erewrite eff_bind_Ok in Hr by (unfold VfsOps.delete_handle; by rewrite Hh).
    eapply step_trans; [by eapply delete_step |]. by eapply path_to_fs_handles.
Qed.

(** What closing all files of a process does to its handles, and to those of others. *)
Lemma close_all_step p v v' : vfs_ok v → VfsOps.close_all_from_process p v = Ret v' → handles_step p v v'.
Proof.
  unfold VfsOps.close_all_from_process. intros Hok Hr.
  assert (∀ l v0, (∀ h i, (h, i) ∈ l → open_handles v !! h = Some i) → handles_step p v v0 →
    for_each (VfsOps.close_of p) v0 l = Ret v' → handles_step p v v') as Hloop.
  2:{ eapply Hloop; [| by apply same_handles_step | exact Hr].
      intros h i Hin. unfold iter_handles in Hin. by rewrite merge_sort_Permutation, elem_of_map_to_list in Hin. }
  clear Hr. induction l as [|[h i] l IH]; intros v0 Hl Hv0; cbn [for_each]; [by intros [= <-] |].
  destruct (VfsOps.close_of p v0 (h, i)) as [v2|] eqn:Ec; cbn [mbind out_bind]; [| done].
  apply IH; [intros; apply Hl; by right |]. revert Ec. unfold VfsOps.close_of. cbn [fst snd].
  destruct (Z.eqb_spec (process_id i) p) as [Hp|]; [| by intros [= <-]].
  destruct (VfsOps.on_fs (file_path i) fs_close v0) as [[v1 [u|e]]|] eqn:E; cbn [mbind out_bind]; [| done..].
  intros [= <-]. apply path_to_fs_handles in E.
  pose proof (step_trans _ _ _ _ Hv0 E) as (H1 & H2 & H3). split_and!; cbn.
  - by apply delete_handle_ok.
  - intros h' i' Hp' Hh'. rewrite lookup_delete_ne; [by apply H2 |]. intros <-.
    rewrite (Hl h i) in Hh' by (by left). congruence.
  - intros h' i' [_ Hh']%lookup_delete_Some. by apply H3.
Qed.

Lemma run_op_step pid op v v' : vfs_ok v → run_op pid op v = Ret v' → handles_step (affects pid op) v v'.
Proof.
  intros Hok.
  destruct op; cbn [run_op affects]; [|intros Hr; (apply state_of_inv in Hr as [r Hr] || idtac)..].
  - intros [= <-]. split_and!; [| done | auto]. by destruct Hok as [? ? ?]; split.
  - unfold VfsOps.unmount in Hr. destruct (mounts v !! path); injection Hr as <- _; [| by apply same_handles_step].
    split_and!; [| done | auto]. by destruct Hok as [? ? ?]; split.
  - apply same_handles_step; [done |]. by eapply path_to_fs_handles.
  - by eapply open_step.
  - by eapply close_step.
  - by apply close_all_step.
  - apply same_handles_step; [done |]. unfold VfsOps.delete in Hr. erewrite eff_bind_Ok in Hr by done.
    destruct (VfsOps.check_file_opened pid path v); [by injection Hr as <- _ | by eapply path_to_fs_handles].
  - apply same_handles_step; [done |]. by eapply path_to_fs_handles.
  - apply same_handles_step; [done |]. unfold VfsOps.read in Hr.
    destruct (VfsOps.handle_to_path pid handle v) as [[v1 [path|e]]|] eqn:E; cbn [mbind out_bind] in Hr; [| | done];
      apply handle_to_path_inv in E as [-> _]; [by eapply path_to_fs_handles | by injection Hr as <- _].
  - apply same_handles_step; [done |]. unfold VfsOps.write in Hr.
    apply eff_bind_inv in Hr as [(e & Hr & _)|(v1 & path & Hh & Hr)]; [by apply handle_to_path_inv in Hr as [-> _] |].
    apply handle_to_path_inv in Hh as [-> _]. by eapply path_to_fs_handles.
  - apply same_handles_step; [done |]. by eapply path_to_fs_handles.
  - apply same_handles_step; [done |]. by eapply path_to_fs_handles.
Qed.

End steps.

(** ** Exit of a process *)

(** A file system that can always close a file. *)
Definition closes (F : Type) `{FileSystem F} : Prop := ∀ rel fs, ∃ fs' : F, fs_close rel fs = Ret (fs', Ok tt).

(** Some mount point covers the path, and none ends inside of a character of it. *)
Definition mounted {F} (v : Vfs F) (path : Path) : Prop := sliceable (mounts v) path ∧ ∃ k, resolves (mounts v) path k.

Lemma dom_is_Some {F} (m m' : gmap Path F) k : dom m' = dom m → is_Some (m' !! k) ↔ is_Some (m !! k).
Proof. intros Hd. rewrite <- !elem_of_dom. by rewrite Hd. Qed.

Lemma same_handles_mounted {F} (v v' : Vfs F) path : same_handles v v' → mounted v path → mounted v' path.
Proof.
  intros (_ & _ & Hd) [Hs (k & Hk & Hc & Hmax)]. split.
  - intros k'. rewrite (dom_is_Some (mounts v)) by done. apply Hs.
  - exists k. split_and!; [by rewrite (dom_is_Some (mounts v)) | done |].
    intros k'. rewrite (dom_is_Some (mounts v)) by done. apply Hmax.
Qed.

Section exit.
Context {F : Type} `{FileSystem F}.
Implicit Types (v : Vfs F) (path : Path).

Lemma close_mounted v path :
  closes F → mounted v path → ∃ v', VfsOps.on_fs path fs_close v = Ret (v', Ok tt) ∧ same_handles v v'.
Proof.
  intros Hcl [Hs (k & Hr)]. pose proof Hr as ([fs Hfs] & (_ & rel & Hrel & _) & _).
  destruct (Hcl rel fs) as [fs' Hclose].
  exists (mkVfs (<[k := fs']> (mounts v)) (open_handles v) (handle_counter v)).
  assert (VfsOps.on_fs path fs_close v = Ret (mkVfs (<[k := fs']> (mounts v)) (open_handles v) (handle_counter v), Ok tt)) as Heq.
  { unfold VfsOps.on_fs. rewrite (path_to_fs_ok v path k rel fs) by done. by rewrite Hclose. }
  split; [done |]. by eapply path_to_fs_handles.
Qed.

(** One turn of the loop over the handles. *)
Lemma close_of_ok p v h i :
  closes F → (process_id i = p → mounted v (file_path i)) →
  ∃ v', VfsOps.close_of p v (h, i) = Ret v' ∧ handle_counter v' = handle_counter v ∧ dom (mounts v') = dom (mounts v) ∧
    open_handles v' = if process_id i =? p then delete h (open_handles v) else open_handles v.
Proof.
  intros Hcl Hm. unfold VfsOps.close_of. cbn [fst snd]. destruct (Z.eqb_spec (process_id i) p) as [Hp|]; [| by exists v].
  destruct (close_mounted v (file_path i)) as (v' & -> & Ho & Hc & Hd); [done | auto |]. cbn [mbind out_bind].
  eexists. split; [done |]. cbn. by rewrite Ho.
Qed.

Lemma mounted_dom v v' path : dom (mounts v') = dom (mounts v) → mounted v path → mounted v' path.
Proof.
  intros Hd Hm. apply (same_handles_mounted (mkVfs (mounts v) (open_handles v') (handle_counter v'))); [done |].
  destruct Hm. by split.
Qed.

Lemma close_loop p l v :
  closes F → (∀ h i, (h, i) ∈ l → process_id i = p → mounted v (file_path i)) →
  ∃ v', for_each (VfsOps.close_of p) v l = Ret v' ∧ handle_counter v' = handle_counter v ∧
    (∀ h, open_handles v !! h = None → open_handles v' !! h = None) ∧
    (∀ h i, (h, i) ∈ l → process_id i = p → open_handles v' !! h = None) ∧
    (∀ h, (∀ i, (h, i) ∈ l → process_id i ≠ p) → open_handles v' !! h = open_handles v !! h).
Proof.
  intros Hcl. revert v. induction l as [|[h i] l IH]; intros v Hm.
  { exists v. split_and!; [done | done | done | | done]. intros h i Hin. by apply elem_of_nil in Hin. }
  cbn [for_each]. destruct (close_of_ok p v h i) as (v1 & -> & Hc1 & Hd1 & Ho1); [done | intros; eapply Hm; [by left | done] |].
  cbn [mbind out_bind]. destruct (IH v1) as (v' & -> & Hc & Hnone & Hgone & Hkeep).
  { intros h' i' Hin Hp. apply (mounted_dom v); [done |]. eapply Hm; [by right | done]. }
  assert (∀ h', open_handles v !! h' = None → open_handles v1 !! h' = None) as Hnone1.
  { intros h' Hh'. rewrite Ho1. destruct (_ =? _); [| done]. apply lookup_delete_None. auto. }
  exists v'. split_and!; [done | lia | auto | |].
  - intros h' i' [[= -> ->]|Hin]%elem_of_cons Hp; [| by apply (Hgone h' i')].
    apply Hnone. rewrite Ho1, (proj2 (Z.eqb_eq _ _)) by done. apply lookup_delete_eq.
  - intros h' Hn. rewrite Hkeep by (intros i' Hin; apply Hn; by right). rewrite Ho1.
    destruct (Z.eqb_spec (process_id i) p) as [Hp|]; [| done].
    apply lookup_delete_ne. intros <-. by apply (Hn i); [left |].
Qed.

Lemma elem_of_iter_handles v h i : (h, i) ∈ iter_handles (open_handles v) ↔ open_handles v !! h = Some i.
Proof. unfold iter_handles. by rewrite merge_sort_Permutation, elem_of_map_to_list. Qed.

(** All files of the process are closed, those of others stay open. *)
Lemma close_all_ok p v :
  closes F → (∀ h i, open_handles v !! h = Some i → process_id i = p → mounted v (file_path i)) →
  ∃ v', VfsOps.close_all_from_process p v = Ret v' ∧
    ∀ h i, open_handles v' !! h = Some i ↔ open_handles v !! h = Some i ∧ process_id i ≠ p.
Proof.
  intros Hcl Hm. destruct (close_loop p (iter_handles (open_handles v)) v) as (v' & Hr & _ & Hnone & Hgone & Hkeep); [done | |].
  { intros h i Hin%elem_of_iter_handles. by apply (Hm h i). }
  exists v'. split; [done |]. intros h i. destruct (open_handles v !! h) as [i0|] eqn:E.
  2:{ rewrite (Hnone h E). naive_solver. }
  destruct (decide (process_id i0 = p)) as [Hp|Hp].
  - rewrite (Hgone h i0) by (by rewrite ?elem_of_iter_handles). naive_solver.
  - rewrite Hkeep; [rewrite E; naive_solver |]. intros i' Hin%elem_of_iter_handles. congruence.
Qed.

(** A process that has a file open whose path no mount point covers brings down the kernel when it exits. *)
Lemma close_loop_panics p l v h i :
  (h, i) ∈ l → process_id i = p → sliceable (mounts v) (file_path i) →
  (∀ k, is_Some (mounts v !! k) → ¬ covers k (file_path i)) → for_each (VfsOps.close_of p) v l = Panic.
Proof.
  intros Hin Hp Hs Hn. revert v Hs Hn. induction l as [|[h' i'] l IH]; intros v Hs Hn; [by apply elem_of_nil in Hin |].
  cbn [for_each]. apply elem_of_cons in Hin as [[= <- <-]|Hin].
  - assert (VfsOps.close_of p v (h, i) = Panic) as ->; [| done].
    unfold VfsOps.close_of. cbn [fst snd]. rewrite (proj2 (Z.eqb_eq _ _)) by done.
    unfold VfsOps.on_fs. rewrite path_to_fs_none by done. done.
  - destruct (VfsOps.close_of p v (h', i')) as [v1|] eqn:E; [| done]. cbn [mbind out_bind].
    assert (dom (mounts v1) = dom (mounts v)) as Hd.
    { revert E. unfold VfsOps.close_of. destruct (_ =? _); [| by intros [= <-]].
      destruct (VfsOps.on_fs _ _ _) as [[v2 [u|e]]|] eqn:E; cbn; [| done..]. intros [= <-].
      by apply path_to_fs_handles in E as (_ & _ & ?). }
    apply IH; [done | |].
    + intros k. rewrite (dom_is_Some (mounts v)) by done. apply Hs.
    + intros k. rewrite (dom_is_Some (mounts v)) by done. apply Hn.
Qed.

End exit.
