(* ===== verification/DevFs.v ===== *)
(** * The file system of devices

    [kernel/foundry/storage/src/fs/dev.rs]: a list of devices with their paths. *)

From S2P Require Import Prelude NetUtils Vfs.

(** The trait [KernelDevice] of [beskar-core/src/storage.rs], on the state [D] of a device; [read] updates
    the buffer. *)
Class KernelDevice (D : Type) := {
  dev_read : list Z → Z → D → out (D * (list Z * result unit BlockDeviceError));
  dev_write : list Z → Z → D → out (D * result unit BlockDeviceError);
  on_open : D → D;
  on_close : D → D;
}.

Record DeviceFile {D : Type} := mkDeviceFile { df_path : Path; device : D }.
Arguments DeviceFile D : clear implicits.
Arguments mkDeviceFile {D} _ _.

(** [DeviceFS] is the vector of its devices. *)
Definition DeviceFS (D : Type) : Type := list (DeviceFile D).

Module DeviceFS.
Section ops.
Context {D : Type} `{KernelDevice D}.

Definition new : DeviceFS D := [].
Definition add_device (self : DeviceFS D) (path : Path) (device : D) : DeviceFS D := self ++ [mkDeviceFile path device].

(** [iter().position()], then [Vec::remove] *)
Fixpoint remove_device (self : DeviceFS D) (path : Path) : option (D * DeviceFS D) :=
  match self with
  | [] => None
  | f :: fs =>
      if bool_decide (df_path f = path) then Some (device f, fs)
      else match remove_device fs path with Some (d, fs) => Some (d, f :: fs) | None => None end
  end.

(** [for device in &mut self.devices]: all devices at the path are told. *)
Definition tell (g : D → D) (path : Path) (self : DeviceFS D) : DeviceFS D :=
  (λ f, if bool_decide (df_path f = path) then mkDeviceFile (df_path f) (g (device f)) else f) <$> self.

Definition close (path : Path) : eff (DeviceFS D) FileError unit := λ self, Ret (tell on_close path self, Ok tt).
Definition create (path : Path) : eff (DeviceFS D) FileError unit := throw UnsupportedOperation.
Definition delete (path : Path) : eff (DeviceFS D) FileError unit := throw UnsupportedOperation.
Definition exists_ (path : Path) : eff (DeviceFS D) FileError bool := λ self,
  Ret (self, Ok (existsb (λ f, bool_decide (df_path f = path)) self)).
Definition open (path : Path) : eff (DeviceFS D) FileError unit := λ self, Ret (tell on_open path self, Ok tt).

(** The loops return at the first device with the path. *)
Fixpoint read (path : Path) (buffer : list Z) (offset : Z) (self : DeviceFS D)
    : out (DeviceFS D * (list Z * result Z FileError)) :=
  match self with
  | [] => Ret ([], (buffer, Err NotFound))
  | f :: fs =>
      if bool_decide (df_path f = path) then
        '(d, (buffer, r)) ← dev_read buffer offset (device f);
        Ret (mkDeviceFile (df_path f) d :: fs,
             (buffer, match r with Ok _ => Ok (len buffer) | Err e => Err (file_error_of e) end))
      else
        '(fs, r) ← read path buffer offset fs;
        Ret (f :: fs, r)
  end.

Fixpoint write (path : Path) (buffer : list Z) (offset : Z) (self : DeviceFS D) : out (DeviceFS D * result Z FileError) :=
  match self with
  | [] => Ret ([], Err NotFound)
  | f :: fs =>
      if bool_decide (df_path f = path) then
        '(d, r) ← dev_write buffer offset (device f);
        Ret (mkDeviceFile (df_path f) d :: fs, match r with Ok _ => Ok (len buffer) | Err e => Err (file_error_of e) end)
      else
        '(fs, r) ← write path buffer offset fs;
        Ret (f :: fs, r)
  end.

Definition metadata (path : Path) : eff (DeviceFS D) FileError FileMetadata := λ self,
  Ret (self, if existsb (λ f, bool_decide (df_path f = path)) self then Ok (mkFileMetadata 0 File) else Err NotFound).

Definition read_dir (path : Path) : eff (DeviceFS D) FileError (list Path) := λ self,
  if bool_decide (path = [SLASH]) then Ret (self, Ok (df_path <$> self)) else Ret (self, Err NotFound).

End ops.
End DeviceFS.

Global Instance device_file_system {D} `{KernelDevice D} : FileSystem (DeviceFS D) := {|
  fs_create := DeviceFS.create;
  fs_delete := DeviceFS.delete;
  fs_exists := DeviceFS.exists_;
  fs_open := DeviceFS.open;
  fs_close := DeviceFS.close;
  fs_read := DeviceFS.read;
  fs_write := DeviceFS.write;
  fs_metadata := DeviceFS.metadata;
  fs_read_dir := DeviceFS.read_dir;
|}.

(** ** Lemmas *)

Section lemmas.
Context {D : Type} `{KernelDevice D}.
Implicit Types (fs : DeviceFS D) (path : Path).

Lemma device_fs_closes : closes (DeviceFS D).
Proof. intros path fs. by eexists. Qed.

(** The first device with the path. *)
Definition first_device fs path (pre : DeviceFS D) (d : D) (post : DeviceFS D) : Prop :=
  fs = pre ++ mkDeviceFile path d :: post ∧ Forall (λ f, df_path f ≠ path) pre.

Lemma dev_fs_read_ok fs path pre d post buffer offset d' buffer' r :
  first_device fs path pre d post → dev_read buffer offset d = Ret (d', (buffer', r)) →
  DeviceFS.read path buffer offset fs =
  Ret (pre ++ mkDeviceFile path d' :: post,
       (buffer', match r with Ok _ => Ok (len buffer') | Err e => Err (file_error_of e) end)).
Proof.
  intros [-> Hpre] Hr. induction Hpre as [|f pre Hf _ IH]; cbn.
  - rewrite bool_decide_true by done. by rewrite Hr.
  - rewrite bool_decide_false by done. by rewrite IH.
Qed.

Lemma dev_fs_write_ok fs path pre d post buffer offset d' r :
  first_device fs path pre d post → dev_write buffer offset d = Ret (d', r) →
  DeviceFS.write path buffer offset fs =
  Ret (pre ++ mkDeviceFile path d' :: post, match r with Ok _ => Ok (len buffer) | Err e => Err (file_error_of e) end).
Proof.
  intros [-> Hpre] Hr. induction Hpre as [|f pre Hf _ IH]; cbn.
  - rewrite bool_decide_true by done. by rewrite Hr.
  - rewrite bool_decide_false by done. by rewrite IH.
Qed.

Lemma dev_fs_missing fs path buffer offset :
  Forall (λ f, df_path f ≠ path) fs →
  DeviceFS.read path buffer offset fs = Ret (fs, (buffer, Err NotFound)) ∧
  DeviceFS.write path buffer offset fs = Ret (fs, Err NotFound).
Proof.
  induction 1 as [|f fs Hf _ [IH1 IH2]]; cbn; [done |].
  rewrite !bool_decide_false by done. by rewrite IH1, IH2.
Qed.

End lemmas.
