(* ===== verification/InMem.v ===== *)
(** * The in-memory file system

    [kernel/foundry/storage/src/fs/in_mem.rs]: a read-only file system in one slice of memory, in which
    each file is preceded by a header with its name and size. *)

From S2P Require Import Prelude NetUtils Vfs.

(** ** Strings *)

(** [core::str::from_utf8]: well-formed UTF-8, read character by character. *)
Definition continuation (b : Z) : bool := (0x80 <=? b) && (b <=? 0xBF).
Definition within (b lo hi : Z) : bool := (lo <=? b) && (b <=? hi).

Fixpoint utf8 (l : list Z) : bool :=
  match l with
  | [] => true
  | a :: l =>
      if a <? 0x80 then utf8 l
      else match l with
      | b :: l2 =>
          if within a 0xC2 0xDF then continuation b && utf8 l2
          else match l2 with
          | c :: l3 =>
              if within a 0xE0 0xEF then
                within b (if a =? 0xE0 then 0xA0 else 0x80) (if a =? 0xED then 0x9F else 0xBF) && continuation c && utf8 l3
              else match l3 with
              | d :: l4 =>
                  within a 0xF0 0xF4 &&
                  within b (if a =? 0xF0 then 0x90 else 0x80) (if a =? 0xF4 then 0x8F else 0xBF) &&
                  continuation c && continuation d && utf8 l4
              | [] => false
              end
          | [] => false
          end
      | [] => false
      end
  end.

(** [trim_end_matches('\0')] *)
Fixpoint trim_zeros (l : list Z) : list Z :=
  match l with
  | [] => []
  | a :: l => match trim_zeros l with [] => if a =? 0 then [] else [a] | t => a :: t end
  end.

(** ** Headers *)

Definition from_le_bytes (l : list Z) : Z := from_be_bytes (rev l).
Definition to_le_bytes (n : nat) (x : Z) : list Z := rev (to_be_bytes n x).

Record RawHeader := mkRawHeader { rh_name : list Z; rh_size : Z }.
Definition RAW_HEADER_SIZE : Z := 40.

(** The packed structure at the start of a slice *)
Definition raw_header_at (data : list Z) (cursor : Z) : RawHeader :=
  mkRawHeader (sub_list data cursor (cursor + 32)) (from_le_bytes (sub_list data (cursor + 32) (cursor + 40))).

Record FileInfo := mkFileInfo { fi_name : list Z; fi_size : Z; fi_offset : Z }.

Module FileInfo.
Definition new (raw_header : RawHeader) (offset : Z) : FileInfo := mkFileInfo (rh_name raw_header) (rh_size raw_header) offset.
Definition name (self : FileInfo) : out (list Z) := if utf8 (fi_name self) then Ret (trim_zeros (fi_name self)) else Panic.
End FileInfo.

Inductive InMemoryFSError := BufferTooSmall | InvalidHeaderSize | InvalidHeaderName.

Record InMemoryFS := mkInMemoryFS { raw : list Z; infos : list FileInfo }.

Module InMemoryFS.

(** [while cursor < data.len()] *)
Fixpoint new_loop (fuel : nat) (data : list Z) (infos : list FileInfo) (cursor : Z) : out (result (list FileInfo) InMemoryFSError) :=
  match fuel with
  | O => Panic
  | S fuel =>
      if cursor <? len data then
        if len data <? saturating_add 64 cursor RAW_HEADER_SIZE then Ret (Err BufferTooSmall)
        else
          let raw_header := raw_header_at data cursor in
          cursor ← add_w 64 cursor RAW_HEADER_SIZE;
          if len data <? saturating_add 64 (rh_size raw_header) cursor then Ret (Err InvalidHeaderSize)
          else if negb (utf8 (rh_name raw_header)) then Ret (Err InvalidHeaderName)
          else
            let infos := infos ++ [FileInfo.new raw_header cursor] in
            cursor ← add_w 64 cursor (rh_size raw_header);
            new_loop fuel data infos cursor
      else Ret (Ok infos)
  end.

(** Every turn moves the cursor forward by a header at least. *)
Definition new (data : list Z) : out (result InMemoryFS InMemoryFSError) :=
  r ← (if len data =? 0 then Ret (Ok []) else new_loop (S (length data)) data [] 0);
  Ret (match r with Ok infos => Ok (mkInMemoryFS data infos) | Err e => Err e end).

(** [self.infos.iter().find(|file| file.name() == path)] *)
Fixpoint find (path : Path) (l : list FileInfo) : out (option FileInfo) :=
  match l with
  | [] => Ret None
  | f :: l => n ← FileInfo.name f; if bool_decide (n = path) then Ret (Some f) else find path l
  end.

Definition exists_ (path : Path) : eff InMemoryFS FileError bool := λ self,
  r ← find path (infos self); Ret (self, Ok (match r with Some _ => true | None => false end)).

Definition open (path : Path) : eff InMemoryFS FileError unit := mret tt.
Definition close (path : Path) : eff InMemoryFS FileError unit := mret tt.
Definition create (path : Path) : eff InMemoryFS FileError unit := throw UnsupportedOperation.
Definition delete (path : Path) : eff InMemoryFS FileError unit := throw UnsupportedOperation.
Definition write (path : Path) (buffer : list Z) (offset : Z) : eff InMemoryFS FileError Z := throw UnsupportedOperation.

Definition read (path : Path) (buffer : list Z) (offset : Z) (self : InMemoryFS) : out (InMemoryFS * (list Z * result Z FileError)) :=
  r ← find path (infos self);
  match r with
  | None => Ret (self, (buffer, Err NotFound))
  | Some file =>
      let read_bytes := Z.min (saturating_sub (fi_size file) offset) (len buffer) in
      start_offset ← add_w 64 (fi_offset file) offset;
      e ← add_w 64 start_offset read_bytes;
      src ← slice (raw self) start_offset e;
      buffer ← copy_from_slice buffer 0 read_bytes src;
      Ret (self, (buffer, Ok read_bytes))
  end.

Definition metadata (path : Path) : eff InMemoryFS FileError FileMetadata := λ self,
  r ← find path (infos self);
  Ret (self, match r with Some file => Ok (mkFileMetadata (fi_size file) File) | None => Err NotFound end).

Fixpoint names (l : list FileInfo) : out (list Path) :=
  match l with
  | [] => Ret []
  | f :: l => n ← FileInfo.name f; ns ← names l; Ret (n :: ns)
  end.

Definition read_dir (path : Path) : eff InMemoryFS FileError (list Path) := λ self,
  if bool_decide (path = [SLASH]) then ns ← names (infos self); Ret (self, Ok ns) else Ret (self, Err NotFound).

End InMemoryFS.

Global Instance in_memory_file_system : FileSystem InMemoryFS := {|
  fs_create := InMemoryFS.create;
  fs_delete := InMemoryFS.delete;
  fs_exists := InMemoryFS.exists_;
  fs_open := InMemoryFS.open;
  fs_close := InMemoryFS.close;
  fs_read := InMemoryFS.read;
  fs_write := InMemoryFS.write;
  fs_metadata := InMemoryFS.metadata;
  fs_read_dir := InMemoryFS.read_dir;
|}.

(** ** Images *)

(** A file of an image: its name and its contents. *)
Definition file : Type := list Z * list Z.

Definition pad (name : list Z) : list Z := name ++ replicate (32 - length name) 0.
Definition encode_file (f : file) : list Z := pad f.1 ++ to_le_bytes 8 (len f.2) ++ f.2.
Definition encode (fs : list file) : list Z := fs ≫= encode_file.

(** A name that fits into a header and is kept by it. *)
Definition name_ok (name : list Z) : Prop := (length name ≤ 32)%nat ∧ utf8 (pad name) = true ∧ last name ≠ Some 0 ∧ bytes name.

(** ** Lemmas *)

Lemma trim_zeros_app l n : last l ≠ Some 0 → trim_zeros (l ++ replicate n 0) = l.
Proof.
  induction l as [|a l IH]; intros Hl.
  - cbn [app]. induction n as [|n IHn]; cbn [replicate trim_zeros]; [done |]. by rewrite IHn.
  - destruct l as [|b l].
    + cbn [app trim_zeros]. assert (trim_zeros (replicate n 0) = []) as -> by (apply IH; done).
      cbn in Hl. by destruct (Z.eqb_spec a 0); [subst |].
    + cbn [app trim_zeros] in *. rewrite IH by done. done.
Qed.

Lemma len_pad name : (length name ≤ 32)%nat → len (pad name) = 32.
Proof. intros. unfold pad. rewrite len_app. unfold len. rewrite length_replicate. lia. Qed.

Lemma len_to_le n x : len (to_le_bytes n x) = Z.of_nat n.
Proof. unfold to_le_bytes, len. rewrite length_rev. apply len_to_be. Qed.

Lemma len_encode_file (f : file) : (length f.1 ≤ 32)%nat → len (encode_file f) = 40 + len f.2.
Proof. intros. unfold encode_file. rewrite !len_app, len_pad, len_to_le by done. lia. Qed.

(** A part of a concatenation. *)
Lemma sub_middle (pre l post : list Z) lo hi :
  lo = len pre → hi = lo + len l → sub_list (pre ++ l ++ post) lo hi = l.
Proof.
  intros -> ->. unfold sub_list, len. rewrite Nat2Z.id, drop_app_length.
  rewrite take_app_length' by lia. done.
Qed.

Lemma raw_header_encoded pre (f : file) post :
  (length f.1 ≤ 32)%nat → len f.2 < 2 ^ 64 →
  raw_header_at (pre ++ encode_file f ++ post) (len pre) = mkRawHeader (pad f.1) (len f.2).
Proof.
  intros Hn Hl. unfold raw_header_at, encode_file. f_equal.
  - rewrite <- !app_assoc. apply sub_middle; [done |]. by rewrite len_pad.
  - replace (pre ++ (pad f.1 ++ to_le_bytes 8 (len f.2) ++ f.2) ++ post)
      with ((pre ++ pad f.1) ++ to_le_bytes 8 (len f.2) ++ f.2 ++ post) by by rewrite <- !app_assoc.
    rewrite sub_middle; [| by rewrite len_app, len_pad | rewrite len_to_le; lia].
    unfold from_le_bytes, to_le_bytes. rewrite rev_involutive. apply (from_to_be 8).
    split; [apply len_nonneg | done].
Qed.

(** The entries of the files of an image that starts at [off]. *)
Fixpoint infos_of (off : Z) (fs : list file) : list FileInfo :=
  match fs with
  | [] => []
  | f :: fs => mkFileInfo (pad f.1) (len f.2) (off + 40) :: infos_of (off + 40 + len f.2) fs
  end.

Lemma image_loop_ok fuel pre fs infos :
  Forall (λ f : file, name_ok f.1) fs → (length fs < fuel)%nat → len (pre ++ encode fs) < 2 ^ 63 →
  InMemoryFS.new_loop fuel (pre ++ encode fs) infos (len pre) = Ret (Ok (infos ++ infos_of (len pre) fs)).
Proof.
  intros Hok. revert fuel pre infos. induction Hok as [|f fs (Hn & Hu & _ & _) Hok IH]; intros fuel pre infos Hf Hl;
    (destruct fuel as [|fuel]; [cbn in Hf; lia |]); cbn [InMemoryFS.new_loop infos_of].
  - cbn [encode mbind list_bind]. rewrite !app_nil_r, Z.ltb_irrefl. done.
  - change (encode (f :: fs)) with (encode_file f ++ encode fs) in *. rewrite !len_app in *. rewrite len_encode_file in * by done.
    pose proof (len_nonneg f.2). pose proof (len_nonneg pre). pose proof (len_nonneg (encode fs)).
    unfold saturating_add, RAW_HEADER_SIZE. rewrite (proj2 (Z.ltb_lt _ _)), (proj2 (Z.ltb_ge _ _)) by lia.
    rewrite raw_header_encoded by (done || lia). cbn [rh_size rh_name].
    rewrite add_w_ok by lia. cbn [mbind out_bind]. rewrite (proj2 (Z.ltb_ge _ _)) by lia. rewrite Hu. cbn [negb].
    rewrite add_w_ok by lia. cbn [mbind out_bind].
    replace (len pre + 40 + len f.2) with (len (pre ++ encode_file f)) by (rewrite len_app, len_encode_file by done; lia).
    rewrite app_assoc, IH; [| cbn in Hf; lia | rewrite !len_app, len_encode_file by done; lia].
    by rewrite <- app_assoc.
Qed.

Lemma length_encode fs : Forall (λ f : file, name_ok f.1) fs → (length fs ≤ length (encode fs))%nat.
Proof.
  induction 1 as [|f fs (Hn & _) _ IH]; [done |]. change (encode (f :: fs)) with (encode_file f ++ encode fs).
  rewrite length_app. pose proof (len_encode_file f Hn). pose proof (len_nonneg f.2). unfold len in *. cbn [length]. lia.
Qed.

(** An image is read back as the list of its files. *)
Lemma in_mem_new_ok fs :
  Forall (λ f : file, name_ok f.1) fs → len (encode fs) < 2 ^ 63 →
  InMemoryFS.new (encode fs) = Ret (Ok (mkInMemoryFS (encode fs) (infos_of 0 fs))).
Proof.
  intros Hok Hl. unfold InMemoryFS.new. destruct (Z.eqb_spec (len (encode fs)) 0) as [Hz|Hz].
  - pose proof (length_encode fs Hok). unfold len in Hz. destruct fs; [done | cbn [length] in *; lia].
  - pose proof (image_loop_ok (S (length (encode fs))) [] fs []) as Hloop. cbn [app] in Hloop. 
    change (len (@nil Z)) with 0 in Hloop. rewrite Hloop; [done | done | | done]. pose proof (length_encode fs Hok). lia.
Qed.

Lemma file_name_ok (f : file) off : name_ok f.1 → FileInfo.name (mkFileInfo (pad f.1) (len f.2) off) = Ret f.1.
Proof. intros (_ & Hu & Hl & _). unfold FileInfo.name. cbn. rewrite Hu. unfold pad. by rewrite trim_zeros_app. Qed.

(** The first file with a name is found. *)
Lemma find_ok off (pre : list file) (f : file) post :
  Forall (λ f : file, name_ok f.1) (pre ++ f :: post) → f.1 ∉ pre.*1 →
  InMemoryFS.find f.1 (infos_of off (pre ++ f :: post)) =
  Ret (Some (mkFileInfo (pad f.1) (len f.2) (off + len (encode pre) + 40))).
Proof.
  revert off. induction pre as [|g pre IH]; intros off Hok Hn; cbn [app infos_of InMemoryFS.find].
  - apply Forall_cons in Hok as [Hf _]. rewrite file_name_ok by done. cbn [mbind out_bind].
    rewrite bool_decide_true by done. change (len (encode [])) with 0. by rewrite Z.add_0_r.
  - apply Forall_cons in Hok as [Hg Hok]. cbn in Hn. apply not_elem_of_cons in Hn as [Hne Hn].
    rewrite file_name_ok by done. cbn [mbind out_bind]. rewrite bool_decide_false by congruence. rewrite IH by done.
    change (encode (g :: pre)) with (encode_file g ++ encode pre). rewrite len_app, len_encode_file by apply Hg.
    do 3 f_equal. lia.
Qed.

Lemma find_none off (fs : list file) name :
  Forall (λ f : file, name_ok f.1) fs → name ∉ fs.*1 → InMemoryFS.find name (infos_of off fs) = Ret None.
Proof.
  intros Hok. revert off. induction Hok as [|g fs Hg Hok IH]; intros off Hn; cbn [infos_of InMemoryFS.find]; [done |].
  cbn in Hn. apply not_elem_of_cons in Hn as [Hne Hn].
  rewrite file_name_ok by done. cbn [mbind out_bind]. rewrite bool_decide_false by congruence. by apply IH.
Qed.

Lemma names_ok off fs : Forall (λ f : file, name_ok f.1) fs → InMemoryFS.names (infos_of off fs) = Ret (fs.*1).
Proof.
  intros Hok. revert off. induction Hok as [|g fs Hg Hok IH]; intros off; cbn [infos_of InMemoryFS.names]; [done |].
  rewrite file_name_ok by done. cbn [mbind out_bind]. by rewrite IH.
Qed.

(** The bytes that a read of [contents] at [offset] puts into [buffer]. *)
Definition read_result (contents buffer : list Z) (offset : Z) : list Z * Z :=
  let n := Z.min (len contents - offset) (len buffer) in
  (sub_list contents offset (offset + n) ++ sub_list buffer n (len buffer), n).

Lemma sub_of_middle (pre l post : list Z) lo hi :
  0 ≤ lo ≤ hi → hi ≤ len l → sub_list (pre ++ l ++ post) (len pre + lo) (len pre + hi) = sub_list l lo hi.
Proof.
  intros. rewrite <- (sub_sub (pre ++ l ++ post) (len pre) (len pre + len l)) by (pose proof (len_nonneg pre); lia).
  rewrite sub_middle by done. f_equal; lia.
Qed.

Lemma in_mem_read_ok (pre : list file) (f : file) post buffer offset :
  Forall (λ f : file, name_ok f.1) (pre ++ f :: post) → f.1 ∉ pre.*1 → len (encode (pre ++ f :: post)) < 2 ^ 63 →
  0 ≤ offset ≤ len f.2 → len buffer < 2 ^ 63 →
  let self := mkInMemoryFS (encode (pre ++ f :: post)) (infos_of 0 (pre ++ f :: post)) in
  let '(buffer', n) := read_result f.2 buffer offset in
  InMemoryFS.read f.1 buffer offset self = Ret (self, (buffer', Ok n)).
Proof.
  intros Hok Hn Hl Ho Hbl self. unfold read_result, InMemoryFS.read, self. cbn [infos raw].
  rewrite find_ok by done. cbn [mbind out_bind fi_size fi_offset]. rewrite Z.add_0_l.
  replace (saturating_sub (len f.2) offset) with (len f.2 - offset) by (unfold saturating_sub; lia).
  set (n := Z.min (len f.2 - offset) (len buffer)). pose proof (len_nonneg buffer). pose proof (len_nonneg (encode pre)).
  assert (name_ok f.1) as (Hnl & _) by (apply Forall_app in Hok as [_ [? _]%Forall_cons]; done).
  assert (encode (pre ++ f :: post) = (encode pre ++ pad f.1 ++ to_le_bytes 8 (len f.2)) ++ f.2 ++ encode post) as Heq.
  { unfold encode. rewrite bind_app. cbn [mbind list_bind]. unfold encode_file at 2. by rewrite <- !app_assoc. }
  assert (len (encode pre ++ pad f.1 ++ to_le_bytes 8 (len f.2)) = len (encode pre) + 40) as Hpl
    by (rewrite !len_app, len_pad, len_to_le by done; lia).
  pose proof Hl as Hl'. rewrite Heq, !len_app in Hl'. pose proof (len_nonneg (encode post)).
  rewrite len_pad, len_to_le in Hl' by done.
  rewrite !add_w_ok by lia. cbn [mbind out_bind]. rewrite add_w_ok by lia. cbn [mbind out_bind].
  rewrite slice_ok by (rewrite Heq, !len_app, len_pad, len_to_le by done; lia). cbn [mbind out_bind].
  assert (sub_list (encode (pre ++ f :: post)) (len (encode pre) + 40 + offset) (len (encode pre) + 40 + offset + n) =
          sub_list f.2 offset (offset + n)) as ->.
  { rewrite Heq, <- Hpl. rewrite <- Z.add_assoc. apply sub_of_middle; lia. }
  destruct (copy_spec buffer 0 n (sub_list f.2 offset (offset + n))) as (b' & -> & W); [lia | lia | rewrite len_sub_list; lia |].
  cbn [mbind out_bind]. do 3 f_equal. rewrite (w_split _ _ _ _ _ W). by change (sub_list buffer 0 0) with (@nil Z).
Qed.

(** ** Claims *)

(** C25: an image of files, each behind a header with its name and size, is mounted as the file system that
    has these files: they are listed in order, found by their names with their sizes, and reading one
    yields its bytes from the offset on, as many as fit into the buffer; other names are not found. *)
Theorem in_mem_roundtrip (pre : list file) (f : file) (post : list file) :
  Forall (λ f : file, name_ok f.1) (pre ++ f :: post) → f.1 ∉ pre.*1 → len (encode (pre ++ f :: post)) < 2 ^ 63 →
  ∃ self, InMemoryFS.new (encode (pre ++ f :: post)) = Ret (Ok self) ∧
    InMemoryFS.read_dir [SLASH] self = Ret (self, Ok ((pre ++ f :: post).*1)) ∧
    InMemoryFS.exists_ f.1 self = Ret (self, Ok true) ∧
    InMemoryFS.metadata f.1 self = Ret (self, Ok (mkFileMetadata (len f.2) File)) ∧
    (∀ buffer offset, 0 ≤ offset ≤ len f.2 → len buffer < 2 ^ 63 →
      let '(buffer', n) := read_result f.2 buffer offset in
      InMemoryFS.read f.1 buffer offset self = Ret (self, (buffer', Ok n))) ∧
    (∀ name, name ∉ (pre ++ f :: post).*1 →
      InMemoryFS.exists_ name self = Ret (self, Ok false) ∧
      ∀ buffer offset, InMemoryFS.read name buffer offset self = Ret (self, (buffer, Err NotFound))).
Proof.
  intros Hok Hn Hl. exists (mkInMemoryFS (encode (pre ++ f :: post)) (infos_of 0 (pre ++ f :: post))).
  split_and!.
  - by apply in_mem_new_ok.
  - unfold InMemoryFS.read_dir. cbn [infos]. rewrite names_ok by done. done.
  - unfold InMemoryFS.exists_. cbn [infos]. rewrite find_ok by done. done.
  - unfold InMemoryFS.metadata. cbn [infos]. rewrite find_ok by done. done.
  - intros buffer offset Ho Hb. by apply in_mem_read_ok.
  - intros name Hname. unfold InMemoryFS.exists_, InMemoryFS.read. cbn [infos]. rewrite find_none by done. done.
Qed.

Lemma in_mem_roundtrip_witness :
  ∃ self, InMemoryFS.new (encode [([97], [1; 2; 3]); ([98], [4; 5])]) = Ret (Ok self) ∧
    InMemoryFS.read [98] [0; 0; 0] 1 self = Ret (self, ([5; 0; 0], Ok 1)).
Proof.
  destruct (in_mem_roundtrip [([97], [1; 2; 3])] ([98], [4; 5]) []) as (self & Hnew & _ & _ & _ & Hread & _).
  - repeat (apply Forall_cons; split); try (by apply Forall_nil); (split_and!; [cbn; lia | vm_compute; reflexivity | done | by apply Forall_singleton]).
  - vm_compute. intros H. inversion H as [|? ? ? H1]. inversion H1.
  - vm_compute. reflexivity.
  - exists self. split; [exact Hnew |]. exact (Hread [0; 0; 0] 1 ltac:(done) ltac:(done)).
Defined.

(** A read behind the end of the last file panics. *)
Lemma read_past_end_panics :
  ∃ self, InMemoryFS.new (encode [([97], [1; 2; 3])]) = Ret (Ok self) ∧ InMemoryFS.read [97] [0] 4 self = Panic.
Proof.
  exists (mkInMemoryFS (encode [([97], [1; 2; 3])]) (infos_of 0 [([97], [1; 2; 3])])). split; vm_compute; reflexivity.
Qed.

(** ** Arbitrary data *)

(** The contents of a file lie within the data. *)
Definition info_ok (data : list Z) (f : FileInfo) : Prop :=
  0 ≤ fi_size f ∧ 0 ≤ fi_offset f ∧ fi_offset f + fi_size f ≤ len data ∧ utf8 (fi_name f) = true.

Lemma header_size_nonneg data cursor : bytes data → 0 ≤ rh_size (raw_header_at data cursor).
Proof.
  intros Hb. cbn. unfold from_le_bytes. apply from_be_bound. apply Forall_rev. by apply bytes_sub.
Qed.

Lemma new_loop_total fuel data infos cursor :
  bytes data → len data < 2 ^ 63 → 0 ≤ cursor → len data < cursor + Z.of_nat fuel → (0 < fuel)%nat →
  Forall (info_ok data) infos →
  ∃ r, InMemoryFS.new_loop fuel data infos cursor = Ret r ∧ ∀ l, r = Ok l → Forall (info_ok data) l.
Proof.
  intros Hb Hl. revert infos cursor. induction fuel as [|fuel IH]; intros infos cursor Hc Hf Hpos Hi; [lia |].
  cbn [InMemoryFS.new_loop]. unfold saturating_add, RAW_HEADER_SIZE.
  destruct (Z.ltb_spec cursor (len data)); [| eexists; split; [done | by intros l [= <-]]].
  destruct (Z.ltb_spec (len data) (Z.min (cursor + 40) (2 ^ 64 - 1))); [by eexists |].
  rewrite add_w_ok by lia. cbn [mbind out_bind]. pose proof (header_size_nonneg data cursor Hb).
  destruct (Z.ltb_spec (len data) (Z.min (rh_size (raw_header_at data cursor) + (cursor + 40)) (2 ^ 64 - 1))); [by eexists |].
  destruct (utf8 (rh_name (raw_header_at data cursor))) eqn:Hu; cbn [negb]; [| by eexists].
  rewrite add_w_ok by lia. cbn [mbind out_bind]. apply IH; [lia | lia | lia |].
  apply Forall_app. split; [done |]. apply Forall_singleton. split_and!; cbn [FileInfo.new fi_size fi_offset fi_name]; [lia | lia | lia | done].
Qed.

(** Any data is either mounted or rejected with an error.  No file of a mounted image reaches beyond
    the data, so that reading within its size does not panic, whatever the image contains. *)
Theorem in_mem_new_total (data : list Z) :
  bytes data → len data < 2 ^ 63 →
  ∃ r, InMemoryFS.new data = Ret r ∧
  ∀ self, r = Ok self → raw self = data ∧ Forall (info_ok data) (infos self) ∧
    ∀ path, ∃ o, InMemoryFS.find path (infos self) = Ret o ∧
      ∀ f, o = Some f → ∀ buffer offset, 0 ≤ offset ≤ fi_size f → len buffer < 2 ^ 63 →
      ∃ buffer' n, InMemoryFS.read path buffer offset self = Ret (self, (buffer', Ok n)) ∧ len buffer' = len buffer.
Proof.
  intros Hb Hl. unfold InMemoryFS.new.
  assert (∃ r, (if len data =? 0 then Ret (Ok []) else InMemoryFS.new_loop (S (length data)) data [] 0) = Ret r ∧
    ∀ l, r = Ok l → Forall (info_ok data) l) as (r & -> & Hr).
  { destruct (len data =? 0); [eexists; split; [done | by intros l [= <-]] |].
    apply new_loop_total; [done | done | done | unfold len; lia | lia | done]. }
  cbn [mbind out_bind]. eexists. split; [done |]. intros self Hself.
  destruct r as [l|e]; [| done]. injection Hself as <-. specialize (Hr l eq_refl). cbn [raw infos].
  split_and!; [done | done |]. intros path.
  assert (∃ o, InMemoryFS.find path l = Ret o ∧ ∀ f, o = Some f → info_ok data f) as (o & Hfind & Ho).
  { clear -Hr. induction Hr as [|f l Hf Hl IH]; cbn [InMemoryFS.find]; [by eexists |].
    unfold FileInfo.name. destruct Hf as (? & ? & ? & Hu). rewrite Hu. cbn [mbind out_bind].
    case_bool_decide; [| done]. eexists. split; [done |]. intros g [= <-]. done. }
  exists o. split; [done |]. intros f -> buffer offset Hoff Hbuf. destruct (Ho f eq_refl) as (? & ? & ? & _).
  unfold InMemoryFS.read. cbn [infos raw]. rewrite Hfind. cbn [mbind out_bind].
  replace (saturating_sub (fi_size f) offset) with (fi_size f - offset) by (unfold saturating_sub; lia).
  set (n := Z.min (fi_size f - offset) (len buffer)). pose proof (len_nonneg buffer).
  rewrite add_w_ok by lia. cbn [mbind out_bind]. rewrite add_w_ok by lia. cbn [mbind out_bind].
  rewrite slice_ok by lia. cbn [mbind out_bind].
  destruct (copy_spec buffer 0 n (sub_list data (fi_offset f + offset) (fi_offset f + offset + n))) as (b' & -> & W);
    [lia | lia | rewrite len_sub_list; lia |].
  exists b', n. split; [done | apply W].
Qed.

Lemma in_mem_new_total_witness : ∃ r, InMemoryFS.new [1; 2; 3] = Ret r.
Proof.
  destruct (in_mem_new_total [1; 2; 3]) as (r & Hr & _); [| done | by exists r].
  repeat (apply Forall_cons; split; [done |]). by apply Forall_nil.
Defined.
