(* ===== verification/VfsSpec.v ===== *)
(** * What the virtual file system promises

    The resolution of paths, the safety of handles, the life of an open file and the exit of a process,
    for any file systems, and the file systems that the kernel mounts. *)

From S2P Require Import Prelude NetUtils Vfs DevFs InMem.

(** ** The file systems of the kernel

    [Box<dyn FileSystem>]: the kernel mounts a file system of devices and in-memory ones. *)
Inductive AnyFs (D : Type) := Devices (fs : DeviceFS D) | Ramdisk (fs : InMemoryFS).
Arguments Devices {D} fs.
Arguments Ramdisk {D} fs.

Definition map_fs {F G R} (inj : F → G) (m : out (F * R)) : out (G * R) := '(fs, r) ← m; Ret (inj fs, r).

Global Instance any_file_system {D} `{KernelDevice D} : FileSystem (AnyFs D) := {|
  fs_create p fs := match fs with Devices d => map_fs Devices (fs_create p d) | Ramdisk r => map_fs Ramdisk (fs_create p r) end;
  fs_delete p fs := match fs with Devices d => map_fs Devices (fs_delete p d) | Ramdisk r => map_fs Ramdisk (fs_delete p r) end;
  fs_exists p fs := match fs with Devices d => map_fs Devices (fs_exists p d) | Ramdisk r => map_fs Ramdisk (fs_exists p r) end;
  fs_open p fs := match fs with Devices d => map_fs Devices (fs_open p d) | Ramdisk r => map_fs Ramdisk (fs_open p r) end;
  fs_close p fs := match fs with Devices d => map_fs Devices (fs_close p d) | Ramdisk r => map_fs Ramdisk (fs_close p r) end;
  fs_read p b o fs := match fs with Devices d => map_fs Devices (fs_read p b o d) | Ramdisk r => map_fs Ramdisk (fs_read p b o r) end;
  fs_write p b o fs := match fs with Devices d => map_fs Devices (fs_write p b o d) | Ramdisk r => map_fs Ramdisk (fs_write p b o r) end;
  fs_metadata p fs := match fs with Devices d => map_fs Devices (fs_metadata p d) | Ramdisk r => map_fs Ramdisk (fs_metadata p r) end;
  fs_read_dir p fs := match fs with Devices d => map_fs Devices (fs_read_dir p d) | Ramdisk r => map_fs Ramdisk (fs_read_dir p r) end;
|}.

Lemma any_fs_closes {D} `{KernelDevice D} : closes (AnyFs D).
Proof. intros p [d|r]; by eexists. Qed.

(** A device that stores what is written to it. *)
Global Instance memory_device : KernelDevice (list Z) := {|
  dev_read buffer offset d := Ret (d, (buffer, Err BdUnsupported));
  dev_write buffer offset d := Ret (d ++ buffer, Ok tt);
  on_open d := d;
  on_close d := d;
|}.

Definition dev_path : Path := [47; 100; 101; 118].
Definition out_path : Path := [47; 111; 117; 116].
Definition demo_vfs : Vfs (AnyFs (list Z)) :=
  VfsOps.mount dev_path (Devices (DeviceFS.add_device DeviceFS.new out_path [])) VfsOps.new.

(** ** Claims *)

(** C24: a path is resolved to the longest mount point that is a prefix of it and ends where a component
    of it ends; there is at most one.  The operation is carried out by the file system that is mounted
    there, with the rest of the path, and no other file system and no handle changes; without such a
    mount point nothing changes and the path is invalid.  This needs a path that can be cut at the length
    of every mount point, as one of ASCII characters can: where a character of several bytes lies across
    such a length the search panics. *)
Theorem vfs_resolution {F R} (v : Vfs F) (path : Path) (bad : R) (f : Path → F → out (F * R)) :
  sliceable (mounts v) path →
  (∀ k rel fs, resolves (mounts v) path k → path = k ++ rel → mounts v !! k = Some fs →
    (∀ k', resolves (mounts v) path k' → k' = k) ∧
    VfsOps.path_to_fs path bad f v =
    ('(fs', r) ← f rel fs; Ret (mkVfs (<[k := fs']> (mounts v)) (open_handles v) (handle_counter v), r))) ∧
  ((∀ k, is_Some (mounts v !! k) → ¬ covers k path) → VfsOps.path_to_fs path bad f v = Ret (v, bad)) ∧
  ((∃ k, resolves (mounts v) path k) ∨ (∀ k, is_Some (mounts v !! k) → ¬ covers k path)).
Proof.
  intros Hs. split_and!.
  - intros k rel fs Hr Hrel Hfs. split; [| by apply path_to_fs_ok].
    intros k' Hr'. by apply (resolves_unique (mounts v) path).
  - intros Hn. by apply path_to_fs_none.
  - destruct (best_mount_ok path v Hs) as [(k & Hr & _)|[Hn _]]; eauto.
Qed.

Lemma vfs_resolution_witness :
  VfsOps.metadata (dev_path ++ out_path) demo_vfs = Ret (demo_vfs, Ok (mkFileMetadata 0 File)) ∧
  VfsOps.metadata (dev_path ++ [105]) demo_vfs = Ret (demo_vfs, Err InvalidPath).
Proof.
  split; [vm_compute; reflexivity |].
  assert (sliceable (mounts demo_vfs) (dev_path ++ [105])) as Hs.
  { apply ascii_sliceable. repeat (apply Forall_cons; split; [done |]). by apply Forall_nil. }
  destruct (vfs_resolution demo_vfs (dev_path ++ [105]) (Err InvalidPath) fs_metadata Hs) as (_ & Hnone & _).
  apply Hnone. intros k [fs Hk] (_ & rest & Heq & Hr).
  unfold demo_vfs, VfsOps.mount, VfsOps.new in Hk. cbn [mounts] in Hk.
  apply lookup_insert_Some in Hk as [[<- _]|[_ Hk]]; [| by rewrite lookup_empty in Hk].
  injection Heq as <-. destruct Hr as [Hr|[Hr|Hr]]; discriminate Hr.
Defined.

(** The states that any sequence of operations of any processes leads to. *)
Inductive reachable {F} `{FileSystem F} : Vfs F → Prop :=
| reachable_new : reachable VfsOps.new
| reachable_step pid op v v' : reachable v → run_op pid op v = Ret v' → reachable v'.

Lemma new_vfs_ok {F} : vfs_ok (F := F) VfsOps.new.
Proof. split; cbn; [intros h i Hh | lia | intros h1 h2 i1 i2 Hh]; by rewrite lookup_empty in Hh. Qed.

Lemma reachable_ok {F} `{FileSystem F} (v : Vfs F) : reachable v → vfs_ok v.
Proof. induction 1 as [|pid op v v' _ IH Hr]; [apply new_vfs_ok |]. by apply (run_op_step pid op v v' IH Hr). Qed.

(** C9: handles are safe in every state that operations of any processes lead to, whatever the file
    systems do.  No process has a file open twice.  A process cannot read, write or close through a
    handle of another one, and its operations do not change the handles of others; a handle that appears
    belongs to the process that opened the file, and has a number that no open file has. *)
Theorem vfs_handles_safe {F} `{FileSystem F} (v : Vfs F) :
  reachable v →
  vfs_ok v ∧
  ∀ pid op v', run_op pid op v = Ret v' →
    (∀ h i, process_id i ≠ affects pid op → open_handles v !! h = Some i → open_handles v' !! h = Some i) ∧
    (∀ h i, open_handles v' !! h = Some i → open_handles v !! h = None →
      process_id i = affects pid op ∧ h = handle_counter v) ∧
    (∀ h i buffer offset, open_handles v !! h = Some i → process_id i ≠ pid →
      VfsOps.read pid h buffer offset v = Ret (v, (buffer, Err PermissionDenied)) ∧
      VfsOps.write pid h buffer offset v = Ret (v, Err PermissionDenied) ∧
      VfsOps.close pid h v = Ret (v, Err PermissionDenied)).
Proof.
  intros Hv%reachable_ok. split; [done |]. intros pid op v' Hr.
  destruct (run_op_step pid op v v' Hv Hr) as (_ & Hkeep & Hnew). split_and!; [done | |].
  - intros h i Hh Hno. destruct (Hnew h i Hh) as [Hh'|?]; [congruence | done].
  - intros h i buffer offset Hh Hp.
    assert (VfsOps.handle_to_path pid h v = Ret (v, Err PermissionDenied)) as Hden.
    { unfold VfsOps.handle_to_path. by rewrite Hh, (proj2 (Z.eqb_neq _ _)). }
    unfold VfsOps.read, VfsOps.write, VfsOps.close. rewrite !(eff_bind_Err _ _ _ _ _ Hden), Hden. done.
Qed.

Lemma vfs_handles_safe_witness :
  ∃ v, run_op 1 (OpOpen (dev_path ++ out_path)) demo_vfs = Ret v ∧ VfsOps.write 2 0 [7] 0 v = Ret (v, Err PermissionDenied).
Proof.
  assert (reachable demo_vfs) as H0.
  { apply (reachable_step 0 (OpMount dev_path (Devices (DeviceFS.add_device DeviceFS.new out_path []))) VfsOps.new);
      [apply reachable_new | reflexivity]. }
  destruct (run_op 1 (OpOpen (dev_path ++ out_path)) demo_vfs) as [v|] eqn:E; [| vm_compute in E; discriminate E].
  exists v. split; [reflexivity |].
  destruct (vfs_handles_safe v (reachable_step _ _ _ _ H0 E)) as [_ Hsafe].
  destruct (Hsafe 2 (OpClose 0) v) as (_ & _ & Hden).
  - vm_compute in E. injection E as <-. vm_compute. reflexivity.
  - apply (Hden 0 (mkOpenFileInfo 1 (dev_path ++ out_path)) [7] 0); [| discriminate].
    vm_compute in E. injection E as <-. vm_compute. reflexivity.
Defined.

(** The life of an open file. *)
Lemma open_use_close_ok {F} `{FileSystem F} (v : Vfs F) (pid : Z) (path k rel : Path) (fs fs' : F) :
  vfs_ok v → 0 ≤ handle_counter v → sliceable (mounts v) path → resolves (mounts v) path k → path = k ++ rel →
  mounts v !! k = Some fs → fs_open rel fs = Ret (fs', Ok tt) →
  (∀ h, open_handles v !! h ≠ Some (mkOpenFileInfo pid path)) →
  let h := handle_counter v in
  ∃ v', VfsOps.open pid path v = Ret (v', Ok h) ∧ open_handles v !! h = None ∧ mounts v' = <[k := fs']> (mounts v) ∧
    (∀ buffer offset fs2 r, fs_read rel buffer offset fs' = Ret (fs2, r) →
      VfsOps.read pid h buffer offset v' = Ret (mkVfs (<[k := fs2]> (mounts v)) (open_handles v') (handle_counter v'), r)) ∧
    (∀ buffer offset fs2 r, fs_write rel buffer offset fs' = Ret (fs2, r) →
      VfsOps.write pid h buffer offset v' = Ret (mkVfs (<[k := fs2]> (mounts v)) (open_handles v') (handle_counter v'), r)) ∧
    VfsOps.open pid path v' = Ret (v', Err PermissionDenied) ∧
    (∀ fs2 r, fs_close rel fs' = Ret (fs2, r) →
      ∃ v2, VfsOps.close pid h v' = Ret (v2, r) ∧ open_handles v2 = open_handles v ∧ mounts v2 = <[k := fs2]> (mounts v) ∧
        VfsOps.close pid h v2 = Ret (v2, Err InvalidHandle)).
Proof.
  intros Hok Hc Hs Hr Hrel Hfs Hopen Hno h.
  set (v1 := mkVfs (mounts v) (<[h := mkOpenFileInfo pid path]> (open_handles v)) (cast_signed 64 (wrapping_add 64 h 1))).
  set (v' := mkVfs (<[k := fs']> (mounts v)) (open_handles v1) (handle_counter v1)).
  assert (open_handles v !! h = None) as Hfresh.
  { destruct (open_handles v !! h) as [i|] eqn:E; [| done]. apply Hok in E as [_ Hlt]. specialize (Hlt Hc). unfold h in Hlt. lia. }
  assert (dom (mounts v') = dom (mounts v)) as Hd by (cbn; rewrite dom_insert_L; apply elem_of_dom_2 in Hfs; set_solver).
  assert (sliceable (mounts v') path) as Hs' by (intros k'; rewrite (dom_is_Some (mounts v)) by done; apply Hs).
  assert (resolves (mounts v') path k) as Hr'.
  { destruct Hr as (Hk & Hcov & Hmax). split_and!; [by rewrite (dom_is_Some (mounts v)) | done |].
    intros k'. rewrite (dom_is_Some (mounts v)) by done. apply Hmax. }
  assert (mounts v' !! k = Some fs') as Hfs' by apply lookup_insert_eq.
  assert (VfsOps.handle_to_path pid h v' = Ret (v', Ok path)) as Hpath.
  { unfold VfsOps.handle_to_path. cbn. by rewrite lookup_insert_eq, Z.eqb_refl. }
  exists v'. split_and!; [| done | done | | | |].
  - unfold VfsOps.open. rewrite (eff_bind_Ok _ _ _ v1 h) by (by apply new_handle_ok).
    rewrite (eff_bind_Ok _ _ _ v' tt); [done |].
    unfold VfsOps.on_fs. rewrite (path_to_fs_ok v1 path k rel fs) by done. by rewrite Hopen.
  - intros buffer offset fs2 r Hread. unfold VfsOps.read. rewrite Hpath. cbn [mbind out_bind].
    rewrite (path_to_fs_ok v' path k rel fs') by done. rewrite Hread. cbn. by rewrite insert_insert_eq.
  - intros buffer offset fs2 r Hwrite. unfold VfsOps.write. rewrite (eff_bind_Ok _ _ _ _ _ Hpath). unfold VfsOps.on_fs.
    rewrite (path_to_fs_ok v' path k rel fs') by done. rewrite Hwrite. cbn. by rewrite insert_insert_eq.
  - unfold VfsOps.open. apply eff_bind_Err. unfold VfsOps.new_handle. rewrite (eff_bind_Ok _ _ _ v' true); [done |].
    unfold VfsOps.opened. do 3 f_equal. apply check_file_opened_spec. exists h. apply lookup_insert_eq.
  - intros fs2 r Hclose. exists (mkVfs (<[k := fs2]> (mounts v)) (open_handles v) (handle_counter v1)).
    split_and!; [| done | done |].
    + unfold VfsOps.close. rewrite (eff_bind_Ok _ _ _ _ _ Hpath).
      rewrite (eff_bind_Ok _ _ _ (mkVfs (mounts v') (open_handles v) (handle_counter v1)) tt).
      * unfold VfsOps.on_fs. rewrite (path_to_fs_ok _ path k rel fs') by done. rewrite Hclose. cbn. by rewrite insert_insert_eq.
      * unfold VfsOps.delete_handle. cbn. rewrite lookup_insert_eq. by rewrite delete_insert_id.
    + unfold VfsOps.close. apply eff_bind_Err. unfold VfsOps.handle_to_path. cbn. by rewrite Hfresh.
Qed.

(** The life of an open file.  Opening a path that the process has not open, on a file system that
    opens it, returns a new handle.  Through the handle the process reads and writes the file at the rest
    of the path, and it cannot open the file again; closing the handle closes the file and makes the
    handle invalid. *)
Theorem vfs_open_use_close {F} `{FileSystem F} (v : Vfs F) (pid : Z) (path k rel : Path) (fs fs' : F) :
  vfs_ok v → 0 ≤ handle_counter v → sliceable (mounts v) path → resolves (mounts v) path k → path = k ++ rel →
  mounts v !! k = Some fs → fs_open rel fs = Ret (fs', Ok tt) →
  (∀ h, open_handles v !! h ≠ Some (mkOpenFileInfo pid path)) →
  let h := handle_counter v in
  ∃ v', VfsOps.open pid path v = Ret (v', Ok h) ∧ open_handles v !! h = None ∧ mounts v' = <[k := fs']> (mounts v) ∧
    (∀ buffer offset fs2 r, fs_read rel buffer offset fs' = Ret (fs2, r) →
      VfsOps.read pid h buffer offset v' = Ret (mkVfs (<[k := fs2]> (mounts v)) (open_handles v') (handle_counter v'), r)) ∧
    (∀ buffer offset fs2 r, fs_write rel buffer offset fs' = Ret (fs2, r) →
      VfsOps.write pid h buffer offset v' = Ret (mkVfs (<[k := fs2]> (mounts v)) (open_handles v') (handle_counter v'), r)) ∧
    VfsOps.open pid path v' = Ret (v', Err PermissionDenied) ∧
    (∀ fs2 r, fs_close rel fs' = Ret (fs2, r) →
      ∃ v2, VfsOps.close pid h v' = Ret (v2, r) ∧ open_handles v2 = open_handles v ∧ mounts v2 = <[k := fs2]> (mounts v) ∧
        VfsOps.close pid h v2 = Ret (v2, Err InvalidHandle)).
Proof. apply open_use_close_ok. Qed.

Lemma vfs_open_use_close_witness :
  ∃ v', VfsOps.open 1 (dev_path ++ out_path) demo_vfs = Ret (v', Ok 0) ∧
    VfsOps.open 1 (dev_path ++ out_path) v' = Ret (v', Err PermissionDenied).
Proof.
  destruct (vfs_open_use_close demo_vfs 1 (dev_path ++ out_path) dev_path out_path
    (Devices (DeviceFS.add_device DeviceFS.new out_path [])) (Devices (DeviceFS.add_device DeviceFS.new out_path [])))
    as (v' & H1 & _ & _ & _ & _ & H2 & _).
  - split; cbn; [intros h i Hh | lia | intros h1 h2 i1 i2 Hh]; by rewrite lookup_empty in Hh.
  - cbn. lia.
  - apply ascii_sliceable. repeat (apply Forall_cons; split; [done |]). by apply Forall_nil.
  - split_and!.
    + eexists. vm_compute. reflexivity.
    + split; [discriminate |]. exists out_path. split; [reflexivity |]. right. left. reflexivity.
    + intros k [fs Hk] _. unfold demo_vfs, VfsOps.mount, VfsOps.new in Hk. cbn [mounts] in Hk.
      apply lookup_insert_Some in Hk as [[<- _]|[_ Hk]]; [done | by rewrite lookup_empty in Hk].
  - reflexivity.
  - vm_compute. reflexivity.
  - vm_compute. reflexivity.
  - intros h Hh. cbn in Hh. by rewrite lookup_empty in Hh.
  - exists v'. split; [exact H1 | exact H2].
Defined.

(** What the exit of a process does.  When all files that it has open lie under mount points, they
    are closed, and the files of other processes stay open.  But opening a path that no mount point
    covers, which fails, leaves the handle in the table, and the exit of the process then panics. *)
Theorem vfs_exit {F} `{FileSystem F} (v : Vfs F) (p : Z) :
  closes F → vfs_ok v →
  ((∀ h i, open_handles v !! h = Some i → process_id i = p → mounted v (file_path i)) →
    ∃ v', VfsOps.close_all_from_process p v = Ret v' ∧
      ∀ h i, open_handles v' !! h = Some i ↔ open_handles v !! h = Some i ∧ process_id i ≠ p) ∧
  (∀ path, 0 ≤ handle_counter v → sliceable (mounts v) path → (∀ k, is_Some (mounts v !! k) → ¬ covers k path) →
    (∀ h, open_handles v !! h ≠ Some (mkOpenFileInfo p path)) →
    ∃ v', VfsOps.open p path v = Ret (v', Err InvalidPath) ∧
      open_handles v' = <[handle_counter v := mkOpenFileInfo p path]> (open_handles v) ∧
      VfsOps.close_all_from_process p v' = Panic).
Proof.
  intros Hcl Hok. split; [by apply close_all_ok |]. intros path Hc Hs Hn Hno.
  set (v' := mkVfs (mounts v) (<[handle_counter v := mkOpenFileInfo p path]> (open_handles v))
               (cast_signed 64 (wrapping_add 64 (handle_counter v) 1))).
  exists v'. split_and!; [| done |].
  - unfold VfsOps.open. rewrite (eff_bind_Ok _ _ _ _ _ (new_handle_ok p path v Hc Hno)). apply eff_bind_Err.
    unfold VfsOps.on_fs. by apply path_to_fs_none.
  - unfold VfsOps.close_all_from_process. apply (close_loop_panics p _ v' (handle_counter v) (mkOpenFileInfo p path)); [| done..].
    rewrite elem_of_iter_handles. apply lookup_insert_eq.
Qed.

Lemma vfs_exit_witness :
  ∃ v', VfsOps.open 1 [47; 120] demo_vfs = Ret (v', Err InvalidPath) ∧ VfsOps.close_all_from_process 1 v' = Panic.
Proof.
  destruct (vfs_exit demo_vfs 1) as [_ Hexit].
  - apply any_fs_closes.
  - split; cbn; [intros h i Hh | lia | intros h1 h2 i1 i2 Hh]; by rewrite lookup_empty in Hh.
  - destruct (Hexit [47; 120]) as (v' & H1 & _ & H2).
    + cbn. lia.
    + apply ascii_sliceable. repeat (apply Forall_cons; split; [done |]). by apply Forall_nil.
    + intros k [fs Hk] (_ & rest & Heq & Hr). unfold demo_vfs, VfsOps.mount, VfsOps.new in Hk. cbn [mounts] in Hk.
      apply lookup_insert_Some in Hk as [[<- _]|[_ Hk]]; [discriminate Heq | by rewrite lookup_empty in Hk].
    + intros h Hh. cbn in Hh. by rewrite lookup_empty in Hh.
    + exists v'. split; [exact H1 | exact H2].
Defined.

(** A path in which a character of three bytes begins before the length of a mount point and ends after it
    panics: [/de] and the euro sign, with [/dev] mounted. *)
Lemma cut_character_panics : VfsOps.metadata [47; 100; 101; 0xE2; 0x82; 0xAC] demo_vfs = Panic.
Proof. vm_compute. reflexivity. Qed.
