(* ===== verification/Syscall.v ===== *)
(** * System calls

    [kernel/src/syscall.rs] and [beskar-core/src/syscall.rs]: the calls of a process for its memory and
    its files, from the values of its registers, and the encoding of numbers and results.  The call of
    the scheduler that ends or parks the thread is the outcome of a call. *)

From S2P Require Import Prelude NetUtils Addrs Paging Ranges PageTable PageTree PageMap KernelMem Vfs InMem.

(** ** Numbers and results *)

Inductive Syscall := Exit | Open | Close | Read | Write | MemoryMap | MemoryProtect | Sleep | WaitOnEvent.

Module Syscall.

Definition try_from (x : Z) : option Syscall :=
  match x with
  | 0 => Some Exit
  | 1 => Some Open
  | 2 => Some Close
  | 3 => Some Read
  | 4 => Some Write
  | 5 => Some MemoryMap
  | 6 => Some MemoryProtect
  | 7 => Some Sleep
  | 8 => Some WaitOnEvent
  | _ => None
  end.

Definition to_u64 (x : Syscall) : Z :=
  match x with
  | Exit => 0
  | Open => 1
  | Close => 2
  | Read => 3
  | Write => 4
  | MemoryMap => 5
  | MemoryProtect => 6
  | Sleep => 7
  | WaitOnEvent => 8
  end.

End Syscall.

Inductive SyscallExitCode := Success | Failure | InvalidSyscallNumber.

Definition code_to_u64 (c : SyscallExitCode) : Z :=
  match c with Success => 0 | Failure => 1 | InvalidSyscallNumber => 2 end.

Inductive SyscallReturnValue := Code (c : SyscallExitCode) | ValueU (x : Z) | ValueI (x : Z).

Definition as_u64 (r : SyscallReturnValue) : Z :=
  match r with
  | Code code => code_to_u64 code
  | ValueU value => value
  | ValueI value => cast_unsigned 64 value
  end.

(** [consts] *)
Definition MFLAGS_READ : Z := 0x1.
Definition MFLAGS_WRITE : Z := 0x2.
Definition MFLAGS_EXECUTE : Z := 0x4.

Record Arguments_ := mkArguments { one : Z; two : Z; three : Z; four : Z; five : Z; six : Z }.

(** ** The calls *)

(** What the calls use: the file system, the address space, and the bytes of virtual memory as the
    process sees them. *)
Record kernel {F : Type} := mkKernel { vfs : Vfs F; vm : AddressSpace.machine; vmem : Z → Z }.
Arguments kernel F : clear implicits.
Arguments mkKernel {F} _ _ _.

(** The slice of [len] bytes at [start], and its contents after a change. *)
Definition slice_at (m : Z → Z) (start n : Z) : list Z := (λ k, m (start + Z.of_nat k)) <$> seq 0 (Z.to_nat n).
Definition slice_put (m : Z → Z) (start n : Z) (l : list Z) : Z → Z := λ va,
  if (start <=? va) && (va <? start + n) then byte_at l (va - start) else m va.

(** What a call does: it returns, or hands over to the scheduler. *)
Inductive outcome := Return (r : SyscallReturnValue) | ExitThread | SleepFor (ms : Z) | SleepOn (handle : Z).

Definition build_flags_from_us (raw : Z) : Z :=
  let flags := Flags.USER_ACCESSIBLE in
  let flags := if negb (Z.land raw MFLAGS_READ =? 0) then Z.lor flags Flags.PRESENT else flags in
  let flags := if negb (Z.land raw MFLAGS_WRITE =? 0) then Z.lor flags Flags.WRITABLE else flags in
  if Z.land raw MFLAGS_EXECUTE =? 0 then Z.lor flags Flags.NO_EXECUTE else flags.

Section calls.
Context {F : Type} `{FileSystem F} `{Mmu}.

Definition probe (start end_ : Z) (k : kernel F) : out bool :=
  AddressSpace.is_addr_owned (AddressSpace.space (vm k)) start end_.

Definition sc_mmap (args : Arguments_) (k : kernel F) : out (kernel F * Z) :=
  let n := one args in
  if n =? 0 then Ret (k, 0)
  else
    let align := two args in
    if negb (is_power_of_two align) || (SIZE M4KiB <? align) then Ret (k, 0)
    else
      let flags := build_flags_from_us (three args) in
      '(s, r) ← AddressSpace.alloc_map M4KiB n flags (vm k);
      match r with
      | Err _ => Ret (mkKernel (vfs k) s (vmem k), 0)
      | Ok page_range => Ret (mkKernel (vfs k) s (vmem k), Page.start_address (pr_start page_range))
      end.

(** The loop over the pages of [sc_mprotect] *)
Definition protect (flags : Z) (page_range : PageRangeInclusive M4KiB) : eff AddressSpace.machine (MappingError (Frame M4KiB)) unit :=
  AddressSpace.with_page_table (λ pt,
    for_range page_range (λ page, PageTable.update_flags_M4KiB pt page flags;; mret tt)).

Definition sc_mprotect (args : Arguments_) (k : kernel F) : out (kernel F * SyscallExitCode) :=
  let ptr := one args in
  let size := two args in
  if size =? 0 then Ret (k, Success)
  else match VirtAddr.try_new ptr with
  | None => Ret (k, Failure)
  | Some va =>
      end_ ← VirtAddr.add va (size - 1);
      bad ← (if negb (VirtAddr.is_aligned va Align4K) && negb (size mod SIZE M4KiB =? 0)
             then owned ← probe va end_ k; Ret (negb owned)
             else Ret false);
      if bad : bool then Ret (k, Failure)
      else
        let flags := build_flags_from_us (three args) in
        let page_range := Page.range_inclusive (Page.containing_address va) (Page.containing_address end_) in
        '(s, r) ← protect flags page_range (vm k);
        Ret (mkKernel (vfs k) s (vmem k), match r with Ok _ => Success | Err _ => Failure end)
  end.

(** The handle in the first argument, [None] where the calls return early *)
Definition handle_arg (args : Arguments_) : out (option Z) :=
  let raw := cast_signed 64 (one args) in
  if raw <? 0 then Ret None else h ← Handle.from_raw raw; Ret (Some h).

(** [i64::try_from(n).unwrap_or(i64::MAX)] of the number of bytes, [-1] for an error *)
Definition count_of (r : result Z FileError) : Z :=
  match r with Ok n => Z.min n (2 ^ 63 - 1) | Err _ => -1 end.

Definition unwrap_or_default (o : option Z) : Z := default 0 o.

Definition sc_read (pid : Z) (args : Arguments_) (k : kernel F) : out (kernel F * Z) :=
  o ← handle_arg args;
  match o with
  | None => Ret (k, -1)
  | Some file_handle =>
      let buffer_start := unwrap_or_default (VirtAddr.try_new (two args)) in
      let buffer_len := three args in
      buffer_end ← VirtAddr.add buffer_start buffer_len;
      owned ← probe buffer_start buffer_end k;
      if negb owned then Ret (k, -1)
      else
        let buffer := slice_at (vmem k) buffer_start buffer_len in
        '(v, (buffer, res)) ← VfsOps.read pid file_handle buffer (four args) (vfs k);
        Ret (mkKernel v (vm k) (slice_put (vmem k) buffer_start buffer_len buffer), count_of res)
  end.

Definition sc_write (pid : Z) (args : Arguments_) (k : kernel F) : out (kernel F * Z) :=
  o ← handle_arg args;
  match o with
  | None => Ret (k, -1)
  | Some file_handle =>
      let buffer_start := unwrap_or_default (VirtAddr.try_new (two args)) in
      let buffer_len := three args in
      buffer_end ← VirtAddr.add buffer_start buffer_len;
      owned ← probe buffer_start buffer_end k;
      if negb owned then Ret (k, -1)
      else
        let buffer := slice_at (vmem k) buffer_start buffer_len in
        '(v, res) ← VfsOps.write pid file_handle buffer (four args) (vfs k);
        Ret (mkKernel v (vm k) (vmem k), count_of res)
  end.

Definition sc_open (pid : Z) (args : Arguments_) (k : kernel F) : out (kernel F * Z) :=
  let path_start := unwrap_or_default (VirtAddr.try_new (one args)) in
  let path_len := two args in
  path_end ← VirtAddr.add path_start path_len;
  owned ← probe path_start path_end k;
  if negb owned then Ret (k, Handle.INVALID)
  else
    let raw_path := slice_at (vmem k) path_start path_len in
    if negb (utf8 raw_path) then Ret (k, Handle.INVALID)
    else
      '(v, res) ← VfsOps.open pid raw_path (vfs k);
      Ret (mkKernel v (vm k) (vmem k), match res with Ok handle => handle | Err _ => -1 end).

Definition sc_close (pid : Z) (args : Arguments_) (k : kernel F) : out (kernel F * SyscallExitCode) :=
  o ← handle_arg args;
  match o with
  | None => Ret (k, Failure)
  | Some file_handle =>
      '(v, res) ← VfsOps.close pid file_handle (vfs k);
      Ret (mkKernel v (vm k) (vmem k), match res with Ok _ => Success | Err _ => Failure end)
  end.

Definition syscall (pid : Z) (sc : Syscall) (args : Arguments_) (k : kernel F) : out (kernel F * outcome) :=
  match sc with
  | Exit => Ret (k, ExitThread)
  | MemoryMap => '(k, r) ← sc_mmap args k; Ret (k, Return (ValueU r))
  | MemoryProtect => '(k, r) ← sc_mprotect args k; Ret (k, Return (Code r))
  | Read => '(k, r) ← sc_read pid args k; Ret (k, Return (ValueI r))
  | Write => '(k, r) ← sc_write pid args k; Ret (k, Return (ValueI r))
  | Open => '(k, r) ← sc_open pid args k; Ret (k, Return (ValueI r))
  | Close => '(k, r) ← sc_close pid args k; Ret (k, Return (Code r))
  | Sleep => Ret (k, SleepFor (one args))
  | WaitOnEvent => Ret (k, SleepOn (one args))
  end.

(** [syscall_handler_inner] of [kernel/src/arch/x86_64/syscall.rs]: the number and the arguments are in
    registers. *)
Definition syscall_handler_inner (pid rax : Z) (args : Arguments_) (k : kernel F) : out (kernel F * outcome) :=
  match Syscall.try_from rax with
  | None => Ret (k, Return (Code InvalidSyscallNumber))
  | Some ssn => syscall pid ssn args k
  end.

End calls.

(** ** Buffers of processes *)

Lemma user_start x : is_u64 x → VirtAddr.canonical (unwrap_or_default (VirtAddr.try_new x)).
Proof.
  intros Hx. unfold unwrap_or_default, VirtAddr.try_new. destruct (negb _); cbn.
  - left. unfold VirtAddr.MAX_LOWER_HALF. lia.
  - by apply VirtAddr.canonicalize_canonical.
Qed.

(** A buffer that [probe] accepts, if it is not so long that its end wraps around within 48 bits, lies in the
    lower half of the address space, which is that of processes. *)
Lemma owned_user space start n e :
  VirtAddr.canonical start → 0 ≤ n → start + n < 2 ^ 48 →
  VirtAddr.add start n = Ret e → AddressSpace.is_addr_owned space start e = Ret true →
  0 ≤ start ∧ start + n ≤ VirtAddr.MAX_LOWER_HALF.
Proof.
  intros Hc Hn Hlt Hadd Hown. unfold VirtAddr.add in Hadd. out_inv. unfold AddressSpace.is_addr_owned in Hown.
  destruct (Z.leb_spec start (VirtAddr.new_extend (start + n))) as [Hle|]; [| done]. cbn [assert_ mbind out_bind andb] in Hown.
  injection Hown as Hlow%Z.ltb_lt. revert Hle Hlow. unfold VirtAddr.new_extend.
  pose proof (VirtAddr.canonical_u64 _ Hc) as [Hs _].
  rewrite VirtAddr.canonicalize_eq by (unfold is_uint; lia). rewrite Z.mod_small by lia.
  change KERNEL_AS_BASE with 0xFFFF800000000000. unfold VirtAddr.MAX_LOWER_HALF.
  destruct (Z.ltb_spec (start + n) (2 ^ 47)); lia.
Qed.

Lemma slice_put_outside m start n l va : ¬ (start ≤ va < start + n) → slice_put m start n l va = m va.
Proof.
  intros Hva. unfold slice_put. destruct (Z.leb_spec start va), (Z.ltb_spec va (start + n)); cbn; (done || lia).
Qed.

(** The buffer of a call: where it starts, and how long it is. *)
Definition buffer_of (sc : Syscall) (args : Arguments_) : Z * Z :=
  match sc with
  | Read | Write => (unwrap_or_default (VirtAddr.try_new (two args)), three args)
  | Open => (unwrap_or_default (VirtAddr.try_new (one args)), two args)
  | _ => (0, 0)
  end.

(** The registers hold [u64] values, and the end of the buffer does not wrap around within 48 bits. *)
Definition args_ok (sc : Syscall) (args : Arguments_) : Prop :=
  is_u64 (one args) ∧ is_u64 (two args) ∧ is_u64 (three args) ∧
  (buffer_of sc args).1 + (buffer_of sc args).2 < 2 ^ 48.

(** What a call may change: the memory in the buffer of a read, handles of the process, and the address
    space with a call for memory. *)
Definition confined {F} (pid : Z) (sc : Syscall) (args : Arguments_) (k k' : kernel F) : Prop :=
  (∀ va, vmem k' va ≠ vmem k va →
    sc = Read ∧ (buffer_of sc args).1 ≤ va < (buffer_of sc args).1 + (buffer_of sc args).2 ∧ va ≤ VirtAddr.MAX_LOWER_HALF) ∧
  (vm k' = vm k ∨ vfs k' = vfs k ∧ (sc = MemoryMap ∨ sc = MemoryProtect)) ∧
  handles_step pid (vfs k) (vfs k').

Section confinement.
Context {F : Type} `{FileSystem F} `{Mmu}.
Implicit Types (k : kernel F).

Lemma confined_vfs pid sc args k v :
  handles_step pid (vfs k) v → confined pid sc args k (mkKernel v (vm k) (vmem k)).
Proof. intros Hs. split_and!; [by intros va ? | by left | done]. Qed.

Lemma confined_same pid sc args k : vfs_ok (vfs k) → confined pid sc args k k.
Proof. intros Hok. split_and!; [by intros va ? | by left | by apply same_handles_step]. Qed.

Lemma confined_vm pid sc args k s :
  vfs_ok (vfs k) → sc = MemoryMap ∨ sc = MemoryProtect → confined pid sc args k (mkKernel (vfs k) s (vmem k)).
Proof. intros Hok Hsc. split_and!; [by intros va ? | by right | by apply same_handles_step]. Qed.

(** A call of the file system on behalf of the process. *)
Lemma op_step {R} pid (op : vfs_op F) (m : out (Vfs F * R)) k v r :
  run_op pid op (vfs k) = state_of m → affects pid op = pid → vfs_ok (vfs k) → m = Ret (v, r) → handles_step pid (vfs k) v.
Proof. intros Hop Ha Hok Hm. rewrite <- Ha. apply run_op_step; [done |]. by rewrite Hop, Hm. Qed.

Lemma sc_read_confined pid args k k' r :
  args_ok Read args → vfs_ok (vfs k) → sc_read pid args k = Ret (k', r) → confined pid Read args k k'.
Proof.
  intros (_ & H2 & H3 & Hlt) Hok. unfold sc_read.
  destruct (handle_arg args) as [[h|]|]; cbn [mbind out_bind]; [| intros [= <- _]; by apply confined_same | done].
  pose proof (user_start _ H2) as Hc. unfold confined. cbn [buffer_of fst snd] in *.
  set (start := unwrap_or_default _) in *. destruct (VirtAddr.add start (three args)) as [e|] eqn:Hadd; cbn [mbind out_bind]; [| done].
  destruct (probe start e k) as [[]|] eqn:Hown; cbn [mbind out_bind negb]; [| intros [= <- _]; by apply (confined_same pid Read args) | done].
  destruct (VfsOps.read pid h _ (four args) (vfs k)) as [[v [b res]]|] eqn:Hr; cbn [mbind out_bind]; [| done].
  intros [= <- _]. cbn [vmem vm vfs]. destruct (owned_user (AddressSpace.space (vm k)) _ _ _ Hc ltac:(apply H3) Hlt Hadd Hown) as [Hlow Hmax].
  split_and!; [intros va Hva | by left | by eapply (op_step _ (OpRead _ _ _))].
  destruct (decide (start ≤ va < start + three args)); [split_and!; (done || lia) |].
  by rewrite slice_put_outside in Hva.
Qed.

Lemma sc_write_confined pid args k k' r :
  vfs_ok (vfs k) → sc_write pid args k = Ret (k', r) → confined pid Write args k k'.
Proof.
  intros Hok. unfold sc_write.
  destruct (handle_arg args) as [[h|]|]; cbn [mbind out_bind]; [| intros [= <- _]; by apply confined_same | done].
  destruct (VirtAddr.add _ _) as [e|]; cbn [mbind out_bind]; [| done].
  destruct (probe _ e k) as [[]|]; cbn [mbind out_bind negb]; [| intros [= <- _]; by apply confined_same | done].
  destruct (VfsOps.write pid h _ _ _) as [[v res]|] eqn:Hr; cbn [mbind out_bind]; [| done].
  intros [= <- _]. apply confined_vfs. by eapply (op_step _ (OpWrite _ _ _)).
Qed.

Lemma sc_open_confined pid args k k' r :
  vfs_ok (vfs k) → sc_open pid args k = Ret (k', r) → confined pid Open args k k'.
Proof.
  intros Hok. unfold sc_open. destruct (VirtAddr.add _ _) as [e|]; cbn [mbind out_bind]; [| done].
  destruct (probe _ e k) as [[]|]; cbn [mbind out_bind negb]; [| intros [= <- _]; by apply confined_same | done].
  destruct (utf8 _); cbn [negb]; [| intros [= <- _]; by apply confined_same].
  destruct (VfsOps.open pid _ _) as [[v res]|] eqn:Hr; cbn [mbind out_bind]; [| done].
  intros [= <- _]. apply confined_vfs. by eapply (op_step _ (OpOpen _)).
Qed.

Lemma sc_close_confined pid args k k' r :
  vfs_ok (vfs k) → sc_close pid args k = Ret (k', r) → confined pid Close args k k'.
Proof.
  intros Hok. unfold sc_close.
  destruct (handle_arg args) as [[h|]|]; cbn [mbind out_bind]; [| intros [= <- _]; by apply confined_same | done].
  destruct (VfsOps.close pid h _) as [[v res]|] eqn:Hr; cbn [mbind out_bind]; [| done].
  intros [= <- _]. apply confined_vfs. by eapply (op_step _ (OpClose _)).
Qed.

Lemma sc_mmap_confined pid args k k' r :
  vfs_ok (vfs k) → sc_mmap args k = Ret (k', r) → confined pid MemoryMap args k k'.
Proof.
  intros Hok. unfold sc_mmap. destruct (one args =? 0); [intros [= <- _]; by apply confined_same |].
  destruct (_ || _); [intros [= <- _]; by apply confined_same |].
  destruct (AddressSpace.alloc_map _ _ _ _) as [[s [range|e]]|]; cbn [mbind out_bind]; [| | done];
    intros [= <- _]; apply confined_vm; auto.
Qed.

Lemma sc_mprotect_confined pid args k k' r :
  vfs_ok (vfs k) → sc_mprotect args k = Ret (k', r) → confined pid MemoryProtect args k k'.
Proof.
  intros Hok. unfold sc_mprotect. destruct (two args =? 0); [intros [= <- _]; by apply confined_same |].
  destruct (VirtAddr.try_new _) as [va|]; [| intros [= <- _]; by apply confined_same].
  destruct (VirtAddr.add _ _) as [e|]; cbn [mbind out_bind]; [| done].
  destruct (if _ && _ then _ else _) as [[]|]; cbn [mbind out_bind]; [intros [= <- _]; by apply confined_same | | done].
  destruct (protect _ _ _) as [[s res]|]; cbn [mbind out_bind]; [| done]. intros [= <- _]. apply confined_vm; auto.
Qed.

Lemma syscall_ok pid sc args k k' o :
  args_ok sc args → vfs_ok (vfs k) → syscall pid sc args k = Ret (k', o) → confined pid sc args k k'.
Proof.
  intros Hargs Hok. destruct sc; cbn [syscall].
  - intros [= <- _]. by apply confined_same.
  - destruct (sc_open _ _ _) as [[k1 r]|] eqn:E; cbn [mbind out_bind]; [| done]. intros [= <- _]. by eapply sc_open_confined.
  - destruct (sc_close _ _ _) as [[k1 r]|] eqn:E; cbn [mbind out_bind]; [| done]. intros [= <- _]. by eapply sc_close_confined.
  - destruct (sc_read _ _ _) as [[k1 r]|] eqn:E; cbn [mbind out_bind]; [| done]. intros [= <- _]. by eapply sc_read_confined.
  - destruct (sc_write _ _ _) as [[k1 r]|] eqn:E; cbn [mbind out_bind]; [| done]. intros [= <- _]. by eapply sc_write_confined.
  - destruct (sc_mmap _ _) as [[k1 r]|] eqn:E; cbn [mbind out_bind]; [| done]. intros [= <- _]. by eapply sc_mmap_confined.
  - destruct (sc_mprotect _ _) as [[k1 r]|] eqn:E; cbn [mbind out_bind]; [| done]. intros [= <- _]. by eapply sc_mprotect_confined.
  - intros [= <- _]. by apply confined_same.
  - intros [= <- _]. by apply confined_same.
Qed.

(** A buffer in the lower half is accepted. *)
Lemma user_owned space start n :
  0 ≤ start → 0 ≤ n → start + n ≤ VirtAddr.MAX_LOWER_HALF →
  VirtAddr.add start n = Ret (start + n) ∧ AddressSpace.is_addr_owned space start (start + n) = Ret true.
Proof.
  intros Hs Hn Hmax. assert (VirtAddr.canonical (start + n)) as Hc by (left; lia). unfold VirtAddr.MAX_LOWER_HALF in Hmax.
  unfold VirtAddr.add. rewrite add_w_ok by lia. cbn [mbind out_bind mret out_ret]. split.
  - f_equal. by apply VirtAddr.canonicalize_id.
  - unfold AddressSpace.is_addr_owned. rewrite (proj2 (Z.leb_le _ _)) by lia. cbn. do 2 f_equal.
    apply Z.ltb_lt. change KERNEL_AS_BASE with 0xFFFF800000000000. lia.
Qed.

Lemma try_new_user start : 0 ≤ start ≤ VirtAddr.MAX_LOWER_HALF → VirtAddr.try_new start = Some start.
Proof.
  intros Hs. unfold VirtAddr.try_new, VirtAddr.new_extend. rewrite VirtAddr.canonicalize_id by (by left). by rewrite Z.eqb_refl.
Qed.

Lemma user_ptr start : 0 ≤ start ≤ VirtAddr.MAX_LOWER_HALF → unwrap_or_default (VirtAddr.try_new start) = start.
Proof. intros Hs. by rewrite try_new_user. Qed.

Lemma handle_arg_ok args : 0 ≤ one args < 2 ^ 63 → handle_arg args = Ret (Some (one args)).
Proof.
  intros Hh. unfold handle_arg. assert (cast_signed 64 (one args) = one args) as ->.
  { unfold cast_signed. change (64 - 1) with 63. by rewrite (proj2 (Z.ltb_lt _ _)) by lia. }
  rewrite (proj2 (Z.ltb_ge _ _)) by lia. unfold Handle.from_raw. by rewrite (proj2 (Z.leb_le _ _)) by lia.
Qed.

Lemma sc_open_user pid args k :
  0 ≤ one args → 0 ≤ two args → one args + two args ≤ VirtAddr.MAX_LOWER_HALF →
  utf8 (slice_at (vmem k) (one args) (two args)) = true →
  sc_open pid args k =
    ('(v, res) ← VfsOps.open pid (slice_at (vmem k) (one args) (two args)) (vfs k);
     Ret (mkKernel v (vm k) (vmem k), match res with Ok handle => handle | Err _ => -1 end)).
Proof.
  intros H1 H2 Hmax Hutf. unfold sc_open. rewrite user_ptr by lia.
  destruct (user_owned (AddressSpace.space (vm k)) _ _ H1 H2 Hmax) as [Ha Ho].
  rewrite Ha. unfold probe. cbn [mbind out_bind]. rewrite Ho. cbn [mbind out_bind negb]. by rewrite Hutf.
Qed.

Lemma sc_read_user pid args k :
  0 ≤ one args < 2 ^ 63 → 0 ≤ two args → 0 ≤ three args → two args + three args ≤ VirtAddr.MAX_LOWER_HALF →
  sc_read pid args k =
    ('(v, (buffer, res)) ← VfsOps.read pid (one args) (slice_at (vmem k) (two args) (three args)) (four args) (vfs k);
     Ret (mkKernel v (vm k) (slice_put (vmem k) (two args) (three args) buffer), count_of res)).
Proof.
  intros Hh H2 H3 Hmax. unfold sc_read. rewrite handle_arg_ok, user_ptr by lia. cbn [mbind out_bind].
  destruct (user_owned (AddressSpace.space (vm k)) _ _ H2 H3 Hmax) as [Ha Ho].
  rewrite Ha. unfold probe. cbn [mbind out_bind]. rewrite Ho. done.
Qed.

Lemma sc_write_user pid args k :
  0 ≤ one args < 2 ^ 63 → 0 ≤ two args → 0 ≤ three args → two args + three args ≤ VirtAddr.MAX_LOWER_HALF →
  sc_write pid args k =
    ('(v, res) ← VfsOps.write pid (one args) (slice_at (vmem k) (two args) (three args)) (four args) (vfs k);
     Ret (mkKernel v (vm k) (vmem k), count_of res)).
Proof.
  intros Hh H2 H3 Hmax. unfold sc_write. rewrite handle_arg_ok, user_ptr by lia. cbn [mbind out_bind].
  destruct (user_owned (AddressSpace.space (vm k)) _ _ H2 H3 Hmax) as [Ha Ho].
  rewrite Ha. unfold probe. cbn [mbind out_bind]. rewrite Ho. done.
Qed.

Lemma sc_close_handle pid args k :
  0 ≤ one args < 2 ^ 63 →
  sc_close pid args k =
    ('(v, res) ← VfsOps.close pid (one args) (vfs k);
     Ret (mkKernel v (vm k) (vmem k), match res with Ok _ => Success | Err _ => Failure end)).
Proof. intros Hh. unfold sc_close. by rewrite handle_arg_ok. Qed.

End confinement.

(** ** Protection of memory *)

Section protection.
Context {F : Type} `{FileSystem F} `{Mmu} (root r : Z) `{!MmuLaws root}.
Implicit Types (k : kernel F).

Local Abbreviation table := (mkPageTable (rva r [])).
Local Abbreviation leaf_at := (leaf_at root).
Local Abbreviation regular := (regular r).
Local Abbreviation same_translation := (same_translation root r).

(** The page is mapped, and keeps its frame with other flags; without [PRESENT] it is no longer mapped. *)
Definition protected (fl : Z) (m m' : Z → Z) (page : Page M4KiB) : Prop :=
  ∃ e, leaf_at m (page_start page) = Some (M4KiB, e) ∧
    leaf_at m' (page_start page) =
      if Z.testbit fl 0 then Some (M4KiB, Z.lor (frame_of e) (Z.land fl Flags.ALL)) else None.

(** The body of the loop *)
Definition protect_page (fl : Z) (page : Page M4KiB) : eff ((Z → Z) * FrameAlloc.t) (MappingError (Frame M4KiB)) unit :=
  PageTable.update_flags_M4KiB table page fl;; mret tt.

Lemma protect_page_spec fl m a page :
  pt_inv root r m a → wf_page page → regular (page_start page) →
  ∃ m' res, protect_page fl page (m, a) = Ret ((m', a), res) ∧ pt_inv root r m' a ∧
    match res with
    | Ok _ => protected fl m m' page ∧ same_translation m m' (λ va, ¬ block (page_start page) (SIZE M4KiB) va)
    | Err _ => m' = m ∧ ∀ e, leaf_at m (page_start page) ≠ Some (M4KiB, e)
    end.
Proof.
  intros Hinv Hp [Hc Hr]. unfold protect_page.
  destruct (update_flags_4k_ok root r m a page Hinv Hr fl) as (m' & res & E & Hinv' & Hpost).
  fold (leaf_at m (page_start page)) in Hpost. unfold mbind, eff_bind. rewrite E.
  destruct (leaf_at m (page_start page)) as [[[] e]|] eqn:El.
  - destruct Hpost as (-> & Hl & Hs). exists m', (Ok tt). split_and!; [done | done | by exists e |].
    intros va Hva Hb. apply Hs; [by apply regular_indices|]. intros Hi. apply Hb.
    apply in_page_block; [done | apply Hva | done].
  - destruct Hpost as [-> [err ->]]. exists m, (Err err). by split_and!.
  - destruct Hpost as [-> [err ->]]. exists m, (Err err). by split_and!.
  - destruct Hpost as [-> [err ->]]. exists m, (Err err). by split_and!.
Qed.

(** The pages of [l] up to the first that is not mapped, which ends the loop with an error. *)
Definition protected_until (fl : Z) (m m' : Z → Z) (l : list (Page M4KiB)) (ok : bool) : Prop :=
  ∃ l1 l2, l = l1 ++ l2 ∧ Forall (protected fl m m') l1 ∧
    same_translation m m' (λ va, Forall (λ p, ¬ block (page_start p) (SIZE M4KiB) va) l1) ∧
    if ok then l2 = [] else ∃ p l3, l2 = p :: l3 ∧ ∀ e, leaf_at m (page_start p) ≠ Some (M4KiB, e).

Lemma protect_pages_spec fl pages m a :
  pt_inv root r m a → Forall (λ p, wf_page p ∧ regular (page_start p)) pages → apart_pages pages →
  ∃ m' res, for_list (protect_page fl) pages (m, a) = Ret ((m', a), res) ∧ pt_inv root r m' a ∧
    protected_until fl m m' pages (match res with Ok _ => true | Err _ => false end).
Proof.
  revert m. induction pages as [|p pages IH]; intros m Hinv Hm Hap; cbn [for_list].
  { exists m, (Ok tt). split_and!; [done | done |]. exists [], []. by split_and!. }
  apply Forall_cons in Hm as [[Hwp Hrp] Hm]. apply StronglySorted_inv in Hap as [Hap Hpx].
  destruct (protect_page_spec fl m a p Hinv Hwp Hrp) as (m1 & [[]|e] & E & Hinv1 & Hpost); unfold mbind, eff_bind; rewrite E.
  2: { destruct Hpost as [-> Hne]. exists m, (Err e). split_and!; [done | done |]. exists [], (p :: pages). split_and!; eauto. done. }
  destruct Hpost as [Hprot Ht1]. destruct (IH m1 Hinv1 Hm Hap) as (m' & res & E' & Hinv' & l1 & l2 & -> & Hl1 & Ht & Hres).
  assert (∀ q, q ∈ l1 ++ l2 → leaf_at m1 (page_start q) = leaf_at m (page_start q)) as Hsame.
  { rewrite Forall_forall in Hm, Hpx. intros q Hq. apply Ht1; [by apply Hm |].
    intros Hb. apply (Hpx q Hq _ Hb). unfold block. cbn. lia. }
  exists m', res. split_and!; [done | done |]. exists (p :: l1), l2. split_and!; [done | | |].
  - apply Forall_cons. split.
    + destruct Hprot as (e & He & He'). exists e. split; [done |]. rewrite Ht; [done | done |].
      apply Forall_app in Hpx as [Hpx _]. eapply Forall_impl; [exact Hpx |]. intros q Hq. apply Hq. unfold block. cbn. lia.
    + rewrite Forall_forall in Hl1 |- *. intros q Hq. destruct (Hl1 q Hq) as (e & He & He').
      exists e. rewrite <- Hsame; [done |]. apply elem_of_app. by left.
  - intros va Hva [Hn Hnn]%Forall_cons. rewrite Ht by done. by apply Ht1.
  - destruct res as [u|err]; [done |]. destruct Hres as (q & l3 & -> & Hq). exists q, l3. split; [done |].
    intros e. rewrite <- Hsame; [apply Hq |]. apply elem_of_app. right. by left.
Qed.

(** The pages that [sc_mprotect] visits. *)
Definition protect_range (va size : Z) : PageRangeInclusive M4KiB :=
  mkPageRange (mkPage (va - va mod 4096)) (mkPage (va + size - 1 - (va + size - 1) mod 4096)).
Definition protect_count (va size : Z) : Z := (va + size - 1) / 4096 - va / 4096 + 1.

Lemma protect_range_wf va size :
  VirtAddr.canonical va → 0 < size → VirtAddr.canonical (va + size - 1) → same_half va (va + size - 1) →
  wf_pages (protect_range va size) (protect_count va size).
Proof.
  intros Hc Hs Hce Hhalf. pose proof (Z.div_mod va 4096 ltac:(lia)) as Hd. pose proof (Z.mod_pos_bound va 4096 ltac:(lia)).
  pose proof (Z.div_mod (va + size - 1) 4096 ltac:(lia)) as Hde. pose proof (Z.mod_pos_bound (va + size - 1) 4096 ltac:(lia)).
  pose proof (Z.div_le_mono va (va + size - 1) 4096 ltac:(lia) ltac:(lia)).
  assert (∀ x, VirtAddr.canonical x → wf_page (S := M4KiB) (mkPage (x - x mod 4096))) as Hwf.
  { intros x Hx. pose proof (Z.mod_pos_bound x 4096 ltac:(lia)). pose proof (Z.div_mod x 4096 ltac:(lia)). split; cbn.
    - unfold VirtAddr.canonical, VirtAddr.MAX_LOWER_HALF, VirtAddr.MIN_UPPER_HALF, VirtAddr.MAX in *. lia.
    - replace (x - x mod 4096) with (x / 4096 * 4096) by lia. by apply Z.mod_mul. }
  unfold wf_pages, protect_range, protect_count. cbn [pr_start pr_end page_start SIZE]. split_and!; [by apply Hwf | by apply Hwf | lia | lia |].
  unfold same_half, VirtAddr.canonical, VirtAddr.MAX_LOWER_HALF, VirtAddr.MIN_UPPER_HALF, VirtAddr.MAX in *. lia.
Qed.

(** The loop keeps the invariant of the address space. *)
Lemma protect_ok fl range n s :
  vm_inv root r s → wf_pages range n → page_start (pr_end range) + 4096 < 2 ^ 64 →
  (∀ p, p ∈ pages_of range n → regular (page_start p)) →
  ∃ m' res, protect fl range s = Ret (AddressSpace.mkMachine m' (AddressSpace.cr3 s) (AddressSpace.fralloc s) (AddressSpace.space s), res) ∧
    vm_inv root r (AddressSpace.mkMachine m' (AddressSpace.cr3 s) (AddressSpace.fralloc s) (AddressSpace.space s)) ∧
    protected_until fl (AddressSpace.mem s) m' (pages_of range n) (match res with Ok _ => true | Err _ => false end).
Proof.
  intros Hinv Hwp Htop Hreg. destruct s as [m c a [pt0 l4 pg]]. pose proof Hinv as [Hact Ept Htab Hpg Hfree].
  cbn [AddressSpace.mem AddressSpace.cr3 AddressSpace.fralloc AddressSpace.space AddressSpace.pt AddressSpace.pgalloc] in *. subst pt0.
  unfold protect, AddressSpace.with_page_table. rewrite Hact.
  cbn [AddressSpace.mem AddressSpace.cr3 AddressSpace.fralloc AddressSpace.space AddressSpace.pt].
  change (for_range range _) with (for_range range (protect_page fl)).
  rewrite (for_range_list range n) by done. assert (Forall (λ p, wf_page p ∧ regular (page_start p)) (pages_of range n)) as Hpages.
  { apply Forall_forall. intros p Hp. split; [by eapply pages_of_wf | by apply Hreg]. }
  destruct (protect_pages_spec fl _ m a Htab Hpages (pages_of_apart range n)) as (m' & res & -> & Htab' & Hu).
  exists m', res. split_and!; [done | | done].
  split; cbn [AddressSpace.mem AddressSpace.cr3 AddressSpace.fralloc AddressSpace.space AddressSpace.pt AddressSpace.pgalloc]; try done.
  intros va Hva. destruct (Hfree va Hva) as [Hr Hn]. split; [done |]. destruct Hu as (l1 & l2 & El & Hl1 & Ht & _).
  assert (regular va) as Hrv by (split; [by apply Hpg | done]). rewrite Ht; [done | done |].
  apply Forall_forall. intros p Hp Hb. rewrite Forall_forall in Hl1. destruct (Hl1 p Hp) as (e & He & _).
  assert (p ∈ pages_of range n) as Hin by (rewrite El; apply elem_of_app; by left).
  rewrite Forall_forall in Hpages. destruct (Hpages p Hin) as [Hwpp _].
  rewrite (same_page_leaf root r m va p Hwpp Hrv Hb) in Hn. unfold leaf_at in *. congruence.
Qed.

(** The call refuses a range only if it neither starts nor has a size at a page boundary. *)
Definition mprotect_refuses (va size : Z) : bool :=
  negb (VirtAddr.is_aligned va Align4K) && negb (size mod 4096 =? 0) && (KERNEL_AS_BASE <=? va + size - 1).

Lemma sc_mprotect_ok args k :
  let va := one args in let size := two args in
  vm_inv root r (vm k) → VirtAddr.canonical va → 0 < size → VirtAddr.canonical (va + size - 1) → same_half va (va + size - 1) →
  va + size + 4096 < 2 ^ 64 → (∀ x, va - va mod 4096 ≤ x ≤ va + size - 1 → ix4 x ≠ r) →
  if mprotect_refuses va size then sc_mprotect args k = Ret (k, Failure)
  else ∃ s' code, sc_mprotect args k = Ret (mkKernel (vfs k) s' (vmem k), code) ∧ vm_inv root r s' ∧
    AddressSpace.space s' = AddressSpace.space (vm k) ∧ AddressSpace.fralloc s' = AddressSpace.fralloc (vm k) ∧
    protected_until (build_flags_from_us (three args)) (AddressSpace.mem (vm k)) (AddressSpace.mem s')
      (pages_of (protect_range va size) (protect_count va size)) (match code with Success => true | _ => false end).
Proof.
  intros va size Hinv Hc Hsize Hce Hhalf Htop Hreg. pose proof (VirtAddr.canonical_u64 _ Hc) as [Hva _].
  pose proof (protect_range_wf va size Hc Hsize Hce Hhalf) as Hwp.
  unfold sc_mprotect. fold va size. rewrite (proj2 (Z.eqb_neq size 0)) by lia.
  assert (VirtAddr.try_new va = Some va) as ->.
  { unfold VirtAddr.try_new, VirtAddr.new_extend. rewrite VirtAddr.canonicalize_id by done. by rewrite Z.eqb_refl. }
  assert (VirtAddr.add va (size - 1) = Ret (va + size - 1)) as ->.
  { unfold VirtAddr.add. rewrite add_w_ok by lia. cbn [mbind out_bind mret out_ret]. f_equal.
    replace (va + (size - 1)) with (va + size - 1) by lia. by apply VirtAddr.canonicalize_id. }
  cbn [mbind out_bind]. assert ((if negb (VirtAddr.is_aligned va Align4K) && negb (size mod SIZE M4KiB =? 0)
    then owned ← probe va (va + size - 1) k; Ret (negb owned) else Ret false) = Ret (mprotect_refuses va size)) as ->.
  { unfold mprotect_refuses, probe, AddressSpace.is_addr_owned. rewrite (proj2 (Z.leb_le va (va + size - 1))) by lia.
    cbn [SIZE]. destruct (_ && _); [| done]. cbn. by rewrite Z.leb_antisym. }
  cbn [mbind out_bind]. destruct (mprotect_refuses va size); [done |].
  rewrite !containing_address_eq by (by apply VirtAddr.canonical_u64).
  change (Page.range_inclusive _ _) with (protect_range va size).
  pose proof (Z.mod_pos_bound (va + size - 1) 4096 ltac:(lia)). pose proof (Z.mod_pos_bound va 4096 ltac:(lia)).
  pose proof (Z.div_mod va 4096 ltac:(lia)). pose proof (Z.div_mod (va + size - 1) 4096 ltac:(lia)).
  destruct (protect_ok (build_flags_from_us (three args)) (protect_range va size) (protect_count va size) (vm k))
    as (m' & res & -> & Hinv' & Hu); [done | done | cbn; lia | |].
  - intros p Hp. destruct (pages_of_wf _ _ p Hwp Hp) as [[Hcp Hmp] Hb]. split; [done |]. apply Hreg.
    unfold block in Hb. cbn [protect_range pr_start page_start SIZE] in Hb, Hmp. unfold protect_count in Hb.
    pose proof (Z.div_mod (page_start p) 4096 ltac:(lia)). lia.
  - cbn [mbind out_bind]. eexists _, _. split; [reflexivity |]. split_and!; [done | done | done |]. by destruct res.
Qed.

Lemma sc_mmap_ok args k :
  let n := one args in
  vm_inv root r (vm k) → 0 < n → n + 4096 ≤ 2 ^ 64 → is_power_of_two (two args) = true → two args ≤ 4096 →
  match sc_mmap args k with
  | Ret (k', va) => vfs k' = vfs k ∧ vm_inv root r (vm k') ∧
      ((∃ range : PageRangeInclusive M4KiB, va = page_start (pr_start range) ∧
          allocated root r (vm k) (vm k') (build_flags_from_us (three args)) range ((n + SIZE M4KiB - 1) / SIZE M4KiB)) ∨
       va = 0 ∧ (∀ x, free_pages_of (vm k') x → free_pages_of (vm k) x) ∧
          same_translation (AddressSpace.mem (vm k)) (AddressSpace.mem (vm k')) (λ x, ¬ free_pages_of (vm k) x))
  | Panic =>
      used (PageAllocator.vranges (AddressSpace.pgalloc (AddressSpace.space (vm k)))) = AddressSpace.PROCESS_PGALLOC_VRANGES ∨
      free_pages_of (vm k) (2 ^ 64 - 1)
  end.
Proof.
  intros n Hinv Hn Htop Hpow Hal. unfold sc_mmap. fold n. rewrite (proj2 (Z.eqb_neq n 0)) by lia.
  rewrite Hpow. cbn [negb orb]. rewrite (proj2 (Z.ltb_ge (SIZE M4KiB) (two args))) by done.
  pose proof (alloc_map_ok root r M4KiB n (build_flags_from_us (three args)) (vm k) Hinv Hn (Htop : n + SIZE M4KiB ≤ 2 ^ 64)) as Hm.
  destruct (AddressSpace.alloc_map _ _ _ _) as [[s' [range|e]]|]; cbn [mbind out_bind vfs vm]; [| | naive_solver].
  - destruct Hm as [Hi Ha]. split_and!; [done | done |]. left. by exists range.
  - destruct Hm as (Hi & Hf & Ht). split_and!; [done | done |]. by right.
Qed.

End protection.
