(* ===== verification/SyscallSpec.v ===== *)
(** * What system calls promise

    The confinement of a process, its files and its memory, as the handler of system calls gives them. *)

From S2P Require Import Prelude NetUtils Addrs Paging Ranges PageTable PageTree PageMap KernelMem Vfs DevFs InMem VfsSpec Syscall.

(** ** Slices of memory *)

Lemma slice_at_lookup m start n i :
  0 ≤ n → slice_at m start n !! i = if (Z.of_nat i <? n) then Some (m (start + Z.of_nat i)) else None.
Proof.
  intros Hn. unfold slice_at. rewrite list_lookup_fmap. destruct (Z.ltb_spec (Z.of_nat i) n).
  - by rewrite lookup_seq_lt by lia.
  - by rewrite lookup_seq_ge by lia.
Qed.

Lemma slice_put_at m start n l : len l = n → slice_at (slice_put m start n l) start n = l.
Proof.
  intros Hl. pose proof (len_nonneg l). apply list_eq. intros i. rewrite slice_at_lookup by lia.
  destruct (Z.ltb_spec (Z.of_nat i) n) as [Hi|Hi].
  - unfold slice_put. rewrite (proj2 (Z.leb_le _ _)), (proj2 (Z.ltb_lt _ _)) by lia. cbn [andb].
    unfold byte_at. replace (Z.to_nat (start + Z.of_nat i - start)) with i by lia.
    destruct (lookup_lt_is_Some_2 l i) as [x Hx]; [unfold len in *; lia |]. rewrite Hx. f_equal. by apply nth_lookup_Some.
  - symmetry. apply lookup_ge_None. unfold len in *. lia.
Qed.

(** ** Claims *)

(** C10: a system call cannot reach beyond its process.  Whatever the registers hold, as long as the end of
    a buffer does not wrap around in the 48 bits of an address, a call changes memory only within the
    buffer of a read, which lies in the lower half of the address space; it adds and removes handles only
    of its own process, with a new number, and keeps the table of handles well formed; it changes the
    address space only to map or protect memory.  An unknown number changes nothing. *)
Theorem syscall_confined {F} `{FileSystem F} `{Mmu} (pid rax : Z) (args : Arguments_) (k k' : kernel F) (o : outcome) :
  vfs_ok (vfs k) → syscall_handler_inner pid rax args k = Ret (k', o) →
  match Syscall.try_from rax with
  | None => k' = k ∧ o = Return (Code InvalidSyscallNumber)
  | Some sc => Syscall.to_u64 sc = rax ∧ (args_ok sc args → confined pid sc args k k')
  end.
Proof.
  intros Hok Hr. unfold syscall_handler_inner in Hr. destruct (Syscall.try_from rax) as [sc|] eqn:E; [| by injection Hr as <- <-].
  split; [| intros Ha; by eapply syscall_ok]. unfold Syscall.try_from in E. repeat case_match; by simplify_eq.
Qed.

(** A machine whose process has the path of a device in its memory. *)
Definition demo_path : Path := dev_path ++ out_path.
Definition demo_kernel : kernel (AnyFs (list Z)) :=
  mkKernel demo_vfs Small.start (λ va, byte_at demo_path (va - 0x2000)).
Local Abbreviation demo_handler := (@syscall_handler_inner _ (any_file_system (D := list Z)) (x86_walk 4096)).
Definition open_args : Arguments_ := mkArguments 0x2000 8 0 0 0 0.

Lemma demo_vfs_ok : vfs_ok demo_vfs.
Proof. split; cbn; [intros h i Hh | lia | intros h1 h2 i1 i2 Hh]; by rewrite lookup_empty in Hh. Qed.

Lemma syscall_confined_witness :
  ∃ k', demo_handler 1 1 open_args demo_kernel = Ret (k', Return (ValueI 0)) ∧ confined 1 Open open_args demo_kernel k'.
Proof.
  assert (match demo_handler 1 1 open_args demo_kernel with Ret (_, o) => o = Return (ValueI 0) | Panic => False end) as Hrun
    by (vm_compute; reflexivity).
  destruct (demo_handler 1 1 open_args demo_kernel) as [[k' o]|] eqn:E; [| destruct Hrun].
  exists k'. split; [rewrite Hrun; reflexivity |].
  destruct (@syscall_confined _ _ (x86_walk 4096) 1 1 open_args demo_kernel k' o demo_vfs_ok E) as [_ Hc].
  apply Hc. vm_compute. repeat split; discriminate.
Defined.

(** C15: the files of a process, through system calls alone.  Opening a path that lies in its memory returns
    a new handle when the file system that is mounted there opens the rest of the path.  With the handle a
    read leaves in the buffer what the file system reads and no other byte of memory changes; a write
    hands the bytes of the buffer to the file system; the register receives the number of bytes, or -1.
    After the file has been closed the handle is refused. *)
Theorem syscall_file_io {F} `{FileSystem F} `{Mmu} (k : kernel F) (pid : Z) (open : Arguments_) (mnt rel : Path) (fs fs' : F) :
  let path := slice_at (vmem k) (one open) (two open) in
  let h := handle_counter (vfs k) in
  vfs_ok (vfs k) → 0 ≤ h → 0 ≤ one open → 0 ≤ two open → one open + two open ≤ VirtAddr.MAX_LOWER_HALF → utf8 path = true →
  sliceable (mounts (vfs k)) path → resolves (mounts (vfs k)) path mnt → path = mnt ++ rel →
  mounts (vfs k) !! mnt = Some fs → fs_open rel fs = Ret (fs', Ok tt) →
  (∀ h, open_handles (vfs k) !! h ≠ Some (mkOpenFileInfo pid path)) →
  ∃ k1, syscall pid Open open k = Ret (k1, Return (ValueI h)) ∧ vmem k1 = vmem k ∧ vm k1 = vm k ∧
    (∀ args, one args = h → 0 ≤ two args → 0 ≤ three args → two args + three args ≤ VirtAddr.MAX_LOWER_HALF →
      (∀ fs2 b res, fs_read rel (slice_at (vmem k) (two args) (three args)) (four args) fs' = Ret (fs2, (b, res)) → len b = three args →
        ∃ k2, syscall pid Read args k1 = Ret (k2, Return (ValueI (count_of res))) ∧
          slice_at (vmem k2) (two args) (three args) = b ∧
          (∀ va, ¬ (two args ≤ va < two args + three args) → vmem k2 va = vmem k va)) ∧
      (∀ fs2 res, fs_write rel (slice_at (vmem k) (two args) (three args)) (four args) fs' = Ret (fs2, res) →
        ∃ k2, syscall pid Write args k1 = Ret (k2, Return (ValueI (count_of res))) ∧
          vmem k2 = vmem k ∧ mounts (vfs k2) = <[mnt := fs2]> (mounts (vfs k)))) ∧
    (∀ args fs2, one args = h → fs_close rel fs' = Ret (fs2, Ok tt) →
      ∃ k2, syscall pid Close args k1 = Ret (k2, Return (Code Success)) ∧
        open_handles (vfs k2) = open_handles (vfs k) ∧ syscall pid Close args k2 = Ret (k2, Return (Code Failure))).
Proof.
  intros path h Hok Hc H1 H2 Hmax Hutf Hs Hr Hp Hm Ho Hno.
  destruct (open_use_close_ok (vfs k) pid path mnt rel fs fs' Hok Hc Hs Hr Hp Hm Ho Hno)
    as (v' & Eo & _ & Hmv & Hread & Hwrite & _ & Hclose). fold h in Eo, Hread, Hwrite, Hclose.
  assert (h < 2 ^ 63) as Hh by apply Hok.
  exists (mkKernel v' (vm k) (vmem k)). split_and!; [| done | done | |].
  - cbn [syscall]. rewrite sc_open_user by done. fold path. by rewrite Eo.
  - intros args Ea H2a H3a Hmaxa. split.
    + intros fs2 b res Er Hlen. eexists. split_and!.
      * cbn [syscall]. rewrite sc_read_user by (rewrite ?Ea; done). cbn [vmem vfs vm]. by rewrite Ea, (Hread _ _ _ _ Er).
      * cbn [vmem]. by apply slice_put_at.
      * intros va Hva. cbn [vmem]. by apply slice_put_outside.
    + intros fs2 res Ew. eexists. split_and!.
      * cbn [syscall]. rewrite sc_write_user by (rewrite ?Ea; done). cbn [vmem vfs vm]. by rewrite Ea, (Hwrite _ _ _ _ Ew).
      * done.
      * done.
  - intros args fs2 Ea Ec. destruct (Hclose _ _ Ec) as (v2 & E2 & Hh2 & _ & E3).
    exists (mkKernel v2 (vm k) (vmem k)). split_and!; [| done |]; cbn [syscall]; rewrite sc_close_handle by (rewrite Ea; done);
      cbn [vfs vm vmem]; rewrite Ea; [by rewrite E2 | by rewrite E3].
Qed.

Lemma syscall_file_io_witness :
  ∃ k1, @syscall _ (any_file_system (D := list Z)) (x86_walk 4096) 1 Open open_args demo_kernel = Ret (k1, Return (ValueI 0)) ∧
    ∃ k2, @syscall _ (any_file_system (D := list Z)) (x86_walk 4096) 1 Write (mkArguments 0 0x2000 4 0 0 0) k1
      = Ret (k2, Return (ValueI 4)) ∧
      mounts (vfs k2) = <[dev_path := Devices (DeviceFS.add_device DeviceFS.new out_path dev_path)]> (mounts demo_vfs).
Proof.
  destruct (@syscall_file_io _ (any_file_system (D := list Z)) (x86_walk 4096) demo_kernel 1 open_args dev_path out_path
    (Devices (DeviceFS.add_device DeviceFS.new out_path [])) (Devices (DeviceFS.add_device DeviceFS.new out_path [])))
    as (k1 & E1 & _ & _ & Hio & _).
  - apply demo_vfs_ok.
  - cbn. lia.
  - cbn. lia.
  - cbn. lia.
  - vm_compute. discriminate.
  - vm_compute. reflexivity.
  - apply ascii_sliceable. change (slice_at _ _ _) with demo_path. repeat (apply Forall_cons; split; [done |]). by apply Forall_nil.
  - change (slice_at _ _ _) with demo_path. split_and!.
    + eexists. vm_compute. reflexivity.
    + split; [discriminate |]. exists out_path. split; [reflexivity |]. right. left. reflexivity.
    + intros k [fs Hk] _. unfold demo_kernel, demo_vfs, VfsOps.mount, VfsOps.new in Hk. cbn [mounts vfs] in Hk.
      apply lookup_insert_Some in Hk as [[<- _]|[_ Hk]]; [done | by rewrite lookup_empty in Hk].
  - vm_compute. reflexivity.
  - vm_compute. reflexivity.
  - vm_compute. reflexivity.
  - intros h Hh. cbn in Hh. by rewrite lookup_empty in Hh.
  - exists k1. split; [exact E1 |].
    destruct (Hio (mkArguments 0 0x2000 4 0 0 0)) as [_ Hw]; [reflexivity | cbn; lia | cbn; lia | vm_compute; discriminate |].
    destruct (Hw (Devices (DeviceFS.add_device DeviceFS.new out_path dev_path)) (Ok 4)) as (k2 & E2 & _ & Hm);
      [vm_compute; reflexivity |]. exists k2. split; [exact E2 | exact Hm].
Defined.

(** C16: the memory of a process, through system calls.  [sc_mmap] returns the start of pages that were free,
    are mapped to frames that were free, and have the flags that were asked for, and nothing else is
    mapped differently; or it returns 0 and every page that was mapped still is.  [sc_mprotect] gives the
    pages of the range the flags that were asked for, in order, until one of them is not mapped, when it
    fails; every page keeps its frame, and no other page changes.  But it refuses a range of the kernel
    only when neither its start nor its size is a multiple of the size of a page. *)
Theorem sc_memory_spec {F} `{FileSystem F} `{Mmu} (root r : Z) `{!MmuLaws root} (args : Arguments_) (k : kernel F) :
  vm_inv root r (vm k) →
  (0 < one args → one args + 4096 ≤ 2 ^ 64 → is_power_of_two (two args) = true → two args ≤ 4096 →
    match sc_mmap args k with
    | Ret (k', va) => vfs k' = vfs k ∧ vm_inv root r (vm k') ∧
        ((∃ range : PageRangeInclusive M4KiB, va = page_start (pr_start range) ∧
            allocated root r (vm k) (vm k') (build_flags_from_us (three args)) range
              ((one args + SIZE M4KiB - 1) / SIZE M4KiB)) ∨
         va = 0 ∧ (∀ x, free_pages_of (vm k') x → free_pages_of (vm k) x) ∧
            same_translation root r (AddressSpace.mem (vm k)) (AddressSpace.mem (vm k')) (λ x, ¬ free_pages_of (vm k) x))
    | Panic =>
        used (PageAllocator.vranges (AddressSpace.pgalloc (AddressSpace.space (vm k)))) = AddressSpace.PROCESS_PGALLOC_VRANGES ∨
        free_pages_of (vm k) (2 ^ 64 - 1)
    end) ∧
  (let va := one args in let size := two args in
   VirtAddr.canonical va → 0 < size → VirtAddr.canonical (va + size - 1) → same_half va (va + size - 1) →
   va + size + 4096 < 2 ^ 64 → (∀ x, va - va mod 4096 ≤ x ≤ va + size - 1 → ix4 x ≠ r) →
   if mprotect_refuses va size then sc_mprotect args k = Ret (k, Failure)
   else ∃ s' code, sc_mprotect args k = Ret (mkKernel (vfs k) s' (vmem k), code) ∧ vm_inv root r s' ∧
     AddressSpace.space s' = AddressSpace.space (vm k) ∧ AddressSpace.fralloc s' = AddressSpace.fralloc (vm k) ∧
     protected_until root r (build_flags_from_us (three args)) (AddressSpace.mem (vm k)) (AddressSpace.mem s')
       (pages_of (protect_range va size) (protect_count va size)) (match code with Success => true | _ => false end)).
Proof. intros Hinv. split; [by apply sc_mmap_ok | by apply sc_mprotect_ok]. Qed.

(** Memory is mapped for reading and writing, and then only for reading. *)
Lemma sc_memory_spec_witness :
  ∃ k1 k2, @sc_mmap _ (x86_walk 4096) (mkArguments 0x1800 8 3 0 0 0) demo_kernel = Ret (k1, 0x1000) ∧
    @sc_mprotect _ (x86_walk 4096) (mkArguments 0x1000 0x1800 1 0 0 0) k1 = Ret (k2, Success) ∧ vm_inv 4096 511 (vm k2).
Proof.
  destruct (@sc_memory_spec _ (any_file_system (D := list Z)) (x86_walk 4096) 4096 511 (x86_walk_laws 4096)
    (mkArguments 0x1800 8 3 0 0 0) demo_kernel small_inv) as [Hmap _].
  specialize (Hmap ltac:(done) ltac:(done) ltac:(done) ltac:(done)).
  assert (match @sc_mmap _ (x86_walk 4096) (mkArguments 0x1800 8 3 0 0 0) demo_kernel with
    | Ret (k1, va) => va = 0x1000 ∧
        match @sc_mprotect _ (x86_walk 4096) (mkArguments 0x1000 0x1800 1 0 0 0) k1 with Ret (_, code) => code = Success | Panic => False end
    | Panic => False end) as Hrun by (vm_compute; split; reflexivity).
  destruct (@sc_mmap _ (x86_walk 4096) (mkArguments 0x1800 8 3 0 0 0) demo_kernel) as [[k1 va]|]; [| destruct Hrun].
  destruct Hmap as (_ & Hinv1 & _).
  destruct Hrun as [-> Hrun].
  destruct (@sc_memory_spec _ (any_file_system (D := list Z)) (x86_walk 4096) 4096 511 (x86_walk_laws 4096)
    (mkArguments 0x1000 0x1800 1 0 0 0) k1 Hinv1) as [_ Hprot].
  destruct Hprot as (s' & code & E2 & Hinv2 & _).
  - left. vm_compute. split; discriminate.
  - reflexivity.
  - left. vm_compute. split; discriminate.
  - left. vm_compute. discriminate.
  - reflexivity.
  - cbn [one two]. intros x Hx. change (0x1000 - 0x1000 mod 4096) with 0x1000 in Hx. unfold ix4. rewrite Z.div_small by lia. discriminate.
  - exists k1, (mkKernel (vfs k1) s' (vmem k1)). rewrite E2 in Hrun |- *. rewrite Hrun. split; [reflexivity |]. split; [reflexivity | exact Hinv2].
Defined.

(** ** Where the checks of the kernel fall short *)

(** Pages of the kernel can be made accessible to the process. *)
Lemma mprotect_accepts_kernel va size : va mod 4096 = 0 → mprotect_refuses va size = false.
Proof.
  intros Hva. unfold mprotect_refuses, VirtAddr.is_aligned. by rewrite (proj2 (Alignment.is_aligned_spec Align4K va)).
Qed.

(** A buffer that is 2^48 bytes long is taken for an empty one. *)
Lemma long_buffer_owned space start :
  0 ≤ start ≤ VirtAddr.MAX_LOWER_HALF →
  VirtAddr.add start (2 ^ 48) = Ret start ∧ AddressSpace.is_addr_owned space start start = Ret true.
Proof.
  intros Hs. destruct (user_owned space start 0) as [_ Ho]; [lia | lia | lia |]. rewrite Z.add_0_r in Ho. split; [| done].
  unfold VirtAddr.MAX_LOWER_HALF in Hs. unfold VirtAddr.add. rewrite add_w_ok by lia. cbn [mbind out_bind mret out_ret]. f_equal.
  unfold VirtAddr.new_extend. rewrite VirtAddr.canonicalize_eq by (unfold is_uint; lia).
  replace ((start + 2 ^ 48) mod 2 ^ 48) with start by (rewrite <- (Z.mul_1_l (2 ^ 48)) at 1; rewrite Z.mod_add, Z.mod_small by lia; done).
  by rewrite (proj2 (Z.ltb_lt _ _)) by lia.
Qed.

(** A process can stop the kernel by asking for too much memory. *)
Lemma mmap_overflows : @sc_mmap _ (x86_walk 4096) (mkArguments (2 ^ 64 - 1) 1 1 0 0 0) demo_kernel = Panic.
Proof. vm_compute. reflexivity. Qed.
