(* ===== verification/Time.v ===== *)
(** * Time and reasons to sleep

    [beskar-core/src/time.rs] and [beskar-core/src/process.rs]: instants and durations in microseconds, with
    arithmetic that saturates, and the reason for which a thread sleeps, packed into one word. *)

From S2P Require Import Prelude.

(** ** Instants and durations

    Both are a number of microseconds, a [u64]. *)

Definition MICROS_PER_MILLI : Z := 1000.
Definition MICROS_PER_SEC : Z := 1000000.
Definition U64_MAX : Z := 2 ^ 64 - 1.

Definition saturating_mul (a b : Z) : Z := Z.min (a * b) U64_MAX.

Module Instant.

Definition ZERO : Z := 0.
Definition MAX : Z := U64_MAX.

Definition from_micros (micros : Z) : Z := micros.
Definition from_millis (millis : Z) : Z := from_micros (saturating_mul millis MICROS_PER_MILLI).
Definition from_secs (secs : Z) : Z := from_micros (saturating_mul secs MICROS_PER_SEC).

Definition micros (self : Z) : Z := self mod MICROS_PER_SEC.
Definition millis (self : Z) : Z := micros self / MICROS_PER_MILLI.
Definition secs (self : Z) : Z := self / MICROS_PER_SEC.
Definition total_micros (self : Z) : Z := self.
Definition total_millis (self : Z) : Z := total_micros self / MICROS_PER_MILLI.

Definition add (self rhs : Z) : Z := saturating_add 64 self rhs.
Definition sub (self rhs : Z) : Z := saturating_sub self rhs.
Definition diff (self rhs : Z) : Z := Z.abs (self - rhs).

End Instant.

Module Duration.

Definition from_micros (micros : Z) : Z := micros.
Definition from_millis (millis : Z) : Z := from_micros (saturating_mul millis MICROS_PER_MILLI).
Definition from_secs (secs : Z) : Z := from_micros (saturating_mul secs MICROS_PER_SEC).

Definition micros (self : Z) : Z := self mod MICROS_PER_SEC.
Definition millis (self : Z) : Z := micros self / MICROS_PER_MILLI.
Definition secs (self : Z) : Z := self / MICROS_PER_SEC.
Definition total_micros (self : Z) : Z := self.
Definition total_millis (self : Z) : Z := total_micros self / MICROS_PER_MILLI.

Definition add (self rhs : Z) : Z := saturating_add 64 self rhs.
Definition sub (self rhs : Z) : Z := saturating_sub self rhs.
Definition mul (self rhs : Z) : Z := saturating_mul self rhs.
(** Division by zero panics. *)
Definition div (self rhs : Z) : out Z := if rhs =? 0 then Panic else Ret (self / rhs).

End Duration.

(** ** Reasons to sleep *)

Inductive SleepReason := Until (deadline : Z) | Event (handle : Z) | Indefinite.

Module SleepReason.

Definition for_duration (now duration : Z) : SleepReason := Until (Instant.add now duration).
Definition deadline (self : SleepReason) : option Z :=
  match self with Until deadline => Some deadline | _ => None end.

End SleepReason.

(** *** [AtomicSleepReason] *)

Module AtomicSleepReason.

Definition DISCRIMINANT_MASK : Z := 3.
Definition DISCRIMINANT_NONE : Z := 0.
Definition DISCRIMINANT_UNTIL : Z := 1.
Definition DISCRIMINANT_EVENT : Z := 2.
Definition DISCRIMINANT_INDEFINITE : Z := 3.
Definition DATA_SHIFT : Z := 2.

Definition pack (reason : option SleepReason) : out Z :=
  match reason with
  | None => Ret DISCRIMINANT_NONE
  | Some Indefinite => Ret DISCRIMINANT_INDEFINITE
  | Some (Event handle_raw) =>
      assert_ (handle_raw <? Z.shiftl 1 62);;
      Ret (Z.lor (shl_w 64 handle_raw DATA_SHIFT) DISCRIMINANT_EVENT)
  | Some (Until instant) =>
      let micros_raw := Instant.total_micros instant in
      Ret (Z.lor (Z.land micros_raw (not_w 64 DISCRIMINANT_MASK)) DISCRIMINANT_UNTIL)
  end.

Definition unpack (raw : Z) : option SleepReason :=
  let discriminant := Z.land raw DISCRIMINANT_MASK in
  if discriminant =? DISCRIMINANT_INDEFINITE then Some Indefinite
  else if discriminant =? DISCRIMINANT_EVENT then Some (Event (Z.shiftr raw DATA_SHIFT))
  else if discriminant =? DISCRIMINANT_UNTIL then
    let micros_raw := Z.land raw (not_w 64 DISCRIMINANT_MASK) in Some (Until (Instant.from_micros micros_raw))
  else None.

(** The operations on the atomic word [self] *)
Definition new (reason : option SleepReason) : out Z := pack reason.
Definition load (self : Z) : option SleepReason := unpack self.
Definition store (self : Z) (reason : option SleepReason) : out Z := pack reason.
Definition swap (self : Z) (reason : option SleepReason) : out (Z * option SleepReason) :=
  raw ← pack reason; Ret (raw, unpack self).

End AtomicSleepReason.

(** ** Packing *)

(** What a reason is after it has been stored: deadlines are rounded down to 4 microseconds. *)
Definition stored_reason (reason : option SleepReason) : option SleepReason :=
  match reason with
  | Some (Until d) => Some (Until (d - d mod 4))
  | r => r
  end.

Definition reason_ok (reason : option SleepReason) : Prop :=
  match reason with
  | Some (Until d) => is_u64 d
  | Some (Event h) => 0 ≤ h < 2 ^ 62
  | _ => True
  end.

Lemma word_parts x d : 0 ≤ d < 4 → x mod 4 = 0 → is_u64 x →
  Z.land (Z.lor x d) 3 = d ∧ Z.land (Z.lor x d) (not_w 64 3) = x ∧ Z.shiftr (Z.lor x d) 2 = x / 4 ∧ is_u64 (Z.lor x d).
Proof.
  intros Hd Hm Hx. rewrite (lor_low 2) by (cbn; done || lia). change 3 with (2 ^ 2 - 1).
  assert (is_u64 (x + d)) as Hu.
  { destruct Hx. split; [lia |]. pose proof (Z.div_mod x 4 ltac:(lia)). change (2 ^ 64) with (2 ^ 62 * 4) in *. lia. }
  rewrite land_mask, land_not_mask by (done || lia). rewrite Z.shiftr_div_pow2 by lia. change (2 ^ 2) with 4.
  pose proof (Z.div_mod x 4 ltac:(lia)). assert ((x + d) mod 4 = d) as ->.
  { symmetry. apply (Z.mod_unique_pos _ _ (x / 4)); lia. }
  split_and!; [done | lia | | done]. symmetry. apply (Z.div_unique_pos _ _ _ d); lia.
Qed.

(** A reason to sleep survives being packed into a word, except that a deadline is rounded down to a
    multiple of 4 microseconds, so that a thread may be woken that much too early; the empty word is the
    absence of a reason, and a handle of 62 bits or more makes the kernel panic. *)
Theorem sleep_reason_roundtrip (reason : option SleepReason) :
  (reason_ok reason → ∃ raw, AtomicSleepReason.pack reason = Ret raw ∧ is_u64 raw ∧
    AtomicSleepReason.unpack raw = stored_reason reason ∧ (raw = 0 ↔ reason = None)) ∧
  (∀ h, 2 ^ 62 ≤ h → AtomicSleepReason.pack (Some (Event h)) = Panic).
Proof.
  split.
  2: { intros h Hh. unfold AtomicSleepReason.pack. change (Z.shiftl 1 62) with (2 ^ 62). by rewrite (proj2 (Z.ltb_ge _ _)) by lia. }
  intros Hok. destruct reason as [[d|h|]|]; cbn [reason_ok] in Hok; cbn [AtomicSleepReason.pack].
  - eexists. split; [reflexivity |]. unfold Instant.total_micros, AtomicSleepReason.DISCRIMINANT_MASK.
    change 3 with (2 ^ 2 - 1). rewrite land_not_mask by (done || lia). change (2 ^ 2) with 4.
    pose proof (Z.mod_pos_bound d 4 ltac:(lia)). pose proof (Z.div_mod d 4 ltac:(lia)).
    assert ((d - d mod 4) mod 4 = 0) as Hm by (replace (d - d mod 4) with (d / 4 * 4) by lia; by apply Z.mod_mul).
    assert (is_u64 (d - d mod 4)) as Hu by (destruct Hok; split; lia).
    destruct (word_parts _ 1 ltac:(lia) Hm Hu) as (E1 & E2 & _ & Hw).
    split_and!; [done | | ].
    + unfold AtomicSleepReason.unpack, AtomicSleepReason.DISCRIMINANT_MASK, AtomicSleepReason.DISCRIMINANT_UNTIL.
      by rewrite E1, E2.
    + split; [| done]. intros E0. unfold AtomicSleepReason.DISCRIMINANT_UNTIL in E0. by rewrite E0 in E1.
  - change (Z.shiftl 1 62) with (2 ^ 62). rewrite (proj2 (Z.ltb_lt _ _)) by lia. eexists. split; [reflexivity |].
    unfold shl_w, AtomicSleepReason.DATA_SHIFT. rewrite Z.shiftl_mul_pow2 by lia. change (2 ^ 2) with 4.
    rewrite Z.mod_small by lia.
    destruct (word_parts (h * 4) 2 ltac:(lia) ltac:(by apply Z.mod_mul) ltac:(split; lia)) as (E1 & _ & E3 & Hw).
    rewrite Z.div_mul in E3 by lia. split_and!; [done | |].
    + unfold AtomicSleepReason.unpack, AtomicSleepReason.DISCRIMINANT_MASK, AtomicSleepReason.DISCRIMINANT_EVENT, AtomicSleepReason.DATA_SHIFT.
      by rewrite E1, E3.
    + split; [| done]. intros E0. unfold AtomicSleepReason.DISCRIMINANT_EVENT in E0. by rewrite E0 in E1.
  - by exists 3.
  - by exists 0.
Qed.

Lemma sleep_reason_roundtrip_witness :
  ∃ raw, AtomicSleepReason.pack (Some (Until 1003)) = Ret raw ∧ AtomicSleepReason.unpack raw = Some (Until 1000).
Proof.
  destruct (sleep_reason_roundtrip (Some (Until 1003))) as [H _].
  destruct H as (raw & H1 & _ & H2 & _); [split; lia |]. exists raw. split; [exact H1 | exact H2].
Defined.
