(* ===== verification/Thread.v ===== *)
(** * Threads and their queues

    [kernel/src/process/scheduler/thread.rs], [priority.rs] and [sleep.rs]: what the scheduler knows of a
    thread, the queues of threads that are ready to run, and those of threads that sleep.  The queues of
    ready threads are lists: the queue of [hyperdrive] is shown to be a FIFO queue, for calls that do not overlap, in
    the file on it ([mpsc_calls_fifo]). *)

From S2P Require Import Prelude Time.

(** ** Threads *)

Inductive Priority := Idle | Low | Normal | High | Realtime.
Inductive ThreadState := Running | Ready | Sleeping.

Global Instance priority_eq : EqDecision Priority.
Proof. solve_decision. Defined.
Global Instance state_eq : EqDecision ThreadState.
Proof. solve_decision. Defined.

Definition priority_to_u8 (p : Priority) : Z :=
  match p with Idle => 0 | Low => 1 | Normal => 2 | High => 3 | Realtime => 4 end.

Definition priority_try_from (value : Z) : option Priority :=
  match value with 1 => Some Low | 2 => Some Normal | 3 => Some High | _ => None end.

Record ThreadStats := mkThreadStats { cpu_time_ms : Z; wake_time : Z }.

(** The links of a thread are part of the queue; its saved stack pointer, which is written through a raw
    pointer, is part of the state of the scheduler. *)
Record Thread := mkThread {
  tid : Z;
  root_proc : Z;
  priority : Priority;
  tstate : ThreadState;
  tls : option Z;
  stats : ThreadStats;
}.

Module Thread.

Definition new_kernel (id kernel_process : Z) : Thread :=
  mkThread id kernel_process High Running None (mkThreadStats 0 Instant.ZERO).
Definition new (id root_proc : Z) (priority : Priority) : Thread :=
  mkThread id root_proc priority Ready None (mkThreadStats 0 Instant.ZERO).

Definition set_state (self : Thread) (state : ThreadState) : Thread :=
  mkThread (tid self) (root_proc self) (priority self) state (tls self) (stats self).
Definition set_wake_time (self : Thread) (wake_time : Z) : Thread :=
  mkThread (tid self) (root_proc self) (priority self) (tstate self) (tls self) (mkThreadStats (cpu_time_ms (stats self)) wake_time).
Definition set_cpu_time (self : Thread) (ms : Z) : Thread :=
  mkThread (tid self) (root_proc self) (priority self) (tstate self) (tls self) (mkThreadStats ms (wake_time (stats self))).

End Thread.

(** ** Threads that are ready *)

Record RoundRobinQueues := mkQueues {
  idle : list Thread;
  low : list Thread;
  normal : list Thread;
  high : list Thread;
  realtime : list Thread;
}.

Inductive RescheduleReason := QuantumExpired | ExplicitYield.

Definition should_rotate (self : RescheduleReason) : bool :=
  match self with QuantumExpired | ExplicitYield => true end.

Module RoundRobinQueues.

Definition new : RoundRobinQueues := mkQueues [] [] [] [] [].

(** The queue of a priority *)
Definition get (p : Priority) (self : RoundRobinQueues) : list Thread :=
  match p with
  | Idle => idle self | Low => low self | Normal => normal self | High => high self | Realtime => realtime self
  end.
Definition set (p : Priority) (q : list Thread) (self : RoundRobinQueues) : RoundRobinQueues :=
  match p with
  | Idle => mkQueues q (low self) (normal self) (high self) (realtime self)
  | Low => mkQueues (idle self) q (normal self) (high self) (realtime self)
  | Normal => mkQueues (idle self) (low self) q (high self) (realtime self)
  | High => mkQueues (idle self) (low self) (normal self) q (realtime self)
  | Realtime => mkQueues (idle self) (low self) (normal self) (high self) q
  end.

Definition append (self : RoundRobinQueues) (thread : Thread) : RoundRobinQueues :=
  match priority thread with
  | Idle => mkQueues (idle self ++ [thread]) (low self) (normal self) (high self) (realtime self)
  | Low => mkQueues (idle self) (low self ++ [thread]) (normal self) (high self) (realtime self)
  | Normal => mkQueues (idle self) (low self) (normal self ++ [thread]) (high self) (realtime self)
  | High => mkQueues (idle self) (low self) (normal self) (high self ++ [thread]) (realtime self)
  | Realtime => mkQueues (idle self) (low self) (normal self) (high self) (realtime self ++ [thread])
  end.

(** [dequeue] of one of the queues *)
Definition dequeue (self : RoundRobinQueues) (p : Priority) : RoundRobinQueues * option Thread :=
  match get p self with
  | [] => (self, None)
  | thread :: rest => (set p rest self, Some thread)
  end.

(** The loop over the queues in order *)
Fixpoint pop_from (self : RoundRobinQueues) (ps : list Priority) : RoundRobinQueues * option Thread :=
  match ps with
  | [] => (self, None)
  | p :: ps =>
      match dequeue self p with
      | (self', Some thread) => (self', Some thread)
      | (self', None) => pop_from self' ps
      end
  end.

Definition pop_best (self : RoundRobinQueues) : RoundRobinQueues * option Thread :=
  match pop_from self [Realtime; High; Normal; Low] with
  | (self', Some thread) => (self', Some thread)
  | (self', None) => dequeue self' Idle
  end.

Definition should_switch (current candidate : Thread) (reason : RescheduleReason) : bool :=
  let cand_prio := priority candidate in
  let curr_prio := priority current in
  if priority_to_u8 curr_prio <? priority_to_u8 cand_prio then true
  else if priority_to_u8 cand_prio <? priority_to_u8 curr_prio then false
  else negb (bool_decide (cand_prio = Idle)) && should_rotate reason.

End RoundRobinQueues.

(** ** Threads that sleep *)

Record Sleeper := mkSleeper { sreason : SleepReason; sthread : Thread }.
Record TimerKey := mkTimerKey { kdeadline : Z; ktid : Z }.

(** [TimerKey::cmp]: the order by deadline, then by thread *)
Definition timer_le (a b : TimerKey) : bool :=
  (kdeadline a <? kdeadline b) || (kdeadline a =? kdeadline b) && (ktid a <=? ktid b).

(** [BinaryHeap<Reverse<TimerKey>>] as a sorted list: [push], and [peek] and [pop] at the front *)
Fixpoint push_timer (k : TimerKey) (l : list TimerKey) : list TimerKey :=
  match l with
  | [] => [k]
  | k' :: l' => if timer_le k k' then k :: l else k' :: push_timer k l'
  end.

Record SleepQueues := mkSleepQueues {
  sleepers : gmap Z Sleeper;
  timers : list TimerKey;
  events : gmap Z (list Z);
  indefinite : list Z;
}.

(** [position] of the first occurrence and [remove] of that position *)
Fixpoint remove_first (x : Z) (l : list Z) : list Z :=
  match l with
  | [] => []
  | y :: l => if y =? x then l else y :: remove_first x l
  end.

Module SleepQueues.

Definition new : SleepQueues := mkSleepQueues ∅ [] ∅ [].

Definition insert_thread (self : SleepQueues) (reason : SleepReason) (thread : Thread) : SleepQueues :=
  let thread := match SleepReason.deadline reason with
                | Some deadline => Thread.set_wake_time thread deadline
                | None => Thread.set_wake_time thread Instant.ZERO
                end in
  let id := tid thread in
  let sleepers' := <[id := mkSleeper reason thread]> (sleepers self) in
  match reason with
  | Until deadline => mkSleepQueues sleepers' (push_timer (mkTimerKey deadline id) (timers self)) (events self) (indefinite self)
  | Event handle =>
      mkSleepQueues sleepers' (timers self) (<[handle := default [] (events self !! handle) ++ [id]]> (events self)) (indefinite self)
  | Indefinite => mkSleepQueues sleepers' (timers self) (events self) (indefinite self ++ [id])
  end.

(** The loop of [pop_ready]: what is left of the timers, and the sleeper that is removed *)
Fixpoint pop_timers (sl : gmap Z Sleeper) (ts : list TimerKey) (now : Z) : list TimerKey * option (Z * Thread) :=
  match ts with
  | [] => ([], None)
  | timer :: rest =>
      if now <? kdeadline timer then (ts, None)
      else match sl !! ktid timer with
           | Some sleeper => (rest, Some (ktid timer, sthread sleeper))
           | None => pop_timers sl rest now
           end
  end.

Definition pop_ready (self : SleepQueues) (now : Z) : SleepQueues * option Thread :=
  let '(ts, o) := pop_timers (sleepers self) (timers self) now in
  match o with
  | Some (id, thread) => (mkSleepQueues (delete id (sleepers self)) ts (events self) (indefinite self), Some thread)
  | None => (mkSleepQueues (sleepers self) ts (events self) (indefinite self), None)
  end.

Definition wake_event_single (self : SleepQueues) (handle : Z) : SleepQueues * option Thread :=
  match events self !! handle with
  | None | Some [] => (self, None)
  | Some (id :: tids) =>
      let events' := <[handle := tids]> (events self) in
      match sleepers self !! id with
      | Some sleeper =>
          (mkSleepQueues (delete id (sleepers self)) (timers self)
             (match tids with [] => delete handle events' | _ => events' end) (indefinite self), Some (sthread sleeper))
      | None => (mkSleepQueues (sleepers self) (timers self) events' (indefinite self), None)
      end
  end.

(** The loop of [wake_event_all] *)
Fixpoint wake_all (sl : gmap Z Sleeper) (tids : list Z) : gmap Z Sleeper * list Thread :=
  match tids with
  | [] => (sl, [])
  | id :: tids =>
      match sl !! id with
      | Some sleeper => let '(sl', ready) := wake_all (delete id sl) tids in (sl', sthread sleeper :: ready)
      | None => wake_all sl tids
      end
  end.

Definition wake_event_all (self : SleepQueues) (handle : Z) : SleepQueues * list Thread :=
  match events self !! handle with
  | None => (self, [])
  | Some tids =>
      let '(sl, ready) := wake_all (sleepers self) tids in
      (mkSleepQueues sl (timers self) (delete handle (events self)) (indefinite self), ready)
  end.

Definition wake_thread (self : SleepQueues) (id : Z) : SleepQueues * option Thread :=
  match sleepers self !! id with
  | None => (self, None)
  | Some sleeper =>
      let sl := delete id (sleepers self) in
      (match sreason sleeper with
       | Event handle =>
           match events self !! handle with
           | Some queue =>
               if bool_decide (id ∈ queue) then
                 let queue := remove_first id queue in
                 mkSleepQueues sl (timers self)
                   (match queue with [] => delete handle (events self) | _ => <[handle := queue]> (events self) end)
                   (indefinite self)
               else mkSleepQueues sl (timers self) (events self) (indefinite self)
           | None => mkSleepQueues sl (timers self) (events self) (indefinite self)
           end
       | Indefinite => mkSleepQueues sl (timers self) (events self) (remove_first id (indefinite self))
       | Until _ => mkSleepQueues sl (timers self) (events self) (indefinite self)
       end, Some (sthread sleeper))
  end.

End SleepQueues.

(** ** What the queues of sleeping threads promise *)

Global Instance reason_eq : EqDecision SleepReason.
Proof. solve_decision. Defined.

(** The specification: the threads that sleep, with their reasons, in the order in which they fell asleep *)

Definition sid (s : Sleeper) : Z := tid (sthread s).
Definition waiting (h : Z) (L : list Sleeper) : list Sleeper := filter (λ s, sreason s = Event h) L.
Definition without (id : Z) (L : list Sleeper) : list Sleeper := filter (λ s, sid s ≠ id) L.

(** The wake-up time of a thread that goes to sleep *)
Definition with_wake_time (reason : SleepReason) (t : Thread) : Thread :=
  Thread.set_wake_time t (default Instant.ZERO (SleepReason.deadline reason)).

(** The queues [q] hold the sleeping threads [L].  Every thread that sleeps until a time has a timer; other timers are
    those of threads that do not sleep.  The threads that wait for an event are queued in the order of [L]. *)
Record sleeps (q : SleepQueues) (L : list Sleeper) : Prop := {
  sl_once : NoDup (sid <$> L);
  sl_map id s : sleepers q !! id = Some s ↔ s ∈ L ∧ sid s = id;
  sl_timed s d : s ∈ L → sreason s = Until d → mkTimerKey d (sid s) ∈ timers q;
  sl_timer k s : k ∈ timers q → s ∈ L → sid s = ktid k → sreason s = Until (kdeadline k);
  sl_sorted : StronglySorted (λ a b, timer_le a b = true) (timers q);
  sl_events h : default [] (events q !! h) = sid <$> waiting h L;
  sl_no_empty h : events q !! h ≠ Some [];
  sl_indefinite : indefinite q = sid <$> filter (λ s, sreason s = Indefinite) L;
}.

Lemma timer_le_total a b : timer_le a b = false → timer_le b a = true.
Proof.
  unfold timer_le. intros H. apply orb_false_iff in H as [H1%Z.ltb_ge H2]. apply andb_false_iff in H2. apply orb_true_iff.
  destruct (Z.eqb_spec (kdeadline a) (kdeadline b)) as [E|]; [| left; apply Z.ltb_lt; lia].
  right. rewrite E, Z.eqb_refl. destruct H2 as [?|H2%Z.leb_gt]; [done |]. apply Z.leb_le. lia.
Qed.

Lemma timer_le_trans a b c : timer_le a b = true → timer_le b c = true → timer_le a c = true.
Proof.
  unfold timer_le. rewrite !orb_true_iff, !andb_true_iff, !Z.ltb_lt, !Z.eqb_eq, !Z.leb_le. lia.
Qed.

Lemma push_timer_perm k l : push_timer k l ≡ₚ k :: l.
Proof.
  induction l as [|k' l IH]; cbn; [done |]. destruct (timer_le k k'); [done |]. rewrite IH. by apply Permutation_swap.
Qed.

Lemma push_timer_sorted k l :
  StronglySorted (λ a b, timer_le a b = true) l → StronglySorted (λ a b, timer_le a b = true) (push_timer k l).
Proof.
  induction 1 as [|k' l Hs IH Hall]; cbn; [by repeat constructor |]. destruct (timer_le k k') eqn:E.
  - constructor; [by constructor |]. apply Forall_cons. split; [done |]. eapply Forall_impl; [exact Hall |].
    intros x Hx. by eapply timer_le_trans.
  - constructor; [done |]. rewrite push_timer_perm. apply Forall_cons. split; [by apply timer_le_total | done].
Qed.

Lemma remove_first_none x l : x ∉ l → remove_first x l = l.
Proof.
  induction l as [|y l IH]; [done|]. intros [Hy Hl]%not_elem_of_cons. cbn.
  rewrite (proj2 (Z.eqb_neq _ _)) by congruence. f_equal. by apply IH.
Qed.

Section sleeping.
Implicit Types (q : SleepQueues) (L : list Sleeper) (id h now d : Z).

(** ** Lists of sleeping threads *)

Lemma sid_inj L s s' : NoDup (sid <$> L) → s ∈ L → s' ∈ L → sid s = sid s' → s = s'.
Proof.
  induction L as [|x L IH]; [by intros _ ?%elem_of_nil|]. intros [Hx Hnd]%NoDup_cons. rewrite !elem_of_cons.
  intros [->|Hs] [->|Hs'] E; [done | | | by apply IH]; exfalso; apply Hx; [rewrite E | rewrite <- E]; by apply list_elem_of_fmap_2.
Qed.

Lemma without_elem id L s : s ∈ without id L ↔ s ∈ L ∧ sid s ≠ id.
Proof. unfold without. rewrite list_elem_of_filter. naive_solver. Qed.

Lemma filter_none (P : Sleeper → Prop) `{!∀ x, Decision (P x)} L : (∀ s, s ∈ L → ¬ P s) → filter P L = [].
Proof.
  induction L as [|x L IH]; [done|]. intros HP. rewrite filter_cons_False by (apply HP; by left). apply IH. intros s Hs. apply HP. by right.
Qed.

Lemma filter_whole (P : Sleeper → Prop) `{!∀ x, Decision (P x)} L : (∀ s, s ∈ L → P s) → filter P L = L.
Proof.
  induction L as [|x L IH]; [done|]. intros HP. rewrite filter_cons_True by (apply HP; by left). f_equal. apply IH. intros s Hs. apply HP. by right.
Qed.

Lemma without_none id L : id ∉ sid <$> L → without id L = L.
Proof. intros Hid. apply filter_whole. intros s Hs <-. by apply Hid, list_elem_of_fmap_2. Qed.

Lemma filter_nodup (P : Sleeper → Prop) `{!∀ x, Decision (P x)} L : NoDup (sid <$> L) → NoDup (sid <$> filter P L).
Proof.
  induction L as [|x L IH]; [done|]. intros [Hx Hnd]%NoDup_cons. rewrite filter_cons. destruct (decide (P x)); [|by apply IH].
  apply NoDup_cons. split; [|by apply IH]. intros (y & E & [_ Hy]%list_elem_of_filter)%list_elem_of_fmap. apply Hx. rewrite E.
  by apply list_elem_of_fmap_2.
Qed.

(** Taking a thread out of the list takes it out of the queue that it is in. *)
Lemma filter_without (P : Sleeper → Prop) `{!∀ x, Decision (P x)} id L :
  NoDup (sid <$> L) → sid <$> filter P (without id L) = remove_first id (sid <$> filter P L).
Proof.
  induction L as [|x L IH]; [done|]. intros [Hx Hnd]%NoDup_cons. unfold without. rewrite !filter_cons.
  destruct (decide (sid x ≠ id)) as [Hne|He%dec_stable].
  - rewrite filter_cons. destruct (decide (P x)); [|by apply IH]. cbn. rewrite (proj2 (Z.eqb_neq _ _) Hne). f_equal. by apply IH.
  - change (filter (λ s, sid s ≠ id) L) with (without id L). rewrite without_none by (by rewrite <- He).
    destruct (decide (P x)); cbn; [by rewrite (proj2 (Z.eqb_eq _ _) He)|]. symmetry. apply remove_first_none.
    intros (y & E & [_ Hy]%list_elem_of_filter)%list_elem_of_fmap. apply Hx. rewrite He, E. by apply list_elem_of_fmap_2.
Qed.

Lemma filter_other (P : Sleeper → Prop) `{!∀ x, Decision (P x)} s L :
  NoDup (sid <$> L) → s ∈ L → ¬ P s → sid <$> filter P (without (sid s) L) = sid <$> filter P L.
Proof.
  intros Hnd Hs HP. rewrite filter_without by done. apply remove_first_none.
  intros (y & E & [Hy Hin]%list_elem_of_filter)%list_elem_of_fmap. apply HP. by rewrite (sid_inj L s y).
Qed.

Lemma sleeps_lookup q L s : sleeps q L → s ∈ L → sleepers q !! sid s = Some s.
Proof. intros Hq Hs. by apply (sl_map _ _ Hq). Qed.

(** What all ways of waking a thread share: the timers that are dropped are those of threads that do not sleep then. *)
Lemma sleeps_removed q L s ts ev ind :
  sleeps q L → s ∈ L → (∀ k, k ∈ ts → k ∈ timers q) →
  (∀ k s', k ∈ timers q → s' ∈ L → sid s' ≠ sid s → sid s' = ktid k → k ∈ ts) →
  StronglySorted (λ a b, timer_le a b = true) ts →
  (∀ h, default [] (ev !! h) = sid <$> waiting h (without (sid s) L)) → (∀ h, ev !! h ≠ Some []) →
  ind = sid <$> filter (λ s, sreason s = Indefinite) (without (sid s) L) →
  sleeps (mkSleepQueues (delete (sid s) (sleepers q)) ts ev ind) (without (sid s) L).
Proof.
  intros Hq Hs Hsub Hgone Hso Hev Hne Hind. split; cbn; try done.
  - apply filter_nodup, Hq.
  - intros id s'. rewrite lookup_delete_Some, (sl_map _ _ Hq), without_elem. naive_solver.
  - intros s' d [Hs' Hn]%without_elem Hr. by apply (Hgone _ s' (sl_timed _ _ Hq s' d Hs' Hr)).
  - intros k s' Hk [Hs' _]%without_elem E. apply (sl_timer _ _ Hq); auto.
Qed.

(** ** The operations *)

Lemma insert_thread_sleepers q reason t :
  sleepers (SleepQueues.insert_thread q reason t) = <[tid t := mkSleeper reason (with_wake_time reason t)]> (sleepers q).
Proof. by destruct reason. Qed.

Lemma insert_thread_ok q L reason t :
  sleeps q L → tid t ∉ sid <$> L → (∀ d, mkTimerKey d (tid t) ∉ timers q) →
  sleeps (SleepQueues.insert_thread q reason t) (L ++ [mkSleeper reason (with_wake_time reason t)]).
Proof.
  intros Hq Hid Hnt. set (new := mkSleeper reason (with_wake_time reason t)).
  assert (sid new = tid t) as Hnew by done.
  pose proof (insert_thread_sleepers q reason t) as Hsl. fold new in Hsl.
  assert (∀ k, k ∈ timers (SleepQueues.insert_thread q reason t) ↔ k ∈ timers q ∨ ∃ d, reason = Until d ∧ k = mkTimerKey d (tid t)) as Htm.
  { intros k. destruct reason as [d| |]; cbn; [rewrite push_timer_perm, elem_of_cons | ..]; naive_solver. }
  split.
  - rewrite fmap_app. apply NoDup_app. split_and!; [apply Hq | | by apply NoDup_singleton].
    intros x Hx ->%list_elem_of_singleton. by rewrite Hnew in Hx.
  - intros id s. rewrite Hsl, lookup_insert_Some, elem_of_app, list_elem_of_singleton, (sl_map _ _ Hq). split.
    + intros [[<- <-]|[Hne [Hs <-]]]; [by auto | auto].
    + intros [[Hs| ->] <-]; [right | by left]. split; [|done]. intros E. apply Hid. rewrite E. by apply list_elem_of_fmap_2.
  - intros s d. rewrite elem_of_app, list_elem_of_singleton, Htm. intros [Hs| ->] Hr; [left; by apply (sl_timed _ _ Hq)|].
    right. exists d. by rewrite Hnew.
  - intros k s. rewrite elem_of_app, list_elem_of_singleton, Htm. intros [Hk|(d & Hr & ->)] [Hs| ->] E.
    + by apply (sl_timer _ _ Hq).
    + exfalso. apply (Hnt (kdeadline k)). rewrite <- Hnew, E. by destruct k.
    + exfalso. apply Hid. cbn in E. rewrite <- E. by apply list_elem_of_fmap_2.
    + done.
  - destruct reason; cbn; [apply push_timer_sorted | ..]; apply Hq.
  - intros h. unfold waiting. rewrite filter_app, fmap_app. fold (waiting h L). rewrite <- (sl_events _ _ Hq h), filter_cons, filter_nil.
    destruct (decide (sreason new = Event h)) as [E|E]; cbn in E.
    + subst reason. cbn. by rewrite lookup_insert_eq.
    + rewrite app_nil_r. destruct reason as [d|h'|]; cbn; [done | | done]. by rewrite lookup_insert_ne by congruence.
  - intros h. destruct reason as [d|h'|]; cbn; [apply Hq | | apply Hq].
    intros [[_ E]|[_ E]]%lookup_insert_Some; [by destruct (default _ _) | by apply (sl_no_empty _ _ Hq h)].
  - rewrite filter_app, fmap_app, <- (sl_indefinite _ _ Hq), filter_cons, filter_nil.
    destruct (decide (sreason new = Indefinite)) as [E|E]; cbn in E; [by subst reason|]. rewrite app_nil_r. by destruct reason.
Qed.

(** The loop over the timers: those of threads that do not sleep are dropped. *)
Lemma pop_timers_ok q L ts now :
  sleeps q L → (∀ k, k ∈ ts → k ∈ timers q) → StronglySorted (λ a b, timer_le a b = true) ts →
  let '(ts', o) := SleepQueues.pop_timers (sleepers q) ts now in
  (∀ k, k ∈ ts' → k ∈ ts) ∧ StronglySorted (λ a b, timer_le a b = true) ts' ∧
  match o with
  | None => (∀ k s, k ∈ ts → s ∈ L → sid s = ktid k → k ∈ ts' ∧ now < kdeadline k)
  | Some (id, t) => ∃ s d, s ∈ L ∧ sid s = id ∧ sthread s = t ∧ mkTimerKey d id ∈ ts ∧ d ≤ now ∧
      ∀ k s', k ∈ ts → s' ∈ L → sid s' = ktid k → timer_le (mkTimerKey d id) k = true ∧ (sid s' ≠ id → k ∈ ts')
  end.
Proof.
  intros Hq Hsub. induction ts as [|k0 ts IH]; intros Hso; cbn [SleepQueues.pop_timers].
  { split_and!; [done | done |]. by intros k s ?%elem_of_nil. }
  pose proof Hso as [Hso' Hall]%StronglySorted_inv. rewrite Forall_forall in Hall.
  destruct (Z.ltb_spec now (kdeadline k0)) as [Hlt|Hge].
  - split_and!; [done | done |]. intros k s [->|Hk]%elem_of_cons _ _; [split; [by left | done]|]. split; [by right|].
    apply Hall in Hk. unfold timer_le in Hk. rewrite orb_true_iff, andb_true_iff, Z.ltb_lt, Z.eqb_eq in Hk. lia.
  - destruct (sleepers q !! ktid k0) as [s|] eqn:Hs.
    + apply (sl_map _ _ Hq) in Hs as [Hs Hid]. split_and!; [by right | done |]. exists s, (kdeadline k0).
      split_and!; try done; [apply elem_of_cons; left; by destruct k0|]. intros k s' [->|Hk]%elem_of_cons Hs' E.
      * split; [|congruence]. destruct k0. unfold timer_le. cbn. by rewrite Z.eqb_refl, Z.leb_refl, orb_true_r.
      * split; [|done]. replace (mkTimerKey (kdeadline k0) (ktid k0)) with k0 by (by destruct k0). by apply Hall.
    + assert (∀ s, s ∈ L → sid s ≠ ktid k0) as Hno.
      { intros s Hin E. apply (sleeps_lookup q L s Hq) in Hin. congruence. }
      specialize (IH ltac:(intros k Hk; apply Hsub; by right) Hso').
      destruct (SleepQueues.pop_timers (sleepers q) ts now) as [ts' [[id t]|]]; destruct IH as (IH1 & IH2 & IH3).
      * split_and!; [intros k Hk; right; auto | done |]. destruct IH3 as (s & d & ? & ? & ? & ? & ? & Hmin).
        exists s, d. split_and!; try done; [by right|]. intros k s' [->|Hk]%elem_of_cons Hs' E; [by apply Hno in Hs' | by apply Hmin].
      * split_and!; [intros k Hk; right; auto | done |]. intros k s [->|Hk]%elem_of_cons Hs' E; [by apply Hno in Hs' | by apply (IH3 k s)].
Qed.

Lemma pop_ready_ok q L now :
  sleeps q L →
  match SleepQueues.pop_ready q now with
  | (q', None) => sleeps q' L ∧ ∀ s d, s ∈ L → sreason s = Until d → now < d
  | (q', Some t) => ∃ s d, s ∈ L ∧ sthread s = t ∧ sreason s = Until d ∧ d ≤ now ∧
      (∀ s' d', s' ∈ L → sreason s' = Until d' → d < d' ∨ d = d' ∧ sid s ≤ sid s') ∧ sleeps q' (without (tid t) L)
  end.
Proof.
  intros Hq. unfold SleepQueues.pop_ready. pose proof (pop_timers_ok q L (timers q) now Hq (λ _ H, H) (sl_sorted _ _ Hq)) as Hp.
  destruct (SleepQueues.pop_timers _ _ _) as [ts [[id t]|]]; destruct Hp as (Hsub & Hso & Hres).
  - destruct Hres as (s & d & Hs & <- & <- & Hk & Hd & Hmin).
    assert (sreason s = Until d) as Hr by (apply (sl_timer _ _ Hq (mkTimerKey d (sid s))); done).
    exists s, d. split_and!; try done.
    + intros s' d' Hs' Hr'. destruct (Hmin (mkTimerKey d' (sid s')) s') as [Hle _]; [by apply (sl_timed _ _ Hq) | done | done |].
      unfold timer_le in Hle. cbn in Hle. rewrite orb_true_iff, andb_true_iff, Z.ltb_lt, Z.eqb_eq, Z.leb_le in Hle. done.
    + apply sleeps_removed; try done.
      * intros k s' Hk' Hs' Hne E. by destruct (Hmin k s' Hk' Hs' E) as [_ Hin]; apply Hin.
      * intros h. rewrite (sl_events _ _ Hq). symmetry. apply filter_other; [apply Hq | done | congruence].
      * apply Hq.
      * rewrite (sl_indefinite _ _ Hq). symmetry. apply filter_other; [apply Hq | done | congruence].
  - split.
    + split; cbn; try apply Hq; try done.
      * intros s d Hs Hr. by destruct (Hres (mkTimerKey d (sid s)) s) as [? _]; [by apply (sl_timed _ _ Hq) | ..].
      * intros k s Hk. apply (sl_timer _ _ Hq). by apply Hsub.
    + intros s d Hs Hr. by destruct (Hres (mkTimerKey d (sid s)) s) as [_ ?]; [by apply (sl_timed _ _ Hq) | ..].
Qed.

(** The queue of an event, without one of its threads *)
Lemma events_removed q L s h (rest : list Z) (ev : gmap Z (list Z)) :
  sleeps q L → s ∈ L → sreason s = Event h → rest = remove_first (sid s) (default [] (events q !! h)) →
  ev = match rest with [] => delete h (events q) | _ => <[h := rest]> (events q) end →
  sleeps (mkSleepQueues (delete (sid s) (sleepers q)) (timers q) ev (indefinite q)) (without (sid s) L).
Proof.
  intros Hq Hs Hr Hrest Hev. apply sleeps_removed; try done; try apply Hq.
  - intros h'. unfold waiting. destruct (decide (h' = h)) as [->|Hne].
    + rewrite filter_without by apply Hq. fold (waiting h L). rewrite <- (sl_events _ _ Hq h), <- Hrest, Hev.
      destruct rest; [by rewrite lookup_delete_eq | by rewrite lookup_insert_eq].
    + rewrite filter_other by (try apply Hq; try done; congruence). fold (waiting h' L). rewrite <- (sl_events _ _ Hq h'), Hev.
      destruct rest; [by rewrite lookup_delete_ne | by rewrite lookup_insert_ne].
  - intros h'. rewrite Hev. destruct rest; [rewrite lookup_delete_Some | rewrite lookup_insert_Some]; intros E.
    + destruct E as [_ E]. by apply (sl_no_empty _ _ Hq h').
    + destruct E as [[_ E]|[_ E]]; [done | by apply (sl_no_empty _ _ Hq h')].
  - rewrite (sl_indefinite _ _ Hq). symmetry. apply filter_other; [apply Hq | done | congruence].
Qed.

Lemma wake_event_single_ok q L h :
  sleeps q L →
  match head (waiting h L), SleepQueues.wake_event_single q h with
  | None, (q', o) => q' = q ∧ o = None
  | Some s, (q', o) => o = Some (sthread s) ∧ sleeps q' (without (sid s) L)
  end.
Proof.
  intros Hq. pose proof (sl_events _ _ Hq h) as He. unfold SleepQueues.wake_event_single.
  destruct (waiting h L) as [|s W] eqn:EW; cbn [head fmap list_fmap] in *.
  - destruct (events q !! h) as [[|]|] eqn:El; [done | done | done].
  - destruct (events q !! h) as [l|] eqn:El; [|done]. cbn in He. subst l.
    assert (s ∈ waiting h L) as [Hr Hs]%list_elem_of_filter by (rewrite EW; by left).
    rewrite (sleeps_lookup q L s Hq Hs). split; [done|].
    apply (events_removed q L s h (sid <$> W)); try done; [rewrite El; cbn; by rewrite Z.eqb_refl|].
    destruct (sid <$> W); [by rewrite delete_insert_eq | done].
Qed.

Lemma wake_all_ok (sl : gmap Z Sleeper) (W : list Sleeper) :
  NoDup (sid <$> W) → (∀ s, s ∈ W → sl !! sid s = Some s) →
  let '(sl', ready) := SleepQueues.wake_all sl (sid <$> W) in
  ready = sthread <$> W ∧ ∀ id s, sl' !! id = Some s ↔ sl !! id = Some s ∧ id ∉ sid <$> W.
Proof.
  revert sl. induction W as [|s W IH]; intros sl Hnd Hall; cbn [fmap list_fmap SleepQueues.wake_all].
  { split; [done|]. intros id s. split; [|by intros [? _]]. intros H. split; [done | apply not_elem_of_nil]. }
  apply NoDup_cons in Hnd as [Hx Hnd]. rewrite (Hall s) by (by left).
  assert (∀ s', s' ∈ W → delete (sid s) sl !! sid s' = Some s') as Hall'.
  { intros s' Hs'. rewrite lookup_delete_ne; [apply Hall; by right|]. intros E. apply Hx. rewrite E. by apply list_elem_of_fmap_2. }
  specialize (IH (delete (sid s) sl) Hnd Hall'). change (list_fmap _ _ sid W) with (sid <$> W).
  destruct (SleepQueues.wake_all _ _) as [sl' ready]. destruct IH as [-> IH]. split; [done|].
  intros id s'. rewrite IH, lookup_delete_Some, not_elem_of_cons. naive_solver.
Qed.

Lemma wake_event_all_ok q L h :
  sleeps q L →
  let '(q', ready) := SleepQueues.wake_event_all q h in
  ready = sthread <$> waiting h L ∧ sleeps q' (filter (λ s, sreason s ≠ Event h) L).
Proof.
  intros Hq. pose proof (sl_events _ _ Hq h) as He. unfold SleepQueues.wake_event_all.
  assert (∀ (P : Sleeper → Prop) `{!∀ x, Decision (P x)}, (∀ s, P s → sreason s ≠ Event h) →
    filter P (filter (λ s, sreason s ≠ Event h) L) = filter P L) as Hff.
  { intros P ? HP. rewrite list_filter_filter. apply list_filter_iff. naive_solver. }
  destruct (events q !! h) as [l|] eqn:El; cbn in He.
  - subst l. pose proof (wake_all_ok (sleepers q) (waiting h L)) as Hw.
    destruct (SleepQueues.wake_all _ _) as [sl ready]. destruct Hw as [-> Hsl]; [apply filter_nodup, Hq | |].
    { intros s [_ Hs]%list_elem_of_filter. by apply (sleeps_lookup q L). }
    split; [done|]. split; cbn; try apply Hq.
    + apply filter_nodup, Hq.
    + intros id s. rewrite Hsl, (sl_map _ _ Hq), list_elem_of_filter. split.
      * intros [[Hs <-] Hn]. split; [|done]. split; [|done]. intros Hr. apply Hn, list_elem_of_fmap_2. by apply list_elem_of_filter.
      * intros [[Hr Hs] <-]. split; [done|]. intros (s' & E & [Hr' Hs']%list_elem_of_filter)%list_elem_of_fmap.
        apply Hr. by rewrite (sid_inj L s s') by (done || apply Hq).
    + intros s d [_ Hs]%list_elem_of_filter. by apply (sl_timed _ _ Hq).
    + intros k s Hk [_ Hs]%list_elem_of_filter. by apply (sl_timer _ _ Hq).
    + intros h'. unfold waiting. destruct (decide (h' = h)) as [->|Hne].
      * rewrite lookup_delete_eq, list_filter_filter. by rewrite filter_none by (intros s _ [Hp Hn]; congruence).
      * rewrite lookup_delete_ne, Hff by congruence. apply Hq.
    + intros h' [_ E]%lookup_delete_Some. by apply (sl_no_empty _ _ Hq h').
    + rewrite Hff by congruence. apply Hq.
  - symmetry in He. apply fmap_nil_inv in He as Hw. rewrite Hw. split; [done|].
    assert (filter (λ s, sreason s ≠ Event h) L = L) as ->; [|done].
    apply filter_whole. intros s Hs Hr. apply (not_elem_of_nil s). rewrite <- Hw. by apply list_elem_of_filter.
Qed.

Lemma wake_thread_ok q L id :
  sleeps q L →
  let '(q', o) := SleepQueues.wake_thread q id in
  o = sthread <$> head (filter (λ s, sid s = id) L) ∧ sleeps q' (without id L).
Proof.
  intros Hq. unfold SleepQueues.wake_thread. destruct (sleepers q !! id) as [s|] eqn:Hs.
  - apply (sl_map _ _ Hq) in Hs as [Hs <-]. split.
    + assert (s ∈ filter (λ s', sid s' = sid s) L) as Hin by (by apply list_elem_of_filter).
      destruct (filter _ L) as [|x l] eqn:Ef; [by apply elem_of_nil in Hin|]. cbn.
      assert (x ∈ filter (λ s', sid s' = sid s) L) as [Hx HxL]%list_elem_of_filter by (rewrite Ef; by left).
      by rewrite (sid_inj L s x) by (done || apply Hq).
    + destruct (sreason s) as [d|h|] eqn:Hr.
      * apply sleeps_removed; try done; try apply Hq.
        -- intros h. rewrite (sl_events _ _ Hq). symmetry. apply filter_other; [apply Hq | done | congruence].
        -- rewrite (sl_indefinite _ _ Hq). symmetry. apply filter_other; [apply Hq | done | congruence].
      * pose proof (sl_events _ _ Hq h) as He.
        assert (sid s ∈ sid <$> waiting h L) as Hin by (apply list_elem_of_fmap_2; by apply list_elem_of_filter).
        destruct (events q !! h) as [l|] eqn:El; cbn in He; [|rewrite <- He in Hin; by apply elem_of_nil in Hin].
        subst l. rewrite bool_decide_true by done. eapply (events_removed q L s h); [done | done | done | by rewrite El | done].
      * apply sleeps_removed; try done; try apply Hq.
        -- intros h. rewrite (sl_events _ _ Hq). symmetry. apply filter_other; [apply Hq | done | congruence].
        -- rewrite (sl_indefinite _ _ Hq). symmetry. apply filter_without, Hq.
  - assert (∀ s, s ∈ L → sid s ≠ id) as Hno.
    { intros s Hin <-. apply (sleeps_lookup q L s Hq) in Hin. congruence. }
    split.
    + destruct (filter _ L) as [|x l] eqn:Ef; [done|]. exfalso.
      assert (x ∈ filter (λ s, sid s = id) L) as [Hx HxL]%list_elem_of_filter by (rewrite Ef; by left). by apply (Hno x).
    + rewrite without_none; [done|]. intros (y & E & Hy)%list_elem_of_fmap. by apply (Hno y).
Qed.

End sleeping.

(** ** Claims *)

(** C14: the queues implement a list of the sleeping threads in the order in which they fell asleep.  Going
    to sleep appends the thread, with its deadline as the time at which it wakes up.  A tick wakes the thread
    whose deadline is earliest, if it has passed, and otherwise none; an event wakes the thread that has
    waited for it for longest, or all that wait for it in the order in which they began to; and a thread
    can be woken by its number.  No other thread stops sleeping.  This needs that a thread that was woken by its
    number before its deadline does not go to sleep again while the timer of that deadline is left. *)
Theorem sleep_queues_spec :
  sleeps SleepQueues.new [] ∧
  ∀ q L, sleeps q L →
    (∀ reason t, tid t ∉ sid <$> L → (∀ d, mkTimerKey d (tid t) ∉ timers q) →
      sleeps (SleepQueues.insert_thread q reason t) (L ++ [mkSleeper reason (with_wake_time reason t)])) ∧
    (∀ now, match SleepQueues.pop_ready q now with
      | (q', None) => sleeps q' L ∧ ∀ s d, s ∈ L → sreason s = Until d → now < d
      | (q', Some t) => ∃ s d, s ∈ L ∧ sthread s = t ∧ sreason s = Until d ∧ d ≤ now ∧
          (∀ s' d', s' ∈ L → sreason s' = Until d' → d < d' ∨ d = d' ∧ sid s ≤ sid s') ∧ sleeps q' (without (tid t) L)
      end) ∧
    (∀ h, match head (waiting h L), SleepQueues.wake_event_single q h with
      | None, (q', o) => q' = q ∧ o = None
      | Some s, (q', o) => o = Some (sthread s) ∧ sleeps q' (without (sid s) L)
      end) ∧
    (∀ h, let '(q', ready) := SleepQueues.wake_event_all q h in
      ready = sthread <$> waiting h L ∧ sleeps q' (filter (λ s, sreason s ≠ Event h) L)) ∧
    (∀ id, let '(q', o) := SleepQueues.wake_thread q id in
      o = sthread <$> head (filter (λ s, sid s = id) L) ∧ sleeps q' (without id L)).
Proof.
  split.
  - split; cbn; try done; try (by constructor).
    + intros id s. split; [done|]. by intros [?%elem_of_nil _].
    + by intros s d ?%elem_of_nil.
    + by intros k s ?%elem_of_nil.
  - intros q L Hq. split_and!; intros.
    + by apply insert_thread_ok.
    + by apply pop_ready_ok.
    + by apply wake_event_single_ok.
    + by apply wake_event_all_ok.
    + by apply wake_thread_ok.
Qed.

(** Two threads wait for the same event, and the first of them is woken. *)
Lemma sleep_queues_spec_witness :
  let t7 := Thread.new 7 1 Normal in
  let t5 := Thread.new 5 1 Normal in
  let q := SleepQueues.insert_thread (SleepQueues.insert_thread SleepQueues.new (Event 3) t7) (Event 3) t5 in
  let L := [mkSleeper (Event 3) (with_wake_time (Event 3) t7); mkSleeper (Event 3) (with_wake_time (Event 3) t5)] in
  sleeps q L ∧ ∃ q' t, SleepQueues.wake_event_single q 3 = (q', Some t) ∧ tid t = 7 ∧ sleeps q' (without 7 L).
Proof.
  intros t7 t5 q L. destruct sleep_queues_spec as [Hnew Hops].
  destruct (Hops _ _ Hnew) as [Hins _]. specialize (Hins (Event 3) t7 ltac:(apply not_elem_of_nil) ltac:(intros d; apply not_elem_of_nil)).
  destruct (Hops _ _ Hins) as [Hins2 _].
  specialize (Hins2 (Event 3) t5 ltac:(cbn; rewrite list_elem_of_singleton; discriminate) ltac:(intros d; apply not_elem_of_nil)).
  split; [exact Hins2|]. destruct (Hops _ _ Hins2) as (_ & _ & Hw & _). specialize (Hw 3).
  eexists _, _. split; [reflexivity|]. split; [reflexivity|]. exact (proj2 Hw).
Defined.

(** The timer of a thread that was woken before its deadline wakes it from its next sleep: here from waiting
    for an event that has not occurred.  The event then finds the number of that thread in its queue, and
    the thread that really waits for it is not woken. *)
Lemma stale_timer_wakes :
  let t := Thread.new 7 1 Normal in
  let q1 := SleepQueues.insert_thread SleepQueues.new (Until 100) t in
  let q2 := (SleepQueues.wake_thread q1 7).1 in
  let q3 := SleepQueues.insert_thread (SleepQueues.insert_thread q2 (Event 1) t) (Event 1) (Thread.new 8 1 Normal) in
  let '(q4, woken) := SleepQueues.pop_ready q3 120 in
  tid <$> woken = Some 7 ∧ (SleepQueues.wake_event_single q4 1).2 = None ∧ is_Some (sleepers q4 !! 8).
Proof. vm_compute. split; [reflexivity |]. split; [reflexivity |]. eexists. reflexivity. Qed.
