(* ===== verification/Sched.v ===== *)
(** * The scheduler

    [kernel/src/process/scheduler.rs]: each core runs a thread and gives it up, at a tick of its timer or
    when the thread asks for it, to the best thread that is ready.  The first part has the functions of
    the source, each run to its end; the second part has the steps of several cores that share the
    queues.  The state is that after [init] on all cores. *)

From S2P Require Import Prelude Threads Time Thread.

Definition SCHEDULER_QUANTUM_MS : Z := 30.
Definition IDLE_THREADS_PER_CORE : nat := 2.

(** ** State *)

(** The statics, and the field [last_stack_ptr] of all threads, by their numbers. *)
Record globals := mkGlobals {
  scheduler_switch : bool;
  queue : RoundRobinQueues;
  finished : list Thread;
  sleeping : SleepQueues;
  stacks : gmap Z Z;
  tid_counter : Z;
}.

(** [Scheduler], which belongs to a core, and the registers of the core that it uses: the interrupt flag,
    the base of thread locals and the stack pointer. *)
Record Core := mkCore {
  current : Thread;
  should_exit : bool;
  sleep_intent : Z;
  interrupts : bool;
  thread_locals : option Z;
  rsp : Z;
}.

(** A pointer to the [last_stack_ptr] of a thread, or to the variable that nobody reads. *)
Inductive StackPtr := StackOf (id : Z) | USELESS.
Record ContextSwitch := mkContextSwitch { old_stack : StackPtr; new_stack : Z; cr3 : Z }.

Inductive ThreadAction := ExitAction | SleepAction (reason : SleepReason) | ReadyAction.

Section setters.
Definition set_queue (g : globals) (q : RoundRobinQueues) : globals :=
  mkGlobals (scheduler_switch g) q (finished g) (sleeping g) (stacks g) (tid_counter g).
Definition set_finished (g : globals) (l : list Thread) : globals :=
  mkGlobals (scheduler_switch g) (queue g) l (sleeping g) (stacks g) (tid_counter g).
Definition set_sleeping (g : globals) (q : SleepQueues) : globals :=
  mkGlobals (scheduler_switch g) (queue g) (finished g) q (stacks g) (tid_counter g).
Definition set_stacks (g : globals) (m : gmap Z Z) : globals :=
  mkGlobals (scheduler_switch g) (queue g) (finished g) (sleeping g) m (tid_counter g).
Definition set_counter (g : globals) (n : Z) : globals :=
  mkGlobals (scheduler_switch g) (queue g) (finished g) (sleeping g) (stacks g) n.
Definition set_current (c : Core) (t : Thread) : Core :=
  mkCore t (should_exit c) (sleep_intent c) (interrupts c) (thread_locals c) (rsp c).
Definition set_interrupts (c : Core) (b : bool) : Core :=
  mkCore (current c) (should_exit c) (sleep_intent c) b (thread_locals c) (rsp c).
Definition set_flags (c : Core) (exit : bool) (intent : Z) : Core :=
  mkCore (current c) exit intent (interrupts c) (thread_locals c) (rsp c).
Definition set_locals (c : Core) (o : option Z) : Core :=
  mkCore (current c) (should_exit c) (sleep_intent c) (interrupts c) o (rsp c).
Definition set_rsp (c : Core) (x : Z) : Core :=
  mkCore (current c) (should_exit c) (sleep_intent c) (interrupts c) (thread_locals c) x.
End setters.

(** ** The functions *)

Module Scheduler.
Section functions.

(** [address_space().cr3_raw()] of a process *)
Context (cr3_of : Z → Z).

Definition set_exit (self : Core) : Core := set_flags self true (sleep_intent self).
Definition set_sleep (self : Core) (reason : SleepReason) : out Core :=
  raw ← AtomicSleepReason.store (sleep_intent self) (Some reason); Ret (set_flags self (should_exit self) raw).

Definition next_action (self : Core) : out (Core * ThreadAction) :=
  if should_exit self then Ret (set_flags self false (sleep_intent self), ExitAction)
  else
    '(raw, o) ← AtomicSleepReason.swap (sleep_intent self) None;
    Ret (set_flags self false raw, match o with Some reason => SleepAction reason | None => ReadyAction end).

Definition old_stack_pointer (action : ThreadAction) (old_thread : Thread) : StackPtr :=
  match action with ExitAction => USELESS | _ => StackOf (tid old_thread) end.

Definition enqueue_ready_thread (g : globals) (thread : Thread) : globals :=
  set_queue g (RoundRobinQueues.append (queue g) (Thread.set_state thread Ready)).

Definition stage_old_thread (g : globals) (action : ThreadAction) (old_thread : Thread) : globals :=
  match action with
  | ExitAction => set_finished g (finished g ++ [old_thread])
  | SleepAction reason =>
      set_sleeping g (SleepQueues.insert_thread (sleeping g) reason (Thread.set_state old_thread Sleeping))
  | ReadyAction => set_queue g (RoundRobinQueues.append (queue g) (Thread.set_state old_thread Ready))
  end.

(** [thread.stats_mut().cpu_time_ms += SCHEDULER_QUANTUM_MS] *)
Definition account (self : Core) : out Core :=
  ms ← add_w 64 (cpu_time_ms (stats (current self))) SCHEDULER_QUANTUM_MS;
  Ret (set_current self (Thread.set_cpu_time (current self) ms)).

(** From [next_action] to the thread locals: [None] if the thread stays, else what is to be staged. *)
Definition take_over (self : Core) (g : globals) (reason : RescheduleReason) (candidate : Thread)
    : out (Core * option (ThreadAction * Thread * ContextSwitch)) :=
  '(self, action) ← next_action self;
  let should_stay := match action with ReadyAction => true | _ => false end &&
    negb (RoundRobinQueues.should_switch (current self) candidate reason) in
  if should_stay then Ret (self, None)
  else
    let old_thread := current self in
    assert_ (bool_decide (tstate candidate = Ready));;
    let thread := Thread.set_state candidate Running in
    let old_stack := old_stack_pointer action old_thread in
    let new_stack := default 0 (stacks g !! tid thread) in
    let cr3 := cr3_of (root_proc thread) in
    let self := set_current self thread in
    let self := match tls thread with Some tls => set_locals self (Some tls) | None => self end in
    Ret (self, Some (action, old_thread, mkContextSwitch old_stack new_stack cr3)).

Definition reschedule_core (self : Core) (g : globals) (reason : RescheduleReason)
    : out (Core * globals * option ContextSwitch) :=
  self ← account self;
  match RoundRobinQueues.pop_best (queue g) with
  | (_, None) =>
      assert_ (bool_decide (priority (current self) = Idle));;
      Ret (self, g, None)
  | (q, Some candidate) =>
      let g := set_queue g q in
      '(self, staged) ← take_over self g reason candidate;
      match staged with
      | None => Ret (self, set_queue g (RoundRobinQueues.append (queue g) candidate), None)
      | Some (action, old_thread, cs) =>
          let g := stage_old_thread g action old_thread in
          Ret (set_interrupts self false, g, Some cs)
      end
  end.

(** [without_interrupts] *)
Definition without_interrupts {R} (f : Core → globals → out (Core * globals * R)) (c : Core) (g : globals)
    : out (Core * globals * R) :=
  if negb (interrupts c) then f c g
  else '(c, g, r) ← f (set_interrupts c false) g; Ret (set_interrupts c true, g, r).

Definition reschedule (c : Core) (g : globals) (reason : RescheduleReason) : out (Core * globals * option ContextSwitch) :=
  if scheduler_switch g then without_interrupts (λ c g, reschedule_core c g reason) c g else Ret (c, g, None).

(** [ContextSwitch::perform]: the stack pointer is saved through the pointer and then replaced, and
    interrupts are enabled at the end. *)
Definition perform (cs : ContextSwitch) (c : Core) (g : globals) : Core * globals :=
  (set_interrupts (set_rsp c (new_stack cs)) true,
   match old_stack cs with StackOf id => set_stacks g (<[id := rsp c]> (stacks g)) | USELESS => g end).

Definition thread_yield (c : Core) (g : globals) : out (Core * globals) :=
  '(c, g, o) ← reschedule c g ExplicitYield;
  match o with
  | Some cs => Ret (perform cs c g)
  | None => Ret (c, g)
  end.

Definition request_sleep (reason : SleepReason) (c : Core) (g : globals) : out (Core * globals) :=
  c ← set_sleep c reason; thread_yield c g.

Definition sleep := request_sleep Indefinite.
Definition sleep_for (now duration : Z) := request_sleep (SleepReason.for_duration now duration).
Definition sleep_until (deadline : Z) := request_sleep (Until deadline).
Definition sleep_on (handle : Z) := request_sleep (Event handle).

(** [exit_current_thread] up to the loop that waits for the switch. *)
Definition exit_current_thread (c : Core) (g : globals) : out (Core * globals) := thread_yield (set_exit c) g.

(** The loop of [wake_sleeping_threads]; every iteration but the last takes a timer. *)
Fixpoint wake_loop (fuel : nat) (now : Z) (g : globals) : globals :=
  match fuel with
  | O => g
  | S fuel =>
      match SleepQueues.pop_ready (sleeping g) now with
      | (q, Some thread) => wake_loop fuel now (enqueue_ready_thread (set_sleeping g q) thread)
      | (q, None) => set_sleeping g q
      end
  end.
Definition wake_sleeping_threads (now : Z) (g : globals) : globals := wake_loop (length (timers (sleeping g)) + 1) now g.

Definition scheduler_tick (now : Z) (c : Core) (g : globals) : out (Core * globals * option ContextSwitch) :=
  let g := wake_sleeping_threads now g in reschedule c g QuantumExpired.

Definition wake_event_single (handle : Z) (g : globals) : globals * bool :=
  match SleepQueues.wake_event_single (sleeping g) handle with
  | (q, Some thread) => (enqueue_ready_thread (set_sleeping g q) thread, true)
  | (q, None) => (set_sleeping g q, false)
  end.

Definition wake_event_all (handle : Z) (g : globals) : globals * Z :=
  let '(q, ready) := SleepQueues.wake_event_all (sleeping g) handle in
  (foldl enqueue_ready_thread (set_sleeping g q) ready, Z.of_nat (length ready)).

Definition wake_up (thread : Z) (g : globals) : globals * bool :=
  match SleepQueues.wake_thread (sleeping g) thread with
  | (q, Some thread) => (enqueue_ready_thread (set_sleeping g q) thread, true)
  | (q, None) => (set_sleeping g q, false)
  end.

Definition spawn_thread (g : globals) (thread : Thread) : globals := enqueue_ready_thread g thread.

(** [guard_thread]: the inner loop drops all finished threads. *)
Definition drop_finished (g : globals) : globals := set_finished g [].

(** [init] on a core, for threads with the next numbers; [first] says that it is the first core, which
    starts the guard thread.  The stacks of new threads are a parameter. *)
Definition init (stack_of : Z → Z) (kernel_process : Z) (first : bool) (g : globals) : Core * globals :=
  let id := tid_counter g in
  let c := mkCore (Thread.new_kernel id kernel_process) false 0 true None 0 in
  let spawn g := let n := tid_counter g in
    spawn_thread (set_stacks (set_counter g (n + 1)) (<[n := stack_of n]> (stacks g))) (Thread.new n kernel_process Low) in
  let g := Nat.iter IDLE_THREADS_PER_CORE spawn (set_counter g (id + 1)) in
  (c, if first then spawn g else g).

End functions.
End Scheduler.

(** ** One core *)

(** A thread in a queue of ready threads is ready and has the priority of the queue. *)
Definition queues_ok (q : RoundRobinQueues) : Prop :=
  ∀ p t, t ∈ RoundRobinQueues.get p q → priority t = p ∧ tstate t = Ready.

Definition ready (q : RoundRobinQueues) : list Thread := idle q ++ low q ++ normal q ++ high q ++ realtime q.

Lemma get_set p p' l q :
  RoundRobinQueues.get p (RoundRobinQueues.set p' l q) = if decide (p = p') then l else RoundRobinQueues.get p q.
Proof. by destruct p, p'. Qed.

Lemma append_set q t :
  RoundRobinQueues.append q t = RoundRobinQueues.set (priority t) (RoundRobinQueues.get (priority t) q ++ [t]) q.
Proof. unfold RoundRobinQueues.append. by destruct (priority t). Qed.

Lemma get_append p q t :
  RoundRobinQueues.get p (RoundRobinQueues.append q t)
    = RoundRobinQueues.get p q ++ if decide (p = priority t) then [t] else [].
Proof. rewrite append_set, get_set. destruct (decide _) as [->|]; [done | by rewrite app_nil_r]. Qed.

Lemma elem_of_ready t q : t ∈ ready q ↔ ∃ p, t ∈ RoundRobinQueues.get p q.
Proof.
  unfold ready. rewrite !elem_of_app. split.
  - intros [?|[?|[?|[?|?]]]]; [exists Idle | exists Low | exists Normal | exists High | exists Realtime]; done.
  - intros [[] H]; cbn in H; tauto.
Qed.

Lemma append_ok q t : queues_ok q → tstate t = Ready → queues_ok (RoundRobinQueues.append q t).
Proof.
  intros Hq Ht p t'. rewrite get_append. intros [Hin|Hin]%elem_of_app; [by apply Hq |].
  destruct (decide _) as [->|]; [| by apply elem_of_nil in Hin]. by apply list_elem_of_singleton in Hin as ->.
Qed.

Lemma dequeue_Some q p q' t :
  RoundRobinQueues.dequeue q p = (q', Some t) →
  ∃ rest, RoundRobinQueues.get p q = t :: rest ∧ q' = RoundRobinQueues.set p rest q.
Proof. unfold RoundRobinQueues.dequeue. destruct (RoundRobinQueues.get p q) as [|t' rest]; [done |]. intros [= <- <-]. eauto. Qed.

Lemma dequeue_None q p q' : RoundRobinQueues.dequeue q p = (q', None) → RoundRobinQueues.get p q = [] ∧ q' = q.
Proof. unfold RoundRobinQueues.dequeue. destruct (RoundRobinQueues.get p q) as [|t' rest]; [| done]. by intros [= <-]. Qed.

Lemma dequeue_ok q p q' t :
  queues_ok q → RoundRobinQueues.dequeue q p = (q', Some t) → queues_ok q' ∧ priority t = p ∧ tstate t = Ready.
Proof.
  intros Hq (rest & Hg & ->)%dequeue_Some. split; [| apply Hq; rewrite Hg; by left].
  intros p' t'. rewrite get_set. destruct (decide _) as [->|]; [| by apply Hq].
  intros Hin. apply Hq. rewrite Hg. by right.
Qed.

(** The best thread: the first of the queue with the highest priority that is not empty. *)
Lemma pop_best_spec q :
  match RoundRobinQueues.pop_best q with
  | (q', None) => q' = q ∧ ready q = []
  | (q', Some t) => ∃ p, RoundRobinQueues.dequeue q p = (q', Some t) ∧
      ∀ p', priority_to_u8 p < priority_to_u8 p' → RoundRobinQueues.get p' q = []
  end.
Proof.
  unfold RoundRobinQueues.pop_best. cbn [RoundRobinQueues.pop_from]. unfold RoundRobinQueues.dequeue, ready.
  destruct q as [i l n h r]. cbn [RoundRobinQueues.get RoundRobinQueues.set idle low normal high realtime].
  destruct r as [|t r]; [| exists Realtime; split; [done |]; intros [] Hp; cbn in *; lia].
  destruct h as [|t h]; [| exists High; split; [done |]; intros [] Hp; cbn in *; (done || lia)].
  destruct n as [|t n]; [| exists Normal; split; [done |]; intros [] Hp; cbn in *; (done || lia)].
  destruct l as [|t l]; [| exists Low; split; [done |]; intros [] Hp; cbn in *; (done || lia)].
  destruct i as [|t i]; [done |]. exists Idle. split; [done |]. intros [] Hp; cbn in *; (done || lia).
Qed.

(** What the flags of a core ask for. *)
Definition action_of (c : Core) : ThreadAction :=
  if should_exit c then ExitAction
  else match AtomicSleepReason.unpack (sleep_intent c) with Some reason => SleepAction reason | None => ReadyAction end.

(** The flags after they have been read: a reason to sleep stays if the thread exits. *)
Definition read_flags (c : Core) : Core := set_flags c false (if should_exit c then sleep_intent c else 0).

Lemma next_action_eq c : Scheduler.next_action c = Ret (read_flags c, action_of c).
Proof. unfold Scheduler.next_action, action_of, read_flags. by destruct (should_exit c). Qed.

(** The thread stays if it is ready and the candidate is not as good, or if both are idle. *)
Definition stays (c : Core) (cand : Thread) (reason : RescheduleReason) : bool :=
  match action_of c with ReadyAction => negb (RoundRobinQueues.should_switch (current c) cand reason) | _ => false end.

Lemma stays_priority c cand reason :
  stays c cand reason = true → action_of c = ReadyAction ∧ priority_to_u8 (priority cand) ≤ priority_to_u8 (priority (current c)).
Proof.
  unfold stays, RoundRobinQueues.should_switch. destruct (action_of c); [done.. |].
  destruct (Z.ltb_spec (priority_to_u8 (priority (current c))) (priority_to_u8 (priority cand))); [done |]. done.
Qed.

Lemma leaves_priority c cand reason :
  stays c cand reason = false → action_of c = ReadyAction →
  priority_to_u8 (priority (current c)) ≤ priority_to_u8 (priority cand).
Proof.
  unfold stays, RoundRobinQueues.should_switch. intros Hs Ha. rewrite Ha in Hs.
  destruct (Z.ltb_spec (priority_to_u8 (priority (current c))) (priority_to_u8 (priority cand))); [lia |].
  destruct (Z.ltb_spec (priority_to_u8 (priority cand)) (priority_to_u8 (priority (current c)))); [done |]. lia.
Qed.

(** The core when [cand] has taken over. *)
Definition taken (c : Core) (cand : Thread) : Core :=
  mkCore (Thread.set_state cand Running) false (sleep_intent (read_flags c)) (interrupts c)
    (match tls cand with Some a => Some a | None => thread_locals c end) (rsp c).

Definition switch_to (cr3_of : Z → Z) (c : Core) (g : globals) (cand : Thread) : ContextSwitch :=
  mkContextSwitch (Scheduler.old_stack_pointer (action_of c) (current c)) (default 0 (stacks g !! tid cand)) (cr3_of (root_proc cand)).

Lemma take_over_eq cr3_of c g reason cand :
  tstate cand = Ready →
  Scheduler.take_over cr3_of c g reason cand =
    Ret (if stays c cand reason then (read_flags c, None)
         else (taken c cand, Some (action_of c, current c, switch_to cr3_of c g cand))).
Proof.
  intros Hc. unfold Scheduler.take_over. rewrite next_action_eq. cbn [mbind out_bind].
  change (current (read_flags c)) with (current c). unfold stays, taken, switch_to. rewrite bool_decide_true by done.
  change (tls (Thread.set_state cand Running)) with (tls cand).
  destruct (action_of c); cbn [andb]; [..| destruct (negb _); [done |]]; cbn; by destruct (tls cand).
Qed.

(** The core with the time that its thread has run accounted for. *)
Definition accounted (c : Core) : Core :=
  set_current c (Thread.set_cpu_time (current c) (cpu_time_ms (stats (current c)) + SCHEDULER_QUANTUM_MS)).

Lemma account_eq c : cpu_time_ms (stats (current c)) + SCHEDULER_QUANTUM_MS < 2 ^ 64 → Scheduler.account c = Ret (accounted c).
Proof. intros H. unfold Scheduler.account. by rewrite add_w_ok. Qed.

Lemma stage_queue g a t : queue (Scheduler.stage_old_thread g a t) =
  match a with ReadyAction => RoundRobinQueues.append (queue g) (Thread.set_state t Ready) | _ => queue g end.
Proof. by destruct a. Qed.

Lemma ready_append q t x : x ∈ ready (RoundRobinQueues.append q t) ↔ x ∈ ready q ∨ x = t.
Proof.
  rewrite !elem_of_ready. setoid_rewrite get_append. setoid_rewrite elem_of_app. split.
  - intros (p & [Hx|Hx]); [eauto |]. destruct (decide _); [| by apply elem_of_nil in Hx]. apply list_elem_of_singleton in Hx. auto.
  - intros [[p Hx]| ->]; [eauto |]. exists (priority t). right. rewrite decide_True by done. by left.
Qed.

(** After the best thread has been taken, the others are not better. *)
Lemma best_rest q p cand rest :
  queues_ok q → RoundRobinQueues.get p q = cand :: rest →
  (∀ p', priority_to_u8 p < priority_to_u8 p' → RoundRobinQueues.get p' q = []) →
  ∀ t, t ∈ ready (RoundRobinQueues.set p rest q) → priority_to_u8 (priority t) ≤ priority_to_u8 (priority cand).
Proof.
  intros Hq Hg Hbest t [p' Hin]%elem_of_ready. assert (priority cand = p) as -> by (apply Hq; rewrite Hg; by left).
  assert (t ∈ RoundRobinQueues.get p' q) as Hin'.
  { rewrite get_set in Hin. destruct (decide _) as [->|]; [rewrite Hg; by right | done]. }
  destruct (Hq p' t Hin') as [-> _]. destruct (Z.le_gt_cases (priority_to_u8 p') (priority_to_u8 p)) as [|Hlt]; [done |].
  rewrite (Hbest p' Hlt) in Hin'. by apply elem_of_nil in Hin'.
Qed.

Lemma reschedule_core_spec cr3_of c g reason p cand rest :
  queues_ok (queue g) → cpu_time_ms (stats (current c)) + SCHEDULER_QUANTUM_MS < 2 ^ 64 →
  RoundRobinQueues.pop_best (queue g) = (RoundRobinQueues.set p rest (queue g), Some cand) → tstate cand = Ready →
  let g1 := set_queue g (RoundRobinQueues.set p rest (queue g)) in
  Scheduler.reschedule_core cr3_of c g reason =
    Ret (if stays c cand reason then (read_flags (accounted c), set_queue g1 (RoundRobinQueues.append (queue g1) cand), None)
         else (set_interrupts (taken (accounted c) cand) false,
               Scheduler.stage_old_thread g1 (action_of c) (current (accounted c)),
               Some (switch_to cr3_of (accounted c) g1 cand))).
Proof.
  intros Hq Hcpu Hpop Hr g1. unfold Scheduler.reschedule_core. rewrite account_eq by done. cbn [mbind out_bind]. rewrite Hpop.
  rewrite take_over_eq by done. change (stays (accounted c) cand reason) with (stays c cand reason). by destruct (stays c cand reason).
Qed.

(** C13: a core gives way to the best thread.  When there is a thread that is ready, the first one of the
    highest priority is the candidate.  The running thread stays only if it has not asked to exit or
    sleep and the candidate has a lower priority (or both are idle), and the candidate goes back to the
    end of its queue.  Otherwise the candidate runs, on its saved stack and in the address space of its
    process, and the old thread is staged: it is finished, or sleeps for its reason, or is ready at the
    end of the queue of its priority.  Afterwards no thread that is ready has a higher priority than the
    one that runs.  The interrupt flag is as before the call. *)
Theorem reschedule_spec (cr3_of : Z → Z) (c : Core) (g : globals) (reason : RescheduleReason) :
  scheduler_switch g = true → queues_ok (queue g) → ready (queue g) ≠ [] →
  cpu_time_ms (stats (current c)) + SCHEDULER_QUANTUM_MS < 2 ^ 64 →
  ∃ p cand rest, RoundRobinQueues.get p (queue g) = cand :: rest ∧
    (∀ p', priority_to_u8 p < priority_to_u8 p' → RoundRobinQueues.get p' (queue g) = []) ∧
    let g1 := set_queue g (RoundRobinQueues.set p rest (queue g)) in
    ∃ c' g' o, Scheduler.reschedule cr3_of c g reason = Ret (c', g', o) ∧
      interrupts c' = interrupts c ∧ queues_ok (queue g') ∧
      (∀ t, t ∈ ready (queue g') → priority_to_u8 (priority t) ≤ priority_to_u8 (priority (current c'))) ∧
      match o with
      | None => action_of c = ReadyAction ∧ c' = read_flags (accounted c) ∧
          g' = set_queue g1 (RoundRobinQueues.append (queue g1) cand)
      | Some cs => c' = taken (accounted c) cand ∧ cs = switch_to cr3_of (accounted c) g cand ∧
          g' = Scheduler.stage_old_thread g1 (action_of c) (current (accounted c))
      end.
Proof.
  intros Hon Hq Hne Hcpu. pose proof (pop_best_spec (queue g)) as Hpop.
  destruct (RoundRobinQueues.pop_best (queue g)) as [q' [cand|]] eqn:E; [| by destruct Hpop].
  destruct Hpop as (p & Hd & Hbest). pose proof (dequeue_ok _ _ _ _ Hq Hd) as (Hq' & Hp & Hr).
  apply dequeue_Some in Hd as (rest & Hg & ->). exists p, cand, rest. split_and!; [done | done |]. intros g1.
  pose proof (best_rest _ _ _ _ Hq Hg Hbest) as Hrest.
  pose proof (λ c, reschedule_core_spec cr3_of c g reason p cand rest Hq) as Hcore.
  unfold Scheduler.reschedule. rewrite Hon. destruct (stays c cand reason) eqn:Hst.
  - exists (read_flags (accounted c)), (set_queue g1 (RoundRobinQueues.append (queue g1) cand)), None. split_and!.
    + unfold Scheduler.without_interrupts. destruct (interrupts c) eqn:Hi; cbn [negb]; rewrite Hcore by done;
        change (stays (set_interrupts c false) cand reason) with (stays c cand reason); rewrite Hst; [| done].
      cbn [mbind out_bind]. do 3 f_equal. clear -Hi. destruct c; cbn in Hi; by subst.
    + done.
    + by apply append_ok.
    + apply stays_priority in Hst as [_ Hle]. intros t [Ht| ->]%ready_append; [| done]. cbn in Ht |- *. specialize (Hrest t Ht). lia.
    + by apply stays_priority in Hst as [? _].
    + done.
    + done.
  - exists (taken (accounted c) cand), (Scheduler.stage_old_thread g1 (action_of c) (current (accounted c))), (Some (switch_to cr3_of (accounted c) g cand)).
    split_and!; [| done | | | done | done | done].
    + unfold Scheduler.without_interrupts. destruct (interrupts c) eqn:Hi; cbn [negb]; rewrite Hcore by done;
        change (stays (set_interrupts c false) cand reason) with (stays c cand reason); rewrite Hst; cbn [mbind out_bind];
        do 3 f_equal; clear -Hi; destruct c; cbn in Hi; by subst.
    + rewrite stage_queue. destruct (action_of c); [done | done |]. by apply append_ok.
    + pose proof (leaves_priority _ _ _ Hst) as Hle. change (priority (current (taken (accounted c) cand))) with (priority cand).
      intros t. rewrite stage_queue. destruct (action_of c) eqn:Ha; [apply Hrest | apply Hrest |].
      intros [Ht| ->]%ready_append; [by apply Hrest | by apply Hle].
Qed.

(** A core with a normal thread that asks to sleep, and two threads that are ready. *)
Definition demo_core : Core :=
  mkCore (Thread.set_state (Thread.new 1 1 Normal) Running) false 3 true None 0x9000.
Definition demo_globals : globals :=
  mkGlobals true (mkQueues [] [Thread.new 2 1 Low; Thread.new 3 2 Low] [] [] []) [] SleepQueues.new {[ 2 := 0x5000 ]} 4.

Lemma reschedule_spec_witness :
  ∃ c' g' cs, Scheduler.reschedule (λ p, p * 4096) demo_core demo_globals ExplicitYield = Ret (c', g', Some cs) ∧
    tid (current c') = 2 ∧ new_stack cs = 0x5000 ∧ interrupts c' = true ∧ is_Some (sleepers (sleeping g') !! 1).
Proof.
  destruct (reschedule_spec (λ p, p * 4096) demo_core demo_globals ExplicitYield) as (p & cand & rest & Hg & _ & c' & g' & o & E & Hi & _ & _ & Ho).
  - reflexivity.
  - intros [] t Ht; cbn in Ht; (by apply elem_of_nil in Ht) || idtac.
    apply elem_of_cons in Ht as [->|Ht%list_elem_of_singleton]; [| subst t]; split; reflexivity.
  - discriminate.
  - reflexivity.
  - vm_compute in E. injection E as <- <- <-. destruct Ho as (_ & _ & _). eexists _, _, _.
    split; [vm_compute; reflexivity |]. split; [reflexivity |]. split; [reflexivity |]. split; [exact Hi |]. eexists. vm_compute. reflexivity.
Defined.
