(* ===== verification/SchedSmp.v ===== *)
(** * The scheduler on several cores

    The cores share the queues of threads.  A step of a core is one operation on a queue or one access to a
    saved stack pointer; the fields of [Scheduler] are used by their own core only.

    The operations on a queue of ready or finished threads are atomic.  This is what the queue of [hyperdrive]
    does as long as the calls on it do not overlap, which the file on it shows ([mpsc_calls_fifo]); with calls that
    overlap it can lose elements and hand out its stub ([mpsc_returns_stub]), and the scheduler does nothing
    against that.  The sleeping threads are behind a lock, which has a file of its own.

    Interrupts are taken wherever the code leaves them enabled.  That is also the case between [reschedule] and the
    context switch of a thread that yields, since [without_interrupts] enables them again, and while kernel code
    of a thread has woken or new threads in hand. *)

From S2P Require Import Prelude Threads Time Thread Sched.

(** Where a core is. *)
Inductive spc :=
| Run                                                    (** runs the code of its thread *)
| Asked                                                  (** has set a flag, before it yields *)
| Wake (now : Z)                                         (** in [wake_sleeping_threads] *)
| WakeEnq (now : Z) (t : Thread)                         (** before it enqueues a thread that was due *)
| Enq (ts : list Thread) (asked : bool)                  (** before it enqueues woken or new threads *)
| Start (reason : RescheduleReason)                      (** enters [reschedule] *)
| Pop (reason : RescheduleReason) (ps : list Priority)   (** in [pop_best], before the next queue *)
| Decide (reason : RescheduleReason) (cand : Thread)     (** has a candidate *)
| Back (cand : Thread)                                   (** before it puts the candidate back *)
| Stage (action : ThreadAction) (old : Thread) (cs : ContextSwitch)  (** before [stage_old_thread] *)
| Switch (cs : ContextSwitch).                           (** before the context switch *)

Definition pop_order : list Priority := [Realtime; High; Normal; Low; Idle].

(** Where a core goes on after it has enqueued threads. *)
Definition resume (asked : bool) : spc := if asked then Asked else Run.

Section cores.

(** The page tables of processes, and the threads that never exit or sleep: those that run [idle] and
    [guard_thread]. *)
Context (cr3_of : Z → Z) (service : list Z).

Definition is_service (t : Thread) : bool := bool_decide (tid t ∈ service).

(** Threads are woken, by the timer or by events. *)
Inductive wake_step : nat → globals → Core * spc → globals → Core * spc → Prop :=
| S_tick i g c asked now : interrupts c = true → wake_step i g (c, resume asked) g (set_interrupts c false, Wake now)
| S_wake i g c now q t :
    SleepQueues.pop_ready (sleeping g) now = (q, Some t) → wake_step i g (c, Wake now) (set_sleeping g q) (c, WakeEnq now t)
| S_wake_enq i g c now t : wake_step i g (c, WakeEnq now t) (Scheduler.enqueue_ready_thread g t) (c, Wake now)
| S_wake_done i g c now q :
    SleepQueues.pop_ready (sleeping g) now = (q, None) → wake_step i g (c, Wake now) (set_sleeping g q) (c, Start QuantumExpired)
(** The lock around the sleeping threads is not free. *)
| S_wake_busy i g c now : wake_step i g (c, Wake now) g (c, Start QuantumExpired)
| S_event i g c asked h q t :
    SleepQueues.wake_event_single (sleeping g) h = (q, Some t) → wake_step i g (c, resume asked) (set_sleeping g q) (c, Enq [t] asked)
| S_event_none i g c asked h q :
    SleepQueues.wake_event_single (sleeping g) h = (q, None) → wake_step i g (c, resume asked) (set_sleeping g q) (c, resume asked)
| S_event_all i g c asked h q ts :
    SleepQueues.wake_event_all (sleeping g) h = (q, ts) → wake_step i g (c, resume asked) (set_sleeping g q) (c, Enq ts asked)
| S_wake_up i g c asked x q t :
    SleepQueues.wake_thread (sleeping g) x = (q, Some t) → wake_step i g (c, resume asked) (set_sleeping g q) (c, Enq [t] asked)
| S_enq i g c t ts asked : wake_step i g (c, Enq (t :: ts) asked) (Scheduler.enqueue_ready_thread g t) (c, Enq ts asked)
| S_enq_done i g c asked : wake_step i g (c, Enq [] asked) g (c, resume asked).

(** What threads ask for, and the loop of [guard_thread]. *)
Inductive ask_step : nat → globals → Core * spc → globals → Core * spc → Prop :=
| S_yield i g c asked : ask_step i g (c, resume asked) g (c, Start ExplicitYield)
| S_exit i g c : is_service (current c) = false → ask_step i g (c, Run) g (Scheduler.set_exit c, Asked)
| S_sleep i g c reason c' :
    is_service (current c) = false → Scheduler.set_sleep c reason = Ret c' → ask_step i g (c, Run) g (c', Asked)
| S_spawn i g c proc prio st :
    ask_step i g (c, Run)
      (set_stacks (set_counter g (tid_counter g + 1)) (<[tid_counter g := st]> (stacks g)))
      (c, Enq [Thread.new (tid_counter g) proc prio] false)
| S_drop i g c t ts : finished g = t :: ts → ask_step i g (c, Run) (set_finished g ts) (c, Run).

(** [reschedule] and the context switch.  The field [interrupts] is the flag at the call of [reschedule]: it is off in the
    handler of the timer and on in [thread_yield].  [without_interrupts] puts it back at the end, and the handler
    enables interrupts when it returns. *)
Inductive reschedule_step : nat → globals → Core * spc → globals → Core * spc → Prop :=
| S_off i g c reason : scheduler_switch g = false → reschedule_step i g (c, Start reason) g (set_interrupts c true, Run)
| S_start i g c reason c' :
    scheduler_switch g = true → Scheduler.account c = Ret c' → reschedule_step i g (c, Start reason) g (c', Pop reason pop_order)
| S_pop i g c reason p ps q t :
    RoundRobinQueues.dequeue (queue g) p = (q, Some t) → reschedule_step i g (c, Pop reason (p :: ps)) (set_queue g q) (c, Decide reason t)
| S_pop_none i g c reason p ps q :
    RoundRobinQueues.dequeue (queue g) p = (q, None) → reschedule_step i g (c, Pop reason (p :: ps)) (set_queue g q) (c, Pop reason ps)
| S_nothing i g c reason : priority (current c) = Idle → reschedule_step i g (c, Pop reason []) g (set_interrupts c true, Run)
| S_stay i g c reason cand c' :
    Scheduler.take_over cr3_of c g reason cand = Ret (c', None) → reschedule_step i g (c, Decide reason cand) g (c', Back cand)
| S_back i g c cand :
    reschedule_step i g (c, Back cand) (set_queue g (RoundRobinQueues.append (queue g) cand)) (set_interrupts c true, Run)
| S_take i g c reason cand c' action old cs :
    Scheduler.take_over cr3_of c g reason cand = Ret (c', Some (action, old, cs)) →
    reschedule_step i g (c, Decide reason cand) g (c', Stage action old cs)
| S_stage i g c action old cs :
    reschedule_step i g (c, Stage action old cs) (Scheduler.stage_old_thread g action old) (c, Switch cs)
| S_switch i g c cs c' g' : Scheduler.perform cs c g = (c', g') → reschedule_step i g (c, Switch cs) g' (c', Run).

Definition step (i : nat) (g : globals) (l : Core * spc) (g' : globals) (l' : Core * spc) : Prop :=
  wake_step i g l g' l' ∨ ask_step i g l g' l' ∨ reschedule_step i g l g' l'.

(** *** Interrupted code

    What code that was interrupted has left to do: threads that it has in hand and will enqueue, and context switches that it
    will perform.  It goes on where its thread is resumed, on any core. *)
Record interrupted := mkInterrupted { hands : list Thread; pending : list ContextSwitch }.

Inductive world_step : nat → globals * interrupted → Core * spc → globals * interrupted → Core * spc → Prop :=
| W_step i g w l g' l' : step i g l g' l' → world_step i (g, w) l (g', w) l'
| W_hand i g w c ts asked :
    interrupts c = true → world_step i (g, w) (c, Enq ts asked) (g, mkInterrupted (ts ++ hands w) (pending w)) (c, resume asked)
| W_enqueue i g w c hs t hs' :
    hands w = hs ++ t :: hs' → world_step i (g, w) (c, Run) (g, mkInterrupted (hs ++ hs') (pending w)) (c, Enq [t] false)
| W_switch i g w c cs :
    interrupts c = true → world_step i (g, w) (c, Switch cs) (g, mkInterrupted (hands w) (cs :: pending w)) (c, Run)
| W_perform i g w c ps cs ps' c' g' :
    pending w = ps ++ cs :: ps' → Scheduler.perform cs c g = (c', g') →
    world_step i (g, w) (c, Run) (g', mkInterrupted (hands w) (ps ++ ps')) (c', Run).

(** ** Where threads are *)

(** The threads that a core has besides the current one. *)
Definition held (pc : spc) : list Thread :=
  match pc with
  | WakeEnq _ t | Decide _ t | Back t | Stage _ t _ => [t]
  | Enq ts _ => ts
  | _ => []
  end.

Definition of_core (l : Core * spc) : list Thread := current l.1 :: held l.2.

(** How often the thread [x] occurs. *)
Definition occurs (x : Z) (l : list Thread) : Z := count (λ t, tid t =? x) l.
Definition in_map (x : Z) (sl : gmap Z Sleeper) : Z := match sl !! x with Some _ => 1 | None => 0 end.
Definition asleep (x : Z) (g : globals) : Z := in_map x (sleepers (sleeping g)).
Definition shared (x : Z) (g : globals) : Z := occurs x (ready (queue g)) + occurs x (finished g) + asleep x g.
Definition places (x : Z) (cfg : globals * list (Core * spc)) : Z :=
  total (λ l, occurs x (of_core l)) cfg.2 + shared x cfg.1.

(** How many service threads there are, running or ready. *)
Definition services (l : list Thread) : Z := count is_service l.
Definition service_count (cfg : globals * list (Core * spc)) : Z :=
  total (λ l, services (of_core l)) cfg.2 + services (ready (queue cfg.1)).

(** Service threads have a low priority. *)
Definition thread_ok (t : Thread) : Prop := is_service t = true → priority t = Low.

(** The flags of a core are set only by a thread that may exit or sleep, and until they are read. *)
Definition may_ask (pc : spc) : bool :=
  match pc with
  | Asked | Wake _ | WakeEnq _ _ | Start _ | Pop _ _ | Decide _ _ => true
  | Enq _ asked => asked
  | _ => false
  end.

Definition flags_ok (l : Core * spc) : Prop :=
  (should_exit l.1 = false ∧ sleep_intent l.1 = 0) ∨
  (may_ask l.2 = true ∧ is_service (current l.1) = false ∧ (should_exit l.1 = true → sleep_intent l.1 = 0)).

Definition pc_ok (pc : spc) : Prop :=
  match pc with
  | WakeEnq _ t => is_service t = false
  | Enq ts _ => Forall (λ t, is_service t = false) ts
  | Pop _ ps => ps = pop_order ∨ ps = [High; Normal; Low; Idle] ∨ ps = [Normal; Low; Idle] ∨ ps = [Low; Idle]
  | Decide _ t | Back t => tstate t = Ready ∧ thread_ok t
  | Stage action t _ => thread_ok t ∧ (action = ReadyAction ∨ is_service t = false)
  | _ => True
  end.

Definition core_ok (l : Core * spc) : Prop :=
  tstate (current l.1) = Running ∧ thread_ok (current l.1) ∧ flags_ok l ∧ pc_ok l.2.

(** The threads in the queues. *)
Record globals_ok (g : globals) : Prop := {
  ok_queue : queues_ok (queue g);
  ok_ready t : t ∈ ready (queue g) → thread_ok t;
  ok_finished t : t ∈ finished g → is_service t = false;
  ok_asleep id s : sleepers (sleeping g) !! id = Some s → tid (sthread s) = id ∧ is_service (sthread s) = false;
}.

(** The invariant, with the threads [hs] that interrupted code has in hand *)
Record inv_with (hs : list Thread) (n : nat) (cfg : globals * list (Core * spc)) : Prop := {
  inv_cores : length cfg.2 = n;
  inv_on : scheduler_switch cfg.1 = true;
  inv_globals : globals_ok cfg.1;
  inv_core i l : cfg.2 !! i = Some l → core_ok l;
  inv_hands : Forall (λ t, is_service t = false) hs;
  inv_once x : places x cfg + occurs x hs ≤ 1;
  inv_fresh x : tid_counter cfg.1 ≤ x → places x cfg + occurs x hs = 0 ∧ x ∉ service;
  inv_service : service_count cfg = 2 * Z.of_nat n + 1;
}.

#[global] Arguments inv_cores {_} _ _ _.
#[global] Arguments inv_on {_} _ _ _.
#[global] Arguments inv_globals {_} _ _ _.
#[global] Arguments inv_core {_} _ _ _ _ _ _.
#[global] Arguments inv_hands {_} _ _ _.
#[global] Arguments inv_once {_} _ _ _ _.
#[global] Arguments inv_fresh {_} _ _ _ _ _.
#[global] Arguments inv_service {_} _ _ _.

(** *** Counting *)

Lemma occurs_nonneg x l : 0 ≤ occurs x l.
Proof. apply count_nonneg. Qed.
Lemma occurs_app x l l' : occurs x (l ++ l') = occurs x l + occurs x l'.
Proof. apply count_app. Qed.
Lemma occurs_cons x t l : occurs x (t :: l) = occurs x [t] + occurs x l.
Proof. apply (occurs_app x [t] l). Qed.
Lemma services_app l l' : services (l ++ l') = services l + services l'.
Proof. apply count_app. Qed.
Lemma services_cons t l : services (t :: l) = services [t] + services l.
Proof. apply (services_app [t] l). Qed.

(** A count depends on the number of a thread only. *)
Lemma occurs_same x t t' : tid t = tid t' → occurs x [t] = occurs x [t'].
Proof. intros E. unfold occurs, count, Threads.one. cbn. by rewrite E. Qed.
Lemma services_same t t' : tid t = tid t' → services [t] = services [t'].
Proof. intros E. unfold services, count, Threads.one, is_service. cbn. by rewrite E. Qed.

Lemma services_one t : 0 ≤ services [t] ≤ 1.
Proof. change (services [t]) with (Threads.one is_service t + 0). pose proof (one_range is_service t). lia. Qed.
Lemma services_none t : is_service t = false → services [t] = 0.
Proof. intros E. unfold services, count, Threads.one. cbn. by rewrite E. Qed.
Lemma services_nil l : Forall (λ t, is_service t = false) l → services l = 0.
Proof. induction 1 as [|t l Ht _ IH]; [done |]. by rewrite services_cons, IH, services_none. Qed.

Lemma ready_count (f : Thread → bool) q t :
  count f (ready (RoundRobinQueues.append q t)) = count f (ready q) + count f [t].
Proof.
  unfold ready, RoundRobinQueues.append. destruct (priority t); cbn [idle low normal high realtime]; rewrite !count_app; lia.
Qed.

Lemma dequeue_count (f : Thread → bool) q p q' t :
  RoundRobinQueues.dequeue q p = (q', Some t) → count f (ready q) = count f (ready q') + count f [t].
Proof.
  intros (rest & Hg & ->)%dequeue_Some. assert (∀ l, count f (t :: l) = count f l + count f [t]) as Hc.
  { intros l. rewrite !count_cons. cbn. lia. }
  unfold ready. destruct p; cbn [RoundRobinQueues.get RoundRobinQueues.set idle low normal high realtime] in Hg |- *;
    rewrite Hg, !count_app, Hc; lia.
Qed.

Lemma occurs_append x q t : occurs x (ready (RoundRobinQueues.append q t)) = occurs x (ready q) + occurs x [t].
Proof. apply ready_count. Qed.
Lemma services_append q t : services (ready (RoundRobinQueues.append q t)) = services (ready q) + services [t].
Proof. apply ready_count. Qed.

Lemma in_map_delete x id sl s :
  sl !! id = Some s → tid (sthread s) = id → in_map x (delete id sl) + occurs x [sthread s] = in_map x sl.
Proof.
  intros Hs <-. unfold in_map, occurs, count, Threads.one. cbn. destruct (Z.eqb_spec (tid (sthread s)) x) as [<-|Hne].
  - by rewrite lookup_delete_eq, Hs.
  - rewrite lookup_delete_ne by done. lia.
Qed.

Lemma in_map_insert x t s sl : sl !! tid t = None → in_map x (<[tid t := s]> sl) = in_map x sl + occurs x [t].
Proof.
  intros Hn. unfold in_map, occurs, count, Threads.one. cbn. destruct (Z.eqb_spec (tid t) x) as [<-|Hne].
  - by rewrite lookup_insert_eq, Hn.
  - rewrite lookup_insert_ne by done. lia.
Qed.

(** *** Threads that are woken *)

(** A thread has been taken out of the map of sleepers. *)
Definition woken (q q' : SleepQueues) (t : Thread) : Prop :=
  ∃ id s, sleepers q !! id = Some s ∧ sthread s = t ∧ sleepers q' = delete id (sleepers q).

Lemma pop_timers_woken sl ts now ts' id t : SleepQueues.pop_timers sl ts now = (ts', Some (id, t)) → ∃ s, sl !! id = Some s ∧ sthread s = t.
Proof.
  induction ts as [|k ts IH]; cbn; [done |]. destruct (now <? kdeadline k); [done |].
  destruct (sl !! ktid k) as [s|] eqn:Hs; [| done]. intros [= <- <- <-]. eauto.
Qed.

Lemma pop_ready_woken q now q' t : SleepQueues.pop_ready q now = (q', Some t) → woken q q' t.
Proof.
  unfold SleepQueues.pop_ready. destruct (SleepQueues.pop_timers _ _ _) as [ts [[id t']|]] eqn:E; [| done].
  intros [= <- <-]. apply pop_timers_woken in E as (s & Hs & Ht). by exists id, s.
Qed.

Lemma pop_ready_none q now q' : SleepQueues.pop_ready q now = (q', None) → sleepers q' = sleepers q.
Proof.
  unfold SleepQueues.pop_ready. destruct (SleepQueues.pop_timers _ _ _) as [ts [[id t']|]]; [done |]. by intros [= <-].
Qed.

Lemma wake_single_woken q h q' t : SleepQueues.wake_event_single q h = (q', Some t) → woken q q' t.
Proof.
  unfold SleepQueues.wake_event_single. destruct (events q !! h) as [[|id tids]|]; [done | | done].
  destruct (sleepers q !! id) as [s|] eqn:Hs; [| done]. intros [= <- <-]. by exists id, s.
Qed.

Lemma wake_single_none q h q' : SleepQueues.wake_event_single q h = (q', None) → sleepers q' = sleepers q.
Proof.
  unfold SleepQueues.wake_event_single. destruct (events q !! h) as [[|id tids]|]; [by intros [= <-] | | by intros [= <-]].
  destruct (sleepers q !! id) as [s|]; [done |]. by intros [= <-].
Qed.

Lemma wake_thread_woken q x q' t : SleepQueues.wake_thread q x = (q', Some t) → woken q q' t.
Proof.
  unfold SleepQueues.wake_thread. destruct (sleepers q !! x) as [s|] eqn:Hs; [| done]. intros [= <- <-].
  exists x, s. split_and!; [done | done |]. destruct (sreason s); [done | | done].
  destruct (events q !! handle) as [l|]; [| done]. by destruct (bool_decide _).
Qed.

(** The sleepers of a state that is well formed. *)
Definition sleepers_ok (sl : gmap Z Sleeper) : Prop :=
  ∀ id s, sl !! id = Some s → tid (sthread s) = id ∧ is_service (sthread s) = false.

Lemma sleepers_ok_delete sl id : sleepers_ok sl → sleepers_ok (delete id sl).
Proof. intros Hok x s [_ Hs]%lookup_delete_Some. by apply Hok. Qed.

Lemma wake_all_count sl tids sl' ts :
  sleepers_ok sl → SleepQueues.wake_all sl tids = (sl', ts) →
  sleepers_ok sl' ∧ Forall (λ t, is_service t = false) ts ∧ ∀ x, in_map x sl' + occurs x ts = in_map x sl.
Proof.
  revert sl sl' ts. induction tids as [|id tids IH]; intros sl sl' ts Hok; cbn [SleepQueues.wake_all].
  { intros [= <- <-]. split_and!; [done | by apply Forall_nil |]. intros x. cbn. lia. }
  destruct (sl !! id) as [s|] eqn:Hs; [| by apply IH].
  destruct (SleepQueues.wake_all (delete id sl) tids) as [sl1 ts1] eqn:E. intros [= <- <-].
  destruct (IH _ _ _ (sleepers_ok_delete sl id Hok) E) as (Hok' & Hts & Hx). destruct (Hok id s Hs) as [Hid Hsv].
  split_and!; [done | by apply Forall_cons |]. intros x. rewrite occurs_cons. specialize (Hx x).
  pose proof (in_map_delete x id sl s Hs Hid). lia.
Qed.

(** *** Steps *)

(** The invariant holds afterwards, and [d] says how often each thread has been dropped. *)
Definition moved_with (hs hs' : list Thread) (n : nat) (cfg cfg' : globals * list (Core * spc)) (d : Z → Z) : Prop :=
  inv_with hs' n cfg' ∧ ∀ x, places x cfg' + occurs x hs' + d x = places x cfg + occurs x hs.

Lemma shared_nonneg x g : 0 ≤ shared x g.
Proof.
  unfold shared. pose proof (occurs_nonneg x (ready (queue g))). pose proof (occurs_nonneg x (finished g)).
  unfold asleep, in_map. destruct (_ !! x); lia.
Qed.

Lemma places_nonneg x cfg : 0 ≤ places x cfg.
Proof.
  unfold places. pose proof (shared_nonneg x cfg.1).
  pose proof (sum_nonneg (λ l, occurs x (of_core l)) cfg.2 (λ l, occurs_nonneg x _)). lia.
Qed.

(** Core [i] takes a step that creates no thread. *)
Lemma inv_update_with d hs hs' n g ls i l g' l' :
  inv_with hs n (g, ls) → ls !! i = Some l →
  scheduler_switch g' = scheduler_switch g → tid_counter g' = tid_counter g → globals_ok g' → core_ok l' →
  Forall (λ t, is_service t = false) hs' →
  (∀ x, 0 ≤ d x ∧ occurs x (of_core l') + shared x g' + occurs x hs' + d x = occurs x (of_core l) + shared x g + occurs x hs) →
  services (of_core l') + services (ready (queue g')) = services (of_core l) + services (ready (queue g)) →
  moved_with hs hs' n (g, ls) (g', <[i := l']> ls) d.
Proof.
  intros [Hn Hon Hg Hc Hh H1 Hf Hs] Hi Eon Ec Hg' Hl' Hh' Hocc Hsv. cbn [fst snd] in *.
  assert (∀ x, places x (g', <[i := l']> ls) + occurs x hs' + d x = places x (g, ls) + occurs x hs) as Hp.
  { intros x. unfold places. cbn [fst snd]. rewrite (total_insert _ i l) by done. specialize (Hocc x). lia. }
  split; [| done]. split; cbn [fst snd].
  - by rewrite length_insert.
  - congruence.
  - done.
  - intros j l0 [(-> & -> & _)|[_ Hj]]%list_lookup_insert_Some; [done | by eapply Hc].
  - done.
  - intros x. specialize (Hp x). specialize (H1 x). destruct (Hocc x). lia.
  - intros x Hx. rewrite Ec in Hx. destruct (Hf x Hx) as [H0 Hns]. split; [| done]. specialize (Hp x). destruct (Hocc x).
    pose proof (places_nonneg x (g', <[i := l']> ls)). pose proof (occurs_nonneg x hs'). lia.
  - unfold service_count in *. cbn [fst snd] in *. rewrite (total_insert _ i l) by done. lia.
Qed.

(** Steps that leave alone what interrupted code has in hand *)
Section in_hand.
Context (hs : list Thread).
Local Abbreviation sched_inv := (inv_with hs).
Local Abbreviation moved := (moved_with hs hs).

Lemma inv_update d n g ls i l g' l' :
  sched_inv n (g, ls) → ls !! i = Some l →
  scheduler_switch g' = scheduler_switch g → tid_counter g' = tid_counter g → globals_ok g' → core_ok l' →
  (∀ x, 0 ≤ d x ∧ occurs x (of_core l') + shared x g' + d x = occurs x (of_core l) + shared x g) →
  services (of_core l') + services (ready (queue g')) = services (of_core l) + services (ready (queue g)) →
  moved n (g, ls) (g', <[i := l']> ls) d.
Proof.
  intros Hinv Hi Eon Ec Hg' Hl' Hocc Hsv. eapply inv_update_with; try done; [apply Hinv|]. intros x. destruct (Hocc x). lia.
Qed.

(** Core [i] takes a step that neither creates nor drops threads. *)
Lemma inv_keep n g ls i l g' l' :
  sched_inv n (g, ls) → ls !! i = Some l →
  scheduler_switch g' = scheduler_switch g → tid_counter g' = tid_counter g → globals_ok g' → core_ok l' →
  (∀ x, occurs x (of_core l') + shared x g' = occurs x (of_core l) + shared x g) →
  services (of_core l') + services (ready (queue g')) = services (of_core l) + services (ready (queue g)) →
  moved n (g, ls) (g', <[i := l']> ls) (λ _, 0).
Proof. intros ? ? ? ? ? ? Hx ?. by eapply inv_update; try done; intros x; rewrite Hx; lia. Qed.

Lemma core_services l : core_ok l → services (of_core l) ≤ 2.
Proof.
  destruct l as [c pc]. intros (_ & _ & _ & Hpc). unfold of_core. cbn [fst snd] in *. rewrite services_cons.
  pose proof (services_one (current c)). assert (services (held pc) ≤ 1); [| lia].
  destruct pc; cbn [held pc_ok] in *; try (cbn; lia); try (pose proof (services_one t); lia);
    try (pose proof (services_one cand); lia); try (pose proof (services_one old); lia).
  rewrite services_nil by done. lia.
Qed.

(** There are always more service threads than the cores can hold. *)
Lemma low_ready n g ls : sched_inv n (g, ls) → low (queue g) ≠ [].
Proof.
  intros [Hn _ Hg Hc _ _ _ Hs] Hlow. unfold service_count in Hs. cbn [fst snd] in *.
  pose proof (total_bound (λ l, services (of_core l)) 2 ls (λ i l Hi, core_services l (Hc i l Hi))) as Hb. rewrite Hn in Hb.
  assert (1 ≤ services (ready (queue g))) as (j & t & Hj & Ht)%count_ex by lia. apply list_elem_of_lookup_2 in Hj.
  pose proof (ok_ready g Hg t Hj Ht) as Hp. apply elem_of_ready in Hj as [p Hin].
  destruct (ok_queue g Hg p t Hin) as [E _]. rewrite Hp in E. subst p. cbn in Hin. rewrite Hlow in Hin. by apply elem_of_nil in Hin.
Qed.

Lemma enqueue_ok g t : globals_ok g → thread_ok t → globals_ok (Scheduler.enqueue_ready_thread g t).
Proof.
  intros [Hq Hr Hf Ha] Ht. split; cbn; try done; [by apply append_ok |].
  intros t' [Hin| ->]%ready_append; [by apply Hr | done].
Qed.

Lemma back_ok g t : globals_ok g → thread_ok t → tstate t = Ready → globals_ok (set_queue g (RoundRobinQueues.append (queue g) t)).
Proof.
  intros [Hq Hr Hf Ha] Ht Hst. split; cbn; try done; [by apply append_ok |].
  intros t' [Hin| ->]%ready_append; [by apply Hr | done].
Qed.

Lemma dequeued_ok g p q t :
  globals_ok g → RoundRobinQueues.dequeue (queue g) p = (q, Some t) →
  globals_ok (set_queue g q) ∧ tstate t = Ready ∧ thread_ok t.
Proof.
  intros [Hq Hr Hf Ha] Hd. pose proof (dequeue_ok _ _ _ _ Hq Hd) as (Hq' & Hp & Hst).
  apply dequeue_Some in Hd as (rest & Hg & ->). split_and!; [| done |].
  - split; cbn; try done. intros t' [p' Hin]%elem_of_ready. apply Hr, elem_of_ready.
    rewrite get_set in Hin. destruct (decide _) as [->|]; [exists p; rewrite Hg; by right | by exists p'].
  - apply Hr, elem_of_ready. exists p. rewrite Hg. by left.
Qed.

Lemma asleep_ok g q : globals_ok g → sleepers_ok (sleepers q) → globals_ok (set_sleeping g q).
Proof. intros [Hq Hr Hf Ha] Hs. by split. Qed.

Lemma woken_ok g q t :
  globals_ok g → woken (sleeping g) q t →
  globals_ok (set_sleeping g q) ∧ is_service t = false ∧ ∀ x, asleep x (set_sleeping g q) + occurs x [t] = asleep x g.
Proof.
  intros Hg (id & s & Hs & <- & Hq). destruct (ok_asleep g Hg id s Hs) as [Hid Hsv]. split_and!; [| done |].
  - apply asleep_ok; [done |]. rewrite Hq. apply sleepers_ok_delete. exact (ok_asleep g Hg).
  - intros x. unfold asleep. cbn. rewrite Hq. by apply in_map_delete.
Qed.

Lemma stage_ok g action t :
  globals_ok g → thread_ok t → action = ReadyAction ∨ is_service t = false → sleepers (sleeping g) !! tid t = None →
  let g' := Scheduler.stage_old_thread g action t in
  globals_ok g' ∧ (∀ x, shared x g' = shared x g + occurs x [t]) ∧ services (ready (queue g')) = services (ready (queue g)) + services [t].
Proof.
  intros Hg Ht Ha Hn g'. pose proof Hg as [Hq Hr Hf Has]. subst g'. destruct action as [|reason|]; cbn [Scheduler.stage_old_thread].
  - destruct Ha as [?|Ha]; [done |]. split_and!.
    + split; cbn; try done. intros t' [Hin|Hin%list_elem_of_singleton]%elem_of_app; [by apply Hf | by subst t'].
    + intros x. unfold shared. cbn [queue finished set_finished]. rewrite occurs_app.
      change (asleep x (set_finished g _)) with (asleep x g). lia.
    + cbn [queue set_finished]. rewrite services_none by done. lia.
  - destruct Ha as [?|Ha]; [done |]. split_and!.
    + apply asleep_ok; [done |]. rewrite insert_thread_sleepers. intros id s [[<- <-]|[_ Hs]]%lookup_insert_Some; [done | by apply Has].
    + intros x. unfold shared, asleep. cbn [queue finished sleeping set_sleeping]. rewrite insert_thread_sleepers, in_map_insert by done.
      rewrite (occurs_same x (Thread.set_state t Sleeping) t) by done. lia.
    + cbn [queue set_sleeping]. rewrite services_none by done. lia.
  - split_and!; [by apply (enqueue_ok g t) | |].
    + intros x. unfold shared. cbn [queue finished set_queue]. rewrite occurs_append, (occurs_same x (Thread.set_state t Ready) t) by done.
      change (asleep x (set_queue g _)) with (asleep x g). lia.
    + cbn [queue set_queue]. by rewrite services_append, (services_same (Thread.set_state t Ready) t).
Qed.

Lemma core_pc c pc pc' : core_ok (c, pc) → (may_ask pc = true → may_ask pc' = true) → pc_ok pc' → core_ok (c, pc').
Proof.
  intros (Hr & Ht & Hfl & _) Hm Hpc. split_and!; [done | done | | done].
  destruct Hfl as [?|(? & ? & ?)]; [by left | right; auto].
Qed.

Lemma resume_ask asked : may_ask (resume asked) = asked.
Proof. by destruct asked. Qed.

Lemma resume_held c asked : of_core (c, resume asked) = [current c].
Proof. by destruct asked. Qed.

(** The core reads its flags. *)
Lemma flags_read c pc : flags_ok (c, pc) → sleep_intent (read_flags c) = 0 ∧ (action_of c = ReadyAction ∨ is_service (current c) = false).
Proof.
  unfold read_flags, action_of, flags_ok. cbn [sleep_intent set_flags fst snd].
  intros [[-> ->]|(_ & Hs & H0)]; [split; [done | by left] |]. split; [| by right].
  destruct (should_exit c); [by apply H0 | done].
Qed.

(** A step of core [i] that changes only where it is. *)
Lemma inv_pc n g ls i c pc pc' :
  sched_inv n (g, ls) → ls !! i = Some (c, pc) → (may_ask pc = true → may_ask pc' = true) → pc_ok pc' → held pc' = held pc →
  moved n (g, ls) (g, <[i := (c, pc')]> ls) (λ _, 0).
Proof.
  intros Hinv Hi Hm Hpc Hh. pose proof (inv_core _ _ Hinv i _ Hi) as Hc.
  eapply inv_keep; [exact Hinv | exact Hi | done | done | apply Hinv | by eapply core_pc | |]; unfold of_core; cbn [fst snd]; rewrite Hh; done.
Qed.

(** The same when the interrupt flag changes. *)
Lemma sched_inv_flag n g ls i c b pc pc' :
  sched_inv n (g, ls) → ls !! i = Some (c, pc) → (may_ask pc = true → may_ask pc' = true) → pc_ok pc' → held pc' = held pc →
  moved n (g, ls) (g, <[i := (set_interrupts c b, pc')]> ls) (λ _, 0).
Proof.
  intros Hinv Hi Hm Hpc Hh. pose proof (inv_core _ _ Hinv i _ Hi) as Hc.
  eapply inv_keep; [exact Hinv | exact Hi | done | done | apply Hinv | exact (core_pc c pc pc' Hc Hm Hpc) | |];
    unfold of_core; cbn [fst snd]; rewrite Hh; done.
Qed.

(** A thread goes from the queues of the scheduler to core [i]. *)
Lemma inv_take n g ls i c pc g' pc' ts :
  sched_inv n (g, ls) → ls !! i = Some (c, pc) → held pc = [] → held pc' = ts →
  scheduler_switch g' = scheduler_switch g → tid_counter g' = tid_counter g → globals_ok g' →
  (may_ask pc = true → may_ask pc' = true) → pc_ok pc' →
  (∀ x, occurs x ts + shared x g' = shared x g) → services ts + services (ready (queue g')) = services (ready (queue g)) →
  moved n (g, ls) (g', <[i := (c, pc')]> ls) (λ _, 0).
Proof.
  intros Hinv Hi Hh Hh' Eon Ec Hg' Hm Hpc Hx Hs. pose proof (inv_core _ _ Hinv i _ Hi) as Hc.
  eapply inv_keep; [exact Hinv | exact Hi | done | done | done | by eapply core_pc | |]; unfold of_core; cbn [fst snd]; rewrite Hh, Hh'.
  - intros x. rewrite (occurs_cons x (current c) ts). specialize (Hx x). lia.
  - rewrite (services_cons (current c) ts). lia.
Qed.

(** Core [i] enqueues a thread that is ready. *)
Lemma inv_enqueue n g ls i c pc pc' t :
  sched_inv n (g, ls) → ls !! i = Some (c, pc) → held pc = t :: held pc' → thread_ok t →
  (may_ask pc = true → may_ask pc' = true) → pc_ok pc' →
  moved n (g, ls) (Scheduler.enqueue_ready_thread g t, <[i := (c, pc')]> ls) (λ _, 0).
Proof.
  intros Hinv Hi Hh Ht Hm Hpc. pose proof (inv_core _ _ Hinv i _ Hi) as Hc.
  eapply inv_keep; [exact Hinv | exact Hi | done | done | apply enqueue_ok; [apply Hinv | done] | by eapply core_pc | |];
    unfold of_core; cbn [fst snd]; rewrite Hh.
  - intros x. unfold shared. cbn [Scheduler.enqueue_ready_thread queue set_queue finished]. rewrite occurs_append.
    rewrite (occurs_same x (Thread.set_state t Ready) t) by done. change (asleep x (Scheduler.enqueue_ready_thread g t)) with (asleep x g).
    rewrite (occurs_cons x (current c) (t :: held pc')), (occurs_cons x t (held pc')), (occurs_cons x (current c) (held pc')). lia.
  - cbn [Scheduler.enqueue_ready_thread queue set_queue]. rewrite services_append, (services_same (Thread.set_state t Ready) t) by done.
    rewrite (services_cons (current c) (t :: held pc')), (services_cons t (held pc')), (services_cons (current c) (held pc')). lia.
Qed.

(** A new thread. *)
Lemma inv_spawn n g ls i c proc prio st :
  sched_inv n (g, ls) → ls !! i = Some (c, Run) →
  let t := Thread.new (tid_counter g) proc prio in
  moved n (g, ls) (set_stacks (set_counter g (tid_counter g + 1)) (<[tid_counter g := st]> (stacks g)),
    <[i := (c, Enq [t] false)]> ls) (λ x, - occurs x [t]).
Proof.
  intros [Hn Hon Hg Hc Hh H1 Hf Hs] Hi t. cbn [fst snd] in *. set (g' := set_stacks _ _).
  destruct (Hf (tid_counter g)) as [H0 Hns]; [lia |]. pose proof (occurs_nonneg (tid_counter g) hs).
  pose proof (places_nonneg (tid_counter g) (g, ls)). pose proof (Hc i _ Hi) as Hci.
  assert (is_service t = false) as Hsv by (unfold is_service; by rewrite bool_decide_false).
  assert (∀ x, places x (g', <[i := (c, Enq [t] false)]> ls) = places x (g, ls) + occurs x [t]) as Hp.
  { intros x. unfold places. cbn [fst snd]. rewrite (total_insert _ i _ _ _ Hi). unfold of_core. cbn [fst snd held].
    rewrite (occurs_cons x (current c) [t]). change (shared x g') with (shared x g). lia. }
  assert (∀ x, occurs x [t] = if tid_counter g =? x then 1 else 0) as Ho.
  { intros x. unfold occurs, count, Threads.one. cbn. destruct (_ =? _); lia. }
  split; [| intros x; rewrite Hp; lia]. split; cbn [fst snd].
  - by rewrite length_insert.
  - done.
  - by destruct Hg; split.
  - intros j l0 [(-> & <- & _)|[_ Hj]]%list_lookup_insert_Some; [| by eapply Hc].
    eapply core_pc; [exact Hci | done |]. cbn. by apply Forall_cons.
  - done.
  - intros x. rewrite Hp, Ho. destruct (Z.eqb_spec (tid_counter g) x) as [<-|]; [lia |]. specialize (H1 x). lia.
  - intros x Hx. rewrite Hp, Ho. cbn in Hx. destruct (Hf x) as [E ?]; [lia |]. split; [| done].
    destruct (Z.eqb_spec (tid_counter g) x); lia.
  - unfold service_count in *. cbn [fst snd] in *. rewrite (total_insert _ i _ _ _ Hi). unfold of_core in Hs |- *. cbn [fst snd held].
    rewrite (services_cons (current c) [t]), (services_none t Hsv). change (queue g') with (queue g). lia.
Qed.

(** A thread that a core has does not sleep. *)
Lemma held_awake n g ls i l t : sched_inv n (g, ls) → ls !! i = Some l → t ∈ of_core l → sleepers (sleeping g) !! tid t = None.
Proof.
  intros Hinv Hi Hin. pose proof (inv_once _ _ Hinv (tid t)) as H1. unfold places, shared in H1. cbn [fst snd] in H1.
  pose proof (total_one (λ l, occurs (tid t) (of_core l)) ls i l (λ l, occurs_nonneg (tid t) _) Hi) as Ht. cbv beta in Ht.
  pose proof (occurs_nonneg (tid t) (ready (queue g))). pose proof (occurs_nonneg (tid t) (finished g)). pose proof (occurs_nonneg (tid t) hs).
  assert (1 ≤ occurs (tid t) (of_core l)) as Ho.
  { apply list_elem_of_lookup_1 in Hin as [j Hj]. eapply count_pos; [exact Hj |]. apply Z.eqb_refl. }
  unfold asleep, in_map in H1. destruct (sleepers (sleeping g) !! tid t); [lia | done].
Qed.

(** The candidate takes over, or goes back. *)
Lemma inv_decide n g ls i c reason cand :
  sched_inv n (g, ls) → ls !! i = Some (c, Decide reason cand) →
  ∃ c' pc', Scheduler.take_over cr3_of c g reason cand =
      Ret (c', match pc' with Stage action old cs => Some (action, old, cs) | _ => None end) ∧
    (pc' = Back cand ∨ ∃ action old cs, pc' = Stage action old cs) ∧
    moved n (g, ls) (g, <[i := (c', pc')]> ls) (λ _, 0).
Proof.
  intros Hinv Hi. pose proof (inv_core _ _ Hinv i _ Hi) as (Hrun & Hok & Hfl & Hst & Hcand). cbn [fst snd] in *.
  destruct (flags_read _ _ Hfl) as [H0 Ha]. rewrite take_over_eq by done.
  destruct (stays c cand reason).
  - exists (read_flags c), (Back cand). split_and!; [done | by left |].
    eapply inv_keep; [exact Hinv | exact Hi | done | done | apply Hinv | | done | done].
    split_and!; [done | done | by left | done].
  - exists (taken c cand), (Stage (action_of c) (current c) (switch_to cr3_of c g cand)).
    split_and!; [done | right; eauto |].
    eapply inv_keep; [exact Hinv | exact Hi | done | done | apply Hinv | | |].
    + split_and!; [done | by intros Hsv; apply Hcand | by left | by split].
    + intros x. unfold of_core. cbn [fst snd held taken current].
      rewrite (occurs_cons x (Thread.set_state cand Running) [current c]), (occurs_cons x (current c) [cand]).
      rewrite (occurs_same x (Thread.set_state cand Running) cand) by done. lia.
    + unfold of_core. cbn [fst snd held taken current].
      rewrite (services_cons (Thread.set_state cand Running) [current c]), (services_cons (current c) [cand]).
      rewrite (services_same (Thread.set_state cand Running) cand) by done. lia.
Qed.

(** Sleeping threads that are woken. *)
Lemma inv_woken n g ls i c pc q t pc' :
  sched_inv n (g, ls) → ls !! i = Some (c, pc) → held pc = [] → woken (sleeping g) q t → held pc' = [t] →
  (may_ask pc = true → may_ask pc' = true) → (is_service t = false → pc_ok pc') →
  moved n (g, ls) (set_sleeping g q, <[i := (c, pc')]> ls) (λ _, 0).
Proof.
  intros Hinv Hi Hh Hw Hh' Hm Hpc. destruct (woken_ok g q t (inv_globals _ _ Hinv) Hw) as (Hg' & Hsv & Hx).
  eapply inv_take; [exact Hinv | exact Hi | done | exact Hh' | done | done | done | done | by apply Hpc | |].
  - intros x. unfold shared. cbn [queue finished set_sleeping]. specialize (Hx x). lia.
  - cbn [queue set_sleeping]. rewrite services_none by done. lia.
Qed.

(** The sleepers are the same. *)
Lemma inv_asleep n g ls i c pc q pc' :
  sched_inv n (g, ls) → ls !! i = Some (c, pc) → held pc = [] → sleepers q = sleepers (sleeping g) → held pc' = [] →
  (may_ask pc = true → may_ask pc' = true) → pc_ok pc' →
  moved n (g, ls) (set_sleeping g q, <[i := (c, pc')]> ls) (λ _, 0).
Proof.
  intros Hinv Hi Hh Hq Hh' Hm Hpc.
  eapply inv_take; [exact Hinv | exact Hi | done | exact Hh' | done | done | | done | done | |].
  - apply asleep_ok; [apply Hinv |]. rewrite Hq. exact (ok_asleep g (inv_globals _ _ Hinv)).
  - intros x. unfold shared, asleep. cbn [queue finished sleeping set_sleeping]. rewrite Hq. cbn. lia.
  - done.
Qed.

Lemma wake_step_inv n i g ls l g' l' :
  sched_inv n (g, ls) → ls !! i = Some l → wake_step i g l g' l' → moved n (g, ls) (g', <[i := l']> ls) (λ _, 0).
Proof.
  intros Hinv Hi Hst. pose proof (inv_core _ _ Hinv i l Hi) as Hc.
  destruct Hst as [i g c asked now Hon|i g c now q t E|i g c now t|i g c now q E|i g c now|i g c asked h q t E|i g c asked h q E
    |i g c asked h q ts E|i g c asked x q t E|i g c t ts asked|i g c asked].
  - eapply sched_inv_flag; [exact Hinv | exact Hi | done | done | by destruct asked].
  - eapply inv_woken; [exact Hinv | exact Hi | done | by eapply pop_ready_woken | done | done | done].
  - destruct Hc as (_ & _ & _ & Hpc). cbn in Hpc.
    eapply inv_enqueue; [exact Hinv | exact Hi | done | intros ?; congruence | done | done].
  - eapply inv_asleep; [exact Hinv | exact Hi | done | by eapply pop_ready_none | done | done | done].
  - by eapply inv_pc.
  - eapply inv_woken; [exact Hinv | exact Hi | by destruct asked | by eapply wake_single_woken | done | by rewrite resume_ask |].
    intros Hsv. by apply Forall_cons.
  - eapply inv_asleep; [exact Hinv | exact Hi | by destruct asked | by eapply wake_single_none | by destruct asked | done | by destruct asked].
  - unfold SleepQueues.wake_event_all in E. destruct (events (sleeping g) !! h) as [tids|].
    2: { injection E as <- <-. eapply inv_asleep; [exact Hinv | exact Hi | by destruct asked | done | done | by rewrite resume_ask | by apply Forall_nil]. }
    destruct (SleepQueues.wake_all _ _) as [sl ts'] eqn:Ew. injection E as <- <-.
    destruct (wake_all_count _ _ _ _ (ok_asleep g (inv_globals _ _ Hinv)) Ew) as (Hsl & Hts & Hx).
    eapply inv_take; [exact Hinv | exact Hi | by destruct asked | done | done | done | | by rewrite resume_ask | done | |].
    + apply asleep_ok; [apply Hinv | done].
    + intros x. unfold shared, asleep. cbn [queue finished sleeping set_sleeping sleepers held]. specialize (Hx x). lia.
    + cbn [queue set_sleeping held]. rewrite services_nil by done. lia.
  - eapply inv_woken; [exact Hinv | exact Hi | by destruct asked | by eapply wake_thread_woken | done | by rewrite resume_ask |].
    intros Hsv. by apply Forall_cons.
  - destruct Hc as (_ & _ & _ & [Hsv Hts]%Forall_cons).
    eapply inv_enqueue; [exact Hinv | exact Hi | done | intros ?; congruence | done | done].
  - eapply inv_pc; [exact Hinv | exact Hi | by rewrite resume_ask | by destruct asked | by destruct asked].
Qed.

Lemma ask_step_inv n i g ls l g' l' :
  sched_inv n (g, ls) → ls !! i = Some l → ask_step i g l g' l' →
  ∃ d, moved n (g, ls) (g', <[i := l']> ls) d ∧
    ∀ x, d x ≤ 0 ∨ ∃ t rest, finished g = t :: rest ∧ tid t = x ∧ d x = 1 ∧ finished g' = rest.
Proof.
  intros Hinv Hi Hst. pose proof (inv_core _ _ Hinv i l Hi) as Hc.
  destruct Hst as [i g c asked|i g c Hsv|i g c reason c' Hsv E|i g c proc prio st|i g c t ts E].
  - exists (λ _, 0). split; [| by left]. eapply inv_pc; [exact Hinv | exact Hi | done | done | by destruct asked].
  - exists (λ _, 0). split; [| by left]. destruct Hc as (Hr & Hok & [[_ H0]|[? _]] & _); [| done]. cbn [fst snd] in *.
    eapply inv_keep; [exact Hinv | exact Hi | done | done | apply Hinv | | done | done].
    split_and!; [done | done | right; by split_and! | done].
  - exists (λ _, 0). split; [| by left]. destruct Hc as (Hr & Hok & [[H1 H0]|[? _]] & _); [| done]. cbn [fst snd] in *.
    unfold Scheduler.set_sleep in E. destruct (AtomicSleepReason.store _ _) as [raw|]; [| done]. injection E as <-.
    eapply inv_keep; [exact Hinv | exact Hi | done | done | apply Hinv | | done | done].
    split_and!; [done | done | right; split_and!; cbn; [done | done | congruence] | done].
  - eexists. split; [by apply inv_spawn |]. intros x. left. pose proof (occurs_nonneg x [Thread.new (tid_counter g) proc prio]). lia.
  - exists (λ x, occurs x [t]). pose proof (inv_globals _ _ Hinv) as [Hq Hr Hf Ha]. cbn [fst] in *. split.
    + eapply inv_update; [exact Hinv | exact Hi | done | done | | done | | done].
      * split; [done | done | | done]. intros t' Ht. apply Hf. rewrite E. by right.
      * intros x. unfold shared. cbn [queue finished set_finished]. rewrite E, (occurs_cons x t ts).
        change (asleep x (set_finished g ts)) with (asleep x g). pose proof (occurs_nonneg x [t]). lia.
    + intros x. unfold occurs, count, Threads.one. cbn. destruct (Z.eqb_spec (tid t) x); [right | left; lia].
      exists t, ts. split_and!; [done | done | lia | done].
Qed.

(** The old thread leaves the core. *)
Lemma inv_stage n g ls i c action old cs :
  sched_inv n (g, ls) → ls !! i = Some (c, Stage action old cs) →
  moved n (g, ls) (Scheduler.stage_old_thread g action old, <[i := (c, Switch cs)]> ls) (λ _, 0).
Proof.
  intros Hinv Hi. pose proof (inv_core _ _ Hinv i _ Hi) as Hc.
  destruct Hc as (Hr & Hok & Hfl & Hold & Ha).
  assert (sleepers (sleeping g) !! tid old = None) as Hn by (eapply held_awake; [exact Hinv | exact Hi | right; by left]).
  destruct (stage_ok g action old (inv_globals _ _ Hinv) Hold Ha Hn) as (Hg' & Hx & Hs).
  eapply inv_keep; [exact Hinv | exact Hi | by destruct action | by destruct action | done | | |].
  - split_and!; [done | done | | done]. left. by destruct Hfl as [?|[? _]].
  - intros x. rewrite Hx. unfold of_core. cbn [fst snd held]. rewrite (occurs_cons x (current c) [old]). lia.
  - rewrite Hs. unfold of_core. cbn [fst snd held]. rewrite (services_cons (current c) [old]). lia.
Qed.

Lemma reschedule_step_inv n i g ls l g' l' :
  sched_inv n (g, ls) → ls !! i = Some l → reschedule_step i g l g' l' → moved n (g, ls) (g', <[i := l']> ls) (λ _, 0).
Proof.
  intros Hinv Hi Hst. pose proof (inv_core _ _ Hinv i l Hi) as Hc.
  destruct Hst as [i g c reason E|i g c reason c' E E'|i g c reason p ps q t E|i g c reason p ps q E|i g c reason E
    |i g c reason cand c' E|i g c cand|i g c reason cand c' action old cs E|i g c action old cs|i g c cs c' g' E].
  - pose proof (inv_on _ _ Hinv). cbn in *. congruence.
  - destruct Hc as (Hr & Hok & Hfl & _). unfold Scheduler.account in E'. destruct (add_w _ _ _) as [ms|]; [| done]. injection E' as <-.
    eapply inv_keep; [exact Hinv | exact Hi | done | done | apply Hinv | | done | done].
    split_and!; [done | done | done | by left].
  - pose proof (inv_globals _ _ Hinv) as Hg. destruct (dequeued_ok _ _ _ _ Hg E) as (Hg' & Hst & Hok). cbn [fst] in *.
    eapply inv_take; [exact Hinv | exact Hi | done | done | done | done | done | done | done | |].
    + intros x. unfold shared. cbn [queue finished set_queue held]. pose proof (dequeue_count (λ t, tid t =? x) _ _ _ _ E) as Hd.
      change (asleep x (set_queue g q)) with (asleep x g). unfold occurs. lia.
    + pose proof (dequeue_count is_service _ _ _ _ E) as Hd. cbn [queue set_queue held]. unfold services. lia.
  - apply dequeue_None in E as [Hnil ->]. pose proof (low_ready _ _ _ Hinv) as Hlow. destruct Hc as (_ & _ & _ & Hpc). cbn in Hpc.
    replace (set_queue g (queue g)) with g by (by destruct g).
    eapply inv_pc; [exact Hinv | exact Hi | done | | done]. unfold pop_order in Hpc.
    destruct Hpc as [E|[E|[E|E]]]; injection E as -> ->; cbn; [tauto.. |]. by cbn in Hnil.
  - destruct Hc as (_ & _ & _ & Hpc). cbn in Hpc. by destruct Hpc as [?|[?|[?|?]]].
  - destruct (inv_decide _ _ _ _ _ _ _ Hinv Hi) as (c1 & pc & E' & Hpc & Hinv'). rewrite E in E'.
    destruct Hpc as [->|(a & o & cs & ->)]; [| done]. by injection E' as ->.
  - destruct Hc as (_ & _ & Hfl & [Hst Hok]).
    eapply inv_keep; [exact Hinv | exact Hi | done | done | apply back_ok; [apply Hinv | done | done] | | |].
    + pose proof (inv_core _ _ Hinv i _ Hi) as Hc. exact (core_pc c (Back cand) Run Hc ltac:(done) I).
    + intros x. unfold shared, of_core. cbn [queue finished set_queue set_interrupts current fst snd held]. rewrite occurs_append.
      rewrite (occurs_cons x (current c) [cand]). change (asleep x (set_queue g _)) with (asleep x g). lia.
    + unfold of_core. cbn [queue set_queue set_interrupts current fst snd held]. rewrite services_append, (services_cons (current c) [cand]). lia.
  - destruct (inv_decide _ _ _ _ _ _ _ Hinv Hi) as (c1 & pc & E' & Hpc & Hinv'). rewrite E in E'.
    destruct Hpc as [->|(a & o & cs' & ->)]; [done |]. by injection E' as -> -> -> ->.
  - by apply inv_stage.
  - injection E as <- <-. pose proof (inv_globals _ _ Hinv) as Hg. destruct Hc as (Hr & Hok & Hfl & _).
    assert (core_ok (set_interrupts (set_rsp c (new_stack cs)) true, Run)) as Hc'.
    { split_and!; [done | done | | done]. left. by destruct Hfl as [?|[? _]]. }
    destruct (old_stack cs); eapply inv_keep; try done. by destruct Hg; split.
Qed.

Lemma step_inv n i g ls l g' l' :
  sched_inv n (g, ls) → ls !! i = Some l → step i g l g' l' →
  ∃ d, moved n (g, ls) (g', <[i := l']> ls) d ∧
    ∀ x, d x ≤ 0 ∨ ∃ t rest, finished g = t :: rest ∧ tid t = x ∧ d x = 1 ∧ finished g' = rest.
Proof.
  intros Hinv Hi [H|[H|H]].
  - exists (λ _, 0). split; [by eapply wake_step_inv | by left].
  - by eapply ask_step_inv.
  - exists (λ _, 0). split; [by eapply reschedule_step_inv | by left].
Qed.

End in_hand.

(** ** Interrupts *)

Lemma hand_inv hs n g ls i c ts asked :
  inv_with hs n (g, ls) → ls !! i = Some (c, Enq ts asked) →
  moved_with hs (ts ++ hs) n (g, ls) (g, <[i := (c, resume asked)]> ls) (λ _, 0).
Proof.
  intros Hinv Hi. pose proof (inv_core _ _ Hinv i _ Hi) as Hc. pose proof Hc as (_ & _ & _ & Hts). cbn in Hts.
  eapply inv_update_with; [exact Hinv | exact Hi | done | done | apply Hinv | | apply Forall_app; split; [done | apply Hinv] | |].
  - eapply core_pc; [exact Hc | by rewrite resume_ask | by destruct asked].
  - intros x. rewrite resume_held, occurs_app. unfold of_core. cbn [fst snd held]. rewrite (occurs_cons x (current c) ts). lia.
  - rewrite resume_held. unfold of_core. cbn [fst snd held]. rewrite (services_cons (current c) ts), (services_nil ts) by done. lia.
Qed.

Lemma unhand_inv hs t hs' n g ls i c :
  inv_with (hs ++ t :: hs') n (g, ls) → ls !! i = Some (c, Run) →
  moved_with (hs ++ t :: hs') (hs ++ hs') n (g, ls) (g, <[i := (c, Enq [t] false)]> ls) (λ _, 0).
Proof.
  intros Hinv Hi. pose proof (inv_core _ _ Hinv i _ Hi) as Hc. pose proof (inv_hands _ _ Hinv) as [Hh1 [Ht Hh2]%Forall_cons]%Forall_app.
  eapply inv_update_with; [exact Hinv | exact Hi | done | done | apply Hinv | | by apply Forall_app | |].
  - eapply core_pc; [exact Hc | done | by apply Forall_cons].
  - intros x. rewrite !occurs_app, (occurs_cons x t hs'). unfold of_core. cbn [fst snd held]. rewrite (occurs_cons x (current c) [t]). lia.
  - unfold of_core. cbn [fst snd held]. rewrite (services_cons (current c) [t]), (services_none t Ht). lia.
Qed.

Lemma perform_inv hs n g ls i c cs c' g' :
  inv_with hs n (g, ls) → ls !! i = Some (c, Run) → Scheduler.perform cs c g = (c', g') →
  moved_with hs hs n (g, ls) (g', <[i := (c', Run)]> ls) (λ _, 0).
Proof.
  intros Hinv Hi [= <- <-]. pose proof (inv_core _ _ Hinv i _ Hi) as Hc. pose proof (inv_globals _ _ Hinv) as Hg.
  assert (core_ok (set_interrupts (set_rsp c (new_stack cs)) true, Run)) as Hc' by exact (core_pc c Run Run Hc (λ H, H) I).
  destruct (old_stack cs); eapply inv_keep; try done. by destruct Hg; split.
Qed.

Lemma switch_inv hs n g ls i c cs :
  inv_with hs n (g, ls) → ls !! i = Some (c, Switch cs) → moved_with hs hs n (g, ls) (g, <[i := (c, Run)]> ls) (λ _, 0).
Proof. intros Hinv Hi. eapply inv_pc; [exact Hinv | exact Hi | done | done | done]. Qed.

(** ** Steps of the whole system *)

Definition sched_inv (n : nat) (cfg : globals * interrupted * list (Core * spc)) : Prop :=
  inv_with (hands cfg.1.2) n (cfg.1.1, cfg.2).

(** How often the thread [x] occurs in the queues, on the cores and in the hands of interrupted code. *)
Definition everywhere (x : Z) (cfg : globals * interrupted * list (Core * spc)) : Z :=
  places x (cfg.1.1, cfg.2) + occurs x (hands cfg.1.2).

(** A step keeps the invariant, and no thread disappears unless it has finished and is dropped. *)
Lemma sched_step n i cfg cfg' :
  sched_inv n cfg → thread_step world_step i cfg cfg' →
  sched_inv n cfg' ∧
  ∀ x, everywhere x cfg ≤ everywhere x cfg' ∨
    ∃ t rest, finished cfg.1.1 = t :: rest ∧ tid t = x ∧ finished cfg'.1.1 = rest.
Proof.
  destruct cfg as [[g w] ls]. unfold sched_inv, everywhere. intros Hinv (l & gw' & l' & Hi & Hst & ->)%thread_step_inv.
  assert (∀ g' w', moved_with (hands w) (hands w') n (g, ls) (g', <[i := l']> ls) (λ _, 0) →
    inv_with (hands w') n (g', <[i := l']> ls) ∧
    ∀ x, places x (g, ls) + occurs x (hands w) ≤ places x (g', <[i := l']> ls) + occurs x (hands w') ∨
      ∃ t rest, finished g = t :: rest ∧ tid t = x ∧ finished g' = rest) as Hmoved.
  { intros g' w' [Hinv' Hx]. split; [done |]. intros x. left. specialize (Hx x). lia. }
  inversion Hst as [j g0 w0 l0 g' l0' Hs|j g0 w0 c ts asked Hon|j g0 w0 c hs t hs' Hw|j g0 w0 c cs Hon|j g0 w0 c ps cs ps' c' g' Hp E];
    subst; cbn [fst snd hands] in *.
  - destruct (step_inv _ _ _ _ _ _ _ _ Hinv Hi Hs) as (d & [Hinv' Hx] & Hd). split; [done |]. intros x. specialize (Hx x).
    destruct (Hd x) as [?|(t & rest & ? & ? & _ & ?)]; [left; lia | right; eauto].
  - apply (Hmoved g (mkInterrupted _ (pending w))). by apply hand_inv.
  - apply (Hmoved g (mkInterrupted _ (pending w))). rewrite Hw in Hinv |- *. by apply unhand_inv.
  - apply (Hmoved g (mkInterrupted _ (cs :: pending w))). by eapply switch_inv.
  - apply (Hmoved g' (mkInterrupted _ (ps ++ ps'))). by eapply perform_inv.
Qed.

End cores.

(** ** Running the cores *)

(** What a core does next, where it has a choice. *)
Inductive label := LNext | LTick (now : Z) | LYield | LSleep (reason : SleepReason) | LEvent (h : Z) | LInterrupt | LPerform.

Section exec.
Context (cr3_of : Z → Z) (service : list Z).

Definition exec_next (g : globals) (c : Core) (pc : spc) : option (globals * (Core * spc)) :=
  match pc with
  | Wake now =>
      match SleepQueues.pop_ready (sleeping g) now with
      | (q, Some t) => Some (set_sleeping g q, (c, WakeEnq now t))
      | (q, None) => Some (set_sleeping g q, (c, Start QuantumExpired))
      end
  | WakeEnq now t => Some (Scheduler.enqueue_ready_thread g t, (c, Wake now))
  | Enq (t :: ts) asked => Some (Scheduler.enqueue_ready_thread g t, (c, Enq ts asked))
  | Enq [] asked => Some (g, (c, resume asked))
  | Start reason =>
      if scheduler_switch g then
        match Scheduler.account c with Ret c' => Some (g, (c', Pop reason pop_order)) | Panic => None end
      else Some (g, (set_interrupts c true, Run))
  | Pop reason (p :: ps) =>
      match RoundRobinQueues.dequeue (queue g) p with
      | (q, Some t) => Some (set_queue g q, (c, Decide reason t))
      | (q, None) => Some (set_queue g q, (c, Pop reason ps))
      end
  | Decide reason cand =>
      match Scheduler.take_over cr3_of c g reason cand with
      | Ret (c', Some (action, old, cs)) => Some (g, (c', Stage action old cs))
      | Ret (c', None) => Some (g, (c', Back cand))
      | Panic => None
      end
  | Back cand => Some (set_queue g (RoundRobinQueues.append (queue g) cand), (set_interrupts c true, Run))
  | Stage action old cs => Some (Scheduler.stage_old_thread g action old, (c, Switch cs))
  | Switch cs => let '(c', g') := Scheduler.perform cs c g in Some (g', (c', Run))
  | _ => None
  end.

Definition exec (lb : label) (g : globals) (l : Core * spc) : option (globals * (Core * spc)) :=
  let '(c, pc) := l in
  match lb, pc with
  | LNext, _ => exec_next g c pc
  | LTick now, Run => if interrupts c then Some (g, (set_interrupts c false, Wake now)) else None
  | LYield, Run => Some (g, (c, Start ExplicitYield))
  | LYield, Asked => Some (g, (c, Start ExplicitYield))
  | LSleep reason, Run =>
      if is_service service (current c) then None
      else match Scheduler.set_sleep c reason with Ret c' => Some (g, (c', Asked)) | Panic => None end
  | LEvent h, Run =>
      match SleepQueues.wake_event_single (sleeping g) h with
      | (q, Some t) => Some (set_sleeping g q, (c, Enq [t] false))
      | (q, None) => Some (set_sleeping g q, (c, Run))
      end
  | _, _ => None
  end.

Definition exec_world (lb : label) (gw : globals * interrupted) (l : Core * spc) : option (globals * interrupted * (Core * spc)) :=
  let '(g, w) := gw in
  let '(c, pc) := l in
  match lb, pc with
  | LInterrupt, Switch cs => if interrupts c then Some (g, mkInterrupted (hands w) (cs :: pending w), (c, Run)) else None
  | LInterrupt, Enq ts asked => if interrupts c then Some (g, mkInterrupted (ts ++ hands w) (pending w), (c, resume asked)) else None
  | LPerform, Run =>
      match pending w with
      | cs :: ps => let '(c', g') := Scheduler.perform cs c g in Some (g', mkInterrupted (hands w) ps, (c', Run))
      | [] => None
      end
  | _, _ => match exec lb g l with Some (g', l') => Some (g', w, l') | None => None end
  end.

Fixpoint run_cores (sched : list (nat * label)) (cfg : globals * interrupted * list (Core * spc))
    : option (globals * interrupted * list (Core * spc)) :=
  match sched with
  | [] => Some cfg
  | (i, lb) :: sched =>
      match cfg.2 !! i with
      | Some l => match exec_world lb cfg.1 l with Some (gw', l') => run_cores sched (gw', <[i := l']> cfg.2) | None => None end
      | None => None
      end
  end.

Lemma exec_next_sound i g c pc g' l' : exec_next g c pc = Some (g', l') → step cr3_of service i g (c, pc) g' l'.
Proof.
  destruct pc; cbn [exec_next]; intros E; try done.
  - left. destruct (SleepQueues.pop_ready _ _) as [q [t|]] eqn:Ep; injection E as <- <-; [by eapply S_wake | by eapply S_wake_done].
  - left. injection E as <- <-. constructor.
  - left. destruct ts; injection E as <- <-; constructor.
  - right. right. destruct (scheduler_switch g) eqn:Es; [| injection E as <- <-; by constructor].
    destruct (Scheduler.account c) eqn:Ea; [| done]. injection E as <- <-. by constructor.
  - right. right. destruct ps as [|p ps]; [done |].
    destruct (RoundRobinQueues.dequeue _ _) as [q [t|]] eqn:Ed; injection E as <- <-; by econstructor.
  - right. right. destruct (Scheduler.take_over _ _ _ _ _) as [[c' [[[action old] cs]|]]|] eqn:Et; [| | done]; injection E as <- <-; by econstructor.
  - right. right. injection E as <- <-. constructor.
  - right. right. injection E as <- <-. constructor.
  - right. right. destruct (Scheduler.perform cs c g) as [c1 g1] eqn:Ep. injection E as <- <-. by econstructor.
Qed.

Lemma exec_sound i lb g l g' l' : exec lb g l = Some (g', l') → step cr3_of service i g l g' l'.
Proof.
  destruct l as [c pc]. destruct lb; cbn [exec]; [apply exec_next_sound |..]; destruct pc; intros E; try done.
  - left. destruct (interrupts c) eqn:Eo; [|done]. injection E as <- <-. by apply (S_tick i g c false).
  - right. left. injection E as <- <-. apply (S_yield _ i g c false).
  - right. left. injection E as <- <-. apply (S_yield _ i g c true).
  - right. left. destruct (is_service _ _) eqn:Es; [done |]. destruct (Scheduler.set_sleep c reason) eqn:Er; [| done].
    injection E as <- <-. by econstructor.
  - left. destruct (SleepQueues.wake_event_single _ _) as [q [t|]] eqn:Ew; injection E as <- <-;
      [by apply (S_event i g c false h) | by apply (S_event_none i g c false h)].
Qed.

Lemma exec_world_sound i lb gw l gw' l' : exec_world lb gw l = Some (gw', l') → world_step cr3_of service i gw l gw' l'.
Proof.
  destruct gw as [g w], l as [c pc]. unfold exec_world. intros E.
  assert (match exec lb g (c, pc) with Some (g1, l1) => Some (g1, w, l1) | None => None end = Some (gw', l') →
    world_step cr3_of service i (g, w) (c, pc) gw' l') as Hstep.
  { destruct (exec lb g (c, pc)) as [[g1 l1]|] eqn:Ee; [|done]. intros [= <- <-]. apply W_step. by eapply exec_sound. }
  destruct lb; try (by apply Hstep); destruct pc; try (by apply Hstep).
  - destruct (interrupts c) eqn:Eo; [|done]. injection E as <- <-. by apply W_hand.
  - destruct (interrupts c) eqn:Eo; [|done]. injection E as <- <-. by apply W_switch.
  - destruct (pending w) as [|cs ps] eqn:Ep; [done|]. destruct (Scheduler.perform cs c g) as [c1 g1] eqn:Ef. injection E as <- <-.
    by apply (W_perform _ _ i g w c [] cs ps).
Qed.

Lemma run_cores_sound sched cfg cfg' :
  run_cores sched cfg = Some cfg' → rtc (any_step (world_step cr3_of service)) cfg cfg'.
Proof.
  revert cfg. induction sched as [|[i lb] sched IH]; intros [g ls] E; cbn [run_cores] in E; [by injection E as <- |].
  cbn [fst snd] in E. destruct (ls !! i) as [l|] eqn:Hi; [| done]. destruct (exec_world lb g l) as [[g' l']|] eqn:Ee; [| done].
  eapply rtc_l; [| by apply IH]. exists i. eapply Thread_step; [done |]. by eapply exec_world_sound.
Qed.

End exec.

(** ** Start *)

Section start.
Context (cr3_of stack_of : Z → Z) (kernel_process : Z).

(** [init] on [n] cores, one after the other. *)
Fixpoint boot_from (first : bool) (n : nat) (g : globals) : globals * list (Core * spc) :=
  match n with
  | O => (g, [])
  | S n =>
      let '(c, g) := Scheduler.init stack_of kernel_process first g in
      let '(g, ls) := boot_from false n g in (g, (c, Run) :: ls)
  end.
Definition boot (n : nat) : globals * list (Core * spc) :=
  boot_from true n (mkGlobals true RoundRobinQueues.new [] SleepQueues.new ∅ 0).

(** The system after [init] *)
Definition start (n : nat) : globals * interrupted * list (Core * spc) :=
  ((boot n).1, mkInterrupted [] [], (boot n).2).

(** The threads that [init] has started: they never exit or sleep. *)
Definition started (n : nat) : list Z := tid <$> ready (queue (boot n).1).

(** The threads of one core. *)
Definition booted (first : bool) (id : Z) : list Thread :=
  (λ k, Thread.set_state (Thread.new k kernel_process Low) Ready) <$> (if first then [id + 1; id + 2; id + 3] else [id + 1; id + 2]).

Lemma init_eq first g :
  queue g = mkQueues [] (low (queue g)) [] [] [] →
  let '(c, g') := Scheduler.init stack_of kernel_process first g in
  let id := tid_counter g in
  c = mkCore (Thread.new_kernel id kernel_process) false 0 true None 0 ∧
  scheduler_switch g' = scheduler_switch g ∧ finished g' = finished g ∧ sleeping g' = sleeping g ∧
  queue g' = mkQueues [] (low (queue g) ++ booted first id) [] [] [] ∧
  tid_counter g' = id + if first then 4 else 3.
Proof.
  destruct g as [sw q fi sl st id]. cbn [queue]. intros Hq. rewrite Hq. destruct first; cbn; rewrite <- !app_assoc; cbn;
    split_and!; try done; try lia; by rewrite <- !Z.add_assoc.
Qed.

Definition core_start (l : Core * spc) : Prop :=
  tstate (current l.1) = Running ∧ should_exit l.1 = false ∧ sleep_intent l.1 = 0 ∧ l.2 = Run.

Lemma occurs_id x t : occurs x [t] = if tid t =? x then 1 else 0.
Proof. unfold occurs, count, Threads.one. cbn. destruct (tid t =? x); lia. Qed.

Lemma booted_count first id x :
  occurs x (booted first id) = if (id <? x) && (x <? id + if first then 4 else 3) then 1 else 0.
Proof.
  unfold booted. assert (∀ k l, occurs x (Thread.set_state (Thread.new k kernel_process Low) Ready :: l)
    = (if k =? x then 1 else 0) + occurs x l) as Hc by (intros; rewrite occurs_cons, occurs_id; done).
  destruct first; cbn [fmap list_fmap]; rewrite !Hc; change (occurs x []) with 0;
    repeat case_match; rewrite ?andb_true_iff, ?andb_false_iff, ?Z.ltb_lt, ?Z.ltb_ge, ?Z.eqb_eq, ?Z.eqb_neq in *; lia.
Qed.

Lemma boot_from_spec first n g :
  queue g = mkQueues [] (low (queue g)) [] [] [] →
  let '(g', ls) := boot_from first n g in
  ∃ L, queue g' = mkQueues [] (low (queue g) ++ L) [] [] [] ∧ Forall (λ t, priority t = Low ∧ tstate t = Ready) L ∧
    Z.of_nat (length L) = 2 * Z.of_nat n + (if first then match n with O => 0 | _ => 1 end else 0) ∧
    length ls = n ∧ Forall core_start ls ∧
    scheduler_switch g' = scheduler_switch g ∧ finished g' = finished g ∧ sleeping g' = sleeping g ∧
    tid_counter g ≤ tid_counter g' ∧
    ∀ x, total (λ l, occurs x (of_core l)) ls + occurs x L = if (tid_counter g <=? x) && (x <? tid_counter g') then 1 else 0.
Proof.
  revert first g. induction n as [|n IH]; intros first g Hq; cbn [boot_from].
  { exists []. rewrite app_nil_r. split_and!; try (by apply Forall_nil); try done; [by destruct first |].
    intros x. cbn. repeat case_match; rewrite ?andb_true_iff, ?Z.leb_le, ?Z.ltb_lt in *; lia. }
  pose proof (init_eq first g Hq) as Hi. destruct (Scheduler.init stack_of kernel_process first g) as [c g1].
  destruct Hi as (-> & Hsw & Hfi & Hsl & Hq1 & Hid). specialize (IH false g1). rewrite Hq1 in IH. cbn [low] in IH. specialize (IH eq_refl).
  destruct (boot_from false n g1) as [g2 ls]. destruct IH as (L & HqL & HL & Hlen & Hls & Hcs & Hsw2 & Hfi2 & Hsl2 & Hc2 & Hx).
  exists (booted first (tid_counter g) ++ L). split_and!; try congruence.
  - by rewrite app_assoc.
  - apply Forall_app. split; [| done]. destruct first; repeat (apply Forall_cons; split; [done |]); by apply Forall_nil.
  - rewrite length_app. destruct first; cbn [booted fmap list_fmap length]; lia.
  - cbn. by f_equal.
  - by apply Forall_cons.
  - destruct first; lia.
  - intros x. rewrite sum_cons. unfold of_core at 1. cbn [fst snd held current]. rewrite occurs_id, occurs_app, booted_count.
    specialize (Hx x). cbn [Thread.new_kernel tid]. rewrite Hid in Hx, Hc2.
    assert (0 ≤ (if first then 4 else 3)) by (destruct first; lia).
    destruct (Z.eqb_spec (tid_counter g) x), (Z.ltb_spec (tid_counter g) x), (Z.ltb_spec x (tid_counter g + (if first then 4 else 3))),
      (Z.leb_spec (tid_counter g + (if first then 4 else 3)) x), (Z.leb_spec (tid_counter g) x), (Z.ltb_spec x (tid_counter g2));
      cbn [andb] in *; destruct first; lia.
Qed.

(** A thread that occurs in a list. *)
Lemma occurs_in t l : t ∈ l → 1 ≤ occurs (tid t) l.
Proof. intros [j Hj]%list_elem_of_lookup_1. eapply count_pos; [exact Hj | apply Z.eqb_refl]. Qed.

(** The threads after [init]: the running ones, and those that are ready, which are the service threads. *)
Lemma boot_threads n :
  (0 < n)%nat →
  let '(g, ls) := boot n in
  let L := ready (queue g) in
  queue g = mkQueues [] L [] [] [] ∧ Forall (λ t, priority t = Low ∧ tstate t = Ready) L ∧
  services (started n) L = 2 * Z.of_nat n + 1 ∧ length ls = n ∧
  Forall core_start ls ∧ Forall (λ l, is_service (started n) (current l.1) = false) ls ∧
  scheduler_switch g = true ∧ finished g = [] ∧ sleepers (sleeping g) = ∅ ∧
  (∀ x, places x (g, ls) = if (0 <=? x) && (x <? tid_counter g) then 1 else 0) ∧
  (∀ x, x ∈ started n → 1 ≤ occurs x L).
Proof.
  intros Hn. unfold started, boot. set (g0 := mkGlobals _ _ _ _ _ _). pose proof (boot_from_spec true n g0 eq_refl) as H.
  destruct (boot_from true n g0) as [g ls]. destruct H as (L & Hq & HL & Hlen & Hls & Hcs & Hsw & Hfi & Hsl & _ & Hx).
  cbn [fst g0 queue low] in *. assert (ready (queue g) = L) as Hr by (rewrite Hq; cbn; by rewrite !app_nil_r). cbn zeta. rewrite Hr.
  assert (∀ x, x ∈ tid <$> L → 1 ≤ occurs x L) as Hin by (intros x (t & -> & Ht)%list_elem_of_fmap; by apply occurs_in).
  split_and!; try done.
  - unfold services. rewrite count_all; [rewrite Hlen; destruct n; lia |].
    intros t Ht. apply bool_decide_true. by apply list_elem_of_fmap_2.
  - apply Forall_forall. intros l [i Hi]%list_elem_of_lookup_1. apply bool_decide_false. intros Ht%Hin.
    specialize (Hx (tid (current l.1))).
    pose proof (total_one (λ l0, occurs (tid (current l.1)) (of_core l0)) ls i l (λ l0, occurs_nonneg _ _) Hi) as H1. cbv beta in H1.
    assert (1 ≤ occurs (tid (current l.1)) (of_core l)) as H2 by (apply occurs_in; by left). destruct (_ && _); lia.
  - by rewrite Hsl.
  - intros x. unfold places, shared, asleep. cbn [fst snd]. rewrite Hr, Hfi, Hsl. cbn [g0 finished sleeping].
    unfold in_map. cbn [sleepers SleepQueues.new]. rewrite lookup_empty. change (occurs x []) with 0. rewrite <- Hx. lia.
Qed.

(** The state after [init] satisfies the invariant. *)
Lemma boot_inv n : (0 < n)%nat → inv_with (started n) [] n (boot n).
Proof.
  intros Hn. pose proof (boot_threads n Hn) as H. destruct (boot n) as [g ls].
  destruct H as (Hq & HL & Hsv & Hls & Hcs & Hk & Hsw & Hfi & Hsl & Hp & Hin). rewrite Forall_forall in HL. rewrite Forall_forall in Hcs. rewrite Forall_forall in Hk.
  split; cbn [fst snd]; try done.
  - split.
    + rewrite Hq. intros p t Ht. destruct p; cbn in Ht; try (by apply elem_of_nil in Ht). apply HL. by apply Ht.
    + intros t Ht _. by apply HL.
    + rewrite Hfi. by intros t ?%elem_of_nil.
    + rewrite Hsl. intros id s Hs. by rewrite lookup_empty in Hs.
  - intros i l Hi%list_elem_of_lookup_2. destruct (Hcs l Hi) as (Hrun & He & Hs0 & Hpc).
    split_and!; [done | intros ?; pose proof (Hk l Hi); congruence | by left | by rewrite Hpc].
  - intros x. rewrite Hp. change (occurs x []) with 0. destruct (_ && _); lia.
  - intros x Hge. change (occurs x []) with 0. rewrite Hp, (proj2 (Z.ltb_ge x (tid_counter g))), andb_false_r by done. split; [done |]. intros Ht%Hin.
    specialize (Hp x). rewrite (proj2 (Z.ltb_ge x (tid_counter g))), andb_false_r in Hp by done. unfold places, shared in Hp. cbn [fst snd] in Hp.
    pose proof (sum_nonneg (λ l, occurs x (of_core l)) ls (λ l, occurs_nonneg x _)). pose proof (occurs_nonneg x (finished g)).
    unfold asleep, in_map in Hp. rewrite Hsl, lookup_empty in Hp. lia.
  - unfold service_count. cbn [fst snd]. rewrite Hsv. assert (total (λ l, services (started n) (of_core l)) ls = 0) as ->; [| lia].
    pose proof (sum_nonneg (λ l, services (started n) (of_core l)) ls (λ l, count_nonneg _ _)).
    assert (total (λ l, services (started n) (of_core l)) ls ≤ 0 * Z.of_nat (length ls)); [| lia].
    apply total_bound. intros i l Hi%list_elem_of_lookup_2. destruct (Hcs l Hi) as (_ & _ & _ & Hpc).
    unfold of_core. rewrite Hpc. cbn [held]. rewrite services_none; [lia | by apply Hk].
Qed.

Lemma sched_reachable n cfg :
  (0 < n)%nat → rtc (any_step (world_step cr3_of (started n))) (start n) cfg → sched_inv (started n) n cfg.
Proof.
  intros Hn Hr. assert (sched_inv (started n) n (start n)) as H0.
  { unfold sched_inv, start. cbn [fst snd hands]. rewrite <- surjective_pairing. by apply boot_inv. }
  induction Hr as [|c1 c2 c3 [i H12] _ IH]; [done |]. apply IH. by eapply sched_step.
Qed.

End start.

(** ** Claims *)

(** C7: the scheduler on any number of cores, for all interleavings of their operations on the queues, as long as the
    calls on one queue do not overlap, and with interrupts wherever they are enabled.  Every thread is at one place
    at most: it is the current thread of one core, or is ready, or sleeps, or has finished, or is on its way
    between these, in the hands of a core or of interrupted code; and no thread disappears, except that the
    guard thread drops those that have finished.  Two cores never have the same current thread.  Ready
    threads are in the queue of their priority.  A core that looks for a thread finds one, because [init] starts two idle
    threads for each core and the guard thread, which is more than the cores can hold; so neither assertion of
    [reschedule] fails.  This is what the scheduler records: whose stack a core runs on is another matter, see
    [resumed_before_saved] and [foreign_stack_saved]. *)
Theorem scheduler_safe (cr3_of stack_of : Z → Z) (kernel_process : Z) (n : nat) (cfg : globals * interrupted * list (Core * spc)) :
  let steps := world_step cr3_of (started stack_of kernel_process n) in
  (0 < n)%nat → rtc (any_step steps) (start stack_of kernel_process n) cfg →
  let g := cfg.1.1 in
  (∀ x, everywhere x cfg ≤ 1) ∧
  (∀ i cfg', thread_step steps i cfg cfg' →
    ∀ x, everywhere x cfg ≤ everywhere x cfg' ∨ ∃ t rest, finished g = t :: rest ∧ tid t = x ∧ finished cfg'.1.1 = rest) ∧
  (∀ i j c pc c' pc', i ≠ j → cfg.2 !! i = Some (c, pc) → cfg.2 !! j = Some (c', pc') → tid (current c) ≠ tid (current c')) ∧
  queues_ok (queue g) ∧
  (∀ i c pc, cfg.2 !! i = Some (c, pc) → tstate (current c) = Running ∧
    match pc with
    | Pop _ ps => ∃ p q t, p ∈ ps ∧ RoundRobinQueues.dequeue (queue g) p = (q, Some t)
    | Decide reason cand => ∃ res, Scheduler.take_over cr3_of c g reason cand = Ret res
    | _ => True
    end).
Proof.
  intros steps Hn Hr g. pose proof (sched_reachable cr3_of stack_of kernel_process n cfg Hn Hr) as Hinv. split_and!.
  - apply Hinv.
  - intros i cfg' Hs. by apply (sched_step cr3_of (started stack_of kernel_process n) n i).
  - intros i j c pc c' pc' Hij Hi Hj E. pose proof (inv_once _ _ _ Hinv (tid (current c))) as H1. unfold places in H1. cbn [fst snd] in H1.
    pose proof (total_two (λ l, occurs (tid (current c)) (of_core l)) cfg.2 i j _ _ (λ l, occurs_nonneg _ _) Hij Hi Hj) as H2.
    cbv beta in H2. assert (1 ≤ occurs (tid (current c)) (of_core (c, pc))) by (apply occurs_in; by left).
    assert (1 ≤ occurs (tid (current c)) (of_core (c', pc'))) by (rewrite E; apply occurs_in; by left).
    pose proof (shared_nonneg (tid (current c)) cfg.1.1). pose proof (occurs_nonneg (tid (current c)) (hands cfg.1.2)). lia.
  - apply Hinv.
  - intros i c pc Hi. pose proof (inv_core _ _ _ Hinv i _ Hi) as (Hrun & _ & _ & Hpc). split; [done |].
    destruct pc; try done; cbn [pc_ok snd] in Hpc.
    + pose proof (low_ready _ _ _ _ _ Hinv) as Hlow. fold g in Hlow.
      destruct (low (queue g)) as [|t rest] eqn:El; [done |]. exists Low, (RoundRobinQueues.set Low rest (queue g)), t.
      split; [| unfold RoundRobinQueues.dequeue; cbn; by rewrite El].
      destruct Hpc as [-> |[-> |[-> | ->]]]; unfold pop_order; set_solver.
    + destruct Hpc as [Hst _]. rewrite take_over_eq by done. eauto.
Qed.

Local Abbreviation demo_start := (start (λ id, 0x1000 * (id + 1)) 1 2).
Local Abbreviation demo_started := (started (λ id, 0x1000 * (id + 1)) 1 2).
Local Abbreviation demo_run := (run_cores (λ p, p) demo_started).

(** The thread of core 0 goes to sleep and is interrupted by the timer before the switch. *)
Definition demo_schedule : list (nat * label) :=
  [(0%nat, LSleep (Event 1)); (0%nat, LYield)] ++ replicate 7 (0%nat, LNext) ++
  [(0%nat, LInterrupt); (0%nat, LTick 6)] ++ replicate 9 (0%nat, LNext).

Lemma scheduler_safe_witness :
  ∃ cfg, demo_run demo_schedule demo_start = Some cfg ∧ (∀ x, everywhere x cfg ≤ 1) ∧ queues_ok (queue cfg.1.1).
Proof.
  destruct (demo_run demo_schedule demo_start) as [cfg|] eqn:E; [| vm_compute in E; discriminate].
  exists cfg. split; [reflexivity |]. apply run_cores_sound in E.
  destruct (scheduler_safe (λ p, p) (λ id, 0x1000 * (id + 1)) 1 2 cfg ltac:(lia) E) as (H1 & _ & _ & H2 & _). split; [exact H1 | exact H2].
Defined.

(** A thread can be resumed before its stack pointer has been saved.  Core 0 puts its thread 0 to sleep and
    is about to switch to another one, which will save the stack pointer; it still runs on the stack of
    thread 0.  But thread 0 is in the queue already: core 1 wakes it and takes it, with the stack pointer
    that was saved last, here none. *)
Lemma resumed_before_saved :
  ∃ cfg c0 c1 cs0 cs1, rtc (any_step (world_step (λ p, p) demo_started)) demo_start cfg ∧
    cfg.2 = [(c0, Switch cs0); (c1, Switch cs1)] ∧
    old_stack cs0 = StackOf 0 ∧ tid (current c1) = 0 ∧ new_stack cs1 = 0 ∧ stacks cfg.1.1 !! 0 = None.
Proof.
  assert (match demo_run
      ([(0%nat, LSleep (Event 1)); (0%nat, LYield)] ++ replicate 7 (0%nat, LNext) ++
       [(1%nat, LEvent 1); (1%nat, LNext); (1%nat, LNext); (1%nat, LYield)] ++ replicate 5 (1%nat, LNext)) demo_start with
    | Some (g, _, [(c0, Switch cs0); (c1, Switch cs1)]) =>
        old_stack cs0 = StackOf 0 ∧ tid (current c1) = 0 ∧ new_stack cs1 = 0 ∧ stacks g !! 0 = None
    | _ => False end) as Hrun by (vm_compute; repeat split).
  destruct (demo_run _ _) as [[[g w] ls]|] eqn:E; [| destruct Hrun]. apply run_cores_sound in E.
  destruct ls as [|[c0 []] [|[c1 []] []]]; try (destruct Hrun; fail). exists (g, w, [(c0, Switch cs); (c1, Switch cs0)]), c0, c1, cs, cs0.
  split; [exact E |]. split; [reflexivity | exact Hrun].
Qed.

(** A timer interrupt between [reschedule] and the context switch of a thread that yields: the scheduler has already
    recorded that core 0 runs thread 1, and switches from it to thread 2.  It saves the stack pointer of the core, which
    is still on the stack of thread 0, as that of thread 1: thread 1 will be resumed on the stack of thread 0. *)
Lemma foreign_stack_saved :
  match demo_start.2, demo_run demo_schedule demo_start with
  | (c0, _) :: _, Some (g, _, [(c, Run); _]) =>
      tid (current c0) = 0 ∧ stacks demo_start.1.1 !! 1 = Some 0x2000 ∧
      tid (current c) = 2 ∧ stacks g !! 1 = Some (rsp c0) ∧ rsp c0 ≠ 0x2000
  | _, _ => False
  end.
Proof. vm_compute. repeat split; discriminate. Qed.

(** An event that occurs after a thread has decided to wait for it and before it sleeps is lost: thread 0
    sleeps although the event has been signalled since. *)
Lemma event_lost :
  match demo_run ([(0%nat, LSleep (Event 1)); (1%nat, LEvent 1); (0%nat, LYield)] ++ replicate 8 (0%nat, LNext)) demo_start with
  | Some (g, _, [(c0, Run); (c1, Run)]) => sreason <$> sleepers (sleeping g) !! 0 = Some (Event 1) ∧ tid (current c0) ≠ 0
  | _ => False
  end.
Proof. vm_compute. split; [reflexivity | discriminate]. Qed.
