(* ===== verification/Keyboard.v ===== *)
(** * Keys and key events

    [beskar-core/src/drivers/keyboard.rs]: the keys of a keyboard, events that say that a key was pressed or
    released and their form as a machine word, and the modifier keys. *)

From S2P Require Import Prelude.

(** ** Keys *)

(** The key [Z] hides the type of the integers in the module. *)
Local Abbreviation u8 := Z.
Local Abbreviation char := Z.

Module KeyCode.

Inductive t :=
| A | B | C | D | E | F | G | H | I | J | K | L | M | N | O | P | Q | R | S | T | U | V | W | X | Y | Z
| Num0 | Num1 | Num2 | Num3 | Num4 | Num5 | Num6 | Num7 | Num8 | Num9
| Enter | Escape | Backspace | Tab | Space | ShiftLeft | ShiftRight | CtrlLeft | CtrlRight | AltLeft
| AltRight | CapsLock
| Insert | Delete | Home | End | PageUp | PageDown | ArrowUp | ArrowDown | ArrowLeft | ArrowRight
| F1 | F2 | F3 | F4 | F5 | F6 | F7 | F8 | F9 | F10 | F11 | F12
| NumLock | Numpad0 | Numpad1 | Numpad2 | Numpad3 | Numpad4 | Numpad5 | Numpad6 | Numpad7 | Numpad8
| Numpad9 | NumpadAdd | NumpadSub | NumpadMul | NumpadDiv | NumpadEnter | NumpadDot
| Minus | Equal | LeftBracket | RightBracket | Backslash | Semicolon | Apostrophe | Tilde | Comma | Dot
| Slash
| PrintScreen | ScrollLock | PauseBreak | Menu | WindowsLeft | WindowsRight.

(** The values of the enumeration, in order: the discriminants are the positions. *)
Definition all : list t :=
  [A; B; C; D; E; F; G; H; I; J; K; L; M; N; O; P; Q; R; S; T; U; V; W; X; Y; Z; Num0; Num1; Num2; Num3;
   Num4; Num5; Num6; Num7; Num8; Num9; Enter; Escape; Backspace; Tab; Space; ShiftLeft; ShiftRight;
   CtrlLeft; CtrlRight; AltLeft; AltRight; CapsLock; Insert; Delete; Home; End; PageUp; PageDown; ArrowUp;
   ArrowDown; ArrowLeft; ArrowRight; F1; F2; F3; F4; F5; F6; F7; F8; F9; F10; F11; F12; NumLock; Numpad0;
   Numpad1; Numpad2; Numpad3; Numpad4; Numpad5; Numpad6; Numpad7; Numpad8; Numpad9; NumpadAdd; NumpadSub;
   NumpadMul; NumpadDiv; NumpadEnter; NumpadDot; Minus; Equal; LeftBracket; RightBracket; Backslash;
   Semicolon; Apostrophe; Tilde; Comma; Dot; Slash; PrintScreen; ScrollLock; PauseBreak; Menu; WindowsLeft;
   WindowsRight].

Global Instance keycode_eq : EqDecision t.
Proof. solve_decision. Defined.

Definition to_u8 (k : t) : u8 :=
  match k with
  | A => 0 | B => 1 | C => 2 | D => 3 | E => 4 | F => 5 | G => 6 | H => 7 | I => 8 | J => 9 | K => 10
  | L => 11 | M => 12 | N => 13 | O => 14 | P => 15 | Q => 16 | R => 17 | S => 18 | T => 19 | U => 20
  | V => 21 | W => 22 | X => 23 | Y => 24 | Z => 25 | Num0 => 26 | Num1 => 27 | Num2 => 28 | Num3 => 29
  | Num4 => 30 | Num5 => 31 | Num6 => 32 | Num7 => 33 | Num8 => 34 | Num9 => 35 | Enter => 36
  | Escape => 37 | Backspace => 38 | Tab => 39 | Space => 40 | ShiftLeft => 41 | ShiftRight => 42
  | CtrlLeft => 43 | CtrlRight => 44 | AltLeft => 45 | AltRight => 46 | CapsLock => 47 | Insert => 48
  | Delete => 49 | Home => 50 | End => 51 | PageUp => 52 | PageDown => 53 | ArrowUp => 54 | ArrowDown => 55
  | ArrowLeft => 56 | ArrowRight => 57 | F1 => 58 | F2 => 59 | F3 => 60 | F4 => 61 | F5 => 62 | F6 => 63
  | F7 => 64 | F8 => 65 | F9 => 66 | F10 => 67 | F11 => 68 | F12 => 69 | NumLock => 70 | Numpad0 => 71
  | Numpad1 => 72 | Numpad2 => 73 | Numpad3 => 74 | Numpad4 => 75 | Numpad5 => 76 | Numpad6 => 77
  | Numpad7 => 78 | Numpad8 => 79 | Numpad9 => 80 | NumpadAdd => 81 | NumpadSub => 82 | NumpadMul => 83
  | NumpadDiv => 84 | NumpadEnter => 85 | NumpadDot => 86 | Minus => 87 | Equal => 88 | LeftBracket => 89
  | RightBracket => 90 | Backslash => 91 | Semicolon => 92 | Apostrophe => 93 | Tilde => 94 | Comma => 95
  | Dot => 96 | Slash => 97 | PrintScreen => 98 | ScrollLock => 99 | PauseBreak => 100 | Menu => 101
  | WindowsLeft => 102 | WindowsRight => 103
  end.

Definition try_from (x : u8) : option t :=
  if (0 <=? x) && (x <? Z.of_nat (length all)) then all !! Z.to_nat x else None.

Definition is_numpad (self : t) : bool :=
  match self with
  | Numpad0 | Numpad1 | Numpad2 | Numpad3 | Numpad4 | Numpad5 | Numpad6 | Numpad7 | Numpad8 | Numpad9
  | NumpadAdd | NumpadSub | NumpadMul | NumpadDiv | NumpadEnter | NumpadDot => true
  | _ => false
  end.

(** The character of a key without modifiers, as its code *)
Definition raw_char (self : t) : char :=
  match self with
  | A => 97 | B => 98 | C => 99 | D => 100 | E => 101 | F => 102 | G => 103 | H => 104 | I => 105
  | J => 106 | K => 107 | L => 108 | M => 109 | N => 110 | O => 111 | P => 112 | Q => 113 | R => 114
  | S => 115 | T => 116 | U => 117 | V => 118 | W => 119 | X => 120 | Y => 121 | Z => 122 | Space => 32
  | Numpad0 => 48 | Numpad1 => 49 | Numpad2 => 50 | Numpad3 => 51 | Numpad4 => 52 | Numpad5 => 53
  | Numpad6 => 54 | Numpad7 => 55 | Numpad8 => 56 | Numpad9 => 57
  | _ => 0
  end.

End KeyCode.

(** ** Events *)

Inductive KeyState := Pressed | Released.

Module KeyState.

Definition to_u8 (s : KeyState) : Z := match s with Pressed => 0 | Released => 1 end.
Definition try_from (x : Z) : option KeyState := match x with 0 => Some Pressed | 1 => Some Released | _ => None end.

End KeyState.

Global Instance key_state_eq : EqDecision KeyState.
Proof. solve_decision. Defined.

Record KeyEvent := mkKeyEvent { key : KeyCode.t; pressed : KeyState }.

Global Instance key_event_eq : EqDecision KeyEvent.
Proof. solve_decision. Defined.

Module KeyEvent.

Definition NONE : Z := 0xFFFF.

Definition pack_option (key_event : option KeyEvent) : Z :=
  match key_event with
  | None => NONE
  | Some event => Z.lor (KeyCode.to_u8 (key event)) (shl_w 64 (KeyState.to_u8 (pressed event)) 8)
  end.

(** The two masked values fit in a byte. *)
Definition unpack_option (value : Z) : option KeyEvent :=
  key ← KeyCode.try_from (Z.land value 0xFF);
  pressed ← KeyState.try_from (Z.land (Z.shiftr value 8) 0xFF);
  Some (mkKeyEvent key pressed).

End KeyEvent.

(** ** Modifiers *)

(** The byte of flags *)
Definition KeyModifiers : Type := Z.

Module KeyModifiers.

Definition SHIFT : Z := 0x01.
Definition CTRL : Z := 0x02.
Definition ALT : Z := 0x04.
Definition CAPS_LOCK : Z := 0x08.
Definition NUM_LOCK : Z := 0x10.

Definition new : KeyModifiers := 0.

Definition is_shifted (self : KeyModifiers) : bool := negb (Z.land self SHIFT =? 0).
Definition is_ctrled (self : KeyModifiers) : bool := negb (Z.land self CTRL =? 0).
Definition is_alted (self : KeyModifiers) : bool := negb (Z.land self ALT =? 0).
Definition is_caps_locked (self : KeyModifiers) : bool := negb (Z.land self CAPS_LOCK =? 0).
Definition is_num_locked (self : KeyModifiers) : bool := negb (Z.land self NUM_LOCK =? 0).
Definition is_uppercase (self : KeyModifiers) : bool := xorb (is_shifted self) (is_caps_locked self).

(** The body the five setters share *)
Definition set (flag : Z) (on : bool) (self : KeyModifiers) : KeyModifiers :=
  if on then Z.lor self flag else Z.land self (not_w 8 flag).
Definition set_shifted (self : KeyModifiers) (shifted : bool) : KeyModifiers := set SHIFT shifted self.
Definition set_ctrled (self : KeyModifiers) (ctrled : bool) : KeyModifiers := set CTRL ctrled self.
Definition set_alted (self : KeyModifiers) (alted : bool) : KeyModifiers := set ALT alted self.
Definition set_caps_locked (self : KeyModifiers) (caps_locked : bool) : KeyModifiers := set CAPS_LOCK caps_locked self.
Definition set_num_locked (self : KeyModifiers) (num_locked : bool) : KeyModifiers := set NUM_LOCK num_locked self.

End KeyModifiers.

Definition is_ascii_alphabetic (c : Z) : bool :=
  ((0x41 <=? c) && (c <=? 0x5A)) || ((0x61 <=? c) && (c <=? 0x7A)).
Definition to_ascii_uppercase (c : Z) : Z := if (0x61 <=? c) && (c <=? 0x7A) then c - 0x20 else c.

(** The character of a key, as its code *)
Definition as_char (self : KeyCode.t) (modifiers : KeyModifiers) : Z :=
  let raw := KeyCode.raw_char self in
  if is_ascii_alphabetic raw && KeyModifiers.is_uppercase modifiers then to_ascii_uppercase raw else raw.

(** ** Lemmas *)

Lemma try_from_to_u8 k : KeyCode.try_from (KeyCode.to_u8 k) = Some k.
Proof. by destruct k. Qed.

Lemma keycode_byte k : 0 ≤ KeyCode.to_u8 k < 2 ^ 8.
Proof. destruct k; cbn; lia. Qed.

(** The byte of an event's key and the byte of its state do not overlap. *)
Lemma pack_sum e : KeyEvent.pack_option (Some e) = KeyCode.to_u8 (key e) + KeyState.to_u8 (pressed e) * 2 ^ 8.
Proof. destruct e as [k p]. by destruct k, p. Qed.

Lemma pack_bound o : 0 ≤ KeyEvent.pack_option o < 2 ^ 16.
Proof.
  destruct o as [e|]; [|by cbn]. rewrite pack_sum. pose proof (keycode_byte (key e)).
  destruct (pressed e); cbn [KeyState.to_u8]; lia.
Qed.

Lemma unpack_pack o : KeyEvent.unpack_option (KeyEvent.pack_option o) = o.
Proof. destruct o as [[k p]|]; [|done]. by destruct k, p. Qed.

(** A flag of a byte that has one bit is set by its setter and by no other one. *)
Lemma testbit_set n on m i :
  0 ≤ n < 8 → 0 ≤ i < 8 → Z.testbit (KeyModifiers.set (2 ^ n) on m) i = if i =? n then on else Z.testbit m i.
Proof.
  intros Hn Hi. unfold KeyModifiers.set, not_w. destruct on.
  - rewrite Z.lor_spec, Z.pow2_bits_eqb by lia. rewrite (Z.eqb_sym n i).
    by destruct (i =? n); rewrite ?orb_true_r, ?orb_false_r.
  - rewrite Z.land_spec, Z.lxor_spec, Z.pow2_bits_eqb by lia.
    replace (2 ^ 8 - 1) with (Z.ones 8) by done. rewrite Z.ones_spec_low by lia.
    rewrite (Z.eqb_sym n i). by destruct (i =? n); rewrite ?andb_false_r, ?andb_true_r.
Qed.

Lemma flag_testbit m n : 0 ≤ n → negb (Z.land m (2 ^ n) =? 0) = Z.testbit m n.
Proof.
  intros Hn. destruct (Z.eqb_spec (Z.land m (2 ^ n)) 0) as [E|E]; cbn.
  - pose proof (f_equal (λ x, Z.testbit x n) E) as Eb. cbn in Eb.
    by rewrite Z.land_spec, Z.pow2_bits_true, andb_true_r, Z.bits_0 in Eb.
  - destruct (Z.testbit m n) eqn:Eb; [done|]. destruct E. apply Z.bits_inj'. intros i Hi.
    rewrite Z.land_spec, Z.pow2_bits_eqb, Z.bits_0 by done.
    destruct (Z.eqb_spec n i) as [<-|]; [by rewrite Eb | by rewrite andb_false_r].
Qed.

Ltac modifiers := cbv [KeyModifiers.is_shifted KeyModifiers.is_ctrled KeyModifiers.is_alted KeyModifiers.is_caps_locked
    KeyModifiers.is_num_locked KeyModifiers.set_shifted KeyModifiers.set_ctrled KeyModifiers.set_alted
    KeyModifiers.set_caps_locked KeyModifiers.set_num_locked KeyModifiers.SHIFT KeyModifiers.CTRL KeyModifiers.ALT
    KeyModifiers.CAPS_LOCK KeyModifiers.NUM_LOCK];
  change 0x01 with (2 ^ 0); change 0x02 with (2 ^ 1); change 0x04 with (2 ^ 2); change 0x08 with (2 ^ 3);
  change 0x10 with (2 ^ 4); rewrite !flag_testbit, ?testbit_set by lia.

(** The five flags, and what each setter does to them *)
Definition flags (m : KeyModifiers) : bool * bool * bool * bool * bool :=
  (KeyModifiers.is_shifted m, KeyModifiers.is_ctrled m, KeyModifiers.is_alted m, KeyModifiers.is_caps_locked m,
   KeyModifiers.is_num_locked m).

Lemma modifiers_set m s c a l n b :
  flags m = (s, c, a, l, n) →
  flags (KeyModifiers.set_shifted m b) = (b, c, a, l, n) ∧ flags (KeyModifiers.set_ctrled m b) = (s, b, a, l, n) ∧
  flags (KeyModifiers.set_alted m b) = (s, c, b, l, n) ∧ flags (KeyModifiers.set_caps_locked m b) = (s, c, a, b, n) ∧
  flags (KeyModifiers.set_num_locked m b) = (s, c, a, l, b).
Proof. intros E. unfold flags in *. revert E. modifiers. by intros [= -> -> -> -> ->]. Qed.

(** The letters are upper case exactly when one of shift and caps lock is on; other keys do not depend on them. *)
Lemma as_char_spec k m :
  as_char k m =
    if (0x61 <=? KeyCode.raw_char k) && xorb (KeyModifiers.is_shifted m) (KeyModifiers.is_caps_locked m)
    then KeyCode.raw_char k - 0x20 else KeyCode.raw_char k.
Proof. unfold as_char, KeyModifiers.is_uppercase. by destruct k, (xorb _ _). Qed.
