(* ===== verification/UserIo.v ===== *)
(** * Input and output of programs

    [beskar-lib/src/io.rs], [beskar-lib/src/io/traits.rs] and [beskar-lib/src/io/file.rs]: the traits [Read], [Write] and
    [Seek], files on top of the system calls, buffered readers and writers, and cursors over bytes.  [ByteSource] and
    [ByteSink] say what readers and writers promise; the buffered ones keep the promise of the ones they wrap. *)

From S2P Require Import Prelude NetUtils.

Inductive IoErrorKind := NotFound | PermissionDenied | InvalidData | UnexpectedEof | Other.

(** ** The traits *)

(** The state [R] of a reader includes what it reads from. *)
Class Read (R : Type) := { io_read : R → list Z → out (R * list Z * result Z IoErrorKind) }.
Class Write (W : Type) := {
  io_write : W → list Z → out (W * result Z IoErrorKind);
  io_flush : W → out (W * result unit IoErrorKind);
}.

Inductive SeekFrom := Start (n : Z) | Current (n : Z) | End_ (n : Z).

(** The loops end: each round takes at least one byte off the buffer. *)
Fixpoint read_exact_loop {R} `{Read R} (fuel : nat) (self : R) (buf : list Z) : out (R * list Z * result unit IoErrorKind) :=
  match fuel with
  | O => Ret (self, buf, Err UnexpectedEof)
  | S fuel =>
      if len buf =? 0 then Ret (self, buf, Ok tt)
      else
        '(self, buf, res) ← io_read self buf;
        match res with
        | Ok n =>
            if n =? 0 then Ret (self, buf, Err UnexpectedEof)
            else
              rest ← slice_from buf n;
              '(self, rest, res) ← read_exact_loop fuel self rest;
              Ret (self, sub_list buf 0 n ++ rest, res)
        | Err e => Ret (self, buf, Err e)
        end
  end.
Definition read_exact {R} `{Read R} (self : R) (buf : list Z) : out (R * list Z * result unit IoErrorKind) :=
  read_exact_loop (S (length buf)) self buf.

Fixpoint write_all_loop {W} `{Write W} (fuel : nat) (self : W) (buf : list Z) : out (W * result unit IoErrorKind) :=
  match fuel with
  | O => Ret (self, Err Other)
  | S fuel =>
      if len buf =? 0 then Ret (self, Ok tt)
      else
        '(self, res) ← io_write self buf;
        match res with
        | Ok n =>
            if n =? 0 then Ret (self, Err Other)
            else rest ← slice_from buf n; write_all_loop fuel self rest
        | Err e => Ret (self, Err e)
        end
  end.
Definition write_all {W} `{Write W} (self : W) (buf : list Z) : out (W * result unit IoErrorKind) :=
  write_all_loop (S (length buf)) self buf.

(** ** Files *)

(** A file has its position; the system calls act on the state [K] of the kernel and give a signed word. *)
Record File := mkFile { position : Z }.

Section file.
Context {K : Type} (sc_read : list Z → Z → K → out (K * (list Z * Z))) (sc_write : list Z → Z → K → out (K * Z)).

Definition File_read (self : File) (buf : list Z) (k : K) : out (K * File * list Z * result Z IoErrorKind) :=
  '(k, (buf, n)) ← sc_read buf (position self) k;
  if n <? 0 then Ret (k, self, buf, Err Other)
  else position ← add_w 64 (position self) n; Ret (k, mkFile position, buf, Ok n).

Definition File_write (self : File) (buf : list Z) (k : K) : out (K * File * result Z IoErrorKind) :=
  '(k, n) ← sc_write buf (position self) k;
  if n <? 0 then Ret (k, self, Err Other)
  else position ← add_w 64 (position self) n; Ret (k, mkFile position, Ok n).

(** [-n] of a signed word overflows for the least one. *)
Definition neg_i64 (n : Z) : out Z := if n =? - 2 ^ 63 then Panic else Ret (- n).

Definition File_seek (self : File) (pos : SeekFrom) : out (File * result Z IoErrorKind) :=
  match pos with
  | Start n => Ret (mkFile n, Ok n)
  | Current n =>
      o ← (if 0 <=? n then Ret (checked_add 64 (position self) n)
           else m ← neg_i64 n; Ret (if position self <? m then None else Some (position self - m)));
      match o with
      | Some new_pos => Ret (mkFile new_pos, Ok new_pos)
      | None => Ret (self, Err InvalidData)
      end
  | End_ _ => Ret (self, Err Other)
  end.

Definition file_reader : Read (File * K) := {|
  io_read '(self, k) buf := '(k, self, buf, res) ← File_read self buf k; Ret ((self, k), buf, res);
|}.
Definition file_writer : Write (File * K) := {|
  io_write '(self, k) buf := '(k, self, res) ← File_write self buf k; Ret ((self, k), res);
  io_flush s := Ret (s, Ok tt);
|}.

End file.

(** ** Buffered readers *)

Record BufReader {R : Type} := mkBufReader { br_inner : R; br_buf : list Z; br_pos : Z; br_cap : Z }.
Arguments BufReader R : clear implicits.
Arguments mkBufReader {R} _ _ _ _.

Module BufReader.
Section ops.
Context {R : Type} `{Read R}.
Implicit Types (self : BufReader R).

Definition with_capacity (capacity : Z) (inner : R) : BufReader R := mkBufReader inner (replicate (Z.to_nat capacity) 0) 0 0.
Definition new (inner : R) : BufReader R := with_capacity (8 * 1024) inner.

(** The code that [read] and [fill_buf] share: a new buffer once the old one is used up *)
Definition refill self : out (BufReader R * result unit IoErrorKind) :=
  if br_cap self <=? br_pos self then
    '(inner, buf, res) ← io_read (br_inner self) (br_buf self);
    match res with
    | Ok cap => Ret (mkBufReader inner buf 0 cap, Ok tt)
    | Err e => Ret (mkBufReader inner buf (br_pos self) (br_cap self), Err e)
    end
  else Ret (self, Ok tt).

Definition read self (buf : list Z) : out (BufReader R * list Z * result Z IoErrorKind) :=
  '(self, res) ← refill self;
  match res with
  | Err e => Ret (self, buf, Err e)
  | Ok _ =>
      left ← sub_w (br_cap self) (br_pos self);
      let amt := Z.min (len buf) left in
      src ← slice (br_buf self) (br_pos self) (br_pos self + amt);
      buf ← copy_from_slice buf 0 amt src;
      Ret (mkBufReader (br_inner self) (br_buf self) (br_pos self + amt) (br_cap self), buf, Ok amt)
  end.

Definition fill_buf self : out (BufReader R * result (list Z) IoErrorKind) :=
  '(self, res) ← refill self;
  match res with
  | Err e => Ret (self, Err e)
  | Ok _ => l ← slice (br_buf self) (br_pos self) (br_cap self); Ret (self, Ok l)
  end.

Definition consume self (amt : Z) : out (BufReader R) :=
  pos ← add_w 64 (br_pos self) amt;
  Ret (mkBufReader (br_inner self) (br_buf self) (Z.min (br_cap self) pos) (br_cap self)).

End ops.
End BufReader.

Global Instance buf_reader {R} `{Read R} : Read (BufReader R) := {| io_read := BufReader.read |}.

(** ** Buffered writers *)

Record BufWriter {W : Type} := mkBufWriter { bw_inner : W; bw_buf : list Z; bw_pos : Z }.
Arguments BufWriter W : clear implicits.
Arguments mkBufWriter {W} _ _ _.

Module BufWriter.
Section ops.
Context {W : Type} `{Write W}.
Implicit Types (self : BufWriter W).

Definition with_capacity (capacity : Z) (inner : W) : BufWriter W := mkBufWriter inner (replicate (Z.to_nat capacity) 0) 0.
Definition new (inner : W) : BufWriter W := with_capacity (8 * 1024) inner.

Definition flush self : out (BufWriter W * result unit IoErrorKind) :=
  '(self, res) ←
    (if 0 <? bw_pos self then
       l ← slice (bw_buf self) 0 (bw_pos self);
       '(inner, res) ← write_all (bw_inner self) l;
       match res with
       | Ok _ => Ret (mkBufWriter inner (bw_buf self) 0, Ok tt)
       | Err e => Ret (mkBufWriter inner (bw_buf self) (bw_pos self), Err e)
       end
     else Ret (self, Ok tt));
  match res with
  | Err e => Ret (self, Err e)
  | Ok _ => '(inner, res) ← io_flush (bw_inner self); Ret (mkBufWriter inner (bw_buf self) (bw_pos self), res)
  end.

(** The copy into the buffer *)
Definition store self (buf : list Z) : out (BufWriter W * result Z IoErrorKind) :=
  left ← sub_w (len (bw_buf self)) (bw_pos self);
  let amt := Z.min (len buf) left in
  src ← slice buf 0 amt;
  b ← copy_from_slice (bw_buf self) (bw_pos self) (bw_pos self + amt) src;
  Ret (mkBufWriter (bw_inner self) b (bw_pos self + amt), Ok amt).

Definition write self (buf : list Z) : out (BufWriter W * result Z IoErrorKind) :=
  if len (bw_buf self) <? bw_pos self + len buf then
    '(self, res) ← flush self;
    match res with
    | Err e => Ret (self, Err e)
    | Ok _ =>
        if len (bw_buf self) <=? len buf then
          '(inner, res) ← io_write (bw_inner self) buf; Ret (mkBufWriter inner (bw_buf self) (bw_pos self), res)
        else store self buf
    end
  else store self buf.

Definition into_inner self : out (result W IoErrorKind) :=
  '(self, res) ← flush self;
  Ret (match res with Ok _ => Ok (bw_inner self) | Err e => Err e end).

End ops.
End BufWriter.

Global Instance buf_writer {W} `{Write W} : Write (BufWriter W) := {| io_write := BufWriter.write; io_flush := BufWriter.flush |}.

(** ** Cursors *)

Record Cursor := mkCursor { cur_inner : list Z; cur_pos : Z }.

Module Cursor.

Definition new (inner : list Z) : Cursor := mkCursor inner 0.

Definition read (self : Cursor) (buf : list Z) : out (Cursor * list Z * result Z IoErrorKind) :=
  let data := cur_inner self in
  let pos := cur_pos self in
  if len data <=? pos then Ret (self, buf, Ok 0)
  else
    let amt := Z.min (len buf) (len data - pos) in
    src ← slice data pos (pos + amt);
    buf ← copy_from_slice buf 0 amt src;
    p ← add_w 64 (cur_pos self) amt;
    Ret (mkCursor data p, buf, Ok amt).

(** A move by a signed amount *)
Definition shift (base n : Z) : out Z :=
  if 0 <=? n then Ret (saturating_add 64 base n) else m ← neg_i64 n; Ret (saturating_sub base m).

Definition seek (self : Cursor) (style : SeekFrom) : out (Cursor * result Z IoErrorKind) :=
  let data_len := len (cur_inner self) in
  p ← match style with Start n => Ret n | Current n => shift (cur_pos self) n | End_ n => shift data_len n end;
  Ret (mkCursor (cur_inner self) p, Ok p).

End Cursor.

Global Instance cursor_reader : Read Cursor := {| io_read := Cursor.read |}.

(** ** What readers and writers promise *)

(** The bytes that a reader will give *)
Class ByteSource (R : Type) `{Read R} := {
  src_rel : R → list Z → Prop;
  src_law r data buf :
    src_rel r data →
    ∃ r' n, io_read r buf = Ret (r', put buf 0 (sub_list data 0 n), Ok n) ∧
      0 ≤ n ≤ len buf ∧ n ≤ len data ∧ (n = 0 → buf = [] ∨ data = []) ∧ src_rel r' (drop (Z.to_nat n) data);
}.

(** The bytes that a writer has taken *)
Class ByteSink (W : Type) `{Write W} := {
  snk_rel : W → list Z → Prop;
  snk_write w data buf :
    snk_rel w data →
    ∃ w' n, io_write w buf = Ret (w', Ok n) ∧ 0 ≤ n ≤ len buf ∧ (n = 0 → buf = []) ∧ snk_rel w' (data ++ sub_list buf 0 n);
  snk_flush w data : snk_rel w data → ∃ w', io_flush w = Ret (w', Ok tt) ∧ snk_rel w' data;
}.

(** ** Lists *)

Lemma len_0 {A} (l : list A) : len l = 0 → l = [].
Proof. destruct l; [done | unfold len; cbn; lia]. Qed.

Lemma put_0 buf v : put buf 0 v = v ++ drop (length v) buf.
Proof. unfold put. cbn [take]. by rewrite Z.add_0_l, app_nil_l; unfold len; rewrite Nat2Z.id. Qed.

Lemma sub_0 l n : sub_list l 0 n = take (Z.to_nat n) l.
Proof. unfold sub_list. by rewrite Z.sub_0_r, drop_0. Qed.

Lemma length_sub_0 l n : 0 ≤ n ≤ len l → length (sub_list l 0 n) = Z.to_nat n.
Proof. intros. rewrite sub_0, length_take. unfold len in *. lia. Qed.

Lemma sub_drop l n : 0 ≤ n ≤ len l → sub_list l n (len l) = drop (Z.to_nat n) l.
Proof. intros. unfold sub_list, len in *. apply take_ge. rewrite length_drop. lia. Qed.

Lemma drop_sub l lo hi k : 0 ≤ lo → 0 ≤ k → drop (Z.to_nat k) (sub_list l lo hi) = sub_list l (lo + k) hi.
Proof.
  intros. unfold sub_list. rewrite skipn_firstn_comm, drop_drop. f_equal; [lia|]. f_equal. lia.
Qed.

(** ** The loops *)

Section exact.
Context {R : Type} `{ByteSource R}.

Lemma read_exact_ok fuel r data buf :
  src_rel r data → (length buf < fuel)%nat →
  if len buf <=? len data
  then ∃ r', read_exact_loop fuel r buf = Ret (r', sub_list data 0 (len buf), Ok tt) ∧ src_rel r' (drop (length buf) data)
  else ∃ r', read_exact_loop fuel r buf = Ret (r', put buf 0 data, Err UnexpectedEof) ∧ src_rel r' [].
Proof.
  revert r data buf. induction fuel as [|fuel IH]; intros r data buf Hr Hf; [lia|]. cbn [read_exact_loop].
  destruct (Z.eqb_spec (len buf) 0) as [E|E].
  { pose proof (len_nonneg data). rewrite (proj2 (Z.leb_le _ _)) by lia. apply len_0 in E as ->.
    exists r. by rewrite drop_0. }
  destruct (src_law r data buf Hr) as (r' & n & -> & Hn & Hnd & Hz & Hr'). cbn [mbind out_bind].
  destruct (Z.eqb_spec n 0) as [->|Hn0].
  { destruct (Hz eq_refl) as [-> | ->]; [done|]. pose proof (len_nonneg buf).
    rewrite (proj2 (Z.leb_gt (len buf) (len []))) by (change (len (@nil Z)) with 0; lia). by exists r'. }
  assert (len (sub_list data 0 n) = n) as Hls by (unfold len; rewrite length_sub_0 by lia; lia).
  assert (len (put buf 0 (sub_list data 0 n)) = len buf) as Hlp by (apply len_put; lia).
  unfold slice_from. rewrite slice_ok by lia. cbn [mbind out_bind]. rewrite sub_drop by lia.
  rewrite put_0, length_sub_0 by lia. rewrite drop_app_length' by (by rewrite length_sub_0 by lia).
  set (rest := drop (Z.to_nat n) buf). assert (length rest = length buf - Z.to_nat n)%nat as Hlr by apply length_drop.
  assert (0 < Z.to_nat n ≤ length buf)%nat by (unfold len in *; lia).
  specialize (IH r' (drop (Z.to_nat n) data) rest Hr' ltac:(lia)).
  assert (len (drop (Z.to_nat n) data) = len data - n) as Hld by (unfold len in *; rewrite length_drop; lia).
  rewrite Hld in IH. assert (len rest = len buf - n) as Hre by (unfold len in *; lia).
  rewrite (sub_0 (_ ++ _)), take_app_length' by (by rewrite length_sub_0 by lia).
  destruct (Z.leb_spec (len rest) (len data - n)), (Z.leb_spec (len buf) (len data)); try lia;
    destruct IH as (r2 & -> & Hr2); exists r2; cbn [mbind out_bind].
  - rewrite drop_drop in Hr2. split; [|by replace (length buf) with (Z.to_nat n + length rest)%nat by lia].
    rewrite !sub_0, take_take_drop. by replace (Z.to_nat n + _)%nat with (Z.to_nat (len buf)) by lia.
  - split; [|done]. rewrite !put_0, sub_0, app_assoc, take_drop, length_drop. unfold rest. rewrite drop_drop.
    by replace (Z.to_nat n + _)%nat with (length data) by (unfold len in *; lia).
Qed.

End exact.

Section all.
Context {W : Type} `{ByteSink W}.

Lemma write_all_ok fuel w data buf :
  snk_rel w data → (length buf < fuel)%nat → ∃ w', write_all_loop fuel w buf = Ret (w', Ok tt) ∧ snk_rel w' (data ++ buf).
Proof.
  revert w data buf. induction fuel as [|fuel IH]; intros w data buf Hw Hf; [lia|]. cbn [write_all_loop].
  destruct (Z.eqb_spec (len buf) 0) as [E|E].
  { apply len_0 in E as ->. exists w. by rewrite app_nil_r. }
  destruct (snk_write w data buf Hw) as (w' & n & -> & Hn & Hz & Hw'). cbn [mbind out_bind].
  destruct (Z.eqb_spec n 0) as [->|Hn0]; [by rewrite (Hz eq_refl) in E|].
  unfold slice_from. rewrite slice_ok by lia. cbn [mbind out_bind]. rewrite sub_drop by lia.
  destruct (IH w' _ (drop (Z.to_nat n) buf) Hw') as (w2 & -> & Hw2).
  { rewrite length_drop. unfold len in *. lia. }
  exists w2. split; [done|]. by rewrite sub_0, <- app_assoc, take_drop in Hw2.
Qed.

End all.

(** ** Cursors are sources *)

Definition cursor_rel (c : Cursor) (data : list Z) : Prop :=
  data = drop (Z.to_nat (cur_pos c)) (cur_inner c) ∧ 0 ≤ cur_pos c < 2 ^ 64 ∧ len (cur_inner c) < 2 ^ 64.

Global Instance cursor_source : ByteSource Cursor.
Proof.
  refine {| src_rel := cursor_rel |}. intros [inner pos] data buf (-> & Hp & Hl). cbn [cur_inner cur_pos] in *.
  cbn [io_read cursor_reader]. unfold Cursor.read. cbn [cur_inner cur_pos].
  pose proof (len_nonneg buf). destruct (Z.leb_spec (len inner) pos) as [Hle|Hlt].
  - assert (drop (Z.to_nat pos) inner = []) as E by (apply drop_ge; unfold len in *; lia). rewrite E.
    exists (mkCursor inner pos), 0. split_and!; try done; by right.
  - set (amt := Z.min (len buf) (len inner - pos)).
    rewrite slice_ok by lia. cbn [mbind out_bind].
    assert (sub_list inner pos (pos + amt) = sub_list (drop (Z.to_nat pos) inner) 0 amt) as ->.
    { unfold sub_list. rewrite drop_0. f_equal. lia. }
    assert (len (drop (Z.to_nat pos) inner) = len inner - pos) as Hd by (unfold len in *; rewrite length_drop; lia).
    rewrite copy_ok by (rewrite ?len_sub_list; lia). cbn [mbind out_bind].
    unfold add_w. rewrite (proj2 (Z.ltb_lt _ _)) by lia. cbn [mbind out_bind].
    exists (mkCursor inner (pos + amt)), amt. split_and!; try done; try lia.
    + intros Ha. left. apply len_0. lia.
    + split_and!; cbn [cur_pos cur_inner]; [|lia|lia|lia]. rewrite drop_drop. f_equal. lia.
Defined.

(** ** Buffered readers are sources *)

Section buf_reader.
Context {R : Type} `{ByteSource R}.

(** Nothing passes through a buffer of no bytes. *)
Definition passes (buf rest : list Z) : list Z := match buf with [] => [] | _ => rest end.

(** What is left in the buffer comes first. *)
Definition buf_reader_rel (r : BufReader R) (data : list Z) : Prop :=
  ∃ rest, src_rel (br_inner r) rest ∧ 0 ≤ br_pos r ≤ br_cap r ∧ br_cap r ≤ len (br_buf r) ∧
    data = sub_list (br_buf r) (br_pos r) (br_cap r) ++ passes (br_buf r) rest.

Lemma passes_same buf buf' rest : len buf = len buf' → passes buf rest = passes buf' rest.
Proof. destruct buf, buf'; done. Qed.

Lemma refill_ok r data :
  buf_reader_rel r data →
  ∃ r', BufReader.refill r = Ret (r', Ok tt) ∧ buf_reader_rel r' data ∧ (br_cap r' = br_pos r' → data = []).
Proof.
  intros (rest & Hr & Hp & Hc & ->). unfold BufReader.refill. destruct (Z.leb_spec (br_cap r) (br_pos r)) as [Hle|Hlt].
  - assert (sub_list (br_buf r) (br_pos r) (br_cap r) = []) as ->.
    { unfold sub_list. by replace (Z.to_nat _) with 0%nat by lia. }
    destruct (src_law _ _ (br_buf r) Hr) as (i & n & -> & Hn & Hnd & Hz & Hi). cbn [mbind out_bind].
    eexists. split; [done|]. cbn [br_cap br_pos].
    assert (len (sub_list rest 0 n) = n) as Hls by (unfold len; rewrite length_sub_0 by lia; lia).
    assert (len (put (br_buf r) 0 (sub_list rest 0 n)) = len (br_buf r)) as Hlp by (apply len_put; lia).
    split.
    + exists (drop (Z.to_nat n) rest). cbn [br_inner br_pos br_cap br_buf]. split_and!; [done | lia | lia | lia |].
      rewrite sub_put_same, (passes_same _ _ _ Hlp) by lia. rewrite sub_0, app_nil_l. unfold passes. destruct (br_buf r).
      * change (len []) with 0 in Hn. by replace n with 0 by lia.
      * symmetry. apply take_drop.
    + intros E. unfold passes. destruct (br_buf r); [done|]. destruct (Hz E) as [?| ->]; done.
  - exists r. split_and!; [done | by exists rest | lia].
Qed.

Global Instance buf_reader_source : ByteSource (BufReader R).
Proof.
  refine {| src_rel := buf_reader_rel |}. intros r0 data buf Hr0.
  cbn [io_read buf_reader]. unfold BufReader.read.
  destruct (refill_ok r0 data Hr0) as (r & -> & (rest & Hr & Hp & Hc & ->) & Hz). cbn [mbind out_bind].
  unfold sub_w. rewrite (proj2 (Z.leb_le _ _)) by lia. cbn [mbind out_bind].
  set (avail := sub_list (br_buf r) (br_pos r) (br_cap r)) in *.
  assert (len avail = br_cap r - br_pos r) as Ha by (apply len_sub_list; lia).
  set (more := passes (br_buf r) rest) in *. pose proof (len_nonneg buf). pose proof (len_nonneg more). set (amt := Z.min (len buf) (br_cap r - br_pos r)).
  rewrite slice_ok by lia. cbn [mbind out_bind].
  assert (sub_list (br_buf r) (br_pos r) (br_pos r + amt) = sub_list (avail ++ more) 0 amt) as ->.
  { rewrite sub_0. unfold len in Ha. rewrite take_app_le by lia. unfold avail, sub_list. rewrite take_take. f_equal. lia. }
  rewrite copy_ok by (rewrite ?len_sub_list; rewrite ?len_app; lia). cbn [mbind out_bind].
  eexists _, amt. split; [done|]. rewrite len_app. split_and!; try lia.
  - intros E. destruct (decide (len buf = 0)) as [E0|]; [left; by apply len_0 | right; apply Hz; lia].
  - exists rest. cbn [br_inner br_pos br_cap br_buf]. split_and!; try done; try lia.
    unfold len in Ha. rewrite drop_app_le by lia. f_equal. apply drop_sub; lia.
Defined.

(** [fill_buf] shows the next bytes, at least one if there is one, and [consume] takes some of them. *)
Lemma fill_buf_ok r data :
  buf_reader_rel r data →
  ∃ r' l rest, BufReader.fill_buf r = Ret (r', Ok l) ∧ buf_reader_rel r' data ∧ data = l ++ rest ∧ (l = [] → data = []) ∧
    ∀ amt, 0 ≤ amt ≤ len l → br_pos r' + amt < 2 ^ 64 →
      ∃ r2, BufReader.consume r' amt = Ret r2 ∧ buf_reader_rel r2 (drop (Z.to_nat amt) data).
Proof.
  intros Hr0. unfold BufReader.fill_buf. destruct (refill_ok r data Hr0) as (r' & -> & Hr' & Hz). cbn [mbind out_bind].
  pose proof Hr' as (rest & Hr & Hp & Hc & ->). rewrite slice_ok by lia. cbn [mbind out_bind].
  set (avail := sub_list (br_buf r') (br_pos r') (br_cap r')) in *.
  assert (len avail = br_cap r' - br_pos r') as Ha by (apply len_sub_list; lia).
  exists r', avail, (passes (br_buf r') rest). split_and!; try done.
  - intros E. apply Hz. rewrite E in Ha. change (len (@nil Z)) with 0 in Ha. lia.
  - intros amt Hamt Hmax. unfold BufReader.consume, add_w. rewrite (proj2 (Z.ltb_lt _ _)) by lia. cbn [mbind out_bind].
    eexists. split; [done|]. exists rest. cbn [br_inner br_pos br_cap br_buf]. rewrite Z.min_r by lia. split_and!; try done; try lia.
    unfold len in Ha. rewrite drop_app_le by (unfold len in *; lia). f_equal. apply drop_sub; lia.
Qed.

End buf_reader.

(** ** Buffered writers are sinks *)

Section buf_writer.
Context {W : Type} `{ByteSink W}.

(** What is in the buffer comes last. *)
Definition buf_writer_rel (w : BufWriter W) (data : list Z) : Prop :=
  ∃ written, snk_rel (bw_inner w) written ∧ 0 ≤ bw_pos w ≤ len (bw_buf w) ∧ data = written ++ sub_list (bw_buf w) 0 (bw_pos w).

Lemma flush_ok w data :
  buf_writer_rel w data →
  ∃ w', BufWriter.flush w = Ret (w', Ok tt) ∧ snk_rel (bw_inner w') data ∧ bw_pos w' = 0 ∧ bw_buf w' = bw_buf w.
Proof.
  intros (written & Hw & Hp & ->). unfold BufWriter.flush. destruct (Z.ltb_spec 0 (bw_pos w)) as [Hlt|Hle].
  - rewrite slice_ok by lia. cbn [mbind out_bind].
    destruct (write_all_ok (S (length (sub_list (bw_buf w) 0 (bw_pos w)))) _ _ (sub_list (bw_buf w) 0 (bw_pos w)) Hw ltac:(lia))
      as (i & Ei & Hi). unfold write_all. rewrite Ei. cbn [mbind out_bind bw_inner].
    destruct (snk_flush i _ Hi) as (i' & -> & Hi'). cbn [mbind out_bind]. by eexists.
  - assert (bw_pos w = 0) as E by lia. cbn [mbind out_bind]. destruct (snk_flush _ _ Hw) as (i & -> & Hi). cbn [mbind out_bind].
    eexists. split; [done|]. cbn [bw_inner bw_pos bw_buf]. split_and!; try done.
    rewrite E, sub_0, take_0, app_nil_r. done.
Qed.

Lemma store_ok w data buf :
  buf_writer_rel w data → bw_pos w + len buf ≤ len (bw_buf w) →
  ∃ w', BufWriter.store w buf = Ret (w', Ok (len buf)) ∧ buf_writer_rel w' (data ++ buf).
Proof.
  intros (written & Hw & Hp & ->) Hfit. unfold BufWriter.store, sub_w. rewrite (proj2 (Z.leb_le _ _)) by lia. cbn [mbind out_bind].
  pose proof (len_nonneg buf). rewrite Z.min_l by lia. rewrite slice_ok by lia. cbn [mbind out_bind].
  assert (sub_list buf 0 (len buf) = buf) as -> by (rewrite sub_0; apply take_ge; unfold len; lia).
  rewrite copy_ok by lia. cbn [mbind out_bind]. eexists. split; [done|]. exists written. cbn [bw_inner bw_pos bw_buf].
  assert (len (put (bw_buf w) (bw_pos w) buf) = len (bw_buf w)) as Hl by (apply len_put; lia). split_and!; try done; try lia.
  rewrite <- app_assoc. f_equal. rewrite !sub_0. unfold put.
  rewrite app_assoc, take_app_length' by (rewrite length_app, length_take; unfold len in *; lia). done.
Qed.

Global Instance buf_writer_sink : ByteSink (BufWriter W).
Proof.
  refine {| snk_rel := buf_writer_rel |}.
  - intros w data buf Hw. cbn [io_write buf_writer]. unfold BufWriter.write. pose proof (len_nonneg buf).
    assert (sub_list buf 0 (len buf) = buf) as Hall by (rewrite sub_0; apply take_ge; unfold len; lia).
    destruct (Z.ltb_spec (len (bw_buf w)) (bw_pos w + len buf)) as [Hover|Hfit].
    + destruct (flush_ok w data Hw) as (w1 & -> & Hi & Hp & Hb). cbn [mbind out_bind].
      destruct (Z.leb_spec (len (bw_buf w1)) (len buf)) as [Hbig|Hsmall].
      * destruct (snk_write _ _ buf Hi) as (i & n & -> & Hn & Hz & Hi'). cbn [mbind out_bind].
        eexists _, n. split_and!; try done; try lia. eexists. split_and!; [exact Hi' | cbn; lia | cbn; pose proof (len_nonneg (bw_buf w1)); lia |].
        cbn [bw_pos bw_buf]. by rewrite Hp, (sub_0 (bw_buf w1)), take_0, app_nil_r.
      * destruct (store_ok w1 data buf) as (w2 & -> & Hw2); [|lia|].
        { exists data. rewrite Hp, sub_0, take_0, app_nil_r. pose proof (len_nonneg (bw_buf w1)). split_and!; [done | lia | lia | done]. }
        exists w2, (len buf). rewrite Hall. split_and!; try done; try lia. apply len_0.
    + destruct (store_ok w data buf Hw Hfit) as (w2 & -> & Hw2). exists w2, (len buf). rewrite Hall.
      split_and!; try done; try lia. apply len_0.
  - intros w data Hw. destruct (flush_ok w data Hw) as (w' & E & Hi & Hp & Hb). exists w'. split; [exact E|].
    exists data. rewrite Hp, sub_0, take_0, app_nil_r. pose proof (len_nonneg (bw_buf w')). split_and!; [done | lia | lia | done].
Defined.

End buf_writer.

(** ** A program that reads and writes pieces *)

(** Pieces of [ns] bytes, with the outcome of each *)
Fixpoint read_pieces {R} `{Read R} (ns : list nat) (r : R) : out (R * list (list Z * result unit IoErrorKind)) :=
  match ns with
  | [] => Ret (r, [])
  | n :: ns =>
      '(r, buf, res) ← read_exact r (replicate n 0);
      '(r, l) ← read_pieces ns r;
      Ret (r, (buf, res) :: l)
  end.

Fixpoint write_pieces {W} `{Write W} (bs : list (list Z)) (w : W) : out (W * result unit IoErrorKind) :=
  match bs with
  | [] => Ret (w, Ok tt)
  | b :: bs =>
      '(w, res) ← write_all w b;
      match res with Ok _ => write_pieces bs w | Err e => Ret (w, Err e) end
  end.

(** The pieces of the bytes [data] *)
Fixpoint pieces (ns : list nat) (data : list Z) : list (list Z * result unit IoErrorKind) :=
  match ns with
  | [] => []
  | n :: ns =>
      if (n <=? length data)%nat then (take n data, Ok tt) :: pieces ns (drop n data)
      else (data ++ replicate (n - length data) 0, Err UnexpectedEof) :: pieces ns []
  end.

Lemma read_pieces_ok {R} `{ByteSource R} ns (r : R) data :
  src_rel r data → ∃ r', read_pieces ns r = Ret (r', pieces ns data).
Proof.
  revert r data. induction ns as [|n ns IH]; intros r data Hr; [by eexists|]. cbn [read_pieces pieces]. unfold read_exact.
  pose proof (read_exact_ok (S (length (replicate n 0))) r data (replicate n 0) Hr ltac:(lia)) as Hx.
  assert (len (replicate n 0) = Z.of_nat n) as Hl by (unfold len; by rewrite length_replicate). rewrite Hl in Hx.
  destruct (Nat.leb_spec n (length data)) as [Hle|Hgt].
  - rewrite (proj2 (Z.leb_le _ _)) in Hx by (unfold len; lia). destruct Hx as (r1 & -> & Hr1). cbn [mbind out_bind].
    rewrite length_replicate in Hr1. destruct (IH r1 _ Hr1) as (r2 & ->). cbn [mbind out_bind]. exists r2. by rewrite sub_0, Nat2Z.id.
  - rewrite (proj2 (Z.leb_gt _ _)) in Hx by (unfold len; lia). destruct Hx as (r1 & -> & Hr1). cbn [mbind out_bind].
    destruct (IH r1 _ Hr1) as (r2 & ->). cbn [mbind out_bind]. exists r2. rewrite put_0, drop_replicate. done.
Qed.

Lemma write_pieces_ok {W} `{ByteSink W} bs (w : W) data :
  snk_rel w data → ∃ w', write_pieces bs w = Ret (w', Ok tt) ∧ snk_rel w' (data ++ concat bs).
Proof.
  revert w data. induction bs as [|b bs IH]; intros w data Hw; cbn [write_pieces concat].
  - exists w. by rewrite app_nil_r.
  - unfold write_all. destruct (write_all_ok (S (length b)) w data b Hw ltac:(lia)) as (w1 & -> & Hw1). cbn [mbind out_bind].
    destruct (IH w1 _ Hw1) as (w2 & -> & Hw2). exists w2. split; [done|]. by rewrite app_assoc.
Qed.

Lemma with_capacity_reader {R} `{ByteSource R} c (r : R) data :
  0 ≤ c → src_rel r data → buf_reader_rel (BufReader.with_capacity c r) (if c =? 0 then [] else data).
Proof.
  intros Hc Hr. exists data. cbn. split_and!; try done; try lia; [apply len_nonneg|].
  destruct (Z.eqb_spec c 0) as [-> |]; [done|]. destruct (Z.to_nat c) eqn:E; [lia | done].
Qed.

(** C21: buffers are transparent.  A program that reads pieces of any sizes through a [BufReader], of any capacity but
    zero, gets the same bytes and the same errors as without it, namely the next bytes of the source each time; with
    capacity zero it gets those of an empty source.  What a program writes in pieces through a [BufWriter], of any
    capacity, has reached the writer below, in order and completely, once [into_inner] has flushed it. *)
Theorem buffered_io {R} `{ByteSource R} {W} `{ByteSink W} ns (r : R) data c bs (w : W) old c' :
  src_rel r data → 0 ≤ c → snk_rel w old → 0 ≤ c' →
  (∃ r1 r2, read_pieces ns r = Ret (r1, pieces ns data) ∧
     read_pieces ns (BufReader.with_capacity c r) = Ret (r2, pieces ns (if c =? 0 then [] else data))) ∧
  (∃ w1 w2, write_pieces bs (BufWriter.with_capacity c' w) = Ret (w1, Ok tt) ∧
     BufWriter.into_inner w1 = Ret (Ok w2) ∧ snk_rel w2 (old ++ concat bs)).
Proof.
  intros Hr Hc Hw Hc'. split.
  - destruct (read_pieces_ok ns r data Hr) as (r1 & E1).
    destruct (read_pieces_ok ns (BufReader.with_capacity c r) (if c =? 0 then [] else data)) as (r2 & E2); [by apply with_capacity_reader|].
    by exists r1, r2.
  - destruct (write_pieces_ok bs (BufWriter.with_capacity c' w) old) as (w1 & E & Hw1).
    { exists old. cbn. rewrite app_nil_r. split_and!; try done. apply len_nonneg. }
    destruct (flush_ok w1 _ Hw1) as (w2 & E2 & Hw2 & _). exists w1, (bw_inner w2). split; [done|].
    unfold BufWriter.into_inner. by rewrite E2.
Qed.

(** A writer that takes at most three bytes at a time *)
Global Instance short_writer : Write (list Z) := {|
  io_write w buf := Ret (w ++ take 3 buf, Ok (Z.min 3 (len buf)));
  io_flush w := Ret (w, Ok tt);
|}.

Global Instance short_sink : ByteSink (list Z).
Proof.
  refine {| snk_rel w data := w = data |}.
  - intros w data buf ->. pose proof (len_nonneg buf). eexists _, _. split; [reflexivity|]. split_and!; try lia.
    + intros E. apply len_0. lia.
    + f_equal. rewrite sub_0. unfold len in *. destruct (decide (length buf ≤ 3)%nat).
      * rewrite !take_ge by lia. done.
      * f_equal. lia.
  - intros w data Hw. by exists w.
Defined.

Lemma buffered_io_witness :
  (∃ r1 r2, read_pieces [2; 5; 1]%nat (Cursor.new [1; 2; 3; 4; 5; 6]) =
      Ret (r1, [([1; 2], Ok tt); ([3; 4; 5; 6; 0], Err UnexpectedEof); ([0], Err UnexpectedEof)]) ∧
     read_pieces [2; 5; 1]%nat (BufReader.with_capacity 4 (Cursor.new [1; 2; 3; 4; 5; 6])) =
      Ret (r2, [([1; 2], Ok tt); ([3; 4; 5; 6; 0], Err UnexpectedEof); ([0], Err UnexpectedEof)])) ∧
  (∃ w1 w2, write_pieces [[1; 2]; [3; 4; 5; 6; 7]] (BufWriter.with_capacity 4 [9]) = Ret (w1, Ok tt) ∧
     BufWriter.into_inner w1 = Ret (Ok w2) ∧ snk_rel w2 ([9] ++ concat [[1; 2]; [3; 4; 5; 6; 7]])).
Proof.
  apply (buffered_io [2; 5; 1]%nat (Cursor.new [1; 2; 3; 4; 5; 6]) [1; 2; 3; 4; 5; 6] 4 [[1; 2]; [3; 4; 5; 6; 7]] [9] [9] 4);
    done.
Defined.

(** The least offset cannot be negated. *)
Lemma seek_min_panics f : File_seek f (Current (- 2 ^ 63)) = Panic.
Proof. done. Qed.

(** A [BufReader] of capacity zero reports the end of a source that has bytes. *)
Lemma no_capacity_ends {R} `{ByteSource R} (r : R) b data :
  src_rel r (b :: data) →
  ∃ r', read_pieces [1%nat] (BufReader.with_capacity 0 r) = Ret (r', [([0], Err UnexpectedEof)]).
Proof.
  intros Hr. exact (read_pieces_ok [1%nat] (BufReader.with_capacity 0 r) [] (with_capacity_reader 0 r (b :: data) ltac:(lia) Hr)).
Qed.
