(* ===== verification/Ps2.v ===== *)
(** * The PS/2 keyboard, from the scan codes to the events a program reads

    [kernel/src/drivers/ps2.rs]: the controller and its keyboard, the interrupt handler that turns scan codes into key
    events; [kernel/src/drivers/keyboard.rs]: the queue of events and the device file that programs read;
    [beskar-lib/src/io/keyboard.rs]: the reader of a program.  The ports of the controller are a class; what the
    controller does with the bytes of the keyboard is the class [KeyboardOutput]. *)

From S2P Require Import Prelude NetUtils Vfs DevFs InMem Time Thread Sched Mpmc MpmcSeq Keyboard UserIo.

(** The instructions [in] and [out] of bytes, on the state [D] of the hardware *)
Class Ports (D : Type) := {
  inb : Z → D → D * Z;
  outb : Z → Z → D → D;
}.

Inductive DriverError := Absent | Invalid | Unknown.

Inductive Ps2Error := SelfTestFailed | FirstPortTest | KeyboardReset | KeyboardUnsupported | Sending | Receiving.

Definition driver_error_of (error : Ps2Error) : DriverError :=
  match error with
  | KeyboardUnsupported => Absent
  | FirstPortTest | KeyboardReset | SelfTestFailed => Invalid
  | Sending | Receiving => Unknown
  end.

Inductive Ps2Command :=
| DisableFirstPort | DisableSecondPort | EnableFirstPort | TestFirstPort | ReadConfigByte | WriteConfigByte | SelfTest
| KeyboardScancodeSet | KeyboardResetAndSelfTest.

Definition command_u8 (c : Ps2Command) : Z :=
  match c with
  | DisableFirstPort => 0xAD
  | DisableSecondPort => 0xA7
  | EnableFirstPort => 0xAE
  | TestFirstPort => 0xAB
  | ReadConfigByte => 0x20
  | WriteConfigByte => 0x60
  | SelfTest => 0xAA
  | KeyboardScancodeSet => 0xF0
  | KeyboardResetAndSelfTest => 0xFF
  end.

Inductive ScancodeSet := Set1 | Set2 | Set3.
Definition scancode_set_u8 (s : ScancodeSet) : Z := match s with Set1 => 1 | Set2 => 2 | Set3 => 3 end.

Definition PS2_RETRIES : nat := Z.to_nat (2 ^ 17).

(** ** The controller *)

Module Ps2Controller.
Section ops.
Context {D : Type} `{Ports D}.

Definition DATA_PORT : Z := 0x60.
Definition CMD_STS_PORT : Z := 0x64.

Definition write_command (command : Ps2Command) (d : D) : D := outb CMD_STS_PORT (command_u8 command) d.
Definition read_status (d : D) : D * Z := inb CMD_STS_PORT d.
Definition status_register (d : D) : D * Z := inb CMD_STS_PORT d.
Definition write_data (data : Z) (d : D) : D := outb DATA_PORT data d.
Definition read_data (d : D) : D * Z := inb DATA_PORT d.

Definition write_config (config : Z) (d : D) : D := write_data config (write_command WriteConfigByte d).
Definition read_config (d : D) : D * Z := read_data (write_command ReadConfigByte d).
Definition flush_buffer (d : D) : D := (read_data d).1.

(** [for _ in 0..n], left at the first round that returns or breaks with a value *)
Fixpoint attempt {B} (n : nat) (round : D → D * option B) (d : D) : D * option B :=
  match n with
  | O => (d, None)
  | S n => match round d with (d, Some b) => (d, Some b) | (d, None) => attempt n round d end
  end.

(** One round of the loops of the tests: [self.read_data() == value] *)
Definition reads (value : Z) (d : D) : D * option unit :=
  let '(d, x) := read_data d in (d, if x =? value then Some tt else None).

(** The value is the one stored in [has_two_ports]. *)
Definition initialize (keyboard_support : bool) (d : D) : D * result bool Ps2Error :=
  if negb keyboard_support then (d, Err KeyboardUnsupported)
  else
    let d := write_command DisableFirstPort d in
    let d := write_command DisableSecondPort d in
    let d := flush_buffer d in
    let '(d, config) := read_config d in
    let config := Z.land config (not_w 8 3) in
    let config := Z.land config (not_w 8 0x40) in
    let has_two_ports := Z.land config 0x10 =? 0 in
    let d := write_config config d in
    let d := write_command SelfTest d in
    match attempt PS2_RETRIES (reads 0x55) d with
    | (d, None) => (d, Err SelfTestFailed)
    | (d, Some _) =>
        let d := write_config config d in
        let d := write_command TestFirstPort d in
        match attempt PS2_RETRIES (reads 0) d with
        | (d, None) => (d, Err FirstPortTest)
        | (d, Some _) =>
            let d := write_command EnableFirstPort d in
            let d := write_config (Z.land (Z.lor config 1) (not_w 8 0x10)) d in
            (d, Ok has_two_ports)
        end
    end.

Definition send (value : Z) (d : D) : D * result unit Ps2Error :=
  match attempt PS2_RETRIES (λ d, let '(d, status) := status_register d in
                                  if Z.land status 2 =? 0 then (write_data value d, Some tt) else (d, None)) d with
  | (d, Some _) => (d, Ok tt)
  | (d, None) => (d, Err Sending)
  end.

Definition recv (d : D) : D * result Z Ps2Error :=
  match attempt PS2_RETRIES (λ d, let '(d, status) := status_register d in
                                  if negb (Z.land status 1 =? 0) then let '(d, x) := read_data d in (d, Some x)
                                  else (d, None)) d with
  | (d, Some x) => (d, Ok x)
  | (d, None) => (d, Err Receiving)
  end.

Definition send_recv (value : Z) (d : D) : D * result Z Ps2Error :=
  match send value d with
  | (d, Err e) => (d, Err e)
  | (d, Ok _) => recv d
  end.

End ops.
End Ps2Controller.

(** ** The keyboard *)

(** [Ps2Keyboard] has the set of its scan codes. *)
Module Ps2Keyboard.
Section ops.
Context {D : Type} `{Ports D}.

Definition TRIES : nat := 4.
Definition DEFAULT_SCANCODE_SET : ScancodeSet := Set1.

Fixpoint send_tries (tries : nat) (command : Z) (d : D) : D * result Z Ps2Error :=
  match tries with
  | O => Ps2Controller.send_recv command d
  | S tries =>
      match Ps2Controller.send_recv command d with
      | (d, Err _) => send_tries tries command d
      | (d, Ok value) =>
          if (value =? 0xFA) || (value =? 0xAA) then (d, Ok value)
          else if value =? 0xFE then send_tries tries command d
          else if (value =? 0xFC) || (value =? 0xFD) then (d, Err KeyboardReset)
          else send_tries tries command d
      end
  end.
Definition send_command (command : Z) (d : D) : D * result Z Ps2Error := send_tries TRIES command d.

(** A round of the loop that waits for the end of the reset *)
Definition reset_round (d : D) : D * option bool :=
  let '(d, value) := Ps2Controller.read_data d in
  (d, if value =? 0xAA then Some true else if (value =? 0xFC) || (value =? 0xFD) then Some false else None).

Definition select_set (d : D) : out (D * result ScancodeSet DriverError) :=
  match send_command (command_u8 KeyboardScancodeSet) d with
  | (_, Err _) => Panic
  | (d, Ok res) =>
      if negb (res =? 0xFA) then Ret (d, Err Invalid)
      else
        match send_command (scancode_set_u8 DEFAULT_SCANCODE_SET) d with
        | (_, Err _) => Panic
        | (d, Ok res) => if negb (res =? 0xFA) then Ret (d, Err Invalid) else Ret (d, Ok DEFAULT_SCANCODE_SET)
        end
  end.

Definition new (d : D) : out (D * result ScancodeSet DriverError) :=
  match send_command (command_u8 KeyboardResetAndSelfTest) d with
  | (d, Err _) => Ret (d, Err Invalid)
  | (d, Ok value) =>
      if negb (value =? 0xFA) then Ret (d, Err Invalid)
      else
        match Ps2Controller.attempt PS2_RETRIES reset_round d with
        | (d, None) => Ret (d, Err Unknown)
        | (d, Some false) => Ret (d, Err Invalid)
        | (d, Some true) => select_set d
        end
  end.

Definition read_scancode (d : D) : D * option Z :=
  let '(d, status) := Ps2Controller.read_status d in
  if negb (Z.land status 1 =? 0) then let '(d, x) := Ps2Controller.read_data d in (d, Some x) else (d, None).
Definition poll_key (d : D) : D * option Z := read_scancode d.

End ops.

Definition scancode_set1_to_keycode (extended : bool) (scancode : Z) : option KeyEvent :=
  let '(pressed, scancode) :=
    if Z.land scancode 0x80 =? 0 then (Pressed, scancode) else (Released, Z.land scancode 0x7F) in
  let keycode :=
    if negb extended then
      match scancode with
      | 0x01 => Some KeyCode.Escape | 0x1E => Some KeyCode.A | 0x30 => Some KeyCode.B
      | 0x2E => Some KeyCode.C | 0x20 => Some KeyCode.D | 0x12 => Some KeyCode.E | 0x21 => Some KeyCode.F
      | 0x22 => Some KeyCode.G | 0x23 => Some KeyCode.H | 0x17 => Some KeyCode.I | 0x24 => Some KeyCode.J
      | 0x25 => Some KeyCode.K | 0x26 => Some KeyCode.L | 0x32 => Some KeyCode.M | 0x31 => Some KeyCode.N
      | 0x18 => Some KeyCode.O | 0x19 => Some KeyCode.P | 0x10 => Some KeyCode.Q | 0x13 => Some KeyCode.R
      | 0x1F => Some KeyCode.S | 0x14 => Some KeyCode.T | 0x16 => Some KeyCode.U | 0x2F => Some KeyCode.V
      | 0x11 => Some KeyCode.W | 0x2D => Some KeyCode.X | 0x15 => Some KeyCode.Y | 0x2C => Some KeyCode.Z
      | 0x0B => Some KeyCode.Num0 | 0x02 => Some KeyCode.Num1 | 0x03 => Some KeyCode.Num2
      | 0x04 => Some KeyCode.Num3 | 0x05 => Some KeyCode.Num4 | 0x06 => Some KeyCode.Num5
      | 0x07 => Some KeyCode.Num6 | 0x08 => Some KeyCode.Num7 | 0x09 => Some KeyCode.Num8
      | 0x0A => Some KeyCode.Num9 | 0x0C => Some KeyCode.Minus | 0x0D => Some KeyCode.Equal
      | 0x1A => Some KeyCode.LeftBracket | 0x1B => Some KeyCode.RightBracket
      | 0x2B => Some KeyCode.Backslash | 0x27 => Some KeyCode.Semicolon | 0x28 => Some KeyCode.Apostrophe
      | 0x29 => Some KeyCode.Tilde | 0x33 => Some KeyCode.Comma | 0x34 => Some KeyCode.Dot
      | 0x35 => Some KeyCode.Slash | 0x1C => Some KeyCode.Enter | 0x39 => Some KeyCode.Space
      | 0x0E => Some KeyCode.Backspace | 0x0F => Some KeyCode.Tab | 0x3A => Some KeyCode.CapsLock
      | 0x2A => Some KeyCode.ShiftLeft | 0x36 => Some KeyCode.ShiftRight | 0x1D => Some KeyCode.CtrlLeft
      | 0x38 => Some KeyCode.AltLeft | 0x3B => Some KeyCode.F1 | 0x3C => Some KeyCode.F2
      | 0x3D => Some KeyCode.F3 | 0x3E => Some KeyCode.F4 | 0x3F => Some KeyCode.F5
      | 0x40 => Some KeyCode.F6 | 0x41 => Some KeyCode.F7 | 0x42 => Some KeyCode.F8
      | 0x43 => Some KeyCode.F9 | 0x44 => Some KeyCode.F10 | 0x57 => Some KeyCode.F11
      | 0x58 => Some KeyCode.F12 | 0x52 => Some KeyCode.Numpad0 | 0x4F => Some KeyCode.Numpad1
      | 0x50 => Some KeyCode.Numpad2 | 0x51 => Some KeyCode.Numpad3 | 0x4B => Some KeyCode.Numpad4
      | 0x4C => Some KeyCode.Numpad5 | 0x4D => Some KeyCode.Numpad6 | 0x47 => Some KeyCode.Numpad7
      | 0x48 => Some KeyCode.Numpad8 | 0x49 => Some KeyCode.Numpad9 | 0x4E => Some KeyCode.NumpadAdd
      | 0x4A => Some KeyCode.NumpadSub | 0x37 => Some KeyCode.NumpadMul | 0x53 => Some KeyCode.NumpadDot
      | _ => None
      end
    else
      match scancode with
      | 0x1D => Some KeyCode.CtrlRight | 0x48 => Some KeyCode.ArrowUp | 0x50 => Some KeyCode.ArrowDown
      | 0x4B => Some KeyCode.ArrowLeft | 0x4D => Some KeyCode.ArrowRight
      | _ => None
      end in
  (λ keycode, mkKeyEvent keycode pressed) <$> keycode.

Definition scancode_to_keycode (scancode_set : ScancodeSet) (extended : bool) (scancode : Z) : option KeyEvent :=
  match scancode_set with
  | Set1 => scancode_set1_to_keycode extended scancode
  | _ => None
  end.

End Ps2Keyboard.

(** ** Events *)

Definition QUEUE_SIZE : Z := 25.
Definition SLEEP_HANDLE_KEYBOARD_INTERRUPT : Z := 1.

Global Instance event_queue : BoundedQueue (MpmcQueue KeyEvent) KeyEvent := mpmc_bounded QUEUE_SIZE ltac:(done).

Module KeyboardManager.
Section manager.
Context {Q : Type} `{BoundedQueue Q KeyEvent}.

(** A full queue drops the event; the scheduler is told in any case. *)
Definition push_event (self : Q) (event : KeyEvent) (g : globals) : out (Q * globals) :=
  '(q, _) ← bq_try_push self event;
  Ret (q, (Scheduler.wake_event_single SLEEP_HANDLE_KEYBOARD_INTERRUPT g).1).

Definition poll_event (self : Q) : out (Q * option KeyEvent) := bq_pop self.

End manager.
End KeyboardManager.

(** The statics: the hardware, [PS2_AVAILABLE], the field of [PS2_CONTROLLER], [PS2_KEYBOARD], [EXTENDED],
    [KEYBOARD_MANAGER] and those of the scheduler *)
Record Keyboard {D Q : Type} := mkKeyboard {
  hardware : D;
  ps2_available : bool;
  has_two_ports : bool;
  ps2_keyboard : option ScancodeSet;
  extended : bool;
  keyboard_manager : option Q;
  scheduler : globals;
}.
Arguments Keyboard D Q : clear implicits.

Section keyboard.
Context {D : Type} `{Ports D} {Q : Type} `{BoundedQueue Q KeyEvent}.
Implicit Types (st : Keyboard D Q).

Definition set_hardware st (d : D) : Keyboard D Q :=
  mkKeyboard _ _ d (ps2_available st) (has_two_ports st) (ps2_keyboard st) (extended st) (keyboard_manager st) (scheduler st).
Definition set_available st (b : bool) : Keyboard D Q :=
  mkKeyboard _ _ (hardware st) b (has_two_ports st) (ps2_keyboard st) (extended st) (keyboard_manager st) (scheduler st).
Definition set_two_ports st (b : bool) : Keyboard D Q :=
  mkKeyboard _ _ (hardware st) (ps2_available st) b (ps2_keyboard st) (extended st) (keyboard_manager st) (scheduler st).
Definition set_keyboard st (k : option ScancodeSet) : Keyboard D Q :=
  mkKeyboard _ _ (hardware st) (ps2_available st) (has_two_ports st) k (extended st) (keyboard_manager st) (scheduler st).
Definition set_extended st (b : bool) : Keyboard D Q :=
  mkKeyboard _ _ (hardware st) (ps2_available st) (has_two_ports st) (ps2_keyboard st) b (keyboard_manager st) (scheduler st).
Definition set_manager st (q : option Q) (g : globals) : Keyboard D Q :=
  mkKeyboard _ _ (hardware st) (ps2_available st) (has_two_ports st) (ps2_keyboard st) (extended st) q g.

(** [init] of [ps2.rs]; [acpi] is what the ACPI tables say of the keyboard, once they are read. *)
Definition init (acpi : option bool) st : out (Keyboard D Q * result unit DriverError) :=
  keyboard_support ← unwrap acpi;
  let st := set_available st keyboard_support in
  match Ps2Controller.initialize keyboard_support (hardware st) with
  | (d, Err e) => Ret (set_hardware st d, Err (driver_error_of e))
  | (d, Ok two) =>
      let st := set_two_ports (set_hardware st d) two in
      '(d, res) ← Ps2Keyboard.new (hardware st);
      let st := set_hardware st d in
      match res with
      | Err e => Ret (st, Err e)
      | Ok keyboard =>
          Ret (set_keyboard st (match ps2_keyboard st with None => Some keyboard | some => some end), Ok tt)
      end
  end.

Definition handle_real_key (extended : bool) (key : Z) st : out (Keyboard D Q) :=
  keyboard ← unwrap (ps2_keyboard st);
  match Ps2Keyboard.scancode_to_keycode keyboard extended key with
  | None => Ret st
  | Some key_event =>
      match keyboard_manager st with
      | None => Ret st
      | Some manager =>
          '(q, g) ← KeyboardManager.push_event manager key_event (scheduler st);
          Ret (set_manager st (Some q) g)
      end
  end.

Definition handle_keyboard_interrupt st : out (Keyboard D Q) :=
  match ps2_keyboard st with
  | None => Ret st
  | Some _ =>
      let '(d, o) := Ps2Keyboard.poll_key (hardware st) in
      let st := set_hardware st d in
      match o with
      | None => Ret st
      | Some scan_code =>
          if scan_code =? 0xE0 then
            let previous := extended st in
            assert_ (negb previous);;
            Ret (set_extended st true)
          else if scan_code =? 0xE1 then Ret (set_extended st true)
          else
            let extended := extended st in
            let st := set_extended st false in
            if negb (scan_code =? 0) && negb (scan_code =? 0xFA) then handle_real_key extended scan_code st else Ret st
      end
  end.

(** An interrupt for each of [n] bytes *)
Fixpoint interrupts (n : nat) st : out (Keyboard D Q) :=
  match n with
  | O => Ret st
  | S n => st ← handle_keyboard_interrupt st; interrupts n st
  end.

End keyboard.

(** ** The device file *)

Section device.
Context {Q : Type} `{BoundedQueue Q KeyEvent}.

(** [with_keyboard_manager(KeyboardManager::poll_event).flatten()] *)
Definition poll_manager (manager : option Q) : out (option Q * option KeyEvent) :=
  match manager with
  | None => Ret (None, None)
  | Some q => '(q, o) ← KeyboardManager.poll_event q; Ret (Some q, o)
  end.

(** A word of the buffer gets the next event. *)
Fixpoint fill (blocks : nat) (manager : option Q) : out (option Q * list Z) :=
  match blocks with
  | O => Ret (manager, [])
  | S blocks =>
      '(manager, key_event) ← poll_manager manager;
      '(manager, dst) ← fill blocks manager;
      Ret (manager, to_le_bytes 8 (KeyEvent.pack_option key_event) ++ dst)
  end.

(** [aligned] says whether the buffer starts at a multiple of eight.  [align_to_mut] leaves a prefix if it does not,
    and a suffix if its length is no multiple of eight. *)
Definition read (aligned : bool) (dst : list Z) (_offset : Z) (manager : option Q)
    : out (option Q * (list Z * result unit BlockDeviceError)) :=
  if (negb aligned && negb (len dst =? 0)) || negb (len dst mod 8 =? 0) then Ret (manager, (dst, Err UnalignedAccess))
  else '(manager, dst) ← fill (Z.to_nat (len dst / 8)) manager; Ret (manager, (dst, Ok tt)).

Definition write (src : list Z) (_offset : Z) (manager : option Q) : out (option Q * result unit BlockDeviceError) :=
  Ret (manager, if len src =? 0 then Ok tt else Err BdUnsupported).

(** [KeyboardDevice] has no fields: its state is [KEYBOARD_MANAGER]. *)
Definition keyboard_device (aligned : bool) : KernelDevice (option Q) := {|
  dev_read := read aligned;
  dev_write := write;
  on_open := id;
  on_close := id;
|}.

End device.

(** ** The reader of a program *)

Section reader.
Context {K : Type} (sc_read : list Z → Z → K → out (K * (list Z * Z))).

Definition next_event (self : File) (k : K) : out (K * File * result (option KeyEvent) IoErrorKind) :=
  let buffer := replicate 8 0 in
  '(k, file, buffer, res) ← File_read sc_read self buffer k;
  match res with
  | Err e => Ret (k, file, Err e)
  | Ok bytes_read =>
      Ret (k, file, Ok (if bytes_read =? len buffer then KeyEvent.unpack_option (from_le_bytes buffer) else None))
  end.

(** A program that asks for [n] events *)
Fixpoint next_events (n : nat) (self : File) (k : K) : out (K * File * list (result (option KeyEvent) IoErrorKind)) :=
  match n with
  | O => Ret (k, self, [])
  | S n =>
      '(k, self, r) ← next_event self k;
      '(k, self, rs) ← next_events n self k;
      Ret (k, self, r :: rs)
  end.

End reader.

(** The kernel's side of the call: the first file of the device file system, with a buffer of type
    [KeyboardEventBuffer], which is aligned *)
Definition KEYBOARD_FILE : Path := [47; 107; 101; 121; 98; 111; 97; 114; 100].

Definition sc_read_keyboard {Q} `{BoundedQueue Q KeyEvent} (buffer : list Z) (offset : Z) (fs : DeviceFS (option Q))
    : out (DeviceFS (option Q) * (list Z * Z)) :=
  '(fs, (buffer, r)) ← @DeviceFS.read _ (keyboard_device true) KEYBOARD_FILE buffer offset fs;
  Ret (fs, (buffer, match r with Ok n => n | Err _ => -1 end)).

(** ** What the keyboard sends *)

(** The 8042 controller: the bytes of the keyboard that wait are read in order at the data port, and bit 0 of the
    status says whether there is one. *)
Class KeyboardOutput (D : Type) `{Ports D} := {
  output : D → list Z;
  output_status d : ∃ d' s, inb Ps2Controller.CMD_STS_PORT d = (d', s) ∧ output d' = output d ∧
    (Z.land s 1 =? 0) = bool_decide (output d = []);
  output_data d c cs : output d = c :: cs → ∃ d', inb Ps2Controller.DATA_PORT d = (d', c) ∧ output d' = cs;
}.

(** Scan code set 1: most keys have one code, for some the byte 0xE0 comes before it; two keys send sequences of
    their own.  The sequences are those of a keyboard without its lock of numbers. *)
Inductive key_code := Plain (c : Z) | Prefixed (c : Z) | PrintScreenKey | PauseKey.

Definition set1_code (k : KeyCode.t) : key_code :=
  match k with
  | KeyCode.Escape => Plain 0x01 | KeyCode.A => Plain 0x1E | KeyCode.B => Plain 0x30 | KeyCode.C => Plain 0x2E
  | KeyCode.D => Plain 0x20 | KeyCode.E => Plain 0x12 | KeyCode.F => Plain 0x21 | KeyCode.G => Plain 0x22
  | KeyCode.H => Plain 0x23 | KeyCode.I => Plain 0x17 | KeyCode.J => Plain 0x24 | KeyCode.K => Plain 0x25
  | KeyCode.L => Plain 0x26 | KeyCode.M => Plain 0x32 | KeyCode.N => Plain 0x31 | KeyCode.O => Plain 0x18
  | KeyCode.P => Plain 0x19 | KeyCode.Q => Plain 0x10 | KeyCode.R => Plain 0x13 | KeyCode.S => Plain 0x1F
  | KeyCode.T => Plain 0x14 | KeyCode.U => Plain 0x16 | KeyCode.V => Plain 0x2F | KeyCode.W => Plain 0x11
  | KeyCode.X => Plain 0x2D | KeyCode.Y => Plain 0x15 | KeyCode.Z => Plain 0x2C | KeyCode.Num0 => Plain 0x0B
  | KeyCode.Num1 => Plain 0x02 | KeyCode.Num2 => Plain 0x03 | KeyCode.Num3 => Plain 0x04 | KeyCode.Num4 => Plain 0x05
  | KeyCode.Num5 => Plain 0x06 | KeyCode.Num6 => Plain 0x07 | KeyCode.Num7 => Plain 0x08 | KeyCode.Num8 => Plain 0x09
  | KeyCode.Num9 => Plain 0x0A | KeyCode.Minus => Plain 0x0C | KeyCode.Equal => Plain 0x0D
  | KeyCode.LeftBracket => Plain 0x1A | KeyCode.RightBracket => Plain 0x1B | KeyCode.Backslash => Plain 0x2B
  | KeyCode.Semicolon => Plain 0x27 | KeyCode.Apostrophe => Plain 0x28 | KeyCode.Tilde => Plain 0x29
  | KeyCode.Comma => Plain 0x33 | KeyCode.Dot => Plain 0x34 | KeyCode.Slash => Plain 0x35
  | KeyCode.Enter => Plain 0x1C | KeyCode.Space => Plain 0x39 | KeyCode.Backspace => Plain 0x0E
  | KeyCode.Tab => Plain 0x0F | KeyCode.CapsLock => Plain 0x3A | KeyCode.ShiftLeft => Plain 0x2A
  | KeyCode.ShiftRight => Plain 0x36 | KeyCode.CtrlLeft => Plain 0x1D | KeyCode.AltLeft => Plain 0x38
  | KeyCode.F1 => Plain 0x3B | KeyCode.F2 => Plain 0x3C | KeyCode.F3 => Plain 0x3D | KeyCode.F4 => Plain 0x3E
  | KeyCode.F5 => Plain 0x3F | KeyCode.F6 => Plain 0x40 | KeyCode.F7 => Plain 0x41 | KeyCode.F8 => Plain 0x42
  | KeyCode.F9 => Plain 0x43 | KeyCode.F10 => Plain 0x44 | KeyCode.F11 => Plain 0x57 | KeyCode.F12 => Plain 0x58
  | KeyCode.Numpad0 => Plain 0x52 | KeyCode.Numpad1 => Plain 0x4F | KeyCode.Numpad2 => Plain 0x50
  | KeyCode.Numpad3 => Plain 0x51 | KeyCode.Numpad4 => Plain 0x4B | KeyCode.Numpad5 => Plain 0x4C
  | KeyCode.Numpad6 => Plain 0x4D | KeyCode.Numpad7 => Plain 0x47 | KeyCode.Numpad8 => Plain 0x48
  | KeyCode.Numpad9 => Plain 0x49 | KeyCode.NumpadAdd => Plain 0x4E | KeyCode.NumpadSub => Plain 0x4A
  | KeyCode.NumpadMul => Plain 0x37 | KeyCode.NumpadDot => Plain 0x53 | KeyCode.NumLock => Plain 0x45
  | KeyCode.ScrollLock => Plain 0x46
  | KeyCode.CtrlRight => Prefixed 0x1D | KeyCode.ArrowUp => Prefixed 0x48 | KeyCode.ArrowDown => Prefixed 0x50
  | KeyCode.ArrowLeft => Prefixed 0x4B | KeyCode.ArrowRight => Prefixed 0x4D | KeyCode.AltRight => Prefixed 0x38
  | KeyCode.Insert => Prefixed 0x52 | KeyCode.Delete => Prefixed 0x53 | KeyCode.Home => Prefixed 0x47
  | KeyCode.End => Prefixed 0x4F | KeyCode.PageUp => Prefixed 0x49 | KeyCode.PageDown => Prefixed 0x51
  | KeyCode.NumpadDiv => Prefixed 0x35 | KeyCode.NumpadEnter => Prefixed 0x1C | KeyCode.Menu => Prefixed 0x5D
  | KeyCode.WindowsLeft => Prefixed 0x5B | KeyCode.WindowsRight => Prefixed 0x5C
  | KeyCode.PrintScreen => PrintScreenKey | KeyCode.PauseBreak => PauseKey
  end.

(** The bytes of an event: the code of a key that is released has its highest bit set, and the pause key sends
    nothing when it is released. *)
Definition key_bytes (e : KeyEvent) : list Z :=
  match set1_code (key e), pressed e with
  | Plain c, Pressed => [c]
  | Plain c, Released => [c + 0x80]
  | Prefixed c, Pressed => [0xE0; c]
  | Prefixed c, Released => [0xE0; c + 0x80]
  | PrintScreenKey, Pressed => [0xE0; 0x2A; 0xE0; 0x37]
  | PrintScreenKey, Released => [0xE0; 0xB7; 0xE0; 0xAA]
  | PauseKey, Pressed => [0xE1; 0x1D; 0x45; 0xE1; 0x9D; 0xC5]
  | PauseKey, Released => []
  end.

Definition scan_codes (es : list KeyEvent) : list Z := es ≫= key_bytes.

(** The keys that the driver does not know *)
Definition dropped (k : KeyCode.t) : bool :=
  match k with
  | KeyCode.AltRight | KeyCode.Insert | KeyCode.Delete | KeyCode.Home | KeyCode.End | KeyCode.PageUp | KeyCode.PageDown
  | KeyCode.NumLock | KeyCode.NumpadDiv | KeyCode.NumpadEnter | KeyCode.PrintScreen | KeyCode.ScrollLock | KeyCode.Menu
  | KeyCode.WindowsLeft | KeyCode.WindowsRight => true
  | _ => false
  end.

(** What becomes of an event: the pause key is taken for the right control key. *)
Definition delivered (e : KeyEvent) : list KeyEvent :=
  match key e, pressed e with
  | KeyCode.PauseBreak, Pressed => [mkKeyEvent KeyCode.CtrlRight Pressed; mkKeyEvent KeyCode.CtrlRight Released]
  | KeyCode.PauseBreak, Released => []
  | k, _ => if dropped k then [] else [e]
  end.

(** ** Decoding bytes

    The events in a sequence of bytes, after a prefix or not, and whether a prefix is left at the end; [None] is a
    prefix after a prefix. *)

Definition key_byte (c : Z) : bool := negb (c =? 0) && negb (c =? 0xFA).

Fixpoint decode (extended : bool) (bs : list Z) : option (list KeyEvent * bool) :=
  match bs with
  | [] => Some ([], extended)
  | c :: bs =>
      if c =? 0xE0 then if extended then None else decode true bs
      else if c =? 0xE1 then decode true bs
      else
        '(es, ext) ← decode false bs;
        let e := if key_byte c then Ps2Keyboard.scancode_set1_to_keycode extended c else None in
        Some (match e with Some e => e :: es | None => es end, ext)
  end.

Lemma decode_app ext bs bs' es ext' :
  decode ext bs = Some (es, ext') → decode ext (bs ++ bs') = '(es', ext'') ← decode ext' bs'; Some (es ++ es', ext'').
Proof.
  revert ext es. induction bs as [|c bs IH]; intros ext es E; cbn [decode app] in *.
  - injection E as <- <-. by destruct (decode ext bs') as [[]|].
  - destruct (c =? 0xE0); [destruct ext; [done | by apply IH]|]. destruct (c =? 0xE1); [by apply IH|].
    destruct (decode false bs) as [[es1 ext1]|] eqn:Er; [|done]. cbn [mbind option_bind] in E. injection E as <- <-.
    rewrite (IH false es1 Er). destruct (decode ext1 bs') as [[]|]; [|done]. cbn. by destruct (if key_byte c then _ else _).
Qed.

Lemma decode_event e : decode false (key_bytes e) = Some (delivered e, false).
Proof. by destruct e as [[] []]. Qed.

Lemma decode_events es : decode false (scan_codes es) = Some (es ≫= delivered, false).
Proof.
  induction es as [|e es IH]; [done|]. unfold scan_codes. cbn [mbind list_bind]. fold (scan_codes es).
  change (list_bind _ _ key_bytes es) with (scan_codes es).
  by rewrite (decode_app _ _ _ _ _ (decode_event e)), IH.
Qed.

Section path.
Context {D : Type} `{KeyboardOutput D} {Q : Type} `{BoundedQueue Q KeyEvent}.
Implicit Types (st : Keyboard D Q).

(** The keyboard works, and its queue holds the events [items]. *)
Definition serving st (n : Z) (items : list KeyEvent) : Prop :=
  ps2_keyboard st = Some Set1 ∧ ∃ q, keyboard_manager st = Some q ∧ bq_rel q n items.

Definition wake (g : globals) : globals := (Scheduler.wake_event_single SLEEP_HANDLE_KEYBOARD_INTERRUPT g).1.

(** What a queue keeps of the events that come *)
Definition keep (items es : list KeyEvent) : list KeyEvent :=
  items ++ take (Z.to_nat (bq_capacity (Q := Q) - Z.of_nat (length items))) es.

Lemma keep_cons items e es : keep (keep items [e]) es = keep items (e :: es).
Proof.
  unfold keep. destruct (Z.to_nat (bq_capacity - Z.of_nat (length items))) as [|m] eqn:Em; cbn [take].
  - rewrite app_nil_r, Em. cbn [take]. apply app_nil_r.
  - rewrite firstn_nil, length_app. cbn [length].
    replace (Z.to_nat _) with m by lia. by rewrite <- app_assoc.
Qed.

Lemma interrupts_app a b st : interrupts (a + b) st = (st ← interrupts a st; interrupts b st).
Proof.
  revert st. induction a as [|a IH]; intros st; [done|]. cbn [interrupts Nat.add].
  destruct (handle_keyboard_interrupt st) as [st'|]; [apply IH | done].
Qed.

Lemma poll_key_ok (d : D) c cs :
  output d = c :: cs → ∃ d', Ps2Keyboard.poll_key d = (d', Some c) ∧ output d' = cs.
Proof.
  intros Hd. destruct (output_status d) as (d1 & s & E1 & Ho & Hs).
  rewrite Hd in Hs. rewrite bool_decide_eq_false_2 in Hs by done.
  destruct (output_data d1 c cs) as (d2 & E2 & Ho2); [by rewrite Ho|].
  exists d2. split; [|done]. unfold Ps2Keyboard.poll_key, Ps2Keyboard.read_scancode, Ps2Controller.read_status.
  rewrite E1, Hs. cbn [negb]. unfold Ps2Controller.read_data. by rewrite E2.
Qed.

(** A byte 0xE0 *)
Lemma interrupt_prefix st n items cs :
  serving st n items → extended st = false → output (hardware st) = 0xE0 :: cs →
  ∃ st', handle_keyboard_interrupt st = Ret st' ∧ serving st' n items ∧ extended st' = true ∧
    output (hardware st') = cs ∧ scheduler st' = scheduler st.
Proof.
  intros (Hk & q & Hm & Hq) He Ho. destruct (poll_key_ok _ _ _ Ho) as (d & Ed & Hd).
  exists (set_extended (set_hardware st d) true). unfold handle_keyboard_interrupt. rewrite Hk, Ed. cbn. rewrite He.
  split_and!; try done. split; [done|]. by exists q.
Qed.

(** A byte 0xE1 *)
Lemma interrupt_pause st n items cs :
  serving st n items → output (hardware st) = 0xE1 :: cs →
  ∃ st', handle_keyboard_interrupt st = Ret st' ∧ serving st' n items ∧ extended st' = true ∧
    output (hardware st') = cs ∧ scheduler st' = scheduler st.
Proof.
  intros (Hk & q & Hm & Hq) Ho. destruct (poll_key_ok _ _ _ Ho) as (d & Ed & Hd).
  exists (set_extended (set_hardware st d) true). unfold handle_keyboard_interrupt. rewrite Hk, Ed.
  split_and!; try done. split; [done|]. by exists q.
Qed.

(** A byte that stands for a key *)
Lemma interrupt_key st n items c cs e :
  serving st n items → n < bq_limit (Q := Q) → output (hardware st) = c :: cs → (c =? 0xE0) = false → (c =? 0xE1) = false →
  key_byte c = true → Ps2Keyboard.scancode_set1_to_keycode (extended st) c = Some e →
  ∃ st' n', handle_keyboard_interrupt st = Ret st' ∧ serving st' n' (keep items [e]) ∧ n' ≤ n + 1 ∧
    extended st' = false ∧ output (hardware st') = cs ∧ scheduler st' = wake (scheduler st).
Proof.
  intros (Hk & q & Hm & Hq) Hn Ho Hc1 Hc2 Hc3 He. destruct (poll_key_ok _ _ _ Ho) as (d & Ed & Hd). unfold key_byte in Hc3.
  assert (∃ q' n' r, bq_try_push q e = Ret (q', r) ∧ bq_rel q' n' (keep items [e]) ∧ n' ≤ n + 1) as (q' & n' & r & Ep & Hq' & Hn').
  { pose proof (bq_push_law q n items e Hq Hn) as Hp. unfold keep.
    destruct (Z.ltb_spec (Z.of_nat (length items)) bq_capacity).
    - destruct Hp as (q' & Ep & Hq'). exists q', (n + 1), (Ok tt). split_and!; [done | | lia].
      by destruct (Z.to_nat (bq_capacity - Z.of_nat (length items))) eqn:Ez; [lia|]; rewrite firstn_cons, firstn_nil.
    - exists q, n, (Err e). split_and!; [done | | lia].
      replace (Z.to_nat _) with 0%nat by lia. cbn. by rewrite app_nil_r. }
  exists (set_manager (set_extended (set_hardware st d) false) (Some q') (wake (scheduler st))), n'.
  unfold handle_keyboard_interrupt. rewrite Hk, Ed, Hc1, Hc2, Hc3. unfold handle_real_key. cbn. rewrite Hk. cbn.
  rewrite He, Hm. unfold KeyboardManager.push_event. rewrite Ep. cbn.
  split_and!; try done. split; [done|]. by exists q'.
Qed.

(** Another byte *)
Lemma interrupt_ignored st n items c cs :
  serving st n items → output (hardware st) = c :: cs → (c =? 0xE0) = false → (c =? 0xE1) = false →
  (if key_byte c then Ps2Keyboard.scancode_set1_to_keycode (extended st) c else None) = None →
  ∃ st', handle_keyboard_interrupt st = Ret st' ∧ serving st' n items ∧
    extended st' = false ∧ output (hardware st') = cs ∧ scheduler st' = scheduler st.
Proof.
  intros (Hk & q & Hm & Hq) Ho Hc1 Hc2 He. destruct (poll_key_ok _ _ _ Ho) as (d & Ed & Hd). unfold key_byte in He.
  exists (set_extended (set_hardware st d) false). unfold handle_keyboard_interrupt. rewrite Hk, Ed, Hc1, Hc2.
  split_and!; try done; [|split; [done | by exists q]]. destruct (negb (c =? 0) && negb (c =? 0xFA)); [|done].
  unfold handle_real_key. cbn. rewrite Hk. cbn. by rewrite He.
Qed.

Lemma interrupts_decode bs st n items es ext :
  serving st n items → n + Z.of_nat (length es) < bq_limit (Q := Q) → output (hardware st) = bs →
  decode (extended st) bs = Some (es, ext) →
  ∃ st' n', interrupts (length bs) st = Ret st' ∧ serving st' n' (keep items es) ∧ n' ≤ n + Z.of_nat (length es) ∧
    extended st' = ext ∧ output (hardware st') = [] ∧ scheduler st' = Nat.iter (length es) wake (scheduler st).
Proof.
  revert st n items es. induction bs as [|c bs IH]; intros st n items es Hs Hn Ho Hd; cbn [decode length interrupts] in *.
  - injection Hd as <- <-. exists st, n. unfold keep. rewrite take_nil, app_nil_r. split_and!; try done. cbn. lia.
  - destruct (c =? 0xE0) eqn:Hc1.
    { apply Z.eqb_eq in Hc1 as ->. destruct (extended st) eqn:He; [done|].
      destruct (interrupt_prefix st n items bs Hs He Ho) as (st1 & E1 & Hs1 & He1 & Ho1 & Hg1). rewrite E1, <- Hg1.
      apply IH; try done. by rewrite He1. }
    destruct (c =? 0xE1) eqn:Hc2.
    { apply Z.eqb_eq in Hc2 as ->. destruct (interrupt_pause st n items bs Hs Ho) as (st1 & E1 & Hs1 & He1 & Ho1 & Hg1).
      rewrite E1, <- Hg1. apply IH; try done. by rewrite He1. }
    destruct (decode false bs) as [[es1 ext1]|] eqn:Er; [|done]. cbn [mbind option_bind] in Hd. injection Hd as <- <-.
    destruct (if key_byte c then _ else None) as [e|] eqn:Ek; cbn [length] in *.
    + destruct (key_byte c) eqn:Hkb; [|done].
      destruct (interrupt_key st n items c bs e) as (st1 & n1 & E1 & Hs1 & Hn1 & He1 & Ho1 & Hg1); try done; [lia|].
      destruct (IH st1 n1 (keep items [e]) es1) as (st2 & n2 & E2 & Hs2 & Hn2 & He2 & Ho2 & Hg2); try done; [lia | by rewrite He1 |].
      exists st2, n2. rewrite E1. cbn [mbind out_bind]. rewrite keep_cons in Hs2. split_and!; try done; [lia|].
      rewrite Hg2, Hg1. symmetry. apply Nat.iter_succ_r.
    + destruct (interrupt_ignored st n items c bs) as (st1 & E1 & Hs1 & He1 & Ho1 & Hg1); try done.
      rewrite E1, <- Hg1. apply IH; try done. by rewrite He1.
Qed.

End path.

(** ** What a program reads *)

Section reading.
Context {Q : Type} `{BoundedQueue Q KeyEvent}.

(** The device file system with the queue of events *)
Definition keyboard_fs (manager : option Q) (rest : DeviceFS (option Q)) : DeviceFS (option Q) :=
  mkDeviceFile KEYBOARD_FILE manager :: rest.

Lemma unpack_bytes o : KeyEvent.unpack_option (from_le_bytes (to_le_bytes 8 (KeyEvent.pack_option o))) = o.
Proof.
  unfold from_le_bytes, to_le_bytes. rewrite rev_involutive, from_to_be; [apply unpack_pack|].
  pose proof (pack_bound o). unfold is_uint. lia.
Qed.

Lemma next_event_ok q n items p rest :
  bq_rel q n items → n < bq_limit (Q := Q) → 0 ≤ p → p + 8 < 2 ^ 64 →
  ∃ q', next_event sc_read_keyboard (mkFile p) (keyboard_fs (Some q) rest) =
      Ret (keyboard_fs (Some q') rest, mkFile (p + 8), Ok (head items)) ∧ bq_rel q' n (tail items).
Proof.
  intros Hq Hn Hp Hmax.
  assert (∃ q', bq_pop q = Ret (q', head items) ∧ bq_rel q' n (tail items)) as (q' & Ep & Hq').
  { pose proof (bq_pop_law q n items Hq Hn) as Hl. destruct items as [|e items]; [by exists q | exact Hl]. }
  exists q'. split; [|done]. unfold next_event, File_read, sc_read_keyboard, keyboard_fs.
  cbn [DeviceFS.read df_path device dev_read keyboard_device]. rewrite bool_decide_eq_true_2 by done. unfold read.
  change (len (replicate 8 0)) with 8. change ((negb true && negb (8 =? 0)) || negb (8 mod 8 =? 0)) with false.
  change (Z.to_nat (8 / 8)) with 1%nat. cbn [fill poll_manager]. unfold KeyboardManager.poll_event. rewrite Ep.
  cbn [mbind out_bind]. rewrite app_nil_r, len_to_le. change (Z.of_nat 8) with 8. change (8 <? 0) with false.
  cbn [position]. unfold add_w. rewrite (proj2 (Z.ltb_lt _ _)) by lia. cbn [mbind out_bind].
  rewrite len_to_le. change (8 =? Z.of_nat 8) with true. cbn match. by rewrite unpack_bytes.
Qed.

Lemma next_events_ok k q n items p rest :
  bq_rel q n items → n < bq_limit (Q := Q) → 0 ≤ p → p + 8 * Z.of_nat k < 2 ^ 64 →
  ∃ fs f, next_events sc_read_keyboard k (mkFile p) (keyboard_fs (Some q) rest) =
    Ret (fs, f, Ok <$> (Some <$> take k items) ++ replicate (k - length items) None).
Proof.
  revert q items p. induction k as [|k IH]; intros q items p Hq Hn Hp Hmax; [by eexists _, _|].
  destruct (next_event_ok q n items p rest Hq Hn Hp ltac:(lia)) as (q' & E & Hq').
  destruct (IH q' (tail items) (p + 8) Hq' Hn ltac:(lia) ltac:(lia)) as (fs & f & E').
  exists fs, f. cbn [next_events]. rewrite E. cbn [mbind out_bind]. rewrite E'. cbn [mbind out_bind].
  destruct items as [|e items]; [|done]. cbn. rewrite take_nil, Nat.sub_0_r. done.
Qed.

End reading.

(** C12: from the keyboard to the program.  While the keyboard sends the scan codes of any events [es], an interrupt
    for each byte never panics and takes them all.  The events of the keys that the driver knows arrive; those of the
    keys in [dropped] do not, and the pause key arrives as the right control key.  Each event that arrives wakes a
    thread that waits for the keyboard, and a program that then reads [k] events gets those that were waiting and the
    ones that have arrived, in order and as far as the queue has room, and then nothing. *)
Theorem keyboard_path {D} `{KeyboardOutput D} {Q} `{BoundedQueue Q KeyEvent}
    (st : Keyboard D Q) q n items es k p rest :
  let codes := scan_codes es in
  let arrived := es ≫= delivered in
  ps2_keyboard st = Some Set1 → extended st = false → keyboard_manager st = Some q → bq_rel q n items →
  output (hardware st) = codes →
  n + Z.of_nat (length arrived) < bq_limit (Q := Q) → 0 ≤ p → p + 8 * Z.of_nat k < 2 ^ 64 →
  let kept := items ++ take (Z.to_nat (bq_capacity (Q := Q) - Z.of_nat (length items))) arrived in
  ∃ st' fs f, interrupts (length codes) st = Ret st' ∧ output (hardware st') = [] ∧ extended st' = false ∧
    scheduler st' = Nat.iter (length arrived) wake (scheduler st) ∧
    next_events sc_read_keyboard k (mkFile p) (keyboard_fs (keyboard_manager st') rest) =
      Ret (fs, f, Ok <$> (Some <$> take k kept) ++ replicate (k - length kept) None).
Proof.
  intros codes arrived Hk He Hm Hq Ho Hn Hp Hmax kept.
  destruct (interrupts_decode codes st n items arrived false) as (st' & n' & E & (_ & q' & Hm' & Hq') & Hn' & He' & Ho' & Hg');
    try done; [split; [done | by exists q] | rewrite He; apply decode_events |].
  destruct (next_events_ok k q' n' kept p rest Hq' ltac:(lia) Hp Hmax) as (fs & f & Er).
  exists st', fs, f. by rewrite Hm'.
Qed.

(** Hardware that holds the bytes of a keyboard and ignores what is written *)
Global Instance byte_ports : Ports (list Z) := {|
  inb port d :=
    if port =? Ps2Controller.DATA_PORT then match d with [] => ([], 0) | c :: cs => (cs, c) end
    else (d, match d with [] => 0 | _ => 1 end);
  outb _ _ d := d;
|}.

#[refine] Global Instance byte_output : KeyboardOutput (list Z) := {| output d := d |}.
Proof.
  - intros d. exists d, (match d with [] => 0 | _ => 1 end). by destruct d.
  - intros d c cs ->. by exists cs.
Defined.

Definition no_threads : globals := mkGlobals true (RoundRobinQueues.new) [] SleepQueues.new ∅ 0.
Definition idle_keyboard (bytes : list Z) : Keyboard (list Z) (MpmcQueue KeyEvent) :=
  mkKeyboard _ _ bytes true false (Some Set1) false (Some (empty_queue QUEUE_SIZE)) no_threads.

Definition demo_keys : list KeyEvent :=
  [mkKeyEvent KeyCode.H Pressed; mkKeyEvent KeyCode.Delete Pressed; mkKeyEvent KeyCode.H Released; mkKeyEvent KeyCode.ArrowUp Pressed].
Definition demo_codes : list Z := [0x23; 0xE0; 0x53; 0xA3; 0xE0; 0x48].

Lemma keyboard_path_witness :
  scan_codes demo_keys = demo_codes ∧
  ∃ st' fs f, interrupts 6 (idle_keyboard demo_codes) = Ret st' ∧ output (hardware st') = [] ∧
    extended st' = false ∧ scheduler st' = Nat.iter 3 wake no_threads ∧
    next_events sc_read_keyboard 4 (mkFile 0) (keyboard_fs (keyboard_manager st') []) =
      Ret (fs, f, Ok <$> (Some <$> [mkKeyEvent KeyCode.H Pressed; mkKeyEvent KeyCode.H Released; mkKeyEvent KeyCode.ArrowUp Pressed])
                    ++ [None]).
Proof.
  split; [done|].
  destruct (keyboard_path (idle_keyboard demo_codes) (empty_queue QUEUE_SIZE) 0 [] demo_keys 4 0 [])
    as (st' & fs & f & E & Ho & He & Hg & Er); try done.
  - by apply quiet_empty.
  - exists st', fs, f. split_and!; [exact E | exact Ho | exact He | exact Hg |]. rewrite Er. reflexivity.
Defined.

(** ** Initialisation *)

(** A controller that initialises leaves its keyboard port on, with the interrupts of that port only and without the
    translation of scan codes. *)
Lemma initialize_config {D} `{Ports D} (d d' : D) support two :
  Ps2Controller.initialize support d = (d', Ok two) →
  support = true ∧ ∃ d0 config,
    d' = outb 0x60 config (outb 0x64 0x60 (outb 0x64 0xAE d0)) ∧
    Z.testbit config 0 = true ∧ Z.testbit config 1 = false ∧ Z.testbit config 4 = false ∧ Z.testbit config 6 = false.
Proof.
  unfold Ps2Controller.initialize. destruct support; [|done]. cbn [negb]. intros E.
  destruct (Ps2Controller.read_config _) as [d1 config].
  destruct (Ps2Controller.attempt _ (Ps2Controller.reads 0x55) _) as [d2 [[]|]]; [|done].
  destruct (Ps2Controller.attempt _ (Ps2Controller.reads 0) _) as [d3 [[]|]]; [|done].
  injection E as <- <-. split; [done|]. eexists d3, _. split; [reflexivity|].
  rewrite !Z.land_spec, !Z.lor_spec, !Z.land_spec. cbn. rewrite !andb_false_r. by destruct (Z.testbit config 0).
Qed.

(** Hardware that answers reads of the data port from a list, and is always ready *)
Definition answers : Type := list Z * list (Z * Z).
Global Instance answer_ports : Ports answers := {|
  inb port d :=
    if port =? Ps2Controller.DATA_PORT then match d.1 with [] => (d, 0) | c :: cs => ((cs, d.2), c) end else (d, 1);
  outb port x d := (d.1, d.2 ++ [(port, x)]);
|}.
Definition fresh_keyboard (bytes : list Z) : Keyboard answers (MpmcQueue KeyEvent) :=
  mkKeyboard _ _ (bytes, []) false false None false (Some (empty_queue QUEUE_SIZE)) no_threads.

(** With a keyboard that acknowledges all commands [init] succeeds, and these are the bytes it sends. *)
Lemma init_answers :
  match init (Some true) (fresh_keyboard [0; 0x47; 0x55; 0; 0xFA; 0xAA; 0xFA; 0xFA]) with
  | Ret (st, Ok _) =>
      ps2_keyboard st = Some Set1 ∧
      (hardware st).2 = [(0x64, 0xAD); (0x64, 0xA7); (0x64, 0x20); (0x64, 0x60); (0x60, 0x04); (0x64, 0xAA); (0x64, 0x60);
        (0x60, 0x04); (0x64, 0xAB); (0x64, 0xAE); (0x64, 0x60); (0x60, 0x05); (0x60, 0xFF); (0x60, 0xF0); (0x60, 1)]
  | _ => False
  end.
Proof. vm_compute. done. Qed.

(** A keyboard that answers the choice of the scan codes with 0xFC makes the kernel panic. *)
Lemma init_unwraps : init (Some true) (fresh_keyboard [0; 0x47; 0x55; 0; 0xFA; 0xAA; 0xFC]) = Panic.
Proof. vm_compute. done. Qed.

(** ** Bytes the handler does not expect *)

(** A prefix byte after a prefix byte fails an assertion in the interrupt handler. *)
Lemma doubled_prefix_panics : interrupts 2 (idle_keyboard [0xE0; 0xE0]) = Panic.
Proof. vm_compute. done. Qed.

(** The pause key sends 0xE1 0x1D 0x45 0xE1 0x9D 0xC5, and the events are those of the right control key. *)
Lemma pause_is_control :
  match interrupts 6 (idle_keyboard [0xE1; 0x1D; 0x45; 0xE1; 0x9D; 0xC5]) with
  | Ret st =>
      match next_events sc_read_keyboard 3 (mkFile 0) (keyboard_fs (keyboard_manager st) []) with
      | Ret (_, _, r) =>
          r = [Ok (Some (mkKeyEvent KeyCode.CtrlRight Pressed)); Ok (Some (mkKeyEvent KeyCode.CtrlRight Released)); Ok None]
      | Panic => False
      end
  | Panic => False
  end.
Proof. vm_compute. done. Qed.

(** The keys in [dropped] have a [KeyCode] but are not in the table of the driver: what they send stands for no event. *)
Lemma keys_dropped k state : dropped k = true → decode false (key_bytes (mkKeyEvent k state)) = Some ([], false).
Proof. intros Hk. rewrite decode_event. by destruct k. Qed.
