(* ===== verification/Bits.v ===== *)
(** * Fields of machine words

    A word of a device or of a table is a row of bit fields.  [field x lo n] is the field of [n] bits from bit [lo] on;
    the lemmas say what the operations of the source, masks and shifts, do to the fields. *)

From S2P Require Import Prelude.

Definition field (x lo n : Z) : Z := Z.land (Z.shiftr x lo) (Z.ones n).

(** [(x & !(mask << lo)) | (v << lo)], the code of the setters; [mask] has [n] bits. *)
Definition put_field (w x lo n v : Z) : Z :=
  Z.lor (Z.land x (not_w w (Z.shiftl (Z.ones n) lo))) (Z.shiftl v lo).

Lemma testbit_field x lo n i :
  0 ≤ lo → 0 ≤ n → 0 ≤ i → Z.testbit (field x lo n) i = (i <? n) && Z.testbit x (i + lo).
Proof.
  intros Hl Hn Hi. unfold field. rewrite Z.land_spec, Z.shiftr_spec, Z.testbit_ones_nonneg by lia. by rewrite andb_comm.
Qed.

Lemma field_lor x y lo n : field (Z.lor x y) lo n = Z.lor (field x lo n) (field y lo n).
Proof. unfold field. by rewrite Z.shiftr_lor, Z.land_lor_distr_l. Qed.

Lemma field_0 lo n : field 0 lo n = 0.
Proof. unfold field. by rewrite Z.shiftr_0_l. Qed.

(** The value of a field, as a number *)
Lemma field_value x lo n : 0 ≤ lo → 0 ≤ n → field x lo n = (x / 2 ^ lo) mod 2 ^ n.
Proof. intros. unfold field. by rewrite Z.land_ones, Z.shiftr_div_pow2. Qed.

Lemma field_bound x lo n : 0 ≤ lo → 0 ≤ n → 0 ≤ field x lo n < 2 ^ n.
Proof. intros. rewrite field_value by done. apply Z.mod_pos_bound. by apply Z.pow_pos_nonneg. Qed.

Lemma field_low x n : 0 ≤ x < 2 ^ n → field x 0 n = x.
Proof.
  intros [Hx Hn]. destruct (Z.le_gt_cases 0 n); [|rewrite Z.pow_neg_r in Hn; lia].
  rewrite field_value, Z.div_1_r by lia. by apply Z.mod_small.
Qed.

(** A field of a shifted value: the value itself, or nothing of it *)
Lemma field_shl_same v lo n : 0 ≤ lo → 0 ≤ v < 2 ^ n → field (Z.shiftl v lo) lo n = v.
Proof. intros Hl Hv. unfold field. rewrite Z.shiftr_shiftl_l, Z.sub_diag, Z.shiftl_0_r by lia. by apply (field_low v n). Qed.

Lemma field_shl_other v lo m lo' n :
  0 ≤ lo → 0 ≤ lo' → 0 ≤ n → 0 ≤ m → 0 ≤ v < 2 ^ m → lo' + n ≤ lo ∨ lo + m ≤ lo' → field (Z.shiftl v lo) lo' n = 0.
Proof.
  intros Hl Hl' Hn Hm Hv Hd. apply Z.bits_inj'. intros i Hi. rewrite testbit_field, Z.bits_0, Z.shiftl_spec by lia.
  destruct (Z.ltb_spec i n); [|done]. cbn [andb].
  destruct (Z.lt_ge_cases (i + lo' - lo) 0); [by apply Z.testbit_neg_r|].
  apply (testbit_high m); [done | lia].
Qed.

Lemma field_high x m lo n : 0 ≤ x < 2 ^ m → 0 ≤ m ≤ lo → 0 ≤ n → field x lo n = 0.
Proof.
  intros Hx Hm Hn. rewrite <- (Z.shiftl_0_r x). apply (field_shl_other x 0 m); lia.
Qed.

(** What the setter of a field does to this field and to another one *)
Lemma field_put_same w x lo n v :
  0 ≤ lo → 0 ≤ n → lo + n ≤ w → 0 ≤ v < 2 ^ n → field (put_field w x lo n v) lo n = v.
Proof.
  intros Hl Hn Hw Hv. unfold put_field. rewrite field_lor, field_shl_same by done.
  replace (field _ lo n) with 0; [apply Z.lor_0_l|]. symmetry. apply Z.bits_inj'. intros i Hi.
  rewrite testbit_field, Z.bits_0 by lia. destruct (Z.ltb_spec i n); [|done]. cbn [andb].
  rewrite Z.land_spec. unfold not_w. rewrite Z.lxor_spec, Z.shiftl_spec by lia.
  replace (2 ^ w - 1) with (Z.ones w) by (rewrite Z.ones_equiv; lia).
  rewrite !Z.testbit_ones_nonneg by lia. replace (i + lo - lo) with i by lia.
  rewrite !(proj2 (Z.ltb_lt _ _)) by lia. apply andb_false_r.
Qed.

Lemma field_put_other w x lo m v lo' n :
  0 ≤ lo → 0 ≤ m → 0 ≤ lo' → 0 ≤ n → lo' + n ≤ w → 0 ≤ v < 2 ^ m → lo' + n ≤ lo ∨ lo + m ≤ lo' →
  field (put_field w x lo m v) lo' n = field x lo' n.
Proof.
  intros Hl Hm Hl' Hn Hw Hv Hd. unfold put_field. rewrite field_lor, (field_shl_other v lo m) by done.
  rewrite Z.lor_0_r. apply Z.bits_inj'. intros i Hi. rewrite !testbit_field by lia.
  destruct (Z.ltb_spec i n); [|done]. cbn [andb]. rewrite Z.land_spec. unfold not_w. rewrite Z.lxor_spec, Z.shiftl_spec by lia.
  replace (2 ^ w - 1) with (Z.ones w) by (rewrite Z.ones_equiv; lia).
  rewrite (Z.testbit_ones_nonneg w) by lia. rewrite (proj2 (Z.ltb_lt _ w)) by lia.
  replace (Z.testbit (Z.ones m) (i + lo' - lo)) with false; [apply andb_true_r|].
  destruct (Z.lt_ge_cases (i + lo' - lo) 0); [by rewrite Z.testbit_neg_r by lia|].
  rewrite Z.testbit_ones_nonneg by lia. symmetry. apply Z.ltb_ge. lia.
Qed.

(** A flag of a word *)
Lemma flag_field x n : 0 ≤ n → negb (Z.land x (2 ^ n) =? 0) = (field x n 1 =? 1).
Proof.
  intros Hn. pose proof (field_bound x n 1 Hn ltac:(lia)) as Hb.
  assert (Z.land x (2 ^ n) = Z.shiftl (field x n 1) n) as ->.
  { apply Z.bits_inj'. intros i Hi. rewrite Z.land_spec, Z.pow2_bits_eqb, Z.shiftl_spec by lia.
    destruct (Z.eqb_spec n i) as [<-|Hne].
    - rewrite Z.sub_diag, testbit_field by lia. rewrite Z.add_0_l. by rewrite andb_true_r.
    - rewrite andb_false_r. destruct (Z.lt_ge_cases (i - n) 0); [by rewrite Z.testbit_neg_r by lia|].
      rewrite testbit_field by lia. by rewrite (proj2 (Z.ltb_ge _ _)) by lia. }
  rewrite Z.shiftl_mul_pow2 by done. pose proof (Z.pow_pos_nonneg 2 n).
  assert (field x n 1 = 0 ∨ field x n 1 = 1) as [-> | ->] by lia; [done|].
  rewrite Z.mul_1_l. by rewrite (proj2 (Z.eqb_neq _ _)) by lia.
Qed.

(** Proves a goal about fields of words that are built with [lor] and [shiftl] from bounded values. *)
Ltac fields :=
  rewrite ?field_lor;
  repeat (first [rewrite field_shl_same by lia | rewrite field_0
               | match goal with |- context [field (Z.shiftl ?v ?lo) ?lo' ?n] =>
                   first [rewrite (field_shl_other v lo 1) by lia | rewrite (field_shl_other v lo 2) by lia
                         | rewrite (field_shl_other v lo 5) by lia | rewrite (field_shl_other v lo 6) by lia
                         | rewrite (field_shl_other v lo 8) by lia | rewrite (field_shl_other v lo 16) by lia] end]);
  rewrite ?Z.lor_0_l, ?Z.lor_0_r.
