(* ===== verification/Xhci.v ===== *)
(** * Rings of the USB host controller

    [kernel/src/drivers/usb/host/xhci/trb.rs]: transfer request blocks, of which the rings consist, and
    [kernel/src/drivers/usb/host/xhci/ring.rs]: the rings.  The theorem on the rings has two parts: a [Ring] is a circular
    buffer for its own [push] and [pop], and the controller, which finds its blocks by cycle bits and link blocks,
    gets those that are pushed to a command or transfer ring until [push] reaches the link. *)

From S2P Require Import Prelude Bits.

(** ** Transfer request blocks *)

Module TrbType.

Inductive t :=
| Normal | SetupStage | DataStage | StatusStage | Isoch | Link | EventData | NoOp | EnableSlotCommand
| DisableSlotCommand | AddressDeviceCommand | ConfigureEndpointCommand | EvaluateContextCommand
| ResetEndpointCommand | StopEndpointCommand | SetTRDequeuePointerCommand | ResetDeviceCommand
| NegotiateBandwidthCommand | SetLatencyToleranceValueCommand | GetPortBandwidthCommand | ForceHeaderCommand
| NoOpCommand | GetExtendedPropertyCommand | SetExtendedPropertyCommand | TransferEvent | CommandCompletionEvent
| PortStatusChangeEvent | BandwidthRequestEvent | HostControllerEvent | DeviceNotificationEvent | MfindexWrapEvent.

Definition from_u8 (value : Z) : option t :=
  match value with
  | 1 => Some Normal | 2 => Some SetupStage | 3 => Some DataStage | 4 => Some StatusStage | 5 => Some Isoch
  | 6 => Some Link | 7 => Some EventData | 8 => Some NoOp | 9 => Some EnableSlotCommand
  | 10 => Some DisableSlotCommand | 11 => Some AddressDeviceCommand | 12 => Some ConfigureEndpointCommand
  | 13 => Some EvaluateContextCommand | 14 => Some ResetEndpointCommand | 15 => Some StopEndpointCommand
  | 16 => Some SetTRDequeuePointerCommand | 17 => Some ResetDeviceCommand | 19 => Some NegotiateBandwidthCommand
  | 20 => Some SetLatencyToleranceValueCommand | 21 => Some GetPortBandwidthCommand | 22 => Some ForceHeaderCommand
  | 23 => Some NoOpCommand | 24 => Some GetExtendedPropertyCommand | 25 => Some SetExtendedPropertyCommand
  | 32 => Some TransferEvent | 33 => Some CommandCompletionEvent | 34 => Some PortStatusChangeEvent
  | 35 => Some BandwidthRequestEvent | 37 => Some HostControllerEvent | 38 => Some DeviceNotificationEvent
  | 39 => Some MfindexWrapEvent
  | _ => None
  end.

Definition as_u8 (self : t) : Z :=
  match self with
  | Normal => 1 | SetupStage => 2 | DataStage => 3 | StatusStage => 4 | Isoch => 5 | Link => 6 | EventData => 7
  | NoOp => 8 | EnableSlotCommand => 9 | DisableSlotCommand => 10 | AddressDeviceCommand => 11
  | ConfigureEndpointCommand => 12 | EvaluateContextCommand => 13 | ResetEndpointCommand => 14
  | StopEndpointCommand => 15 | SetTRDequeuePointerCommand => 16 | ResetDeviceCommand => 17
  | NegotiateBandwidthCommand => 19 | SetLatencyToleranceValueCommand => 20 | GetPortBandwidthCommand => 21
  | ForceHeaderCommand => 22 | NoOpCommand => 23 | GetExtendedPropertyCommand => 24
  | SetExtendedPropertyCommand => 25 | TransferEvent => 32 | CommandCompletionEvent => 33
  | PortStatusChangeEvent => 34 | BandwidthRequestEvent => 35 | HostControllerEvent => 37
  | DeviceNotificationEvent => 38 | MfindexWrapEvent => 39
  end.

End TrbType.

Module CompletionCode.

Inductive t :=
| Invalid | Success | DataBufferError | BabbleDetectedError | UsbTransactionError | TrbError | StallError
| ResourceError | BandwidthError | NoSlotsAvailableError | InvalidStreamTypeError | SlotNotEnabledError
| EndpointNotEnabledError | ShortPacket | RingUnderrun | RingOverrun | VfEventRingFullError | ParameterError
| BandwidthOverrunError | ContextStateError | NoPingResponseError | EventRingFullError | IncompatibleDeviceError
| MissedServiceError | CommandRingStopped | CommandAborted | Stopped | StoppedLengthInvalid | StoppedShortPacket
| MaxExitLatencyTooLargeError | IsochBufferOverrun | EventLostError | UndefinedError | InvalidStreamIdError
| SecondaryBandwidthError | SplitTransactionError.

Definition from_u8 (value : Z) : option t :=
  match value with
  | 0 => Some Invalid | 1 => Some Success | 2 => Some DataBufferError | 3 => Some BabbleDetectedError
  | 4 => Some UsbTransactionError | 5 => Some TrbError | 6 => Some StallError | 7 => Some ResourceError
  | 8 => Some BandwidthError | 9 => Some NoSlotsAvailableError | 10 => Some InvalidStreamTypeError
  | 11 => Some SlotNotEnabledError | 12 => Some EndpointNotEnabledError | 13 => Some ShortPacket
  | 14 => Some RingUnderrun | 15 => Some RingOverrun | 16 => Some VfEventRingFullError | 17 => Some ParameterError
  | 18 => Some BandwidthOverrunError | 19 => Some ContextStateError | 20 => Some NoPingResponseError
  | 21 => Some EventRingFullError | 22 => Some IncompatibleDeviceError | 23 => Some MissedServiceError
  | 24 => Some CommandRingStopped | 25 => Some CommandAborted | 26 => Some Stopped | 27 => Some StoppedLengthInvalid
  | 28 => Some StoppedShortPacket | 29 => Some MaxExitLatencyTooLargeError | 31 => Some IsochBufferOverrun
  | 32 => Some EventLostError | 33 => Some UndefinedError | 34 => Some InvalidStreamIdError
  | 35 => Some SecondaryBandwidthError | 36 => Some SplitTransactionError
  | _ => None
  end.

Definition as_u8 (self : t) : Z :=
  match self with
  | Invalid => 0 | Success => 1 | DataBufferError => 2 | BabbleDetectedError => 3 | UsbTransactionError => 4
  | TrbError => 5 | StallError => 6 | ResourceError => 7 | BandwidthError => 8 | NoSlotsAvailableError => 9
  | InvalidStreamTypeError => 10 | SlotNotEnabledError => 11 | EndpointNotEnabledError => 12 | ShortPacket => 13
  | RingUnderrun => 14 | RingOverrun => 15 | VfEventRingFullError => 16 | ParameterError => 17
  | BandwidthOverrunError => 18 | ContextStateError => 19 | NoPingResponseError => 20 | EventRingFullError => 21
  | IncompatibleDeviceError => 22 | MissedServiceError => 23 | CommandRingStopped => 24 | CommandAborted => 25
  | Stopped => 26 | StoppedLengthInvalid => 27 | StoppedShortPacket => 28 | MaxExitLatencyTooLargeError => 29
  | IsochBufferOverrun => 31 | EventLostError => 32 | UndefinedError => 33 | InvalidStreamIdError => 34
  | SecondaryBandwidthError => 35 | SplitTransactionError => 36
  end.

End CompletionCode.

Record Trb := mkTrb { parameter : Z; status : Z; control : Z }.

Module Trb.

Definition SIZE : Z := 16.

Definition new : Trb := mkTrb 0 0 0.

Definition trb_type (self : Trb) : out TrbType.t :=
  let type_val := Z.land (Z.shiftr (control self) 10) 0x3F in
  unwrap (TrbType.from_u8 type_val).

Definition set_trb_type (self : Trb) (trb_type : TrbType.t) : Trb :=
  mkTrb (parameter self) (status self)
    (Z.lor (Z.land (control self) (not_w 32 (shl_w 32 0x3F 10))) (shl_w 32 (TrbType.as_u8 trb_type) 10)).

Definition cycle_bit (self : Trb) : bool := negb (Z.land (control self) 1 =? 0).

Definition set_cycle_bit (self : Trb) (cycle : bool) : Trb :=
  mkTrb (parameter self) (status self) (Z.lor (Z.land (control self) (not_w 32 1)) (Z.b2z cycle)).

Definition toggle_cycle_bit (self : Trb) : Trb := mkTrb (parameter self) (status self) (Z.lxor (control self) 1).

(** [self.control |= x], [self.parameter = x] and [self.status = x] *)
Definition or_control (self : Trb) (x : Z) : Trb := mkTrb (parameter self) (status self) (Z.lor (control self) x).
Definition with_parameter (self : Trb) (x : Z) : Trb := mkTrb x (status self) (control self).
Definition with_status (self : Trb) (x : Z) : Trb := mkTrb (parameter self) x (control self).

End Trb.

(** The blocks of the commands, events and transfers wrap a block. *)

Definition EnableSlotCommandTrb_new (slot_type : Z) : Trb :=
  let trb := Trb.new in
  let trb := Trb.set_trb_type trb TrbType.EnableSlotCommand in
  Trb.or_control trb (shl_w 32 (Z.land slot_type 0x1F) 16).

Definition AddressDeviceCommandTrb_new (input_context_ptr slot_id : Z) : Trb :=
  let trb := Trb.new in
  let trb := Trb.with_parameter trb input_context_ptr in
  let trb := Trb.set_trb_type trb TrbType.AddressDeviceCommand in
  Trb.or_control trb (shl_w 32 (Z.land slot_id 0xFF) 24).

Definition ConfigureEndpointCommandTrb_new (input_context_ptr slot_id : Z) (deconfigure : bool) : Trb :=
  let trb := Trb.new in
  let trb := Trb.with_parameter trb input_context_ptr in
  let trb := Trb.set_trb_type trb TrbType.ConfigureEndpointCommand in
  let trb := if deconfigure then Trb.or_control trb (shl_w 32 1 9) else trb in
  Trb.or_control trb (shl_w 32 (Z.land slot_id 0xFF) 24).

Definition LinkTrb_new (ring_segment_ptr : Z) (toggle_cycle : bool) : Trb :=
  let trb := Trb.new in
  let trb := Trb.with_parameter trb ring_segment_ptr in
  let trb := Trb.set_trb_type trb TrbType.Link in
  if toggle_cycle then Trb.or_control trb (shl_w 32 1 1) else trb.

Module CommandCompletionEventTrb.

Definition new (command_trb_ptr : Z) (completion_code : CompletionCode.t) (slot_id : Z) : Trb :=
  let trb := Trb.new in
  let trb := Trb.with_parameter trb command_trb_ptr in
  let trb := Trb.with_status trb (Z.lor (shl_w 32 (CompletionCode.as_u8 completion_code) 24) (shl_w 32 slot_id 16)) in
  Trb.set_trb_type trb TrbType.CommandCompletionEvent.

Definition command_trb_ptr (self : Trb) : Z := parameter self.
Definition completion_code (self : Trb) : option CompletionCode.t := CompletionCode.from_u8 (Z.shiftr (status self) 24).
Definition slot_id (self : Trb) : Z := Z.shiftr (control self) 24.

End CommandCompletionEventTrb.

Definition PortStatusChangeEventTrb_new (port_id : Z) : Trb :=
  let trb := Trb.new in
  let trb := Trb.with_status (Trb.with_parameter trb 0) 0 in
  let trb := Trb.set_trb_type trb TrbType.PortStatusChangeEvent in
  Trb.or_control trb (shl_w 32 (Z.land port_id 0xFF) 24).

Definition SetupStageTrb_new (request_type request value index length transfer_type : Z) : Trb :=
  let trb := Trb.new in
  let trb := Trb.with_parameter trb
    (Z.lor (Z.lor (Z.lor (Z.lor request_type (shl_w 64 request 8)) (shl_w 64 value 16)) (shl_w 64 index 32))
       (shl_w 64 length 48)) in
  let trb := Trb.set_trb_type trb TrbType.SetupStage in
  let trb := Trb.or_control trb (shl_w 32 (Z.land transfer_type 0x3) 16) in
  Trb.or_control trb (shl_w 32 1 6).

Definition DataStageTrb_new (data_buffer_ptr transfer_length : Z) (direction_in interrupt_on_completion : bool) : Trb :=
  let trb := Trb.new in
  let trb := Trb.with_status (Trb.with_parameter trb data_buffer_ptr) transfer_length in
  let trb := Trb.set_trb_type trb TrbType.DataStage in
  let trb := if direction_in then Trb.or_control trb (shl_w 32 1 16) else trb in
  if interrupt_on_completion then Trb.or_control trb (shl_w 32 1 5) else trb.

Definition StatusStageTrb_new (direction_in interrupt_on_completion : bool) : Trb :=
  let trb := Trb.new in
  let trb := Trb.set_trb_type trb TrbType.StatusStage in
  let trb := if direction_in then Trb.or_control trb (shl_w 32 1 16) else trb in
  if interrupt_on_completion then Trb.or_control trb (shl_w 32 1 5) else trb.

(** ** Rings *)

(** The trait [RingElement]; [zeroed] is the value whose bytes are zero. *)
Class RingElement (T : Type) := {
  set_cycle : T → bool → T;
  zeroed : T;
}.

(** The blocks of the ring are those in the mapped frame at [paddr]. *)
Record Ring {T : Type} := mkRing {
  trbs : list T;
  paddr : Z;
  capacity : Z;
  cycle_bit : bool;
  enqueue_index : Z;
  dequeue_index : Z;
}.
Arguments Ring T : clear implicits.

Module Ring.
Section ring.
Context {T : Type} `{RingElement T}.
Implicit Types (self : Ring T).

(** [size] is the size of an element in bytes, [frame] what the frame allocator returns. *)
Definition new (size : Z) (frame : option Z) (capacity : Z) : out (Ring T) :=
  assert_ (0 <? capacity);;
  assert_ (capacity * size <=? 4096);;
  frame ← unwrap frame;
  Ret (mkRing _ (replicate (Z.to_nat capacity) zeroed) frame capacity true 0 0).

Definition trb self (index : Z) : out T :=
  assert_ (index <? capacity self);; unwrap (trbs self !! Z.to_nat index).

(** [*self.trb_mut(index) = trb] *)
Definition set_trb self (index : Z) (trb : T) : out (Ring T) :=
  assert_ (index <? capacity self);;
  Ret (mkRing _ (<[Z.to_nat index := trb]> (trbs self)) (paddr self) (capacity self) (cycle_bit self)
         (enqueue_index self) (dequeue_index self)).

Definition push self (trb : T) : out (Ring T * Z) :=
  let trb := set_cycle trb (cycle_bit self) in
  let index := enqueue_index self in
  self ← set_trb self index trb;
  next ← add_w 8 (enqueue_index self) 1;
  let next := next mod capacity self in
  Ret (mkRing _ (trbs self) (paddr self) (capacity self) (if next =? 0 then negb (cycle_bit self) else cycle_bit self)
         next (dequeue_index self), index).

Definition pop self : out (Ring T * option T) :=
  if enqueue_index self =? dequeue_index self then Ret (self, None)
  else
    trb ← trb self (dequeue_index self);
    next ← add_w 8 (dequeue_index self) 1;
    Ret (mkRing _ (trbs self) (paddr self) (capacity self) (cycle_bit self) (enqueue_index self)
           (next mod capacity self), Some trb).

End ring.
End Ring.

Global Instance trb_element : RingElement Trb := {| set_cycle := Trb.set_cycle_bit; zeroed := Trb.new |}.

(** [CommandRing::new] and [TransferRing::new], which are the same *)
Definition linked_ring (frame : option Z) (capacity_ : Z) : out (Ring Trb) :=
  ring ← Ring.new Trb.SIZE frame capacity_;
  let link_trb := LinkTrb_new (paddr ring) true in
  index ← sub_w (capacity ring) 1;
  Ring.set_trb ring index link_trb.
Definition CommandRing_new (frame : option Z) (capacity : Z) : out (Ring Trb) := linked_ring frame capacity.
Definition TransferRing_new (frame : option Z) (capacity : Z) : out (Ring Trb) := linked_ring frame capacity.
Definition EventRingSegment_new (frame : option Z) (capacity : Z) : out (Ring Trb) := Ring.new Trb.SIZE frame capacity.

(** ** Words of the blocks *)

Lemma type_roundtrip ty : TrbType.from_u8 (TrbType.as_u8 ty) = Some ty.
Proof. by destruct ty. Qed.

Lemma code_roundtrip code : CompletionCode.from_u8 (CompletionCode.as_u8 code) = Some code.
Proof. by destruct code. Qed.

Lemma type_bound ty : 0 ≤ TrbType.as_u8 ty < 2 ^ 6.
Proof. destruct ty; cbn; lia. Qed.

Lemma shl_small w x n m : 0 ≤ x < 2 ^ m → 0 ≤ n → 0 ≤ m → n + m ≤ w → shl_w w x n = Z.shiftl x n.
Proof.
  intros Hx Hn Hm Hw. unfold shl_w. apply Z.mod_small. rewrite Z.shiftl_mul_pow2 by done.
  assert (2 ^ (m + n) ≤ 2 ^ w) by (apply Z.pow_le_mono_r; lia). rewrite Z.pow_add_r in * by lia.
  pose proof (Z.pow_pos_nonneg 2 n). nia.
Qed.

(** The setter of the type, on a block without flags *)
Lemma set_type_new p st ty :
  Trb.set_trb_type (mkTrb p st 0) ty = mkTrb p st (Z.shiftl (TrbType.as_u8 ty) 10).
Proof. unfold Trb.set_trb_type. cbn [parameter status control]. f_equal. by destruct ty. Qed.

Lemma trb_type_control x ty : field (control x) 10 6 = TrbType.as_u8 ty → Trb.trb_type x = Ret ty.
Proof.
  intros E. unfold Trb.trb_type. change (Z.land (Z.shiftr (control x) 10) 0x3F) with (field (control x) 10 6).
  cbv zeta. by rewrite E, type_roundtrip.
Qed.

(** The cycle bit that the ring sets is not in another field. *)
Lemma field_set_cycle x b lo n :
  1 ≤ lo → 0 ≤ n → lo + n ≤ 32 → field (control (Trb.set_cycle_bit x b)) lo n = field (control x) lo n.
Proof.
  intros Hl Hn Hw. cbn [Trb.set_cycle_bit control].
  change (Z.lor (Z.land (control x) (not_w 32 1)) (Z.b2z b))
    with (Z.lor (Z.land (control x) (not_w 32 (Z.shiftl (Z.ones 1) 0))) (Z.b2z b)).
  replace (Z.b2z b) with (Z.shiftl (Z.b2z b) 0) by apply Z.shiftl_0_r.
  apply (field_put_other 32 (control x) 0 1 (Z.b2z b)); destruct b; cbn [Z.b2z]; lia.
Qed.

Lemma mask_low s n m : m = Z.ones n → 0 ≤ s < 2 ^ n → Z.land s m = s.
Proof.
  intros -> Hs. destruct (Z.le_gt_cases 0 n); [|rewrite Z.pow_neg_r in Hs; lia].
  rewrite Z.land_ones by done. by apply Z.mod_small.
Qed.

(** ** A ring is a circular buffer *)

(** What is done to a ring, and what comes out of it *)
Inductive action (T : Type) := Put (x : T) | Take.
Arguments Put {T} x.
Arguments Take {T}.
Inductive output (T : Type) := Index (i : Z) | Got (o : option T).
Arguments Index {T} i.
Arguments Got {T} o.

Fixpoint use {T} `{RingElement T} (acts : list (action T)) (r : Ring T) : out (list (output T)) :=
  match acts with
  | [] => Ret []
  | Put x :: acts => '(r, i) ← Ring.push r x; l ← use acts r; Ret (Index i :: l)
  | Take :: acts => '(r, o) ← Ring.pop r; l ← use acts r; Ret (Got o :: l)
  end.

(** The cycle bit of the lap of a position; positions count from the creation of the ring on. *)
Definition lap_bit (cap pos : Z) : bool := Z.even (pos / cap).

(** The same for a queue that has room for less than [cap] elements: [w] elements have been put into it before, each
    with the cycle bit of its lap; [None] if an element is put into a full queue. *)
Fixpoint use_queue {T} `{RingElement T} (cap : Z) (acts : list (action T)) (w : Z) (q : list T) : option (list (output T)) :=
  match acts with
  | [] => Some []
  | Put x :: acts =>
      if Z.of_nat (length q) <? cap - 1 then
        l ← use_queue cap acts (w + 1) (q ++ [set_cycle x (lap_bit cap w)]); Some (Index (w mod cap) :: l)
      else None
  | Take :: acts =>
      match q with
      | [] => l ← use_queue cap acts w []; Some (Got None :: l)
      | x :: q => l ← use_queue cap acts w q; Some (Got (Some x) :: l)
      end
  end.

Section ring_queue.
Context {T : Type} `{RingElement T}.
Implicit Types (r : Ring T) (l : list T).

Definition at_ (cap : Z) r (pos : Z) : option T := trbs r !! Z.to_nat (pos mod cap).

(** Elements have been put at the positions below [w], those below [w - length l] have been taken. *)
Definition ring_rel r (w : Z) l : Prop :=
  let cap := capacity r in let rd := w - Z.of_nat (length l) in
  0 < cap ≤ 255 ∧ Z.of_nat (length (trbs r)) = cap ∧ 0 ≤ rd ∧ w < rd + cap ∧
  enqueue_index r = w mod cap ∧ dequeue_index r = rd mod cap ∧ cycle_bit r = lap_bit cap w ∧
  (∀ pos, rd ≤ pos < w → at_ cap r pos = l !! Z.to_nat (pos - rd)).

(** The next index and the next cycle bit *)
Lemma succ_index cap pos : 0 < cap → (pos mod cap + 1) mod cap = (pos + 1) mod cap.
Proof. intros. by rewrite Z.add_mod_idemp_l by lia. Qed.

Lemma succ_lap cap pos :
  0 < cap → (if (pos + 1) mod cap =? 0 then negb (lap_bit cap pos) else lap_bit cap pos) = lap_bit cap (pos + 1).
Proof.
  intros Hc. unfold lap_bit. pose proof (Z.div_mod (pos + 1) cap ltac:(lia)) as E.
  pose proof (Z.mod_pos_bound (pos + 1) cap Hc) as Hb.
  destruct (Z.eqb_spec ((pos + 1) mod cap) 0) as [Ez|Ez].
  - assert (pos / cap = (pos + 1) / cap - 1) as ->.
    { symmetry. apply (Z.div_unique_pos _ _ _ (cap - 1)); lia. }
    rewrite Z.even_sub. by destruct (Z.even ((pos + 1) / cap)).
  - f_equal. symmetry. apply (Z.div_unique_pos _ _ _ ((pos + 1) mod cap - 1)); lia.
Qed.

(** Positions less than a lap apart do not share an element. *)
Lemma window_inj cap rd p q : 0 < cap → rd ≤ p < rd + cap → rd ≤ q < rd + cap → p mod cap = q mod cap → p = q.
Proof.
  intros Hc Hp Hq Hm. pose proof (Z.div_mod p cap ltac:(lia)) as Ep. pose proof (Z.div_mod q cap ltac:(lia)) as Eq.
  rewrite Hm in Ep. assert (p / cap = q / cap) as Ed by nia. congruence.
Qed.

Lemma ring_new_ok size f cap :
  0 < cap ≤ 255 → cap * size ≤ 4096 →
  Ring.new size (Some f) cap = Ret (mkRing _ (replicate (Z.to_nat cap) zeroed) f cap true 0 0) ∧
  ring_rel (mkRing _ (replicate (Z.to_nat cap) zeroed) f cap true 0 0) 0 [].
Proof.
  intros Hc Hs. unfold Ring.new. rewrite (proj2 (Z.ltb_lt _ _)), (proj2 (Z.leb_le _ _)) by lia.
  split; [done|]. unfold ring_rel, lap_bit. cbn [capacity trbs enqueue_index dequeue_index cycle_bit length].
  rewrite length_replicate. change (Z.of_nat 0) with 0. rewrite Z.sub_0_r, Z.mod_0_l, Z.div_0_l by lia.
  split_and!; try lia; done.
Qed.

Lemma ring_push_ok r w l x :
  ring_rel r w l → Z.of_nat (length l) < capacity r - 1 →
  ∃ r', Ring.push r x = Ret (r', w mod capacity r) ∧ capacity r' = capacity r ∧
    ring_rel r' (w + 1) (l ++ [set_cycle x (lap_bit (capacity r) w)]).
Proof.
  intros (Hc & Hl & Hr & Hw & Hi & Hd & Hb & Hin) Hlen.
  pose proof (Z.mod_pos_bound w (capacity r)) as Hm. set (cap := capacity r) in *.
  unfold Ring.push, Ring.set_trb. fold cap. rewrite (proj2 (Z.ltb_lt _ _)) by lia. cbn [assert_ mbind out_bind].
  cbn [enqueue_index]. unfold add_w. rewrite (proj2 (Z.ltb_lt _ _)) by lia. cbn. fold cap. rewrite Hi. eexists.
  split; [reflexivity|]. split; [done|]. unfold ring_rel, at_. cbn. rewrite length_insert, length_app. cbn [length].
  rewrite Nat2Z.inj_add. change (Z.of_nat 1) with 1.
  replace (w + 1 - (Z.of_nat (length l) + 1)) with (w - Z.of_nat (length l)) by lia. fold cap.
  set (rd := w - Z.of_nat (length l)) in *. rewrite Hb, succ_index, succ_lap by lia.
  split_and!; try lia; try done. intros pos Hpos. destruct (decide (pos = w)) as [->|Hne].
  - rewrite list_lookup_insert_eq by lia. rewrite lookup_app_r by lia. by replace (_ - _)%nat with 0%nat by lia.
  - rewrite list_lookup_insert_ne, lookup_app_l by first [lia | intros E; destruct Hne; symmetry;
      apply (window_inj cap rd); [lia.. |]; pose proof (Z.mod_pos_bound pos cap); lia]. apply Hin. lia.
Qed.

Lemma ring_pop_ok r w l :
  ring_rel r w l →
  match l with
  | [] => Ring.pop r = Ret (r, None)
  | x :: l => ∃ r', Ring.pop r = Ret (r', Some x) ∧ capacity r' = capacity r ∧ ring_rel r' w l
  end.
Proof.
  intros (Hc & Hl & Hr & Hw & Hi & Hd & Hb & Hin). unfold Ring.pop. destruct l as [|x l].
  - cbn [length] in Hd. rewrite Z.sub_0_r in Hd. by rewrite Hi, Hd, Z.eqb_refl.
  - cbn [length] in *. rewrite Nat2Z.inj_succ in *. set (cap := capacity r) in *.
    set (rd := w - Z.succ (Z.of_nat (length l))) in *. pose proof (Z.mod_pos_bound rd cap).
    rewrite (proj2 (Z.eqb_neq _ _)) by (rewrite Hi, Hd; intros E; apply (window_inj cap rd) in E; lia).
    unfold Ring.trb. fold cap. rewrite (proj2 (Z.ltb_lt _ _)) by lia. cbn [assert_ mbind out_bind].
    pose proof (Hin rd ltac:(lia)) as Hx. unfold at_ in Hx. rewrite Z.sub_diag in Hx. cbn [lookup list_lookup] in Hx.
    rewrite Hd, Hx. cbn [unwrap mbind out_bind]. unfold add_w. rewrite (proj2 (Z.ltb_lt _ _)) by lia. cbn [mbind out_bind].
    eexists. split; [reflexivity|]. split; [done|]. unfold ring_rel. cbn. fold cap. rewrite succ_index by lia.
    replace (w - Z.of_nat (length l)) with (rd + 1) by lia. split_and!; try lia; try done.
    intros pos Hpos. pose proof (Hin pos ltac:(lia)) as Hy.
    by replace (Z.to_nat (pos - rd)) with (S (Z.to_nat (pos - (rd + 1)))) in Hy by lia.
Qed.

Lemma use_ok acts r w l res :
  ring_rel r w l → use_queue (capacity r) acts w l = Some res → use acts r = Ret res.
Proof.
  revert r w l res. induction acts as [|[x|] acts IH]; intros r w l res Hrel E; cbn [use use_queue] in *.
  - by injection E as <-.
  - destruct (Z.ltb_spec (Z.of_nat (length l)) (capacity r - 1)) as [Hlt|]; [|done].
    destruct (ring_push_ok r w l x Hrel Hlt) as (r' & -> & Hcap & Hrel').
    apply bind_Some in E as (rs & E & [= <-]). cbn [mbind out_bind].
    by rewrite (IH r' _ _ rs Hrel') by (by rewrite Hcap).
  - pose proof (ring_pop_ok r w l Hrel) as Hpop. destruct l as [|x l].
    + apply bind_Some in E as (rs & E & [= <-]). rewrite Hpop. cbn [mbind out_bind]. by rewrite (IH r w [] rs).
    + destruct Hpop as (r' & -> & Hcap & Hrel'). apply bind_Some in E as (rs & E & [= <-]). cbn [mbind out_bind].
      by rewrite (IH r' _ _ rs Hrel') by (by rewrite Hcap).
Qed.

End ring_queue.

(** ** The controller *)

(** The controller as its manual has it (xHCI, 4.9.2 and 4.9.3): it has the address of the next block, here the index
    from the start of the ring on, and the value of the cycle bit that it waits for.  A block with the other value is not
    its own.  A link leads it to another address, and inverts that value if the link says so; it does not know the
    length of a ring.  What is behind the ring is not known: [None]. *)
Definition consumer : Type := Z * bool.

Definition is_link (x : Trb) : bool := field (control x) 10 6 =? 6.
Definition toggles (x : Trb) : bool := Z.testbit (control x) 1.

(** The controller looks once: it takes a block, or follows a link, or there is nothing for it. *)
Definition look (r : Ring Trb) (c : consumer) : option (option Trb * consumer) :=
  x ← trbs r !! Z.to_nat c.1;
  if bool_decide (Trb.cycle_bit x = c.2) then
    if is_link x then Some (None, ((parameter x - paddr r) / Trb.SIZE, xorb c.2 (toggles x)))
    else Some (Some x, (c.1 + 1, c.2))
  else Some (None, c).

(** The driver pushes, the controller looks: the blocks that the controller gets, for each time it looks, and where it
    is then.  [None] if it looks behind the ring. *)
Fixpoint exec (acts : list (action Trb)) (r : Ring Trb) (c : consumer) : out (option (list (option Trb) * consumer)) :=
  match acts with
  | [] => Ret (Some ([], c))
  | Put x :: acts => '(r, _) ← Ring.push r x; exec acts r c
  | Take :: acts =>
      match look r c with
      | None => Ret None
      | Some (o, c) => l ← exec acts r c; Ret ('(l, c) ← l; Some (o :: l, c))
      end
  end.

(** The same for a queue *)
Fixpoint exec_queue (acts : list (action Trb)) (q : list Trb) : list (option Trb) :=
  match acts with
  | [] => []
  | Put x :: acts => exec_queue acts (q ++ [x])
  | Take :: acts => head q :: exec_queue acts (tail q)
  end.

Fixpoint puts {T} (acts : list (action T)) : list T :=
  match acts with
  | [] => []
  | Put x :: acts => x :: puts acts
  | Take :: acts => puts acts
  end.

Definition owned (x : Trb) : Trb := Trb.set_cycle_bit x true.
Definition owned_action (a : action Trb) : action Trb := match a with Put x => Put (owned x) | Take => Take end.

Lemma cycle_owned x : Trb.cycle_bit (owned x) = true.
Proof.
  unfold Trb.cycle_bit, owned. cbn [Trb.set_cycle_bit control]. rewrite Z.land_lor_distr_l.
  apply negb_true_iff, Z.eqb_neq. intros E. apply (f_equal (λ z, Z.testbit z 0)) in E.
  rewrite Z.lor_spec, (Z.land_spec (Z.b2z true)) in E. change (Z.testbit (Z.b2z true) 0) with true in E.
  rewrite orb_true_r in E. done.
Qed.

Lemma link_owned x : is_link (owned x) = is_link x.
Proof. unfold is_link, owned. by rewrite field_set_cycle by lia. Qed.

Section first_lap.
Context (f cap : Z) (Hcap : 0 < cap ≤ 255).

(** A command ring after the blocks [ps] *)
Definition filled (ps : list Trb) : Ring Trb :=
  mkRing _ (ps ++ replicate (Z.to_nat cap - 1 - length ps) Trb.new ++ [LinkTrb_new f true]) f cap true
    (Z.of_nat (length ps)) 0.

Lemma linked_ring_filled : linked_ring (Some f) cap = Ret (filled []).
Proof.
  unfold linked_ring. destruct (ring_new_ok Trb.SIZE f cap Hcap) as [-> _]; [unfold Trb.SIZE; lia|].
  cbn [mbind out_bind capacity paddr]. unfold sub_w. rewrite (proj2 (Z.leb_le _ _)) by lia. cbn [mbind out_bind].
  unfold Ring.set_trb. cbn [capacity]. rewrite (proj2 (Z.ltb_lt _ _)) by lia. cbn [assert_ mbind out_bind].
  unfold filled. cbn [trbs paddr cycle_bit enqueue_index dequeue_index length app]. do 2 f_equal.
  replace (Z.to_nat cap) with (Z.to_nat cap - 1 - 0 + 1)%nat at 1 by lia. rewrite replicate_add.
  rewrite insert_app_r_alt by (rewrite length_replicate; lia). rewrite length_replicate.
  by replace (Z.to_nat (cap - 1) - (Z.to_nat cap - 1 - 0))%nat with 0%nat by lia.
Qed.

Lemma push_filled ps x :
  Z.of_nat (length ps) < cap - 1 → Ring.push (filled ps) x = Ret (filled (ps ++ [owned x]), Z.of_nat (length ps)).
Proof.
  intros Hl. unfold Ring.push, Ring.set_trb. cbn [filled trbs paddr capacity cycle_bit enqueue_index dequeue_index].
  rewrite (proj2 (Z.ltb_lt _ _)) by lia. cbn [assert_ mbind out_bind enqueue_index capacity trbs paddr cycle_bit dequeue_index].
  unfold add_w. rewrite (proj2 (Z.ltb_lt _ _)) by lia. cbn [mbind out_bind]. rewrite Z.mod_small by lia.
  rewrite (proj2 (Z.eqb_neq _ _)) by lia. unfold filled. rewrite length_app. cbn [length]. rewrite Nat2Z.id.
  rewrite insert_app_r_alt, Nat.sub_diag by lia.
  replace (Z.to_nat cap - 1 - length ps)%nat with (S (Z.to_nat cap - 1 - (length ps + 1))) by lia.
  cbn [replicate app insert list_insert]. rewrite <- app_assoc, Nat2Z.inj_add. done.
Qed.

(** The block behind the last one is not the controller's, the link included. *)
Lemma look_end ps :
  Z.of_nat (length ps) ≤ cap - 1 →
  look (filled ps) (Z.of_nat (length ps), true) = Some (None, (Z.of_nat (length ps), true)).
Proof.
  intros Hl. unfold look. cbn [filled trbs fst snd]. rewrite Nat2Z.id, lookup_app_r, Nat.sub_diag by lia.
  destruct (Z.to_nat cap - 1 - length ps)%nat; done.
Qed.

Lemma look_next ps i x :
  ps !! i = Some x → Trb.cycle_bit x = true → is_link x = false →
  look (filled ps) (Z.of_nat i, true) = Some (Some x, (Z.of_nat (S i), true)).
Proof.
  intros Hx Hc Hlk. unfold look. cbn [filled trbs fst snd].
  rewrite Nat2Z.id, lookup_app_l, Hx by (by eapply lookup_lt_Some). cbn [mbind option_bind].
  rewrite bool_decide_eq_true_2, Hlk by done. by replace (Z.of_nat i + 1) with (Z.of_nat (S i)) by lia.
Qed.

Lemma exec_first_lap acts ps i :
  (i ≤ length ps)%nat → Forall (λ x, Trb.cycle_bit x = true ∧ is_link x = false) ps →
  Forall (λ x, is_link x = false) (puts acts) → Z.of_nat (length ps + length (puts acts)) ≤ cap - 1 →
  ∃ j, exec acts (filled ps) (Z.of_nat i, true) =
    Ret (Some (exec_queue (owned_action <$> acts) (drop i ps), (Z.of_nat j, true))) ∧ Z.of_nat j ≤ cap - 1.
Proof.
  revert ps i. induction acts as [|[x|] acts IH]; intros ps i Hi Hps Hacts Hl; cbn [exec exec_queue puts fmap list_fmap] in *.
  - exists i. split; [done|lia].
  - apply Forall_cons in Hacts as [Hx Hacts]. cbn [length] in Hl. rewrite push_filled by lia. cbn [mbind out_bind].
    destruct (IH (ps ++ [owned x]) i) as (j & Ej & Hj).
    + rewrite length_app. lia.
    + apply Forall_app_2; [done|]. apply Forall_singleton. by rewrite cycle_owned, link_owned.
    + done.
    + rewrite length_app. cbn [length]. lia.
    + exists j. rewrite Ej. cbn [owned_action exec_queue]. by rewrite drop_app_le.
  - cbn [owned_action exec_queue]. destruct (decide (i = length ps)) as [->|Hne].
    + rewrite look_end by lia. destruct (IH ps (length ps)) as (j & Ej & Hj); [done..|]. exists j.
      rewrite Ej, drop_all. done.
    + destruct (lookup_lt_is_Some_2 ps i ltac:(lia)) as [x Hx]. destruct (Forall_lookup_1 _ _ _ _ Hps Hx) as [Hc Hlk].
      rewrite (look_next ps i x) by done. destruct (IH ps (S i)) as (j & Ej & Hj); [lia | done..|]. exists j.
      rewrite Ej, (drop_S _ _ _ Hx). done.
Qed.

End first_lap.

(** C22: the rings of the driver.  A new [Ring] is a circular buffer for [push] and [pop]: in any sequence of calls in
    which it never holds more than one element less than its capacity (see [ring_overwrites] for a full one), over any
    number of laps, no call panics, [push] returns the index of the element, and [pop] returns the oldest element, with
    the cycle bit of its lap, or that there is none.  For a new command or transfer ring, with its link at the end, the
    controller reads: as long as the driver has pushed no more blocks than fit before the link, none of them a link,
    the controller, whenever it looks, gets the oldest block that it has not taken, or sees that there is none, and
    it stays inside of the ring.  (One block more overwrites the link: [link_overwritten].) *)
Theorem xhci_rings f cap :
  0 < cap ≤ 255 →
  (∃ r, Ring.new Trb.SIZE (Some f) cap = Ret r ∧
     ∀ acts res, use_queue cap acts 0 [] = Some res → use (T := Trb) acts r = Ret res) ∧
  (∃ r, CommandRing_new (Some f) cap = Ret r ∧ TransferRing_new (Some f) cap = Ret r ∧
     ∀ acts, Z.of_nat (length (puts acts)) ≤ cap - 1 → Forall (λ x, is_link x = false) (puts acts) →
       ∃ j, exec acts r (0, true) = Ret (Some (exec_queue (owned_action <$> acts) [], (Z.of_nat j, true))) ∧
         Z.of_nat j ≤ cap - 1).
Proof.
  intros Hc. destruct (ring_new_ok (T := Trb) Trb.SIZE f cap Hc) as [En Hrel]; [unfold Trb.SIZE; lia|]. split.
  - eexists. split; [exact En|]. intros acts res E. exact (use_ok acts _ 0 [] res Hrel E).
  - exists (filled f cap []). split_and!; [by apply linked_ring_filled | by apply linked_ring_filled |].
    intros acts Hl Hlk. by apply (exec_first_lap f cap Hc acts [] 0).
Qed.

Definition demo_acts : list (action Trb) :=
  [Take; Put (EnableSlotCommandTrb_new 3); Put (AddressDeviceCommandTrb_new 4096 1); Take; Put (StatusStageTrb_new true false);
   Take; Take; Take; Put Trb.new; Take; Take].

(** Over two laps of a ring of three elements, and before the link of a ring of five *)
Lemma xhci_rings_witness :
  (∃ r, Ring.new Trb.SIZE (Some 8192) 3 = Ret r ∧
     use demo_acts r = Ret
       [Got None; Index 0; Index 1; Got (Some (owned (EnableSlotCommandTrb_new 3))); Index 2;
        Got (Some (owned (AddressDeviceCommandTrb_new 4096 1))); Got (Some (owned (StatusStageTrb_new true false)));
        Got None; Index 0; Got (Some Trb.new); Got None]) ∧
  (∃ r, CommandRing_new (Some 8192) 5 = Ret r ∧
     ∃ j, exec demo_acts r (0, true) = Ret (Some (exec_queue (owned_action <$> demo_acts) [], (Z.of_nat j, true))) ∧
       Z.of_nat j ≤ 4).
Proof.
  split.
  - destruct (xhci_rings 8192 3) as [(r & En & Hr) _]; [lia|]. exists r. split; [exact En|]. apply Hr.
    vm_compute. reflexivity.
  - destruct (xhci_rings 8192 5) as [_ (r & En & _ & Hr)]; [lia|]. exists r. split; [exact En|]. apply Hr.
    + cbn. lia.
    + repeat constructor.
Defined.

(** Nothing keeps the driver from a full ring: the second element makes it empty for [pop], and the third one replaces
    the first. *)
Lemma ring_overwrites :
  match Ring.new Trb.SIZE (Some 8192) 2 with
  | Ret r =>
      use [Put (EnableSlotCommandTrb_new 3); Put Trb.new; Take; Put (StatusStageTrb_new true false); Take] r =
        Ret [Index 0; Index 1; Got None; Index 0; Got (Some (StatusStageTrb_new true false))]
  | Panic => False
  end.
Proof. vm_compute. done. Qed.

(** The link at the end of a command ring is an element that [push] writes like any other: behind the block that
    replaces it the controller leaves the ring, and the third block, at the start of the ring, is not read. *)
Lemma link_overwritten :
  match CommandRing_new (Some 8192) 2 with
  | Ret r =>
      Ring.trb r 1 = Ret (LinkTrb_new 8192 true) ∧
      exec [Put Trb.new; Put (EnableSlotCommandTrb_new 3); Put (StatusStageTrb_new true false); Take] r (0, true) =
        Ret (Some ([None], (0, true))) ∧
      exec [Put Trb.new; Take; Put (EnableSlotCommandTrb_new 3); Take] r (0, true) =
        Ret (Some ([Some (owned Trb.new); Some (owned (EnableSlotCommandTrb_new 3))], (2, true))) ∧
      exec [Put Trb.new; Take; Put (EnableSlotCommandTrb_new 3); Take; Put (StatusStageTrb_new true false); Take] r
        (0, true) = Ret None
  | Panic => False
  end.
Proof. vm_compute. done. Qed.

(** ** Fields of the blocks *)

Ltac trb := unfold EnableSlotCommandTrb_new, AddressDeviceCommandTrb_new, ConfigureEndpointCommandTrb_new, LinkTrb_new,
    CommandCompletionEventTrb.new, PortStatusChangeEventTrb_new, SetupStageTrb_new, DataStageTrb_new, StatusStageTrb_new,
    Trb.with_status, Trb.with_parameter, Trb.new; cbn [parameter status control]; cbv zeta; rewrite ?set_type_new;
  unfold Trb.or_control; cbn [parameter status control].

(** The blocks have the type of their constructor, and their arguments in the fields. *)
Lemma enable_slot_fields s : 0 ≤ s < 2 ^ 5 →
  Trb.trb_type (EnableSlotCommandTrb_new s) = Ret TrbType.EnableSlotCommand ∧
  field (control (EnableSlotCommandTrb_new s)) 16 5 = s.
Proof.
  intros Hs. trb. rewrite (mask_low s 5), (shl_small 32 s 16 5) by (done || lia).
  split; [apply trb_type_control; cbn [control]|]; by fields.
Qed.

Lemma configure_endpoint_fields p s (d : bool) : 0 ≤ s < 2 ^ 8 →
  let t := ConfigureEndpointCommandTrb_new p s d in
  Trb.trb_type t = Ret TrbType.ConfigureEndpointCommand ∧ parameter t = p ∧ field (control t) 24 8 = s ∧
  field (control t) 9 1 = Z.b2z d.
Proof.
  intros Hs. cbv zeta. destruct d; trb; rewrite (mask_low s 8), (shl_small 32 s 24 8) by (done || lia);
    rewrite ?(shl_small 32 1 9 1) by lia; (split_and!; [apply trb_type_control; cbn [control] | done | ..]); by fields.
Qed.

Lemma setup_stage_fields rt rq v i n tt_ :
  0 ≤ rt < 2 ^ 8 → 0 ≤ rq < 2 ^ 8 → 0 ≤ v < 2 ^ 16 → 0 ≤ i < 2 ^ 16 → 0 ≤ n < 2 ^ 16 → 0 ≤ tt_ < 2 ^ 2 →
  let t := SetupStageTrb_new rt rq v i n tt_ in
  Trb.trb_type t = Ret TrbType.SetupStage ∧ field (control t) 16 2 = tt_ ∧ field (control t) 6 1 = 1 ∧
  field (parameter t) 0 8 = rt ∧ field (parameter t) 8 8 = rq ∧ field (parameter t) 16 16 = v ∧
  field (parameter t) 32 16 = i ∧ field (parameter t) 48 16 = n.
Proof.
  intros Hrt Hrq Hv Hi Hn Ht. cbv zeta. trb.
  rewrite (mask_low tt_ 2), (shl_small 32 tt_ 16 2), (shl_small 32 1 6 1), (shl_small 64 rq 8 8),
    (shl_small 64 v 16 16), (shl_small 64 i 32 16), (shl_small 64 n 48 16) by (done || lia).
  split_and!; [apply trb_type_control; cbn [control] | ..]; fields; rewrite ?(field_low rt 8) by lia;
    rewrite ?(field_high rt 8), ?Z.lor_0_l by lia; done.
Qed.

(** The number of the slot that a completion event is made with is not the one that is read from it. *)
Lemma completion_event_fields p code s : 0 ≤ s < 2 ^ 8 →
  let t := CommandCompletionEventTrb.new p code s in
  CommandCompletionEventTrb.command_trb_ptr t = p ∧ CommandCompletionEventTrb.completion_code t = Some code ∧
  CommandCompletionEventTrb.slot_id t = 0.
Proof.
  intros Hs. cbv zeta. unfold CommandCompletionEventTrb.command_trb_ptr, CommandCompletionEventTrb.completion_code,
    CommandCompletionEventTrb.slot_id. trb.
  assert (0 ≤ CompletionCode.as_u8 code < 2 ^ 8) by (destruct code; cbn; lia).
  rewrite (shl_small 32 (CompletionCode.as_u8 code) 24 8), (shl_small 32 s 16 8) by lia. split_and!; [done | |].
  - rewrite Z.shiftr_lor, !Z.shiftr_shiftl_l by lia. cbn [Z.sub]. replace (24 - 24) with 0 by lia.
    rewrite Z.shiftl_0_r. rewrite (Z.shiftl_div_pow2 s) by lia. replace (s / 2 ^ (- (16 - 24))) with 0.
    + rewrite Z.lor_0_r. apply code_roundtrip.
    + symmetry. apply Z.div_small. done.
  - done.
Qed.
