(* ===== verification/Nvme.v ===== *)
(** * Queues of the NVMe driver

    [kernel/src/drivers/storage/nvme/queue.rs] and [.../queue/admin.rs]: the submission queue, into which the driver
    writes commands, the completion queue, into which the controller writes results, and the commands of the
    administrator; [kernel/src/drivers/storage/nvme.rs]: the commands of the start-up, one after another, and the wait
    for the result of each. *)

From S2P Require Import Prelude Bits.

(** ** Commands and results *)

(** The counter [ID_CNTR] is part of the state. *)
Module CommandIdentifier.

Definition new (cntr : Z) : Z * Z :=
  let raw_id := cntr in
  let cntr := wrapping_add 16 cntr 1 in
  if raw_id =? 0xFFFF then (0, 0) else (raw_id, cntr).

End CommandIdentifier.

Module CommandDwordZero.

Definition new (opcode : Z) (cntr : Z) : Z * Z :=
  let fused_op := 0 in
  let prp := 0 in
  let '(id, cntr) := CommandIdentifier.new cntr in
  (Z.lor (Z.lor (Z.lor opcode (shl_w 32 fused_op 8)) (shl_w 32 prp 14)) (shl_w 32 id 16), cntr).

Definition id (self : Z) : Z := Z.shiftr self 16.

End CommandDwordZero.

Record SubmissionEntry := mkSubmission {
  dword0 : Z;
  nsid : Z;
  metadata_ptr : Z;
  data_ptr : list Z;
  command_specific : list Z;
}.

Module SubmissionEntry.

Definition zeroed : SubmissionEntry := mkSubmission 0 0 0 [0; 0] [0; 0; 0; 0; 0; 0].
Definition zero_with_opcode (opcode : Z) (cntr : Z) : SubmissionEntry * Z :=
  let '(dword0, cntr) := CommandDwordZero.new opcode cntr in
  (mkSubmission dword0 0 0 [0; 0] [0; 0; 0; 0; 0; 0], cntr).
Definition command_id (self : SubmissionEntry) : Z := CommandDwordZero.id (dword0 self).

(** [entry.nsid = x], [entry.data_ptr[0] = x] and [entry.command_specific[i] = x] *)
Definition with_nsid (self : SubmissionEntry) (x : Z) : SubmissionEntry :=
  mkSubmission (dword0 self) x (metadata_ptr self) (data_ptr self) (command_specific self).
Definition with_data (self : SubmissionEntry) (x : Z) : SubmissionEntry :=
  mkSubmission (dword0 self) (nsid self) (metadata_ptr self) (<[0%nat := x]> (data_ptr self)) (command_specific self).
Definition with_specific (self : SubmissionEntry) (i : nat) (x : Z) : SubmissionEntry :=
  mkSubmission (dword0 self) (nsid self) (metadata_ptr self) (data_ptr self) (<[i := x]> (command_specific self)).

End SubmissionEntry.

Inductive IdentifyTarget := Controller | Namespace (nsid : Z) | NamespaceList.

Module AdminSubmissionEntry.

Definition new_identify (target : IdentifyTarget) (buffer : Z) (cntr : Z) : SubmissionEntry * Z :=
  let '(entry, cntr) := SubmissionEntry.zero_with_opcode 0x06 cntr in
  let '(entry, dword10) :=
    match target with
    | Controller => (entry, 0x01)
    | Namespace nsid => (SubmissionEntry.with_nsid entry nsid, 0x00)
    | NamespaceList => (entry, 0x02)
    end in
  let entry := SubmissionEntry.with_data entry buffer in
  (SubmissionEntry.with_specific entry 0 dword10, cntr).

Definition new_create_io_cq (qid entries base iv : Z) (enable_interrupts : bool) (cntr : Z) : SubmissionEntry * Z :=
  let '(entry, cntr) := SubmissionEntry.zero_with_opcode 0x05 cntr in
  let entry := SubmissionEntry.with_data entry base in
  let dword10 := Z.lor (shl_w 32 entries 16) qid in
  let ien_bit := if enable_interrupts then shl_w 32 1 1 else 0 in
  let dword11 := Z.lor (Z.lor (shl_w 32 iv 16) ien_bit) 1 in
  let entry := SubmissionEntry.with_specific entry 0 dword10 in
  (SubmissionEntry.with_specific entry 1 dword11, cntr).

Definition new_create_io_sq (qid entries base cqid priority : Z) (cntr : Z) : SubmissionEntry * Z :=
  let '(entry, cntr) := SubmissionEntry.zero_with_opcode 0x01 cntr in
  let entry := SubmissionEntry.with_data entry base in
  let dword10 := Z.lor (shl_w 32 entries 16) qid in
  let dword11 := Z.lor (Z.lor (shl_w 32 cqid 16) (shl_w 32 (Z.land priority 3) 1)) 1 in
  let entry := SubmissionEntry.with_specific entry 0 dword10 in
  (SubmissionEntry.with_specific entry 1 dword11, cntr).

End AdminSubmissionEntry.

Record CompletionEntry := mkCompletion { specific : Z; s_queue_head : Z; s_queue_id : Z; cid : Z; status : Z }.

Module CompletionEntry.

Definition zeroed : CompletionEntry := mkCompletion 0 0 0 0 0.
Definition has_finished (self : CompletionEntry) : bool := negb (Z.land (status self) 1 =? 0).
Definition is_success (self : CompletionEntry) : out bool :=
  assert_ (has_finished self);;
  Ret (Z.land (status self) (0xFFFF - 1) =? 0).
Definition status_code (self : CompletionEntry) : Z := Z.land (Z.shiftr (status self) 1) 0x7FFF.

End CompletionEntry.

(** ** Queues *)

(** The entries are those in the frame of the queue, the doorbell is what was written last. *)
Record Queue {T : Type} := mkQueue { base : list T; size : Z; tail : Z; head : Z; doorbell : option Z }.
Arguments Queue T : clear implicits.

Module Queue.

(** [frame] is the frame that the allocator returns, [bytes] the size of an entry. *)
Definition new {T} (zeroed : T) (bytes : Z) (frame : option Z) : out (option (Queue T)) :=
  match frame with
  | None => Ret None
  | Some _ =>
      let size := 4096 / bytes in
      assert_ (size <? 2 ^ 16);;
      Ret (Some (mkQueue _ (replicate (Z.to_nat size) zeroed) size 0 0 None))
  end.

End Queue.

Module SubmissionQueue.

Definition ENTRY : Z := 64.
Definition new (frame : option Z) : out (option (Queue SubmissionEntry)) := Queue.new SubmissionEntry.zeroed ENTRY frame.

Definition is_full (self : Queue SubmissionEntry) : bool := wrapping_add 16 (tail self) 1 mod size self =? head self.

Definition flush (self : Queue SubmissionEntry) : Queue SubmissionEntry :=
  mkQueue _ (base self) (size self) (tail self) (head self) (Some (tail self)).

Definition push (self : Queue SubmissionEntry) (entry : SubmissionEntry) : out (Queue SubmissionEntry) :=
  assert_ (negb (is_full self));;
  let base := <[Z.to_nat (tail self) := entry]> (base self) in
  let tail := wrapping_add 16 (tail self) 1 mod size self in
  Ret (flush (mkQueue _ base (size self) tail (head self) (doorbell self))).

End SubmissionQueue.

Module CompletionQueue.

Definition ENTRY : Z := 16.
Definition new (frame : option Z) : out (option (Queue CompletionEntry)) := Queue.new CompletionEntry.zeroed ENTRY frame.

Definition flush (self : Queue CompletionEntry) : Queue CompletionEntry :=
  mkQueue _ (base self) (size self) (tail self) (head self) (Some (head self)).

Definition pop (self : Queue CompletionEntry) : out (Queue CompletionEntry * option CompletionEntry) :=
  entry ← unwrap (base self !! Z.to_nat (head self));
  if negb (CompletionEntry.has_finished entry) then Ret (self, None)
  else
    let head := wrapping_add 16 (head self) 1 mod size self in
    Ret (flush (mkQueue _ (base self) (size self) (tail self) head (doorbell self)), Some entry).

End CompletionQueue.

(** The loop that waits for the result of the command [id].  [world n] is what the controller does to the memory of the
    queue before the round [n]; [None] if the loop has not ended after [fuel] rounds. *)
Fixpoint wait_for (world : nat → list CompletionEntry → list CompletionEntry) (id : Z) (fuel n : nat)
    (acq : Queue CompletionEntry) : out (Queue CompletionEntry * option CompletionEntry) :=
  match fuel with
  | O => Ret (acq, None)
  | S fuel =>
      let acq := mkQueue _ (world n (base acq)) (size acq) (tail acq) (head acq) (doorbell acq) in
      '(acq, o) ← CompletionQueue.pop acq;
      match o with
      | Some v => if cid v =? id then Ret (acq, Some v) else wait_for world id fuel (S n) acq
      | None => wait_for world id fuel (S n) acq
      end
  end.

Inductive DriverError := Absent | Invalid | Unknown.

(** The two queues of the administrator, [asq] and [acq] *)
Definition queues : Type := Queue SubmissionEntry * Queue CompletionEntry.

(** A command is pushed, then its result waited for. *)
Definition command (world : nat → list CompletionEntry → list CompletionEntry) (fuel : nat) (entry : SubmissionEntry)
    (q : queues) : out (queues * option CompletionEntry) :=
  let id := SubmissionEntry.command_id entry in
  asq ← SubmissionQueue.push q.1 entry;
  '(acq, o) ← wait_for world id fuel 0 q.2;
  Ret ((asq, acq), o).

(** A command that has to succeed; [None] if its wait has not ended after [fuel] rounds *)
Definition checked_command {A} (world : nat → list CompletionEntry → list CompletionEntry) (fuel : nat)
    (entry : SubmissionEntry) (q : queues) (k : queues → out (queues * option (result A DriverError))) :
    out (queues * option (result A DriverError)) :=
  '(q, o) ← command world fuel entry q;
  match o with
  | None => Ret (q, None)
  | Some res =>
      success ← CompletionEntry.is_success res;
      if negb success then Ret (q, Some (Err Unknown)) else k q
  end.

(** The entries that a queue of the length [entries] may use of the [mqes] of the controller, counted from 0 *)
Definition queue_entries (entries mqes : Z) : Z := saturating_sub (Z.min entries (saturating_add 16 mqes 1)) 1.

(** The second and third part of [init]: the controller identifies itself, then it learns of the two queues for data.
    The three frames are those that the allocator returns, [worlds j] is the controller during the wait [j]. *)
Definition init_commands (worlds : nat → nat → list CompletionEntry → list CompletionEntry) (fuel : nat)
    (frame cq_frame sq_frame : option Z) (mqes cntr : Z) (q : queues) :
    out (queues * option (result (Queue CompletionEntry * Queue SubmissionEntry) DriverError)) :=
  frame ← unwrap frame;
  let '(identify_cmd, cntr) := AdminSubmissionEntry.new_identify Controller frame cntr in
  checked_command (worlds 0%nat) fuel identify_cmd q (λ q,
  io_cq ← CompletionQueue.new cq_frame;
  match io_cq, cq_frame with
  | Some io_cq, Some cq_paddr =>
      io_sq ← SubmissionQueue.new sq_frame;
      match io_sq, sq_frame with
      | Some io_sq, Some sq_paddr =>
          let cq_entries := queue_entries (size io_cq) mqes in
          let sq_entries := queue_entries (size io_sq) mqes in
          let '(create_cq, cntr) := AdminSubmissionEntry.new_create_io_cq 1 cq_entries cq_paddr 0 true cntr in
          checked_command (worlds 1%nat) fuel create_cq q (λ q,
          let '(create_sq, cntr) := AdminSubmissionEntry.new_create_io_sq 1 sq_entries sq_paddr 1 0 cntr in
          checked_command (worlds 2%nat) fuel create_sq q (λ q,
          Ret (q, Some (Ok (io_cq, io_sq)))))
      | _, _ => Ret (q, Some (Err Unknown))
      end
  | _, _ => Ret (q, Some (Err Unknown))
  end).

(** ** Submission *)

Fixpoint push_all (q : Queue SubmissionEntry) (es : list SubmissionEntry) : out (Queue SubmissionEntry) :=
  match es with
  | [] => Ret q
  | e :: es => q ← SubmissionQueue.push q e; push_all q es
  end.

(** The queue after the commands [es], from a new queue on *)
Definition submitted (es : list SubmissionEntry) : Queue SubmissionEntry :=
  mkQueue _ (es ++ replicate (64 - length es) SubmissionEntry.zeroed) 64 (Z.of_nat (length es)) 0
    (match es with [] => None | _ => Some (Z.of_nat (length es)) end).

Lemma push_room es e : (length es < 63)%nat → SubmissionQueue.push (submitted es) e = Ret (submitted (es ++ [e])).
Proof.
  intros Hlt. unfold SubmissionQueue.push, SubmissionQueue.is_full, SubmissionQueue.flush, wrapping_add, submitted.
  cbn [tail size head base doorbell]. rewrite (Z.mod_small _ (2 ^ 16)) by lia. rewrite (Z.mod_small _ 64) by lia.
  rewrite (proj2 (Z.eqb_neq _ _)) by lia. cbn [negb assert_ mbind out_bind]. rewrite Nat2Z.id, length_app. cbn [length].
  rewrite insert_app_r_alt, Nat.sub_diag by lia.
  replace (64 - length es)%nat with (S (64 - (length es + 1))) by lia. cbn [replicate insert list_insert].
  rewrite <- app_assoc, Nat2Z.inj_add. by destruct es.
Qed.

Lemma push_full es e : length es = 63%nat → SubmissionQueue.push (submitted es) e = Panic.
Proof.
  intros E. unfold SubmissionQueue.push, SubmissionQueue.is_full, submitted. cbn [tail size head]. by rewrite E.
Qed.

Lemma push_all_app q es es' : push_all q (es ++ es') = (q ← push_all q es; push_all q es').
Proof.
  revert q. induction es as [|e es IH]; intros q; [done|]. cbn.
  destruct (SubmissionQueue.push q e) as [q'|]; [apply IH | done].
Qed.

Lemma push_all_new es : (length es ≤ 63)%nat → push_all (submitted []) es = Ret (submitted es).
Proof.
  induction es as [|e es IH] using rev_ind; intros Hl; [done|]. rewrite length_app in Hl. cbn in Hl.
  rewrite push_all_app, IH by lia. cbn [push_all mbind out_bind]. by rewrite push_room by lia.
Qed.

(** The head of the queue stands still, so that the driver panics at its command number 64. *)
Lemma push_all_full es e es' : length es = 63%nat → push_all (submitted []) (es ++ e :: es') = Panic.
Proof.
  intros Hl. rewrite push_all_app, push_all_new by lia. cbn [push_all mbind out_bind]. by rewrite push_full.
Qed.

(** ** Completion *)

(** What the controller has written after its first [p] results, in a queue that it has not filled yet: results have
    the bit of the first round, the entries behind them are as the driver has cleared them. *)
Definition posted (posts : list CompletionEntry) (p : nat) : list CompletionEntry :=
  take p posts ++ replicate (256 - p) CompletionEntry.zeroed.
Definition controller (posts : list CompletionEntry) (p : nat → nat) : nat → list CompletionEntry → list CompletionEntry :=
  λ n _, posted posts (p n).

Definition completion_queue (mem : list CompletionEntry) (h : nat) (bell : option Z) : Queue CompletionEntry :=
  mkQueue _ mem 256 0 (Z.of_nat h) bell.

Lemma posted_lookup posts p h :
  (p ≤ 255)%nat → (p ≤ length posts)%nat → (h ≤ p)%nat →
  posted posts p !! h = if (h <? p)%nat then posts !! h else Some CompletionEntry.zeroed.
Proof.
  intros Hp Hl Hh. unfold posted. destruct (Nat.ltb_spec h p).
  - rewrite lookup_app_l by (rewrite length_take; lia). by apply lookup_take_lt.
  - rewrite lookup_app_r by (rewrite length_take; lia). rewrite length_take. apply lookup_replicate_2. lia.
Qed.

Lemma pop_posted posts p h bell e :
  (p ≤ 255)%nat → (p ≤ length posts)%nat → (h < p)%nat → posts !! h = Some e → CompletionEntry.has_finished e = true →
  CompletionQueue.pop (completion_queue (posted posts p) h bell) =
    Ret (completion_queue (posted posts p) (S h) (Some (Z.of_nat (S h))), Some e).
Proof.
  intros Hp Hl Hh He Hf. unfold CompletionQueue.pop, completion_queue. cbn [base head size tail doorbell].
  rewrite Nat2Z.id, posted_lookup, (proj2 (Nat.ltb_lt _ _)), He by lia. cbn [unwrap mbind out_bind]. rewrite Hf. cbn [negb].
  unfold CompletionQueue.flush, wrapping_add. cbn [base head size tail].
  rewrite (Z.mod_small _ (2 ^ 16)), (Z.mod_small _ 256) by lia. by replace (Z.of_nat (S h)) with (Z.of_nat h + 1) by lia.
Qed.

Lemma pop_unposted posts p h bell :
  (p ≤ 255)%nat → (p ≤ length posts)%nat → h = p →
  CompletionQueue.pop (completion_queue (posted posts p) h bell) = Ret (completion_queue (posted posts p) h bell, None).
Proof.
  intros Hp Hl ->. unfold CompletionQueue.pop, completion_queue. cbn [base head]. rewrite Nat2Z.id.
  rewrite posted_lookup, (proj2 (Nat.ltb_ge _ _)) by lia. done.
Qed.

Section wait.
Context (posts : list CompletionEntry) (p : nat → nat).

(** The controller posts its results in order and has room for all of them; it has posted the result [k] by the round
    [N].  All results have the bit of the first round. *)
Hypothesis (Hmono : ∀ n m, (n ≤ m)%nat → (p n ≤ p m)%nat) (Hroom : ∀ n, (p n ≤ length posts)%nat)
  (Hlap : (length posts ≤ 255)%nat) (Hfin : ∀ e, e ∈ posts → CompletionEntry.has_finished e = true).

Lemma wait_round id fuel n mem h bell :
  wait_for (controller posts p) id (S fuel) n (completion_queue mem h bell) =
    ('(acq, o) ← CompletionQueue.pop (completion_queue (posted posts (p n)) h bell);
     match o with
     | Some v => if cid v =? id then Ret (acq, Some v) else wait_for (controller posts p) id fuel (S n) acq
     | None => wait_for (controller posts p) id fuel (S n) acq
     end).
Proof. done. Qed.

Lemma wait_for_ok id N k e fuel n h mem bell :
  posts !! k = Some e → cid e = id → (∀ j e', (h ≤ j < k)%nat → posts !! j = Some e' → cid e' ≠ id) →
  (k < p N)%nat → (h ≤ k)%nat → (h ≤ p n)%nat → (N - n + (k - h) < fuel)%nat →
  ∃ n', (k < p n')%nat ∧ wait_for (controller posts p) id fuel n (completion_queue mem h bell) =
    Ret (completion_queue (posted posts (p n')) (S k) (Some (Z.of_nat (S k))), Some e).
Proof.
  intros Hk Hid Hother HN. revert n h mem bell Hother. induction fuel as [|fuel IH]; intros n h mem bell Hother Hhk Hhp Hf; [lia|].
  rewrite wait_round. pose proof (Hroom n) as Hr. pose proof (Hmono n (S n) ltac:(lia)) as HS.
  destruct (decide (h < p n)%nat) as [Hlt|Hge].
  - destruct (lookup_lt_is_Some_2 posts h ltac:(lia)) as [e' He'].
    rewrite (pop_posted posts (p n) h bell e') by
      (first [done | lia | apply Hfin; by eapply list_elem_of_lookup_2]). cbn [mbind out_bind].
    destruct (decide (h = k)) as [->|Hne].
    + rewrite Hk in He'. injection He' as <-. rewrite Hid, Z.eqb_refl. by exists n.
    + rewrite (proj2 (Z.eqb_neq _ _)) by (eapply Hother; [|done]; lia).
      apply IH; [intros j e'' Hj; apply Hother; lia | lia..].
  - rewrite pop_unposted by lia. cbn [mbind out_bind]. assert (n < N)%nat.
    { destruct (decide (n < N)%nat) as [|HnN]; [done|]. pose proof (Hmono N n ltac:(lia)). lia. }
    apply IH; [done | lia..].
Qed.

End wait.

(** The bits of the status without the first one *)
Lemma status_bits x : Z.land x (0xFFFF - 1) = Z.shiftl (Z.land (Z.shiftr x 1) 0x7FFF) 1.
Proof.
  apply Z.bits_inj'. intros i Hi. change (0xFFFF - 1) with (Z.shiftl (Z.ones 15) 1). change 0x7FFF with (Z.ones 15).
  rewrite Z.land_spec, !Z.shiftl_spec, Z.land_spec by lia. destruct (decide (i = 0)) as [->|].
  - by rewrite !(Z.testbit_neg_r _ (0 - 1)), andb_false_r by lia.
  - rewrite Z.shiftr_spec by lia. by replace (i - 1 + 1) with i by lia.
Qed.

Lemma is_success_spec e :
  CompletionEntry.has_finished e = true → CompletionEntry.is_success e = Ret (CompletionEntry.status_code e =? 0).
Proof.
  intros Hf. unfold CompletionEntry.is_success. rewrite Hf. cbn [assert_ mbind out_bind]. rewrite status_bits.
  unfold CompletionEntry.status_code. rewrite Z.shiftl_mul_pow2 by lia. f_equal.
  destruct (Z.eqb_spec (Z.land (Z.shiftr (status e) 1) 0x7FFF) 0) as [->|]; [done|]. apply Z.eqb_neq. lia.
Qed.

(** *** Commands one after another *)

(** What a controller answers to a command: the result names the command and has the bit of the first round. *)
Definition answers (answer : SubmissionEntry → CompletionEntry) : Prop :=
  ∀ e, CompletionEntry.has_finished (answer e) = true ∧ cid (answer e) = SubmissionEntry.command_id e.

(** During the wait [j] the controller has answered the commands before it; its answer to the command [j] comes after
    [delay j] rounds. *)
Definition served (answer : SubmissionEntry → CompletionEntry) (delay : nat → nat) (es : list SubmissionEntry) (j : nat) :
    nat → list CompletionEntry → list CompletionEntry :=
  controller (answer <$> es) (λ n, if (n <? delay j)%nat then j else S j).

(** The queues after the commands [es] and the answers to all of them *)
Definition exchanged (answer : SubmissionEntry → CompletionEntry) (es : list SubmissionEntry) : queues :=
  (submitted es,
   completion_queue (posted (answer <$> es) (length es)) (length es)
     (match es with [] => None | _ => Some (Z.of_nat (length es)) end)).

(** The commands [es] from number [j] on, each pushed when the one before is answered, and their results *)
Fixpoint commands (worlds : nat → nat → list CompletionEntry → list CompletionEntry) (fuel j : nat)
    (es : list SubmissionEntry) (q : queues) : out (queues * list (option CompletionEntry)) :=
  match es with
  | [] => Ret (q, [])
  | e :: es =>
      '(q, o) ← command (worlds j) fuel e q;
      '(q, os) ← commands worlds fuel (S j) es q;
      Ret (q, o :: os)
  end.

(** The commands of the start-up *)
Definition init_entries (frame cq_frame sq_frame mqes cntr : Z) : list SubmissionEntry :=
  let '(identify_cmd, cntr) := AdminSubmissionEntry.new_identify Controller frame cntr in
  let '(create_cq, cntr) := AdminSubmissionEntry.new_create_io_cq 1 (queue_entries 256 mqes) cq_frame 0 true cntr in
  let '(create_sq, cntr) := AdminSubmissionEntry.new_create_io_sq 1 (queue_entries 64 mqes) sq_frame 1 0 cntr in
  [identify_cmd; create_cq; create_sq].

Definition succeeds (answer : SubmissionEntry → CompletionEntry) (e : SubmissionEntry) : bool :=
  CompletionEntry.status_code (answer e) =? 0.

(** How many of the commands [es] are sent when the driver stops at the first one that fails *)
Fixpoint sent (answer : SubmissionEntry → CompletionEntry) (es : list SubmissionEntry) : nat :=
  match es with
  | [] => 0
  | e :: es => if succeeds answer e then S (sent answer es) else 1
  end.

Lemma posted_take {A} (f : A → CompletionEntry) es p : posted (f <$> take p es) p = posted (f <$> es) p.
Proof. unfold posted. by rewrite fmap_take, take_take, Nat.min_id. Qed.

Section exchange.
Context (answer : SubmissionEntry → CompletionEntry) (delay : nat → nat) (fuel : nat).
Hypothesis (Hans : answers answer) (Hdelay : ∀ j, (delay j < fuel)%nat).

Lemma command_ok es j e :
  (length es ≤ 63)%nat → es !! j = Some e →
  command (served answer delay es j) fuel e (exchanged answer (take j es)) =
    Ret (exchanged answer (take (S j) es), Some (answer e)).
Proof.
  intros Hl He. pose proof (lookup_lt_Some _ _ _ He) as Hj. unfold command, exchanged. cbn [fst snd].
  rewrite (take_S_r _ _ _ He), push_room by (rewrite length_take; lia). cbn [mbind out_bind].
  rewrite length_app, !length_take, Nat.min_l by lia. cbn [length].
  destruct (wait_for_ok (answer <$> es) (λ n, if (n <? delay j)%nat then j else S j)) with
    (id := SubmissionEntry.command_id e) (N := delay j) (k := j) (e := answer e) (fuel := fuel) (n := 0%nat) (h := j)
    (mem := posted (answer <$> take j es) j) (bell := match take j es with [] => None | _ :: _ => Some (Z.of_nat j) end)
    as (n' & Hn' & Ew).
  - intros n m Hnm. destruct (Nat.ltb_spec n (delay j)), (Nat.ltb_spec m (delay j)); lia.
  - intros n. rewrite length_fmap. destruct (n <? delay j)%nat; lia.
  - rewrite length_fmap. lia.
  - intros e' (e'' & -> & _)%list_elem_of_fmap. apply Hans.
  - by rewrite list_lookup_fmap, He.
  - apply Hans.
  - lia.
  - rewrite Nat.ltb_irrefl. lia.
  - lia.
  - destruct (0 <? delay j)%nat; lia.
  - pose proof (Hdelay j). lia.
  - unfold served. rewrite Ew. cbn [mbind out_bind]. replace (j + 1)%nat with (S j) by lia.
    destruct (n' <? delay j)%nat; [lia|]. rewrite <- (take_S_r _ _ _ He), posted_take.
    destruct es; [by apply lookup_lt_Some in He; cbn in He; lia | done].
Qed.

Lemma commands_ok es j :
  (length es ≤ 63)%nat →
  commands (served answer delay es) fuel j (drop j es) (exchanged answer (take j es)) =
    Ret (exchanged answer es, Some ∘ answer <$> drop j es).
Proof.
  intros Hl. remember (length es - j)%nat as d eqn:Hd. revert j Hd. induction d as [|d IH]; intros j Hd.
  - by rewrite drop_ge, take_ge by lia.
  - destruct (lookup_lt_is_Some_2 es j ltac:(lia)) as [e He]. rewrite (drop_S _ _ _ He). cbn [commands fmap list_fmap].
    rewrite command_ok by done. cbn [mbind out_bind]. by rewrite IH by lia.
Qed.

Lemma checked_command_ok {A} es j e (k : queues → out (queues * option (result A DriverError))) :
  (length es ≤ 63)%nat → es !! j = Some e →
  checked_command (served answer delay es j) fuel e (exchanged answer (take j es)) k =
    if succeeds answer e then k (exchanged answer (take (S j) es))
    else Ret (exchanged answer (take (S j) es), Some (Err Unknown)).
Proof.
  intros Hl He. unfold checked_command. rewrite command_ok by done. cbn [mbind out_bind].
  rewrite is_success_spec by apply Hans. cbn [mbind out_bind]. unfold succeeds. by destruct (_ =? 0).
Qed.

Lemma init_commands_ok frame cq_frame sq_frame mqes cntr io_cq io_sq :
  CompletionQueue.new (Some cq_frame) = Ret (Some io_cq) → SubmissionQueue.new (Some sq_frame) = Ret (Some io_sq) →
  let es := init_entries frame cq_frame sq_frame mqes cntr in
  init_commands (served answer delay es) fuel (Some frame) (Some cq_frame) (Some sq_frame) mqes cntr (exchanged answer []) =
    Ret (exchanged answer (take (sent answer es) es),
         Some (if forallb (succeeds answer) es then Ok (io_cq, io_sq) else Err Unknown)).
Proof.
  intros [= <-] [= <-]. unfold init_commands, init_entries. cbn [unwrap mbind out_bind].
  destruct (AdminSubmissionEntry.new_identify _ _ _) as [e1 c1].
  destruct (AdminSubmissionEntry.new_create_io_cq _ _ _ _ _ _) as [e2 c2] eqn:E2.
  destruct (AdminSubmissionEntry.new_create_io_sq _ _ _ _ _ _) as [e3 c3] eqn:E3.
  set (es := [e1; e2; e3]). change (exchanged answer []) with (exchanged answer (take 0 es)).
  rewrite (checked_command_ok es 0 e1) by (cbn; done || lia). cbn [forallb sent es].
  destruct (succeeds answer e1); [|done]. cbn [andb mbind out_bind].
  change (CompletionQueue.new (Some cq_frame)) with (Ret (Some (completion_queue (replicate 256 CompletionEntry.zeroed) 0 None))).
  change (SubmissionQueue.new (Some sq_frame)) with (Ret (Some (submitted []))).
  cbn [mbind out_bind]. cbn [size submitted completion_queue]. rewrite E2.
  rewrite (checked_command_ok es 1 e2) by (cbn; done || lia).
  destruct (succeeds answer e2); [|done]. cbn [andb]. rewrite E3.
  rewrite (checked_command_ok es 2 e3) by (cbn; done || lia).
  by destruct (succeeds answer e3).
Qed.

End exchange.


(** A controller that refuses to create the submission queue *)
Definition demo_answer (e : SubmissionEntry) : CompletionEntry :=
  mkCompletion 0 0 0 (SubmissionEntry.command_id e) (if Z.land (dword0 e) 0xFF =? 1 then 5 else 1).


(** In the second round the bit of the first round is still there: an entry that the controller has not written again
    counts as a result. *)
Lemma stale_completion :
  let old := mkCompletion 0 0 0 9 1 in
  CompletionQueue.pop (mkQueue _ [old; old] 2 0 1 None) = Ret (mkQueue _ [old; old] 2 0 0 (Some 0), Some old) ∧
  CompletionQueue.pop (mkQueue _ [old; old] 2 0 0 (Some 0)) = Ret (mkQueue _ [old; old] 2 0 1 (Some 1), Some old).
Proof. done. Qed.

(** ** Identifiers *)

Lemma id_range cntr : 0 ≤ cntr < 2 ^ 16 → 0 ≤ (CommandIdentifier.new cntr).1 < 0xFFFF ∧ 0 ≤ (CommandIdentifier.new cntr).2 < 2 ^ 16.
Proof.
  intros Hc. unfold CommandIdentifier.new, wrapping_add. destruct (Z.eqb_spec cntr 0xFFFF); cbn; [lia|].
  rewrite Z.mod_small by lia. lia.
Qed.

(** A command carries its identifier. *)
Lemma command_id_roundtrip opcode cntr :
  0 ≤ opcode < 2 ^ 8 → 0 ≤ cntr < 2 ^ 16 →
  SubmissionEntry.command_id (SubmissionEntry.zero_with_opcode opcode cntr).1 = (CommandIdentifier.new cntr).1.
Proof.
  intros Ho Hc. destruct (id_range cntr Hc) as [Hid _]. unfold SubmissionEntry.zero_with_opcode, CommandDwordZero.new.
  destruct (CommandIdentifier.new cntr) as [id c]. cbn [fst] in *.
  change (shl_w 32 0 8) with 0. change (shl_w 32 0 14) with 0. rewrite !Z.lor_0_r. unfold SubmissionEntry.command_id, CommandDwordZero.id, shl_w.
  rewrite Z.mod_small by (rewrite Z.shiftl_mul_pow2 by lia; lia). cbn [dword0].
  rewrite Z.shiftr_lor, Z.shiftr_shiftl_l, Z.sub_diag, Z.shiftl_0_r by lia.
  rewrite Z.shiftr_div_pow2, Z.div_small by lia. apply Z.lor_0_l.
Qed.

(** When the counter starts again the identifier 0 is given twice in a row. *)
Lemma id_twice : CommandIdentifier.new 0xFFFF = (0, 0) ∧ CommandIdentifier.new 0 = (0, 1).
Proof. done. Qed.
