(* ===== verification/Video.v ===== *)
(** * Pixels and text

    [beskar-core/src/video.rs]: colours and pixels; [beskar-core/src/video/writer.rs]: a writer that draws text into a
    frame buffer.  The shapes of the characters are those of a font, a parameter. *)

From S2P Require Import Prelude NetUtils Bits.

(** ** Pixels *)

Record PixelComponents := mkComponents { red : Z; green : Z; blue : Z }.

Inductive PixelFormat := Rgb | Bgr | Bitmask (red green blue : Z).

Module PixelComponents.

Definition WHITE : PixelComponents := mkComponents 0xFF 0xFF 0xFF.
Definition BLACK : PixelComponents := mkComponents 0 0 0.
Definition RED : PixelComponents := mkComponents 0xFF 0 0.
Definition GREEN : PixelComponents := mkComponents 0 0xFF 0.
Definition BLUE : PixelComponents := mkComponents 0 0 0xFF.
Definition ORANGE : PixelComponents := mkComponents 0xFF 0xA5 0.

Definition add (self rhs : PixelComponents) : PixelComponents :=
  mkComponents (saturating_add 8 (red self) (red rhs)) (saturating_add 8 (green self) (green rhs))
    (saturating_add 8 (blue self) (blue rhs)).

(** [u8::try_from((u16::from(a) * u16::from(b) + 128) >> 8).unwrap()] *)
Definition mul_channel (a b : Z) : out Z :=
  m ← mul_w 16 a b;
  s ← add_w 16 m 128;
  let x := Z.shiftr s 8 in
  if x <? 2 ^ 8 then Ret x else Panic.

Definition mul (self rhs : PixelComponents) : out PixelComponents :=
  r ← mul_channel (red self) (red rhs);
  g ← mul_channel (green self) (green rhs);
  b ← mul_channel (blue self) (blue rhs);
  Ret (mkComponents r g b).

End PixelComponents.

(** A pixel is a word of 32 bits. *)
Module Pixel.

Definition BLACK : Z := 0.
Definition WHITE : Z := 2 ^ 32 - 1.

Definition new_rgb (components : PixelComponents) : Z :=
  Z.lor (Z.lor (shl_w 32 (blue components) 16) (shl_w 32 (green components) 8)) (red components).
Definition new_bgr (components : PixelComponents) : Z :=
  Z.lor (Z.lor (shl_w 32 (red components) 16) (shl_w 32 (green components) 8)) (blue components).

(** [todo!] for the third format *)
Definition from_format (format : PixelFormat) (components : PixelComponents) : out Z :=
  match format with
  | Rgb => Ret (new_rgb components)
  | Bgr => Ret (new_bgr components)
  | Bitmask _ _ _ => Panic
  end.

Definition components_bgr (self : Z) : PixelComponents :=
  mkComponents (Z.land (Z.shiftr self 16) 0xFF) (Z.land (Z.shiftr self 8) 0xFF) (Z.land self 0xFF).
Definition components_rgb (self : Z) : PixelComponents :=
  mkComponents (Z.land self 0xFF) (Z.land (Z.shiftr self 8) 0xFF) (Z.land (Z.shiftr self 16) 0xFF).

Definition components_by_format (self : Z) (format : PixelFormat) : out PixelComponents :=
  match format with
  | Rgb => Ret (components_rgb self)
  | Bgr => Ret (components_bgr self)
  | Bitmask _ _ _ => Panic
  end.

End Pixel.

Record Info := mkInfo {
  size : Z;
  width : Z;
  height : Z;
  pixel_format : PixelFormat;
  stride : Z;
  bytes_per_pixel : Z;
}.

(** ** Text *)

(** The package [noto_sans_mono_bitmap]: the size of the characters, and the brightness of the points of each one *)
Record Font := mkFont { CHAR_HEIGHT : Z; CHAR_WIDTH : Z; get_raster : Z → option (list (list Z)) }.

Definition LINE_SPACING : Z := 2.
Definition LETTER_SPACING : Z := 0.
Definition BORDER_PADDING : Z := 3.
Definition BACKUP_CHAR : Z := 63.

Record FramebufferWriter := mkWriter { info : Info; x : Z; y : Z; curr_color : PixelComponents }.

Module FramebufferWriter.
Section writer.
Context (F : Font).
Implicit Types (self : FramebufferWriter) (buffer : list Z).

(** [BACKUP_CHAR_RASTER] is unwrapped when the program is compiled. *)
Definition get_raster_backed (c : Z) : list (list Z) :=
  match get_raster F c with Some r => r | None => default [] (get_raster F BACKUP_CHAR) end.

Definition new (i : Info) : out FramebufferWriter :=
  c ← Pixel.components_by_format Pixel.WHITE (pixel_format i);
  Ret (mkWriter i BORDER_PADDING BORDER_PADDING c).

Definition set_cursor self (a b : Z) : FramebufferWriter := mkWriter (info self) a b (curr_color self).
Definition set_color self (color : PixelComponents) : FramebufferWriter := mkWriter (info self) (x self) (y self) color.
Definition carriage_return self : FramebufferWriter := set_cursor self BORDER_PADDING (y self).
Definition newline self : out FramebufferWriter :=
  y ← add_w 16 (y self) (CHAR_HEIGHT F + LINE_SPACING);
  Ret (carriage_return (set_cursor self (x self) y)).
Definition soft_clear self : FramebufferWriter := set_cursor self BORDER_PADDING BORDER_PADDING.
Definition clear_screen self buffer (pixel : Z) : FramebufferWriter * list Z :=
  (soft_clear self, replicate (length buffer) pixel).

Definition write_pixel self buffer (a b : Z) (pixel : Z) : out (list Z) :=
  let idx := b * stride (info self) + a in set_index buffer idx pixel.

(** The pixel for a point of brightness [byte] *)
Definition shade self (byte : Z) : out Z :=
  c ← PixelComponents.mul (mkComponents byte byte byte) (curr_color self);
  Pixel.from_format (pixel_format (info self)) c.

Definition draw_row self (v : nat) (row : list Z) buffer : out (list Z) :=
  for_enum (λ buffer u byte,
    pixel ← shade self byte;
    write_pixel self buffer (x self + Z.of_nat u) (y self + Z.of_nat v) pixel) 0 buffer row.
Definition draw self (raster : list (list Z)) buffer : out (list Z) :=
  for_enum (λ buffer v row, draw_row self v row buffer) 0 buffer raster.

Definition write_char self buffer (c : Z) : out (FramebufferWriter * list Z) :=
  if c =? 10 then self ← newline self; Ret (self, buffer)
  else if c =? 13 then Ret (carriage_return self, buffer)
  else
    right ← add_w 16 (x self) (CHAR_WIDTH F);
    right ← add_w 16 right BORDER_PADDING;
    self ← (if width (info self) <=? right then newline self else Ret self);
    bottom ← add_w 16 (y self) (CHAR_HEIGHT F);
    bottom ← add_w 16 bottom LINE_SPACING;
    bottom ← add_w 16 bottom BORDER_PADDING;
    let '(self, buffer) := if height (info self) <=? bottom then clear_screen self buffer Pixel.BLACK else (self, buffer) in
    buffer ← draw self (get_raster_backed c) buffer;
    x ← add_w 16 (x self) (CHAR_WIDTH F + LETTER_SPACING);
    Ret (set_cursor self x (y self), buffer).

Fixpoint write_str self buffer (s : list Z) : out (FramebufferWriter * list Z) :=
  match s with
  | [] => Ret (self, buffer)
  | c :: s => '(self, buffer) ← write_char self buffer c; write_str self buffer s
  end.

Definition write_char_at self buffer (a b : Z) (c : Z) : out (FramebufferWriter * list Z) :=
  write_char (set_cursor self a b) buffer c.
Definition write_str_at self buffer (a b : Z) (s : list Z) : out (FramebufferWriter * list Z) :=
  write_str (set_cursor self a b) buffer s.

End writer.
End FramebufferWriter.

(** ** Colours *)

Definition is_color (c : PixelComponents) : Prop := is_uint 8 (red c) ∧ is_uint 8 (green c) ∧ is_uint 8 (blue c).

(** The channel of a product; it never exceeds the channels it is made from. *)
Definition channel (a b : Z) : Z := (a * b + 128) / 2 ^ 8.

Lemma mul_channel_ok a b : is_uint 8 a → is_uint 8 b → PixelComponents.mul_channel a b = Ret (channel a b) ∧ is_uint 8 (channel a b).
Proof.
  unfold is_uint. intros Ha Hb. assert (0 ≤ a * b ≤ 255 * 255) by nia. unfold PixelComponents.mul_channel, mul_w, add_w, channel.
  rewrite (proj2 (Z.ltb_lt _ _)) by lia. cbn [mbind out_bind]. rewrite (proj2 (Z.ltb_lt _ _)) by lia. cbn [mbind out_bind].
  rewrite Z.shiftr_div_pow2 by lia.
  assert (0 ≤ (a * b + 128) / 2 ^ 8 < 2 ^ 8) by (split; [apply Z.div_pos | apply Z.div_lt_upper_bound]; lia).
  by rewrite (proj2 (Z.ltb_lt _ _)) by lia.
Qed.

Lemma channel_le a b : is_uint 8 a → is_uint 8 b → channel a b ≤ a ∧ channel a b ≤ b.
Proof.
  unfold is_uint, channel. intros Ha Hb. split; apply Z.lt_succ_r, Z.div_lt_upper_bound; try lia; nia.
Qed.

Definition scale (byte : Z) (c : PixelComponents) : PixelComponents :=
  mkComponents (channel byte (red c)) (channel byte (green c)) (channel byte (blue c)).

Lemma mul_scale byte c : is_uint 8 byte → is_color c → PixelComponents.mul (mkComponents byte byte byte) c = Ret (scale byte c) ∧ is_color (scale byte c).
Proof.
  intros Hb (Hr & Hg & Hl). unfold PixelComponents.mul. cbn [red green blue].
  destruct (mul_channel_ok byte (red c) Hb Hr) as [-> ?], (mul_channel_ok byte (green c) Hb Hg) as [-> ?],
    (mul_channel_ok byte (blue c) Hb Hl) as [-> ?]. done.
Qed.

(** The word of a colour, as a sum, and back *)
Lemma rgb_word c : is_color c → Pixel.new_rgb c = blue c * 2 ^ 16 + green c * 2 ^ 8 + red c.
Proof.
  unfold is_color, is_uint. intros (Hr & Hg & Hb). unfold Pixel.new_rgb, shl_w.
  rewrite !Z.shiftl_mul_pow2, !Z.mod_small by lia.
  rewrite (lor_low 16 (blue c * _)) by (try apply mul_pow2_mod_0; lia).
  apply (lor_low 8); [lia | | lia].
  replace (blue c * 2 ^ 16 + green c * 2 ^ 8) with ((blue c * 2 ^ 8 + green c) * 2 ^ 8) by lia. by apply Z.mod_mul.
Qed.

Lemma bgr_word c : is_color c → Pixel.new_bgr c = red c * 2 ^ 16 + green c * 2 ^ 8 + blue c.
Proof. intros (Hr & Hg & Hb). apply (rgb_word (mkComponents (blue c) (green c) (red c))). done. Qed.

(** The two formats are inverse to the readers of their components. *)
Lemma components_roundtrip f c p :
  is_color c → Pixel.from_format f c = Ret p → is_uint 32 p ∧ Pixel.components_by_format p f = Ret c.
Proof.
  intros Hc. assert (∀ a b d, is_uint 8 a → is_uint 8 b → is_uint 8 d →
    Z.land (a * 2 ^ 16 + b * 2 ^ 8 + d) 0xFF = d ∧ Z.land (Z.shiftr (a * 2 ^ 16 + b * 2 ^ 8 + d) 8) 0xFF = b ∧
    Z.land (Z.shiftr (a * 2 ^ 16 + b * 2 ^ 8 + d) 16) 0xFF = a) as Hf.
  { unfold is_uint. intros a b d Ha Hb Hd. change 0xFF with (Z.ones 8). rewrite !Z.land_ones, !Z.shiftr_div_pow2 by lia.
    split_and!; symmetry.
    - apply (Z.mod_unique_pos _ _ (a * 2 ^ 8 + b)); lia.
    - replace ((a * 2 ^ 16 + b * 2 ^ 8 + d) / 2 ^ 8) with (a * 2 ^ 8 + b) by (apply (Z.div_unique_pos _ _ _ d); lia).
      apply (Z.mod_unique_pos _ _ a); lia.
    - replace ((a * 2 ^ 16 + b * 2 ^ 8 + d) / 2 ^ 16) with a by (apply (Z.div_unique_pos _ _ _ (b * 2 ^ 8 + d)); lia).
      apply (Z.mod_unique_pos _ _ 0); lia. }
  destruct c as [r g b]. pose proof Hc as (Hr & Hg & Hb). cbn [red green blue] in *.
  destruct f; cbn; [| |done]; intros [= <-].
  - rewrite (rgb_word (mkComponents r g b)) by done. cbn [red green blue]. split; [unfold is_uint in *; lia|].
    unfold Pixel.components_rgb. by destruct (Hf b g r Hb Hg Hr) as (-> & -> & ->).
  - rewrite (bgr_word (mkComponents r g b)) by done. cbn [red green blue]. split; [unfold is_uint in *; lia|].
    unfold Pixel.components_bgr. by destruct (Hf r g b Hr Hg Hb) as (-> & -> & ->).
Qed.

(** White on white is not quite white. *)
Lemma white_dimmed : PixelComponents.mul PixelComponents.WHITE PixelComponents.WHITE = Ret (mkComponents 254 254 254).
Proof. done. Qed.

(** ** Drawing *)

(** The rows of a picture, put into the buffer one below the other *)
Fixpoint paint (s a b : Z) (buffer : list Z) (rows : list (list Z)) : list Z :=
  match rows with
  | [] => buffer
  | row :: rows => paint s a (b + 1) (put buffer (b * s + a) row) rows
  end.

(** A point of the picture, or what was there before *)
Definition picture_at (s a b : Z) (rows : list (list Z)) (old i : Z) : Z :=
  let u := i mod s - a in let v := i / s - b in
  if (0 <=? v) && (v <? len rows) && (0 <=? u) && (u <? len (nth (Z.to_nat v) rows []))
  then byte_at (nth (Z.to_nat v) rows []) u else old.

Lemma byte_put l lo v i :
  0 ≤ lo → lo + len v ≤ len l → 0 ≤ i < len l →
  byte_at (put l lo v) i = if (lo <=? i) && (i <? lo + len v) then byte_at v (i - lo) else byte_at l i.
Proof.
  intros Hlo Hv Hi. destruct (Z.leb_spec lo i), (Z.ltb_spec i (lo + len v)); cbn [andb];
    try (apply byte_put_other; lia).
  apply byte_put_at; lia.
Qed.

Lemma len_paint s a b buffer rows :
  0 ≤ s → 0 ≤ a → 0 ≤ b → Forall (λ row, a + len row ≤ s) rows → (b + len rows) * s ≤ len buffer →
  len (paint s a b buffer rows) = len buffer.
Proof.
  intros Hs Ha. revert b buffer. induction rows as [|row rows IH]; intros b buffer Hb Hr Hl; [done|].
  apply Forall_cons in Hr as [Hrow Hr]. unfold len in Hl at 1. cbn [length] in Hl. rewrite Nat2Z.inj_succ in Hl.
  fold (len rows) in Hl. pose proof (len_nonneg rows). pose proof (len_nonneg row).
  assert (len (put buffer (b * s + a) row) = len buffer) as Hp by (apply len_put; nia).
  cbn [paint]. rewrite IH; [done | lia | done |]. rewrite Hp. lia.
Qed.

(** The row and the column of an index *)
Lemma index_row s a b i : 0 < s → 0 ≤ a → (b * s + a <=? i) && (i <? b * s + s) = (i / s =? b) && (a <=? i mod s).
Proof.
  intros Hs Ha. pose proof (Z.div_mod i s ltac:(lia)) as E. pose proof (Z.mod_pos_bound i s Hs).
  destruct (Z.eqb_spec (i / s) b) as [<-|Hne]; cbn [andb].
  - destruct (Z.leb_spec (i / s * s + a) i), (Z.leb_spec a (i mod s)); cbn [andb]; try lia; apply Z.ltb_lt; lia.
  - apply andb_false_iff. assert (i / s < b ∨ b < i / s) as [|] by lia; [left; apply Z.leb_gt; nia | right; apply Z.ltb_ge; nia].
Qed.

Lemma len_cons {A} (a : A) l : len (a :: l) = len l + 1.
Proof. unfold len. cbn [length]. lia. Qed.

Lemma put_nil l i : put l i [] = l.
Proof. unfold put. change (len []) with 0. rewrite Z.add_0_r. apply take_drop. Qed.

(** What a picture leaves at an index of the buffer *)
Lemma paint_at s a b buffer rows i :
  0 < s → 0 ≤ a → 0 ≤ b → Forall (λ row, a + len row ≤ s) rows → (b + len rows) * s ≤ len buffer → 0 ≤ i < len buffer →
  byte_at (paint s a b buffer rows) i = picture_at s a b rows (byte_at buffer i) i.
Proof.
  intros Hs Ha. revert b buffer. induction rows as [|row rows IH]; intros b buffer Hb Hr Hl Hi.
  - cbn [paint]. unfold picture_at, len. cbn [length]. destruct (Z.leb_spec 0 (i / s - b)), (Z.ltb_spec (i / s - b) (Z.of_nat 0)); try lia; done.
  - apply Forall_cons in Hr as [Hrow Hr]. rewrite len_cons in Hl. pose proof (len_nonneg rows). pose proof (len_nonneg row).
    assert (len (put buffer (b * s + a) row) = len buffer) as Hp by (apply len_put; nia).
    cbn [paint]. rewrite IH; [|lia|done|lia|lia]. rewrite byte_put by nia. unfold picture_at. rewrite len_cons.
    pose proof (Z.div_mod i s ltac:(lia)) as E. pose proof (Z.mod_pos_bound i s Hs).
    destruct (Z.lt_trichotomy (i / s) b) as [Hlt|[Heq|Hgt]].
    + rewrite (proj2 (Z.leb_gt 0 (i / s - (b + 1)))), (proj2 (Z.leb_gt 0 (i / s - b))) by lia. cbn [andb]. rewrite (proj2 (Z.leb_gt (b * s + a) i)) by nia. done.
    + rewrite (proj2 (Z.leb_gt 0 (i / s - (b + 1)))), (proj2 (Z.leb_le 0 (i / s - b))), (proj2 (Z.ltb_lt (i / s - b) _)) by lia.
      replace (Z.to_nat (i / s - b)) with 0%nat by lia. cbn [andb nth].
      replace (b * s + a <=? i) with (0 <=? i mod s - a) by (apply eq_true_iff_eq; rewrite !Z.leb_le; nia).
      replace (i <? b * s + a + len row) with (i mod s - a <? len row) by (apply eq_true_iff_eq; rewrite !Z.ltb_lt; nia).
      replace (i - (b * s + a)) with (i mod s - a) by nia. done.
    + rewrite (proj2 (Z.leb_le 0 (i / s - (b + 1)))), (proj2 (Z.leb_le 0 (i / s - b))) by lia.
      rewrite (proj2 (Z.ltb_ge i (b * s + a + len row))) by nia. rewrite andb_false_r. cbn [andb].
      replace (i / s - (b + 1) <? len rows) with (i / s - b <? len rows + 1) by (apply eq_true_iff_eq; rewrite !Z.ltb_lt; lia).
      replace (Z.to_nat (i / s - b)) with (S (Z.to_nat (i / s - (b + 1)))) by lia. done.
Qed.

(** The word for a point of brightness [byte] *)
Definition tint (format : PixelFormat) (color : PixelComponents) (byte : Z) : Z :=
  match Pixel.from_format format (scale byte color) with Ret p => p | Panic => 0 end.

Definition tinted (format : PixelFormat) (color : PixelComponents) (raster : list (list Z)) : list (list Z) :=
  fmap (M := list) (fmap (M := list) (tint format color)) raster.

(** A frame buffer is described by the words of a red-green-blue or blue-green-red format. *)
Definition plain (format : PixelFormat) : Prop := match format with Bitmask _ _ _ => False | _ => True end.

Lemma shade_tint self byte :
  plain (pixel_format (info self)) → is_color (curr_color self) → is_uint 8 byte →
  FramebufferWriter.shade self byte = Ret (tint (pixel_format (info self)) (curr_color self) byte).
Proof.
  intros Hf Hc Hb. unfold FramebufferWriter.shade, tint. destruct (mul_scale byte _ Hb Hc) as [-> _].
  cbn [mbind out_bind]. by destruct (pixel_format (info self)).
Qed.

Lemma put_cons l i v vs : 0 ≤ i → i + len (v :: vs) ≤ len l → put (put l i [v]) (i + 1) vs = put l i (v :: vs).
Proof.
  intros Hi Hl. rewrite len_cons in Hl. pose proof (len_nonneg vs). unfold put.
  rewrite take_app_ge by (rewrite length_take; unfold len in *; lia).
  rewrite length_take, Nat.min_l by (unfold len in *; lia). replace (Z.to_nat (i + 1) - Z.to_nat i)%nat with 1%nat by lia.
  rewrite <- app_assoc. f_equal. cbn [take app]. rewrite take_0. cbn [app]. f_equal. f_equal.
  rewrite drop_app_ge by (rewrite length_take; unfold len in *; lia).
  rewrite length_take, Nat.min_l by (unfold len in *; lia).
  replace (Z.to_nat (i + 1 + len vs) - Z.to_nat i)%nat with (S (length vs)) by (unfold len; lia).
  cbn [drop app]. rewrite drop_drop. f_equal. unfold len. cbn [length]. lia.
Qed.

(** A row of a character is written as one slice, *)
Lemma draw_row_put self (v : nat) row buffer :
  plain (pixel_format (info self)) → is_color (curr_color self) → Forall (is_uint 8) row →
  0 ≤ x self → 0 ≤ (y self + Z.of_nat v) * stride (info self) →
  (y self + Z.of_nat v) * stride (info self) + x self + len row ≤ len buffer →
  FramebufferWriter.draw_row self v row buffer =
    Ret (put buffer ((y self + Z.of_nat v) * stride (info self) + x self) (tint (pixel_format (info self)) (curr_color self) <$> row)).
Proof.
  intros Hf Hc Hr Hx Hy. unfold FramebufferWriter.draw_row. set (o := (y self + Z.of_nat v) * stride (info self)) in *.
  assert (∀ (k : nat) buffer, o + x self + Z.of_nat k + len row ≤ len buffer →
    for_enum (λ buffer u byte, pixel ← FramebufferWriter.shade self byte;
      FramebufferWriter.write_pixel self buffer (x self + Z.of_nat u) (y self + Z.of_nat v) pixel) k buffer row =
    Ret (put buffer (o + x self + Z.of_nat k) (tint (pixel_format (info self)) (curr_color self) <$> row))) as Hk.
  { clear buffer. induction row as [|byte row IH]; intros k buffer Hl.
    - cbn [for_enum fmap list_fmap]. by rewrite put_nil.
    - apply Forall_cons in Hr as [Hb Hr]. rewrite len_cons in Hl. pose proof (len_nonneg row). cbn [for_enum].
      rewrite shade_tint by done. cbn [mbind out_bind]. unfold FramebufferWriter.write_pixel. fold o.
      rewrite set_index_ok by lia. cbn [mbind out_bind fmap list_fmap].
      replace (o + (x self + Z.of_nat k)) with (o + x self + Z.of_nat k) by lia.
      rewrite IH; [|done|rewrite len_put; change (len [_]) with 1; lia]. f_equal.
      rewrite <- (put_cons _ _ _ (_ <$> row)); [f_equal; lia | lia |]. rewrite len_cons. unfold len in *. rewrite length_fmap. lia. }
  intros Hl. rewrite (Hk 0%nat) by lia. f_equal. f_equal. lia.
Qed.

(** and a character as the picture of its shape. *)
Lemma draw_paint self raster buffer :
  plain (pixel_format (info self)) → is_color (curr_color self) → Forall (Forall (is_uint 8)) raster →
  0 < stride (info self) → 0 ≤ x self → 0 ≤ y self → Forall (λ row, x self + len row ≤ stride (info self)) raster →
  (y self + len raster) * stride (info self) ≤ len buffer →
  FramebufferWriter.draw self raster buffer =
    Ret (paint (stride (info self)) (x self) (y self) buffer (tinted (pixel_format (info self)) (curr_color self) raster)).
Proof.
  intros Hf Hc Hb Hs Hx Hy Hw. unfold FramebufferWriter.draw.
  assert (∀ (k : nat) buffer, (y self + Z.of_nat k + len raster) * stride (info self) ≤ len buffer →
    for_enum (λ buffer v row, FramebufferWriter.draw_row self v row buffer) k buffer raster =
    Ret (paint (stride (info self)) (x self) (y self + Z.of_nat k) buffer (tinted (pixel_format (info self)) (curr_color self) raster))) as Hk.
  { clear buffer. induction raster as [|row raster IH]; intros k buffer Hl; [done|].
    apply Forall_cons in Hb as [Hb1 Hb]. apply Forall_cons in Hw as [Hw1 Hw]. rewrite len_cons in Hl.
    pose proof (len_nonneg raster). unfold tinted. cbn [for_enum fmap list_fmap paint]. rewrite draw_row_put by (done || nia).
    cbn [mbind out_bind]. rewrite IH; [f_equal; f_equal; lia | done | done |].
    rewrite len_put; [nia | nia |]. unfold len in *. rewrite length_fmap. nia. }
  intros Hl. rewrite (Hk 0%nat) by lia. f_equal. f_equal. lia.
Qed.

(** ** A page of text

    The reference: a sheet with a dot for every column and row, on which characters are set one after the other.  A
    character that does not fit in its line goes to the next one, and one that does not fit on the sheet to a blank one. *)
Record Page := mkPage { column : Z; row : Z; dot : Z → Z → Z }.

Section page.
Context (F : Font) (i : Info) (color : PixelComponents).

Definition line_height : Z := CHAR_HEIGHT F + LINE_SPACING.
Definition next_line (p : Page) : Page := mkPage BORDER_PADDING (row p + line_height) (dot p).
Definition blank : Page := mkPage BORDER_PADDING BORDER_PADDING (λ _ _, Pixel.BLACK).
Definition wrap_line (p : Page) : Page := if width i <=? column p + CHAR_WIDTH F + BORDER_PADDING then next_line p else p.
Definition wrap_page (p : Page) : Page := if height i <=? row p + line_height + BORDER_PADDING then blank else p.

(** The dots of a character at the place of the cursor *)
Definition print (raster : list (list Z)) (p : Page) : Page :=
  mkPage (column p + CHAR_WIDTH F) (row p) (λ a b,
    let u := a - column p in let v := b - row p in
    if (0 <=? u) && (u <? CHAR_WIDTH F) && (0 <=? v) && (v <? CHAR_HEIGHT F)
    then tint (pixel_format i) color (byte_at (nth (Z.to_nat v) raster []) u) else dot p a b).

Definition type_char (p : Page) (c : Z) : Page :=
  if c =? 10 then next_line p
  else if c =? 13 then mkPage BORDER_PADDING (row p) (dot p)
  else print (FramebufferWriter.get_raster_backed F c) (wrap_page (wrap_line p)).

(** Every character has a shape of the size the font gives, and so has the character shown for those without one. *)
Record font_ok : Prop := mk_font_ok {
  font_height : 0 < CHAR_HEIGHT F;
  font_width : 0 < CHAR_WIDTH F;
  font_shape c r : get_raster F c = Some r → len r = CHAR_HEIGHT F ∧ Forall (λ l, len l = CHAR_WIDTH F ∧ Forall (is_uint 8) l) r;
  font_backup : is_Some (get_raster F BACKUP_CHAR);
}.

(** The screen has room for a character, and its last lines can be counted with 16 bits. *)
Record screen_ok (size : Z) : Prop := mk_screen_ok {
  screen_format : plain (pixel_format i);
  screen_width : BORDER_PADDING + CHAR_WIDTH F ≤ width i ≤ stride i;
  screen_height : BORDER_PADDING + CHAR_HEIGHT F ≤ height i;
  screen_size : height i * stride i ≤ size;
}.

(** The buffer of a writer holds a page. *)
Record shows (size : Z) (p : Page) (self : FramebufferWriter) (buffer : list Z) : Prop := mk_shows {
  shows_info : info self = i;
  shows_color : curr_color self = color;
  shows_column : x self = column p;
  shows_row : y self = row p;
  shows_size : len buffer = size;
  shows_dots n : 0 ≤ n < size → byte_at buffer n = dot p (n mod stride i) (n / stride i);
}.

(** The cursor, and how many lines can still be begun *)
Definition room (lines : nat) (p : Page) : Prop :=
  0 ≤ column p ∧ 0 ≤ row p ∧ Z.max (column p) (width i) + CHAR_WIDTH F + BORDER_PADDING < 2 ^ 16 ∧
  Z.max (row p) (height i) + line_height * (Z.of_nat lines + 2) + BORDER_PADDING < 2 ^ 16.

Definition line_feeds (s : list Z) : nat := length (filter (λ c, c = 10) s).

Context (size : Z) (Hfont : font_ok) (Hscreen : screen_ok size) (Hcolor : is_color color).

Lemma backed_shape c :
  len (FramebufferWriter.get_raster_backed F c) = CHAR_HEIGHT F ∧
  Forall (λ l, len l = CHAR_WIDTH F ∧ Forall (is_uint 8) l) (FramebufferWriter.get_raster_backed F c).
Proof.
  unfold FramebufferWriter.get_raster_backed. destruct (get_raster F c) as [r|] eqn:E; [by apply (font_shape Hfont c)|].
  destruct (font_backup Hfont) as [r Hr]. rewrite Hr. by apply (font_shape Hfont BACKUP_CHAR).
Qed.

(** Printing at a place inside the screen *)
Lemma draw_print p self buffer raster :
  shows size p self buffer → 0 ≤ column p → 0 ≤ row p → column p + CHAR_WIDTH F ≤ width i → row p + CHAR_HEIGHT F ≤ height i →
  len raster = CHAR_HEIGHT F → Forall (λ l, len l = CHAR_WIDTH F ∧ Forall (is_uint 8) l) raster →
  ∃ buffer', FramebufferWriter.draw self raster buffer = Ret buffer' ∧
    shows size (print raster p) (FramebufferWriter.set_cursor self (x self + CHAR_WIDTH F) (y self)) buffer'.
Proof.
  intros [Hi Hc Hx Hy Hs Hd] Hcol Hrow Hw Hh Hlen Hall. destruct Hscreen as [Hf Hsw Hsh Hss]. pose proof (font_width Hfont).
  unfold BORDER_PADDING in *.
  assert (len (tinted (pixel_format i) color raster) = len raster) as Hlt by (unfold len, tinted; by rewrite length_fmap).
  assert (Forall (λ l, len l = CHAR_WIDTH F) (tinted (pixel_format i) color raster)) as Hwt.
  { apply Forall_fmap. eapply Forall_impl; [exact Hall|]. intros l [Hl _]. unfold len in *. cbn. by rewrite length_fmap. }
  assert (Forall (λ l, column p + len l ≤ stride i) (tinted (pixel_format i) color raster)) as Hst
    by (eapply Forall_impl; [exact Hwt | cbn; intros; lia]).
  rewrite draw_paint; rewrite ?Hi, ?Hc, ?Hx, ?Hy; try done; try nia.
  2: { eapply Forall_impl; [exact Hall | by intros ? []]. }
  2: { eapply Forall_impl; [exact Hall | cbn; intros ? []; lia]. }
  eexists. split; [reflexivity|]. split; cbn [info curr_color x y FramebufferWriter.set_cursor print column row dot]; try done.
  - rewrite len_paint by (try done; nia). done.
  - intros n Hn. rewrite paint_at by (try done; nia). unfold picture_at. rewrite Hd, Hlt, Hlen by done.
    set (u := n mod stride i - column p). set (v := n / stride i - row p).
    destruct (Z.leb_spec 0 v), (Z.ltb_spec v (CHAR_HEIGHT F)); cbn [andb]; rewrite ?andb_false_r, ?andb_true_r; try done.
    assert (Z.to_nat v < length raster)%nat as Hv by (unfold len in Hlen; lia).
    assert (nth (Z.to_nat v) (tinted (pixel_format i) color raster) [] = tint (pixel_format i) color <$> nth (Z.to_nat v) raster []) as ->
      by (unfold tinted; rewrite !nth_lookup, list_lookup_fmap; by destruct (raster !! _)).
    assert (len (nth (Z.to_nat v) raster []) = CHAR_WIDTH F) as Hln.
    { rewrite nth_lookup. destruct (lookup_lt_is_Some_2 raster (Z.to_nat v) Hv) as [l Hl]. rewrite Hl. by apply (Forall_lookup_1 _ _ _ _ Hall Hl). }
    unfold byte_at, len in *. rewrite length_fmap, Hln.
    destruct (Z.leb_spec 0 u), (Z.ltb_spec u (CHAR_WIDTH F)); cbn [andb]; try done.
    rewrite !nth_lookup, list_lookup_fmap. destruct (lookup_lt_is_Some_2 (nth (Z.to_nat v) raster []) (Z.to_nat u)) as [b Hb]; [lia|].
    by rewrite <- nth_lookup, Hb.
Qed.

Lemma newline_next p self buffer :
  shows size p self buffer → 0 ≤ row p + line_height < 2 ^ 16 →
  ∃ self', FramebufferWriter.newline F self = Ret self' ∧ shows size (next_line p) self' buffer.
Proof.
  intros [Hi Hc Hx Hy Hs Hd] Hr. unfold line_height in Hr. unfold FramebufferWriter.newline. rewrite add_w_ok by lia.
  eexists. split; [reflexivity|]. split; try done. cbn. by rewrite Hy.
Qed.

Lemma clear_blank p self buffer :
  shows size p self buffer →
  ∃ self' buffer', FramebufferWriter.clear_screen self buffer Pixel.BLACK = (self', buffer') ∧ shows size blank self' buffer'.
Proof.
  intros [Hi Hc Hx Hy Hs Hd]. do 2 eexists. split; [reflexivity|]. split; try done.
  - unfold len. by rewrite length_replicate.
  - intros n Hn. unfold byte_at. rewrite nth_lookup, lookup_replicate_2; [done|]. unfold len in Hs. lia.
Qed.

(** Where the wrapping leaves the cursor, a character fits. *)
Lemma wrapped_fits lines p :
  room lines p →
  let q := wrap_page (wrap_line p) in
  0 ≤ column q ∧ 0 ≤ row q ∧ column q + CHAR_WIDTH F ≤ width i ∧ row q + CHAR_HEIGHT F ≤ height i.
Proof.
  intros (Hc & Hr & _ & _). pose proof (screen_width _ Hscreen). pose proof (screen_height _ Hscreen). pose proof (font_height Hfont).
  unfold wrap_page, wrap_line, next_line, blank, line_height, BORDER_PADDING, LINE_SPACING in *.
  destruct (Z.leb_spec (width i) (column p + CHAR_WIDTH F + 3)); cbn [column row];
    match goal with |- context [if ?a <=? ?b then _ else _] => destruct (Z.leb_spec a b) end; cbn [column row]; lia.
Qed.

(** Each character is set as on the page. *)
Lemma write_char_types lines p self buffer c :
  shows size p self buffer → room (lines + (if decide (c = 10) then 1 else 0)) p →
  ∃ self' buffer', FramebufferWriter.write_char F self buffer c = Ret (self', buffer') ∧
    shows size (type_char p c) self' buffer' ∧ room lines (type_char p c).
Proof.
  intros Hs Hroom. pose proof Hroom as (Hc & Hr & Hx & Hy). pose proof (font_height Hfont). pose proof (font_width Hfont).
  pose proof (screen_width _ Hscreen). pose proof (screen_height _ Hscreen).
  assert (BORDER_PADDING = 3 ∧ LINE_SPACING = 2 ∧ line_height = CHAR_HEIGHT F + LINE_SPACING) as (HB & HL & HH) by done.
  unfold FramebufferWriter.write_char, type_char. destruct (Z.eqb_spec c 10) as [->|Hn].
  { rewrite decide_True in Hy by done. destruct (newline_next _ _ _ Hs) as (self' & -> & Hs'); [nia|].
    do 2 eexists. split; [reflexivity|]. split; [done|]. unfold room, next_line. cbn [column row]. nia. }
  rewrite decide_False, Nat.add_0_r in * by done. destruct (Z.eqb_spec c 13) as [->|Hn'].
  { do 2 eexists. split; [reflexivity|]. split; [by destruct Hs|]. unfold room. cbn [column row]. lia. }
  pose proof (wrapped_fits _ _ Hroom) as Hfit. pose proof Hs as [Hi _ Hsx _ _ _].
  rewrite add_w_ok by lia. cbn [mbind out_bind]. rewrite add_w_ok by lia.
  cbn [mbind out_bind]. rewrite Hi, Hsx.
  assert (∃ self1, (if width i <=? column p + CHAR_WIDTH F + BORDER_PADDING then FramebufferWriter.newline F self else Ret self) = Ret self1 ∧
    shows size (wrap_line p) self1 buffer ∧ 0 ≤ row (wrap_line p) ≤ row p + line_height) as (self1 & -> & Hs1 & Hr1).
  { unfold wrap_line. destruct (_ <=? _); [|by exists self; split_and!; try done; nia].
    destruct (newline_next _ _ _ Hs) as (self' & -> & Hs'); [nia|]. exists self'. split_and!; try done; cbn; lia. }
  cbn [mbind out_bind]. pose proof Hs1 as [Hi1 _ _ Hy1 _ _].
  do 3 (rewrite add_w_ok by nia; cbn [mbind out_bind]).
  assert (∃ self2 buffer2, (if height (info self1) <=? y self1 + CHAR_HEIGHT F + LINE_SPACING + BORDER_PADDING
    then FramebufferWriter.clear_screen self1 buffer Pixel.BLACK else (self1, buffer)) = (self2, buffer2) ∧
    shows size (wrap_page (wrap_line p)) self2 buffer2) as (self2 & buffer2 & -> & Hs2).
  { unfold wrap_page, line_height. rewrite Hi1, Hy1, Z.add_assoc. destruct (_ <=? _); [by apply (clear_blank (wrap_line p)) | eauto]. }
  destruct (backed_shape c) as [Hlen Hall]. cbv zeta in Hfit. destruct Hfit as (F1 & F2 & F3 & F4).
  destruct (draw_print _ _ _ _ Hs2 F1 F2 F3 F4 Hlen Hall) as (buffer' & -> & Hs').
  cbn [mbind out_bind]. pose proof (shows_column _ _ _ _ Hs2) as Hx2. unfold LETTER_SPACING. rewrite Z.add_0_r, add_w_ok by lia.
  do 2 eexists. split; [reflexivity|]. split; [done|]. unfold room, print. cbn [column row]. lia.
Qed.

Lemma write_str_types lines p self buffer s :
  shows size p self buffer → room (lines + line_feeds s) p →
  ∃ self' buffer', FramebufferWriter.write_str F self buffer s = Ret (self', buffer') ∧
    shows size (foldl type_char p s) self' buffer' ∧ room lines (foldl type_char p s).
Proof.
  revert p self buffer. induction s as [|c s IH]; intros p self buffer Hs Hr.
  { cbn in *. rewrite Nat.add_0_r in Hr. eauto. }
  assert (lines + line_feeds (c :: s) = (lines + line_feeds s) + (if decide (c = 10%Z) then 1 else 0))%nat as E.
  { unfold line_feeds. rewrite filter_cons. destruct (decide (c = 10)); cbn [length]; lia. }
  rewrite E in Hr. destruct (write_char_types _ _ _ _ _ Hs Hr) as (self1 & buffer1 & E1 & Hs1 & Hr1).
  cbn [FramebufferWriter.write_str foldl]. rewrite E1. cbn [mbind out_bind]. by apply IH.
Qed.

(** The dots are words of 32 bits. *)
Definition page_words (p : Page) : Prop := ∀ a b, is_uint 32 (dot p a b).

Lemma tint_word byte : is_uint 8 byte → is_uint 32 (tint (pixel_format i) color byte).
Proof.
  intros Hb. unfold tint. destruct (Pixel.from_format (pixel_format i) (scale byte color)) as [p|] eqn:E; [|unfold is_uint; lia].
  destruct (mul_scale byte color Hb Hcolor) as [_ Hc]. by destruct (components_roundtrip _ _ _ Hc E).
Qed.

Lemma type_char_words p c : page_words p → page_words (type_char p c).
Proof.
  intros Hp. unfold type_char. destruct (c =? 10); [done|]. destruct (c =? 13); [done|].
  assert (page_words (wrap_page (wrap_line p))) as Hq.
  { unfold wrap_page, wrap_line. destruct (width i <=? _); destruct (height i <=? _); try done; intros ? ?; cbn; unfold Pixel.BLACK, is_uint; lia. }
  intros a b. unfold print. cbn [dot]. case_match; [|apply Hq]. apply tint_word. destruct (backed_shape c) as [_ Hall].
  apply byte_at_u8. set (n := Z.to_nat _). rewrite nth_lookup.
  destruct (FramebufferWriter.get_raster_backed F c !! n) as [l|] eqn:El; [|by apply Forall_nil].
  by apply (Forall_lookup_1 _ _ _ _ Hall) in El as [_ Hl].
Qed.

Lemma type_str_words p s : page_words p → page_words (foldl type_char p s).
Proof. revert p. induction s as [|c s IH]; intros p Hp; [done|]. by apply IH, type_char_words. Qed.

Lemma shows_words p self buffer : shows size p self buffer → page_words p → Forall (is_uint 32) buffer.
Proof.
  intros [_ _ _ _ Hs Hd] Hp. apply Forall_lookup. intros n v Hn. pose proof (lookup_lt_Some _ _ _ Hn).
  specialize (Hd (Z.of_nat n)). unfold byte_at, len in *. rewrite nth_lookup, Nat2Z.id, Hn in Hd. cbn in Hd. rewrite Hd by lia. apply Hp.
Qed.

End page.

(** C17: text on the screen.  With a font whose characters all have the size it announces, and a screen with room for one
    of them, writing a string never panics and never leaves the buffer: the pixels are those of a page on which the
    characters are set one after the other, with lines and pages wrapped at the margins, and so is the cursor.  The
    lines that the string may begin are those a cursor of 16 bits can count. *)
Theorem text_refines F i color size p self buffer s :
  font_ok F → screen_ok F i size → is_color color → shows i color size p self buffer → room F i (line_feeds s) p →
  ∃ self' buffer', FramebufferWriter.write_str F self buffer s = Ret (self', buffer') ∧
    shows i color size (foldl (type_char F i color) p s) self' buffer'.
Proof.
  intros Hf Hs Hc Hp Hr. destruct (write_str_types F i color size Hf Hs Hc 0 p self buffer s Hp Hr) as (self' & buffer' & E & Hs' & _). eauto.
Qed.

(** A font of two by two points *)
Definition small_font : Font := mkFont 2 2 (λ c, if (c =? 63) || (c =? 65) then Some [[255; c]; [0; 128]] else None).
Definition small_screen : Info := mkInfo 480 12 12 Bgr 14 4.

Lemma text_refines_witness :
  ∃ self' buffer',
    FramebufferWriter.write_str small_font (mkWriter small_screen 3 3 PixelComponents.ORANGE) (replicate 168 0) [65; 66; 65; 10; 13; 64]
      = Ret (self', buffer') ∧
    shows small_screen PixelComponents.ORANGE 168
      (foldl (type_char small_font small_screen PixelComponents.ORANGE) blank [65; 66; 65; 10; 13; 64]) self' buffer'.
Proof.
  apply text_refines.
  - split; [done | done | | done]. intros c r. cbn [get_raster small_font]. destruct ((c =? 63) || (c =? 65)) eqn:E; [|done].
    intros [= <-]. split; [done|]. repeat constructor; lia.
  - split; cbn; try done; lia.
  - repeat split; cbn; lia.
  - split; try done. intros n Hn. unfold byte_at. rewrite nth_lookup, lookup_replicate_2 by lia. done.
  - unfold room. split_and!; by vm_compute.
Defined.

(** Nothing but the line feeds bounds the row of the cursor: it overflows without a character between them. *)
Lemma newline_overflow :
  let w := mkWriter small_screen 3 3 PixelComponents.WHITE in
  FramebufferWriter.write_str small_font w [] (replicate (Z.to_nat 16384) 10) = Panic.
Proof. by vm_compute. Qed.
