(* ===== verification/Screen.v ===== *)
(** * The screen

    [kernel/foundry/video/src/screen.rs], [kernel/foundry/video/src/log.rs]: the screen of the kernel, its device and the
    messages written on it; [beskar-lib/src/io/screen.rs]: the frame buffer of a program, which it writes to the device
    by rows. *)

From S2P Require Import Prelude NetUtils Bits Vfs DevFs InMem UserIo Video.

(** ** The screen of the kernel *)

(** [align_to_mut::<Pixel>] of aligned bytes: words of four bytes, the lowest first *)
Fixpoint words (l : list Z) : list Z :=
  match l with
  | a :: b :: c :: d :: l => from_le_bytes [a; b; c; d] :: words l
  | _ => []
  end.
Fixpoint unwords (l : list Z) : list Z :=
  match l with
  | [] => []
  | p :: l => to_le_bytes 4 p ++ unwords l
  end.

Record Screen := mkScreen { raw_buffer : list Z; s_info : Info }.

(** The bytes of the frame buffer start at an address that is a multiple of four if [aligned]. *)
Definition new_screen (aligned : bool) (raw : list Z) (i : Info) : out Screen :=
  assert_ (bytes_per_pixel i =? 4);;
  assert_ ((aligned || (len raw =? 0)) && (len raw mod 4 =? 0));;
  Ret (mkScreen (words raw) i).

(** [SCREEN], [LOG_ON_SCREEN] and [SCREEN_LOGGER] *)
Record Display := mkDisplay { screen : Screen; log_on_screen : bool; screen_logger : option FramebufferWriter }.

Definition set_screen (d : Display) (s : Screen) : Display := mkDisplay s (log_on_screen d) (screen_logger d).
Definition set_screen_logging (d : Display) (enable : bool) : Display := mkDisplay (screen d) enable (screen_logger d).
Definition set_logger (d : Display) (l : option FramebufferWriter) : Display := mkDisplay (screen d) (log_on_screen d) l.

Definition clear (s : Screen) (pixel : Z) : Screen := mkScreen (replicate (length (raw_buffer s)) pixel) (s_info s).

(** ** Messages *)

Inductive Severity := Debug_ | Info_ | Warn | Error_.

Module Severity.

Definition as_str (self : Severity) : list Z :=
  match self with
  | Debug_ => [68; 69; 66; 85; 71]
  | Info_ => [73; 78; 70; 79; 32]
  | Warn => [87; 65; 82; 78; 32]
  | Error_ => [69; 82; 82; 79; 82]
  end.

Definition color (self : Severity) : PixelComponents :=
  match self with
  | Debug_ => PixelComponents.BLUE
  | Info_ => PixelComponents.GREEN
  | Warn => PixelComponents.ORANGE
  | Error_ => PixelComponents.RED
  end.

End Severity.

Module ScreenWriter.

Definition new (s : Screen) : out FramebufferWriter := FramebufferWriter.new (s_info s).

Definition write_str (F : Font) (l : FramebufferWriter) (s : Screen) (text : list Z) : out (FramebufferWriter * Screen) :=
  '(l, b) ← FramebufferWriter.write_str F l (raw_buffer s) text;
  Ret (l, mkScreen b (s_info s)).

End ScreenWriter.

Definition init_screen (d : Display) : out Display :=
  l ← ScreenWriter.new (screen d); Ret (set_logger d (Some l)).

(** [args] is the text of the arguments.  The copy to the serial port, which only debug builds make, is left out. *)
Definition log (F : Font) (severity : Severity) (args : list Z) (d : Display) : out Display :=
  if log_on_screen d then
    match screen_logger d with
    | None => Ret d
    | Some w =>
        '(w, s) ← ScreenWriter.write_str F w (screen d) [91];
        '(w, s) ← ScreenWriter.write_str F (FramebufferWriter.set_color w (Severity.color severity)) s (Severity.as_str severity);
        '(w, s) ← ScreenWriter.write_str F (FramebufferWriter.set_color w PixelComponents.WHITE) s [93];
        '(w, s) ← ScreenWriter.write_str F w s [32];
        '(w, s) ← ScreenWriter.write_str F w s args;
        Ret (set_logger (set_screen d s) (Some w))
    end
  else Ret d.

(** ** The device *)

Module ScreenDevice.

(** The layout of [Info] in memory is the compiler's. *)
Definition read (info_bytes : Info → list Z) (aligned : bool) (dst : list Z) (_offset : Z) (d : Display)
    : out (Display * (list Z * result unit BlockDeviceError)) :=
  let bytes := info_bytes (s_info (screen d)) in
  if len dst =? 0 then Ret (d, (dst, Ok tt))
  else if len dst =? len bytes then
    if aligned then Ret (d, (bytes, Ok tt)) else Ret (d, (dst, Err UnalignedAccess))
  else Ret (d, (dst, Err BdUnsupported)).

(** [align_to::<PixelCompArr>]: four bytes each, of which the first three are the components *)
Fixpoint components (src : list Z) : list PixelComponents :=
  match src with
  | r :: g :: b :: _ :: src => mkComponents r g b :: components src
  | _ => []
  end.

(** [for (&pc, d) in src.iter().zip(..)] *)
Fixpoint blit (format : PixelFormat) (src : list PixelComponents) (dst : list Z) : out (list Z) :=
  match src, dst with
  | pc :: src, _ :: dst => p ← Pixel.from_format format pc; dst ← blit format src dst; Ret (p :: dst)
  | _, _ => Ret dst
  end.

Definition write (aligned : bool) (src : list Z) (offset : Z) (d : Display) : out (Display * result unit BlockDeviceError) :=
  if (negb aligned && negb (len src =? 0)) || negb (len src mod 4 =? 0) then Ret (d, Err UnalignedAccess)
  else
    let src := components src in
    let pixel_offset := offset / 4 in
    let pixel_limit := size (s_info (screen d)) in
    last ← add_w 64 pixel_offset (len src);
    if pixel_limit <? last then Ret (d, Err OutOfBounds)
    else
      let pixel_format := pixel_format (s_info (screen d)) in
      let screen_buffer := raw_buffer (screen d) in
      dst ← slice_from screen_buffer pixel_offset;
      dst ← blit pixel_format src dst;
      Ret (set_screen d (mkScreen (sub_list screen_buffer 0 pixel_offset ++ dst) (s_info (screen d))), Ok tt).

(** The third format, for which the source has [todo!], does not get here: [init_screen] has panicked before. *)
Definition black (d : Display) : Z :=
  match Pixel.from_format (pixel_format (s_info (screen d))) PixelComponents.BLACK with Ret p => p | Panic => 0 end.

Definition on_open (d : Display) : Display :=
  let d := set_screen_logging d false in
  set_screen d (clear (screen d) (black d)).

Definition on_close (d : Display) : Display :=
  let d := set_screen d (clear (screen d) (black d)) in
  let d := set_logger d (FramebufferWriter.soft_clear <$> screen_logger d) in
  set_screen_logging d true.

End ScreenDevice.

Definition screen_device (info_bytes : Info → list Z) (aligned : bool) : KernelDevice Display := {|
  dev_read := ScreenDevice.read info_bytes aligned;
  dev_write := ScreenDevice.write aligned;
  DevFs.on_open := ScreenDevice.on_open;
  DevFs.on_close := ScreenDevice.on_close;
|}.

(** ** The frame buffer of a program *)

Record FrameBuffer := mkFrameBuffer { fb_info : Info; fb_file : UserIo.File; internal_fb : list Z }.
Record FrameView := mkFrameView { v_info : Info; stride_bytes_ : Z; v_bytes : list Z }.

(** [Info::new] of a part of the rows, with [try_into] of its size *)
Definition rows_info (i : Info) (rows view_size : Z) : out Info :=
  assert_ (view_size <? 2 ^ 32);;
  Ret (mkInfo view_size (width i) rows (pixel_format i) (stride i) (bytes_per_pixel i)).

Module FrameView.

Definition pixels_mut (self : FrameView) : out (list Z) :=
  assert_ (len (v_bytes self) mod 4 =? 0);; Ret (words (v_bytes self)).

(** A view is borrowed: what is written through [pixels_mut] or [sub_rows] is written to its bytes. *)
Definition set_pixels (self : FrameView) (pixels : list Z) : FrameView :=
  mkFrameView (v_info self) (stride_bytes_ self) (unwords pixels).

Definition sub_rows (self : FrameView) (start_row : Z) : out FrameView :=
  let clamped_start := Z.min start_row (height (v_info self)) in
  let start_byte := clamped_start * stride_bytes_ self in
  let remaining_rows := saturating_sub (height (v_info self)) clamped_start in
  let view_size := remaining_rows * stride_bytes_ self in
  i ← rows_info (v_info self) remaining_rows view_size;
  b ← slice (v_bytes self) start_byte (start_byte + view_size);
  Ret (mkFrameView i (stride_bytes_ self) b).

Definition rows_mut (self : FrameView) (rows : Z * Z) : out (list Z) :=
  let start := Z.min rows.1 (height (v_info self)) * stride_bytes_ self in
  let end_ := Z.min rows.2 (height (v_info self)) * stride_bytes_ self in
  slice (v_bytes self) start end_.

End FrameView.

Module FrameBuffer.

Definition stride_bytes (self : FrameBuffer) : Z := stride (fb_info self) * bytes_per_pixel (fb_info self).

Section kernel.
Context {K : Type} (sc_write : list Z → Z → K → out (K * Z)).

Definition flush_rows (self : FrameBuffer) (rows : Z * Z) (k : K) : out (K * FrameBuffer * result unit IoErrorKind) :=
  let stride_bytes := stride_bytes self in
  let start_row := Z.min rows.1 (height (fb_info self)) in
  let end_row := Z.min rows.2 (height (fb_info self)) in
  if end_row <=? start_row then Ret (k, self, Ok tt)
  else
    let byte_start := start_row * stride_bytes in
    let byte_end := end_row * stride_bytes in
    '(file, res) ← File_seek (fb_file self) (Start byte_start);
    match res with
    | Err e => Ret (k, mkFrameBuffer (fb_info self) file (internal_fb self), Err e)
    | Ok _ =>
        data ← slice (internal_fb self) byte_start byte_end;
        '(file, k, res) ← @write_all _ (file_writer sc_write) (file, k) data;
        Ret (k, mkFrameBuffer (fb_info self) file (internal_fb self), res)
    end.

Definition flush_all (self : FrameBuffer) (k : K) : out (K * FrameBuffer * result unit IoErrorKind) :=
  flush_rows self (0, height (fb_info self)) k.

End kernel.

Definition view (self : FrameBuffer) : FrameView := mkFrameView (fb_info self) (stride_bytes self) (internal_fb self).

Definition view_from_row (self : FrameBuffer) (start_row : Z) : out FrameView :=
  let stride_bytes := stride_bytes self in
  let clamped_start := Z.min start_row (height (fb_info self)) in
  let start_byte := clamped_start * stride_bytes in
  let remaining_rows := saturating_sub (height (fb_info self)) clamped_start in
  let view_size := remaining_rows * stride_bytes in
  i ← rows_info (fb_info self) remaining_rows view_size;
  b ← slice (internal_fb self) start_byte (start_byte + view_size);
  Ret (mkFrameView i stride_bytes b).

(** The end of the borrow of a view from [start_row] on *)
Definition write_back (self : FrameBuffer) (start_row : Z) (v : FrameView) : FrameBuffer :=
  mkFrameBuffer (fb_info self) (fb_file self)
    (put (internal_fb self) (Z.min start_row (height (fb_info self)) * stride_bytes self) (v_bytes v)).

End FrameBuffer.

(** The kernel's side of the call: the device at the path of the frame buffer, with a buffer from a mapping of pages,
    which is aligned *)
Definition FB_FILE : Path := [47; 102; 98].

Definition sc_write_fb (info_bytes : Info → list Z) (buffer : list Z) (offset : Z) (fs : DeviceFS Display)
    : out (DeviceFS Display * Z) :=
  '(fs, r) ← @DeviceFS.write _ (screen_device info_bytes true) FB_FILE buffer offset fs;
  Ret (fs, match r with Ok n => n | Err _ => -1 end).

(** ** Words and bytes *)

Lemma list_by_4 (P : list Z → Prop) :
  P [] → (∀ a, P [a]) → (∀ a b, P [a; b]) → (∀ a b c, P [a; b; c]) → (∀ a b c d l, P l → P (a :: b :: c :: d :: l)) → ∀ l, P l.
Proof.
  intros H0 H1 H2 H3 H4. fix IH 1. intros [|a [|b [|c [|d l]]]]; [done..|]. apply H4, IH.
Qed.

Lemma from_le_4 a b c d : from_le_bytes [a; b; c; d] = a + b * 2 ^ 8 + c * 2 ^ 16 + d * 2 ^ 24.
Proof. unfold from_le_bytes, from_be_bytes. cbn. lia. Qed.

Lemma len_words l : len (words l) = len l / 4.
Proof.
  induction l as [| | | |a b c d l IH] using list_by_4; try done.
  cbn [words]. rewrite !len_cons, IH. replace (len l + 1 + 1 + 1 + 1) with (len l + 1 * 4) by lia. by rewrite Z.div_add by lia.
Qed.

Lemma len_unwords l : len (unwords l) = 4 * len l.
Proof. induction l as [|p l IH]; [done|]. cbn [unwords]. rewrite len_app, IH, len_cons, len_to_le. lia. Qed.

Lemma words_unwords l : Forall (is_uint 32) l → words (unwords l) = l.
Proof.
  induction 1 as [|p l Hp _ IH]; [done|]. cbn [unwords]. unfold to_le_bytes. cbn [to_be_bytes rev app words]. rewrite IH. f_equal.
  change (from_le_bytes (to_le_bytes 4 p) = p). unfold from_le_bytes, to_le_bytes. rewrite rev_involutive. by apply (from_to_be 4).
Qed.

(** The colours that the device reads are those of a pixel with red lowest. *)
Lemma components_words l : bytes l → ScreenDevice.components l = Pixel.components_rgb <$> words l.
Proof.
  induction l as [| | | |a b c d l IH] using list_by_4; try done. unfold bytes in *. intros Hl.
  repeat match goal with H : Forall _ (_ :: _) |- _ => apply Forall_cons in H as [? H] end.
  cbn [ScreenDevice.components words fmap list_fmap]. rewrite IH by done. f_equal.
  rewrite from_le_4. unfold Pixel.components_rgb, is_uint in *. change 0xFF with (Z.ones 8).
  rewrite !Z.land_ones, !Z.shiftr_div_pow2 by lia. f_equal.
  - apply (Z.mod_unique_pos _ _ (b + c * 2 ^ 8 + d * 2 ^ 16)); lia.
  - rewrite <- (Z.div_unique_pos _ (2 ^ 8) (b + c * 2 ^ 8 + d * 2 ^ 16) a) by lia. apply (Z.mod_unique_pos _ _ (c + d * 2 ^ 8)); lia.
  - rewrite <- (Z.div_unique_pos _ (2 ^ 16) (c + d * 2 ^ 8) (a + b * 2 ^ 8)) by lia. apply (Z.mod_unique_pos _ _ d); lia.
Qed.

(** ** The device *)

(** What the screen shows for a pixel of a program *)
Definition shown (format : PixelFormat) (p : Z) : Z :=
  match Pixel.from_format format (Pixel.components_rgb p) with Ret q => q | Panic => 0 end.

Lemma byte_components p : is_color (Pixel.components_rgb p).
Proof.
  assert (∀ a, is_uint 8 (Z.land a 0xFF)) as Hb.
  { intros a. change 0xFF with (Z.ones 8). rewrite Z.land_ones by lia. apply Z.mod_pos_bound. lia. }
  split_and!; apply Hb.
Qed.

Lemma rgb_components p : is_uint 32 p → Pixel.new_rgb (Pixel.components_rgb p) = p mod 2 ^ 24.
Proof.
  intros Hp. rewrite rgb_word by apply byte_components. unfold Pixel.components_rgb. cbn [red green blue].
  change 0xFF with (Z.ones 8). rewrite !Z.land_ones, !Z.shiftr_div_pow2 by lia.
  pose proof (Z.div_mod p (2 ^ 8) ltac:(lia)). pose proof (Z.mod_pos_bound p (2 ^ 8) ltac:(lia)).
  pose proof (Z.div_mod (p / 2 ^ 8) (2 ^ 8) ltac:(lia)). pose proof (Z.mod_pos_bound (p / 2 ^ 8) (2 ^ 8) ltac:(lia)).
  assert (p / 2 ^ 16 = p / 2 ^ 8 / 2 ^ 8) as E by (rewrite Z.div_div by lia; done). rewrite E.
  pose proof (Z.div_mod (p / 2 ^ 8 / 2 ^ 8) (2 ^ 8) ltac:(lia)). pose proof (Z.mod_pos_bound (p / 2 ^ 8 / 2 ^ 8) (2 ^ 8) ltac:(lia)).
  apply (Z.mod_unique_pos _ _ (p / 2 ^ 8 / 2 ^ 8 / 2 ^ 8)); lia.
Qed.

(** With red lowest the program and the screen agree on a colour *)
Lemma shown_rgb c : is_color c → shown Rgb (Pixel.new_rgb c) = Pixel.new_rgb c.
Proof.
  intros Hc. destruct (components_roundtrip Rgb c _ Hc eq_refl) as [_ E]. cbn in E. injection E as E.
  unfold shown. by rewrite E.
Qed.

(** with blue lowest they do not: the pixels of a program are converted once more, and red and blue are exchanged. *)
Lemma shown_bgr c : is_color c → shown Bgr (Pixel.new_bgr c) = Pixel.new_bgr (mkComponents (blue c) (green c) (red c)).
Proof.
  intros Hc. pose proof Hc as (Hr & Hg & Hb). unfold shown. cbn [Pixel.from_format]. f_equal.
  destruct (components_roundtrip Bgr c _ Hc eq_refl) as [_ E]. cbn in E. injection E as E.
  assert (∀ p, Pixel.components_rgb p = mkComponents (blue (Pixel.components_bgr p)) (green (Pixel.components_bgr p)) (red (Pixel.components_bgr p))) as -> by done.
  by rewrite E.
Qed.

Lemma blit_plain f src dst :
  plain f → (length src ≤ length dst)%nat →
  ScreenDevice.blit f (Pixel.components_rgb <$> src) dst = Ret ((shown f <$> src) ++ drop (length src) dst).
Proof.
  intros Hf. revert dst. induction src as [|p src IH]; intros [|q dst] Hl; cbn [length] in Hl; try done; try lia.
  cbn [ScreenDevice.blit fmap list_fmap drop app]. unfold shown at 1.
  destruct (Pixel.from_format f (Pixel.components_rgb p)) as [w|] eqn:E; [|by destruct f].
  cbn [mbind out_bind]. rewrite IH by lia. cbn [mbind out_bind]. done.
Qed.

(** A screen whose memory has a word for every pixel of its rows *)
Record display_ok (d : Display) : Prop := mk_display_ok {
  display_format : plain (pixel_format (s_info (screen d)));
  display_bytes : bytes_per_pixel (s_info (screen d)) = 4;
  display_size : size (s_info (screen d)) = 4 * (stride (s_info (screen d)) * height (s_info (screen d)));
  display_width : 0 ≤ width (s_info (screen d)) ≤ stride (s_info (screen d));
  display_height : 0 ≤ height (s_info (screen d));
  display_buffer : len (raw_buffer (screen d)) = stride (s_info (screen d)) * height (s_info (screen d));
  display_fits : size (s_info (screen d)) < 2 ^ 32;
}.

(** The device puts the pixels at their place. *)
Lemma device_write_ok d src o :
  display_ok d → bytes src → len src mod 4 = 0 → 0 ≤ o → o + len src / 4 ≤ len (raw_buffer (screen d)) →
  ScreenDevice.write true src (4 * o) d =
    Ret (set_screen d (mkScreen (put (raw_buffer (screen d)) o (shown (pixel_format (s_info (screen d))) <$> words src)) (s_info (screen d))), Ok tt).
Proof.
  intros [Hf _ Hs Hw Hh Hb Hfit] Hbytes Hm Ho Hl. unfold ScreenDevice.write. rewrite Hm. cbn [negb andb orb Z.eqb].
  rewrite components_words by done. rewrite Z.mul_comm, Z.div_mul by lia.
  assert (len (Pixel.components_rgb <$> words src) = len src / 4) as Hlen
    by (rewrite <- len_words; unfold len; by rewrite length_fmap).
  pose proof (len_nonneg (words src)) as Hnn. rewrite len_words in Hnn.
  rewrite Hlen, add_w_ok by lia. cbn [mbind out_bind]. rewrite (proj2 (Z.ltb_ge _ _)) by lia.
  unfold slice_from. rewrite slice_ok by lia. cbn [mbind out_bind].
  rewrite blit_plain; [|done|]. 2: { pose proof (len_words src) as E. pose proof (len_sub_list (raw_buffer (screen d)) o (len (raw_buffer (screen d)))) as E'. unfold len in *. lia. }
  cbn [mbind out_bind]. do 5 f_equal. unfold put, sub_list. rewrite drop_0, Z.sub_0_r. f_equal. f_equal.
  rewrite take_ge by (rewrite length_drop; unfold len; lia). rewrite drop_drop. f_equal. unfold len. rewrite length_fmap. lia.
Qed.

(** ** The frame buffer of a program *)

Lemma sub_list_nil l a b : b ≤ a → sub_list l a b = [].
Proof. intros. unfold sub_list. replace (Z.to_nat (b - a)) with 0%nat by lia. apply take_0. Qed.

Lemma words_drop n l : words (drop (4 * n) l) = drop n (words l).
Proof.
  revert l. induction n as [|n IH]; intros l; [done|]. replace (4 * S n)%nat with (S (S (S (S (4 * n))))) by lia.
  destruct l as [|a [|b [|c [|d l]]]]; cbn [drop words]; rewrite ?drop_nil; try done; apply IH.
Qed.

Lemma words_take n l : words (take (4 * n) l) = take n (words l).
Proof.
  revert l. induction n as [|n IH]; intros l; [done|]. replace (4 * S n)%nat with (S (S (S (S (4 * n))))) by lia.
  destruct l as [|a [|b [|c [|d l]]]]; cbn [take words]; rewrite ?take_nil; try done; by rewrite IH.
Qed.

Lemma words_sub l a b : 0 ≤ a → words (sub_list l (4 * a) (4 * b)) = sub_list (words l) a b.
Proof.
  intros Ha. unfold sub_list. replace (Z.to_nat (4 * b - 4 * a)) with (4 * Z.to_nat (b - a))%nat by lia.
  replace (Z.to_nat (4 * a)) with (4 * Z.to_nat a)%nat by lia. by rewrite words_take, words_drop.
Qed.

Lemma words_of_app l l' : len l mod 4 = 0 → words (l ++ l') = words l ++ words l'.
Proof.
  induction l as [| | | |a b c d l IH] using list_by_4; try done. rewrite !len_cons. intros Hm.
  cbn [app words]. rewrite IH; [done|]. rewrite <- Hm. replace (len l + 1 + 1 + 1 + 1) with (len l + 1 * 4) by lia.
  by rewrite Z.mod_add by lia.
Qed.

(** Words are written in the bytes of the buffer. *)
Lemma words_put l a ps :
  0 ≤ a → 4 * (a + len ps) ≤ len l → Forall (is_uint 32) ps → words (put l (4 * a) (unwords ps)) = put (words l) a ps.
Proof.
  intros Ha Hl Hp. pose proof (len_nonneg ps). unfold put. rewrite len_unwords.
  replace (Z.to_nat (4 * a)) with (4 * Z.to_nat a)%nat by lia.
  replace (Z.to_nat (4 * a + 4 * len ps)) with (4 * Z.to_nat (a + len ps))%nat by lia.
  rewrite words_of_app, words_of_app, words_unwords, words_take, words_drop; try done.
  - rewrite len_unwords. by rewrite Z.mul_comm, Z.mod_mul by lia.
  - unfold len in *. rewrite length_take. replace (Z.of_nat _) with (a * 4) by lia. by apply Z.mod_mul.
Qed.

(** The frame buffer of a program that has opened the screen *)
Record frame_ok (d : Display) (fb : FrameBuffer) : Prop := mk_frame_ok {
  frame_info : fb_info fb = s_info (screen d);
  frame_size : len (internal_fb fb) = size (s_info (screen d));
  frame_bytes : bytes (internal_fb fb);
}.

Section frame.
Context (info_bytes : Info → list Z) (pre post : DeviceFS Display).

(** The kernel, with the screen [d] at its path *)
Definition screens (d : Display) : DeviceFS Display := pre ++ mkDeviceFile FB_FILE d :: post.

Context (Hpre : Forall (λ f, df_path f ≠ FB_FILE) pre).

Lemma sc_write_fb_ok d src o :
  display_ok d → bytes src → len src mod 4 = 0 → 0 ≤ o → o + len src / 4 ≤ len (raw_buffer (screen d)) →
  sc_write_fb info_bytes src (4 * o) (screens d) =
    Ret (screens (set_screen d (mkScreen (put (raw_buffer (screen d)) o (shown (pixel_format (s_info (screen d))) <$> words src))
      (s_info (screen d)))), len src).
Proof.
  intros Hd Hb Hm Ho Hl. unfold sc_write_fb.
  rewrite (@dev_fs_write_ok _ (screen_device info_bytes true) (screens d) FB_FILE pre d post src (4 * o) _ _ (conj eq_refl Hpre)
    (device_write_ok d src o Hd Hb Hm Ho Hl)). done.
Qed.

(** [write_all] of a file whose system call takes everything at once *)
Lemma write_all_once {K} (sc_write : list Z → Z → K → out (K * Z)) file k k' data :
  0 < len data → position file + len data < 2 ^ 64 → sc_write data (position file) k = Ret (k', len data) →
  @write_all _ (file_writer sc_write) (file, k) data = Ret ((mkFile (position file + len data), k'), Ok tt).
Proof.
  intros Hl Hp E. unfold write_all. destruct data as [|x data']; [done|]. set (data := x :: data') in *.
  change (S (length data)) with (S (S (length data'))). cbn [write_all_loop io_write file_writer]. unfold File_write.
  rewrite (proj2 (Z.eqb_neq (len data) 0)), E by lia. cbn [mbind out_bind]. rewrite (proj2 (Z.ltb_ge (len data) 0)), add_w_ok by lia.
  cbn [mbind out_bind]. rewrite (proj2 (Z.eqb_neq (len data) 0)) by lia. unfold slice_from. rewrite slice_ok by lia.
  cbn [mbind out_bind]. rewrite (sub_list_nil data) by lia. done.
Qed.

(** The rows that a flush writes, within the screen *)
Definition flushed (d : Display) (fb : FrameBuffer) (a b : Z) : Display :=
  let i := s_info (screen d) in
  let a := Z.min a (height i) in let b := Z.min b (height i) in
  set_screen d (mkScreen (put (raw_buffer (screen d)) (a * stride i)
    (shown (pixel_format i) <$> sub_list (words (internal_fb fb)) (a * stride i) (b * stride i))) i).

Lemma flush_rows_ok d fb a b :
  display_ok d → frame_ok d fb → 0 ≤ a →
  ∃ file, FrameBuffer.flush_rows (sc_write_fb info_bytes) fb (a, b) (screens d) =
    Ret (screens (flushed d fb a b), mkFrameBuffer (fb_info fb) file (internal_fb fb), Ok tt).
Proof.
  intros Hd [Hi Hs Hb] Ha. pose proof Hd as [Hf H4 Hsize Hw Hh Hbuf Hfit]. unfold FrameBuffer.flush_rows, FrameBuffer.stride_bytes, flushed.
  rewrite Hi. cbn [fst snd]. set (i := s_info (screen d)) in *. rewrite H4.
  set (a' := Z.min a (height i)). set (b' := Z.min b (height i)).
  destruct (Z.leb_spec b' a') as [Hle|Hlt].
  - exists (fb_file fb). rewrite (sub_list_nil (words _)) by nia. cbn [fmap list_fmap].
    rewrite put_nil, <- Hi. unfold set_screen. destruct d as [[]]. cbn in *. subst i. rewrite <- Hi. by destruct fb.
  - assert (0 ≤ a' ∧ b' ≤ height i) as [? ?] by lia. assert (0 ≤ stride i) by lia.
    assert (0 ≤ a' * stride i ∧ a' * stride i ≤ b' * stride i ∧ b' * stride i ≤ height i * stride i) as (? & ? & ?) by nia.
    cbn [File_seek mbind out_bind].
    replace (a' * (stride i * 4)) with (4 * (a' * stride i)) by lia. replace (b' * (stride i * 4)) with (4 * (b' * stride i)) by lia.
    rewrite slice_ok by lia. cbn [mbind out_bind].
    destruct (decide (stride i = 0)) as [E0|Hne].
    { rewrite E0 in *. rewrite !Z.mul_0_r in *. rewrite !sub_list_nil by lia. cbn [fmap list_fmap]. rewrite put_nil. eexists.
      cbn. by destruct d as [[]]. }
    rewrite <- words_sub by lia.
    assert (len (sub_list (internal_fb fb) (4 * (a' * stride i)) (4 * (b' * stride i))) = 4 * ((b' - a') * stride i)) as Hlen
      by (rewrite len_sub_list; lia).
    assert (0 < (b' - a') * stride i) by nia.
    rewrite (write_all_once _ (mkFile (4 * (a' * stride i))) (screens d)) with (k' := screens (flushed d fb a b)).
    + cbn [mbind out_bind]. eexists. unfold flushed. fold i a' b'. rewrite <- words_sub by lia. done.
    + lia.
    + cbn [position]. lia.
    + cbn [position]. rewrite sc_write_fb_ok; try done; rewrite ?Hlen.
      * unfold flushed. fold i a' b'. rewrite <- words_sub by lia. done.
      * by apply Forall_take, Forall_drop.
      * by rewrite Z.mul_comm, Z.mod_mul by lia.
      * rewrite (Z.mul_comm 4), Z.div_mul by lia. lia.
Qed.

End frame.

(** Drawing through a view of the rows from [r] on *)
Lemma bytes_unwords l : bytes (unwords l).
Proof.
  induction l as [|p l IH]; [by apply Forall_nil|]. apply Forall_app. split; [|done]. apply Forall_rev, bytes_to_be.
Qed.

Lemma view_ok d fb r :
  display_ok d → frame_ok d fb → 0 ≤ r ≤ height (s_info (screen d)) →
  let i := s_info (screen d) in
  ∃ v, FrameBuffer.view_from_row fb r = Ret v ∧
    v_info v = mkInfo (4 * ((height i - r) * stride i)) (width i) (height i - r) (pixel_format i) (stride i) 4 ∧
    FrameView.pixels_mut v = Ret (sub_list (words (internal_fb fb)) (r * stride i) (height i * stride i)).
Proof.
  intros [Hf H4 Hsize Hw Hh Hbuf Hfit] [Hi Hs Hb] Hr i. unfold FrameBuffer.view_from_row, FrameBuffer.stride_bytes. rewrite Hi. fold i.
  fold i in H4, Hsize, Hw, Hh, Hbuf, Hfit, Hs, Hr. rewrite H4, Z.min_l by lia. unfold saturating_sub, rows_info. rewrite Z.max_r by lia.
  assert (0 ≤ r * stride i ≤ height i * stride i) by nia.
  rewrite (proj2 (Z.ltb_lt _ _)) by nia. cbn [assert_ mbind out_bind]. rewrite slice_ok by nia. cbn [mbind out_bind].
  eexists. split; [reflexivity|]. cbn [v_info]. rewrite H4. split; [f_equal; lia|].
  unfold FrameView.pixels_mut. cbn [v_bytes]. replace (r * (stride i * 4)) with (4 * (r * stride i)) by lia.
  replace (4 * (r * stride i) + (height i - r) * (stride i * 4)) with (4 * (height i * stride i)) by lia.
  rewrite len_sub_list by lia. rewrite <- Z.mul_sub_distr_l, (Z.mul_comm 4 (_ - _)), Z.mod_mul by lia. cbn [Z.eqb assert_ mbind out_bind].
  by rewrite words_sub by lia.
Qed.

Lemma write_back_ok d fb r v ps :
  display_ok d → frame_ok d fb → 0 ≤ r ≤ height (s_info (screen d)) →
  let i := s_info (screen d) in
  len ps = (height i - r) * stride i → Forall (is_uint 32) ps →
  frame_ok d (FrameBuffer.write_back fb r (FrameView.set_pixels v ps)) ∧
  words (internal_fb (FrameBuffer.write_back fb r (FrameView.set_pixels v ps))) = put (words (internal_fb fb)) (r * stride i) ps.
Proof.
  intros [Hf H4 Hsize Hw Hh Hbuf Hfit] [Hi Hs Hb] Hr i Hl Hp.
  fold i in H4, Hsize, Hw, Hh, Hbuf, Hfit, Hs, Hr. unfold FrameBuffer.write_back, FrameBuffer.stride_bytes. rewrite Hi. fold i.
  cbn [FrameView.set_pixels v_bytes internal_fb]. rewrite H4, Z.min_l by lia. replace (r * (stride i * 4)) with (4 * (r * stride i)) by lia.
  assert (0 ≤ r * stride i ≤ height i * stride i) by nia.
  split; [|apply words_put; [lia | lia | done]]. split; cbn [fb_info internal_fb]; [done | |].
  - fold i. rewrite len_put; rewrite ?len_unwords; lia.
  - apply bytes_put; [done | apply bytes_unwords].
Qed.

(** ** Messages *)

Lemma shows_recolor i c c' n p w b : shows i c n p w b → shows i c' n p (FramebufferWriter.set_color w c') b.
Proof. by intros []. Qed.

(** A message on the page of the log: its severity in colour, then its text *)
Definition typed (F : Font) (i : Info) (c : PixelComponents) (s : list Z) (p : Page) : Page := foldl (type_char F i c) p s.
Definition message (F : Font) (i : Info) (severity : Severity) (args : list Z) (p : Page) : Page :=
  typed F i PixelComponents.WHITE args (typed F i PixelComponents.WHITE [32] (typed F i PixelComponents.WHITE [93]
    (typed F i (Severity.color severity) (Severity.as_str severity) (typed F i PixelComponents.WHITE [91] p)))).

Lemma log_types F severity args d w p lines :
  let i := s_info (screen d) in
  font_ok F → screen_ok F i (len (raw_buffer (screen d))) → log_on_screen d = true → screen_logger d = Some w →
  shows i PixelComponents.WHITE (len (raw_buffer (screen d))) p w (raw_buffer (screen d)) → room F i (lines + line_feeds args) p →
  ∃ b w', log F severity args d = Ret (set_logger (set_screen d (mkScreen b i)) (Some w')) ∧
    shows i PixelComponents.WHITE (len (raw_buffer (screen d))) (message F i severity args p) w' b ∧
    room F i lines (message F i severity args p).
Proof.
  intros i Hf Hs Hon Hw Hp Hr. unfold log. rewrite Hon, Hw. unfold ScreenWriter.write_str. fold i.
  assert (is_color PixelComponents.WHITE ∧ is_color (Severity.color severity)) as [Hwhite Hsev] by (split; [|destruct severity]; repeat split; cbn; lia).
  assert (line_feeds (Severity.as_str severity) = 0%nat) as H0 by by destruct severity.
  set (n := len (raw_buffer (screen d))) in *. set (k := (lines + line_feeds args)%nat) in *.
  assert (∀ s, line_feeds s = 0%nat → ∀ q, room F i k q → room F i (k + line_feeds s) q) as Hk by (intros s -> q; by rewrite Nat.add_0_r).
  destruct (write_str_types F i _ n Hf Hs Hwhite k _ _ _ [91] Hp (Hk [91] eq_refl _ Hr)) as (w1 & b1 & -> & Hp1 & Hr1). cbn [mbind out_bind raw_buffer s_info].
  destruct (write_str_types F i _ n Hf Hs Hsev k _ _ _ (Severity.as_str severity) (shows_recolor _ _ _ _ _ _ _ Hp1) (Hk _ H0 _ Hr1))
    as (w2 & b2 & -> & Hp2 & Hr2). cbn [mbind out_bind raw_buffer s_info].
  destruct (write_str_types F i _ n Hf Hs Hwhite k _ _ _ [93] (shows_recolor _ _ _ _ _ _ _ Hp2) (Hk [93] eq_refl _ Hr2)) as (w3 & b3 & -> & Hp3 & Hr3).
  cbn [mbind out_bind raw_buffer s_info].
  destruct (write_str_types F i _ n Hf Hs Hwhite k _ _ _ [32] Hp3 (Hk [32] eq_refl _ Hr3)) as (w4 & b4 & -> & Hp4 & Hr4). cbn [mbind out_bind raw_buffer s_info].
  destruct (write_str_types F i _ n Hf Hs Hwhite lines _ _ _ args Hp4 Hr4) as (w5 & b5 & -> & Hp5 & Hr5). cbn [mbind out_bind raw_buffer s_info].
  eauto.
Qed.

(** While a program has the screen, messages leave it alone. *)
Lemma log_silent F severity args d : log_on_screen d = false → log F severity args d = Ret d.
Proof. unfold log. by intros ->. Qed.

Lemma black_0 d : display_ok d → ScreenDevice.black d = 0.
Proof. intros [Hf _ _ _ _ _ _]. unfold ScreenDevice.black. by destruct (pixel_format (s_info (screen d))). Qed.

Lemma shows_cleared i c w (b : list Z) : info w = i → curr_color w = c →
  shows i c (len b) blank (FramebufferWriter.soft_clear w) (replicate (length b) 0).
Proof.
  intros Hi Hc. split; try done.
  - unfold len. by rewrite length_replicate.
  - intros n Hn. unfold byte_at. rewrite nth_lookup, lookup_replicate_2; [done|]. unfold len in Hn. lia.
Qed.

(** When it gives the screen back, the messages go on at the top of a blank page. *)
Lemma closed_blank d w :
  display_ok d → screen_logger d = Some w → info w = s_info (screen d) → curr_color w = PixelComponents.WHITE →
  let d' := ScreenDevice.on_close d in
  log_on_screen d' = true ∧ s_info (screen d') = s_info (screen d) ∧ display_ok d' ∧
  ∃ w', screen_logger d' = Some w' ∧
    shows (s_info (screen d)) PixelComponents.WHITE (len (raw_buffer (screen d))) blank w' (raw_buffer (screen d')).
Proof.
  intros Hd Hw Hi Hc d'. pose proof (black_0 d Hd) as Hb. destruct Hd as [Hf H4 Hsize Hwd Hh Hbuf Hfit].
  split_and!; [done | done | split; try done; cbn; unfold len in *; rewrite ?length_replicate; done |].
  exists (FramebufferWriter.soft_clear w). cbn. rewrite Hw, Hb. split; [done|]. by apply shows_cleared.
Qed.

(** The limit is in bytes where the offset counts pixels: a write behind the end of the screen panics. *)
Lemma device_write_past_end d :
  display_ok d → 1 ≤ len (raw_buffer (screen d)) →
  ScreenDevice.write true [0; 0; 0; 0] (4 * (len (raw_buffer (screen d)) + 1)) d = Panic.
Proof.
  intros [Hf _ Hs Hw Hh Hb Hfit] Hl. unfold ScreenDevice.write. cbn [negb andb orb ScreenDevice.components].
  change (len [0; 0; 0; 0] mod 4 =? 0) with true. cbn [negb]. rewrite Z.mul_comm, Z.div_mul by lia. change (len [mkComponents 0 0 0]) with 1.
  rewrite add_w_ok by lia. cbn [mbind out_bind]. rewrite (proj2 (Z.ltb_ge _ _)) by lia.
  unfold slice_from, slice. by rewrite (proj2 (Z.leb_gt _ _)) by lia.
Qed.

(** The pixels after a flush *)
Lemma flushed_at d fb a b n :
  display_ok d → frame_ok d fb → 0 ≤ a → 0 ≤ n < len (raw_buffer (screen d)) →
  let i := s_info (screen d) in
  byte_at (raw_buffer (screen (flushed d fb a b))) n =
    if (Z.min a (height i) * stride i <=? n) && (n <? Z.min b (height i) * stride i)
    then shown (pixel_format i) (byte_at (words (internal_fb fb)) n) else byte_at (raw_buffer (screen d)) n.
Proof.
  intros [Hf H4 Hsize Hw Hh Hbuf Hfit] [Hi Hs Hb] Ha Hn i. fold i in Hf, H4, Hsize, Hw, Hh, Hbuf, Hfit, Hs.
  unfold flushed. fold i. cbn [screen set_screen raw_buffer]. set (a' := Z.min a (height i)). set (b' := Z.min b (height i)).
  assert (0 ≤ a' * stride i ∧ b' * stride i ≤ height i * stride i ∧ a' * stride i ≤ height i * stride i) as (? & ? & ?) by (unfold a', b'; nia).
  pose proof (len_words (internal_fb fb)) as Hlw. rewrite Hs, Hsize, Z.mul_comm, Z.div_mul in Hlw by lia.
  destruct (Z.le_gt_cases (b' * stride i) (a' * stride i)) as [Hle|Hlt].
  - rewrite sub_list_nil by done. cbn [fmap list_fmap]. rewrite put_nil.
    destruct (Z.leb_spec (a' * stride i) n), (Z.ltb_spec n (b' * stride i)); try done. lia.
  - assert (len (shown (pixel_format i) <$> sub_list (words (internal_fb fb)) (a' * stride i) (b' * stride i)) = b' * stride i - a' * stride i) as Hl.
    { unfold len. rewrite length_fmap. apply (len_sub_list (words (internal_fb fb))); lia. }
    rewrite byte_put by lia. rewrite Hl. replace (a' * stride i + (b' * stride i - a' * stride i)) with (b' * stride i) by lia.
    destruct (Z.leb_spec (a' * stride i) n), (Z.ltb_spec n (b' * stride i)); try done. cbn [andb].
    unfold byte_at, sub_list. rewrite !nth_lookup, list_lookup_fmap, lookup_take_lt, lookup_drop by lia.
    replace (Z.to_nat (a' * stride i) + Z.to_nat (n - a' * stride i))%nat with (Z.to_nat n) by lia.
    destruct (lookup_lt_is_Some_2 (words (internal_fb fb)) (Z.to_nat n)) as [p ->]; [unfold len in *; lia | done].
Qed.

(** C20: the screen is shared between the messages of the kernel and the program that has opened it.  As long as the
    program has it, messages leave it alone.  A flush of rows always succeeds and puts exactly those rows of the frame
    buffer of the program on the screen.  When the program closes it, messages go on at the top of a blank page, each
    one with its severity in colour, and never panic. *)
Theorem screen_shared F info_bytes pre post d fb w a b severity args :
  let i := s_info (screen d) in
  display_ok d → frame_ok d fb → Forall (λ f, df_path f ≠ FB_FILE) pre → 0 ≤ a →
  font_ok F → screen_ok F i (len (raw_buffer (screen d))) → room F i (line_feeds args) blank →
  screen_logger d = Some w → info w = i → curr_color w = PixelComponents.WHITE →
  log F severity args (ScreenDevice.on_open d) = Ret (ScreenDevice.on_open d) ∧
  (∃ d' fb', FrameBuffer.flush_rows (sc_write_fb info_bytes) fb (a, b) (screens pre post d) = Ret (screens pre post d', fb', Ok tt) ∧
     internal_fb fb' = internal_fb fb ∧
     ∀ n, 0 ≤ n < len (raw_buffer (screen d)) →
       byte_at (raw_buffer (screen d')) n =
         if (Z.min a (height i) * stride i <=? n) && (n <? Z.min b (height i) * stride i)
         then shown (pixel_format i) (byte_at (words (internal_fb fb)) n) else byte_at (raw_buffer (screen d)) n) ∧
  (∃ d' w', log F severity args (ScreenDevice.on_close d) = Ret d' ∧
     shows i PixelComponents.WHITE (len (raw_buffer (screen d))) (message F i severity args blank) w' (raw_buffer (screen d'))).
Proof.
  intros i Hd Hfb Hpre Ha Hf Hs Hr Hw Hi Hc. split; [by apply log_silent|]. split.
  - destruct (flush_rows_ok info_bytes pre post Hpre d fb a b Hd Hfb Ha) as [file E]. do 2 eexists. split; [exact E|].
    split; [done|]. intros n Hn. by apply flushed_at.
  - destruct (closed_blank d w Hd Hw Hi Hc) as (Hon & Hinfo & Hd' & w' & Hw' & Hp).
    assert (len (raw_buffer (screen (ScreenDevice.on_close d))) = len (raw_buffer (screen d))) as Hl.
    { rewrite (display_buffer _ Hd'), (display_buffer _ Hd). by rewrite Hinfo. }
    destruct (log_types F severity args (ScreenDevice.on_close d) w' blank 0) as (b' & w'' & -> & Hp' & _);
      try (rewrite ?Hinfo, ?Hl; done).
    rewrite Hinfo, Hl in Hp'. eauto.
Qed.

(** A screen of a few pixels, with the font of two by two points *)
Definition demo_display : Display :=
  mkDisplay (mkScreen (replicate 168 7) (mkInfo 672 12 12 Bgr 14 4)) false (Some (mkWriter (mkInfo 672 12 12 Bgr 14 4) 9 5 PixelComponents.WHITE)).
Definition demo_frame : FrameBuffer := mkFrameBuffer (mkInfo 672 12 12 Bgr 14 4) (mkFile 0) (replicate 672 85).

Lemma screen_shared_witness :
  (∃ d' fb', FrameBuffer.flush_rows (sc_write_fb (λ _, [])) demo_frame (2, 5) (screens [] [] demo_display) = Ret (screens [] [] d', fb', Ok tt) ∧
     byte_at (raw_buffer (screen d')) 30 = 0x555555) ∧
  ∃ d' w', log small_font Warn [65] (ScreenDevice.on_close demo_display) = Ret d' ∧
     shows (mkInfo 672 12 12 Bgr 14 4) PixelComponents.WHITE 168
       (message small_font (mkInfo 672 12 12 Bgr 14 4) Warn [65] blank) w' (raw_buffer (screen d')).
Proof.
  destruct (screen_shared small_font (λ _, []) [] [] demo_display demo_frame
    (mkWriter (mkInfo 672 12 12 Bgr 14 4) 9 5 PixelComponents.WHITE) 2 5 Warn [65]) as (_ & (d' & fb' & E & _ & Hn) & Hlog); try done.
  - split; [done | done|]. apply Forall_replicate. unfold is_uint. lia.
  - split; [done | done | | done]. intros c r. cbn [get_raster small_font]. destruct ((c =? 63) || (c =? 65)) eqn:E; [|done].
    intros [= <-]. split; [done|]. repeat constructor; lia.
  - split; [|done]. exists d', fb'. split; [done|]. rewrite Hn; by vm_compute.
Defined.
