(* ===== verification/Cells.v ===== *)
(** * Characters on a grid

    What [beskar-core/src/video/writer.rs] does to the dots of a screen when characters are written at the cells of a
    grid, as the canvas of [userspace/ascii-ui] and the terminal of [userspace/bashkar] do. *)

From S2P Require Import Prelude NetUtils Video.

(** [saturating_mul] of 16-bit words *)
Definition saturating_mul16 (a b : Z) : Z := Z.min (2 ^ 16 - 1) (a * b).

(** The characters that are drawn *)
Definition printable (c : Z) : Prop := c ≠ 10 ∧ c ≠ 13.

Section cells.
Context (F : Font) (i : Info) (color : PixelComponents).

(** A grid of characters over an image, with its first cell at [(x0, y0)]; between the lines the image stays. *)
Definition grid : Type := Z → Z → option Z.
Definition overlay (x0 y0 : Z) (g : grid) (d : Z → Z → Z) (a b : Z) : Z :=
  let u := a - x0 in let v := b - y0 in
  match g (u / CHAR_WIDTH F) (v / line_height F) with
  | Some c =>
      if v mod line_height F <? CHAR_HEIGHT F
      then tint (pixel_format i) color
             (byte_at (nth (Z.to_nat (v mod line_height F)) (FramebufferWriter.get_raster_backed F c) []) (u mod CHAR_WIDTH F))
      else d a b
  | None => d a b
  end.

Definition cell (col row c : Z) : grid := λ u v, if (u =? col) && (v =? row) then Some c else None.
(** The first grid in front of the second one *)
Definition front (g h : grid) : grid := λ u v, match g u v with Some c => Some c | None => h u v end.
Definition no_cells : grid := λ _ _, None.

Lemma overlay_front x0 y0 g h d a b : overlay x0 y0 g (overlay x0 y0 h d) a b = overlay x0 y0 (front g h) d a b.
Proof. unfold overlay, front. destruct (g _ _), (h _ _); repeat case_match; done. Qed.

Lemma overlay_ext x0 y0 g h d e a b :
  (∀ u v, g u v = h u v) → (∀ a b, d a b = e a b) → overlay x0 y0 g d a b = overlay x0 y0 h e a b.
Proof. intros Hg Hd. unfold overlay. by rewrite Hg, Hd. Qed.

Context (Hfont : font_ok F).

Lemma line_height_pos : 0 < line_height F.
Proof. pose proof (font_height _ Hfont). unfold line_height, LINE_SPACING. lia. Qed.

(** A character at a cell *)
Lemma print_cell x0 y0 col row c d a b :
  dot (print F i color (FramebufferWriter.get_raster_backed F c) (mkPage (x0 + col * CHAR_WIDTH F) (y0 + row * line_height F) d)) a b =
  overlay x0 y0 (cell col row c) d a b.
Proof.
  pose proof (font_width _ Hfont) as Hw. pose proof (font_height _ Hfont) as Hh. pose proof line_height_pos as Hl.
  unfold print, overlay, cell. cbn [dot column Video.row].
  set (u := a - x0). set (v := b - y0). replace (a - (x0 + col * CHAR_WIDTH F)) with (u - col * CHAR_WIDTH F) by (unfold u; lia).
  replace (b - (y0 + row * line_height F)) with (v - row * line_height F) by (unfold v; lia).
  pose proof (Z.div_mod u (CHAR_WIDTH F) ltac:(lia)) as Eu. pose proof (Z.mod_pos_bound u (CHAR_WIDTH F) Hw).
  pose proof (Z.div_mod v (line_height F) ltac:(lia)) as Ev. pose proof (Z.mod_pos_bound v (line_height F) Hl).
  assert (CHAR_HEIGHT F < line_height F) by (unfold line_height, LINE_SPACING; lia).
  destruct (Z.eqb_spec (u / CHAR_WIDTH F) col) as [<-|Hu]; cbn [andb].
  2: { assert (u - col * CHAR_WIDTH F < 0 ∨ CHAR_WIDTH F ≤ u - col * CHAR_WIDTH F) as [Hlt|Hge] by nia.
       - by rewrite (proj2 (Z.leb_gt _ _)) by lia.
       - rewrite (proj2 (Z.ltb_ge _ _)) by lia. by rewrite andb_false_r. }
  rewrite (proj2 (Z.leb_le 0 (u - _))), (proj2 (Z.ltb_lt (u - _) _)) by lia. cbn [andb].
  destruct (Z.eqb_spec (v / line_height F) row) as [<-|Hv]; cbn [andb].
  2: { assert (v - row * line_height F < 0 ∨ line_height F ≤ v - row * line_height F) as [Hlt|Hge] by nia.
       - by rewrite (proj2 (Z.leb_gt _ _)) by lia.
       - rewrite (proj2 (Z.ltb_ge _ _)) by lia. by rewrite andb_false_r. }
  rewrite (proj2 (Z.leb_le 0 (v - _))) by lia. cbn [andb].
  replace (v - v / line_height F * line_height F) with (v mod line_height F) by lia.
  replace (u - u / CHAR_WIDTH F * CHAR_WIDTH F) with (u mod CHAR_WIDTH F) by lia. done.
Qed.

Context (size : Z) (Hscreen : screen_ok F i size) (Hcolor : is_color color).

Lemma overlay_word x0 y0 g d a b : (∀ a b, is_uint 32 (d a b)) → is_uint 32 (overlay x0 y0 g d a b).
Proof.
  intros Hd. unfold overlay. case_match; [|apply Hd]. case_match; [|apply Hd]. apply tint_word; [done|].
  apply byte_at_u8. destruct (backed_shape F Hfont z) as [_ Hall]. rewrite nth_lookup.
  destruct (_ !! _) as [l|] eqn:El; [by apply (Forall_lookup_1 _ _ _ _ Hall) in El as [_ Hl] | by apply Forall_nil].
Qed.

(** The buffer of a writer holds an image, wherever its cursor is. *)
Definition holds (d : Z → Z → Z) (self : FramebufferWriter) (buffer : list Z) : Prop :=
  shows i color size (mkPage (x self) (y self) d) self buffer.

Lemma holds_ext d e self buffer : (∀ a b, d a b = e a b) → holds d self buffer → holds e self buffer.
Proof. intros He [? ? ? ? ? Hd]. split; try done. intros n Hn. rewrite Hd by done. apply He. Qed.

Lemma shows_holds p self buffer : shows i color size p self buffer → holds (dot p) self buffer.
Proof. by intros []. Qed.

(** The words of the screen and of its cursor *)
Definition cursor_fits : Prop :=
  width i + CHAR_WIDTH F + BORDER_PADDING < 2 ^ 16 ∧ height i + 2 * line_height F + BORDER_PADDING < 2 ^ 16.

(** A character at a place within the margins is drawn there and nowhere else. *)
Lemma write_char_at_place d self buffer a b c :
  cursor_fits → printable c → holds d self buffer → 0 ≤ a → 0 ≤ b →
  a + CHAR_WIDTH F + BORDER_PADDING < width i → b + line_height F + BORDER_PADDING < height i →
  ∃ self' buffer', FramebufferWriter.write_char_at F self buffer a b c = Ret (self', buffer') ∧
    holds (dot (print F i color (FramebufferWriter.get_raster_backed F c) (mkPage a b d))) self' buffer' ∧
    x self' = a + CHAR_WIDTH F ∧ y self' = b.
Proof.
  intros [Hsw Hsh] [H10 H13] [Hi Hc _ _ Hs Hd] Ha Hb Hw Hh. pose proof line_height_pos. pose proof (font_width _ Hfont).
  assert (BORDER_PADDING = 3) as HB by done. cbn [dot] in Hd.
  destruct (write_char_types F i color size Hfont Hscreen Hcolor 0 (mkPage a b d) (FramebufferWriter.set_cursor self a b) buffer c)
    as (self' & buffer' & E & Hp & _).
  - by split.
  - rewrite decide_False by done. unfold room. cbn [column Video.row]. lia.
  - exists self', buffer'. split; [exact E|]. revert Hp. unfold type_char. rewrite (proj2 (Z.eqb_neq _ _) H10), (proj2 (Z.eqb_neq _ _) H13).
    assert (wrap_page F i (wrap_line F i (mkPage a b d)) = mkPage a b d) as ->.
    { unfold wrap_line. cbn [column]. rewrite (proj2 (Z.leb_gt _ _)) by lia. unfold wrap_page. cbn [Video.row].
      by rewrite (proj2 (Z.leb_gt _ _)) by lia. }
    intros Hp. split; [by apply shows_holds in Hp|]. destruct Hp as [_ _ Hx Hy _ _]. done.
Qed.

Lemma write_cell_ok x0 y0 d self buffer col row c :
  cursor_fits → printable c → holds d self buffer → 0 ≤ x0 → 0 ≤ y0 → 0 ≤ col → 0 ≤ row →
  x0 + (col + 1) * CHAR_WIDTH F + BORDER_PADDING < width i → y0 + (row + 1) * line_height F + BORDER_PADDING < height i →
  ∃ self' buffer', FramebufferWriter.write_char_at F self buffer (x0 + col * CHAR_WIDTH F) (y0 + row * line_height F) c = Ret (self', buffer') ∧
    holds (overlay x0 y0 (cell col row c) d) self' buffer' ∧
    x self' = x0 + (col + 1) * CHAR_WIDTH F ∧ y self' = y0 + row * line_height F.
Proof.
  intros Hss Hp Hh Hx0 Hy0 Hcol Hrow Hw Hl. pose proof line_height_pos. pose proof (font_width _ Hfont).
  destruct (write_char_at_place d self buffer (x0 + col * CHAR_WIDTH F) (y0 + row * line_height F) c) as (self' & buffer' & E & Hp' & Hx & Hy);
    try done; try nia.
  exists self', buffer'. split; [done|]. split; [|lia]. eapply holds_ext; [|exact Hp']. intros a b. apply print_cell.
Qed.

(** The characters of a line from a cell on *)
Definition text_at (col row : Z) (s : list Z) : grid := λ u v,
  if (v =? row) && (col <=? u) then s !! Z.to_nat (u - col) else None.

Lemma text_at_cons col row c s u v : text_at col row (c :: s) u v = front (text_at (col + 1) row s) (cell col row c) u v.
Proof.
  unfold text_at, front, cell. destruct (Z.eqb_spec v row) as [->|]; cbn [andb]; [|by rewrite andb_false_r]. rewrite andb_true_r.
  destruct (Z.leb_spec col u), (Z.leb_spec (col + 1) u), (Z.eqb_spec u col) as [->|]; try lia; try done.
  - replace (Z.to_nat (u - col)) with (S (Z.to_nat (u - (col + 1)))) by lia. cbn. by destruct (s !! _).
  - by rewrite Z.sub_diag.
Qed.

(** A string within a line *)
Lemma write_text_ok x0 y0 d self buffer col row s :
  cursor_fits → Forall printable s → holds d self buffer → 0 ≤ x0 → 0 ≤ y0 → 0 ≤ col → 0 ≤ row →
  x0 + (col + len s) * CHAR_WIDTH F + BORDER_PADDING < width i → y0 + (row + 1) * line_height F + BORDER_PADDING < height i →
  ∃ self' buffer', FramebufferWriter.write_str_at F self buffer (x0 + col * CHAR_WIDTH F) (y0 + row * line_height F) s = Ret (self', buffer') ∧
    holds (overlay x0 y0 (text_at col row s) d) self' buffer'.
Proof.
  intros Hss Hs Hh Hx0 Hy0 Hcol Hrow Hw Hl. unfold FramebufferWriter.write_str_at.
  revert d self buffer col Hh Hcol Hw. induction Hs as [|c s Hc Hs IH]; intros d self buffer col Hh Hcol Hw.
  { do 2 eexists. split; [reflexivity|]. apply (holds_ext d); [|by destruct Hh]. intros a b. unfold overlay, text_at. by destruct (_ && _). }
  rewrite len_cons in Hw. pose proof (len_nonneg s). pose proof (font_width _ Hfont).
  destruct (write_cell_ok x0 y0 d self buffer col row c) as (self1 & buffer1 & E1 & Hh1 & Hx1 & Hy1); try done; try nia.
  cbn [FramebufferWriter.write_str]. unfold FramebufferWriter.write_char_at in E1. rewrite E1. cbn [mbind out_bind].
  destruct (IH (overlay x0 y0 (cell col row c) d) self1 buffer1 (col + 1)) as (self2 & buffer2 & E2 & Hh2); try done; try nia.
  assert (FramebufferWriter.set_cursor self1 (x0 + (col + 1) * CHAR_WIDTH F) (y0 + row * line_height F) = self1) as Hsc.
  { rewrite <- Hx1, <- Hy1. by destruct self1. }
  rewrite Hsc in E2. exists self2, buffer2. split; [done|]. eapply holds_ext; [|exact Hh2]. intros a b. rewrite overlay_front.
  apply overlay_ext; [|done]. intros u v. by rewrite text_at_cons.
Qed.

End cells.

Lemma shows_recolor_at i color color' size d w b :
  holds i color size d w b → holds i color' size d (FramebufferWriter.set_color w color') b.
Proof. by intros []. Qed.
