(* ===== verification/AsciiUi.v ===== *)
(** * Drawing with characters

    [userspace/ascii-ui/src/lib.rs]: a canvas of character cells on a frame buffer, with lines of text, rules and boxes. *)

From S2P Require Import Prelude NetUtils Video Cells.

(** A rectangle in cells *)
Record CharRect := mkRect { rect_x : Z; rect_y : Z; rect_width : Z; rect_height : Z }.

Module CharRect.

Definition new (x y width height : Z) : CharRect := mkRect x y width height.
Definition top (self : CharRect) : Z := rect_y self.
Definition left (self : CharRect) : Z := rect_x self.
Definition bottom (self : CharRect) : out Z := add_w 16 (rect_y self) (rect_height self).
Definition right (self : CharRect) : out Z := add_w 16 (rect_x self) (rect_width self).

Definition inset (self : CharRect) (amount : Z) : out CharRect :=
  x ← add_w 16 (rect_x self) amount;
  y ← add_w 16 (rect_y self) amount;
  twice ← mul_w 16 amount 2;
  Ret (mkRect x y (saturating_sub (rect_width self) twice) (saturating_sub (rect_height self) twice)).

End CharRect.

Record Theme := mkTheme { foreground : PixelComponents; background : PixelComponents }.

Module Theme.

Definition inverse (self : Theme) : Theme := mkTheme (background self) (foreground self).
Definition white_on_black : Theme := mkTheme PixelComponents.WHITE PixelComponents.BLACK.

End Theme.

(** The corners are those at the top left, top right, bottom right and bottom left. *)
Record BoxStyle := mkStyle { horizontal : Z; vertical : Z; corners : list Z }.

Module BoxStyle.

Definition classic : BoxStyle := mkStyle 45 124 [43; 43; 43; 43].
Definition heavy : BoxStyle := mkStyle 61 124 [35; 35; 35; 35].
Definition angled : BoxStyle := mkStyle 126 33 [47; 92; 92; 47].

End BoxStyle.

Record AsciiCanvas := mkCanvas {
  cv_writer : FramebufferWriter;
  cv_buffer : list Z;
  cols : Z;
  rows : Z;
  cell_w : Z;
  cell_h : Z;
  cv_pixel_format : PixelFormat;
  cv_theme : Theme;
}.

Definition set_drawn (c : AsciiCanvas) (w : FramebufferWriter) (b : list Z) : AsciiCanvas :=
  mkCanvas w b (cols c) (rows c) (cell_w c) (cell_h c) (cv_pixel_format c) (cv_theme c).

(** [TextFormatter] is a vector of bytes. *)
Module TextFormatter.

Definition new : list Z := [].
Definition clear (_self : list Z) : list Z := [].
Definition as_str (self : list Z) : list Z := self.
Definition write_str (self s : list Z) : list Z := self ++ s.

End TextFormatter.

Module AsciiCanvas.
Section canvas.
Context (F : Font).
Implicit Types (self : AsciiCanvas).

Definition new (i : Info) (buffer : list Z) (theme : Theme) : out AsciiCanvas :=
  let cell_w := CHAR_WIDTH F + LETTER_SPACING in
  let cell_h := CHAR_HEIGHT F + LINE_SPACING in
  let cols := width i / Z.max cell_w 1 in
  let rows := height i / Z.max cell_h 1 in
  writer ← FramebufferWriter.new i;
  let writer := FramebufferWriter.set_color writer (foreground theme) in
  Ret (mkCanvas writer buffer cols rows cell_w cell_h (pixel_format i) theme).

Definition set_color self (color : PixelComponents) : AsciiCanvas :=
  set_drawn self (FramebufferWriter.set_color (cv_writer self) color) (cv_buffer self).

Definition set_theme self (theme : Theme) : AsciiCanvas :=
  set_color (mkCanvas (cv_writer self) (cv_buffer self) (cols self) (rows self) (cell_w self) (cell_h self)
    (cv_pixel_format self) theme) (foreground theme).

Definition clear self (color : PixelComponents) : out AsciiCanvas :=
  pixel ← Pixel.from_format (cv_pixel_format self) color;
  let '(w, b) := FramebufferWriter.clear_screen (cv_writer self) (cv_buffer self) pixel in
  Ret (set_drawn self w b).

Definition clear_with_theme self : out AsciiCanvas := clear self (background (cv_theme self)).

Definition write_line_with_width self (col row : Z) (text : list Z) (max_width : option Z) : out AsciiCanvas :=
  if (rows self <=? row) || (cols self <=? col) then Ret self
  else
    let available := saturating_sub (cols self) col in
    let width := match max_width with Some w => Z.min w available | None => available end in
    if width =? 0 then Ret self
    else
      let trimmed := take (Z.to_nat width) text in
      let x := saturating_mul16 col (cell_w self) in
      let y := saturating_mul16 row (cell_h self) in
      '(w, b) ← FramebufferWriter.write_str_at F (cv_writer self) (cv_buffer self) x y trimmed;
      Ret (set_drawn self w b).

Definition write_line self (col row : Z) (text : list Z) : out AsciiCanvas := write_line_with_width self col row text None.

Definition write_line_centered self (row : Z) (text : list Z) : out AsciiCanvas :=
  if rows self <=? row then Ret self
  else
    let text_len := Z.min (len text) (cols self) in
    let start_col := saturating_sub (cols self) text_len / 2 in
    write_line self start_col row text.

Definition h_rule self (row ch : Z) : out AsciiCanvas :=
  if rows self <=? row then Ret self
  else
    n ← sub_w (cols self) 1;
    write_line self 0 row (replicate (Z.to_nat n) ch).

Definition fill_box self (rect : CharRect) (fill : Z) : out AsciiCanvas :=
  if (rect_width rect =? 0) || (rect_height rect =? 0) then Ret self
  else
    bottom ← CharRect.bottom rect;
    right ← CharRect.right rect;
    let max_row := Z.min bottom (rows self) in
    let max_col := Z.min right (cols self) in
    for_each (λ self row,
      let width := saturating_sub max_col (rect_x rect) in
      write_line self (rect_x rect) row (replicate (Z.to_nat width) fill)) self (seqZ (rect_y rect) (max_row - rect_y rect)).

Definition write_cell self (col row ch : Z) : out AsciiCanvas :=
  if (cols self <=? col) || (rows self <=? row) then Ret self
  else
    let x := saturating_mul16 col (cell_w self) in
    let y := saturating_mul16 row (cell_h self) in
    '(w, b) ← FramebufferWriter.write_char_at F (cv_writer self) (cv_buffer self) x y ch;
    Ret (set_drawn self w b).

Definition stroke_box self (rect : CharRect) (style : BoxStyle) : out AsciiCanvas :=
  if (rect_width rect <? 2) || (rect_height rect <? 2) then Ret self
  else
    right ← CharRect.right rect;
    let right := saturating_sub right 1 in
    bottom ← CharRect.bottom rect;
    let bottom := saturating_sub bottom 1 in
    first_col ← add_w 16 (rect_x rect) 1;
    self ← for_each (λ self col,
      self ← write_cell self col (rect_y rect) (horizontal style);
      write_cell self col bottom (horizontal style)) self (seqZ first_col (right - first_col));
    first_row ← add_w 16 (rect_y rect) 1;
    self ← for_each (λ self row,
      self ← write_cell self (rect_x rect) row (vertical style);
      write_cell self right row (vertical style)) self (seqZ first_row (bottom - first_row));
    self ← write_cell self (rect_x rect) (rect_y rect) (byte_at (corners style) 0);
    self ← write_cell self right (rect_y rect) (byte_at (corners style) 1);
    self ← write_cell self right bottom (byte_at (corners style) 2);
    write_cell self (rect_x rect) bottom (byte_at (corners style) 3).

Definition v_rule self (col : Z) (range : Z * Z) (ch : Z) : out AsciiCanvas :=
  for_each (λ self row, write_cell self col row ch) self (seqZ range.1 (range.2 - range.1)).

Definition format_line self (text : list Z) : list Z :=
  let max_len := saturating_sub (cols self) 2 in take (Z.to_nat max_len) text.

Definition write_formatted self (col row : Z) (text : list Z) (max_width : Z) : out AsciiCanvas :=
  write_line_with_width self col row text (Some max_width).

End canvas.
End AsciiCanvas.

(** ** What is drawn *)

Section drawn.
Context (F : Font) (i : Info) (color : PixelComponents) (size : Z).

(** The canvas over an image *)
Record canvas (d : Z → Z → Z) (self : AsciiCanvas) : Prop := mk_canvas {
  canvas_holds : holds i color size d (cv_writer self) (cv_buffer self);
  canvas_cols : cols self = width i / CHAR_WIDTH F;
  canvas_rows : rows self = height i / line_height F;
  canvas_cell_w : cell_w self = CHAR_WIDTH F;
  canvas_cell_h : cell_h self = line_height F;
}.

(** The cells within the margins of the writer *)
Definition inner (col row : Z) : Prop :=
  0 ≤ col ∧ 0 ≤ row ∧ (col + 1) * CHAR_WIDTH F + BORDER_PADDING < width i ∧ (row + 1) * line_height F + BORDER_PADDING < height i.

Context (Hfont : font_ok F) (Hscreen : screen_ok F i size) (Hcolor : is_color color) (Hfits : cursor_fits F i).

Lemma canvas_ext d e self : (∀ a b, d a b = e a b) → canvas d self → canvas e self.
Proof. intros He []. split; try done. by eapply holds_ext. Qed.

Lemma set_drawn_canvas d self w b : (∃ e, canvas e self) → holds i color size d w b → canvas d (set_drawn self w b).
Proof. intros [e []] Hh. by split. Qed.

Lemma inner_bounds col row :
  inner col row → col < width i / CHAR_WIDTH F ∧ row < height i / line_height F ∧
  col * CHAR_WIDTH F < 2 ^ 16 ∧ row * line_height F < 2 ^ 16.
Proof.
  intros (Hc & Hr & Hw & Hh). destruct Hfits as [Hf1 Hf2]. pose proof (font_width _ Hfont). pose proof (line_height_pos F Hfont).
  assert (BORDER_PADDING = 3) as HB by done. split_and!; try nia.
  - apply Z.lt_le_trans with (col + 1); [lia|]. apply Z.div_le_lower_bound; lia.
  - apply Z.lt_le_trans with (row + 1); [lia|]. apply Z.div_le_lower_bound; lia.
Qed.

Lemma write_cell_spec d self col row c :
  canvas d self → inner col row → printable c →
  ∃ self', AsciiCanvas.write_cell F self col row c = Ret self' ∧ canvas (overlay F i color 0 0 (cell col row c) d) self'.
Proof.
  intros Hcv Hin Hp. pose proof (inner_bounds _ _ Hin) as (Hb1 & Hb2 & Hb3 & Hb4). pose proof Hcv as [Hh Hc Hr Hcw Hch].
  destruct Hin as (Hi1 & Hi2 & Hi3 & Hi4). unfold AsciiCanvas.write_cell. rewrite Hc, Hr, Hcw, Hch.
  rewrite !(proj2 (Z.leb_gt _ _)) by lia. cbn [orb]. unfold saturating_mul16. rewrite !Z.min_r by lia.
  destruct (write_cell_ok F i color Hfont size Hscreen Hcolor 0 0 d _ _ col row c Hfits Hp Hh) as (w & b & E & Hh' & _); try lia.
  rewrite !Z.add_0_l in E. rewrite E. cbn [mbind out_bind]. eexists. split; [reflexivity|]. apply set_drawn_canvas; eauto.
Qed.

Lemma front_eq (g h : grid) u v : front g h u v = match g u v with Some c => Some c | None => h u v end.
Proof. done. Qed.

(** A loop that draws a grid in each round draws them in front of each other. *)
Fixpoint stack {A} (g : A → grid) (l : list A) : grid :=
  match l with
  | [] => no_cells
  | k :: l => front (stack g l) (g k)
  end.

Lemma stack_spec {A} (g : A → grid) (l : list A) u v c :
  (∀ k, k ∈ l → g k u v = None ∨ g k u v = Some c) →
  stack g l u v = if existsb (λ k, match g k u v with Some _ => true | None => false end) l then Some c else None.
Proof.
  induction l as [|k l IH]; intros Hk; [done|]. cbn [stack existsb]. unfold front. rewrite IH by set_solver.
  destruct (existsb _ l); [by rewrite orb_true_r|]. destruct (Hk k) as [-> | ->]; set_solver.
Qed.

Lemma for_each_draws {A} (body : AsciiCanvas → A → out AsciiCanvas) (g : A → grid) l d self :
  canvas d self →
  (∀ k d self, k ∈ l → canvas d self → ∃ self', body self k = Ret self' ∧ canvas (overlay F i color 0 0 (g k) d) self') →
  ∃ self', for_each body self l = Ret self' ∧ canvas (overlay F i color 0 0 (stack g l) d) self'.
Proof.
  revert d self. induction l as [|k l IH]; intros d self Hcv Hk; [by exists self; split; [|eapply canvas_ext; [|done]]|].
  destruct (Hk k d self ltac:(set_solver) Hcv) as (self1 & E1 & Hcv1). cbn [for_each]. rewrite E1. cbn [mbind out_bind].
  destruct (IH _ _ Hcv1 ltac:(intros; apply Hk; set_solver)) as (self2 & E2 & Hcv2). exists self2. split; [done|].
  eapply canvas_ext; [|exact Hcv2]. intros a b. by rewrite overlay_front.
Qed.

Lemma two_cells d self col row c col' row' c' :
  canvas d self → inner col row → inner col' row' → printable c → printable c' →
  ∃ self', (self ← AsciiCanvas.write_cell F self col row c; AsciiCanvas.write_cell F self col' row' c') = Ret self' ∧
    canvas (overlay F i color 0 0 (front (cell col' row' c') (cell col row c)) d) self'.
Proof.
  intros Hcv Hi1 Hi2 Hp1 Hp2. destruct (write_cell_spec d self col row c Hcv Hi1 Hp1) as (self1 & -> & Hcv1). cbn [mbind out_bind].
  destruct (write_cell_spec _ self1 col' row' c' Hcv1 Hi2 Hp2) as (self2 & -> & Hcv2). eexists. split; [reflexivity|].
  eapply canvas_ext; [|exact Hcv2]. intros a b. by rewrite overlay_front.
Qed.

(** *** Boxes *)

(** The cells of the border of a rectangle *)
Definition frame (rect : CharRect) (style : BoxStyle) : grid := λ u v,
  let l := rect_x rect in let r := rect_x rect + rect_width rect - 1 in
  let t := rect_y rect in let b := rect_y rect + rect_height rect - 1 in
  if (u =? l) && (v =? t) then Some (byte_at (corners style) 0)
  else if (u =? r) && (v =? t) then Some (byte_at (corners style) 1)
  else if (u =? r) && (v =? b) then Some (byte_at (corners style) 2)
  else if (u =? l) && (v =? b) then Some (byte_at (corners style) 3)
  else if ((v =? t) || (v =? b)) && ((l <? u) && (u <? r)) then Some (horizontal style)
  else if ((u =? l) || (u =? r)) && ((t <? v) && (v <? b)) then Some (vertical style)
  else None.

Definition style_ok (style : BoxStyle) : Prop :=
  printable (horizontal style) ∧ printable (vertical style) ∧ length (corners style) = 4%nat ∧ Forall printable (corners style).

Lemma existsb_seqZ (f : Z → bool) a n :
  existsb f (seqZ a n) = true ↔ ∃ k, a ≤ k < a + n ∧ f k = true.
Proof. rewrite existsb_exists. setoid_rewrite <- list_elem_of_In. setoid_rewrite elem_of_seqZ. done. Qed.

(** The edges of a box *)
Lemma edges_row (t b l n c u v : Z) :
  t < b → stack (λ col, front (cell col b c) (cell col t c)) (seqZ l n) u v =
  if ((v =? t) || (v =? b)) && ((l <=? u) && (u <? l + n)) then Some c else None.
Proof.
  intros Htb. rewrite (stack_spec _ _ u v c).
  2: { intros k _. unfold front, cell. repeat case_match; auto. }
  destruct (existsb _ _) eqn:E.
  - apply existsb_seqZ in E as (k & Hk & E). unfold front, cell in E.
    destruct (Z.eqb_spec u k) as [->|]; cbn [andb] in E; [|done].
    destruct (Z.eqb_spec v b), (Z.eqb_spec v t); cbn [orb andb]; try done;
      rewrite (proj2 (Z.leb_le _ _)), (proj2 (Z.ltb_lt _ _)) by lia; done.
  - destruct (((v =? t) || (v =? b)) && ((l <=? u) && (u <? l + n))) eqn:E2; [|done]. exfalso.
    apply not_true_iff_false in E. apply E. apply existsb_seqZ. exists u. split; [lia|]. unfold front, cell.
    rewrite Z.eqb_refl. cbn [andb]. destruct (Z.eqb_spec v b), (Z.eqb_spec v t); try done; lia.
Qed.

Lemma edges_col (t b l n c u v : Z) :
  t < b → stack (λ row, front (cell b row c) (cell t row c)) (seqZ l n) u v =
  if ((u =? t) || (u =? b)) && ((l <=? v) && (v <? l + n)) then Some c else None.
Proof.
  intros Htb. rewrite <- (edges_row t b l n c v u Htb). generalize (seqZ l n) as ks. intros ks.
  induction ks as [|k ks IH]; [done|]. cbn [stack]. unfold front in *. rewrite IH. destruct (stack _ ks v u); [done|].
  unfold cell. rewrite (andb_comm (u =? b)), (andb_comm (u =? t)). done.
Qed.

Definition rect_inner (rect : CharRect) : Prop :=
  0 ≤ rect_x rect ∧ 0 ≤ rect_y rect ∧ inner (rect_x rect + rect_width rect - 1) (rect_y rect + rect_height rect - 1).

Lemma rect_inner_cell rect col row :
  rect_inner rect → rect_x rect ≤ col < rect_x rect + rect_width rect → rect_y rect ≤ row < rect_y rect + rect_height rect → inner col row.
Proof.
  intros (Hx & Hy & _ & _ & Hw & Hh) Hc Hr. pose proof (font_width _ Hfont). pose proof (line_height_pos F Hfont). unfold inner. nia.
Qed.

Lemma rect_edges rect :
  rect_inner rect → 0 ≤ rect_width rect → 0 ≤ rect_height rect →
  CharRect.right rect = Ret (rect_x rect + rect_width rect) ∧ CharRect.bottom rect = Ret (rect_y rect + rect_height rect) ∧
  rect_x rect + rect_width rect < 2 ^ 16 ∧ rect_y rect + rect_height rect < 2 ^ 16.
Proof.
  intros (Hx & Hy & _ & _ & Hw & Hh) Hrw Hrh. destruct Hfits as [Hf1 Hf2]. pose proof (font_width _ Hfont). pose proof (line_height_pos F Hfont).
  assert (BORDER_PADDING = 3) as HB by done.
  assert (rect_x rect + rect_width rect ≤ (rect_x rect + rect_width rect - 1 + 1) * CHAR_WIDTH F) by nia.
  assert (rect_y rect + rect_height rect ≤ (rect_y rect + rect_height rect - 1 + 1) * line_height F) by nia.
  assert (rect_x rect + rect_width rect < 2 ^ 16 ∧ rect_y rect + rect_height rect < 2 ^ 16) as [? ?] by lia.
  unfold CharRect.right, CharRect.bottom. rewrite !add_w_ok by done. done.
Qed.

Lemma corner_printable style k : style_ok style → 0 ≤ k < 4 → printable (byte_at (corners style) k).
Proof.
  intros (_ & _ & Hl & Hp) Hk. unfold byte_at. rewrite nth_lookup.
  destruct (lookup_lt_is_Some_2 (corners style) (Z.to_nat k)) as [c Hc]; [lia|]. rewrite Hc. by apply (Forall_lookup_1 _ _ _ _ Hp Hc).
Qed.

Lemma stroke_box_spec d self rect style :
  canvas d self → style_ok style → rect_inner rect → 2 ≤ rect_width rect → 2 ≤ rect_height rect →
  ∃ self', AsciiCanvas.stroke_box F self rect style = Ret self' ∧ canvas (overlay F i color 0 0 (frame rect style) d) self'.
Proof.
  intros Hcv Hst Hin Hw Hh. pose proof Hst as (Hp1 & Hp2 & _ & _). unfold AsciiCanvas.stroke_box.
  destruct (rect_edges rect Hin ltac:(lia) ltac:(lia)) as (-> & -> & Hr & Hb). rewrite !(proj2 (Z.ltb_ge _ _)) by lia. cbn [orb mbind out_bind].
  unfold saturating_sub. rewrite !Z.max_r by (destruct Hin; lia). rewrite (add_w_ok 16 (rect_x rect)) by lia. cbn [mbind out_bind].
  set (l := rect_x rect) in *. set (t := rect_y rect) in *. set (r := l + rect_width rect - 1) in *. set (b := t + rect_height rect - 1) in *.
  assert (∀ col row, l ≤ col ≤ r → t ≤ row ≤ b → inner col row) as Hcell by (intros; apply (rect_inner_cell rect); [done | fold l; lia | fold t; lia]).
  destruct (for_each_draws (λ self col, self ← AsciiCanvas.write_cell F self col t (horizontal style); AsciiCanvas.write_cell F self col b (horizontal style))
    (λ col, front (cell col b (horizontal style)) (cell col t (horizontal style))) (seqZ (l + 1) (r - (l + 1))) _ _ Hcv) as (self1 & -> & Hcv1).
  { intros k e s [Hk1 Hk2]%elem_of_seqZ Hs. apply two_cells; try done; apply Hcell; lia. }
  cbn [mbind out_bind]. rewrite add_w_ok by lia. cbn [mbind out_bind].
  destruct (for_each_draws (λ self row, self ← AsciiCanvas.write_cell F self l row (vertical style); AsciiCanvas.write_cell F self r row (vertical style))
    (λ row, front (cell r row (vertical style)) (cell l row (vertical style))) (seqZ (t + 1) (b - (t + 1))) _ _ Hcv1) as (self2 & -> & Hcv2).
  { intros k e s [Hk1 Hk2]%elem_of_seqZ Hs. apply two_cells; try done; apply Hcell; lia. }
  cbn [mbind out_bind].
  destruct (write_cell_spec _ self2 l t (byte_at (corners style) 0) Hcv2) as (self3 & -> & Hcv3); [apply Hcell; lia | by apply corner_printable|].
  cbn [mbind out_bind].
  destruct (write_cell_spec _ self3 r t (byte_at (corners style) 1) Hcv3) as (self4 & -> & Hcv4); [apply Hcell; lia | by apply corner_printable|].
  cbn [mbind out_bind].
  destruct (write_cell_spec _ self4 r b (byte_at (corners style) 2) Hcv4) as (self5 & -> & Hcv5); [apply Hcell; lia | by apply corner_printable|].
  cbn [mbind out_bind].
  destruct (write_cell_spec _ self5 l b (byte_at (corners style) 3) Hcv5) as (self6 & -> & Hcv6); [apply Hcell; lia | by apply corner_printable|].
  eexists. split; [reflexivity|]. eapply canvas_ext; [|exact Hcv6]. intros a' b'. rewrite !overlay_front. apply overlay_ext; [|done].
  intros u v. rewrite !front_eq, edges_row, edges_col by lia. unfold frame, cell. fold l t. fold r b.
  destruct (Z.eqb_spec u l), (Z.eqb_spec u r), (Z.eqb_spec v t), (Z.eqb_spec v b); subst; try lia; cbn [andb orb]; try done;
    repeat match goal with |- context [?p <=? ?q] => destruct (Z.leb_spec p q) | |- context [?p <? ?q] => destruct (Z.ltb_spec p q) end;
    cbn [andb orb]; try done; lia.
Qed.

(** *** Lines *)

Lemma write_line_spec d self col row text :
  canvas d self → 0 ≤ col → inner 0 row → Forall printable text →
  (col + len text) * CHAR_WIDTH F + BORDER_PADDING < width i →
  ∃ self', AsciiCanvas.write_line F self col row text = Ret self' ∧ canvas (overlay F i color 0 0 (text_at col row text) d) self'.
Proof.
  intros Hcv Hc Hin Hp Hl. pose proof Hin as (_ & Hrow & _ & Hh). pose proof (inner_bounds _ _ Hin) as (_ & Hb2 & _ & Hb4).
  pose proof Hcv as [Hh0 Hcc Hcr Hcw Hch]. pose proof (font_width _ Hfont). pose proof (len_nonneg text). assert (BORDER_PADDING = 3) as HB by done.
  assert (col * CHAR_WIDTH F < 2 ^ 16) as Hx by (destruct Hfits; nia).
  unfold AsciiCanvas.write_line, AsciiCanvas.write_line_with_width. rewrite Hcc, Hcr, Hcw, Hch.
  assert (col + len text ≤ width i / CHAR_WIDTH F) as Hfit by (apply Z.div_le_lower_bound; lia).
  rewrite (proj2 (Z.leb_gt _ row)) by lia. cbn [orb]. destruct (Z.leb_spec (width i / CHAR_WIDTH F) col) as [Hle|Hlt].
  { assert (text = []) as -> by (destruct text; [done | rewrite len_cons in Hfit; pose proof (len_nonneg text); lia]).
    exists self. split; [done|]. eapply canvas_ext; [|done]. intros a b. unfold overlay, text_at. by destruct (_ && _). }
  unfold saturating_sub. rewrite Z.max_r by lia. rewrite (proj2 (Z.eqb_neq _ 0)) by lia.
  rewrite take_ge by (unfold len in *; lia). unfold saturating_mul16. rewrite !Z.min_r by lia.
  destruct (write_text_ok F i color Hfont size Hscreen Hcolor 0 0 d _ _ col row text Hfits Hp Hh0) as (w & b & E & Hh'); try lia.
  rewrite !Z.add_0_l in E. rewrite E. cbn [mbind out_bind]. eexists. split; [reflexivity|]. apply set_drawn_canvas; eauto.
Qed.

(** The rows of a box are filled. *)
Definition filled (rect : CharRect) (c : Z) : grid := λ u v,
  if ((rect_x rect <=? u) && (u <? rect_x rect + rect_width rect)) && ((rect_y rect <=? v) && (v <? rect_y rect + rect_height rect))
  then Some c else None.

Lemma text_at_replicate col row n c u v :
  text_at col row (replicate n c) u v = if (v =? row) && ((col <=? u) && (u <? col + Z.of_nat n)) then Some c else None.
Proof.
  unfold text_at. destruct (v =? row); cbn [andb]; [|done]. destruct (Z.leb_spec col u); cbn [andb]; [|done].
  destruct (Z.ltb_spec u (col + Z.of_nat n)); [apply lookup_replicate_2; lia|]. apply lookup_replicate_None. lia.
Qed.

Lemma fill_box_spec d self rect c :
  canvas d self → printable c → rect_inner rect → 0 ≤ rect_width rect → 0 ≤ rect_height rect →
  ∃ self', AsciiCanvas.fill_box F self rect c = Ret self' ∧ canvas (overlay F i color 0 0 (filled rect c) d) self'.
Proof.
  intros Hcv Hp Hin Hw Hh. unfold AsciiCanvas.fill_box. destruct (rect_edges rect Hin Hw Hh) as (-> & -> & Hr & Hb).
  destruct (Z.eqb_spec (rect_width rect) 0) as [E|Hw0]; [|destruct (Z.eqb_spec (rect_height rect) 0) as [E|Hh0]]; cbn [orb].
  1, 2: exists self; split; [done|]; eapply canvas_ext; [|done]; intros a b; unfold overlay, filled;
    match goal with |- _ = match (if ?x then _ else _) with _ => _ end => destruct x eqn:Ex end; [lia | done].
  cbn [mbind out_bind]. pose proof Hin as (Hx & Hy & Hlast). pose proof (inner_bounds _ _ Hlast) as (Hb1 & Hb2 & _ & _).
  pose proof Hcv as [_ Hcc Hcr _ _]. rewrite Hcc, Hcr, !Z.min_l by lia. unfold saturating_sub. rewrite Z.max_r by lia.
  replace (rect_x rect + rect_width rect - rect_x rect) with (rect_width rect) by lia.
  replace (rect_y rect + rect_height rect - rect_y rect) with (rect_height rect) by lia.
  destruct (for_each_draws (λ self row, AsciiCanvas.write_line F self (rect_x rect) row (replicate (Z.to_nat (rect_width rect)) c))
    (λ row, text_at (rect_x rect) row (replicate (Z.to_nat (rect_width rect)) c)) (seqZ (rect_y rect) (rect_height rect)) _ _ Hcv) as (self' & E & Hcv').
  { intros row e s [Hk1 Hk2]%elem_of_seqZ Hs. pose proof (font_width _ Hfont). destruct (rect_inner_cell rect (rect_x rect) row) as (? & ? & Hcw & ?); try done; try lia.
    destruct Hlast as (_ & _ & Hcl & _). apply write_line_spec; try done.
    - unfold inner. nia.
    - by apply Forall_replicate.
    - unfold len. rewrite length_replicate. nia. }
  exists self'. split; [done|]. eapply canvas_ext; [|exact Hcv']. intros a b. apply overlay_ext; [|done]. intros u v.
  rewrite (stack_spec _ _ u v c).
  2: { intros k _. rewrite text_at_replicate. case_match; auto. }
  unfold filled.
  set (p := ((rect_x rect <=? u) && (u <? rect_x rect + rect_width rect)) && ((rect_y rect <=? v) && (v <? rect_y rect + rect_height rect))).
  destruct (existsb _ _) eqn:Ex.
  - apply existsb_seqZ in Ex as (k & Hk & Ek). rewrite text_at_replicate in Ek.
    assert (p = true) as ->; [|done]. unfold p. 
    destruct ((v =? k) && ((rect_x rect <=? u) && (u <? rect_x rect + Z.of_nat (Z.to_nat (rect_width rect))))) eqn:E3; [|done]. clear - Hk E3 Hw Hh.
    rewrite !andb_true_iff, ?Z.leb_le, ?Z.ltb_lt, ?Z.eqb_eq in *. lia.
  - assert (p = false) as ->; [|done]. apply not_true_iff_false. intros Hpt. apply not_true_iff_false in Ex. apply Ex, existsb_seqZ.
    exists v. unfold p in Hpt. clear - Hpt Hw Hh.
    rewrite !andb_true_iff, ?Z.leb_le, ?Z.ltb_lt in Hpt. split; [lia|]. rewrite text_at_replicate.
    assert ((v =? v) && ((rect_x rect <=? u) && (u <? rect_x rect + Z.of_nat (Z.to_nat (rect_width rect)))) = true) as ->; [|done].
    rewrite !andb_true_iff, Z.leb_le, Z.ltb_lt, Z.eqb_eq. lia.
Qed.

End drawn.

(** ** The canvas as a whole *)

(** Nothing written to a canvas panics, wherever it is. *)
Section total.
Context (F : Font) (i : Info) (size : Z).
Context (Hfont : font_ok F) (Hscreen : screen_ok F i size) (Hfits : cursor_fits F i).

(** A canvas over some image of 32-bit words *)
Definition some_canvas (color : PixelComponents) (self : AsciiCanvas) : Prop :=
  ∃ d, canvas F i color size d self ∧ ∀ a b, is_uint 32 (d a b).

Lemma write_line_total color self col row text :
  is_color color → some_canvas color self → 0 ≤ col → 0 ≤ row → line_feeds text = 0%nat →
  ∃ self', AsciiCanvas.write_line F self col row text = Ret self' ∧ some_canvas color self'.
Proof.
  intros Hcolor (d & Hcv & Hd) Hc Hr Ht. unfold AsciiCanvas.write_line, AsciiCanvas.write_line_with_width.
  destruct (_ || _) eqn:Eb; [by exists self; split; [|exists d]|]. destruct (_ =? 0); [by exists self; split; [|exists d]|].
  pose proof Hcv as [Hh Hcc Hcr Hcw Hch]. apply orb_false_iff in Eb as [Eb1%Z.leb_gt Eb2%Z.leb_gt]. rewrite Hcr in Eb1. rewrite Hcc in Eb2.
  pose proof (font_width _ Hfont). pose proof (line_height_pos F Hfont). destruct Hfits as [Hf1 Hf2].
  assert (col * CHAR_WIDTH F ≤ width i) by (pose proof (Z.mul_div_le (width i) (CHAR_WIDTH F) ltac:(lia)); nia).
  assert (row * line_height F ≤ height i) by (pose proof (Z.mul_div_le (height i) (line_height F) ltac:(lia)); nia).
  rewrite Hcw, Hch. unfold saturating_mul16. assert (BORDER_PADDING = 3) as HB by done. rewrite !Z.min_r by lia.
  set (s := take _ text). assert (line_feeds s = 0%nat) as Hs.
  { unfold s, line_feeds in *. apply length_zero_iff_nil in Ht. rewrite <- (take_drop (Z.to_nat (saturating_sub (cols self) col)) text), filter_app in Ht.
    by apply app_eq_nil in Ht as [-> _]. }
  unfold FramebufferWriter.write_str_at.
  destruct (write_str_types F i color size Hfont Hscreen Hcolor 0 (mkPage (col * CHAR_WIDTH F) (row * line_height F) d)
    (FramebufferWriter.set_cursor (cv_writer self) (col * CHAR_WIDTH F) (row * line_height F)) (cv_buffer self) s) as (w & b & -> & Hp & _).
  - by destruct Hh as [? ? ? ? ? ?].
  - rewrite Hs. unfold room. cbn [column Video.row]. nia.
  - cbn [mbind out_bind]. eexists. split; [reflexivity|]. eexists. split; [apply set_drawn_canvas; [eauto|]; by apply shows_holds in Hp|].
    by apply type_str_words.
Qed.

Lemma write_centered_total color self row text :
  is_color color → some_canvas color self → 0 ≤ row → line_feeds text = 0%nat →
  ∃ self', AsciiCanvas.write_line_centered F self row text = Ret self' ∧ some_canvas color self'.
Proof.
  intros Hcolor Hs Hr Ht. unfold AsciiCanvas.write_line_centered. destruct (_ <=? _); [eauto|]. apply write_line_total; try done.
  unfold saturating_sub. apply Z.div_pos; lia.
Qed.

Lemma h_rule_total color self row c :
  is_color color → some_canvas color self → 0 ≤ row → 1 ≤ width i / CHAR_WIDTH F → printable c →
  ∃ self', AsciiCanvas.h_rule F self row c = Ret self' ∧ some_canvas color self'.
Proof.
  intros Hcolor Hs Hr Hw [Hc _]. unfold AsciiCanvas.h_rule. destruct (_ <=? _); [eauto|].
  rewrite sub_w_ok by (destruct Hs as (d & [_ -> _ _ _] & _); lia). cbn [mbind out_bind]. apply write_line_total; try done.
  unfold line_feeds. induction (Z.to_nat (cols self - 1)) as [|n IH]; [done|]. cbn [replicate]. by rewrite filter_cons_False.
Qed.

Lemma set_color_total color color' self : some_canvas color self → some_canvas color' (AsciiCanvas.set_color self color').
Proof. intros (d & [Hh Hc Hr Hcw Hch] & Hd). exists d. split; [|done]. split; try done. by apply (shows_recolor_at _ color). Qed.

Lemma clear_total color color' self :
  is_color color' → cv_pixel_format self = pixel_format i → some_canvas color self →
  ∃ self', AsciiCanvas.clear self color' = Ret self' ∧ some_canvas color self'.
Proof.
  intros Hcolor Hf (d & [Hh Hc Hr Hcw Hch] & _). unfold AsciiCanvas.clear. rewrite Hf. pose proof (screen_format _ _ _ Hscreen) as Hp.
  destruct (Pixel.from_format (pixel_format i) color') as [p|] eqn:E; [|by destruct (pixel_format i)]. cbn [mbind out_bind].
  eexists. split; [reflexivity|]. exists (λ _ _, p). split; [|intros _ _; by destruct (components_roundtrip _ _ _ Hcolor E)].
  destruct Hh as [Hi Hcl _ _ Hs _]. split; try done. split; try done.
  - unfold len. cbn. by rewrite length_replicate.
  - intros n Hn. unfold byte_at. cbn. rewrite nth_lookup, lookup_replicate_2; [done|]. unfold len in Hs. lia.
Qed.

Lemma new_canvas d w b theme :
  shows i (curr_color w) size (mkPage (x w) (y w) d) w b → is_color (foreground theme) →
  ∃ self, AsciiCanvas.new F i b theme = Ret self ∧ canvas F i (foreground theme) size d self ∧ cv_pixel_format self = pixel_format i.
Proof.
  intros [_ _ _ _ Hs Hd] Hc. pose proof (screen_format _ _ _ Hscreen) as Hp. pose proof (font_width _ Hfont). pose proof (line_height_pos F Hfont).
  unfold AsciiCanvas.new, FramebufferWriter.new.
  destruct (Pixel.components_by_format Pixel.WHITE (pixel_format i)) as [c|] eqn:E; [|by destruct (pixel_format i)]. cbn [mbind out_bind].
  eexists. split; [reflexivity|]. split; [|done]. unfold line_height, LETTER_SPACING in *. split; cbn; try done.
  - rewrite Z.add_0_r, Z.max_l by lia. done.
  - by rewrite Z.max_l by lia.
  - by rewrite Z.add_0_r.
Qed.

End total.

(** The last row of cells is not one: a character in a cell whose lower edge is within the border clears the canvas and
    is drawn at the top left. *)
Lemma last_row_clears F i color size d self c :
  font_ok F → screen_ok F i size → is_color color → cursor_fits F i → canvas F i color size d self → printable c →
  1 ≤ rows self → 1 ≤ cols self → CHAR_WIDTH F + BORDER_PADDING < width i → height i ≤ rows self * line_height F + BORDER_PADDING →
  ∃ self', AsciiCanvas.write_cell F self 0 (rows self - 1) c = Ret self' ∧
    canvas F i color size (dot (print F i color (FramebufferWriter.get_raster_backed F c) (blank))) self'.
Proof.
  intros Hfont Hscreen Hcolor Hfits Hcv [H10 H13] Hr Hc Hw Hl. pose proof Hcv as [Hh Hcc Hcr Hcw Hch].
  pose proof (font_width _ Hfont). pose proof (line_height_pos F Hfont). destruct Hfits as [Hf1 Hf2]. assert (BORDER_PADDING = 3) as HB by done.
  unfold AsciiCanvas.write_cell. rewrite !(proj2 (Z.leb_gt _ _)) by lia. cbn [orb]. rewrite Hcw, Hch. unfold saturating_mul16.
  assert ((rows self - 1) * line_height F ≤ height i) by (rewrite Hcr; pose proof (Z.mul_div_le (height i) (line_height F) ltac:(lia)); nia).
  rewrite !Z.min_r by lia. rewrite Z.mul_0_l. set (b := (rows self - 1) * line_height F) in *.
  destruct (write_char_types F i color size Hfont Hscreen Hcolor 0 (mkPage 0 b d) (FramebufferWriter.set_cursor (cv_writer self) 0 b) (cv_buffer self) c)
    as (w' & b' & E & Hp & _).
  - by destruct Hh.
  - rewrite decide_False by done. unfold room. cbn [column Video.row]. nia.
  - unfold FramebufferWriter.write_char_at. rewrite E. cbn [mbind out_bind]. eexists. split; [reflexivity|]. apply set_drawn_canvas; [eauto|].
    apply shows_holds in Hp. revert Hp. unfold type_char. rewrite (proj2 (Z.eqb_neq _ _) H10), (proj2 (Z.eqb_neq _ _) H13).
    assert (wrap_page F i (wrap_line F i (mkPage 0 b d)) = blank) as ->; [|done].
    unfold wrap_line. cbn [column]. rewrite (proj2 (Z.leb_gt _ _)) by lia. unfold wrap_page. cbn [Video.row].
    rewrite (proj2 (Z.leb_le _ _)) by (unfold b; lia). done.
Qed.

(** A box and its inside *)
Definition boxed (rect : CharRect) (style : BoxStyle) (c : Z) : grid :=
  front (filled (mkRect (rect_x rect + 1) (rect_y rect + 1) (rect_width rect - 2) (rect_height rect - 2)) c) (frame rect style).

Lemma inset_1 F i rect :
  font_ok F → cursor_fits F i → rect_inner F i rect → 2 ≤ rect_width rect → 2 ≤ rect_height rect →
  CharRect.inset rect 1 = Ret (mkRect (rect_x rect + 1) (rect_y rect + 1) (rect_width rect - 2) (rect_height rect - 2)) ∧
  rect_inner F i (mkRect (rect_x rect + 1) (rect_y rect + 1) (rect_width rect - 2) (rect_height rect - 2)).
Proof.
  intros Hfont Hfits Hin Hw Hh. destruct (rect_edges F i Hfont Hfits rect Hin) as (_ & _ & Hr & Hb); [lia..|]. pose proof Hin as (Hx & Hy & _).
  split.
  - unfold CharRect.inset. rewrite !add_w_ok, mul_w_ok by lia. cbn [mbind out_bind]. unfold saturating_sub. by rewrite !Z.max_r by lia.
  - destruct Hin as (_ & _ & _ & _ & Hw' & Hh'). pose proof (font_width _ Hfont). pose proof (line_height_pos F Hfont).
    unfold rect_inner, inner. cbn [rect_x rect_y rect_width rect_height]. nia.
Qed.

(** C35: boxes on a canvas.  For every rectangle of cells within the margins, stroking it and then filling its inset draws
    exactly a border of the given style and the inside of it; every other point of the screen stays as it was, and
    nothing panics. *)
Theorem canvas_boxes F i color size d self rect style c :
  font_ok F → screen_ok F i size → is_color color → cursor_fits F i → canvas F i color size d self →
  style_ok style → printable c → rect_inner F i rect → 2 ≤ rect_width rect → 2 ≤ rect_height rect →
  ∃ self1 inside self2, AsciiCanvas.stroke_box F self rect style = Ret self1 ∧ CharRect.inset rect 1 = Ret inside ∧
    AsciiCanvas.fill_box F self1 inside c = Ret self2 ∧
    canvas F i color size (overlay F i color 0 0 (boxed rect style c) d) self2.
Proof.
  intros Hfont Hscreen Hcolor Hfits Hcv Hst Hp Hin Hw Hh.
  destruct (stroke_box_spec F i color size Hfont Hscreen Hcolor Hfits d self rect style Hcv Hst Hin Hw Hh) as (self1 & E1 & Hcv1).
  destruct (inset_1 F i rect Hfont Hfits Hin Hw Hh) as [E2 Hin2].
  destruct (fill_box_spec F i color size Hfont Hscreen Hcolor Hfits _ self1 _ c Hcv1 Hp Hin2) as (self2 & E3 & Hcv2); [cbn; lia..|].
  eexists self1, _, self2. split; [exact E1|]. split; [exact E2|]. split; [exact E3|]. eapply canvas_ext; [|exact Hcv2]. intros a b. by rewrite overlay_front.
Qed.

Definition demo_canvas : AsciiCanvas :=
  mkCanvas (mkWriter small_screen 3 3 PixelComponents.ORANGE) (replicate 168 0) 6 3 2 4 Bgr Theme.white_on_black.

Lemma canvas_boxes_witness :
  ∃ self1 inside self2, AsciiCanvas.stroke_box small_font demo_canvas (mkRect 0 0 3 2) BoxStyle.angled = Ret self1 ∧
    CharRect.inset (mkRect 0 0 3 2) 1 = Ret inside ∧ AsciiCanvas.fill_box small_font self1 inside 65 = Ret self2 ∧
    canvas small_font small_screen PixelComponents.ORANGE 168
      (overlay small_font small_screen PixelComponents.ORANGE 0 0 (boxed (mkRect 0 0 3 2) BoxStyle.angled 65) (λ _ _, 0)) self2.
Proof.
  apply canvas_boxes.
  - split; [done | done | | done]. intros c r. cbn [get_raster small_font]. destruct ((c =? 63) || (c =? 65)) eqn:E; [|done].
    intros [= <-]. split; [done|]. repeat constructor; lia.
  - split; cbn; try done; lia.
  - repeat split; cbn; lia.
  - split; by vm_compute.
  - split; try done. split; try done. intros n Hn. unfold byte_at. cbn [demo_canvas cv_buffer].
    rewrite nth_lookup, lookup_replicate_2 by lia. done.
  - unfold style_ok, printable. cbn. split_and!; try done. repeat constructor; lia.
  - split; lia.
  - split_and!; by vm_compute.
  - cbn; lia.
  - cbn; lia.
Defined.
