(* ===== verification/Tty.v ===== *)
(** * The terminal of the shell

    [userspace/bashkar/src/video/tty.rs]: a grid of cells in the frame buffer of the shell, with a line that is edited by
    key events.  What it draws goes to the screen of the kernel by rows, as in [Screen]. *)

From S2P Require Import Prelude NetUtils Keyboard Vfs DevFs UserIo Video Screen Cells.

Record UiLayout := mkLayout {
  text_start_row : Z;
  inner_left_col : Z;
  inner_width_cols : Z;
  inner_height_rows : Z;
  cell_width_px : Z;
  cell_height_px : Z;
}.

(** ["BESKAR-OS > "] *)
Definition PROMPT : list Z := [66; 69; 83; 75; 65; 82; 45; 79; 83; 32; 62; 32].
Definition PROMPT_LEN : Z := len PROMPT.
Definition TEXT_COLOR : PixelComponents := PixelComponents.WHITE.

(** The characters of keys are those of ASCII, so that positions in the bytes of [input_buffer] are positions in its
    characters (lemma [as_char_ascii]). *)
Record Tty := mkTty {
  writer : FramebufferWriter;
  left_px : Z;
  top_px : Z;
  inner_cols : Z;
  inner_rows : Z;
  tty_cell_w : Z;
  line_h : Z;
  line_start_row : Z;
  rendered_len : Z;
  cursor_col : Z;
  cursor_row : Z;
  input_buffer : list Z;
  cursor_pos : Z;
  modifiers : KeyModifiers;
}.

Definition set_writer (t : Tty) (w : FramebufferWriter) : Tty :=
  mkTty w (left_px t) (top_px t) (inner_cols t) (inner_rows t) (tty_cell_w t) (line_h t) (line_start_row t) (rendered_len t)
    (cursor_col t) (cursor_row t) (input_buffer t) (cursor_pos t) (modifiers t).
Definition set_line (t : Tty) (start rendered : Z) : Tty :=
  mkTty (writer t) (left_px t) (top_px t) (inner_cols t) (inner_rows t) (tty_cell_w t) (line_h t) start rendered
    (cursor_col t) (cursor_row t) (input_buffer t) (cursor_pos t) (modifiers t).
Definition set_place (t : Tty) (col row : Z) : Tty :=
  mkTty (writer t) (left_px t) (top_px t) (inner_cols t) (inner_rows t) (tty_cell_w t) (line_h t) (line_start_row t) (rendered_len t)
    col row (input_buffer t) (cursor_pos t) (modifiers t).
Definition set_input (t : Tty) (buffer : list Z) (pos : Z) : Tty :=
  mkTty (writer t) (left_px t) (top_px t) (inner_cols t) (inner_rows t) (tty_cell_w t) (line_h t) (line_start_row t) (rendered_len t)
    (cursor_col t) (cursor_row t) buffer pos (modifiers t).
Definition set_modifiers (t : Tty) (m : KeyModifiers) : Tty :=
  mkTty (writer t) (left_px t) (top_px t) (inner_cols t) (inner_rows t) (tty_cell_w t) (line_h t) (line_start_row t) (rendered_len t)
    (cursor_col t) (cursor_row t) (input_buffer t) (cursor_pos t) m.

(** [a % b] *)
Definition rem (a b : Z) : out Z := if b =? 0 then Panic else Ret (a mod b).

Module Tty.
Section tty.
Context (F : Font).
Implicit Types (self : Tty) (pixels : list Z).

Definition cell_to_pixel self (col row : Z) : out (Z * Z) :=
  x ← add_w 16 (left_px self) (saturating_mul16 col (tty_cell_w self));
  Ret (x, saturating_mul16 row (line_h self)).

Definition new (layout : UiLayout) (screen_info : Info) : out Tty :=
  let cell_w := Z.max (cell_width_px layout) 1 in
  let line_height := Z.max (cell_height_px layout) 1 in
  let max_cols := Z.max (width screen_info / cell_w) 1 in
  let max_rows := Z.max (height screen_info / line_height) 1 in
  let inner_left_col := Z.min (inner_left_col layout) (max_cols - 1) in
  let inner_cols := Z.max (Z.min (inner_width_cols layout) (saturating_sub max_cols inner_left_col)) 1 in
  let text_start_row := Z.min (text_start_row layout) (max_rows - 1) in
  let inner_rows := Z.max (Z.min (inner_height_rows layout) (saturating_sub max_rows text_start_row)) 1 in
  let left_px := saturating_mul16 inner_left_col cell_w in
  let top_px := saturating_mul16 text_start_row line_height in
  let stride_bytes := stride screen_info * bytes_per_pixel screen_info in
  let remaining_rows := Z.max (saturating_sub (height screen_info) top_px) 1 in
  let view_size := stride_bytes * remaining_rows in
  new_info ← rows_info screen_info remaining_rows view_size;
  writer ← FramebufferWriter.new new_info;
  let writer := FramebufferWriter.set_color writer TEXT_COLOR in
  Ret (mkTty writer left_px top_px inner_cols inner_rows cell_w line_height 0 0 0 0 [] 0 KeyModifiers.new).

Definition advance_line self : out Tty :=
  next ← add_w 16 (cursor_row self) 1;
  row ← rem next (inner_rows self);
  Ret (set_place self 0 row).

Definition advance_cursor_cell self : out (Tty * bool) :=
  col ← add_w 16 (cursor_col self) 1;
  let self := set_place self col (cursor_row self) in
  if inner_cols self <=? cursor_col self then self ← advance_line self; Ret (self, true) else Ret (self, false).

Definition ensure_fit_before_write self : out (Tty * bool) :=
  if inner_cols self <=? cursor_col self then self ← advance_line self; Ret (self, true) else Ret (self, false).

(** [self.writer.write_char_at(pixels, x, y, ch)] *)
Definition put_char self pixels (x y ch : Z) : out (Tty * list Z) :=
  '(w, pixels) ← FramebufferWriter.write_char_at F (writer self) pixels x y ch;
  Ret (set_writer self w, pixels).

Fixpoint write_span self pixels (text : list Z) : out (Tty * list Z) :=
  match text with
  | [] => Ret (self, pixels)
  | ch :: text =>
      '(self, _) ← ensure_fit_before_write self;
      '(x, y_rel) ← cell_to_pixel self (cursor_col self) (cursor_row self);
      '(self, pixels) ← put_char self pixels x y_rel ch;
      '(self, _) ← advance_cursor_cell self;
      write_span self pixels text
  end.

Definition clear_rows self pixels (start_row rows : Z) : out (Tty * list Z) :=
  if rows =? 0 then Ret (self, pixels)
  else
    let rows := Z.min rows (inner_rows self) in
    for_each (λ '(self, pixels) offset,
      next ← add_w 16 start_row offset;
      row ← rem next (inner_rows self);
      for_each (λ '(self, pixels) col,
        '(x, y_rel) ← cell_to_pixel self col row;
        put_char self pixels x y_rel 32) (self, pixels) (seqZ 0 (inner_cols self))) (self, pixels) (seqZ 0 rows).

(** [len.div_ceil(cols)] *)
Definition rows_spanned self (n : Z) : Z :=
  if (inner_cols self =? 0) || (n =? 0) then 1
  else
    let rows := (n + inner_cols self - 1) / inner_cols self in
    Z.min rows (inner_rows self).

Definition get_input_line self : list Z := input_buffer self.
Definition drain_input_line self : Tty * list Z := (set_input self [] 0, input_buffer self).
Definition reset_input self : Tty := set_input self [] 0.

(** The screen: the frame buffer of the shell and the system call that writes to the device of the kernel *)
Section screen.
Context {K : Type} (sc_write : list Z → Z → K → out (K * Z)).
Implicit Types (fb : FrameBuffer) (k : K).

(** Drawing through the pixels of [screen.view_from_row(self.top_px)] *)
Definition draw {A} self fb (f : list Z → out (A * list Z)) : out (A * FrameBuffer) :=
  view ← FrameBuffer.view_from_row fb (top_px self);
  pixels ← FrameView.pixels_mut view;
  '(a, pixels) ← f pixels;
  Ret (a, FrameBuffer.write_back fb (top_px self) (FrameView.set_pixels view pixels)).

Definition flush_from_line self fb k (start_row rows : Z) : out (K * FrameBuffer * result unit IoErrorKind) :=
  if (rows =? 0) || (inner_rows self =? 0) then Ret (k, fb, Ok tt)
  else
    let start_row := Z.min start_row (inner_rows self - 1) in
    let rows := Z.min rows (inner_rows self) in
    let first_span := Z.min rows (saturating_sub (inner_rows self) start_row) in
    let start_abs := saturating_add 16 (top_px self) (saturating_mul16 start_row (line_h self)) in
    let end_abs := saturating_add 16 start_abs (saturating_mul16 first_span (line_h self)) in
    '(k, fb, res) ← FrameBuffer.flush_rows sc_write fb (start_abs, end_abs) k;
    match res with
    | Err e => Ret (k, fb, Err e)
    | Ok _ =>
        if first_span <? rows then
          let wrap_rows := rows - first_span in
          let wrap_end := saturating_add 16 (top_px self) (saturating_mul16 wrap_rows (line_h self)) in
          FrameBuffer.flush_rows sc_write fb (top_px self, wrap_end) k
        else Ret (k, fb, Ok tt)
    end.

(** [self.flush_from_line(..).unwrap()] *)
Definition flush_unwrap self fb k (start_row rows : Z) : out (Tty * FrameBuffer * K) :=
  '(k, fb, res) ← flush_from_line self fb k start_row rows;
  match res with Ok _ => Ret (self, fb, k) | Err _ => Panic end.

Definition display_prompt self fb k : out (Tty * FrameBuffer * K) :=
  '(self, fb) ← draw self fb (λ pixels,
    let self := set_line (set_place self 0 (cursor_row self)) (cursor_row self) 0 in
    '(self, pixels) ← write_span self pixels PROMPT;
    Ret (set_line self (line_start_row self) PROMPT_LEN, pixels));
  flush_unwrap self fb k (line_start_row self) (rows_spanned self (rendered_len self)).

Definition redraw_line self fb k : out (Tty * FrameBuffer * K) :=
  let new_len := PROMPT_LEN + len (input_buffer self) in
  let max_len := Z.max (rendered_len self) new_len in
  let rows_to_clear := rows_spanned self max_len in
  '(self, fb) ← draw self fb (λ pixels,
    '(self, pixels) ← clear_rows self pixels (line_start_row self) rows_to_clear;
    let self := set_place self 0 (line_start_row self) in
    '(self, pixels) ← write_span self pixels PROMPT;
    '(self, pixels) ← write_span self pixels (input_buffer self);
    Ret (set_line self (line_start_row self) new_len, pixels));
  flush_unwrap self fb k (line_start_row self) rows_to_clear.

Definition clear_screen self fb k : out (Tty * FrameBuffer * K) :=
  '(self, fb) ← draw self fb (λ pixels,
    '(self, pixels) ← clear_rows self pixels 0 (inner_rows self);
    Ret (set_line (set_place self 0 0) 0 0, pixels));
  flush_unwrap self fb k 0 (inner_rows self).

Definition newline_and_flush self fb k : out (Tty * FrameBuffer * K) :=
  let start_row := cursor_row self in
  self ← advance_line self;
  flush_unwrap self fb k start_row 1.

(** [String::remove] and [String::insert] *)
Definition remove (s : list Z) (pos : Z) : list Z := take (Z.to_nat pos) s ++ drop (S (Z.to_nat pos)) s.
Definition insert (s : list Z) (pos c : Z) : out (list Z) :=
  if pos <=? len s then Ret (take (Z.to_nat pos) s ++ c :: drop (Z.to_nat pos) s) else Panic.

Definition is_modifier (key : KeyCode.t) : bool :=
  match key with
  | KeyCode.ShiftLeft | KeyCode.ShiftRight | KeyCode.CtrlLeft | KeyCode.CtrlRight | KeyCode.AltLeft | KeyCode.AltRight => true
  | _ => false
  end.

Definition handle_key_event self fb k (event : KeyEvent) : out (Tty * FrameBuffer * K * bool) :=
  let key := key event in
  let pressed := bool_decide (pressed event = Pressed) in
  if negb pressed && negb (is_modifier key) then Ret (self, fb, k, false)
  else
    match key with
    | KeyCode.Backspace =>
        if 0 <? cursor_pos self then
          let pos := cursor_pos self - 1 in
          let buffer := if pos <? len (input_buffer self) then remove (input_buffer self) pos else removelast (input_buffer self) in
          '(self, fb, k) ← redraw_line (set_input self buffer pos) fb k;
          Ret (self, fb, k, false)
        else Ret (self, fb, k, false)
    | KeyCode.Enter => '(self, fb, k) ← newline_and_flush self fb k; Ret (self, fb, k, true)
    | KeyCode.CapsLock =>
        Ret (set_modifiers self (KeyModifiers.set_caps_locked (modifiers self) (negb (KeyModifiers.is_caps_locked (modifiers self)))),
             fb, k, false)
    | KeyCode.ShiftLeft | KeyCode.ShiftRight =>
        Ret (set_modifiers self (KeyModifiers.set_shifted (modifiers self) pressed), fb, k, false)
    | KeyCode.CtrlLeft | KeyCode.CtrlRight =>
        Ret (set_modifiers self (KeyModifiers.set_ctrled (modifiers self) pressed), fb, k, false)
    | KeyCode.AltLeft | KeyCode.AltRight =>
        Ret (set_modifiers self (KeyModifiers.set_alted (modifiers self) pressed), fb, k, false)
    | _ =>
        let c := as_char key (modifiers self) in
        if negb (c =? 0) then
          buffer ← insert (input_buffer self) (cursor_pos self) c;
          '(self, fb, k) ← redraw_line (set_input self buffer (cursor_pos self + 1)) fb k;
          Ret (self, fb, k, false)
        else Ret (self, fb, k, false)
    end.

(** The events that are handled until a line is complete *)
Fixpoint handle_events self fb k (events : list KeyEvent) : out (Tty * FrameBuffer * K * bool) :=
  match events with
  | [] => Ret (self, fb, k, false)
  | event :: events =>
      '(self, fb, k, line_complete) ← handle_key_event self fb k event;
      if line_complete : bool then Ret (self, fb, k, true) else handle_events self fb k events
  end.

(** The loop over the characters, with the number of rows touched *)
Fixpoint write_chars self pixels (rows_touched : Z) (s : list Z) : out (Tty * list Z * Z) :=
  match s with
  | [] => Ret (self, pixels, rows_touched)
  | ch :: s =>
      if ch =? 10 then
        self ← advance_line self;
        write_chars self pixels (saturating_add 16 rows_touched 1) s
      else
        '(self, wrapped) ← ensure_fit_before_write self;
        let rows_touched := if wrapped : bool then saturating_add 16 rows_touched 1 else rows_touched in
        '(x, y_rel) ← cell_to_pixel self (cursor_col self) (cursor_row self);
        '(self, pixels) ← put_char self pixels x y_rel ch;
        '(self, wrapped) ← advance_cursor_cell self;
        let rows_touched := if wrapped : bool then saturating_add 16 rows_touched 1 else rows_touched in
        write_chars self pixels rows_touched s
  end.

Definition write_str self fb k (s : list Z) : out (Tty * FrameBuffer * K) :=
  let start_row := cursor_row self in
  '((t, rows_touched), fb) ← draw self fb (λ pixels,
    '(t, pixels, rows_touched) ← write_chars self pixels 1 s;
    Ret ((set_line t (line_start_row t) 0, rows_touched), pixels));
  flush_unwrap t fb k start_row rows_touched.

End screen.
End tty.
End Tty.

(** ** The grid *)

Lemma as_char_ascii k m : 0 ≤ as_char k m < 128 ∧ printable (as_char k m).
Proof. unfold as_char, printable. destruct k; cbn; try (split; [lia | split; lia]); destruct (KeyModifiers.is_uppercase m); cbn; lia. Qed.

Section grid.
Context (C R : Z) (HC : 0 < C) (HR : 0 < R).

(** The place after a cell, and the cells that a text covers from a cell on *)
Definition after (p : Z * Z) : Z * Z := if p.1 + 1 <? C then (p.1 + 1, p.2) else (0, (p.2 + 1) mod R).
Fixpoint span (p : Z * Z) (text : list Z) : grid :=
  match text with
  | [] => no_cells
  | c :: text => front (span (after p) text) (cell p.1 p.2 c)
  end.
Definition span_end (p : Z * Z) (text : list Z) : Z * Z := foldl (λ p _, after p) p text.

Definition in_grid (p : Z * Z) : Prop := 0 ≤ p.1 < C ∧ 0 ≤ p.2 < R.

Lemma after_in_grid p : in_grid p → in_grid (after p).
Proof.
  intros [H1 H2]. unfold after, in_grid. destruct (Z.ltb_spec (p.1 + 1) C); cbn [fst snd]; [lia|].
  pose proof (Z.mod_pos_bound (p.2 + 1) R HR). lia.
Qed.

Lemma span_end_in_grid p text : in_grid p → in_grid (span_end p text).
Proof. revert p. induction text as [|c text IH]; intros p Hp; [done|]. apply IH, after_in_grid, Hp. Qed.

Lemma span_app p s t u v : span p (s ++ t) u v = front (span (span_end p s) t) (span p s) u v.
Proof.
  revert p. induction s as [|c s IH]; intros p; cbn [app span span_end foldl]; unfold front in *.
  - by destruct (span p t u v).
  - rewrite IH. unfold span_end. by destruct (span _ t u v).
Qed.

(** The cell number [n] of a line that starts in row [s] *)
Definition place (s n : Z) : Z * Z := (n mod C, (s + n / C) mod R).
(** and the number of a cell *)
Definition number (s u v : Z) : Z := ((v - s) mod R) * C + u.

Lemma after_place s n : 0 ≤ n → after (place s n) = place s (n + 1).
Proof.
  intros Hn. unfold after, place. cbn [fst snd]. pose proof (Z.mod_pos_bound n C HC). pose proof (Z.div_mod n C ltac:(lia)) as E.
  destruct (Z.ltb_spec (n mod C + 1) C) as [Hlt|Hge].
  - assert (n + 1 = C * (n / C) + (n mod C + 1)) as E1 by lia.
    rewrite <- (Z.mod_unique_pos (n + 1) C (n / C) (n mod C + 1)), <- (Z.div_unique_pos (n + 1) C (n / C) (n mod C + 1)) by lia. done.
  - assert (n + 1 = C * (n / C + 1) + 0) as E1 by lia.
    rewrite <- (Z.mod_unique_pos (n + 1) C (n / C + 1) 0), <- (Z.div_unique_pos (n + 1) C (n / C + 1) 0) by lia.
    rewrite Zplus_mod_idemp_l. f_equal. f_equal. lia.
Qed.

Lemma number_place s u v n : 0 ≤ u < C → 0 ≤ v < R → 0 ≤ n < C * R → number s u v = n ↔ (u, v) = place s n.
Proof.
  intros Hu Hv Hn. unfold number, place. pose proof (Z.mod_pos_bound (v - s) R HR) as Hm. split.
  - intros <-. f_equal.
    + apply (Z.mod_unique_pos _ _ ((v - s) mod R)); lia.
    + rewrite <- (Z.div_unique_pos (((v - s) mod R) * C + u) C ((v - s) mod R) u) by lia.
      rewrite Zplus_mod_idemp_r. replace (s + (v - s)) with v by lia. by rewrite Z.mod_small.
  - intros [= -> Hv']. assert (0 ≤ n / C < R) as Hd by (split; [apply Z.div_pos; lia | apply Z.div_lt_upper_bound; lia]).
    rewrite Hv'. rewrite Zminus_mod_idemp_l. replace (s + n / C - s) with (n / C) by lia. rewrite (Z.mod_small (n / C)) by done.
    pose proof (Z.div_mod n C ltac:(lia)). lia.
Qed.

(** The text of a line from its cell [n] on, as long as it does not run into its own start *)
Lemma span_number s n text u v :
  0 ≤ n → n + len text ≤ C * R →
  span (place s n) text u v =
    if bool_decide (0 ≤ u < C ∧ 0 ≤ v < R) && (n <=? number s u v) then text !! Z.to_nat (number s u v - n) else None.
Proof.
  revert n. induction text as [|c text IH]; intros n Hn Hl; [by destruct (_ && _)|].
  rewrite len_cons in Hl. pose proof (len_nonneg text). cbn [span]. rewrite after_place by done. unfold front. rewrite IH by lia. unfold cell.
  case_bool_decide as Hg; cbn [andb].
  2: { destruct (Z.eqb_spec u (place s n).1), (Z.eqb_spec v (place s n).2); cbn [andb]; try done. exfalso. apply Hg.
       subst. unfold place. cbn [fst snd]. pose proof (Z.mod_pos_bound n C HC). pose proof (Z.mod_pos_bound (s + n / C) R HR). lia. }
  destruct Hg as [Hu Hv]. pose proof (number_place s u v n Hu Hv ltac:(lia)) as Hnp.
  assert ((u =? (place s n).1) && (v =? (place s n).2) = (number s u v =? n)) as ->.
  { apply eq_true_iff_eq. rewrite andb_true_iff, !Z.eqb_eq, Hnp. split; [intros [-> ->]; by destruct (place s n) | by intros <-]. }
  destruct (Z.leb_spec (n + 1) (number s u v)), (Z.leb_spec n (number s u v)), (Z.eqb_spec (number s u v) n) as [E|]; try lia; try done.
  - replace (Z.to_nat (number s u v - n)) with (S (Z.to_nat (number s u v - (n + 1)))) by lia. cbn. by destruct (text !! _).
  - by rewrite E, Z.sub_diag.
Qed.

Lemma span_end_place s n text : 0 ≤ n → span_end (place s n) text = place s (n + len text).
Proof.
  revert n. induction text as [|c text IH]; intros n Hn.
  - cbn. by rewrite Z.add_0_r.
  - cbn [span_end foldl]. rewrite after_place by done. fold (span_end (place s (n + 1)) text). rewrite IH by lia.
    rewrite len_cons. f_equal. lia.
Qed.

(** The rows from [s] on, [n] of them, going on at the top *)
Definition in_rows (s n v : Z) : bool := (v - s) mod R <? n.
Definition cleared (s n : Z) : grid := λ u v, if bool_decide (0 ≤ u < C ∧ 0 ≤ v < R) && in_rows s n v then Some 32 else None.

(** A grid within some rows *)
Definition within (g : grid) (s n : Z) : Prop := ∀ u v c, g u v = Some c → 0 ≤ u < C ∧ 0 ≤ v < R ∧ in_rows s n v = true.

Lemma within_front g h s n : within g s n → within h s n → within (front g h) s n.
Proof. intros Hg Hh u v c. unfold front. destruct (g u v) eqn:E; [intros _; by eapply Hg | apply Hh]. Qed.

Lemma within_more g s n m : within g s n → n ≤ m → within g s m.
Proof. intros Hg Hm u v c E. destruct (Hg u v c E) as (? & ? & Hr). split_and!; try done; try lia. unfold in_rows in *. lia. Qed.

Lemma within_cleared s n : within (cleared s n) s n.
Proof. intros u v c. unfold cleared. case_bool_decide; cbn [andb]; [|done]. destruct (in_rows s n v) eqn:E; [|done]. intros _. tauto. Qed.

Lemma in_rows_all s n v : R ≤ n → in_rows s n v = true.
Proof. intros. unfold in_rows. pose proof (Z.mod_pos_bound (v - s) R HR). lia. Qed.

Lemma within_span_all p text s n : in_grid p → R ≤ n → within (span p text) s n.
Proof.
  intros Hp Hn. revert p Hp. induction text as [|c text IH]; intros p Hp; [done|]. cbn [span]. apply within_front; [by apply IH, after_in_grid|].
  intros u v c'. unfold cell. destruct (Z.eqb_spec u p.1) as [->|], (Z.eqb_spec v p.2) as [->|]; cbn [andb]; try done. intros _.
  destruct Hp. split_and!; try lia. by apply in_rows_all.
Qed.

(** A line covers the rows that its length tells. *)
Lemma within_line s text n : 0 ≤ s < R → (len text + C - 1) / C ≤ n → within (span (place s 0) text) s (Z.min n R).
Proof.
  intros Hs Hn. destruct (Z.le_gt_cases (len text) (C * R)) as [Hle|Hgt].
  2: { assert (R ≤ n) by (apply Z.le_trans with ((len text + C - 1) / C); [apply Z.div_le_lower_bound; lia | done]).
       apply within_span_all; [|lia]. unfold place, in_grid. cbn. rewrite Zmod_0_l, Z.div_0_l, Z.add_0_r, Z.mod_small by lia. lia. }
  intros u v c. rewrite span_number by lia. case_bool_decide as Hg; cbn [andb]; [|done]. destruct Hg as [Hu Hv].
  destruct (0 <=? number s u v) eqn:E0; [|done]. intros Hc%lookup_lt_Some. split_and!; try lia.
  unfold in_rows. unfold number in *. pose proof (Z.mod_pos_bound (v - s) R HR). apply Z.ltb_lt.
  assert (((v - s) mod R) * C + u < len text) by (unfold len; lia).
  assert ((v - s) mod R < (len text + C - 1) / C); [|lia]. apply Z.lt_le_trans with ((v - s) mod R + 1); [lia|].
  apply Z.div_le_lower_bound; lia.
Qed.

(** A line and the rest of its rows *)
Definition line (s : Z) (text : list Z) (n : Z) : grid := λ u v,
  if bool_decide (0 ≤ u < C ∧ 0 ≤ v < R) && (number s u v <? n * C) then Some (default 32 (text !! Z.to_nat (number s u v))) else None.

Lemma line_drawn s text n u v :
  len text ≤ C * R → len text ≤ n * C → 0 ≤ n ≤ R → front (span (place s 0) text) (cleared s n) u v = line s text n u v.
Proof.
  intros Hl Hn HnR. unfold front. rewrite span_number by lia. unfold cleared, line. case_bool_decide as Hg; cbn [andb]; [|done].
  destruct Hg as [Hu Hv]. pose proof (Z.mod_pos_bound (v - s) R HR).
  assert (0 ≤ number s u v) by (unfold number; nia). rewrite (proj2 (Z.leb_le 0 _)) by done. rewrite Z.sub_0_r.
  assert (in_rows s n v = (number s u v <? n * C)) as ->.
  { apply eq_true_iff_eq. unfold in_rows, number. rewrite !Z.ltb_lt. nia. }
  destruct (text !! Z.to_nat (number s u v)) as [c|] eqn:E; cbn [default]; [|done].
  apply lookup_lt_Some in E. unfold len in *. by rewrite (proj2 (Z.ltb_lt _ _)) by lia.
Qed.

(** Another row in front *)
Lemma cleared_cons s k n u v :
  0 ≤ n → k + n < R → 0 ≤ k →
  front (cleared (s + Z.succ k) n) (λ u v, if (v =? (s + k) mod R) && ((0 <=? u) && (u <? C)) then Some 32 else None) u v =
  cleared (s + k) (n + 1) u v.
Proof.
  intros Hn Hk Hk0. unfold front, cleared. case_bool_decide as Hg; cbn [andb].
  2: { destruct (Z.eqb_spec v ((s + k) mod R)), (Z.leb_spec 0 u), (Z.ltb_spec u C); cbn [andb]; try done. exfalso. apply Hg.
       pose proof (Z.mod_pos_bound (s + k) R HR). lia. }
  destruct Hg as [Hu Hv]. rewrite (proj2 (Z.leb_le 0 u)), (proj2 (Z.ltb_lt u C)), andb_true_r by lia. cbn [andb].
  assert (in_rows (s + k) (n + 1) v = in_rows (s + Z.succ k) n v || (v =? (s + k) mod R)) as ->.
  2: { destruct (in_rows _ _ _); cbn [orb]; done. }
  unfold in_rows. set (m := (v - (s + k)) mod R). pose proof (Z.mod_pos_bound (v - (s + k)) R HR) as Hm. fold m in Hm.
  assert (v = (s + k + m) mod R) as Ev.
  { unfold m. rewrite Zplus_mod_idemp_r. replace (s + k + (v - (s + k))) with v by lia. by rewrite Z.mod_small. }
  assert ((v - (s + Z.succ k)) mod R = (m - 1) mod R) as -> by (unfold m; rewrite Zminus_mod_idemp_l; f_equal; lia).
  destruct (Z.eqb_spec v ((s + k) mod R)) as [E|Hne].
  - assert (m = 0) as -> by (unfold m; rewrite E, Zminus_mod_idemp_l, Z.sub_diag; done). rewrite orb_true_r. by rewrite (proj2 (Z.ltb_lt _ _)) by lia.
  - assert (m ≠ 0) by (intros E; apply Hne; by rewrite Ev, E, Z.add_0_r). rewrite orb_false_r, (Z.mod_small (m - 1)) by lia.
    destruct (Z.ltb_spec m (n + 1)), (Z.ltb_spec (m - 1) n); try done; lia.
Qed.

(** Output: like a span, with line feeds *)
Fixpoint out_grid (p : Z * Z) (s : list Z) : grid :=
  match s with
  | [] => no_cells
  | c :: s => if c =? 10 then out_grid (0, (p.2 + 1) mod R) s else front (out_grid (after p) s) (cell p.1 p.2 c)
  end.
Fixpoint out_end (p : Z * Z) (s : list Z) : Z * Z :=
  match s with
  | [] => p
  | c :: s => out_end (if c =? 10 then (0, (p.2 + 1) mod R) else after p) s
  end.

Lemma cell_within col row c s m :
  0 ≤ col < C → row = (s + m) mod R → 0 ≤ m → within (cell col row c) s (Z.min (m + 1) R).
Proof.
  intros Hc -> Hm u v c'. unfold cell. destruct (Z.eqb_spec u col) as [->|], (Z.eqb_spec v ((s + m) mod R)) as [->|]; cbn [andb]; try done.
  intros _. pose proof (Z.mod_pos_bound (s + m) R HR). split_and!; try lia. unfold in_rows. rewrite Zminus_mod_idemp_l.
  replace (s + m - s) with m by lia. pose proof (Z.mod_pos_bound m R HR). pose proof (Z.mod_le m R ltac:(lia) HR). lia.
Qed.

Lemma after_row p s m : p.2 = (s + m) mod R → (after p).2 = (s + (if p.1 + 1 <? C then m else m + 1)) mod R.
Proof.
  intros E. unfold after. destruct (_ <? _); cbn [snd]; [done|]. rewrite E, Zplus_mod_idemp_l. f_equal. lia.
Qed.

End grid.

(** ** What the terminal draws *)

Section drawing.
Context (F : Font) (i : Info) (L T C R : Z).

(** The part of the screen from the top of the terminal on, as the writer sees it *)
Definition view_info : Info :=
  mkInfo (stride i * bytes_per_pixel i * (height i - T)) (width i) (height i - T) (pixel_format i) (stride i) (bytes_per_pixel i).
Definition view_size : Z := (height i - T) * stride i.

(** The terminal lies within the margins of the screen. *)
Record room_ok : Prop := mk_room_ok {
  room_left : 0 ≤ L;
  room_top : 0 ≤ T;
  room_cols : 0 < C;
  room_rows : 0 < R;
  room_right : L + C * CHAR_WIDTH F + BORDER_PADDING < width i;
  room_bottom : T + R * line_height F + BORDER_PADDING < height i;
}.

Record tty_ok (t : Tty) : Prop := mk_tty_ok {
  tty_left : left_px t = L;
  tty_top : top_px t = T;
  tty_cols : inner_cols t = C;
  tty_rows : inner_rows t = R;
  tty_cell : tty_cell_w t = CHAR_WIDTH F;
  tty_line : line_h t = line_height F;
  tty_col : 0 ≤ cursor_col t < C;
  tty_row : 0 ≤ cursor_row t < R;
  tty_start : 0 ≤ line_start_row t < R;
  tty_rendered : 0 ≤ rendered_len t;
}.

Context (Hfont : font_ok F) (Hscreen : screen_ok F view_info view_size) (Hfits : cursor_fits F i) (Hroom : room_ok).

Lemma room_words : C < 2 ^ 16 ∧ R < 2 ^ 16 ∧ C * CHAR_WIDTH F < 2 ^ 16 ∧ R * line_height F < 2 ^ 16 ∧ 0 < width i ∧ cursor_fits F view_info.
Proof.
  destruct Hroom as [H1 H2 H3 H4 H5 H6], Hfits as [F1 F2]. pose proof (font_width _ Hfont). pose proof (line_height_pos F Hfont).
  assert (BORDER_PADDING = 3) as HB by done. assert (C ≤ C * CHAR_WIDTH F ∧ R ≤ R * line_height F) as [? ?] by nia.
  split_and!; try lia. split; unfold view_info; cbn [width height]; lia.
Qed.

(** The pixels of the view hold an image. *)
Definition tty_holds (d : Z → Z → Z) (t : Tty) (px : list Z) : Prop := holds view_info TEXT_COLOR view_size d (writer t) px.
Definition tty_overlay (g : grid) (d : Z → Z → Z) : Z → Z → Z := overlay F view_info TEXT_COLOR L 0 g d.

Lemma text_color_ok : is_color TEXT_COLOR.
Proof. repeat split; cbn; lia. Qed.

Lemma tty_holds_ext d e t px : (∀ a b, d a b = e a b) → tty_holds d t px → tty_holds e t px.
Proof. apply holds_ext. Qed.

(** A character at a cell of the terminal *)
Lemma cell_ok t px d col row c :
  tty_ok t → tty_holds d t px → 0 ≤ col < C → 0 ≤ row < R → printable c →
  ∃ x y w px', Tty.cell_to_pixel t col row = Ret (x, y) ∧ Tty.put_char F t px x y c = Ret (set_writer t w, px') ∧
    tty_holds (tty_overlay (cell col row c) d) (set_writer t w) px'.
Proof.
  intros Ht Hh Hc Hr Hp. destruct room_words as (HC & HR & HCw & HRh & _ & Hvf). pose proof Hroom as [H1 H2 H3 H4 H5 H6].
  pose proof (font_width _ Hfont). pose proof (line_height_pos F Hfont). assert (BORDER_PADDING = 3) as HB by done.
  assert ((col + 1) * CHAR_WIDTH F ≤ C * CHAR_WIDTH F ∧ (row + 1) * line_height F ≤ R * line_height F) as [? ?] by nia.
  unfold Tty.cell_to_pixel, Tty.put_char, saturating_mul16. rewrite (tty_left _ Ht), (tty_cell _ Ht), (tty_line _ Ht).
  rewrite !Z.min_r by lia. destruct Hfits as [Hf1 _]. rewrite add_w_ok by lia. cbn [mbind out_bind].
  destruct (write_cell_ok F view_info TEXT_COLOR Hfont view_size Hscreen text_color_ok L 0 d (writer t) px col row c) as (w & px' & E & Hh' & _);
    try done; try lia; try (unfold view_info; cbn; lia).
  rewrite !Z.add_0_l in E. exists (L + col * CHAR_WIDTH F), (row * line_height F), w, px'. split; [done|]. rewrite E. done.
Qed.

Lemma set_writer_ok t w : tty_ok t → tty_ok (set_writer t w).
Proof. by intros []. Qed.
Lemma set_place_ok t p : tty_ok t → in_grid C R p → tty_ok (set_place t p.1 p.2).
Proof. by intros [] []. Qed.

Lemma advance_line_ok t : tty_ok t → Tty.advance_line t = Ret (set_place t 0 ((cursor_row t + 1) mod R)).
Proof.
  intros Ht. destruct room_words as (_ & HR & _). pose proof (tty_row _ Ht). unfold Tty.advance_line. rewrite add_w_ok by lia. cbn [mbind out_bind].
  unfold rem. rewrite (tty_rows _ Ht), (proj2 (Z.eqb_neq _ _)) by lia. done.
Qed.

Lemma ensure_fit_ok t : tty_ok t → Tty.ensure_fit_before_write t = Ret (t, false).
Proof. intros Ht. unfold Tty.ensure_fit_before_write. rewrite (tty_cols _ Ht), (proj2 (Z.leb_gt _ _)); [done|]. apply tty_col, Ht. Qed.

Lemma advance_cursor_ok t :
  tty_ok t → let p := after C R (cursor_col t, cursor_row t) in
  Tty.advance_cursor_cell t = Ret (set_place t p.1 p.2, negb (cursor_col t + 1 <? C)).
Proof.
  intros Ht p. destruct room_words as (HC & HR & _). pose proof (tty_col _ Ht). pose proof (tty_row _ Ht).
  unfold Tty.advance_cursor_cell. rewrite add_w_ok by lia. cbn [mbind out_bind set_place inner_cols cursor_col]. rewrite (tty_cols _ Ht).
  unfold p, after. cbn [fst snd]. destruct (Z.ltb_spec (cursor_col t + 1) C), (Z.leb_spec C (cursor_col t + 1)); try lia; [done|].
  unfold Tty.advance_line. cbn [set_place cursor_row inner_rows]. rewrite add_w_ok by lia. cbn [mbind out_bind].
  unfold rem. rewrite (tty_rows _ Ht), (proj2 (Z.eqb_neq _ _)) by lia. done.
Qed.

(** The cursor, and a text written from it on *)
Definition at_cursor (t : Tty) : Z * Z := (cursor_col t, cursor_row t).
Lemma at_cursor_ok t : tty_ok t → in_grid C R (at_cursor t).
Proof. by intros []. Qed.

Lemma write_span_ok t px d text :
  tty_ok t → tty_holds d t px → Forall printable text →
  ∃ w px', let p := span_end C R (at_cursor t) text in
    Tty.write_span F t px text = Ret (set_place (set_writer t w) p.1 p.2, px') ∧
    tty_holds (tty_overlay (span C R (at_cursor t) text) d) (set_writer t w) px'.
Proof.
  intros Ht Hh Htext. revert t px d Ht Hh. induction Htext as [|c text Hc _ IH]; intros t px d Ht Hh.
  { exists (writer t), px. destruct t. split; [done|]. eapply tty_holds_ext; [|exact Hh]. done. }
  cbn [Tty.write_span]. rewrite (ensure_fit_ok t Ht). cbn [mbind out_bind].
  destruct (cell_ok t px d (cursor_col t) (cursor_row t) c Ht Hh (tty_col _ Ht) (tty_row _ Ht) Hc) as (x & y & w & px1 & -> & E1 & Hh1).
  cbn [mbind out_bind]. rewrite E1. cbn [mbind out_bind]. pose proof (set_writer_ok t w Ht) as Ht1.
  rewrite (advance_cursor_ok _ Ht1). cbn [mbind out_bind set_writer cursor_col cursor_row].
  set (p := after C R (cursor_col t, cursor_row t)). assert (in_grid C R p) as Hp by exact (after_in_grid C R (room_cols Hroom) (room_rows Hroom) _ (at_cursor_ok t Ht)).
  destruct (IH (set_place (set_writer t w) p.1 p.2) px1 (tty_overlay (cell (cursor_col t) (cursor_row t) c) d)) as (w' & px' & E & Hh').
  { by apply set_place_ok. } { exact Hh1. }
  exists w', px'. cbv zeta. unfold at_cursor in *. cbn [span_end foldl]. fold p. cbn [set_place cursor_col cursor_row] in E, Hh'.
  rewrite <- (surjective_pairing p) in E, Hh'. split; [exact E|].
  eapply tty_holds_ext; [|exact Hh']. intros a b. unfold tty_overlay. by rewrite overlay_front.
Qed.

Lemma write_span_from p t px d text :
  tty_ok t → at_cursor t = p → tty_holds d t px → Forall printable text →
  ∃ w px', Tty.write_span F t px text = Ret (set_place (set_writer t w) (span_end C R p text).1 (span_end C R p text).2, px') ∧
    tty_holds (tty_overlay (span C R p text) d) (set_writer t w) px'.
Proof. intros Ht <-. by apply write_span_ok. Qed.

(** A row of spaces, and several *)
Lemma clear_row_ok t px d row :
  tty_ok t → tty_holds d t px → 0 ≤ row < R →
  ∃ w px', for_each (λ '(self, pixels) col,
      '(x, y_rel) ← Tty.cell_to_pixel self col row; Tty.put_char F self pixels x y_rel 32) (t, px) (seqZ 0 C) = Ret (set_writer t w, px') ∧
    tty_holds (tty_overlay (λ u v, if (v =? row) && ((0 <=? u) && (u <? C)) then Some 32 else None) d) (set_writer t w) px'.
Proof.
  intros Ht Hh Hr.
  assert (∀ n k, 0 ≤ k → k + Z.of_nat n = C → ∀ t px d, tty_ok t → tty_holds d t px →
    ∃ w px', for_each (λ '(self, pixels) col,
      '(x, y_rel) ← Tty.cell_to_pixel self col row; Tty.put_char F self pixels x y_rel 32) (t, px) (seqZ k (Z.of_nat n)) = Ret (set_writer t w, px') ∧
    tty_holds (tty_overlay (λ u v, if (v =? row) && ((k <=? u) && (u <? C)) then Some 32 else None) d) (set_writer t w) px') as Hall.
  2: { pose proof (room_cols Hroom). specialize (Hall (Z.to_nat C) 0 ltac:(lia) ltac:(lia) t px d Ht Hh). by rewrite Z2Nat.id in Hall by lia. }
  clear t px d Ht Hh. induction n as [|n IH]; intros k Hk HC t px d Ht Hh.
  { exists (writer t), px. destruct t. split; [done|]. eapply tty_holds_ext; [|exact Hh]. intros a b. unfold tty_overlay, overlay.
    destruct (Z.leb_spec k ((a - L) / CHAR_WIDTH F)), (Z.ltb_spec ((a - L) / CHAR_WIDTH F) C); try lia; by rewrite ?andb_false_r. }
  rewrite seqZ_cons by lia. cbn [for_each].
  destruct (cell_ok t px d k row 32 Ht Hh ltac:(lia) Hr ltac:(split; lia)) as (x & y & w & px1 & -> & E1 & Hh1).
  cbn [mbind out_bind]. rewrite E1. cbn [mbind out_bind]. replace (Z.pred (Z.of_nat (S n))) with (Z.of_nat n) by lia.
  destruct (IH (Z.succ k) ltac:(lia) ltac:(lia) (set_writer t w) px1 _ (set_writer_ok t w Ht) Hh1) as (w' & px' & E & Hh').
  exists w', px'. split; [exact E|]. eapply tty_holds_ext; [|exact Hh']. intros a b. unfold tty_overlay. rewrite overlay_front.
  apply overlay_ext; [|done]. intros u v. unfold front, cell.
  destruct (Z.eqb_spec v row), (Z.leb_spec (Z.succ k) u), (Z.leb_spec k u), (Z.ltb_spec u C), (Z.eqb_spec u k); cbn [andb]; try done; lia.
Qed.

Lemma clear_rows_ok t px d s n :
  tty_ok t → tty_holds d t px → 0 ≤ s < R → 0 < n →
  ∃ w px', Tty.clear_rows F t px s n = Ret (set_writer t w, px') ∧
    tty_holds (tty_overlay (cleared C R s (Z.min n R)) d) (set_writer t w) px'.
Proof.
  intros Ht Hh Hs Hn. unfold Tty.clear_rows. rewrite (proj2 (Z.eqb_neq n 0)) by lia. rewrite (tty_rows _ Ht).
  pose proof (room_rows Hroom) as HR0. pose proof (room_cols Hroom) as HC0. destruct room_words as (_ & HR & _ & HRh & _). pose proof (font_height _ Hfont).
  assert (line_height F = CHAR_HEIGHT F + 2) as Hlh by done. assert (R * 3 ≤ R * line_height F) by nia.
  set (body := λ '(self, pixels) offset, _).
  assert (∀ m k, 0 ≤ k → k + Z.of_nat m ≤ R → ∀ t px d, tty_ok t → tty_holds d t px →
    ∃ w px', for_each body (t, px) (seqZ k (Z.of_nat m)) = Ret (set_writer t w, px') ∧
      tty_holds (tty_overlay (cleared C R (s + k) (Z.of_nat m)) d) (set_writer t w) px') as Hall.
  2: { specialize (Hall (Z.to_nat (Z.min n R)) 0 ltac:(lia) ltac:(lia) t px d Ht Hh). by rewrite Z2Nat.id, Z.add_0_r in Hall by lia. }
  clear t px d Ht Hh. induction m as [|m IH]; intros k Hk Hm t px d Ht Hh.
  { exists (writer t), px. destruct t. split; [done|]. eapply tty_holds_ext; [|exact Hh]. intros a b. unfold tty_overlay, overlay, cleared, in_rows.
    destruct (bool_decide _); cbn [andb]; [|done].
    match goal with |- context [?x mod R <? _] => pose proof (Z.mod_pos_bound x R HR0) end. by rewrite (proj2 (Z.ltb_ge _ _)) by lia. }
  pose proof (Z.mod_pos_bound (s + k) R HR0) as Hrow.
  destruct (clear_row_ok t px d ((s + k) mod R) Ht Hh Hrow) as (w & px1 & E1 & Hh1). rewrite seqZ_cons by lia. cbn [for_each].
  assert (body (t, px) k = Ret (set_writer t w, px1)) as ->.
  { unfold body. cbn beta iota. rewrite add_w_ok by lia. cbn [mbind out_bind]. unfold rem.
    rewrite (tty_rows _ Ht), (tty_cols _ Ht), (proj2 (Z.eqb_neq R 0)) by lia. exact E1. }
  cbn [mbind out_bind].
  replace (Z.pred (Z.of_nat (S m))) with (Z.of_nat m) by lia.
  destruct (IH (Z.succ k) ltac:(lia) ltac:(lia) (set_writer t w) px1 _ (set_writer_ok t w Ht) Hh1) as (w' & px' & E & Hh').
  exists w', px'. split; [exact E|]. eapply tty_holds_ext; [|exact Hh']. intros a b. unfold tty_overlay. rewrite overlay_front.
  apply overlay_ext; [|done]. intros u v. replace (Z.of_nat (S m)) with (Z.of_nat m + 1) by lia.
  apply cleared_cons; lia.
Qed.

End drawing.

(** ** The terminal on the screen *)

Section system.
Context (F : Font) (info_bytes : Info → list Z) (pre post : DeviceFS Display).
Context (i : Info) (L T C R : Z).

(** The terminal [t] with its frame buffer [fb], whose part from the top of the terminal on holds the image [D]; the
    rows of the terminal are those on the screen [d]. *)
Record console (d : Display) (fb : FrameBuffer) (t : Tty) (D : Z → Z → Z) : Prop := mk_console {
  con_display : display_ok d;
  con_info : s_info (screen d) = i;
  con_frame : frame_ok d fb;
  con_tty : tty_ok F L T C R t;
  con_view : tty_holds i T D t (sub_list (words (internal_fb fb)) (T * stride i) (height i * stride i));
  con_words : ∀ a b, is_uint 32 (D a b);
  con_synced n : T * stride i ≤ n < (T + R * line_height F) * stride i →
    byte_at (raw_buffer (screen d)) n = shown (pixel_format i) (byte_at (words (internal_fb fb)) n);
}.

Context (Hfont : font_ok F) (Hfits : cursor_fits F i) (Hroom : room_ok F i L T C R) (Hpre : Forall (λ f, df_path f ≠ FB_FILE) pre).

Lemma stride_pos d : display_ok d → s_info (screen d) = i → 0 < stride i.
Proof.
  intros Hd Hi. pose proof (display_width _ Hd) as Hw. rewrite Hi in Hw. destruct Hroom. pose proof (font_width _ Hfont).
  assert (BORDER_PADDING = 3) as HB by done. nia.
Qed.

Lemma view_screen_ok d : display_ok d → s_info (screen d) = i → screen_ok F (view_info i T) (view_size i T).
Proof.
  intros [Hf _ _ Hw _ _ _] Hi. rewrite Hi in Hf, Hw. destruct Hroom as [H1 H2 H3 H4 H5 H6]. pose proof (font_width _ Hfont). pose proof (font_height _ Hfont).
  assert (BORDER_PADDING = 3) as HB by done. assert (line_height F = CHAR_HEIGHT F + 2) as Hlh by done.
  split; unfold view_info, view_size; cbn [pixel_format width stride height]; try done; nia.
Qed.

(** The words of the frame buffer *)
Lemma frame_words_len d fb : display_ok d → s_info (screen d) = i → frame_ok d fb → len (words (internal_fb fb)) = height i * stride i.
Proof.
  intros Hd Hi Hfb. rewrite len_words, (frame_size _ _ Hfb), (display_size _ Hd), Hi, Z.mul_comm, Z.div_mul by lia. lia.
Qed.

(** Drawing changes the part of the frame buffer from the top of the terminal on. *)
Lemma draw_frame {A} d fb t D (f : list Z → out (A * list Z)) a t' px' D' :
  console d fb t D → f (sub_list (words (internal_fb fb)) (T * stride i) (height i * stride i)) = Ret (a, px') →
  tty_holds i T D' t' px' → (∀ a b, is_uint 32 (D' a b)) →
  ∃ fb', Tty.draw t fb f = Ret (a, fb') ∧ frame_ok d fb' ∧
    words (internal_fb fb') = put (words (internal_fb fb)) (T * stride i) px' ∧
    sub_list (words (internal_fb fb')) (T * stride i) (height i * stride i) = px'.
Proof.
  intros [Hd Hi Hfb Ht Hv Hw Hs] Ef Hh' Hw'. pose proof Hroom as [H1 H2 H3 H4 H5 H6]. pose proof (line_height_pos F Hfont).
  assert (BORDER_PADDING = 3) as HB by done. assert (0 ≤ T ≤ height i) as HT by nia. pose proof (stride_pos d Hd Hi).
  unfold Tty.draw. rewrite (tty_top _ _ _ _ _ _ Ht).
  destruct (view_ok d fb T Hd Hfb) as (v & -> & _ & Hpx); [by rewrite Hi|]. rewrite Hi in Hpx. cbn [mbind out_bind]. rewrite Hpx. cbn [mbind out_bind].
  rewrite Ef. cbn [mbind out_bind]. pose proof (shows_size _ _ _ _ _ _ Hh') as Hl. unfold view_size in Hl.
  assert (Forall (is_uint 32) px') as Hpw by (eapply shows_words; [exact Hh' | exact Hw']).
  destruct (write_back_ok d fb T v px' Hd Hfb) as [Hfb' Ew]; [by rewrite Hi | by rewrite Hi | done |]. rewrite Hi in Ew.
  eexists. split; [reflexivity|]. split; [done|]. split; [exact Ew|]. rewrite Ew. pose proof (frame_words_len d fb Hd Hi Hfb).
  apply sub_put_same; nia.
Qed.

(** The rows that are flushed *)
Definition console_row (n : Z) : Z := (n / stride i - T) / line_height F.

Lemma between_rows s a b n : 0 < s → (a * s <=? n) && (n <? b * s) = (a <=? n / s) && (n / s <? b).
Proof.
  intros Hs. pose proof (Z.div_mod n s ltac:(lia)). pose proof (Z.mod_pos_bound n s Hs). apply eq_true_iff_eq.
  rewrite !andb_true_iff, !Z.leb_le, !Z.ltb_lt. nia.
Qed.

Lemma below_row s b n : 0 < s → (n <? b * s) = (n / s <? b).
Proof.
  intros Hs. apply eq_true_iff_eq. rewrite !Z.ltb_lt. split; intros Hlt; [apply Z.div_lt_upper_bound; lia|].
  apply Z.nle_gt. intros Hge. pose proof (Z.div_le_lower_bound n s b Hs ltac:(lia)). lia.
Qed.

Lemma rows_between a b y : 0 ≤ a → T ≤ y → (T + a * line_height F <=? y) && (y <? T + b * line_height F) = (a <=? (y - T) / line_height F) && ((y - T) / line_height F <? b).
Proof.
  intros Ha Hy. pose proof (line_height_pos F Hfont) as Hlh. rewrite <- (between_rows (line_height F) a b (y - T) Hlh). f_equal;
    apply eq_true_iff_eq; rewrite ?Z.leb_le, ?Z.ltb_lt; lia.
Qed.

(** [flushed] twice: the rows up to the bottom, and those at the top *)
Definition twice_flushed (d : Display) (fb : FrameBuffer) (s n : Z) : Display :=
  let first := Z.min n (R - s) in
  let d1 := flushed d fb (T + s * line_height F) (T + (s + first) * line_height F) in
  if first <? n then flushed d1 fb T (T + (n - first) * line_height F) else d1.

Lemma flushed_ok d fb a b : display_ok d → frame_ok d fb → s_info (screen d) = i → 0 ≤ a →
  display_ok (flushed d fb a b) ∧ s_info (screen (flushed d fb a b)) = i ∧ frame_ok (flushed d fb a b) fb ∧
  len (raw_buffer (screen (flushed d fb a b))) = len (raw_buffer (screen d)).
Proof.
  intros Hd Hfb Hi Ha. pose proof (display_buffer _ Hd) as Hb. pose proof (display_height _ Hd) as Hh. pose proof (display_width _ Hd) as Hw. rewrite Hi in Hb, Hh, Hw.
  pose proof (frame_words_len d fb Hd Hi Hfb) as Hwl.
  assert (len (raw_buffer (screen (flushed d fb a b))) = len (raw_buffer (screen d))) as Hl.
  { unfold flushed. cbn [screen set_screen raw_buffer]. rewrite Hi. set (a' := Z.min a _). set (b' := Z.min b _).
    destruct (Z.le_gt_cases (b' * stride i) (a' * stride i)) as [Hle|Hlt].
    - rewrite sub_list_nil by done. cbn [fmap list_fmap]. by rewrite put_nil.
    - assert (0 ≤ a' * stride i ∧ b' * stride i ≤ height i * stride i) as [? ?] by (unfold a', b'; nia).
      assert (len (shown (pixel_format i) <$> sub_list (words (internal_fb fb)) (a' * stride i) (b' * stride i)) = b' * stride i - a' * stride i) as E.
      { unfold len. rewrite length_fmap. apply (len_sub_list (words (internal_fb fb))); lia. }
      rewrite len_put; rewrite ?E; lia. }
  split_and!; [| exact Hi | | exact Hl].
  - destruct Hd. split; try done. rewrite Hl. by rewrite Hb, <- Hi.
  - by destruct Hfb.
Qed.

Lemma flush_frame d fb t s n :
  display_ok d → s_info (screen d) = i → frame_ok d fb → tty_ok F L T C R t → 0 ≤ s < R → 0 < n →
  ∃ file, Tty.flush_unwrap (sc_write_fb info_bytes) t fb (screens pre post d) s n =
    Ret (t, mkFrameBuffer (fb_info fb) file (internal_fb fb), screens pre post (twice_flushed d fb s (Z.min n R))).
Proof.
  intros Hd Hi Hfb Ht Hsr Hn. pose proof Hroom as [H1 H2 H3 H4 H5 H6]. pose proof (line_height_pos F Hfont).
  assert (BORDER_PADDING = 3) as HB by done. destruct Hfits as [_ Hf2].
  unfold Tty.flush_unwrap, Tty.flush_from_line, twice_flushed. rewrite (tty_rows _ _ _ _ _ _ Ht), (tty_top _ _ _ _ _ _ Ht), (tty_line _ _ _ _ _ _ Ht).
  rewrite (proj2 (Z.eqb_neq n 0)), (proj2 (Z.eqb_neq R 0)), (Z.min_l s) by lia. cbn [orb]. unfold saturating_sub. rewrite (Z.max_r 0 (R - s)) by lia.
  set (n' := Z.min n R). set (first := Z.min n' (R - s)).
  assert (s * line_height F ≤ R * line_height F ∧ first * line_height F ≤ (R - s) * line_height F ∧ 0 ≤ first * line_height F ∧
    (n' - first) * line_height F ≤ R * line_height F) as (? & ? & ? & ?) by (unfold first, n'; nia).
  unfold saturating_add, saturating_mul16. rewrite !(Z.min_r (2 ^ 16 - 1)) by lia. rewrite !(Z.min_l _ (2 ^ 16 - 1)) by lia.
  replace (T + s * line_height F + first * line_height F) with (T + (s + first) * line_height F) by lia.
  destruct (flush_rows_ok info_bytes pre post Hpre d fb (T + s * line_height F) (T + (s + first) * line_height F) Hd Hfb ltac:(lia)) as [file1 E1].
  rewrite E1. cbn [mbind out_bind]. destruct (first <? n') eqn:Ef; [|by exists file1].
  destruct (flushed_ok d fb (T + s * line_height F) (T + (s + first) * line_height F) Hd Hfb Hi ltac:(lia)) as (Hd1 & Hi1 & Hfb1 & _).
  set (fb1 := mkFrameBuffer (fb_info fb) file1 (internal_fb fb)).
  destruct (flush_rows_ok info_bytes pre post Hpre _ fb1 T (T + (n' - first) * line_height F) Hd1 ltac:(by destruct Hfb1) ltac:(lia)) as [file2 E2].
  rewrite E2. cbn [mbind out_bind]. eexists. reflexivity.
Qed.

Lemma twice_flushed_at d fb s n m :
  display_ok d → frame_ok d fb → s_info (screen d) = i → 0 ≤ s < R → 0 < n ≤ R → 0 ≤ m < len (raw_buffer (screen d)) →
  display_ok (twice_flushed d fb s n) ∧ s_info (screen (twice_flushed d fb s n)) = i ∧ frame_ok (twice_flushed d fb s n) fb ∧
  len (raw_buffer (screen (twice_flushed d fb s n))) = len (raw_buffer (screen d)) ∧
  byte_at (raw_buffer (screen (twice_flushed d fb s n))) m =
    if ((T <=? m / stride i) && (m / stride i <? T + R * line_height F)) && in_rows R s n (console_row m)
    then shown (pixel_format i) (byte_at (words (internal_fb fb)) m) else byte_at (raw_buffer (screen d)) m.
Proof.
  intros Hd Hfb Hi Hs Hn Hm. pose proof Hroom as [H1 H2 H3 H4 H5 H6]. pose proof (line_height_pos F Hfont). pose proof (stride_pos d Hd Hi).
  assert (BORDER_PADDING = 3) as HB by done. unfold twice_flushed. set (first := Z.min n (R - s)).
  set (a := T + s * line_height F). set (b := T + (s + first) * line_height F).
  assert (0 ≤ a ∧ b ≤ T + R * line_height F ∧ T ≤ a) as (Ha & Hb & HTa) by (unfold a, b, first; nia).
  destruct (flushed_ok d fb a b Hd Hfb Hi Ha) as (Hd1 & Hi1 & Hfb1 & Hl1).
  pose proof (flushed_at d fb a b m Hd Hfb Ha Hm) as E1. cbv zeta in E1. rewrite Hi in E1. rewrite !Z.min_l, between_rows in E1 by lia.
  set (y := m / stride i) in *. unfold console_row. fold y. set (v := (y - T) / line_height F).
  assert (T ≤ y → (a <=? y) && (y <? b) = (s <=? v) && (v <? s + first)) as Erows by (intros; apply rows_between; lia).
  assert (T ≤ y → 0 ≤ v) as Hv0 by (intros; apply Z.div_pos; lia).
  assert (T ≤ y → y < T + R * line_height F → v < R) as HvR by (intros; apply Z.div_lt_upper_bound; lia).
  assert (T ≤ y → T + R * line_height F ≤ y → R ≤ v) as HvR' by (intros; apply Z.div_le_lower_bound; lia).
  assert (0 ≤ v < R → (v - s) mod R = if s <=? v then v - s else v - s + R) as Emod.
  { intros Hv. destruct (Z.leb_spec s v); [by rewrite Z.mod_small by lia|]. symmetry. apply (Z.mod_unique_pos _ _ (-1)); lia. }
  unfold in_rows. destruct (Z.ltb_spec first n) as [Hlt|Hge].
  - destruct (flushed_ok _ fb T (T + (n - first) * line_height F) Hd1 Hfb1 Hi1 H2) as (Hd2 & Hi2 & Hfb2 & Hl2).
    split_and!; try done; [lia|]. rewrite (flushed_at _ fb T (T + (n - first) * line_height F) m Hd1 Hfb1 H2) by lia. rewrite Hi1.
    assert ((n - first) * line_height F ≤ R * line_height F) by (apply Z.mul_le_mono_nonneg_r; lia).
    rewrite !Z.min_l, between_rows by lia. fold y.
    assert ((y <? T + (n - first) * line_height F) = (v <? n - first)) as Erows2.
    { unfold v. rewrite <- (below_row (line_height F) (n - first) (y - T)) by lia. apply eq_true_iff_eq. rewrite !Z.ltb_lt. lia. }
    rewrite E1. destruct (Z.leb_spec T y) as [HT|HT]; cbn [andb].
    2: { rewrite (proj2 (Z.leb_gt a y)) by lia. done. }
    rewrite Erows, Erows2 by done.
    destruct (Z.ltb_spec y (T + R * line_height F)) as [HyR|HyR]; cbn [andb].
    + rewrite Emod by (split; auto). specialize (Hv0 HT). specialize (HvR HT HyR).
      destruct (Z.leb_spec s v), (Z.ltb_spec v (n - first)), (Z.ltb_spec v (s + first)); cbn [andb]; try lia;
        first [rewrite (proj2 (Z.ltb_lt _ _)) by lia; done | rewrite (proj2 (Z.ltb_ge _ _)) by lia; done].
    + specialize (HvR' HT HyR). rewrite (proj2 (Z.ltb_ge v (n - first))), (proj2 (Z.ltb_ge v (s + first))) by lia. by rewrite !andb_false_r.
  - split_and!; try done. rewrite E1. destruct (Z.leb_spec T y) as [HT|HT]; cbn [andb].
    2: { rewrite (proj2 (Z.leb_gt a y)) by lia. done. }
    rewrite Erows by done. destruct (Z.ltb_spec y (T + R * line_height F)) as [HyR|HyR]; cbn [andb].
    + rewrite Emod by (split; auto). specialize (Hv0 HT). specialize (HvR HT HyR).
      destruct (Z.leb_spec s v), (Z.ltb_spec v (s + first)); cbn [andb]; try lia;
        first [rewrite (proj2 (Z.ltb_lt _ _)) by lia; done | rewrite (proj2 (Z.ltb_ge _ _)) by lia; done].
    + specialize (HvR' HT HyR). rewrite (proj2 (Z.ltb_ge v (s + first))) by lia. by rewrite !andb_false_r.
Qed.

(** The pixel at the place of a dot of the terminal *)
Lemma view_dot d fb t D n :
  display_ok d → s_info (screen d) = i → frame_ok d fb →
  tty_holds i T D t (sub_list (words (internal_fb fb)) (T * stride i) (height i * stride i)) →
  T * stride i ≤ n < height i * stride i →
  byte_at (words (internal_fb fb)) n = D (n mod stride i) (n / stride i - T).
Proof.
  intros Hd Hi Hfb [_ _ _ _ Hs Hdots] Hn. pose proof (stride_pos d Hd Hi) as Hst. pose proof (room_top _ _ _ _ _ _ Hroom) as HT.
  pose proof (frame_words_len d fb Hd Hi Hfb) as Hl. unfold view_size in *. cbn [dot] in Hdots.
  specialize (Hdots (n - T * stride i) ltac:(lia)). cbn [view_info stride] in Hdots.
  replace ((n - T * stride i) mod stride i) with (n mod stride i) in Hdots
    by (replace (n - T * stride i) with (n + (- T) * stride i) by lia; by rewrite Z.mod_add by lia).
  replace ((n - T * stride i) / stride i) with (n / stride i - T) in Hdots
    by (replace (n - T * stride i) with (n + (- T) * stride i) by lia; rewrite Z.div_add by lia; lia).
  rewrite <- Hdots. unfold byte_at, sub_list. rewrite !nth_lookup, lookup_take_lt, lookup_drop by nia. f_equal. f_equal. nia.
Qed.

(** Nothing outside the rows of the terminal changes on the screen. *)
Definition outside_same (d d' : Display) : Prop := ∀ n, 0 ≤ n < len (raw_buffer (screen d)) →
  n / stride i < T ∨ T + R * line_height F ≤ n / stride i → byte_at (raw_buffer (screen d')) n = byte_at (raw_buffer (screen d)) n.

(** Nor do the points beside the cells. *)
Definition sides_same (D D' : Z → Z → Z) : Prop := ∀ a b, a < L ∨ L + C * CHAR_WIDTH F ≤ a → D' a b = D a b.

Lemma within_sides g D s n : within C R g s n → sides_same D (tty_overlay F i L T g D).
Proof.
  intros Hg a b Ha. unfold tty_overlay, overlay. destruct (g _ _) as [c|] eqn:E; [|done]. exfalso. apply Hg in E as (Hu & _ & _).
  pose proof (font_width _ Hfont). pose proof (Z.div_mod (a - L) (CHAR_WIDTH F) ltac:(lia)). pose proof (Z.mod_pos_bound (a - L) (CHAR_WIDTH F) ltac:(lia)). nia.
Qed.

(** A drawing within some rows, followed by a flush of these rows *)
Lemma draw_flush {A} d fb t D (f : list Z → out (A * list Z)) (x : A) t' px' g s n :
  console d fb t D → f (sub_list (words (internal_fb fb)) (T * stride i) (height i * stride i)) = Ret (x, px') →
  tty_ok F L T C R t' → tty_holds i T (tty_overlay F i L T g D) t' px' → within C R g s (Z.min n R) → 0 ≤ s < R → 0 < n →
  ∃ fb1 fb' d', Tty.draw t fb f = Ret (x, fb1) ∧
    Tty.flush_unwrap (sc_write_fb info_bytes) t' fb1 (screens pre post d) s n = Ret (t', fb', screens pre post d') ∧
    console d' fb' t' (tty_overlay F i L T g D) ∧ outside_same d d'.
Proof.
  intros Hcon Ef Ht' Hh' Hg Hs Hn. pose proof Hcon as [Hd Hi Hfb Ht Hv HD Hsync]. pose proof (display_format _ Hd) as Hf. rewrite Hi in Hf.
  assert (∀ a b, is_uint 32 (tty_overlay F i L T g D a b)) as HD' by (intros; by apply overlay_word; try apply text_color_ok).
  destruct (draw_frame d fb t D f x t' px' _ Hcon Ef Hh' HD') as (fb1 & E1 & Hfb1 & Ew & Epx).
  assert (Z.min n R = Z.min (Z.min n R) R) as Hmin by lia. set (n' := Z.min n R) in *. pose proof (room_rows _ _ _ _ _ _ Hroom) as HR.
  set (d' := twice_flushed d fb1 s n').
  assert (∀ m, 0 ≤ m < len (raw_buffer (screen d)) → byte_at (raw_buffer (screen d')) m =
    if ((T <=? m / stride i) && (m / stride i <? T + R * line_height F)) && in_rows R s n' (console_row m)
    then shown (pixel_format i) (byte_at (words (internal_fb fb1)) m) else byte_at (raw_buffer (screen d)) m) as Hraw.
  { intros m Hm. by apply (twice_flushed_at d fb1 s n' m Hd Hfb1 Hi Hs ltac:(lia)). }
  pose proof (stride_pos d Hd Hi) as Hst. pose proof (display_buffer _ Hd) as Hbuf. rewrite Hi in Hbuf.
  destruct (flush_frame d fb1 t' s n Hd Hi Hfb1 Ht' Hs Hn) as [file E2]. fold n' in E2. fold d' in E2.
  eexists fb1, _, d'. split; [exact E1|]. split; [exact E2|].
  pose proof Hroom as [_ HT _ _ _ Hbot]. pose proof (line_height_pos F Hfont). assert (BORDER_PADDING = 3) as HB by done.
  destruct (twice_flushed_at d fb1 s n' 0 Hd Hfb1 Hi Hs ltac:(lia)) as (Hd' & Hi' & Hfb' & Hl' & _); [nia|]. fold d' in Hd', Hi', Hfb', Hl'.
  split.
  - split; try done; [by destruct Hfb' | cbn [internal_fb]; by rewrite Epx |]. cbn [internal_fb]. intros m Hm.
    assert (0 ≤ m < len (raw_buffer (screen d))) as Hm' by (rewrite Hbuf; nia). rewrite Hraw by done.
    assert ((T <=? m / stride i) && (m / stride i <? T + R * line_height F) = true) as ->.
    { rewrite <- between_rows by done. apply andb_true_iff. rewrite Z.leb_le, Z.ltb_lt. lia. }
    cbn [andb]. destruct (in_rows R s n' (console_row m)) eqn:Er; [done|]. rewrite Hsync by done. f_equal.
    assert (m < height i * stride i) by nia.
    rewrite (view_dot d fb t D m) by (done || lia). rewrite (view_dot d fb1 t' (tty_overlay F i L T g D) m); try done; [|by rewrite Epx|lia].
    unfold tty_overlay, overlay. destruct (g _ _) as [c|] eqn:Eg; [|done]. exfalso.
    apply Hg in Eg as (_ & _ & Er'). unfold console_row in Er. rewrite Z.sub_0_r in Er'. congruence.
  - intros m Hm Hout. rewrite Hraw by done. destruct (Z.leb_spec T (m / stride i)), (Z.ltb_spec (m / stride i) (T + R * line_height F)); try done; lia.
Qed.

Definition text_of (t : Tty) : list Z := PROMPT ++ input_buffer t.

Lemma prompt_printable : Forall printable PROMPT.
Proof. unfold PROMPT, printable. repeat constructor; lia. Qed.

Lemma rows_spanned_eq t n : tty_ok F L T C R t → 0 < n → Tty.rows_spanned t n = Z.min ((n + C - 1) / C) R ∧ 0 < (n + C - 1) / C ∧ n ≤ (n + C - 1) / C * C.
Proof.
  intros Ht Hn. pose proof (room_cols _ _ _ _ _ _ Hroom). unfold Tty.rows_spanned. rewrite (tty_cols _ _ _ _ _ _ Ht), (tty_rows _ _ _ _ _ _ Ht).
  rewrite !(proj2 (Z.eqb_neq _ 0)) by lia. split; [done|]. pose proof (Z.div_mod (n + C - 1) C ltac:(lia)). pose proof (Z.mod_pos_bound (n + C - 1) C ltac:(lia)).
  split; [apply Z.div_str_pos; lia | lia].
Qed.

(** What a terminal keeps of its input and of its place *)
Definition same_input (t t' : Tty) : Prop :=
  input_buffer t' = input_buffer t ∧ cursor_pos t' = cursor_pos t ∧ modifiers t' = modifiers t.

Lemma place_start s : 0 ≤ s < R → place C R s 0 = (0, s).
Proof. intros. pose proof (room_cols _ _ _ _ _ _ Hroom). unfold place. rewrite Zmod_0_l, Z.div_0_l, Z.add_0_r, Z.mod_small by lia. done. Qed.

(** Redrawing the line *)
Lemma redraw_pixels d fb t D :
  console d fb t D → Forall printable (input_buffer t) →
  let px := sub_list (words (internal_fb fb)) (T * stride i) (height i * stride i) in
  let n := Tty.rows_spanned t (Z.max (rendered_len t) (PROMPT_LEN + len (input_buffer t))) in
  let s := line_start_row t in
  ∃ w px' p,
    ('(self, pixels) ← Tty.clear_rows F t px s n;
     let self := set_place self 0 (line_start_row self) in
     '(self, pixels) ← Tty.write_span F self pixels PROMPT;
     '(self, pixels) ← Tty.write_span F self pixels (input_buffer self);
     Ret (set_line self (line_start_row self) (PROMPT_LEN + len (input_buffer t)), pixels)) =
      Ret (set_line (set_place (set_writer t w) p.1 p.2) s (PROMPT_LEN + len (input_buffer t)), px') ∧
    in_grid C R p ∧
    tty_holds i T (tty_overlay F i L T (front (span C R (place C R s 0) (text_of t)) (cleared C R s n)) D) (set_writer t w) px'.
Proof.
  intros Hcon Hin px n s. pose proof Hcon as [Hd Hi Hfb Ht Hv _ _]. pose proof (view_screen_ok d Hd Hi) as Hscreen.
  pose proof (tty_start _ _ _ _ _ _ Ht) as Hs. fold s in Hs. pose proof (len_nonneg (input_buffer t)). assert (PROMPT_LEN = 12) as HP by done.
  destruct (rows_spanned_eq t (Z.max (rendered_len t) (PROMPT_LEN + len (input_buffer t))) Ht ltac:(lia)) as (En & Hn & _). fold n in En.
  pose proof (room_rows _ _ _ _ _ _ Hroom) as HR. pose proof (room_cols _ _ _ _ _ _ Hroom) as HC.
  destruct (clear_rows_ok F i L T C R Hfont Hscreen Hfits Hroom t px D s n Ht Hv Hs ltac:(lia)) as (w1 & px1 & -> & Hh1).
  replace (Z.min n R) with n in Hh1 by lia. cbn [mbind out_bind set_writer line_start_row]. fold s.
  assert (in_grid C R (0, s)) as H0 by (split; cbn; lia).
  pose proof (set_place_ok F L T C R _ (0, s) (set_writer_ok F L T C R t w1 Ht) H0) as Ht1. cbn [fst snd] in Ht1.
  destruct (write_span_from F i L T C R Hfont Hscreen Hfits Hroom (0, s) _ px1 _ PROMPT Ht1 eq_refl Hh1 prompt_printable) as (w2 & px2 & -> & Hh2).
  assert (in_grid C R (span_end C R (0, s) PROMPT)) as Hp2 by (apply span_end_in_grid; [lia | lia | done]).
  remember (span_end C R (0, s) PROMPT) as p2 eqn:Ep2. cbn [mbind out_bind].
  pose proof (set_place_ok F L T C R _ p2 (set_writer_ok F L T C R _ w2 Ht1) Hp2) as Ht2.
  destruct (write_span_from F i L T C R Hfont Hscreen Hfits Hroom p2 _ px2 _ (input_buffer t) Ht2 (eq_sym (surjective_pairing p2)) Hh2 Hin) as (w3 & px3 & E3 & Hh3).
  cbn [set_place set_writer input_buffer] in E3 |- *. rewrite E3. cbn [mbind out_bind].
  assert (in_grid C R (span_end C R p2 (input_buffer t))) as Hp3 by (apply span_end_in_grid; [lia | lia | done]).
  remember (span_end C R p2 (input_buffer t)) as p3 eqn:Ep3. exists w3, px3, p3. split; [reflexivity|]. split; [done|].
  eapply tty_holds_ext; [|exact Hh3]. intros a b. unfold tty_overlay. rewrite !overlay_front. apply overlay_ext; [|done]. intros u v.
  rewrite place_start by done. pose proof (span_app C R (0, s) PROMPT (input_buffer t) u v) as E. unfold text_of, front in *. rewrite E, <- Ep2.
  by destruct (span C R p2 _ u v).
Qed.

Lemma set_line_ok t s n : tty_ok F L T C R t → 0 ≤ s < R → 0 ≤ n → tty_ok F L T C R (set_line t s n).
Proof. by intros []. Qed.
Lemma set_input_ok t b n : tty_ok F L T C R t → tty_ok F L T C R (set_input t b n).
Proof. by intros []. Qed.
Lemma set_modifiers_ok t m : tty_ok F L T C R t → tty_ok F L T C R (set_modifiers t m).
Proof. by intros []. Qed.

(** A line on the terminal: its text and spaces up to the end of its last row *)
Definition shows_line (t : Tty) (D : Z → Z → Z) : Prop :=
  ∃ D0 n, PROMPT_LEN + len (input_buffer t) ≤ n * C ∧ n ≤ R ∧
    ∀ a b, D a b = tty_overlay F i L T (line C R (line_start_row t) (text_of t) n) D0 a b.

(** The drawing in the goal is the one of the equation. *)
Ltac drawn E := match type of E with _ = ?r => match goal with |- context [Tty.draw ?t ?fb ?f] =>
  replace (Tty.draw t fb f) with r by (symmetry; exact E) end end; cbn [mbind out_bind].

Lemma redraw_ok d fb t D :
  console d fb t D → Forall printable (input_buffer t) →
  ∃ t' fb' d' D', Tty.redraw_line F (sc_write_fb info_bytes) t fb (screens pre post d) = Ret (t', fb', screens pre post d') ∧
    console d' fb' t' D' ∧ outside_same d d' ∧ sides_same D D' ∧ same_input t t' ∧ line_start_row t' = line_start_row t ∧
    (PROMPT_LEN + len (input_buffer t) ≤ C * R → shows_line t' D').
Proof.
  intros Hcon Hin. pose proof Hcon as [Hd Hi Hfb Ht Hv HD Hsync]. pose proof (tty_start _ _ _ _ _ _ Ht) as Hs. pose proof (tty_rendered _ _ _ _ _ _ Ht) as Hr.
  destruct (redraw_pixels d fb t D Hcon Hin) as (w & px' & p & Ef & Hp & Hh). unfold Tty.redraw_line. cbv zeta.
  set (new_len := PROMPT_LEN + len (input_buffer t)) in *. set (n := Tty.rows_spanned t (Z.max (rendered_len t) new_len)) in *.
  assert (PROMPT_LEN = 12) as HP by done. pose proof (len_nonneg (input_buffer t)). pose proof (room_rows _ _ _ _ _ _ Hroom). pose proof (room_cols _ _ _ _ _ _ Hroom).
  destruct (rows_spanned_eq t (Z.max (rendered_len t) new_len) Ht ltac:(lia)) as (En & Hn & Hcov). fold n in En.
  set (t' := set_line (set_place (set_writer t w) p.1 p.2) (line_start_row t) new_len) in *.
  assert (tty_ok F L T C R t') as Ht' by (apply set_line_ok; [by apply set_place_ok, Hp; apply set_writer_ok | done | lia]).
  assert (len (text_of t) = new_len) as Htl by (unfold text_of; rewrite len_app; done).
  assert (within C R (front (span C R (place C R (line_start_row t) 0) (text_of t)) (cleared C R (line_start_row t) n)) (line_start_row t) (Z.min n R)) as Hwin.
  { apply within_front; [|by replace (Z.min n R) with n by lia; apply within_cleared].
    replace (Z.min n R) with (Z.min ((Z.max (rendered_len t) new_len + C - 1) / C) R) by lia. apply within_line; try done.
    rewrite Htl. apply Z.div_le_mono; lia. }
  destruct (draw_flush d fb t D (λ pixels,
    '(self, pixels) ← Tty.clear_rows F t pixels (line_start_row t) n;
    '(self, pixels) ← Tty.write_span F (set_place self 0 (line_start_row self)) pixels PROMPT;
    '(self, pixels) ← Tty.write_span F self pixels (input_buffer self);
    Ret (set_line self (line_start_row self) new_len, pixels)) t' t' px' _ (line_start_row t) n Hcon Ef Ht' Hh Hwin Hs ltac:(lia)) as (fb1 & fb' & d' & E1 & E2 & Hcon' & Hout).
  drawn E1. change (line_start_row t') with (line_start_row t). rewrite E2.
  eexists t', fb', d', _. split; [reflexivity|]. split; [exact Hcon'|]. split; [exact Hout|].
  split; [by eapply within_sides|]. split; [done|]. split; [done|]. intros Hfit. exists D, n. change (input_buffer t') with (input_buffer t). change (line_start_row t') with (line_start_row t).
  change (text_of t') with (text_of t). fold new_len. assert (new_len ≤ n * C) by (rewrite En; nia). split; [done|]. split; [lia|].
  intros a b. apply overlay_ext; [|done]. intros u v. apply line_drawn; lia.
Qed.

(** The prompt *)
Lemma prompt_ok d fb t D :
  console d fb t D →
  ∃ t' fb' d' D', Tty.display_prompt F (sc_write_fb info_bytes) t fb (screens pre post d) = Ret (t', fb', screens pre post d') ∧
    console d' fb' t' D' ∧ outside_same d d' ∧ same_input t t' ∧ line_start_row t' = cursor_row t ∧
    (∀ a b, D' a b = tty_overlay F i L T (span C R (0, cursor_row t) PROMPT) D a b).
Proof.
  intros Hcon. pose proof Hcon as [Hd Hi Hfb Ht Hv HD Hsync]. pose proof (view_screen_ok d Hd Hi) as Hscreen. pose proof (tty_row _ _ _ _ _ _ Ht) as Hrow.
  pose proof (room_rows _ _ _ _ _ _ Hroom). pose proof (room_cols _ _ _ _ _ _ Hroom).
  set (t0 := set_line (set_place t 0 (cursor_row t)) (cursor_row t) 0).
  assert (in_grid C R (0, cursor_row t)) as Hg0 by (split; cbn; lia).
  assert (tty_ok F L T C R t0) as Ht0 by (apply set_line_ok; [apply (set_place_ok F L T C R t (0, cursor_row t) Ht Hg0) | done | lia]).
  destruct (write_span_from F i L T C R Hfont Hscreen Hfits Hroom (0, cursor_row t) t0 _ D PROMPT Ht0 eq_refl Hv prompt_printable) as (w & px' & Ew & Hh).
  assert (in_grid C R (span_end C R (0, cursor_row t) PROMPT)) as Hp by (apply span_end_in_grid; [lia | lia | done]).
  remember (span_end C R (0, cursor_row t) PROMPT) as p eqn:Ep.
  set (t' := set_line (set_place (set_writer t0 w) p.1 p.2) (cursor_row t) PROMPT_LEN).
  assert (tty_ok F L T C R t') as Ht' by (apply set_line_ok; [by apply set_place_ok, Hp; apply set_writer_ok | done | done]).
  assert (PROMPT_LEN = 12) as HP by done. destruct (rows_spanned_eq t' PROMPT_LEN Ht' ltac:(lia)) as (En & Hn & Hcov).
  assert (within C R (span C R (0, cursor_row t) PROMPT) (cursor_row t) (Z.min (Tty.rows_spanned t' PROMPT_LEN) R)) as Hwin.
  { rewrite En. replace (Z.min (Z.min _ R) R) with (Z.min ((PROMPT_LEN + C - 1) / C) R) by lia. rewrite <- place_start by done. by apply within_line. }
  destruct (draw_flush d fb t D (λ pixels,
    let self := set_line (set_place t 0 (cursor_row t)) (cursor_row t) 0 in
    '(self, pixels) ← Tty.write_span F self pixels PROMPT;
    Ret (set_line self (line_start_row self) PROMPT_LEN, pixels)) t' t' px' (span C R (0, cursor_row t) PROMPT) (cursor_row t) (Tty.rows_spanned t' PROMPT_LEN) Hcon) as (fb1 & fb' & d' & E1 & E2 & Hcon' & Hout);
    [by cbv zeta; fold t0; rewrite Ew | done | exact Hh | exact Hwin | done | lia |].
  unfold Tty.display_prompt. drawn E1. change (line_start_row t') with (cursor_row t). change (rendered_len t') with PROMPT_LEN.
  rewrite E2. eexists t', fb', d', _. split; [reflexivity|]. split; [exact Hcon'|]. done.
Qed.

(** A flush without a drawing *)
Lemma flush_only d fb t D s n :
  console d fb t D → 0 ≤ s < R → 0 < n →
  ∃ fb' d', Tty.flush_unwrap (sc_write_fb info_bytes) t fb (screens pre post d) s n = Ret (t, fb', screens pre post d') ∧
    console d' fb' t D ∧ outside_same d d'.
Proof.
  intros Hcon Hs Hn. pose proof Hcon as [Hd Hi Hfb Ht Hv HD Hsync]. pose proof (room_rows _ _ _ _ _ _ Hroom) as HR.
  destruct (flush_frame d fb t s n Hd Hi Hfb Ht Hs Hn) as [file E]. set (n' := Z.min n R) in *. set (d' := twice_flushed d fb s n') in *.
  eexists _, d'. split; [exact E|]. pose proof Hroom as [_ HT _ _ _ Hbot]. pose proof (line_height_pos F Hfont). assert (BORDER_PADDING = 3) as HB by done.
  pose proof (stride_pos d Hd Hi) as Hst. pose proof (display_buffer _ Hd) as Hbuf. rewrite Hi in Hbuf.
  destruct (twice_flushed_at d fb s n' 0 Hd Hfb Hi Hs ltac:(lia)) as (Hd' & Hi' & Hfb' & Hl' & _); [nia|]. fold d' in Hd', Hi', Hfb', Hl'.
  assert (∀ m, 0 ≤ m < len (raw_buffer (screen d)) → byte_at (raw_buffer (screen d')) m =
    if ((T <=? m / stride i) && (m / stride i <? T + R * line_height F)) && in_rows R s n' (console_row m)
    then shown (pixel_format i) (byte_at (words (internal_fb fb)) m) else byte_at (raw_buffer (screen d)) m) as Hraw.
  { intros m Hm. by apply (twice_flushed_at d fb s n' m Hd Hfb Hi Hs ltac:(lia)). }
  split.
  - split; try done; [by destruct Hfb'|]. cbn [internal_fb]. intros m Hm. rewrite Hraw by (rewrite Hbuf; nia).
    destruct (_ && _); [done | by apply Hsync].
  - intros m Hm Hout. rewrite Hraw by done. destruct (Z.leb_spec T (m / stride i)), (Z.ltb_spec (m / stride i) (T + R * line_height F)); try done; lia.
Qed.

(** A new line, on which nothing is drawn *)
Lemma newline_ok d fb t D :
  console d fb t D →
  ∃ t' fb' d', Tty.newline_and_flush (sc_write_fb info_bytes) t fb (screens pre post d) = Ret (t', fb', screens pre post d') ∧
    console d' fb' t' D ∧ outside_same d d' ∧ same_input t t' ∧ cursor_col t' = 0 ∧ cursor_row t' = (cursor_row t + 1) mod R.
Proof.
  intros Hcon. pose proof Hcon as [Hd Hi Hfb Ht Hv HD Hsync]. pose proof (tty_row _ _ _ _ _ _ Ht) as Hrow. pose proof (room_rows _ _ _ _ _ _ Hroom). pose proof (room_cols _ _ _ _ _ _ Hroom).
  unfold Tty.newline_and_flush. rewrite (advance_line_ok F i L T C R Hfont Hfits Hroom t Ht). cbn [mbind out_bind].
  pose proof (Z.mod_pos_bound (cursor_row t + 1) R ltac:(lia)) as Hm.
  set (t' := set_place t 0 ((cursor_row t + 1) mod R)).
  assert (tty_ok F L T C R t') as Ht' by (apply (set_place_ok F L T C R t (0, (cursor_row t + 1) mod R) Ht); split; cbn; lia).
  assert (console d fb t' D) as Hcon1 by by split.
  destruct (flush_only d fb t' D (cursor_row t) 1 Hcon1 Hrow ltac:(lia)) as (fb' & d' & E & Hcon' & Hout).
  exists t', fb', d'. done.
Qed.

(** Clearing the terminal *)
Lemma clear_screen_ok d fb t D :
  console d fb t D →
  ∃ t' fb' d' D', Tty.clear_screen F (sc_write_fb info_bytes) t fb (screens pre post d) = Ret (t', fb', screens pre post d') ∧
    console d' fb' t' D' ∧ outside_same d d' ∧ same_input t t' ∧ cursor_col t' = 0 ∧ cursor_row t' = 0 ∧
    (∀ a b, D' a b = tty_overlay F i L T (cleared C R 0 R) D a b).
Proof.
  intros Hcon. pose proof Hcon as [Hd Hi Hfb Ht Hv HD Hsync]. pose proof (view_screen_ok d Hd Hi) as Hscreen.
  pose proof (room_rows _ _ _ _ _ _ Hroom). pose proof (room_cols _ _ _ _ _ _ Hroom). pose proof (tty_rows _ _ _ _ _ _ Ht) as HR.
  destruct (clear_rows_ok F i L T C R Hfont Hscreen Hfits Hroom t _ D 0 R Ht Hv ltac:(lia) ltac:(lia)) as (w & px' & Ew & Hh). rewrite Z.min_id in Hh.
  set (t' := set_line (set_place (set_writer t w) 0 0) 0 0).
  assert (tty_ok F L T C R t') as Ht'.
  { apply set_line_ok; [|lia|lia]. apply (set_place_ok F L T C R _ (0, 0) (set_writer_ok F L T C R t w Ht)). split; cbn; lia. }
  destruct (draw_flush d fb t D (λ pixels,
    '(self, pixels) ← Tty.clear_rows F t pixels 0 (inner_rows t);
    Ret (set_line (set_place self 0 0) 0 0, pixels)) t' t' px' (cleared C R 0 R) 0 R Hcon) as (fb1 & fb' & d' & E1 & E2 & Hcon' & Hout);
    [by rewrite HR, Ew | done | exact Hh | rewrite Z.min_id; by apply within_cleared | lia | lia |].
  unfold Tty.clear_screen. drawn E1. change (inner_rows t') with (inner_rows t). rewrite HR, E2.
  eexists t', fb', d', _. split; [reflexivity|]. split; [exact Hcon'|]. done.
Qed.

(** *** Output *)

Definition line_char (c : Z) : Prop := c ≠ 13.

Lemma write_chars_ok st s t px D m :
  screen_ok F (view_info i T) (view_size i T) → tty_ok F L T C R t → tty_holds i T D t px → Forall line_char s → 0 ≤ m → cursor_row t = (st + m) mod R →
  ∃ w px' m', let p := out_end C R (at_cursor t) s in
    Tty.write_chars F t px (Z.min (m + 1) (2 ^ 16 - 1)) s = Ret (set_place (set_writer t w) p.1 p.2, px', Z.min (m' + 1) (2 ^ 16 - 1)) ∧
    tty_holds i T (tty_overlay F i L T (out_grid C R (at_cursor t) s) D) (set_writer t w) px' ∧
    m ≤ m' ∧ within C R (out_grid C R (at_cursor t) s) st (Z.min (m' + 1) R) ∧ in_grid C R p.
Proof.
  intros Hscreen Ht Hh Hs Hm Hrow. pose proof (room_rows _ _ _ _ _ _ Hroom) as HR. pose proof (room_cols _ _ _ _ _ _ Hroom) as HC.
  revert t px D m Ht Hh Hm Hrow. induction Hs as [|c s Hc _ IH]; intros t px D m Ht Hh Hm Hrow.
  { exists (writer t), px, m. cbv zeta. split; [by destruct t|]. split; [eapply tty_holds_ext; [|exact Hh]; done|].
    split; [lia|]. split; [done|]. by apply (at_cursor_ok F L T C R). }
  cbn [Tty.write_chars]. unfold saturating_add.
  assert (∀ k, Z.min (Z.min (k + 1) (2 ^ 16 - 1) + 1) (2 ^ 16 - 1) = Z.min (k + 1 + 1) (2 ^ 16 - 1)) as Hsat by (intros; lia).
  cbn [out_grid out_end]. change (at_cursor t).2 with (cursor_row t). change (at_cursor t).1 with (cursor_col t).
  destruct (Z.eqb_spec c 10) as [->|Hne].
  - rewrite (advance_line_ok F i L T C R Hfont Hfits Hroom t Ht). cbn [mbind out_bind]. rewrite Hsat.
    pose proof (Z.mod_pos_bound (cursor_row t + 1) R HR) as Hm1. set (row1 := (cursor_row t + 1) mod R) in *.
    assert (tty_ok F L T C R (set_place t 0 row1)) as Ht1 by (apply (set_place_ok F L T C R t (0, row1) Ht); split; cbn; lia).
    destruct (IH (set_place t 0 row1) px D (m + 1) Ht1 Hh ltac:(lia)) as (w & px' & m' & E & Hh' & Hmm & Hwin & Hin).
    { cbn [set_place cursor_row]. unfold row1. rewrite Hrow, Zplus_mod_idemp_l. f_equal. lia. }
    exists w, px', m'. cbv zeta in *. change (at_cursor (set_place t 0 row1)) with (0, row1) in *. split; [exact E|]. split; [exact Hh'|]. split; [lia|]. done.
  - rewrite (ensure_fit_ok F L T C R t Ht). cbn [mbind out_bind].
    destruct (cell_ok F i L T C R Hfont Hscreen Hfits Hroom t px D (cursor_col t) (cursor_row t) c Ht Hh (tty_col _ _ _ _ _ _ Ht) (tty_row _ _ _ _ _ _ Ht) (conj Hne Hc))
      as (x & y & w1 & px1 & -> & E1 & Hh1).
    cbn [mbind out_bind]. rewrite E1. cbn [mbind out_bind]. pose proof (set_writer_ok F L T C R t w1 Ht) as Ht1.
    rewrite (advance_cursor_ok F i L T C R Hfont Hfits Hroom _ Ht1). cbn [mbind out_bind set_writer cursor_col cursor_row].
    change (cursor_col t, cursor_row t) with (at_cursor t).
    assert (in_grid C R (after C R (at_cursor t))) as Hp by (apply after_in_grid; [done | done | by apply (at_cursor_ok F L T C R)]).
    pose proof (after_row C R (at_cursor t) st m Hrow) as Hrow1. change (at_cursor t).1 with (cursor_col t) in Hrow1.
    set (m1 := if cursor_col t + 1 <? C then m else m + 1) in *.
    remember (after C R (at_cursor t)) as p eqn:Ep.
    assert ((if negb (cursor_col t + 1 <? C) then Z.min (Z.min (m + 1) (2 ^ 16 - 1) + 1) (2 ^ 16 - 1) else Z.min (m + 1) (2 ^ 16 - 1)) = Z.min (m1 + 1) (2 ^ 16 - 1)) as ->.
    { unfold m1. destruct (_ <? _); cbn [negb]; [done|]. apply Hsat. }
    destruct (IH (set_place (set_writer t w1) p.1 p.2) px1 _ m1 (set_place_ok F L T C R _ p Ht1 Hp) Hh1) as (w & px' & m' & E & Hh' & Hmm & Hwin & Hin).
    { unfold m1. destruct (_ <? _); lia. } { exact Hrow1. }
    change (at_cursor (set_place (set_writer t w1) p.1 p.2)) with (p.1, p.2) in *. rewrite <- surjective_pairing in *.
    assert (m ≤ m1) by (unfold m1; destruct (_ <? _); lia).
    exists w, px', m'. cbv zeta in *. split; [exact E|]. split; [|split; [lia|]; split; [|done]].
    + eapply tty_holds_ext; [|exact Hh']. intros a b. unfold tty_overlay. by rewrite overlay_front.
    + apply within_front; [done|]. eapply within_more; [apply (cell_within C R HR (cursor_col t) (cursor_row t) c st m); [apply (tty_col _ _ _ _ _ _ Ht) | done | done]|]. lia.
Qed.

Lemma write_str_ok d fb t D s :
  console d fb t D → Forall line_char s →
  ∃ t' fb' d' D', Tty.write_str F (sc_write_fb info_bytes) t fb (screens pre post d) s = Ret (t', fb', screens pre post d') ∧
    console d' fb' t' D' ∧ outside_same d d' ∧ same_input t t' ∧ at_cursor t' = out_end C R (at_cursor t) s ∧
    (∀ a b, D' a b = tty_overlay F i L T (out_grid C R (at_cursor t) s) D a b).
Proof.
  intros Hcon Hs. pose proof Hcon as [Hd Hi Hfb Ht Hv HD Hsync]. pose proof (view_screen_ok d Hd Hi) as Hscreen.
  pose proof (room_rows _ _ _ _ _ _ Hroom) as HR. pose proof (tty_row _ _ _ _ _ _ Ht) as Hrow. pose proof (tty_start _ _ _ _ _ _ Ht) as Hst.
  destruct (room_words F i L T C R Hfont Hfits Hroom) as (_ & HRw & _).
  destruct (write_chars_ok (cursor_row t) s t _ D 0 Hscreen Ht Hv Hs ltac:(lia)) as (w & px' & m & E & Hh & Hm & Hwin & Hin).
  { by rewrite Z.add_0_r, Z.mod_small. }
  cbv zeta in *. change (Z.min (0 + 1) (2 ^ 16 - 1)) with 1 in E. remember (out_end C R (at_cursor t) s) as p eqn:Ep.
  set (t' := set_line (set_place (set_writer t w) p.1 p.2) (line_start_row t) 0).
  assert (tty_ok F L T C R t') as Ht' by (apply set_line_ok; [by apply set_place_ok, Hin; apply set_writer_ok | done | lia]).
  set (r := Z.min (m + 1) (2 ^ 16 - 1)) in *.
  destruct (draw_flush d fb t D (λ pixels,
    '(t, pixels, rows_touched) ← Tty.write_chars F t pixels 1 s;
    Ret ((set_line t (line_start_row t) 0, rows_touched), pixels)) (t', r) t' px' (out_grid C R (at_cursor t) s) (cursor_row t) r Hcon)
    as (fb1 & fb' & d' & E1 & E2 & Hcon' & Hout); [by rewrite E | done | exact Hh | | done | lia |].
  { replace (Z.min r R) with (Z.min (m + 1) R) by lia. exact Hwin. }
  unfold Tty.write_str. cbv zeta. drawn E1. rewrite E2.
  eexists t', fb', d', _. split; [reflexivity|]. split; [exact Hcon'|]. split; [done|]. split; [done|]. split; [by destruct p | done].
Qed.

(** *** Editing *)

(** What a key event does to the modifiers and to the line *)
Definition edit (st : KeyModifiers * list Z) (e : KeyEvent) : KeyModifiers * list Z :=
  let '(m, l) := st in
  let down := bool_decide (pressed e = Pressed) in
  if negb down && negb (Tty.is_modifier (key e)) then st
  else
    match key e with
    | KeyCode.Backspace => (m, removelast l)
    | KeyCode.Enter => st
    | KeyCode.CapsLock => (KeyModifiers.set_caps_locked m (negb (KeyModifiers.is_caps_locked m)), l)
    | KeyCode.ShiftLeft | KeyCode.ShiftRight => (KeyModifiers.set_shifted m down, l)
    | KeyCode.CtrlLeft | KeyCode.CtrlRight => (KeyModifiers.set_ctrled m down, l)
    | KeyCode.AltLeft | KeyCode.AltRight => (KeyModifiers.set_alted m down, l)
    | k => if as_char k m =? 0 then st else (m, l ++ [as_char k m])
    end.

Definition completes (e : KeyEvent) : bool := bool_decide (e = mkKeyEvent KeyCode.Enter Pressed).

(** A terminal whose cursor is at the end of a line of printable characters *)
Record editing (t : Tty) : Prop := mk_editing {
  editing_pos : cursor_pos t = len (input_buffer t);
  editing_chars : Forall printable (input_buffer t);
}.

Definition unchanged (t t' : Tty) (D D' : Z → Z → Z) : Prop :=
  input_buffer t' = input_buffer t ∧ line_start_row t' = line_start_row t ∧ ∀ a b, D' a b = D a b.

(** The result of an event: the line is as before, or it is drawn anew. *)
Definition edited (d : Display) (t : Tty) (D : Z → Z → Z) (e : KeyEvent) (r : out (Tty * FrameBuffer * DeviceFS Display * bool)) : Prop :=
  ∃ t' fb' d' D', r = Ret (t', fb', screens pre post d', completes e) ∧ console d' fb' t' D' ∧ outside_same d d' ∧ sides_same D D' ∧ editing t' ∧
    (modifiers t', input_buffer t') = edit (modifiers t, input_buffer t) e ∧
    (unchanged t t' D D' ∨ (PROMPT_LEN + len (input_buffer t') ≤ C * R → shows_line t' D')).

Lemma outside_refl d : outside_same d d.
Proof. done. Qed.

Lemma edited_quiet d fb t D e m :
  console d fb t D → editing t → completes e = false → (m, input_buffer t) = edit (modifiers t, input_buffer t) e →
  edited d t D e (Ret (set_modifiers t m, fb, screens pre post d, false)).
Proof.
  intros Hcon [Hpos Hch] He Hm. exists (set_modifiers t m), fb, d, D. rewrite He. split; [done|].
  split; [destruct Hcon; split; try done; by apply set_modifiers_ok|]. split; [apply outside_refl|]. split; [done|]. split; [by split|]. split; [done|]. by left.
Qed.

Lemma edited_redraw d fb t D e b :
  console d fb t D → Forall printable b → completes e = false → (modifiers t, b) = edit (modifiers t, input_buffer t) e →
  edited d t D e ('(self, fb, k) ← Tty.redraw_line F (sc_write_fb info_bytes) (set_input t b (len b)) fb (screens pre post d); Ret (self, fb, k, false)).
Proof.
  intros Hcon Hb He Hm. assert (console d fb (set_input t b (len b)) D) as Hcon1 by (destruct Hcon; split; try done; by apply set_input_ok).
  destruct (redraw_ok d fb (set_input t b (len b)) D Hcon1 Hb) as (t' & fb' & d' & D' & -> & Hcon' & Hout & Hside & (Hi1 & Hi2 & Hi3) & _ & Hline).
  cbn [mbind out_bind]. cbn [set_input input_buffer cursor_pos modifiers] in Hi1, Hi2, Hi3, Hline.
  exists t', fb', d', D'. rewrite He. split; [done|]. split; [done|]. split; [done|]. split; [done|].
  split; [split; rewrite Hi1; done|]. split; [by rewrite Hi3, Hi1|]. right. by rewrite Hi1.
Qed.

Lemma removelast_take (l : list Z) : removelast l = take (length l - 1) l.
Proof. rewrite removelast_firstn_len. by replace (pred (length l)) with (length l - 1)%nat by lia. Qed.

(** The key erases the last character. *)
Lemma backspace_ok d fb t D e :
  console d fb t D → editing t → key e = KeyCode.Backspace → pressed e = Pressed →
  edited d t D e (Tty.handle_key_event F (sc_write_fb info_bytes) t fb (screens pre post d) e).
Proof.
  intros Hcon He Hk Hp. destruct He as [Hpos Hch]. assert (completes e = false) as Hc by (apply bool_decide_false; intros ->; done).
  assert (edit (modifiers t, input_buffer t) e = (modifiers t, removelast (input_buffer t))) as Hed by (unfold edit; by rewrite Hp, Hk).
  unfold Tty.handle_key_event. rewrite Hp, Hk, bool_decide_true by done. cbn [negb andb]. rewrite Hpos.
  destruct (Z.ltb_spec 0 (len (input_buffer t))) as [Hlt|Hle].
  - rewrite (proj2 (Z.ltb_lt (len (input_buffer t) - 1) _)) by lia.
    assert (Tty.remove (input_buffer t) (len (input_buffer t) - 1) = removelast (input_buffer t)) as Hrm.
    { unfold Tty.remove, len in *. rewrite removelast_take. rewrite drop_ge by lia. rewrite app_nil_r. f_equal. lia. }
    rewrite Hrm. replace (len (input_buffer t) - 1) with (len (removelast (input_buffer t)))
      by (unfold len in *; rewrite removelast_take, length_take; lia).
    apply edited_redraw; try done. rewrite removelast_take. by apply Forall_take.
  - assert (input_buffer t = []) as E by (destruct (input_buffer t); [done | rewrite len_cons in Hle; pose proof (len_nonneg l); lia]).
    pose proof (edited_quiet d fb t D e (modifiers t) Hcon ltac:(by split) Hc) as Hq.
    replace (set_modifiers t (modifiers t)) with t in Hq by (by destruct t). apply Hq. by rewrite Hed, E.
Qed.

(** A key with a character appends it. *)
Lemma char_ok d fb t D e :
  console d fb t D → editing t → completes e = false →
  (if as_char (key e) (modifiers t) =? 0 then (modifiers t, input_buffer t) else (modifiers t, input_buffer t ++ [as_char (key e) (modifiers t)]))
    = edit (modifiers t, input_buffer t) e →
  edited d t D e (if negb (as_char (key e) (modifiers t) =? 0) then
      buffer ← Tty.insert (input_buffer t) (cursor_pos t) (as_char (key e) (modifiers t));
      '(self, fb, k) ← Tty.redraw_line F (sc_write_fb info_bytes) (set_input t buffer (cursor_pos t + 1)) fb (screens pre post d);
      Ret (self, fb, k, false)
    else Ret (t, fb, screens pre post d, false)).
Proof.
  intros Hcon [Hpos Hch] Hc Hed. destruct (as_char (key e) (modifiers t) =? 0) eqn:E0; cbn [negb].
  - pose proof (edited_quiet d fb t D e (modifiers t) Hcon ltac:(by split) Hc Hed) as Hq.
    by replace (set_modifiers t (modifiers t)) with t in Hq by (by destruct t).
  - unfold Tty.insert. rewrite Hpos, Z.leb_refl. cbn [mbind out_bind].
    rewrite take_ge, drop_ge by (unfold len; lia). set (c := as_char (key e) (modifiers t)) in *.
    replace (len (input_buffer t) + 1) with (len (input_buffer t ++ [c])) by (by rewrite len_app).
    apply edited_redraw; try done. apply Forall_app. split; [done|]. apply Forall_singleton. apply as_char_ascii.
Qed.

Lemma enter_ok d fb t D :
  console d fb t D → editing t →
  edited d t D (mkKeyEvent KeyCode.Enter Pressed)
    (Tty.handle_key_event F (sc_write_fb info_bytes) t fb (screens pre post d) (mkKeyEvent KeyCode.Enter Pressed)).
Proof.
  intros Hcon [Hpos Hch]. unfold Tty.handle_key_event. cbn [key pressed]. rewrite bool_decide_true by done. cbn [negb andb].
  destruct (newline_ok d fb t D Hcon) as (t' & fb' & d' & E & Hcon' & Hout & (Hi1 & Hi2 & Hi3) & _).
  pose proof E as E'. rewrite E. cbn [mbind out_bind]. exists t', fb', d', D. split; [done|]. split; [done|]. split; [done|]. split; [done|].
  split; [split; by rewrite ?Hi1, ?Hi2|]. split; [by rewrite Hi1, Hi3|]. left. split; [done|]. split; [|done].
  unfold Tty.newline_and_flush in E'. rewrite (advance_line_ok F i L T C R Hfont Hfits Hroom t (con_tty _ _ _ _ Hcon)) in E'. cbn [mbind out_bind] in E'.
  unfold Tty.flush_unwrap in E'. destruct (Tty.flush_from_line _ _ _ _ _ _) as [[[k1 fb1] [|]]|]; cbn in E'; try done. by injection E' as <- _ _.
Qed.

(** One event *)
Lemma handle_ok d fb t D e :
  console d fb t D → editing t → edited d t D e (Tty.handle_key_event F (sc_write_fb info_bytes) t fb (screens pre post d) e).
Proof.
  intros Hcon He. destruct (decide (e = mkKeyEvent KeyCode.Enter Pressed)) as [->|Hne]; [by apply enter_ok|].
  assert (completes e = false) as Hc by by apply bool_decide_false.
  destruct (decide (key e = KeyCode.Backspace ∧ pressed e = Pressed)) as [[Hk Hp]|Hnb]; [by apply backspace_ok|].
  unfold Tty.handle_key_event. set (down := bool_decide (pressed e = Pressed)).
  assert (negb down && negb (Tty.is_modifier (key e)) = true → edited d t D e (Ret (t, fb, screens pre post d, false))) as Hup.
  { intros Hq. pose proof (edited_quiet d fb t D e (modifiers t) Hcon He Hc) as Hq'. replace (set_modifiers t (modifiers t)) with t in Hq' by (by destruct t).
    apply Hq'. unfold edit. fold down. by rewrite Hq. }
  destruct (negb down && negb (Tty.is_modifier (key e))) eqn:Ed; [by apply Hup|]. clear Hup.
  pose proof (char_ok d fb t D e Hcon He Hc) as Hchar. pose proof (λ m, edited_quiet d fb t D e m Hcon He Hc) as Hquiet.
  unfold edit in Hchar, Hquiet. fold down in Hchar, Hquiet. rewrite Ed in Hchar, Hquiet. destruct e as [k p]. cbn [key pressed] in *.
  destruct k; cbn [Tty.is_modifier] in *; try (apply Hquiet; done); try (apply Hchar; done).
  - destruct p; [done|]. cbn in Ed. done.
  - destruct p; [tauto|]. cbn in Ed. done.
Qed.

Lemma outside_trans d d' d'' fb fb' t t' D D' :
  console d fb t D → console d' fb' t' D' → outside_same d d' → outside_same d' d'' → outside_same d d''.
Proof.
  intros Hc Hc' H1 H2 n Hn Hout. assert (len (raw_buffer (screen d')) = len (raw_buffer (screen d))) as Hl.
  { rewrite (display_buffer _ (con_display _ _ _ _ Hc)), (display_buffer _ (con_display _ _ _ _ Hc')), (con_info _ _ _ _ Hc), (con_info _ _ _ _ Hc'). done. }
  rewrite H2 by (rewrite ?Hl; done). by apply H1.
Qed.

Lemma unchanged_shows t t' D D' : unchanged t t' D D' → shows_line t D → shows_line t' D'.
Proof.
  intros (Hi & Hs & HD) (D0 & n & H1 & H2 & H3). exists D0, n. unfold text_of in *. rewrite Hi, Hs. split; [done|]. split; [done|].
  intros a b. by rewrite HD.
Qed.

(** Many events, the last of which may complete the line *)
Lemma handle_events_ok es e d fb t D :
  console d fb t D → editing t → Forall (λ e, completes e = false) es →
  ∃ t' fb' d' D', Tty.handle_events F (sc_write_fb info_bytes) t fb (screens pre post d) (es ++ [e]) = Ret (t', fb', screens pre post d', completes e) ∧
    console d' fb' t' D' ∧ outside_same d d' ∧ sides_same D D' ∧ editing t' ∧
    (modifiers t', input_buffer t') = foldl edit (modifiers t, input_buffer t) (es ++ [e]) ∧
    (unchanged t t' D D' ∨ (PROMPT_LEN + len (input_buffer t') ≤ C * R → shows_line t' D')).
Proof.
  intros Hcon He Hes. revert d fb t D Hcon He. induction Hes as [|e0 es He0 _ IH]; intros d fb t D Hcon He.
  - cbn [app Tty.handle_events]. destruct (handle_ok d fb t D e Hcon He) as (t' & fb' & d' & D' & -> & Hcon' & Hout & Hside & He' & Hm & Hl).
    cbn [mbind out_bind]. exists t', fb', d', D'. split; [by destruct (completes e)|]. done.
  - cbn [app Tty.handle_events]. destruct (handle_ok d fb t D e0 Hcon He) as (t1 & fb1 & d1 & D1 & -> & Hcon1 & Hout1 & Hside1 & He1 & Hm1 & Hl1).
    cbn [mbind out_bind]. rewrite He0. destruct (IH d1 fb1 t1 D1 Hcon1 He1) as (t' & fb' & d' & D' & E & Hcon' & Hout & Hside & He' & Hm & Hl).
    exists t', fb', d', D'. split; [done|]. split; [done|]. split; [exact (outside_trans d d1 d' fb fb1 t t1 D D1 Hcon Hcon1 Hout1 Hout)|].
    split; [intros a b Ha; by rewrite Hside, Hside1|]. split; [done|].
    split; [cbn [foldl]; by rewrite <- Hm1|]. destruct Hl as [Hu|Hl]; [|by right].
    destruct Hl1 as [Hu1|Hl1].
    + left. destruct Hu as (? & ? & Hd), Hu1 as (? & ? & Hd1). split; [congruence|]. split; [congruence|]. intros a b. by rewrite Hd, Hd1.
    + right. intros Hfit. eapply unchanged_shows; [done|]. apply Hl1. destruct Hu as (<- & _). done.
Qed.

End system.

(** ** Construction *)

Lemma new_tty F i layout :
  font_ok F → cursor_fits F i → plain (pixel_format i) → bytes_per_pixel i = 4 →
  cell_width_px layout = CHAR_WIDTH F → cell_height_px layout = line_height F →
  let L := inner_left_col layout * CHAR_WIDTH F in let T := text_start_row layout * line_height F in
  0 ≤ inner_left_col layout → 0 ≤ text_start_row layout →
  room_ok F i L T (inner_width_cols layout) (inner_height_rows layout) → stride i * 4 * height i < 2 ^ 32 → 0 ≤ stride i →
  ∃ t, Tty.new layout i = Ret t ∧ tty_ok F L T (inner_width_cols layout) (inner_height_rows layout) t ∧ editing t ∧
    info (writer t) = view_info i T ∧ curr_color (writer t) = TEXT_COLOR ∧ input_buffer t = [] ∧ modifiers t = KeyModifiers.new.
Proof.
  intros Hfont Hfits Hf H4 Hcw Hch L T HL0 HT0 Hroom Hsz Hst. pose proof Hroom as [H1 H2 H3 H5 H6 H7].
  pose proof (font_width _ Hfont). pose proof (line_height_pos F Hfont). assert (BORDER_PADDING = 3) as HB by done. destruct Hfits as [Hf1 Hf2].
  set (W := inner_width_cols layout) in *. set (Hr := inner_height_rows layout) in *.
  assert (inner_left_col layout + W ≤ width i / CHAR_WIDTH F) as Hw by (apply Z.div_le_lower_bound; unfold L in *; lia).
  assert (text_start_row layout + Hr ≤ height i / line_height F) as Hh by (apply Z.div_le_lower_bound; unfold T in *; lia).
  assert (0 ≤ W * CHAR_WIDTH F ∧ 0 ≤ Hr * line_height F) as [? ?] by nia.
  unfold Tty.new. rewrite Hcw, Hch. fold W Hr. rewrite !(Z.max_l (CHAR_WIDTH F)), !(Z.max_l (line_height F)) by lia.
  rewrite !(Z.max_l (width i / _)), !(Z.max_l (height i / _)) by lia.
  rewrite !(Z.min_l (inner_left_col layout)), !(Z.min_l (text_start_row layout)) by lia. unfold saturating_sub, saturating_mul16.
  rewrite !(Z.max_r 0) by (rewrite ?Z.min_r; unfold T in *; lia). rewrite !(Z.min_l W), !(Z.min_l Hr), !(Z.max_l W), !(Z.max_l Hr) by lia.
  fold L T. rewrite !(Z.min_r (2 ^ 16 - 1)) by lia. rewrite (Z.max_l (height i - T)) by lia.
  unfold rows_info. rewrite H4, (proj2 (Z.ltb_lt _ _)) by nia. cbn [assert_ mbind out_bind]. unfold FramebufferWriter.new. cbn [pixel_format].
  destruct (Pixel.components_by_format Pixel.WHITE (pixel_format i)) as [c|] eqn:E; [|by destruct (pixel_format i)]. cbn [mbind out_bind].
  eexists. split; [reflexivity|]. split; [split; cbn; try done; lia|]. split; [by split|]. split; [|done].
  unfold view_info. cbn. by rewrite H4.
Qed.

(** C19: typing a line.  From any state of the terminal in which the cursor is at the end of the line, key events up to the
    return key give the line that appending and erasing characters gives, with shift and caps lock taken into account,
    and never panic.  If an event has changed the line, the terminal shows the prompt, the line, and spaces up to the end
    of its last row, from the row on where it started and on to the top, as long as the grid has room for it; the rows
    of the terminal in the frame buffer of the program are those on the screen of the kernel, and the screen outside of
    these rows and beside the cells is untouched. *)
Theorem terminal_line F info_bytes pre post i L T C R d fb t D es :
  font_ok F → cursor_fits F i → room_ok F i L T C R → Forall (λ f, df_path f ≠ FB_FILE) pre →
  console F i L T C R d fb t D → editing t → Forall (λ e, completes e = false) es →
  ∃ t' fb' d' D',
    Tty.handle_events F (sc_write_fb info_bytes) t fb (screens pre post d) (es ++ [mkKeyEvent KeyCode.Enter Pressed]) = Ret (t', fb', screens pre post d', true) ∧
    (Tty.drain_input_line t').2 = (foldl edit (modifiers t, input_buffer t) es).2 ∧
    console F i L T C R d' fb' t' D' ∧ outside_same F i T R d d' ∧ sides_same F L C D D' ∧
    (unchanged t t' D D' ∨ (PROMPT_LEN + len (input_buffer t') ≤ C * R → shows_line F i L T C R t' D')).
Proof.
  intros Hfont Hfits Hroom Hpre Hcon He Hes.
  destruct (handle_events_ok F info_bytes pre post i L T C R Hfont Hfits Hroom Hpre es (mkKeyEvent KeyCode.Enter Pressed) d fb t D Hcon He Hes)
    as (t' & fb' & d' & D' & E & Hcon' & Hout & Hside & _ & Hm & Hl).
  exists t', fb', d', D'. split; [exact E|]. split; [|done]. cbn [Tty.drain_input_line snd]. rewrite foldl_app in Hm. cbn [foldl] in Hm.
  destruct (foldl edit (modifiers t, input_buffer t) es) as [m l]. by injection Hm as _ ->.
Qed.

(** A screen of thirty by thirty pixels with a terminal of ten by five cells *)
Definition demo_info : Info := mkInfo 3600 30 30 Rgb 30 4.
Definition demo_screen : Display := mkDisplay (mkScreen (replicate 900 0) demo_info) false None.
Definition demo_fb : FrameBuffer := mkFrameBuffer demo_info (mkFile 0) (replicate 3600 0).
Definition demo_tty : Tty :=
  mkTty (mkWriter (view_info demo_info 4) 3 3 TEXT_COLOR) 2 4 10 5 2 4 0 0 0 0 [] 0 KeyModifiers.new.

Lemma demo_font_ok : font_ok small_font.
Proof.
  split; [done | done | | done]. intros c r. cbn [get_raster small_font]. destruct ((c =? 63) || (c =? 65)) eqn:E; [|done].
  intros [= <-]. split; [done|]. repeat constructor; lia.
Qed.

Lemma demo_console : console small_font demo_info 2 4 10 5 demo_screen demo_fb demo_tty (λ _ _, 0).
Proof.
  assert (words (internal_fb demo_fb) = replicate 900 0) as E by by vm_compute.
  assert (∀ k m, byte_at (replicate k 0) m = 0) as Hz.
  { intros k m. unfold byte_at. rewrite nth_lookup. destruct (replicate k 0 !! Z.to_nat m) as [v|] eqn:Em; [|done]. by apply lookup_replicate in Em as [-> _]. }
  split.
  - split; by vm_compute.
  - done.
  - split; [done | by vm_compute |]. apply Forall_replicate. unfold is_uint. lia.
  - split; by vm_compute.
  - rewrite E. assert (sub_list (replicate 900 0) (4 * stride demo_info) (height demo_info * stride demo_info) = replicate 780 0) as -> by by vm_compute.
    split; try (by vm_compute). intros n Hn. apply Hz.
  - intros a b. unfold is_uint. lia.
  - intros n Hn. rewrite E. cbn [demo_screen screen raw_buffer]. rewrite !Hz. done.
Qed.

Lemma terminal_line_witness :
  ∃ t' fb' d' D',
    Tty.handle_events small_font (sc_write_fb (λ _, [])) demo_tty demo_fb (screens [] [] demo_screen)
      ([mkKeyEvent KeyCode.ShiftLeft Pressed; mkKeyEvent KeyCode.A Pressed; mkKeyEvent KeyCode.ShiftLeft Released; mkKeyEvent KeyCode.X Pressed;
        mkKeyEvent KeyCode.Backspace Pressed; mkKeyEvent KeyCode.B Pressed; mkKeyEvent KeyCode.B Released] ++ [mkKeyEvent KeyCode.Enter Pressed])
      = Ret (t', fb', screens [] [] d', true) ∧
    (Tty.drain_input_line t').2 = [65; 98] ∧ console small_font demo_info 2 4 10 5 d' fb' t' D'.
Proof.
  destruct (terminal_line small_font (λ _, []) [] [] demo_info 2 4 10 5 demo_screen demo_fb demo_tty (λ _ _, 0)
    [mkKeyEvent KeyCode.ShiftLeft Pressed; mkKeyEvent KeyCode.A Pressed; mkKeyEvent KeyCode.ShiftLeft Released; mkKeyEvent KeyCode.X Pressed;
     mkKeyEvent KeyCode.Backspace Pressed; mkKeyEvent KeyCode.B Pressed; mkKeyEvent KeyCode.B Released]) as (t' & fb' & d' & D' & E & Hl & Hcon & _).
  - exact demo_font_ok.
  - split; by vm_compute.
  - split; by vm_compute.
  - done.
  - exact demo_console.
  - by split.
  - repeat constructor.
  - exists t', fb', d', D'. split; [exact E|]. split; [|exact Hcon]. rewrite Hl. by vm_compute.
Defined.
