(* ===== verification/Shell.v ===== *)
(** * The shell

    [userspace/bashkar/src/video/ui.rs]: the picture around the terminal and its layout;
    [userspace/bashkar/src/commands.rs]: the commands; [userspace/bashkar/src/main.rs]: the loop over the key events. *)

From Stdlib Require Import Strings.String Strings.Ascii.
From S2P Require Import Prelude NetUtils Keyboard Vfs DevFs UserIo Video Screen Cells AsciiUi Tty.

(** The characters of a literal *)
Definition txt (s : string) : list Z := (λ c, Z.of_N (N_of_ascii c)) <$> list_ascii_of_string s.

(** ** The picture *)

Definition PRIMARY_GREEN : PixelComponents := PixelComponents.GREEN.
Definition SHADOW_GREEN : PixelComponents := mkComponents 0 0xAA 0.
Definition BACKGROUND_COLOR : PixelComponents := PixelComponents.BLACK.

Definition clamp_str (s : list Z) (max_cols : Z) : list Z := take (Z.to_nat max_cols) s.

Definition DS_ART : list (list Z) :=
  [txt " ,_~" ++ [34; 34; 34] ++ txt "~-, "; txt " .'(_)------`,"; txt " |===========|"; txt " `,---------,'"; txt "   ~-.___.-~  "].
Definition DS_ART_WIDTH : Z := 14.
Definition DS_ART_HEIGHT : Z := 5.

Definition header_text : list Z := txt "[ TERMINAL ]".
Definition status_text : list Z := txt "DS-1 ORBITAL BATTLE STATION // IMPERIAL NETWORK".
Definition status2_text : list Z := txt "IMPERIAL ACCESS CHANNEL // LEVEL 3 CLEARANCE".

(** The rows before the console: whether the picture is drawn, the row of the second status, the top of the console.
    The sums are of constants; those with [rows] or [cols] are checked. *)
Definition art_start : Z := 1 + 4.
Definition has_art (cols rows : Z) : bool := (art_start + DS_ART_HEIGHT <? rows) && (DS_ART_WIDTH <=? cols).
Definition status_row (cols rows : Z) : Z := (if has_art cols rows then art_start + DS_ART_HEIGHT else art_start) + 1.

Definition console_top (cols rows : Z) : Z :=
  let header_row := 1 in
  let min_console_inner := 3 in
  let console_top := status_row cols rows + 2 in
  if rows <? console_top + (min_console_inner + 2) then
    let console_top := saturating_sub rows (min_console_inner + 2) in
    if console_top <=? header_row + 2 then header_row + 3 else console_top
  else console_top.

Definition console_rect (cols rows : Z) : out CharRect :=
  let top := console_top cols rows in
  let margin := if 10 <=? cols then 2 else 1 in
  let panel_w := saturating_sub cols (margin * 2) in
  below ← add_w 16 top margin;
  Ret (mkRect margin top panel_w (saturating_sub rows below)).

Definition can_box (rect : CharRect) : bool := (4 <=? rect_width rect) && (3 <=? rect_height rect).

Definition layout_of (cell_width cell_height : Z) (inner : CharRect) : UiLayout :=
  let inner_h := if rect_height inner =? 0 then 1 else rect_height inner in
  let inner_w := if rect_width inner =? 0 then 1 else rect_width inner in
  mkLayout (rect_y inner) (rect_x inner) inner_w inner_h cell_width cell_height.

Section ui.
Context (F : Font).

Definition draw_death_star (canvas : AsciiCanvas) (start_row : Z) : out AsciiCanvas :=
  for_enum (λ canvas i line, AsciiCanvas.write_line_centered F canvas (start_row + Z.of_nat i) line) 0 canvas DS_ART.

(** What is drawn on the canvas, and the layout of the terminal *)
Definition draw_canvas (canvas : AsciiCanvas) : out (AsciiCanvas * UiLayout) :=
  canvas ← AsciiCanvas.clear canvas BACKGROUND_COLOR;
  let canvas := AsciiCanvas.set_color canvas PRIMARY_GREEN in
  let cols := cols canvas in
  let rows := rows canvas in
  let header_row := 1 in
  canvas ← AsciiCanvas.write_line_centered F canvas header_row (clamp_str header_text cols);
  let canvas := AsciiCanvas.set_color canvas SHADOW_GREEN in
  canvas ← (if header_row + 1 <? rows
            then AsciiCanvas.write_line_centered F canvas (header_row + 1) (clamp_str status_text cols) else Ret canvas);
  let canvas := AsciiCanvas.set_color canvas PRIMARY_GREEN in
  canvas ← (if header_row + 2 <? rows then AsciiCanvas.h_rule F canvas (header_row + 2) 61 else Ret canvas);
  canvas ← (if has_art cols rows then draw_death_star canvas art_start else Ret canvas);
  let canvas := AsciiCanvas.set_color canvas SHADOW_GREEN in
  canvas ← (if status_row cols rows <? saturating_sub rows 3
            then AsciiCanvas.write_line_centered F canvas (status_row cols rows) (clamp_str status2_text cols) else Ret canvas);
  let canvas := AsciiCanvas.set_color canvas PRIMARY_GREEN in
  rect ← console_rect cols rows;
  canvas ← (if can_box rect then AsciiCanvas.stroke_box F canvas rect BoxStyle.classic else Ret canvas);
  inner ← (if can_box rect then CharRect.inset rect 1 else Ret rect);
  Ret (canvas, layout_of (cell_w canvas) (cell_h canvas) inner).

Context {K : Type} (sc_write : list Z → Z → K → out (K * Z)).

(** The layout is that of the first call. An error of [flush_all] is printed and the program goes on. *)
Definition draw (fb : FrameBuffer) (k : K) : out (K * FrameBuffer * UiLayout) :=
  let view := FrameBuffer.view fb in
  pixels ← FrameView.pixels_mut view;
  canvas ← AsciiCanvas.new F (fb_info fb) pixels (mkTheme PRIMARY_GREEN BACKGROUND_COLOR);
  '(canvas, layout) ← draw_canvas canvas;
  let fb := FrameBuffer.write_back fb 0 (FrameView.set_pixels view (cv_buffer canvas)) in
  '(k, fb, _) ← FrameBuffer.flush_all sc_write fb k;
  Ret (k, fb, layout).

(** [video::init], on an open frame buffer *)
Definition init (fb : FrameBuffer) (k : K) : out (Tty * FrameBuffer * K) :=
  '(k, fb, layout) ← draw fb k;
  tty ← Tty.new layout (fb_info fb);
  Tty.display_prompt F sc_write tty fb k.

End ui.

(** ** Commands *)

(** [char::is_whitespace] *)
Definition is_whitespace (c : Z) : bool :=
  ((9 <=? c) && (c <=? 13)) || (c =? 32) || (c =? 0x85) || (c =? 0xA0) || (c =? 0x1680) ||
  ((0x2000 <=? c) && (c <=? 0x200A)) || (c =? 0x2028) || (c =? 0x2029) || (c =? 0x202F) || (c =? 0x205F) || (c =? 0x3000).

(** [str::split_whitespace]: the words between white space, none of them empty; [word] is the one begun *)
Fixpoint split_from (word : list Z) (line : list Z) : list (list Z) :=
  match line with
  | [] => if (len word =? 0) then [] else [word]
  | c :: line =>
      if is_whitespace c then (if len word =? 0 then [] else [word]) ++ split_from [] line
      else split_from (word ++ [c]) line
  end.
Definition split_whitespace (line : list Z) : list (list Z) := split_from [] line.

Definition parse_command_line (line : list Z) : list Z * list (list Z) :=
  match split_whitespace line with
  | [] => ([], [])
  | command :: args => (command, args)
  end.

(** [args.join(" ")] *)
Fixpoint join (args : list (list Z)) : list Z :=
  match args with
  | [] => []
  | [a] => a
  | a :: args => a ++ 32 :: join args
  end.

(** [str::parse::<usize>]: decimal digits, with a sign [+] or none *)
Fixpoint digits (n : Z) (s : list Z) : option Z :=
  match s with
  | [] => Some n
  | c :: s => if (48 <=? c) && (c <=? 57) then
                let n := n * 10 + (c - 48) in if n <? 2 ^ 64 then digits n s else None
              else None
  end.
Definition parse_usize (s : list Z) : option Z :=
  match s with
  | [] => None
  | c :: s' => if c =? 43 then match s' with [] => None | _ => digits 0 s' end else digits 0 s
  end.

(** [{byte:02X} ] *)
Definition hex_digit (n : Z) : Z := if n <? 10 then 48 + n else 55 + n.
Definition hex_byte (byte : Z) : list Z := [hex_digit (byte / 16); hex_digit (byte mod 16); 32].

Definition help_text : list Z :=
  txt "BeskarOS Shell - Available commands:" ++ [10] ++
  txt "  clear       - Clear the terminal screen" ++ [10] ++
  txt "  echo [text] - Echo arguments to the console" ++ [10] ++
  txt "  exit        - Exit the shell" ++ [10] ++
  txt "  help        - Display this help text" ++ [10] ++
  txt "  rand [n]    - Generate random bytes" ++ [10].

(** What a command ends with: a result, or the end of the program *)
Inductive Outcome := Done (res : result unit (list Z)) | Exit.

(** [{e:?}] of an [IoError], whose text is derived *)
Definition kind_name (e : IoErrorKind) : list Z :=
  match e with
  | NotFound => txt "NotFound"
  | PermissionDenied => txt "PermissionDenied"
  | InvalidData => txt "InvalidData"
  | UnexpectedEof => txt "UnexpectedEof"
  | Other => txt "Other"
  end.
Definition debug (e : IoErrorKind) : list Z := txt "IoError { kind: " ++ kind_name e ++ txt " }".

(** The system calls on files, with the handle that [open] gives *)
Record FileCalls (K : Type) := mkFileCalls {
  sc_open : list Z → K → out (K * Z);
  sc_read : Z → list Z → Z → K → out (K * (list Z * Z));
  sc_close : Z → K → out K;
}.
Arguments sc_open {K}. Arguments sc_read {K}. Arguments sc_close {K}.

Definition RAND_FILE : list Z := txt "/dev/rand".

(** [close] takes the file, which is then dropped: the handle is closed twice, but once where the read fails. *)
Definition rand_fill {K} (calls : FileCalls K) (buf : list Z) (k : K) : out (K * list Z * result unit IoErrorKind) :=
  '(k, handle) ← sc_open calls RAND_FILE k;
  if handle <? 0 then Ret (k, buf, Err Other)
  else
    '((_, k), buf, res) ← @read_exact _ (file_reader (sc_read calls handle)) (mkFile 0, k) buf;
    match res with
    | Err _ => k ← sc_close calls handle k; Ret (k, buf, Err UnexpectedEof)
    | Ok _ => k ← sc_close calls handle k; k ← sc_close calls handle k; Ret (k, buf, Ok tt)
    end.

Section commands.
Context (F : Font) {K : Type} (sc_write : list Z → Z → K → out (K * Z)).
Context (calls : FileCalls K).
Implicit Types (tty : Tty) (fb : FrameBuffer) (k : K).

Definition cmd_help tty fb k : out (Tty * FrameBuffer * K) := Tty.write_str F sc_write tty fb k help_text.
Definition cmd_clear tty fb k : out (Tty * FrameBuffer * K) := Tty.clear_screen F sc_write tty fb k.

Definition cmd_echo (args : list (list Z)) tty fb k : out (Tty * FrameBuffer * K) :=
  '(tty, fb, k) ← (if len args =? 0 then Ret (tty, fb, k) else Tty.write_str F sc_write tty fb k (join args));
  Tty.write_str F sc_write tty fb k [10].

Definition DEFAULT_NUM_BYTES : Z := 16.
Definition MAX_NUM_BYTES : Z := 1024.

Definition cmd_rand (args : list (list Z)) tty fb k : out (Tty * FrameBuffer * K * result unit (list Z)) :=
  match match args with [] => Some DEFAULT_NUM_BYTES | x :: _ => parse_usize x end with
  | None => Ret (tty, fb, k, Err (txt "Invalid number of bytes"))
  | Some num_bytes =>
      if (num_bytes =? 0) || (MAX_NUM_BYTES <? num_bytes)
      then Ret (tty, fb, k, Err (txt "Number of bytes must be between 1 and 1024"))
      else
        '(k, buffer, res) ← rand_fill calls (replicate (Z.to_nat num_bytes) 0) k;
        match res with
        | Err e => Ret (tty, fb, k, Err (txt "Random generation failed: " ++ debug e))
        | Ok _ =>
            '(tty, fb, k) ← Tty.write_str F sc_write tty fb k (txt "Random Bytes: ");
            '(tty, fb, k) ← Tty.write_str F sc_write tty fb k (buffer ≫= hex_byte);
            '(tty, fb, k) ← Tty.write_str F sc_write tty fb k [10];
            Ret (tty, fb, k, Ok tt)
        end
  end.

Definition execute_command (command : list Z) (args : list (list Z)) tty fb k : out (Tty * FrameBuffer * K * Outcome) :=
  if bool_decide (command = []) then Ret (tty, fb, k, Done (Ok tt))
  else if bool_decide (command = txt "help") then '(tty, fb, k) ← cmd_help tty fb k; Ret (tty, fb, k, Done (Ok tt))
  else if bool_decide (command = txt "echo") then '(tty, fb, k) ← cmd_echo args tty fb k; Ret (tty, fb, k, Done (Ok tt))
  else if bool_decide (command = txt "clear") then '(tty, fb, k) ← cmd_clear tty fb k; Ret (tty, fb, k, Done (Ok tt))
  else if bool_decide (command = txt "exit") then Ret (tty, fb, k, Exit)
  else if bool_decide (command = txt "rand") then '(tty, fb, k, res) ← cmd_rand args tty fb k; Ret (tty, fb, k, Done res)
  else Ret (tty, fb, k, Done (Err (txt "Unknown command: " ++ command))).

(** ** The loop *)

(** A round with an event: true if the program goes on *)
Definition on_event (event : KeyEvent) tty fb k : out (Tty * FrameBuffer * K * bool) :=
  '(tty, fb, k, line_complete) ← Tty.handle_key_event F sc_write tty fb k event;
  if line_complete : bool then
    let '(tty, line) := Tty.drain_input_line tty in
    let '(command, args) := parse_command_line line in
    '(tty, fb, k, outcome) ← execute_command command args tty fb k;
    match outcome with
    | Exit => Ret (tty, fb, k, false)
    | Done res =>
        '(tty, fb, k) ← match res with
                        | Ok _ => Ret (tty, fb, k)
                        | Err err_msg => Tty.write_str F sc_write tty fb k (txt "Error: " ++ err_msg ++ [10])
                        end;
        let tty := Tty.reset_input tty in
        '(tty, fb, k) ← Tty.display_prompt F sc_write tty fb k;
        Ret (tty, fb, k, true)
    end
  else Ret (tty, fb, k, true).

End commands.

(** The rounds of some events, each with the answers that the kernel gives then; rounds without an event wait. *)
Fixpoint run (F : Font) {K} (sc_write : list Z → Z → K → out (K * Z)) (events : list (KeyEvent * FileCalls K))
    (tty : Tty) (fb : FrameBuffer) (k : K) : out (Tty * FrameBuffer * K * bool) :=
  match events with
  | [] => Ret (tty, fb, k, true)
  | (event, calls) :: events =>
      '(tty, fb, k, on) ← on_event F sc_write calls event tty fb k;
      if on : bool then run F sc_write events tty fb k else Ret (tty, fb, k, false)
  end.

(** ** The picture is drawn *)

(** A screen of at least ten by nine characters has a box for the console, with a row or more in it. *)
Lemma console_top_ok cols rows : 9 ≤ rows → 4 ≤ console_top cols rows ≤ rows - 5.
Proof.
  intros Hr. unfold console_top, status_row, saturating_sub. change art_start with 5. change DS_ART_HEIGHT with 5. cbv zeta.
  destruct (has_art cols rows), (Z.ltb_spec rows (5 + 5 + 1 + 2 + (3 + 2))), (Z.ltb_spec rows (5 + 1 + 2 + (3 + 2))); try lia;
    destruct (Z.leb_spec (Z.max 0 (rows - (3 + 2))) (1 + 2)); lia.
Qed.

Lemma console_rect_ok cols rows :
  10 ≤ cols → 9 ≤ rows < 2 ^ 16 →
  console_rect cols rows = Ret (mkRect 2 (console_top cols rows) (cols - 4) (rows - console_top cols rows - 2)).
Proof.
  intros Hc Hr. pose proof (console_top_ok cols rows ltac:(lia)). unfold console_rect, saturating_sub. cbv zeta.
  rewrite (proj2 (Z.leb_le 10 cols)), add_w_ok by lia. cbn [mbind out_bind]. do 2 f_equal; lia.
Qed.

Lemma no_line_feeds s : Forall (λ c, c ≠ 10) s → line_feeds s = 0%nat.
Proof. unfold line_feeds. induction 1 as [|c s Hc _ IH]; [done|]. by rewrite filter_cons_False. Qed.

Lemma clamp_no_feeds s n : Forall (λ c, c ≠ 10) s → line_feeds (clamp_str s n) = 0%nat.
Proof. intros. by apply no_line_feeds, Forall_take. Qed.

Lemma texts_no_feeds : Forall (λ c, c ≠ 10) header_text ∧ Forall (λ c, c ≠ 10) status_text ∧ Forall (λ c, c ≠ 10) status2_text ∧
  Forall (λ l, line_feeds l = 0%nat) DS_ART.
Proof. split_and!; apply (bool_decide_unpack _); by vm_compute. Qed.

Section picture.
Context (F : Font) (i : Info) (size : Z).
Context (Hfont : font_ok F) (Hscreen : screen_ok F i size) (Hfits : cursor_fits F i).
Context (Hwide : 2 ≤ CHAR_WIDTH F) (Hcols : 10 ≤ width i / CHAR_WIDTH F) (Hrows : 9 ≤ height i / line_height F).

Lemma picture_bounds :
  width i / CHAR_WIDTH F * CHAR_WIDTH F ≤ width i ∧ height i / line_height F * line_height F ≤ height i ∧
  height i / line_height F < 2 ^ 16 ∧ 3 ≤ line_height F.
Proof.
  pose proof (font_height _ Hfont). assert (line_height F = CHAR_HEIGHT F + 2) as Hlh by done. destruct Hfits as [_ Hf].
  assert (BORDER_PADDING = 3) as HB by done. pose proof (Z.mul_div_le (width i) (CHAR_WIDTH F) ltac:(lia)).
  pose proof (Z.mul_div_le (height i) (line_height F) ltac:(lia)).
  split_and!; lia.
Qed.

Definition top : Z := console_top (width i / CHAR_WIDTH F) (height i / line_height F).
Definition box : CharRect := mkRect 2 top (width i / CHAR_WIDTH F - 4) (height i / line_height F - top - 2).

Lemma box_inner : rect_inner F i box.
Proof.
  destruct picture_bounds as (Hw & Hh & _ & Hl). assert (BORDER_PADDING = 3) as HB by done.
  pose proof (console_top_ok (width i / CHAR_WIDTH F) _ Hrows) as Ht. fold top in Ht. split; [cbn; lia|]. split; [cbn; lia|].
  unfold box, inner. cbn [rect_x rect_y rect_width rect_height]. split_and!; nia.
Qed.

(** The layout that is drawn *)
Definition shell_layout : UiLayout :=
  mkLayout (top + 1) 3 (width i / CHAR_WIDTH F - 6) (height i / line_height F - top - 4) (CHAR_WIDTH F) (line_height F).

Lemma shell_room : room_ok F i (3 * CHAR_WIDTH F) ((top + 1) * line_height F) (inner_width_cols shell_layout) (inner_height_rows shell_layout).
Proof.
  destruct picture_bounds as (Hw & Hh & _ & Hl). assert (BORDER_PADDING = 3) as HB by done.
  pose proof (console_top_ok (width i / CHAR_WIDTH F) _ Hrows) as Ht. fold top in Ht.
  split; cbn [shell_layout inner_width_cols inner_height_rows]; nia.
Qed.

Lemma death_star_total color self row :
  is_color color → some_canvas F i size color self → 0 ≤ row →
  ∃ self', draw_death_star F self row = Ret self' ∧ some_canvas F i size color self'.
Proof.
  intros Hcolor. destruct texts_no_feeds as (_ & _ & _ & Hart). unfold draw_death_star. generalize 0%nat. revert self.
  induction Hart as [|l ls Hl _ IH]; intros self n Hs Hr; [by exists self|]. cbn [for_enum].
  destruct (write_centered_total F i size Hfont Hscreen Hfits color self (row + Z.of_nat n) l Hcolor Hs ltac:(lia) Hl) as (s1 & -> & Hs1).
  cbn [mbind out_bind]. by apply IH.
Qed.

Lemma colors_ok : is_color PRIMARY_GREEN ∧ is_color SHADOW_GREEN.
Proof. repeat split; cbn; lia. Qed.

(** A line that is drawn where there is room for it *)
Lemma clamped_total c s row (b : bool) text :
  is_color c → some_canvas F i size c s → 0 ≤ row → Forall (λ c, c ≠ 10) text →
  ∃ s', (if b then AsciiCanvas.write_line_centered F s row (clamp_str text (width i / CHAR_WIDTH F)) else Ret s) = Ret s' ∧ some_canvas F i size c s'.
Proof.
  intros Hc Hs Hr Ht. destruct b; [|by exists s]. apply (write_centered_total F i size Hfont Hscreen Hfits c); try done. by apply clamp_no_feeds.
Qed.

(** Everything is drawn, and the layout is the inside of the box. *)
Lemma draw_canvas_ok self :
  some_canvas F i size PRIMARY_GREEN self → cv_pixel_format self = pixel_format i →
  ∃ self', draw_canvas F self = Ret (self', shell_layout) ∧ some_canvas F i size PRIMARY_GREEN self'.
Proof.
  intros Hs Hf. destruct colors_ok as [Hp Hg]. destruct texts_no_feeds as (T1 & T2 & T3 & _). destruct picture_bounds as (_ & _ & H16 & Hl).
  unfold draw_canvas. destruct (clear_total F i size Hscreen PRIMARY_GREEN BACKGROUND_COLOR self ltac:(repeat split; cbn; lia) Hf Hs) as (s0 & -> & Hs0).
  cbn [mbind out_bind]. cbv zeta. apply (set_color_total F i size _ PRIMARY_GREEN) in Hs0. set (s0' := AsciiCanvas.set_color s0 _) in *.
  assert (cols s0' = width i / CHAR_WIDTH F ∧ rows s0' = height i / line_height F) as [-> ->] by (by destruct Hs0 as (? & [] & _)).
  destruct (clamped_total _ s0' 1 true _ Hp Hs0 ltac:(lia) T1) as (s1 & -> & Hs1). cbn [mbind out_bind].
  apply (set_color_total F i size _ SHADOW_GREEN) in Hs1.
  destruct (clamped_total _ _ (1 + 1) (1 + 1 <? height i / line_height F) _ Hg Hs1 ltac:(lia) T2) as (s2 & -> & Hs2). cbn [mbind out_bind].
  apply (set_color_total F i size _ PRIMARY_GREEN) in Hs2. rewrite (proj2 (Z.ltb_lt (1 + 2) _)) by lia.
  destruct (h_rule_total F i size Hfont Hscreen Hfits _ _ (1 + 2) 61 Hp Hs2 ltac:(lia) ltac:(lia) ltac:(done)) as (s3 & -> & Hs3). cbn [mbind out_bind].
  assert (∃ s4, (if has_art (width i / CHAR_WIDTH F) (height i / line_height F) then draw_death_star F s3 art_start else Ret s3) = Ret s4 ∧
    some_canvas F i size PRIMARY_GREEN s4) as (s4 & -> & Hs4) by (destruct (has_art _ _); [by apply death_star_total | by exists s3]).
  cbn [mbind out_bind]. apply (set_color_total F i size _ SHADOW_GREEN) in Hs4.
  assert (0 ≤ status_row (width i / CHAR_WIDTH F) (height i / line_height F)) as Hst by (unfold status_row; by destruct (has_art _ _)).
  destruct (clamped_total _ _ _ (status_row (width i / CHAR_WIDTH F) (height i / line_height F) <? saturating_sub (height i / line_height F) 3) _ Hg Hs4 Hst T3) as (s5 & -> & Hs5). cbn [mbind out_bind].
  apply (set_color_total F i size _ PRIMARY_GREEN) in Hs5. set (s5' := AsciiCanvas.set_color s5 _) in *.
  rewrite console_rect_ok by lia. fold top box. cbn [mbind out_bind].
  pose proof (console_top_ok (width i / CHAR_WIDTH F) _ Hrows) as Ht. fold top in Ht.
  assert (can_box box = true) as -> by (unfold can_box, box; cbn [rect_width rect_height]; rewrite andb_true_iff, !Z.leb_le; lia).
  destruct Hs5 as (d5 & Hs5 & Hd5). assert (style_ok BoxStyle.classic) as Hstyle by (repeat split; try done; repeat constructor; done).
  destruct (stroke_box_spec F i PRIMARY_GREEN size Hfont Hscreen Hp Hfits d5 s5' box BoxStyle.classic Hs5 Hstyle box_inner) as (s6 & -> & Hs6);
    [cbn; lia | cbn; lia |].
  cbn [mbind out_bind]. destruct (inset_1 F i box Hfont Hfits box_inner) as [-> _]; [cbn; lia | cbn; lia |]. cbn [mbind out_bind].
  exists s6. split; [|eexists; split; [exact Hs6 | intros; by apply overlay_word]]. destruct Hs6 as [_ _ _ -> ->]. unfold layout_of, shell_layout, box. cbn [rect_x rect_y rect_width rect_height].
  rewrite !(proj2 (Z.eqb_neq _ 0)) by lia. do 3 f_equal; lia.
Qed.

End picture.

(** ** The start of the shell *)

Lemma words_word l : bytes l → Forall (is_uint 32) (words l).
Proof.
  induction l as [| | | |a b c e l IH] using list_by_4; intros Hl; try apply Forall_nil_2. unfold bytes in *. decompose_Forall_hyps.
  cbn [words]. constructor; [|by apply IH]. unfold is_uint in *. cbn. lia.
Qed.

(** The image in some pixels *)
Definition image_of (i : Info) (px : list Z) (a b : Z) : Z := byte_at px (b * stride i + a).

Lemma image_shows i w px : info w = i → 0 < stride i → shows i (curr_color w) (len px) (mkPage (x w) (y w) (image_of i px)) w px.
Proof.
  intros Hi Hs. split; try done. intros n Hn. cbn [dot]. unfold image_of. f_equal. pose proof (Z.div_mod n (stride i) ltac:(lia)). lia.
Qed.

Lemma image_word i px a b : Forall (is_uint 32) px → is_uint 32 (image_of i px a b).
Proof.
  intros Hp. unfold image_of, byte_at. rewrite nth_lookup. destruct (_ !! _) as [v|] eqn:E; [|unfold is_uint; cbn; lia].
  by apply (Forall_lookup_1 _ _ _ _ Hp) in E.
Qed.

Section start.
Context (F : Font) (info_bytes : Info → list Z) (pre post : DeviceFS Display) (i : Info).
Context (Hfont : font_ok F) (Hfits : cursor_fits F i) (Hpre : Forall (λ f, df_path f ≠ FB_FILE) pre).
Context (Hwide : 2 ≤ CHAR_WIDTH F) (Hcols : 10 ≤ width i / CHAR_WIDTH F) (Hrows : 9 ≤ height i / line_height F).

Lemma whole_screen_ok d : display_ok d → s_info (screen d) = i → screen_ok F i (height i * stride i).
Proof.
  intros Hd Hi. destruct (picture_bounds F i Hfont Hfits Hwide Hrows) as (Hw & Hh & _ & Hl). pose proof (font_height _ Hfont).
  pose proof (display_format _ Hd) as Hf. pose proof (display_width _ Hd) as Hs. rewrite Hi in Hf, Hs.
  assert (BORDER_PADDING = 3) as HB by done. assert (line_height F = CHAR_HEIGHT F + 2) as Hlh by done. split; try done; nia.
Qed.

(** After [draw] the screen shows the whole frame buffer. *)
Lemma draw_ok d fb :
  display_ok d → s_info (screen d) = i → frame_ok d fb →
  ∃ d' fb', draw F (sc_write_fb info_bytes) fb (screens pre post d) = Ret (screens pre post d', fb', shell_layout F i) ∧
    display_ok d' ∧ s_info (screen d') = i ∧ frame_ok d' fb' ∧ Forall (is_uint 32) (words (internal_fb fb')) ∧
    ∀ n, 0 ≤ n < height i * stride i → byte_at (raw_buffer (screen d')) n = shown (pixel_format i) (byte_at (words (internal_fb fb')) n).
Proof.
  intros Hd Hi Hfb. pose proof (whole_screen_ok d Hd Hi) as Hscreen. pose proof (frame_words_len i d fb Hd Hi Hfb) as Hlen.
  assert (0 < stride i) as Hst by (pose proof (screen_width _ _ _ Hscreen); pose proof (font_width _ Hfont); unfold BORDER_PADDING in *; lia).
  pose proof (frame_info _ _ Hfb) as Hfi. rewrite Hi in Hfi.
  assert (FrameView.pixels_mut (FrameBuffer.view fb) = Ret (words (internal_fb fb))) as Hpx.
  { unfold FrameView.pixels_mut, FrameBuffer.view. cbn [v_bytes]. rewrite (frame_size _ _ Hfb), (display_size _ Hd), Z.mul_comm, Z.mod_mul by lia. done. }
  unfold draw. rewrite Hpx, Hfi. cbn [mbind out_bind].
  pose proof (image_shows i (mkWriter i 0 0 PRIMARY_GREEN) (words (internal_fb fb)) eq_refl Hst) as Hsh. rewrite Hlen in Hsh.
  destruct (new_canvas F i _ Hfont Hscreen _ _ _ (mkTheme PRIMARY_GREEN BACKGROUND_COLOR) Hsh) as (c0 & -> & Hc0 & Hf0); [apply colors_ok|].
  cbn [mbind out_bind foreground] in *. assert (Forall (is_uint 32) (words (internal_fb fb))) as Hw0 by apply words_word, Hfb.
  destruct (draw_canvas_ok F i _ Hfont Hscreen Hfits Hwide Hcols Hrows c0) as (c1 & -> & D1 & Hc1 & HD1).
  { eexists. split; [exact Hc0|]. intros. by apply image_word. } { done. }
  cbn [mbind out_bind]. destruct Hc1 as [Hh1 _ _ _ _]. pose proof (shows_size _ _ _ _ _ _ Hh1) as Hl1.
  assert (Forall (is_uint 32) (cv_buffer c1)) as Hp1 by (eapply shows_words; [exact Hh1 | exact HD1]).
  pose proof (display_height _ Hd) as Hh. rewrite Hi in Hh.
  destruct (write_back_ok d fb 0 (FrameBuffer.view fb) (cv_buffer c1) Hd Hfb) as [Hfb1 Ew]; [rewrite Hi; lia | rewrite Hi; lia | done |].
  set (fb1 := FrameBuffer.write_back _ _ _) in *. unfold FrameBuffer.flush_all. pose proof (frame_info _ _ Hfb1) as Hfi1. rewrite Hi in Hfi1. rewrite Hfi1.
  destruct (flush_rows_ok info_bytes pre post Hpre d fb1 0 (height i) Hd Hfb1 ltac:(lia)) as [file ->]. cbn [mbind out_bind].
  destruct (flushed_ok i d fb1 0 (height i) Hd Hfb1 Hi ltac:(lia)) as (Hd2 & Hi2 & Hfb2 & _).
  do 2 eexists. split; [reflexivity|]. split; [done|]. split; [done|]. split; [by destruct Hfb2; rewrite <- Hfi1; split|]. cbn [internal_fb]. split; [by apply words_word, Hfb1|].
  intros n Hn. rewrite flushed_at by (try done; rewrite ?(display_buffer _ Hd), ?Hi; lia). rewrite Hi, Z.min_l, Z.min_id by lia.
  by rewrite (proj2 (Z.leb_le _ n)), (proj2 (Z.ltb_lt n _)) by lia.
Qed.

(** Where the terminal is *)
Definition con_left : Z := 3 * CHAR_WIDTH F.
Definition con_upper : Z := (top F i + 1) * line_height F.
Definition con_cols : Z := inner_width_cols (shell_layout F i).
Definition con_rows : Z := inner_height_rows (shell_layout F i).

(** The shell starts with a terminal in its box. *)
Lemma init_ok d fb :
  display_ok d → s_info (screen d) = i → frame_ok d fb →
  ∃ t d' fb' D, init F (sc_write_fb info_bytes) fb (screens pre post d) = Ret (t, fb', screens pre post d') ∧
    console F i con_left con_upper con_cols con_rows d' fb' t D ∧ editing t ∧ input_buffer t = [] ∧ modifiers t = KeyModifiers.new.
Proof.
  intros Hd Hi Hfb. destruct (draw_ok d fb Hd Hi Hfb) as (d1 & fb1 & E1 & Hd1 & Hi1 & Hfb1 & Hw1 & Hsync).
  pose proof (shell_room F i Hfont Hfits Hwide Hcols Hrows) as Hroom. pose proof Hroom as [R1 R2 R3 R4 R5 R6].
  fold con_left con_upper con_cols con_rows in Hroom, R1, R2, R3, R4, R5, R6.
  pose proof (stride_pos F i con_left con_upper con_cols con_rows Hfont Hroom d1 Hd1 Hi1) as Hst.
  pose proof (display_format _ Hd1) as Hf. pose proof (display_bytes _ Hd1) as H4. pose proof (display_size _ Hd1) as Hsz. pose proof (display_fits _ Hd1) as Hft.
  rewrite Hi1 in Hf, H4, Hsz, Hft. pose proof (console_top_ok (width i / CHAR_WIDTH F) _ Hrows) as Ht. fold (top F i) in Ht.
  destruct (new_tty F i (shell_layout F i) Hfont Hfits Hf H4 eq_refl eq_refl) as (t & E2 & Hok & Hed & Hinf & Hcol & Hin & Hmod);
    [cbn; lia | cbn; lia | exact Hroom | lia | lia |].
  assert (fb_info fb1 = i) as Hfi by (by rewrite (frame_info _ _ Hfb1)).
  unfold init. rewrite E1. cbn [mbind out_bind]. rewrite Hfi, E2. cbn [mbind out_bind].
  set (px := sub_list (words (internal_fb fb1)) (con_upper * stride i) (height i * stride i)).
  pose proof (frame_words_len i d1 fb1 Hd1 Hi1 Hfb1) as Hlen. pose proof (line_height_pos F Hfont). assert (BORDER_PADDING = 3) as HB by done.
  assert (con_upper + con_rows * line_height F ≤ height i) as Hbot by lia. assert (0 ≤ con_rows * line_height F) by nia.
  assert (console F i con_left con_upper con_cols con_rows d1 fb1 t (image_of i px)) as Hcon.
  { split; try done.
    - pose proof (image_shows (view_info i con_upper) (writer t) px Hinf Hst) as Hsh. rewrite Hcol in Hsh.
      replace (len px) with (view_size i con_upper) in Hsh; [exact Hsh|]. unfold px, view_size. rewrite len_sub_list; nia.
    - intros. apply image_word. unfold px, sub_list. by apply Forall_take, Forall_drop.
    - intros n Hn. apply Hsync. split; [nia|]. apply Z.lt_le_trans with ((con_upper + con_rows * line_height F) * stride i); [lia|].
      by apply Z.mul_le_mono_nonneg_r; lia. }
  destruct (prompt_ok F info_bytes pre post i _ _ _ _ Hfont Hfits Hroom Hpre d1 fb1 t _ Hcon) as (t' & fb' & d' & D' & E3 & Hcon' & _ & (Hi1' & Hi2' & Hi3') & _).
  exists t', d', fb', D'. split; [exact E3|]. split; [done|]. split; [|by rewrite Hi1', Hi3']. destruct Hed. split; by rewrite ?Hi1', ?Hi2'.
Qed.

End start.

(** ** Commands *)

(** The words of a line are made of its characters. *)
Lemma split_chars (P : Z → Prop) line : Forall P line → Forall (Forall P) (split_whitespace line).
Proof.
  unfold split_whitespace. intros Hl. assert (Forall P []) as Hw by done. revert Hw. generalize ([] : list Z) as word.
  induction Hl as [|c line Hc _ IH]; intros word Hw; cbn [split_from].
  - destruct (_ =? 0); [done|]. by constructor.
  - destruct (is_whitespace c); [|by apply IH, Forall_app; split; [|constructor]].
    apply Forall_app. split; [destruct (_ =? 0); [done | by constructor] | by apply IH].
Qed.

(** and no word is empty or has white space. *)
Definition is_word (w : list Z) : Prop := w ≠ [] ∧ Forall (λ c, is_whitespace c = false) w.

Lemma split_from_words word line : Forall (λ c, is_whitespace c = false) word → Forall is_word (split_from word line).
Proof.
  assert (∀ w, Forall (λ c, is_whitespace c = false) w → Forall is_word (if len w =? 0 then [] else [w])) as H0.
  { intros [|c w] Hw; [done|]. rewrite len_cons. pose proof (len_nonneg w). rewrite (proj2 (Z.eqb_neq _ _)) by lia. constructor; [by split | done]. }
  revert word. induction line as [|c line IH]; intros word Hw; cbn [split_from]; [by apply H0|].
  destruct (is_whitespace c) eqn:E; [apply Forall_app; split; [by apply H0 | by apply IH]|].
  apply IH, Forall_app. split; [done|]. by constructor.
Qed.

(** Words joined with spaces are found again. *)
Lemma split_from_word word w line :
  Forall (λ c, is_whitespace c = false) w → split_from word (w ++ line) = split_from (word ++ w) line.
Proof.
  intros Hw. revert word. induction Hw as [|c w Hc _ IH]; intros word; [by rewrite app_nil_r|].
  cbn [app split_from]. by rewrite Hc, IH, <- app_assoc.
Qed.

Lemma split_join args : Forall is_word args → split_whitespace (join args) = args.
Proof.
  unfold split_whitespace. induction 1 as [|w args [Hw Hc] Hargs IH]; [done|].
  assert (len w ≠ 0) as Hl by (destruct w; [done | rewrite len_cons; pose proof (len_nonneg w); lia]).
  cbn [join]. destruct args as [|v args].
  - rewrite <- (app_nil_r w), split_from_word by done. cbn. by rewrite (proj2 (Z.eqb_neq _ _)), app_nil_r.
  - rewrite split_from_word by done. cbn [app split_from]. change (is_whitespace 32) with true. cbn iota.
    by rewrite (proj2 (Z.eqb_neq _ _)), IH.
Qed.

Lemma parse_chars (P : Z → Prop) line : Forall P line → Forall P (parse_command_line line).1 ∧ Forall (Forall P) (parse_command_line line).2.
Proof. intros Hl%split_chars. unfold parse_command_line. destruct Hl; [done | by split]. Qed.

Lemma join_chars (P : Z → Prop) args : P 32 → Forall (Forall P) args → Forall P (join args).
Proof.
  intros H32. induction 1 as [|a args Ha Hs IH]; [done|]. cbn [join]. destruct args; [done|]. apply Forall_app. split; [done|]. by constructor.
Qed.

Lemma hex_chars l : bytes l → Forall line_char (l ≫= hex_byte).
Proof.
  intros Hl. apply Forall_bind. eapply Forall_impl; [exact Hl|]. intros b Hb. unfold is_uint in Hb.
  pose proof (Z.mod_pos_bound b 16 ltac:(lia)). assert (0 ≤ b / 16 < 16) by (split; [apply Z.div_pos | apply Z.div_lt_upper_bound]; lia). unfold hex_byte, hex_digit, line_char. cbn.
  repeat constructor; try (case_match; lia); lia.
Qed.

Ltac text_chars := apply (bool_decide_unpack _); by vm_compute.

Lemma debug_chars e : Forall line_char (debug e).
Proof. destruct e; text_chars. Qed.

(** *** Random bytes *)

(** What the shell relies on: the calls on the random device leave the screens alone, and a read gives at most what is
    asked for. *)
Record file_calls_ok (pre post : DeviceFS Display) (calls : FileCalls (DeviceFS Display)) : Prop := mk_file_calls_ok {
  calls_open d : ∃ h, sc_open calls RAND_FILE (screens pre post d) = Ret (screens pre post d, h);
  calls_read h buf o d : 0 ≤ h → bytes buf → ∃ buf' n, sc_read calls h buf o (screens pre post d) = Ret (screens pre post d, (buf', n)) ∧
    len buf' = len buf ∧ bytes buf' ∧ n ≤ len buf;
  calls_close h d : 0 ≤ h → sc_close calls h (screens pre post d) = Ret (screens pre post d);
}.

Section rand.
Context (pre post : DeviceFS Display) (calls : FileCalls (DeviceFS Display)) (Hcalls : file_calls_ok pre post calls).

Lemma read_exact_total h d fuel file buf :
  0 ≤ h → bytes buf → 0 ≤ position file → position file + len buf < 2 ^ 64 → (length buf < fuel)%nat →
  ∃ file' buf' res, @read_exact_loop _ (file_reader (sc_read calls h)) fuel (file, screens pre post d) buf = Ret ((file', screens pre post d), buf', res) ∧
    len buf' = len buf ∧ bytes buf'.
Proof.
  intros Hh. revert file buf. induction fuel as [|fuel IH]; intros file buf Hb Hp Hlt Hf; [lia|]. cbn [read_exact_loop].
  destruct (Z.eqb_spec (len buf) 0) as [|Hne]; [by do 3 eexists|]. cbn [io_read file_reader]. unfold File_read.
  destruct (calls_read _ _ _ Hcalls h buf (position file) d Hh Hb) as (buf1 & n & -> & Hl1 & Hb1 & Hn). cbn [mbind out_bind].
  destruct (Z.ltb_spec n 0); [by do 3 eexists|]. rewrite add_w_ok by lia. cbn [mbind out_bind].
  destruct (Z.eqb_spec n 0); [by do 3 eexists|]. unfold slice_from. rewrite slice_ok by lia. cbn [mbind out_bind].
  destruct (IH (mkFile (position file + n)) (sub_list buf1 n (len buf1))) as (f2 & buf2 & res & -> & Hl2 & Hb2).
  { by apply Forall_take, Forall_drop. } { cbn [position]. lia. } { cbn [position]. rewrite len_sub_list; lia. }
  { pose proof (len_sub_list buf1 n (len buf1)). unfold len in *. lia. }
  cbn [mbind out_bind]. do 3 eexists. split; [reflexivity|]. rewrite len_app, Hl2, !len_sub_list by lia. split; [lia|].
  apply Forall_app. split; [by apply Forall_take, Forall_drop | done].
Qed.

Lemma rand_fill_total d buf :
  bytes buf → len buf < 2 ^ 64 →
  ∃ buf' res, rand_fill calls buf (screens pre post d) = Ret (screens pre post d, buf', res) ∧ len buf' = len buf ∧ bytes buf'.
Proof.
  intros Hb Hl. unfold rand_fill. destruct (calls_open _ _ _ Hcalls d) as [h ->]. cbn [mbind out_bind].
  destruct (Z.ltb_spec h 0); [by do 2 eexists|].
  destruct (read_exact_total h d (S (length buf)) (mkFile 0) buf ltac:(lia) Hb) as (f & buf' & res & E & Hl' & Hb'); [done | cbn; lia | lia |].
  unfold read_exact. rewrite E. cbn [mbind out_bind]. destruct res; repeat (rewrite (calls_close _ _ _ Hcalls) by lia; cbn [mbind out_bind]); by do 2 eexists.
Qed.

End rand.

(** ** The session *)

(** What the events amount to: lines are edited and run, until one is the command to leave. *)
Definition leaves (line : list Z) : bool := bool_decide ((parse_command_line line).1 = txt "exit").

Fixpoint goes_on (st : KeyModifiers * list Z) (events : list KeyEvent) : bool :=
  match events with
  | [] => true
  | e :: events =>
      let st := edit st e in
      if completes e then if leaves st.2 then false else goes_on (st.1, []) events
      else goes_on st events
  end.

Section session.
Context (F : Font) (info_bytes : Info → list Z) (pre post : DeviceFS Display) (i : Info) (L T C R : Z).
Context (Hfont : font_ok F) (Hfits : cursor_fits F i) (Hroom : room_ok F i L T C R) (Hpre : Forall (λ f, df_path f ≠ FB_FILE) pre).
Local Abbreviation console := (console F i L T C R).
Local Abbreviation sc_write := (sc_write_fb info_bytes).

(** From a terminal to a later one, with nothing drawn outside *)
Definition follows (d : Display) (D : Z → Z → Z) (d' : Display) (fb' : FrameBuffer) (t' : Tty) (D' : Z → Z → Z) : Prop :=
  console d' fb' t' D' ∧ outside_same F i T R d d' ∧ sides_same F L C D D'.

Lemma follows_trans d fb t D d1 fb1 t1 D1 d2 fb2 t2 D2 :
  console d fb t D → follows d D d1 fb1 t1 D1 → follows d1 D1 d2 fb2 t2 D2 → follows d D d2 fb2 t2 D2.
Proof.
  intros Hc (Hc1 & Ho1 & Hs1) (Hc2 & Ho2 & Hs2). split; [done|]. split; [|intros a b Ha; by rewrite Hs2, Hs1].
  exact (outside_trans F i L T C R d d1 d2 fb fb1 t t1 D D1 Hc Hc1 Ho1 Ho2).
Qed.

(** The result of an output *)
Definition prints (d : Display) (t : Tty) (D : Z → Z → Z) (r : out (Tty * FrameBuffer * DeviceFS Display)) : Prop :=
  ∃ t' fb' d' D', r = Ret (t', fb', screens pre post d') ∧ follows d D d' fb' t' D' ∧ same_input t t'.

Lemma out_grid_within p s : in_grid C R p → within C R (out_grid C R p s) 0 R.
Proof.
  pose proof (room_cols _ _ _ _ _ _ Hroom). pose proof (room_rows _ _ _ _ _ _ Hroom).
  revert p. induction s as [|c s IH]; intros p Hp; [done|]. cbn [out_grid]. destruct (c =? 10).
  - apply IH. pose proof (Z.mod_pos_bound (p.2 + 1) R ltac:(lia)). split; cbn; lia.
  - apply within_front; [by apply IH, after_in_grid|]. intros u v c'. unfold cell. destruct Hp.
    destruct (Z.eqb_spec u p.1) as [->|], (Z.eqb_spec v p.2) as [->|]; cbn [andb]; try done. intros _. split_and!; try lia. by apply in_rows_all.
Qed.

Lemma write_prints d fb t D s :
  console d fb t D → Forall line_char s → prints d t D (Tty.write_str F sc_write t fb (screens pre post d) s).
Proof.
  intros Hc Hs. destruct (write_str_ok F info_bytes pre post i L T C R Hfont Hfits Hroom Hpre d fb t D s Hc Hs) as (t' & fb' & d' & D' & E & Hc' & Ho & Hi & _ & HD).
  exists t', fb', d', D'. split; [done|]. split; [|done]. split; [done|]. split; [done|]. intros a b Ha. rewrite HD.
  apply (within_sides F i L T C R Hfont _ D 0 R); [|done]. apply out_grid_within. by eapply at_cursor_ok, con_tty.
Qed.

Lemma clear_prints d fb t D : console d fb t D → prints d t D (Tty.clear_screen F sc_write t fb (screens pre post d)).
Proof.
  intros Hc. destruct (clear_screen_ok F info_bytes pre post i L T C R Hfont Hfits Hroom Hpre d fb t D Hc) as (t' & fb' & d' & D' & E & Hc' & Ho & Hi & _ & _ & HD).
  exists t', fb', d', D'. split; [done|]. split; [|done]. split; [done|]. split; [done|]. intros a b Ha. rewrite HD.
  by apply (within_sides F i L T C R Hfont _ D 0 R (within_cleared C R 0 R)).
Qed.

Lemma prompt_prints d fb t D : console d fb t D → prints d t D (Tty.display_prompt F sc_write t fb (screens pre post d)).
Proof.
  intros Hc. destruct (prompt_ok F info_bytes pre post i L T C R Hfont Hfits Hroom Hpre d fb t D Hc) as (t' & fb' & d' & D' & E & Hc' & Ho & Hi & _ & HD).
  exists t', fb', d', D'. split; [done|]. split; [|done]. split; [done|]. split; [done|]. intros a b Ha. rewrite HD.
  pose proof (room_cols _ _ _ _ _ _ Hroom). pose proof (room_rows _ _ _ _ _ _ Hroom).
  apply (within_sides F i L T C R Hfont _ D 0 R); [|done]. apply within_span_all; try lia. pose proof (tty_row _ _ _ _ _ _ (con_tty _ _ _ _ _ _ _ _ _ _ Hc)).
  split; cbn; lia.
Qed.

(** One output after another *)
Lemma prints_then d fb t D r f :
  console d fb t D → prints d t D r →
  (∀ t' fb' d' D', console d' fb' t' D' → prints d' t' D' (f t' fb' (screens pre post d'))) →
  prints d t D ('(t, fb, k) ← r; f t fb k).
Proof.
  intros Hc (t1 & fb1 & d1 & D1 & -> & H1 & I1 & I2 & I3) Hf. cbn [mbind out_bind].
  destruct (Hf t1 fb1 d1 D1 (proj1 H1)) as (t2 & fb2 & d2 & D2 & -> & H2 & J1 & J2 & J3).
  exists t2, fb2, d2, D2. split; [done|]. split; [by eapply follows_trans|]. split_and!; congruence.
Qed.

Lemma echo_prints args d fb t D :
  console d fb t D → Forall (Forall line_char) args → prints d t D (cmd_echo F sc_write args t fb (screens pre post d)).
Proof.
  intros Hc Ha. unfold cmd_echo. eapply prints_then; [exact Hc | |intros; apply write_prints; [done | text_chars]].
  destruct (_ =? 0); [|by apply write_prints, join_chars].
  exists t, fb, d, D. split; [done|]. split; [|done]. split; [done|]. by split.
Qed.

(** A command returns, with a message that can be written if it fails. *)
Definition runs (d : Display) (t : Tty) (D : Z → Z → Z) (left : bool) (r : out (Tty * FrameBuffer * DeviceFS Display * Outcome)) : Prop :=
  ∃ o r', r = ('(t, fb, k) ← r'; Ret (t, fb, k, o)) ∧ prints d t D r' ∧
    match o with Exit => left = true | Done (Ok _) => left = false | Done (Err e) => left = false ∧ Forall line_char e end.

Lemma stays_prints d fb t D : console d fb t D → prints d t D (Ret (t, fb, screens pre post d)).
Proof. intros Hc. exists t, fb, d, D. split; [done|]. split; [|done]. split; [done|]. by split. Qed.

Lemma rand_runs calls args d fb t D :
  file_calls_ok pre post calls → console d fb t D →
  runs d t D false ('(tty, fb, k, res) ← cmd_rand F sc_write calls args t fb (screens pre post d); Ret (tty, fb, k, Done res)).
Proof.
  intros Hcalls Hc.
  assert (∀ e, Forall line_char e → runs d t D false
    ('(tty, fb, k, res) ← Ret (t, fb, screens pre post d, Err e); Ret (tty, fb, k, Done res))) as Hfail.
  { intros e He. exists (Done (Err e)), (Ret (t, fb, screens pre post d)). split; [done|]. split; [by apply stays_prints | done]. }
  unfold cmd_rand. destruct (match args with [] => _ | _ => _ end) as [n|]; [|apply Hfail; text_chars].
  destruct (_ || _) eqn:En; [apply Hfail; text_chars|]. unfold MAX_NUM_BYTES in En.
  destruct (rand_fill_total pre post calls Hcalls d (replicate (Z.to_nat n) 0)) as (buf & res & -> & _ & Hb).
  { apply Forall_replicate. unfold is_uint. lia. } { unfold len. rewrite length_replicate. lia. }
  cbn [mbind out_bind]. destruct res as [_|e]; [|apply Hfail, Forall_app; split; [text_chars | apply debug_chars]].
  exists (Done (Ok tt)), ('(t, fb, k) ← Tty.write_str F sc_write t fb (screens pre post d) (txt "Random Bytes: ");
    '(t, fb, k) ← Tty.write_str F sc_write t fb k (buf ≫= hex_byte); Tty.write_str F sc_write t fb k [10]).
  split; [|split; [|done]].
  - destruct (Tty.write_str F sc_write t fb (screens pre post d) _) as [[[t1 fb1] k1]|]; [|done]. cbn [mbind out_bind].
    destruct (Tty.write_str F sc_write t1 fb1 k1 _) as [[[t2 fb2] k2]|]; [|done]. cbn [mbind out_bind].
    by destruct (Tty.write_str F sc_write t2 fb2 k2 _) as [[[t3 fb3] k3]|].
  - eapply prints_then; [exact Hc | apply write_prints; [done | text_chars]|]. intros t1 fb1 d1 D1 H1.
    eapply prints_then; [exact H1 | by apply write_prints, hex_chars |]. intros. apply write_prints; [done | text_chars].
Qed.

Lemma execute_runs calls command args d fb t D :
  file_calls_ok pre post calls → console d fb t D → Forall line_char command → Forall (Forall line_char) args →
  runs d t D (bool_decide (command = txt "exit")) (execute_command F sc_write calls command args t fb (screens pre post d)).
Proof.
  intros Hcalls Hc Hcmd Hargs. unfold execute_command.
  assert (∀ r, prints d t D r → runs d t D false ('(t, fb, k) ← r; Ret (t, fb, k, Done (Ok tt)))) as Hdone by (intros r Hr; by eexists _, r).
  case_bool_decide as He; [subst; by exists Exit, (Ret (t, fb, screens pre post d)); split; [|split; [apply stays_prints|]]|].
  case_bool_decide; [subst; apply (Hdone (Ret (t, fb, screens pre post d))), stays_prints, Hc|].
  case_bool_decide; [subst; apply Hdone, write_prints; [done | text_chars]|].
  case_bool_decide; [subst; by apply Hdone, echo_prints|]. case_bool_decide; [subst; by apply Hdone, clear_prints|].
  case_bool_decide; [by apply rand_runs|].
  eexists (Done (Err _)), (Ret (t, fb, screens pre post d)). split; [done|]. split; [by apply stays_prints|]. split; [done|].
  apply Forall_app. split; [text_chars | done].
Qed.

(** After a command its error is written, and a prompt. *)
Lemma report_prints res d fb t D :
  console d fb t D → match res with Ok _ => True | Err e => Forall line_char e end →
  prints d t D (match res : result unit (list Z) with Ok _ => Ret (t, fb, screens pre post d)
    | Err e => Tty.write_str F sc_write t fb (screens pre post d) (txt "Error: " ++ e ++ [10]) end).
Proof.
  intros Hc He. destruct res; [by apply stays_prints|]. apply write_prints; [done|]. rewrite !Forall_app. split_and!; [text_chars | done | text_chars].
Qed.

Lemma input_console d fb t D b n : console d fb t D → console d fb (set_input t b n) D.
Proof. intros []. split; try done. by apply set_input_ok. Qed.

(** *** One round *)
Lemma on_event_ok calls e d fb t D :
  file_calls_ok pre post calls → console d fb t D → editing t →
  let st := edit (modifiers t, input_buffer t) e in
  ∃ t' fb' d' D', on_event F sc_write calls e t fb (screens pre post d) =
      Ret (t', fb', screens pre post d', negb (completes e && leaves st.2)) ∧
    follows d D d' fb' t' D' ∧ editing t' ∧ (modifiers t', input_buffer t') = if completes e then (st.1, []) else st.
Proof.
  intros Hcalls Hc Hed st. unfold on_event.
  destruct (handle_ok F info_bytes pre post i L T C R Hfont Hfits Hroom Hpre d fb t D e Hc Hed) as (t1 & fb1 & d1 & D1 & -> & H1 & Ho1 & Hs1 & Hed1 & Hst & _).
  fold st in Hst. cbn [mbind out_bind]. assert (follows d D d1 fb1 t1 D1) as F1 by done. destruct (completes e); [|by exists t1, fb1, d1, D1].
  cbn [andb Tty.drain_input_line]. rewrite <- Hst. cbn [snd fst]. unfold leaves. set (t2 := set_input t1 [] 0).
  assert (Forall line_char (input_buffer t1)) as Hch by (eapply Forall_impl; [apply (editing_chars _ Hed1)|]; by intros c []).
  apply parse_chars in Hch as [Hcmd Hargs]. destruct (parse_command_line (input_buffer t1)) as [command args]. cbn [fst snd] in *.
  assert (console d1 fb1 t2 D1) as H2 by by apply input_console.
  destruct (execute_runs calls command args d1 fb1 t2 D1 Hcalls H2 Hcmd Hargs) as (o & r & -> & (t3 & fb3 & d3 & D3 & -> & F3 & I1 & I2 & I3) & Ho).
  cbn [mbind out_bind]. assert (follows d D d3 fb3 t3 D3) as F13 by by eapply follows_trans.
  destruct o as [res|].
  2: { rewrite Ho. exists t3, fb3, d3, D3. split; [done|]. split; [done|]. split; [split; by rewrite I1, ?I2|]. by rewrite I1, I3. }
  assert (bool_decide (command = txt "exit") = false) as -> by (destruct res; [done | by destruct Ho]).
  destruct (report_prints res d3 fb3 t3 D3 (proj1 F3)) as (t4 & fb4 & d4 & D4 & -> & F4 & J1 & J2 & J3); [by destruct res; [|destruct Ho]|].
  cbn [mbind out_bind].
  destruct (prompt_prints d4 fb4 (Tty.reset_input t4) D4) as (t5 & fb5 & d5 & D5 & -> & F5 & K1 & K2 & K3); [by apply input_console, F4|].
  cbn [mbind out_bind Tty.reset_input set_input input_buffer cursor_pos modifiers] in *. exists t5, fb5, d5, D5. split; [done|].
  split; [eapply follows_trans; [exact Hc | | exact F5]; eapply follows_trans; [exact Hc | exact F13 | exact F4]|].
  split; [split; by rewrite ?K1, ?K2|]. rewrite K1, K3, J3, I3. done.
Qed.

Lemma run_ok events d fb t D :
  Forall (λ e, file_calls_ok pre post e.2) events → console d fb t D → editing t →
  ∃ t' fb' d' D', run F sc_write events t fb (screens pre post d) =
      Ret (t', fb', screens pre post d', goes_on (modifiers t, input_buffer t) (fst <$> events)) ∧
    follows d D d' fb' t' D' ∧ editing t'.
Proof.
  intros Hev. revert d fb t D. induction Hev as [|[e calls] events Hcalls _ IH]; intros d fb t D Hc Hed.
  { exists t, fb, d, D. split; [done|]. split; [|done]. split; [done|]. by split. }
  cbn [run fmap list_fmap fst goes_on]. destruct (on_event_ok calls e d fb t D Hcalls Hc Hed) as (t1 & fb1 & d1 & D1 & -> & F1 & Hed1 & Hst).
  cbv zeta in *. cbn [mbind out_bind]. set (st := edit _ e) in *.
  destruct (completes e && leaves st.2) eqn:Ex; cbn [negb].
  - apply andb_true_iff in Ex as [-> ->]. by exists t1, fb1, d1, D1.
  - destruct (IH d1 fb1 t1 D1 (proj1 F1) Hed1) as (t2 & fb2 & d2 & D2 & -> & F2 & Hed2). rewrite Hst.
    exists t2, fb2, d2, D2. split; [|split; [by eapply follows_trans | done]].
    do 2 f_equal. destruct (completes e); [|done]. cbn [andb] in Ex. by rewrite Ex.
Qed.

(** The pixels of the screen that are not of the cells of the terminal *)
Definition beside (n : Z) : Prop :=
  n / stride i < T ∨ T + R * line_height F ≤ n / stride i ∨ n mod stride i < L ∨ L + C * CHAR_WIDTH F ≤ n mod stride i.

Lemma follows_beside d fb t D d' fb' t' D' n :
  console d fb t D → follows d D d' fb' t' D' → 0 ≤ n < height i * stride i → beside n →
  byte_at (raw_buffer (screen d')) n = byte_at (raw_buffer (screen d)) n.
Proof.
  intros Hc (Hc' & Ho & Hs) Hn Hb. pose proof Hc as [Hd Hi Hfb _ Hv _ Hy]. pose proof Hc' as [Hd' Hi' Hfb' _ Hv' _ Hy'].
  pose proof (stride_pos F i L T C R Hfont Hroom d Hd Hi) as Hst. pose proof (Z.div_mod n (stride i) ltac:(lia)). pose proof (Z.mod_pos_bound n (stride i) Hst).
  assert (0 ≤ n < len (raw_buffer (screen d))) as Hl by (rewrite (display_buffer _ Hd), Hi; lia).
  destruct (decide (n / stride i < T ∨ T + R * line_height F ≤ n / stride i)) as [Hout|Hin]; [by apply Ho|].
  assert (T * stride i ≤ n < (T + R * line_height F) * stride i) as Hrow by nia.
  rewrite Hy, Hy' by done. f_equal. rewrite (view_dot F i L T C R Hfont Hroom d' fb' t' D' n) by (done || lia).
  rewrite (view_dot F i L T C R Hfont Hroom d fb t D n) by (done || lia). apply Hs. destruct Hb as [|[|[|]]]; tauto || lia.
Qed.

End session.

(** C18: the shell.  On a screen of at least ten by nine characters the shell starts: it draws its picture and its box,
    lays out the terminal in it and writes the prompt.  From then on, whatever keys are pressed and whatever the random
    device answers, as long as a read gives at most what is asked for and the screen is left alone, no round panics, and the shell goes on exactly as long as none of the lines that are typed and
    edited is the command to leave.  Its commands and its prompt draw in the cells of the terminal only: all other
    pixels of the screen, the picture and the box among them, stay as they were drawn. *)
Theorem shell_safe F info_bytes pre post d fb :
  let i := s_info (screen d) in
  font_ok F → 2 ≤ CHAR_WIDTH F → cursor_fits F i → 10 ≤ width i / CHAR_WIDTH F → 9 ≤ height i / line_height F →
  Forall (λ f, df_path f ≠ FB_FILE) pre → display_ok d → frame_ok d fb →
  ∃ t0 fb0 d0, init F (sc_write_fb info_bytes) fb (screens pre post d) = Ret (t0, fb0, screens pre post d0) ∧
    ∀ events, Forall (λ e, file_calls_ok pre post e.2) events →
    ∃ t fb' d', run F (sc_write_fb info_bytes) events t0 fb0 (screens pre post d0) =
        Ret (t, fb', screens pre post d', goes_on (KeyModifiers.new, []) (fst <$> events)) ∧
      ∀ n, 0 ≤ n < height i * stride i → beside F i (con_left F) (con_upper F i) (con_cols F i) (con_rows F i) n →
        byte_at (raw_buffer (screen d')) n = byte_at (raw_buffer (screen d0)) n.
Proof.
  intros i Hfont Hwide Hfits Hcols Hrows Hpre Hd Hfb. pose proof (shell_room F i Hfont Hfits Hwide Hcols Hrows) as Hroom.
  destruct (init_ok F info_bytes pre post i Hfont Hfits Hpre Hwide Hcols Hrows d fb Hd eq_refl Hfb) as (t0 & d0 & fb0 & D0 & E & Hc & Hed & Hin & Hmod).
  exists t0, fb0, d0. split; [exact E|]. intros events Hev.
  destruct (run_ok F info_bytes pre post i _ _ _ _ Hfont Hfits Hroom Hpre events d0 fb0 t0 D0 Hev Hc Hed) as (t & fb' & d' & D' & E' & Hfo & _).
  rewrite Hin, Hmod in E'. exists t, fb', d'. split; [exact E'|]. intros n Hn Hb.
  exact (follows_beside F info_bytes i _ _ _ _ Hfont Hroom d0 fb0 t0 D0 d' fb' t D' n Hc Hfo Hn Hb).
Qed.

(** A screen of ten by ten characters, and a random device that gives what is asked for *)
Definition shell_info : Info := mkInfo 3840 24 40 Rgb 24 4.
Definition shell_screen : Display := mkDisplay (mkScreen (replicate 960 0) shell_info) false None.
Definition shell_fb : FrameBuffer := mkFrameBuffer shell_info (mkFile 0) (replicate 3840 0).
Definition demo_calls : FileCalls (DeviceFS Display) :=
  mkFileCalls _ (λ _ k, Ret (k, 3)) (λ _ buf _ k, Ret (k, (buf, len buf))) (λ _ k, Ret k).
Definition typed (keys : list KeyCode.t) : list (KeyEvent * FileCalls (DeviceFS Display)) :=
  (λ k, (mkKeyEvent k Pressed, demo_calls)) <$> keys ++ [KeyCode.Enter].

Lemma typed_ok keys : Forall (λ e, file_calls_ok [] [] e.2) (typed keys).
Proof.
  unfold typed. apply Forall_fmap, Forall_true. intros k. split; [by eexists | intros h buf o e _ Hb; by exists buf, (len buf) | done].
Qed.

(** The random bytes are written, and the command to leave ends the session. *)
Lemma shell_safe_witness :
  ∃ t0 fb0 d0, init small_font (sc_write_fb (λ _, [])) shell_fb (screens [] [] shell_screen) = Ret (t0, fb0, screens [] [] d0) ∧
    (∃ t fb' d', run small_font (sc_write_fb (λ _, [])) (typed [KeyCode.R; KeyCode.A; KeyCode.N; KeyCode.D]) t0 fb0 (screens [] [] d0) =
       Ret (t, fb', screens [] [] d', true)) ∧
    ∃ t fb' d', run small_font (sc_write_fb (λ _, [])) (typed [KeyCode.E; KeyCode.X; KeyCode.I; KeyCode.T] ++ typed [KeyCode.A]) t0 fb0 (screens [] [] d0) =
       Ret (t, fb', screens [] [] d', false).
Proof.
  destruct (shell_safe small_font (λ _, []) [] [] shell_screen shell_fb) as (t0 & fb0 & d0 & E & Hrun).
  - exact demo_font_ok.
  - by vm_compute.
  - split; by vm_compute.
  - by vm_compute.
  - by vm_compute.
  - done.
  - split; by vm_compute.
  - split; [done | by vm_compute |]. apply Forall_replicate. unfold is_uint. lia.
  - exists t0, fb0, d0. split; [exact E|]. split.
    + destruct (Hrun _ (typed_ok [KeyCode.R; KeyCode.A; KeyCode.N; KeyCode.D])) as (t & fb' & d' & Er & _).
      exists t, fb', d'. exact Er.
    + destruct (Hrun _ (Forall_app_2 _ _ _ (typed_ok [KeyCode.E; KeyCode.X; KeyCode.I; KeyCode.T]) (typed_ok [KeyCode.A]))) as (t & fb' & d' & Er & _).
      exists t, fb', d'. exact Er.
Defined.
